(* ===== verification/_CoqProject ===== *)
-Q . S2P
Prelude.v
Abi.v
Control.v
CapTable.v
CapTableFacts.v
CapRevoke.v
CapTrace.v
CapTheorems.v
CapDerive.v
Ring.v
RingFacts.v
RingInv.v
RingTheorems.v
RingService.v
Bytes.v
StoreRecords.v
StoreCodecs.v
BTree.v
ZoneDevice.v
ZoneDeviceFacts.v
ZoneMap.v
ZoneMapFacts.v
ZoneOps.v
ZoneTheorems.v
ZoneMount.v
Deadline.v
ZoneQueue.v
Roots.v
BlockDevice.v
IndexRecord.v
Index.v
IndexFacts.v
IndexTheorems.v
Extents.v
Reserve.v
ReserveFacts.v
ReserveInv.v
ReserveTheorems.v
Chunker.v
ChunkerTheorems.v
Sha256.v
Store.v
StoreFacts.v
StoreTheorems.v
StoreObjects.v
ZoneStore.v
Mark.v
MarkFacts.v
Collector.v
CollectorFacts.v
CollectorTheorems.v
CollectorSelect.v
MarkTheorems.v
FrameLists.v
FrameAllocator.v
FrameSort.v
FrameShard.v
FrameCoalesce.v
FrameFrontier.v
FrameOps.v
FrameRegion.v
FrameCalls.v
FrameTheorems.v
Generation.v
GenerationTheorems.v
Boot.v
BootTheorems.v
Publish.v
PublishFacts.v
PublishTheorems.v
MountFacts.v
MountTheorems.v
ExtentObject.v
ExtentFacts.v
ExtentTheorems.v
SceneWire.v
SceneArena.v
SceneForest.v
SceneTheorems.v
Swap.v
