(* ===== verification/Prelude.v ===== *)
(** * A verification development for F, a research operating system

    F keeps authority in tables of capabilities, moves work through rings of
    shared memory, keeps its state in a content-addressed store on zoned
    devices, draws from a retained scene, and admits work by arithmetic over
    what a machine has. This development models those parts, from the sources
    under [src/], and proves what each promises its callers. This file is the
    root: it holds the result and state-passing types every model is written
    in, machine integers, bit fields, and the tactics the files share.

    ** How the code is read

    A method taking [&mut self] and answering a [Result] is a function of type
    [sm S E A], from a state to an answer and a state, written with [do!]; [?]
    keeps what was already written when it returns early.  Machine integers are
    [Z]: a wrap is a [mod], a checked operation a comparison with the maximum,
    and an overflow, an index outside its vector or a division by zero is the
    fault [Panicked] (in [Reserve], [Stopped]), which the theorems show is not
    reached.  Arrays and vectors are lists, maps are [gmap], and a [BTreeMap]
    that is walked in order is walked by [BTree.btree_list].  Loops are
    recursion on the list walked, or on fuel that the theorems show is enough.

    ** The parts

    - Capabilities.  [Abi] and [Control] are the words on the wire
      ([abi/src/lib.rs], [cap.rs], [control.rs]); [CapTable] is
      [kernel/src/cap.rs] and [kernel/src/watermark.rs], every operation of the
      table: [CapTableFacts], [CapRevoke] and [CapTrace] build up its invariant,
      [CapTheorems] and [CapDerive] state what it promises: revocation is exact
      and final, rights only narrow, no handle is forged, what [derive] answers
      on every branch.
    - Rings.  [Ring] is the memory of a channel and both its ends
      ([ring/src/]); [RingFacts] relates it to a bounded queue and splits both
      ends into loads and stores behind store buffers, [RingInv] is the
      invariant of every interleaving, [RingTheorems] the theorems: refinement
      of a queue, order, no lost wakeup.  [RingService] executes and drains
      submissions against an abstract sink.
    - Records.  [Bytes] is little-endian words and fixed layouts;
      [StoreRecords] and [StoreCodecs] are every record of
      [abi/src/store.rs], each an instance of the class [Codec].
    - Memory.  [FrameLists] and [FrameAllocator] are [kernel/src/mem.rs], the
      free lists kept inside the memory they list.  [Extents] counts how many
      intervals an address lies in; [FrameSort], [FrameShard], [FrameCoalesce],
      [FrameFrontier], [FrameOps] and [FrameRegion] say what each part does to
      the intervals owned and free; [FrameCalls] is every state the kernel can
      bring the allocator to, and [FrameTheorems] what holds there: no frame is
      shared, none is lost, an allocation fails only when nothing is left.
    - Devices and zones.  [ZoneDevice] is the trait [Zoned] as a class, with
      what it promises as the class [ZonedLaws], and the device in memory,
      proved an instance in [ZoneDeviceFacts] ([zone/src/device.rs]).
      [ZoneMap] is [zone/src/map.rs] over any such device; [ZoneMapFacts] and
      [ZoneOps] carry its invariant, [ZoneTheorems] the refinement of a plain
      map of blocks, [ZoneMount] the remount from write pointers.  [ZoneQueue]
      and [Roots] are the driver's queue and the root set ([zone/src/queue.rs],
      [roots.rs]); [Deadline] is inherited urgency ([abi/src/deadline.rs]).
    - The index.  [BlockDevice] is the trait [Device], its laws and the device
      in memory ([blob/src/device.rs]); [IndexRecord] one entry of the log
      ([index/src/record.rs]); [Index] the map and its log
      ([index/src/index.rs]); [IndexFacts] what a region of a device holds, and
      [IndexTheorems] what survives a remount.
    - The store.  [Chunker] is [blob/src/gear.rs] and [chunk.rs] with the seeds
      they draw from ([env/src/split.rs]), [ChunkerTheorems] what its
      boundaries promise; [Sha256] is [hash/src/lib.rs], streaming, against the
      standard's padding.  [Store] is [blob/src/store.rs] over any [Device];
      [StoreFacts] reads its records back, [StoreTheorems] says what a put and a
      get come to and what a mount finds, [StoreObjects] that an object is put
      together again.  [ExtentObject] is [blob/src/extent.rs] over the store,
      with [ExtentFacts] and [ExtentTheorems].
    - Collection.  [ZoneStore] makes the zone map a [Device], so that the store
      runs over it.  [Mark] and [Collector] are [zone/src/mark.rs] and
      [collect.rs]; [MarkFacts] and [MarkTheorems] say the mark ends and has
      found everything, [CollectorFacts], [CollectorTheorems] and
      [CollectorSelect] that a cycle keeps what is reachable, however its steps
      are interleaved with a client's.
    - Publishing and mounting.  [Publish] is [zone/src/publish.rs] and
      [mount.rs]; [PublishFacts] and [PublishTheorems] show a publish cut short
      anywhere leaves the old root or the new one, [MountFacts] and
      [MountTheorems] that a mount takes the newest record whose tree is there.
    - Generations.  [Generation] is the [generation] crate's trees and folds,
      [Boot] the loader's words and modules ([abi/src/boot.rs],
      [generation/src/select.rs]); [GenerationTheorems] and [BootTheorems] say
      what is accepted, what a root names and which module is booted.
    - The scene.  [SceneWire] is the deltas of [abi/src/scene.rs], [SceneArena]
      the forest of [scene/src/arena.rs] in its array of slots, [SceneForest]
      what the slots mean, and [SceneTheorems] the refinement of a map of nodes
      with their children in paint order.
    - Admission.  [Reserve] is [abi/src/reserve.rs]: machines, demands, grants
      and the table; [ReserveFacts] reasons on bitmaps and runs of cores,
      [ReserveInv] carries the invariant, [ReserveTheorems] says the machine is
      never over-subscribed.
    - Swaps.  [Swap] is [abi/src/transfer.rs] and [swap.rs], and shows that a
      swap takes every step, in order, or leaves the routing word alone.

    [BTree] is the ordered maps several of them walk.  A client is proved
    against an interface: [ZoneMap] against [ZonedLaws], [Index] and [Store]
    against [DeviceLaws], and the devices in memory, and the mapping itself,
    discharge them.

    ** Bounds and fuel

    The scan of a block takes its length as fuel and every entry moves the
    cursor; the scan of a log or a store takes its blocks; the search for a
    free run takes the machine's cores; the collector's turn of the queue takes
    the entries pending. A loop of the frame allocator whose turns the memory
    bounds takes the turns a [u64] can count, and the theorem that calls return
    shows it stops before; the walk of a tree at a mount takes its fuel as an
    argument, and [MountFacts.walk_bound], one more than the names a mounted
    store's blobs hold, is enough; a walk along the links of a scene takes its
    1024 slots. Each theorem about such a loop is about its answer, so a loop
    that ran out of fuel would refute it.

    ** What is not modelled

    Code whose meaning is in the hardware: page tables, address spaces,
    interrupts, device registers, and the atomics' memory orders except in the
    rings, where both ends are interleaved behind store buffers.  Of the modules
    above, the texts of refusals for logs, the self tests of [kernel/src/mem.rs]
    and the builds that plant a defect.  What draws: text, layout and the frames
    built from the scene.  The codecs of services that are not modelled
    themselves, the simulator, the tools, and the programs under [user/] that
    glue these parts to channels.  The list of components kept beside these
    files names every part, with its reason. *)

From Stdlib Require Export ZArith Lia.
From stdpp Require Export base numbers list gmap sets option.
#[global] Open Scope Z_scope.

(** ** Results, and state passing with early return *)

(** Rust's [Result<A, i32>] (the error type is a parameter because a few
    components refuse with an enumeration of their own). *)
Inductive res (E A : Type) : Type :=
| Ok (a : A)
| Err (e : E).
Arguments Ok {E A} a.
Arguments Err {E A} e.

#[global] Instance res_eq_dec {E A : Type} `{EqDecision E} `{EqDecision A} :
  EqDecision (res E A).
Proof. solve_decision. Defined.

Definition is_ok {E A : Type} (r : res E A) : bool :=
  match r with Ok _ => true | Err _ => false end.

Definition res_bind {E A B : Type} (r : res E A) (k : A → res E B) : res E B :=
  match r with Ok a => k a | Err e => Err e end.

Lemma ok_inj {E A : Type} (a b : A) : Ok (E := E) a = Ok b → a = b.
Proof. by intros [= ->]. Qed.

Definition ok_or {E A : Type} (o : option A) (e : E) : res E A :=
  match o with Some a => Ok a | None => Err e end.

(** A method taking [&mut self] and returning a [Result]: the state reached is
    kept on the error branches too, because [?] returns early and does not undo
    what was already written. *)
Definition sm (S E A : Type) : Type := S → res E A * S.

Definition sm_ret {S E A : Type} (a : A) : sm S E A := λ s, (Ok a, s).
Definition sm_err {S E A : Type} (e : E) : sm S E A := λ s, (Err e, s).
Definition sm_bind {S E A B : Type} (m : sm S E A) (k : A → sm S E B) : sm S E B :=
  λ s, match m s with
       | (Ok a, s') => k a s'
       | (Err e, s') => (Err e, s')
       end.
Definition sm_lift {S E A : Type} (r : res E A) : sm S E A := λ s, (r, s).
Definition sm_get {S E A : Type} (f : S → A) : sm S E A := λ s, (Ok (f s), s).
Definition sm_put {S E : Type} (f : S → S) : sm S E unit := λ s, (Ok tt, f s).

Declare Scope f_scope.
Delimit Scope f_scope with F.
#[global] Open Scope f_scope.

Notation "'let?' x := r 'in' k" := (res_bind r (λ x, k))
  (at level 10, x pattern, r at level 100, k at level 200,
   format "'[v' 'let?'  x  :=  r  'in' '/' k ']'") : f_scope.
Notation "'do!' x <- m ; k" := (sm_bind m (λ x, k))
  (at level 10, x pattern, m at level 100, k at level 200,
   format "'[v' 'do!'  x  <-  m ; '/' k ']'") : f_scope.

(** A call refuses with a packed word, or the program stops: an index outside
    its vector, a division by zero, an overflow. *)
Inductive fault : Type := Refused (code : Z) | Panicked.

#[global] Instance fault_eq_dec : EqDecision fault.
Proof. solve_decision. Defined.

Definition refuse {S A : Type} (code : Z) : sm S fault A := sm_err (Refused code).

(** Indexing a vector. *)
Definition index_or_panic {A : Type} (l : list A) (i : Z) : res fault A :=
  if i <? 0 then Err Panicked else ok_or (l !! Z.to_nat i) Panicked.

Definition option_or_refuse {A : Type} (o : option A) (code : Z) : res fault A := ok_or o (Refused code).

(** ** Machine integers *)

Definition u8_max : Z := 2 ^ 8 - 1.
Definition u16_max : Z := 2 ^ 16 - 1.
Definition u32_max : Z := 2 ^ 32 - 1.
Definition u64_max : Z := 2 ^ 64 - 1.
(** The longest buffer an allocation gives. *)
Definition isize_max : Z := 2 ^ 63 - 1.

Lemma isize_below : isize_max ≤ u64_max.
Proof. unfold isize_max, u64_max. lia. Qed.


(** [z] is a value of the unsigned type of [w] bits. *)
Definition is_uint (w z : Z) : Prop := 0 ≤ z < 2 ^ w.

#[global] Instance is_uint_dec w z : Decision (is_uint w z).
Proof. unfold is_uint. apply _. Defined.

(** [wrapping_add], [wrapping_sub] and [saturating_add], at width [w]. *)
Definition wrapping_add (w a b : Z) : Z := (a + b) mod 2 ^ w.
Definition wrapping_sub (w a b : Z) : Z := (a - b) mod 2 ^ w.
Definition saturating_add (w a b : Z) : Z := Z.min (a + b) (2 ^ w - 1).
Definition saturating_sub (a b : Z) : Z := Z.max (a - b) 0.

Lemma wrapping_add_range w a b : 0 ≤ w → is_uint w (wrapping_add w a b).
Proof. intros. apply Z.mod_pos_bound. lia. Qed.

Lemma wrapping_sub_range w a b : 0 ≤ w → is_uint w (wrapping_sub w a b).
Proof. intros. apply Z.mod_pos_bound. lia. Qed.

(** The occupancy of a ring whose cursors wrap: moving the head on by one
    lengthens it by one while it is below the width. *)
Lemma wrapping_sub_add w a b n :
  0 ≤ w → 0 ≤ wrapping_sub w a b + n < 2 ^ w →
  wrapping_sub w (wrapping_add w a n) b = wrapping_sub w a b + n.
Proof.
  unfold wrapping_sub, wrapping_add. intros Hw Hn.
  rewrite Zminus_mod_idemp_l.
  replace (a + n - b) with ((a - b) + n) by lia.
  rewrite <- Zplus_mod_idemp_l. by apply Z.mod_small.
Qed.

Lemma wrapping_sub_sub w a b n :
  0 ≤ w → 0 ≤ wrapping_sub w a b - n < 2 ^ w →
  wrapping_sub w a (wrapping_add w b n) = wrapping_sub w a b - n.
Proof.
  unfold wrapping_sub, wrapping_add. intros Hw Hn.
  rewrite Zminus_mod_idemp_r.
  replace (a - (b + n)) with ((a - b) - n) by lia.
  rewrite <- Zminus_mod_idemp_l. by apply Z.mod_small.
Qed.

Lemma wrapping_sub_diag w a : 0 ≤ w → wrapping_sub w a a = 0.
Proof. intros. unfold wrapping_sub. by rewrite Z.sub_diag, Z.mod_0_l by lia. Qed.

(** ** Bit fields *)

Lemma land_ones_mod w z : 0 ≤ w → Z.land z (2 ^ w - 1) = z mod 2 ^ w.
Proof. intros. by rewrite <- Z.land_ones, Z.ones_equiv. Qed.

(** A field shifted above [w] bits, or-ed with one of [w] bits. *)
Lemma lor_shiftl_split w hi lo :
  0 ≤ w → 0 ≤ lo < 2 ^ w → Z.lor (Z.shiftl hi w) lo = hi * 2 ^ w + lo.
Proof.
  intros Hw Hlo. rewrite Z.shiftl_mul_pow2 by done.
  assert (Hd : Z.land (hi * 2 ^ w) lo = 0).
  { apply Z.bits_inj'. intros i Hi. rewrite Z.land_spec, Z.bits_0.
    destruct (decide (i < w)); [by rewrite Z.mul_pow2_bits_low|].
    destruct (decide (lo = 0)) as [->|]; [by rewrite Z.bits_0, andb_false_r|].
    rewrite (Z.bits_above_log2 lo), andb_false_r; [done|lia|].
    apply Z.log2_lt_pow2; [lia|]. eapply Z.lt_le_trans; [apply Hlo|].
    apply Z.pow_le_mono_r; lia. }
  by rewrite Z.add_nocarry_lxor, Z.lxor_lor.
Qed.

Lemma shiftr_split w hi lo :
  0 ≤ w → 0 ≤ lo < 2 ^ w → Z.shiftr (hi * 2 ^ w + lo) w = hi.
Proof.
  intros Hw Hlo. rewrite Z.shiftr_div_pow2 by done.
  rewrite Z.add_comm, Z.div_add by lia. rewrite Z.div_small by done. lia.
Qed.

(** ** Tactics *)

(** Reduce the control structure of a translated function and nothing else. *)
Ltac rsimpl :=
  cbn [res_bind ok_or negb andb orb fst snd sm_bind sm_ret sm_err sm_lift sm_get sm_put
       mbind option_bind fmap option_fmap option_map is_ok].

Ltac rsimpl_in H :=
  cbn [res_bind ok_or negb andb orb fst snd sm_bind sm_ret sm_err sm_lift sm_get sm_put
       mbind option_bind fmap option_fmap option_map is_ok] in H.

(** ** A bit tested and set through a mask *)
Lemma testbit_mask w n : 0 ≤ n → negb (Z.land w (Z.shiftl 1 n) =? 0) = Z.testbit w n.
Proof.
  intros Hn. rewrite Z.shiftl_1_l. destruct (Z.testbit w n) eqn:E.
  - apply negb_true_iff, Z.eqb_neq. intros H.
    assert (Hb : Z.testbit (Z.land w (2 ^ n)) n = false) by (rewrite H; apply Z.bits_0).
    by rewrite Z.land_spec, E, Z.pow2_bits_true in Hb.
  - apply negb_false_iff, Z.eqb_eq. apply Z.bits_inj'. intros i Hi.
    rewrite Z.land_spec, Z.bits_0, Z.pow2_bits_eqb by done.
    destruct (Z.eqb_spec n i) as [<-|]; [by rewrite E|apply andb_false_r].
Qed.

Lemma testbit_set w n i :
  0 ≤ n → 0 ≤ i → Z.testbit (Z.lor w (Z.shiftl 1 n)) i = (n =? i) || Z.testbit w i.
Proof.
  intros. rewrite Z.lor_spec, Z.shiftl_1_l, Z.pow2_bits_eqb by done. apply orb_comm.
Qed.
