(* ===== verification/Abi.v ===== *)
(** * The wire vocabulary: [abi/src/lib.rs], [abi/src/cap.rs], [abi/src/control.rs]

    Error words, capability types, rights, handles, completion entries and the
    three small state machines behind a control notice ([Pending], [Promise],
    [Grade]).  Machine integers are [Z]; a theorem that depends on a width says
    so with [is_uint]. *)

From S2P Require Import Prelude.

(** ** [abi/src/lib.rs]: the error word *)
Module error.

Definition AUTHORITY : Z := 1.
Definition ADMISSION : Z := 2.
Definition RESOURCE : Z := 3.
Definition PEER : Z := 4.
Definition ARGUMENT : Z := 5.
Definition DEVICE : Z := 6.

Definition NO_SUCH_CAP : Z := 1.
Definition RIGHT_NOT_HELD : Z := 2.
Definition REVOKED : Z := 3.
Definition WRONG_TYPE : Z := 4.

Definition QUOTA_EXHAUSTED : Z := 1.
Definition DEVICE_FULL : Z := 2.

Definition MALFORMED_HEADER : Z := 1.
Definition UNKNOWN_OPCODE : Z := 2.
Definition UNKNOWN_FLAG : Z := 3.
Definition RESERVED_NOT_ZERO : Z := 4.
Definition BAD_ADDRESS : Z := 5.
Definition BAD_CLASS : Z := 8.

(** [-(((domain as i32) << 16) | code as i32)] *)
Definition error_pack (domain code : Z) : Z :=
  - Z.lor (Z.shiftl domain 16) code.

Definition error_unpack (result : Z) : option (Z * Z) :=
  if 0 <=? result then None
  else
    let raw := - result in
    Some (Z.land (Z.shiftr raw 16) 255, Z.land raw 65535).

Lemma error_pack_arith domain code :
  is_uint 16 code → error_pack domain code = - (domain * 65536 + code).
Proof. intros H. unfold error_pack. by rewrite (lor_shiftl_split 16) by done. Qed.

Lemma error_pack_negative domain code :
  0 < domain → is_uint 16 code → error_pack domain code < 0.
Proof. intros ? H. rewrite error_pack_arith by done. unfold is_uint in H. lia. Qed.

Lemma error_unpack_pack domain code :
  0 < domain < 2 ^ 8 → is_uint 16 code →
  error_unpack (error_pack domain code) = Some (domain, code).
Proof.
  intros Hd Hc. unfold error_unpack. pose proof (error_pack_negative domain code ltac:(lia) Hc).
  destruct (Z.leb_spec 0 (error_pack domain code)) as [Hl|Hl]; [lia|].
  rewrite error_pack_arith, Z.opp_involutive by done.
  rewrite (shiftr_split 16) by done.
  rewrite (land_ones_mod 8), (land_ones_mod 16) by lia.
  unfold is_uint in Hc. rewrite (Z.mod_small domain) by lia.
  by rewrite Z.add_comm, Z.mod_add, Z.mod_small by lia.
Qed.

End error.

(** ** [abi/src/cap.rs]: types, rights, handles *)
Module cap.

Inductive CapType : Type :=
| Untyped | Frame | AddressSpace | Channel | Endpoint | Irq | BufferSet.

#[export] Instance CapType_eq_dec : EqDecision CapType.
Proof. solve_decision. Defined.

Definition CapType_from_wire (value : Z) : option CapType :=
  match value with
  | 1 => Some Untyped
  | 2 => Some Frame
  | 3 => Some AddressSpace
  | 4 => Some Channel
  | 5 => Some Endpoint
  | 6 => Some Irq
  | 7 => Some BufferSet
  | _ => None
  end.

Definition CapType_to_wire (t : CapType) : Z :=
  match t with
  | Untyped => 1 | Frame => 2 | AddressSpace => 3 | Channel => 4
  | Endpoint => 5 | Irq => 6 | BufferSet => 7
  end.

Lemma CapType_wire_roundtrip t : CapType_from_wire (CapType_to_wire t) = Some t.
Proof. by destruct t. Qed.

Lemma CapType_to_wire_bound t : 1 ≤ CapType_to_wire t ≤ 7.
Proof. destruct t; simpl; lia. Qed.

(** *** [mod rights] *)
Definition rights_READ : Z := Z.shiftl 1 0.
Definition rights_WRITE : Z := Z.shiftl 1 1.
Definition rights_EXECUTE : Z := Z.shiftl 1 2.
Definition rights_DERIVE : Z := Z.shiftl 1 3.
Definition rights_REVOKE : Z := Z.shiftl 1 4.
Definition rights_GRANT : Z := Z.shiftl 1 5.
Definition rights_ALL : Z :=
  Z.lor rights_READ (Z.lor rights_WRITE (Z.lor rights_EXECUTE
    (Z.lor rights_DERIVE (Z.lor rights_REVOKE rights_GRANT)))).
Definition rights_NONE : Z := 0.

(** [!x] at [u8] *)
Definition u8_not (x : Z) : Z := Z.lxor x 255.

Definition rights_holds (held asked : Z) : bool := Z.land held asked =? asked.
Definition rights_narrows (parent child : Z) : bool :=
  Z.land child (u8_not parent) =? 0.
Definition rights_unknown (bits : Z) : bool :=
  negb (Z.land bits (u8_not rights_ALL) =? 0).

Lemma u8_bit_high x i : is_uint 8 x → 8 ≤ i → Z.testbit x i = false.
Proof.
  intros Hx Hi. rewrite <- (Z.mod_small x (2 ^ 8)) by done.
  by apply Z.mod_pow2_bits_high.
Qed.

Lemma u8_mask_bit i : 0 ≤ i < 8 → Z.testbit 255 i = true.
Proof. intros. by apply (Z.ones_spec_low 8). Qed.

(** Both tests, read as inclusions of bit sets. *)
Lemma rights_holds_bits held asked :
  rights_holds held asked = true ↔
  ∀ i, 0 ≤ i → Z.testbit asked i = true → Z.testbit held i = true.
Proof.
  unfold rights_holds. rewrite Z.eqb_eq. split.
  - intros H i Hi Ha. rewrite <- H, Z.land_spec in Ha. by apply andb_true_iff in Ha as [].
  - intros H. apply Z.bits_inj'. intros i Hi. rewrite Z.land_spec.
    destruct (Z.testbit asked i) eqn:E; [|by rewrite andb_false_r].
    by rewrite (H i Hi E).
Qed.

Lemma rights_narrows_bits parent child :
  is_uint 8 child →
  rights_narrows parent child = true ↔
  ∀ i, 0 ≤ i → Z.testbit child i = true → Z.testbit parent i = true.
Proof.
  intros Hc. unfold rights_narrows, u8_not. rewrite Z.eqb_eq. split.
  - intros H i Hi Ha. destruct (decide (i < 8)).
    + assert (Hb : Z.testbit (Z.land child (Z.lxor parent 255)) i = false)
        by (rewrite H; apply Z.bits_0).
      rewrite Z.land_spec, Z.lxor_spec, Ha in Hb. simpl in Hb.
      rewrite u8_mask_bit in Hb by lia.
      by destruct (Z.testbit parent i).
    + by rewrite u8_bit_high in Ha by (done || lia).
  - intros H. apply Z.bits_inj'. intros i Hi.
    rewrite Z.land_spec, Z.lxor_spec, Z.bits_0.
    destruct (Z.testbit child i) eqn:E; [|done]. simpl. rewrite (H i Hi E).
    destruct (decide (i < 8)); [by rewrite u8_mask_bit by lia|].
    by rewrite u8_bit_high in E by (done || lia).
Qed.

Lemma rights_narrows_refl r : is_uint 8 r → rights_narrows r r = true.
Proof. intros. by apply rights_narrows_bits. Qed.

Lemma rights_narrows_trans a b c :
  is_uint 8 b → is_uint 8 c →
  rights_narrows a b = true → rights_narrows b c = true → rights_narrows a c = true.
Proof. intros ??. rewrite !rights_narrows_bits by done. naive_solver. Qed.

Lemma rights_narrows_holds a b asked :
  is_uint 8 b → rights_narrows a b = true →
  rights_holds b asked = true → rights_holds a asked = true.
Proof. intros ?. rewrite rights_narrows_bits, !rights_holds_bits by done. naive_solver. Qed.

(** *** [Handle]: sixteen bits of slot index, sixteen of generation *)
Record Handle : Type := mkHandle { Handle_bits : Z }.

#[export] Instance Handle_eq_dec : EqDecision Handle.
Proof. solve_decision. Defined.

Definition Handle_NULL : Handle := mkHandle 0.
Definition FIRST_GENERATION : Z := 1.
Definition RETIRED_GENERATION : Z := u16_max.

Definition Handle_new (index generation : Z) : Handle :=
  mkHandle (Z.lor (Z.shiftl generation 16) index).
Definition Handle_from_bits (bits : Z) : Handle := mkHandle bits.
Definition Handle_index (h : Handle) : Z := Z.land (Handle_bits h) 65535.
Definition Handle_generation (h : Handle) : Z := Z.shiftr (Handle_bits h) 16.
Definition Handle_is_issuable (h : Handle) : bool := negb (Handle_generation h =? 0).

Lemma Handle_new_index index generation :
  is_uint 16 index → Handle_index (Handle_new index generation) = index.
Proof.
  intros Hi. unfold Handle_index, Handle_new; simpl.
  rewrite (lor_shiftl_split 16), (land_ones_mod 16) by (done || lia).
  unfold is_uint in Hi. by rewrite Z.add_comm, Z.mod_add, Z.mod_small by lia.
Qed.

Lemma Handle_new_generation index generation :
  is_uint 16 index → Handle_generation (Handle_new index generation) = generation.
Proof.
  intros Hi. unfold Handle_generation, Handle_new; simpl.
  rewrite (lor_shiftl_split 16) by (done || lia). by apply (shiftr_split 16).
Qed.

(** A handle is its index and its generation: two that agree on both are one. *)
Lemma Handle_new_eta h :
  0 ≤ Handle_bits h → Handle_new (Handle_index h) (Handle_generation h) = h.
Proof.
  intros Hh. destruct h as [b]. unfold Handle_new, Handle_index, Handle_generation; simpl in *.
  f_equal. rewrite (land_ones_mod 16), Z.shiftr_div_pow2 by lia.
  rewrite (lor_shiftl_split 16) by (lia || apply Z.mod_pos_bound; lia).
  pose proof (Z.div_mod b (2 ^ 16)). lia.
Qed.

Lemma Handle_ext h1 h2 :
  0 ≤ Handle_bits h1 → 0 ≤ Handle_bits h2 →
  Handle_index h1 = Handle_index h2 → Handle_generation h1 = Handle_generation h2 → h1 = h2.
Proof.
  intros H1 H2 Hi Hg. rewrite <- (Handle_new_eta h1), <- (Handle_new_eta h2) by done.
  by rewrite Hi, Hg.
Qed.

Lemma Handle_index_range h : is_uint 16 (Handle_index h).
Proof. unfold Handle_index. rewrite (land_ones_mod 16) by lia. apply Z.mod_pos_bound. lia. Qed.

Lemma Handle_new_bits_nonneg index generation :
  0 ≤ index → 0 ≤ generation → 0 ≤ Handle_bits (Handle_new index generation).
Proof. intros. simpl. apply Z.lor_nonneg. split; [|done]. by apply Z.shiftl_nonneg. Qed.

End cap.
