(* ===== verification/Control.v ===== *)
(** * Control notices: [abi/src/control.rs]

    The completion entry a notice is posted as, and the three state machines
    that decide what is owed: [Pending] for one capability slot, [Promise] for a
    deadline, [Grade] for a level.  [Pending] packs an ordered queue of notices
    into five states; [pending_queue] is that queue, and the lemmas of
    [Module pending_spec] say each transition is the queue operation the three
    collision rules describe. *)

From S2P Require Import Prelude Abi.

Definition NO_DEADLINE : Z := 0.

(** ** Completion entries *)
Record Cqe : Type := mkCqe {
  cqe_user_data : Z;
  cqe_result : Z;
  cqe_flags : Z;
  cqe_timestamp : Z;
  cqe_ext : Z;
}.

Definition cflags_NOTICE : Z := Z.shiftl 1 3.

Definition Cqe_is_error (c : Cqe) : bool := cqe_result c <? 0.

Definition notice_GRANTED : Z := 1.
Definition notice_REVOKED : Z := 2.
Definition notice_PEER_GONE : Z := 3.
Definition notice_STOP : Z := 4.
Definition notice_RECLAIM : Z := 5.
Definition notice_PRESSURE : Z := 6.
Definition notice_GENERATION : Z := 7.

Definition control_entry (kind handle ext timestamp : Z) : Cqe :=
  mkCqe handle kind cflags_NOTICE timestamp ext.

Definition is_notice (c : Cqe) : bool := negb (Z.land (cqe_flags c) cflags_NOTICE =? 0).

(** ** [Pending] *)
Inductive Pending : Type :=
| Quiet | Granted | Revoked | PeerGone | GrantedThenPeerGone.

#[export] Instance Pending_eq_dec : EqDecision Pending.
Proof. solve_decision. Defined.

Definition Pending_to_wire (p : Pending) : Z :=
  match p with
  | Quiet => 0 | Granted => 1 | Revoked => 2 | PeerGone => 3 | GrantedThenPeerGone => 4
  end.

Definition Pending_from_wire (value : Z) : option Pending :=
  match value with
  | 0 => Some Quiet
  | 1 => Some Granted
  | 2 => Some Revoked
  | 3 => Some PeerGone
  | 4 => Some GrantedThenPeerGone
  | _ => None
  end.

Definition Pending_is_quiet (p : Pending) : bool :=
  match p with Quiet => true | _ => false end.

Definition Pending_granted (p : Pending) : Pending :=
  match p with Quiet => Granted | other => other end.

Definition Pending_revoked (p : Pending) : Pending :=
  match p with Granted | GrantedThenPeerGone => Quiet | _ => Revoked end.

Definition Pending_peer_gone (p : Pending) : Pending :=
  match p with
  | Granted | GrantedThenPeerGone => GrantedThenPeerGone
  | Revoked => Revoked
  | _ => PeerGone
  end.

Definition Pending_drain (p : Pending) : option Z * Pending :=
  match p with
  | Quiet => (None, Quiet)
  | Granted => (Some notice_GRANTED, Quiet)
  | GrantedThenPeerGone => (Some notice_GRANTED, PeerGone)
  | PeerGone => (Some notice_PEER_GONE, Quiet)
  | Revoked => (Some notice_REVOKED, Quiet)
  end.

Definition Pending_owed (p : Pending) : Z :=
  match p with Quiet => 0 | GrantedThenPeerGone => 2 | _ => 1 end.

Lemma Pending_wire_roundtrip p : Pending_from_wire (Pending_to_wire p) = Some p.
Proof. by destruct p. Qed.

Lemma Pending_to_wire_bound p : 0 ≤ Pending_to_wire p ≤ 4.
Proof. destruct p; simpl; lia. Qed.

(** The specification: the notices a slot still owes, oldest first, and the
    rules of the module as operations on that queue. *)
Module pending_spec.

Definition pending_queue (p : Pending) : list Z :=
  match p with
  | Quiet => []
  | Granted => [notice_GRANTED]
  | Revoked => [notice_REVOKED]
  | PeerGone => [notice_PEER_GONE]
  | GrantedThenPeerGone => [notice_GRANTED; notice_PEER_GONE]
  end.

(** Rule 1: a grant nobody was told about is taken back without a word.
    Rule 3: otherwise the revocation is the only thing left to say. *)
Definition queue_revoked (q : list Z) : list Z :=
  if decide (notice_GRANTED ∈ q) then [] else [notice_REVOKED].

(** Rule 2: a death is appended behind what is already owed, once, and a
    revocation supersedes it. *)
Definition queue_peer_gone (q : list Z) : list Z :=
  if decide (notice_REVOKED ∈ q ∨ notice_PEER_GONE ∈ q) then q else q ++ [notice_PEER_GONE].

Lemma pending_queue_inj p1 p2 : pending_queue p1 = pending_queue p2 → p1 = p2.
Proof. destruct p1, p2; naive_solver. Qed.

Lemma pending_queue_revoked p :
  pending_queue (Pending_revoked p) = queue_revoked (pending_queue p).
Proof. by destruct p. Qed.

Lemma pending_queue_peer_gone p :
  pending_queue (Pending_peer_gone p) = queue_peer_gone (pending_queue p).
Proof. by destruct p. Qed.

Lemma pending_queue_granted p :
  pending_queue p = [] → pending_queue (Pending_granted p) = [notice_GRANTED].
Proof. by destruct p. Qed.

Lemma pending_queue_drain p :
  match pending_queue p with
  | [] => Pending_drain p = (None, p)
  | n :: q => ∃ p', Pending_drain p = (Some n, p') ∧ pending_queue p' = q
  end.
Proof. destruct p; simpl; eauto. Qed.

Lemma pending_owed_length p : Pending_owed p = Z.of_nat (length (pending_queue p)).
Proof. by destruct p. Qed.

Lemma Pending_owed_quiet p : Pending_is_quiet p = true ↔ Pending_owed p = 0.
Proof. by destruct p. Qed.

End pending_spec.

(** ** [Promise]: a deadline that only ever moves nearer *)
Record Promise : Type := mkPromise { promise_deadline : Z; promise_owed : bool }.

Definition Promise_NONE : Promise := mkPromise NO_DEADLINE false.

Definition Promise_promise (p : Promise) (deadline : Z) : bool * Promise :=
  if negb (promise_deadline p =? NO_DEADLINE) && (promise_deadline p <=? deadline)
  then (false, p)
  else (true, mkPromise deadline true).

Definition Promise_deadline (p : Promise) : option Z :=
  if promise_deadline p =? NO_DEADLINE then None else Some (promise_deadline p).

Definition Promise_drain (p : Promise) : option Z * Promise :=
  if negb (promise_owed p) then (None, p)
  else (Some (promise_deadline p), mkPromise (promise_deadline p) false).

Definition Promise_is_owed (p : Promise) : bool := promise_owed p.

(** ** [Grade]: a level, of which only the latest value is worth telling *)
Record Grade : Type := mkGrade { grade_value : Z; grade_owed : bool }.

Definition Grade_NONE : Grade := mkGrade 0 false.

Definition Grade_set (g : Grade) (value : Z) : bool * Grade :=
  if (grade_value g =? value) && negb (grade_owed g) then (false, g)
  else (negb (grade_value g =? value), mkGrade value true).

Definition Grade_drain (g : Grade) : option Z * Grade :=
  if negb (grade_owed g) then (None, g)
  else (Some (grade_value g), mkGrade (grade_value g) false).

Definition Grade_is_owed (g : Grade) : bool := grade_owed g.

(** A promise already made is never postponed, and every accepted one is owed. *)
Lemma Promise_promise_monotone p d :
  let '(moved, p') := Promise_promise p d in
  if moved then promise_deadline p' = d ∧ promise_owed p' = true ∧
                (promise_deadline p = NO_DEADLINE ∨ d < promise_deadline p)
  else p' = p ∧ promise_deadline p ≤ d.
Proof.
  unfold Promise_promise.
  destruct (Z.eqb_spec (promise_deadline p) NO_DEADLINE) as [E|E]; simpl; [tauto|].
  destruct (Z.leb_spec (promise_deadline p) d) as [E'|E']; simpl; [done|].
  split; [done|split; [done|right; lia]].
Qed.
