(* ===== verification/CapTable.v ===== *)
(** * The capability table: [kernel/src/cap.rs]

    A process's table of capabilities: thirty-two slots of its own, and up to
    four pages of slots bought out of an untyped capability it holds.  A slot is
    named by a [Handle] (index and generation); derivation records the parent's
    handle in the child, and revocation clears every slot whose chain of parents
    reaches the handle given.

    The bought pages are raw addresses in the code, so the model keeps the
    memory they point into ([tbl_mem], keyed by address) and every access goes
    through it: two pages at one address would alias here as they would there.
    What the code relies on to rule that out is the contract of [Backing], which
    is the only thing about memory this file assumes ([reach_fresh]). *)

From S2P Require Import Prelude Abi Control.

(** * The watermark arithmetic of an untyped capability: [kernel/src/watermark.rs]

    An untyped capability is a cursor [object] and what is left above it,
    [extent].  Carving a frame moves the cursor up, a refund moves it back
    down, and the three functions do all of it in [u64] without wrapping. *)

Definition watermark_carvable (object extent frame : Z) : bool :=
  (frame <=? extent) && (object <=? u64_max - frame).

Definition watermark_carved (object extent frame : Z) : option (Z * Z) :=
  if extent <? frame then None
  else if u64_max - frame <? object then None
  else Some (object + frame, extent - frame).

Definition watermark_refunded (object extent bytes floor : Z) : option (Z * Z) :=
  if u64_max - bytes <? floor then None
  else if object <? floor + bytes then None
  else if u64_max - bytes <? extent then None
  else Some (object - bytes, extent + bytes).

Lemma watermark_carvable_carved object extent frame :
  watermark_carvable object extent frame = true ↔
  watermark_carved object extent frame = Some (object + frame, extent - frame).
Proof.
  unfold watermark_carvable, watermark_carved.
  destruct (Z.leb_spec frame extent), (Z.ltb_spec extent frame),
    (Z.leb_spec object (u64_max - frame)), (Z.ltb_spec (u64_max - frame) object);
    simpl; split; intros; simplify_eq; (done || lia).
Qed.

Lemma watermark_carved_Some object extent frame o e :
  watermark_carved object extent frame = Some (o, e) ↔
  o = object + frame ∧ e = extent - frame ∧ frame ≤ extent ∧ object + frame ≤ u64_max.
Proof.
  unfold watermark_carved.
  destruct (Z.ltb_spec extent frame), (Z.ltb_spec (u64_max - frame) object);
    split; intros; destruct_and?; simplify_eq; try (exfalso; lia); try lia; repeat f_equal; lia.
Qed.

Lemma watermark_refunded_Some object extent bytes floor o e :
  watermark_refunded object extent bytes floor = Some (o, e) ↔
  o = object - bytes ∧ e = extent + bytes ∧
  floor + bytes ≤ u64_max ∧ floor + bytes ≤ object ∧ extent + bytes ≤ u64_max.
Proof.
  unfold watermark_refunded.
  destruct (Z.ltb_spec (u64_max - bytes) floor), (Z.ltb_spec object (floor + bytes)),
    (Z.ltb_spec (u64_max - bytes) extent);
    split; intros; destruct_and?; simplify_eq; try (exfalso; lia); try lia; repeat f_equal; lia.
Qed.

(** Both moves stay in [u64] and keep the top of the range, [object + extent],
    where it was: what one side gains the other loses. *)
Lemma watermark_carved_range object extent frame o e :
  is_uint 64 object → is_uint 64 extent → 0 ≤ frame →
  watermark_carved object extent frame = Some (o, e) →
  is_uint 64 o ∧ is_uint 64 e ∧ o + e = object + extent.
Proof. unfold is_uint. intros ??? [-> [-> ?]]%watermark_carved_Some. unfold u64_max in *. lia. Qed.

Lemma watermark_refunded_range object extent bytes floor o e :
  is_uint 64 object → is_uint 64 extent → 0 ≤ bytes → 0 ≤ floor →
  watermark_refunded object extent bytes floor = Some (o, e) →
  is_uint 64 o ∧ is_uint 64 e ∧ o + e = object + extent ∧ floor ≤ o.
Proof. unfold is_uint. intros ???? [-> [-> ?]]%watermark_refunded_Some. unfold u64_max in *. lia. Qed.

Import error cap.

Definition FRAME_SIZE : Z := 4096.
Definition TABLE_SLOTS : nat := 32.
Definition MAX_PAGES : nat := 4.
(** [FRAME_SIZE / size_of::<Slot>()]: two bytes of kind and rights, two of
    generation, four of parent and three words, thirty-two in all. *)
Definition SLOTS_PER_PAGE : nat := 128.
Definition MAX_SLOTS : nat := TABLE_SLOTS + MAX_PAGES * SLOTS_PER_PAGE.
Definition MARK_WORDS : nat := 9.
#[global] Arguments TABLE_SLOTS : simpl never.
#[global] Arguments MAX_PAGES : simpl never.
#[global] Arguments SLOTS_PER_PAGE : simpl never.
#[global] Arguments MARK_WORDS : simpl never.
#[global] Arguments Nat.modulo : simpl never.
#[global] Arguments Nat.div : simpl never.

(** ** A slot *)
Record Slot : Type := mkSlot {
  slot_kind : Z;
  slot_rights : Z;
  slot_generation : Z;
  slot_parent : Z;
  slot_object : Z;
  slot_extent : Z;
  slot_mapped : Z;
}.

Record Found : Type := mkFound {
  found_kind : CapType;
  found_rights : Z;
  found_object : Z;
  found_extent : Z;
}.

Definition NOT_MAPPED : Z := u64_max.
Definition KIND_BITS : Z := 5.
Definition KIND_MASK : Z := Z.shiftl 1 KIND_BITS - 1.

Definition Slot_fresh (generation : Z) : Slot :=
  mkSlot 0 rights_NONE generation (Handle_bits Handle_NULL) 0 0 NOT_MAPPED.

Definition Slot_EMPTY : Slot := Slot_fresh FIRST_GENERATION.

Definition Slot_occupied (s : Slot) : bool := negb (Z.land (slot_kind s) KIND_MASK =? 0).

Definition Slot_cap_kind (s : Slot) : option CapType :=
  CapType_from_wire (Z.land (slot_kind s) KIND_MASK).

Definition Slot_notice (s : Slot) : Pending :=
  match Pending_from_wire (Z.shiftr (slot_kind s) KIND_BITS) with
  | Some pending => pending
  | None => Quiet
  end.

Definition Slot_with_kind (s : Slot) (k : Z) : Slot :=
  mkSlot k (slot_rights s) (slot_generation s) (slot_parent s)
    (slot_object s) (slot_extent s) (slot_mapped s).

Definition Slot_set_notice (s : Slot) (pending : Pending) : Slot :=
  Slot_with_kind s
    (Z.lor (Z.land (slot_kind s) KIND_MASK) (Z.shiftl (Pending_to_wire pending) KIND_BITS)).

Definition Slot_set_kind (s : Slot) (kind : Z) : Slot :=
  Slot_with_kind s
    (Z.lor (Z.land (slot_kind s) (u8_not KIND_MASK)) (Z.land kind KIND_MASK)).

Definition Slot_set_watermark (s : Slot) (object extent : Z) : Slot :=
  mkSlot (slot_kind s) (slot_rights s) (slot_generation s) (slot_parent s)
    object extent (slot_mapped s).

Definition Slot_set_mapped (s : Slot) (virt : Z) : Slot :=
  mkSlot (slot_kind s) (slot_rights s) (slot_generation s) (slot_parent s)
    (slot_object s) (slot_extent s) virt.

(** ** Marks: a bitmap over slot indices, and a cursor into it *)
Record Condemned : Type := mkCondemned { cond_words : list Z; cond_cursor : nat }.

Definition Condemned_NONE : Condemned := mkCondemned (replicate MARK_WORDS 0) 0.

Definition Condemned_holds (c : Condemned) (index : nat) : bool :=
  match cond_words c !! (index / 64)%nat with
  | Some word => negb (Z.land word (Z.shiftl 1 (Z.of_nat (index mod 64))) =? 0)
  | None => false
  end.

Definition Condemned_mark (c : Condemned) (index : nat) : Condemned :=
  match cond_words c !! (index / 64)%nat with
  | Some word =>
      mkCondemned
        (<[(index / 64)%nat := Z.lor word (Z.shiftl 1 (Z.of_nat (index mod 64)))]> (cond_words c))
        (cond_cursor c)
  | None => c
  end.

(** ** The table *)
Record Table : Type := mkTable {
  tbl_slots : list Slot;
  tbl_pages : list Z;
  tbl_grown : nat;
  tbl_floor : Z;
  tbl_posts_notices : bool;
  tbl_stop : Promise;
  tbl_pressure : Grade;
  tbl_generation : Grade;
  tbl_mem : gmap Z (list Slot);
}.

Definition Table_EMPTY : Table :=
  mkTable (replicate TABLE_SLOTS Slot_EMPTY) (replicate MAX_PAGES 0) 0 FIRST_GENERATION false
    Promise_NONE Grade_NONE Grade_NONE ∅.

Definition no_such : Z := error_pack AUTHORITY NO_SUCH_CAP.
Definition exhausted : Z := error_pack RESOURCE QUOTA_EXHAUSTED.
Definition revoked : Z := error_pack AUTHORITY REVOKED.
Definition wrong_type : Z := error_pack AUTHORITY WRONG_TYPE.
Definition right_not_held : Z := error_pack AUTHORITY RIGHT_NOT_HELD.
Definition bad_address : Z := error_pack ARGUMENT BAD_ADDRESS.
Definition unknown_flag : Z := error_pack ARGUMENT UNKNOWN_FLAG.

Definition Table_capacity (t : Table) : nat := (TABLE_SLOTS + tbl_grown t * SLOTS_PER_PAGE)%nat.

(** [at]: the one place a slot is addressed. *)
Definition Table_at (t : Table) (index : nat) : option Slot :=
  if (index <? TABLE_SLOTS)%nat then tbl_slots t !! index
  else
    let above := (index - TABLE_SLOTS)%nat in
    let page := (above / SLOTS_PER_PAGE)%nat in
    if (tbl_grown t <=? page)%nat then None
    else base ← tbl_pages t !! page;
         slots ← tbl_mem t !! base;
         slots !! (above mod SLOTS_PER_PAGE)%nat.

(** What a write through the reference [at_mut] gives does: the slot at [index]
    becomes [s], in the table itself or in the page that holds it. *)
Definition Table_set (t : Table) (index : nat) (s : Slot) : Table :=
  if (index <? TABLE_SLOTS)%nat then
    mkTable (<[index := s]> (tbl_slots t)) (tbl_pages t) (tbl_grown t) (tbl_floor t)
      (tbl_posts_notices t) (tbl_stop t) (tbl_pressure t) (tbl_generation t) (tbl_mem t)
  else
    let above := (index - TABLE_SLOTS)%nat in
    let page := (above / SLOTS_PER_PAGE)%nat in
    match (if (tbl_grown t <=? page)%nat then None else tbl_pages t !! page) with
    | Some base =>
        mkTable (tbl_slots t) (tbl_pages t) (tbl_grown t) (tbl_floor t)
          (tbl_posts_notices t) (tbl_stop t) (tbl_pressure t) (tbl_generation t)
          (alter (<[(above mod SLOTS_PER_PAGE)%nat := s]>) base (tbl_mem t))
    | None => t
    end.

(** [if let Some(slot) = self.at_mut(index) { *slot = f(slot) }] *)
Definition Table_update (t : Table) (index : nat) (f : Slot → Slot) : Table :=
  match Table_at t index with
  | Some s => Table_set t index (f s)
  | None => t
  end.

#[global] Arguments Table_capacity : simpl never.
#[global] Arguments Table_at : simpl never.
#[global] Arguments Table_set : simpl never.
#[global] Arguments Table_update : simpl never.

(** *** Resolving a handle *)
Definition Table_slot (t : Table) (index : nat) : res Z Slot := ok_or (Table_at t index) no_such.

Definition Table_resolve_at (t : Table) (index : nat) (h : Handle) : res Z nat :=
  let? slot := Table_slot t index in
  if negb (Handle_generation h =? slot_generation slot) then
    Err (if Handle_generation h <? slot_generation slot then revoked else no_such)
  else if negb (Slot_occupied slot) then Err no_such
  else Ok index.

Definition Table_resolve (t : Table) (h : Handle) : res Z nat :=
  if negb (Handle_is_issuable h) then Err no_such
  else
    let index := Z.to_nat (Handle_index h) in
    if (Table_capacity t <=? index)%nat then Err no_such
    else Table_resolve_at t index h.

Definition Table_inspect (t : Table) (h : Handle) : res Z Found :=
  let? index := Table_resolve t h in
  let? slot := Table_slot t index in
  let? kind := ok_or (Slot_cap_kind slot) no_such in
  Ok (mkFound kind (slot_rights slot) (slot_object slot) (slot_extent slot)).

Definition Table_invoke (t : Table) (h : Handle) (kind : CapType) (asked : Z) : res Z Found :=
  let? found := Table_inspect t h in
  if negb (bool_decide (found_kind found = kind)) then Err wrong_type
  else if negb (rights_holds (found_rights found) asked) then Err right_not_held
  else Ok found.

Definition Table_invoke_any (t : Table) (h : Handle) (asked : Z) : res Z Found :=
  let? found := Table_inspect t h in
  if negb (rights_holds (found_rights found) asked) then Err right_not_held else Ok found.

(** *** Placing a capability *)
Definition slot_is_vacant (s : Slot) : bool :=
  negb (Slot_occupied s) && negb (slot_generation s =? RETIRED_GENERATION)
  && Pending_is_quiet (Slot_notice s).

Definition Table_vacancy (t : Table) : option nat :=
  find (λ index, match Table_at t index with Some s => slot_is_vacant s | None => false end)
    (seq 0 (Table_capacity t)).

(** What [place] writes into the vacant slot [s]. *)
Definition placed_slot (s : Slot) (kind : CapType) (rights object extent : Z)
    (parent : Handle) (owes : bool) : Slot :=
  let s1 := Slot_set_kind s (CapType_to_wire kind) in
  let s2 := mkSlot (slot_kind s1) rights (slot_generation s1) (Handle_bits parent)
              object extent NOT_MAPPED in
  if owes then Slot_set_notice s2 (Pending_granted (Slot_notice s2)) else s2.

Definition Table_place (kind : CapType) (rights object extent : Z) (parent : Handle) :
    sm Table Z Handle := λ t,
  match Table_vacancy t with
  | None => (Err exhausted, t)
  | Some index =>
      match Table_at t index with
      | None => (Err exhausted, t)
      | Some s =>
          let s' := placed_slot s kind rights object extent parent (tbl_posts_notices t) in
          (Ok (Handle_new (Z.of_nat index) (slot_generation s')), Table_set t index s')
      end
  end.

Definition Table_grant (kind : CapType) (rights object extent : Z) : sm Table Z Handle :=
  Table_place kind rights object extent Handle_NULL.

(** *** Clearing *)
Definition cleared_slot (s : Slot) (owes : bool) : Slot :=
  let s1 := if owes then Slot_set_notice s (Pending_revoked (Slot_notice s)) else s in
  let s2 := Slot_set_kind s1 0 in
  mkSlot (slot_kind s2) rights_NONE (saturating_add 16 (slot_generation s2) 1)
    (Handle_bits Handle_NULL) 0 0 NOT_MAPPED.

Definition Table_clear (t : Table) (index : nat) : Table :=
  Table_update t index (λ s, cleared_slot s (tbl_posts_notices t)).

(** *** Growing and deriving *)
Definition is_account (s : Slot) : bool :=
  Slot_occupied s && bool_decide (Slot_cap_kind s = Some Untyped)
  && rights_holds (slot_rights s) rights_DERIVE
  && watermark_carvable (slot_object s) (slot_extent s) FRAME_SIZE.

Definition Table_account (t : Table) : option nat :=
  find (λ index, match Table_at t index with Some s => is_account s | None => false end)
    (seq 0 (Table_capacity t)).

Definition carve_slot (s : Slot) : Slot :=
  match watermark_carved (slot_object s) (slot_extent s) FRAME_SIZE with
  | Some (next, rest) => Slot_set_watermark s next rest
  | None => s
  end.

(** The page is written whole, then counted. *)
Definition Table_add_page (t : Table) (base : Z) : Table :=
  mkTable (tbl_slots t) (<[tbl_grown t := base]> (tbl_pages t)) (S (tbl_grown t)) (tbl_floor t)
    (tbl_posts_notices t) (tbl_stop t) (tbl_pressure t) (tbl_generation t)
    (<[base := replicate SLOTS_PER_PAGE (Slot_fresh (tbl_floor t))]> (tbl_mem t)).

Section backing.
(** [Backing::reach]: where a page of slots for the frame at [phys] may be
    written.  The kernel's own implementation is the direct map of the frame
    allocator; this file needs only the trait's contract. *)
Variable reach : Z → option Z.

Definition Table_grow : sm Table Z unit := λ t,
  if (MAX_PAGES <=? tbl_grown t)%nat then (Err exhausted, t)
  else
    match Table_account t with
    | None => (Err exhausted, t)
    | Some account =>
        match Table_at t account with
        | None => (Err exhausted, t)
        | Some payer =>
            match reach (slot_object payer) with
            | None => (Err exhausted, t)
            | Some base => (Ok tt, Table_update (Table_add_page t base) account carve_slot)
            end
        end
    end.

Definition Table_retype (h : Handle) : sm Table Z (CapType * Z * Z) := λ t,
  match Table_resolve t h with
  | Err e => (Err e, t)
  | Ok index =>
      match Table_at t index with
      | None => (Err no_such, t)
      | Some slot =>
          match Slot_cap_kind slot with
          | None => (Err no_such, t)
          | Some kind =>
              if negb (bool_decide (kind = Untyped)) then
                (Ok (kind, slot_object slot, slot_extent slot), t)
              else
                let object := slot_object slot in
                match watermark_carved object (slot_extent slot) FRAME_SIZE with
                | None => (Err exhausted, t)
                | Some (next, rest) =>
                    (Ok (Frame, object, FRAME_SIZE),
                     Table_set t index (Slot_set_watermark slot next rest))
                end
          end
      end
  end.

Definition Table_derive (h : Handle) (asked : Z) : sm Table Z Handle := λ t,
  if rights_unknown asked then (Err unknown_flag, t)
  else
    match Table_invoke_any t h rights_DERIVE with
    | Err e => (Err e, t)
    | Ok parent =>
        if negb (rights_narrows (found_rights parent) asked) then (Err right_not_held, t)
        else
          (do! _ <- (λ t0, match Table_vacancy t0 with
                           | None => Table_grow t0
                           | Some _ => (Ok tt, t0)
                           end);
           do! (kind, object, extent) <- Table_retype h;
           Table_place kind asked object extent h) t
    end.

End backing.

(** *** Revoking *)
Definition Table_marked_parent (t : Table) (parent : Handle) (doomed : Condemned) : bool :=
  let index := Z.to_nat (Handle_index parent) in
  Condemned_holds doomed index
  && match Table_at t index with
     | Some slot => slot_generation slot =? Handle_generation parent
     | None => false
     end.

(** The test inside the inner loop of [descendants]. *)
Definition descends (t : Table) (h : Handle) (doomed : Condemned) (index : nat) : bool :=
  negb (Condemned_holds doomed index)
  && match Table_at t index with
     | None => false
     | Some slot =>
         Slot_occupied slot
         && (let parent := Handle_from_bits (slot_parent slot) in
             Handle_is_issuable parent
             && (bool_decide (parent = h) || Table_marked_parent t parent doomed))
     end.

(** One pass over the table: marks as it goes, and says whether it marked. *)
Definition descendants_pass (t : Table) (h : Handle) (doomed : Condemned) : Condemned * bool :=
  foldl (λ '(d, found) index,
           if descends t h d index then (Condemned_mark d index, true) else (d, found))
    (doomed, false) (seq 0 (Table_capacity t)).

(** The passes repeat until one finds nothing; each one before that marks a slot
    that was not marked, so one pass more than there are slots is enough
    (see [descendants_loop_settles]). *)
Fixpoint descendants_loop (fuel : nat) (t : Table) (h : Handle) (doomed : Condemned) : Condemned :=
  match fuel with
  | O => doomed
  | S fuel =>
      let '(d, found) := descendants_pass t h doomed in
      if found then descendants_loop fuel t h d else d
  end.

Definition Table_descendants (t : Table) (h : Handle) : Condemned :=
  descendants_loop (S (Table_capacity t)) t h Condemned_NONE.

Definition Table_condemn (t : Table) (h : Handle) : res Z Condemned :=
  let? _ := Table_invoke_any t h rights_REVOKE in Ok (Table_descendants t h).

Definition Table_condemn_own (t : Table) (h : Handle) : res Z Condemned :=
  let? condemned := Table_condemn t h in
  let? index := Table_resolve t h in
  Ok (Condemned_mark condemned index).

Definition Table_sweep (t : Table) (condemned : Condemned) : Z * Table :=
  foldl (λ '(count, t) index,
           if Condemned_holds condemned index then (count + 1, Table_clear t index) else (count, t))
    (0, t) (seq 0 (Table_capacity t)).

Definition Table_relinquish (h : Handle) : sm Table Z Z := λ t,
  match Table_condemn t h with
  | Err e => (Err e, t)
  | Ok condemned =>
      match Table_resolve t h with
      | Err e => (Err e, t)
      | Ok index =>
          let '(count, t') := Table_sweep t (Condemned_mark condemned index) in (Ok count, t')
      end
  end.

(** [next_mapping]: the cursor walks the marks once, stopping at each marked
    slot that is mapped. *)
Fixpoint next_mapping_from (fuel : nat) (t : Table) (c : Condemned) : option Z * Condemned :=
  match fuel with
  | O => (None, c)
  | S fuel =>
      if (Table_capacity t <=? cond_cursor c)%nat then (None, c)
      else
        let index := cond_cursor c in
        let c' := mkCondemned (cond_words c) (S index) in
        if negb (Condemned_holds c' index) then next_mapping_from fuel t c'
        else
          match Table_at t index with
          | Some slot =>
              if negb (slot_mapped slot =? NOT_MAPPED) then (Some (slot_mapped slot), c')
              else next_mapping_from fuel t c'
          | None => next_mapping_from fuel t c'
          end
  end.

Definition Table_next_mapping (t : Table) (c : Condemned) : option Z * Condemned :=
  next_mapping_from (S (Table_capacity t)) t c.

(** *** Refunds, mappings and notices *)
Definition Table_refund (h : Handle) (bytes floor : Z) : sm Table Z unit := λ t,
  match Table_resolve t h with
  | Err e => (Err e, t)
  | Ok index =>
      match Table_at t index with
      | None => (Err no_such, t)
      | Some slot =>
          if negb (bool_decide (Slot_cap_kind slot = Some Untyped)) then (Err wrong_type, t)
          else
            match watermark_refunded (slot_object slot) (slot_extent slot) bytes floor with
            | None => (Err bad_address, t)
            | Some (object, extent) =>
                (Ok tt, Table_set t index (Slot_set_watermark slot object extent))
            end
      end
  end.

Definition Table_note_mapping (h : Handle) (virt : Z) : sm Table Z unit := λ t,
  match Table_resolve t h with
  | Err e => (Err e, t)
  | Ok index =>
      match Table_at t index with
      | None => (Err no_such, t)
      | Some slot =>
          if negb (slot_mapped slot =? NOT_MAPPED) then (Err bad_address, t)
          else (Ok tt, Table_set t index (Slot_set_mapped slot virt))
      end
  end.

Definition Table_note_peer_gone (h : Handle) : sm Table Z unit := λ t,
  match Table_resolve t h with
  | Err e => (Err e, t)
  | Ok index =>
      match Table_at t index with
      | None => (Err no_such, t)
      | Some slot =>
          (Ok tt,
           if tbl_posts_notices t
           then Table_set t index (Slot_set_notice slot (Pending_peer_gone (Slot_notice slot)))
           else t)
      end
  end.

Definition Table_owes_notices (t : Table) : Table :=
  mkTable (tbl_slots t) (tbl_pages t) (tbl_grown t) (tbl_floor t) true
    (tbl_stop t) (tbl_pressure t) (tbl_generation t) (tbl_mem t).

Definition slot_owed (t : Table) (index : nat) : Z :=
  match Table_at t index with Some slot => Pending_owed (Slot_notice slot) | None => 0 end.

Definition Table_owes (t : Table) : Z :=
  foldl (λ owed index, owed + slot_owed t index)
    (Z.b2z (Promise_is_owed (tbl_stop t)) + Z.b2z (Grade_is_owed (tbl_pressure t))
     + Z.b2z (Grade_is_owed (tbl_generation t)))
    (seq 0 (Table_capacity t)).

Definition Table_with_words (t : Table) (stop : Promise) (pressure generation : Grade) : Table :=
  mkTable (tbl_slots t) (tbl_pages t) (tbl_grown t) (tbl_floor t) (tbl_posts_notices t)
    stop pressure generation (tbl_mem t).

Definition Table_stop_by (t : Table) (deadline : Z) : bool * Table :=
  let '(moved, stop) := Promise_promise (tbl_stop t) deadline in
  (moved, Table_with_words t stop (tbl_pressure t) (tbl_generation t)).

Definition Table_stop_deadline (t : Table) : option Z := Promise_deadline (tbl_stop t).

Definition Table_pressure_is (t : Table) (grade : Z) : bool * Table :=
  let '(changed, g) := Grade_set (tbl_pressure t) grade in
  (changed, Table_with_words t (tbl_stop t) g (tbl_generation t)).

Definition Table_generation_is (t : Table) (generation : Z) : bool * Table :=
  let '(changed, g) := Grade_set (tbl_generation t) generation in
  (changed, Table_with_words t (tbl_stop t) (tbl_pressure t) g).

(** [let slot = self.at(index)?] leaves the whole function, so an index the
    table cannot address ends the walk. *)
Fixpoint next_slot_notice_in (indices : list nat) (t : Table) (timestamp : Z) : option Cqe * Table :=
  match indices with
  | [] => (None, t)
  | index :: rest =>
      match Table_at t index with
      | None => (None, t)
      | Some slot =>
          match Pending_drain (Slot_notice slot) with
          | (None, _) => next_slot_notice_in rest t timestamp
          | (Some kind, next) =>
              let handle := Handle_new (Z.of_nat index) (slot_generation slot) in
              (Some (control_entry kind (Handle_bits handle) 0 timestamp),
               Table_set t index (Slot_set_notice slot next))
          end
      end
  end.

Definition Table_next_slot_notice (t : Table) (timestamp : Z) : option Cqe * Table :=
  next_slot_notice_in (seq 0 (Table_capacity t)) t timestamp.

Definition Table_next_stop_notice (t : Table) (ring : Handle) (timestamp : Z) : option Cqe * Table :=
  match Promise_drain (tbl_stop t) with
  | (Some deadline, stop) =>
      (Some (control_entry notice_STOP (Handle_bits ring) deadline timestamp),
       Table_with_words t stop (tbl_pressure t) (tbl_generation t))
  | (None, stop) => (None, Table_with_words t stop (tbl_pressure t) (tbl_generation t))
  end.

Definition Table_next_grade_notice (t : Table) (timestamp : Z) : option Cqe * Table :=
  match Grade_drain (tbl_pressure t) with
  | (Some grade, pressure) =>
      (Some (control_entry notice_PRESSURE 0 grade timestamp),
       Table_with_words t (tbl_stop t) pressure (tbl_generation t))
  | (None, _) =>
      match Grade_drain (tbl_generation t) with
      | (Some generation, g) =>
          (Some (control_entry notice_GENERATION 0 generation timestamp),
           Table_with_words t (tbl_stop t) (tbl_pressure t) g)
      | (None, _) => (None, t)
      end
  end.

(** *** Counting, and forgetting everything *)
Definition Table_count (p : Slot → bool) (t : Table) : nat :=
  length (List.filter (λ index, match Table_at t index with Some s => p s | None => false end)
            (seq 0 (Table_capacity t))).

Definition Table_used (t : Table) : nat := Table_count Slot_occupied t.

Definition Table_retired (t : Table) : nat :=
  Table_count (λ s, negb (Slot_occupied s) && (slot_generation s =? RETIRED_GENERATION)) t.

Definition clear_occupied (t : Table) (index : nat) : Table :=
  match Table_at t index with
  | Some slot => if Slot_occupied slot then Table_clear t index else t
  | None => t
  end.

Definition raised_floor (t : Table) : Z :=
  foldl (λ floor index,
           Z.max floor (match Table_at t index with Some s => slot_generation s | None => floor end))
    (tbl_floor t) (seq TABLE_SLOTS (Table_capacity t - TABLE_SLOTS)).

Definition Table_clear_all (t : Table) : Table :=
  let t1 := foldl clear_occupied t (seq 0 (Table_capacity t)) in
  mkTable ((λ s, Slot_set_notice s Quiet) <$> tbl_slots t1) (replicate MAX_PAGES 0) 0
    (raised_floor t1) false Promise_NONE Grade_NONE Grade_NONE (tbl_mem t1).
