(* ===== verification/CapTableFacts.v ===== *)
(** * The capability table as an array of well-formed slots

    The representation lemmas behind the theorems on [CapTable]: the packed kind
    byte, the table as a function from indices to slots ([Table_at_set]), the
    well-formedness invariant [Table_wf] and its preservation by every
    operation of the table. *)

From S2P Require Import Prelude Abi Control CapTable.
Import error cap.

(** Project a table built by one of the operations, and nothing else. *)
Ltac tbl_cbn :=
  cbn [tbl_slots tbl_pages tbl_grown tbl_floor tbl_posts_notices tbl_stop tbl_pressure
       tbl_generation tbl_mem Table_add_page Table_owes_notices Table_with_words].

(** ** The kind byte *)

(** [k] in the low five bits, what the slot owes in the high three. *)
Definition kind_packed (byte : Z) (p : Pending) (k : Z) : Prop :=
  byte = Pending_to_wire p * 32 + k ∧ 0 ≤ k ≤ 7.

Ltac small_kinds k :=
  let H := fresh in
  assert (k = 0 ∨ k = 1 ∨ k = 2 ∨ k = 3 ∨ k = 4 ∨ k = 5 ∨ k = 6 ∨ k = 7) as H by lia;
  destruct H as [->|[->|[->|[->|[->|[->|[->| ->]]]]]]].

Lemma kind_packed_low byte p k : kind_packed byte p k → Z.land byte KIND_MASK = k.
Proof. intros [-> ?]. small_kinds k; by destruct p. Qed.

Lemma kind_packed_high byte p k : kind_packed byte p k → Z.shiftr byte KIND_BITS = Pending_to_wire p.
Proof. intros [-> ?]. small_kinds k; by destruct p. Qed.

Lemma kind_packed_set_low byte p k j :
  kind_packed byte p k → 0 ≤ j ≤ 7 →
  kind_packed (Z.lor (Z.land byte (u8_not KIND_MASK)) (Z.land j KIND_MASK)) p j.
Proof.
  intros [-> ?] Hj. split; [|done]. small_kinds k; small_kinds j; by destruct p.
Qed.

Lemma kind_packed_set_high byte p k q :
  kind_packed byte p k →
  kind_packed (Z.lor (Z.land byte KIND_MASK) (Z.shiftl (Pending_to_wire q) KIND_BITS)) q k.
Proof. intros [-> ?]. split; [|done]. small_kinds k; by destruct p, q. Qed.

(** A slot read through its packing: its occupant's type code and its debt. *)
Definition Slot_packed (s : Slot) (p : Pending) (k : Z) : Prop := kind_packed (slot_kind s) p k.

Section packed.
Context (s : Slot) (p : Pending) (k : Z).
Hypothesis Hs : Slot_packed s p k.

Lemma packed_occupied : Slot_occupied s = negb (k =? 0).
Proof. unfold Slot_occupied. by rewrite (kind_packed_low _ _ _ Hs). Qed.

Lemma packed_cap_kind : Slot_cap_kind s = CapType_from_wire k.
Proof. unfold Slot_cap_kind. by rewrite (kind_packed_low _ _ _ Hs). Qed.

Lemma packed_notice : Slot_notice s = p.
Proof.
  unfold Slot_notice. rewrite (kind_packed_high _ _ _ Hs).
  by rewrite Pending_wire_roundtrip.
Qed.

Lemma packed_set_notice q : Slot_packed (Slot_set_notice s q) q k.
Proof. by eapply kind_packed_set_high. Qed.

Lemma packed_set_kind j : 0 ≤ j ≤ 7 → Slot_packed (Slot_set_kind s j) p j.
Proof. intros. by eapply kind_packed_set_low. Qed.
End packed.

(** ** Well-formed slots *)
Record Slot_wf (s : Slot) : Prop := {
  swf_packed : ∃ p k, Slot_packed s p k;
  swf_rights : is_uint 8 (slot_rights s);
  swf_generation : 1 ≤ slot_generation s ≤ RETIRED_GENERATION;
  swf_parent : is_uint 32 (slot_parent s);
  swf_object : is_uint 64 (slot_object s);
  swf_extent : is_uint 64 (slot_extent s);
  (** a retired slot is never occupied: its last occupant would be immortal *)
  swf_live : Slot_occupied s = true → slot_generation s < RETIRED_GENERATION;
}.

Lemma Slot_wf_occupied_kind s :
  Slot_wf s → Slot_occupied s = true → ∃ t, Slot_cap_kind s = Some t.
Proof.
  intros [[p [k Hp]] _ _ _ _ _ _]. rewrite (packed_occupied _ _ _ Hp), (packed_cap_kind _ _ _ Hp).
  destruct Hp as [_ ?]. intros. small_kinds k; simpl in *; (discriminate || eauto).
Qed.

Lemma Slot_wf_set_notice s q : Slot_wf s → Slot_wf (Slot_set_notice s q).
Proof.
  intros [[p [k Hp]] ????? Hl]. pose proof (packed_set_notice _ _ _ Hp q) as Hq.
  split; try done; [by eauto|].
  rewrite (packed_occupied _ _ _ Hq), <- (packed_occupied _ _ _ Hp). done.
Qed.

Lemma Slot_set_notice_occupied s q :
  Slot_wf s → Slot_occupied (Slot_set_notice s q) = Slot_occupied s.
Proof.
  intros [[p [k Hp]] _ _ _ _ _ _]. rewrite (packed_occupied _ _ _ Hp).
  by rewrite (packed_occupied _ _ _ (packed_set_notice _ _ _ Hp q)).
Qed.

Lemma Slot_set_notice_cap_kind s q :
  Slot_wf s → Slot_cap_kind (Slot_set_notice s q) = Slot_cap_kind s.
Proof.
  intros [[p [k Hp]] _ _ _ _ _ _]. rewrite (packed_cap_kind _ _ _ Hp).
  by rewrite (packed_cap_kind _ _ _ (packed_set_notice _ _ _ Hp q)).
Qed.

Lemma Slot_set_notice_notice s q : Slot_wf s → Slot_notice (Slot_set_notice s q) = q.
Proof.
  intros [[p [k Hp]] _ _ _ _ _ _]. by eapply packed_notice, packed_set_notice.
Qed.

Lemma Slot_wf_fresh g : 1 ≤ g ≤ RETIRED_GENERATION → Slot_wf (Slot_fresh g).
Proof. intros. split; simpl; try done. by exists Quiet, 0. Qed.

Lemma Slot_wf_watermark s o e :
  Slot_wf s → is_uint 64 o → is_uint 64 e → Slot_wf (Slot_set_watermark s o e).
Proof. intros [] ??. by split. Qed.

Lemma Slot_wf_mapped s v : Slot_wf s → Slot_wf (Slot_set_mapped s v).
Proof. intros []. by split. Qed.

Lemma carve_slot_wf s : Slot_wf s → Slot_wf (carve_slot s).
Proof.
  intros Hs. unfold carve_slot.
  destruct (watermark_carved _ _ _) as [[o e]|] eqn:E; [|done].
  apply watermark_carved_range in E as [? [? ?]]; [|apply Hs|apply Hs|done].
  by apply Slot_wf_watermark.
Qed.

(** ** What placing and clearing leave in a slot *)
Section placed.
Context (s : Slot) (kind : CapType) (rights object extent : Z) (parent : Handle) (owes : bool).
Hypothesis Hs : Slot_wf s.

Let s' := placed_slot s kind rights object extent parent owes.

Lemma placed_slot_fields :
  slot_generation s' = slot_generation s ∧ slot_rights s' = rights ∧
  slot_object s' = object ∧ slot_extent s' = extent ∧
  slot_parent s' = Handle_bits parent ∧ slot_mapped s' = NOT_MAPPED.
Proof. unfold s', placed_slot. by destruct owes. Qed.

Lemma placed_slot_packed :
  Slot_packed s' (if owes then Pending_granted (Slot_notice s) else Slot_notice s)
    (CapType_to_wire kind).
Proof.
  destruct Hs as [[p [k Hp]] _ _ _ _ _ _].
  pose proof (CapType_to_wire_bound kind) as Hb.
  pose proof (packed_set_kind s p k Hp (CapType_to_wire kind) ltac:(lia)) as Hk.
  rewrite (packed_notice _ _ _ Hp). unfold s', placed_slot.
  destruct owes; [|exact Hk].
  set (s2 := mkSlot _ _ _ _ _ _ _).
  assert (H2 : Slot_packed s2 p (CapType_to_wire kind)) by exact Hk.
  rewrite (packed_notice _ _ _ H2). by eapply packed_set_notice.
Qed.

Lemma placed_slot_occupied : Slot_occupied s' = true.
Proof. rewrite (packed_occupied _ _ _ placed_slot_packed). by destruct kind. Qed.

Lemma placed_slot_cap_kind : Slot_cap_kind s' = Some kind.
Proof.
  rewrite (packed_cap_kind _ _ _ placed_slot_packed). apply CapType_wire_roundtrip.
Qed.

Lemma placed_slot_notice :
  Slot_notice s' = if owes then Pending_granted (Slot_notice s) else Slot_notice s.
Proof. apply (packed_notice _ _ _ placed_slot_packed). Qed.

Lemma placed_slot_wf :
  slot_generation s < RETIRED_GENERATION → is_uint 8 rights → is_uint 64 object →
  is_uint 64 extent → is_uint 32 (Handle_bits parent) → Slot_wf s'.
Proof.
  intros. destruct placed_slot_fields as (Hg & Hr & Ho & He & Hp & _).
  split; rewrite ?Hg, ?Hr, ?Ho, ?He, ?Hp; try done; [eauto using placed_slot_packed|apply Hs].
Qed.
End placed.

Section cleared.
Context (s : Slot) (owes : bool).
Hypothesis Hs : Slot_wf s.

Lemma cleared_slot_packed :
  Slot_packed (cleared_slot s owes)
    (if owes then Pending_revoked (Slot_notice s) else Slot_notice s) 0.
Proof.
  destruct Hs as [[p [k Hp]] _ _ _ _ _ _]. rewrite (packed_notice _ _ _ Hp).
  unfold cleared_slot. destruct owes.
  - rewrite (packed_notice _ _ _ Hp).
    pose proof (packed_set_notice _ _ _ Hp (Pending_revoked p)) as Hq.
    by apply (packed_set_kind _ _ _ Hq 0).
  - by apply (packed_set_kind _ _ _ Hp 0).
Qed.

Lemma cleared_slot_free : Slot_occupied (cleared_slot s owes) = false.
Proof. by rewrite (packed_occupied _ _ _ cleared_slot_packed). Qed.

Lemma cleared_slot_notice :
  Slot_notice (cleared_slot s owes) = if owes then Pending_revoked (Slot_notice s) else Slot_notice s.
Proof. apply (packed_notice _ _ _ cleared_slot_packed). Qed.

Lemma cleared_slot_generation :
  slot_generation (cleared_slot s owes) = Z.min (slot_generation s + 1) RETIRED_GENERATION.
Proof. unfold cleared_slot. by destruct owes. Qed.

Lemma cleared_slot_generation_ge : slot_generation s ≤ slot_generation (cleared_slot s owes).
Proof. rewrite cleared_slot_generation. destruct (swf_generation _ Hs). lia. Qed.

(** Clearing an occupied slot moves it past every handle it has issued. *)
Lemma cleared_slot_generation_gt :
  Slot_occupied s = true → slot_generation s < slot_generation (cleared_slot s owes).
Proof. intros Ho. rewrite cleared_slot_generation. pose proof (swf_live _ Hs Ho). lia. Qed.

Lemma cleared_slot_wf : Slot_wf (cleared_slot s owes).
Proof.
  pose proof cleared_slot_generation as Hg.
  split; [by eauto using cleared_slot_packed|done| |done|done|done|].
  - rewrite Hg. destruct (swf_generation _ Hs). unfold RETIRED_GENERATION, u16_max in *. lia.
  - by rewrite cleared_slot_free.
Qed.
End cleared.

(** ** The table as an array *)
Record Table_shape (t : Table) : Prop := {
  tsh_slots : length (tbl_slots t) = TABLE_SLOTS;
  tsh_pages : length (tbl_pages t) = MAX_PAGES;
  tsh_grown : (tbl_grown t ≤ MAX_PAGES)%nat;
  (** every page counted is one whose memory the table holds, whole *)
  tsh_held : ∀ p, (p < tbl_grown t)%nat →
    ∃ base slots, tbl_pages t !! p = Some base ∧ tbl_mem t !! base = Some slots ∧
                  length slots = SLOTS_PER_PAGE;
  (** and no two of them are the same memory *)
  tsh_apart : NoDup (take (tbl_grown t) (tbl_pages t));
}.

Record Table_wf (t : Table) : Prop := {
  twf_shape : Table_shape t;
  twf_slots : ∀ i s, Table_at t i = Some s → Slot_wf s;
  twf_floor : 1 ≤ tbl_floor t ≤ RETIRED_GENERATION;
}.

(** Index arithmetic of the pages. *)
Lemma page_of_lt g i :
  (TABLE_SLOTS ≤ i)%nat → (i < TABLE_SLOTS + g * SLOTS_PER_PAGE)%nat →
  ((i - TABLE_SLOTS) / SLOTS_PER_PAGE < g)%nat.
Proof. intros. apply Nat.Div0.div_lt_upper_bound. unfold SLOTS_PER_PAGE in *. lia. Qed.

Lemma page_of_ge g i :
  (TABLE_SLOTS + g * SLOTS_PER_PAGE ≤ i)%nat → (g ≤ (i - TABLE_SLOTS) / SLOTS_PER_PAGE)%nat.
Proof. intros. apply Nat.div_le_lower_bound; unfold SLOTS_PER_PAGE in *; lia. Qed.

Lemma page_index_inj i j :
  (TABLE_SLOTS ≤ i)%nat → (TABLE_SLOTS ≤ j)%nat →
  ((i - TABLE_SLOTS) / SLOTS_PER_PAGE = (j - TABLE_SLOTS) / SLOTS_PER_PAGE)%nat →
  ((i - TABLE_SLOTS) mod SLOTS_PER_PAGE = (j - TABLE_SLOTS) mod SLOTS_PER_PAGE)%nat → i = j.
Proof.
  intros ?? Hd Hm.
  pose proof (Nat.div_mod_eq (i - TABLE_SLOTS) SLOTS_PER_PAGE).
  pose proof (Nat.div_mod_eq (j - TABLE_SLOTS) SLOTS_PER_PAGE). lia.
Qed.

Lemma Table_at_in_range t i :
  Table_shape t → (i < Table_capacity t)%nat → is_Some (Table_at t i).
Proof.
  intros Ht Hi. unfold Table_at. destruct (Nat.ltb_spec i TABLE_SLOTS).
  - apply lookup_lt_is_Some. by rewrite (tsh_slots _ Ht).
  - pose proof (page_of_lt (tbl_grown t) i ltac:(done) Hi) as Hp.
    destruct (Nat.leb_spec (tbl_grown t) ((i - TABLE_SLOTS) / SLOTS_PER_PAGE)%nat); [lia|].
    destruct (tsh_held _ Ht _ Hp) as (base & slots & -> & Hm & Hl); simpl.
    rewrite Hm; simpl. apply lookup_lt_is_Some. rewrite Hl. by apply Nat.mod_upper_bound.
Qed.

Lemma Table_at_out_of_range t i : (Table_capacity t ≤ i)%nat → Table_at t i = None.
Proof.
  intros Hi. unfold Table_at, Table_capacity in *.
  destruct (Nat.ltb_spec i TABLE_SLOTS); [lia|].
  pose proof (page_of_ge _ _ Hi).
  by destruct (Nat.leb_spec (tbl_grown t) ((i - TABLE_SLOTS) / SLOTS_PER_PAGE)%nat); [|lia].
Qed.

Lemma Table_at_Some_lt t i s : Table_at t i = Some s → (i < Table_capacity t)%nat.
Proof.
  intros H. destruct (decide (i < Table_capacity t)%nat); [done|].
  by rewrite Table_at_out_of_range in H by lia.
Qed.

Lemma Table_set_capacity t i s : Table_capacity (Table_set t i s) = Table_capacity t.
Proof. unfold Table_set. repeat case_match; done. Qed.

Lemma pages_apart t p q base :
  Table_shape t → (p < tbl_grown t)%nat → (q < tbl_grown t)%nat →
  tbl_pages t !! p = Some base → tbl_pages t !! q = Some base → p = q.
Proof.
  intros Ht Hp Hq Ep Eq.
  eapply (NoDup_lookup _ p q base (tsh_apart _ Ht)); by rewrite lookup_take_lt.
Qed.

Lemma Table_set_shape t i s : Table_shape t → Table_shape (Table_set t i s).
Proof.
  intros Ht. unfold Table_set. destruct (i <? TABLE_SLOTS)%nat.
  - destruct Ht. split; simpl; rewrite ?length_insert; done.
  - case_match; [|done]. rename z into base.
    destruct Ht as [?? ? Hheld ?]. split; simpl; try done.
    intros p Hp. destruct (Hheld p Hp) as (b & l & Hb & Hm & Hl).
    destruct (decide (b = base)) as [->|].
    + eexists base, (<[_:=s]> l). simplify_eq. rewrite lookup_alter_eq, Hm. split_and!; [done|done|].
      by rewrite length_insert.
    + exists b, l. by rewrite lookup_alter_ne.
Qed.

(** The table is an array: a write at [i] is read back at [i] and nowhere else. *)
Lemma Table_at_set t i j s :
  Table_shape t → (i < Table_capacity t)%nat →
  Table_at (Table_set t i s) j = if decide (i = j) then Some s else Table_at t j.
Proof.
  intros Ht Hi. unfold Table_set. destruct (Nat.ltb_spec i TABLE_SLOTS) as [Hlo|Hlo].
  - unfold Table_at; simpl. destruct (Nat.ltb_spec j TABLE_SLOTS).
    + destruct (decide (i = j)) as [->|].
      * apply list_lookup_insert_eq. by rewrite (tsh_slots _ Ht).
      * by apply list_lookup_insert_ne.
    + destruct (decide (i = j)); [lia|done].
  - pose proof (page_of_lt (tbl_grown t) i ltac:(done) Hi) as Hp.
    destruct (Nat.leb_spec (tbl_grown t) ((i - TABLE_SLOTS) / SLOTS_PER_PAGE)%nat); [lia|].
    destruct (tsh_held _ Ht _ Hp) as (base & slots & Hb & Hm & Hl). rewrite Hb.
    unfold Table_at; simpl. destruct (Nat.ltb_spec j TABLE_SLOTS).
    { destruct (decide (i = j)); [lia|done]. }
    destruct (Nat.leb_spec (tbl_grown t) ((j - TABLE_SLOTS) / SLOTS_PER_PAGE)%nat) as [Hj|Hj].
    { destruct (decide (i = j)) as [->|]; [lia|done]. }
    destruct (tsh_held _ Ht _ Hj) as (base' & slots' & Hb' & Hm' & Hl'). rewrite Hb'; simpl.
    destruct (decide (base = base')) as [<-|Hne].
    + rewrite lookup_alter_eq, Hm; simpl. simplify_eq.
      pose proof (pages_apart _ _ _ _ Ht Hp Hj Hb Hb') as Hpp.
      destruct (decide (i = j)) as [<-|Hij].
      * apply list_lookup_insert_eq. rewrite Hl. by apply Nat.mod_upper_bound.
      * apply list_lookup_insert_ne. intros Hmm. by apply Hij, page_index_inj.
    + rewrite lookup_alter_ne by done. destruct (decide (i = j)) as [<-|]; [congruence|done].
Qed.

Lemma Table_set_floor t i s : tbl_floor (Table_set t i s) = tbl_floor t.
Proof. unfold Table_set. repeat case_match; done. Qed.

Lemma Table_set_posts t i s : tbl_posts_notices (Table_set t i s) = tbl_posts_notices t.
Proof. unfold Table_set. repeat case_match; done. Qed.

Lemma Table_set_wf t i s :
  Table_wf t → (i < Table_capacity t)%nat → Slot_wf s → Table_wf (Table_set t i s).
Proof.
  intros [Ht Hs Hf] Hi Hw. split; [by apply Table_set_shape| |by rewrite Table_set_floor].
  intros j s'. rewrite Table_at_set by done. destruct (decide (i = j)); [by intros [= ->]|eauto].
Qed.

Lemma Table_at_update t i j f :
  Table_shape t →
  Table_at (Table_update t i f) j = if decide (i = j) then f <$> Table_at t j else Table_at t j.
Proof.
  intros Ht. unfold Table_update. destruct (Table_at t i) as [s|] eqn:E.
  - rewrite Table_at_set by eauto using Table_at_Some_lt.
    destruct (decide (i = j)) as [<-|]; [by rewrite E|done].
  - destruct (decide (i = j)) as [<-|]; [by rewrite E|done].
Qed.

Lemma Table_update_capacity t i f : Table_capacity (Table_update t i f) = Table_capacity t.
Proof. unfold Table_update. case_match; [apply Table_set_capacity|done]. Qed.

Lemma Table_update_floor t i f : tbl_floor (Table_update t i f) = tbl_floor t.
Proof. unfold Table_update. case_match; [apply Table_set_floor|done]. Qed.

Lemma Table_update_posts t i f : tbl_posts_notices (Table_update t i f) = tbl_posts_notices t.
Proof. unfold Table_update. case_match; [apply Table_set_posts|done]. Qed.

Lemma Table_update_wf t i f :
  Table_wf t → (∀ s, Slot_wf s → Slot_wf (f s)) → Table_wf (Table_update t i f).
Proof.
  intros Ht Hf. unfold Table_update. destruct (Table_at t i) as [s|] eqn:E; [|done].
  apply Table_set_wf; [done|by eapply Table_at_Some_lt|by eapply Hf, twf_slots].
Qed.

(** ** Searches *)
Lemma find_seq_Some (p : nat → bool) n i :
  find p (seq 0 n) = Some i → p i = true ∧ (i < n)%nat ∧ ∀ j, (j < i)%nat → p j = false.
Proof.
  cut (∀ k, find p (seq k n) = Some i →
         p i = true ∧ (i < k + n)%nat ∧ ∀ j, (k ≤ j < i)%nat → p j = false).
  { intros H Hf. destruct (H 0%nat Hf) as (? & ? & Hl). split_and!; [done|lia|].
    intros j Hj. apply Hl. lia. }
  induction n as [|n IH]; intros k; simpl; [done|].
  destruct (p k) eqn:E; [intros [= <-]; split_and!; [done|lia|lia]|].
  intros Hf. destruct (IH (S k) Hf) as (? & ? & Hl). split_and!; [done|lia|].
  intros j Hj. destruct (decide (j = k)) as [->|]; [done|]. apply Hl. lia.
Qed.

Lemma find_seq_None (p : nat → bool) n i :
  find p (seq 0 n) = None → (i < n)%nat → p i = false.
Proof.
  intros Hf Hi. eapply (find_none _ _ Hf). apply in_seq. lia.
Qed.

Lemma Table_vacancy_Some t i :
  Table_vacancy t = Some i →
  ∃ s, Table_at t i = Some s ∧ Slot_occupied s = false ∧
       slot_generation s ≠ RETIRED_GENERATION ∧ Slot_notice s = Quiet ∧
       (i < Table_capacity t)%nat.
Proof.
  intros (Hp & Hi & _)%find_seq_Some. destruct (Table_at t i) as [s|]; [|done].
  unfold slot_is_vacant in Hp. apply andb_true_iff in Hp as [[H1 H2]%andb_true_iff H3].
  exists s. split_and!; [done|by apply negb_true_iff|lia| |done].
  by destruct (Slot_notice s).
Qed.

Lemma Table_account_Some t i :
  Table_account t = Some i →
  ∃ s, Table_at t i = Some s ∧ Slot_occupied s = true ∧ Slot_cap_kind s = Some Untyped ∧
       rights_holds (slot_rights s) rights_DERIVE = true ∧
       watermark_carvable (slot_object s) (slot_extent s) FRAME_SIZE = true ∧
       (i < Table_capacity t)%nat.
Proof.
  intros (Hp & Hi & _)%find_seq_Some. destruct (Table_at t i) as [s|]; [|done].
  unfold is_account in Hp. apply andb_true_iff in Hp as [[[H1 H2]%andb_true_iff H3]%andb_true_iff H4].
  exists s. split_and!; try done. by eapply bool_decide_eq_true.
Qed.

(** ** What resolving answers *)
Definition names (h : Handle) (i : nat) (s : Slot) : Prop :=
  i = Z.to_nat (Handle_index h) ∧ Handle_generation h = slot_generation s ∧
  Handle_is_issuable h = true ∧ Slot_occupied s = true.

Lemma Table_resolve_Ok t h i :
  Table_resolve t h = Ok i ↔ ∃ s, Table_at t i = Some s ∧ names h i s.
Proof.
  unfold Table_resolve, Table_resolve_at, Table_slot, names. split.
  - destruct (Handle_is_issuable h) eqn:Hi; rsimpl; [|discriminate].
    destruct (Nat.leb_spec (Table_capacity t) (Z.to_nat (Handle_index h))); [discriminate|].
    destruct (Table_at t _) as [s|] eqn:E; rsimpl; [|discriminate].
    destruct (Z.eqb_spec (Handle_generation h) (slot_generation s)); rsimpl; [|discriminate].
    destruct (Slot_occupied s) eqn:Ho; rsimpl; [|discriminate]. intros [= <-]. eauto 10.
  - intros (s & E & -> & Hg & -> & Ho); rsimpl.
    pose proof (Table_at_Some_lt _ _ _ E).
    destruct (Nat.leb_spec (Table_capacity t) (Z.to_nat (Handle_index h))); [lia|].
    rewrite E; rsimpl. by rewrite Hg, Z.eqb_refl, Ho.
Qed.

Definition found_of (s : Slot) (k : CapType) : Found :=
  mkFound k (slot_rights s) (slot_object s) (slot_extent s).

Lemma Table_inspect_Ok t h f :
  Table_inspect t h = Ok f ↔
  ∃ i s k, Table_at t i = Some s ∧ names h i s ∧ Slot_cap_kind s = Some k ∧ f = found_of s k.
Proof.
  unfold Table_inspect, Table_slot. split.
  - destruct (Table_resolve t h) as [i|e] eqn:R; rsimpl; [|done].
    apply Table_resolve_Ok in R as (s & E & Hn). rewrite E; rsimpl.
    destruct (Slot_cap_kind s) as [k|] eqn:K; rsimpl; [|done]. intros [= <-]. eauto 10.
  - intros (i & s & k & E & Hn & K & ->).
    assert (Table_resolve t h = Ok i) as -> by (apply Table_resolve_Ok; eauto). rsimpl.
    rewrite E; rsimpl. by rewrite K.
Qed.

(** A handle behind the generation of its slot is refused as revoked. *)
Lemma Table_resolve_stale t h s :
  Table_at t (Z.to_nat (Handle_index h)) = Some s → Handle_is_issuable h = true →
  Handle_generation h < slot_generation s → Table_resolve t h = Err revoked.
Proof.
  intros E Hi Hlt. unfold Table_resolve, Table_resolve_at, Table_slot. rewrite Hi; rsimpl.
  pose proof (Table_at_Some_lt _ _ _ E).
  destruct (Nat.leb_spec (Table_capacity t) (Z.to_nat (Handle_index h))); [lia|].
  rewrite E; rsimpl. destruct (Z.eqb_spec (Handle_generation h) (slot_generation s)); [lia|]. simpl.
  by destruct (Z.ltb_spec (Handle_generation h) (slot_generation s)); [|lia].
Qed.

(** ** Placing *)
Lemma Table_place_spec kind rights object extent parent t :
  Table_wf t →
  match Table_place kind rights object extent parent t with
  | (Ok h, t') =>
      ∃ i s, Table_at t i = Some s ∧ Slot_occupied s = false ∧ Slot_notice s = Quiet ∧
        slot_generation s < RETIRED_GENERATION ∧
        h = Handle_new (Z.of_nat i) (slot_generation s) ∧
        t' = Table_set t i (placed_slot s kind rights object extent parent (tbl_posts_notices t))
  | (Err e, t') => e = exhausted ∧ t' = t ∧ Table_vacancy t = None
  end.
Proof.
  intros Ht. unfold Table_place. destruct (Table_vacancy t) as [i|] eqn:V; [|done].
  apply Table_vacancy_Some in V as (s & E & Ho & Hg & Hn & Hi). rewrite E.
  exists i, s. split_and!; try done.
  - destruct (swf_generation _ (twf_slots _ Ht _ _ E)). lia.
  - f_equal. unfold placed_slot. by destruct (tbl_posts_notices t).
Qed.

Lemma capacity_bound t : Table_shape t → (Table_capacity t ≤ MAX_SLOTS)%nat.
Proof.
  intros Ht. pose proof (tsh_grown _ Ht). unfold Table_capacity, MAX_SLOTS.
  unfold TABLE_SLOTS, MAX_PAGES, SLOTS_PER_PAGE in *. lia.
Qed.

Lemma index_is_u16 t i s : Table_shape t → Table_at t i = Some s → is_uint 16 (Z.of_nat i).
Proof.
  intros Ht E. pose proof (capacity_bound _ Ht). pose proof (Table_at_Some_lt _ _ _ E).
  unfold is_uint, MAX_SLOTS, TABLE_SLOTS, MAX_PAGES, SLOTS_PER_PAGE in *. lia.
Qed.

(** The handle a slot answers to, and that it does. *)
Definition handle_of (i : nat) (s : Slot) : Handle := Handle_new (Z.of_nat i) (slot_generation s).

Lemma handle_of_names t i s :
  Table_wf t → Table_at t i = Some s → Slot_occupied s = true → names (handle_of i s) i s.
Proof.
  intros Ht E Ho. pose proof (index_is_u16 _ _ _ (twf_shape _ Ht) E) as Hi.
  destruct (swf_generation _ (twf_slots _ Ht _ _ E)).
  unfold names, handle_of, Handle_is_issuable.
  rewrite Handle_new_index, Handle_new_generation, Nat2Z.id by done.
  split_and!; try done. apply negb_true_iff. lia.
Qed.

Lemma handle_of_bits t i s :
  Table_wf t → Table_at t i = Some s → is_uint 32 (Handle_bits (handle_of i s)).
Proof.
  intros Ht E. pose proof (index_is_u16 _ _ _ (twf_shape _ Ht) E) as Hi.
  destruct (swf_generation _ (twf_slots _ Ht _ _ E)). unfold handle_of, Handle_new; simpl.
  rewrite (lor_shiftl_split 16) by (done || lia).
  unfold is_uint, RETIRED_GENERATION, u16_max in *. lia.
Qed.

(** Two handles naming one slot are the same word. *)
Lemma names_inj t h i s :
  Table_wf t → Table_at t i = Some s → is_uint 32 (Handle_bits h) → names h i s → h = handle_of i s.
Proof.
  intros Ht E Hb (Hi & Hg & _ & Ho).
  pose proof (index_is_u16 _ _ _ (twf_shape _ Ht) E) as Hu.
  pose proof (handle_of_bits _ _ _ Ht E) as Hb'. pose proof (Handle_index_range h) as Hr.
  apply Handle_ext; [apply Hb|apply Hb'| |]; unfold handle_of.
  - rewrite Handle_new_index by done. destruct Hr. lia.
  - by rewrite Handle_new_generation.
Qed.

Lemma Table_place_wf kind rights object extent parent t :
  Table_wf t → is_uint 8 rights → is_uint 64 object → is_uint 64 extent →
  is_uint 32 (Handle_bits parent) →
  Table_wf (Table_place kind rights object extent parent t).2.
Proof.
  intros Ht ????. pose proof (Table_place_spec kind rights object extent parent t Ht) as Hp.
  destruct (Table_place _ _ _ _ _ t) as [[h|e] t']; simpl.
  - destruct Hp as (i & s & E & ? & ? & ? & -> & ->).
    apply Table_set_wf; [done|by eapply Table_at_Some_lt|].
    apply placed_slot_wf; try done. by eapply twf_slots.
  - by destruct Hp as (_ & -> & _).
Qed.

(** ** Growing *)

(** The contract of [Backing::reach]: the memory it names is owned by nobody
    else for as long as the table holds it, so it is no page the table holds. *)
Definition reach_fresh (reach : Z → option Z) (t : Table) : Prop :=
  ∀ phys base, reach phys = Some base → base ∉ take (tbl_grown t) (tbl_pages t).

Section grow.
Context (t : Table) (base : Z).
Hypothesis Ht : Table_shape t.
Hypothesis Hroom : (tbl_grown t < MAX_PAGES)%nat.
Hypothesis Hfresh : base ∉ take (tbl_grown t) (tbl_pages t).

Lemma add_page_pages_lt p :
  (p < tbl_grown t)%nat → <[tbl_grown t := base]> (tbl_pages t) !! p = tbl_pages t !! p.
Proof. intros. apply list_lookup_insert_ne. lia. Qed.

Lemma add_page_pages_eq : <[tbl_grown t := base]> (tbl_pages t) !! tbl_grown t = Some base.
Proof. apply list_lookup_insert_eq. by rewrite (tsh_pages _ Ht). Qed.

Lemma held_ne p b : (p < tbl_grown t)%nat → tbl_pages t !! p = Some b → b ≠ base.
Proof.
  intros Hp Hb ->. apply Hfresh. apply list_elem_of_lookup. exists p.
  by rewrite lookup_take_lt.
Qed.

Lemma Table_add_page_shape : Table_shape (Table_add_page t base).
Proof.
  destruct Ht as [Hs Hpg Hg Hheld Hap]. split; tbl_cbn; rewrite ?length_insert; try done.
  - intros p Hp. destruct (decide (p = tbl_grown t)) as [->|].
    + exists base, (replicate SLOTS_PER_PAGE (Slot_fresh (tbl_floor t))).
      by rewrite add_page_pages_eq, lookup_insert_eq, length_replicate.
    + destruct (Hheld p) as (b & l & Hb & Hm & Hl); [lia|]. exists b, l.
      rewrite add_page_pages_lt by lia. rewrite lookup_insert_ne; [done|].
      apply not_eq_sym, (held_ne p); [lia|done].
  - rewrite (take_S_r _ _ base add_page_pages_eq). rewrite take_insert_ge by done.
    apply list.NoDup_app. split_and!; [done| |apply NoDup_singleton].
    intros x Hx ->%list_elem_of_singleton. by apply Hfresh.
Qed.

Lemma Table_at_add_page_old j :
  (j < Table_capacity t)%nat → Table_at (Table_add_page t base) j = Table_at t j.
Proof.
  intros Hj. unfold Table_at; tbl_cbn. destruct (Nat.ltb_spec j TABLE_SLOTS); [done|].
  pose proof (page_of_lt (tbl_grown t) j ltac:(done) Hj) as Hp.
  set (p := ((j - TABLE_SLOTS) / SLOTS_PER_PAGE)%nat) in *.
  destruct (Nat.leb_spec (S (tbl_grown t)) p), (Nat.leb_spec (tbl_grown t) p); try lia.
  rewrite add_page_pages_lt by done. destruct (tsh_held _ Ht _ Hp) as (b & l & Hb & Hm & _).
  rewrite Hb; rsimpl. rewrite lookup_insert_ne; [done|]. by apply not_eq_sym, (held_ne p).
Qed.

Lemma Table_at_add_page_new j :
  (Table_capacity t ≤ j < Table_capacity t + SLOTS_PER_PAGE)%nat →
  Table_at (Table_add_page t base) j = Some (Slot_fresh (tbl_floor t)).
Proof.
  unfold Table_capacity. intros Hj. unfold Table_at; tbl_cbn.
  destruct (Nat.ltb_spec j TABLE_SLOTS); [lia|].
  assert (((j - TABLE_SLOTS) / SLOTS_PER_PAGE)%nat = tbl_grown t) as ->.
  { apply Nat.le_antisymm; [|apply page_of_ge; lia].
    apply Nat.lt_succ_r. apply page_of_lt; lia. }
  destruct (Nat.leb_spec (S (tbl_grown t)) (tbl_grown t)); [lia|].
  rewrite add_page_pages_eq; rsimpl. rewrite lookup_insert_eq; rsimpl.
  apply lookup_replicate_2. by apply Nat.mod_upper_bound.
Qed.
End grow.

Lemma Table_add_page_capacity t base :
  Table_capacity (Table_add_page t base) = (Table_capacity t + SLOTS_PER_PAGE)%nat.
Proof. unfold Table_capacity; tbl_cbn. unfold SLOTS_PER_PAGE. lia. Qed.

Lemma Table_at_add_page_inv t base j s :
  Table_shape t → (tbl_grown t < MAX_PAGES)%nat → base ∉ take (tbl_grown t) (tbl_pages t) →
  Table_at (Table_add_page t base) j = Some s →
  Table_at t j = Some s ∨ (Table_at t j = None ∧ s = Slot_fresh (tbl_floor t)).
Proof.
  intros Ht Hr Hf E. pose proof (Table_at_Some_lt _ _ _ E) as Hj.
  rewrite Table_add_page_capacity in Hj. destruct (decide (j < Table_capacity t)%nat).
  - left. by rewrite Table_at_add_page_old in E.
  - right. rewrite Table_at_add_page_new in E by (done || lia).
    rewrite Table_at_out_of_range by lia. naive_solver.
Qed.

Lemma Table_add_page_wf t base :
  Table_wf t → (tbl_grown t < MAX_PAGES)%nat → base ∉ take (tbl_grown t) (tbl_pages t) →
  Table_wf (Table_add_page t base).
Proof.
  intros [Ht Hs Hfl] Hr Hf. split; [by apply Table_add_page_shape| |done].
  intros j s [E|[_ ->]]%Table_at_add_page_inv; try done; [eauto|by apply Slot_wf_fresh].
Qed.

Lemma Table_grow_spec reach t :
  Table_wf t →
  match Table_grow reach t with
  | (Ok _, t') =>
      ∃ account payer base, (tbl_grown t < MAX_PAGES)%nat ∧ Table_account t = Some account ∧
        Table_at t account = Some payer ∧ reach (slot_object payer) = Some base ∧
        t' = Table_update (Table_add_page t base) account carve_slot
  | (Err e, t') => e = exhausted ∧ t' = t
  end.
Proof.
  intros Ht. unfold Table_grow. destruct (Nat.leb_spec MAX_PAGES (tbl_grown t)); [done|].
  destruct (Table_account t) as [a|] eqn:A; [|done].
  destruct (Table_account_Some _ _ A) as (s & E & _). rewrite E.
  destruct (reach (slot_object s)) as [base|] eqn:R; [|done]. eauto 10.
Qed.

Lemma Table_grow_wf reach t :
  Table_wf t → reach_fresh reach t → Table_wf (Table_grow reach t).2.
Proof.
  intros Ht Hf. pose proof (Table_grow_spec reach t Ht) as Hg.
  destruct (Table_grow reach t) as [[[]|e] t']; simpl.
  - destruct Hg as (a & s & base & Hr & _ & _ & Hb & ->).
    apply Table_update_wf; [|apply carve_slot_wf]. apply Table_add_page_wf; eauto.
  - by destruct Hg as [_ ->].
Qed.
