(* ===== verification/CapRevoke.v ===== *)
(** * Revocation finds every descendant and nothing else

    The marking loop of [Table::descendants] is a fixpoint computation over a
    bitmap.  Here it is proved to terminate within the passes the model allows
    it, and to mark exactly the slots whose chain of parents reaches the handle
    ([descendant]). *)

From S2P Require Import Prelude Abi Control CapTable CapTableFacts.
Import error cap.

(** ** The bitmap *)
Definition Condemned_wf (c : Condemned) : Prop := length (cond_words c) = MARK_WORDS.

Definition mark_bits : nat := MARK_WORDS * 64.

Lemma Condemned_NONE_wf : Condemned_wf Condemned_NONE.
Proof. apply length_replicate. Qed.

Lemma Condemned_mark_wf c i : Condemned_wf c → Condemned_wf (Condemned_mark c i).
Proof. unfold Condemned_wf, Condemned_mark. case_match; cbn [cond_words]; [by rewrite length_insert|done]. Qed.

Lemma Condemned_holds_testbit c i :
  Condemned_holds c i =
  match cond_words c !! (i / 64)%nat with
  | Some word => Z.testbit word (Z.of_nat (i mod 64))
  | None => false
  end.
Proof. unfold Condemned_holds. case_match; [|done]. apply testbit_mask. lia. Qed.

Lemma Condemned_holds_NONE i : Condemned_holds Condemned_NONE i = false.
Proof.
  rewrite Condemned_holds_testbit. case_match eqn:E; [|done].
  apply lookup_replicate_1 in E as [-> _]. apply Z.bits_0.
Qed.

Lemma Condemned_holds_mark c i j :
  Condemned_wf c → (i < mark_bits)%nat →
  Condemned_holds (Condemned_mark c i) j = bool_decide (i = j) || Condemned_holds c j.
Proof.
  intros Hc Hi. rewrite !Condemned_holds_testbit. unfold Condemned_mark.
  assert (Hw : (i / 64 < length (cond_words c))%nat).
  { rewrite Hc. apply Nat.Div0.div_lt_upper_bound. unfold mark_bits in Hi. lia. }
  apply lookup_lt_is_Some in Hw as [w Hw]. rewrite Hw. cbn [cond_words].
  destruct (decide (i / 64 = j / 64)%nat) as [Hd|Hd].
  - rewrite <- Hd. rewrite list_lookup_insert_eq by (by eapply lookup_lt_Some). rewrite Hw.
    rewrite testbit_set by lia. f_equal.
    pose proof (Nat.div_mod_eq i 64). pose proof (Nat.div_mod_eq j 64).
    destruct (Z.eqb_spec (Z.of_nat (i mod 64)) (Z.of_nat (j mod 64))); symmetry;
      [apply bool_decide_eq_true|apply bool_decide_eq_false]; lia.
  - rewrite list_lookup_insert_ne by done.
    rewrite bool_decide_eq_false_2; [done|]. by intros ->.
Qed.

Lemma capacity_mark_bits t i :
  Table_shape t → (i < Table_capacity t)%nat → (i < mark_bits)%nat.
Proof.
  intros Ht Hi. pose proof (capacity_bound _ Ht).
  unfold mark_bits, MARK_WORDS, MAX_SLOTS, TABLE_SLOTS, MAX_PAGES, SLOTS_PER_PAGE in *. lia.
Qed.

(** ** Descent *)

(** [i] was derived from [h]: directly, or from a slot that was. The parent
    handle of a slot names its parent only while the generations agree. *)
Inductive descendant (t : Table) (h : Handle) : nat → Prop :=
| descendant_child i s :
    Table_at t i = Some s → Slot_occupied s = true →
    Handle_is_issuable (Handle_from_bits (slot_parent s)) = true →
    Handle_from_bits (slot_parent s) = h →
    descendant t h i
| descendant_step j sj i s :
    descendant t h j → Table_at t j = Some sj →
    Table_at t i = Some s → Slot_occupied s = true →
    Handle_is_issuable (Handle_from_bits (slot_parent s)) = true →
    Z.to_nat (Handle_index (Handle_from_bits (slot_parent s))) = j →
    Handle_generation (Handle_from_bits (slot_parent s)) = slot_generation sj →
    descendant t h i.

Lemma descendant_slot t h i :
  descendant t h i → ∃ s, Table_at t i = Some s ∧ Slot_occupied s = true.
Proof. destruct 1; eauto. Qed.

Section marking.
Context (t : Table) (h : Handle).
Hypothesis Ht : Table_shape t.

(** The marks are sound: nothing but descendants. *)
Definition marks_sound (c : Condemned) : Prop :=
  Condemned_wf c ∧ ∀ i, Condemned_holds c i = true → descendant t h i.

Lemma descends_sound c i :
  marks_sound c → descends t h c i = true → descendant t h i ∧ (i < Table_capacity t)%nat.
Proof.
  intros [_ Hc]. unfold descends. intros [_ Hd]%andb_true_iff.
  destruct (Table_at t i) as [s|] eqn:E; [|done].
  apply andb_true_iff in Hd as [Ho [Hi Hp]%andb_true_iff].
  split; [|by eapply Table_at_Some_lt].
  apply orb_true_iff in Hp as [Hp%bool_decide_eq_true|Hp]; [by eapply descendant_child|].
  unfold Table_marked_parent in Hp. apply andb_true_iff in Hp as [Hm Hg].
  destruct (Table_at t (Z.to_nat _)) as [sj|] eqn:Ej; [|done].
  apply Z.eqb_eq in Hg. by eapply descendant_step; [apply Hc, Hm| | | | | |].
Qed.

Lemma mark_sound c i :
  marks_sound c → descends t h c i = true → marks_sound (Condemned_mark c i).
Proof.
  intros Hc Hd. destruct (descends_sound _ _ Hc Hd) as [Hi Hlt]. destruct Hc as [Hw Hc].
  split; [by apply Condemned_mark_wf|]. intros j.
  rewrite Condemned_holds_mark by (done || by eapply capacity_mark_bits).
  intros [->%bool_decide_eq_true|?]%orb_true_iff; eauto.
Qed.

(** One pass, from any prefix of the indices. *)
Definition pass_from (l : list nat) (acc : Condemned * bool) : Condemned * bool :=
  foldl (λ '(d, found) index,
           if descends t h d index then (Condemned_mark d index, true) else (d, found)) acc l.

Lemma pass_from_sound l c b : marks_sound c → marks_sound (pass_from l (c, b)).1.
Proof.
  revert c b. induction l as [|i l IH]; intros c b Hc; [done|]. simpl.
  destruct (descends t h c i) eqn:D; apply IH; [by apply mark_sound|done].
Qed.

Definition marked_count (c : Condemned) : nat :=
  length (List.filter (Condemned_holds c) (seq 0 (Table_capacity t))).

Definition mark_le (c d : Condemned) : Prop :=
  ∀ i, Condemned_holds c i = true → Condemned_holds d i = true.

Lemma filter_length_le (p q : nat → bool) l :
  (∀ i, p i = true → q i = true) → (length (List.filter p l) ≤ length (List.filter q l))%nat.
Proof.
  intros Hpq. induction l as [|i l IH]; simpl; [lia|].
  destruct (p i) eqn:P; [rewrite (Hpq _ P); simpl; lia|]. destruct (q i); simpl; lia.
Qed.

Lemma filter_length_lt (p q : nat → bool) l i :
  (∀ i, p i = true → q i = true) → i ∈ l → p i = false → q i = true →
  (length (List.filter p l) < length (List.filter q l))%nat.
Proof.
  intros Hpq Hi Hp Hq. apply list_elem_of_In, in_split in Hi as (l1 & l2 & ->).
  rewrite !List.filter_app, !length_app; simpl. rewrite Hp, Hq; simpl.
  pose proof (filter_length_le p q l1 Hpq). pose proof (filter_length_le p q l2 Hpq). lia.
Qed.

Lemma marked_count_le c : (marked_count c ≤ Table_capacity t)%nat.
Proof.
  unfold marked_count. etransitivity; [apply (filter_length_le _ (λ _, true)); done|].
  rewrite forallb_filter_id; [by rewrite length_seq|by apply forallb_forall].
Qed.

(** A pass that reports a find has marked a slot that was not marked; one that
    reports none has left the marks alone and found the test false throughout. *)
Lemma pass_from_progress l c b d f :
  marks_sound c → (∀ i, i ∈ l → (i < Table_capacity t)%nat) →
  pass_from l (c, b) = (d, f) →
  mark_le c d ∧
  (f = false → b = false ∧ d = c ∧ ∀ i, i ∈ l → descends t h c i = false) ∧
  (f = true → b = true ∨ (marked_count c < marked_count d)%nat).
Proof.
  revert c b. induction l as [|i l IH]; intros c b Hc Hl; simpl.
  { intros [= <- <-]. split_and!; [by intros ?|intros ->; split_and!; set_solver|auto]. }
  destruct (descends t h c i) eqn:D; intros Hp.
  - apply IH in Hp as (Hle & Hf & _); [|by apply mark_sound|set_solver].
    assert (Hi : (i < Table_capacity t)%nat) by (apply Hl; set_solver).
    assert (Hm : ∀ j, Condemned_holds (Condemned_mark c i) j =
                      bool_decide (i = j) || Condemned_holds c j).
    { intros j. apply Condemned_holds_mark; [apply Hc|by eapply capacity_mark_bits]. }
    assert (Hcd : mark_le c d).
    { intros j Hj. apply Hle. by rewrite Hm, Hj, orb_true_r. }
    split_and!; [done|intros ->; by destruct (Hf eq_refl)|intros ->; right].
    apply (filter_length_lt _ _ _ i); [done|apply list_elem_of_In, in_seq; lia| |].
    + unfold descends in D. apply andb_true_iff in D as [D _]. by apply negb_true_iff.
    + apply Hle. rewrite Hm. by rewrite bool_decide_eq_true_2.
  - apply IH in Hp as (Hle & Hf & Ht'); [|done|set_solver].
    split_and!; [done| |done]. intros ->. destruct (Hf eq_refl) as (? & ? & Hall).
    split_and!; [done|done|]. intros j [->|?]%elem_of_cons; auto.
Qed.

(** A settled bitmap: sound, and no test of the inner loop would mark more. *)
Definition settled (c : Condemned) : Prop :=
  marks_sound c ∧ ∀ i, (i < Table_capacity t)%nat → descends t h c i = false.

Lemma descendants_loop_settles fuel c :
  marks_sound c → (Table_capacity t - marked_count c < fuel)%nat →
  settled (descendants_loop fuel t h c).
Proof.
  revert c. induction fuel as [|fuel IH]; intros c Hc Hf; [lia|]. cbn [descendants_loop].
  destruct (descendants_pass t h c) as [d f] eqn:P.
  change (descendants_pass t h c) with (pass_from (seq 0 (Table_capacity t)) (c, false)) in P.
  pose proof (pass_from_sound (seq 0 (Table_capacity t)) c false Hc) as Hs. rewrite P in Hs.
  apply pass_from_progress in P as (_ & Hno & Hyes);
    [|done|intros i [_ ?]%list_elem_of_In%in_seq; lia].
  destruct f.
  - apply IH; [done|]. destruct (Hyes eq_refl); [done|]. pose proof (marked_count_le d). lia.
  - destruct (Hno eq_refl) as (_ & -> & Hall). split; [done|].
    intros i Hi. apply Hall, list_elem_of_In, in_seq. lia.
Qed.

(** A settled bitmap is complete: a chain of parents cannot leave it. *)
Lemma settled_complete c i : settled c → descendant t h i → Condemned_holds c i = true.
Proof.
  intros [_ Hs] Hd. induction Hd as [i s E Ho Hi Hp|j sj i s Hd IH Ej E Ho Hi Hj Hg].
  - specialize (Hs i (Table_at_Some_lt _ _ _ E)). unfold descends in Hs.
    rewrite E, Ho, Hi, Hp, (bool_decide_eq_true_2 (h = h)) in Hs by done. simpl in Hs.
    by destruct (Condemned_holds c i).
  - specialize (Hs i (Table_at_Some_lt _ _ _ E)). unfold descends, Table_marked_parent in Hs.
    rewrite E, Ho, Hi, Hj, Ej, IH, Hg, Z.eqb_refl, orb_true_r in Hs. simpl in Hs.
    by destruct (Condemned_holds c i).
Qed.

Lemma Table_descendants_settled : settled (Table_descendants t h).
Proof.
  apply descendants_loop_settles; [|lia].
  split; [apply Condemned_NONE_wf|]. intros i. by rewrite Condemned_holds_NONE.
Qed.

Lemma Table_descendants_spec i :
  Condemned_holds (Table_descendants t h) i = true ↔ descendant t h i.
Proof.
  pose proof Table_descendants_settled as Hs. split; [apply Hs|by apply settled_complete].
Qed.

Lemma Table_descendants_wf : Condemned_wf (Table_descendants t h).
Proof. apply Table_descendants_settled. Qed.
End marking.

(** ** Sweeping *)

Definition sweep_from (c : Condemned) (l : list nat) (acc : Z * Table) : Z * Table :=
  foldl (λ '(count, t) index,
           if Condemned_holds c index then (count + 1, Table_clear t index) else (count, t)) acc l.

Lemma Table_clear_posts t i : tbl_posts_notices (Table_clear t i) = tbl_posts_notices t.
Proof. apply Table_update_posts. Qed.

Lemma Table_clear_capacity t i : Table_capacity (Table_clear t i) = Table_capacity t.
Proof. apply Table_update_capacity. Qed.

Lemma Table_clear_wf t i : Table_wf t → Table_wf (Table_clear t i).
Proof. intros. apply Table_update_wf; [done|]. intros. by apply cleared_slot_wf. Qed.

Lemma Table_at_clear t i j :
  Table_shape t →
  Table_at (Table_clear t i) j =
  if decide (i = j) then (λ s, cleared_slot s (tbl_posts_notices t)) <$> Table_at t j
  else Table_at t j.
Proof. intros. by apply Table_at_update. Qed.

Lemma sweep_from_keeps c l n t :
  Table_wf t →
  Table_wf (sweep_from c l (n, t)).2 ∧
  Table_capacity (sweep_from c l (n, t)).2 = Table_capacity t ∧
  tbl_posts_notices (sweep_from c l (n, t)).2 = tbl_posts_notices t ∧
  tbl_floor (sweep_from c l (n, t)).2 = tbl_floor t ∧
  (sweep_from c l (n, t)).1 = n + Z.of_nat (length (List.filter (Condemned_holds c) l)).
Proof.
  revert n t. induction l as [|i l IH]; intros n t Ht; simpl; [split_and!; (done || lia)|].
  destruct (Condemned_holds c i).
  - destruct (IH (n + 1) (Table_clear t i)) as (? & -> & -> & -> & ->); [by apply Table_clear_wf|].
    rewrite Table_clear_capacity, Table_clear_posts. simpl length.
    split_and!; try done; [apply Table_update_floor|lia].
  - by apply IH.
Qed.

Lemma sweep_from_at c l n t j :
  Table_wf t → NoDup l →
  Table_at (sweep_from c l (n, t)).2 j =
  if decide (j ∈ l ∧ Condemned_holds c j = true)
  then (λ s, cleared_slot s (tbl_posts_notices t)) <$> Table_at t j
  else Table_at t j.
Proof.
  intros Ht Hl. revert n t Ht. induction Hl as [|i l Hi Hl IH]; intros n t Ht.
  { rewrite decide_False; [done|]. by intros [?%elem_of_nil _]. }
  simpl. destruct (Condemned_holds c i) eqn:C.
  - rewrite IH by (by apply Table_clear_wf). rewrite Table_clear_posts.
    rewrite (Table_at_clear t i j) by apply Ht.
    destruct (decide (i = j)) as [->|Hij].
    + rewrite decide_False by (by intros [? _]). rewrite decide_True by (by split; [left|]). done.
    + apply decide_ext. rewrite elem_of_cons. naive_solver.
  - rewrite IH by done. apply decide_ext. rewrite elem_of_cons. naive_solver congruence.
Qed.

Lemma seq_elem n j : j ∈ seq 0 n ↔ (j < n)%nat.
Proof. rewrite list_elem_of_In, in_seq. lia. Qed.

Lemma Table_sweep_at t c j :
  Table_wf t →
  Table_at (Table_sweep t c).2 j =
  if Condemned_holds c j then (λ s, cleared_slot s (tbl_posts_notices t)) <$> Table_at t j
  else Table_at t j.
Proof.
  intros Ht. change (Table_sweep t c) with (sweep_from c (seq 0 (Table_capacity t)) (0, t)).
  rewrite sweep_from_at by (done || apply NoDup_seq).
  destruct (decide (j < Table_capacity t)%nat) as [Hj|Hj].
  - destruct (Condemned_holds c j) eqn:C.
    + by rewrite decide_True by (by rewrite seq_elem).
    + rewrite decide_False by (by intros []). done.
  - rewrite Table_at_out_of_range by lia. rewrite decide_False; [by case_match|].
    rewrite seq_elem. tauto.
Qed.

Lemma Table_sweep_keeps t c :
  Table_wf t →
  Table_wf (Table_sweep t c).2 ∧ Table_capacity (Table_sweep t c).2 = Table_capacity t ∧
  tbl_posts_notices (Table_sweep t c).2 = tbl_posts_notices t ∧
  tbl_floor (Table_sweep t c).2 = tbl_floor t ∧
  (Table_sweep t c).1 =
    Z.of_nat (length (List.filter (Condemned_holds c) (seq 0 (Table_capacity t)))).
Proof.
  intros Ht. pose proof (sweep_from_keeps c (seq 0 (Table_capacity t)) 0 t Ht) as H.
  by rewrite Z.add_0_l in H.
Qed.

(** A handle on an occupied slot that was swept is refused as revoked. *)
Lemma swept_revoked t c h i s :
  Table_wf t → Table_at t i = Some s → names h i s → Condemned_holds c i = true →
  Table_resolve (Table_sweep t c).2 h = Err revoked.
Proof.
  intros Ht E (-> & Hg & Hi & Ho) C.
  apply Table_resolve_stale with (s := cleared_slot s (tbl_posts_notices t)); [|done|].
  - by rewrite Table_sweep_at, C, E by done.
  - rewrite Hg. apply cleared_slot_generation_gt; [by eapply twf_slots|done].
Qed.

(** One that was not swept answers as it did. *)
Lemma unswept_inspect t c h :
  Table_wf t → Condemned_holds c (Z.to_nat (Handle_index h)) = false →
  Table_inspect (Table_sweep t c).2 h = Table_inspect t h.
Proof.
  intros Ht C. pose proof (Table_sweep_keeps t c Ht) as (_ & Hc & _).
  assert (He : Table_at (Table_sweep t c).2 (Z.to_nat (Handle_index h)) =
               Table_at t (Z.to_nat (Handle_index h))) by (by rewrite Table_sweep_at, C).
  assert (Hr : Table_resolve (Table_sweep t c).2 h = Table_resolve t h).
  { unfold Table_resolve, Table_resolve_at, Table_slot. by rewrite Hc, He. }
  unfold Table_inspect. rewrite Hr. destruct (Table_resolve t h) as [i|] eqn:R; [|done]. rsimpl.
  apply Table_resolve_Ok in R as (s & E & -> & _). unfold Table_slot. by rewrite He.
Qed.

Lemma Table_invoke_any_Ok t h asked f :
  Table_invoke_any t h asked = Ok f ↔
  Table_inspect t h = Ok f ∧ rights_holds (found_rights f) asked = true.
Proof.
  unfold Table_invoke_any. destruct (Table_inspect t h) as [f'|]; rsimpl; [|split; [done|by intros []]].
  destruct (rights_holds (found_rights f') asked) eqn:R; rsimpl; split; naive_solver congruence.
Qed.

Lemma Table_condemn_Ok t h c :
  Table_condemn t h = Ok c ↔
  (∃ f, Table_invoke_any t h rights_REVOKE = Ok f) ∧ c = Table_descendants t h.
Proof.
  unfold Table_condemn. destruct (Table_invoke_any t h rights_REVOKE); rsimpl; naive_solver.
Qed.
