(* ===== verification/CapTrace.v ===== *)
(** * Runs of the capability table

    The operations of [CapTable] as steps, and what holds of every table a run
    of them can reach.  Each operation is first shown to be a sequence of five
    abstract moves on slots ([move]): keep, place, clear, grow, forget.  The
    invariants are then proved of the moves, once. *)

From S2P Require Import Prelude Abi Control CapTable CapTableFacts CapRevoke.
Import error cap.

(** ** The abstract transition system *)

(** What of a slot the derivation tree is made of. *)
Definition slot_core (s : Slot) : bool * Z * Z * Z :=
  (Slot_occupied s, slot_generation s, slot_parent s, slot_rights s).

Definition parent_of (s : Slot) : Handle := Handle_from_bits (slot_parent s).

Definition keeps_core (t t' : Table) : Prop :=
  (∀ i, slot_core <$> Table_at t' i = slot_core <$> Table_at t i) ∧ tbl_floor t' = tbl_floor t.

Inductive move (t t' : Table) : option Handle → Prop :=
| move_keep : keeps_core t t' → move t t' None
| move_place i s s' :
    Table_at t i = Some s → Slot_occupied s = false → slot_generation s < RETIRED_GENERATION →
    Slot_occupied s' = true → slot_generation s' = slot_generation s →
    (Handle_is_issuable (parent_of s') = true →
     ∃ j sj, Table_at t j = Some sj ∧ names (parent_of s') j sj ∧
             rights_narrows (slot_rights sj) (slot_rights s') = true) →
    (∀ j, Table_at t' j = if decide (i = j) then Some s' else Table_at t j) →
    tbl_floor t' = tbl_floor t →
    move t t' (Some (handle_of i s))
| move_clear i owes :
    (∀ j, Table_at t' j =
          if decide (i = j) then (λ s, cleared_slot s owes) <$> Table_at t j else Table_at t j) →
    tbl_floor t' = tbl_floor t →
    move t t' None
| move_grow :
    (∀ j s, Table_at t j = Some s → Table_at t' j = Some s) →
    (∀ j s, Table_at t' j = Some s → Table_at t j = Some s ∨
                                     Table_at t j = None ∧ s = Slot_fresh (tbl_floor t)) →
    tbl_floor t' = tbl_floor t →
    move t t' None
| move_forget :
    (∀ j s, Table_at t j = Some s → Slot_occupied s = false) →
    (∀ j s', Table_at t' j = Some s' → ∃ s, Table_at t j = Some s ∧ slot_core s' = slot_core s) →
    (∀ j s, Table_at t j = Some s → Table_at t' j = None → slot_generation s ≤ tbl_floor t') →
    tbl_floor t ≤ tbl_floor t' →
    move t t' None.

(** A sequence of moves between well-formed tables, and the handles it issued,
    the latest first. *)
Inductive moves : Table → Table → list Handle → Prop :=
| moves_nil t : moves t t []
| moves_snoc t t1 t2 hs o :
    moves t t1 hs → Table_wf t1 → Table_wf t2 → move t1 t2 o → moves t t2 (option_list o ++ hs).

Lemma moves_one t t' o : Table_wf t → Table_wf t' → move t t' o → moves t t' (option_list o).
Proof. intros. rewrite <- (app_nil_r (option_list o)). by eapply moves_snoc; [apply moves_nil| | |]. Qed.

Lemma moves_app t t1 t2 hs1 hs2 :
  moves t t1 hs1 → moves t1 t2 hs2 → moves t t2 (hs2 ++ hs1).
Proof.
  intros H1 H2. induction H2 as [|t1 t2 t3 hs o H2 IH Hw2 Hw3 Hm]; [done|].
  rewrite <- (assoc_L (++)). eapply moves_snoc; eauto.
Qed.

Lemma keeps_core_refl t : keeps_core t t.
Proof. by split. Qed.

Lemma keeps_core_set t i s s' :
  Table_shape t → Table_at t i = Some s → slot_core s' = slot_core s →
  keeps_core t (Table_set t i s').
Proof.
  intros Ht E Hc. split; [|apply Table_set_floor]. intros j.
  rewrite Table_at_set by eauto using Table_at_Some_lt.
  destruct (decide (i = j)) as [<-|]; [|done]. rewrite E; simpl. by f_equal.
Qed.

(** ** Which moves an operation makes *)
Section operations.
Context (t : Table).
Hypothesis Ht : Table_wf t.

Lemma Slot_set_notice_core s q : Slot_wf s → slot_core (Slot_set_notice s q) = slot_core s.
Proof. intros Hs. unfold slot_core. by rewrite Slot_set_notice_occupied. Qed.

Lemma carve_slot_core s : slot_core (carve_slot s) = slot_core s.
Proof. unfold carve_slot. case_match; [|done]. by case_match. Qed.

Lemma set_keep_moves i s s' :
  Table_at t i = Some s → Slot_wf s' → slot_core s' = slot_core s →
  moves t (Table_set t i s') [].
Proof.
  intros E Hw Hc. apply (moves_one _ _ None); [done| |].
  - apply Table_set_wf; [done|by eapply Table_at_Some_lt|done].
  - apply move_keep. eapply keeps_core_set; [apply Ht|done|done].
Qed.

Lemma clear_moves i : moves t (Table_clear t i) [].
Proof.
  apply (moves_one _ _ None); [done|by apply Table_clear_wf|].
  apply move_clear with i (tbl_posts_notices t); [|apply Table_update_floor].
  intros j. by rewrite Table_at_clear by apply Ht.
Qed.

Lemma place_moves kind rights object extent parent :
  is_uint 8 rights → is_uint 64 object → is_uint 64 extent → is_uint 32 (Handle_bits parent) →
  (Handle_is_issuable parent = true →
   ∃ j sj, Table_at t j = Some sj ∧ names parent j sj ∧
           rights_narrows (slot_rights sj) rights = true) →
  match Table_place kind rights object extent parent t with
  | (Ok h, t') => moves t t' [h]
  | (Err _, t') => t' = t
  end.
Proof.
  intros Hr Ho He Hp Hn.
  pose proof (Table_place_spec kind rights object extent parent t Ht) as Hs.
  pose proof (Table_place_wf kind rights object extent parent t Ht Hr Ho He Hp) as Hw.
  destruct (Table_place _ _ _ _ _ t) as [[h|e] t']; [|tauto]. simpl in Hw.
  destruct Hs as (i & s & E & Hoc & _ & Hg & -> & Et).
  destruct (placed_slot_fields s kind rights object extent parent (tbl_posts_notices t))
    as (Fg & Fr & _ & _ & Fp & _).
  apply (moves_one _ _ (Some (handle_of i s))); [done..|].
  apply move_place with (s' := placed_slot s kind rights object extent parent (tbl_posts_notices t));
    try done.
  - apply placed_slot_occupied, (twf_slots _ Ht _ _ E).
  - unfold parent_of. rewrite Fp, Fr. by destruct parent.
  - intros j. rewrite Et. apply Table_at_set; [apply Ht|by eapply Table_at_Some_lt].
  - rewrite Et. apply Table_set_floor.
Qed.

Lemma grow_moves reach : reach_fresh reach t → moves t (Table_grow reach t).2 [].
Proof.
  intros Hf. pose proof (Table_grow_spec reach t Ht) as Hg.
  pose proof (Table_grow_wf reach t Ht Hf) as Hw.
  destruct (Table_grow reach t) as [[[]|e] t']; simpl in *; [|destruct Hg as [_ ->]; constructor].
  destruct Hg as (a & p & base & Hr & _ & E & Hb & ->).
  assert (Hfr : base ∉ take (tbl_grown t) (tbl_pages t)) by by eapply Hf.
  assert (Hw1 : Table_wf (Table_add_page t base)) by by apply Table_add_page_wf.
  eapply (moves_snoc _ _ _ [] None); [|exact Hw1|exact Hw|].
  - apply (moves_one _ _ None); [done..|]. apply move_grow; [| |done].
    + intros j s Ej. rewrite Table_at_add_page_old; [done|apply Ht|done|done|].
      by eapply Table_at_Some_lt.
    + intros j s. apply Table_at_add_page_inv; [apply Ht|done|done].
  - apply move_keep. split; [|apply Table_update_floor]. intros j.
    rewrite Table_at_update by apply Hw1. destruct (decide (a = j)) as [->|]; [|done].
    destruct (Table_at (Table_add_page t base) j); simpl; [|done]. by rewrite carve_slot_core.
Qed.
End operations.

(** *** Retyping and deriving *)
Lemma Table_retype_spec t h :
  Table_wf t →
  match Table_retype h t with
  | (Ok (kind, object, extent), t') =>
      ∃ i s k, Table_at t i = Some s ∧ names h i s ∧ Slot_cap_kind s = Some k ∧
        object = slot_object s ∧
        if decide (k = Untyped)
        then kind = Frame ∧ extent = FRAME_SIZE ∧ FRAME_SIZE ≤ slot_extent s ∧
             object + FRAME_SIZE ≤ u64_max ∧
             t' = Table_set t i (Slot_set_watermark s (object + FRAME_SIZE) (slot_extent s - FRAME_SIZE))
        else kind = k ∧ extent = slot_extent s ∧ t' = t
  | (Err e, t') =>
      t' = t ∧ (Table_resolve t h = Err e ∨
                e = exhausted ∧ ∃ i s, Table_at t i = Some s ∧ names h i s ∧
                  Slot_cap_kind s = Some Untyped ∧
                  watermark_carvable (slot_object s) (slot_extent s) FRAME_SIZE = false)
  end.
Proof.
  intros Ht. unfold Table_retype. destruct (Table_resolve t h) as [i|e] eqn:R; [|by split; [|left]].
  apply Table_resolve_Ok in R as (s & E & Hn). rewrite E.
  destruct (Slot_wf_occupied_kind s) as [k K]; [by apply (twf_slots _ Ht _ _ E)|apply Hn|]. rewrite K.
  destruct (decide (k = Untyped)) as [->|Hk].
  - rewrite bool_decide_eq_true_2 by done; rsimpl.
    destruct (watermark_carved _ _ _) as [[next rest]|] eqn:W.
    + apply watermark_carved_Some in W as (-> & -> & ? & ?). exists i, s, Untyped. 
      rewrite decide_True by done. by split_and!.
    + split; [done|]. right. split; [done|]. exists i, s. split_and!; try done.
      destruct (watermark_carvable _ _ _) eqn:C; [|done].
      apply watermark_carvable_carved in C. congruence.
  - rewrite bool_decide_eq_false_2 by done; rsimpl. exists i, s, k.
    rewrite decide_False by done. by split_and!.
Qed.

Lemma retype_moves t h : Table_wf t → moves t (Table_retype h t).2 [].
Proof.
  intros Ht. pose proof (Table_retype_spec t h Ht) as Hs.
  destruct (Table_retype h t) as [[[[kind object] extent]|e] t']; simpl; [|by destruct Hs as [-> _]; constructor].
  destruct Hs as (i & s & k & E & Hn & K & Ho & Hs). pose proof (twf_slots _ Ht _ _ E) as Hw.
  destruct (decide (k = Untyped)); [|by destruct Hs as (_ & _ & ->); constructor].
  destruct Hs as (_ & _ & ? & ? & ->). subst object.
  apply (set_keep_moves t Ht i s); [done| |done].
  destruct (swf_object _ Hw), (swf_extent _ Hw). unfold FRAME_SIZE, u64_max in *.
  apply Slot_wf_watermark; [done|unfold is_uint; lia|unfold is_uint; lia].
Qed.

(** What a keeping or growing run leaves a handle naming. *)
Definition keeps_named (t t' : Table) : Prop :=
  ∀ i s, Table_at t i = Some s → ∃ s', Table_at t' i = Some s' ∧ slot_core s' = slot_core s.

Lemma keeps_named_refl t : keeps_named t t.
Proof. intros i s E. eauto. Qed.

Lemma keeps_named_trans t1 t2 t3 : keeps_named t1 t2 → keeps_named t2 t3 → keeps_named t1 t3.
Proof. intros H1 H2 i s (s' & E' & C')%H1. destruct (H2 _ _ E') as (s'' & ? & ?). by exists s''; split; [|congruence]. Qed.

Lemma keeps_core_named t t' : keeps_core t t' → keeps_named t t'.
Proof.
  intros [H _] i s E. specialize (H i). rewrite E in H. simpl in H.
  destruct (Table_at t' i) as [s'|]; [|done]. exists s'. split; [done|]. by apply (inj Some).
Qed.

Lemma grow_keeps_named reach t :
  Table_wf t → reach_fresh reach t → keeps_named t (Table_grow reach t).2.
Proof.
  intros Ht Hf. pose proof (Table_grow_spec reach t Ht) as Hg.
  destruct (Table_grow reach t) as [[[]|e] t']; simpl in *; [|destruct Hg as [_ ->]; apply keeps_named_refl].
  destruct Hg as (a & p & base & Hr & _ & E & Hb & ->). intros i s Ei.
  assert (Hfr : base ∉ take (tbl_grown t) (tbl_pages t)) by by eapply Hf.
  assert (Hsh : Table_shape (Table_add_page t base)) by (apply Table_add_page_shape; [apply Ht|done|done]).
  rewrite Table_at_update by done.
  rewrite Table_at_add_page_old by (apply Ht || done || by eapply Table_at_Some_lt).
  rewrite Ei. destruct (decide (a = i)); simpl; eauto using carve_slot_core.
Qed.

Lemma retype_keeps_named t h : Table_wf t → keeps_named t (Table_retype h t).2.
Proof.
  intros Ht. pose proof (Table_retype_spec t h Ht) as Hs.
  destruct (Table_retype h t) as [[[[kind object] extent]|e] t']; simpl; [|destruct Hs as [-> _]; apply keeps_named_refl].
  destruct Hs as (i & s & k & E & Hn & K & Ho & Hs).
  destruct (decide (k = Untyped)); [|destruct Hs as (_ & _ & ->); apply keeps_named_refl].
  destruct Hs as (_ & _ & _ & _ & ->). eapply keeps_core_named, keeps_core_set; [apply Ht|done|done].
Qed.

Lemma slot_core_names h i s s' : slot_core s' = slot_core s → names h i s → names h i s'.
Proof. unfold names. intros [= H1 H2 _ _] (? & ? & ? & ?). split_and!; congruence. Qed.

(** What [derive] does between its checks and its placing: the table may grow
    and the parent may be carved from, and that is all. *)
Definition derive_prepare (reach : Z → option Z) (h : Handle) : sm Table Z (CapType * Z * Z) :=
  do! _ <- (λ t0, match Table_vacancy t0 with
                  | None => Table_grow reach t0
                  | Some _ => (Ok tt, t0)
                  end);
  Table_retype h.

Lemma Table_derive_unfold reach h asked t :
  Table_derive reach h asked t =
  if rights_unknown asked then (Err unknown_flag, t)
  else match Table_invoke_any t h rights_DERIVE with
       | Err e => (Err e, t)
       | Ok parent =>
           if negb (rights_narrows (found_rights parent) asked) then (Err right_not_held, t)
           else (do! (kind, object, extent) <- derive_prepare reach h;
                 Table_place kind asked object extent h) t
       end.
Proof.
  unfold Table_derive, derive_prepare. do 3 (case_match; try done). unfold sm_bind.
  destruct (Table_vacancy t); [done|]. by destruct (Table_grow reach t) as [[[]|e] t'].
Qed.

Lemma derive_prepare_moves reach h t :
  Table_wf t → reach_fresh reach t →
  moves t (derive_prepare reach h t).2 [] ∧ keeps_named t (derive_prepare reach h t).2 ∧
  Table_wf (derive_prepare reach h t).2.
Proof.
  intros Ht Hf. unfold derive_prepare, sm_bind.
  assert (Hmw : ∀ t1 t2 hs, moves t1 t2 hs → Table_wf t1 → Table_wf t2) by (by intros ??? []).
  set (m := match Table_vacancy t with None => _ | Some _ => _ end).
  assert (H : moves t m.2 [] ∧ keeps_named t m.2 ∧ Table_wf m.2).
  { unfold m. destruct (Table_vacancy t); simpl.
    - split_and!; [constructor|apply keeps_named_refl|done].
    - split_and!; [by apply grow_moves|by apply grow_keeps_named|by apply Table_grow_wf]. }
  destruct m as [[[]|e] t1]; simpl in H; [|exact H]. destruct H as (Hm & Hk & Hw).
  pose proof (retype_moves t1 h Hw) as Hm1. pose proof (retype_keeps_named t1 h Hw).
  split_and!; [by eapply (moves_app _ _ _ [] [])|by eapply keeps_named_trans|by eauto].
Qed.

Lemma derive_prepare_range reach h t kind object extent t' :
  Table_wf t → reach_fresh reach t →
  derive_prepare reach h t = (Ok (kind, object, extent), t') → is_uint 64 object ∧ is_uint 64 extent.
Proof.
  intros Ht Hf. unfold derive_prepare, sm_bind.
  set (m := match Table_vacancy t with None => _ | Some _ => _ end).
  assert (Hw : Table_wf m.2).
  { unfold m. destruct (Table_vacancy t); simpl; [done|by apply Table_grow_wf]. }
  destruct m as [[[]|e] t1]; simpl in Hw; [|done]. intros Er.
  pose proof (Table_retype_spec t1 h Hw) as Hs. rewrite Er in Hs.
  destruct Hs as (i & s & k & E & Hn & K & -> & Hs).
  pose proof (twf_slots _ Hw _ _ E) as Hsw. split; [apply Hsw|].
  destruct (decide (k = Untyped)); [by destruct Hs as (_ & -> & _)|].
  destruct Hs as (_ & -> & _). apply Hsw.
Qed.

Lemma derive_moves reach h asked t :
  Table_wf t → reach_fresh reach t → is_uint 32 (Handle_bits h) → is_uint 8 asked →
  match Table_derive reach h asked t with
  | (Ok g, t') => moves t t' [g]
  | (Err _, t') => moves t t' []
  end.
Proof.
  intros Ht Hf Hh Ha. rewrite Table_derive_unfold.
  destruct (rights_unknown asked); [constructor|].
  destruct (Table_invoke_any t h rights_DERIVE) as [f|e] eqn:I; [|constructor].
  apply Table_invoke_any_Ok in I as [I _].
  apply Table_inspect_Ok in I as (i & s & k & E & Hn & K & ->). rsimpl.
  destruct (rights_narrows _ asked) eqn:N; rsimpl; [|constructor].
  destruct (derive_prepare_moves reach h t Ht Hf) as (Hm & Hk & Hw).
  pose proof (derive_prepare_range reach h t) as Hr. unfold sm_bind.
  destruct (derive_prepare reach h t) as [[[[kind object] extent]|e] t1]; [|done].
  destruct (Hr _ _ _ _ Ht Hf eq_refl) as [Ho He]. simpl in Hm, Hk, Hw.
  destruct (Hk _ _ E) as (s' & E' & C').
  pose proof (place_moves t1 Hw kind asked object extent h Ha Ho He Hh) as Hp.
  ospecialize (Hp _); [intros _; exists i, s'|].
  { split_and!; [done|by eapply slot_core_names|]. injection C' as _ _ _ ->. done. }
  destruct (Table_place _ _ _ _ _ t1) as [[g|e] t2].
  - by apply (moves_app _ _ _ _ [g] Hm).
  - by subst.
Qed.

(** *** Revoking *)
Lemma sweep_from_moves c l n t : Table_wf t → moves t (sweep_from c l (n, t)).2 [].
Proof.
  revert n t. induction l as [|i l IH]; intros n t Ht; simpl; [constructor|].
  destruct (Condemned_holds c i); [|by apply IH].
  apply (moves_app _ (Table_clear t i) _ [] []); [by apply clear_moves|by apply IH, Table_clear_wf].
Qed.

Lemma sweep_moves t c : Table_wf t → moves t (Table_sweep t c).2 [].
Proof. apply sweep_from_moves. Qed.

Lemma relinquish_moves t h : Table_wf t → moves t (Table_relinquish h t).2 [].
Proof.
  intros Ht. unfold Table_relinquish. destruct (Table_condemn t h) as [c|]; [|constructor].
  destruct (Table_resolve t h) as [i|]; [|constructor].
  pose proof (sweep_moves t (Condemned_mark c i) Ht) as Hm.
  by destruct (Table_sweep t (Condemned_mark c i)).
Qed.

(** *** What only rewrites words of a slot, or of the table *)
Lemma refund_moves t h bytes floor :
  Table_wf t → 0 ≤ bytes → 0 ≤ floor → moves t (Table_refund h bytes floor t).2 [].
Proof.
  intros Ht Hb Hf. unfold Table_refund. destruct (Table_resolve t h) as [i|]; [|constructor].
  destruct (Table_at t i) as [s|] eqn:E; [|constructor]. case_match; [constructor|].
  destruct (watermark_refunded _ _ _ _) as [[o e]|] eqn:W; [|constructor].
  pose proof (twf_slots _ Ht _ _ E) as Hs.
  apply watermark_refunded_range in W as (? & ? & _); [|apply Hs|apply Hs|done|done].
  apply (set_keep_moves t Ht i s); [done|by apply Slot_wf_watermark|done].
Qed.

Lemma note_mapping_moves t h virt : Table_wf t → moves t (Table_note_mapping h virt t).2 [].
Proof.
  intros Ht. unfold Table_note_mapping. destruct (Table_resolve t h) as [i|]; [|constructor].
  destruct (Table_at t i) as [s|] eqn:E; [|constructor]. case_match; [constructor|].
  apply (set_keep_moves t Ht i s); [done|by eapply Slot_wf_mapped, (twf_slots _ Ht)|done].
Qed.

Lemma set_notice_moves t i s q :
  Table_wf t → Table_at t i = Some s → moves t (Table_set t i (Slot_set_notice s q)) [].
Proof.
  intros Ht E. pose proof (twf_slots _ Ht _ _ E).
  apply (set_keep_moves t Ht i s); [done|by apply Slot_wf_set_notice|by apply Slot_set_notice_core].
Qed.

Lemma note_peer_gone_moves t h : Table_wf t → moves t (Table_note_peer_gone h t).2 [].
Proof.
  intros Ht. unfold Table_note_peer_gone. destruct (Table_resolve t h) as [i|]; [|constructor].
  destruct (Table_at t i) as [s|] eqn:E; [|constructor].
  destruct (tbl_posts_notices t); [by apply set_notice_moves|constructor].
Qed.

Lemma next_slot_notice_moves t l ts :
  Table_wf t → moves t (next_slot_notice_in l t ts).2 [].
Proof.
  intros Ht. induction l as [|i l IH]; simpl; [constructor|].
  destruct (Table_at t i) as [s|] eqn:E; [|constructor].
  destruct (Pending_drain (Slot_notice s)) as [[k|] q]; [by apply set_notice_moves|done].
Qed.

(** Two tables with the same slots behind them. *)
Definition same_slots (t t' : Table) : Prop :=
  tbl_slots t' = tbl_slots t ∧ tbl_pages t' = tbl_pages t ∧ tbl_grown t' = tbl_grown t ∧
  tbl_floor t' = tbl_floor t ∧ tbl_mem t' = tbl_mem t.

Lemma same_slots_at t t' i : same_slots t t' → Table_at t' i = Table_at t i.
Proof. intros (H1 & H2 & H3 & H4 & H5). unfold Table_at. by rewrite H1, H2, H3, H5. Qed.

Lemma same_slots_wf t t' : same_slots t t' → Table_wf t → Table_wf t'.
Proof.
  intros Hs [[] Hw Hf]. pose proof (same_slots_at t t') as Ha.
  destruct Hs as (H1 & H2 & H3 & H4 & H5). split; [split| |]; rewrite ?H1, ?H2, ?H3, ?H4, ?H5; try done.
  intros i s. rewrite Ha by done. apply Hw.
Qed.

Lemma same_slots_moves t t' : Table_wf t → same_slots t t' → moves t t' [].
Proof.
  intros Ht Hs. apply (moves_one _ _ None); [done|by eapply same_slots_wf|].
  apply move_keep. split; [|apply Hs]. intros i. by rewrite (same_slots_at t).
Qed.

(** *** Forgetting everything *)
Lemma clear_occupied_wf t i : Table_wf t → Table_wf (clear_occupied t i).
Proof. intros. unfold clear_occupied. repeat case_match; [by apply Table_clear_wf|done..]. Qed.

Lemma clear_occupied_capacity t i : Table_capacity (clear_occupied t i) = Table_capacity t.
Proof. unfold clear_occupied. repeat case_match; [apply Table_clear_capacity|done..]. Qed.

Lemma clear_occupied_at t i j :
  Table_wf t →
  match Table_at (clear_occupied t i) j with
  | Some s => (i = j → Slot_occupied s = false) ∧
              ∃ s0, Table_at t j = Some s0 ∧ (Slot_occupied s0 = false → Slot_occupied s = false)
  | None => Table_at t j = None
  end.
Proof.
  intros Ht. unfold clear_occupied. destruct (Table_at t i) as [si|] eqn:Ei.
  - destruct (Slot_occupied si) eqn:Oi.
    + rewrite Table_at_clear by apply Ht. destruct (decide (i = j)) as [<-|].
      * rewrite Ei; simpl. pose proof (cleared_slot_free si (tbl_posts_notices t) (twf_slots _ Ht _ _ Ei)).
        split; [done|]. by exists si.
      * destruct (Table_at t j); [|done]. split; [done|eauto].
    + destruct (Table_at t j) eqn:Ej; [|done]. split; [intros ->; congruence|eauto].
  - destruct (Table_at t j) eqn:Ej; [|done]. split; [intros ->; congruence|eauto].
Qed.

Lemma clear_occupied_each t l :
  Table_wf t →
  let t' := foldl clear_occupied t l in
  moves t t' [] ∧ Table_wf t' ∧ Table_capacity t' = Table_capacity t ∧ tbl_floor t' = tbl_floor t ∧
  ∀ j s, Table_at t' j = Some s →
    (j ∈ l → Slot_occupied s = false) ∧
    ∃ s0, Table_at t j = Some s0 ∧ (Slot_occupied s0 = false → Slot_occupied s = false).
Proof.
  revert t. induction l as [|i l IH]; intros t Ht; simpl.
  { split_and!; try done; [constructor|]. intros j s E. split; [by intros ?%elem_of_nil|eauto]. }
  pose proof (clear_occupied_wf t i Ht) as Hw1.
  destruct (IH _ Hw1) as (Hm & Hw & Hc & Hf & Ha). split_and!.
  - apply (moves_app _ (clear_occupied t i) _ [] []); [|done]. unfold clear_occupied.
    repeat case_match; [by apply clear_moves|constructor..].
  - done.
  - by rewrite Hc, clear_occupied_capacity.
  - rewrite Hf. unfold clear_occupied. repeat case_match; [apply Table_update_floor|done..].
  - intros j s E. destruct (Ha j s E) as (Hl & s1 & E1 & Ho1).
    pose proof (clear_occupied_at t i j Ht) as Hi. rewrite E1 in Hi.
    destruct Hi as (Hij & s0 & E0 & Ho0). split; [|eauto].
    intros [->|?]%elem_of_cons; auto.
Qed.

Lemma clear_all_cleared t :
  Table_wf t →
  let t1 := foldl clear_occupied t (seq 0 (Table_capacity t)) in
  moves t t1 [] ∧ Table_wf t1 ∧ Table_capacity t1 = Table_capacity t ∧ tbl_floor t1 = tbl_floor t ∧
  ∀ j s, Table_at t1 j = Some s → Slot_occupied s = false.
Proof.
  intros Ht. destruct (clear_occupied_each t (seq 0 (Table_capacity t)) Ht) as (? & ? & Hc & ? & Ha).
  split_and!; try done. intros j s E. apply (Ha j s E). apply seq_elem. rewrite <- Hc.
  by eapply Table_at_Some_lt.
Qed.

Lemma foldl_max_ge {A} (f : Z → A → Z) l x :
  (∀ z a, z ≤ f z a) → x ≤ foldl f x l.
Proof.
  intros Hf. revert x. induction l as [|a l IH]; intros x; simpl; [lia|].
  etransitivity; [apply (Hf x a)|apply IH].
Qed.

Lemma raised_floor_spec t :
  Table_wf t →
  tbl_floor t ≤ raised_floor t ≤ RETIRED_GENERATION ∧
  ∀ i s, (TABLE_SLOTS ≤ i)%nat → Table_at t i = Some s → slot_generation s ≤ raised_floor t.
Proof.
  intros Ht. unfold raised_floor.
  set (f := λ floor index, _). set (l := seq TABLE_SLOTS (Table_capacity t - TABLE_SLOTS)).
  assert (Hge : ∀ z a, z ≤ f z a) by (intros; unfold f; lia).
  assert (Hle : ∀ l x, x ≤ RETIRED_GENERATION → foldl f x l ≤ RETIRED_GENERATION).
  { clear l. induction l as [|i l IH]; intros x Hx; simpl; [done|]. apply IH. unfold f.
    destruct (Table_at t i) eqn:E; [|lia].
    destruct (swf_generation _ (twf_slots _ Ht _ _ E)). lia. }
  split; [split; [by apply foldl_max_ge|apply Hle, Ht]|].
  intros i s Hi E. pose proof (Table_at_Some_lt _ _ _ E).
  assert (Hl : i ∈ l) by (apply list_elem_of_In, in_seq; lia).
  apply list_elem_of_In, in_split in Hl as (l1 & l2 & ->).
  rewrite foldl_app; simpl. etransitivity; [|by apply foldl_max_ge].
  unfold f. rewrite E. lia.
Qed.

Lemma clear_all_at t i :
  Table_at (Table_clear_all t) i =
  if (i <? TABLE_SLOTS)%nat
  then (λ s, Slot_set_notice s Quiet) <$> Table_at (foldl clear_occupied t (seq 0 (Table_capacity t))) i
  else None.
Proof.
  unfold Table_clear_all. set (t1 := foldl _ _ _). unfold Table_at. tbl_cbn.
  destruct (i <? TABLE_SLOTS)%nat; [|done]. apply list_lookup_fmap.
Qed.

Lemma clear_all_wf t : Table_wf t → Table_wf (Table_clear_all t).
Proof.
  intros Ht. destruct (clear_all_cleared t Ht) as (_ & Hw & _ & Hf & _).
  pose proof (raised_floor_spec _ Hw) as [Hr _].
  split.
  - destruct (twf_shape _ Hw). unfold Table_clear_all. split; tbl_cbn.
    + by rewrite length_fmap.
    + by rewrite length_replicate.
    + lia.
    + lia.
    + apply NoDup_nil_2.
  - intros i s. rewrite clear_all_at. destruct (i <? TABLE_SLOTS)%nat; [|done].
    destruct (Table_at _ i) eqn:E; [|done]. intros [= <-].
    apply Slot_wf_set_notice, (twf_slots _ Hw _ _ E).
  - unfold Table_clear_all; tbl_cbn. destruct (twf_floor _ Hw). lia.
Qed.

Lemma clear_all_moves t : Table_wf t → moves t (Table_clear_all t) [].
Proof.
  intros Ht. destruct (clear_all_cleared t Ht) as (Hm & Hw & Hc & Hf & Hfree).
  pose proof (raised_floor_spec _ Hw) as [Hr Hge].
  eapply (moves_snoc _ _ _ [] None); [done|done|by apply clear_all_wf|].
  apply move_forget; [done| | |].
  - intros i s'. rewrite clear_all_at. destruct (i <? TABLE_SLOTS)%nat; [|done].
    destruct (Table_at _ i) as [s|] eqn:E; [|done]. intros [= <-]. exists s.
    split; [done|]. apply Slot_set_notice_core, (twf_slots _ Hw _ _ E).
  - intros i s E. rewrite clear_all_at. destruct (Nat.ltb_spec i TABLE_SLOTS) as [|Hi].
    + by rewrite E.
    + intros _. by apply (Hge i s).
  - apply Hr.
Qed.

(** ** Operations as steps *)
Inductive TableOp : Type :=
| OpGrant (kind : CapType) (rights object extent : Z)
| OpDerive (h : Handle) (asked : Z)
| OpGrow
| OpRevoke (h : Handle)
| OpRelinquish (h : Handle)
| OpRefund (h : Handle) (bytes floor : Z)
| OpNoteMapping (h : Handle) (virt : Z)
| OpNotePeerGone (h : Handle)
| OpOwesNotices
| OpStopBy (deadline : Z)
| OpPressureIs (grade : Z)
| OpGenerationIs (generation : Z)
| OpNextSlotNotice (timestamp : Z)
| OpNextStopNotice (ring : Handle) (timestamp : Z)
| OpNextGradeNotice (timestamp : Z)
| OpClearAll.

(** The arguments are values of their Rust types. *)
Definition op_typed (op : TableOp) : Prop :=
  match op with
  | OpGrant _ rights object extent => is_uint 8 rights ∧ is_uint 64 object ∧ is_uint 64 extent
  | OpDerive h asked => is_uint 32 (Handle_bits h) ∧ is_uint 8 asked
  | OpRefund _ bytes floor => is_uint 64 bytes ∧ is_uint 64 floor
  | _ => True
  end.

(** The handles an operation issues, and the table it leaves.  Revocation is
    [condemn] followed by [sweep], the two halves [process.rs] calls in turn. *)
Definition Table_exec (reach : Z → option Z) (op : TableOp) (t : Table) : list Handle * Table :=
  match op with
  | OpGrant kind rights object extent =>
      match Table_grant kind rights object extent t with
      | (Ok h, t') => ([h], t')
      | (Err _, t') => ([], t')
      end
  | OpDerive h asked =>
      match Table_derive reach h asked t with
      | (Ok g, t') => ([g], t')
      | (Err _, t') => ([], t')
      end
  | OpGrow => ([], (Table_grow reach t).2)
  | OpRevoke h =>
      match Table_condemn t h with
      | Ok c => ([], (Table_sweep t c).2)
      | Err _ => ([], t)
      end
  | OpRelinquish h => ([], (Table_relinquish h t).2)
  | OpRefund h bytes floor => ([], (Table_refund h bytes floor t).2)
  | OpNoteMapping h virt => ([], (Table_note_mapping h virt t).2)
  | OpNotePeerGone h => ([], (Table_note_peer_gone h t).2)
  | OpOwesNotices => ([], Table_owes_notices t)
  | OpStopBy deadline => ([], (Table_stop_by t deadline).2)
  | OpPressureIs grade => ([], (Table_pressure_is t grade).2)
  | OpGenerationIs generation => ([], (Table_generation_is t generation).2)
  | OpNextSlotNotice ts => ([], (Table_next_slot_notice t ts).2)
  | OpNextStopNotice ring ts => ([], (Table_next_stop_notice t ring ts).2)
  | OpNextGradeNotice ts => ([], (Table_next_grade_notice t ts).2)
  | OpClearAll => ([], Table_clear_all t)
  end.

(** A step: an operation on well-typed arguments, with a backing that keeps its
    contract at that moment. *)
Inductive table_step (t : Table) : list Handle → Table → Prop :=
| step_exec reach op :
    op_typed op → reach_fresh reach t →
    table_step t (Table_exec reach op t).1 (Table_exec reach op t).2.

Inductive table_steps : Table → list Handle → Table → Prop :=
| steps_nil t : table_steps t [] t
| steps_snoc t t1 t2 hs new :
    table_steps t hs t1 → table_step t1 new t2 → table_steps t (new ++ hs) t2.

Lemma with_words_same_slots t stop pressure generation :
  same_slots t (Table_with_words t stop pressure generation).
Proof. by split_and!. Qed.

Lemma exec_moves reach op t :
  Table_wf t → op_typed op → reach_fresh reach t →
  moves t (Table_exec reach op t).2 (Table_exec reach op t).1.
Proof.
  intros Ht Hop Hf. pose proof (with_words_same_slots t) as Hww.
  assert (Hsame : ∀ t', same_slots t t' → moves t t' []) by (intros; by apply same_slots_moves).
  destruct op; cbn [Table_exec op_typed fst snd] in *.
  - destruct Hop as (? & ? & ?).
    pose proof (place_moves t Ht kind rights object extent Handle_NULL) as Hp.
    unfold Table_grant. destruct (Table_place _ _ _ _ _ t) as [[g|e] t']; simpl; [by apply Hp|].
    rewrite Hp by done. constructor.
  - destruct Hop. pose proof (derive_moves reach h asked t Ht Hf) as Hd.
    destruct (Table_derive reach h asked t) as [[g|e] t']; simpl; auto.
  - by apply grow_moves.
  - destruct (Table_condemn t h); simpl; [by apply sweep_moves|constructor].
  - by apply relinquish_moves.
  - destruct Hop as [[] []]. by apply refund_moves.
  - by apply note_mapping_moves.
  - by apply note_peer_gone_moves.
  - by apply Hsame.
  - unfold Table_stop_by. destruct (Promise_promise _ _). by apply Hsame.
  - unfold Table_pressure_is. destruct (Grade_set _ _). by apply Hsame.
  - unfold Table_generation_is. destruct (Grade_set _ _). by apply Hsame.
  - by apply next_slot_notice_moves.
  - unfold Table_next_stop_notice. destruct (Promise_drain _) as [[]]; by apply Hsame.
  - unfold Table_next_grade_notice. destruct (Grade_drain _) as [[]]; [by apply Hsame|].
    destruct (Grade_drain _) as [[]]; by apply Hsame.
  - by apply clear_all_moves.
Qed.

Lemma moves_wf t t' hs : moves t t' hs → Table_wf t → Table_wf t'.
Proof. by intros []. Qed.

Lemma steps_moves t t' hs : table_steps t hs t' → Table_wf t → moves t t' hs ∧ Table_wf t'.
Proof.
  intros H Ht. induction H as [|t t1 t2 hs new _ IH H]; [by split; [constructor|]|].
  destruct (IH Ht) as [Hm Hw]. destruct H as [reach op Hop Hf].
  pose proof (exec_moves reach op t1 Hw Hop Hf) as Hm1.
  split; [by eapply moves_app|by eapply moves_wf].
Qed.
