(* ===== verification/CapTheorems.v ===== *)
(** * What the capability table guarantees

    The properties of [kernel/src/cap.rs]: naming, attenuation, revocation,
    growth, accounting and notices.  The lemmas behind them are in
    [CapTableFacts], [CapRevoke] and [CapTrace]. *)

From S2P Require Import Prelude Abi Control CapTable CapTableFacts CapRevoke CapTrace.

(** * Invariants of a capability table across any run

    Proved over the moves of [CapTrace]: a parent link only points at a handle
    that has been issued, the links form a forest, rights only shrink along it,
    a handle is issued once, and a slot's generation never goes back, not even
    across [clear_all] and a page bought again. *)

Import error cap.

(** ** The generation of an index, whether or not there is a slot at it *)
Definition tgen (t : Table) (i : nat) : Z :=
  match Table_at t i with Some s => slot_generation s | None => tbl_floor t end.

Definition handle_at (h : Handle) : nat := Z.to_nat (Handle_index h).

Record Table_inv (t : Table) (issued : list Handle) : Prop := {
  inv_past : ∀ i s, Table_at t i = Some s → Slot_occupied s = true →
    Handle_is_issuable (parent_of s) = true →
    ∃ sp, Table_at t (handle_at (parent_of s)) = Some sp ∧
      (Handle_generation (parent_of s) < slot_generation sp ∨
       Handle_generation (parent_of s) = slot_generation sp ∧ Slot_occupied sp = true);
  inv_rights : ∀ i s j sj, Table_at t i = Some s → Slot_occupied s = true →
    Table_at t j = Some sj → names (parent_of s) j sj →
    rights_narrows (slot_rights sj) (slot_rights s) = true;
  inv_forest : ∃ rank : nat → nat, ∀ i s j sj,
    Table_at t i = Some s → Slot_occupied s = true →
    Table_at t j = Some sj → names (parent_of s) j sj → (rank j < rank i)%nat;
  inv_issued : ∀ h, h ∈ issued →
    Handle_generation h < tgen t (handle_at h) ∨
    ∃ s, Table_at t (handle_at h) = Some s ∧ Handle_generation h = slot_generation s ∧
         Slot_occupied s = true;
  inv_named : ∀ i s, Table_at t i = Some s → Slot_occupied s = true → handle_of i s ∈ issued;
  inv_once : NoDup issued;
}.

(** ** Moves that place nothing *)
Record quiet_move (t t' : Table) : Prop := {
  quiet_back : ∀ i s', Table_at t' i = Some s' → Slot_occupied s' = true →
    ∃ s, Table_at t i = Some s ∧ slot_core s' = slot_core s;
  quiet_fwd : ∀ i s, Table_at t i = Some s →
    (∃ s', Table_at t' i = Some s' ∧
           (slot_core s' = slot_core s ∨
            slot_generation s ≤ slot_generation s' ∧
            (Slot_occupied s = true → slot_generation s < slot_generation s'))) ∨
    (Slot_occupied s = false ∧ ∀ j s', Table_at t' j = Some s' → Slot_occupied s' = false);
  quiet_gen : ∀ i, tgen t i ≤ tgen t' i;
}.

Lemma core_fields s s' :
  slot_core s' = slot_core s →
  Slot_occupied s' = Slot_occupied s ∧ slot_generation s' = slot_generation s ∧
  parent_of s' = parent_of s ∧ slot_rights s' = slot_rights s.
Proof. unfold parent_of. intros [= ?? -> ?]. by split_and!. Qed.

Lemma keep_quiet t t' : keeps_core t t' → quiet_move t t'.
Proof.
  intros [H Hf].
  assert (Hb : ∀ i s', Table_at t' i = Some s' → ∃ s, Table_at t i = Some s ∧ slot_core s' = slot_core s).
  { intros i s' E. specialize (H i). rewrite E in H. simpl in H.
    destruct (Table_at t i) as [s|]; [|done]. exists s. split; [done|]. by apply (inj Some). }
  assert (Hn : ∀ i, Table_at t' i = None → Table_at t i = None).
  { intros i E. specialize (H i). rewrite E in H. by destruct (Table_at t i). }
  split; [eauto| |].
  - intros i s E. left. destruct (Table_at t' i) as [s'|] eqn:E'; [|by rewrite Hn in E].
    destruct (Hb i s' E') as (s0 & E0 & ?). rewrite E in E0. injection E0 as <-. eauto.
  - intros i. unfold tgen. destruct (Table_at t' i) as [s'|] eqn:E'.
    + destruct (Hb i s' E') as (s & -> & (_ & -> & _)%core_fields). lia.
    + rewrite (Hn i E'), Hf. lia.
Qed.

Lemma clear_quiet t t' i owes :
  Table_wf t →
  (∀ j, Table_at t' j =
        if decide (i = j) then (λ s, cleared_slot s owes) <$> Table_at t j else Table_at t j) →
  tbl_floor t' = tbl_floor t → quiet_move t t'.
Proof.
  intros Ht Ha Hf. split.
  - intros j s'. rewrite Ha. destruct (decide (i = j)) as [<-|]; [|eauto].
    destruct (Table_at t i) as [s|] eqn:E; [|done]. intros [= <-].
    by rewrite (cleared_slot_free s owes (twf_slots _ Ht _ _ E)).
  - intros j s E. left. rewrite Ha, E. destruct (decide (i = j)) as [<-|]; [|eauto].
    pose proof (twf_slots _ Ht _ _ E) as Hs.
    eexists; split; [done|right]. split; [by apply cleared_slot_generation_ge|].
    by apply cleared_slot_generation_gt.
  - intros j. unfold tgen. rewrite Ha, Hf. destruct (decide (i = j)) as [<-|]; [|lia].
    destruct (Table_at t i) as [s|] eqn:E; simpl; [|lia].
    apply cleared_slot_generation_ge, (twf_slots _ Ht _ _ E).
Qed.

Lemma grow_quiet t t' :
  (∀ j s, Table_at t j = Some s → Table_at t' j = Some s) →
  (∀ j s, Table_at t' j = Some s → Table_at t j = Some s ∨
                                   Table_at t j = None ∧ s = Slot_fresh (tbl_floor t)) →
  tbl_floor t' = tbl_floor t → quiet_move t t'.
Proof.
  intros Ha Hb Hf. split.
  - intros j s' [?|[_ ->]]%Hb; [eauto|done].
  - intros j s E. left. rewrite (Ha _ _ E). eauto.
  - intros j. unfold tgen. destruct (Table_at t j) as [s|] eqn:E; [by rewrite (Ha _ _ E)|].
    destruct (Table_at t' j) as [s|] eqn:E'; [|lia].
    destruct (Hb _ _ E') as [?|[_ ->]]; [congruence|simpl; lia].
Qed.

Lemma forget_quiet t t' :
  (∀ j s, Table_at t j = Some s → Slot_occupied s = false) →
  (∀ j s', Table_at t' j = Some s' → ∃ s, Table_at t j = Some s ∧ slot_core s' = slot_core s) →
  (∀ j s, Table_at t j = Some s → Table_at t' j = None → slot_generation s ≤ tbl_floor t') →
  tbl_floor t ≤ tbl_floor t' → quiet_move t t'.
Proof.
  intros Ho Hb Hg Hf. split; [eauto| |].
  - intros j s E. right. split; [eauto|]. intros k s' (s0 & E0 & (-> & _)%core_fields)%Hb. eauto.
  - intros j. unfold tgen. destruct (Table_at t' j) as [s'|] eqn:E'.
    + destruct (Hb _ _ E') as (s & -> & (_ & -> & _)%core_fields). lia.
    + destruct (Table_at t j) as [s|] eqn:E; [by eapply Hg|done].
Qed.

Lemma move_quiet t t' : Table_wf t → move t t' None → quiet_move t t'.
Proof.
  intros Ht Hm. inversion Hm; subst;
    [by apply keep_quiet|by eapply clear_quiet|by apply grow_quiet|by apply forget_quiet].
Qed.

Lemma inv_quiet t t' issued : quiet_move t t' → Table_inv t issued → Table_inv t' issued.
Proof.
  intros [Hb Hf Hg] [Hpast Hri [rank Hrank] Hiss Hnam Honce].
  assert (Hpair : ∀ i s j sj, Table_at t' i = Some s → Slot_occupied s = true →
    Table_at t' j = Some sj → names (parent_of s) j sj →
    ∃ s0 sj0, Table_at t i = Some s0 ∧ Slot_occupied s0 = true ∧ Table_at t j = Some sj0 ∧
      names (parent_of s0) j sj0 ∧ slot_rights s0 = slot_rights s ∧ slot_rights sj0 = slot_rights sj).
  { intros i s j sj E Ho Ej Hn. destruct (Hb _ _ E Ho) as (s0 & E0 & C0).
    destruct (Hb j sj Ej) as (sj0 & Ej0 & Cj0); [apply Hn|]. exists s0, sj0.
    destruct (core_fields _ _ C0) as (Hso & _ & Hsp & Hsr), (core_fields _ _ Cj0) as (_ & _ & _ & Hjr).
    rewrite <- Hsp, <- Hso. split_and!; try done. by eapply slot_core_names. }
  split; [| | | | |done].
  - intros i s' E' Ho' Hi'. destruct (Hb _ _ E' Ho') as (s & E & C).
    destruct (core_fields _ _ C) as (Hso & _ & Hsp & _). rewrite Hsp in *. rewrite Hso in Ho'.
    destruct (Hpast i s E Ho' Hi') as (sp & Ep & Hp).
    destruct (Hf _ _ Ep) as [(sp' & Ep' & Hc)|[_ Hnone]].
    + exists sp'. split; [done|]. destruct Hc as [C'|[Hle Hlt]].
      * destruct (core_fields _ _ C') as (-> & -> & _). done.
      * left. destruct Hp as [|[-> ?]]; [lia|by apply Hlt].
    + rewrite (Hnone i s' E') in Hso. congruence.
  - intros i s j sj E Ho Ej Hn.
    destruct (Hpair i s j sj E Ho Ej Hn) as (s0 & sj0 & E0 & ? & Ej0 & ? & <- & <-). by eapply Hri.
  - exists rank. intros i s j sj E Ho Ej Hn.
    destruct (Hpair i s j sj E Ho Ej Hn) as (s0 & sj0 & E0 & ? & Ej0 & ? & _). by eapply Hrank.
  - intros h Hh. destruct (Hiss h Hh) as [Hlt|(s & E & Hge & Ho)].
    + left. specialize (Hg (handle_at h)). lia.
    + destruct (Hf _ _ E) as [(s' & E' & [C'|[_ Hlt]])|[? _]]; [| |congruence].
      * right. exists s'. destruct (core_fields _ _ C') as (-> & -> & _). done.
      * left. unfold tgen. rewrite E', Hge. by apply Hlt.
  - intros i s' E' Ho'. destruct (Hb _ _ E' Ho') as (s & E & (Hso & Hgen & _)%core_fields).
    unfold handle_of. rewrite Hgen. apply (Hnam i s E). by rewrite <- Hso.
Qed.

(** ** Placing *)
Section place.
Context (t t' : Table) (issued : list Handle) (i : nat) (s s' : Slot).
Hypotheses (Ht : Table_wf t) (Hinv : Table_inv t issued).
Hypotheses (E : Table_at t i = Some s) (Hfree : Slot_occupied s = false).
Hypotheses (Hocc : Slot_occupied s' = true) (Hgen : slot_generation s' = slot_generation s).
Hypothesis Hpar : Handle_is_issuable (parent_of s') = true →
  ∃ j sj, Table_at t j = Some sj ∧ names (parent_of s') j sj ∧
          rights_narrows (slot_rights sj) (slot_rights s') = true.
Hypothesis Hat : ∀ j, Table_at t' j = if decide (i = j) then Some s' else Table_at t j.
Hypothesis Hfl : tbl_floor t' = tbl_floor t.

Lemma handle_of_at : handle_at (handle_of i s) = i.
Proof.
  unfold handle_at, handle_of.
  by rewrite Handle_new_index, Nat2Z.id by (eapply index_is_u16; [apply Ht|done]).
Qed.

Lemma handle_of_generation : Handle_generation (handle_of i s) = slot_generation s.
Proof. apply Handle_new_generation. by eapply index_is_u16; [apply Ht|]. Qed.

(** Nothing in the table was derived from the handle about to be issued. *)
Lemma nobody_names_new k sk :
  Table_at t k = Some sk → Slot_occupied sk = true → Handle_is_issuable (parent_of sk) = true →
  handle_at (parent_of sk) = i → Handle_generation (parent_of sk) < slot_generation s.
Proof.
  intros Ek Ho Hi <-. destruct (inv_past _ _ Hinv k sk Ek Ho Hi) as (sp & Ep & Hp).
  rewrite E in Ep. injection Ep as <-. destruct Hp as [|[_ ?]]; [done|congruence].
Qed.

(** A live parent in the new table was one in the old. *)
Lemma place_parent k sk j sj :
  Table_at t' k = Some sk → Slot_occupied sk = true → Table_at t' j = Some sj →
  names (parent_of sk) j sj → j ≠ i ∧ Table_at t j = Some sj ∧
  (k = i ∧ sk = s' ∧ rights_narrows (slot_rights sj) (slot_rights s') = true ∨
   k ≠ i ∧ Table_at t k = Some sk).
Proof.
  rewrite !Hat. intros Ek Ho Ej Hn. destruct Hn as (Hj & Hg & Hi & Hoj).
  destruct (decide (i = k)) as [<-|Hk].
  - injection Ek as <-. destruct (Hpar Hi) as (j0 & sj0 & E0 & (Hj0 & _ & _ & Ho0) & Hr).
    assert (Hjj : j = j0) by congruence. rewrite Hjj in *. clear Hjj.
    assert (Hne : i ≠ j0) by (intros <-; congruence).
    rewrite decide_False in Ej by done. rewrite E0 in Ej. injection Ej as <-.
    split_and!; [done|done|left; done].
  - destruct (decide (i = j)) as [<-|Hij].
    + injection Ej as <-. pose proof (nobody_names_new k sk Ek Ho Hi (eq_sym Hj)). lia.
    + split_and!; [done|done|right; done].
Qed.

Lemma inv_place : Table_inv t' (handle_of i s :: issued).
Proof.
  destruct Hinv as [Hpast Hri [rank Hrank] Hiss Hnam Honce]. split.
  - intros k sk Ek Ho Hi. rewrite Hat in Ek. destruct (decide (i = k)) as [<-|Hk].
    + injection Ek as <-. destruct (Hpar Hi) as (j & sj & Ej & (Hj & Hg & _ & Hoj) & _).
      exists sj. fold (handle_at (parent_of s')) in Hj. rewrite <- Hj, Hat.
      rewrite decide_False by (intros <-; congruence). auto.
    + destruct (Hpast k sk Ek Ho Hi) as (sp & Ep & Hp). rewrite Hat.
      destruct (decide (i = handle_at (parent_of sk))) as [Hip|]; [|eauto].
      exists s'. split; [done|left]. rewrite Hgen. by apply (nobody_names_new k).
  - intros k sk j sj Ek Ho Ej Hn.
    destruct (place_parent k sk j sj Ek Ho Ej Hn) as (_ & Ej' & [(_ & -> & ?)|[_ Ek']]); [done|].
    by eapply Hri.
  - exists (λ k, if decide (k = i) then S (rank (handle_at (parent_of s'))) else rank k).
    intros k sk j sj Ek Ho Ej Hn.
    destruct (place_parent k sk j sj Ek Ho Ej Hn) as (Hji & Ej' & Hc).
    rewrite (decide_False (P := j = i)) by done. destruct Hc as [(-> & -> & _)|[Hk Ek']].
    + rewrite decide_True by done. destruct Hn as [-> _]. unfold handle_at. lia.
    + rewrite decide_False by done. by eapply Hrank.
  - intros h [->|Hh]%elem_of_cons.
    + right. exists s'. rewrite handle_of_at, handle_of_generation, Hat, decide_True by done. done.
    + unfold tgen. rewrite Hat, Hfl. destruct (Hiss h Hh) as [Hlt|(s0 & E0 & Hg0 & Ho0)].
      * left. unfold tgen in Hlt. destruct (decide (i = handle_at h)) as [Heq|]; [|done].
        rewrite <- Heq, E in Hlt. by rewrite Hgen.
      * right. rewrite decide_False by (intros Heq; rewrite <- Heq in E0; congruence). eauto.
  - intros k sk Ek Ho. rewrite Hat in Ek. destruct (decide (i = k)) as [<-|Hk].
    + injection Ek as <-. unfold handle_of. rewrite Hgen. left.
    + right. by apply Hnam.
  - constructor; [|done]. intros Hin. destruct (Hiss _ Hin) as [Hlt|(s0 & E0 & _ & Ho0)].
    + rewrite handle_of_at, handle_of_generation in Hlt. unfold tgen in Hlt. rewrite E in Hlt. lia.
    + rewrite handle_of_at in E0. congruence.
Qed.
End place.

(** ** Along a run *)
Lemma move_inv t t' o issued :
  Table_wf t → move t t' o → Table_inv t issued → Table_inv t' (option_list o ++ issued).
Proof.
  intros Ht Hm Hinv. destruct o as [h|].
  - inversion Hm as [|i s s' E Hfree _ Hocc Hgen Hpar Hat Hfl| | |]; subst. by apply (inv_place t t' issued i s s').
  - by apply (inv_quiet t); [apply move_quiet|].
Qed.

Lemma moves_inv t t' hs issued :
  moves t t' hs → Table_inv t issued → Table_inv t' (hs ++ issued).
Proof.
  intros Hm Hinv. induction Hm as [|t t1 t2 hs o _ IH Hw1 _ Hm]; [done|].
  rewrite <- (assoc_L (++)). eapply move_inv; eauto.
Qed.

Lemma move_tgen t t' o i : Table_wf t → move t t' o → tgen t i ≤ tgen t' i.
Proof.
  intros Ht Hm. destruct o as [h|]; [|by apply quiet_gen, move_quiet].
  inversion Hm as [|k s s' E _ _ _ Hgen _ Hat Hf| | |]; subst. unfold tgen. rewrite Hat, Hf.
  destruct (decide (k = i)) as [<-|]; [rewrite E, Hgen; lia|lia].
Qed.

Lemma moves_tgen t t' hs i : moves t t' hs → tgen t i ≤ tgen t' i.
Proof.
  intros Hm. induction Hm as [|t t1 t2 hs o _ IH Hw1 _ Hm]; [lia|].
  etransitivity; [apply IH|by eapply move_tgen].
Qed.

(** A slot neither placed over nor cleared keeps its parent's children: what a
    table with nothing in it satisfies. *)
Lemma inv_blank t : (∀ i s, Table_at t i = Some s → Slot_occupied s = false) → Table_inv t [].
Proof.
  intros H. assert (Hno : ∀ i s, Table_at t i = Some s → Slot_occupied s = true → False).
  { intros i s E Ho. apply H in E. congruence. }
  split; try by (intros; exfalso; eauto).
  - exists (λ _, 0%nat). intros. exfalso. eauto.
  - by intros h ?%elem_of_nil.
  - constructor.
Qed.

Lemma Table_EMPTY_at i s : Table_at Table_EMPTY i = Some s → s = Slot_EMPTY.
Proof.
  unfold Table_at, Table_EMPTY; tbl_cbn. destruct (i <? TABLE_SLOTS)%nat; [|done].
  by intros [-> _]%lookup_replicate_1.
Qed.

Lemma Table_EMPTY_wf : Table_wf Table_EMPTY.
Proof.
  split; [| |done].
  - split; unfold Table_EMPTY; tbl_cbn; rewrite ?length_replicate; try (done || lia).
    apply NoDup_nil_2.
  - intros i s ->%Table_EMPTY_at. by apply Slot_wf_fresh.
Qed.

(** The tables a run from the empty one reaches, with the handles it issued. *)
Definition reachable (t : Table) (issued : list Handle) : Prop :=
  table_steps Table_EMPTY issued t.

Lemma reachable_inv t issued : reachable t issued → Table_wf t ∧ Table_inv t issued.
Proof.
  intros H. apply steps_moves in H as [Hm Hw]; [|apply Table_EMPTY_wf]. split; [done|].
  rewrite <- (app_nil_r issued). eapply moves_inv; [done|].
  apply inv_blank. by intros i s ->%Table_EMPTY_at.
Qed.

(** ** A concrete run, for the tables of examples: the page supply is empty. *)
Definition no_backing : Z → option Z := λ _, None.

#[global] Instance op_typed_dec op : Decision (op_typed op).
Proof. destruct op; simpl; apply _. Defined.

Definition run_from (ops : list TableOp) (acc : list Handle * Table) : list Handle * Table :=
  foldl (λ '(hs, t) op, let '(new, t') := Table_exec no_backing op t in (new ++ hs, t')) acc ops.

Definition Table_run (ops : list TableOp) : list Handle * Table := run_from ops ([], Table_EMPTY).

Definition ops_typed (ops : list TableOp) : bool := forallb (λ op, bool_decide (op_typed op)) ops.

Lemma run_from_reachable ops hs t :
  ops_typed ops = true → reachable t hs →
  reachable (run_from ops (hs, t)).2 (run_from ops (hs, t)).1.
Proof.
  revert hs t. induction ops as [|op ops IH]; intros hs t Hops Hb; [done|].
  unfold ops_typed in Hops. cbn [forallb] in Hops.
  apply andb_true_iff in Hops as [Hop%bool_decide_eq_true Hops].
  unfold run_from. cbn [foldl]. fold run_from.
  destruct (Table_exec no_backing op t) as [new t'] eqn:X. apply IH; [done|].
  eapply steps_snoc; [exact Hb|].
  replace new with (Table_exec no_backing op t).1 by (by rewrite X).
  replace t' with (Table_exec no_backing op t).2 by (by rewrite X).
  by constructor.
Qed.

Lemma Table_run_reachable ops :
  ops_typed ops = true → reachable (Table_run ops).2 (Table_run ops).1.
Proof. intros. apply run_from_reachable; [done|constructor]. Qed.

Import error cap.

(** ** Reading answers *)
Lemma inspect_slot t h f :
  Table_inspect t h = Ok f →
  ∃ s k, Table_at t (handle_at h) = Some s ∧ names h (handle_at h) s ∧
         Slot_cap_kind s = Some k ∧ f = found_of s k.
Proof.
  intros (i & s & k & E & Hn & K & ->)%Table_inspect_Ok.
  assert (i = handle_at h) as -> by apply Hn. by exists s, k.
Qed.

Lemma condemn_inspect t h c :
  Table_condemn t h = Ok c → c = Table_descendants t h ∧ ∃ f, Table_inspect t h = Ok f.
Proof. intros [[f [Hf _]%Table_invoke_any_Ok] ->]%Table_condemn_Ok. eauto. Qed.

Lemma descendants_false t h i :
  Table_shape t → ¬ descendant t h i → Condemned_holds (Table_descendants t h) i = false.
Proof.
  intros Ht Hn. destruct (Condemned_holds _ i) eqn:C; [|done]. by apply Table_descendants_spec in C.
Qed.

(** The slots a revocation clears, listed. *)
Definition condemned_slots (t : Table) (c : Condemned) : list nat :=
  List.filter (Condemned_holds c) (seq 0 (Table_capacity t)).

Lemma condemned_slots_spec t c i :
  i ∈ condemned_slots t c ↔ Condemned_holds c i = true ∧ (i < Table_capacity t)%nat.
Proof. unfold condemned_slots. rewrite list_elem_of_In, filter_In, <- list_elem_of_In, seq_elem. tauto. Qed.

Lemma condemned_slots_NoDup t c : NoDup (condemned_slots t c).
Proof. apply NoDup_ListNoDup, List.NoDup_filter, NoDup_ListNoDup, NoDup_seq. Qed.

(** After the sweep nothing descends from the handle any more. *)
Lemma swept_no_descendant t h i :
  Table_wf t → ¬ descendant (Table_sweep t (Table_descendants t h)).2 h i.
Proof.
  intros Ht. set (c := Table_descendants t h). intros Hd.
  assert (Hold : ∀ k, descendant (Table_sweep t c).2 h k →
                      Table_at (Table_sweep t c).2 k = Table_at t k).
  { intros k (s & E & Ho)%descendant_slot. rewrite Table_sweep_at in * by done.
    destruct (Condemned_holds c k); [|done]. destruct (Table_at t k) as [s0|] eqn:E0; [|done].
    injection E as <-. rewrite cleared_slot_free in Ho; [done|by eapply (twf_slots _ Ht)]. }
  assert (Hd' : descendant t h i).
  { induction Hd as [k s E|j sj k s Hj IH Ej E].
    - rewrite Hold in E by (by eapply descendant_child). by eapply descendant_child.
    - rewrite Hold in E by (by eapply descendant_step). rewrite Hold in Ej by done.
      by eapply descendant_step. }
  destruct (descendant_slot _ _ _ Hd) as (s & E & Ho).
  apply Table_descendants_spec in Hd'; [|apply Ht]. rewrite Table_sweep_at in E by done.
  fold c in Hd'. rewrite Hd' in E. destruct (Table_at t i) as [s0|] eqn:E0; [|done].
  injection E as <-. rewrite cleared_slot_free in Ho; [done|by eapply (twf_slots _ Ht)].
Qed.

(** C1 Revoking a handle ([condemn], then [sweep]) takes back exactly what was
    derived from it: every handle on a descendant's slot is refused as revoked,
    every other handle answers as before, the count returned is the number of
    descendants, none is left, and the table stays well formed. *)
Theorem revoke_exact t h c n t' :
  Table_wf t → Table_condemn t h = Ok c → Table_sweep t c = (n, t') →
  Table_wf t' ∧
  (∀ i s g, descendant t h i → Table_at t i = Some s → names g i s → Table_resolve t' g = Err revoked) ∧
  (∀ g, ¬ descendant t h (handle_at g) → Table_inspect t' g = Table_inspect t g) ∧
  (∀ i, ¬ descendant t' h i) ∧
  ∃ l, NoDup l ∧ (∀ i, i ∈ l ↔ descendant t h i) ∧ n = Z.of_nat (length l).
Proof.
  intros Ht [-> _]%condemn_inspect Es.
  pose proof (Table_sweep_keeps t (Table_descendants t h) Ht) as (Hw & _ & _ & _ & Hn).
  rewrite Es in Hw, Hn. cbn [fst snd] in Hw, Hn.
  assert (Et : t' = (Table_sweep t (Table_descendants t h)).2) by (by rewrite Es).
  split_and!; [done| | | |].
  - intros i s g Hd E Hg. rewrite Et. eapply swept_revoked; [done..|].
    by apply Table_descendants_spec; [apply Ht|].
  - intros g Hd. rewrite Et. apply unswept_inspect; [done|]. by apply descendants_false; [apply Ht|].
  - intros i. rewrite Et. by apply swept_no_descendant.
  - exists (condemned_slots t (Table_descendants t h)).
    split_and!; [apply condemned_slots_NoDup| |done]. intros i.
    rewrite condemned_slots_spec, Table_descendants_spec by apply Ht. split; [tauto|].
    intros Hd. split; [done|]. destruct (descendant_slot _ _ _ Hd) as (s & E & _).
    by eapply Table_at_Some_lt.
Qed.

(** A table with a frame, a copy of it, a copy of the copy, and an untyped region. *)
Definition example_ops : list TableOp :=
  [OpGrant Frame rights_ALL 4096 4096; OpDerive (Handle_new 0 1) rights_ALL;
   OpDerive (Handle_new 1 1) rights_READ; OpGrant Untyped rights_ALL 65536 12288].
Definition example_table : Table := (Table_run example_ops).2.
Definition example_issued : list Handle := (Table_run example_ops).1.

Lemma example_reachable : reachable example_table example_issued.
Proof. apply Table_run_reachable. vm_compute. reflexivity. Qed.

Lemma example_wf : Table_wf example_table.
Proof. apply (reachable_inv _ _ example_reachable). Qed.

Definition example_revoked : Z * Table :=
  Table_sweep example_table (Table_descendants example_table (Handle_new 0 1)).

Lemma revoke_exact_witness :
  example_revoked.1 = 2 ∧ Table_resolve example_revoked.2 (Handle_new 0 1) = Ok 0%nat ∧
  ∀ i, ¬ descendant example_revoked.2 (Handle_new 0 1) i.
Proof.
  split; [vm_compute; reflexivity|split; [vm_compute; reflexivity|]].
  destruct (revoke_exact example_table (Handle_new 0 1)
              (Table_descendants example_table (Handle_new 0 1)) example_revoked.1 example_revoked.2
              example_wf ltac:(vm_compute; reflexivity) (surjective_pairing example_revoked))
    as (_ & _ & _ & H & _).
  exact H.
Defined.

(** ** Naming *)

(** C5 No handle names anything unless the table issued it: what resolves, at
    any point of any run from the empty table, was the answer of an earlier
    [grant] or [derive]. *)
Theorem no_forgery t issued h i :
  reachable t issued → is_uint 32 (Handle_bits h) → Table_resolve t h = Ok i → h ∈ issued.
Proof.
  intros [Hw Hinv]%reachable_inv Hb (s & E & Hn)%Table_resolve_Ok.
  rewrite (names_inj t h i s) by done. apply (inv_named _ _ Hinv); [done|apply Hn].
Qed.

Lemma no_forgery_witness : Handle_new 2 1 ∈ example_issued.
Proof.
  apply (no_forgery example_table example_issued (Handle_new 2 1) 2 example_reachable).
  - vm_compute. split; [discriminate|reflexivity].
  - vm_compute. reflexivity.
Defined.

(** No handle is issued twice, whatever is revoked, cleared or grown between
    the two issues: a stale handle is never mistaken for a new one. *)
Theorem issued_once t issued : reachable t issued → NoDup issued.
Proof. intros [_ Hinv]%reachable_inv. apply (inv_once _ _ Hinv). Qed.

Lemma issued_once_witness : NoDup example_issued.
Proof. apply (issued_once example_table). apply example_reachable. Defined.

Lemma issued_dead t issued h :
  reachable t issued → h ∈ issued → is_ok (Table_resolve t h) = false →
  Handle_generation h < tgen t (handle_at h).
Proof.
  intros [Hw Hinv]%reachable_inv Hh Hr.
  destruct (inv_issued _ _ Hinv h Hh) as [?|(s & E & Hg & Ho)]; [done|exfalso].
  assert (Table_resolve t h = Ok (handle_at h)) as R; [|by rewrite R in Hr].
  apply Table_resolve_Ok. exists s. split; [done|]. split_and!; try done.
  destruct (swf_generation _ (twf_slots _ Hw _ _ E)). unfold Handle_is_issuable.
  apply negb_true_iff. lia.
Qed.

Lemma dead_stays_dead t t' hs h :
  moves t t' hs → Handle_generation h < tgen t (handle_at h) → is_ok (Table_resolve t' h) = false.
Proof.
  intros Hm%(moves_tgen _ _ _ (handle_at h)) Hd.
  destruct (Table_resolve t' h) as [i|] eqn:R; [|done].
  apply Table_resolve_Ok in R as (s & E & -> & Hg & _). unfold tgen in Hm at 2.
  unfold handle_at in *. rewrite E in Hm. lia.
Qed.

(** C2 Once a handle the table issued has stopped resolving it never resolves
    again, across any later operations, [clear_all] and pages bought again
    included: revocation is final. *)
Theorem revoked_forever t issued h hs t' :
  reachable t issued → h ∈ issued → is_ok (Table_resolve t h) = false →
  table_steps t hs t' → is_ok (Table_resolve t' h) = false.
Proof.
  intros Hr Hh Hd Hs. pose proof (issued_dead _ _ _ Hr Hh Hd) as Hg.
  apply reachable_inv in Hr as [Hw _]. apply steps_moves in Hs as [Hm _]; [|done].
  by eapply dead_stays_dead.
Qed.

Lemma revoked_forever_witness :
  let ops := example_ops ++ [OpRelinquish (Handle_new 0 1)] in
  is_ok (Table_resolve (Table_clear_all (Table_run ops).2) (Handle_new 1 1)) = false.
Proof.
  intros ops. eapply (revoked_forever (Table_run ops).2 (Table_run ops).1 (Handle_new 1 1) []).
  - apply Table_run_reachable. vm_compute. reflexivity.
  - apply list_elem_of_In. vm_compute. tauto.
  - vm_compute. reflexivity.
  - apply (steps_snoc _ (Table_run ops).2 _ [] []); [constructor|].
    apply (step_exec _ no_backing OpClearAll); [exact I|intros ? ? [=]].
Defined.

(** ** Attenuation, and the tree *)

(** Down the tree: an attribute the parent's rights include is one the child's do. *)
Lemma descendant_holds t issued h i s f asked :
  Table_wf t → Table_inv t issued → is_uint 32 (Handle_bits h) → Table_inspect t h = Ok f →
  descendant t h i → Table_at t i = Some s →
  rights_holds (slot_rights s) asked = true → rights_holds (found_rights f) asked = true.
Proof.
  intros Hw Hinv Hb (s0 & k & E0 & Hn0 & _ & ->)%inspect_slot Hd. revert s asked.
  induction Hd as [i s1 E1 Ho Hi Hp|j sj i s1 Hd IH Ej E1 Ho Hi Hj Hg]; intros s asked E Hh;
    rewrite E in E1; injection E1 as <-.
  - eapply rights_narrows_holds; [apply (swf_rights _ (twf_slots _ Hw _ _ E))| |done].
    eapply (inv_rights _ _ Hinv i s); [done..|]. unfold parent_of. by rewrite Hp.
  - eapply (IH sj); [done|].
    eapply rights_narrows_holds; [apply (swf_rights _ (twf_slots _ Hw _ _ E))| |done].
    eapply (inv_rights _ _ Hinv i s); [done|done|done|].
    destruct (descendant_slot _ _ _ Hd) as (sj' & Ej' & Hoj). rewrite Ej in Ej'. injection Ej' as <-.
    unfold names. split_and!; [by unfold parent_of|done|done|done].
Qed.

(** C4 Rights only shrink down the derivation tree: whatever right a descendant
    of a live handle carries, however many derivations away, the handle carries. *)
Theorem rights_attenuate t issued h i s f asked :
  reachable t issued → is_uint 32 (Handle_bits h) → Table_inspect t h = Ok f →
  descendant t h i → Table_at t i = Some s →
  rights_holds (slot_rights s) asked = true → rights_holds (found_rights f) asked = true.
Proof. intros [Hw Hinv]%reachable_inv. by apply descendant_holds with issued. Qed.

Lemma rights_attenuate_witness :
  rights_holds rights_ALL rights_READ = true.
Proof.
  refine (rights_attenuate example_table example_issued (Handle_new 0 1) 2
    (mkSlot 2 rights_READ 1 (Handle_bits (Handle_new 1 1)) 4096 4096 NOT_MAPPED)
    (mkFound Frame rights_ALL 4096 4096) rights_READ example_reachable _ _ _ _ _).
  - vm_compute. split; [discriminate|reflexivity].
  - vm_compute. reflexivity.
  - apply Table_descendants_spec; [apply example_wf|vm_compute; reflexivity].
  - vm_compute. reflexivity.
  - vm_compute. reflexivity.
Defined.

Lemma rank_descendant t issued h i s :
  Table_inv t issued → Table_wf t → Table_at t (handle_at h) = Some s → names h (handle_at h) s →
  descendant t h i → i ≠ handle_at h.
Proof.
  intros Hinv Hw E Hn Hd. destruct (inv_forest _ _ Hinv) as [rank Hrank].
  cut (rank (handle_at h) < rank i)%nat; [intros ? ->; lia|].
  induction Hd as [i si Ei Ho Hi Hp|j sj i si Hd IH Ej Ei Ho Hi Hj Hg].
  - eapply (Hrank i si); [done..|]. unfold parent_of. by rewrite Hp.
  - etransitivity; [exact IH|]. eapply (Hrank i si); [done|done|done|].
    destruct (descendant_slot _ _ _ Hd) as (sj' & Ej' & Hoj). rewrite Ej in Ej'. injection Ej' as <-.
    unfold names. split_and!; [by unfold parent_of|done|done|done].
Qed.

(** Marking one index more makes one more to clear. *)
Lemma filter_mark_one (p q : nat → bool) i n :
  (∀ j, q j = bool_decide (i = j) || p j) → p i = false → (i < n)%nat →
  Z.of_nat (length (List.filter q (seq 0 n))) = Z.of_nat (length (List.filter p (seq 0 n))) + 1.
Proof.
  intros Hq Hp Hi.
  assert (Hoff : ∀ l, i ∉ l → List.filter q l = List.filter p l).
  { intros l Hl. apply filter_ext_in. intros j Hj%list_elem_of_In. rewrite Hq.
    by rewrite bool_decide_eq_false_2 by (intros <-; done). }
  assert (Hin : i ∈ seq 0 n) by by apply seq_elem.
  apply list_elem_of_split in Hin as (l1 & l2 & Es).
  assert (Hnd : NoDup (l1 ++ i :: l2)) by (rewrite <- Es; apply NoDup_seq).
  apply list.NoDup_app in Hnd as (_ & Hd & [Hi2 _]%list.NoDup_cons).
  rewrite Es, !List.filter_app, !length_app. simpl.
  rewrite Hq, Hp, bool_decide_eq_true_2 by done. simpl.
  rewrite !Hoff by (done || intros Hi1; apply (Hd i Hi1); left). lia.
Qed.

(** The derivation links form a forest: a handle is never its own descendant,
    so revoking it leaves it usable, and [relinquish] clears it and its
    descendants, one more than revoking clears. *)
Theorem condemn_spares_own t issued h c :
  reachable t issued → Table_condemn t h = Ok c →
  Condemned_holds c (handle_at h) = false ∧
  Table_inspect (Table_sweep t c).2 h = Table_inspect t h ∧
  ∃ t', Table_relinquish h t = (Ok ((Table_sweep t c).1 + 1), t') ∧
        Table_resolve t' h = Err revoked.
Proof.
  intros [Hw Hinv]%reachable_inv Hc.
  destruct (condemn_inspect _ _ _ Hc) as [-> [f (s & k & E & Hn & _)%inspect_slot]].
  set (c := Table_descendants t h) in *. pose proof (twf_shape _ Hw) as Hsh.
  assert (Hown : Condemned_holds c (handle_at h) = false).
  { apply descendants_false; [done|]. intros Hd. by eapply rank_descendant. }
  pose proof (Table_at_Some_lt _ _ _ E) as Hlt.
  assert (Hm : ∀ j, Condemned_holds (Condemned_mark c (handle_at h)) j =
                    bool_decide (handle_at h = j) || Condemned_holds c j).
  { intros j. apply Condemned_holds_mark; [by apply Table_descendants_wf|by eapply capacity_mark_bits]. }
  split_and!; [done|by apply unswept_inspect|].
  exists (Table_sweep t (Condemned_mark c (handle_at h))).2. split.
  - unfold Table_relinquish. rewrite Hc.
    assert (Table_resolve t h = Ok (handle_at h)) as -> by (apply Table_resolve_Ok; eauto).
    rewrite (surjective_pairing (Table_sweep t (Condemned_mark c (handle_at h)))).
    destruct (Table_sweep_keeps t c Hw) as (_ & _ & _ & _ & ->).
    destruct (Table_sweep_keeps t (Condemned_mark c (handle_at h)) Hw) as (_ & _ & _ & _ & ->).
    do 2 f_equal. by apply (filter_mark_one _ _ (handle_at h)).
  - eapply swept_revoked; [done|done|done|]. rewrite Hm. by rewrite bool_decide_eq_true_2.
Qed.

Lemma condemn_spares_own_witness :
  ∃ t', Table_relinquish (Handle_new 0 1) example_table = (Ok 3, t').
Proof.
  destruct (condemn_spares_own example_table example_issued (Handle_new 0 1)
              (Table_descendants example_table (Handle_new 0 1)) example_reachable
              ltac:(vm_compute; reflexivity)) as (_ & _ & t' & E & _).
  exists t'. rewrite E. vm_compute. reflexivity.
Defined.

(** ** Mappings to withdraw *)

(** The addresses at the marked, mapped slots from the cursor on. *)
Definition mapping_at (t : Table) (c : Condemned) (i : nat) : list Z :=
  if Condemned_holds c i then
    match Table_at t i with
    | Some s => if slot_mapped s =? NOT_MAPPED then [] else [slot_mapped s]
    | None => []
    end
  else [].

Definition mappings_from (t : Table) (c : Condemned) (i n : nat) : list Z :=
  concat (map (mapping_at t c) (seq i n)).

(** The loop of [revoke] in [process.rs]: [while let Some(page) = next_mapping]. *)
Fixpoint drain_mappings (fuel : nat) (t : Table) (c : Condemned) : list Z * Condemned :=
  match fuel with
  | O => ([], c)
  | S fuel =>
      match Table_next_mapping t c with
      | (Some page, c') => let '(pages, c'') := drain_mappings fuel t c' in (page :: pages, c'')
      | (None, c') => ([], c')
      end
  end.

Lemma next_mapping_from_spec t words fuel cursor :
  (Table_capacity t < cursor + fuel)%nat →
  let c := mkCondemned words cursor in
  match next_mapping_from fuel t c with
  | (Some page, c') =>
      ∃ k, cond_words c' = words ∧ cond_cursor c' = (cursor + S k)%nat ∧
        (cursor + S k ≤ Table_capacity t)%nat ∧
        mappings_from t c cursor k = [] ∧ mapping_at t c (cursor + k) = [page]
  | (None, c') =>
      mappings_from t c cursor (Table_capacity t - cursor) = []
  end.
Proof.
  revert cursor. induction fuel as [|fuel IH]; intros cursor Hf c; cbn [next_mapping_from].
  { replace (Table_capacity t - cursor)%nat with 0%nat by lia. done. }
  change (cond_cursor c) with cursor. change (cond_words c) with words.
  destruct (Nat.leb_spec (Table_capacity t) cursor).
  { replace (Table_capacity t - cursor)%nat with 0%nat by lia. done. }
  assert (Hskip : mapping_at t c cursor = [] →
    match next_mapping_from fuel t (mkCondemned words (S cursor)) with
    | (Some page, c') =>
        ∃ k, cond_words c' = words ∧ cond_cursor c' = (cursor + S k)%nat ∧
          (cursor + S k ≤ Table_capacity t)%nat ∧
          mappings_from t c cursor k = [] ∧ mapping_at t c (cursor + k) = [page]
    | (None, c') => mappings_from t c cursor (Table_capacity t - cursor) = []
    end).
  { intros Hm. specialize (IH (S cursor) ltac:(lia)). cbv zeta in IH.
    destruct (next_mapping_from fuel t _) as [[page|] c'].
    - destruct IH as (k & Hw & Hc & Hle & Hn & Hp). exists (S k). split_and!; [done|lia|lia| |].
      + unfold mappings_from. cbn [seq map concat]. by rewrite Hm.
      + by replace (cursor + S k)%nat with (S cursor + k)%nat by lia.
    - replace (Table_capacity t - cursor)%nat with (S (Table_capacity t - S cursor)) by lia.
      unfold mappings_from. cbn [seq map concat]. by rewrite Hm. }
  change (Condemned_holds (mkCondemned words (S cursor)) cursor) with (Condemned_holds c cursor).
  unfold mapping_at at 1 in Hskip.
  destruct (Condemned_holds c cursor) eqn:C; cbn [negb]; [|by apply Hskip].
  destruct (Table_at t cursor) as [s|] eqn:E; [|by apply Hskip].
  destruct (Z.eqb_spec (slot_mapped s) NOT_MAPPED) as [Hm|Hm]; cbn [negb]; [by apply Hskip|].
  exists 0%nat. cbn [cond_words cond_cursor]. split_and!; [done|lia|lia|done|].
  unfold mapping_at. rewrite Nat.add_0_r, C, E.
  by destruct (Z.eqb_spec (slot_mapped s) NOT_MAPPED).
Qed.

Lemma drain_mappings_spec fuel t c :
  (Table_capacity t - cond_cursor c < fuel)%nat →
  (drain_mappings fuel t c).1 = mappings_from t c (cond_cursor c) (Table_capacity t - cond_cursor c).
Proof.
  revert c. induction fuel as [|fuel IH]; intros [words cursor] Hf; [lia|].
  cbn [drain_mappings cond_cursor] in *.
  pose proof (next_mapping_from_spec t words (S (Table_capacity t)) cursor ltac:(lia)) as Hn.
  unfold Table_next_mapping. cbv zeta in Hn.
  destruct (next_mapping_from _ t _) as [[page|] [words' cursor']]; [|by rewrite Hn].
  destruct Hn as (k & Hw & Hc & Hle & Hq & Hp). cbn [cond_words cond_cursor] in Hw, Hc. subst.
  specialize (IH (mkCondemned words (cursor + S k)) ltac:(cbn [cond_cursor]; lia)).
  cbn [cond_cursor] in IH.
  destruct (drain_mappings fuel t _) as [pages c'']. cbn [fst] in *. subst pages.
  replace (Table_capacity t - cursor)%nat with (k + S (Table_capacity t - (cursor + S k)))%nat by lia.
  unfold mappings_from in *. rewrite seq_app, map_app, concat_app, Hq.
  cbn [seq map concat app].
  replace (mapping_at t (mkCondemned words cursor) (cursor + k)) with [page].
  cbn [app]. f_equal. by replace (cursor + S k)%nat with (S (cursor + k)) by lia.
Qed.

(** The loop that withdraws translations before a sweep sees the address of
    every condemned slot that is mapped, each once, in slot order, and stops. *)
Theorem drain_mappings_complete t h c :
  Table_condemn t h = Ok c →
  (drain_mappings (S (Table_capacity t)) t c).1 = mappings_from t c 0 (Table_capacity t).
Proof.
  intros [-> _]%condemn_inspect.
  assert (Hc : ∀ f d, cond_cursor d = 0%nat → cond_cursor (descendants_loop f t h d) = 0%nat).
  { assert (Hp : ∀ l d b, cond_cursor d = 0%nat → cond_cursor (pass_from t h l (d, b)).1 = 0%nat).
    { induction l as [|i l IH]; intros d b Hd; [done|]. cbn. destruct (descends t h d i); [|by apply IH].
      apply IH. unfold Condemned_mark. by case_match. }
    induction f as [|f IH]; intros d Hd; [done|]. cbn [descendants_loop].
    specialize (Hp (seq 0 (Table_capacity t)) d false Hd). unfold pass_from in Hp.
    unfold descendants_pass. destruct (foldl _ _ _) as [d' []]; [by apply IH|done]. }
  assert (H0 : cond_cursor (Table_descendants t h) = 0%nat) by by apply Hc.
  pose proof (drain_mappings_spec (S (Table_capacity t)) t (Table_descendants t h)) as Hd.
  rewrite H0, Nat.sub_0_r in Hd. apply Hd. lia.
Qed.

Definition mapped_ops : list TableOp :=
  example_ops ++ [OpNoteMapping (Handle_new 1 1) 8192; OpNoteMapping (Handle_new 2 1) 12288].

Lemma drain_mappings_complete_witness :
  (drain_mappings (S (Table_capacity (Table_run mapped_ops).2)) (Table_run mapped_ops).2
     (Table_descendants (Table_run mapped_ops).2 (Handle_new 0 1))).1 = [8192; 12288].
Proof.
  rewrite (drain_mappings_complete (Table_run mapped_ops).2 (Handle_new 0 1));
    vm_compute; reflexivity.
Defined.
