(* ===== verification/CapDerive.v ===== *)
(** * Deriving, growing and refunding: what a table is charged

    A table pays for its own pages and for every frame derived from an untyped
    capability out of the same watermark.  [slot_spent] is what such a payment
    does to the slot that pays; the theorems say where the frame handed out
    lies, what is left, and that a refund gives it back. *)

From S2P Require Import Prelude Abi Control CapTable CapTableFacts CapRevoke CapTrace CapTheorems.

Import error cap.

(** The slot paid, or did nothing: the cursor moved up inside the same region. *)
Record slot_spent (s s' : Slot) : Prop := {
  spent_kind : slot_kind s' = slot_kind s;
  spent_core : slot_core s' = slot_core s;
  spent_up : slot_object s ≤ slot_object s';
  spent_top : slot_object s' + slot_extent s' = slot_object s + slot_extent s;
  spent_untyped : Slot_cap_kind s ≠ Some Untyped → s' = s;
}.

Lemma slot_spent_refl s : slot_spent s s.
Proof. by split. Qed.

Lemma spent_cap_kind s s' : slot_spent s s' → Slot_cap_kind s' = Slot_cap_kind s.
Proof. intros H. unfold Slot_cap_kind. by rewrite (spent_kind _ _ H). Qed.

Lemma slot_spent_trans s1 s2 s3 : slot_spent s1 s2 → slot_spent s2 s3 → slot_spent s1 s3.
Proof.
  intros H1 H2. pose proof (spent_cap_kind _ _ H1) as Hk. destruct H1, H2. split; try (congruence || lia).
  intros Hn. rewrite spent_untyped1 by congruence. auto.
Qed.

Lemma carve_slot_spent s : Slot_cap_kind s = Some Untyped → slot_spent s (carve_slot s).
Proof.
  intros Hk. unfold carve_slot. destruct (watermark_carved _ _ _) as [[o e]|] eqn:W; [|apply slot_spent_refl].
  apply watermark_carved_Some in W as (-> & -> & _ & _). unfold FRAME_SIZE.
  split; simpl; try done; lia.
Qed.

Lemma grow_spends reach t i s :
  Table_wf t → reach_fresh reach t → Table_at t i = Some s →
  ∃ s', Table_at (Table_grow reach t).2 i = Some s' ∧ slot_spent s s'.
Proof.
  intros Ht Hf E. pose proof (Table_grow_spec reach t Ht) as Hg.
  destruct (Table_grow reach t) as [[[]|e] t']; simpl in *;
    [|destruct Hg as [_ ->]; eauto using slot_spent_refl].
  destruct Hg as (a & p & base & Hr & Ha & Ep & Hb & ->).
  assert (Hfr : base ∉ take (tbl_grown t) (tbl_pages t)) by by eapply Hf.
  rewrite Table_at_update by (apply Table_add_page_shape; [apply Ht|done|done]).
  rewrite Table_at_add_page_old by (apply Ht || done || by eapply Table_at_Some_lt).
  destruct (decide (a = i)) as [->|]; [|rewrite E; eauto using slot_spent_refl].
  rewrite E. eexists; split; [done|]. apply carve_slot_spent.
  apply Table_account_Some in Ha as (s' & E' & _ & K & _). congruence.
Qed.

(** Buying a page of slots: on success the table is one page longer, every
    slot of the page is empty at the floor generation, exactly one frame has
    left the account that paid, and nothing else moved; on refusal, which is
    always [exhausted], nothing moved at all. *)
Theorem grow_charges_one_frame reach t :
  Table_wf t → reach_fresh reach t →
  match Table_grow reach t with
  | (Ok _, t') =>
      Table_wf t' ∧ Table_capacity t' = (Table_capacity t + SLOTS_PER_PAGE)%nat ∧
      (∀ j, (Table_capacity t ≤ j < Table_capacity t')%nat →
            Table_at t' j = Some (Slot_fresh (tbl_floor t))) ∧
      ∃ a s, Table_at t a = Some s ∧ Slot_cap_kind s = Some Untyped ∧
        rights_holds (slot_rights s) rights_DERIVE = true ∧
        Table_at t' a = Some (Slot_set_watermark s (slot_object s + FRAME_SIZE)
                                                   (slot_extent s - FRAME_SIZE)) ∧
        ∀ j, (j < Table_capacity t)%nat → j ≠ a → Table_at t' j = Table_at t j
  | (Err e, t') => e = exhausted ∧ t' = t
  end.
Proof.
  intros Ht Hf. pose proof (Table_grow_spec reach t Ht) as Hg.
  pose proof (Table_grow_wf reach t Ht Hf) as Hw.
  destruct (Table_grow reach t) as [[[]|e] t']; [|done]. cbn [snd] in Hw.
  destruct Hg as (a & s & base & Hr & Ha & E & Hb & ->).
  assert (Hfr : base ∉ take (tbl_grown t) (tbl_pages t)) by by eapply Hf.
  assert (Hsh : Table_shape (Table_add_page t base)) by (by apply Table_add_page_shape; [apply Ht| |]).
  apply Table_account_Some in Ha as (s' & E' & _ & K & Hd & Hc & Hlt).
  rewrite E in E'. injection E' as <-.
  rewrite Table_update_capacity, Table_add_page_capacity. split_and!; [done|done| |].
  - intros j Hj. rewrite Table_at_update by done.
    rewrite (Table_at_add_page_new t base) by (apply Ht || done). by rewrite decide_False by lia.
  - exists a, s. split_and!; try done.
    + rewrite Table_at_update, decide_True by done.
      rewrite Table_at_add_page_old by (apply Ht || done). rewrite E; simpl. f_equal.
      unfold carve_slot. by apply watermark_carvable_carved in Hc as ->.
    + intros j Hj Hja. rewrite Table_at_update, decide_False by done.
      by apply Table_at_add_page_old; [apply Ht| | |].
Qed.

Definition example_backing : Z → option Z := λ phys, Some (phys + 2 ^ 46).

Lemma grow_charges_one_frame_witness :
  Table_capacity (Table_grow example_backing example_table).2 = 160%nat.
Proof.
  assert (Hf : reach_fresh example_backing example_table).
  { intros phys base _. vm_compute. by intros ?%elem_of_nil. }
  pose proof (grow_charges_one_frame example_backing example_table example_wf Hf) as H.
  destruct (Table_grow example_backing example_table) as [[[]|e] t'] eqn:G.
  - destruct H as (_ & Hc & _). cbn [snd]. rewrite Hc. vm_compute. reflexivity.
  - vm_compute in G. discriminate G.
Defined.

(** *** What retyping does to the slot that pays *)
Lemma retype_spends t h kind object extent t' :
  Table_wf t → Table_retype h t = (Ok (kind, object, extent), t') →
  Table_wf t' ∧
  ∃ s s' k, Table_at t (handle_at h) = Some s ∧ names h (handle_at h) s ∧
    Slot_cap_kind s = Some k ∧ object = slot_object s ∧
    Table_at t' (handle_at h) = Some s' ∧ slot_spent s s' ∧
    if decide (k = Untyped)
    then kind = Frame ∧ extent = FRAME_SIZE ∧ slot_object s' = object + FRAME_SIZE
    else kind = k ∧ extent = slot_extent s.
Proof.
  intros Ht Er. pose proof (Table_retype_spec t h Ht) as Hs.
  pose proof (moves_wf _ _ _ (retype_moves t h Ht) Ht) as Hw.
  rewrite Er in Hs, Hw. cbn [snd] in Hw. split; [done|].
  destruct Hs as (i & s & k & E & Hn & K & Ho & Hs).
  assert (i = handle_at h) as -> by apply Hn.
  destruct (decide (k = Untyped)) as [->|Hk].
  - destruct Hs as (-> & -> & ? & ? & ->).
    exists s, (Slot_set_watermark s (object + FRAME_SIZE) (slot_extent s - FRAME_SIZE)), Untyped.
    rewrite Table_at_set, !decide_True by (apply Ht || done || by eapply Table_at_Some_lt).
    split_and!; try done. unfold FRAME_SIZE in *. split; simpl; try done; lia.
  - destruct Hs as (-> & -> & ->). exists s, s, k. rewrite decide_False by done.
    by split_and!.
Qed.

(** The table as [derive] finds it once there is room. *)
Definition with_room (reach : Z → option Z) (t : Table) : res Z unit * Table :=
  match Table_vacancy t with None => Table_grow reach t | Some _ => (Ok tt, t) end.

Lemma with_room_spends reach t :
  Table_wf t → reach_fresh reach t →
  Table_wf (with_room reach t).2 ∧
  (∀ i s, Table_at t i = Some s → ∃ s', Table_at (with_room reach t).2 i = Some s' ∧ slot_spent s s') ∧
  (∀ e, (with_room reach t).1 = Err e → e = exhausted ∧ (with_room reach t).2 = t).
Proof.
  intros Ht Hf. unfold with_room. destruct (Table_vacancy t); simpl.
  - split_and!; [done|eauto using slot_spent_refl|done].
  - split_and!; [by apply Table_grow_wf|intros; by apply grow_spends|].
    intros e He. pose proof (Table_grow_spec reach t Ht) as Hg.
    destruct (Table_grow reach t) as [[[]|e'] t']; [done|]. simpl in *. naive_solver.
Qed.

Lemma prepare_room reach h t :
  derive_prepare reach h t =
  match with_room reach t with
  | (Ok _, t1) => Table_retype h t1
  | (Err e, t1) => (Err e, t1)
  end.
Proof. unfold derive_prepare, sm_bind. by destruct (with_room reach t) as [[[]|e] t1] eqn:E; unfold with_room in E; rewrite E. Qed.

(** What [derive] has done to its parent's slot when it reaches [place]. *)
Lemma prepare_spends reach h t s kind object extent t1 :
  Table_wf t → reach_fresh reach t → Table_at t (handle_at h) = Some s →
  derive_prepare reach h t = (Ok (kind, object, extent), t1) →
  ∃ s1 k, Slot_cap_kind s = Some k ∧ Table_at t1 (handle_at h) = Some s1 ∧ slot_spent s s1 ∧
    if decide (k = Untyped)
    then kind = Frame ∧ extent = FRAME_SIZE ∧ slot_object s ≤ object ∧
         slot_object s1 = object + FRAME_SIZE
    else kind = k ∧ object = slot_object s ∧ extent = slot_extent s.
Proof.
  intros Ht Hf E. rewrite prepare_room.
  destruct (with_room_spends reach t Ht Hf) as (Hw & Hsp & _).
  destruct (with_room reach t) as [[[]|e] t0]; [|done]. simpl in Hw, Hsp. intros Er.
  destruct (retype_spends _ _ _ _ _ _ Hw Er) as (Hw1 & s0 & s1 & k & E0 & Hn & K & -> & E1 & Hs & Hk).
  destruct (Hsp _ _ E) as (s0' & E0' & Hs0). rewrite E0 in E0'. injection E0' as <-.
  exists s1, k. split_and!; [by rewrite <- (spent_cap_kind _ _ Hs0)|done|by eapply slot_spent_trans|].
  destruct (decide (k = Untyped)) as [->|Hu].
  - destruct Hk as (-> & -> & ->). split_and!; try done. apply Hs0.
  - destruct Hk as (-> & ->). rewrite (spent_untyped _ _ Hs0); [done|].
    rewrite <- (spent_cap_kind _ _ Hs0), K. congruence.
Qed.

(** Where the child lies, against the region [p] its parent named before and the
    one [p'] it names after. *)
Definition derived_extent (p p' child : Found) : Prop :=
  if decide (found_kind p = Untyped)
  then found_kind child = Frame ∧ found_extent child = FRAME_SIZE ∧
       found_object p ≤ found_object child ∧
       found_object p' = found_object child + FRAME_SIZE ∧
       found_object p' + found_extent p' = found_object p + found_extent p
  else found_kind child = found_kind p ∧ found_object child = found_object p ∧
       found_extent child = found_extent p ∧ p' = p.

Lemma keeps_named_resolve t t' g i :
  keeps_named t t' → Table_resolve t g = Ok i → Table_resolve t' g = Ok i.
Proof.
  intros Hk (s & E & Hn)%Table_resolve_Ok. apply Table_resolve_Ok.
  destruct (Hk _ _ E) as (s' & E' & C). exists s'. split; [done|by eapply slot_core_names].
Qed.

(** Placing over the room [derive_prepare] left. *)
Lemma place_child t h asked kind object extent :
  Table_wf t → is_uint 32 (Handle_bits h) → (∃ s, Table_at t (handle_at h) = Some s ∧ names h (handle_at h) s) →
  match Table_place kind asked object extent h t with
  | (Ok g, t') =>
      Table_inspect t' g = Ok (mkFound kind asked object extent) ∧
      descendant t' h (handle_at g) ∧ is_ok (Table_resolve t g) = false ∧
      (∀ j s, Table_at t j = Some s → Slot_occupied s = true → Table_at t' j = Some s)
  | (Err e, t') => e = exhausted ∧ t' = t
  end.
Proof.
  intros Ht Hb (sp & Ep & Hn). pose proof (Table_place_spec kind asked object extent h t Ht) as Hs.
  destruct (Table_place kind asked object extent h t) as [[g|e] t']; [|tauto].
  destruct Hs as (i & s & E & Hfree & _ & Hg & -> & ->).
  pose proof (twf_slots _ Ht _ _ E) as Hw.
  set (s' := placed_slot s kind asked object extent h (tbl_posts_notices t)).
  destruct (placed_slot_fields s kind asked object extent h (tbl_posts_notices t))
    as (Fg & Fr & Fo & Fe & Fp & _). fold s' in Fg, Fr, Fo, Fe, Fp.
  pose proof (handle_of_at t i s Ht E) as Hat. fold (handle_of i s) in *.
  pose proof (Table_at_Some_lt _ _ _ E) as Hlt.
  assert (Ei : Table_at (Table_set t i s') i = Some s').
  { by rewrite Table_at_set, decide_True by (apply Ht || done). }
  assert (Ho : Slot_occupied s' = true) by by apply placed_slot_occupied.
  split_and!.
  - apply Table_inspect_Ok. exists i, s', kind. split_and!; [done| |by apply placed_slot_cap_kind|].
    + pose proof (index_is_u16 _ _ _ (twf_shape _ Ht) E). destruct (swf_generation _ Hw).
      unfold names, handle_of, Handle_is_issuable.
      rewrite Handle_new_index, Handle_new_generation, Nat2Z.id, Fg by done.
      split_and!; try done. apply negb_true_iff. lia.
    + unfold found_of. by rewrite Fr, Fo, Fe.
  - rewrite Hat. apply (descendant_child _ _ _ s'); [done|done| |]; rewrite Fp; destruct h; [apply Hn|done].
  - destruct (Table_resolve t (handle_of i s)) as [j|] eqn:R; [|done].
    apply Table_resolve_Ok in R as (sj & Ej & Hnj & _ & _ & Hoj). fold (handle_at (handle_of i s)) in Hnj.
    rewrite Hat in Hnj. congruence.
  - intros j sj Ej Hoj. rewrite Table_at_set by (apply Ht || done).
    rewrite decide_False by (intros <-; congruence). done.
Qed.

(** What every outcome of [derive] that got past its checks has in common. *)
Lemma derive_keeps reach h t :
  Table_wf t → reach_fresh reach t →
  Table_wf (derive_prepare reach h t).2 ∧ keeps_named t (derive_prepare reach h t).2 ∧
  ∀ e, (derive_prepare reach h t).1 = Err e →
       is_ok (Table_resolve t h) = true → e = exhausted.
Proof.
  intros Ht Hf. destruct (derive_prepare_moves reach h t Ht Hf) as (_ & Hk & Hw).
  split_and!; [done|done|]. intros e. rewrite prepare_room.
  destruct (with_room_spends reach t Ht Hf) as (Hw0 & Hsp & He).
  assert (Hk0 : keeps_named t (with_room reach t).2).
  { intros i s E. destruct (Hsp _ _ E) as (s' & ? & Hs). exists s'. split; [done|apply Hs]. }
  destruct (with_room reach t) as [[[]|e0] t0]; [|cbn [fst]; intros [= <-] _; by apply He].
  simpl in *. pose proof (Table_retype_spec t0 h Hw0) as Hr.
  destruct (Table_retype h t0) as [[[[k o] x]|e1] t1]; [done|]. intros [= ->].
  destruct Hr as [_ [Hr|[-> _]]]; [|done]. destruct (Table_resolve t h) as [i|] eqn:R; [|done].
  by rewrite (keeps_named_resolve _ _ _ _ Hk0 R) in Hr.
Qed.

Lemma derive_unchecked reach h asked t p :
  rights_unknown asked = false → Table_invoke_any t h rights_DERIVE = Ok p →
  rights_narrows (found_rights p) asked = true →
  Table_derive reach h asked t =
  match derive_prepare reach h t with
  | (Ok (kind, object, extent), t1) => Table_place kind asked object extent h t1
  | (Err e, t1) => (Err e, t1)
  end.
Proof.
  intros Hu Hi Hn. rewrite Table_derive_unfold, Hu, Hi, Hn. rsimpl. unfold sm_bind.
  by destruct (derive_prepare reach h t) as [[[[k o] x]|e] t1].
Qed.

(** C3 What [derive] answers, on every branch. A child is a fresh handle with
    exactly the rights asked for, all of them its parent's; it names its parent's
    object, or, under an untyped parent, a frame cut from the parent's region and
    disjoint from what the parent names afterwards. A refusal says which check
    failed. Nothing that resolved before stops resolving. *)
Theorem derive_spec reach t h asked :
  Table_wf t → reach_fresh reach t → is_uint 32 (Handle_bits h) → is_uint 8 asked →
  match Table_derive reach h asked t with
  | (Ok g, t') =>
      ∃ p p' child, Table_inspect t h = Ok p ∧ rights_unknown asked = false ∧
        rights_holds (found_rights p) rights_DERIVE = true ∧
        rights_narrows (found_rights p) asked = true ∧
        Table_inspect t' h = Ok p' ∧ Table_inspect t' g = Ok child ∧
        found_rights child = asked ∧ found_rights p' = found_rights p ∧
        derived_extent p p' child ∧ descendant t' h (handle_at g) ∧
        is_ok (Table_resolve t g) = false ∧
        ∀ k i, Table_resolve t k = Ok i → Table_resolve t' k = Ok i
  | (Err e, t') =>
      (e = unknown_flag ∧ rights_unknown asked = true ∧ t' = t) ∨
      (Table_inspect t h = Err e ∧ t' = t) ∨
      (e = right_not_held ∧ t' = t ∧ ∃ p, Table_inspect t h = Ok p ∧
         (rights_holds (found_rights p) rights_DERIVE = false ∨
          rights_narrows (found_rights p) asked = false)) ∨
      (e = exhausted ∧ ∀ k i, Table_resolve t k = Ok i → Table_resolve t' k = Ok i)
  end.
Proof.
  intros Ht Hf Hh Ha.
  destruct (rights_unknown asked) eqn:U; [rewrite Table_derive_unfold, U; auto|].
  destruct (Table_invoke_any t h rights_DERIVE) as [p|e] eqn:I.
  2:{ rewrite Table_derive_unfold, U, I. right. unfold Table_invoke_any in I.
      destruct (Table_inspect t h) as [p|]; [|by injection I as ->; left].
      right; left. rsimpl. revert I. rsimpl. destruct (rights_holds (found_rights p) _) eqn:Rh; rsimpl;
        intros [= <-]. eauto 10. }
  pose proof I as [Hp Hd]%Table_invoke_any_Ok.
  destruct (rights_narrows (found_rights p) asked) eqn:N.
  2:{ rewrite Table_derive_unfold, U, I, N. right; right; left. eauto 10. }
  rewrite (derive_unchecked _ _ _ _ p) by done.
  destruct (inspect_slot _ _ _ Hp) as (s & k & E & Hn & K & Ep).
  destruct (derive_keeps reach h t Ht Hf) as (Hw1 & Hk1 & He1).
  destruct (derive_prepare reach h t) as [[[[kind object] extent]|e] t1] eqn:P; cbn [fst snd] in *.
  2:{ right; right; right. split; [|intros; by eapply keeps_named_resolve].
      apply He1; [done|]. by rewrite (proj2 (Table_resolve_Ok t h _) (ex_intro _ s (conj E Hn))). }
  destruct (prepare_spends _ _ _ _ _ _ _ _ Ht Hf E P) as (s1 & k1 & K1 & E1 & Hs1 & Hx).
  rewrite K in K1. injection K1 as <-.
  assert (Hn1 : names h (handle_at h) s1) by (by eapply slot_core_names; [apply Hs1|]).
  pose proof (place_child t1 h asked kind object extent Hw1 Hh ltac:(eauto)) as Hc.
  destruct (Table_place kind asked object extent h t1) as [[g|e] t'].
  - destruct Hc as (Hi & Hde & Hfresh & Hkeep).
    exists p, (found_of s1 k), (mkFound kind asked object extent).
    split_and!; try done.
    + apply Table_inspect_Ok. exists (handle_at h), s1, k. split_and!; [|done| |done].
      * apply Hkeep; [done|apply Hn1].
      * by rewrite (spent_cap_kind _ _ Hs1).
    + subst p. pose proof (core_fields _ _ (spent_core _ _ Hs1)) as (_ & _ & _ & Hr). exact Hr.
    + subst p. unfold derived_extent, found_of. cbn [found_kind found_object found_extent].
      destruct (decide (k = Untyped)) as [->|Hu].
      * destruct Hx as (-> & -> & ? & ?). split_and!; try done. apply Hs1.
      * destruct Hx as (-> & -> & ->). rewrite (spent_untyped _ _ Hs1); [done|]. rewrite K. congruence.
    + destruct (Table_resolve t g) as [i|] eqn:R; [|done].
      by rewrite (keeps_named_resolve _ _ _ _ Hk1 R) in Hfresh.
    + intros q i R. pose proof (keeps_named_resolve _ _ _ _ Hk1 R) as R1.
      apply Table_resolve_Ok in R1 as (sq & Eq & Hq). apply Table_resolve_Ok. exists sq.
      split; [|done]. apply Hkeep; [done|apply Hq].
  - destruct Hc as [-> ->]. right; right; right. split; [done|]. intros; by eapply keeps_named_resolve.
Qed.

Lemma no_backing_fresh t : reach_fresh no_backing t.
Proof. by intros ? ? [=]. Qed.

Lemma derive_spec_witness :
  ∃ g t', Table_derive no_backing (Handle_new 3 1) rights_READ example_table = (Ok g, t') ∧
    Table_inspect t' g = Ok (mkFound Frame rights_READ 65536 4096).
Proof.
  pose proof (derive_spec no_backing example_table (Handle_new 3 1) rights_READ example_wf
    (no_backing_fresh _) ltac:(vm_compute; split; [discriminate|reflexivity])
    ltac:(vm_compute; split; [discriminate|reflexivity])) as H.
  destruct (Table_derive no_backing (Handle_new 3 1) rights_READ example_table) as [[g|e] t'] eqn:D.
  - exists g, t'. split; [done|].
    destruct H as (p & p' & child & Hp & _ & _ & _ & _ & Hi & Hr & _ & Hx & _).
    vm_compute in Hp. injection Hp as <-. vm_compute in D. injection D as <- <-.
    vm_compute. reflexivity.
  - vm_compute in D. discriminate D.
Defined.

(** *** Refunding *)
Lemma Table_refund_Ok t h bytes floor t' :
  Table_refund h bytes floor t = (Ok tt, t') ↔
  ∃ s o e, Table_at t (handle_at h) = Some s ∧ names h (handle_at h) s ∧
    Slot_cap_kind s = Some Untyped ∧
    watermark_refunded (slot_object s) (slot_extent s) bytes floor = Some (o, e) ∧
    t' = Table_set t (handle_at h) (Slot_set_watermark s o e).
Proof.
  unfold Table_refund. split.
  - destruct (Table_resolve t h) as [i|] eqn:R; [|done].
    apply Table_resolve_Ok in R as (s & E & Hn). rewrite E.
    assert (i = handle_at h) as -> by apply Hn.
    destruct (bool_decide (Slot_cap_kind s = Some Untyped)) eqn:K; [|done]. cbn [negb].
    apply bool_decide_eq_true in K.
    destruct (watermark_refunded _ _ _ _) as [[o e]|] eqn:W; [|done].
    intros [= <-]. by exists s, o, e.
  - intros (s & o & e & E & Hn & K & W & ->).
    assert (Table_resolve t h = Ok (handle_at h)) as -> by (apply Table_resolve_Ok; eauto).
    by rewrite E, bool_decide_eq_true_2, W.
Qed.

Lemma Table_set_set_at t i s1 s2 j :
  Table_shape t → (i < Table_capacity t)%nat →
  Table_at (Table_set (Table_set t i s1) i s2) j = Table_at (Table_set t i s2) j.
Proof.
  intros Ht Hi. rewrite (Table_at_set (Table_set t i s1)) by
    (by apply Table_set_shape || by rewrite Table_set_capacity).
  rewrite !Table_at_set by done. by case_decide.
Qed.

(** A refund gives back exactly what a carve took: after a frame has been cut
    from an untyped capability, refunding the frame restores every slot of the
    table, provided the floor given is not above the frame's address. *)
Theorem refund_undoes_retype t h object t1 floor :
  Table_wf t → Table_retype h t = (Ok (Frame, object, FRAME_SIZE), t1) →
  (∃ p, Table_inspect t h = Ok p ∧ found_kind p = Untyped) → 0 ≤ floor ≤ object →
  ∃ t2, Table_refund h FRAME_SIZE floor t1 = (Ok tt, t2) ∧ ∀ j, Table_at t2 j = Table_at t j.
Proof.
  intros Ht Er (p & (s & k & E & Hn & K & ->)%inspect_slot & Hk) Hfl. simpl in Hk. subst k.
  pose proof (Table_retype_spec t h Ht) as Hs. rewrite Er in Hs.
  destruct Hs as (i & s' & k' & E' & Hn' & K' & -> & Hs).
  assert (i = handle_at h) as -> by apply Hn'. rewrite E in E'. injection E' as <-.
  rewrite K in K'. injection K' as <-. rewrite decide_True in Hs by done.
  destruct Hs as (_ & _ & Hx & Ho & ->).
  pose proof (Table_at_Some_lt _ _ _ E) as Hlt. pose proof (twf_slots _ Ht _ _ E) as Hw.
  set (s1 := Slot_set_watermark s (slot_object s + FRAME_SIZE) (slot_extent s - FRAME_SIZE)) in *.
  exists (Table_set (Table_set t (handle_at h) s1) (handle_at h)
            (Slot_set_watermark s1 (slot_object s) (slot_extent s))). split.
  - apply Table_refund_Ok. exists s1, (slot_object s), (slot_extent s).
    split_and!; [by rewrite Table_at_set, decide_True by (apply Ht || done)|exact Hn|exact K| |done].
    apply watermark_refunded_Some. destruct (swf_extent _ Hw). unfold s1; simpl.
    unfold u64_max, FRAME_SIZE in *. lia.
  - intros j. rewrite Table_set_set_at by (apply Ht || done).
    rewrite Table_at_set by (apply Ht || done). destruct (decide _) as [<-|]; [|done].
    rewrite E. by destruct s.
Qed.

Lemma refund_undoes_retype_witness :
  ∃ t2, Table_refund (Handle_new 3 1) FRAME_SIZE 65536
          (Table_retype (Handle_new 3 1) example_table).2 = (Ok tt, t2).
Proof.
  destruct (refund_undoes_retype example_table (Handle_new 3 1) 65536
    (Table_retype (Handle_new 3 1) example_table).2 65536 example_wf
    ltac:(vm_compute; reflexivity)) as (t2 & E & _).
  - exists (mkFound Untyped rights_ALL 65536 12288). vm_compute. split; reflexivity.
  - lia.
  - exists t2. exact E.
Defined.

(** * The notices a table owes, and the order they are delivered in

    [Table::owes] counts what the frame still has to tell a component;
    [next_notice] ([kernel/src/component.rs]) takes them out one at a time.
    The specification is the whole list owed ([owed_notices]): slots ascending,
    each slot's own queue in order, then the stop, then the two grades. *)

Import error cap pending_spec.

Definition next_notice (t : Table) (control : Handle) : option Cqe * Table :=
  match Table_next_slot_notice t 0 with
  | (Some entry, t1) => (Some entry, t1)
  | (None, t1) =>
      match Table_next_stop_notice t1 control 0 with
      | (Some entry, t2) => (Some entry, t2)
      | (None, t2) => Table_next_grade_notice t2 0
      end
  end.

(** ** The specification *)
Definition slot_entry (i : nat) (s : Slot) (kind : Z) : Cqe :=
  control_entry kind (Handle_bits (handle_of i s)) 0 0.

Definition slot_entries (t : Table) (i : nat) : list Cqe :=
  match Table_at t i with
  | Some s => map (slot_entry i s) (pending_queue (Slot_notice s))
  | None => []
  end.

Definition slots_owed (t : Table) (l : list nat) : list Cqe := concat (map (slot_entries t) l).

Definition words_owed (t : Table) (control : Handle) : list Cqe :=
  (if promise_owed (tbl_stop t)
   then [control_entry notice_STOP (Handle_bits control) (promise_deadline (tbl_stop t)) 0] else []) ++
  (if grade_owed (tbl_pressure t)
   then [control_entry notice_PRESSURE 0 (grade_value (tbl_pressure t)) 0] else []) ++
  (if grade_owed (tbl_generation t)
   then [control_entry notice_GENERATION 0 (grade_value (tbl_generation t)) 0] else []).

Definition owed_notices (t : Table) (control : Handle) : list Cqe :=
  slots_owed t (seq 0 (Table_capacity t)) ++ words_owed t control.

(** ** One notice *)
Lemma slots_owed_app t l1 l2 : slots_owed t (l1 ++ l2) = slots_owed t l1 ++ slots_owed t l2.
Proof. unfold slots_owed. by rewrite map_app, concat_app. Qed.

Lemma slots_owed_cons t i l : slots_owed t (i :: l) = slot_entries t i ++ slots_owed t l.
Proof. done. Qed.

Lemma slots_owed_nil t l : (∀ j, j ∈ l → slot_entries t j = []) → slots_owed t l = [].
Proof.
  induction l as [|i l IH]; intros H; [done|]. rewrite slots_owed_cons.
  rewrite (H i) by left. apply IH. intros j Hj. apply H. by right.
Qed.

Lemma slots_owed_ext t t' l :
  (∀ j, j ∈ l → slot_entries t' j = slot_entries t j) → slots_owed t' l = slots_owed t l.
Proof. intros H. unfold slots_owed. f_equal. apply map_ext_in. intros j ?%list_elem_of_In. auto. Qed.

Lemma next_slot_notice_in_spec l t :
  Table_wf t → (∀ i, i ∈ l → (i < Table_capacity t)%nat) →
  match next_slot_notice_in l t 0 with
  | (None, t') => t' = t ∧ ∀ j, j ∈ l → slot_entries t j = []
  | (Some e, t') =>
      ∃ l1 i l2 s k q, l = l1 ++ i :: l2 ∧ (∀ j, j ∈ l1 → slot_entries t j = []) ∧
        Table_at t i = Some s ∧ Pending_drain (Slot_notice s) = (Some k, q) ∧
        e = slot_entry i s k ∧ t' = Table_set t i (Slot_set_notice s q)
  end.
Proof.
  intros Ht. induction l as [|i l IH]; intros Hl; simpl.
  { split; [done|]. by intros j ?%elem_of_nil. }
  destruct (Table_at_in_range t i (twf_shape _ Ht)) as [s E]; [apply Hl; left|]. rewrite E.
  pose proof (pending_queue_drain (Slot_notice s)) as Hq.
  destruct (Pending_drain (Slot_notice s)) as [[k|] q] eqn:D.
  - exists [], i, l, s, k, q. split_and!; try done. by intros j ?%elem_of_nil.
  - assert (Hi : slot_entries t i = []).
    { unfold slot_entries. rewrite E. destruct (pending_queue (Slot_notice s)) as [|n r]; [done|].
      by destruct Hq as (p' & ? & _). }
    specialize (IH (λ j Hj, Hl j (list_elem_of_further _ _ _ Hj))).
    destruct (next_slot_notice_in l t 0) as [[e|] t'].
    + destruct IH as (l1 & i' & l2 & s' & k' & q' & -> & Hl1 & IH).
      exists (i :: l1), i', l2, s', k', q'. split; [done|]. split; [|exact IH].
      intros j [->|?]%elem_of_cons; auto.
    + destruct IH as [-> IH]. split; [done|]. intros j [->|?]%elem_of_cons; auto.
Qed.

(** Taking a slot's oldest notice leaves the rest of its queue, and touches no
    other slot's. *)
Lemma slot_entries_drained t i s k q :
  Table_wf t → Table_at t i = Some s → Pending_drain (Slot_notice s) = (Some k, q) →
  let t' := Table_set t i (Slot_set_notice s q) in
  slot_entries t i = slot_entry i s k :: slot_entries t' i ∧
  ∀ j, j ≠ i → slot_entries t' j = slot_entries t j.
Proof.
  intros Ht E D t'. pose proof (Table_at_Some_lt _ _ _ E) as Hlt. split.
  - unfold slot_entries, t'. rewrite Table_at_set, decide_True, E by (apply Ht || done).
    rewrite Slot_set_notice_notice by (by eapply (twf_slots _ Ht)).
    pose proof (pending_queue_drain (Slot_notice s)) as Hq. rewrite D in Hq.
    destruct (pending_queue (Slot_notice s)) as [|n r]; [done|].
    destruct Hq as (p' & [= <- <-] & <-). done.
  - intros j Hj. unfold slot_entries, t'.
    by rewrite Table_at_set, decide_False by (apply Ht || done).
Qed.

Lemma Table_set_words t i s :
  tbl_stop (Table_set t i s) = tbl_stop t ∧ tbl_pressure (Table_set t i s) = tbl_pressure t ∧
  tbl_generation (Table_set t i s) = tbl_generation t.
Proof. unfold Table_set. by repeat case_match. Qed.

Lemma words_owed_set t i s control : words_owed (Table_set t i s) control = words_owed t control.
Proof. unfold words_owed. by destruct (Table_set_words t i s) as (-> & -> & ->). Qed.

Lemma slots_owed_words t stop pressure generation l :
  slots_owed (Table_with_words t stop pressure generation) l = slots_owed t l.
Proof. done. Qed.

Lemma next_words_spec t control :
  match words_owed t control with
  | [] => match Table_next_stop_notice t control 0 with
          | (Some _, _) => False
          | (None, t2) => Table_next_grade_notice t2 0 = (None, t)
          end
  | e :: rest =>
      ∃ t', match Table_next_stop_notice t control 0 with
            | (Some entry, t2) => (Some entry, t2)
            | (None, t2) => Table_next_grade_notice t2 0
            end = (Some e, t') ∧ same_slots t t' ∧ words_owed t' control = rest
  end.
Proof.
  destruct t as [sl pg gr fl po [sd so] [pv pw] [gv gw] mem].
  unfold words_owed, Table_next_stop_notice, Table_next_grade_notice, Promise_drain, Grade_drain,
    Table_with_words, same_slots; cbn.
  destruct so, pw, gw; cbn; eauto 10.
Qed.

Lemma next_notice_pops t control :
  Table_wf t →
  match owed_notices t control with
  | [] => next_notice t control = (None, t)
  | e :: rest => ∃ t', next_notice t control = (Some e, t') ∧ Table_wf t' ∧
                       Table_capacity t' = Table_capacity t ∧ owed_notices t' control = rest
  end.
Proof.
  intros Ht. unfold next_notice, owed_notices, Table_next_slot_notice.
  set (l := seq 0 (Table_capacity t)).
  pose proof (next_slot_notice_in_spec l t Ht (λ i Hi, proj1 (seq_elem _ i) Hi)) as Hs.
  destruct (next_slot_notice_in l t 0) as [[e|] t1] eqn:N.
  - destruct Hs as (l1 & i & l2 & s & k & q & El & Hl1 & E & D & -> & ->).
    pose proof (slot_entries_drained _ _ _ _ _ Ht E D) as [Hi Hj].
    assert (Hnd : NoDup (l1 ++ i :: l2)) by (rewrite <- El; apply NoDup_seq).
    apply list.NoDup_app in Hnd as (_ & Hd & [Hi2 _]%list.NoDup_cons).
    rewrite El, slots_owed_app, slots_owed_cons, (slots_owed_nil t l1 Hl1), Hi, app_nil_l,
      <- !app_comm_cons.
    eexists. split; [done|].
    split_and!; [|apply Table_set_capacity|].
    + apply Table_set_wf; [done|by eapply Table_at_Some_lt|].
      by eapply Slot_wf_set_notice, (twf_slots _ Ht).
    + rewrite Table_set_capacity, words_owed_set. fold l. rewrite El.
      rewrite slots_owed_app, slots_owed_cons, (slots_owed_ext t _ l1), (slots_owed_nil t l1 Hl1),
        (slots_owed_ext t _ l2); [by rewrite app_nil_l|set_solver..].
  - destruct Hs as [-> Hq]. rewrite (slots_owed_nil t l Hq), app_nil_l.
    pose proof (next_words_spec t control) as Hw. destruct (words_owed t control) as [|e rest].
    + destruct (Table_next_stop_notice t control 0) as [[]]; [done|exact Hw].
    + destruct Hw as (t' & -> & Hsame & Hr). exists t'. split; [done|].
      assert (Hc : Table_capacity t' = Table_capacity t).
      { unfold Table_capacity. by destruct Hsame as (_ & _ & -> & _). }
      split_and!; [by eapply same_slots_wf|done|]. rewrite Hc, Hr. fold l.
      rewrite (slots_owed_ext t t' l), (slots_owed_nil t l Hq); [done|].
      intros j _. unfold slot_entries. by rewrite (same_slots_at t).
Qed.

(** ** All of them *)

(** The component's loop, for as many turns as it is given. *)
Fixpoint drain_notices (fuel : nat) (t : Table) (control : Handle) : list Cqe * Table :=
  match fuel with
  | O => ([], t)
  | S fuel =>
      match next_notice t control with
      | (Some e, t') => let '(es, t'') := drain_notices fuel t' control in (e :: es, t'')
      | (None, t') => ([], t')
      end
  end.

Lemma slot_owed_length t i : slot_owed t i = Z.of_nat (length (slot_entries t i)).
Proof.
  unfold slot_owed, slot_entries. destruct (Table_at t i); [|done].
  by rewrite length_map, pending_owed_length.
Qed.

Lemma foldl_owed t l z :
  foldl (λ owed index, owed + slot_owed t index) z l = z + Z.of_nat (length (slots_owed t l)).
Proof.
  revert z. induction l as [|i l IH]; intros z; [cbn; lia|].
  cbn [foldl]. rewrite IH, slots_owed_cons, length_app, slot_owed_length. lia.
Qed.

Lemma Table_owes_length t control : Table_owes t = Z.of_nat (length (owed_notices t control)).
Proof.
  unfold Table_owes. rewrite foldl_owed. unfold owed_notices, words_owed.
  unfold Promise_is_owed, Grade_is_owed. rewrite !length_app.
  destruct (promise_owed _), (grade_owed (tbl_pressure t)), (grade_owed (tbl_generation t));
    cbn [length Z.b2z]; lia.
Qed.

Lemma drain_notices_all fuel t control :
  Table_wf t → (length (owed_notices t control) < fuel)%nat →
  ∃ t', drain_notices fuel t control = (owed_notices t control, t') ∧ owed_notices t' control = [].
Proof.
  revert t. induction fuel as [|fuel IH]; intros t Ht Hf; [lia|]. cbn [drain_notices].
  pose proof (next_notice_pops t control Ht) as Hp.
  destruct (owed_notices t control) as [|e rest] eqn:O.
  - rewrite Hp. by exists t.
  - destruct Hp as (t1 & -> & Hw & _ & O1). cbn [length] in Hf.
    destruct (IH t1 Hw) as (t' & -> & O'); [rewrite O1; lia|]. exists t'. by rewrite O1.
Qed.

Lemma owed_is_notice t control e : e ∈ owed_notices t control → is_notice e = true.
Proof.
  unfold owed_notices, words_owed, slots_owed. rewrite elem_of_app.
  intros [H|H]; [|repeat case_match; set_solver].
  apply list_elem_of_In, in_concat in H as (es & (i & <- & _)%in_map_iff & He).
  unfold slot_entries in He. case_match; [|done]. by apply in_map_iff in He as (k & <- & _).
Qed.

(** Draining delivers every notice a table owes, once each and in order (slots
    ascending, each slot's grant before its peer's death, then the stop, then
    the two grades), in exactly as many turns as [owes] counts; afterwards it
    owes none. *)
Theorem drain_delivers t control fuel :
  Table_wf t → Table_owes t < Z.of_nat fuel →
  ∃ t', drain_notices fuel t control = (owed_notices t control, t') ∧
        Z.of_nat (length (owed_notices t control)) = Table_owes t ∧
        Table_owes t' = 0 ∧ ∀ e, e ∈ owed_notices t control → is_notice e = true.
Proof.
  intros Ht Hf. rewrite (Table_owes_length t control) in Hf.
  destruct (drain_notices_all fuel t control Ht) as (t' & E & O); [lia|].
  exists t'. split_and!; [done|by rewrite (Table_owes_length t control)| |apply owed_is_notice].
  by rewrite (Table_owes_length t' control), O.
Qed.

Definition notice_ops : list TableOp :=
  [OpOwesNotices; OpGrant Frame rights_ALL 4096 4096; OpDerive (Handle_new 0 1) rights_ALL;
   OpNotePeerGone (Handle_new 1 1); OpStopBy 99; OpPressureIs 2].

Lemma drain_delivers_witness :
  (drain_notices 8 (Table_run notice_ops).2 (Handle_new 0 1)).1 =
  owed_notices (Table_run notice_ops).2 (Handle_new 0 1) ∧
  Table_owes (Table_run notice_ops).2 = 5.
Proof.
  split; [|vm_compute; reflexivity].
  destruct (drain_delivers (Table_run notice_ops).2 (Handle_new 0 1) 8) as (t' & E & _).
  - apply (reachable_inv _ _ (Table_run_reachable notice_ops ltac:(vm_compute; reflexivity))).
  - vm_compute. reflexivity.
  - rewrite E. reflexivity.
Defined.
