(* ===== verification/Ring.v ===== *)
(** * Submission and completion rings: [ring/src/lib.rs]

    A channel is memory two parties share: a head cursor the producer advances,
    a tail cursor the consumer advances, an index array and an entry array.
    Every method is a function on that memory, one load or store after another
    as in the code.  A slice index out of range is a panic in Rust and [None]
    here, so that "never panics" is something to prove and not something the
    model assumes. *)

From S2P Require Import Prelude Abi Control.
Import error.

(** ** The wire entries: [abi/src/lib.rs] *)
Record Sqe : Type := mkSqe {
  sqe_opcode : Z;
  sqe_flags : Z;
  sqe_class : Z;
  sqe_cap : Z;
  sqe_user_data : Z;
  sqe_deadline : Z;
  sqe_offset : Z;
  sqe_buf_set : Z;
  sqe_buf_index : Z;
  sqe_len : Z;
  sqe_reserved : Z;
  sqe_ext : Z * Z;
}.

Definition op_NOP : Z := 0.
Definition op_WRITE_SERIAL : Z := 1.
Definition op_known (opcode : Z) : bool := (opcode =? op_NOP) || (opcode =? op_WRITE_SERIAL).

Definition flags_LINK : Z := Z.shiftl 1 0.
Definition flags_DRAIN : Z := Z.shiftl 1 1.
Definition flags_FIXED_BUF : Z := Z.shiftl 1 2.
Definition flags_NO_CQE : Z := Z.shiftl 1 3.
Definition flags_KNOWN : Z :=
  Z.lor flags_LINK (Z.lor flags_DRAIN (Z.lor flags_FIXED_BUF flags_NO_CQE)).

Definition NEED_WAKEUP : Z := Z.shiftl 1 0.

(** ** The submission ring *)
Inductive RingError : Type := Full | Corrupt | EpochChanged.

#[export] Instance RingError_eq_dec : EqDecision RingError.
Proof. solve_decision. Defined.

Record Chan : Type := mkChan {
  ch_head : Z;
  ch_tail : Z;
  ch_flags : Z;
  ch_index : list Z;
  ch_entries : list Sqe;
}.

Definition is_power_of_two (n : Z) : bool := (0 <? n) && (2 ^ Z.log2 n =? n).

Definition Channel_mask (m : Chan) : option Z :=
  let len := Z.of_nat (length (ch_entries m)) in
  if u32_max <? len then None
  else if (len =? 0) || negb (is_power_of_two len) then None
  else if negb (length (ch_index m) =? length (ch_entries m))%nat then None
  else Some (len - 1).

Definition set_head (m : Chan) (v : Z) : Chan :=
  mkChan v (ch_tail m) (ch_flags m) (ch_index m) (ch_entries m).
Definition set_tail (m : Chan) (v : Z) : Chan :=
  mkChan (ch_head m) v (ch_flags m) (ch_index m) (ch_entries m).
Definition set_flags (m : Chan) (v : Z) : Chan :=
  mkChan (ch_head m) (ch_tail m) v (ch_index m) (ch_entries m).
Definition write_entry (m : Chan) (slot : nat) (e : Sqe) : Chan :=
  mkChan (ch_head m) (ch_tail m) (ch_flags m) (ch_index m) (<[slot := e]> (ch_entries m)).
Definition write_index (m : Chan) (slot : nat) (v : Z) : Chan :=
  mkChan (ch_head m) (ch_tail m) (ch_flags m) (<[slot := v]> (ch_index m)) (ch_entries m).

Definition slot_of (mask at_ : Z) : nat := Z.to_nat (Z.land at_ mask).

(** *** [Producer] *)
Definition Producer_occupancy (mask : Z) (m : Chan) : res RingError Z :=
  let used := wrapping_sub 32 (ch_head m) (ch_tail m) in
  if mask + 1 <? used then Err Corrupt else Ok used.

Definition Producer_stage (mask : Z) (at_ : Z) (entry : Sqe) (m : Chan) : option Chan :=
  let slot := slot_of mask at_ in
  if (slot <? length (ch_entries m))%nat && (slot <? length (ch_index m))%nat
  then Some (write_index (write_entry m slot entry) slot (Z.of_nat slot))
  else None.

Definition doorbell_wanted (m : Chan) : bool := negb (Z.land (ch_flags m) NEED_WAKEUP =? 0).

Definition Producer_submit (mask : Z) (entry : Sqe) (m : Chan) : option (res RingError bool * Chan) :=
  let head := ch_head m in
  let tail := ch_tail m in
  let used := wrapping_sub 32 head tail in
  if mask + 1 <? used then Some (Err Corrupt, m)
  else if used =? mask + 1 then Some (Err Full, m)
  else
    m1 ← Producer_stage mask head entry m;
    let m2 := set_head m1 (wrapping_add 32 head 1) in
    Some (Ok (doorbell_wanted m2), m2).

Record Batch : Type := mkBatch { batch_base : Z; batch_staged : Z }.

Definition Producer_batch (m : Chan) : Batch := mkBatch (ch_head m) 0.

Definition Batch_push (mask : Z) (b : Batch) (entry : Sqe) (m : Chan) :
    option (res RingError unit * Batch * Chan) :=
  let tail := ch_tail m in
  let capacity := mask + 1 in
  let at_ := wrapping_add 32 (batch_base b) (batch_staged b) in
  let used := wrapping_sub 32 at_ tail in
  if capacity <? used then Some (Err Corrupt, b, m)
  else if used =? capacity then Some (Err Full, b, m)
  else
    m1 ← Producer_stage mask at_ entry m;
    Some (Ok tt, mkBatch (batch_base b) (batch_staged b + 1), m1).

Definition Batch_publish (b : Batch) (m : Chan) : res RingError bool * Chan :=
  if batch_staged b =? 0 then (Ok false, m)
  else
    let m1 := set_head m (wrapping_add 32 (batch_base b) (batch_staged b)) in
    (Ok (doorbell_wanted m1), m1).

(** *** [Consumer] *)
Definition Consumer_pop (mask : Z) (m : Chan) : option (res RingError (option Sqe) * Chan) :=
  let tail := ch_tail m in
  let head := ch_head m in
  let used := wrapping_sub 32 head tail in
  if mask + 1 <? used then Some (Err Corrupt, m)
  else if used =? 0 then Some (Ok None, m)
  else
    slot ← ch_index m !! slot_of mask tail;
    if Z.of_nat (length (ch_entries m)) <=? slot then Some (Err Corrupt, m)
    else
      entry ← ch_entries m !! Z.to_nat slot;
      Some (Ok (Some entry), set_tail m (wrapping_add 32 tail 1)).

Definition Consumer_arm_wakeup (m : Chan) : Chan := set_flags m (Z.lor (ch_flags m) NEED_WAKEUP).
Definition Consumer_disarm_wakeup (m : Chan) : Chan :=
  set_flags m (Z.land (ch_flags m) (Z.lxor u32_max NEED_WAKEUP)).

(** ** The completion ring *)
Record Completions : Type := mkCompletions { cq_head : Z; cq_tail : Z; cq_slots : list Cqe }.

Definition Completions_mask (m : Completions) : option Z :=
  let len := Z.of_nat (length (cq_slots m)) in
  if u32_max <? len then None
  else if (len =? 0) || negb (is_power_of_two len) then None
  else Some (len - 1).

Definition Poster_free (mask : Z) (m : Completions) : res RingError Z :=
  let used := wrapping_sub 32 (cq_head m) (cq_tail m) in
  if mask + 1 <? used then Err Corrupt else Ok (mask + 1 - used).

Definition Poster_post (mask : Z) (cqe : Cqe) (m : Completions) :
    option (res RingError unit * Completions) :=
  match Poster_free mask m with
  | Err e => Some (Err e, m)
  | Ok free =>
      if free =? 0 then Some (Err Full, m)
      else
        let head := cq_head m in
        let slot := slot_of mask head in
        if (slot <? length (cq_slots m))%nat then
          Some (Ok tt, mkCompletions (wrapping_add 32 head 1) (cq_tail m) (<[slot := cqe]> (cq_slots m)))
        else None
  end.

Definition Collector_take (mask : Z) (m : Completions) :
    option (res RingError (option Cqe) * Completions) :=
  let tail := cq_tail m in
  let head := cq_head m in
  let used := wrapping_sub 32 head tail in
  if mask + 1 <? used then Some (Err Corrupt, m)
  else if used =? 0 then Some (Ok None, m)
  else
    cqe ← cq_slots m !! slot_of mask tail;
    Some (Ok (Some cqe), mkCompletions head (wrapping_add 32 tail 1) (cq_slots m)).

(** ** Executing one entry *)
Definition completion (user_data result timestamp : Z) : Cqe := mkCqe user_data result 0 timestamp 0.
Definition refusal (user_data packed detail timestamp : Z) : Cqe :=
  mkCqe user_data packed 0 timestamp detail.

Definition Arena : Type := list Z.

(** The arena is memory the peer may be writing; one call reads each byte once,
    so the arena here is the bytes as that call saw them. *)
Definition Arena_copy_out (a : Arena) (offset len : Z) : option (list Z) :=
  if u64_max <? offset + len then None
  else if Z.of_nat (length a) <? offset + len then None
  else Some (take (Z.to_nat len) (drop (Z.to_nat offset) a)).

Definition Arena_copy_in (a : Arena) (offset : Z) (from : list Z) : bool * Arena :=
  let len := Z.of_nat (length from) in
  if u64_max <? offset + len then (false, a)
  else if Z.of_nat (length a) <? offset + len then (false, a)
  else (true, list_inserts (Z.to_nat offset) from a).

Definition CHUNK : Z := 256.

Section service.
(** The trait [Sink]: how much of the bytes it took, and what it is afterwards. *)
Context {S : Type} (sink_write : S → list Z → Z * S).

Fixpoint write_serial_loop (fuel : nat) (a : Arena) (offset len written : Z) (sink : S) :
    option Z * S :=
  match fuel with
  | O => (Some written, sink)
  | Datatypes.S fuel =>
      if written <? len then
        let take := Z.min CHUNK (len - written) in
        match Arena_copy_out a (offset + written) take with
        | None => (None, sink)
        | Some chunk =>
            let '(accepted, sink) := sink_write sink chunk in
            let written := written + accepted in
            if accepted <? take then (Some written, sink)
            else write_serial_loop fuel a offset len written sink
        end
      else (Some written, sink)
  end.

Definition i32_max : Z := 2 ^ 31 - 1.

(** Each turn of the loop writes at least one byte more or is the last, so
    [len] turns and one to see the end are enough. *)
Definition write_serial (e : Sqe) (a : Arena) (sink : S) : res (Z * Z) Z * S :=
  if i32_max <? sqe_len e then (Err (BAD_ADDRESS, sqe_len e), sink)
  else
    let offset := sqe_offset e in
    let len := sqe_len e in
    if (u64_max <? offset + len) || (Z.of_nat (length a) <? offset + len)
    then (Err (BAD_ADDRESS, sqe_offset e), sink)
    else
      match write_serial_loop (Datatypes.S (Z.to_nat len)) a offset len 0 sink with
      | (None, sink) => (Err (BAD_ADDRESS, sqe_offset e), sink)
      | (Some written, sink) => (Ok written, sink)
      end.

Definition execute (e : Sqe) (a : Arena) (sink : S) (now : Z) : option Cqe * S :=
  let refuse code detail sink :=
    (Some (refusal (sqe_user_data e) (error_pack ARGUMENT code) detail now), sink) in
  if negb (sqe_reserved e =? 0) then refuse RESERVED_NOT_ZERO (sqe_reserved e) sink
  else
    let unknown := Z.land (sqe_flags e) (Z.lxor flags_KNOWN 255) in
    if negb (unknown =? 0) then refuse UNKNOWN_FLAG unknown sink
    else if negb (op_known (sqe_opcode e)) then refuse UNKNOWN_OPCODE (sqe_opcode e) sink
    else
      let '(result, sink) :=
        if sqe_opcode e =? op_NOP then (Ok 0, sink)
        else if sqe_opcode e =? op_WRITE_SERIAL then write_serial e a sink
        else (Err (UNKNOWN_OPCODE, sqe_opcode e), sink) in
      match result with
      | Err (code, detail) => refuse code detail sink
      | Ok result =>
          if negb (Z.land (sqe_flags e) flags_NO_CQE =? 0) then (None, sink)
          else (Some (completion (sqe_user_data e) result now), sink)
      end.

(** ** [Service::drain] *)
Record Drained : Type := mkDrained { executed : Z; completed : Z; refused : Z }.

Record Service : Type := mkService {
  svc_submissions : Chan;
  svc_completions : Completions;
  svc_arena : Arena;
  svc_sink : S;
}.

(** The loop of [drain], a turn per unit of budget; [None] is a panic. *)
Fixpoint drain_loop (sq_mask cq_mask : Z) (budget : nat) (now : Z) (done : Drained) (s : Service) :
    option (res RingError Drained * Service) :=
  match budget with
  | O => Some (Ok done, s)
  | Datatypes.S budget =>
      match Poster_free cq_mask (svc_completions s) with
      | Err e => Some (Err e, s)
      | Ok free =>
          if free =? 0 then Some (Ok done, s)
          else
            '(popped, sq) ← Consumer_pop sq_mask (svc_submissions s);
            match popped with
            | Err e => Some (Err e, mkService sq (svc_completions s) (svc_arena s) (svc_sink s))
            | Ok None => Some (Ok done, mkService sq (svc_completions s) (svc_arena s) (svc_sink s))
            | Ok (Some entry) =>
                let '(cqe, sink) := execute entry (svc_arena s) (svc_sink s) now in
                let done := mkDrained (executed done + 1) (completed done) (refused done) in
                match cqe with
                | None => drain_loop sq_mask cq_mask budget now done
                            (mkService sq (svc_completions s) (svc_arena s) sink)
                | Some cqe =>
                    let done := mkDrained (executed done) (completed done)
                                  (if Cqe_is_error cqe then refused done + 1 else refused done) in
                    '(posted, cq) ← Poster_post cq_mask cqe (svc_completions s);
                    let s := mkService sq cq (svc_arena s) sink in
                    match posted with
                    | Err e => Some (Err e, s)
                    | Ok _ => drain_loop sq_mask cq_mask budget now
                                (mkDrained (executed done) (completed done + 1) (refused done)) s
                    end
                end
            end
      end
  end.

Definition Service_drain (sq_mask cq_mask budget now : Z) (s : Service) :
    option (res RingError Drained * Service) :=
  drain_loop sq_mask cq_mask (Z.to_nat budget) now (mkDrained 0 0 0) s.

End service.
