(* ===== verification/RingFacts.v ===== *)
(** * The rings as queues

    A ring of [2 ^ k] cells between two free-running cursors holds a queue
    ([ring_holds]): the element at distance [j] from the tail is in the cell the
    cursor arithmetic gives it.  Appending at the head and dropping at the tail
    are shown once, for any kind of cell, and used for the submission ring
    ([Chan_rep]) and the completion ring ([Comp_rep]). *)

From S2P Require Import Prelude Abi Control Ring.

(** ** Cursor arithmetic *)
Definition mask_ok (mask : Z) (len : nat) : Prop :=
  ∃ k, 0 ≤ k ≤ 31 ∧ mask = 2 ^ k - 1 ∧ Z.of_nat len = 2 ^ k.

Lemma mask_ok_cap mask len :
  mask_ok mask len → 0 ≤ mask < 2 ^ 31 ∧ Z.of_nat len = mask + 1.
Proof.
  intros (k & Hk & -> & Hl). pose proof (Z.pow_le_mono_r 2 k 31 ltac:(lia) ltac:(lia)).
  pose proof (Z.pow_pos_nonneg 2 k ltac:(lia) ltac:(lia)). lia.
Qed.

Lemma slot_of_mod mask len p :
  mask_ok mask len → slot_of mask p = Z.to_nat (p mod (mask + 1)).
Proof.
  intros (k & Hk & -> & _). unfold slot_of. rewrite land_ones_mod by lia.
  by replace (2 ^ k - 1 + 1) with (2 ^ k) by lia.
Qed.

Lemma slot_of_lt mask len p : mask_ok mask len → (slot_of mask p < len)%nat.
Proof.
  intros Hm. rewrite (slot_of_mod _ _ _ Hm). apply mask_ok_cap in Hm as [??].
  pose proof (Z.mod_pos_bound p (mask + 1)). lia.
Qed.

(** The width of the cursors is a multiple of the size of the ring, so a wrapped
    cursor still names the cell it should. *)
Lemma slot_of_wrapped mask len p j :
  mask_ok mask len →
  slot_of mask (wrapping_add 32 p j) = Z.to_nat ((p + j) mod (mask + 1)).
Proof.
  intros Hm. rewrite (slot_of_mod _ _ _ Hm). f_equal. destruct Hm as (k & Hk & -> & _).
  replace (2 ^ k - 1 + 1) with (2 ^ k) by lia. unfold wrapping_add.
  apply Z.mod_mod_divide.
  exists (2 ^ (32 - k)). rewrite <- Z.pow_add_r by lia. f_equal. lia.
Qed.

Lemma slot_of_distinct mask len p i j :
  mask_ok mask len → 0 ≤ i → i < j → j - i < mask + 1 →
  slot_of mask (wrapping_add 32 p i) ≠ slot_of mask (wrapping_add 32 p j).
Proof.
  intros Hm Hi Hij Hc. rewrite !(slot_of_wrapped _ _ _ _ Hm). apply mask_ok_cap in Hm as [Hm _].
  pose proof (Z.mod_pos_bound (p + i) (mask + 1)). pose proof (Z.mod_pos_bound (p + j) (mask + 1)).
  intros E. apply Z2Nat.inj in E; [|lia..].
  assert (Hd : (j - i) mod (mask + 1) = 0).
  { replace (j - i) with ((p + j) - (p + i)) by lia. rewrite Zminus_mod, E, Z.sub_diag. by apply Z.mod_0_l; lia. }
  rewrite Z.mod_small in Hd by lia. lia.
Qed.

Lemma wrapping_add_assoc w p i j :
  0 ≤ w → wrapping_add w (wrapping_add w p i) j = wrapping_add w p (i + j).
Proof. intros. unfold wrapping_add. rewrite Zplus_mod_idemp_l. f_equal. lia. Qed.

Lemma wrapping_add_0 w p : is_uint w p → wrapping_add w p 0 = p.
Proof. intros. unfold wrapping_add. by rewrite Z.add_0_r, Z.mod_small. Qed.

Lemma head_of_used head tail n :
  is_uint 32 head → wrapping_sub 32 head tail = n → head = wrapping_add 32 tail n.
Proof.
  intros Hh <-. unfold wrapping_add, wrapping_sub. rewrite Zplus_mod_idemp_r.
  replace (tail + (head - tail)) with head by lia. by rewrite Z.mod_small.
Qed.

(** ** A queue in a ring *)
Section ring_holds.
Context {A : Type}.
Implicit Types (R : nat → A → Prop) (q : list A).

Definition ring_holds (mask tail : Z) R q : Prop :=
  ∀ j e, q !! j = Some e → R (slot_of mask (wrapping_add 32 tail (Z.of_nat j))) e.

Lemma ring_holds_push mask len tail R R' q e :
  mask_ok mask len → Z.of_nat (length q) < mask + 1 → ring_holds mask tail R q →
  let at_ := slot_of mask (wrapping_add 32 tail (Z.of_nat (length q))) in
  R' at_ e → (∀ s e', s ≠ at_ → R s e' → R' s e') → ring_holds mask tail R' (q ++ [e]).
Proof.
  intros Hm Hl Hq at_ He Hother j e' Hj.
  apply lookup_app_Some in Hj as [Hj|[Hge Hj]].
  - pose proof (lookup_lt_Some _ _ _ Hj). apply Hother; [|by apply Hq].
    eapply slot_of_distinct; [done|lia|lia|lia].
  - apply list_lookup_singleton_Some in Hj as [Hj <-].
    by replace j with (length q) by lia.
Qed.

Lemma ring_holds_pop mask tail R q e :
  is_uint 32 tail → ring_holds mask tail R (e :: q) →
  R (slot_of mask tail) e ∧ ring_holds mask (wrapping_add 32 tail 1) R q.
Proof.
  intros Ht Hq. split.
  - specialize (Hq 0%nat e eq_refl). by rewrite wrapping_add_0 in Hq.
  - intros j e' Hj. specialize (Hq (S j) e' Hj). rewrite wrapping_add_assoc by lia.
    by replace (1 + Z.of_nat j) with (Z.of_nat (S j)) by lia.
Qed.

Lemma ring_holds_mono mask tail R R' q :
  (∀ s e, R s e → R' s e) → ring_holds mask tail R q → ring_holds mask tail R' q.
Proof. intros H Hq j e Hj. by apply H, Hq. Qed.
End ring_holds.

(** Cursors [n] apart, over a ring that can hold that many. *)
Record cursors (mask head tail : Z) (n : nat) : Prop := {
  cur_head : is_uint 32 head;
  cur_tail : is_uint 32 tail;
  cur_used : wrapping_sub 32 head tail = Z.of_nat n;
  cur_fits : Z.of_nat n ≤ mask + 1;
}.

Lemma cursors_push mask len head tail n :
  mask_ok mask len → cursors mask head tail n → Z.of_nat n < mask + 1 →
  cursors mask (wrapping_add 32 head 1) tail (S n).
Proof.
  intros [Hm _]%mask_ok_cap [? ? Hu ?] Hn. split; [by apply wrapping_add_range|done| |lia].
  rewrite wrapping_sub_add; [lia|lia|]. rewrite Hu. lia.
Qed.

Lemma cursors_pop mask len head tail n :
  mask_ok mask len → cursors mask head tail (S n) →
  cursors mask head (wrapping_add 32 tail 1) n.
Proof.
  intros [Hm _]%mask_ok_cap [? ? Hu ?]. split; [done|by apply wrapping_add_range| |lia].
  rewrite wrapping_sub_sub; [lia|lia|]. rewrite Hu. lia.
Qed.

(** ** The submission ring *)
Definition chan_cell (m : Chan) (s : nat) (e : Sqe) : Prop :=
  ch_index m !! s = Some (Z.of_nat s) ∧ ch_entries m !! s = Some e.

(** The memory has the shape [Producer::new] and [Consumer::new] ask for. *)
Record Chan_shape (mask : Z) (m : Chan) : Prop := {
  csh_entries : mask_ok mask (length (ch_entries m));
  csh_index : length (ch_index m) = length (ch_entries m);
}.

(** The ring holds the queue [q]: the refinement relation. *)
Record Chan_rep (mask : Z) (m : Chan) (q : list Sqe) : Prop := {
  crep_shape : Chan_shape mask m;
  crep_cursors : cursors mask (ch_head m) (ch_tail m) (length q);
  crep_holds : ring_holds mask (ch_tail m) (chan_cell m) q;
}.

Lemma Channel_mask_shape m mask : Channel_mask m = Some mask → Chan_shape mask m.
Proof.
  unfold Channel_mask. destruct (Z.ltb_spec u32_max (Z.of_nat (length (ch_entries m)))) as [|Hu]; [done|].
  destruct (Z.eqb_spec (Z.of_nat (length (ch_entries m))) 0) as [|Hz]; [done|]. cbn [orb].
  destruct (is_power_of_two _) eqn:P; [|done]. cbn [negb].
  destruct (Nat.eqb_spec (length (ch_index m)) (length (ch_entries m))) as [Hl|]; [|done].
  cbn [negb]. intros [= <-]. split; [|done].
  unfold is_power_of_two in P. apply andb_true_iff in P as [_ P%Z.eqb_eq].
  exists (Z.log2 (Z.of_nat (length (ch_entries m)))).
  pose proof (Z.log2_nonneg (Z.of_nat (length (ch_entries m)))).
  split_and!; [done| |lia|done].
  apply Z.lt_succ_r. apply Z.log2_lt_pow2; [lia|]. unfold u32_max in Hu. lia.
Qed.

(** Writing a cell and its index entry. *)
Lemma chan_cell_staged mask m at_ e m' :
  Chan_shape mask m → Producer_stage mask at_ e m = Some m' →
  Chan_shape mask m' ∧ ch_head m' = ch_head m ∧ ch_tail m' = ch_tail m ∧ ch_flags m' = ch_flags m ∧
  chan_cell m' (slot_of mask at_) e ∧
  ∀ s e', s ≠ slot_of mask at_ → chan_cell m s e' → chan_cell m' s e'.
Proof.
  intros [Hm Hi]. unfold Producer_stage. pose proof (slot_of_lt _ _ at_ Hm) as Hlt.
  destruct (Nat.ltb_spec (slot_of mask at_) (length (ch_entries m))); [|lia].
  destruct (Nat.ltb_spec (slot_of mask at_) (length (ch_index m))); [|lia]. cbn [andb].
  intros [= <-]. unfold chan_cell, write_index, write_entry; cbn.
  split_and!; try done.
  - split; cbn; by rewrite !length_insert.
  - by apply list_lookup_insert_eq.
  - by apply list_lookup_insert_eq.
  - intros s e' Hs [? ?]. by rewrite !list_lookup_insert_ne.
Qed.

Lemma Producer_stage_total mask m at_ e :
  Chan_shape mask m → is_Some (Producer_stage mask at_ e m).
Proof.
  intros [Hm Hi]. unfold Producer_stage. pose proof (slot_of_lt _ _ at_ Hm).
  destruct (Nat.ltb_spec (slot_of mask at_) (length (ch_entries m))); [|lia].
  destruct (Nat.ltb_spec (slot_of mask at_) (length (ch_index m))); [|lia]. by eexists.
Qed.

Lemma Chan_rep_head mask m q :
  Chan_rep mask m q → ch_head m = wrapping_add 32 (ch_tail m) (Z.of_nat (length q)).
Proof. intros [_ [] _]. by apply head_of_used. Qed.

(** A staged entry, published. *)
Lemma Chan_rep_publish mask m q e m1 :
  Chan_rep mask m q → Z.of_nat (length q) < mask + 1 →
  Producer_stage mask (ch_head m) e m = Some m1 →
  Chan_rep mask (set_head m1 (wrapping_add 32 (ch_head m) 1)) (q ++ [e]).
Proof.
  intros Hr Hl Hs. pose proof (Chan_rep_head _ _ _ Hr) as Hh. destruct Hr as [Hsh Hc Hq].
  destruct (chan_cell_staged _ _ _ _ _ Hsh Hs) as (Hsh1 & _ & Ht & _ & He & Ho).
  split; cbn.
  - by destruct Hsh1.
  - rewrite length_app, Ht, Nat.add_1_r. eapply cursors_push; [apply Hsh|done|done].
  - rewrite Ht. eapply (ring_holds_push _ _ _ (chan_cell m)); [apply Hsh|done|done| |]; rewrite <- Hh; done.
Qed.

Lemma submit_spec mask m q e :
  Chan_rep mask m q →
  if decide (Z.of_nat (length q) = mask + 1) then Producer_submit mask e m = Some (Err Full, m)
  else ∃ m', Producer_submit mask e m = Some (Ok (doorbell_wanted m), m') ∧
             Chan_rep mask m' (q ++ [e]) ∧ ch_tail m' = ch_tail m ∧ ch_flags m' = ch_flags m.
Proof.
  intros Hr. pose proof Hr as [Hsh [_ _ Hu Hf] _]. unfold Producer_submit. rewrite Hu.
  destruct (Z.ltb_spec (mask + 1) (Z.of_nat (length q))); [lia|].
  destruct (Z.eqb_spec (Z.of_nat (length q)) (mask + 1)) as [E|E];
    [by rewrite decide_True|rewrite decide_False by done].
  destruct (Producer_stage_total mask m (ch_head m) e Hsh) as [m1 Hs]. rewrite Hs. cbn.
  destruct (chan_cell_staged _ _ _ _ _ Hsh Hs) as (_ & _ & Ht & Hfl & _).
  eexists; split; [unfold doorbell_wanted; cbn; by rewrite Hfl|].
  split_and!; [|done|done]. apply (Chan_rep_publish mask m q e m1); [done|lia|done].
Qed.

Lemma pop_spec mask m q :
  Chan_rep mask m q →
  match q with
  | [] => Consumer_pop mask m = Some (Ok None, m)
  | e :: q' => ∃ m', Consumer_pop mask m = Some (Ok (Some e), m') ∧ Chan_rep mask m' q' ∧
                     ch_flags m' = ch_flags m
  end.
Proof.
  intros [Hsh Hc Hq]. pose proof Hc as [_ Ht Hu Hf]. unfold Consumer_pop. rewrite Hu.
  destruct q as [|e q'].
  - destruct (mask_ok_cap _ _ (csh_entries _ _ Hsh)). cbn [length].
    destruct (Z.ltb_spec (mask + 1) (Z.of_nat 0)); [lia|]. done.
  - destruct (Z.ltb_spec (mask + 1) (Z.of_nat (length (e :: q')))); [lia|].
    destruct (Z.eqb_spec (Z.of_nat (length (e :: q'))) 0); [cbn [length] in *; lia|].
    destruct (ring_holds_pop _ _ _ _ _ Ht Hq) as [[Hi He] Hq']. rewrite Hi; rsimpl.
    pose proof (lookup_lt_Some _ _ _ He).
    destruct (Z.leb_spec (Z.of_nat (length (ch_entries m))) (Z.of_nat (slot_of mask (ch_tail m)))); [lia|].
    rewrite Nat2Z.id, He; rsimpl.
    eexists; split; [done|]. split; [|done]. destruct Hsh as [Hm Hil].
    split; cbn; [by split|by eapply cursors_pop|exact Hq'].
Qed.

(** ** Batches *)

(** [q] is visible, [st] is staged behind it. *)
Record Batch_rep (mask : Z) (m : Chan) (b : Batch) (q st : list Sqe) : Prop := {
  brep_chan : Chan_rep mask m q;
  brep_base : batch_base b = ch_head m;
  brep_staged : batch_staged b = Z.of_nat (length st);
  brep_fits : Z.of_nat (length (q ++ st)) ≤ mask + 1;
  brep_holds : ring_holds mask (ch_tail m) (chan_cell m) (q ++ st);
}.

Lemma Batch_rep_new mask m q : Chan_rep mask m q → Batch_rep mask m (Producer_batch m) q [].
Proof.
  intros Hr. split; rewrite ?app_nil_r; try done; [apply Hr|apply Hr].
Qed.

Lemma batch_at mask m b q st :
  Batch_rep mask m b q st →
  wrapping_add 32 (batch_base b) (batch_staged b) =
  wrapping_add 32 (ch_tail m) (Z.of_nat (length (q ++ st))).
Proof.
  intros [Hc -> -> _ _]. rewrite (Chan_rep_head _ _ _ Hc), wrapping_add_assoc, length_app by lia.
  f_equal. lia.
Qed.

Lemma used_of_add mask len tail n :
  mask_ok mask len → is_uint 32 tail → 0 ≤ n ≤ mask + 1 →
  wrapping_sub 32 (wrapping_add 32 tail n) tail = n.
Proof.
  intros [Hm _]%mask_ok_cap Ht Hn. rewrite wrapping_sub_add, wrapping_sub_diag; [lia|lia..|].
  rewrite wrapping_sub_diag by lia. lia.
Qed.

Lemma batch_push_spec mask m b q st e :
  Batch_rep mask m b q st →
  if decide (Z.of_nat (length (q ++ st)) = mask + 1)
  then Batch_push mask b e m = Some (Err Full, b, m)
  else ∃ b' m', Batch_push mask b e m = Some (Ok tt, b', m') ∧ Batch_rep mask m' b' q (st ++ [e]).
Proof.
  intros Hb. pose proof (batch_at _ _ _ _ _ Hb) as Hat. destruct Hb as [Hc Hbase Hst Hf Hh].
  pose proof Hc as [Hsh [Hhd Ht _ _] _]. unfold Batch_push. rewrite Hat.
  rewrite (used_of_add _ _ _ _ (csh_entries _ _ Hsh) Ht) by lia.
  destruct (Z.ltb_spec (mask + 1) (Z.of_nat (length (q ++ st)))); [lia|].
  destruct (Z.eqb_spec (Z.of_nat (length (q ++ st))) (mask + 1)) as [E|E];
    [by rewrite decide_True|rewrite decide_False by done].
  set (at_ := wrapping_add 32 (ch_tail m) (Z.of_nat (length (q ++ st)))).
  destruct (Producer_stage_total mask m at_ e Hsh) as [m1 Hs]. rewrite Hs; rsimpl.
  destruct (chan_cell_staged _ _ _ _ _ Hsh Hs) as (Hsh1 & Hhd1 & Ht1 & _ & He & Ho).
  assert (Hh1 : ring_holds mask (ch_tail m) (chan_cell m1) ((q ++ st) ++ [e])).
  { eapply (ring_holds_push _ _ _ (chan_cell m)); [apply Hsh|lia|done|done|done]. }
  rewrite <- (assoc_L (++)) in Hh1. eexists _, m1. split; [done|]. split; cbn.
  - split; [done|rewrite Hhd1, Ht1; apply Hc|rewrite Ht1].
    intros j e' Hj. apply Hh1. by apply lookup_app_l_Some.
  - by rewrite Hhd1.
  - rewrite Hst, length_app. cbn [length]. lia.
  - rewrite !length_app in *. cbn [length]. lia.
  - by rewrite Ht1.
Qed.

Lemma batch_publish_spec mask m b q st :
  Batch_rep mask m b q st →
  ∃ m', Batch_publish b m = (Ok (bool_decide (st ≠ []) && doorbell_wanted m), m') ∧
        Chan_rep mask m' (q ++ st) ∧ ch_tail m' = ch_tail m.
Proof.
  intros Hb. pose proof (batch_at _ _ _ _ _ Hb) as Hat. pose proof Hb as [Hc Hbase Hst Hf Hh].
  unfold Batch_publish. destruct (Z.eqb_spec (batch_staged b) 0) as [E|E].
  - destruct st as [|e st]; [|rewrite Hst in E; cbn [length] in E; lia].
    exists m. by rewrite bool_decide_eq_false_2, app_nil_r by tauto.
  - destruct st as [|e st]; [done|]. rewrite bool_decide_eq_true_2 by done.
    eexists; split; [done|]. split; [|done]. destruct Hc as [[Hm Hi] [Hhd Ht Hu _] _].
    split; cbn; [by split| |exact Hh]. split; [by apply wrapping_add_range|done| |done].
    rewrite Hat. eapply used_of_add; [done|done|lia].
Qed.

(** ** The completion ring *)
Record Comp_rep (mask : Z) (m : Completions) (q : list Cqe) : Prop := {
  prep_slots : mask_ok mask (length (cq_slots m));
  prep_cursors : cursors mask (cq_head m) (cq_tail m) (length q);
  prep_holds : ring_holds mask (cq_tail m) (λ s e, cq_slots m !! s = Some e) q;
}.

Lemma free_spec mask m q :
  Comp_rep mask m q → Poster_free mask m = Ok (mask + 1 - Z.of_nat (length q)).
Proof.
  intros [_ [_ _ Hu Hf] _]. unfold Poster_free. rewrite Hu.
  by destruct (Z.ltb_spec (mask + 1) (Z.of_nat (length q))); [lia|].
Qed.

Lemma post_spec mask m q e :
  Comp_rep mask m q →
  if decide (Z.of_nat (length q) = mask + 1) then Poster_post mask e m = Some (Err Full, m)
  else ∃ m', Poster_post mask e m = Some (Ok tt, m') ∧ Comp_rep mask m' (q ++ [e]).
Proof.
  intros Hr. unfold Poster_post. rewrite (free_spec _ _ _ Hr).
  pose proof Hr as [Hm Hc Hq]. pose proof Hc as [Hh Ht Hu Hf].
  destruct (decide (Z.of_nat (length q) = mask + 1)) as [E|E].
  - destruct (Z.eqb_spec (mask + 1 - Z.of_nat (length q)) 0); [done|lia].
  - destruct (Z.eqb_spec (mask + 1 - Z.of_nat (length q)) 0); [lia|].
    pose proof (slot_of_lt _ _ (cq_head m) Hm) as Hlt.
    destruct (Nat.ltb_spec (slot_of mask (cq_head m)) (length (cq_slots m))); [|lia].
    eexists; split; [done|]. split; cbn.
    + by rewrite length_insert.
    + rewrite length_app, Nat.add_1_r. eapply cursors_push; [done|done|lia].
    + rewrite (head_of_used _ _ _ Hh Hu) in *.
      eapply (ring_holds_push _ _ _ (λ s e, cq_slots m !! s = Some e)); [done|lia|done| |].
      * by apply list_lookup_insert_eq.
      * intros s e' Hs ?. by rewrite list_lookup_insert_ne.
Qed.

Lemma take_spec mask m q :
  Comp_rep mask m q →
  match q with
  | [] => Collector_take mask m = Some (Ok None, m)
  | e :: q' => ∃ m', Collector_take mask m = Some (Ok (Some e), m') ∧ Comp_rep mask m' q'
  end.
Proof.
  intros [Hm Hc Hq]. pose proof Hc as [_ Ht Hu Hf]. unfold Collector_take. rewrite Hu.
  destruct q as [|e q'].
  - destruct (mask_ok_cap _ _ Hm). cbn [length].
    by destruct (Z.ltb_spec (mask + 1) (Z.of_nat 0)); [lia|].
  - destruct (Z.ltb_spec (mask + 1) (Z.of_nat (length (e :: q')))); [lia|].
    destruct (Z.eqb_spec (Z.of_nat (length (e :: q'))) 0); [cbn [length] in *; lia|].
    destruct (ring_holds_pop _ _ _ _ _ Ht Hq) as [He Hq']. rewrite He; rsimpl.
    eexists; split; [done|]. split; cbn; [done|by eapply cursors_pop|exact Hq'].
Qed.

(** * Both ends of a submission ring at once

    [Producer] (batches included, a submission being a batch of one) and
    [Consumer] as two threads over the channel's memory, one load or store per
    step, each with a store buffer in program order: the total-store-order
    machine, which is the weakest order the doorbell's fence is there for.
    Orders weaker still are not modelled.

    The invariant ([Inv]) relates the memory, the two buffers and the two
    program counters to the list of entries published and the list taken. *)

(** ** The machine *)

(** A store the producer has made and memory has not seen. *)
Inductive pwrite : Type :=
| WEntry (at_ : Z) (e : Sqe)
| WIndex (at_ : Z)
| WHead (v : Z).

Inductive pstate : Type :=
| PReady (b : Batch) (st : list Sqe)            (* between calls; [st] staged *)
| PEntry (b : Batch) (st : list Sqe) (e : Sqe)  (* room found *)
| PIndex (b : Batch) (st : list Sqe) (e : Sqe)  (* entry written *)
| PPublished (b : Batch)                        (* head stored *)
| PFenced (b : Batch)                           (* fence passed *)
| PFailed.

Inductive cstate : Type :=
| CReady (tail : Z)
| CIndex (tail : Z)               (* something is queued *)
| CSlot (tail : Z) (slot : Z)     (* index read *)
| CGot (tail : Z) (e : Sqe)       (* entry read *)
| CArmed (tail : Z)
| CAsleep (tail : Z)
| CFailed.

Record Sys : Type := mkSys {
  sys_mem : Chan;
  sys_pbuf : list pwrite;
  sys_cbuf : list Z;
  sys_prod : pstate;
  sys_cons : cstate;
  sys_bell : bool;
  sys_sent : list Sqe;   (* history: entries published *)
  sys_got : list Sqe;    (* history: entries taken *)
}.

Definition batch_cursor (b : Batch) : Z := wrapping_add 32 (batch_base b) (batch_staged b).

Definition apply_write (mask : Z) (w : pwrite) (m : Chan) : Chan :=
  match w with
  | WEntry at_ e => write_entry m (slot_of mask at_) e
  | WIndex at_ => write_index m (slot_of mask at_) (Z.of_nat (slot_of mask at_))
  | WHead v => set_head m v
  end.

Section machine.
(** [fenced] is the fence in [doorbell_wanted], which the code has. *)
Context (mask : Z) (fenced : bool).

(** The room check of [submit] and [Batch::push]. *)
Definition check_room (b : Batch) (st : list Sqe) (e : Sqe) (tail : Z) : pstate :=
  let used := wrapping_sub 32 (batch_cursor b) tail in
  if mask + 1 <? used then PFailed
  else if used =? mask + 1 then PReady b st
  else PEntry b st e.

(** The occupancy check of [pop]. *)
Definition check_queued (tail head : Z) : option cstate :=
  let used := wrapping_sub 32 head tail in
  if mask + 1 <? used then Some CFailed
  else if used =? 0 then None
  else Some (CIndex tail).

Inductive pstep : Sys → Sys → Prop :=
| step_check m pb cb b st e c bell sent got :
    pstep (mkSys m pb cb (PReady b st) c bell sent got)
          (mkSys m pb cb (check_room b st e (ch_tail m)) c bell sent got)
| step_entry m pb cb b st e c bell sent got :
    pstep (mkSys m pb cb (PEntry b st e) c bell sent got)
          (mkSys m (pb ++ [WEntry (batch_cursor b) e]) cb (PIndex b st e) c bell sent got)
| step_index m pb cb b st e c bell sent got :
    pstep (mkSys m pb cb (PIndex b st e) c bell sent got)
          (mkSys m (pb ++ [WIndex (batch_cursor b)]) cb
             (PReady (mkBatch (batch_base b) (batch_staged b + 1)) (st ++ [e])) c bell sent got)
| step_publish m pb cb b st c bell sent got :
    batch_staged b ≠ 0 →
    pstep (mkSys m pb cb (PReady b st) c bell sent got)
          (mkSys m (pb ++ [WHead (batch_cursor b)]) cb (PPublished (mkBatch (batch_cursor b) 0))
             c bell (sent ++ st) got)
| step_fence m pb cb b c bell sent got :
    (fenced = true → pb = []) →
    pstep (mkSys m pb cb (PPublished b) c bell sent got)
          (mkSys m pb cb (PFenced b) c bell sent got)
| step_doorbell m pb cb b c bell sent got :
    pstep (mkSys m pb cb (PFenced b) c bell sent got)
          (mkSys m pb cb (PReady b []) c (bell || doorbell_wanted m) sent got).

Inductive cstep : Sys → Sys → Prop :=
| step_queued m pb cb p tail c bell sent got :
    check_queued tail (ch_head m) = Some c →
    cstep (mkSys m pb cb p (CReady tail) bell sent got) (mkSys m pb cb p c bell sent got)
| step_read_index m pb cb p tail bell sent got :
    cstep (mkSys m pb cb p (CIndex tail) bell sent got)
          (mkSys m pb cb p
             (match ch_index m !! slot_of mask tail with
              | Some slot => if Z.of_nat (length (ch_entries m)) <=? slot then CFailed else CSlot tail slot
              | None => CFailed
              end) bell sent got)
| step_read_entry m pb cb p tail slot bell sent got :
    cstep (mkSys m pb cb p (CSlot tail slot) bell sent got)
          (mkSys m pb cb p
             (match ch_entries m !! Z.to_nat slot with
              | Some e => CGot tail e
              | None => CFailed
              end) bell sent got)
| step_take m pb cb p tail e bell sent got :
    cstep (mkSys m pb cb p (CGot tail e) bell sent got)
          (mkSys m pb (cb ++ [wrapping_add 32 tail 1]) p (CReady (wrapping_add 32 tail 1))
             bell sent (got ++ [e]))
| step_arm m pb p tail bell sent got :
    (* a read-modify-write drains the buffer *)
    cstep (mkSys m pb [] p (CReady tail) bell sent got)
          (mkSys (Consumer_arm_wakeup m) pb [] p (CArmed tail) bell sent got)
| step_look_again m pb cb p tail bell sent got :
    cstep (mkSys m pb cb p (CArmed tail) bell sent got)
          (mkSys m pb cb p
             (match check_queued tail (ch_head m) with Some c => c | None => CAsleep tail end)
             bell sent got)
| step_wake m pb cb p tail sent got :
    cstep (mkSys m pb cb p (CAsleep tail) true sent got)
          (mkSys m pb cb p (CReady tail) false sent got)
| step_disarm m pb p tail bell sent got :
    cstep (mkSys m pb [] p (CReady tail) bell sent got)
          (mkSys (Consumer_disarm_wakeup m) pb [] p (CReady tail) bell sent got).

(** Memory takes the oldest store of either buffer. *)
Inductive mstep : Sys → Sys → Prop :=
| step_drain_producer m w pb cb p c bell sent got :
    mstep (mkSys m (w :: pb) cb p c bell sent got)
          (mkSys (apply_write mask w m) pb cb p c bell sent got)
| step_drain_consumer m pb v cb p c bell sent got :
    mstep (mkSys m pb (v :: cb) p c bell sent got)
          (mkSys (set_tail m v) pb cb p c bell sent got).

Definition step (s s' : Sys) : Prop := pstep s s' ∨ cstep s s' ∨ mstep s s'.

(** Both ends attached to an empty ring. *)
Definition init (m : Chan) : Sys :=
  mkSys m [] [] (PReady (Producer_batch m) []) (CReady (ch_tail m)) false [] [].

Definition reached (m : Chan) (s : Sys) : Prop := rtc step (init m) s.
End machine.

(** ** The invariant *)

(** Cursors as positions: the [n]th entry ever published is at [cur n]. *)
Definition cur (start : Z) (n : nat) : Z := wrapping_add 32 start (Z.of_nat n).

(** The stores of the producer's buffer, by position. *)
Inductive gwrite : Type :=
| GEntry (p : nat) (e : Sqe)
| GIndex (p : nat)
| GHead (n : nat).

Definition concrete (start : Z) (g : gwrite) : pwrite :=
  match g with
  | GEntry p e => WEntry (cur start p) e
  | GIndex p => WIndex (cur start p)
  | GHead n => WHead (cur start n)
  end.

(** What the producer has written the entry of, and the index of. *)
Definition written_entries (sent : list Sqe) (p : pstate) : list Sqe :=
  match p with
  | PReady _ st | PEntry _ st _ => sent ++ st
  | PIndex _ st e => sent ++ st ++ [e]
  | _ => sent
  end.

Definition written_index (sent : list Sqe) (p : pstate) : nat :=
  match p with
  | PReady _ st | PEntry _ st _ | PIndex _ st _ => length sent + length st
  | _ => length sent
  end.

Definition prod_batch (p : pstate) : option (Batch * list Sqe) :=
  match p with
  | PReady b st | PEntry b st _ | PIndex b st _ => Some (b, st)
  | PPublished b | PFenced b => Some (b, [])
  | PFailed => None
  end.

Section inv.
Context (mask start : Z) (fenced : bool).

(** Nothing pending is behind the visible head, what is pending is what was
    written, and a head is stored after all it publishes. *)
Record Pending_ok (nV : nat) (gb : list gwrite) (s : Sys) : Prop := {
  pok_entry : ∀ p e, GEntry p e ∈ gb →
    (nV ≤ p)%nat ∧ written_entries (sys_sent s) (sys_prod s) !! p = Some e;
  pok_index : ∀ p, GIndex p ∈ gb → (nV ≤ p < written_index (sys_sent s) (sys_prod s))%nat;
  pok_head : ∀ n, GHead n ∈ gb → (nV ≤ n ≤ length (sys_sent s))%nat;
  pok_order : ∀ l1 n l2, gb = l1 ++ GHead n :: l2 →
    ∀ x, x ∈ l2 → match x with GEntry p _ | GIndex p => (n ≤ p)%nat | GHead n' => (n ≤ n')%nat end;
  pok_last : nV = length (sys_sent s) ∨ GHead (length (sys_sent s)) ∈ gb;
}.

(** From the tail memory shows on, every cell holds what was written there, or
    the store that will make it so is still buffered. *)
Record Cells_ok (nT : nat) (gb : list gwrite) (s : Sys) : Prop := {
  cok_entry : ∀ p e, (nT ≤ p)%nat → written_entries (sys_sent s) (sys_prod s) !! p = Some e →
    ch_entries (sys_mem s) !! slot_of mask (cur start p) = Some e ∨ GEntry p e ∈ gb;
  cok_index : ∀ p, (nT ≤ p < written_index (sys_sent s) (sys_prod s))%nat →
    ch_index (sys_mem s) !! slot_of mask (cur start p) = Some (Z.of_nat (slot_of mask (cur start p))) ∨
    GIndex p ∈ gb;
}.

Definition Prod_ok (nV : nat) (s : Sys) : Prop :=
  match prod_batch (sys_prod s) with
  | None => False
  | Some (b, st) =>
      batch_base b = cur start (length (sys_sent s)) ∧ batch_staged b = Z.of_nat (length st) ∧
      match sys_prod s with
      | PPublished _ => True
      | _ => fenced = true → nV = length (sys_sent s)
      end
  end.

Definition Cons_ok (nV : nat) (s : Sys) : Prop :=
  let nG := length (sys_got s) in
  match sys_cons s with
  | CReady t => t = cur start nG
  | CIndex t => t = cur start nG ∧ (nG < nV)%nat
  | CSlot t slot => t = cur start nG ∧ (nG < nV)%nat ∧ slot = Z.of_nat (slot_of mask t)
  | CGot t e => t = cur start nG ∧ (nG < nV)%nat ∧ sys_sent s !! nG = Some e
  | CArmed t => t = cur start nG ∧ doorbell_wanted (sys_mem s) = true
  | CAsleep t => t = cur start nG ∧ doorbell_wanted (sys_mem s) = true ∧
      (fenced = true → sys_bell s = false →
       nV = nG ∨ match sys_prod s with PPublished _ | PFenced _ => True | _ => False end)
  | CFailed => False
  end.

Record Inv_at (nT nV : nat) (gb : list gwrite) (s : Sys) : Prop := {
  inv_shape : Chan_shape mask (sys_mem s);
  inv_start : is_uint 32 start;
  inv_tail : ch_tail (sys_mem s) = cur start nT;
  inv_head : ch_head (sys_mem s) = cur start nV;
  inv_cbuf : sys_cbuf s = map (cur start) (seq (S nT) (length (sys_got s) - nT));
  inv_pbuf : sys_pbuf s = map (concrete start) gb;
  inv_le : (nT ≤ length (sys_got s) ≤ nV)%nat ∧ (nV ≤ length (sys_sent s))%nat;
  inv_prefix : sys_got s = take (length (sys_got s)) (sys_sent s);
  inv_room : Z.of_nat (length (written_entries (sys_sent s) (sys_prod s)) +
                       match sys_prod s with PEntry _ _ _ => 1 | _ => 0 end) ≤ Z.of_nat nT + mask + 1;
  inv_pending : Pending_ok nV gb s;
  inv_cells : Cells_ok nT gb s;
  inv_prod : Prod_ok nV s;
  inv_cons : Cons_ok nV s;
}.

Definition Inv (s : Sys) : Prop := ∃ nT nV gb, Inv_at nT nV gb s.
End inv.
