(* ===== verification/RingInv.v ===== *)
(** * The invariant of the two-ended ring is preserved by every step

    One lemma per store, load or buffered write of [RingFacts]. *)

From S2P Require Import Prelude Abi Control Ring RingFacts.

Section preserve.
Context (mask start : Z) (fenced : bool).
Abbreviation Inv_at := (RingFacts.Inv_at mask start fenced).
Abbreviation Inv := (RingFacts.Inv mask start fenced).

Implicit Types (m : Chan) (pb : list pwrite) (cb : list Z) (gb : list gwrite) (b : Batch).

(** ** Positions *)
Lemma cur_add n k : wrapping_add 32 (cur start n) (Z.of_nat k) = cur start (n + k).
Proof. unfold cur. rewrite wrapping_add_assoc by lia. f_equal. lia. Qed.

Lemma cur_used len n k :
  mask_ok mask len → is_uint 32 start → (n ≤ k)%nat → Z.of_nat k - Z.of_nat n ≤ mask + 1 →
  wrapping_sub 32 (cur start k) (cur start n) = Z.of_nat k - Z.of_nat n.
Proof.
  intros Hm Hs Hn Hk. replace k with (n + (k - n))%nat at 1 by lia. rewrite <- cur_add.
  rewrite (used_of_add mask len); [lia|done| |lia]. by apply wrapping_add_range.
Qed.

Lemma cur_slot_distinct len p q :
  mask_ok mask len → p ≠ q → Z.abs (Z.of_nat p - Z.of_nat q) < mask + 1 →
  slot_of mask (cur start p) ≠ slot_of mask (cur start q).
Proof.
  intros Hm Hne Hd. unfold cur. destruct (decide (p < q)%nat).
  - eapply slot_of_distinct; [done|lia|lia|lia].
  - apply not_eq_sym. eapply slot_of_distinct; [done|lia|lia|lia].
Qed.

Lemma prod_cursor nV s b st :
  Prod_ok start fenced nV s → prod_batch (sys_prod s) = Some (b, st) →
  batch_cursor b = cur start (length (sys_sent s) + length st).
Proof.
  unfold Prod_ok. intros H E. rewrite E in H. destruct H as (Hb & Hst & _).
  unfold batch_cursor. rewrite Hb, Hst. apply cur_add.
Qed.

(** Splitting a buffer that has grown by one store. *)
Lemma snoc_split {A} (l l1 l2 : list A) x y :
  l ++ [x] = l1 ++ y :: l2 →
  (l2 = [] ∧ l = l1 ∧ x = y) ∨ ∃ l2', l2 = l2' ++ [x] ∧ l = l1 ++ y :: l2'.
Proof.
  destruct l2 as [|z l2' _] using rev_ind; intros H.
  - apply app_inj_tail in H as [-> ->]. by left.
  - rewrite app_comm_cons, (assoc_L (++)) in H. apply app_inj_tail in H as [-> ->].
    right. by exists l2'.
Qed.

(** ** The producer's stores *)

(** A buffered store of entry or index keeps the order. *)
Lemma order_snoc gb x :
  (∀ l1 n l2, gb = l1 ++ GHead n :: l2 → ∀ y, y ∈ l2 →
     match y with GEntry p _ | GIndex p => (n ≤ p)%nat | GHead n' => (n ≤ n')%nat end) →
  (∀ n, GHead n ∈ gb → match x with GEntry p _ | GIndex p => (n ≤ p)%nat | GHead n' => (n ≤ n')%nat end) →
  ∀ l1 n l2, gb ++ [x] = l1 ++ GHead n :: l2 → ∀ y, y ∈ l2 →
     match y with GEntry p _ | GIndex p => (n ≤ p)%nat | GHead n' => (n ≤ n')%nat end.
Proof.
  intros Ho Hx l1 n l2 E y Hy. apply snoc_split in E as [(-> & _ & _)|(l2' & -> & E)].
  - by apply elem_of_nil in Hy.
  - apply elem_of_app in Hy as [Hy|Hy%list_elem_of_singleton]; [by eapply Ho|subst y].
    apply Hx. rewrite E. apply elem_of_app. right. left.
Qed.

Lemma inv_step_check nT nV gb m pb cb b st e c bell sent got :
  Inv_at nT nV gb (mkSys m pb cb (PReady b st) c bell sent got) →
  Inv_at nT nV gb (mkSys m pb cb (check_room mask b st e (ch_tail m)) c bell sent got).
Proof.
  intros [Hsh Hst Ht Hh Hcb Hpb [Hle1 Hle2] Hpre Hroom [P1 P2 P3 P4 P5] [C1 C2] Hp Hc].
  pose proof (prod_cursor _ _ b st Hp eq_refl) as Hbc.
  cbn [sys_mem sys_pbuf sys_cbuf sys_prod sys_cons sys_sent sys_got written_entries written_index] in *.
  unfold check_room. rewrite Hbc, Ht. rewrite length_app in Hroom.
  rewrite (cur_used _ _ _ (csh_entries _ _ Hsh) Hst) by lia.
  destruct (Z.ltb_spec (mask + 1) (Z.of_nat (length sent + length st) - Z.of_nat nT)); [lia|].
  assert (Hcons : ∀ p, match p with PPublished _ | PFenced _ => False | _ => True end →
                       Cons_ok mask start fenced nV (mkSys m pb cb p c bell sent got)).
  { intros p Hn. unfold Cons_ok in *. cbn in *. destruct c; try done.
    destruct Hc as (? & ? & Hc). split_and!; [done..|]. intros Hf1 Hb1.
    destruct (Hc Hf1 Hb1); [by left|done]. }
  destruct (Z.eqb_spec (Z.of_nat (length sent + length st) - Z.of_nat nT) (mask + 1)).
  - split; try done; [cbn; rewrite length_app; lia].
  - split; try done. cbn. rewrite length_app. lia.
Qed.

(** The consumer's half does not see the producer move, unless it has gone to
    sleep and the producer was about to look at the doorbell. *)
Lemma Cons_ok_producer nV m pb pb' cb p p' c bell sent sent' got :
  (match p with PPublished _ | PFenced _ => False | _ => True end ∨
   match p' with PPublished _ | PFenced _ => True | _ => False end) →
  (∀ e, sent !! length got = Some e → sent' !! length got = Some e) →
  Cons_ok mask start fenced nV (mkSys m pb cb p c bell sent got) →
  Cons_ok mask start fenced nV (mkSys m pb' cb p' c bell sent' got).
Proof.
  intros Hp Hs Hc. unfold Cons_ok in *. cbn in *. destruct c; try done.
  - destruct Hc as (? & ? & ?). eauto.
  - destruct Hc as (? & ? & Hc). split_and!; [done..|]. intros Hf Hb.
    destruct (Hc Hf Hb) as [?|Hpub]; [by left|right]. destruct Hp; [by destruct p|done].
Qed.

Lemma inv_step_entry nT nV gb m pb cb b st e c bell sent got :
  Inv_at nT nV gb (mkSys m pb cb (PEntry b st e) c bell sent got) →
  Inv_at nT nV (gb ++ [GEntry (length sent + length st) e])
    (mkSys m (pb ++ [WEntry (batch_cursor b) e]) cb (PIndex b st e) c bell sent got).
Proof.
  intros [Hsh Hst Ht Hh Hcb Hpb [Hle1 Hle2] Hpre Hroom [P1 P2 P3 P4 P5] [C1 C2] Hp Hc].
  pose proof (prod_cursor _ _ b st Hp eq_refl) as Hbc.
  cbn [sys_mem sys_pbuf sys_cbuf sys_prod sys_cons sys_sent sys_got written_entries written_index] in *.
  assert (Hold : ∀ p e', (sent ++ st) !! p = Some e' → (sent ++ st ++ [e]) !! p = Some e').
  { intros p e' H. rewrite (assoc_L (++)). by apply lookup_app_l_Some. }
  assert (Hnew : (sent ++ st ++ [e]) !! (length sent + length st)%nat = Some e).
  { rewrite (assoc_L (++)), <- length_app. by apply list_lookup_middle. }
  split; cbn [sys_mem sys_pbuf sys_cbuf sys_prod sys_cons sys_sent sys_got written_entries written_index];
    try done.
  - rewrite Hpb, map_app, Hbc. done.
  - rewrite !length_app in *. cbn [length]. lia.
  - split; cbn [sys_sent sys_prod written_entries written_index].
    + intros p e' [H|H%list_elem_of_singleton]%elem_of_app.
      * destruct (P1 _ _ H). auto.
      * injection H as -> ->. split; [lia|done].
    + intros p [H|H%list_elem_of_singleton]%elem_of_app; [by apply P2|done].
    + intros n [H|H%list_elem_of_singleton]%elem_of_app; [by apply P3|done].
    + apply order_snoc; [done|]. intros n Hn. apply P3 in Hn. lia.
    + destruct P5; [by left|right]. apply elem_of_app. by left.
  - split; cbn [sys_mem sys_sent sys_prod written_entries written_index].
    + intros p e' Hge He'. destruct (decide (p < length (sent ++ st))%nat) as [Hlt|Hge'].
      * rewrite (assoc_L (++)), lookup_app_l in He' by done.
        destruct (C1 p e' Hge He'); [by left|right]. apply elem_of_app. by left.
      * right. apply elem_of_app; right. apply list_elem_of_singleton.
        rewrite length_app in Hge'. pose proof (lookup_lt_Some _ _ _ He') as Hlt.
        rewrite !length_app in Hlt. cbn [length] in Hlt.
        assert (p = length sent + length st)%nat as -> by lia. congruence.
    + intros p Hlt. destruct (C2 p Hlt); [by left|right]. apply elem_of_app. by left.
Qed.

Lemma inv_step_index nT nV gb m pb cb b st e c bell sent got :
  Inv_at nT nV gb (mkSys m pb cb (PIndex b st e) c bell sent got) →
  Inv_at nT nV (gb ++ [GIndex (length sent + length st)])
    (mkSys m (pb ++ [WIndex (batch_cursor b)]) cb
       (PReady (mkBatch (batch_base b) (batch_staged b + 1)) (st ++ [e])) c bell sent got).
Proof.
  intros [Hsh Hst Ht Hh Hcb Hpb [Hle1 Hle2] Hpre Hroom [P1 P2 P3 P4 P5] [C1 C2] Hp Hc].
  pose proof (prod_cursor _ _ b st Hp eq_refl) as Hbc.
  cbn [sys_mem sys_pbuf sys_cbuf sys_prod sys_cons sys_sent sys_got written_entries written_index] in *.
  assert (Hlen : length (st ++ [e]) = S (length st)) by (rewrite length_app; cbn [length]; lia).
  split; cbn [sys_mem sys_pbuf sys_cbuf sys_prod sys_cons sys_sent sys_got written_entries written_index];
    try done.
  - rewrite Hpb, map_app, Hbc. done.
  - split; cbn [sys_sent sys_prod written_entries written_index]; rewrite ?Hlen.
    + intros p e' [H|H%list_elem_of_singleton]%elem_of_app; [by apply P1|done].
    + intros p [H|H%list_elem_of_singleton]%elem_of_app.
      * apply P2 in H. lia.
      * injection H as ->. lia.
    + intros n [H|H%list_elem_of_singleton]%elem_of_app; [by apply P3|done].
    + apply order_snoc; [done|]. intros n Hn. apply P3 in Hn. lia.
    + destruct P5; [by left|right]. apply elem_of_app. by left.
  - split; cbn [sys_mem sys_sent sys_prod written_entries written_index]; rewrite ?Hlen.
    + intros p e' Hge He'. destruct (C1 p e' Hge He'); [by left|right]. apply elem_of_app. by left.
    + intros p Hlt. destruct (decide (p = length sent + length st)%nat) as [->|].
      * right. apply elem_of_app; right. by apply list_elem_of_singleton.
      * destruct (C2 p ltac:(lia)); [by left|right]. apply elem_of_app. by left.
  - destruct Hp as (Hb & Hs & Hf). split_and!; cbn; [done|rewrite Hs, Hlen; lia|done].
Qed.

Lemma inv_step_publish nT nV gb m pb cb b st c bell sent got :
  Inv_at nT nV gb (mkSys m pb cb (PReady b st) c bell sent got) →
  Inv_at nT nV (gb ++ [GHead (length sent + length st)])
    (mkSys m (pb ++ [WHead (batch_cursor b)]) cb (PPublished (mkBatch (batch_cursor b) 0)) c bell
       (sent ++ st) got).
Proof.
  intros [Hsh Hst Ht Hh Hcb Hpb [Hle1 Hle2] Hpre Hroom [P1 P2 P3 P4 P5] [C1 C2] Hp Hc].
  pose proof (prod_cursor _ _ b st Hp eq_refl) as Hbc.
  cbn [sys_mem sys_pbuf sys_cbuf sys_prod sys_cons sys_sent sys_got written_entries written_index] in *.
  split; cbn [sys_mem sys_pbuf sys_cbuf sys_prod sys_cons sys_sent sys_got written_entries written_index];
    try done.
  - rewrite Hpb, map_app, Hbc. done.
  - rewrite length_app. lia.
  - rewrite take_app_le by lia. done.
  - split; cbn [sys_sent sys_prod written_entries written_index]; rewrite ?length_app.
    + intros p e' [H|H%list_elem_of_singleton]%elem_of_app; [by apply P1|done].
    + intros p [H|H%list_elem_of_singleton]%elem_of_app; [by apply P2|done].
    + intros n [H|H%list_elem_of_singleton]%elem_of_app; [apply P3 in H; lia|].
      injection H as ->. lia.
    + apply order_snoc; [done|]. intros n Hn. apply P3 in Hn. lia.
    + right. apply elem_of_app; right. by apply list_elem_of_singleton.
  - split; cbn [sys_mem sys_sent sys_prod written_entries written_index]; rewrite ?length_app.
    + intros p e' Hge He'. destruct (C1 p e' Hge He'); [by left|right]. apply elem_of_app. by left.
    + intros p Hlt. destruct (C2 p Hlt); [by left|right]. apply elem_of_app. by left.
  - split_and!; cbn; [by rewrite length_app|done|done].
  - eapply Cons_ok_producer; [by right| |exact Hc]. intros e He. by apply lookup_app_l_Some.
Qed.

Ltac sys_cbn :=
  cbn [sys_mem sys_pbuf sys_cbuf sys_prod sys_cons sys_sent sys_got sys_bell
       written_entries written_index] in *.

Lemma inv_step_fence nT nV gb m pb cb b c bell sent got :
  (fenced = true → pb = []) →
  Inv_at nT nV gb (mkSys m pb cb (PPublished b) c bell sent got) →
  Inv_at nT nV gb (mkSys m pb cb (PFenced b) c bell sent got).
Proof.
  intros Hpb0 [Hsh Hst Ht Hh Hcb Hpb Hle Hpre Hroom [P1 P2 P3 P4 P5] [C1 C2] Hp Hc].
  split; try done. sys_cbn. destruct Hp as (Hb & Hs & _). split_and!; [done|done|]. cbn.
  intros Hf. specialize (Hpb0 Hf). rewrite Hpb0 in Hpb.
  symmetry in Hpb. apply map_eq_nil in Hpb. subst gb.
  destruct P5 as [?|H]; [done|]. by apply elem_of_nil in H.
Qed.

Lemma inv_step_doorbell nT nV gb m pb cb b c bell sent got :
  Inv_at nT nV gb (mkSys m pb cb (PFenced b) c bell sent got) →
  Inv_at nT nV gb (mkSys m pb cb (PReady b []) c (bell || doorbell_wanted m) sent got).
Proof.
  intros [Hsh Hst Ht Hh Hcb Hpb Hle Hpre Hroom [P1 P2 P3 P4 P5] [C1 C2] Hp Hc].
  sys_cbn. split; sys_cbn; try done; rewrite ?app_nil_r; try done.
  - split; sys_cbn; rewrite ?app_nil_r, ?Nat.add_0_r; done.
  - split; sys_cbn; rewrite ?app_nil_r, ?Nat.add_0_r; done.
  - unfold Cons_ok in *. sys_cbn. destruct c; try done.
    destruct Hc as (? & Ha & Hc). split_and!; [done..|]. intros _ Hb.
    rewrite Ha, orb_true_r in Hb. done.
Qed.

(** ** The consumer's loads and stores *)
Lemma written_prefix sent p n e :
  sent !! n = Some e → written_entries sent p !! n = Some e.
Proof. intros. destruct p; cbn; try done; by apply lookup_app_l_Some. Qed.

Lemma written_ge sent p :
  (length sent ≤ length (written_entries sent p))%nat ∧ (length sent ≤ written_index sent p)%nat.
Proof. destruct p; cbn; rewrite ?length_app; lia. Qed.

(** What the consumer computes from the head it loads. *)
Lemma queued_spec nT nV gb s :
  Inv_at nT nV gb s → let nG := length (sys_got s) in
  check_queued mask (cur start nG) (ch_head (sys_mem s)) =
  if decide (nV = nG) then None else Some (CIndex (cur start nG)).
Proof.
  intros [Hsh Hst Ht Hh Hcb Hpb [Hle1 Hle2] Hpre Hroom _ _ _ _]. cbv zeta.
  pose proof (written_ge (sys_sent s) (sys_prod s)) as [Hw _].
  unfold check_queued. rewrite Hh.
  rewrite (cur_used _ _ _ (csh_entries _ _ Hsh) Hst) by lia.
  destruct (Z.ltb_spec (mask + 1) (Z.of_nat nV - Z.of_nat (length (sys_got s)))); [lia|].
  destruct (Z.eqb_spec (Z.of_nat nV - Z.of_nat (length (sys_got s))) 0);
    [rewrite decide_True by lia|rewrite decide_False by lia]; done.
Qed.

Lemma inv_consumer nT nV gb m pb cb p c c' bell bell' sent got :
  Inv_at nT nV gb (mkSys m pb cb p c bell sent got) →
  Cons_ok mask start fenced nV (mkSys m pb cb p c' bell' sent got) →
  Inv_at nT nV gb (mkSys m pb cb p c' bell' sent got).
Proof.
  intros [Hsh Hst Ht Hh Hcb Hpb Hle Hpre Hroom [P1 P2 P3 P4 P5] [C1 C2] Hp Hc] Hc'.
  by split.
Qed.

(** A cell in front of the visible head is in memory. *)
Lemma visible_cell nT nV gb s n e :
  Inv_at nT nV gb s → (nT ≤ n < nV)%nat → sys_sent s !! n = Some e →
  chan_cell (sys_mem s) (slot_of mask (cur start n)) e.
Proof.
  intros [Hsh Hst Ht Hh Hcb Hpb Hle Hpre Hroom [P1 P2 P3 P4 P5] [C1 C2] Hp Hc] Hn He.
  pose proof (written_ge (sys_sent s) (sys_prod s)) as [_ Hw]. split.
  - destruct (C2 n) as [?|Hg]; [lia|done|]. apply P2 in Hg. lia.
  - destruct (C1 n e) as [?|Hg]; [lia|by apply written_prefix|done|]. apply P1 in Hg as [? _]. lia.
Qed.

Lemma next_sent nT nV gb s :
  Inv_at nT nV gb s → (length (sys_got s) < nV)%nat → is_Some (sys_sent s !! length (sys_got s)).
Proof. intros [_ _ _ _ _ _ [_ ?] _ _ _ _ _ _] ?. apply lookup_lt_is_Some. lia. Qed.

Lemma inv_step_queued nT nV gb m pb cb p tail c bell sent got :
  check_queued mask tail (ch_head m) = Some c →
  Inv_at nT nV gb (mkSys m pb cb p (CReady tail) bell sent got) →
  Inv_at nT nV gb (mkSys m pb cb p c bell sent got).
Proof.
  intros Hq H. eapply inv_consumer; [exact H|]. pose proof (queued_spec _ _ _ _ H) as Hs.
  pose proof (inv_cons _ _ _ _ _ _ _ H) as Hc. pose proof (inv_le _ _ _ _ _ _ _ H) as [Hle _].
  cbn in Hc, Hs, Hle. subst tail. rewrite Hq in Hs.
  destruct (decide (nV = length got)); [done|]. injection Hs as ->. split; cbn; [done|lia].
Qed.

Lemma inv_step_read_index nT nV gb m pb cb p tail bell sent got :
  Inv_at nT nV gb (mkSys m pb cb p (CIndex tail) bell sent got) →
  Inv_at nT nV gb (mkSys m pb cb p
    (match ch_index m !! slot_of mask tail with
     | Some slot => if Z.of_nat (length (ch_entries m)) <=? slot then CFailed else CSlot tail slot
     | None => CFailed
     end) bell sent got).
Proof.
  intros H. eapply inv_consumer; [exact H|].
  pose proof (inv_cons _ _ _ _ _ _ _ H) as [-> Hlt]. cbn [sys_got] in *.
  pose proof (inv_le _ _ _ _ _ _ _ H) as [Hle _]. cbn [sys_got] in Hle.
  destruct (next_sent _ _ _ _ H Hlt) as [e He]. cbn [sys_got sys_sent] in He.
  destruct (visible_cell _ _ _ _ _ _ H (conj (proj1 Hle) Hlt) He) as [Hi _]. cbn [sys_mem] in Hi.
  rewrite Hi. pose proof (slot_of_lt _ _ (cur start (length got)) (csh_entries _ _ (inv_shape _ _ _ _ _ _ _ H))) as Hs.
  cbn [sys_mem] in Hs.
  destruct (Z.leb_spec (Z.of_nat (length (ch_entries m))) (Z.of_nat (slot_of mask (cur start (length got))))); [lia|].
  by split_and!.
Qed.

Lemma inv_step_read_entry nT nV gb m pb cb p tail slot bell sent got :
  Inv_at nT nV gb (mkSys m pb cb p (CSlot tail slot) bell sent got) →
  Inv_at nT nV gb (mkSys m pb cb p
    (match ch_entries m !! Z.to_nat slot with Some e => CGot tail e | None => CFailed end) bell sent got).
Proof.
  intros H. eapply inv_consumer; [exact H|].
  pose proof (inv_cons _ _ _ _ _ _ _ H) as (-> & Hlt & ->). cbn [sys_got] in *.
  pose proof (inv_le _ _ _ _ _ _ _ H) as [Hle _]. cbn [sys_got] in Hle.
  destruct (next_sent _ _ _ _ H Hlt) as [e He]. cbn [sys_got sys_sent] in He.
  destruct (visible_cell _ _ _ _ _ _ H (conj (proj1 Hle) Hlt) He) as [_ Hc]. cbn [sys_mem] in Hc.
  rewrite Nat2Z.id, Hc. by split_and!.
Qed.

Lemma inv_step_take nT nV gb m pb cb p tail e bell sent got :
  Inv_at nT nV gb (mkSys m pb cb p (CGot tail e) bell sent got) →
  Inv_at nT nV gb (mkSys m pb (cb ++ [wrapping_add 32 tail 1]) p (CReady (wrapping_add 32 tail 1)) bell
    sent (got ++ [e])).
Proof.
  intros [Hsh Hst Ht Hh Hcb Hpb [Hle1 Hle2] Hpre Hroom [P1 P2 P3 P4 P5] [C1 C2] Hp Hc].
  destruct Hc as (-> & Hlt & He). sys_cbn.
  assert (Hlen : length (got ++ [e]) = S (length got)) by (rewrite length_app; cbn [length]; lia).
  assert (Hcur : wrapping_add 32 (cur start (length got)) 1 = cur start (S (length got))).
  { change 1 with (Z.of_nat 1). rewrite cur_add. f_equal. lia. }
  rewrite Hcur. split; sys_cbn; try done; rewrite ?Hlen.
  - rewrite Hcb. replace (S (length got) - nT)%nat with (length got - nT + 1)%nat by lia.
    rewrite seq_app, map_app. cbn [seq map]. by replace (S nT + (length got - nT))%nat with (S (length got)) by lia.
  - lia.
  - rewrite (take_S_r _ _ _ He). by rewrite <- Hpre.
  - unfold Cons_ok; sys_cbn. by rewrite Hlen.
Qed.

(** Changing the flag word alone. *)
Lemma inv_set_flags nT nV gb m f pb cb p c c' bell sent got :
  Inv_at nT nV gb (mkSys m pb cb p c bell sent got) →
  Cons_ok mask start fenced nV (mkSys (set_flags m f) pb cb p c' bell sent got) →
  Inv_at nT nV gb (mkSys (set_flags m f) pb cb p c' bell sent got).
Proof.
  intros [[Hm Hi] Hst Ht Hh Hcb Hpb Hle Hpre Hroom [P1 P2 P3 P4 P5] [C1 C2] Hp Hc] Hc'.
  by split.
Qed.

Lemma armed_wants m : doorbell_wanted (Consumer_arm_wakeup m) = true.
Proof.
  unfold doorbell_wanted, Consumer_arm_wakeup, NEED_WAKEUP; cbn.
  rewrite (testbit_mask _ 0) by done. rewrite (testbit_set _ 0) by done. done.
Qed.

Lemma inv_step_arm nT nV gb m pb p tail bell sent got :
  Inv_at nT nV gb (mkSys m pb [] p (CReady tail) bell sent got) →
  Inv_at nT nV gb (mkSys (Consumer_arm_wakeup m) pb [] p (CArmed tail) bell sent got).
Proof.
  intros H. pose proof (inv_cons _ _ _ _ _ _ _ H) as Hc. eapply inv_set_flags; [exact H|].
  split; [exact Hc|apply armed_wants].
Qed.

Lemma inv_step_disarm nT nV gb m pb p tail bell sent got :
  Inv_at nT nV gb (mkSys m pb [] p (CReady tail) bell sent got) →
  Inv_at nT nV gb (mkSys (Consumer_disarm_wakeup m) pb [] p (CReady tail) bell sent got).
Proof. intros H. eapply inv_set_flags; [exact H|]. exact (inv_cons _ _ _ _ _ _ _ H). Qed.

Lemma inv_step_look_again nT nV gb m pb cb p tail bell sent got :
  Inv_at nT nV gb (mkSys m pb cb p (CArmed tail) bell sent got) →
  Inv_at nT nV gb (mkSys m pb cb p
    (match check_queued mask tail (ch_head m) with Some c => c | None => CAsleep tail end) bell sent got).
Proof.
  intros H. eapply inv_consumer; [exact H|]. pose proof (queued_spec _ _ _ _ H) as Hs.
  pose proof (inv_cons _ _ _ _ _ _ _ H) as [-> Ha]. pose proof (inv_le _ _ _ _ _ _ _ H) as [Hle _].
  cbn in Hs, Hle, Ha |- *. rewrite Hs.
  destruct (decide (nV = length got)) as [->|].
  - split_and!; [done|done|by left].
  - split; cbn; [done|lia].
Qed.

Lemma inv_step_wake nT nV gb m pb cb p tail sent got :
  Inv_at nT nV gb (mkSys m pb cb p (CAsleep tail) true sent got) →
  Inv_at nT nV gb (mkSys m pb cb p (CReady tail) false sent got).
Proof. intros H. eapply inv_consumer; [exact H|]. apply (inv_cons _ _ _ _ _ _ _ H). Qed.

(** ** Memory taking a store *)

Lemma order_tail gb x :
  (∀ l1 n l2, x :: gb = l1 ++ GHead n :: l2 → ∀ y, y ∈ l2 →
     match y with GEntry p _ | GIndex p => (n ≤ p)%nat | GHead n' => (n ≤ n')%nat end) →
  ∀ l1 n l2, gb = l1 ++ GHead n :: l2 → ∀ y, y ∈ l2 →
     match y with GEntry p _ | GIndex p => (n ≤ p)%nat | GHead n' => (n ≤ n')%nat end.
Proof. intros H l1 n l2 -> y Hy. by apply (H (x :: l1) n l2). Qed.

(** Two positions both written and not yet given back are in different cells. *)
Lemma window_distinct nT nV gb s p q :
  Inv_at nT nV gb s → p ≠ q →
  (nT ≤ p < length (written_entries (sys_sent s) (sys_prod s)))%nat →
  (nT ≤ q < length (written_entries (sys_sent s) (sys_prod s)))%nat →
  slot_of mask (cur start p) ≠ slot_of mask (cur start q).
Proof.
  intros [Hsh _ _ _ _ _ _ _ Hroom _ _ _ _] Hne Hp Hq.
  eapply cur_slot_distinct; [apply Hsh|done|]. destruct (sys_prod s); lia.
Qed.

Lemma written_index_le sent p : (written_index sent p ≤ length (written_entries sent p))%nat.
Proof. destruct p; cbn; rewrite ?length_app; lia. Qed.

Lemma inv_drain_entry nT nV gb m p e pb cb pr c bell sent got :
  Inv_at nT nV (GEntry p e :: gb) (mkSys m (WEntry (cur start p) e :: pb) cb pr c bell sent got) →
  Inv_at nT nV gb (mkSys (write_entry m (slot_of mask (cur start p)) e) pb cb pr c bell sent got).
Proof.
  intros H. pose proof (λ q, window_distinct nT nV _ _ p q H) as Hwin. sys_cbn.
  destruct H as [[Hm Hi] Hst Ht Hh Hcb Hpb [Hle1 Hle2] Hpre Hroom [P1 P2 P3 P4 P5] [C1 C2] Hp Hc].
  sys_cbn. destruct (P1 p e) as [HpV Hpe]; [left|].
  pose proof (lookup_lt_Some _ _ _ Hpe) as Hplt.
  injection Hpb as Hpb. split; sys_cbn; try done.
  - split; cbn; [by rewrite length_insert|by rewrite length_insert].
  - split; sys_cbn; try done.
    + intros q e' Hq. apply P1. by right.
    + intros q Hq. apply P2. by right.
    + intros n Hn. apply P3. by right.
    + by eapply order_tail.
    + destruct P5 as [?|[?|?]%elem_of_cons]; [by left|done|by right].
  - split; sys_cbn.
    + intros q e' Hq He'. pose proof (lookup_lt_Some _ _ _ He') as Hqlt. cbn.
      destruct (decide (q = p)) as [->|Hne].
      * left. assert (e' = e) as -> by congruence. apply list_lookup_insert_eq.
        by eapply slot_of_lt.
      * destruct (C1 q e' Hq He') as [?|Hg].
        -- left. rewrite list_lookup_insert_ne; [done|]. apply Hwin; [done|lia|lia].
        -- right. apply elem_of_cons in Hg as [Hg|Hg]; [by injection Hg as -> _|done].
    + intros q Hq. destruct (C2 q Hq) as [?|Hg]; [by left|right].
      by apply elem_of_cons in Hg as [Hg|Hg].
Qed.

Lemma inv_drain_index nT nV gb m p pb cb pr c bell sent got :
  Inv_at nT nV (GIndex p :: gb) (mkSys m (WIndex (cur start p) :: pb) cb pr c bell sent got) →
  Inv_at nT nV gb
    (mkSys (write_index m (slot_of mask (cur start p)) (Z.of_nat (slot_of mask (cur start p))))
       pb cb pr c bell sent got).
Proof.
  intros H. pose proof (λ q, window_distinct nT nV _ _ p q H) as Hwin. sys_cbn.
  destruct H as [[Hm Hi] Hst Ht Hh Hcb Hpb [Hle1 Hle2] Hpre Hroom [P1 P2 P3 P4 P5] [C1 C2] Hp Hc].
  sys_cbn. destruct (P2 p) as [HpV Hplt]; [left|]. pose proof (written_index_le sent pr) as Hwi.
  injection Hpb as Hpb. split; sys_cbn; try done.
  - split; cbn; [done|by rewrite length_insert].
  - split; sys_cbn; try done.
    + intros q e' Hq. apply P1. by right.
    + intros q Hq. apply P2. by right.
    + intros n Hn. apply P3. by right.
    + by eapply order_tail.
    + destruct P5 as [?|[?|?]%elem_of_cons]; [by left|done|by right].
  - split; sys_cbn.
    + intros q e' Hq He'. destruct (C1 q e' Hq He') as [?|Hg]; [by left|right].
      by apply elem_of_cons in Hg as [Hg|Hg].
    + intros q Hq. cbn. destruct (decide (q = p)) as [->|Hne].
      * left. apply list_lookup_insert_eq. rewrite Hi. by eapply slot_of_lt.
      * destruct (C2 q Hq) as [?|Hg].
        -- left. rewrite list_lookup_insert_ne; [done|]. apply Hwin; [done|lia|lia].
        -- right. apply elem_of_cons in Hg as [Hg|Hg]; [by injection Hg as ->|done].
Qed.

Lemma inv_drain_head nT nV gb m n pb cb pr c bell sent got :
  Inv_at nT nV (GHead n :: gb) (mkSys m (WHead (cur start n) :: pb) cb pr c bell sent got) →
  Inv_at nT n gb (mkSys (set_head m (cur start n)) pb cb pr c bell sent got).
Proof.
  intros [[Hm Hi] Hst Ht Hh Hcb Hpb [Hle1 Hle2] Hpre Hroom [P1 P2 P3 P4 P5] [C1 C2] Hp Hc].
  sys_cbn. destruct (P3 n) as [HnV Hn]; [left|]. injection Hpb as Hpb.
  pose proof (P4 [] n gb eq_refl) as Hafter.
  assert (Hfn : match pr with PPublished _ => True | _ => fenced = true → nV = n end).
  { unfold Prod_ok in Hp. sys_cbn. destruct pr; try done;
      destruct Hp as (_ & _ & Hf); intros Hfe; specialize (Hf Hfe); lia. }
  split; sys_cbn; try done; [split; lia| | | |].
  - split; sys_cbn.
    + intros q e' Hq. split; [by apply (Hafter _ Hq)|]. apply P1. by right.
    + intros q Hq. split; [by apply (Hafter _ Hq)|]. apply P2. by right.
    + intros n' Hn'. split; [by apply (Hafter _ Hn')|]. apply P3. by right.
    + by eapply order_tail.
    + destruct P5 as [->|[[= ->]|?]%elem_of_cons]; [left; lia|by left|by right].
  - split; sys_cbn.
    + intros q e' Hq He'. destruct (C1 q e' Hq He') as [?|Hg]; [by left|right].
      by apply elem_of_cons in Hg as [Hg|Hg].
    + intros q Hq. destruct (C2 q Hq) as [?|Hg]; [by left|right].
      by apply elem_of_cons in Hg as [Hg|Hg].
  - unfold Prod_ok in *. sys_cbn. destruct (prod_batch pr) as [[b st]|] eqn:B; [|done].
    destruct Hp as (? & ? & Hf). split_and!; [done|done|].
    destruct pr; try done; intros Hfe; specialize (Hfn Hfe); specialize (Hf Hfe); lia.
  - unfold Cons_ok in *. sys_cbn. destruct c; try done.
    + destruct Hc. split; [done|lia].
    + destruct Hc as (? & ? & ?). split_and!; [done|lia|done].
    + destruct Hc as (? & ? & ?). split_and!; [done|lia|done].
    + destruct Hc as (? & ? & Hc). split_and!; [done|done|]. intros Hf Hb.
      destruct (Hc Hf Hb) as [Heq|?]; [|by right].
      destruct pr; try (by right); left; specialize (Hfn Hf); lia.
Qed.

Lemma inv_drain_tail nT nV gb m v pb cb pr c bell sent got :
  Inv_at nT nV gb (mkSys m pb (v :: cb) pr c bell sent got) →
  Inv_at (S nT) nV gb (mkSys (set_tail m v) pb cb pr c bell sent got).
Proof.
  intros [[Hm Hi] Hst Ht Hh Hcb Hpb [Hle1 Hle2] Hpre Hroom [P1 P2 P3 P4 P5] [C1 C2] Hp Hc].
  sys_cbn. destruct (length got - nT)%nat as [|k] eqn:K; [done|]. cbn [seq map] in Hcb.
  injection Hcb as -> ->. split; sys_cbn; try done.
  - by replace (length got - S nT)%nat with k by lia.
  - lia.
  - lia.
  - split; sys_cbn; [intros q e' Hq; apply C1; lia|intros q Hq; apply C2; lia].
Qed.

Theorem inv_step s s' : Inv s → step mask fenced s s' → Inv s'.
Proof.
  intros (nT & nV & gb & H) Hstep.
  assert (Hd : ∀ nT' nV' gb', Inv_at nT' nV' gb' s' → Inv s') by (intros; by do 3 eexists).
  destruct Hstep as [Hs|[Hs|Hs]]; destruct Hs.
  - eapply Hd, inv_step_check, H.
  - eapply Hd, inv_step_entry, H.
  - eapply Hd, inv_step_index, H.
  - eapply Hd, inv_step_publish, H.
  - by eapply Hd, inv_step_fence, H.
  - eapply Hd, inv_step_doorbell, H.
  - by eapply Hd, inv_step_queued, H.
  - eapply Hd, inv_step_read_index, H.
  - eapply Hd, inv_step_read_entry, H.
  - eapply Hd, inv_step_take, H.
  - eapply Hd, inv_step_arm, H.
  - eapply Hd, inv_step_look_again, H.
  - eapply Hd, inv_step_wake, H.
  - eapply Hd, inv_step_disarm, H.
  - pose proof (inv_pbuf _ _ _ _ _ _ _ H) as Hpb. destruct gb as [|[n' e'|n'|n'] gb]; [done|..];
      cbn in Hpb; injection Hpb as -> ->; cbn [apply_write].
    + eapply Hd, inv_drain_entry, H.
    + eapply Hd, inv_drain_index, H.
    + eapply Hd, inv_drain_head, H.
  - eapply Hd, inv_drain_tail, H.
Qed.

Lemma inv_init m :
  Chan_shape mask m → ch_head m = start → ch_tail m = start → is_uint 32 start → Inv (init m).
Proof.
  intros Hsh Hh Ht Hs.
  assert (H0 : cur start 0 = start) by (apply wrapping_add_0; done).
  exists 0%nat, 0%nat, []. unfold init. split; sys_cbn; try done.
  - by rewrite H0.
  - by rewrite H0.
  - cbn. destruct (mask_ok_cap _ _ (csh_entries _ _ Hsh)). lia.
  - split; sys_cbn.
    + by intros p e ?%elem_of_nil.
    + by intros p ?%elem_of_nil.
    + by intros n ?%elem_of_nil.
    + intros l1 n l2 E. by apply symmetry, app_nil in E as [_ ?].
    + by left.
  - split; sys_cbn; [done|cbn; lia].
  - split_and!; cbn; [by rewrite H0|done|done].
  - cbn. by rewrite H0.
Qed.

Lemma inv_reached m s :
  Chan_shape mask m → ch_head m = start → ch_tail m = start → is_uint 32 start →
  reached mask fenced m s → Inv s.
Proof.
  intros Hsh Hh Ht Hs Hr. assert (Hi : Inv (init m)) by by apply inv_init.
  unfold reached in Hr. revert Hi. generalize dependent (init m). intros s0 Hr Hi.
  induction Hr as [|s0 s1 s2 H _ IH]; [done|]. by eapply IH, inv_step.
Qed.
End preserve.
