(* ===== verification/RingTheorems.v ===== *)
(** * What the rings guarantee

    Sequentially: the methods of both rings are the operations of a bounded
    queue, a batch is published whole, and the service loop is a loop over two
    queues.  Concurrently: first in, first out, and no lost wakeup, under every
    interleaving of [RingFacts].  Against a hostile peer: no panic and no read
    outside the arrays, whatever the shared memory holds. *)

From S2P Require Import Prelude Abi Control Ring RingFacts RingInv.
Import error.

Definition example_sqe (n : Z) : Sqe := mkSqe op_NOP 0 2 0 n 0 0 0 0 0 0 (0, 0).

(** A ring of four cells whose cursors are about to wrap. *)
Definition example_chan : Chan :=
  mkChan (2 ^ 32 - 2) (2 ^ 32 - 2) 0 (replicate 4 0) (replicate 4 (example_sqe 0)).

Lemma example_chan_shape : Chan_shape 3 example_chan.
Proof. apply Channel_mask_shape. vm_compute. reflexivity. Qed.

(** A ring attached empty, wherever its cursors stand. *)
Lemma Chan_rep_empty mask m :
  Chan_shape mask m → ch_head m = ch_tail m → is_uint 32 (ch_tail m) → Chan_rep mask m [].
Proof.
  intros Hsh Hh Ht. destruct (mask_ok_cap _ _ (csh_entries _ _ Hsh)). split; [done| |].
  - rewrite Hh. split; [done|done| |cbn; lia]. by rewrite wrapping_sub_diag.
  - intros j e Hj. by rewrite lookup_nil in Hj.
Qed.

Lemma example_chan_rep : Chan_rep 3 example_chan [].
Proof. apply Chan_rep_empty; [apply example_chan_shape|done|done]. Qed.

(** ** One end at a time *)

(** C16 The submission ring is a bounded queue: over memory holding the queue [q],
    [submit] appends (or answers [Full] and changes nothing, exactly at
    capacity), and [pop] takes the oldest (or answers that there is none); both
    leave memory holding the new queue, across the wrap of either cursor. *)
Theorem ring_refines_queue mask m q e :
  Chan_rep mask m q →
  (if decide (Z.of_nat (length q) = mask + 1)
   then Producer_submit mask e m = Some (Err Full, m)
   else ∃ m', Producer_submit mask e m = Some (Ok (doorbell_wanted m), m') ∧
              Chan_rep mask m' (q ++ [e])) ∧
  match q with
  | [] => Consumer_pop mask m = Some (Ok None, m)
  | e0 :: q' => ∃ m', Consumer_pop mask m = Some (Ok (Some e0), m') ∧ Chan_rep mask m' q'
  end ∧
  Producer_occupancy mask m = Ok (Z.of_nat (length q)).
Proof.
  intros Hr. pose proof (submit_spec mask m q e Hr) as Hs. pose proof (pop_spec mask m q Hr) as Hp.
  split_and!.
  - destruct (decide _); [done|]. destruct Hs as (m' & ? & ? & _). eauto.
  - destruct q; [done|]. destruct Hp as (m' & ? & ? & _). eauto.
  - destruct Hr as [_ [_ _ Hu Hf] _]. unfold Producer_occupancy. rewrite Hu.
    by destruct (Z.ltb_spec (mask + 1) (Z.of_nat (length q))); [lia|].
Qed.

Lemma ring_refines_queue_witness :
  ∃ m', Producer_submit 3 (example_sqe 7) example_chan = Some (Ok false, m') ∧
        Chan_rep 3 m' [example_sqe 7].
Proof.
  destruct (ring_refines_queue 3 example_chan [] (example_sqe 7) example_chan_rep) as (Hs & _).
  rewrite decide_False in Hs by (cbn; lia). exact Hs.
Defined.

(** Pushing a list of entries into one batch. *)
Fixpoint Batch_push_all (mask : Z) (b : Batch) (es : list Sqe) (m : Chan) : option (Batch * Chan) :=
  match es with
  | [] => Some (b, m)
  | e :: es =>
      match Batch_push mask b e m with
      | Some (Ok _, b', m') => Batch_push_all mask b' es m'
      | _ => None
      end
  end.

Lemma batch_push_all_spec mask m b q st es :
  Batch_rep mask m b q st → Z.of_nat (length (q ++ st) + length es) ≤ mask + 1 →
  ∃ b' m', Batch_push_all mask b es m = Some (b', m') ∧ Batch_rep mask m' b' q (st ++ es).
Proof.
  revert m b st. induction es as [|e es IH]; intros m b st Hb Hl; cbn [Batch_push_all].
  { exists b, m. by rewrite app_nil_r. }
  pose proof (batch_push_spec _ _ _ _ _ e Hb) as Hp. cbn [length] in Hl.
  rewrite decide_False in Hp by lia. destruct Hp as (b1 & m1 & -> & Hb1).
  rewrite (app_assoc st [e] es : st ++ e :: es = (st ++ [e]) ++ es). apply IH; [done|].
  rewrite !length_app in *. cbn [length]. lia.
Qed.

(** A batch is all or nothing to the consumer: until it is published the
    consumer's queue is what it was, and the one store of [publish] makes every
    staged entry visible, in order, behind it. *)
Theorem batch_publishes_whole mask m q es :
  Chan_rep mask m q → Z.of_nat (length q + length es) ≤ mask + 1 →
  ∃ b m1 m2, Batch_push_all mask (Producer_batch m) es m = Some (b, m1) ∧
    Chan_rep mask m1 q ∧
    Batch_publish b m1 = (Ok (bool_decide (es ≠ []) && doorbell_wanted m1), m2) ∧
    Chan_rep mask m2 (q ++ es).
Proof.
  intros Hr Hl.
  destruct (batch_push_all_spec mask m (Producer_batch m) q [] es) as (b & m1 & E & Hb).
  - by apply Batch_rep_new.
  - by rewrite app_nil_r.
  - destruct (batch_publish_spec _ _ _ _ _ Hb) as (m2 & Hp & Hr2 & _).
    exists b, m1, m2. split_and!; [done|apply Hb|done|done].
Qed.

Lemma batch_publishes_whole_witness :
  ∃ b m1 m2, Batch_push_all 3 (Producer_batch example_chan) (map example_sqe [1; 2; 3]) example_chan
             = Some (b, m1) ∧ Chan_rep 3 m1 [] ∧ Chan_rep 3 m2 (map example_sqe [1; 2; 3]).
Proof.
  destruct (batch_publishes_whole 3 example_chan [] (map example_sqe [1; 2; 3]) example_chan_rep)
    as (b & m1 & m2 & E & H1 & _ & H2); [cbn; lia|]. eauto 10.
Defined.

(** Whatever a peer writes into the shared memory (cursors, index and entries
    alike), [pop] neither panics nor reads outside the arrays: it answers
    [Corrupt] or that nothing is queued and changes nothing, or returns an entry
    of the array and moves its own cursor by one. *)
Theorem pop_hostile mask m :
  Chan_shape mask m → Forall (is_uint 32) (ch_index m) →
  Consumer_pop mask m = Some (Err Corrupt, m) ∨
  Consumer_pop mask m = Some (Ok None, m) ∨
  ∃ e, e ∈ ch_entries m ∧
    Consumer_pop mask m = Some (Ok (Some e), set_tail m (wrapping_add 32 (ch_tail m) 1)).
Proof.
  intros [Hm Hi] Hu. unfold Consumer_pop.
  destruct (Z.ltb_spec (mask + 1) (wrapping_sub 32 (ch_head m) (ch_tail m))); [by left|].
  destruct (Z.eqb_spec (wrapping_sub 32 (ch_head m) (ch_tail m)) 0); [by right; left|].
  pose proof (slot_of_lt _ _ (ch_tail m) Hm) as Hlt.
  destruct (lookup_lt_is_Some_2 (ch_index m) (slot_of mask (ch_tail m))) as [slot Hs]; [lia|].
  pose proof (Forall_lookup_1 _ _ _ _ Hu Hs) as [Hs0 _].
  rewrite Hs; rsimpl. destruct (Z.leb_spec (Z.of_nat (length (ch_entries m))) slot); [by left|].
  right; right. destruct (lookup_lt_is_Some_2 (ch_entries m) (Z.to_nat slot)) as [e He]; [lia|].
  exists e. rewrite He. split; [by eapply list_elem_of_lookup_2|done].
Qed.

Definition hostile_chan : Chan :=
  mkChan 1 0 0 [4; 4; 4; 4] (replicate 4 (example_sqe 0)).

Lemma pop_hostile_witness : Consumer_pop 3 hostile_chan = Some (Err Corrupt, hostile_chan).
Proof.
  destruct (pop_hostile 3 hostile_chan) as [H|[H|(e & _ & H)]].
  - apply Channel_mask_shape. vm_compute. reflexivity.
  - repeat constructor; vm_compute; discriminate || reflexivity.
  - exact H.
  - vm_compute in H. discriminate H.
  - vm_compute in H. discriminate H.
Defined.

(** ** Both ends at once *)

(** Attached with both cursors where the ring was left, anywhere in [u32]. *)
Definition attached (mask : Z) (m : Chan) : Prop :=
  Chan_shape mask m ∧ ch_head m = ch_tail m ∧ is_uint 32 (ch_tail m).

(** A schedule: which store or load happens next.  [run] follows one and answers
    the state reached, or [None] when the next step is not enabled. *)
Inductive action : Type :=
| ACheck (e : Sqe) | AEntry | AIndex | APublish | AFence | ADoorbell
| AQueued | AReadIndex | AReadEntry | ATake | AArm | ALook | AWake
| ADrainProducer | ADrainConsumer.

Definition act (mask : Z) (fenced : bool) (a : action) (s : Sys) : option Sys :=
  let '(mkSys m pb cb p c bell sent got) := s in
  match a, p, c with
  | ACheck e, PReady b st, _ => Some (mkSys m pb cb (check_room mask b st e (ch_tail m)) c bell sent got)
  | AEntry, PEntry b st e, _ => Some (mkSys m (pb ++ [WEntry (batch_cursor b) e]) cb (PIndex b st e) c bell sent got)
  | AIndex, PIndex b st e, _ =>
      Some (mkSys m (pb ++ [WIndex (batch_cursor b)]) cb
              (PReady (mkBatch (batch_base b) (batch_staged b + 1)) (st ++ [e])) c bell sent got)
  | APublish, PReady b st, _ =>
      if batch_staged b =? 0 then None
      else Some (mkSys m (pb ++ [WHead (batch_cursor b)]) cb (PPublished (mkBatch (batch_cursor b) 0)) c bell
                   (sent ++ st) got)
  | AFence, PPublished b, _ =>
      match fenced, pb with
      | true, _ :: _ => None
      | _, _ => Some (mkSys m pb cb (PFenced b) c bell sent got)
      end
  | ADoorbell, PFenced b, _ => Some (mkSys m pb cb (PReady b []) c (bell || doorbell_wanted m) sent got)
  | AQueued, _, CReady tail =>
      c' ← check_queued mask tail (ch_head m); Some (mkSys m pb cb p c' bell sent got)
  | AReadIndex, _, CIndex tail =>
      Some (mkSys m pb cb p
              (match ch_index m !! slot_of mask tail with
               | Some slot => if Z.of_nat (length (ch_entries m)) <=? slot then CFailed else CSlot tail slot
               | None => CFailed
               end) bell sent got)
  | AReadEntry, _, CSlot tail slot =>
      Some (mkSys m pb cb p
              (match ch_entries m !! Z.to_nat slot with Some e => CGot tail e | None => CFailed end)
              bell sent got)
  | ATake, _, CGot tail e =>
      Some (mkSys m pb (cb ++ [wrapping_add 32 tail 1]) p (CReady (wrapping_add 32 tail 1)) bell sent (got ++ [e]))
  | AArm, _, CReady tail =>
      match cb with
      | [] => Some (mkSys (Consumer_arm_wakeup m) pb [] p (CArmed tail) bell sent got)
      | _ => None
      end
  | ALook, _, CArmed tail =>
      Some (mkSys m pb cb p
              (match check_queued mask tail (ch_head m) with Some c => c | None => CAsleep tail end) bell sent got)
  | AWake, _, CAsleep tail => if bell then Some (mkSys m pb cb p (CReady tail) false sent got) else None
  | ADrainProducer, _, _ =>
      match pb with w :: pb => Some (mkSys (apply_write mask w m) pb cb p c bell sent got) | [] => None end
  | ADrainConsumer, _, _ =>
      match cb with v :: cb => Some (mkSys (set_tail m v) pb cb p c bell sent got) | [] => None end
  | _, _, _ => None
  end.

Definition run (mask : Z) (fenced : bool) (l : list action) (s : Sys) : option Sys :=
  foldl (λ os a, s ← os; act mask fenced a s) (Some s) l.

Lemma act_step mask fenced a s s' : act mask fenced a s = Some s' → step mask fenced s s'.
Proof.
  destruct s as [m pb cb p c bell sent got]. destruct a; cbn [act].
  - destruct p; try discriminate. intros [= <-]. left. constructor.
  - destruct p; try discriminate. intros [= <-]. left. constructor.
  - destruct p; try discriminate. intros [= <-]. left. constructor.
  - destruct p as [b st|? ? ?|? ? ?|?|?|]; try discriminate.
    destruct (Z.eqb_spec (batch_staged b) 0); [discriminate|]. intros [= <-]. left. by constructor.
  - destruct p; try discriminate. destruct fenced, pb; try discriminate; intros [= <-]; left; by constructor.
  - destruct p; try discriminate. intros [= <-]. left. constructor.
  - destruct c; try by destruct p. destruct (check_queued mask tail (ch_head m)) eqn:Q.
    + destruct p; intros [= <-]; right; left; by constructor.
    + by destruct p.
  - destruct c; try by destruct p. destruct p; intros [= <-]; right; left; by constructor.
  - destruct c; try by destruct p. destruct p; intros [= <-]; right; left; by constructor.
  - destruct c; try by destruct p. destruct p; intros [= <-]; right; left; by constructor.
  - destruct c; try by destruct p. destruct cb; [|by destruct p].
    destruct p; intros [= <-]; right; left; by constructor.
  - destruct c; try by destruct p. destruct p; intros [= <-]; right; left; by constructor.
  - destruct c; try by destruct p. destruct bell; [|by destruct p].
    destruct p; intros [= <-]; right; left; by constructor.
  - destruct pb; [by destruct p|]. destruct p; intros [= <-]; right; right; by constructor.
  - destruct cb; [by destruct p|]. destruct p; intros [= <-]; right; right; by constructor.
Qed.

Lemma run_reached mask fenced l m s :
  run mask fenced l (init m) = Some s → reached mask fenced m s.
Proof.
  unfold run, reached. revert s. induction l as [|a l IH] using rev_ind; intros s; cbn.
  { intros [= <-]. constructor. }
  rewrite foldl_app; cbn. destruct (foldl _ _ l) as [s1|] eqn:E; [|done]. cbn. intros Ha.
  eapply rtc_r; [by apply IH|by eapply act_step].
Qed.

(** C17 Under every interleaving of the two ends' loads and stores, each behind its
    own store buffer, what the consumer has taken is at every moment a prefix
    of what the producer has published, in order and without loss or
    duplication, and neither end ever sees a cursor or slot it must refuse. *)
Theorem ring_fifo mask fenced m s :
  attached mask m → reached mask fenced m s →
  sys_got s = take (length (sys_got s)) (sys_sent s) ∧
  sys_prod s ≠ PFailed ∧ sys_cons s ≠ CFailed.
Proof.
  intros (Hsh & Hh & Ht) Hr.
  destruct (inv_reached mask (ch_tail m) fenced m s) as (nT & nV & gb & H); try done.
  split_and!; [apply H| |].
  - intros E. pose proof (inv_prod _ _ _ _ _ _ _ H) as Hp. unfold Prod_ok in Hp. by rewrite E in Hp.
  - intros E. pose proof (inv_cons _ _ _ _ _ _ _ H) as Hc. unfold Cons_ok in Hc. by rewrite E in Hc.
Qed.

Lemma example_attached : attached 3 example_chan.
Proof. split; [apply example_chan_shape|by split]. Qed.

Definition one_entry : list action :=
  [ACheck (example_sqe 7); AEntry; AIndex; APublish; ADrainProducer; ADrainProducer; ADrainProducer;
   AFence; ADoorbell; AQueued; AReadIndex; AReadEntry; ATake].

Definition after (fenced : bool) (l : list action) : Sys :=
  default (init example_chan) (run 3 fenced l (init example_chan)).

Lemma ring_fifo_witness : sys_got (after true one_entry) = [example_sqe 7].
Proof.
  destruct (ring_fifo 3 true example_chan (after true one_entry) example_attached) as [E _].
  - apply (run_reached 3 true one_entry). vm_compute. reflexivity.
  - rewrite E. vm_compute. reflexivity.
Defined.

(** C18 No wakeup is lost: with the fence the code has, whenever the consumer is
    asleep and unrung and the producer is back from its call, everything
    published has been taken. *)
Theorem no_lost_wakeup mask m s t b st :
  attached mask m → reached mask true m s →
  sys_cons s = CAsleep t → sys_bell s = false → sys_prod s = PReady b st →
  sys_got s = sys_sent s.
Proof.
  intros (Hsh & Hh & Ht) Hr Ec Eb Ep.
  destruct (inv_reached mask (ch_tail m) true m s) as (nT & nV & gb & H); try done.
  pose proof (inv_cons _ _ _ _ _ _ _ H) as Hc. unfold Cons_ok in Hc. rewrite Ec in Hc.
  destruct Hc as (_ & _ & Hc). destruct (Hc eq_refl Eb) as [Hv|Hv]; [|by rewrite Ep in Hv].
  pose proof (inv_prod _ _ _ _ _ _ _ H) as Hp. unfold Prod_ok in Hp. rewrite Ep in Hp. cbn in Hp.
  destruct Hp as (_ & _ & Hp). specialize (Hp eq_refl).
  rewrite (inv_prefix _ _ _ _ _ _ _ H). rewrite <- Hv, Hp. by apply take_ge.
Qed.

Definition sleeps : list action := one_entry ++ [ADrainConsumer; AArm; ALook].

Lemma no_lost_wakeup_witness : sys_got (after true sleeps) = sys_sent (after true sleeps).
Proof.
  eapply (no_lost_wakeup 3 example_chan (after true sleeps)); [exact example_attached| | | |].
  - apply (run_reached 3 true sleeps). vm_compute. reflexivity.
  - vm_compute. reflexivity.
  - vm_compute. reflexivity.
  - vm_compute. reflexivity.
Defined.

(** Without the fence a wakeup can be lost: there is a run to a state where
    both buffers are empty, the consumer is asleep and unrung, the producer is
    done, and a published entry is waiting. *)
Theorem fence_needed :
  ∃ s, reached 3 false example_chan s ∧
    sys_pbuf s = [] ∧ sys_cbuf s = [] ∧ sys_cons s = CAsleep (ch_tail example_chan) ∧
    sys_bell s = false ∧ (∃ b, sys_prod s = PReady b []) ∧
    sys_got s = [] ∧ sys_sent s = [example_sqe 7].
Proof.
  set (l := [ACheck (example_sqe 7); AEntry; AIndex; APublish; AFence; ADoorbell; AArm; ALook;
             ADrainProducer; ADrainProducer; ADrainProducer]).
  exists (after false l). split; [apply (run_reached 3 false l); vm_compute; reflexivity|].
  vm_compute. split_and!; try reflexivity. by eexists.
Qed.

(** The steps are the code's: run one after another with the buffers drained
    as they fill, a producer's steps make exactly the memory and the doorbell
    answer of [submit], and a consumer's exactly the memory and the entry of
    [pop]. *)
Theorem calls_are_steps mask m e cb c bell sent got :
  Chan_shape mask m → is_uint 32 (ch_head m) →
  (∀ w m', Producer_submit mask e m = Some (Ok w, m') →
    run mask true [ACheck e; AEntry; ADrainProducer; AIndex; ADrainProducer; APublish; ADrainProducer;
                   AFence; ADoorbell]
      (mkSys m [] cb (PReady (Producer_batch m) []) c bell sent got) =
    Some (mkSys m' [] cb (PReady (Producer_batch m') []) c (bell || w) (sent ++ [e]) got)) ∧
  (∀ e' p pb m', Consumer_pop mask m = Some (Ok (Some e'), m') →
    run mask true [AQueued; AReadIndex; AReadEntry; ATake; ADrainConsumer]
      (mkSys m pb [] p (CReady (ch_tail m)) bell sent got) =
    Some (mkSys m' pb [] p (CReady (ch_tail m')) bell sent (got ++ [e']))).
Proof.
  intros [Hm Hi] Hh. split.
  - intros w m'. unfold Producer_submit, Producer_stage.
    assert (Hb : ∀ b, batch_cursor (mkBatch (ch_head m) b) = wrapping_add 32 (ch_head m) b) by done.
    pose proof (wrapping_add_0 32 _ Hh) as H0.
    set (used := wrapping_sub 32 (ch_head m) (ch_tail m)).
    destruct (Z.ltb_spec (mask + 1) used) as [|Hu]; [done|].
    destruct (Z.eqb_spec used (mask + 1)) as [|Hne]; [done|].
    case_match; [|done]. rsimpl. intros [= <- <-].
    unfold run, Producer_batch. cbn [foldl mbind option_bind act]. unfold check_room.
    rewrite Hb, H0. fold used.
    destruct (Z.ltb_spec (mask + 1) used); [lia|]. destruct (Z.eqb_spec used (mask + 1)); [lia|].
    cbn -[wrapping_add slot_of]. rewrite Hb, H0. done.
  - intros e' p pb m'. unfold Consumer_pop.
    set (used := wrapping_sub 32 (ch_head m) (ch_tail m)).
    destruct (Z.ltb_spec (mask + 1) used) as [|Hu]; [done|].
    destruct (Z.eqb_spec used 0) as [|Hne]; [done|].
    destruct (ch_index m !! slot_of mask (ch_tail m)) as [slot|] eqn:Ei; [|done]. rsimpl.
    destruct (Z.of_nat (length (ch_entries m)) <=? slot) eqn:El; [done|].
    destruct (ch_entries m !! Z.to_nat slot) as [e0|] eqn:Ee; [|done]. rsimpl. intros [= <- <-].
    assert (Hq : check_queued mask (ch_tail m) (ch_head m) = Some (CIndex (ch_tail m))).
    { unfold check_queued. fold used. destruct (Z.ltb_spec (mask + 1) used); [lia|].
      by destruct (Z.eqb_spec used 0). }
    unfold run. cbn [foldl mbind option_bind].
    assert (E1 : act mask true AQueued (mkSys m pb [] p (CReady (ch_tail m)) bell sent got) =
                 Some (mkSys m pb [] p (CIndex (ch_tail m)) bell sent got)).
    { cbn [act]. rewrite Hq. by destruct p. }
    rewrite E1. cbn [mbind option_bind].
    assert (E2 : act mask true AReadIndex (mkSys m pb [] p (CIndex (ch_tail m)) bell sent got) =
                 Some (mkSys m pb [] p (CSlot (ch_tail m) slot) bell sent got)).
    { cbn [act]. rewrite Ei, El. by destruct p. }
    rewrite E2. cbn [mbind option_bind].
    assert (E3 : act mask true AReadEntry (mkSys m pb [] p (CSlot (ch_tail m) slot) bell sent got) =
                 Some (mkSys m pb [] p (CGot (ch_tail m) e0) bell sent got)).
    { cbn [act]. rewrite Ee. by destruct p. }
    rewrite E3. by destruct p.
Qed.

Lemma calls_are_steps_witness :
  (run 3 true [ACheck (example_sqe 7); AEntry; ADrainProducer; AIndex; ADrainProducer; APublish;
               ADrainProducer; AFence; ADoorbell] (init example_chan)) ≠ None.
Proof.
  destruct (calls_are_steps 3 example_chan (example_sqe 7) [] (CReady (ch_tail example_chan)) false [] []
              example_chan_shape) as [H _]; [by split|].
  unfold init. rewrite (H false (default example_chan (snd <$> Producer_submit 3 (example_sqe 7) example_chan))).
  - discriminate.
  - vm_compute. reflexivity.
Defined.
