(* ===== verification/RingService.v ===== *)
(** * The service loop: executing what the submission ring holds

    [execute], [write_serial] and [Service::drain] of [ring/src/lib.rs], for any
    [Sink].  The specification of [drain] is a loop over two plain queues
    ([serve]); [drain_refines] says the loop over the rings is that loop. *)

From S2P Require Import Prelude Abi Control Ring RingFacts RingTheorems.
Import error.

Section service.
Context {S : Type} (sink_write : S → list Z → Z * S).

(** What [Sink::write] documents: it answers how much it took of what it was
    offered. *)
Hypothesis sink_accepts : ∀ s bytes, 0 ≤ (sink_write s bytes).1 ≤ Z.of_nat (length bytes).

(** ** [write_serial] *)
Lemma Arena_copy_out_inside a offset len :
  0 ≤ offset → 0 ≤ len → offset + len ≤ Z.of_nat (length a) → offset + len ≤ u64_max →
  Arena_copy_out a offset len = Some (take (Z.to_nat len) (drop (Z.to_nat offset) a)) ∧
  length (take (Z.to_nat len) (drop (Z.to_nat offset) a)) = Z.to_nat len.
Proof.
  intros. unfold Arena_copy_out. destruct (Z.ltb_spec u64_max (offset + len)); [lia|].
  destruct (Z.ltb_spec (Z.of_nat (length a)) (offset + len)); [lia|].
  split; [done|]. rewrite length_take, length_drop. lia.
Qed.

Lemma write_serial_loop_bounds fuel a offset len written sink :
  0 ≤ offset → 0 ≤ written ≤ len → offset + len ≤ Z.of_nat (length a) → offset + len ≤ u64_max →
  (Z.to_nat (len - written) < fuel)%nat →
  ∃ n sink', write_serial_loop sink_write fuel a offset len written sink = (Some n, sink') ∧
             written ≤ n ≤ len.
Proof.
  intros Ho Hw Hl Hu. revert written sink Hw. induction fuel as [|fuel IH]; intros written sink Hw Hf; [lia|].
  cbn [write_serial_loop]. destruct (Z.ltb_spec written len); [|exists written, sink; split; [done|lia]].
  set (n := Z.min CHUNK (len - written)). assert (Hn : 0 < n ≤ len - written) by (unfold n, CHUNK; lia).
  destruct (Arena_copy_out_inside a (offset + written) n) as [-> Hlen]; [lia..|].
  set (chunk := take _ _) in *. pose proof (sink_accepts sink chunk) as Ha.
  destruct (sink_write sink chunk) as [accepted sink1]. cbn [fst] in Ha.
  destruct (Z.ltb_spec accepted n); [exists (written + accepted), sink1; split; [done|lia]|].
  destruct (IH (written + accepted) sink1) as (k & sink' & -> & ?); [lia|lia|].
  exists k, sink'. split; [done|lia].
Qed.

Definition sqe_typed (e : Sqe) : Prop :=
  is_uint 8 (sqe_opcode e) ∧ is_uint 8 (sqe_flags e) ∧ is_uint 64 (sqe_user_data e) ∧
  is_uint 64 (sqe_offset e) ∧ is_uint 32 (sqe_len e) ∧ is_uint 32 (sqe_reserved e).

(** A write inside the arena answers a count of it; one that is not answers
    [BAD_ADDRESS] and the sink has seen nothing. *)
Lemma write_serial_spec e a sink :
  sqe_typed e →
  if decide (sqe_len e ≤ i32_max ∧ sqe_offset e + sqe_len e ≤ u64_max ∧
             sqe_offset e + sqe_len e ≤ Z.of_nat (length a))
  then ∃ n sink', write_serial sink_write e a sink = (Ok n, sink') ∧ 0 ≤ n ≤ sqe_len e
  else ∃ detail, write_serial sink_write e a sink = (Err (BAD_ADDRESS, detail), sink).
Proof.
  intros (_ & _ & _ & [Ho _] & [Hl _] & _). unfold write_serial.
  destruct (Z.ltb_spec i32_max (sqe_len e)); [rewrite decide_False by lia; eauto|].
  destruct (Z.ltb_spec u64_max (sqe_offset e + sqe_len e)); [rewrite decide_False by lia; eauto|].
  destruct (Z.ltb_spec (Z.of_nat (length a)) (sqe_offset e + sqe_len e)); cbn [orb];
    [rewrite decide_False by lia; eauto|].
  rewrite decide_True by lia.
  destruct (write_serial_loop_bounds (Datatypes.S (Z.to_nat (sqe_len e))) a (sqe_offset e) (sqe_len e) 0 sink)
    as (n & sink' & -> & ?); [lia..|]. eauto.
Qed.

(** ** [execute] *)

(** The envelope's own faults, in the order they are looked for. *)
Definition envelope_fault (e : Sqe) : option (Z * Z) :=
  if negb (sqe_reserved e =? 0) then Some (RESERVED_NOT_ZERO, sqe_reserved e)
  else if negb (Z.land (sqe_flags e) (Z.lxor flags_KNOWN 255) =? 0)
  then Some (UNKNOWN_FLAG, Z.land (sqe_flags e) (Z.lxor flags_KNOWN 255))
  else if negb (op_known (sqe_opcode e)) then Some (UNKNOWN_OPCODE, sqe_opcode e)
  else None.

Lemma error_pack_is_error user_data code detail now :
  is_uint 16 code → Cqe_is_error (refusal user_data (error_pack ARGUMENT code) detail now) = true.
Proof.
  intros Hc. unfold Cqe_is_error, refusal; cbn. apply Z.ltb_lt.
  apply error_pack_negative; [done|done].
Qed.

(** What one entry earns. A malformed envelope is refused with its own code,
    the sink untouched, whatever the flags say; a well-formed one is executed,
    and answers a completion naming its [user_data], an error with its reason
    or a result that is not one, except that a success flagged [NO_CQE] answers
    nothing. *)
Theorem execute_answers e a sink now :
  sqe_typed e →
  match envelope_fault e with
  | Some (code, detail) =>
      execute sink_write e a sink now =
      (Some (refusal (sqe_user_data e) (error_pack ARGUMENT code) detail now), sink)
  | None =>
      let ok := negb (Z.land (sqe_flags e) flags_NO_CQE =? 0) in
      (∃ n sink', execute sink_write e a sink now =
         ((if ok then None else Some (completion (sqe_user_data e) n now)), sink') ∧
         0 ≤ n ≤ sqe_len e ∧ (sqe_opcode e = op_NOP → n = 0 ∧ sink' = sink)) ∨
      (∃ detail, sqe_opcode e = op_WRITE_SERIAL ∧ execute sink_write e a sink now =
         (Some (refusal (sqe_user_data e) (error_pack ARGUMENT BAD_ADDRESS) detail now), sink))
  end.
Proof.
  intros He. unfold envelope_fault, execute.
  destruct (negb (sqe_reserved e =? 0)); [done|].
  destruct (negb (Z.land (sqe_flags e) (Z.lxor flags_KNOWN 255) =? 0)); [done|].
  destruct (op_known (sqe_opcode e)) eqn:K; [|done]. cbn [negb].
  destruct (Z.eqb_spec (sqe_opcode e) op_NOP) as [Hn|Hn].
  - left. exists 0, sink. split; [|destruct He as (_ & _ & _ & _ & [? _] & _); split; [lia|done]].
    by destruct (negb _).
  - unfold op_known in K. destruct (Z.eqb_spec (sqe_opcode e) op_NOP); [done|]. cbn [orb] in K.
    rewrite K. pose proof (write_serial_spec e a sink He) as Hw. case_decide.
    + destruct Hw as (n0 & sink' & -> & ?). left. exists n0, sink'.
      split; [by destruct (negb _)|split; [done|done]].
    + destruct Hw as (detail & ->). right. exists detail. split; [by apply Z.eqb_eq|done].
Qed.

(** ** [drain] *)

(** The loop over plain queues: what is posted, what is left, the sink and the
    counts.  [free] is the room the completion queue has. *)
Fixpoint serve (budget : nat) (free : Z) (a : Arena) (now : Z) (q : list Sqe) (done : Drained) (sink : S) :
    list Cqe * list Sqe * Drained * S :=
  match budget with
  | O => ([], q, done, sink)
  | Datatypes.S budget =>
      if free =? 0 then ([], q, done, sink)
      else
        match q with
        | [] => ([], q, done, sink)
        | e :: q =>
            let '(cqe, sink) := execute sink_write e a sink now in
            match cqe with
            | None => serve budget free a now q (mkDrained (executed done + 1) (completed done) (refused done)) sink
            | Some c =>
                let '(posted, q, done, sink) :=
                  serve budget (free - 1) a now q
                    (mkDrained (executed done + 1) (completed done + 1)
                       (if Cqe_is_error c then refused done + 1 else refused done)) sink in
                (c :: posted, q, done, sink)
            end
        end
  end.

Record Service_rep (sqm cqm : Z) (s : @Service S) (q : list Sqe) (cq : list Cqe) : Prop := {
  srep_sq : Chan_rep sqm (svc_submissions s) q;
  srep_cq : Comp_rep cqm (svc_completions s) cq;
}.

Lemma drain_loop_refines sqm cqm budget now q cq done s :
  Service_rep sqm cqm s q cq →
  let '(posted, rest, done', sink') :=
    serve budget (cqm + 1 - Z.of_nat (length cq)) (svc_arena s) now q done (svc_sink s) in
  ∃ s', drain_loop sink_write sqm cqm budget now done s = Some (Ok done', s') ∧
        Service_rep sqm cqm s' rest (cq ++ posted) ∧
        svc_arena s' = svc_arena s ∧ svc_sink s' = sink'.
Proof.
  revert q cq done s. induction budget as [|budget IH]; intros q cq done s [Hq Hc]; cbn [serve drain_loop].
  { exists s. rewrite app_nil_r. by split_and!. }
  rewrite (free_spec _ _ _ Hc).
  destruct (Z.eqb_spec (cqm + 1 - Z.of_nat (length cq)) 0) as [|Hfree].
  { exists s. rewrite app_nil_r. by split_and!. }
  pose proof (pop_spec _ _ _ Hq) as Hp. destruct q as [|e q].
  { rewrite Hp; rsimpl. eexists. split; [done|]. rewrite app_nil_r. by split_and!. }
  destruct Hp as (m' & Hp & Hq' & _). rewrite Hp; rsimpl.
  destruct (execute sink_write e (svc_arena s) (svc_sink s) now) as [[c|] sink1].
  - pose proof (post_spec _ _ _ c Hc) as Hpost. rewrite decide_False in Hpost by lia.
    destruct Hpost as (cq' & -> & Hc'); rsimpl.
    specialize (IH q (cq ++ [c])
      (mkDrained (executed done + 1) (completed done + 1)
         (if Cqe_is_error c then refused done + 1 else refused done))
      (mkService m' cq' (svc_arena s) sink1) ltac:(by split)).
    cbn [svc_arena svc_sink executed completed refused] in *.
    replace (cqm + 1 - Z.of_nat (length cq) - 1) with (cqm + 1 - Z.of_nat (length (cq ++ [c])))
      by (rewrite length_app; cbn [length]; lia).
    destruct (serve budget _ (svc_arena s) now q _ sink1) as [[[posted rest] done'] sink'].
    destruct IH as (s' & -> & Hr & Ha & Hs). exists s'. rewrite <- (assoc_L (++)) in Hr. by split_and!.
  - specialize (IH q cq (mkDrained (executed done + 1) (completed done) (refused done))
      (mkService m' (svc_completions s) (svc_arena s) sink1) ltac:(by split)).
    cbn [svc_arena svc_sink] in *. exact IH.
Qed.

(** What the loop over queues does with its budget. *)
Lemma serve_counts budget free a now q done sink :
  0 ≤ free →
  let '(posted, rest, done', _) := serve budget free a now q done sink in
  ∃ served, q = served ++ rest ∧ (length served ≤ budget)%nat ∧
    executed done' = executed done + Z.of_nat (length served) ∧
    completed done' = completed done + Z.of_nat (length posted) ∧
    Z.of_nat (length posted) ≤ free ∧
    (rest = [] ∨ length served = budget ∨ Z.of_nat (length posted) = free).
Proof.
  revert free q done sink. induction budget as [|budget IH]; intros free q done sink Hf; cbn [serve].
  { exists []. cbn. split_and!; [done|lia|lia|lia|lia|by right; left]. }
  destruct (Z.eqb_spec free 0) as [->|Hne].
  { exists []. cbn. split_and!; [done|lia|lia|lia|lia|by right; right]. }
  destruct q as [|e q].
  { exists []. cbn. split_and!; [done|lia|lia|lia|lia|by left]. }
  destruct (execute sink_write e a sink now) as [[c|] sink1].
  - pose proof (IH (free - 1) q (mkDrained (executed done + 1) (completed done + 1)
       (if Cqe_is_error c then refused done + 1 else refused done)) sink1 ltac:(lia)) as H.
    destruct (serve budget _ _ _ q _ sink1) as [[[posted rest] done'] sink'].
    destruct H as (served & -> & ? & He & Hc & ? & Hstop). exists (e :: served).
    cbn [executed completed length] in *. split_and!; [done|lia|lia|lia|lia|].
    destruct Hstop as [?|[?|?]]; [by left|right; left; lia|right; right; lia].
  - pose proof (IH free q (mkDrained (executed done + 1) (completed done) (refused done)) sink1 Hf) as H.
    destruct (serve budget _ _ _ q _ sink1) as [[[posted rest] done'] sink'].
    destruct H as (served & -> & ? & He & Hc & ? & Hstop). exists (e :: served).
    cbn [executed completed length] in *. split_and!; [done|lia|lia|lia|lia|].
    destruct Hstop as [?|[?|?]]; [by left|right; left; lia|by right; right].
Qed.

(** C19 [drain] is the loop over two queues: it never panics and never fails over
    rings in good order; it executes the oldest submissions in order, at most
    [budget] of them, posts a completion for each that earned one behind those
    already waiting, and stops only with the submissions empty, the budget
    spent, or no room for a completion, so none is ever lost. *)
Theorem drain_refines sqm cqm budget now s q cq :
  Service_rep sqm cqm s q cq → 0 ≤ budget →
  ∃ served rest posted s' done,
    Service_drain sink_write sqm cqm budget now s = Some (Ok done, s') ∧
    q = served ++ rest ∧ Service_rep sqm cqm s' rest (cq ++ posted) ∧
    executed done = Z.of_nat (length served) ∧ executed done ≤ budget ∧
    completed done = Z.of_nat (length posted) ∧
    serve (Z.to_nat budget) (cqm + 1 - Z.of_nat (length cq)) (svc_arena s) now q (mkDrained 0 0 0) (svc_sink s)
      = (posted, rest, done, svc_sink s') ∧
    (rest = [] ∨ executed done = budget ∨ Z.of_nat (length (cq ++ posted)) = cqm + 1).
Proof.
  intros Hr Hb. pose proof (drain_loop_refines _ _ (Z.to_nat budget) now q cq (mkDrained 0 0 0) s Hr) as Hd.
  pose proof (cur_fits _ _ _ _ (prep_cursors _ _ _ (srep_cq _ _ _ _ _ Hr))) as Hfits.
  pose proof (serve_counts (Z.to_nat budget) (cqm + 1 - Z.of_nat (length cq)) (svc_arena s) now q
                (mkDrained 0 0 0) (svc_sink s) ltac:(lia)) as Hc.
  destruct (serve (Z.to_nat budget) _ _ now q _ _) as [[[posted rest] done] sink'].
  destruct Hd as (s' & Hd & Hr' & _ & <-). destruct Hc as (served & -> & ? & He & Hcm & ? & Hstop).
  exists served, rest, posted, s', done. cbn [executed completed] in *.
  split_and!; try done; [lia|]. rewrite length_app.
  destruct Hstop as [?|[?|?]]; [by left|right; left; lia|right; right; lia].
Qed.
End service.

(** ** An instance: a sink that keeps what it is given *)
Definition log_write (log : list Z) (bytes : list Z) : Z * list Z :=
  (Z.of_nat (length bytes), log ++ bytes).

Lemma log_accepts log bytes : 0 ≤ (log_write log bytes).1 ≤ Z.of_nat (length bytes).
Proof. cbn. lia. Qed.

Definition write_sqe : Sqe := mkSqe op_WRITE_SERIAL 0 2 0 11 0 2 0 0 3 0 (0, 0).

Lemma execute_answers_witness :
  ∃ n log, execute log_write write_sqe [10; 20; 30; 40; 50] [] 99 = (Some (completion 11 n 99), log) ∧
           0 ≤ n ≤ 3.
Proof.
  assert (Ht : sqe_typed write_sqe).
  { unfold sqe_typed, is_uint. vm_compute. repeat split; discriminate || reflexivity. }
  destruct (execute_answers log_write log_accepts write_sqe [10; 20; 30; 40; 50] [] 99 Ht)
    as [(n & log & E & Hn & _)|(d & _ & E)].
  - exists n, log. split; [exact E|exact Hn].
  - vm_compute in E. discriminate E.
Defined.

Definition example_service : @Service (list Z) :=
  mkService (default example_chan (snd <$> Producer_submit 3 write_sqe example_chan))
    (mkCompletions 0 0 (replicate 2 (completion 0 0 0))) [10; 20; 30; 40; 50] [].

Lemma example_service_rep : Service_rep 3 1 example_service [write_sqe] [].
Proof.
  destruct (submit_spec 3 example_chan [] write_sqe example_chan_rep) as (m' & E & Hr & _).
  split.
  - unfold example_service; cbn [svc_submissions]. rewrite E. exact Hr.
  - split; [exists 1; cbn; lia| |by intros j e Hj; rewrite lookup_nil in Hj].
    split; vm_compute; [repeat split; discriminate|repeat split; discriminate|reflexivity|discriminate].
Qed.

Lemma drain_refines_witness :
  ∃ done s', Service_drain log_write 3 1 8 99 example_service = Some (Ok done, s') ∧
             executed done ≤ 8.
Proof.
  destruct (drain_refines log_write 3 1 8 99 example_service [write_sqe] [] example_service_rep ltac:(lia))
    as (served & rest & posted & s' & done & E & _ & _ & _ & Hle & _).
  exists done, s'. split; [exact E|exact Hle].
Defined.
