(* ===== verification/Bytes.v ===== *)
(** * Bytes on the wire: little-endian words, slices, and fixed layouts

    The generic half of every codec of the store: a record is written field by
    field into a zeroed array at fixed offsets, and read back by slicing at the
    same ones.  [layout] is a list of such fields; the lemmas say writing one is
    concatenating it and slicing it gives each field back. *)

From S2P Require Import Prelude.

Definition byte_list (l : list Z) : Prop := Forall (is_uint 8) l.

(** ** Little-endian words *)
Fixpoint le_bytes (n : nat) (z : Z) : list Z :=
  match n with
  | O => []
  | S n => z mod 256 :: le_bytes n (z / 256)
  end.

Fixpoint from_le (l : list Z) : Z :=
  match l with
  | [] => 0
  | b :: l => b + 256 * from_le l
  end.

Lemma length_le_bytes n z : length (le_bytes n z) = n.
Proof. revert z. induction n as [|n IH]; intros z; [done|]. cbn. by rewrite IH. Qed.

Lemma le_bytes_bytes n z : byte_list (le_bytes n z).
Proof.
  revert z. induction n as [|n IH]; intros z; constructor; [|apply IH].
  apply Z.mod_pos_bound. lia.
Qed.

Lemma width_S n : 2 ^ (8 * Z.of_nat (S n)) = 256 * 2 ^ (8 * Z.of_nat n).
Proof.
  replace (8 * Z.of_nat (S n)) with (8 + 8 * Z.of_nat n) by lia.
  by rewrite Z.pow_add_r by lia.
Qed.

Lemma from_le_le_bytes n z : is_uint (8 * Z.of_nat n) z → from_le (le_bytes n z) = z.
Proof.
  revert z. induction n as [|n IH]; intros z Hz; cbn [le_bytes from_le].
  { unfold is_uint in Hz. cbn in Hz. lia. }
  unfold is_uint in *. rewrite width_S in Hz.
  rewrite IH by (split; [apply Z.div_pos; lia|apply Z.div_lt_upper_bound; lia]).
  pose proof (Z.div_mod z 256). lia.
Qed.

Lemma from_le_range l : byte_list l → is_uint (8 * Z.of_nat (length l)) (from_le l).
Proof.
  induction 1 as [|b l Hb _ IH]; [done|]. cbn [length from_le].
  unfold is_uint in *. rewrite width_S. lia.
Qed.

Lemma le_bytes_from_le l : byte_list l → le_bytes (length l) (from_le l) = l.
Proof.
  induction 1 as [|b l Hb _ IH]; [done|]. cbn [length from_le le_bytes]. unfold is_uint in Hb.
  rewrite (Z.mul_comm 256), Z.mod_add, Z.div_add, (Z.mod_small b), (Z.div_small b) by lia.
  by rewrite Z.add_0_l, IH.
Qed.

(** ** Slices and stores *)
Definition slice (raw : list Z) (at_ n : nat) : list Z := take n (drop at_ raw).

(** [out[at..at + x.len()].copy_from_slice(x)], the range being inside [out]. *)
Definition put (out : list Z) (at_ : nat) (x : list Z) : list Z :=
  take at_ out ++ x ++ drop (at_ + length x) out.

Definition zeroed (n : nat) : list Z := replicate n 0.

Lemma length_slice raw at_ n : (at_ + n ≤ length raw)%nat → length (slice raw at_ n) = n.
Proof. intros. unfold slice. rewrite length_take, length_drop. lia. Qed.

Lemma slice_app pre x post : slice (pre ++ x ++ post) (length pre) (length x) = x.
Proof. unfold slice. by rewrite drop_app_length, take_app_length. Qed.

Lemma slice_bytes raw at_ n : byte_list raw → byte_list (slice raw at_ n).
Proof. intros. by apply Forall_take, Forall_drop. Qed.

Lemma length_put out at_ x : (at_ + length x ≤ length out)%nat → length (put out at_ x) = length out.
Proof. intros. unfold put. rewrite !length_app, length_take, length_drop. lia. Qed.

Lemma slice_put_eq out at_ x :
  (at_ + length x ≤ length out)%nat → slice (put out at_ x) at_ (length x) = x.
Proof.
  intros H. unfold put. pose proof (slice_app (take at_ out) x (drop (at_ + length x) out)) as E.
  by rewrite length_take, Nat.min_l in E by lia.
Qed.

(** A slice apart from what was written is what it was. *)
Lemma slice_put_ne out at_ x a n :
  (at_ + length x ≤ length out)%nat → (a + n ≤ at_ ∨ at_ + length x ≤ a)%nat →
  slice (put out at_ x) a n = slice out a n.
Proof.
  intros H D. unfold slice. apply list_eq. intros i.
  destruct (decide (i < n)%nat); [|by rewrite !lookup_take_ge by lia].
  rewrite !lookup_take_lt by lia. rewrite !lookup_drop. unfold put.
  destruct (decide (a + i < at_)%nat).
  - rewrite lookup_app_l by (rewrite length_take; lia). by rewrite lookup_take_lt by lia.
  - rewrite lookup_app_r by (rewrite length_take; lia). rewrite length_take, Nat.min_l by lia.
    rewrite lookup_app_r by lia. rewrite lookup_drop. f_equal. lia.
Qed.

Lemma put_next pre n x :
  (length x ≤ n)%nat →
  put (pre ++ zeroed n) (length pre) x = (pre ++ x) ++ zeroed (n - length x).
Proof.
  intros. unfold put, zeroed. rewrite take_app_length, <- drop_drop, drop_app_length.
  by rewrite drop_replicate, (assoc_L (++)).
Qed.

(** ** Layouts *)
Definition layout : Type := list (nat * list Z).

(** Fields one after another from [off]. *)
Fixpoint contiguous (off : nat) (fs : layout) : Prop :=
  match fs with
  | [] => True
  | (at_, x) :: fs => at_ = off ∧ contiguous (off + length x) fs
  end.

Definition flat (fs : layout) : list Z := concat fs.*2.

Definition put_fields (out : list Z) (fs : layout) : list Z :=
  foldl (λ out '(at_, x), put out at_ x) out fs.

Lemma flat_cons at_ x fs : flat ((at_, x) :: fs) = x ++ flat fs.
Proof. done. Qed.

Lemma put_fields_flat pre n fs :
  contiguous (length pre) fs → (length (flat fs) ≤ n)%nat →
  put_fields (pre ++ zeroed n) fs = pre ++ flat fs ++ zeroed (n - length (flat fs)).
Proof.
  revert pre n. induction fs as [|[at_ x] fs IH]; intros pre n Hc Hn.
  { cbn. by rewrite Nat.sub_0_r. }
  destruct Hc as [-> Hc]. rewrite flat_cons, length_app in *.
  unfold put_fields. cbn [foldl]. fold (put_fields (put (pre ++ zeroed n) (length pre) x) fs).
  rewrite put_next by lia. rewrite IH; [|by rewrite length_app|lia].
  rewrite <- !(assoc_L (++)). do 4 f_equal. lia.
Qed.

(** A record that fills its array is the concatenation of its fields. *)
Lemma put_fields_all n fs :
  contiguous 0 fs → length (flat fs) = n → put_fields (zeroed n) fs = flat fs.
Proof.
  intros Hc <-. pose proof (put_fields_flat [] (length (flat fs)) fs Hc ltac:(lia)) as H.
  cbn [app] in H. rewrite H, Nat.sub_diag. cbn. by rewrite app_nil_r.
Qed.

Lemma flat_slice_from off fs at_ x :
  contiguous off fs → (at_, x) ∈ fs → (off ≤ at_)%nat ∧ slice (flat fs) (at_ - off) (length x) = x.
Proof.
  revert off. induction fs as [|[a y] fs IH]; intros off Hc Hin; [by apply elem_of_nil in Hin|].
  destruct Hc as [-> Hc]. rewrite flat_cons. apply elem_of_cons in Hin as [[= -> ->]|Hin].
  - split; [lia|]. rewrite Nat.sub_diag. apply (slice_app [] y).
  - destruct (IH _ Hc Hin) as [Hle Hs]. split; [lia|].
    unfold slice in *. rewrite drop_app_ge by lia.
    by replace (at_ - off - length y)%nat with (at_ - (off + length y))%nat by lia.
Qed.

Lemma flat_slice fs at_ x n :
  contiguous 0 fs → (at_, x) ∈ fs → length x = n → slice (flat fs) at_ n = x.
Proof.
  intros Hc Hin <-. destruct (flat_slice_from 0 fs at_ x Hc Hin) as [_ Hs].
  by rewrite Nat.sub_0_r in Hs.
Qed.

(** Cutting an array at the offsets of a layout and putting it back. *)
Fixpoint cuts (raw : list Z) (off : nat) (widths : list nat) : layout :=
  match widths with
  | [] => []
  | w :: ws => (off, slice raw off w) :: cuts raw (off + w) ws
  end.

Lemma flat_cuts raw off ws :
  (off + sum_list ws = length raw)%nat → flat (cuts raw off ws) = drop off raw.
Proof.
  revert off. induction ws as [|w ws IH]; intros off H; cbn [cuts sum_list sum_list_with foldr] in *.
  { unfold flat; cbn. rewrite drop_ge; [done|]. cbn in H. lia. }
  rewrite flat_cons, IH by (cbn in *; lia). unfold slice.
  rewrite <- (take_drop w (drop off raw)) at 2. by rewrite drop_drop.
Qed.

Lemma contiguous_cuts raw off ws :
  (off + sum_list ws ≤ length raw)%nat → contiguous off (cuts raw off ws).
Proof.
  revert off. induction ws as [|w ws IH]; intros off H; [done|]. cbn [cuts contiguous]. cbn in H.
  split; [done|]. rewrite length_slice by lia. apply IH. cbn. lia.
Qed.

(** ** Reading words: [short], [word], [long] and [digest] of [abi/src/store.rs] *)
Definition short (raw : list Z) (at_ : nat) : Z := from_le (slice raw at_ 2).
Definition word (raw : list Z) (at_ : nat) : Z := from_le (slice raw at_ 4).
Definition long (raw : list Z) (at_ : nat) : Z := from_le (slice raw at_ 8).
Definition digest (raw : list Z) (at_ : nat) : list Z := slice raw at_ 32.

(** What a slice known to be inside holds, and the bytes it came from. *)
Lemma from_le_slice raw at_ n :
  byte_list raw → (at_ + n ≤ length raw)%nat →
  is_uint (8 * Z.of_nat n) (from_le (slice raw at_ n)) ∧
  le_bytes n (from_le (slice raw at_ n)) = slice raw at_ n.
Proof.
  intros Hb Hl. pose proof (length_slice _ _ _ Hl) as Hs. pose proof (slice_bytes _ at_ n Hb) as Hbs.
  split.
  - rewrite <- Hs at 1. by apply from_le_range.
  - rewrite <- Hs at 1. by apply le_bytes_from_le.
Qed.

(** Codecs whose encodings are exactly what is decoded. *)
Class Codec {E A : Type} (size : nat) (valid : A → Prop) (enc : A → list Z) (dec : list Z → res E A) : Prop := {
  codec_size : ∀ r, valid r → length (enc r) = size;
  codec_bytes : ∀ r, valid r → byte_list (enc r);
  codec_dec_enc : ∀ r, valid r → dec (enc r) = Ok r;
  codec_enc_dec : ∀ raw r, byte_list raw → length raw = size → dec raw = Ok r → enc r = raw ∧ valid r;
}.

(** Then no two records share an encoding, and a decoder accepts nothing else. *)
Lemma codec_inj {E A} size (valid : A → Prop) enc (dec : list Z → res E A) r1 r2 :
  Codec size valid enc dec → valid r1 → valid r2 → enc r1 = enc r2 → r1 = r2.
Proof.
  intros Hc H1 H2 Heq. pose proof (codec_dec_enc _ H1) as D1. rewrite Heq, (codec_dec_enc _ H2) in D1.
  by injection D1.
Qed.
