(* ===== verification/StoreCodecs.v ===== *)
(** * Every record of the store round-trips, both ways

    One [Codec] instance per record of [StoreRecords]. *)

From S2P Require Import Prelude Abi Bytes StoreRecords.
Import error.

(** ** Automation for fixed layouts *)

(** The field of a written-out layout that starts at a given offset. *)
Ltac find_field := first [apply list_elem_of_here | apply list_elem_of_further; find_field].

Ltac field_len := first [apply length_le_bytes | eassumption | reflexivity].

(** Lengths of fields, written out. *)
Ltac lens :=
  rewrite ?length_app, ?length_le_bytes;
  repeat match goal with H : length ?x = _ |- context [length ?x] => rewrite H end.

Ltac solve_contiguous := cbn [contiguous]; lens; repeat split; reflexivity.

(** Reading back a field just written: [Hc] says the layout is contiguous. *)
Ltac read_fields Hc :=
  repeat match goal with
  | |- context [slice (flat ?F) ?a ?n] =>
      let H := fresh in
      eassert (H : slice (flat F) a n = _);
      [eapply (flat_slice F a _ n Hc); [find_field|field_len]|rewrite H; clear H]
  end.

Lemma put_fields_app out fs1 fs2 : put_fields (put_fields out fs1) fs2 = put_fields out (fs1 ++ fs2).
Proof. unfold put_fields. by rewrite foldl_app. Qed.

(** A word read from inside an array, and the bytes it stands for. *)
Section read.
Context (raw : list Z) (at_ : nat).
Hypothesis Hb : byte_list raw.

Lemma short_spec : (at_ + 2 ≤ length raw)%nat →
  is_uint 16 (short raw at_) ∧ le_bytes 2 (short raw at_) = slice raw at_ 2.
Proof. apply (from_le_slice raw at_ 2 Hb). Qed.

Lemma word_spec : (at_ + 4 ≤ length raw)%nat →
  is_uint 32 (word raw at_) ∧ le_bytes 4 (word raw at_) = slice raw at_ 4.
Proof. apply (from_le_slice raw at_ 4 Hb). Qed.

Lemma long_spec : (at_ + 8 ≤ length raw)%nat →
  is_uint 64 (long raw at_) ∧ le_bytes 8 (long raw at_) = slice raw at_ 8.
Proof. apply (from_le_slice raw at_ 8 Hb). Qed.

Lemma digest_spec : (at_ + 32 ≤ length raw)%nat → is_digest (slice raw at_ 32).
Proof. intros. split; [by apply slice_bytes|by apply length_slice]. Qed.
End read.

Lemma layout_bytes F : Forall (λ f, byte_list f.2) F → byte_list (flat F).
Proof. induction 1 as [|[a x] F Hx _ IH]; [constructor|]. rewrite flat_cons. by apply Forall_app. Qed.

Ltac solve_layout_bytes :=
  apply layout_bytes;
  repeat (apply list.Forall_cons_2; [cbn [snd]; first [apply le_bytes_bytes|eassumption]|]);
  apply list.Forall_nil_2.

(** ** Superblock *)
Record Superblock_valid (s : Superblock) : Prop := {
  sbv_schema : sb_schema s = SCHEMA;
  sbv_block : is_uint 32 (sb_block_bytes s) ∧ sb_block_bytes s ≠ 0;
  sbv_words : Forall (is_uint 32)
    [sb_zones s; sb_root_zone_a s; sb_root_zone_b s; sb_chunk_min_bytes s;
     sb_chunk_target_bytes s; sb_chunk_max_bytes s; sb_mask_bits s];
  sbv_longs : Forall (is_uint 64) [sb_zone_bytes s; sb_gear_label s; sb_mask_label s];
}.

Lemma Superblock_contiguous s : contiguous 0 (Superblock_fields s).
Proof. unfold Superblock_fields. solve_contiguous. Qed.

Lemma Superblock_flat s :
  Superblock_to_bytes s = flat (Superblock_fields s) ∧ length (flat (Superblock_fields s)) = Superblock_BYTES.
Proof.
  assert (Hl : length (flat (Superblock_fields s)) = Superblock_BYTES).
  { unfold Superblock_fields. rewrite !flat_cons. by lens. }
  split; [|done]. apply put_fields_all; [apply Superblock_contiguous|done].
Qed.

Lemma prologue_ok raw magic bytes :
  (8 ≤ length raw)%nat → word raw 0 = magic → word raw 4 = Z.of_nat bytes → prologue raw magic bytes = Ok tt.
Proof.
  intros Hl H0 H4. unfold prologue. destruct (Nat.ltb_spec (length raw) 8); [lia|].
  by rewrite H0, H4, !Z.eqb_refl.
Qed.

Lemma prologue_inv raw magic bytes u :
  prologue raw magic bytes = Ok u → (8 ≤ length raw)%nat ∧ word raw 0 = magic ∧ word raw 4 = Z.of_nat bytes.
Proof.
  unfold prologue. destruct (Nat.ltb_spec (length raw) 8); [done|].
  destruct (Z.eqb_spec (word raw 0) magic); [|done].
  by destruct (Z.eqb_spec (word raw 4) (Z.of_nat bytes)).
Qed.

#[export] Instance Superblock_codec :
  Codec Superblock_BYTES Superblock_valid Superblock_to_bytes Superblock_from_bytes.
Proof.
  split.
  - intros s _. destruct (Superblock_flat s) as [-> ->]. done.
  - intros s _. destruct (Superblock_flat s) as [-> _]. unfold Superblock_fields. solve_layout_bytes.
  - intros s [Hs [Hb Hb0] Hw Hl]. destruct (Superblock_flat s) as [-> Hlen].
    pose proof (Superblock_contiguous s) as Hc.
    repeat (apply list.Forall_cons in Hw as [? Hw]). repeat (apply list.Forall_cons in Hl as [? Hl]).
    unfold Superblock_from_bytes.
    rewrite prologue_ok; [|unfold Superblock_BYTES in Hlen; lia| |];
      unfold word, long; unfold Superblock_fields in *; read_fields Hc; try reflexivity.
    rsimpl. rewrite !from_le_le_bytes by (done || by rewrite Hs). rewrite Hs. rsimpl. cbn [negb Z.eqb].
    destruct (Z.eqb_spec (sb_block_bytes s) 0); [done|]. f_equal. destruct s; cbn in *. by subst.
  - intros raw s Hb Hlen. unfold Superblock_from_bytes.
    destruct (prologue raw _ _) as [u|] eqn:P; rsimpl; [|done].
    apply prologue_inv in P as (_ & Hm & Hn).
    destruct (Z.eqb_spec (word raw 8) SCHEMA) as [Hs|]; [|done].
    destruct (Z.eqb_spec (word raw 12) 0); [done|]. cbn [negb]. intros [= <-].
    unfold Superblock_BYTES in *.
    assert (HW : ∀ a, (a + 4 ≤ 68)%nat → is_uint 32 (word raw a) ∧ le_bytes 4 (word raw a) = slice raw a 4)
      by (intros; apply word_spec; [done|lia]).
    assert (HL : ∀ a, (a + 8 ≤ 68)%nat → is_uint 64 (long raw a) ∧ le_bytes 8 (long raw a) = slice raw a 8)
      by (intros; apply long_spec; [done|lia]).
    split.
    + destruct (Superblock_flat (mkSuperblock (word raw 8) (word raw 12) (word raw 16) (word raw 20)
        (word raw 24) (word raw 28) (word raw 32) (word raw 36) (word raw 40) (long raw 44) (long raw 52)
        (long raw 60))) as [-> _].
      unfold Superblock_fields. cbn [sb_schema sb_block_bytes sb_zones sb_root_zone_a sb_root_zone_b
        sb_chunk_min_bytes sb_chunk_target_bytes sb_chunk_max_bytes sb_mask_bits sb_zone_bytes
        sb_gear_label sb_mask_label].
      rewrite <- Hm. unfold Superblock_BYTES. rewrite <- Hn.
      repeat match goal with
      | |- context [le_bytes 4 (word raw ?a)] => rewrite (proj2 (HW a ltac:(lia)))
      | |- context [le_bytes 8 (long raw ?a)] => rewrite (proj2 (HL a ltac:(lia)))
      end.
      change (flat (cuts raw 0 [4; 4; 4; 4; 4; 4; 4; 4; 4; 4; 4; 8; 8; 8]%nat) = raw).
      rewrite flat_cuts; [by rewrite drop_0|by rewrite Hlen].
    + split; cbn; [done|split; [apply HW; lia|done]| |];
        repeat (apply list.Forall_cons_2; [first [apply HW; lia|apply HL; lia]|]); apply list.Forall_nil_2.
Qed.

(** Reading a word or a digest of a full-length array back as its bytes. *)
Ltac unread W L Sh :=
  repeat match goal with
  | |- context [le_bytes 2 (short ?r ?a)] => rewrite (proj2 (Sh a ltac:(lia)))
  | |- context [le_bytes 4 (word ?r ?a)] => rewrite (proj2 (W a ltac:(lia)))
  | |- context [le_bytes 8 (long ?r ?a)] => rewrite (proj2 (L a ltac:(lia)))
  end.

(** The three readers at every offset of an array of known length. *)
Lemma readers raw n :
  byte_list raw → length raw = n →
  (∀ a, (a + 2 ≤ n)%nat → is_uint 16 (short raw a) ∧ le_bytes 2 (short raw a) = slice raw a 2) ∧
  (∀ a, (a + 4 ≤ n)%nat → is_uint 32 (word raw a) ∧ le_bytes 4 (word raw a) = slice raw a 4) ∧
  (∀ a, (a + 8 ≤ n)%nat → is_uint 64 (long raw a) ∧ le_bytes 8 (long raw a) = slice raw a 8) ∧
  (∀ a, (a + 32 ≤ n)%nat → is_digest (slice raw a 32)).
Proof.
  intros Hb <-. split_and!; intros.
  - by apply short_spec.
  - by apply word_spec.
  - by apply long_spec.
  - by apply digest_spec.
Qed.

(** ** Header *)
Record Header_valid (h : Header) : Prop := {
  hv_kind : kind_known (hdr_kind h) = true;
  hv_flags : hdr_flags h = 0;
  hv_content : is_uint 64 (hdr_content_bytes h);
  hv_hash : is_digest (hdr_hash h);
}.

Lemma kind_known_uint k : kind_known k = true → is_uint 16 k.
Proof.
  unfold kind_known. rewrite !orb_true_iff, !Z.eqb_eq.
  unfold kind_CHUNK, kind_OBJECT, kind_EXTENT, kind_GENERATION, is_uint. lia.
Qed.

Lemma Header_flat h :
  is_digest (hdr_hash h) →
  Header_to_bytes h = flat (Header_fields h) ∧ length (flat (Header_fields h)) = Header_BYTES ∧
  contiguous 0 (Header_fields h).
Proof.
  intros [_ Hl].
  assert (Hc : contiguous 0 (Header_fields h)) by (unfold Header_fields; solve_contiguous).
  assert (Hlen : length (flat (Header_fields h)) = Header_BYTES)
    by (unfold Header_fields; rewrite !flat_cons; by lens).
  split_and!; [by apply put_fields_all|done|done].
Qed.

#[export] Instance Header_codec : Codec Header_BYTES Header_valid Header_to_bytes Header_from_bytes.
Proof.
  split.
  - intros h [_ _ _ Hh]. by destruct (Header_flat h Hh) as (-> & -> & _).
  - intros h [_ _ _ Hh]. destruct (Header_flat h Hh) as (-> & _ & _). destruct Hh as [Hh _].
    unfold Header_fields. solve_layout_bytes.
  - intros h [Hk Hf Hn Hh]. pose proof (kind_known_uint _ Hk) as Hk16.
    destruct (Header_flat h Hh) as (-> & Hlen & Hc). destruct Hh as [_ Hh].
    unfold Header_from_bytes.
    rewrite prologue_ok; [|unfold Header_BYTES in Hlen; lia| |];
      unfold word, long, short, digest; unfold Header_fields in *; read_fields Hc; try reflexivity.
    rsimpl. rewrite !from_le_le_bytes by (done || by rewrite Hf). rewrite Hk, Hf. cbn [negb Z.eqb].
    destruct h; cbn in *. by subst.
  - intros raw h Hb Hlen. destruct (readers raw _ Hb Hlen) as (HS & HW & HL & HD).
    unfold Header_from_bytes, Header_BYTES, digest in *.
    destruct (prologue raw _ _) as [u|] eqn:P; rsimpl; [|done].
    apply prologue_inv in P as (_ & Hm & Hn).
    destruct (kind_known (short raw 8)) eqn:Hk; [|done]. cbn [negb].
    destruct (Z.eqb_spec (short raw 10) 0) as [Hz|]; [|done]. cbn [negb]. intros [= <-].
    split.
    + destruct (Header_flat (mkHeader (short raw 8) (short raw 10) (long raw 12) (slice raw 20 32)))
        as [-> _]; [apply HD; lia|].
      unfold Header_fields. cbn [hdr_kind hdr_flags hdr_content_bytes hdr_hash].
      rewrite <- Hm. unfold Header_BYTES. rewrite <- Hn. unread HW HL HS.
      change (flat (cuts raw 0 [4; 4; 2; 2; 8; 32]%nat) = raw).
      rewrite flat_cuts; [by rewrite drop_0|by rewrite Hlen].
    + split; cbn; [done|done|apply HL; lia|apply HD; lia].
Qed.

(** ** Object and extent heads: the two have one layout *)
Section head.
Context {A : Type} (mk : Z → Z → A) (bytes_of count_of : A → Z) (max : Z).
Context (enc : A → list Z) (dec : list Z → res Z A).
Hypothesis Hmk : ∀ a, mk (bytes_of a) (count_of a) = a.
Hypothesis Hb : ∀ b c, bytes_of (mk b c) = b.
Hypothesis Hc : ∀ b c, count_of (mk b c) = c.
Hypothesis Hmax : max < 2 ^ 32.
Hypothesis Henc : ∀ a, enc a =
  put_fields (zeroed 12) [(0%nat, le_bytes 8 (bytes_of a)); (8%nat, le_bytes 4 (count_of a))].
Hypothesis Hdec : ∀ raw, dec raw =
  if max <? word raw 8 then Err refusal_UNKNOWN
  else if xorb (long raw 0 =? 0) (word raw 8 =? 0) then Err refusal_MALFORMED
  else Ok (mk (long raw 0) (word raw 8)).

Definition head_valid (a : A) : Prop :=
  is_uint 64 (bytes_of a) ∧ 0 ≤ count_of a ≤ max ∧ (bytes_of a = 0 ↔ count_of a = 0).

Lemma head_codec : Codec 12 head_valid enc dec.
Proof.
  assert (Hflat : ∀ a, enc a = flat [(0%nat, le_bytes 8 (bytes_of a)); (8%nat, le_bytes 4 (count_of a))]).
  { intros a. rewrite Henc. apply put_fields_all; [solve_contiguous|]. rewrite !flat_cons. by lens. }
  split.
  - intros a _. rewrite Hflat, !flat_cons. by lens.
  - intros a _. rewrite Hflat. solve_layout_bytes.
  - intros a (Hn & Hk & Hz). rewrite Hflat, Hdec. unfold word, long.
    assert (Hcont : contiguous 0 [(0%nat, le_bytes 8 (bytes_of a)); (8%nat, le_bytes 4 (count_of a))])
      by solve_contiguous.
    read_fields Hcont. rewrite !from_le_le_bytes by (done || unfold is_uint; lia).
    destruct (Z.ltb_spec max (count_of a)); [lia|]. rewrite Hmk.
    destruct (Z.eqb_spec (bytes_of a) 0), (Z.eqb_spec (count_of a) 0); cbn; tauto.
  - intros raw a Hr Hl. destruct (readers raw _ Hr Hl) as (_ & HW & HL & _). rewrite Hdec.
    destruct (Z.ltb_spec max (word raw 8)) as [|Hm]; [done|].
    destruct (xorb _ _) eqn:Hx; [done|]. intros [= <-]. split.
    + rewrite Hflat, Hb, Hc. unread HW HL HW.
      change (flat (cuts raw 0 [8; 4]%nat) = raw). rewrite flat_cuts; [by rewrite drop_0|by rewrite Hl].
    + unfold head_valid. rewrite Hb, Hc. destruct (HW 8%nat ltac:(lia)) as [[? ?] _].
      split_and!; [apply HL; lia|lia|lia|].
      destruct (Z.eqb_spec (long raw 0) 0), (Z.eqb_spec (word raw 8) 0); by try done.
Qed.
End head.

Definition ObjectHead_valid : ObjectHead → Prop := head_valid oh_object_bytes oh_chunks CHUNKS_MAX.
Definition ExtentHead_valid : ExtentHead → Prop := head_valid eh_extent_bytes eh_pieces PIECES_MAX.

#[export] Instance ObjectHead_codec :
  Codec ObjectHead_HEAD_BYTES ObjectHead_valid ObjectHead_to_bytes ObjectHead_from_bytes.
Proof. apply (head_codec mkObjectHead); [by intros []|done..]. Qed.

#[export] Instance ExtentHead_codec :
  Codec ExtentHead_HEAD_BYTES ExtentHead_valid ExtentHead_to_bytes ExtentHead_from_bytes.
Proof. apply (head_codec mkExtentHead); [by intros []|done..]. Qed.

(** ** The nodes' header *)
Definition node_fields (kind : Z) (bytes : nat) : layout :=
  [(0%nat, le_bytes 4 MAGIC); (4%nat, le_bytes 2 kind); (6%nat, le_bytes 2 (Z.of_nat bytes))].

Lemma node_known_uint k : node_known k = true → is_uint 16 k.
Proof.
  unfold node_known. rewrite !orb_true_iff, !Z.eqb_eq.
  unfold node_BYTES, node_COMPONENT, node_TOPOLOGY, node_GENERATION, is_uint. lia.
Qed.

Lemma node_leaf_known k : node_leaf k = true → node_known k = true.
Proof. unfold node_leaf, node_known. by intros ->. Qed.

Lemma header_ok raw kind bytes :
  (8 ≤ length raw)%nat → word raw 0 = MAGIC → short raw 4 = kind → short raw 6 = Z.of_nat bytes →
  node_known kind = true → header raw bytes = Ok kind.
Proof.
  intros Hl H0 H4 H6 Hk. unfold header, HEADER_BYTES. destruct (Nat.ltb_spec (length raw) 8); [lia|].
  by rewrite H0, H6, !Z.eqb_refl, H4, Hk.
Qed.

Lemma header_inv raw bytes kind :
  header raw bytes = Ok kind →
  (8 ≤ length raw)%nat ∧ word raw 0 = MAGIC ∧ short raw 4 = kind ∧ short raw 6 = Z.of_nat bytes ∧
  node_known kind = true.
Proof.
  unfold header, HEADER_BYTES. destruct (Nat.ltb_spec (length raw) 8); [done|].
  destruct (Z.eqb_spec (word raw 0) MAGIC); [|done]. cbn [negb].
  destruct (Z.eqb_spec (short raw 6) (Z.of_nat bytes)); [|done]. cbn [negb].
  destruct (node_known (short raw 4)) eqn:Hk; [|done]. cbn [negb]. by intros [= <-].
Qed.

(** ** Leaf *)
Record Leaf_valid (l : Leaf) : Prop := {
  lv_kind : node_leaf (leaf_kind l) = true;
  lv_hash : is_digest (leaf_hash l);
  lv_name : is_digest (leaf_name l);
}.

Definition Leaf_fields (l : Leaf) : layout :=
  node_fields (leaf_kind l) Leaf_BYTES ++ [(8%nat, leaf_hash l); (40%nat, leaf_name l)].

Lemma Leaf_flat l :
  is_digest (leaf_hash l) → is_digest (leaf_name l) →
  Leaf_to_bytes l = flat (Leaf_fields l) ∧ length (flat (Leaf_fields l)) = Leaf_BYTES ∧
  contiguous 0 (Leaf_fields l).
Proof.
  intros [_ Hh] [_ Hn].
  assert (Hc : contiguous 0 (Leaf_fields l))
    by (unfold Leaf_fields, node_fields; cbn [app]; solve_contiguous).
  assert (Hlen : length (flat (Leaf_fields l)) = Leaf_BYTES)
    by (unfold Leaf_fields, node_fields; cbn [app]; rewrite !flat_cons; by lens).
  split_and!; [|done|done]. unfold Leaf_to_bytes, put_header. rewrite put_fields_app.
  by apply put_fields_all.
Qed.

#[export] Instance Leaf_codec : Codec Leaf_BYTES Leaf_valid Leaf_to_bytes Leaf_from_bytes.
Proof.
  split.
  - intros l [_ Hh Hn]. by destruct (Leaf_flat l Hh Hn) as (-> & -> & _).
  - intros l [_ Hh Hn]. destruct (Leaf_flat l Hh Hn) as (-> & _ & _). destruct Hh as [Hh _], Hn as [Hn _].
    unfold Leaf_fields, node_fields. cbn [app]. solve_layout_bytes.
  - intros l [Hk Hh Hn]. pose proof (node_leaf_known _ Hk) as Hk'. pose proof (node_known_uint _ Hk') as Hk16.
    destruct (Leaf_flat l Hh Hn) as (-> & Hlen & Hc). destruct Hh as [_ Hh], Hn as [_ Hn].
    unfold Leaf_from_bytes. unfold Leaf_fields, node_fields in *. cbn [app] in *.
    rewrite (header_ok _ (leaf_kind l)); [|rewrite Hlen; cbv; lia| | | |done];
      unfold word, short; read_fields Hc; [|done|by apply from_le_le_bytes|done].
    rsimpl. rewrite Hk. by destruct l.
  - intros raw l Hb Hlen. destruct (readers raw _ Hb Hlen) as (HS & HW & _ & HD).
    unfold Leaf_from_bytes. destruct (header raw Leaf_BYTES) as [k|] eqn:P; rsimpl; [|done].
    apply header_inv in P as (_ & Hm & Hk & Hn & _).
    destruct (node_leaf k) eqn:Hl; [|done]. cbn [negb]. intros [= <-].
    change Leaf_BYTES with 72%nat in *.
    split; [|split; cbn; [done|apply HD; lia..]].
    destruct (Leaf_flat (mkLeaf k (slice raw 8 32) (slice raw 40 32))) as [-> _]; [apply HD; lia..|].
    unfold Leaf_fields, node_fields. cbn [app leaf_kind leaf_hash leaf_name].
    change Leaf_BYTES with 72%nat. rewrite <- Hm, <- Hn, <- Hk. unread HW HW HS.
    change (flat (cuts raw 0 [4; 2; 2; 32; 32]%nat) = raw).
    rewrite flat_cuts; [by rewrite drop_0|by rewrite Hlen].
Qed.

(** ** Topology head *)
Record Topology_valid (t : Topology) : Prop := {
  tv_members : 0 ≤ top_members t ≤ MEMBERS_MAX;
  tv_routes : 0 ≤ top_routes t ≤ ROUTES_MAX;
}.

Definition Topology_fields (t : Topology) : layout :=
  node_fields node_TOPOLOGY (Topology_bytes t) ++
  [(8%nat, le_bytes 2 (top_members t)); (10%nat, le_bytes 2 (top_routes t))].

Lemma Topology_flat t :
  Topology_to_bytes t = flat (Topology_fields t) ∧ length (flat (Topology_fields t)) = Topology_HEAD_BYTES ∧
  contiguous 0 (Topology_fields t).
Proof.
  assert (Hc : contiguous 0 (Topology_fields t))
    by (unfold Topology_fields, node_fields; cbn [app]; solve_contiguous).
  assert (Hlen : length (flat (Topology_fields t)) = Topology_HEAD_BYTES)
    by (unfold Topology_fields, node_fields; cbn [app]; rewrite !flat_cons; by lens).
  split_and!; [|done|done]. unfold Topology_to_bytes, put_header. rewrite put_fields_app.
  by apply put_fields_all.
Qed.

Lemma Topology_bytes_range t : Topology_valid t → is_uint 16 (Z.of_nat (Topology_bytes t)).
Proof.
  intros [_ Hr]. unfold Topology_bytes, Topology_HEAD_BYTES, Route_BYTES, HEADER_BYTES, NAME_MAX, ROUTES_MAX in *.
  unfold is_uint. lia.
Qed.

#[export] Instance Topology_codec :
  Codec Topology_HEAD_BYTES Topology_valid Topology_to_bytes Topology_from_bytes.
Proof.
  split.
  - intros t _. by destruct (Topology_flat t) as (-> & -> & _).
  - intros t _. destruct (Topology_flat t) as (-> & _ & _).
    unfold Topology_fields, node_fields. cbn [app]. solve_layout_bytes.
  - intros t Ht. pose proof (Topology_bytes_range t Ht) as Hr. destruct Ht as [Hm Hn].
    destruct (Topology_flat t) as (-> & Hlen & Hc). unfold Topology_from_bytes.
    unfold Topology_fields, node_fields in *. cbn [app] in *. unfold word, short. read_fields Hc.
    unfold MEMBERS_MAX, ROUTES_MAX in *.
    rewrite !from_le_le_bytes by (done || unfold is_uint; lia). rewrite !Z.eqb_refl. cbn [negb].
    destruct (Z.ltb_spec 64 (top_members t)); [lia|]. destruct (Z.ltb_spec 256 (top_routes t)); [lia|].
    by destruct t.
  - intros raw t Hb Hlen. destruct (readers raw _ Hb Hlen) as (HS & HW & _ & _).
    change Topology_HEAD_BYTES with 12%nat in *. unfold Topology_from_bytes.
    destruct (Z.eqb_spec (word raw 0) MAGIC) as [H0|]; [|done].
    destruct (Z.eqb_spec (short raw 4) node_TOPOLOGY) as [H4|]; [|done]. cbn [negb].
    destruct (Z.ltb_spec MEMBERS_MAX (short raw 8)); [done|].
    destruct (Z.ltb_spec ROUTES_MAX (short raw 10)); [done|]. cbn [orb].
    destruct (Z.eqb_spec (short raw 6) (Z.of_nat (Topology_bytes (mkTopology (short raw 8) (short raw 10)))))
      as [H6|]; [|done]. cbn [negb]. intros [= <-].
    split.
    + destruct (Topology_flat (mkTopology (short raw 8) (short raw 10))) as [-> _].
      unfold Topology_fields, node_fields. rewrite <- H6, <- H0, <- H4. cbn [app top_members top_routes].
      unread HW HW HS.
      change (flat (cuts raw 0 [4; 2; 2; 2; 2]%nat) = raw).
      rewrite flat_cuts; [by rewrite drop_0|by rewrite Hlen].
    + destruct (HS 8%nat ltac:(lia)) as [[? ?] _], (HS 10%nat ltac:(lia)) as [[? ?] _].
      split; cbn; lia.
Qed.

(** ** Route *)
Record Route_valid (r : Route) : Prop := {
  rv_component : is_uint 16 (route_component r);
  rv_source : is_uint 16 (route_source r);
  rv_capability : is_digest (route_capability r);
}.

Definition Route_fields (r : Route) : layout :=
  [(0%nat, le_bytes 2 (route_component r)); (2%nat, le_bytes 2 (route_source r)); (4%nat, route_capability r)].

Lemma Route_flat r :
  is_digest (route_capability r) →
  Route_to_bytes r = flat (Route_fields r) ∧ length (flat (Route_fields r)) = Route_BYTES ∧
  contiguous 0 (Route_fields r).
Proof.
  intros [_ Hl].
  assert (Hc : contiguous 0 (Route_fields r)) by (unfold Route_fields; solve_contiguous).
  assert (Hlen : length (flat (Route_fields r)) = Route_BYTES)
    by (unfold Route_fields; rewrite !flat_cons; by lens).
  split_and!; [by apply put_fields_all|done|done].
Qed.

#[export] Instance Route_codec :
  Codec Route_BYTES Route_valid Route_to_bytes (λ raw, Ok (E := Z) (Route_from_bytes raw)).
Proof.
  split.
  - intros r [_ _ Hh]. by destruct (Route_flat r Hh) as (-> & -> & _).
  - intros r [_ _ Hh]. destruct (Route_flat r Hh) as (-> & _ & _). destruct Hh as [Hh _].
    unfold Route_fields. solve_layout_bytes.
  - intros r [Ha Hs Hh]. destruct (Route_flat r Hh) as (-> & Hlen & Hc). destruct Hh as [_ Hh].
    unfold Route_from_bytes, short, Route_fields in *. read_fields Hc.
    rewrite !from_le_le_bytes by done. by destruct r.
  - intros raw r Hb Hlen [= <-]. destruct (readers raw _ Hb Hlen) as (HS & _ & _ & HD).
    change Route_BYTES with 36%nat in *. unfold Route_from_bytes.
    split; [|split; cbn; [apply HS; lia..|apply HD; lia]].
    destruct (Route_flat (mkRoute (short raw 0) (short raw 2) (slice raw 4 32))) as [-> _]; [apply HD; lia|].
    unfold Route_fields. cbn [route_component route_source route_capability]. unread HS HS HS.
    change (flat (cuts raw 0 [2; 2; 32]%nat) = raw).
    rewrite flat_cuts; [by rewrite drop_0|by rewrite Hlen].
Qed.

(** ** Generation header *)
#[export] Instance Generation_codec :
  Codec Generation_BYTES (λ _ : unit, True) (λ _, Generation_to_bytes) Generation_from_bytes.
Proof.
  split; [done| |by intros [] _|].
  - intros _ _. unfold Generation_to_bytes. apply (bool_decide_unpack _). by vm_compute.
  - intros raw u Hb Hlen. destruct (readers raw _ Hb Hlen) as (HS & HW & _ & _).
    change Generation_BYTES with 8%nat in *. unfold Generation_from_bytes.
    destruct (header raw _) as [k|] eqn:P; rsimpl; [|done].
    apply header_inv in P as (_ & Hm & Hk & Hn & _).
    destruct (Z.eqb_spec k node_GENERATION) as [Hg|]; [|done]. intros _. split; [|done].
    change Generation_to_bytes with (flat (node_fields node_GENERATION Generation_FOLDED_BYTES)).
    unfold node_fields. rewrite <- Hm, <- Hn, <- Hg, <- Hk. unread HW HW HS.
    change (flat (cuts raw 0 [4; 2; 2]%nat) = raw).
    rewrite flat_cuts; [by rewrite drop_0|by rewrite Hlen].
Qed.

(** ** Root record *)
Record RootRecord_valid (computed : list Z) (r : RootRecord) : Prop := {
  rrv_generation : is_uint 64 (rr_generation r) ∧ rr_generation r ≠ 0;
  rrv_digests : Forall is_digest [rr_root r; rr_frame r; rr_module r; rr_previous r; rr_check r];
  rrv_check : rr_check r = computed;
}.

Definition RootRecord_fields (r : RootRecord) : layout :=
  [(0%nat, le_bytes 4 ROOT_MAGIC); (4%nat, le_bytes 4 (Z.of_nat RootRecord_BYTES));
   (8%nat, le_bytes 8 (rr_generation r)); (16%nat, rr_root r); (48%nat, rr_frame r);
   (80%nat, rr_module r); (112%nat, rr_previous r)].

Lemma RootRecord_flat r :
  Forall is_digest [rr_root r; rr_frame r; rr_module r; rr_previous r; rr_check r] →
  RootRecord_checked r = flat (RootRecord_fields r) ∧
  length (flat (RootRecord_fields r)) = RootRecord_CHECKED_BYTES ∧
  RootRecord_to_bytes r = flat (RootRecord_fields r ++ [(144%nat, rr_check r)]) ∧
  length (flat (RootRecord_fields r ++ [(144%nat, rr_check r)])) = RootRecord_BYTES ∧
  contiguous 0 (RootRecord_fields r ++ [(144%nat, rr_check r)]).
Proof.
  intros Hd. repeat (apply list.Forall_cons in Hd as [[_ ?] Hd]).
  assert (Hl1 : length (flat (RootRecord_fields r)) = RootRecord_CHECKED_BYTES)
    by (unfold RootRecord_fields; rewrite !flat_cons; by lens).
  assert (Hck : RootRecord_checked r = flat (RootRecord_fields r)).
  { apply put_fields_all; [|done]. unfold RootRecord_fields. solve_contiguous. }
  assert (E : flat (RootRecord_fields r ++ [(144%nat, rr_check r)]) = flat (RootRecord_fields r) ++ rr_check r).
  { unfold flat. rewrite fmap_app, concat_app. f_equal. apply app_nil_r. }
  split_and!; [done|done| | |unfold RootRecord_fields; cbn [app]; solve_contiguous].
  - unfold RootRecord_to_bytes. rewrite Hck, put_fields_all.
    + rewrite E, !flat_cons. f_equal. apply app_nil_r.
    + cbn [contiguous]. by rewrite Hl1.
    + rewrite !flat_cons. by lens.
  - rewrite E. by lens.
Qed.

#[export] Instance RootRecord_codec computed :
  Codec RootRecord_BYTES (RootRecord_valid computed) RootRecord_to_bytes
    (λ raw, RootRecord_from_bytes raw computed).
Proof.
  split.
  - intros r [_ Hd _]. by destruct (RootRecord_flat r Hd) as (_ & _ & -> & -> & _).
  - intros r [_ Hd _]. destruct (RootRecord_flat r Hd) as (_ & _ & -> & _).
    repeat (apply list.Forall_cons in Hd as [[? _] Hd]).
    unfold RootRecord_fields. cbn [app]. solve_layout_bytes.
  - intros r [[Hg Hz] Hd Hx]. destruct (RootRecord_flat r Hd) as (_ & _ & -> & Hlen & Hc).
    repeat (apply list.Forall_cons in Hd as [[_ ?] Hd]).
    unfold RootRecord_from_bytes. unfold RootRecord_fields in *. cbn [app] in *.
    rewrite prologue_ok; [|rewrite Hlen; cbv; lia| |];
      unfold word, long, digest, RootRecord_CHECKED_BYTES in *; read_fields Hc; try reflexivity.
    rsimpl. rewrite bool_decide_eq_true_2 by done. cbn [negb].
    rewrite !from_le_le_bytes by done. destruct (Z.eqb_spec (rr_generation r) 0); [done|].
    by destruct r.
  - intros raw r Hb Hlen. destruct (readers raw _ Hb Hlen) as (HS & HW & HL & HD).
    change RootRecord_BYTES with 176%nat in *. unfold RootRecord_from_bytes.
    destruct (prologue raw _ _) as [u|] eqn:P; rsimpl; [|done].
    apply prologue_inv in P as (_ & Hm & Hn).
    case_bool_decide as Hx; [|done]. cbn [negb].
    destruct (Z.eqb_spec (long raw 8) 0); [done|]. unfold digest. intros [= <-].
    assert (Hd : Forall is_digest [slice raw 16 32; slice raw 48 32; slice raw 80 32; slice raw 112 32;
      slice raw 144 32]).
    { repeat (apply list.Forall_cons_2; [apply HD; lia|]). apply list.Forall_nil_2. }
    split; [|split; cbn; [split; [apply HL; lia|done]|done|done]].
    destruct (RootRecord_flat (mkRootRecord (long raw 8) (slice raw 16 32) (slice raw 48 32) (slice raw 80 32)
      (slice raw 112 32) (slice raw 144 32)) Hd) as (_ & _ & -> & _).
    unfold RootRecord_fields. rewrite <- Hm. change RootRecord_BYTES with 176%nat in *. rewrite <- Hn.
    cbn [app rr_generation rr_root rr_frame rr_module rr_previous rr_check]. unread HW HL HS.
    change (flat (cuts raw 0 [4; 4; 8; 32; 32; 32; 32; 32]%nat) = raw).
    rewrite flat_cuts; [by rewrite drop_0|by rewrite Hlen].
Qed.

(** C20 Every record of the store and every node of a generation's record tree
    is encoded exactly: the encoding has the record's declared width and is made
    of bytes; what is encoded decodes to the record it was; and a decoder
    accepts an array of that width only if it is the encoding of the
    well-formed record it answers, so no two arrays decode to one record and
    no field of an accepted array is unread. *)
Theorem store_records_exact :
  Codec Superblock_BYTES Superblock_valid Superblock_to_bytes Superblock_from_bytes ∧
  Codec Header_BYTES Header_valid Header_to_bytes Header_from_bytes ∧
  Codec ObjectHead_HEAD_BYTES ObjectHead_valid ObjectHead_to_bytes ObjectHead_from_bytes ∧
  Codec ExtentHead_HEAD_BYTES ExtentHead_valid ExtentHead_to_bytes ExtentHead_from_bytes ∧
  Codec Leaf_BYTES Leaf_valid Leaf_to_bytes Leaf_from_bytes ∧
  Codec Topology_HEAD_BYTES Topology_valid Topology_to_bytes Topology_from_bytes ∧
  Codec Route_BYTES Route_valid Route_to_bytes (λ raw, Ok (E := Z) (Route_from_bytes raw)) ∧
  Codec Generation_BYTES (λ _ : unit, True) (λ _, Generation_to_bytes) Generation_from_bytes ∧
  (∀ computed, Codec RootRecord_BYTES (RootRecord_valid computed) RootRecord_to_bytes
    (λ raw, RootRecord_from_bytes raw computed)).
Proof. split_and!; intros; typeclasses eauto. Qed.
