(* ===== verification/BTree.v ===== *)
(** * Ordered maps

    Rust's [BTreeMap] over integer keys: a [gmap] for what it holds, and the
    ascending walk for the code that iterates it. *)

From S2P Require Import Prelude.
From stdpp Require Import sorting fin_maps fin_map_dom.
#[local] Open Scope Z_scope.

Definition key_le {A} (x y : Z * A) : Prop := x.1 ≤ y.1.

#[global] Instance key_le_dec {A} : RelDecision (@key_le A).
Proof. intros x y. unfold key_le. apply _. Defined.

#[global] Instance key_le_trans {A} : Transitive (@key_le A).
Proof. intros x y z. unfold key_le. lia. Qed.

#[global] Instance key_le_total {A} : Total (@key_le A).
Proof. intros x y. unfold key_le. lia. Qed.

Section btree.
Context {A : Type}.
Implicit Types (m : gmap Z A).

(** [iter]: entries in ascending key order. *)
Definition btree_list m : list (Z * A) := merge_sort key_le (map_to_list m).

(** [values] and [keys]. *)
Definition btree_values m : list A := (btree_list m).*2.
Definition btree_keys m : list Z := (btree_list m).*1.

(** [range(lo..hi)]. *)
Definition btree_range m (lo hi : Z) : list (Z * A) :=
  filter (λ kv, lo ≤ kv.1 < hi) (btree_list m).

Lemma btree_list_perm m : btree_list m ≡ₚ map_to_list m.
Proof. apply merge_sort_Permutation. Qed.

Lemma btree_list_sorted m : StronglySorted key_le (btree_list m).
Proof. apply StronglySorted_merge_sort; apply _. Qed.

Lemma elem_of_btree_list m k a : (k, a) ∈ btree_list m ↔ m !! k = Some a.
Proof. by rewrite btree_list_perm, elem_of_map_to_list. Qed.

Lemma btree_keys_nodup m : NoDup (btree_list m).*1.
Proof. rewrite btree_list_perm. apply NoDup_fst_map_to_list. Qed.

Lemma elem_of_btree_values m a : a ∈ btree_values m ↔ ∃ k, m !! k = Some a.
Proof.
  unfold btree_values. rewrite list_elem_of_fmap. split.
  - intros ([k a'] & -> & H). exists k. by apply elem_of_btree_list.
  - intros (k & H). exists (k, a). split; [done|]. by apply elem_of_btree_list.
Qed.

Lemma elem_of_btree_range m lo hi k a :
  (k, a) ∈ btree_range m lo hi ↔ m !! k = Some a ∧ lo ≤ k < hi.
Proof.
  unfold btree_range. rewrite list_elem_of_filter, elem_of_btree_list. cbn. tauto.
Qed.

Lemma btree_range_nodup m lo hi : NoDup (btree_range m lo hi).*1.
Proof.
  eapply sublist_NoDup; [apply (btree_keys_nodup m)|].
  apply fmap_sublist, sublist_filter.
Qed.

Lemma btree_range_empty m lo hi :
  btree_range m lo hi = [] ↔ ∀ k, lo ≤ k < hi → m !! k = None.
Proof.
  split.
  - intros E k Hk. destruct (m !! k) as [a|] eqn:L; [|done].
    assert (H : (k, a) ∈ btree_range m lo hi) by (by apply elem_of_btree_range).
    rewrite E in H. by apply elem_of_nil in H.
  - intros H. destruct (btree_range m lo hi) as [|[k a] l] eqn:E; [done|].
    assert (Hin : (k, a) ∈ btree_range m lo hi) by (rewrite E; apply list_elem_of_here).
    apply elem_of_btree_range in Hin as [L Hk]. by rewrite H in L.
Qed.

(** The first entry with a property is the one of least key. *)
Lemma btree_find_least (P : A → Prop) `{∀ a, Decision (P a)} m i a :
  list_find P (btree_values m) = Some (i, a) →
  ∃ k, m !! k = Some a ∧ P a ∧ ∀ k' a', m !! k' = Some a' → k' < k → ¬ P a'.
Proof.
  intros (Hi & Ha & Hlt)%list_find_Some. unfold btree_values in *. rewrite list_lookup_fmap in Hi.
  destruct (btree_list m !! i) as [[k a0]|] eqn:Lk; [|done]. injection Hi as ->.
  exists k. split_and!; [apply elem_of_btree_list; by eapply list_elem_of_lookup_2|done|].
  intros k' a' Hk' Hle. apply elem_of_btree_list, list_elem_of_lookup_1 in Hk' as [j Hj].
  destruct (decide (j < i)%nat) as [Hji|Hji].
  - apply (Hlt j); [|done]. by rewrite list_lookup_fmap, Hj.
  - exfalso. destruct (decide (j = i)) as [->|]; [rewrite Lk in Hj; injection Hj; lia|].
    pose proof (btree_list_sorted m) as Hs. rewrite <- (take_drop_middle _ i _ Lk) in Hs.
    apply StronglySorted_app_1_r, StronglySorted_cons in Hs as [Hs _].
    assert (Hin : (k', a') ∈ drop (S i) (btree_list m)).
    { apply list_elem_of_lookup. exists (j - S i)%nat. rewrite lookup_drop, <- Hj. f_equal. lia. }
    rewrite list.Forall_forall in Hs. specialize (Hs _ Hin). unfold key_le in Hs. cbn in Hs. lia.
Qed.
End btree.

(** Folding over a list with a key removed or inserted at each element. *)
Lemma foldl_delete_lookup {A B} (f : B → Z) (l : list B) (m : gmap Z A) k :
  foldl (λ m x, delete (f x) m) m l !! k = if decide (k ∈ f <$> l) then None else m !! k.
Proof.
  revert m. induction l as [|x l IH]; intros m; cbn [foldl].
  { by rewrite decide_False by apply not_elem_of_nil. }
  rewrite IH. rewrite fmap_cons.
  destruct (decide (k ∈ f <$> l)).
  - rewrite decide_True; [done|by apply list_elem_of_further].
  - destruct (decide (k = f x)) as [->|].
    + rewrite decide_True by apply list_elem_of_here. apply lookup_delete_eq.
    + rewrite decide_False by (rewrite elem_of_cons; tauto). by apply lookup_delete_ne.
Qed.
