(* ===== verification/ZoneDevice.v ===== *)
(** * The zoned device: [zone/src/device.rs]

    [Zoned] is the trait, as a class of operations on a device state, and
    [ZonedLaws] what an implementation promises of them, in terms of what is
    readable, how much of each zone is written, and which zones are sealed.
    [ZonedMemory] is the device in memory; [ZoneDeviceFacts] proves it keeps
    the promises. *)

From S2P Require Import Prelude Abi Bytes StoreRecords.

Inductive Kind : Type := Conventional | SequentialWriteRequired.

#[global] Instance Kind_eq_dec : EqDecision Kind.
Proof. solve_decision. Defined.

Inductive Pointer : Type := Empty | Open | Full.

Record Report : Type := mkReport {
  rep_zone : Z;
  rep_kind : Kind;
  rep_start : Z;
  rep_blocks : Z;
  rep_write_pointer : Z;
  rep_state : Pointer;
}.

(** ** The trait *)

(** [read] is given the length of the buffer and answers what was put in it. *)
Class Zoned (D : Type) : Type := {
  block_bytes : D → Z;
  zone_count : D → Z;
  zone_blocks : D → Z;
  kind : D → Z → Kind;
  dev_read : Z → Z → sm D fault (list Z);
  dev_write : Z → list Z → sm D fault unit;
  dev_flush : sm D fault unit;
  dev_report : Z → sm D fault Report;
  dev_append : Z → list Z → sm D fault Z;
  dev_finish : Z → sm D fault unit;
  dev_reset : Z → sm D fault unit;
}.

(** What the trait's documentation promises. [view_block] is what a read of a
    block answers, if anything; a device may refuse any operation with a fault
    of its own hardware ([hardware]), and has then done nothing. *)
Class ZonedLaws (D : Type) `{Zoned D} : Type := {
  dev_ok : D → Prop;
  hardware : Z → Prop;
  view_block : D → Z → option (list Z);
  view_written : D → Z → Z;
  view_sealed : D → Z → bool;

  same_geometry (d d' : D) : Prop :=
    block_bytes d' = block_bytes d ∧ zone_count d' = zone_count d ∧ zone_blocks d' = zone_blocks d ∧
    ∀ z, kind d' z = kind d z;
  same_view (d d' : D) : Prop :=
    dev_ok d' ∧ same_geometry d d' ∧ (∀ b, view_block d' b = view_block d b) ∧
    (∀ z, view_written d' z = view_written d z) ∧ (∀ z, view_sealed d' z = view_sealed d z);
  faulted {A} (r : res fault A) : Prop := ∃ e, r = Err (Refused e) ∧ hardware e;

  law_geometry d : dev_ok d → 0 ≤ zone_blocks d ∧ 0 ≤ zone_count d ≤ u32_max ∧ 0 ≤ block_bytes d;
  law_block d b x : dev_ok d → view_block d b = Some x → Z.of_nat (length x) = block_bytes d;
  law_written d z : dev_ok d → 0 ≤ view_written d z ≤ zone_blocks d;
  (* blocks of a sequential zone are readable exactly below its pointer *)
  law_readable d z i :
    dev_ok d → 0 ≤ z < zone_count d → kind d z = SequentialWriteRequired → 0 ≤ i < zone_blocks d →
    is_Some (view_block d (z * zone_blocks d + i)) ↔ i < view_written d z;
  law_read d b len r d' :
    dev_ok d → 0 ≤ b → dev_read b len d = (r, d') →
    same_view d d' ∧
    (faulted r ∨
     r = match view_block d b with
         | Some x => if len =? block_bytes d then Ok x else Err (Refused refusal_ADDRESS)
         | None => Err (Refused refusal_ADDRESS)
         end);
  law_write d b from r d' :
    dev_ok d → 0 < zone_blocks d → 0 ≤ b → dev_write b from d = (r, d') →
    (faulted r ∧ same_view d d') ∨
    (r = Err (Refused refusal_ADDRESS) ∧ same_view d d') ∨
    (r = Ok tt ∧ kind d (b / zone_blocks d) = Conventional ∧ dev_ok d' ∧ same_geometry d d' ∧
     Z.of_nat (length from) = block_bytes d ∧
     (∀ b', view_block d' b' = if b' =? b then Some from else view_block d b') ∧
     (∀ z, view_written d' z = view_written d z) ∧ (∀ z, view_sealed d' z = view_sealed d z));
  law_flush d r d' : dev_ok d → dev_flush d = (r, d') → same_view d d' ∧ (faulted r ∨ r = Ok tt);
  law_report d z r d' :
    dev_ok d → 0 ≤ z → dev_report z d = (r, d') →
    same_view d d' ∧
    (faulted r ∨
     if zone_count d <=? z then r = Err (Refused refusal_ADDRESS)
     else ∃ rep, r = Ok rep ∧ rep_start rep = z * zone_blocks d ∧
       rep_write_pointer rep = z * zone_blocks d +
         (if view_sealed d z then zone_blocks d else view_written d z) ∧
       rep_blocks rep = zone_blocks d ∧
       (rep_state rep = Full ↔ view_sealed d z = true ∨ view_written d z = zone_blocks d));
  law_append d z from r d' :
    dev_ok d → 0 ≤ z → dev_append z from d = (r, d') →
    (faulted r ∧ same_view d d') ∨
    (∃ e, r = Err (Refused e) ∧ same_view d d' ∧
     (e = refusal_ADDRESS ∨
      e = refusal_FULL ∧ (view_sealed d z = true ∨ zone_blocks d ≤ view_written d z))) ∨
    (r = Ok (z * zone_blocks d + view_written d z) ∧
     z < zone_count d ∧ kind d z = SequentialWriteRequired ∧
     Z.of_nat (length from) = block_bytes d ∧ view_sealed d z = false ∧ view_written d z < zone_blocks d ∧
     dev_ok d' ∧ same_geometry d d' ∧
     (∀ b, view_block d' b =
        if b =? z * zone_blocks d + view_written d z then Some from else view_block d b) ∧
     (∀ z', view_written d' z' = view_written d z' + (if z' =? z then 1 else 0)) ∧
     (∀ z', view_sealed d' z' = view_sealed d z'));
  law_finish d z r d' :
    dev_ok d → 0 ≤ z → dev_finish z d = (r, d') →
    (faulted r ∧ same_view d d') ∨
    (r = Err (Refused refusal_ADDRESS) ∧ same_view d d') ∨
    (r = Ok tt ∧ z < zone_count d ∧ dev_ok d' ∧ same_geometry d d' ∧
     (∀ b, view_block d' b = view_block d b) ∧ (∀ z', view_written d' z' = view_written d z') ∧
     (∀ z', view_sealed d' z' = (z' =? z) || view_sealed d z'));
  law_reset d z r d' :
    dev_ok d → 0 ≤ z → dev_reset z d = (r, d') →
    (faulted r ∧ same_view d d') ∨
    (r = Err (Refused refusal_ADDRESS) ∧ same_view d d') ∨
    (r = Ok tt ∧ z < zone_count d ∧ dev_ok d' ∧ same_geometry d d' ∧
     (∀ b, view_block d' b = if z * zone_blocks d <=? b then
                               if b <? z * zone_blocks d + zone_blocks d then None else view_block d b
                             else view_block d b) ∧
     (∀ z', view_written d' z' = if z' =? z then 0 else view_written d z') ∧
     (∀ z', view_sealed d' z' = negb (z' =? z) && view_sealed d z'));
}.

(** ** [ZonedMemory] *)
Record Counted : Type := mkCounted {
  appended_bytes : Z; written_bytes : Z; read_bytes : Z; finishes : Z; resets : Z; flushes : Z;
}.
Definition Counted_default : Counted := mkCounted 0 0 0 0 0 0.
Definition device_bytes (c : Counted) : Z := appended_bytes c + written_bytes c.

Record ZonedMemory : Type := mkZonedMemory {
  zmem_block_bytes : Z;
  zmem_zone_blocks : Z;
  zmem_zone_count : Z;
  zmem_bytes : list Z;
  zmem_written : list Z;
  zmem_sealed : list bool;
  zmem_counted : Counted;
}.

Definition ZonedMemory_new (bb zb zc : Z) : res fault ZonedMemory :=
  let blocks := zb * zc in
  let len := bb * blocks in
  if 2 ^ 63 <=? len then Err Panicked
  else Ok (mkZonedMemory bb zb zc (replicate (Z.to_nat len) 0) (replicate (Z.to_nat zc) 0)
             (replicate (Z.to_nat zc) false) Counted_default).

Section memory.
Implicit Types (d : ZonedMemory).

Definition ZonedMemory_zone_of d (block : Z) : res fault (option Z) :=
  if zmem_zone_blocks d =? 0 then Err Panicked
  else
    let zone := block / zmem_zone_blocks d in
    Ok (if zone <=? u32_max then if zone <? zmem_zone_count d then Some zone else None else None).

Definition ZonedMemory_kind_of (zone : Z) : Kind :=
  if zone =? 0 then Conventional else SequentialWriteRequired.

Definition ZonedMemory_span d (block : Z) : option (Z * Z) :=
  let at_ := block * zmem_block_bytes d in
  if u64_max <? at_ then None
  else
    let end_ := at_ + zmem_block_bytes d in
    if u64_max <? end_ then None
    else if Z.of_nat (length (zmem_bytes d)) <? end_ then None else Some (at_, end_).

Definition ZonedMemory_start_of d (zone : Z) : Z := zone * zmem_zone_blocks d.

Definition ZonedMemory_sequential d (zone : Z) : res fault Z :=
  if (zmem_zone_count d <=? zone) || bool_decide (ZonedMemory_kind_of zone = Conventional)
  then Err (Refused refusal_ADDRESS)
  else Ok zone.

(** The setters of the fields a call changes. *)
Definition set_bytes (at_ : Z) (x : list Z) d : ZonedMemory :=
  mkZonedMemory (zmem_block_bytes d) (zmem_zone_blocks d) (zmem_zone_count d)
    (put (zmem_bytes d) (Z.to_nat at_) x)
    (zmem_written d) (zmem_sealed d) (zmem_counted d).
Definition set_written (zone v : Z) d : ZonedMemory :=
  mkZonedMemory (zmem_block_bytes d) (zmem_zone_blocks d) (zmem_zone_count d) (zmem_bytes d)
    (<[Z.to_nat zone := v]> (zmem_written d)) (zmem_sealed d) (zmem_counted d).
Definition set_sealed (zone : Z) (v : bool) d : ZonedMemory :=
  mkZonedMemory (zmem_block_bytes d) (zmem_zone_blocks d) (zmem_zone_count d) (zmem_bytes d)
    (zmem_written d) (<[Z.to_nat zone := v]> (zmem_sealed d)) (zmem_counted d).
Definition count (f : Counted → Counted) d : ZonedMemory :=
  mkZonedMemory (zmem_block_bytes d) (zmem_zone_blocks d) (zmem_zone_count d) (zmem_bytes d)
    (zmem_written d) (zmem_sealed d) (f (zmem_counted d)).

Definition add_appended (n : Z) (c : Counted) : Counted :=
  mkCounted (appended_bytes c + n) (written_bytes c) (read_bytes c) (finishes c) (resets c) (flushes c).
Definition add_written (n : Z) (c : Counted) : Counted :=
  mkCounted (appended_bytes c) (written_bytes c + n) (read_bytes c) (finishes c) (resets c) (flushes c).
Definition add_read (n : Z) (c : Counted) : Counted :=
  mkCounted (appended_bytes c) (written_bytes c) (read_bytes c + n) (finishes c) (resets c) (flushes c).
Definition add_finish (c : Counted) : Counted :=
  mkCounted (appended_bytes c) (written_bytes c) (read_bytes c) (finishes c + 1) (resets c) (flushes c).
Definition add_reset (c : Counted) : Counted :=
  mkCounted (appended_bytes c) (written_bytes c) (read_bytes c) (finishes c) (resets c + 1) (flushes c).
Definition add_flush (c : Counted) : Counted :=
  mkCounted (appended_bytes c) (written_bytes c) (read_bytes c) (finishes c) (resets c) (flushes c + 1).

Definition ZonedMemory_read (block len : Z) : sm ZonedMemory fault (list Z) := λ d,
  let refused e := (Err e, d) in
  if negb (len =? zmem_block_bytes d) then refused (Refused refusal_ADDRESS)
  else match ZonedMemory_zone_of d block with
  | Err e => refused e
  | Ok None => refused (Refused refusal_ADDRESS)
  | Ok (Some zone) =>
      match (if bool_decide (ZonedMemory_kind_of zone = SequentialWriteRequired) then
               let? w := index_or_panic (zmem_written d) zone in
               if w <=? block - ZonedMemory_start_of d zone then Err (Refused refusal_ADDRESS) else Ok tt
             else Ok tt) with
      | Err e => refused e
      | Ok _ =>
          match ZonedMemory_span d block with
          | None => refused (Refused refusal_ADDRESS)
          | Some (at_, _) =>
              (Ok (slice (zmem_bytes d) (Z.to_nat at_) (Z.to_nat (zmem_block_bytes d))),
               count (add_read (zmem_block_bytes d)) d)
          end
      end
  end.

Definition ZonedMemory_write (block : Z) (from : list Z) : sm ZonedMemory fault unit := λ d,
  let refused e := (Err e, d) in
  if negb (Z.of_nat (length from) =? zmem_block_bytes d) then refused (Refused refusal_ADDRESS)
  else match ZonedMemory_zone_of d block with
  | Err e => refused e
  | Ok None => refused (Refused refusal_ADDRESS)
  | Ok (Some zone) =>
      if bool_decide (ZonedMemory_kind_of zone = SequentialWriteRequired)
      then refused (Refused refusal_ADDRESS)
      else match ZonedMemory_span d block with
      | None => refused (Refused refusal_ADDRESS)
      | Some (at_, _) => (Ok tt, count (add_written (zmem_block_bytes d)) (set_bytes at_ from d))
      end
  end.

Definition ZonedMemory_flush : sm ZonedMemory fault unit := λ d, (Ok tt, count add_flush d).

Definition ZonedMemory_report (zone : Z) : sm ZonedMemory fault Report := λ d,
  if zmem_zone_count d <=? zone then (Err (Refused refusal_ADDRESS), d)
  else
    let start := ZonedMemory_start_of d zone in
    match index_or_panic (zmem_written d) zone, index_or_panic (zmem_sealed d) zone with
    | Ok written, Ok sealed =>
        let full := sealed || (written =? zmem_zone_blocks d) in
        let state := if full then Full else if written =? 0 then Empty else Open in
        (Ok (mkReport zone (ZonedMemory_kind_of zone) start (zmem_zone_blocks d)
               (if full then start + zmem_zone_blocks d else start + written) state), d)
    | Err e, _ | _, Err e => (Err e, d)
    end.

Definition ZonedMemory_append (zone : Z) (from : list Z) : sm ZonedMemory fault Z := λ d,
  let refused e := (Err e, d) in
  if negb (Z.of_nat (length from) =? zmem_block_bytes d) then refused (Refused refusal_ADDRESS)
  else match ZonedMemory_sequential d zone with
  | Err e => refused e
  | Ok index =>
      match index_or_panic (zmem_sealed d) index, index_or_panic (zmem_written d) index with
      | Ok sealed, Ok written =>
          if sealed || (zmem_zone_blocks d <=? written) then refused (Refused refusal_FULL)
          else
            let at_ := ZonedMemory_start_of d zone + written in
            match ZonedMemory_span d at_ with
            | None => refused (Refused refusal_ADDRESS)
            | Some (from_byte, _) =>
                (Ok at_, count (add_appended (zmem_block_bytes d))
                           (set_written index (written + 1) (set_bytes from_byte from d)))
            end
      | Err e, _ | _, Err e => refused e
      end
  end.

Definition ZonedMemory_finish (zone : Z) : sm ZonedMemory fault unit := λ d,
  match ZonedMemory_sequential d zone with
  | Err e => (Err e, d)
  | Ok index =>
      if (Z.of_nat (length (zmem_sealed d)) <=? index) then (Err Panicked, d)
      else (Ok tt, count add_finish (set_sealed index true d))
  end.

Definition ZonedMemory_reset (zone : Z) : sm ZonedMemory fault unit := λ d,
  match ZonedMemory_sequential d zone with
  | Err e => (Err e, d)
  | Ok index =>
      match ZonedMemory_span d (ZonedMemory_start_of d zone) with
      | None => (Err (Refused refusal_ADDRESS), d)
      | Some (from_byte, _) =>
          let len := zmem_zone_blocks d * zmem_block_bytes d in
          if Z.of_nat (length (zmem_bytes d)) <? from_byte + len then (Err Panicked, d)
          else if Z.of_nat (length (zmem_written d)) <=? index then (Err Panicked, d)
          else if Z.of_nat (length (zmem_sealed d)) <=? index then (Err Panicked, d)
          else (Ok tt, count add_reset (set_sealed index false (set_written index 0
                         (set_bytes from_byte (replicate (Z.to_nat len) 0) d))))
      end
  end.

(** The two faults a test can make underneath the zone rules. *)
Definition ZonedMemory_flip (at_ : Z) : sm ZonedMemory fault unit := λ d,
  match zmem_bytes d !! Z.to_nat at_ with
  | None => (Err (Refused refusal_ADDRESS), d)
  | Some byte => (Ok tt, set_bytes at_ [Z.lxor byte 1] d)
  end.

Definition ZonedMemory_land (block : Z) (from : list Z) : sm ZonedMemory fault unit := λ d,
  let refused e := (Err e, d) in
  if zmem_block_bytes d <? Z.of_nat (length from) then refused (Refused refusal_ADDRESS)
  else match ZonedMemory_zone_of d block with
  | Err e => refused e
  | Ok None => refused (Refused refusal_ADDRESS)
  | Ok (Some zone) =>
      match ZonedMemory_span d block with
      | None => refused (Refused refusal_ADDRESS)
      | Some (at_, _) =>
          let d1 := set_bytes at_ from d in
          if bool_decide (ZonedMemory_kind_of zone = SequentialWriteRequired) then
            let offset := block - ZonedMemory_start_of d zone in
            match index_or_panic (zmem_written d) zone with
            | Err e => (Err e, d1)
            | Ok w => (Ok tt, set_written zone (Z.max w (offset + 1)) d1)
            end
          else (Ok tt, d1)
      end
  end.
End memory.

#[global] Instance ZonedMemory_zoned : Zoned ZonedMemory := {|
  block_bytes := zmem_block_bytes;
  zone_count := zmem_zone_count;
  zone_blocks := zmem_zone_blocks;
  kind := λ _, ZonedMemory_kind_of;
  dev_read := ZonedMemory_read;
  dev_write := ZonedMemory_write;
  dev_flush := ZonedMemory_flush;
  dev_report := ZonedMemory_report;
  dev_append := ZonedMemory_append;
  dev_finish := ZonedMemory_finish;
  dev_reset := ZonedMemory_reset;
|}.
