(* ===== verification/ZoneDeviceFacts.v ===== *)
(** * The device in memory keeps the promises of the trait *)

From S2P Require Import Prelude Abi Bytes StoreRecords ZoneDevice.

(** What [new] makes and every operation keeps. *)
Record ZonedMemory_ok (d : ZonedMemory) : Prop := {
  zok_block : 0 ≤ zmem_block_bytes d;
  zok_blocks : 0 < zmem_zone_blocks d;
  zok_count : 0 ≤ zmem_zone_count d ≤ u32_max;
  zok_bytes : Z.of_nat (length (zmem_bytes d)) =
    zmem_block_bytes d * (zmem_zone_blocks d * zmem_zone_count d);
  zok_size : zmem_block_bytes d * (zmem_zone_blocks d * zmem_zone_count d) < 2 ^ 63;
  zok_written_len : Z.of_nat (length (zmem_written d)) = zmem_zone_count d;
  zok_sealed_len : Z.of_nat (length (zmem_sealed d)) = zmem_zone_count d;
  zok_written : Forall (λ w, 0 ≤ w ≤ zmem_zone_blocks d) (zmem_written d);
}.

Definition mem_written (d : ZonedMemory) (z : Z) : Z :=
  if z <? 0 then 0 else default 0 (zmem_written d !! Z.to_nat z).
Definition mem_sealed (d : ZonedMemory) (z : Z) : bool :=
  if z <? 0 then false else default false (zmem_sealed d !! Z.to_nat z).

(** What the bytes of a block are, readable or not. *)
Definition mem_raw (d : ZonedMemory) (b : Z) : list Z :=
  slice (zmem_bytes d) (Z.to_nat (b * zmem_block_bytes d)) (Z.to_nat (zmem_block_bytes d)).

Definition mem_readable (d : ZonedMemory) (b : Z) : bool :=
  (0 <=? b) && (b <? zmem_zone_blocks d * zmem_zone_count d) &&
  ((b / zmem_zone_blocks d =? 0) || (b mod zmem_zone_blocks d <? mem_written d (b / zmem_zone_blocks d))).

Definition mem_block (d : ZonedMemory) (b : Z) : option (list Z) :=
  if mem_readable d b then Some (mem_raw d b) else None.

Section facts.
Context (d : ZonedMemory).
Hypothesis Hd : ZonedMemory_ok d.

Lemma in_zone b :
  0 ≤ b →
  (b / zmem_zone_blocks d < zmem_zone_count d ↔ b < zmem_zone_blocks d * zmem_zone_count d) ∧
  0 ≤ b / zmem_zone_blocks d ∧ 0 ≤ b mod zmem_zone_blocks d < zmem_zone_blocks d ∧
  b = b / zmem_zone_blocks d * zmem_zone_blocks d + b mod zmem_zone_blocks d.
Proof using Hd.
  intros Hb. pose proof (zok_blocks d Hd). pose proof (Z.div_mod b (zmem_zone_blocks d) ltac:(lia)).
  pose proof (Z.mod_pos_bound b (zmem_zone_blocks d) ltac:(lia)).
  pose proof (Z.div_pos b (zmem_zone_blocks d) Hb ltac:(lia)). split_and!; [|lia..]. nia.
Qed.

Lemma zone_of_spec b :
  0 ≤ b →
  ZonedMemory_zone_of d b =
    Ok (if b <? zmem_zone_blocks d * zmem_zone_count d then Some (b / zmem_zone_blocks d) else None).
Proof using Hd.
  intros Hb. unfold ZonedMemory_zone_of. pose proof (zok_blocks d Hd). pose proof (zok_count d Hd).
  destruct (Z.eqb_spec (zmem_zone_blocks d) 0); [lia|].
  destruct (in_zone b Hb) as (Hz & _).
  destruct (Z.ltb_spec b (zmem_zone_blocks d * zmem_zone_count d)),
    (Z.ltb_spec (b / zmem_zone_blocks d) (zmem_zone_count d)),
    (Z.leb_spec (b / zmem_zone_blocks d) u32_max); try done; lia.
Qed.

Lemma span_spec b :
  0 ≤ b < zmem_zone_blocks d * zmem_zone_count d →
  ZonedMemory_span d b = Some (b * zmem_block_bytes d, b * zmem_block_bytes d + zmem_block_bytes d) ∧
  (Z.to_nat (b * zmem_block_bytes d) + Z.to_nat (zmem_block_bytes d) ≤ length (zmem_bytes d))%nat.
Proof using Hd.
  intros Hb. pose proof (zok_block d Hd). pose proof (zok_bytes d Hd). pose proof (zok_size d Hd).
  assert (b * zmem_block_bytes d + zmem_block_bytes d
          ≤ zmem_block_bytes d * (zmem_zone_blocks d * zmem_zone_count d)) by nia.
  assert (0 ≤ b * zmem_block_bytes d) by nia.
  unfold ZonedMemory_span, u64_max.
  destruct (Z.ltb_spec (2 ^ 64 - 1) (b * zmem_block_bytes d)); [lia|].
  destruct (Z.ltb_spec (2 ^ 64 - 1) (b * zmem_block_bytes d + zmem_block_bytes d)); [lia|].
  destruct (Z.ltb_spec (Z.of_nat (length (zmem_bytes d))) (b * zmem_block_bytes d + zmem_block_bytes d)); [lia|].
  split; [done|]. lia.
Qed.

Lemma written_spec z :
  0 ≤ z < zmem_zone_count d →
  index_or_panic (zmem_written d) z = Ok (mem_written d z) ∧ 0 ≤ mem_written d z ≤ zmem_zone_blocks d.
Proof using Hd.
  intros Hz. pose proof (zok_written_len d Hd). unfold index_or_panic, mem_written.
  destruct (Z.ltb_spec z 0); [lia|].
  destruct (lookup_lt_is_Some_2 (zmem_written d) (Z.to_nat z)) as [w Hw]; [lia|].
  rewrite Hw. split; [done|]. by eapply Forall_lookup_1 in Hw; [|apply (zok_written d Hd)].
Qed.

Lemma sealed_spec z :
  0 ≤ z < zmem_zone_count d → index_or_panic (zmem_sealed d) z = Ok (mem_sealed d z).
Proof using Hd.
  intros Hz. pose proof (zok_sealed_len d Hd). unfold index_or_panic, mem_sealed.
  destruct (Z.ltb_spec z 0); [lia|].
  destruct (lookup_lt_is_Some_2 (zmem_sealed d) (Z.to_nat z)) as [w Hw]; [lia|]. by rewrite Hw.
Qed.

Lemma mem_written_range z : 0 ≤ mem_written d z ≤ zmem_zone_blocks d.
Proof using Hd.
  pose proof (zok_blocks d Hd). destruct (decide (0 ≤ z < zmem_zone_count d)); [by apply written_spec|].
  pose proof (zok_written_len d Hd). unfold mem_written. destruct (Z.ltb_spec z 0); [lia|].
  rewrite lookup_ge_None_2 by lia. cbn. lia.
Qed.

Lemma sequential_spec z :
  0 ≤ z → ZonedMemory_sequential d z = (if (zmem_zone_count d <=? z) || (z =? 0)
    then Err (Refused refusal_ADDRESS) else Ok z).
Proof.
  intros Hz. unfold ZonedMemory_sequential, ZonedMemory_kind_of. by destruct (z =? 0).
Qed.

Lemma length_raw b :
  0 ≤ b < zmem_zone_blocks d * zmem_zone_count d → Z.of_nat (length (mem_raw d b)) = zmem_block_bytes d.
Proof using Hd.
  intros Hb. destruct (span_spec b Hb) as [_ Hs]. pose proof (zok_block d Hd). unfold mem_raw.
  rewrite length_slice by lia. lia.
Qed.

(** Writing one block changes that block's bytes and no other's. *)
Lemma raw_set_bytes b b' x :
  0 ≤ b < zmem_zone_blocks d * zmem_zone_count d → 0 ≤ b' →
  Z.of_nat (length x) = zmem_block_bytes d →
  mem_raw (set_bytes (b * zmem_block_bytes d) x d) b' = if b' =? b then x else mem_raw d b'.
Proof using Hd.
  intros Hb Hb' Hx. destruct (span_spec b Hb) as [_ Hs]. pose proof (zok_block d Hd).
  assert (Hl : Z.to_nat (zmem_block_bytes d) = length x) by lia.
  unfold mem_raw, set_bytes; cbn [zmem_bytes zmem_block_bytes]. rewrite Hl.
  destruct (Z.eqb_spec b' b) as [->|Hne].
  - apply slice_put_eq. lia.
  - apply slice_put_ne; [lia|]. nia.
Qed.

Lemma set_bytes_length b x :
  0 ≤ b < zmem_zone_blocks d * zmem_zone_count d → Z.of_nat (length x) = zmem_block_bytes d →
  length (zmem_bytes (set_bytes (b * zmem_block_bytes d) x d)) = length (zmem_bytes d).
Proof using Hd.
  intros Hb Hx. destruct (span_spec b Hb) as [_ Hs]. cbn. apply length_put. lia.
Qed.
End facts.

Lemma zone_offset z zb i : 0 < zb → 0 ≤ i < zb → (z * zb + i) / zb = z ∧ (z * zb + i) mod zb = i.
Proof.
  intros Hz Hi. rewrite Z.add_comm. rewrite Z.div_add, Z.mod_add by lia.
  rewrite Z.div_small, Z.mod_small by lia. lia.
Qed.

Lemma count_ok f d : ZonedMemory_ok d → ZonedMemory_ok (count f d).
Proof. by intros []. Qed.

Lemma mem_block_count f d b : mem_block (count f d) b = mem_block d b.
Proof. done. Qed.

Lemma set_written_lookup d z v z' :
  ZonedMemory_ok d → 0 ≤ z < zmem_zone_count d →
  mem_written (set_written z v d) z' = if z' =? z then v else mem_written d z'.
Proof.
  intros Hd Hz. pose proof (zok_written_len d Hd). unfold mem_written, set_written; cbn.
  destruct (Z.ltb_spec z' 0); [destruct (Z.eqb_spec z' z); [lia|done]|].
  destruct (Z.eqb_spec z' z) as [->|].
  - by rewrite list_lookup_insert_eq by lia.
  - by rewrite list_lookup_insert_ne by lia.
Qed.

Lemma set_sealed_lookup d z v z' :
  ZonedMemory_ok d → 0 ≤ z < zmem_zone_count d →
  mem_sealed (set_sealed z v d) z' = if z' =? z then v else mem_sealed d z'.
Proof.
  intros Hd Hz. pose proof (zok_sealed_len d Hd). unfold mem_sealed, set_sealed; cbn.
  destruct (Z.ltb_spec z' 0); [destruct (Z.eqb_spec z' z); [lia|done]|].
  destruct (Z.eqb_spec z' z) as [->|].
  - by rewrite list_lookup_insert_eq by lia.
  - by rewrite list_lookup_insert_ne by lia.
Qed.

Lemma set_written_ok d z v :
  ZonedMemory_ok d → 0 ≤ v ≤ zmem_zone_blocks d → ZonedMemory_ok (set_written z v d).
Proof.
  intros [] Hv. split; cbn; try done; [by rewrite length_insert|].
  by apply Forall_insert.
Qed.

Lemma set_sealed_ok d z v : ZonedMemory_ok d → ZonedMemory_ok (set_sealed z v d).
Proof. intros []. split; cbn; try done. by rewrite length_insert. Qed.

Lemma set_bytes_ok d at_ x :
  ZonedMemory_ok d → length (zmem_bytes (set_bytes at_ x d)) = length (zmem_bytes d) →
  ZonedMemory_ok (set_bytes at_ x d).
Proof. intros [] Hl. split; try done. by rewrite Hl. Qed.

(** What the append leaves. *)
Definition appended (z : Z) (x : list Z) (d : ZonedMemory) : ZonedMemory :=
  set_written z (mem_written d z + 1)
    (set_bytes ((z * zmem_zone_blocks d + mem_written d z) * zmem_block_bytes d) x d).

Lemma appended_spec d z x :
  ZonedMemory_ok d → 0 < z < zmem_zone_count d → mem_written d z < zmem_zone_blocks d →
  Z.of_nat (length x) = zmem_block_bytes d →
  ZonedMemory_ok (appended z x d) ∧
  (∀ b, mem_block (appended z x d) b =
     if b =? z * zmem_zone_blocks d + mem_written d z then Some x else mem_block d b) ∧
  (∀ z', mem_written (appended z x d) z' = mem_written d z' + (if z' =? z then 1 else 0)).
Proof.
  intros Hd Hz Hw Hx. pose proof (zok_blocks d Hd). pose proof (mem_written_range d Hd z).
  set (at_ := z * zmem_zone_blocks d + mem_written d z).
  assert (Hat : 0 ≤ at_ < zmem_zone_blocks d * zmem_zone_count d) by (subst at_; nia).
  pose proof (set_bytes_length d Hd at_ x Hat Hx) as Hl.
  assert (H1 : ZonedMemory_ok (set_bytes (at_ * zmem_block_bytes d) x d)) by by apply set_bytes_ok.
  assert (Hwr : ∀ z', mem_written (appended z x d) z' = mem_written d z' + (if z' =? z then 1 else 0)).
  { intros z'. unfold appended. rewrite set_written_lookup by (done || (cbn; lia)). fold at_.
    destruct (Z.eqb_spec z' z) as [->|]; [done|]. change (mem_written (set_bytes _ x d) z') with (mem_written d z').
    lia. }
  split_and!; [apply set_written_ok; [done|cbn; lia]| |done].
  intros b. unfold mem_block.
  assert (Hraw : 0 ≤ b → mem_raw (appended z x d) b = if b =? at_ then x else mem_raw d b).
  { intros Hb. change (mem_raw (appended z x d) b) with (mem_raw (set_bytes (at_ * zmem_block_bytes d) x d) b).
    by apply raw_set_bytes. }
  assert (Hr : mem_readable (appended z x d) b = (b =? at_) || mem_readable d b).
  { unfold mem_readable. rewrite Hwr. change (zmem_zone_blocks (appended z x d)) with (zmem_zone_blocks d).
    change (zmem_zone_count (appended z x d)) with (zmem_zone_count d).
    destruct (zone_offset z (zmem_zone_blocks d) (mem_written d z)) as [Hq Hm]; [lia|lia|]. fold at_ in Hq, Hm.
    destruct (Z.leb_spec 0 b), (Z.ltb_spec b (zmem_zone_blocks d * zmem_zone_count d)); cbn [andb];
      destruct (Z.eqb_spec b at_) as [E|Hne]; try lia; cbn [orb]; try done.
    - rewrite E, Hq, Hm, Z.eqb_refl. destruct (Z.ltb_spec (mem_written d z) (mem_written d z + 1)); [|lia].
      apply orb_true_r.
    - f_equal. destruct (Z.eqb_spec (b / zmem_zone_blocks d) z) as [Hz'|]; [|by rewrite Z.add_0_r].
      destruct (in_zone d Hd b ltac:(lia)) as (_ & _ & _ & Hb).
      assert (b mod zmem_zone_blocks d ≠ mem_written d z) by (intros E; apply Hne; subst at_; rewrite Hb, Hz', E; lia).
      rewrite Hz'. destruct (Z.ltb_spec (b mod zmem_zone_blocks d) (mem_written d z + 1)),
        (Z.ltb_spec (b mod zmem_zone_blocks d) (mem_written d z)); lia || done. }
  rewrite Hr. destruct (Z.eqb_spec b at_) as [E|Hne]; cbn [orb].
  - rewrite Hraw by lia. destruct (Z.eqb_spec b at_); done.
  - destruct (mem_readable d b) eqn:R; [|done]. rewrite Hraw.
    + destruct (Z.eqb_spec b at_); [done|done].
    + unfold mem_readable in R. destruct (Z.leb_spec 0 b); [done|]. done.
Qed.

(** What the reset leaves. *)
Definition zeroed_zone (z : Z) (d : ZonedMemory) : ZonedMemory :=
  set_sealed z false (set_written z 0
    (set_bytes (z * zmem_zone_blocks d * zmem_block_bytes d)
       (replicate (Z.to_nat (zmem_zone_blocks d * zmem_block_bytes d)) 0) d)).

Lemma zeroed_zone_spec d z :
  ZonedMemory_ok d → 0 < z < zmem_zone_count d →
  ZonedMemory_ok (zeroed_zone z d) ∧
  (∀ b, mem_block (zeroed_zone z d) b =
     if z * zmem_zone_blocks d <=? b then
       if b <? z * zmem_zone_blocks d + zmem_zone_blocks d then None else mem_block d b
     else mem_block d b) ∧
  (∀ z', mem_written (zeroed_zone z d) z' = if z' =? z then 0 else mem_written d z') ∧
  (∀ z', mem_sealed (zeroed_zone z d) z' = negb (z' =? z) && mem_sealed d z').
Proof.
  intros Hd Hz. pose proof (zok_blocks d Hd). pose proof (zok_block d Hd). pose proof (zok_bytes d Hd).
  set (zb := zmem_zone_blocks d) in *. set (bb := zmem_block_bytes d) in *.
  assert (Hfit : (Z.to_nat (z * zb * bb) + length (replicate (Z.to_nat (zb * bb)) (0:Z))
                  ≤ length (zmem_bytes d))%nat).
  { rewrite length_replicate. assert (z * zb * bb + zb * bb ≤ bb * (zb * zmem_zone_count d)) by nia.
    assert (0 ≤ z * zb * bb) by nia. assert (0 ≤ zb * bb) by nia. lia. }
  set (d1 := set_bytes (z * zb * bb) (replicate (Z.to_nat (zb * bb)) 0) d).
  assert (Hl : length (zmem_bytes d1) = length (zmem_bytes d)) by (exact (length_put _ _ _ Hfit)).
  assert (Hd1 : ZonedMemory_ok d1) by by apply set_bytes_ok.
  assert (Hd2 : ZonedMemory_ok (set_written z 0 d1)) by (apply set_written_ok; [done|cbn; lia]).
  assert (Hwr : ∀ z', mem_written (zeroed_zone z d) z' = if z' =? z then 0 else mem_written d z').
  { intros z'. change (mem_written (zeroed_zone z d) z') with (mem_written (set_written z 0 d1) z').
    by rewrite set_written_lookup by (done || (cbn; lia)). }
  split_and!; [by apply set_sealed_ok| |done|].
  - intros b. unfold mem_block.
    destruct (mem_readable d b) eqn:R.
    + assert (Hb : 0 ≤ b < zb * zmem_zone_count d) by (unfold mem_readable in R; fold zb in R; lia).
      destruct (in_zone d Hd b ltac:(lia)) as (_ & Hq & Hm & Hbe). fold zb in Hq, Hm, Hbe.
      unfold mem_readable in *. rewrite Hwr.
      change (zmem_zone_blocks (zeroed_zone z d)) with zb. change (zmem_zone_count (zeroed_zone z d)) with (zmem_zone_count d).
      fold zb in R. destruct (Z.leb_spec 0 b); [|lia]. destruct (Z.ltb_spec b (zb * zmem_zone_count d)); [|lia].
      cbn [andb] in *.
      destruct (Z.eqb_spec (b / zb) z) as [Hz'|Hz'].
      * rewrite Hz' in *. destruct (Z.eqb_spec z 0); [lia|]. cbn [orb].
        destruct (Z.ltb_spec (b mod zb) 0); [lia|].
        destruct (Z.leb_spec (z * zb) b); [|lia]. destruct (Z.ltb_spec b (z * zb + zb)); [done|lia].
      * rewrite R.
        assert (Hout : b < z * zb ∨ z * zb + zb ≤ b).
        { assert (b / zb < z ∨ z < b / zb) by lia. nia. }
        assert (mem_raw (zeroed_zone z d) b = mem_raw d b) as ->.
        { unfold mem_raw. change (zmem_bytes (zeroed_zone z d)) with (zmem_bytes d1).
          change (zmem_block_bytes (zeroed_zone z d)) with bb. apply slice_put_ne; [done|].
          rewrite length_replicate. fold bb. assert (0 ≤ b * bb) by nia. assert (0 ≤ z * zb * bb) by nia.
          destruct Hout; [left|right].
          - assert (b * bb + bb ≤ z * zb * bb) by nia. lia.
          - assert (z * zb * bb + zb * bb ≤ b * bb) by nia. assert (0 ≤ zb * bb) by nia. lia. }
        destruct (Z.leb_spec (z * zb) b); [|done]. destruct (Z.ltb_spec b (z * zb + zb)); [lia|done].
    + assert (mem_readable (zeroed_zone z d) b = false) as ->.
      { unfold mem_readable in *. rewrite Hwr.
        change (zmem_zone_blocks (zeroed_zone z d)) with zb. change (zmem_zone_count (zeroed_zone z d)) with (zmem_zone_count d).
        fold zb in R. destruct (Z.leb_spec 0 b) as [Hb|]; [|done]. destruct (b <? zb * zmem_zone_count d); [|done].
        cbn [andb] in *. destruct (Z.eqb_spec (b / zb) z) as [Hz'|]; [|done].
        destruct (in_zone d Hd b Hb) as (_ & _ & Hm & _). fold zb in Hm.
        rewrite Hz' in *. destruct (Z.eqb_spec z 0); [lia|]. destruct (Z.ltb_spec (b mod zb) 0); [lia|done]. }
      by repeat case_match.
  - intros z'. unfold zeroed_zone. rewrite set_sealed_lookup by (done || (cbn; lia)).
    by destruct (Z.eqb_spec z' z).
Qed.

(** ** The laws, operation by operation *)
Section laws.
Context (d : ZonedMemory).
Hypothesis Hd : ZonedMemory_ok d.

Lemma read_law b len :
  0 ≤ b →
  ZonedMemory_read b len d =
    match mem_block d b with
    | Some x => if len =? zmem_block_bytes d then (Ok x, count (add_read (zmem_block_bytes d)) d)
                else (Err (Refused refusal_ADDRESS), d)
    | None => (Err (Refused refusal_ADDRESS), d)
    end.
Proof using Hd.
  intros Hb. unfold ZonedMemory_read, mem_block.
  destruct (Z.eqb_spec len (zmem_block_bytes d)); cbn [negb]; [|by destruct (mem_readable d b)].
  rewrite (zone_of_spec d Hd b Hb). unfold mem_readable. destruct (Z.leb_spec 0 b); [|lia].
  destruct (in_zone d Hd b Hb) as (Hz & Hq & Hm & Hbe).
  destruct (Z.ltb_spec b (zmem_zone_blocks d * zmem_zone_count d)) as [Hlt|]; [|done]. cbn [andb].
  destruct (span_spec d Hd b ltac:(lia)) as [-> _].
  unfold ZonedMemory_kind_of, ZonedMemory_start_of.
  destruct (Z.eqb_spec (b / zmem_zone_blocks d) 0); [done|]. cbn [bool_decide orb].
  rewrite bool_decide_eq_true_2 by done.
  destruct (written_spec d Hd (b / zmem_zone_blocks d)) as [-> _]; [lia|]. rsimpl.
  replace (b - b / zmem_zone_blocks d * zmem_zone_blocks d) with (b mod zmem_zone_blocks d) by lia.
  destruct (Z.leb_spec (mem_written d (b / zmem_zone_blocks d)) (b mod zmem_zone_blocks d)),
    (Z.ltb_spec (b mod zmem_zone_blocks d) (mem_written d (b / zmem_zone_blocks d))); lia || done.
Qed.

Lemma write_law b from :
  0 ≤ b →
  ZonedMemory_write b from d = (Err (Refused refusal_ADDRESS), d) ∨
  (ZonedMemory_write b from d =
     (Ok tt, count (add_written (zmem_block_bytes d)) (set_bytes (b * zmem_block_bytes d) from d)) ∧
   Z.of_nat (length from) = zmem_block_bytes d ∧ b < zmem_zone_blocks d * zmem_zone_count d ∧
   b / zmem_zone_blocks d = 0).
Proof using Hd.
  intros Hb. unfold ZonedMemory_write.
  destruct (Z.eqb_spec (Z.of_nat (length from)) (zmem_block_bytes d)); cbn [negb]; [|by left].
  rewrite (zone_of_spec d Hd b Hb).
  destruct (Z.ltb_spec b (zmem_zone_blocks d * zmem_zone_count d)); [|by left].
  unfold ZonedMemory_kind_of. destruct (Z.eqb_spec (b / zmem_zone_blocks d) 0) as [E|]; [|by left].
  rewrite bool_decide_eq_false_2 by done. destruct (span_spec d Hd b ltac:(lia)) as [-> _]. by right.
Qed.

Lemma append_law z from :
  0 ≤ z →
  (ZonedMemory_append z from d = (Err (Refused refusal_ADDRESS), d)) ∨
  (ZonedMemory_append z from d = (Err (Refused refusal_FULL), d) ∧
   (mem_sealed d z = true ∨ zmem_zone_blocks d ≤ mem_written d z)) ∨
  (ZonedMemory_append z from d =
     (Ok (z * zmem_zone_blocks d + mem_written d z),
      count (add_appended (zmem_block_bytes d)) (appended z from d)) ∧
   0 < z < zmem_zone_count d ∧ Z.of_nat (length from) = zmem_block_bytes d ∧
   mem_sealed d z = false ∧ mem_written d z < zmem_zone_blocks d).
Proof using Hd.
  intros Hz. unfold ZonedMemory_append.
  destruct (Z.eqb_spec (Z.of_nat (length from)) (zmem_block_bytes d)); cbn [negb]; [|by left].
  rewrite (sequential_spec d z Hz).
  destruct (Z.leb_spec (zmem_zone_count d) z); [by left|]. destruct (Z.eqb_spec z 0); [by left|]. cbn [orb].
  rewrite (sealed_spec d Hd) by lia. destruct (written_spec d Hd z) as [-> Hw]; [lia|].
  destruct (mem_sealed d z) eqn:S; [right; left; by split; [|left]|]. cbn [orb].
  destruct (Z.leb_spec (zmem_zone_blocks d) (mem_written d z)); [right; left; by split; [|right]|].
  right; right. unfold ZonedMemory_start_of.
  destruct (span_spec d Hd (z * zmem_zone_blocks d + mem_written d z)) as [-> _]; [nia|].
  split_and!; [done|lia|lia|done|done|done].
Qed.

(** What an append answers in a zone that takes appends. *)
Lemma append_answer z from :
  0 < z < zmem_zone_count d → Z.of_nat (length from) = zmem_block_bytes d →
  (ZonedMemory_append z from d).1 =
    if mem_sealed d z || (zmem_zone_blocks d <=? mem_written d z) then Err (Refused refusal_FULL)
    else Ok (z * zmem_zone_blocks d + mem_written d z).
Proof using Hd.
  intros Hz Hl. unfold ZonedMemory_append. rewrite Hl, Z.eqb_refl. cbn [negb].
  rewrite sequential_spec by lia.
  destruct (Z.leb_spec (zmem_zone_count d) z); [lia|]. destruct (Z.eqb_spec z 0); [lia|]. cbn [orb].
  rewrite (sealed_spec d Hd) by lia. destruct (written_spec d Hd z) as [-> Hw]; [lia|].
  destruct (mem_sealed d z || _) eqn:F; [done|]. apply orb_false_iff in F as [_ F].
  unfold ZonedMemory_start_of. pose proof (zok_blocks d Hd).
  destruct (span_spec d Hd (z * zmem_zone_blocks d + mem_written d z)) as [-> _]; [nia|done].
Qed.

Lemma finish_law z :
  0 ≤ z →
  ZonedMemory_finish z d = (Err (Refused refusal_ADDRESS), d) ∨
  (ZonedMemory_finish z d = (Ok tt, count add_finish (set_sealed z true d)) ∧ 0 < z < zmem_zone_count d).
Proof using Hd.
  intros Hz. unfold ZonedMemory_finish. rewrite (sequential_spec d z Hz). pose proof (zok_sealed_len d Hd).
  destruct (Z.leb_spec (zmem_zone_count d) z); [by left|]. destruct (Z.eqb_spec z 0); [by left|]. cbn [orb].
  destruct (Z.leb_spec (Z.of_nat (length (zmem_sealed d))) z); [lia|]. right. split; [done|lia].
Qed.

Lemma reset_law z :
  0 ≤ z →
  ZonedMemory_reset z d = (Err (Refused refusal_ADDRESS), d) ∨
  (ZonedMemory_reset z d = (Ok tt, count add_reset (zeroed_zone z d)) ∧ 0 < z < zmem_zone_count d).
Proof using Hd.
  intros Hz. unfold ZonedMemory_reset. rewrite (sequential_spec d z Hz).
  pose proof (zok_sealed_len d Hd). pose proof (zok_written_len d Hd). pose proof (zok_blocks d Hd).
  pose proof (zok_bytes d Hd). pose proof (zok_block d Hd).
  destruct (Z.leb_spec (zmem_zone_count d) z); [by left|]. destruct (Z.eqb_spec z 0); [by left|]. cbn [orb].
  unfold ZonedMemory_start_of. destruct (span_spec d Hd (z * zmem_zone_blocks d)) as [-> _]; [nia|].
  right. split; [|lia].
  destruct (Z.ltb_spec (Z.of_nat (length (zmem_bytes d)))
    (z * zmem_zone_blocks d * zmem_block_bytes d + zmem_zone_blocks d * zmem_block_bytes d)); [nia|].
  destruct (Z.leb_spec (Z.of_nat (length (zmem_written d))) z); [lia|].
  destruct (Z.leb_spec (Z.of_nat (length (zmem_sealed d))) z); [lia|]. done.
Qed.
End laws.

#[export] Program Instance ZonedMemory_laws : ZonedLaws ZonedMemory := {|
  dev_ok := ZonedMemory_ok;
  hardware := λ _, False;
  view_block := mem_block;
  view_written := mem_written;
  (* what [report] calls full, which is what the map sees of a sealed zone *)
  view_sealed := mem_sealed;
|}.
Next Obligation. intros d []. cbn. lia. Qed.
Next Obligation.
  intros d b x Hd. cbn. unfold mem_block. destruct (mem_readable d b) eqn:R; [|done]. intros [= <-].
  apply length_raw; [done|]. unfold mem_readable in R. lia.
Qed.
Next Obligation. intros d z Hd. by apply mem_written_range. Qed.
Next Obligation.
  intros d z i Hd Hz Hk Hi. cbn in *. unfold ZonedMemory_kind_of in Hk.
  destruct (Z.eqb_spec z 0); [done|]. pose proof (zok_blocks d Hd).
  unfold mem_block, mem_readable. destruct (zone_offset z (zmem_zone_blocks d) i) as [-> ->]; [done|done|].
  destruct (Z.leb_spec 0 (z * zmem_zone_blocks d + i)); [|nia].
  destruct (Z.ltb_spec (z * zmem_zone_blocks d + i) (zmem_zone_blocks d * zmem_zone_count d)); [|nia].
  destruct (Z.eqb_spec z 0); [done|]. cbn [andb orb].
  destruct (Z.ltb_spec i (mem_written d z)); split; try done. intros. lia.
Qed.
Next Obligation.
  intros d b len r d' Hd Hb. cbn. rewrite (read_law d Hd b len Hb).
  destruct (mem_block d b); [destruct (len =? _)|]; intros [= <- <-]; split; try (by right);
    split_and!; done || by apply count_ok.
Qed.
Next Obligation.
  intros d b from r d' Hd Hzb Hb. cbn. intros E. right.
  destruct (write_law d Hd b from Hb) as [E1|(E1 & Hl & Hlt & Hz)]; rewrite E in E1; injection E1 as -> ->.
  - left. split; [done|]. split_and!; done.
  - right. pose proof (set_bytes_length d Hd b from ltac:(lia) Hl) as Hlen.
    split_and!; try done.
    + by rewrite Hz.
    + apply count_ok. by apply set_bytes_ok.
    + intros b'. rewrite mem_block_count. unfold mem_block.
      change (mem_readable (set_bytes _ from d) b') with (mem_readable d b'). destruct (mem_readable d b') eqn:R.
      * unfold mem_readable in R. rewrite (raw_set_bytes d Hd) by (done || lia). by destruct (b' =? b).
      * destruct (Z.eqb_spec b' b) as [->|]; [|done]. unfold mem_readable in R. rewrite Hz in R. cbn [Z.eqb orb] in R.
        lia.
Qed.
Next Obligation. intros d r d' Hd. cbn. intros [= <- <-]. split; [|by right]. split_and!; done || by apply count_ok. Qed.
Next Obligation.
  intros d z r d' Hd Hz. cbn. unfold ZonedMemory_report.
  destruct (Z.leb_spec (zmem_zone_count d) z); [intros [= <- <-]; split; [by split_and!|by right]|].
  rewrite (sealed_spec d Hd) by lia. destruct (written_spec d Hd z) as [-> Hw]; [lia|].
  intros [= <- <-]. split; [by split_and!|]. right. eexists. split; [done|]. cbn. unfold ZonedMemory_start_of.
  split; [done|]. destruct (mem_sealed d z); cbn [orb]; [split; [done|]; split; [done|]; split; auto|].
  destruct (Z.eqb_spec (mem_written d z) (zmem_zone_blocks d)) as [Ew|Ew]; (split; [lia|]; split; [done|]; split; auto).
  - destruct (mem_written d z =? 0); done.
  - intros [?|?]; done.
Qed.
Next Obligation.
  intros d z from r d' Hd Hz. cbn. intros E. right.
  destruct (append_law d Hd z from Hz) as [E1|[[E1 Hf]|(E1 & Hzz & Hl & Hs & Hw)]]; rewrite E in E1; injection E1 as -> ->.
  - left. eexists. split; [done|]. split; [by split_and!|by left].
  - left. eexists. split; [done|]. split; [by split_and!|by right].
  - right. destruct (appended_spec d z from Hd Hzz Hw Hl) as (Ho & Hb & Hwr).
    split_and!; try done; [lia| |by apply count_ok].
    unfold ZonedMemory_kind_of. by destruct (Z.eqb_spec z 0); [lia|].
Qed.
Next Obligation.
  intros d z r d' Hd Hz. cbn. intros E. right.
  destruct (finish_law d Hd z Hz) as [E1|[E1 Hzz]]; rewrite E in E1; injection E1 as -> ->.
  - left. split; [done|]. by split_and!.
  - right. split_and!; try done; [lia|by apply count_ok, set_sealed_ok|].
    intros z'. change (mem_sealed (count add_finish ?x) z') with (mem_sealed x z').
    rewrite set_sealed_lookup by (done || lia). by destruct (z' =? z).
Qed.
Next Obligation.
  intros d z r d' Hd Hz. cbn. intros E. right.
  destruct (reset_law d Hd z Hz) as [E1|[E1 Hzz]]; rewrite E in E1; injection E1 as -> ->.
  - left. split; [done|]. by split_and!.
  - right. destruct (zeroed_zone_spec d z Hd Hzz) as (Ho & Hb & Hwr & Hs).
    split_and!; try done; [lia|by apply count_ok].
Qed.

(** A fresh device is one, with nothing written. *)
Lemma ZonedMemory_new_ok bb zb zc d :
  0 ≤ bb → 0 < zb → 0 ≤ zc ≤ u32_max → ZonedMemory_new bb zb zc = Ok d →
  ZonedMemory_ok d ∧ (∀ z, mem_written d z = 0) ∧ (∀ z, mem_sealed d z = false).
Proof.
  intros Hbb Hzb Hzc. unfold ZonedMemory_new.
  destruct (Z.leb_spec (2 ^ 63) (bb * (zb * zc))); [done|]. intros [= <-].
  split_and!.
  - split; cbn [zmem_block_bytes zmem_zone_blocks zmem_zone_count zmem_bytes zmem_written zmem_sealed];
      try done; rewrite ?length_replicate; try (nia || lia).
    apply Forall_replicate. lia.
  - intros z. unfold mem_written; cbn. destruct (z <? 0); [done|].
    destruct (replicate _ 0 !! _) as [w|] eqn:L; [|done]. by apply lookup_replicate in L as [-> _].
  - intros z. unfold mem_sealed; cbn. destruct (z <? 0); [done|].
    destruct (replicate _ false !! _) as [w|] eqn:L; [|done]. by apply lookup_replicate in L as [-> _].
Qed.
