(* ===== verification/ZoneMap.v ===== *)
(** * The mapping: [zone/src/map.rs]

    A flat logical block space over any zoned device: appends fill zones, a
    block moves between zones by copying it, making the copies durable and
    only then repointing, and a condemned zone is reset once nothing is
    pending. *)

From S2P Require Import Prelude Abi Bytes BTree StoreRecords ZoneDevice.

Inductive State : Type := StFree | StOpen | StSealed | StCondemned.

#[global] Instance State_eq_dec : EqDecision State.
Proof. solve_decision. Defined.

Record Zone : Type := mkZone {
  zn_zone : Z;
  zn_state : State;
  zn_live_bytes : Z;
  zn_reads_outstanding : Z;
}.

Definition zone_fresh (zone : Z) (st : State) : Zone := mkZone zone st 0 0.
Definition with_state (st : State) (z : Zone) : Zone :=
  mkZone (zn_zone z) st (zn_live_bytes z) (zn_reads_outstanding z).

Section map.
Context {D : Type} `{Zoned D}.

Record ZoneMap : Type := mkZoneMap {
  zm_device : D;
  zm_zone_blocks : Z;
  zm_data_from : Z;
  zm_physical : gmap Z Z;
  zm_logical : gmap Z Z;
  zm_zones : gmap Z Zone;
  zm_open : option Z;
  zm_copies : gmap Z Z;
}.

Implicit Types (m : ZoneMap).

(** Setters. *)
Definition with_device (d : D) m : ZoneMap :=
  mkZoneMap d (zm_zone_blocks m) (zm_data_from m) (zm_physical m) (zm_logical m) (zm_zones m) (zm_open m) (zm_copies m).
Definition with_maps (p l : gmap Z Z) m : ZoneMap :=
  mkZoneMap (zm_device m) (zm_zone_blocks m) (zm_data_from m) p l (zm_zones m) (zm_open m) (zm_copies m).
Definition with_zones (zs : gmap Z Zone) m : ZoneMap :=
  mkZoneMap (zm_device m) (zm_zone_blocks m) (zm_data_from m) (zm_physical m) (zm_logical m) zs (zm_open m) (zm_copies m).
Definition with_open (o : option Z) m : ZoneMap :=
  mkZoneMap (zm_device m) (zm_zone_blocks m) (zm_data_from m) (zm_physical m) (zm_logical m) (zm_zones m) o (zm_copies m).
Definition with_copies (c : gmap Z Z) m : ZoneMap :=
  mkZoneMap (zm_device m) (zm_zone_blocks m) (zm_data_from m) (zm_physical m) (zm_logical m) (zm_zones m) (zm_open m) c.

(** A call on the device inside the map. *)
Definition on_device {A} (op : sm D fault A) : sm ZoneMap fault A := λ m,
  let '(r, d) := op (zm_device m) in (r, with_device d m).

(** [for zone in from..to], inserting a zone for each. *)
Definition fresh_zones (from to : Z) : gmap Z Zone :=
  foldl (λ zs i, <[from + Z.of_nat i := zone_fresh (from + Z.of_nat i) StFree]> zs) ∅
    (seq 0 (Z.to_nat (to - from))).

Definition ZoneMap_new (device : D) (data_from : Z) : res fault ZoneMap :=
  if (data_from =? 0) || (zone_count device <=? data_from) then Err (Refused refusal_MALFORMED)
  else
    let zb := zone_blocks device in
    if zb =? 0 then Err (Refused refusal_MALFORMED)
    else
      Ok (mkZoneMap device zb data_from {[0 := 0]} {[0 := 0]}
            (fresh_zones data_from (zone_count device)) None ∅).

(** [for at in report.start..report.write_pointer] *)
Fixpoint remount_blocks (n : nat) (at_ logical : Z) m : Z * ZoneMap :=
  match n with
  | O => (logical, m)
  | S n => remount_blocks n (at_ + 1) (logical + 1)
             (with_maps (<[logical := at_]> (zm_physical m)) (<[at_ := logical]> (zm_logical m)) m)
  end.

(** [for zone in data_from..zone_count] *)
Fixpoint remount_zones (n : nat) (zone logical : Z) : sm ZoneMap fault unit :=
  match n with
  | O => sm_ret tt
  | S n =>
      do! report <- on_device (dev_report zone);
      λ m,
        let '(logical, m) :=
          remount_blocks (Z.to_nat (rep_write_pointer report - rep_start report)) (rep_start report) logical m in
        let m :=
          if rep_start report <? rep_write_pointer report
          then with_zones (<[zone := zone_fresh zone StSealed]> (zm_zones m)) m else m in
        remount_zones n (zone + 1) logical m
  end.

Definition ZoneMap_remount (device : D) (data_from : Z) : res fault ZoneMap :=
  let? m := ZoneMap_new device data_from in
  match remount_zones (Z.to_nat (zone_count device - data_from)) data_from 1 m with
  | (Ok _, m) => Ok m
  | (Err e, _) => Err e
  end.

(** ** Questions *)
Definition ZoneMap_zones m : list Zone := btree_values (zm_zones m).
Definition ZoneMap_zone m (zone : Z) : option Zone := zm_zones m !! zone.
Definition ZoneMap_zones_free m : Z :=
  Z.of_nat (length (filter (λ z, zn_state z = StFree) (ZoneMap_zones m))).
Definition ZoneMap_physical m (logical : Z) : option Z := zm_physical m !! logical.
Definition ZoneMap_zone_of m (logical : Z) : res fault (option Z) :=
  match ZoneMap_physical m logical with
  | None => Ok None
  | Some block =>
      if zm_zone_blocks m =? 0 then Err Panicked
      else Ok (if block / zm_zone_blocks m <=? u32_max then Some (block / zm_zone_blocks m) else None)
  end.
Definition ZoneMap_holds m (zone : Z) : list Z :=
  let start := zone * zm_zone_blocks m in
  (btree_range (zm_logical m) start (start + zm_zone_blocks m)).*2.
Definition ZoneMap_copies_outstanding m : nat := size (zm_copies m).
Definition ZoneMap_blocks m : Z := 1 + (zone_count (zm_device m) - zm_data_from m) * zm_zone_blocks m.
Definition placed m : gset Z := dom (zm_physical m).

(** ** One zone's entry *)
Definition get_zone (zone : Z) : sm ZoneMap fault Zone := λ m,
  (option_or_refuse (zm_zones m !! zone) refusal_ADDRESS, m).
Definition put_zone (zone : Z) (z : Zone) : sm ZoneMap fault unit :=
  sm_put (λ m, with_zones (<[zone := z]> (zm_zones m)) m).

Definition ZoneMap_hold_read (zone : Z) : sm ZoneMap fault unit :=
  do! held <- get_zone zone;
  if zn_reads_outstanding held =? u32_max then sm_err Panicked
  else put_zone zone (mkZone (zn_zone held) (zn_state held) (zn_live_bytes held) (zn_reads_outstanding held + 1)).

Definition ZoneMap_release_read (zone : Z) : sm ZoneMap fault unit :=
  do! held <- get_zone zone;
  if zn_reads_outstanding held =? 0 then refuse refusal_ADDRESS
  else put_zone zone (mkZone (zn_zone held) (zn_state held) (zn_live_bytes held) (zn_reads_outstanding held - 1)).

Definition ZoneMap_set_live_bytes (zone bytes : Z) : sm ZoneMap fault unit :=
  do! held <- get_zone zone;
  put_zone zone (mkZone (zn_zone held) (zn_state held) bytes (zn_reads_outstanding held)).

Definition ZoneMap_condemn (zone : Z) : sm ZoneMap fault unit :=
  do! held <- get_zone zone;
  if bool_decide (zn_state held ≠ StSealed) then refuse refusal_MALFORMED
  else put_zone zone (with_state StCondemned held).

(** [if let Some(held) = self.zones.get_mut(..) { held.state = .. }] *)
Definition set_state_if (zone : Z) (st : State) : sm ZoneMap fault unit :=
  sm_put (λ m, match zm_zones m !! zone with
               | Some held => with_zones (<[zone := with_state st held]> (zm_zones m)) m
               | None => m
               end).

(** ** Filling *)
(** [if let Some(open) = self.open.take() { .. }], after the take. *)
Definition seal_open (open : option Z) : sm ZoneMap fault unit :=
  match open with
  | Some open =>
      do! _ <- on_device (dev_finish open);
      set_state_if open StSealed
  | None => sm_ret tt
  end.

Definition ZoneMap_open_zone : sm ZoneMap fault Z := λ m,
  let '(open, m) := (zm_open m, with_open None m) in
  (do! _ <- seal_open open;
   do! found <- sm_get (λ m, list_find (λ z, zn_state z = StFree) (ZoneMap_zones m));
   match found with
   | None => refuse refusal_FULL
   | Some (_, z) =>
       let next := zn_zone z in
       do! _ <- set_state_if next StOpen;
       do! _ <- sm_put (with_open (Some next));
       sm_ret next
   end) m.

Definition append_somewhere (from : list Z) : sm ZoneMap fault Z :=
  do! open <- sm_get zm_open;
  do! _ <- match open with
           | None => do! _ <- ZoneMap_open_zone; sm_ret tt
           | Some _ => sm_ret tt
           end;
  do! open <- sm_get zm_open;
  match open with
  | None => refuse refusal_FULL
  | Some open => λ m,
      match on_device (dev_append open from) m with
      | (Err (Refused code), m) =>
          if code =? refusal_FULL then
            (do! next <- ZoneMap_open_zone; on_device (dev_append next from)) m
          else (Err (Refused code), m)
      | other => other
      end
  end.

Definition ZoneMap_append_reserved (zone : Z) (from : list Z) : sm ZoneMap fault Z := λ m,
  if (zone =? 0) || (zm_data_from m <=? zone) then refuse refusal_ADDRESS m
  else on_device (dev_append zone from) m.

(** ** [Device] for the map *)
Definition ZoneMap_read (block len : Z) : sm ZoneMap fault (list Z) := λ m,
  match zm_physical m !! block with
  | None => refuse refusal_ADDRESS m
  | Some at_ => on_device (dev_read at_ len) m
  end.

Definition ZoneMap_write (block : Z) (from : list Z) : sm ZoneMap fault unit := λ m,
  match zm_physical m !! block with
  | Some at_ =>
      if zm_zone_blocks m =? 0 then (Err Panicked, m)
      else
        let zone := at_ / zm_zone_blocks m in
        if u32_max <? zone then refuse refusal_ADDRESS m
        else if bool_decide (kind (zm_device m) zone ≠ Conventional) then refuse refusal_ADDRESS m
        else on_device (dev_write at_ from) m
  | None =>
      (do! at_ <- append_somewhere from;
       sm_put (λ m, with_maps (<[block := at_]> (zm_physical m)) (<[at_ := block]> (zm_logical m)) m)) m
  end.

Definition ZoneMap_flush : sm ZoneMap fault unit := on_device dev_flush.

(** ** Moving and resetting *)
Definition ZoneMap_copy_forward (logical : Z) : sm ZoneMap fault Z := λ m,
  match zm_physical m !! logical with
  | None => refuse refusal_ADDRESS m
  | Some from =>
      (do! block <- on_device (dev_read from (block_bytes (zm_device m)));
       do! to <- append_somewhere block;
       do! _ <- sm_put (λ m, with_copies (<[logical := to]> (zm_copies m)) m);
       sm_ret to) m
  end.

(** One turn of the repointing loop. *)
Definition repoint (m : ZoneMap) (copy : Z * Z) : ZoneMap :=
  let '(logical, to) := copy in
  let inverse := match zm_physical m !! logical with
                 | Some from => delete from (zm_logical m)
                 | None => zm_logical m
                 end in
  with_maps (<[logical := to]> (zm_physical m)) (<[to := logical]> inverse) m.

Definition ZoneMap_commit_copies : sm ZoneMap fault nat := λ m,
  if decide (zm_copies m = ∅) then (Ok 0%nat, m)
  else
    (do! _ <- on_device dev_flush;
     λ m, let done := zm_copies m in
          (Ok (size done), foldl repoint (with_copies ∅ m) (btree_list done))) m.

Definition forget (m : ZoneMap) (stale : Z * Z) : ZoneMap :=
  let '(block, logical) := stale in
  with_maps (delete logical (zm_physical m)) (delete block (zm_logical m)) m.

Definition ZoneMap_recycle (zone : Z) : sm ZoneMap fault unit :=
  do! held <- get_zone zone;
  λ m,
    if bool_decide (zn_state held ≠ StCondemned) || bool_decide (zm_copies m ≠ ∅) then refuse refusal_MALFORMED m
    else
      let start := zone * zm_zone_blocks m in
      let stale := btree_range (zm_logical m) start (start + zm_zone_blocks m) in
      (do! _ <- on_device (dev_reset zone);
       do! _ <- sm_put (λ m, foldl forget m stale);
       put_zone zone (zone_fresh zone StFree)) m.

(** ** [zone/src/invariants.rs]: the two conjuncts about the mapping *)
Definition a_reset_zone_holds_no_live_blob m : bool :=
  forallb (λ z, bool_decide (ZoneMap_holds m (zn_zone z) = []))
    (filter (λ z, zn_state z = StFree) (ZoneMap_zones m)).

Definition no_reader_believes_the_zone m (zone : Z) : bool :=
  match ZoneMap_zone m zone with Some held => zn_reads_outstanding held =? 0 | None => false end.
End map.
Arguments ZoneMap D : clear implicits.
