(* ===== verification/ZoneMapFacts.v ===== *)
(** * The invariant of the mapping, and what preserves it

    Proved against the promises of the trait ([ZonedLaws]), for any device. *)

From S2P Require Import Prelude Abi Bytes BTree StoreRecords ZoneDevice ZoneMap.

Section facts.
Context {D : Type} `{HL : ZonedLaws D}.
Implicit Types (m : ZoneMap D).

Local Abbreviation view m := (view_block (zm_device m)).

(** Block [b] was appended to a data zone. *)
Definition in_data m (b : Z) : Prop :=
  ∃ z i, b = z * zm_zone_blocks m + i ∧ 0 ≤ i < zm_zone_blocks m ∧
    zm_data_from m ≤ z < zone_count (zm_device m) ∧
    kind (zm_device m) z = SequentialWriteRequired ∧ i < view_written (zm_device m) z.

Definition state_of m (z : Z) : option State := zn_state <$> (zm_zones m !! z).

Record Map_ok m : Prop := {
  mo_dev : dev_ok (zm_device m);
  mo_zb : zm_zone_blocks m = zone_blocks (zm_device m) ∧ 0 < zm_zone_blocks m;
  mo_from : 0 < zm_data_from m < zone_count (zm_device m);
  mo_inverse : ∀ l b, zm_physical m !! l = Some b ↔ zm_logical m !! b = Some l;
  mo_home : ∀ l b, zm_physical m !! l = Some b → b = 0 ∨ in_data m b;
  mo_zones : ∀ z, is_Some (zm_zones m !! z) ↔ zm_data_from m ≤ z < zone_count (zm_device m);
  mo_zone_self : ∀ z Z, zm_zones m !! z = Some Z → zn_zone Z = z;
  mo_free : ∀ z i, state_of m z = Some StFree → 0 ≤ i < zm_zone_blocks m →
    zm_logical m !! (z * zm_zone_blocks m + i) = None;
  mo_open : ∀ z, zm_open m = Some z → state_of m z = Some StOpen;
  mo_copies : ∀ l to, zm_copies m !! l = Some to →
    in_data m to ∧ zm_logical m !! to = None ∧ state_of m (to / zm_zone_blocks m) ≠ Some StFree ∧
    ∃ b, zm_physical m !! l = Some b ∧ b ≠ 0 ∧ view m to = view m b;
  mo_copies_inj : ∀ l1 l2 to, zm_copies m !! l1 = Some to → zm_copies m !! l2 = Some to → l1 = l2;
}.

(** What a logical block holds. *)
Definition contents m (l : Z) : option (list Z) := zm_physical m !! l ≫= view m.

(** Calls that leave every mapping and everything readable as it was. *)
Record quiet m m' : Prop := {
  q_physical : zm_physical m' = zm_physical m;
  q_logical : zm_logical m' = zm_logical m;
  q_copies : zm_copies m' = zm_copies m;
  q_zb : zm_zone_blocks m' = zm_zone_blocks m;
  q_from : zm_data_from m' = zm_data_from m;
  q_geometry : same_geometry (zm_device m) (zm_device m');
  q_view : ∀ b, b = 0 ∨ is_Some (view m b) → view m' b = view m b;
  q_written : ∀ z, view_written (zm_device m) z ≤ view_written (zm_device m') z;
  q_dom : ∀ z, is_Some (zm_zones m' !! z) ↔ is_Some (zm_zones m !! z);
  q_self : ∀ z Z', zm_zones m' !! z = Some Z' → ∃ Z, zm_zones m !! z = Some Z ∧ zn_zone Z' = zn_zone Z;
  q_free : ∀ z, state_of m' z = Some StFree → state_of m z = Some StFree;
  q_condemned : ∀ z, state_of m z = Some StCondemned → state_of m' z = Some StCondemned;
}.

Lemma same_geometry_refl d : same_geometry d d.
Proof. by split_and!. Qed.

Lemma same_geometry_trans d1 d2 d3 : same_geometry d1 d2 → same_geometry d2 d3 → same_geometry d1 d3.
Proof.
  intros (? & ? & ? & K1) (? & ? & ? & K2). repeat split; try congruence; by intros; rewrite K2, K1.
Qed.

Lemma quiet_refl m : quiet m m.
Proof. split; try done; eauto using same_geometry_refl. Qed.

Lemma quiet_trans m1 m2 m3 : quiet m1 m2 → quiet m2 m3 → quiet m1 m3.
Proof.
  intros Q1 Q2. split.
  - by rewrite (q_physical _ _ Q2), (q_physical _ _ Q1).
  - by rewrite (q_logical _ _ Q2), (q_logical _ _ Q1).
  - by rewrite (q_copies _ _ Q2), (q_copies _ _ Q1).
  - by rewrite (q_zb _ _ Q2), (q_zb _ _ Q1).
  - by rewrite (q_from _ _ Q2), (q_from _ _ Q1).
  - eapply same_geometry_trans; [apply Q1|apply Q2].
  - intros b Hb. rewrite (q_view _ _ Q2), (q_view _ _ Q1); [done|done|].
    destruct Hb as [->|Hb]; [by left|right]. by rewrite (q_view _ _ Q1) by auto.
  - intros z. etrans; [apply (q_written _ _ Q1)|apply (q_written _ _ Q2)].
  - intros z. by rewrite (q_dom _ _ Q2), (q_dom _ _ Q1).
  - intros z Z3 H3. destruct (q_self _ _ Q2 _ _ H3) as (Z2 & H2 & E2).
    destruct (q_self _ _ Q1 _ _ H2) as (Z1 & H1 & E1). exists Z1. split; [done|congruence].
  - intros z H3. by apply (q_free _ _ Q1), (q_free _ _ Q2).
  - intros z H1. by apply (q_condemned _ _ Q2), (q_condemned _ _ Q1).
Qed.

Lemma in_data_quiet m m' b : quiet m m' → in_data m b → in_data m' b.
Proof.
  intros Q (z & i & -> & Hi & Hz & Hk & Hw). destruct (q_geometry _ _ Q) as (_ & Hc & _ & Hkd).
  exists z, i. rewrite (q_zb _ _ Q), (q_from _ _ Q), Hc, Hkd. split_and!; try done; try lia.
  pose proof (q_written _ _ Q z). lia.
Qed.

Lemma in_data_readable m b : Map_ok m → in_data m b → is_Some (view m b).
Proof.
  intros Hm (z & i & -> & Hi & Hz & Hk & Hw). destruct (mo_zb m Hm) as [Hzb _]. rewrite Hzb in *.
  apply law_readable; [apply Hm| |done|done|done]. pose proof (mo_from m Hm). lia.
Qed.

Lemma in_data_pos m b : Map_ok m → in_data m b → 0 < b.
Proof. intros Hm (z & i & -> & Hi & Hz & _). pose proof (mo_from m Hm). destruct (mo_zb m Hm). nia. Qed.

Lemma mapped_view m l b :
  Map_ok m → zm_physical m !! l = Some b → b = 0 ∨ is_Some (view m b).
Proof. intros Hm Hb. destruct (mo_home m Hm l b Hb); [by left|right]. by apply in_data_readable. Qed.

Lemma quiet_ok m m' :
  Map_ok m → quiet m m' → dev_ok (zm_device m') →
  (∀ z, zm_open m' = Some z → state_of m' z = Some StOpen) → Map_ok m'.
Proof.
  intros Hm Q Hd Ho. destruct (q_geometry _ _ Q) as (_ & Hc & Hz & _). split.
  - done.
  - rewrite (q_zb _ _ Q), Hz. apply Hm.
  - rewrite (q_from _ _ Q), Hc. apply Hm.
  - rewrite (q_physical _ _ Q), (q_logical _ _ Q). apply Hm.
  - rewrite (q_physical _ _ Q). intros l b Hb. destruct (mo_home m Hm l b Hb); [by left|right].
    by eapply in_data_quiet.
  - intros z. rewrite (q_dom _ _ Q), (q_from _ _ Q), Hc. apply Hm.
  - intros z Z' H'. destruct (q_self _ _ Q _ _ H') as (Z & HZ & ->). by apply (mo_zone_self m Hm).
  - intros z i Hf. rewrite (q_zb _ _ Q), (q_logical _ _ Q). apply (mo_free m Hm). by apply (q_free _ _ Q).
  - done.
  - intros l to. rewrite (q_copies _ _ Q), (q_logical _ _ Q), (q_physical _ _ Q), (q_zb _ _ Q). intros Hl.
    destruct (mo_copies m Hm l to Hl) as (Hi & Hn & Hf & b & Hb & Hb0 & Hv). split_and!.
    + by eapply in_data_quiet.
    + done.
    + intros E. apply Hf. by apply (q_free _ _ Q).
    + exists b. split_and!; [done|done|].
      rewrite !(q_view _ _ Q); [done| |right; by apply in_data_readable].
      by eapply mapped_view.
  - rewrite (q_copies _ _ Q). apply Hm.
Qed.

Lemma quiet_contents m m' l : Map_ok m → quiet m m' → contents m' l = contents m l.
Proof.
  intros Hm Q. unfold contents. rewrite (q_physical _ _ Q).
  destruct (zm_physical m !! l) as [b|] eqn:Hb; [|done]. cbn.
  apply (q_view _ _ Q). by eapply mapped_view.
Qed.

(** ** Calls on the device *)
Lemma same_view_quiet m d' : same_view (zm_device m) d' → quiet m (with_device d' m).
Proof.
  intros (_ & Hg & Hv & Hw & _). split; try done; cbn; eauto. intros z. by rewrite Hw.
Qed.

Lemma same_view_ok m d' : Map_ok m → same_view (zm_device m) d' → Map_ok (with_device d' m).
Proof.
  intros Hm Hs. eapply quiet_ok; [done|by apply same_view_quiet|apply Hs|]. apply Hm.
Qed.

Lemma faulted_not_panicked {A} (r : res fault A) : faulted r → r ≠ Err Panicked.
Proof. by intros (e & -> & _). Qed.

(** A call that settles: in good order, nothing moved, and no panic. *)
Definition settled {A} m (r : res fault A) m' : Prop := Map_ok m' ∧ quiet m m' ∧ r ≠ Err Panicked.

Lemma settled_refl {A} m (r : res fault A) : Map_ok m → r ≠ Err Panicked → settled m r m.
Proof. intros. by split_and!; [|apply quiet_refl|]. Qed.

Lemma settled_trans {A B} m1 m2 m3 (r : res fault A) (r' : res fault B) :
  settled m1 r m2 → settled m2 r' m3 → settled m1 r' m3.
Proof. intros (_ & Q1 & _) (? & Q2 & ?). split_and!; [done|by eapply quiet_trans|done]. Qed.

Lemma same_view_settled {A} m d' (r : res fault A) :
  Map_ok m → same_view (zm_device m) d' → r ≠ Err Panicked → settled m r (with_device d' m).
Proof. intros. split_and!; [by apply same_view_ok|by apply same_view_quiet|done]. Qed.

(** ** One zone's entry *)
Lemma state_of_insert m z Z z' :
  state_of (with_zones (<[z := Z]> (zm_zones m)) m) z' = if decide (z' = z) then Some (zn_state Z) else state_of m z'.
Proof.
  unfold state_of; cbn. destruct (decide (z' = z)) as [->|]; [by rewrite lookup_insert_eq|].
  by rewrite lookup_insert_ne.
Qed.

Lemma put_zone_settled m z held Z :
  Map_ok m → zm_zones m !! z = Some held → zn_zone Z = zn_zone held →
  (zn_state Z = StFree → zn_state held = StFree) →
  (zn_state held = StCondemned → zn_state Z = StCondemned) →
  (zm_open m = Some z → zn_state Z = StOpen) →
  settled m (Ok tt : res fault unit) (with_zones (<[z := Z]> (zm_zones m)) m).
Proof.
  intros Hm Hz Hs Hf Hc Ho.
  assert (Hst : state_of m z = Some (zn_state held)) by (unfold state_of; by rewrite Hz).
  assert (Q : quiet m (with_zones (<[z := Z]> (zm_zones m)) m)).
  { split; try done.
    - intros z'. cbn. destruct (decide (z' = z)) as [->|].
      + rewrite lookup_insert_eq, Hz. split; eauto.
      + by rewrite lookup_insert_ne.
    - intros z' Z'. cbn. destruct (decide (z' = z)) as [->|].
      + rewrite lookup_insert_eq. intros [= <-]. eauto.
      + rewrite lookup_insert_ne by done. eauto.
    - intros z'. rewrite state_of_insert. destruct (decide (z' = z)) as [->|]; [|done].
      intros [= E]. rewrite Hst. f_equal. auto.
    - intros z'. rewrite state_of_insert. destruct (decide (z' = z)) as [->|]; [|done].
      rewrite Hst. intros [= E]. f_equal. auto. }
  split_and!; [|done|done]. eapply quiet_ok; [done|done|apply Hm|].
  intros z' Hz'. rewrite state_of_insert. destruct (decide (z' = z)) as [->|]; [|by apply (mo_open m Hm)].
  f_equal. by apply Ho.
Qed.

Lemma get_zone_eq m z :
  get_zone z m = match zm_zones m !! z with
                 | Some held => (Ok held, m)
                 | None => (Err (Refused refusal_ADDRESS), m)
                 end.
Proof. unfold get_zone, option_or_refuse. by destruct (zm_zones m !! z). Qed.

Lemma open_state m z held :
  Map_ok m → zm_zones m !! z = Some held → zm_open m = Some z → zn_state held = StOpen.
Proof.
  intros Hm Hz Ho. pose proof (mo_open m Hm z Ho) as E. unfold state_of in E. rewrite Hz in E. by injection E.
Qed.

(** An entry rewritten with the state it had. *)
Ltac keep_state Hm Hz :=
  eapply put_zone_settled;
  [exact Hm|exact Hz|done|by cbn|by cbn|intros Ho; exact (open_state _ _ _ Hm Hz Ho)].

Lemma hold_read_settled m z r m' :
  Map_ok m → ZoneMap_hold_read z m = (r, m') →
  (∃ held, zm_zones m !! z = Some held ∧ zn_reads_outstanding held = u32_max ∧ r = Err Panicked ∧ m' = m) ∨
  settled m r m'.
Proof.
  intros Hm. unfold ZoneMap_hold_read, sm_bind. rewrite get_zone_eq.
  destruct (zm_zones m !! z) as [held|] eqn:Hz; [|intros [= <- <-]; right; by apply settled_refl].
  destruct (Z.eqb_spec (zn_reads_outstanding held) u32_max); [intros [= <- <-]; left; eauto|].
  intros [= <- <-]. right. keep_state Hm Hz.
Qed.

Lemma release_read_settled m z r m' : Map_ok m → ZoneMap_release_read z m = (r, m') → settled m r m'.
Proof.
  intros Hm. unfold ZoneMap_release_read, sm_bind. rewrite get_zone_eq.
  destruct (zm_zones m !! z) as [held|] eqn:Hz; [|intros [= <- <-]; by apply settled_refl].
  destruct (zn_reads_outstanding held =? 0); [intros [= <- <-]; by apply settled_refl|].
  intros [= <- <-]. keep_state Hm Hz.
Qed.

Lemma set_live_bytes_settled m z n r m' : Map_ok m → ZoneMap_set_live_bytes z n m = (r, m') → settled m r m'.
Proof.
  intros Hm. unfold ZoneMap_set_live_bytes, sm_bind. rewrite get_zone_eq.
  destruct (zm_zones m !! z) as [held|] eqn:Hz; [|intros [= <- <-]; by apply settled_refl].
  intros [= <- <-]. keep_state Hm Hz.
Qed.

Lemma condemn_settled m z r m' :
  Map_ok m → ZoneMap_condemn z m = (r, m') →
  settled m r m' ∧
  (r = Ok tt → state_of m z = Some StSealed ∧ state_of m' z = Some StCondemned) ∧
  (r ≠ Ok tt → m' = m).
Proof.
  intros Hm. unfold ZoneMap_condemn, sm_bind. rewrite get_zone_eq.
  destruct (zm_zones m !! z) as [held|] eqn:Hz; [|intros [= <- <-]; by split_and!; [apply settled_refl| |]].
  assert (Hst : state_of m z = Some (zn_state held)) by (unfold state_of; by rewrite Hz).
  case_bool_decide as Hs; [intros [= <- <-]; by split_and!; [apply settled_refl| |]|].
  intros [= <- <-]. split_and!.
  - eapply put_zone_settled; [done|done|done|done|done|].
    intros Ho. pose proof (open_state m z held Hm Hz Ho) as E. by rewrite E in Hs.
  - intros _. rewrite state_of_insert, decide_True by done. by rewrite Hst, Hs.
  - done.
Qed.

(** ** Filling *)
Lemma with_open_quiet m o : quiet m (with_open o m).
Proof. split; try done; eauto using same_geometry_refl. Qed.

Lemma with_open_settled {A} m o (r : res fault A) :
  Map_ok m → (∀ z, o = Some z → state_of m z = Some StOpen) → r ≠ Err Panicked → settled m r (with_open o m).
Proof.
  intros Hm Ho Hr. split_and!; [|apply with_open_quiet|done].
  eapply quiet_ok; [done|apply with_open_quiet|apply Hm|done].
Qed.

Lemma set_state_if_settled m z st r m' :
  Map_ok m → zm_open m = None → st ≠ StFree → state_of m z ≠ Some StCondemned →
  set_state_if z st m = (r, m') →
  settled m r m' ∧ zm_open m' = None ∧ zm_device m' = zm_device m ∧ r = Ok tt ∧
  (is_Some (zm_zones m !! z) → state_of m' z = Some st).
Proof.
  intros Hm Ho Hst Hc [= <- <-]. destruct (zm_zones m !! z) as [held|] eqn:Hz.
  - assert (state_of m z = Some (zn_state held)) as E by (unfold state_of; by rewrite Hz).
    split_and!; try done.
    + eapply put_zone_settled; [done|done|done|by cbn|cbn|].
      * intros Hh. rewrite E, Hh in Hc. done.
      * by rewrite Ho.
    + intros _. by rewrite state_of_insert, decide_True by done.
  - split_and!; try done; by apply settled_refl.
Qed.

Lemma zone_index_nonneg m z : Map_ok m → is_Some (zm_zones m !! z) → 0 ≤ z.
Proof. intros Hm Hz. apply (mo_zones m Hm) in Hz. pose proof (mo_from m Hm). lia. Qed.

Lemma state_zone m z st : state_of m z = Some st → is_Some (zm_zones m !! z).
Proof. unfold state_of. intros Hs. destruct (zm_zones m !! z); [eauto|done]. Qed.

(** Sealing the zone that was open. *)
Lemma seal_open_settled m o r m' :
  Map_ok m → zm_open m = None → (∀ z, o = Some z → state_of m z = Some StOpen) →
  seal_open o m = (r, m') →
  settled m r m' ∧ zm_open m' = None ∧ (∀ b, view m' b = view m b).
Proof.
  intros Hm Ho Hst. destruct o as [z|]; [|intros [= <- <-]; by split_and!; [apply settled_refl| |]].
  specialize (Hst z eq_refl). pose proof (zone_index_nonneg m z Hm (state_zone _ _ _ Hst)) as Hz.
  unfold seal_open, sm_bind, on_device. destruct (dev_finish z (zm_device m)) as [r1 d1] eqn:E1.
  destruct (law_finish _ _ _ _ (mo_dev m Hm) Hz E1) as [[(e & -> & _) Hs]|[[-> Hs]|(-> & Hlt & Hok & Hg & Hv & Hw & Hse)]].
  - intros [= <- <-]. split_and!; [by apply same_view_settled|done|apply Hs].
  - intros [= <- <-]. split_and!; [by apply same_view_settled|done|apply Hs].
  - intros E2. set (m1 := with_device d1 m) in *.
    assert (Q1 : quiet m m1).
    { split; try done; cbn; eauto. intros z'. by rewrite Hw. }
    assert (S1 : settled m (Ok tt : res fault unit) m1).
    { split_and!; [|done|done]. eapply quiet_ok; [done|done|done|]. cbn. by rewrite Ho. }
    destruct (set_state_if_settled m1 z StSealed r m') as (S2 & Ho2 & Hd2 & -> & _); [apply S1|done|done| |done|].
    { change (state_of m1 z) with (state_of m z). by rewrite Hst. }
    split_and!; [by eapply settled_trans|done|]. intros b. rewrite Hd2. apply Hv.
Qed.

Lemma open_zone_settled m r m' :
  Map_ok m → ZoneMap_open_zone m = (r, m') →
  settled m r m' ∧ (∀ b, view m' b = view m b) ∧
  match r with
  | Ok z => zm_open m' = Some z ∧ state_of m' z = Some StOpen
  | Err _ => zm_open m' = None
  end.
Proof.
  intros Hm. unfold ZoneMap_open_zone. set (m0 := with_open None m).
  assert (S0 : settled m (Ok tt : res fault unit) m0) by by apply with_open_settled.
  unfold sm_bind at 1. destruct (seal_open (zm_open m) m0) as [r1 m1] eqn:E1.
  destruct (seal_open_settled m0 (zm_open m) r1 m1) as (S1 & Ho1 & Hv1); [apply S0|done|apply Hm|done|].
  pose proof (settled_trans _ _ _ _ _ S0 S1) as S01.
  destruct r1 as [[]|e]; [|intros [= <- <-]; split_and!; [|done|done]; destruct S01 as (? & ? & Hp);
    split_and!; [done|done|by intros [= ->]]].
  unfold sm_bind at 1, sm_get.
  destruct (list_find _ (ZoneMap_zones m1)) as [[i Z]|] eqn:Hf.
  2:{ intros [= <- <-]. split_and!; [|done|done]. by eapply settled_trans, settled_refl; [done|apply S01|]. }
  apply list_find_Some in Hf as (Hi & HZ & _).
  assert (Hz : ∃ k, zm_zones m1 !! k = Some Z)
    by (apply elem_of_btree_values; by eapply list_elem_of_lookup_2).
  destruct Hz as [k Hk]. destruct S1 as (Hm1 & Q1 & _). pose proof (mo_zone_self m1 Hm1 k Z Hk) as Hs.
  rewrite Hs. unfold sm_bind at 1. destruct (set_state_if k StOpen m1) as [r2 m2] eqn:E2.
  destruct (set_state_if_settled m1 k StOpen r2 m2) as (S2 & Ho2 & Hd2 & -> & Hst2); [done|done|done| |done|].
  { unfold state_of. rewrite Hk. cbn. by rewrite HZ. }
  intros [= <- <-]. split_and!.
  - eapply settled_trans; [exact S01|]. eapply settled_trans; [exact S2|]. apply with_open_settled; [apply S2| |done].
    intros z [= <-]. apply Hst2. eauto.
  - intros b. cbn. rewrite Hd2. apply Hv1.
  - done.
  - change (state_of (with_open (Some k) m2) k) with (state_of m2 k). apply Hst2. eauto.
Qed.

(** Where an append landed: a block nothing named before. *)
Record Landed m (at_ : Z) (from : list Z) m' : Prop := {
  ld_data : in_data m' at_;
  ld_state : state_of m' (at_ / zm_zone_blocks m') = Some StOpen;
  ld_before : view m at_ = None;
  ld_logical : zm_logical m' !! at_ = None;
  ld_copies : ∀ l, zm_copies m' !! l ≠ Some at_;
  ld_view : view m' at_ = Some from;
  ld_len : Z.of_nat (length from) = block_bytes (zm_device m);
}.

Lemma in_data_div m z i :
  0 < zm_zone_blocks m → 0 ≤ i < zm_zone_blocks m → (z * zm_zone_blocks m + i) / zm_zone_blocks m = z.
Proof. intros. rewrite Z.add_comm, Z.div_add, Z.div_small by lia. lia. Qed.

Lemma append_settled m z from r m' :
  Map_ok m → state_of m z = Some StOpen → on_device (dev_append z from) m = (r, m') →
  settled m r m' ∧ zm_open m' = zm_open m ∧ (∀ z', state_of m' z' = state_of m z') ∧
  match r with Ok at_ => Landed m at_ from m' | Err _ => ∀ b, view m' b = view m b end.
Proof.
  intros Hm Hst E. pose proof (proj1 (mo_zones m Hm z) (state_zone _ _ _ Hst)) as Hz.
  pose proof (mo_from m Hm) as Hf. destruct (mo_zb m Hm) as [Hzb Hzb0].
  unfold on_device in E. destruct (dev_append z from (zm_device m)) as [r1 d1] eqn:E1. injection E as <- <-.
  assert (Hz0 : 0 ≤ z) by lia.
  destruct (law_append _ _ _ _ _ (mo_dev m Hm) Hz0 E1)
    as [[(e & -> & _) Hs]|[(e & -> & Hs & _)|(-> & Hlt & Hk & Hl & Hse & Hw & Hok & Hg & Hv & Hwr & _)]].
  - split_and!; [by apply same_view_settled|done|done|apply Hs].
  - split_and!; [by apply same_view_settled|done|done|apply Hs].
  - rewrite <- Hzb in *. set (at_ := z * zm_zone_blocks m + view_written (zm_device m) z) in *.
    pose proof (law_written (zm_device m) z (mo_dev m Hm)) as Hw0. rewrite <- Hzb in Hw0.
    assert (Hnone : view m at_ = None).
    { apply eq_None_not_Some. intros Hr. subst at_. rewrite Hzb in Hr, Hw.
      apply (law_readable _ _ _ (mo_dev m Hm)) in Hr; done || lia. }
    assert (Hun : ¬ in_data m at_).
    { intros Hi. apply in_data_readable in Hi; [|done]. rewrite Hnone in Hi. by destruct Hi. }
    assert (Hne : at_ ≠ 0) by (subst at_; nia).
    assert (Q : quiet m (with_device d1 m)).
    { split; try done; cbn; eauto.
      - intros b Hb. rewrite Hv. destruct (Z.eqb_spec b at_) as [Eb|]; [|done].
        destruct Hb as [Hb|Hb]; [lia|]. rewrite Eb, Hnone in Hb. by destruct Hb.
      - intros z'. rewrite Hwr. destruct (z' =? z); lia. }
    split_and!; [|done|done|].
    + split_and!; [|done|done]. eapply quiet_ok; [done|done|done|apply Hm].
    + assert (Hi : in_data (with_device d1 m) at_).
      { destruct Hg as (_ & Hc & _ & Hkd). exists z, (view_written (zm_device m) z). cbn.
        rewrite Hc, Hkd, Hwr, Z.eqb_refl. split_and!; done || lia. }
      split; cbn; try done.
      * subst at_. rewrite in_data_div by lia. done.
      * destruct (zm_logical m !! at_) as [l|] eqn:L; [|done]. apply (mo_inverse m Hm) in L.
        destruct (mo_home m Hm l at_ L); done.
      * intros l L. destruct (mo_copies m Hm l at_ L) as [? _]. done.
      * by rewrite Hv, Z.eqb_refl.
Qed.

(** The same after calls that moved nothing first. *)
Lemma Landed_quiet m1 m2 at_ from m' :
  Map_ok m1 → (∀ b, view m2 b = view m1 b) → quiet m1 m2 → Landed m2 at_ from m' → Landed m1 at_ from m'.
Proof.
  intros Hm1 Hv Q []. destruct (q_geometry _ _ Q) as (Hbb & _). split; try done; [by rewrite <- Hv|congruence].
Qed.

Lemma append_somewhere_settled m from r m' :
  Map_ok m → append_somewhere from m = (r, m') →
  settled m r m' ∧
  match r with Ok at_ => Landed m at_ from m' | Err _ => ∀ b, view m' b = view m b end.
Proof.
  intros Hm. unfold append_somewhere. unfold sm_bind at 1, sm_get at 1.
  set (first := match zm_open m with None => _ | Some _ => _ end).
  destruct (first m) as [r1 m1] eqn:E1.
  assert (S1 : settled m r1 m1 ∧ (∀ b, view m1 b = view m b)).
  { revert E1. subst first. destruct (zm_open m) eqn:Ho.
    - intros [= <- <-]. split; [by apply settled_refl|done].
    - unfold sm_bind. destruct (ZoneMap_open_zone m) as [r2 m2] eqn:E2.
      destruct (open_zone_settled m r2 m2 Hm E2) as (S & Hv & _).
      destruct r2 as [z|e]; intros [= <- <-]; split; try done;
        destruct S as (? & ? & ?); split_and!; try done. by intros [= ->]. }
  destruct S1 as [S1 Hv1]. unfold sm_bind at 1. rewrite E1.
  destruct r1 as [[]|e].
  2:{ intros [= <- <-]. split; [|done]. destruct S1 as (? & ? & Hp). split_and!; [done|done|]. by intros [= ->]. }
  unfold sm_bind at 1, sm_get. destruct (zm_open m1) as [z|] eqn:Ho1.
  2:{ intros [= <- <-]. split; [|done]. by eapply settled_trans, settled_refl; [done|apply S1|]. }
  pose proof (mo_open m1 (proj1 S1) z Ho1) as Hst1.
  destruct (on_device (dev_append z from) m1) as [r2 m2] eqn:E2.
  destruct (append_settled m1 z from r2 m2 (proj1 S1) Hst1 E2) as (S2 & Ho2 & Hst2 & H2).
  pose proof (settled_trans _ _ _ _ _ S1 S2) as S12.
  destruct r2 as [at_|e].
  { intros [= <- <-]. split; [done|]. by eapply Landed_quiet; [|apply Hv1|apply S1|]. }
  destruct e as [code|]; [|intros [= <- <-]; by split; [|intros b; rewrite H2]].
  destruct (Z.eqb_spec code refusal_FULL) as [->|]; [|intros [= <- <-]; by split; [|intros b; rewrite H2]].
  unfold sm_bind. destruct (ZoneMap_open_zone m2) as [r3 m3] eqn:E3.
  destruct (open_zone_settled m2 r3 m3 (proj1 S12) E3) as (S3 & Hv3 & H3).
  pose proof (settled_trans _ _ _ _ _ S12 S3) as S123.
  assert (Hv : ∀ b, view m3 b = view m b) by (intros b; by rewrite Hv3, H2, Hv1).
  destruct r3 as [next|e].
  2:{ intros [= <- <-]. split; [|done]. destruct S123 as (? & ? & Hp). split_and!; [done|done|]. by intros [= ->]. }
  destruct H3 as [Ho3 Hst3]. intros E4.
  destruct (append_settled m3 next from r m' (proj1 S123) Hst3 E4) as (S4 & _ & _ & H4).
  split; [by eapply settled_trans|].
  destruct r as [at_|e]; [|intros b; by rewrite H4]. by eapply Landed_quiet; [|apply Hv|apply S123|].
Qed.
End facts.
