(* ===== verification/ZoneOps.v ===== *)
(** * Every operation of the mapping, as what it does to the blocks' contents *)

From S2P Require Import Prelude Abi Bytes BTree StoreRecords ZoneDevice ZoneMap ZoneMapFacts.

(** * Copying, repointing and resetting *)

(** The two maps are each other's inverse. *)
Definition inverse (p l : gmap Z Z) : Prop := ∀ x b, p !! x = Some b ↔ l !! b = Some x.

Section moves.
Context {D : Type} `{HL : ZonedLaws D}.
Implicit Types (m : ZoneMap D).

Local Abbreviation view m := (view_block (zm_device m)).

(** What no operation of a mapping changes. *)
Record same_frame m m' : Prop := {
  fr_geometry : same_geometry (zm_device m) (zm_device m');
  fr_from : zm_data_from m' = zm_data_from m;
  fr_zb : zm_zone_blocks m' = zm_zone_blocks m;
}.

Lemma quiet_frame m m' : quiet m m' → same_frame m m'.
Proof. intros Q. split; apply Q. Qed.

(** ** Repointing *)
Lemma repoint_inverse m l to :
  inverse (zm_physical m) (zm_logical m) → zm_logical m !! to = None →
  inverse (zm_physical (repoint m (l, to))) (zm_logical (repoint m (l, to))).
Proof.
  intros Hi Hn l2 b. cbn. destruct (decide (l2 = l)) as [->|Hl].
  - rewrite lookup_insert_eq. destruct (decide (b = to)) as [->|Hb].
    + by rewrite lookup_insert_eq.
    + rewrite lookup_insert_ne by done. split; [intros [= ->]; done|]. intros L.
      destruct (zm_physical m !! l) as [from|] eqn:P.
      * apply lookup_delete_Some in L as [Hne L]. apply Hi in L. congruence.
      * apply Hi in L. congruence.
  - rewrite lookup_insert_ne by done. destruct (decide (b = to)) as [->|Hb].
    + rewrite lookup_insert_eq. split; [intros P; apply Hi in P; congruence|intros [= ->]; done].
    + rewrite lookup_insert_ne by done. rewrite (Hi l2 b).
      destruct (zm_physical m !! l) as [from|] eqn:P; [|done].
      rewrite lookup_delete_Some. split; [|tauto]. intros L. split; [|done]. intros ->.
      apply Hi in P. congruence.
Qed.

Lemma repoint_logical m l to b :
  b ≠ to → zm_logical m !! b = None → zm_logical (repoint m (l, to)) !! b = None.
Proof.
  intros Hb Hn. cbn. rewrite lookup_insert_ne by done.
  destruct (zm_physical m !! l); [|done]. apply lookup_delete_None. by right.
Qed.

Lemma repoint_fold cs m :
  inverse (zm_physical m) (zm_logical m) → NoDup cs.*1 → NoDup cs.*2 →
  (∀ l to, (l, to) ∈ cs → zm_logical m !! to = None) →
  ∃ lg, foldl repoint m cs = with_maps (list_to_map cs ∪ zm_physical m) lg m ∧
    inverse (list_to_map cs ∪ zm_physical m) lg.
Proof.
  revert m. induction cs as [|[l to] cs IH]; intros m Hi Hk Ht Hn.
  { exists (zm_logical m). rewrite list_to_map_nil, (left_id_L ∅ (∪)). by destruct m. }
  rewrite fmap_cons, list.NoDup_cons in Hk. rewrite fmap_cons, list.NoDup_cons in Ht. cbn [fst snd] in *.
  destruct Hk as [Hl Hk], Ht as [Hto Ht]. cbn [foldl].
  destruct (IH (repoint m (l, to))) as (lg & E & Hinv); [|done|done| |].
  - apply repoint_inverse; [done|]. eapply Hn, list_elem_of_here.
  - intros l2 to2 H2. apply repoint_logical; [|by eapply Hn, list_elem_of_further].
    intros ->. apply Hto. apply list_elem_of_fmap. by exists (l2, to).
  - assert (Hu : list_to_map cs ∪ zm_physical (repoint m (l, to)) =
                 (list_to_map ((l, to) :: cs) ∪ zm_physical m : gmap Z Z)).
    { cbn. rewrite <- insert_union_r by (by apply not_elem_of_list_to_map_1).
      by rewrite insert_union_l. }
    rewrite Hu in E, Hinv. exists lg. split; [|done]. rewrite E. by destruct m.
Qed.

Lemma forget_fold st m :
  foldl forget m st =
    with_maps (foldl (λ p x, delete x.2 p) (zm_physical m) st) (foldl (λ l x, delete x.1 l) (zm_logical m) st) m.
Proof.
  revert m. induction st as [|[b l] st IH]; intros m; [by destruct m|]. cbn [foldl]. rewrite IH. by destruct m.
Qed.

(** ** Copying *)
Lemma with_copies_ok m1 m2 l b to block :
  Map_ok m2 → Landed m1 to block m2 →
  zm_physical m2 !! l = Some b → b ≠ 0 → view m2 b = Some block →
  Map_ok (with_copies (<[l := to]> (zm_copies m2)) m2).
Proof.
  intros Hm Hl Hp Hb Hv. split; try apply Hm; cbn.
  - intros l' to'. destruct (decide (l' = l)) as [->|].
    + rewrite lookup_insert_eq. intros [= <-]. split_and!.
      * apply Hl.
      * apply Hl.
      * pose proof (ld_state _ _ _ _ Hl) as Hs. by intros E; cbn in *; unfold state_of in *; cbn in *; rewrite E in Hs.
      * exists b. split_and!; [done|done|]. by rewrite Hv, (ld_view _ _ _ _ Hl).
    + rewrite lookup_insert_ne by done. apply (mo_copies m2 Hm).
  - intros l1 l2 to'. pose proof (ld_copies _ _ _ _ Hl) as Hc.
    destruct (decide (l1 = l)) as [->|], (decide (l2 = l)) as [->|]; rewrite ?lookup_insert_eq, ?lookup_insert_ne by done;
      try done.
    + intros [= <-] H2. by apply Hc in H2.
    + intros H1 [= <-]. by apply Hc in H1.
    + apply (mo_copies_inj m2 Hm).
Qed.

Lemma copy_forward_spec m l r m' :
  Map_ok m → zm_physical m !! l ≠ Some 0 → ZoneMap_copy_forward l m = (r, m') →
  r ≠ Err Panicked ∧ Map_ok m' ∧
  match r with
  | Err _ => quiet m m'
  | Ok to => ∃ m1 block, settled m r m1 ∧ Landed m to block m1 ∧
               zm_physical m !! l ≠ None ∧ m' = with_copies (<[l := to]> (zm_copies m1)) m1
  end.
Proof.
  intros Hm Hl0. unfold ZoneMap_copy_forward.
  destruct (zm_physical m !! l) as [b|] eqn:Hp; [|intros [= <- <-]; split_and!; [done|done|apply quiet_refl]].
  assert (Hb : b ≠ 0) by congruence.
  unfold sm_bind at 1. unfold on_device at 1.
  destruct (dev_read b (block_bytes (zm_device m)) (zm_device m)) as [r1 d1] eqn:E1.
  assert (Hdata : in_data m b) by (by destruct (mo_home m Hm l b Hp)).
  pose proof (in_data_pos m b Hm Hdata) as Hpos.
  assert (Hb0 : 0 ≤ b) by lia.
  destruct (law_read _ _ _ _ _ (mo_dev m Hm) Hb0 E1) as [Hsv Hr].
  destruct (in_data_readable m b Hm Hdata) as [x Hx]. rewrite Hx, Z.eqb_refl in Hr.
  pose proof (same_view_settled m d1 (Ok tt : res fault unit) Hm Hsv ltac:(done)) as S1.
  destruct r1 as [block|e].
  2:{ intros [= <- <-]. destruct Hr as [(e' & [= ->] & _)|[=]].
      split_and!; [done|apply S1|apply S1]. }
  destruct Hr as [(e' & [=] & _)|[= ->]].
  unfold sm_bind at 1. destruct (append_somewhere x (with_device d1 m)) as [r2 m2] eqn:E2.
  destruct (append_somewhere_settled _ _ _ _ (proj1 S1) E2) as [S2 H2].
  pose proof (settled_trans _ _ _ _ _ S1 S2) as S12.
  destruct r2 as [to|e].
  2:{ intros [= <- <-]. destruct S12 as (? & ? & ?). split_and!; [congruence|done|done]. }
  intros [= <- <-]. split_and!; [done| |].
  - eapply (with_copies_ok _ m2 l b to x); [apply S12|exact H2| |done|].
    + rewrite (q_physical _ _ (proj1 (proj2 S12))). done.
    + rewrite (q_view _ _ (proj1 (proj2 S12))); [done|right; by rewrite Hx].
  - exists m2, x. split_and!; [exact S12| |done|done].
    eapply (Landed_quiet m (with_device d1 m)); [done| |apply S1|done]. intros b'. cbn. apply Hsv.
Qed.

(** ** Committing *)
Lemma copies_list m :
  Map_ok m →
  NoDup (btree_list (zm_copies m)).*1 ∧ NoDup (btree_list (zm_copies m)).*2 ∧
  list_to_map (btree_list (zm_copies m)) = zm_copies m.
Proof.
  intros Hm. pose proof (btree_keys_nodup (zm_copies m)) as Hk. split_and!; [done| |].
  - apply NoDup_fmap_2_strong; [|by eapply NoDup_fmap_1].
    intros [l1 t1] [l2 t2] H1 H2 E. cbn in E. subst.
    apply elem_of_btree_list in H1, H2. by rewrite (mo_copies_inj m Hm l1 l2 t2 H1 H2).
  - rewrite (list_to_map_proper _ _ Hk (btree_list_perm _)). apply list_to_map_to_list.
Qed.

(** The map after a commit: the copies have replaced what they copied. *)
Lemma committed_ok m lg :
  Map_ok m → inverse (zm_copies m ∪ zm_physical m) lg →
  Map_ok (with_maps (zm_copies m ∪ zm_physical m) lg (with_copies ∅ m)) ∧
  ∀ l, contents (with_maps (zm_copies m ∪ zm_physical m) lg (with_copies ∅ m)) l = contents m l.
Proof.
  intros Hm Hi. split.
  - split; try apply Hm; cbn.
    + done.
    + intros l b Hb. apply lookup_union_Some_raw in Hb as [Hb|[_ Hb]].
      * right. apply (mo_copies m Hm l b Hb).
      * apply (mo_home m Hm l b Hb).
    + intros z i Hf Hir. destruct (lg !! _) as [l|] eqn:L; [|done]. apply Hi in L.
      destruct (mo_zb m Hm) as [_ Hzb].
      apply lookup_union_Some_raw in L as [L|[_ L]].
      * destruct (mo_copies m Hm l _ L) as (_ & _ & Hs & _). by rewrite in_data_div in Hs.
      * apply (mo_inverse m Hm) in L. by rewrite (mo_free m Hm z i Hf Hir) in L.
    + intros l to. by rewrite lookup_empty.
    + intros l1 l2 to. by rewrite lookup_empty.
  - intros l. unfold contents; cbn. destruct (zm_copies m !! l) as [to|] eqn:C.
    + rewrite (lookup_union_Some_l _ _ _ _ C). cbn.
      destruct (mo_copies m Hm l to C) as (_ & _ & _ & b & -> & _ & Hv). done.
    + by rewrite lookup_union_r.
Qed.

Lemma commit_spec m r m' :
  Map_ok m → ZoneMap_commit_copies m = (r, m') →
  r ≠ Err Panicked ∧ Map_ok m' ∧ (∀ l, contents m' l = contents m l) ∧ zm_zones m' = zm_zones m ∧
  zm_zone_blocks m' = zm_zone_blocks m ∧
  match r with
  | Ok n => n = size (zm_copies m) ∧ zm_copies m' = ∅ ∧ zm_physical m' = zm_copies m ∪ zm_physical m ∧ same_frame m m'
  | Err _ => quiet m m'
  end.
Proof.
  intros Hm. unfold ZoneMap_commit_copies. destruct (decide (zm_copies m = ∅)) as [E|].
  { intros [= <- <-]. rewrite E. split_and!; try done. by rewrite (left_id_L ∅ (∪)). }
  unfold sm_bind, on_device. destruct (dev_flush (zm_device m)) as [r1 d1] eqn:E1.
  destruct (law_flush _ _ _ (mo_dev m Hm) E1) as [Hs Hr].
  assert (Hr1 : r1 ≠ Err Panicked) by (destruct Hr as [?%faulted_not_panicked| ->]; done).
  pose proof (same_view_settled m d1 r1 Hm Hs Hr1) as S1.
  destruct r1 as [u|e].
  2:{ intros [= <- <-]. split_and!; [congruence|apply S1| |done|done|apply S1].
      intros l. by apply quiet_contents, S1. }
  set (m1 := with_device d1 m) in *. intros [= <- <-].
  destruct (copies_list m1 (proj1 S1)) as (Hk & Ht & Hl). change (zm_copies m1) with (zm_copies m) in *.
  destruct (repoint_fold (btree_list (zm_copies m)) (with_copies ∅ m1)) as (lg & E & Hinv); [| |done| |].
  - exact (mo_inverse m Hm).
  - done.
  - intros l to Hin. apply elem_of_btree_list in Hin. apply (mo_copies m Hm l to Hin).
  - rewrite E. rewrite Hl in *. change (zm_physical (with_copies ∅ m1)) with (zm_physical m1) in *.
    destruct (committed_ok m1 lg (proj1 S1) Hinv) as [Hok Hc].
    split_and!; [done|exact Hok| |done|done|done|done|done|]; [|split; by destruct (quiet_frame m m1 (proj1 (proj2 S1)))].
    intros l. etrans; [apply Hc|]. by apply quiet_contents, S1.
Qed.

(** ** Resetting *)
Definition in_zone_range m (z b : Z) : Prop := z * zm_zone_blocks m ≤ b < z * zm_zone_blocks m + zm_zone_blocks m.

#[global] Instance in_zone_range_dec m z b : Decision (in_zone_range m z b).
Proof. unfold in_zone_range. apply _. Defined.

Lemma elem_of_holds m z l :
  Map_ok m → l ∈ ZoneMap_holds m z ↔ ∃ b, zm_physical m !! l = Some b ∧ in_zone_range m z b.
Proof.
  intros Hm. unfold ZoneMap_holds. rewrite list_elem_of_fmap. split.
  - intros ([b l'] & -> & H'). apply elem_of_btree_range in H' as [L Hr]. exists b. split; [|done].
    by apply (mo_inverse m Hm).
  - intros (b & P & Hr). exists (b, l). split; [done|]. apply elem_of_btree_range. split; [|done].
    by apply (mo_inverse m Hm).
Qed.

Lemma holds_empty m z :
  ZoneMap_holds m z = [] ↔ ∀ i, 0 ≤ i < zm_zone_blocks m → zm_logical m !! (z * zm_zone_blocks m + i) = None.
Proof.
  unfold ZoneMap_holds. split.
  - intros E%fmap_nil_inv. pose proof (proj1 (btree_range_empty _ _ _) E) as Hn. intros i Hi. apply Hn. lia.
  - intros Hn. enough (btree_range (zm_logical m) (z * zm_zone_blocks m) (z * zm_zone_blocks m + zm_zone_blocks m) = []) as -> by done.
    apply btree_range_empty. intros k Hk.
    replace k with (z * zm_zone_blocks m + (k - z * zm_zone_blocks m)) by lia. apply Hn. lia.
Qed.

(** The maps with every entry of a zone removed. *)
Definition forgotten m (z : Z) : ZoneMap D :=
  foldl forget m (btree_range (zm_logical m) (z * zm_zone_blocks m) (z * zm_zone_blocks m + zm_zone_blocks m)).

Lemma forgotten_maps m z :
  Map_ok m →
  ∃ p lg, forgotten m z = with_maps p lg m ∧
    (∀ l, p !! l = match zm_physical m !! l with
                   | Some b => if decide (in_zone_range m z b) then None else Some b
                   | None => None
                   end) ∧
    (∀ b, lg !! b = if decide (in_zone_range m z b) then None else zm_logical m !! b).
Proof.
  intros Hm. unfold forgotten. rewrite forget_fold. eexists _, _. split; [done|].
  set (st := btree_range _ _ _). split.
  - intros l. rewrite (foldl_delete_lookup snd). pose proof (elem_of_holds m z l Hm) as Hh.
    unfold ZoneMap_holds in Hh. fold st in Hh.
    destruct (decide (l ∈ snd <$> st)) as [Hin|Hin].
    + apply Hh in Hin as (b & -> & Hr). by rewrite decide_True.
    + destruct (zm_physical m !! l) as [b|] eqn:P; [|done]. rewrite decide_False; [done|].
      intros Hr. apply Hin, Hh. eauto.
  - intros b. rewrite (foldl_delete_lookup fst). unfold in_zone_range.
    destruct (decide (b ∈ fst <$> st)) as [Hin|Hin].
    + apply list_elem_of_fmap in Hin as ([b' l] & -> & Hin). apply elem_of_btree_range in Hin as [_ Hr].
      by rewrite decide_True.
    + destruct (decide (z * zm_zone_blocks m ≤ b < z * zm_zone_blocks m + zm_zone_blocks m)) as [Hr|]; [|done].
      destruct (zm_logical m !! b) as [l|] eqn:L; [|done]. exfalso. apply Hin.
      apply list_elem_of_fmap. exists (b, l). split; [done|]. by apply elem_of_btree_range.
Qed.

(** The map after the zone is reset and its entries are gone. *)
Definition recycled m (z : Z) (d1 : D) : ZoneMap D :=
  with_zones (<[z := zone_fresh z StFree]> (zm_zones m)) (with_device d1 (forgotten m z)).

Definition was_reset m (z : Z) (d1 : D) : Prop :=
  dev_ok d1 ∧ same_geometry (zm_device m) d1 ∧
  (∀ b, view_block d1 b = if decide (in_zone_range m z b) then None else view m b) ∧
  (∀ z', view_written d1 z' = if z' =? z then 0 else view_written (zm_device m) z').

Lemma recycled_ok m z d1 :
  Map_ok m → zm_copies m = ∅ → state_of m z = Some StCondemned → was_reset m z d1 →
  Map_ok (recycled m z d1).
Proof.
  intros Hm Hc Hs (Hok & Hg & Hv & Hw). destruct (forgotten_maps m z Hm) as (p & lg & E & Hp & Hlg).
  destruct Hg as (Hbb & Hzc & Hzb & Hkd). destruct (mo_zb m Hm) as [Hz1 Hz2].
  unfold recycled. rewrite E. split; cbn.
  - done.
  - rewrite Hzb. done.
  - rewrite Hzc. apply Hm.
  - intros l b. rewrite Hp, Hlg. pose proof (mo_inverse m Hm l) as Hi. split.
    + destruct (zm_physical m !! l) as [b'|] eqn:P; [|done]. case_decide; [done|]. intros [= ->].
      rewrite decide_False by done. by apply Hi.
    + case_decide; [done|]. intros L. apply Hi in L. rewrite L. by rewrite decide_False.
  - intros l b. rewrite Hp. destruct (zm_physical m !! l) as [b'|] eqn:P; [|done].
    case_decide as Hr; [done|]. intros [= ->].
    destruct (mo_home m Hm l b P) as [->|(z' & i & -> & Hi & Hz' & Hk & Hwr)]; [by left|right].
    exists z', i. cbn. rewrite Hzc, Hkd, Hw. split_and!; try done; try lia.
    destruct (Z.eqb_spec z' z) as [->|]; [|done]. exfalso. apply Hr. unfold in_zone_range. lia.
  - intros z'. rewrite Hzc. rewrite <- (mo_zones m Hm). destruct (decide (z' = z)) as [->|].
    + rewrite lookup_insert_eq. pose proof (state_zone m z _ Hs). split; eauto.
    + by rewrite lookup_insert_ne.
  - intros z' Z'. destruct (decide (z' = z)) as [->|].
    + rewrite lookup_insert_eq. by intros [= <-].
    + rewrite lookup_insert_ne by done. apply (mo_zone_self m Hm).
  - intros z' i Hf Hi. rewrite Hlg. case_decide as Hr; [done|].
    apply (mo_free m Hm); [|done]. unfold state_of in *. cbn in Hf.
    destruct (decide (z' = z)) as [->|]; [|by rewrite lookup_insert_ne in Hf].
    exfalso. apply Hr. unfold in_zone_range. lia.
  - intros z' Hz'. pose proof (mo_open m Hm z' Hz') as Ho. unfold state_of in *. cbn.
    rewrite lookup_insert_ne; [done|]. intros ->. rewrite Ho in Hs. done.
  - intros l to. rewrite Hc. by rewrite lookup_empty.
  - intros l1 l2 to. rewrite Hc. by rewrite lookup_empty.
Qed.

Lemma recycled_contents m z d1 l :
  Map_ok m → was_reset m z d1 →
  contents (recycled m z d1) l = if decide (l ∈ ZoneMap_holds m z) then None else contents m l.
Proof.
  intros Hm (_ & _ & Hv & _). destruct (forgotten_maps m z Hm) as (p & lg & E & Hp & _).
  unfold recycled, contents. rewrite E. cbn. rewrite Hp.
  destruct (zm_physical m !! l) as [b|] eqn:P.
  - destruct (decide (in_zone_range m z b)) as [Hr|Hr].
    + rewrite decide_True; [done|]. apply (elem_of_holds m z l Hm). eauto.
    + rewrite decide_False; [cbn; by rewrite Hv, decide_False|].
      intros (b' & Hb & Hr')%(elem_of_holds m z l Hm). congruence.
  - by destruct (decide _).
Qed.

Lemma recycled_frame m z d1 : was_reset m z d1 → same_frame m (recycled m z d1).
Proof. intros (_ & Hg & _). unfold recycled, forgotten. rewrite forget_fold. by split. Qed.

Lemma recycled_physical m z d1 l b :
  Map_ok m → zm_physical (recycled m z d1) !! l = Some b → zm_physical m !! l = Some b.
Proof.
  intros Hm. destruct (forgotten_maps m z Hm) as (p & lg & E & Hp & _). unfold recycled. rewrite E. cbn. rewrite Hp.
  destruct (zm_physical m !! l); [|done]. by case_decide.
Qed.

Lemma recycle_spec m z r m' :
  Map_ok m → ZoneMap_recycle z m = (r, m') →
  r ≠ Err Panicked ∧ Map_ok m' ∧
  match r with
  | Ok _ => state_of m z = Some StCondemned ∧ zm_copies m = ∅ ∧
            (∀ l, contents m' l = if decide (l ∈ ZoneMap_holds m z) then None else contents m l) ∧
            ZoneMap_holds m' z = [] ∧ state_of m' z = Some StFree ∧ same_frame m m' ∧
            ∀ l b, zm_physical m' !! l = Some b → zm_physical m !! l = Some b
  | Err _ => quiet m m'
  end.
Proof.
  intros Hm. unfold ZoneMap_recycle. unfold sm_bind at 1. rewrite get_zone_eq.
  destruct (zm_zones m !! z) as [held|] eqn:Hz;
    [|intros [= <- <-]; split_and!; [done|done|apply quiet_refl]].
  assert (Hst : state_of m z = Some (zn_state held)) by (unfold state_of; by rewrite Hz).
  case_bool_decide as Hs; [intros [= <- <-]; split_and!; [done|done|apply quiet_refl]|].
  case_bool_decide as Hc; [intros [= <- <-]; split_and!; [done|done|apply quiet_refl]|].
  cbn [orb].
  unfold sm_bind at 1. unfold on_device at 1. destruct (dev_reset z (zm_device m)) as [r1 d1] eqn:E1.
  pose proof (zone_index_nonneg m z Hm (state_zone _ _ _ Hst)) as Hz0.
  destruct (mo_zb m Hm) as [Hzb _].
  destruct (law_reset _ _ _ _ (mo_dev m Hm) Hz0 E1) as [[(e & -> & _) Hsv]|[[-> Hsv]|(-> & Hlt & Hok & Hg & Hv & Hw & _)]].
  - intros [= <- <-]. pose proof (same_view_settled m d1 (Ok tt : res fault unit) Hm Hsv ltac:(done)) as (? & ? & _).
    by split_and!.
  - intros [= <- <-]. pose proof (same_view_settled m d1 (Ok tt : res fault unit) Hm Hsv ltac:(done)) as (? & ? & _).
    by split_and!.
  - intros [= <- <-].
    assert (Hr : was_reset m z d1).
    { split_and!; [done|done| |done]. intros b. rewrite Hv, <- Hzb. unfold in_zone_range.
      destruct (Z.leb_spec (z * zm_zone_blocks m) b), (Z.ltb_spec b (z * zm_zone_blocks m + zm_zone_blocks m));
        case_decide; done || lia. }
    rewrite Hs in Hst.
    match goal with |- context [Map_ok ?x] => replace x with (recycled m z d1) end.
    2:{ unfold recycled. destruct (forgotten_maps m z Hm) as (p & lg & E & _). 
        unfold forgotten in *. rewrite !forget_fold. by destruct m. }
    pose proof (recycled_ok m z d1 Hm Hc Hst Hr) as Hm'.
    split_and!; [done|done|done|done|by intros; apply recycled_contents| | |..].
    + apply holds_empty. intros i Hi. destruct (forgotten_maps m z Hm) as (p & lg & E & _ & Hlg).
      unfold recycled in *. rewrite E in *. cbn in *. rewrite Hlg, decide_True; [done|].
      unfold in_zone_range. lia.
    + unfold recycled, state_of. destruct (forgotten_maps m z Hm) as (p & lg & E & _). cbn.
      by rewrite lookup_insert_eq.
    + apply recycled_frame. done.
    + intros l b. by apply recycled_physical.
Qed.
End moves.

Section ops.
Context {D : Type} `{HL : ZonedLaws D}.
Implicit Types (m : ZoneMap D).

Local Abbreviation view m := (view_block (zm_device m)).

(** ** Calls on the device that only look *)
Lemma read_spec m l len r m' :
  Map_ok m → ZoneMap_read l len m = (r, m') →
  settled m r m' ∧
  (∀ x, r = Ok x → contents m l = Some x) ∧
  (∀ x, contents m l = Some x → len = block_bytes (zm_device m) → r = Ok x ∨ faulted r).
Proof.
  intros Hm. unfold ZoneMap_read, contents.
  destruct (zm_physical m !! l) as [b|] eqn:P; [|intros [= <- <-]; by split_and!; [apply settled_refl| |]].
  unfold on_device. destruct (dev_read b len (zm_device m)) as [r1 d1] eqn:E1. intros [= <- <-]. cbn.
  assert (Hb : 0 ≤ b).
  { destruct (mo_home m Hm l b P) as [->|Hi]; [done|]. pose proof (in_data_pos m b Hm Hi). lia. }
  destruct (law_read _ _ _ _ _ (mo_dev m Hm) Hb E1) as [Hs Hr]. split_and!.
  - apply same_view_settled; [done|done|]. destruct Hr as [?%faulted_not_panicked| ->]; [done|].
    destruct (view m b); [by destruct (_ =? _)|done].
  - intros x ->. destruct Hr as [(e & [=] & _)|Hr]. destruct (view m b); [|done].
    destruct (_ =? _); [|done]. by injection Hr as ->.
  - intros x Hx ->. destruct Hr as [?|Hr]; [by right|left]. by rewrite Hx, Z.eqb_refl in Hr.
Qed.

Lemma flush_spec m r m' : Map_ok m → ZoneMap_flush m = (r, m') → settled m r m'.
Proof.
  intros Hm. unfold ZoneMap_flush, on_device. destruct (dev_flush (zm_device m)) as [r1 d1] eqn:E1.
  intros [= <- <-]. destruct (law_flush _ _ _ (mo_dev m Hm) E1) as [Hs Hr].
  apply same_view_settled; [done|done|]. by destruct Hr as [?%faulted_not_panicked| ->].
Qed.

(** ** Root zones *)
Lemma append_reserved_spec m z from r m' :
  Map_ok m → 0 ≤ z → ZoneMap_append_reserved z from m = (r, m') → settled m r m'.
Proof.
  intros Hm Hz. unfold ZoneMap_append_reserved.
  destruct (Z.eqb_spec z 0); [intros [= <- <-]; by apply settled_refl|].
  destruct (Z.leb_spec (zm_data_from m) z) as [|Hlt]; [intros [= <- <-]; by apply settled_refl|]. cbn [orb].
  unfold on_device. destruct (dev_append z from (zm_device m)) as [r1 d1] eqn:E1. intros [= <- <-].
  destruct (mo_zb m Hm) as [Hzb Hzb0].
  destruct (law_append _ _ _ _ _ (mo_dev m Hm) Hz E1)
    as [[(e & -> & _) Hs]|[(e & -> & Hs & _)|(-> & Hc & Hk & Hl & Hse & Hw & Hok & Hg & Hv & Hwr & _)]];
    [by apply same_view_settled|by apply same_view_settled|].
  rewrite <- Hzb in *. set (at_ := z * zm_zone_blocks m + view_written (zm_device m) z) in *.
  pose proof (law_written (zm_device m) z (mo_dev m Hm)) as Hw0. rewrite <- Hzb in Hw0.
  assert (Hnone : view m at_ = None).
  { apply eq_None_not_Some. intros Hr. subst at_. rewrite Hzb in Hr, Hw.
    apply (law_readable _ _ _ (mo_dev m Hm)) in Hr; done || lia. }
  assert (Q : quiet m (with_device d1 m)).
  { split; try done; cbn; eauto.
    - intros b Hb. rewrite Hv. destruct (Z.eqb_spec b at_) as [Eb|]; [|done].
      destruct Hb as [Hb|Hb]; [subst at_; nia|]. rewrite Eb, Hnone in Hb. by destruct Hb.
    - intros z'. rewrite Hwr. destruct (z' =? z); lia. }
  split_and!; [|done|done]. eapply quiet_ok; [done|done|done|apply Hm].
Qed.

(** ** Writing *)
Lemma written_ok m0 m l at_ from :
  Map_ok m → Landed m0 at_ from m → zm_physical m !! l = None →
  Map_ok (with_maps (<[l := at_]> (zm_physical m)) (<[at_ := l]> (zm_logical m)) m).
Proof.
  intros Hm Hl Hp. destruct Hl as [Hd Hst _ Hlg Hcp _ _]. destruct (mo_zb m Hm) as [_ Hzb].
  split; try apply Hm; cbn.
  - intros l' b. destruct (decide (l' = l)) as [->|Hne]; rewrite ?lookup_insert_eq, ?lookup_insert_ne by done.
    + destruct (decide (b = at_)) as [->|Hb]; rewrite ?lookup_insert_eq, ?lookup_insert_ne by done; [done|].
      split; [by intros [= ->]|]. intros L. apply (mo_inverse m Hm) in L. congruence.
    + destruct (decide (b = at_)) as [->|Hb]; rewrite ?lookup_insert_eq, ?lookup_insert_ne by done.
      * split; [|by intros [= ->]]. intros P. apply (mo_inverse m Hm) in P. congruence.
      * apply (mo_inverse m Hm).
  - intros l' b. destruct (decide (l' = l)) as [->|Hne]; rewrite ?lookup_insert_eq, ?lookup_insert_ne by done.
    + intros [= <-]. by right.
    + apply (mo_home m Hm).
  - intros z i Hf Hi. rewrite lookup_insert_ne; [by apply (mo_free m Hm)|]. intros ->.
    rewrite in_data_div in Hst by done. change (state_of m z = Some StFree) in Hf. congruence.
  - intros l' to Hc. destruct (mo_copies m Hm l' to Hc) as (Hi & Hn & Hs & b & Hb & Hb0 & Hv).
    split_and!; [done| |done|].
    + rewrite lookup_insert_ne; [done|]. intros ->. by apply Hcp in Hc.
    + exists b. split_and!; [|done|done]. rewrite lookup_insert_ne; [done|]. congruence.
Qed.

Lemma home_kind m l b :
  Map_ok m → zm_physical m !! l = Some b → b ≠ 0 →
  kind (zm_device m) (b / zm_zone_blocks m) = SequentialWriteRequired.
Proof.
  intros Hm P Hb. destruct (mo_home m Hm l b P) as [|(z & i & -> & Hi & _ & Hk & _)]; [done|].
  destruct (mo_zb m Hm). by rewrite in_data_div.
Qed.

(** Rewriting the conventional block. *)
Lemma rewritten_ok m d1 from :
  Map_ok m → dev_ok d1 → same_geometry (zm_device m) d1 →
  (∀ b, view_block d1 b = if b =? 0 then Some from else view m b) →
  (∀ z, view_written d1 z = view_written (zm_device m) z) →
  Map_ok (with_device d1 m).
Proof.
  intros Hm Hok Hg Hv Hw. destruct Hg as (Hbb & Hc & Hzb & Hk).
  assert (Hin : ∀ b, in_data m b → in_data (with_device d1 m) b).
  { intros b (z & i & -> & Hi & Hz & Hkz & Hwz). exists z, i. cbn. by rewrite Hc, Hk, Hw. }
  split; try apply Hm; cbn.
  - done.
  - rewrite Hzb. apply Hm.
  - rewrite Hc. apply Hm.
  - intros l b P. destruct (mo_home m Hm l b P); auto.
  - intros z. rewrite Hc. apply Hm.
  - intros l to Hl. destruct (mo_copies m Hm l to Hl) as (Hi & Hn & Hs & b & Hb & Hb0 & Hvb).
    split_and!; [auto|done|done|]. exists b. split_and!; [done|done|].
    pose proof (in_data_pos m to Hm Hi). rewrite !Hv.
    destruct (Z.eqb_spec to 0); [lia|]. by destruct (Z.eqb_spec b 0).
Qed.

Lemma write_spec m l from r m' :
  Map_ok m → ZoneMap_write l from m = (r, m') →
  r ≠ Err Panicked ∧ Map_ok m' ∧
  match r with
  | Ok _ => (zm_physical m !! l = None ∨ zm_physical m !! l = Some 0) ∧
      ∀ l', contents m' l' = if l' =? l then Some from else contents m l'
  | Err _ => ∀ l', contents m' l' = contents m l'
  end.
Proof.
  intros Hm. unfold ZoneMap_write. destruct (zm_physical m !! l) as [b|] eqn:P.
  - destruct (mo_zb m Hm) as [Hzb Hzb0]. destruct (Z.eqb_spec (zm_zone_blocks m) 0); [lia|].
    destruct (u32_max <? b / zm_zone_blocks m); [intros [= <- <-]; by split_and!|].
    case_bool_decide as Hk; [intros [= <- <-]; by split_and!|].
    assert (Hkb : b = 0).
    { destruct (decide (b = 0)); [done|]. rewrite (home_kind m l b Hm P) in Hk by done. done. }
    subst b. unfold on_device. destruct (dev_write 0 from (zm_device m)) as [r1 d1] eqn:E1.
    intros [= <- <-]. rewrite Hzb in Hzb0.
    destruct (law_write _ _ _ _ _ (mo_dev m Hm) Hzb0 (Z.le_refl 0) E1)
      as [[(e & -> & _) Hs]|[[-> Hs]|(-> & _ & Hok & Hg & Hl & Hv & Hw & _)]].
    + pose proof (same_view_settled m d1 (Ok tt : res fault unit) Hm Hs ltac:(done)) as (? & ? & _).
      split_and!; [done|done|]. intros. by apply quiet_contents.
    + pose proof (same_view_settled m d1 (Ok tt : res fault unit) Hm Hs ltac:(done)) as (? & ? & _).
      split_and!; [done|done|]. intros. by apply quiet_contents.
    + split_and!; [done|by eapply rewritten_ok|by right|]. intros l'. unfold contents; cbn.
      destruct (Z.eqb_spec l' l) as [->|Hne]; [rewrite P; cbn; by rewrite Hv|].
      destruct (zm_physical m !! l') as [b'|] eqn:P'; [|done]. cbn. rewrite Hv.
      destruct (Z.eqb_spec b' 0) as [->|]; [|done]. apply (mo_inverse m Hm) in P, P'. congruence.
  - unfold sm_bind. destruct (append_somewhere from m) as [r1 m1] eqn:E1.
    destruct (append_somewhere_settled m from r1 m1 Hm E1) as [S H1].
    destruct r1 as [at_|e]; intros [= <- <-].
    + pose proof S as (Hm1 & Q & _). assert (P1 : zm_physical m1 !! l = None) by by rewrite (q_physical _ _ Q).
      split_and!; [done|by eapply written_ok|by left|]. intros l'. unfold contents at 1; cbn.
      destruct (Z.eqb_spec l' l) as [->|Hne].
      * rewrite lookup_insert_eq. cbn. apply H1.
      * rewrite lookup_insert_ne by done. change (contents m1 l' = contents m l'). by apply quiet_contents.
    + destruct S as (? & ? & Hp). split_and!; [congruence|done|]. intros. by apply quiet_contents.
Qed.
End ops.
