(* ===== verification/ZoneTheorems.v ===== *)
(** * What the zoned store promises

    The mapping as a block store; free zones hold nothing; a sweep loses only
    what nobody asked it to keep. *)

From S2P Require Import Prelude Abi Bytes BTree StoreRecords ZoneDevice ZoneDeviceFacts ZoneMap ZoneMapFacts ZoneOps.

(** ** The operations as one type *)
Inductive map_op : Type :=
| OpRead (l len : Z)
| OpWrite (l : Z) (from : list Z)
| OpFlush
| OpCopyForward (l : Z)
| OpCommitCopies
| OpRecycle (z : Z)
| OpCondemn (z : Z)
| OpOpenZone
| OpHoldRead (z : Z)
| OpReleaseRead (z : Z)
| OpSetLiveBytes (z bytes : Z)
| OpAppendReserved (z : Z) (from : list Z).

Inductive answer : Type :=
| ADone
| ABlock (x : list Z)
| ANumber (n : Z).

Section ops.
Context {D : Type} `{HL : ZonedLaws D}.
Implicit Types (m : ZoneMap D).

Definition answering {A} (f : A → answer) (op : sm (ZoneMap D) fault A) : sm (ZoneMap D) fault answer :=
  do! a <- op; sm_ret (f a).

Definition exec (op : map_op) : sm (ZoneMap D) fault answer :=
  match op with
  | OpRead l len => answering ABlock (ZoneMap_read l len)
  | OpWrite l from => answering (λ _, ADone) (ZoneMap_write l from)
  | OpFlush => answering (λ _, ADone) ZoneMap_flush
  | OpCopyForward l => answering ANumber (ZoneMap_copy_forward l)
  | OpCommitCopies => answering (λ n, ANumber (Z.of_nat n)) ZoneMap_commit_copies
  | OpRecycle z => answering (λ _, ADone) (ZoneMap_recycle z)
  | OpCondemn z => answering (λ _, ADone) (ZoneMap_condemn z)
  | OpOpenZone => answering ANumber ZoneMap_open_zone
  | OpHoldRead z => answering (λ _, ADone) (ZoneMap_hold_read z)
  | OpReleaseRead z => answering (λ _, ADone) (ZoneMap_release_read z)
  | OpSetLiveBytes z n => answering (λ _, ADone) (ZoneMap_set_live_bytes z n)
  | OpAppendReserved z from => answering ANumber (ZoneMap_append_reserved z from)
  end.

(** What a caller keeps: no copy of the block that is rewritten in place, no
    more readers than their counter counts, and zones are unsigned. *)
Definition legal (op : map_op) m : Prop :=
  match op with
  | OpCopyForward l => zm_physical m !! l ≠ Some 0
  | OpHoldRead z => ∀ held, zm_zones m !! z = Some held → zn_reads_outstanding held ≠ u32_max
  | OpAppendReserved z _ => 0 ≤ z
  | _ => True
  end.

(** The abstract store: what every logical block holds, before and after. *)
Definition spec (op : map_op) (r : res fault answer) m : Z → option (list Z) :=
  match op, r with
  | OpWrite l from, Ok _ => λ l', if l' =? l then Some from else contents m l'
  | OpRecycle z, Ok _ => λ l', if decide (l' ∈ ZoneMap_holds m z) then None else contents m l'
  | _, _ => contents m
  end.

Lemma answering_inv {A} (f : A → answer) op m r m' :
  answering f op m = (r, m') →
  ∃ r0, op m = (r0, m') ∧ r = match r0 with Ok a => Ok (f a) | Err e => Err e end.
Proof. unfold answering, sm_bind. destruct (op m) as [[a|e] m1]; intros [= <- <-]; eauto. Qed.

(** A settled call, in the form of the refinement. *)
Lemma settled_refines {A} (f : A → answer) m (r : res fault A) m' :
  Map_ok m → settled m r m' →
  Map_ok m' ∧ (match r with Ok a => Ok (f a) | Err e => Err e end : res fault answer) ≠ Err Panicked ∧
  (∀ l, contents m' l = contents m l).
Proof.
  intros Hm (? & Q & Hr). split_and!; [done| |by intros; apply quiet_contents].
  destruct r; congruence.
Qed.

(** One operation, all of them. *)
Lemma exec_spec op m r m' :
  Map_ok m → legal op m → exec op m = (r, m') →
  Map_ok m' ∧ r ≠ Err Panicked ∧ (∀ l, contents m' l = spec op r m l).
Proof.
  intros Hm Hl E. destruct op; cbn [exec] in E;
    apply answering_inv in E as (r0 & E & ->); cbn [legal] in Hl.
  - destruct (read_spec m l len r0 m' Hm E) as [S _]. by apply (settled_refines ABlock).
  - destruct (write_spec m l from r0 m' Hm E) as (Hp & Hm' & Hc).
    destruct r0; [destruct Hc as [_ Hc]|]; split_and!; done || congruence.
  - by apply (settled_refines (λ _, ADone)), flush_spec.
  - destruct (copy_forward_spec m l r0 m' Hm Hl E) as (Hp & Hm' & Hc).
    destruct r0 as [to|e]; split_and!; try done; try congruence.
    + intros l'. destruct Hc as (m1 & block & S & _ & _ & ->).
      change (contents m1 l' = contents m l'). by apply quiet_contents, S.
    + intros l'. by apply quiet_contents.
  - destruct (commit_spec m r0 m' Hm E) as (Hp & Hm' & Hc & _).
    destruct r0; split_and!; done || congruence.
  - destruct (recycle_spec m z r0 m' Hm E) as (Hp & Hm' & Hc).
    destruct r0; split_and!; try done; try congruence; [apply Hc|].
    intros l'. by apply quiet_contents.
  - destruct (condemn_settled m z r0 m' Hm E) as [S _]. by apply (settled_refines (λ _, ADone)).
  - destruct (open_zone_settled m r0 m' Hm E) as [S _]. by apply (settled_refines ANumber).
  - destruct (hold_read_settled m z r0 m' Hm E) as [(held & Hz & Hmax & _)|S]; [by apply Hl in Hz|].
    by apply (settled_refines (λ _, ADone)).
  - apply (settled_refines (λ _, ADone)); [done|by eapply release_read_settled].
  - apply (settled_refines (λ _, ADone)); [done|by eapply set_live_bytes_settled].
  - apply (settled_refines ANumber); [done|by eapply append_reserved_spec].
Qed.

(** Runs of legal operations. *)
Inductive runs : ZoneMap D → ZoneMap D → Prop :=
| runs_none m : runs m m
| runs_step m1 op r m2 m3 : legal op m1 → exec op m1 = (r, m2) → runs m2 m3 → runs m1 m3.

Lemma runs_ok m m' : Map_ok m → runs m m' → Map_ok m'.
Proof.
  intros Hm R. induction R as [m|m1 op r m2 m3 Hl E _ IH]; [done|].
  apply IH. by destruct (exec_spec op m1 r m2 Hm Hl E).
Qed.

(** ** Making one *)
Lemma fresh_zones_lookup from to z :
  fresh_zones from to !! z = if decide (from ≤ z < to) then Some (zone_fresh z StFree) else None.
Proof.
  unfold fresh_zones.
  assert (Hn : ∀ n, foldl (λ zs i, <[from + Z.of_nat i := zone_fresh (from + Z.of_nat i) StFree]> zs) (∅ : gmap Z Zone) (seq 0 n) !! z =
               if decide (from ≤ z < from + Z.of_nat n) then Some (zone_fresh z StFree) else None).
  { induction n as [|n IH]; [rewrite decide_False by lia; apply lookup_empty|].
    rewrite seq_S, foldl_app. cbn [foldl Nat.add]. destruct (decide (z = from + Z.of_nat n)) as [->|Hne].
    - rewrite lookup_insert_eq, decide_True by lia. done.
    - rewrite lookup_insert_ne, IH by lia. repeat case_decide; done || lia. }
  rewrite Hn. repeat case_decide; done || lia.
Qed.

Lemma new_ok d from m :
  dev_ok d → 0 ≤ from → ZoneMap_new d from = Ok m →
  Map_ok m ∧ zm_device m = d ∧ zm_physical m = {[0 := 0]} ∧ zm_copies m = ∅ ∧ zm_data_from m = from ∧ zm_open m = None ∧
  (∀ z, from ≤ z < zone_count d → state_of m z = Some StFree).
Proof.
  intros Hd Hf. unfold ZoneMap_new. destruct (law_geometry d Hd) as (Hzb & _).
  destruct (Z.eqb_spec from 0); [done|]. destruct (Z.leb_spec (zone_count d) from); [done|]. cbn [orb].
  destruct (Z.eqb_spec (zone_blocks d) 0); [done|]. intros [= <-].
  assert (Hst : ∀ z, fresh_zones from (zone_count d) !! z = _) by apply fresh_zones_lookup.
  split_and!; try done.
  - split; cbn; try done; try lia.
    + intros l b. rewrite !lookup_singleton_Some. split; intros [<- <-]; done.
    + intros l b. rewrite lookup_singleton_Some. intros [_ ->]. by left.
    + intros z. rewrite fresh_zones_lookup. case_decide; split; try done; intros [? ?]; done.
    + intros z Z. rewrite fresh_zones_lookup. case_decide; [by intros [= <-]|done].
    + intros z i Hs Hi. unfold state_of in Hs. cbn in Hs. rewrite fresh_zones_lookup in Hs.
      case_decide; [|done]. apply lookup_singleton_None. nia.
  - intros z Hz. unfold state_of. cbn. by rewrite fresh_zones_lookup, decide_True.
Qed.

(** ** A sweep of one zone

    The calls [Collector::sweeping] makes for one zone, in its order: condemn,
    copy what is live, commit, and reset. *)
Fixpoint copy_all (live : list Z) : sm (ZoneMap D) fault unit :=
  match live with
  | [] => sm_ret tt
  | l :: live => do! _ <- ZoneMap_copy_forward l; copy_all live
  end.

Definition sweep (zone : Z) (live : list Z) : sm (ZoneMap D) fault unit :=
  do! _ <- ZoneMap_condemn zone;
  do! _ <- copy_all live;
  do! _ <- ZoneMap_commit_copies;
  ZoneMap_recycle zone.

(** While a zone is condemned its blocks are copied somewhere else. *)
Record evacuating (zone : Z) (m0 m : ZoneMap D) (live : list Z) : Prop := {
  ev_ok : Map_ok m;
  ev_zb : zm_zone_blocks m = zm_zone_blocks m0;
  ev_condemned : state_of m zone = Some StCondemned;
  ev_physical : zm_physical m = zm_physical m0;
  ev_contents : ∀ l, contents m l = contents m0 l;
  ev_copied : ∀ l, l ∈ live ↔ is_Some (zm_copies m !! l);
  ev_away : ∀ l to, zm_copies m !! l = Some to → ¬ in_zone_range m zone to;
}.

Lemma evacuating_copy zone m0 m live l r m' :
  evacuating zone m0 m live → zm_physical m !! l ≠ Some 0 →
  ZoneMap_copy_forward l m = (Ok r, m') → evacuating zone m0 m' (l :: live).
Proof.
  intros [Hm Hzb Hcd Hp Hc Hcp Haw] Hl E.
  destruct (copy_forward_spec m l _ m' Hm Hl E) as (_ & Hm' & m1 & block & (Hm1 & Q & _) & Hld & _ & ->).
  assert (Hcd1 : state_of m1 zone = Some StCondemned) by by apply (q_condemned _ _ Q).
  split; cbn.
  - done.
  - by rewrite (q_zb _ _ Q).
  - done.
  - by rewrite (q_physical _ _ Q).
  - intros l'. change (contents m1 l' = contents m0 l'). rewrite <- Hc. by apply quiet_contents.
  - intros l'. rewrite elem_of_cons, Hcp, (q_copies _ _ Q). destruct (decide (l' = l)) as [->|].
    + rewrite lookup_insert_eq. split; [eauto|by left].
    + rewrite lookup_insert_ne by done. tauto.
  - intros l' to. destruct (decide (l' = l)) as [->|].
    + rewrite lookup_insert_eq. intros [= <-] Hr. destruct Hld as [(z & i & -> & Hi & _) Hst _ _ _ _ _].
      destruct (mo_zb m1 Hm1) as [_ Hpos]. rewrite in_data_div in Hst by done.
      unfold in_zone_range in Hr; cbn in Hr. assert (z = zone) as -> by nia. congruence.
    + rewrite lookup_insert_ne, (q_copies _ _ Q) by done. intros L Hr. apply (Haw l' to L).
      unfold in_zone_range in *; cbn in Hr. by rewrite <- (q_zb _ _ Q).
Qed.

Lemma evacuating_copy_all zone m0 todo m live r m' :
  evacuating zone m0 m live → (∀ l, l ∈ todo → zm_physical m0 !! l ≠ Some 0) →
  copy_all todo m = (Ok r, m') → ∃ live', evacuating zone m0 m' live' ∧ ∀ l, l ∈ live' ↔ l ∈ todo ∨ l ∈ live.
Proof.
  revert m live. induction todo as [|l todo IH]; intros m live Hev Hl; cbn [copy_all].
  { intros [= _ <-]. exists live. split; [done|]. intros l. rewrite elem_of_nil. tauto. }
  unfold sm_bind. destruct (ZoneMap_copy_forward l m) as [[to|e] m1] eqn:E1; [|done]. intros E.
  destruct (IH m1 (l :: live)) as (live' & Hev' & Hin).
  - eapply evacuating_copy; [done| |done]. rewrite (ev_physical _ _ _ _ Hev). apply Hl, list_elem_of_here.
  - intros l' Hl'. by apply Hl, list_elem_of_further.
  - done.
  - exists live'. split; [done|]. intros l'. rewrite Hin, !elem_of_cons. tauto.
Qed.

Lemma held_not_zero m zone l :
  Map_ok m → is_Some (zm_zones m !! zone) → l ∈ ZoneMap_holds m zone → zm_physical m !! l ≠ Some 0.
Proof.
  intros Hm Hz Hl P. apply (elem_of_holds m zone l Hm) in Hl as (b & P' & Hr). rewrite P in P'.
  injection P' as <-. apply (mo_zones m Hm) in Hz. pose proof (mo_from m Hm). destruct (mo_zb m Hm).
  unfold in_zone_range in Hr. nia.
Qed.
End ops.

(** ** A small device *)
Definition example_device : res fault ZonedMemory := ZonedMemory_new 2 2 6.
Definition example_map : res fault (ZoneMap ZonedMemory) :=
  let? d := example_device in ZoneMap_new d 3.

(** Blocks 1 to 3 written, which fills zone 3 and opens zone 4. *)
Definition example_ops : list map_op :=
  [OpWrite 0 [9; 9]; OpWrite 1 [1; 1]; OpWrite 2 [2; 2]; OpWrite 3 [3; 3]].

Fixpoint exec_all {D} `{Zoned D} (ops : list map_op) (m : ZoneMap D) : ZoneMap D :=
  match ops with [] => m | op :: ops => exec_all ops (exec op m).2 end.

Definition example_state : ZoneMap ZonedMemory :=
  match example_map with
  | Ok m => exec_all example_ops m
  | Err _ => mkZoneMap (mkZonedMemory 0 0 0 [] [] [] Counted_default) 0 0 ∅ ∅ ∅ None ∅
  end.

Lemma example_made :
  ∃ d m0, dev_ok d ∧ ZoneMap_new d 3 = Ok m0 ∧ runs m0 example_state.
Proof.
  destruct example_device as [d|] eqn:Ed; [|by vm_compute in Ed].
  destruct (ZonedMemory_new_ok 2 2 6 d) as [Hd _]; [lia|lia|cbv; split; congruence|done|].
  destruct (ZoneMap_new d 3) as [m0|] eqn:Em; [|unfold example_device in Ed; injection Ed as <-; by vm_compute in Em].
  exists d, m0. split_and!; [done|done|].
  assert (example_state = exec_all example_ops m0) as ->.
  { unfold example_state, example_map. rewrite Ed. rsimpl. by rewrite Em. }
  clear Em Ed. unfold example_ops. cbn [exec_all].
  eapply (runs_step _ (OpWrite 0 [9; 9])); [exact I|apply surjective_pairing|].
  eapply (runs_step _ (OpWrite 1 [1; 1])); [exact I|apply surjective_pairing|].
  eapply (runs_step _ (OpWrite 2 [2; 2])); [exact I|apply surjective_pairing|].
  eapply (runs_step _ (OpWrite 3 [3; 3])); [exact I|apply surjective_pairing|].
  constructor.
Qed.

(** C38 The mapping is a block store: from a fresh map, after any legal
    operations, each operation changes what the logical blocks hold exactly as
    its abstract counterpart does. A write replaces one block, a recycle drops
    what its zone held, everything else (copying and repointing included)
    changes nothing, a refusal changes nothing, reads answer what is held, and
    nothing panics. *)
Theorem zone_map_refines_blocks {D} `{ZonedLaws D} (d : D) from m0 m op r m' :
  dev_ok d → 0 ≤ from → ZoneMap_new d from = Ok m0 → runs m0 m → legal op m → exec op m = (r, m') →
  r ≠ Err Panicked ∧ (∀ l, contents m' l = spec op r m l) ∧
  (∀ l len x, op = OpRead l len → r = Ok (ABlock x) → contents m l = Some x).
Proof.
  intros Hd Hf Hnew Hr Hl E. pose proof (runs_ok m0 m (proj1 (new_ok d from m0 Hd Hf Hnew)) Hr) as Hm.
  destruct (exec_spec op m r m' Hm Hl E) as (_ & Hp & Hc). split_and!; [done|done|].
  intros l len x -> ->. apply answering_inv in E as (r0 & E & Er).
  destruct (read_spec m l len r0 m' Hm E) as (_ & Hx & _). apply Hx. destruct r0; congruence.
Qed.

Lemma zone_map_refines_blocks_witness :
  let '(r, m') := exec (OpCopyForward 1) example_state in
  r ≠ Err Panicked ∧ contents m' 1 = Some [1; 1].
Proof.
  destruct example_made as (d & m0 & Hd & Hnew & Hr).
  destruct (exec (OpCopyForward 1) example_state) as [r m'] eqn:E.
  destruct (zone_map_refines_blocks d 3 m0 example_state (OpCopyForward 1) r m' Hd ltac:(lia) Hnew Hr) as (Hp & Hc & _).
  - vm_compute. discriminate.
  - exact E.
  - split; [exact Hp|]. rewrite Hc. vm_compute. reflexivity.
Defined.

(** A zone that is free holds nothing: after any legal operations from a
    fresh map no mapping resolves into a free zone, and a zone is only ever
    reset when it was condemned and no copy was waiting to be committed. *)
Theorem free_zones_hold_nothing {D} `{ZonedLaws D} (d : D) from m0 m :
  dev_ok d → 0 ≤ from → ZoneMap_new d from = Ok m0 → runs m0 m →
  a_reset_zone_holds_no_live_blob m = true ∧
  ∀ z m', ZoneMap_recycle z m = (Ok tt, m') → state_of m z = Some StCondemned ∧ zm_copies m = ∅.
Proof.
  intros Hd Hf Hnew Hr. pose proof (runs_ok m0 m (proj1 (new_ok d from m0 Hd Hf Hnew)) Hr) as Hm. split.
  - unfold a_reset_zone_holds_no_live_blob. apply Is_true_true, forallb_True, list.Forall_forall. intros Z.
    rewrite list_elem_of_filter. intros [Hs HZ]. apply elem_of_btree_values in HZ as [k Hk].
    apply bool_decide_pack. rewrite (mo_zone_self m Hm k Z Hk). apply holds_empty. intros i Hi.
    apply (mo_free m Hm); [|done]. unfold state_of. rewrite Hk. cbn. by rewrite Hs.
  - intros z m' E. destruct (recycle_spec m z _ m' Hm E) as (_ & _ & ? & ? & _). done.
Qed.

Lemma free_zones_hold_nothing_witness : a_reset_zone_holds_no_live_blob example_state = true.
Proof.
  destruct example_made as (d & m0 & Hd & Hnew & Hr).
  exact (proj1 (free_zones_hold_nothing d 3 m0 example_state Hd ltac:(lia) Hnew Hr)).
Defined.



(** ** The device in memory *)
Definition read_answer (d : ZonedMemory) (b len : Z) : res fault (list Z) := (ZonedMemory_read b len d).1.

Lemma read_answer_eq d b len :
  ZonedMemory_ok d → 0 ≤ b →
  read_answer d b len =
    match mem_block d b with
    | Some x => if len =? zmem_block_bytes d then Ok x else Err (Refused refusal_ADDRESS)
    | None => Err (Refused refusal_ADDRESS)
    end.
Proof.
  intros Hd Hb. unfold read_answer. rewrite (read_law d Hd b len Hb).
  destruct (mem_block d b); [by destruct (_ =? _)|done].
Qed.

(** The rules of the zones, on the device in memory: an append lands at the
    zone's pointer, never in the conventional zone, reads back as what was
    appended and changes no other block; a finished zone accepts no append; a
    reset zone has nothing to read and takes appends from its start again;
    only the conventional zone is written in place; and nothing panics. *)
Theorem zone_rules (d : ZonedMemory) (z : Z) :
  ZonedMemory_ok d → 0 ≤ z →
  (∀ from at_ d', ZonedMemory_append z from d = (Ok at_, d') →
     z ≠ 0 ∧ at_ = z * zmem_zone_blocks d + mem_written d z ∧ ZonedMemory_ok d' ∧
     ∀ b len, 0 ≤ b → read_answer d' b len =
       if b =? at_ then if len =? zmem_block_bytes d then Ok from else Err (Refused refusal_ADDRESS)
       else read_answer d b len) ∧
  (∀ from e d', ZonedMemory_append z from d = (Err e, d') → d' = d ∧ e ≠ Panicked) ∧
  (∀ d' from, ZonedMemory_finish z d = (Ok tt, d') → Z.of_nat (length from) = zmem_block_bytes d →
     (ZonedMemory_append z from d').1 = Err (Refused refusal_FULL)) ∧
  (∀ d', ZonedMemory_reset z d = (Ok tt, d') →
     (∀ b len, 0 ≤ b → b / zmem_zone_blocks d = z → read_answer d' b len = Err (Refused refusal_ADDRESS)) ∧
     ∀ from, Z.of_nat (length from) = zmem_block_bytes d →
       (ZonedMemory_append z from d').1 = Ok (z * zmem_zone_blocks d)) ∧
  (∀ b from d', 0 ≤ b → ZonedMemory_write b from d = (Ok tt, d') → b / zmem_zone_blocks d = 0).
Proof.
  intros Hd Hz. split_and!.
  - intros from at_ d' E.
    destruct (append_law d Hd z from Hz) as [E1|[[E1 _]|(E1 & Hzz & Hl & _ & Hw)]]; rewrite E in E1; [done|done|].
    injection E1 as -> ->. destruct (appended_spec d z from Hd Hzz Hw Hl) as (Hok & Hb & _).
    assert (Hok' : ZonedMemory_ok (count (add_appended (zmem_block_bytes d)) (appended z from d))) by by apply count_ok.
    split_and!; [lia|done|done|]. intros b len Hb0. rewrite !read_answer_eq by done.
    rewrite mem_block_count, Hb. by destruct (b =? _).
  - intros from e d' E.
    destruct (append_law d Hd z from Hz) as [E1|[[E1 _]|(E1 & _)]]; rewrite E in E1; by simplify_eq.
  - intros d' from E Hl. destruct (finish_law d Hd z Hz) as [E1|[E1 Hzz]]; rewrite E in E1; [done|].
    injection E1 as ->. assert (Hok : ZonedMemory_ok (count add_finish (set_sealed z true d)))
      by by apply count_ok, set_sealed_ok.
    rewrite (append_answer _ Hok) by done. change (mem_sealed (count ?f ?x) z) with (mem_sealed x z).
    rewrite set_sealed_lookup, Z.eqb_refl by (done || lia). done.
  - intros d' E. destruct (reset_law d Hd z Hz) as [E1|[E1 Hzz]]; rewrite E in E1; [done|].
    injection E1 as ->. destruct (zeroed_zone_spec d z Hd Hzz) as (Hok & Hb & Hw & Hs).
    pose proof (zok_blocks d Hd) as Hzb. split.
    + intros b len Hb0 Hq. rewrite read_answer_eq by (done || by apply count_ok). rewrite mem_block_count, Hb.
      destruct (in_zone d Hd b Hb0) as (_ & _ & Hm & Hbe). rewrite Hq in Hbe.
      destruct (Z.leb_spec (z * zmem_zone_blocks d) b); [|lia].
      by destruct (Z.ltb_spec b (z * zmem_zone_blocks d + zmem_zone_blocks d)); [|lia].
    + intros from Hl. rewrite append_answer by (done || by apply count_ok).
      change (mem_sealed (count ?f ?x) z) with (mem_sealed x z).
      change (mem_written (count ?f ?x) z) with (mem_written x z).
      rewrite Hs, Hw, Z.eqb_refl. cbn [negb andb orb]. change (zmem_zone_blocks (count ?f ?x)) with (zmem_zone_blocks d).
      destruct (Z.leb_spec (zmem_zone_blocks d) 0); [lia|]. by rewrite Z.add_0_r.
  - intros b from d' Hb E. destruct (write_law d Hd b from Hb) as [E1|(_ & _ & _ & Hq)]; [congruence|done].
Qed.

Definition example_device_state : ZonedMemory := zm_device example_state.

Lemma zone_rules_witness :
  read_answer (ZonedMemory_append 4 [7; 7] example_device_state).2 9 2 = Ok [7; 7].
Proof.
  destruct example_made as (d & m0 & Hd & Hnew & Hr).
  assert (Hok : ZonedMemory_ok example_device_state).
  { exact (mo_dev _ (runs_ok m0 example_state (proj1 (new_ok d 3 m0 Hd ltac:(lia) Hnew)) Hr)). }
  destruct (zone_rules example_device_state 4 Hok ltac:(lia)) as (Ha & _).
  destruct (Ha [7; 7] 9 (ZonedMemory_append 4 [7; 7] example_device_state).2) as (_ & _ & _ & Hread).
  - vm_compute. reflexivity.
  - rewrite Hread by lia. vm_compute. reflexivity.
Defined.
