(* ===== verification/ZoneMount.v ===== *)
(** * Mounting: [ZoneMap::remount]

    The logical numbering is recovered from the device's write pointers alone,
    exactly, when blocks were written in ascending order and none was moved. *)

From S2P Require Import Prelude Abi Bytes BTree StoreRecords ZoneDevice ZoneDeviceFacts ZoneMap ZoneMapFacts ZoneOps ZoneTheorems.

Section mount.
Context {D : Type} `{HL : ZonedLaws D}.
(** The hardware has no refusal of its own that reads as a full zone. *)
Hypothesis Hfull : ¬ hardware (D := D) refusal_FULL.
Implicit Types (m : ZoneMap D).

Local Abbreviation written m := (view_written (zm_device m)).
Local Abbreviation sealed m := (view_sealed (zm_device m)).

(** ** Exactly what the two calls of a write do to the device *)
Lemma append_exact m z from r m' :
  Map_ok m → 0 ≤ z → on_device (dev_append z from) m = (r, m') →
  match r with
  | Ok at_ => at_ = z * zm_zone_blocks m + written m z ∧ sealed m z = false ∧ written m z < zm_zone_blocks m ∧
      (∀ z', written m' z' = written m z' + (if z' =? z then 1 else 0)) ∧ (∀ z', sealed m' z' = sealed m z')
  | Err e => same_view (zm_device m) (zm_device m') ∧
      (e = Refused refusal_FULL → sealed m z = true ∨ zm_zone_blocks m ≤ written m z)
  end.
Proof using Hfull.
  intros Hm Hz E. unfold on_device in E. destruct (dev_append z from (zm_device m)) as [r1 d1] eqn:E1.
  injection E as <- <-. destruct (mo_zb m Hm) as [Hzb _].
  destruct (law_append _ _ _ _ _ (mo_dev m Hm) Hz E1)
    as [[(e & -> & He) Hs]|[(e & -> & Hs & Hor)|(-> & _ & _ & _ & Hse & Hw & _ & _ & _ & Hwr & Hsl)]];
    rewrite <- ?Hzb in *.
  - split; [done|]. by intros [= ->].
  - split; [done|]. intros [= ->]. destruct Hor as [[=]|[_ ?]]; done.
  - done.
Qed.

Lemma seal_exact m o m' :
  Map_ok m → zm_open m = None → (∀ z, o = Some z → state_of m z = Some StOpen) →
  seal_open o m = (Ok tt, m') →
  (∀ z, written m' z = written m z) ∧ (∀ z, sealed m' z = bool_decide (o = Some z) || sealed m z) ∧
  (∀ z, state_of m' z = if decide (o = Some z) then Some StSealed else state_of m z).
Proof.
  intros Hm Ho Hst. destruct o as [zo|]; [|intros [= <-]; by split_and!].
  specialize (Hst zo eq_refl). pose proof (zone_index_nonneg m zo Hm (state_zone _ _ _ Hst)) as Hz.
  unfold seal_open, sm_bind, on_device. destruct (dev_finish zo (zm_device m)) as [r1 d1] eqn:E1.
  destruct (law_finish _ _ _ _ (mo_dev m Hm) Hz E1) as [[(e & -> & _) _]|[[-> _]|(-> & _ & _ & _ & _ & Hw & Hse)]];
    [done|done|].
  intros [= <-]. apply state_zone in Hst as [held Hh]. cbn. rewrite Hh. split_and!.
  - done.
  - intros z. cbn. rewrite Hse. f_equal.
    destruct (Z.eqb_spec z zo) as [->|]; case_bool_decide; congruence.
  - intros z. unfold state_of. cbn. destruct (decide (Some zo = Some z)) as [[= ->]|].
    + by rewrite lookup_insert_eq.
    + rewrite lookup_insert_ne; [done|congruence].
Qed.

Lemma open_zone_exact m z m' :
  Map_ok m → ZoneMap_open_zone m = (Ok z, m') →
  state_of m z = Some StFree ∧ (∀ z', z' < z → state_of m z' ≠ Some StFree) ∧
  (∀ z', written m' z' = written m z') ∧ (∀ z', sealed m' z' = bool_decide (zm_open m = Some z') || sealed m z') ∧
  (∀ z', state_of m' z' = Some StFree ↔ z' ≠ z ∧ state_of m z' = Some StFree).
Proof.
  intros Hm. unfold ZoneMap_open_zone. set (m0 := with_open None m).
  assert (S0 : settled m (Ok tt : res fault unit) m0) by by apply with_open_settled.
  unfold sm_bind at 1. destruct (seal_open (zm_open m) m0) as [[[]|e] m1] eqn:E1; [|done].
  destruct (seal_open_settled m0 (zm_open m) (Ok tt) m1) as ((Hm1 & _ & _) & _); [apply S0|done|apply Hm|done|].
  destruct (seal_exact m0 (zm_open m) m1 (proj1 S0) eq_refl) as (Hw & Hs & Hst); [apply Hm|done|].
  unfold sm_bind at 1, sm_get. destruct (list_find _ (ZoneMap_zones m1)) as [[i Z]|] eqn:Hf; [|done].
  apply btree_find_least in Hf as (k & Hk & HZ & Hleast). rewrite (mo_zone_self m1 Hm1 k Z Hk).
  unfold sm_bind, set_state_if, sm_put, sm_ret. rewrite Hk. intros [= <- <-].
  assert (Hfree : ∀ z, state_of m1 z = Some StFree ↔ state_of m z = Some StFree).
  { intros z'. rewrite Hst. change (state_of m0 z') with (state_of m z').
    destruct (decide _) as [E|]; [|done]. rewrite (mo_open m Hm z' E). done. }
  split_and!.
  - apply Hfree. unfold state_of. by rewrite Hk; cbn; rewrite HZ.
  - intros z' Hlt Hs'%Hfree. unfold state_of in Hs'. destruct (zm_zones m1 !! z') as [Z'|] eqn:Hz'; [|done].
    injection Hs' as Hs'. by apply (Hleast z' Z' Hz' Hlt).
  - done.
  - done.
  - intros z'. change (state_of (with_open _ ?x) z') with (state_of x z'). rewrite state_of_insert, <- Hfree.
    destruct (decide (z' = k)) as [->|]; [|tauto]. cbn. split; [done|tauto].
Qed.

(** ** A map filled in order *)
Record Filled m (n : Z) : Prop := {
  fl_ok : Map_ok m;
  fl_n : 0 ≤ n;
  fl_physical : ∀ l, zm_physical m !! l =
    if l =? 0 then Some 0
    else if (1 <=? l) && (l <=? n) then Some (zm_data_from m * zm_zone_blocks m + (l - 1)) else None;
  fl_written : ∀ z, zm_data_from m ≤ z < zone_count (zm_device m) →
    written m z = Z.max 0 (Z.min (zm_zone_blocks m) (n - (z - zm_data_from m) * zm_zone_blocks m));
  fl_sealed : ∀ z, zm_data_from m ≤ z < zone_count (zm_device m) → sealed m z = true →
    written m z = zm_zone_blocks m;
  fl_open : ∀ z, zm_open m = Some z ↔ 0 < n ∧ zm_data_from m + (n - 1) / zm_zone_blocks m = z;
  fl_free : ∀ z, zm_data_from m ≤ z < zone_count (zm_device m) →
    state_of m z = Some StFree ↔ n ≤ (z - zm_data_from m) * zm_zone_blocks m;
}.

Lemma new_filled d from m :
  dev_ok d → 0 ≤ from → ZoneMap_new d from = Ok m →
  (∀ z, view_written d z = 0) → (∀ z, view_sealed d z = false) → Filled m 0.
Proof.
  intros Hd Hf Hnew Hw Hs. destruct (new_ok d from m Hd Hf Hnew) as (Hm & Ed & Ep & _ & Efr & Eo & Hst).
  destruct (mo_zb m Hm) as [_ Hzb]. split.
  - done.
  - lia.
  - intros l. rewrite Ep. destruct (Z.eqb_spec l 0) as [->|]; [apply lookup_singleton_eq|].
    rewrite lookup_singleton_ne by done. destruct (Z.leb_spec 1 l), (Z.leb_spec l 0); done || lia.
  - intros z Hz. rewrite Ed, Hw. nia.
  - intros z Hz. rewrite Ed, Hs. done.
  - intros z. rewrite Eo. split; [done|lia].
  - intros z Hz. rewrite Efr, Ed in *. rewrite Hst by done. split; [nia|done].
Qed.

(** The zone the next block goes to, and what is known when it is open. *)
Definition next_zone m (n : Z) : Z := zm_data_from m + n / zm_zone_blocks m.

Record Ready m (n z : Z) : Prop := {
  rd_ok : Map_ok m;
  rd_n : 0 ≤ n;
  rd_zone : z = next_zone m n;
  rd_open : zm_open m = Some z;
  rd_written : ∀ z, zm_data_from m ≤ z < zone_count (zm_device m) →
    written m z = Z.max 0 (Z.min (zm_zone_blocks m) (n - (z - zm_data_from m) * zm_zone_blocks m));
  rd_sealed : ∀ z, zm_data_from m ≤ z < zone_count (zm_device m) → sealed m z = true →
    written m z = zm_zone_blocks m;
  rd_free : ∀ z', zm_data_from m ≤ z' < zone_count (zm_device m) →
    state_of m z' = Some StFree ↔ n ≤ (z' - zm_data_from m) * zm_zone_blocks m ∧ z' ≠ z;
}.

(** One block more. *)
Record Grown m m' (n at_ : Z) : Prop := {
  gr_at : at_ = zm_data_from m * zm_zone_blocks m + n;
  gr_open : zm_open m' = Some (next_zone m n);
  gr_written : ∀ z, zm_data_from m ≤ z < zone_count (zm_device m) →
    written m' z = Z.max 0 (Z.min (zm_zone_blocks m) (n + 1 - (z - zm_data_from m) * zm_zone_blocks m));
  gr_sealed : ∀ z, zm_data_from m ≤ z < zone_count (zm_device m) → sealed m' z = true →
    written m' z = zm_zone_blocks m;
  gr_free : ∀ z, zm_data_from m ≤ z < zone_count (zm_device m) →
    state_of m' z = Some StFree ↔ n + 1 ≤ (z - zm_data_from m) * zm_zone_blocks m;
}.

Lemma next_zone_range m n z :
  Map_ok m → 0 ≤ n → z = next_zone m n →
  (z - zm_data_from m) * zm_zone_blocks m ≤ n < (z - zm_data_from m) * zm_zone_blocks m + zm_zone_blocks m.
Proof.
  intros Hm Hn ->. destruct (mo_zb m Hm) as [_ Hzb]. unfold next_zone.
  pose proof (Z.div_mod n (zm_zone_blocks m) ltac:(lia)). pose proof (Z.mod_pos_bound n (zm_zone_blocks m) Hzb). nia.
Qed.

Lemma open_in_range m z : Map_ok m → zm_open m = Some z → zm_data_from m ≤ z < zone_count (zm_device m).
Proof. intros Hm Ho. apply (mo_zones m Hm). eapply state_zone. by apply (mo_open m Hm). Qed.

Lemma ready_append m n z from at_ m' :
  Ready m n z → on_device (dev_append z from) m = (Ok at_, m') → Grown m m' n at_.
Proof using Hfull.
  intros [Hm Hn Hz Ho Hw Hs Hf] E. pose proof (open_in_range m z Hm Ho) as Hr.
  pose proof (mo_from m Hm). destruct (mo_zb m Hm) as [_ Hzb].
  pose proof (next_zone_range m n z Hm Hn Hz) as Hnz.
  destruct (append_exact m z from _ m' Hm ltac:(lia) E) as (Hat & Hse & Hlt & Hw' & Hs').
  assert (Hst : ∀ z', state_of m' z' = state_of m z' ∧ zm_open m' = zm_open m).
  { unfold on_device in E. destruct (dev_append z from (zm_device m)) as [r d1]. by injection E as _ <-. }
  pose proof (Hw z Hr) as Hwz.
  assert (Hmul : ∀ z', z' ≠ z → (z' - zm_data_from m) * zm_zone_blocks m + zm_zone_blocks m ≤ (z - zm_data_from m) * zm_zone_blocks m ∨
    (z - zm_data_from m) * zm_zone_blocks m + zm_zone_blocks m ≤ (z' - zm_data_from m) * zm_zone_blocks m).
  { intros z' Hne. assert (z' + 1 ≤ z ∨ z + 1 ≤ z') by lia. nia. }
  split.
  - rewrite Hat, Hwz. nia.
  - rewrite (proj2 (Hst z)), Ho. by rewrite Hz.
  - intros z' Hz'. rewrite Hw', (Hw z' Hz'). destruct (Z.eqb_spec z' z) as [->|Hne]; [lia|].
    destruct (Hmul z' Hne); lia.
  - intros z' Hz'. rewrite Hs'. intros Hse'. pose proof (Hs z' Hz' Hse') as Hfz. rewrite Hw'.
    destruct (Z.eqb_spec z' z) as [->|]; [congruence|lia].
  - intros z' Hz'. rewrite (proj1 (Hst z')), (Hf z' Hz').
    destruct (decide (z' = z)) as [->|Hne]; [split; [tauto|lia]|]. destruct (Hmul z' Hne); split; [lia|split; [lia|done]|lia|split; [lia|done]].
Qed.

(** Opening a zone when there is room only in the next one. *)
Lemma filled_open m n z m' :
  Map_ok m → 0 ≤ n →
  (∀ z, zm_data_from m ≤ z < zone_count (zm_device m) →
    written m z = Z.max 0 (Z.min (zm_zone_blocks m) (n - (z - zm_data_from m) * zm_zone_blocks m))) →
  (∀ z, zm_data_from m ≤ z < zone_count (zm_device m) → sealed m z = true → written m z = zm_zone_blocks m) →
  (∀ z, zm_data_from m ≤ z < zone_count (zm_device m) →
    state_of m z = Some StFree ↔ n ≤ (z - zm_data_from m) * zm_zone_blocks m) →
  n mod zm_zone_blocks m = 0 →
  (∀ z, zm_open m = Some z → written m z = zm_zone_blocks m) →
  ZoneMap_open_zone m = (Ok z, m') → Ready m' n z.
Proof.
  intros Hm Hn Hw Hs Hf Hmod Hop E. destruct (mo_zb m Hm) as [_ Hzb].
  destruct (open_zone_exact m z m' Hm E) as (Hfz & Hleast & Hw' & Hs' & Hf').
  destruct (open_zone_settled m _ m' Hm E) as ((Hm' & Q & _) & _ & Ho' & _).
  destruct (q_geometry _ _ Q) as (_ & Hc & _ & _).
  pose proof (proj1 (mo_zones m Hm z) (state_zone _ _ _ Hfz)) as Hr.
  assert (Hz : z = next_zone m n).
  { pose proof (next_zone_range m n _ Hm Hn eq_refl) as Hnz. set (zn := next_zone m n) in *.
    assert (Hn' : n = (zn - zm_data_from m) * zm_zone_blocks m).
    { unfold zn, next_zone. pose proof (Z.div_mod n (zm_zone_blocks m) ltac:(lia)). lia. }
    apply Hf in Hfz; [|done]. destruct (decide (z = zn)); [done|]. exfalso.
    assert (Hlt : zn < z) by nia. apply (Hleast zn Hlt). apply Hf; [|lia].
    split; [|lia]. unfold zn, next_zone. pose proof (Z.div_pos n (zm_zone_blocks m) Hn Hzb). lia. }
  split.
  - done.
  - done.
  - unfold next_zone. by rewrite (q_zb _ _ Q), (q_from _ _ Q).
  - done.
  - intros z'. rewrite (q_zb _ _ Q), (q_from _ _ Q), Hc, Hw'. apply Hw.
  - intros z'. rewrite (q_zb _ _ Q), (q_from _ _ Q), Hc, Hw', Hs'. intros Hz'.
    destruct (decide (zm_open m = Some z')) as [Eo|Eo]; [intros _; by apply Hop|].
    rewrite bool_decide_false by done. cbn. by apply Hs.
  - intros z'. rewrite (q_zb _ _ Q), (q_from _ _ Q), Hc. intros Hz'. rewrite Hf', Hf by done. tauto.
Qed.

Lemma filled_last_full m n z :
  Filled m n → zm_open m = Some z → written m z = zm_zone_blocks m ∨ z = next_zone m n.
Proof.
  intros Hfl Ho. pose proof (fl_ok m n Hfl) as Hm. destruct (mo_zb m Hm) as [_ Hzb].
  pose proof (open_in_range m z Hm Ho) as Hr. rewrite (fl_written m n Hfl z Hr).
  apply (fl_open m n Hfl) in Ho as [Hn <-]. unfold next_zone.
  set (q := (n - 1) / zm_zone_blocks m) in *.
  pose proof (Z.div_mod (n - 1) (zm_zone_blocks m) ltac:(lia)) as Hd. fold q in Hd.
  pose proof (Z.mod_pos_bound (n - 1) (zm_zone_blocks m) Hzb).
  destruct (decide ((n - 1) mod zm_zone_blocks m + 1 = zm_zone_blocks m)) as [He|Hne].
  - left. nia.
  - right. f_equal. apply (Z.div_unique n (zm_zone_blocks m) q ((n - 1) mod zm_zone_blocks m + 1)); lia.
Qed.

Lemma filled_ready m n z :
  Filled m n → zm_open m = Some z → z = next_zone m n → Ready m n z.
Proof.
  intros Hfl Ho Hz. destruct Hfl as [Hm Hn _ Hw Hs _ Hf]. split; try done.
  intros z' Hz'. rewrite (Hf z' Hz'). split; [|tauto]. intros Hle. split; [done|]. intros ->.
  pose proof (mo_open m Hm z Ho) as Hst. destruct (Hf z Hz') as [_ Hfz]. rewrite (Hfz Hle) in Hst. done.
Qed.

Lemma filled_full_mod m n z :
  Filled m n → zm_open m = Some z → written m z = zm_zone_blocks m → n mod zm_zone_blocks m = 0.
Proof.
  intros Hfl Ho Hwz. pose proof (fl_ok m n Hfl) as Hm. destruct (mo_zb m Hm) as [_ Hzb].
  pose proof (open_in_range m z Hm Ho) as Hr. rewrite (fl_written m n Hfl z Hr) in Hwz.
  apply (fl_open m n Hfl) in Ho as [Hn <-].
  set (q := (n - 1) / zm_zone_blocks m) in *.
  pose proof (Z.div_mod (n - 1) (zm_zone_blocks m) ltac:(lia)) as Hd. fold q in Hd.
  pose proof (Z.mod_pos_bound (n - 1) (zm_zone_blocks m) Hzb).
  assert (Hx : n = (q + 1) * zm_zone_blocks m) by nia. clearbody q. rewrite Hx. apply Z.mod_mul. lia.
Qed.

(** A device refusing an append for any other reason than room is an error of
    the write, so a write that succeeded went where the order says. *)
Lemma filled_append m n from at_ m' :
  Filled m n → append_somewhere from m = (Ok at_, m') → Grown m m' n at_.
Proof using Hfull.
  intros Hfl. pose proof (fl_ok m n Hfl) as Hm. unfold append_somewhere. unfold sm_bind at 1, sm_get at 1.
  destruct (zm_open m) as [zo|] eqn:Ho.
  - unfold sm_bind at 1, sm_ret, sm_get. unfold sm_bind at 1. rewrite Ho.
    pose proof (open_in_range m zo Hm Ho) as Hr. pose proof (mo_from m Hm).
    destruct (on_device (dev_append zo from) m) as [[a|e] m1] eqn:E1.
    + intros [= -> <-]. eapply ready_append; [|done]. apply filled_ready; [done|done|].
      destruct (append_exact m zo from _ m1 Hm ltac:(lia) E1) as (_ & _ & Hlt & _).
      destruct (filled_last_full m n zo Hfl Ho); [lia|done].
    + destruct e as [code|]; [|done]. destruct (Z.eqb_spec code refusal_FULL) as [->|]; [|done].
      destruct (append_exact m zo from _ m1 Hm ltac:(lia) E1) as (Hsv & Hor).
      assert (Hwz : written m zo = zm_zone_blocks m).
      { destruct (Hor eq_refl) as [Hse|Hge]; [by apply (fl_sealed m n Hfl)|].
        pose proof (law_written _ zo (mo_dev m Hm)). destruct (mo_zb m Hm). lia. }
      assert (Em1 : m1 = with_device (zm_device m1) m).
      { unfold on_device in E1. destruct (dev_append zo from (zm_device m)). by injection E1 as _ <-. }
      assert (S1 : settled m (Ok tt : res fault unit) m1) by (rewrite Em1; by apply same_view_settled).
      destruct Hsv as (_ & (_ & Hc & _) & _ & Hw1 & Hs1).
      unfold sm_bind. destruct (ZoneMap_open_zone m1) as [[z|e] m2] eqn:E2; [|done]. intros E3.
      assert (R : Ready m2 n z).
      { assert (Ez : zm_zone_blocks m1 = zm_zone_blocks m) by (by rewrite Em1).
        assert (Ef : zm_data_from m1 = zm_data_from m) by (by rewrite Em1).
        assert (Eo : zm_open m1 = zm_open m) by (by rewrite Em1).
        assert (Es : ∀ z, state_of m1 z = state_of m z) by (intros; by rewrite Em1).
        eapply (filled_open m1); [apply S1|apply Hfl| | | | | |exact E2]; rewrite ?Ez, ?Ef, ?Eo.
        - intros z'. rewrite Hc, Hw1. apply (fl_written m n Hfl).
        - intros z'. rewrite Hc, Hw1, Hs1. apply (fl_sealed m n Hfl).
        - intros z'. rewrite Hc, Es. apply (fl_free m n Hfl).
        - by eapply filled_full_mod.
        - intros z'. rewrite Ho. intros [= <-]. rewrite Hw1. done. }
      destruct (open_zone_settled m1 _ m2 (proj1 S1) E2) as (S2 & _).
      pose proof (settled_trans _ _ _ _ _ S1 S2) as (_ & Q & _). destruct (q_geometry _ _ Q) as (_ & Hc2 & _).
      destruct (ready_append m2 n z from at_ m' R E3) as [G1 G2 G3 G4 G5].
      unfold next_zone in *. rewrite (q_zb _ _ Q), (q_from _ _ Q), ?Hc2 in *. by split.
  - unfold sm_bind at 1. unfold sm_bind at 1. destruct (ZoneMap_open_zone m) as [[z|e] m2] eqn:E2; [|done].
    unfold sm_ret, sm_get, sm_bind at 1.
    assert (R : Ready m2 n z).
    { eapply (filled_open m); [done|apply Hfl|apply Hfl|apply Hfl|apply Hfl| | |exact E2].
      - destruct (mo_zb m Hm). pose proof (fl_n m n Hfl).
        destruct (decide (n = 0)) as [->|]; [by apply Z.mod_0_l; lia|].
        assert (zm_open m = Some (zm_data_from m + (n - 1) / zm_zone_blocks m)) by (apply (fl_open m n Hfl); split; [lia|done]).
        congruence.
      - intros z'. by rewrite Ho. }
    destruct (open_zone_settled m _ m2 Hm E2) as ((_ & Q & _) & _ & Ho2 & _). rewrite Ho2.
    destruct (q_geometry _ _ Q) as (_ & Hc2 & _).
    destruct (on_device (dev_append z from) m2) as [[a|e] m3] eqn:E3.
    + intros [= -> <-]. destruct (ready_append m2 n z from at_ m3 R E3) as [G1 G2 G3 G4 G5].
      unfold next_zone in *. rewrite (q_zb _ _ Q), (q_from _ _ Q), ?Hc2 in *. by split.
    + destruct e as [code|]; [|done]. destruct (Z.eqb_spec code refusal_FULL) as [->|]; [|done]. exfalso.
      pose proof (open_in_range m2 z (rd_ok _ _ _ R) Ho2) as Hr2. pose proof (mo_from m2 (rd_ok _ _ _ R)).
      destruct (append_exact m2 z from _ m3 (rd_ok _ _ _ R) ltac:(lia) E3) as (_ & Hor).
      destruct (mo_zb m2 (rd_ok _ _ _ R)) as [_ Hzb2].
      pose proof (rd_written _ _ _ R z Hr2) as Hw2.
      pose proof (next_zone_range m2 n z (rd_ok _ _ _ R) (rd_n _ _ _ R) (rd_zone _ _ _ R)).
      assert (written m2 z = zm_zone_blocks m2); [|lia].
      destruct (Hor eq_refl); [by apply (rd_sealed _ _ _ R)|lia].
Qed.

Lemma filled_write m n from m' :
  Filled m n → ZoneMap_write (n + 1) from m = (Ok tt, m') →
  Filled m' (n + 1) ∧ zm_data_from m' = zm_data_from m.
Proof using Hfull.
  intros Hfl E. pose proof (fl_ok m n Hfl) as Hm. pose proof (fl_n m n Hfl) as Hn.
  destruct (write_spec m (n + 1) from _ m' Hm E) as (_ & Hm' & _).
  revert E. unfold ZoneMap_write. rewrite (fl_physical m n Hfl).
  destruct (Z.eqb_spec (n + 1) 0); [lia|]. destruct (Z.leb_spec (n + 1) n); [lia|]. rewrite andb_false_r.
  unfold sm_bind, sm_put. destruct (append_somewhere from m) as [[at_|e] m1] eqn:E1; [|done]. intros [= <-].
  destruct (filled_append m n from at_ m1 Hfl E1) as [Gat Gop Gwr Gse Gfr].
  destruct (append_somewhere_settled m from _ m1 Hm E1) as ((_ & Q & _) & _).
  destruct (q_geometry _ _ Q) as (_ & Hc & _). destruct (mo_zb m Hm) as [_ Hzb].
  split; [|apply (q_from _ _ Q)].
  split; cbn; rewrite ?(q_zb _ _ Q), ?(q_from _ _ Q), ?Hc in *; try done; [lia| |].
  - intros l. destruct (Z.eqb_spec l 0) as [->|].
    + rewrite lookup_insert_ne by lia. by rewrite (q_physical _ _ Q), (fl_physical m n Hfl).
    + destruct (decide (l = n + 1)) as [->|].
      * rewrite lookup_insert_eq. destruct (Z.leb_spec 1 (n + 1)), (Z.leb_spec (n + 1) (n + 1)); try lia.
        cbn [andb]. f_equal. lia.
      * rewrite lookup_insert_ne by done. rewrite (q_physical _ _ Q), (fl_physical m n Hfl).
        destruct (Z.eqb_spec l 0); [done|].
        destruct (Z.leb_spec 1 l), (Z.leb_spec l n), (Z.leb_spec l (n + 1)); done || lia.
  - intros z. rewrite Gop. unfold next_zone. replace (n + 1 - 1) with n by lia. split; [intros [= <-]; split; [lia|done]|].
    by intros [_ <-].
Qed.

(** ** The walk of a mount *)

(** After [k] zones and [c] blocks, over the device of the map [m]. *)
Record Walked m (k c : Z) mi : Prop := {
  wk_view : same_view (zm_device m) (zm_device mi);
  wk_zb : zm_zone_blocks mi = zm_zone_blocks m;
  wk_from : zm_data_from mi = zm_data_from m;
  wk_physical : ∀ l, zm_physical mi !! l =
    if l =? 0 then Some 0
    else if (1 <=? l) && (l <=? c) then Some (zm_data_from m * zm_zone_blocks m + (l - 1)) else None;
  wk_inverse : inverse (zm_physical mi) (zm_logical mi);
  wk_zones : ∀ z, zm_zones mi !! z =
    if decide (zm_data_from m ≤ z < zone_count (zm_device m))
    then Some (zone_fresh z (if (z <? zm_data_from m + k) && (0 <? written m z) then StSealed else StFree))
    else None;
  wk_rest : zm_open mi = None ∧ zm_copies mi = ∅;
}.

Lemma same_view_trans d1 d2 d3 : same_view d1 d2 → same_view d2 d3 → same_view d1 d3.
Proof.
  intros (_ & G1 & V1 & W1 & S1) (O2 & G2 & V2 & W2 & S2).
  split; [done|]. split; [by eapply same_geometry_trans|]. split_and!; intros; congruence.
Qed.

Lemma walked_blocks m k c mi n at_ logical mi' :
  Map_ok m → 0 ≤ c → Walked m k c mi → logical = c + 1 →
  (n ≠ 0%nat → at_ = zm_data_from m * zm_zone_blocks m + c) →
  ∀ lg, remount_blocks n at_ logical mi = (lg, mi') →
  Walked m k (c + Z.of_nat n) mi' ∧ lg = c + Z.of_nat n + 1.
Proof.
  intros Hm. pose proof (mo_from m Hm). destruct (mo_zb m Hm) as [_ Hzb].
  revert c mi at_ logical. induction n as [|n IH]; intros c mi at_ logical Hc0 Hw -> Hat lg; cbn [remount_blocks].
  { intros [= <- <-]. rewrite !Z.add_0_r. done. }
  specialize (Hat ltac:(done)). set (m1 := with_maps _ _ _). intros E.
  destruct (IH (c + 1) m1 (at_ + 1) (c + 1 + 1) ltac:(lia)) with (lg := lg) as [Hw' Hlg]; [|done|lia|exact E|].
  - destruct Hw as [V Zb Fr P I Zs R]. split; cbn; try done.
    + intros l. destruct (decide (l = c + 1)) as [->|].
      * rewrite lookup_insert_eq. destruct (Z.eqb_spec (c + 1) 0); [lia|].
        destruct (Z.leb_spec 1 (c + 1)), (Z.leb_spec (c + 1) (c + 1)); try lia. cbn [andb]. f_equal. lia.
      * rewrite lookup_insert_ne, P by done. destruct (Z.eqb_spec l 0); [done|].
        destruct (Z.leb_spec 1 l), (Z.leb_spec l c), (Z.leb_spec l (c + 1)); done || lia.
    + intros l b. destruct (decide (l = c + 1)) as [->|Hl], (decide (b = at_)) as [->|Hb];
        rewrite ?lookup_insert_eq, ?lookup_insert_ne by done; [done| | |apply I].
      * split; [congruence|]. intros L. apply I in L. rewrite P in L. exfalso. revert L.
        destruct (Z.eqb_spec (c + 1) 0); [lia|]. destruct (Z.leb_spec (c + 1) c); [lia|]. by rewrite andb_false_r.
      * split; [|congruence]. rewrite P. destruct (Z.eqb_spec l 0); [intros [= <-]; nia|].
        destruct (Z.leb_spec 1 l), (Z.leb_spec l c); cbn [andb]; try done. intros [= ?]. lia.
  - rewrite Hlg. replace (c + 1 + Z.of_nat n) with (c + Z.of_nat (S n)) in * by lia. done.
Qed.

Lemma walked_zones m n todo k c mi r mi' :
  Filled m n → 0 ≤ k → c = Z.min n (k * zm_zone_blocks m) →
  zm_data_from m + k + Z.of_nat todo = zone_count (zm_device m) → Walked m k c mi →
  remount_zones todo (zm_data_from m + k) (c + 1) mi = (r, mi') →
  (∃ e, r = Err (Refused e) ∧ hardware (D := D) e) ∨ (r = Ok tt ∧ Walked m (k + Z.of_nat todo) n mi').
Proof.
  intros Hfl. pose proof (fl_ok m n Hfl) as Hm. destruct (mo_zb m Hm) as [Hzb Hzb0]. pose proof (mo_from m Hm) as Hfr.
  revert k c mi. induction todo as [|todo IH]; intros k c mi Hk Hc Htodo Hw; cbn [remount_zones].
  { intros [= <- <-]. right. split; [done|]. rewrite Z.add_0_r.
    enough (n ≤ k * zm_zone_blocks m) by (by replace n with c by lia).
    destruct (decide (n = 0)); [lia|]. pose proof (fl_n m n Hfl).
    assert (Hp : zm_physical m !! n = Some (zm_data_from m * zm_zone_blocks m + (n - 1))).
    { rewrite (fl_physical m n Hfl). destruct (Z.eqb_spec n 0); [done|].
      destruct (Z.leb_spec 1 n), (Z.leb_spec n n); done || lia. }
    destruct (mo_home m Hm _ _ Hp) as [?|(z & i & E & Hi & Hz & _)]; [nia|]. nia. }
  unfold sm_bind, on_device. destruct (dev_report (zm_data_from m + k) (zm_device mi)) as [r1 d1] eqn:E1.
  destruct (wk_view _ _ _ _ Hw) as (Hok & (_ & Hgc & Hgz & _) & _ & Hvw & Hvs).
  assert (Hz0 : 0 ≤ zm_data_from m + k) by lia.
  destruct (law_report _ _ _ _ Hok Hz0 E1) as [Hsv [(e & -> & He)|Hrep]].
  { intros [= <- <-]. left. eauto. }
  destruct (Z.leb_spec (zone_count (zm_device mi)) (zm_data_from m + k)); [lia|].
  destruct Hrep as (rep & -> & Hst & Hptr & _). rewrite Hgz, <- Hzb, Hvs, Hvw in *.
  set (z := zm_data_from m + k) in *.
  assert (Hz : zm_data_from m ≤ z < zone_count (zm_device m)) by lia.
  assert (Hptr' : rep_write_pointer rep = z * zm_zone_blocks m + written m z).
  { rewrite Hptr. destruct (sealed m z) eqn:Hse; [|done]. by rewrite (fl_sealed m n Hfl z Hz Hse). }
  pose proof (fl_written m n Hfl z Hz) as Hwz. replace (z - zm_data_from m) with k in Hwz by lia.
  assert (Hw1 : Walked m k c (with_device d1 mi)).
  { destruct Hw as [V Zb Fr P I Zs R]. split; try done. by eapply same_view_trans. }
  rewrite Hst, Hptr'. replace (z * zm_zone_blocks m + written m z - z * zm_zone_blocks m) with (written m z) by lia.
  assert (Hn0 : 0 ≤ c) by (pose proof (fl_n m n Hfl); nia).
  destruct (remount_blocks (Z.to_nat (written m z)) (z * zm_zone_blocks m) (c + 1) (with_device d1 mi)) as [lg m2] eqn:E2.
  destruct (walked_blocks m k c (with_device d1 mi) (Z.to_nat (written m z)) (z * zm_zone_blocks m) (c + 1) m2) with (lg := lg)
    as [Hw2 ->]; [done|done|done|done| |done|].
  { intros Hne. nia. }
  replace (c + Z.of_nat (Z.to_nat (written m z)) + 1) with (Z.min n ((k + 1) * zm_zone_blocks m) + 1) by nia.
  replace (z + 1) with (zm_data_from m + (k + 1)) by lia. intros E.
  replace (k + Z.of_nat (S todo)) with (k + 1 + Z.of_nat todo) by lia.
  eapply IH; [|done| | |exact E]; [lia|lia|].
  destruct Hw2 as [V Zb Fr P I Zs R].
  replace (c + Z.of_nat (Z.to_nat (written m z))) with (Z.min n ((k + 1) * zm_zone_blocks m)) in P by nia.
  assert (Hrest : ∀ z', zm_data_from m ≤ z' < zone_count (zm_device m) →
    (z' <? zm_data_from m + (k + 1)) && (0 <? written m z') =
    (if z' =? z then (0 <? written m z) else (z' <? zm_data_from m + k) && (0 <? written m z'))).
  { intros z' Hz'. destruct (Z.eqb_spec z' z) as [->|].
    - destruct (Z.ltb_spec z (zm_data_from m + (k + 1))); [done|lia].
    - f_equal. destruct (Z.ltb_spec z' (zm_data_from m + (k + 1))), (Z.ltb_spec z' (zm_data_from m + k)); done || lia. }
  destruct (Z.ltb_spec (z * zm_zone_blocks m) (z * zm_zone_blocks m + written m z)) as [Hpos|Hzero].
  - split; cbn; try done. intros z'. destruct (decide (z' = z)) as [->|Hne].
    + rewrite lookup_insert_eq, decide_True, Hrest, Z.eqb_refl by done.
      by destruct (Z.ltb_spec 0 (written m z)); [|lia].
    + rewrite lookup_insert_ne, Zs by done. destruct (decide _) as [Hin|]; [|done].
      rewrite Hrest by done. by destruct (Z.eqb_spec z' z).
  - split; cbn; try done. intros z'. rewrite Zs. destruct (decide _) as [Hin|]; [|done]. rewrite Hrest by done.
    destruct (Z.eqb_spec z' z) as [->|]; [|done].
    destruct (Z.ltb_spec z (zm_data_from m + k)); [lia|]. destruct (Z.ltb_spec 0 (written m z)); [lia|done].
Qed.

(** A walk to the end is a map in good order, holding what the first one held. *)
Lemma walked_ok m n k mi :
  Filled m n → zm_data_from m + k = zone_count (zm_device m) → Walked m k n mi →
  Map_ok mi ∧ ∀ l, contents mi l = contents m l.
Proof.
  intros Hfl Hk [(Hok & Hg & Hv & Hwr & Hs) Zb Fr P I Zs [Ho Hc]].
  pose proof (fl_ok m n Hfl) as Hm. destruct Hg as (Hbb & Hgc & Hgz & Hgk). destruct (mo_zb m Hm) as [Hzb Hzb0].
  assert (Hp : ∀ l, zm_physical mi !! l = zm_physical m !! l) by (intros; by rewrite P, (fl_physical m n Hfl)).
  split; [|intros l; unfold contents; rewrite Hp; destruct (zm_physical m !! l); [apply Hv|done]].
  assert (Hin : ∀ b, in_data m b → in_data mi b).
  { intros b (z & i & -> & Hi & Hz & Hkz & Hwz). exists z, i. by rewrite Zb, Fr, Hgc, Hgk, Hwr. }
  split.
  - done.
  - by rewrite Zb, Hgz.
  - rewrite Fr, Hgc. apply Hm.
  - exact I.
  - intros l b. rewrite Hp. intros Hb. destruct (mo_home m Hm l b Hb); auto.
  - intros z. rewrite Zs, Fr, Hgc. destruct (decide _); split; try done; by intros [? ?].
  - intros z Z. rewrite Zs. destruct (decide _); [by intros [= <-]|done].
  - intros z i Hf Hi. rewrite Zb in *. destruct (zm_logical mi !! _) as [l|] eqn:L; [|done]. exfalso.
    apply I in L. rewrite Hp in L. unfold state_of in Hf. rewrite Zs in Hf. destruct (decide _) as [Hz|]; [|done].
    cbn in Hf. destruct (Z.ltb_spec z (zm_data_from m + k)); [|lia].
    destruct (Z.ltb_spec 0 (written m z)); [done|].
    destruct (mo_home m Hm l _ L) as [E|(z' & i' & E & Hi' & Hz' & _ & Hw')].
    + pose proof (mo_from m Hm). nia.
    + assert (z' = z) as -> by nia. assert (i' = i) by lia. lia.
  - intros z. by rewrite Ho.
  - intros l to. by rewrite Hc, lookup_empty.
  - intros l1 l2 to. by rewrite Hc, lookup_empty.
Qed.

(** Writing blocks one after another from [l]. *)
Fixpoint write_all (l : Z) (blocks : list (list Z)) : sm (ZoneMap D) fault unit :=
  match blocks with
  | [] => sm_ret tt
  | b :: blocks => do! _ <- ZoneMap_write l b; write_all (l + 1) blocks
  end.

Lemma write_all_filled blocks m n m' :
  Filled m n → write_all (n + 1) blocks m = (Ok tt, m') →
  Filled m' (n + Z.of_nat (length blocks)) ∧
  zm_data_from m' = zm_data_from m ∧
  (∀ l, l ≤ n → contents m' l = contents m l) ∧
  (∀ i b, blocks !! i = Some b → contents m' (n + 1 + Z.of_nat i) = Some b).
Proof using Hfull.
  revert m n. induction blocks as [|b blocks IH]; intros m n Hfl; cbn [write_all].
  { intros [= <-]. rewrite Z.add_0_r. split_and!; [done|done|done|]. intros i b. by rewrite lookup_nil. }
  unfold sm_bind. destruct (ZoneMap_write (n + 1) b m) as [[[]|e] m1] eqn:E1; [|done]. intros E.
  destruct (filled_write m n b m1 Hfl E1) as [Hfl1 Hfr1].
  destruct (IH m1 (n + 1) Hfl1 E) as (Hf & Hfr & Hold & Hnew).
  destruct (write_spec m (n + 1) b _ m1 (fl_ok m n Hfl) E1) as (_ & _ & _ & Hc).
  split_and!.
  - cbn [length]. by replace (n + Z.of_nat (S (length blocks))) with (n + 1 + Z.of_nat (length blocks)) by lia.
  - congruence.
  - intros l Hl. rewrite Hold, Hc by lia. by destruct (Z.eqb_spec l (n + 1)); [lia|].
  - intros [|i] b' Hi; cbn in Hi.
    + injection Hi as <-. rewrite Z.add_0_r, Hold, Hc by lia. by rewrite Z.eqb_refl.
    + replace (n + 1 + Z.of_nat (S i)) with (n + 1 + 1 + Z.of_nat i) by lia. by apply Hnew.
Qed.

Lemma filled_remount m n from :
  Filled m n → zm_data_from m = from →
  (∃ e, ZoneMap_remount (zm_device m) from = Err (Refused e) ∧ hardware (D := D) e) ∨
  ∃ m2, ZoneMap_remount (zm_device m) from = Ok m2 ∧ Map_ok m2 ∧ zm_open m2 = None ∧
    ∀ l, contents m2 l = contents m l.
Proof.
  intros Hfl <-. pose proof (fl_ok m n Hfl) as Hm. destruct (mo_zb m Hm) as [Hzb Hzb0].
  pose proof (mo_from m Hm) as Hfr. unfold ZoneMap_remount.
  destruct (ZoneMap_new (zm_device m) (zm_data_from m)) as [mi|e] eqn:Hnew.
  2:{ exfalso. revert Hnew. unfold ZoneMap_new. destruct (Z.eqb_spec (zm_data_from m) 0); [lia|].
      destruct (Z.leb_spec (zone_count (zm_device m)) (zm_data_from m)); [lia|]. cbn [orb].
      destruct (Z.eqb_spec (zone_blocks (zm_device m)) 0); [lia|done]. }
  rsimpl. destruct (remount_zones _ (zm_data_from m) 1 mi) as [r m2] eqn:E.
  assert (Hzn : zm_zones mi = fresh_zones (zm_data_from m) (zone_count (zm_device m)) ∧
    zm_zone_blocks mi = zone_blocks (zm_device m) ∧ zm_logical mi = {[0 := 0]}).
  { revert Hnew. unfold ZoneMap_new. destruct (_ || _); [done|]. destruct (_ =? _); [done|]. by intros [= <-]. }
  destruct Hzn as (Hzn & Hzbi & Hlg).
  destruct (new_ok (zm_device m) (zm_data_from m) mi (mo_dev m Hm) ltac:(lia) Hnew) as (Hmi & Ed & Ep & Ec & Ef & Eo & _).
  destruct (walked_zones m n (Z.to_nat (zone_count (zm_device m) - zm_data_from m)) 0 0 mi r m2)
    as [(e & -> & He)|[-> Hw]]; [done|lia|pose proof (fl_n m n Hfl); lia|lia| |by rewrite Z.add_0_r|left; eauto|].
  - split; [rewrite Ed; split; [apply Hm|split; [apply same_geometry_refl|done]]|lia|done| |exact (mo_inverse mi Hmi)| |done].
    + intros l. rewrite Ep. destruct (Z.eqb_spec l 0) as [->|]; [apply lookup_singleton_eq|].
      rewrite lookup_singleton_ne by done. destruct (Z.leb_spec 1 l), (Z.leb_spec l 0); done || lia.
    + intros z. rewrite Hzn, fresh_zones_lookup. destruct (decide _); [|done].
      by destruct (Z.ltb_spec z (zm_data_from m + 0)); [lia|].
  - right. exists m2. eapply walked_ok in Hw as Hok; [|done|lia]. destruct Hok as [Hok Hc].
    split_and!; [done|done|apply Hw|done].
Qed.
End mount.

(** A mount recovers what was written: over a fresh device, after blocks are
    written in ascending order, a map rebuilt from nothing but the device's
    write pointers holds every block's contents, with no zone open, no free
    zone holding anything and every other logical block as it was; only the
    hardware's own refusal of a report stops it. *)
Theorem remount_recovers {D} `{ZonedLaws D} (d : D) from m0 blocks m :
  ¬ hardware (D := D) refusal_FULL → dev_ok d → 0 ≤ from →
  (∀ z, view_written d z = 0) → (∀ z, view_sealed d z = false) →
  ZoneMap_new d from = Ok m0 → write_all 1 blocks m0 = (Ok tt, m) →
  (∃ e, ZoneMap_remount (zm_device m) from = Err (Refused e) ∧ hardware (D := D) e) ∨
  ∃ m2, ZoneMap_remount (zm_device m) from = Ok m2 ∧
    (∀ i b, blocks !! i = Some b → contents m2 (1 + Z.of_nat i) = Some b) ∧
    (∀ l, contents m2 l = contents m l) ∧
    zm_open m2 = None ∧ ∀ z, state_of m2 z = Some StFree → ZoneMap_holds m2 z = [].
Proof.
  intros Hfull Hd Hf Hw Hs Hnew E.
  pose proof (new_filled d from m0 Hd Hf Hnew Hw Hs) as Hfl.
  destruct (write_all_filled Hfull blocks m0 0 m Hfl E) as (Hfl' & Hfrom & _ & Hblocks).
  destruct (new_ok d from m0 Hd Hf Hnew) as (_ & _ & _ & _ & Hfrom0 & _). rewrite Hfrom0 in Hfrom.
  destruct (filled_remount m _ from Hfl' Hfrom) as [?|(m2 & E2 & Hm2 & Ho & Hc)]; [by left|right].
  exists m2. split_and!; [done| |done|done|].
  - intros i b Hi. rewrite Hc. by apply Hblocks.
  - intros z Hz. apply holds_empty. intros i Hi. by apply (mo_free m2 Hm2).
Qed.

Definition example_blocks : list (list Z) := [[1; 1]; [2; 2]; [3; 3]].

Lemma remount_recovers_witness :
  ∃ d m0 m m2, example_device = Ok d ∧ ZoneMap_new d 3 = Ok m0 ∧ write_all 1 example_blocks m0 = (Ok tt, m) ∧
    ZoneMap_remount (zm_device m) 3 = Ok m2 ∧ contents m2 3 = Some [3; 3].
Proof.
  destruct example_device as [d|] eqn:Ed; [|by vm_compute in Ed].
  destruct (ZonedMemory_new_ok 2 2 6 d) as (Hd & Hw & Hs); [lia|lia|cbv; split; congruence|done|].
  unfold example_device in Ed.
  destruct (ZoneMap_new d 3) as [m0|] eqn:Em; [|injection Ed as <-; by vm_compute in Em].
  assert (E : (write_all 1 example_blocks m0).1 = Ok tt).
  { injection Ed as <-. vm_compute in Em. injection Em as <-. vm_compute. reflexivity. }
  destruct (write_all 1 example_blocks m0) as [r m] eqn:Ew. cbn in E. subst r.
  destruct (remount_recovers d 3 m0 example_blocks m) as [(e & _ & [])|(m2 & E2 & Hb & _)];
    [by intros []|exact Hd|lia|exact Hw|exact Hs|exact Em|exact Ew|].
  exists d, m0, m, m2. split_and!; [done|done|done|exact E2|]. exact (Hb 2%nat [3; 3] eq_refl).
Defined.
