(* ===== verification/Deadline.v ===== *)
(** * Inherited urgency: [abi/src/deadline.rs]

    What a request is served as when it crosses a ring, and what a chain of
    such crossings can and cannot do to it. *)

From S2P Require Import Prelude Abi Control.
Import error cap.

Definition class_HARD : Z := 0.
Definition class_SOFT : Z := 1.
Definition class_BATCH : Z := 2.
Definition class_IDLE : Z := 3.
Definition admission_NOT_HELD : Z := 4.

Definition MAX_DEPTH : Z := 4.
Definition BEYOND_DEPTH : Z := class_BATCH.
Definition CLASS_MASK : Z := 255.
Definition DEPTH_SHIFT : Z := 8.

Definition class_of (field : Z) : Z := Z.land field CLASS_MASK.
(** [(field >> DEPTH_SHIFT) as u8] *)
Definition depth_of (field : Z) : Z := (Z.shiftr field DEPTH_SHIFT) mod 2 ^ 8.
(** The shift is of a [u16], which drops what leaves it. *)
Definition class_pack (class depth : Z) : Z :=
  Z.lor ((Z.shiftl depth DEPTH_SHIFT) mod 2 ^ 16) (Z.land class CLASS_MASK).

Definition is_class (ordinal : Z) : bool :=
  (ordinal =? class_HARD) || (ordinal =? class_SOFT) || (ordinal =? class_BATCH) || (ordinal =? class_IDLE).

(** [Admitted::new], which is the only way to make one. *)
Definition Admitted_new (ordinal : Z) : option Z := if is_class ordinal then Some ordinal else None.

Record Caller : Type := mkCaller { caller_class : Z; caller_deadline : Z; caller_admitted : Z }.
Record Callee : Type := mkCallee { callee_admitted : Z; callee_arrival : Z; callee_floor : Z }.
Record Inherited : Type := mkInherited {
  inh_class : Z; inh_deadline : Z; inh_depth : Z; inh_shortfall : Z;
}.

Definition class_field (i : Inherited) : Z := class_pack (inh_class i) (inh_depth i).

Definition rank (i : Inherited) : Z * Z :=
  (inh_class i, if inh_deadline i =? NO_DEADLINE then u64_max else inh_deadline i).

Definition fell_short (i : Inherited) : bool := negb (inh_shortfall i =? 0).

Definition shortfall_CLASS : Z := Z.shiftl 1 0.
Definition shortfall_LATE : Z := Z.shiftl 1 1.
Definition shortfall_DEPTH : Z := Z.shiftl 1 2.

Definition inherit (caller : Caller) (callee : Callee) : res (Z * Z) Inherited :=
  let detail := caller_class caller in
  let claimed := class_of (caller_class caller) in
  let depth := depth_of (caller_class caller) in
  if negb (is_class claimed) || (MAX_DEPTH <? depth)
  then Err (error_pack ARGUMENT BAD_CLASS, detail)
  else if claimed <? caller_admitted caller
  then Err (error_pack ADMISSION admission_NOT_HELD, detail)
  else
    let class := Z.max claimed (callee_admitted callee) in
    let shortfall := if negb (class =? claimed) then Z.lor 0 shortfall_CLASS else 0 in
    let '(deadline, shortfall) :=
      if negb (caller_deadline caller =? NO_DEADLINE) then
        let earliest := saturating_add 64 (callee_arrival callee) (callee_floor callee) in
        if caller_deadline caller <? earliest
        then (earliest, Z.lor shortfall shortfall_LATE)
        else (caller_deadline caller, shortfall)
      else (caller_deadline caller, shortfall) in
    if depth <? MAX_DEPTH then Ok (mkInherited class deadline (depth + 1) shortfall)
    else
      let bounded := Z.max class BEYOND_DEPTH in
      let shortfall :=
        if negb (bounded =? class) || negb (deadline =? NO_DEADLINE)
        then Z.lor shortfall shortfall_DEPTH else shortfall in
      Ok (mkInherited bounded NO_DEADLINE MAX_DEPTH (Z.land shortfall (u8_not shortfall_LATE))).

(** ** Well-formed parties *)
Record Caller_ok (c : Caller) : Prop := {
  cr_class : is_uint 16 (caller_class c);
  cr_deadline : is_uint 64 (caller_deadline c);
  cr_admitted : is_class (caller_admitted c) = true;
}.
Record Callee_ok (c : Callee) : Prop := {
  ce_admitted : is_class (callee_admitted c) = true;
  ce_arrival : is_uint 64 (callee_arrival c);
  ce_floor : is_uint 64 (callee_floor c);
}.

Lemma is_class_range c : is_class c = true ↔ 0 ≤ c ≤ 3.
Proof.
  unfold is_class, class_HARD, class_SOFT, class_BATCH, class_IDLE.
  rewrite !orb_true_iff, !Z.eqb_eq. lia.
Qed.

(** The field is its two bytes. *)
Lemma class_field_bytes class depth :
  0 ≤ class ≤ 3 → 0 ≤ depth ≤ MAX_DEPTH →
  class_of (class_pack class depth) = class ∧ depth_of (class_pack class depth) = depth ∧
  is_uint 16 (class_pack class depth).
Proof.
  unfold MAX_DEPTH. intros Hc Hd. unfold class_pack, class_of, depth_of, DEPTH_SHIFT, CLASS_MASK.
  assert (Hl : Z.land class 255 = class) by (rewrite (land_ones_mod 8) by lia; apply Z.mod_small; lia).
  rewrite Hl. assert (Hs : Z.shiftl depth 8 mod 2 ^ 16 = Z.shiftl depth 8).
  { apply Z.mod_small. rewrite Z.shiftl_mul_pow2 by lia. lia. }
  rewrite Hs, lor_shiftl_split by lia. rewrite shiftr_split by lia.
  change 255 with (2 ^ 8 - 1). rewrite land_ones_mod by lia. split_and!.
  - rewrite Z.add_comm, Z.mod_add by lia. apply Z.mod_small. lia.
  - apply Z.mod_small. lia.
  - unfold is_uint. lia.
Qed.

Lemma class_of_range f : 0 ≤ class_of f.
Proof. unfold class_of. apply Z.land_nonneg. right. done. Qed.

Lemma depth_of_range f : 0 ≤ depth_of f.
Proof. unfold depth_of. apply Z.mod_pos_bound. lia. Qed.

(** What [inherit] answers, without its control flow. *)
Definition served_deadline (c : Caller) (e : Callee) : Z :=
  if caller_deadline c =? NO_DEADLINE then NO_DEADLINE
  else Z.max (caller_deadline c) (saturating_add 64 (callee_arrival e) (callee_floor e)).

Lemma inherit_ok c e i :
  0 ≤ caller_deadline c → inherit c e = Ok i →
  is_class (class_of (caller_class c)) = true ∧ depth_of (caller_class c) ≤ MAX_DEPTH ∧
  caller_admitted c ≤ class_of (caller_class c) ∧
  let class := Z.max (class_of (caller_class c)) (callee_admitted e) in
  if depth_of (caller_class c) <? MAX_DEPTH then
    inh_class i = class ∧ inh_deadline i = served_deadline c e ∧ inh_depth i = depth_of (caller_class c) + 1 ∧
    inh_shortfall i =
      (if class =? class_of (caller_class c) then 0 else shortfall_CLASS) +
      (if served_deadline c e =? caller_deadline c then 0 else shortfall_LATE)
  else
    inh_class i = Z.max class BEYOND_DEPTH ∧ inh_deadline i = NO_DEADLINE ∧ inh_depth i = MAX_DEPTH ∧
    inh_shortfall i =
      (if class =? class_of (caller_class c) then 0 else shortfall_CLASS) +
      (if (inh_class i =? class) && (caller_deadline c =? NO_DEADLINE) then 0 else shortfall_DEPTH).
Proof.
  intros Hd0. unfold inherit, served_deadline, NO_DEADLINE, BEYOND_DEPTH, class_BATCH.
  destruct (is_class (class_of (caller_class c))); [|done]. cbn [negb orb].
  destruct (Z.ltb_spec MAX_DEPTH (depth_of (caller_class c))); [done|].
  destruct (Z.ltb_spec (class_of (caller_class c)) (caller_admitted c)); [done|].
  set (class := Z.max (class_of (caller_class c)) (callee_admitted e)).
  set (earliest := saturating_add 64 (callee_arrival e) (callee_floor e)).
  intros E. split_and!; [done|done|done|].
  destruct (Z.eqb_spec class (class_of (caller_class c))) as [Hc|Hc];
    destruct (Z.eqb_spec (caller_deadline c) 0) as [Hd|Hd]; cbn [negb] in E;
    try destruct (Z.ltb_spec (caller_deadline c) earliest) as [Hl|Hl];
    destruct (Z.ltb_spec (depth_of (caller_class c)) MAX_DEPTH); injection E as <-;
    cbn [inh_class inh_deadline inh_depth inh_shortfall];
    rewrite ?Hd, ?Z.max_r, ?Z.max_l by lia; rewrite ?Z.eqb_refl;
    repeat match goal with
    | |- context [?a =? ?b] => destruct (Z.eqb_spec a b); try (exfalso; lia); cbn [negb orb andb]
    end; split_and!; try reflexivity; lia || congruence.
Qed.

(** What is refused, and with which word. *)
Lemma inherit_refused c e :
  inherit c e =
    if negb (is_class (class_of (caller_class c))) || (MAX_DEPTH <? depth_of (caller_class c))
    then Err (error_pack ARGUMENT BAD_CLASS, caller_class c)
    else if class_of (caller_class c) <? caller_admitted c
    then Err (error_pack ADMISSION admission_NOT_HELD, caller_class c)
    else inherit c e.
Proof.
  unfold inherit. destruct (negb _ || _); [done|]. by destruct (_ <? _).
Qed.

Lemma inherit_total c e :
  is_class (class_of (caller_class c)) = true → depth_of (caller_class c) ≤ MAX_DEPTH →
  caller_admitted c ≤ class_of (caller_class c) → ∃ i, inherit c e = Ok i.
Proof.
  intros Hc Hd Ha. unfold inherit. rewrite Hc. cbn [negb orb].
  destruct (Z.ltb_spec MAX_DEPTH (depth_of (caller_class c))); [lia|].
  destruct (Z.ltb_spec (class_of (caller_class c)) (caller_admitted c)); [lia|].
  destruct (if negb _ then _ else _). destruct (_ <? _); eauto.
Qed.

Lemma served_deadline_range c e :
  Caller_ok c → Callee_ok e → is_uint 64 (served_deadline c e) ∧
  (served_deadline c e = NO_DEADLINE ↔ caller_deadline c = NO_DEADLINE).
Proof.
  intros [_ Hd _] [_ Ha Hf]. unfold served_deadline, saturating_add, NO_DEADLINE, is_uint in *.
  destruct (Z.eqb_spec (caller_deadline c) 0); [lia|]. split; lia.
Qed.

Lemma served_deadline_ge c e : caller_deadline c ≠ NO_DEADLINE → caller_deadline c ≤ served_deadline c e.
Proof. unfold served_deadline. destruct (Z.eqb_spec (caller_deadline c) NO_DEADLINE); [done|lia]. Qed.

(** What crosses a ring is well formed. *)
Lemma inherit_range c e i :
  Caller_ok c → Callee_ok e → inherit c e = Ok i →
  0 ≤ inh_class i ≤ 3 ∧ 0 ≤ inh_depth i ≤ MAX_DEPTH ∧ is_uint 64 (inh_deadline i) ∧
  callee_admitted e ≤ inh_class i ∧ class_of (caller_class c) ≤ inh_class i.
Proof.
  intros Hc He E. destruct (served_deadline_range c e Hc He) as [Hs _].
  destruct (inherit_ok c e i (proj1 (cr_deadline c Hc)) E) as (Hcl & Hdp & Had & Hi).
  pose proof (proj1 (is_class_range _) Hcl). pose proof (proj1 (is_class_range _) (ce_admitted e He)).
  pose proof (depth_of_range (caller_class c)). unfold BEYOND_DEPTH, class_BATCH, MAX_DEPTH, NO_DEADLINE in *.
  destruct (Z.ltb_spec (depth_of (caller_class c)) 4); destruct Hi as (-> & -> & -> & _);
    split_and!; try lia; try done; unfold is_uint; lia.
Qed.

(** ** Chains of rings *)

(** An honest forwarder writes what it inherited into the entry it sends on,
    and its own admitted class is the one its callers were held to. *)
Definition forward (i : Inherited) (e : Callee) : Caller :=
  mkCaller (class_field i) (inh_deadline i) (callee_admitted e).

Lemma forward_fields i e :
  0 ≤ inh_class i ≤ 3 → 0 ≤ inh_depth i ≤ MAX_DEPTH →
  class_of (caller_class (forward i e)) = inh_class i ∧ depth_of (caller_class (forward i e)) = inh_depth i.
Proof. intros Hc Hd. destruct (class_field_bytes _ _ Hc Hd) as (? & ? & _). done. Qed.

(** The request served at each of a chain of services in turn. *)
Fixpoint chain (c : Caller) (services : list Callee) : res (Z * Z) (list Inherited) :=
  match services with
  | [] => Ok []
  | e :: services =>
      let? i := inherit c e in
      let? rest := chain (forward i e) services in
      Ok (i :: rest)
  end.

(** Less urgent or as urgent: by class, then by deadline, none being last. *)
Definition no_more_urgent (a b : Z * Z) : Prop := a.1 < b.1 ∨ a.1 = b.1 ∧ a.2 ≤ b.2.

Definition caller_rank (c : Caller) : Z * Z :=
  (class_of (caller_class c), if caller_deadline c =? NO_DEADLINE then u64_max else caller_deadline c).

Lemma no_more_urgent_trans a b c : no_more_urgent a b → no_more_urgent b c → no_more_urgent a c.
Proof. unfold no_more_urgent. lia. Qed.

Lemma inherit_rank c e i :
  Caller_ok c → Callee_ok e → inherit c e = Ok i → no_more_urgent (caller_rank c) (rank i).
Proof.
  intros Hc He E. destruct (served_deadline_range c e Hc He) as [Hs Hz].
  destruct (inherit_ok c e i (proj1 (cr_deadline c Hc)) E) as (_ & _ & _ & Hi).
  unfold no_more_urgent, caller_rank, rank; cbn [fst snd].
  destruct Hc as [_ Hcd _]. unfold is_uint, u64_max, NO_DEADLINE, BEYOND_DEPTH, class_BATCH in *.
  destruct (Z.ltb_spec (depth_of (caller_class c)) MAX_DEPTH); destruct Hi as (-> & -> & _ & _).
  - destruct (Z.eqb_spec (caller_deadline c) 0) as [E0|E0].
    + rewrite (proj2 Hz E0). cbn. lia.
    + destruct (Z.eqb_spec (served_deadline c e) 0) as [E1|E1]; [apply Hz in E1; done|].
      pose proof (served_deadline_ge c e E0). lia.
  - rewrite Z.eqb_refl. destruct (Z.eqb_spec (caller_deadline c) 0); lia.
Qed.

Lemma forward_ok i e : 0 ≤ inh_class i ≤ 3 → 0 ≤ inh_depth i ≤ MAX_DEPTH → is_uint 64 (inh_deadline i) →
  Callee_ok e → Caller_ok (forward i e).
Proof.
  intros Hc Hd Hu He. destruct (class_field_bytes _ _ Hc Hd) as (_ & _ & H). split; [done|done|apply He].
Qed.

Lemma forward_rank i e :
  0 ≤ inh_class i ≤ 3 → 0 ≤ inh_depth i ≤ MAX_DEPTH → caller_rank (forward i e) = rank i.
Proof. intros Hc Hd. unfold caller_rank, rank. by rewrite (proj1 (forward_fields i e Hc Hd)). Qed.

(** Along a chain: who is served, and how urgently. *)
Lemma chain_spec c services :
  Caller_ok c → Forall Callee_ok services →
  is_class (class_of (caller_class c)) = true → depth_of (caller_class c) ≤ MAX_DEPTH →
  caller_admitted c ≤ class_of (caller_class c) →
  ∃ served, chain c services = Ok served ∧ length served = length services ∧
    (∀ n i, served !! n = Some i →
       no_more_urgent (caller_rank c) (rank i) ∧ 0 ≤ inh_class i ≤ 3 ∧
       (∀ e, services !! n = Some e → callee_admitted e ≤ inh_class i) ∧
       inh_depth i = Z.min MAX_DEPTH (depth_of (caller_class c) + Z.of_nat n + 1) ∧
       (MAX_DEPTH ≤ depth_of (caller_class c) + Z.of_nat n →
          inh_deadline i = NO_DEADLINE ∧ BEYOND_DEPTH ≤ inh_class i)) ∧
    (∀ n i j, served !! n = Some i → served !! S n = Some j → no_more_urgent (rank i) (rank j)).
Proof.
  revert c. induction services as [|e services IH]; intros c Hc Hs Hcl Hd Ha.
  { exists []. by split_and!; [..|intros n i; rewrite lookup_nil|intros n i j; rewrite lookup_nil]. }
  apply list.Forall_cons in Hs as [He Hs]. destruct (inherit_total c e Hcl Hd Ha) as [i Ei].
  destruct (inherit_range c e i Hc He Ei) as (Hic & Hid & Hiu & Hia & Hib).
  destruct (inherit_ok c e i (proj1 (cr_deadline c Hc)) Ei) as (_ & _ & _ & Hi).
  pose proof (depth_of_range (caller_class c)) as Hd0.
  assert (Hdep : inh_depth i = Z.min MAX_DEPTH (depth_of (caller_class c) + 1)).
  { destruct (Z.ltb_spec (depth_of (caller_class c)) MAX_DEPTH); destruct Hi as (_ & _ & -> & _); lia. }
  assert (Hbey : MAX_DEPTH ≤ depth_of (caller_class c) → inh_deadline i = NO_DEADLINE ∧ BEYOND_DEPTH ≤ inh_class i).
  { intros Hm. destruct (Z.ltb_spec (depth_of (caller_class c)) MAX_DEPTH); [lia|]. destruct Hi as (-> & -> & _). lia. }
  pose proof (inherit_rank c e i Hc He Ei) as Hr.
  destruct (forward_fields i e Hic Hid) as [Hfc Hfd].
  destruct (IH (forward i e)) as (served & Es & Hl & Hall & Hmono).
  - by apply forward_ok.
  - done.
  - rewrite Hfc. by apply is_class_range.
  - rewrite Hfd. lia.
  - by rewrite Hfc.
  - exists (i :: served). cbn [chain]. rewrite Ei. rsimpl. rewrite Es. rsimpl.
    rewrite (forward_rank i e Hic Hid), Hfd in Hall.
    split_and!; [done|cbn; lia| |].
    + intros [|n] j Hj; cbn in Hj.
      * injection Hj as <-. rewrite Z.add_0_r. split_and!; try done; try lia. by intros e' [= <-].
      * destruct (Hall n j Hj) as (Hrj & Hcj & Haj & Hdj & Hbj). split_and!; try done; try lia.
        by eapply no_more_urgent_trans.
    + intros [|n] j j' Hj Hj'; cbn in Hj, Hj'; [|by eapply Hmono].
      injection Hj as <-. by apply (Hall 0%nat).
Qed.

(** What a request is served as when it crosses a ring, on every branch: a field
    naming no class or an impossible depth is refused as malformed, a class
    above what the caller was admitted for as not held, both naming the field;
    otherwise it is never served above what it claimed or what the callee is
    admitted for, never before its deadline or its arrival plus the floor, past
    the depth bound never above batch nor with a deadline, and it fell short
    exactly when it was not served as it asked. *)
Theorem inherit_answers c e :
  Caller_ok c → Callee_ok e →
  let claimed := class_of (caller_class c) in
  let depth := depth_of (caller_class c) in
  match inherit c e with
  | Err (w, detail) => detail = caller_class c ∧
      (w = error_pack ARGUMENT BAD_CLASS ∧ (is_class claimed = false ∨ MAX_DEPTH < depth) ∨
       w = error_pack ADMISSION admission_NOT_HELD ∧ is_class claimed = true ∧ claimed < caller_admitted c)
  | Ok i => is_class claimed = true ∧ depth ≤ MAX_DEPTH ∧ caller_admitted c ≤ claimed ∧
      claimed ≤ inh_class i ≤ 3 ∧ callee_admitted e ≤ inh_class i ∧ is_uint 64 (inh_deadline i) ∧
      inh_depth i = Z.min MAX_DEPTH (depth + 1) ∧
      (inh_deadline i ≠ NO_DEADLINE → caller_deadline c ≠ NO_DEADLINE ∧ caller_deadline c ≤ inh_deadline i ∧
         saturating_add 64 (callee_arrival e) (callee_floor e) ≤ inh_deadline i) ∧
      (depth = MAX_DEPTH → inh_deadline i = NO_DEADLINE ∧ BEYOND_DEPTH ≤ inh_class i) ∧
      (fell_short i = false ↔ inh_class i = claimed ∧ inh_deadline i = caller_deadline c)
  end.
Proof.
  intros Hc He claimed depth. destruct (inherit c e) as [i|[w detail]] eqn:E.
  - destruct (inherit_range c e i Hc He E) as (Hic & Hid & Hiu & Hia & Hib).
    destruct (inherit_ok c e i (proj1 (cr_deadline c Hc)) E) as (Hcl & Hd & Ha & Hi).
    fold claimed in Hcl, Ha, Hi, Hib. fold depth in Hd, Hi.
    assert (Hsd : served_deadline c e ≠ NO_DEADLINE → caller_deadline c ≠ NO_DEADLINE ∧
      caller_deadline c ≤ served_deadline c e ∧
      saturating_add 64 (callee_arrival e) (callee_floor e) ≤ served_deadline c e).
    { unfold served_deadline. destruct (Z.eqb_spec (caller_deadline c) NO_DEADLINE); [done|]. intros _.
      split; [done|]. lia. }
    split_and!; try done; try lia.
    + destruct (Z.ltb_spec depth MAX_DEPTH); destruct Hi as (_ & _ & -> & _); lia.
    + destruct (Z.ltb_spec depth MAX_DEPTH); destruct Hi as (_ & -> & _ & _); [exact Hsd|done].
    + intros Hm. destruct (Z.ltb_spec depth MAX_DEPTH); [lia|]. destruct Hi as (-> & -> & _). split; [done|lia].
    + unfold fell_short. rewrite negb_false_iff, Z.eqb_eq.
      change shortfall_CLASS with 1 in Hi. change shortfall_LATE with 2 in Hi. change shortfall_DEPTH with 4 in Hi.
      destruct (Z.ltb_spec depth MAX_DEPTH); destruct Hi as (-> & -> & _ & ->).
      * destruct (Z.eqb_spec (Z.max claimed (callee_admitted e)) claimed),
          (Z.eqb_spec (served_deadline c e) (caller_deadline c)); lia || (split; intros; lia || tauto).
      * destruct (Z.eqb_spec (Z.max claimed (callee_admitted e)) claimed),
          (Z.eqb_spec (Z.max (Z.max claimed (callee_admitted e)) BEYOND_DEPTH) (Z.max claimed (callee_admitted e))),
          (Z.eqb_spec (caller_deadline c) NO_DEADLINE); cbn [andb]; split; intros; try lia; split; lia.
  - rewrite inherit_refused in E. fold claimed depth in E.
    destruct (is_class claimed) eqn:Hcl; cbn [negb orb] in E.
    + destruct (Z.ltb_spec MAX_DEPTH depth); [injection E as <- <-; split; [done|left; auto]|].
      destruct (Z.ltb_spec claimed (caller_admitted c)); [injection E as <- <-; split; [done|right; auto]|].
      destruct (inherit_total c e Hcl ltac:(done) ltac:(done)) as [i Ei]. congruence.
    + injection E as <- <-. split; [done|left; auto].
Qed.

Definition example_caller : Caller := mkCaller 0 50 0.
Definition example_callee : Callee := mkCallee 1 100 10.

Lemma example_parties : Caller_ok example_caller ∧ Callee_ok example_callee.
Proof. split; split; cbn; done || (unfold is_uint; lia). Qed.

Lemma inherit_answers_witness : ∃ i, inherit example_caller example_callee = Ok i ∧
  inh_class i = 1 ∧ 110 ≤ inh_deadline i.
Proof.
  pose proof (inherit_answers example_caller example_callee (proj1 example_parties) (proj2 example_parties)) as H.
  destruct (inherit example_caller example_callee) as [i|[w detail]] eqn:E; [|vm_compute in E; discriminate].
  exists i. split; [reflexivity|]. destruct H as (_ & _ & _ & _ & _ & _ & _ & Hd & _).
  assert (Ei : i = mkInherited 1 110 1 3) by (vm_compute in E; injection E as <-; reflexivity).
  split; [rewrite Ei; reflexivity|]. apply Hd. rewrite Ei. discriminate.
Defined.

(** Urgency decays and an honest forwarder is never refused: a well-formed
    request is served by every service of a chain; each hop serves it no more
    urgently than the one before, none above its own admission; and after
    [MAX_DEPTH] rings it carries no deadline and no class above batch, whatever
    its origin asked. *)
Theorem urgency_decays c services :
  Caller_ok c → Forall Callee_ok services →
  is_class (class_of (caller_class c)) = true → depth_of (caller_class c) ≤ MAX_DEPTH →
  caller_admitted c ≤ class_of (caller_class c) →
  ∃ served, chain c services = Ok served ∧ length served = length services ∧
    ∀ n i, served !! n = Some i →
      no_more_urgent (caller_rank c) (rank i) ∧
      (∀ j, served !! S n = Some j → no_more_urgent (rank i) (rank j)) ∧
      (∀ e, services !! n = Some e → callee_admitted e ≤ inh_class i) ∧
      (MAX_DEPTH ≤ Z.of_nat n → inh_deadline i = NO_DEADLINE ∧ BEYOND_DEPTH ≤ inh_class i).
Proof.
  intros Hc Hs Hcl Hd Ha. destruct (chain_spec c services Hc Hs Hcl Hd Ha) as (served & E & Hl & Hall & Hm).
  exists served. split_and!; [done|done|]. intros n i Hi. destruct (Hall n i Hi) as (Hr & _ & Had & _ & Hb).
  split_and!; [done|by intros j; apply Hm|done|]. intros Hn. apply Hb. pose proof (depth_of_range (caller_class c)). lia.
Qed.

Lemma urgency_decays_witness : ∃ served i,
  chain example_caller (replicate 5 example_callee) = Ok served ∧ served !! 4%nat = Some i ∧
  inh_deadline i = NO_DEADLINE.
Proof.
  destruct (urgency_decays example_caller (replicate 5 example_callee)) as (served & E & Hl & H).
  - exact (proj1 example_parties).
  - apply list.Forall_replicate, example_parties.
  - reflexivity.
  - vm_compute. discriminate.
  - vm_compute. discriminate.
  - destruct (served !! 4%nat) as [i|] eqn:Ei; [|apply lookup_ge_None in Ei; rewrite Hl in Ei; cbn in Ei; lia].
    exists served, i. split_and!; [exact E|exact Ei|]. apply (H 4%nat i Ei). vm_compute. discriminate.
Defined.
