(* ===== verification/ZoneQueue.v ===== *)
(** * The driver's queue: [zone/src/queue.rs]

    The order entries are handed to the device, and how much collector work
    gets ahead of an urgent one: the third invariant of the collector. *)

From S2P Require Import Prelude Abi Control StoreRecords Deadline ZoneDevice.

Definition COLLECTOR_OPERATIONS_AHEAD_OF_HARD_READ : Z := 1.
Definition IN_FLIGHT : Z := 1.

Record QEntry : Type := mkQEntry { qe_class : Z; qe_deadline : Z; qe_seq : Z; qe_collector : bool }.

Definition QEntry_rank (e : QEntry) : Z * Z * Z :=
  let '(class, deadline) := rank (mkInherited (qe_class e) (qe_deadline e) 0 0) in
  (class, deadline, qe_seq e).

Definition QEntry_urgent (e : QEntry) : bool := qe_class e <? class_BATCH.

(** The derived order of a triple. *)
Definition rank_lt (a b : Z * Z * Z) : bool :=
  let '(a1, a2, a3) := a in
  let '(b1, b2, b3) := b in
  (a1 <? b1) || ((a1 =? b1) && ((a2 <? b2) || ((a2 =? b2) && (a3 <? b3)))).

Record Queue : Type := mkQueue {
  q_pending : list QEntry;
  q_in_flight : option QEntry;
  q_ahead : gmap Z Z;
  q_worst : Z;
  q_next : Z;
}.

Definition Queue_new : Queue := mkQueue [] None ∅ 0 0.
Definition Queue_ops_ahead_of_urgent_read (q : Queue) : Z := q_worst q.
Definition Queue_depth (q : Queue) : nat := length (q_pending q).

Definition Queue_submit (class deadline : Z) (collector : bool) : sm Queue fault Z := λ q,
  if q_next q =? u64_max then (Err Panicked, q)
  else
    let next := q_next q + 1 in
    let entry := mkQEntry class deadline next collector in
    let ahead :=
      if QEntry_urgent entry then
        let started_behind :=
          match q_in_flight q with Some held => if qe_collector held then 1 else 0 | None => 0 end in
        <[next := started_behind]> (q_ahead q)
      else q_ahead q in
    (Ok next, mkQueue (q_pending q ++ [entry]) (q_in_flight q) ahead (q_worst q) next).

Definition Queue_submit_collector : sm Queue fault Z := Queue_submit class_BATCH NO_DEADLINE true.
Definition Queue_submit_client (class deadline : Z) : sm Queue fault Z := Queue_submit class deadline false.

(** [min_by_key]: the first of the least. *)
Fixpoint min_by_rank (l : list QEntry) : option (nat * QEntry) :=
  match l with
  | [] => None
  | e :: l =>
      match min_by_rank l with
      | Some (i, m) => if rank_lt (QEntry_rank m) (QEntry_rank e) then Some (S i, m) else Some (0%nat, e)
      | None => Some (0%nat, e)
      end
  end.

Definition Queue_hand_over : sm Queue fault (option QEntry) := λ q,
  match q_in_flight q with
  | Some _ => (Err (Refused refusal_FULL), q)
  | None =>
      match min_by_rank (q_pending q) with
      | None => (Ok None, q)
      | Some (at_, entry) =>
          (* a u32 that never passes one: [qok_ahead] *)
          let ahead := if qe_collector entry then (λ count, count + 1) <$> q_ahead q else q_ahead q in
          (Ok (Some entry),
           mkQueue (delete at_ (q_pending q)) (Some entry) ahead (q_worst q) (q_next q))
      end
  end.

Definition Queue_complete : sm Queue fault QEntry := λ q,
  match q_in_flight q with
  | None => (Err (Refused refusal_ADDRESS), q)
  | Some entry =>
      let q := mkQueue (q_pending q) None (q_ahead q) (q_worst q) (q_next q) in
      if QEntry_urgent entry then
        match q_ahead q !! qe_seq entry with
        | Some count =>
            (Ok entry, mkQueue (q_pending q) None (delete (qe_seq entry) (q_ahead q)) (Z.max (q_worst q) count) (q_next q))
        | None => (Ok entry, q)
        end
      else (Ok entry, q)
  end.

Definition Queue_settle : sm Queue fault unit := λ q,
  match q_in_flight q with
  | Some _ => (do! _ <- Queue_complete; sm_ret tt) q
  | None => (Ok tt, q)
  end.

(** The loop of [collector_operation]; running out of fuel is [None]. *)
Fixpoint collector_loop (fuel : nat) (mine : Z) (q : Queue) : option (res fault unit * Queue) :=
  match fuel with
  | O => None
  | S fuel =>
      match Queue_hand_over q with
      | (Err e, q) => Some (Err e, q)
      | (Ok None, q) => Some (Err (Refused refusal_ADDRESS), q)
      | (Ok (Some handed), q) =>
          if qe_seq handed =? mine then Some (Ok tt, q)
          else match Queue_complete q with
               | (Err e, q) => Some (Err e, q)
               | (Ok _, q) => collector_loop fuel mine q
               end
      end
  end.

Definition Queue_collector_operation (q : Queue) : option (res fault unit * Queue) :=
  match Queue_settle q with
  | (Err e, q) => Some (Err e, q)
  | (Ok _, q) =>
      match Queue_submit_collector q with
      | (Err e, q) => Some (Err e, q)
      | (Ok mine, q) => collector_loop (S (length (q_pending q))) mine q
      end
  end.

(** [zone/src/invariants.rs] *)
Definition collection_never_starves_an_urgent_read (q : Queue) : bool :=
  Queue_ops_ahead_of_urgent_read q <=? COLLECTOR_OPERATIONS_AHEAD_OF_HARD_READ.

(** ** The order *)
Lemma rank_lt_trans a b c : rank_lt a b = true → rank_lt b c = true → rank_lt a c = true.
Proof. destruct a as [[a1 a2] a3], b as [[b1 b2] b3], c as [[c1 c2] c3]. unfold rank_lt. lia. Qed.

Lemma rank_lt_false_trans a b c : rank_lt b a = false → rank_lt c b = false → rank_lt c a = false.
Proof. destruct a as [[a1 a2] a3], b as [[b1 b2] b3], c as [[c1 c2] c3]. unfold rank_lt. lia. Qed.

Lemma rank_lt_irrefl a : rank_lt a a = false.
Proof. destruct a as [[a1 a2] a3]. unfold rank_lt. lia. Qed.

Lemma min_by_rank_spec l :
  match min_by_rank l with
  | None => l = []
  | Some (i, m) => l !! i = Some m ∧ ∀ e, e ∈ l → rank_lt (QEntry_rank e) (QEntry_rank m) = false
  end.
Proof.
  induction l as [|e l IH]; [done|]. cbn [min_by_rank]. destruct (min_by_rank l) as [[i m]|].
  - destruct IH as [Hi Hm]. destruct (rank_lt (QEntry_rank m) (QEntry_rank e)) eqn:R.
    + split; [done|]. intros e' [->|He]%elem_of_cons; [|by apply Hm].
      destruct (rank_lt (QEntry_rank e) (QEntry_rank m)) eqn:R'; [|done].
      pose proof (rank_lt_trans _ _ _ R R') as H. by rewrite rank_lt_irrefl in H.
    + split; [done|]. intros e' [->|He]%elem_of_cons; [apply rank_lt_irrefl|].
      eapply rank_lt_false_trans; [exact R|by apply Hm].
  - subst l. split; [done|]. intros e' ->%list_elem_of_singleton. apply rank_lt_irrefl.
Qed.

(** An urgent entry outranks any other. *)
Lemma urgent_first e e' :
  QEntry_urgent e = true → QEntry_urgent e' = false → rank_lt (QEntry_rank e) (QEntry_rank e') = true.
Proof.
  unfold QEntry_urgent, QEntry_rank, rank, rank_lt; cbn [inh_class fst snd]. lia.
Qed.

(** ** The invariant *)
Record Queue_ok (q : Queue) : Prop := {
  qok_next : 0 ≤ q_next q ≤ u64_max;
  qok_seq : ∀ e, e ∈ q_pending q ∨ q_in_flight q = Some e → qe_seq e ≤ q_next q;
  qok_nodup : NoDup (qe_seq <$> q_pending q);
  qok_batch : ∀ e, e ∈ q_pending q ∨ q_in_flight q = Some e → qe_collector e = true → QEntry_urgent e = false;
  (* what has been counted is at most the one operation already inside *)
  qok_ahead : ∀ s n, q_ahead q !! s = Some n → 0 ≤ n ≤ 1 ∧
    ∃ e, (e ∈ q_pending q ∨ q_in_flight q = Some e) ∧ QEntry_urgent e = true ∧ qe_seq e = s;
  qok_worst : 0 ≤ q_worst q ≤ 1;
  qok_apart : ∀ e, q_in_flight q = Some e → qe_seq e ∉ qe_seq <$> q_pending q;
}.

Lemma Queue_new_ok : Queue_ok Queue_new.
Proof.
  split; cbn; try done; try lia.
  - intros e [H|H]; [by apply elem_of_nil in H|done].
  - apply base.NoDup_nil_2.
  - intros e [H|H]; [by apply elem_of_nil in H|done].
Qed.

Lemma submit_ok class deadline collector q r q' :
  Queue_ok q → (collector = true → class_BATCH ≤ class) → Queue_submit class deadline collector q = (r, q') →
  Queue_ok q' ∧ (r = Err Panicked ∧ q' = q ∧ q_next q = u64_max ∨
    r = Ok (q_next q + 1) ∧ q_in_flight q' = q_in_flight q ∧
    q_pending q' = q_pending q ++ [mkQEntry class deadline (q_next q + 1) collector]).
Proof.
  intros [Hn Hs Hd Hb Ha Hw Hap] Hc. unfold Queue_submit.
  destruct (Z.eqb_spec (q_next q) u64_max) as [|Hmx]; [intros [= <- <-]; split; [by split|by left]|].
  set (entry := mkQEntry class deadline (q_next q + 1) collector). intros [= <- <-].
  split; [|right; by split_and!]. split; cbn [q_next q_pending q_in_flight q_ahead q_worst].
  - lia.
  - intros e [He|He]; [|specialize (Hs e (or_intror He)); lia].
    apply elem_of_app in He as [He| ->%list_elem_of_singleton]; [specialize (Hs e (or_introl He)); lia|cbn; lia].
  - rewrite fmap_app. apply list.NoDup_app. split_and!; [done| |apply list.NoDup_singleton].
    intros s (e & -> & He)%list_elem_of_fmap Hin%list_elem_of_singleton. cbn in Hin.
    specialize (Hs e (or_introl He)). lia.
  - intros e [He|He]; [|by apply Hb; right].
    apply elem_of_app in He as [He| ->%list_elem_of_singleton]; [by apply Hb; left|]. cbn. intros Hcol.
    unfold QEntry_urgent. cbn. specialize (Hc Hcol). lia.
  - intros s n Hsn. destruct (QEntry_urgent entry) eqn:Hu; [|].
    + destruct (decide (s = q_next q + 1)) as [->|Hne].
      * rewrite lookup_insert_eq in Hsn. injection Hsn as <-. split.
        { destruct (q_in_flight q) as [h|]; [destruct (qe_collector h)|]; lia. }
        exists entry. split_and!; [left; apply elem_of_app; right; by apply list_elem_of_singleton|done|done].
      * rewrite lookup_insert_ne in Hsn by done. destruct (Ha s n Hsn) as (? & e & He & ? & ?). split; [done|].
        exists e. split_and!; try done. destruct He; [left; apply elem_of_app; by left|by right].
    + destruct (Ha s n Hsn) as (? & e & He & ? & ?). split; [done|].
      exists e. split_and!; try done. destruct He; [left; apply elem_of_app; by left|by right].
  - done.
  - intros e He. rewrite fmap_app, elem_of_app. intros [Hin|Hin%list_elem_of_singleton]; [by apply (Hap e)|].
    cbn in Hin. specialize (Hs e (or_intror He)). lia.
Qed.

Lemma hand_over_spec q r q' :
  Queue_ok q → Queue_hand_over q = (r, q') →
  Queue_ok q' ∧
  match r with
  | Err e => e = Refused refusal_FULL ∧ is_Some (q_in_flight q) ∧ q' = q
  | Ok None => q_pending q = [] ∧ q' = q
  | Ok (Some e) => q_in_flight q = None ∧ q_in_flight q' = Some e ∧ q_next q' = q_next q ∧
      (∃ i, q_pending q !! i = Some e ∧ q_pending q' = delete i (q_pending q)) ∧
      (∀ e', e' ∈ q_pending q → rank_lt (QEntry_rank e') (QEntry_rank e) = false)
  end.
Proof.
  intros Hok. unfold Queue_hand_over.
  destruct (q_in_flight q) as [held|] eqn:Hf; [intros [= <- <-]; by split_and!; eauto|].
  pose proof (min_by_rank_spec (q_pending q)) as Hmin.
  destruct (min_by_rank (q_pending q)) as [[i e]|]; [|intros [= <- <-]; done].
  destruct Hmin as [Hi Hmin]. intros [= <- <-]. destruct Hok as [Hn Hs Hd Hb Ha Hw Hap].
  pose proof (delete_Permutation _ _ _ Hi) as Hp.
  assert (Hel : ∀ e', e' ∈ q_pending q ↔ e' = e ∨ e' ∈ delete i (q_pending q)).
  { intros e'. by rewrite Hp, elem_of_cons at 1. }
  rewrite Hp in Hd. cbn in Hd. apply list.NoDup_cons in Hd as [Hseq Hd].
  split; [|split_and!; eauto].
  split; cbn [q_next q_pending q_in_flight q_ahead q_worst].
  - done.
  - intros e' [He|[= <-]]; apply Hs; left; apply Hel; auto.
  - done.
  - intros e' [He|[= <-]]; apply Hb; left; apply Hel; auto.
  - intros s n Hsn.
    assert (Hsn' : ∃ n', q_ahead q !! s = Some n' ∧ (n = n' ∨ qe_collector e = true)).
    { destruct (qe_collector e); [|eauto]. rewrite lookup_fmap in Hsn.
      destruct (q_ahead q !! s); [|done]. eauto. }
    destruct Hsn' as (n' & Hsn' & Hn'). destruct (Ha s n' Hsn') as (Hr & e1 & [He1|He1] & Hu1 & Hs1); [|congruence].
    assert (Hcol : qe_collector e = false).
    { destruct (qe_collector e) eqn:Hc; [|done]. exfalso.
      assert (Hu : QEntry_urgent e = false) by (apply Hb; [left; apply Hel; by left|done]).
      pose proof (urgent_first e1 e Hu1 Hu) as Hlt. by rewrite (Hmin e1 He1) in Hlt. }
    rewrite Hcol in Hn'. destruct Hn' as [->|]; [|done]. split; [done|].
    exists e1. split_and!; try done. apply Hel in He1 as [->|He1]; [by right|by left].
  - done.
  - intros e' [= <-]. done.
Qed.

Lemma complete_spec q r q' :
  Queue_ok q → Queue_complete q = (r, q') →
  Queue_ok q' ∧
  match r with
  | Err e => e = Refused refusal_ADDRESS ∧ q_in_flight q = None ∧ q' = q
  | Ok e => q_in_flight q = Some e ∧ q_in_flight q' = None ∧ q_pending q' = q_pending q ∧ q_next q' = q_next q
  end.
Proof.
  intros Hok. unfold Queue_complete. destruct (q_in_flight q) as [e|] eqn:Hf; [|by intros [= <- <-]].
  destruct Hok as [Hn Hs Hd Hb Ha Hw Hap].
  assert (Hgone : ∀ s n, q_ahead q !! s = Some n → (s = qe_seq e → QEntry_urgent e = false) →
    ∃ e1, e1 ∈ q_pending q ∧ QEntry_urgent e1 = true ∧ qe_seq e1 = s).
  { intros s n Hsn Hne. destruct (Ha s n Hsn) as (_ & e1 & [He1|Hfl] & Hu & Hs1); [by exists e1|].
    rewrite Hf in Hfl. injection Hfl as <-. rewrite Hne in Hu by done. done. }
  cbn [q_next q_pending q_in_flight q_ahead q_worst].
  destruct (QEntry_urgent e) eqn:Hu; [destruct (q_ahead q !! qe_seq e) as [n|] eqn:Hc|]; intros E; injection E as <- <-;
    (split; [|by split_and!]); split; cbn [q_next q_pending q_in_flight q_ahead q_worst]; try done.
  - intros e' [He|[=]]. apply Hs. by left.
  - intros e' [He|[=]]. apply Hb. by left.
  - intros s m Hsm. apply lookup_delete_Some in Hsm as [Hne Hsm]. destruct (Ha s m Hsm) as [? _].
    destruct (Hgone s m Hsm) as (e1 & ? & ? & ?); [intros ->; done|]. eauto 10.
  - destruct (Ha _ _ Hc) as [? _]. lia.
  - intros e' [He|[=]]. apply Hs. by left.
  - intros e' [He|[=]]. apply Hb. by left.
  - intros s m Hsm. destruct (Ha s m Hsm) as [? _].
    destruct (Hgone s m Hsm) as (e1 & ? & ? & ?); [intros ->; congruence|]. eauto 10.
  - intros e' [He|[=]]. apply Hs. by left.
  - intros e' [He|[=]]. apply Hb. by left.
  - intros s m Hsm. destruct (Ha s m Hsm) as [? _].
    destruct (Hgone s m Hsm) as (e1 & ? & ? & ?); [done|]. eauto 10.
Qed.

Lemma settle_spec q r q' :
  Queue_ok q → Queue_settle q = (r, q') →
  Queue_ok q' ∧ r = Ok tt ∧ q_in_flight q' = None ∧ q_pending q' = q_pending q ∧ q_next q' = q_next q.
Proof.
  intros Hok. unfold Queue_settle, sm_bind. destruct (q_in_flight q) as [e|] eqn:Hf; [|by intros [= <- <-]].
  destruct (Queue_complete q) as [r1 q1] eqn:E. destruct (complete_spec q r1 q1 Hok E) as [Hok1 H1].
  destruct r1; [|destruct H1 as (_ & H1 & _); congruence]. intros [= <- <-]. tauto.
Qed.

(** The loop serves what ranks above its own entry, then stops. *)
Lemma collector_loop_spec fuel mine q e0 :
  Queue_ok q → q_in_flight q = None → (length (q_pending q) ≤ fuel)%nat →
  e0 ∈ q_pending q → qe_seq e0 = mine →
  ∃ q', collector_loop fuel mine q = Some (Ok tt, q') ∧ Queue_ok q' ∧ q_in_flight q' = Some e0 ∧
    (∀ e, e ∈ q_pending q' → e ∈ q_pending q ∧ e ≠ e0 ∧ rank_lt (QEntry_rank e) (QEntry_rank e0) = false) ∧
    (∀ e, e ∈ q_pending q → e ∈ q_pending q' ∨ rank_lt (QEntry_rank e0) (QEntry_rank e) = false).
Proof.
  revert q. induction fuel as [|fuel IH]; intros q Hok Hf Hl Hin Hm.
  { destruct (q_pending q); [by apply elem_of_nil in Hin|cbn in Hl; lia]. }
  cbn [collector_loop]. destruct (Queue_hand_over q) as [r q1] eqn:E1.
  destruct (hand_over_spec q r q1 Hok E1) as [Hok1 H1].
  destruct r as [[e|]|er]; [|destruct H1 as [H1 _]; rewrite H1 in Hin; by apply elem_of_nil in Hin|
    destruct H1 as (_ & [? H1] & _); congruence].
  destruct H1 as (_ & Hf1 & _ & (i & Hi & Hp1) & Hmin).
  pose proof (delete_Permutation _ _ _ Hi) as Hp. pose proof (qok_nodup q Hok) as Hnd.
  assert (Hel : ∀ e', e' ∈ q_pending q ↔ e' = e ∨ e' ∈ q_pending q1).
  { intros e'. rewrite Hp1. by rewrite Hp, elem_of_cons at 1. }
  assert (Hne1 : ∀ e', e' ∈ q_pending q1 → qe_seq e' ≠ qe_seq e).
  { intros e' He' Heq. rewrite Hp in Hnd. cbn in Hnd. apply list.NoDup_cons in Hnd as [Hs _]. apply Hs.
    rewrite <- Heq, <- Hp1. apply list_elem_of_fmap. by exists e'. }
  destruct (Z.eqb_spec (qe_seq e) mine) as [Hs|Hs].
  - assert (e = e0) as -> by (apply Hel in Hin as [->|Hin]; [done|by apply Hne1 in Hin; congruence]).
    exists q1. split_and!; [done|done|done| |].
    + intros e' He'. split_and!; [apply Hel; by right|intros ->; by apply (Hne1 _ He')|apply Hmin, Hel; by right].
    + intros e' [->|He']%Hel; [right; apply rank_lt_irrefl|by left].
  - destruct (Queue_complete q1) as [r2 q2] eqn:E2. destruct (complete_spec q1 r2 q2 Hok1 E2) as [Hok2 H2].
    destruct r2 as [e2|er]; [|destruct H2 as (_ & H2 & _); congruence].
    destruct H2 as (_ & Hf2 & Hp2 & _).
    assert (Hin1 : e0 ∈ q_pending q1) by (apply Hel in Hin as [->|Hin]; done).
    destruct (IH q2 Hok2 Hf2) as (q' & E & Hok' & Hf' & Hafter & Hserved); [| |done|].
    + rewrite Hp2, Hp1. rewrite Hp in Hl. cbn in Hl. lia.
    + by rewrite Hp2.
    + exists q'. rewrite Hp2 in *. split_and!; [done|done|done| |].
      * intros e' He'. destruct (Hafter e' He') as (? & ? & ?). split_and!; [apply Hel; by right|done|done].
      * intros e' [->|He']%Hel; [right; by apply Hmin|by apply Hserved].
Qed.

(** ** Runs *)
Inductive queue_step : Queue → Queue → Prop :=
| qs_client class deadline q r q' : Queue_submit_client class deadline q = (r, q') → queue_step q q'
| qs_collector q r q' : Queue_submit_collector q = (r, q') → queue_step q q'
| qs_hand_over q r q' : Queue_hand_over q = (r, q') → queue_step q q'
| qs_complete q r q' : Queue_complete q = (r, q') → queue_step q q'
| qs_settle q r q' : Queue_settle q = (r, q') → queue_step q q'
| qs_operation q r q' : Queue_collector_operation q = Some (r, q') → queue_step q q'.

Definition queue_reached (q : Queue) : Prop := rtc queue_step Queue_new q.

(** A collector operation, from any queue in order. *)
Lemma collector_operation_spec q :
  Queue_ok q →
  ∃ r q', Queue_collector_operation q = Some (r, q') ∧ Queue_ok q' ∧
    (q_next q = u64_max ∧ r = Err Panicked ∨
     r = Ok tt ∧ ∃ mine, q_in_flight q' = Some mine ∧ qe_collector mine = true ∧ qe_seq mine = q_next q + 1 ∧
       (∀ e, e ∈ q_pending q' → e ∈ q_pending q ∧ rank_lt (QEntry_rank e) (QEntry_rank mine) = false) ∧
       (∀ e, e ∈ q_pending q → rank_lt (QEntry_rank mine) (QEntry_rank e) = true → e ∈ q_pending q')).
Proof.
  intros Hok. unfold Queue_collector_operation. destruct (Queue_settle q) as [r1 q1] eqn:E1.
  destruct (settle_spec q r1 q1 Hok E1) as (Hok1 & -> & Hf1 & Hp1 & Hn1).
  destruct (Queue_submit_collector q1) as [r2 q2] eqn:E2.
  destruct (submit_ok class_BATCH NO_DEADLINE true q1 r2 q2 Hok1 ltac:(done) E2) as [Hok2 [(-> & -> & Hmx)|(-> & Hf2 & Hp2)]].
  - exists (Err Panicked), q1. split_and!; [done|done|left; split; [congruence|done]].
  - set (mine := mkQEntry class_BATCH NO_DEADLINE (q_next q1 + 1) true) in *.
    destruct (collector_loop_spec (S (length (q_pending q2))) (q_next q1 + 1) q2 mine) as (q' & E & Hok' & Hf' & Ha & Hs);
      [done|congruence|lia|rewrite Hp2; apply elem_of_app; right; by apply list_elem_of_singleton|done|].
    exists (Ok tt), q'. split_and!; [done|done|right; split; [done|]]. exists mine.
    split_and!; [done|done|by rewrite <- Hn1| |].
    + intros e He. destruct (Ha e He) as (Hin & Hne & Hr). split; [|done]. rewrite Hp2, Hp1 in Hin.
      apply elem_of_app in Hin as [|Hin%list_elem_of_singleton]; [done|done].
    + intros e He Hlt. destruct (Hs e) as [|Hn]; [rewrite Hp2, Hp1; apply elem_of_app; by left|done|congruence].
Qed.

Lemma queue_step_ok q q' : Queue_ok q → queue_step q q' → Queue_ok q'.
Proof.
  intros Hok St. revert Hok.
  destruct St as [class deadline q0 r q1 E|q0 r q1 E|q0 r q1 E|q0 r q1 E|q0 r q1 E|q0 r q1 E]; intros Hok.
  - exact (proj1 (submit_ok class deadline false q0 r q1 Hok ltac:(done) E)).
  - exact (proj1 (submit_ok class_BATCH NO_DEADLINE true q0 r q1 Hok ltac:(done) E)).
  - by eapply hand_over_spec.
  - by eapply complete_spec.
  - by eapply settle_spec.
  - destruct (collector_operation_spec q0 Hok) as (r2 & q2 & E2 & H & _). congruence.
Qed.

Lemma queue_reached_ok q : queue_reached q → Queue_ok q.
Proof.
  unfold queue_reached. intros R. pose proof Queue_new_ok as H0. induction R as [|q1 q2 q3 H1 _ IH]; [done|].
  apply IH. by eapply queue_step_ok.
Qed.

(** C40 Collection never starves an urgent read: however clients and the collector
    interleave their submissions, hand-overs and completions, no collector
    operation is handed to the device while an entry more urgent than batch is
    waiting, each such entry is behind at most the one operation that was
    inside the device when it came, and the published witness says so. *)
Theorem collection_never_starves q :
  queue_reached q →
  collection_never_starves_an_urgent_read q = true ∧
  (∀ s n, q_ahead q !! s = Some n → 0 ≤ n ≤ COLLECTOR_OPERATIONS_AHEAD_OF_HARD_READ) ∧
  (∀ e q', Queue_hand_over q = (Ok (Some e), q') → qe_collector e = true →
     ∀ e', e' ∈ q_pending q → QEntry_urgent e' = false).
Proof.
  intros R. pose proof (queue_reached_ok q R) as Hok. split_and!.
  - unfold collection_never_starves_an_urgent_read, Queue_ops_ahead_of_urgent_read, COLLECTOR_OPERATIONS_AHEAD_OF_HARD_READ.
    pose proof (qok_worst q Hok). lia.
  - intros s n Hs. apply (qok_ahead q Hok s n Hs).
  - intros e q' E Hc e' He'. destruct (hand_over_spec q _ q' Hok E) as (_ & _ & _ & _ & (i & Hi & _) & Hmin).
    destruct (QEntry_urgent e') eqn:Hu; [|done]. exfalso.
    assert (Hb : QEntry_urgent e = false).
    { apply (qok_batch q Hok); [left; by eapply list_elem_of_lookup_2|done]. }
    pose proof (urgent_first e' e Hu Hb) as Hlt. by rewrite (Hmin e' He') in Hlt.
Qed.

(** A collector operation in the device, then an urgent read behind it. *)
Definition example_queue : Queue :=
  match Queue_collector_operation Queue_new with
  | Some (_, q) => (Queue_settle (Queue_hand_over (Queue_settle (Queue_submit_client 0 100 q).2).2).2).2
  | None => Queue_new
  end.

Lemma example_queue_reached : queue_reached example_queue.
Proof.
  unfold example_queue. destruct (Queue_collector_operation Queue_new) as [[r q]|] eqn:E; [|by vm_compute in E].
  eapply rtc_l; [by eapply qs_operation|].
  eapply rtc_l; [eapply (qs_client 0 100); apply surjective_pairing|].
  eapply rtc_l; [eapply qs_settle; apply surjective_pairing|].
  eapply rtc_l; [eapply qs_hand_over; apply surjective_pairing|].
  eapply rtc_l; [eapply qs_settle; apply surjective_pairing|]. apply rtc_refl.
Qed.

Lemma collection_never_starves_witness :
  Queue_ops_ahead_of_urgent_read example_queue = 1 ∧
  collection_never_starves_an_urgent_read example_queue = true.
Proof.
  split; [vm_compute; reflexivity|]. exact (proj1 (collection_never_starves example_queue example_queue_reached)).
Defined.

(** A collector operation ends and does what it says: over any reachable queue
    the loop terminates, it never refuses, everything that ranked above the
    collector's own entry has been served, nothing that ranked below it has,
    and its own entry is left inside the device. *)
Theorem collector_operation_serves q :
  queue_reached q → q_next q < u64_max →
  ∃ q' mine, Queue_collector_operation q = Some (Ok tt, q') ∧ q_in_flight q' = Some mine ∧
    qe_collector mine = true ∧ qe_seq mine = q_next q + 1 ∧
    ∀ e, e ∈ q_pending q →
      (e ∈ q_pending q' → rank_lt (QEntry_rank e) (QEntry_rank mine) = false) ∧
      (rank_lt (QEntry_rank mine) (QEntry_rank e) = true → e ∈ q_pending q').
Proof.
  intros R Hlt. destruct (collector_operation_spec q (queue_reached_ok q R)) as (r & q' & E & _ & [[? _]|(-> & mine & Hf & Hc & Hs & Ha & Hb)]); [lia|].
  exists q', mine. split_and!; try done. intros e He. split; [intros He'; by apply Ha|by apply Hb].
Qed.

Lemma collector_operation_serves_witness :
  ∃ q' mine, Queue_collector_operation example_queue = Some (Ok tt, q') ∧ q_in_flight q' = Some mine ∧ qe_collector mine = true.
Proof.
  destruct (collector_operation_serves example_queue example_queue_reached) as (q' & mine & E & Hf & Hc & _).
  - vm_compute. reflexivity.
  - exists q', mine. split_and!; assumption.
Defined.
