(* ===== verification/Roots.v ===== *)
(** * The root set: [zone/src/roots.rs]

    What keeps a blob from being swept: the pinned roots, and one transient
    entry for every write set that is open. *)

From S2P Require Import Prelude Abi Bytes BTree StoreRecords ZoneDevice.

Record Roots : Type := mkRoots {
  rt_pinned : gset (list Z);
  rt_transient : gmap Z (list Z);
  rt_next : Z;
  rt_remarks_owed : Z;
}.

Definition Roots_new : Roots := mkRoots ∅ ∅ 0 0.

Definition Roots_roots_pinned (r : Roots) : nat := size (rt_pinned r).
Definition Roots_roots_transient (r : Roots) : nat := size (rt_transient r).
Definition Roots_transient_blocks (r : Roots) : gset Z := list_to_set (mjoin (btree_values (rt_transient r))).
Definition Roots_remark_owed (r : Roots) : bool := 0 <? rt_remarks_owed r.
Definition Roots_remarked (r : Roots) : Roots := mkRoots (rt_pinned r) (rt_transient r) (rt_next r) 0.

(** The single assignments the methods are made of. *)
Definition insert_pinned (root : list Z) (r : Roots) : Roots :=
  mkRoots ({[root]} ∪ rt_pinned r) (rt_transient r) (rt_next r) (rt_remarks_owed r).
Definition remove_transient (set : Z) (r : Roots) : Roots :=
  mkRoots (rt_pinned r) (delete set (rt_transient r)) (rt_next r) (rt_remarks_owed r).

Definition Roots_pin (root : list Z) (r : Roots) : bool * Roots :=
  (bool_decide (root ∉ rt_pinned r), insert_pinned root r).

Definition Roots_unpin (root : list Z) (r : Roots) : bool * Roots :=
  let removed := bool_decide (root ∈ rt_pinned r) in
  (removed, mkRoots (rt_pinned r ∖ {[root]}) (rt_transient r) (rt_next r)
              (if removed then rt_remarks_owed r + 1 else rt_remarks_owed r)).

Definition Roots_open (r : Roots) : Z * Roots :=
  let next := rt_next r + 1 in
  (next, mkRoots (rt_pinned r) (<[next := []]> (rt_transient r)) next (rt_remarks_owed r)).

Definition Roots_appended (set block : Z) : sm Roots fault unit := λ r,
  match rt_transient r !! set with
  | None => (Err (Refused refusal_ADDRESS), r)
  | Some held =>
      (Ok tt, mkRoots (rt_pinned r) (<[set := held ++ [block]]> (rt_transient r)) (rt_next r) (rt_remarks_owed r))
  end.

(** [adopt], as the states its statements leave, the last being the result:
    the property is about what is true between them. *)
Definition Roots_adopt_states (set : Z) (root : list Z) (r : Roots) : res fault unit * list Roots :=
  match rt_transient r !! set with
  | None => (Err (Refused refusal_ADDRESS), [r])
  | Some _ =>
      let r1 := insert_pinned root r in
      let r2 := remove_transient set r1 in
      (Ok tt, [r; r1; r2])
  end.

Definition Roots_adopt (set : Z) (root : list Z) : sm Roots fault unit := λ r,
  let '(a, states) := Roots_adopt_states set root r in (a, List.last states r).

Definition Roots_abandon (set : Z) : sm Roots fault unit := λ r,
  match rt_transient r !! set with
  | None => (Err (Refused refusal_ADDRESS), r)
  | Some _ =>
      (Ok tt, mkRoots (rt_pinned r) (delete set (rt_transient r)) (rt_next r) (rt_remarks_owed r + 1))
  end.

(** ** Facts *)
Lemma elem_of_transient_blocks r b :
  b ∈ Roots_transient_blocks r ↔ ∃ set held, rt_transient r !! set = Some held ∧ b ∈ held.
Proof.
  unfold Roots_transient_blocks. rewrite elem_of_list_to_set, list_elem_of_join. split.
  - intros (held & Hb & (set & Hs)%elem_of_btree_values). eauto.
  - intros (set & held & Hs & Hb). exists held. split; [done|]. apply elem_of_btree_values. eauto.
Qed.

(** Identities are handed out once: every open set's is at most the last. *)
Definition Roots_ok (r : Roots) : Prop := ∀ set held, rt_transient r !! set = Some held → 1 ≤ set ≤ rt_next r.

Inductive roots_step : Roots → Roots → Prop :=
| rs_pin root r : roots_step r (Roots_pin root r).2
| rs_unpin root r : roots_step r (Roots_unpin root r).2
| rs_open r : roots_step r (Roots_open r).2
| rs_appended set block r : roots_step r (Roots_appended set block r).2
| rs_adopt set root r : roots_step r (Roots_adopt set root r).2
| rs_abandon set r : roots_step r (Roots_abandon set r).2
| rs_remarked r : roots_step r (Roots_remarked r).

Lemma roots_step_ok r r' : Roots_ok r ∧ 0 ≤ rt_next r → roots_step r r' → Roots_ok r' ∧ 0 ≤ rt_next r'.
Proof.
  intros [Hok Hn] St. revert Hok Hn.
  destruct St as [root r|root r|r|set block r|set root r|set r|r]; intros Hok Hn;
    [done|done| | | | |done].
  - split; [|cbn; lia]. intros s held. cbn. destruct (decide (s = rt_next r + 1)) as [->|Hne]; [intros; lia|].
    rewrite lookup_insert_ne by done. intros Hs. specialize (Hok _ _ Hs). lia.
  - unfold Roots_appended. destruct (rt_transient r !! set) as [h|] eqn:L; [|done]. split; [|done].
    intros s held. cbn. destruct (decide (s = set)) as [->|]; [intros _; by eapply Hok|].
    rewrite lookup_insert_ne by done. apply Hok.
  - unfold Roots_adopt, Roots_adopt_states. destruct (rt_transient r !! set) as [h|] eqn:L; [|done].
    split; [|done]. intros s held. cbn. rewrite lookup_delete_Some. intros [_ Hs]. by eapply Hok.
  - unfold Roots_abandon. destruct (rt_transient r !! set) as [h|] eqn:L; [|done].
    split; [|done]. intros s held. cbn. rewrite lookup_delete_Some. intros [_ Hs]. by eapply Hok.
Qed.

Definition roots_reached (r : Roots) : Prop := rtc roots_step Roots_new r.

Lemma roots_reached_ok r : roots_reached r → Roots_ok r ∧ 0 ≤ rt_next r.
Proof.
  intros R. assert (H : Roots_ok Roots_new ∧ 0 ≤ rt_next Roots_new).
  { split; [|done]. intros s h. cbn. by rewrite lookup_empty. }
  revert H. induction R as [|r1 r2 r3 H1 _ IH]; [done|]. intros H. apply IH. by eapply roots_step_ok.
Qed.

(** The handover never leaves a block unnamed: through every statement of
    [adopt] the write set's blocks are named by its transient entry or by the
    root that now pins them, every other open write set's blocks stay named,
    nothing pinned is dropped and no re-mark comes due; the set is gone at the
    end, so a second adoption is refused; and a write set opened at any time
    has an identity no open set has. *)
Theorem handover_always_named r set root held :
  roots_reached r → rt_transient r !! set = Some held →
  (Roots_adopt set root r).1 = Ok tt ∧
  (∀ s, s ∈ (Roots_adopt_states set root r).2 →
     ((∀ b, b ∈ held → b ∈ Roots_transient_blocks s) ∨ root ∈ rt_pinned s) ∧
     (∀ set' held' b, set' ≠ set → rt_transient r !! set' = Some held' → b ∈ held' → b ∈ Roots_transient_blocks s) ∧
     rt_pinned r ⊆ rt_pinned s ∧ Roots_remark_owed s = Roots_remark_owed r) ∧
  (Roots_adopt set root (Roots_adopt set root r).2).1 = Err (Refused refusal_ADDRESS) ∧
  rt_transient r !! (Roots_open r).1 = None.
Proof.
  intros R L. destruct (roots_reached_ok r R) as [Hok Hn].
  unfold Roots_adopt, Roots_adopt_states. rewrite L. split_and!; [done| | |].
  - cbn [snd]. intros s Hs. rewrite !elem_of_cons, elem_of_nil in Hs. destruct Hs as [->|[->|[->|[]]]].
    + split_and!; [left|..]; try done.
      * intros b Hb. apply elem_of_transient_blocks. eauto.
      * intros set' held' b _ Hs' Hb. apply elem_of_transient_blocks. eauto.
    + split_and!; [left|..]; try done.
      * intros b Hb. apply elem_of_transient_blocks. cbn. eauto.
      * intros set' held' b _ Hs' Hb. apply elem_of_transient_blocks. cbn. eauto.
      * cbn. set_solver.
    + split_and!; [right|..]; try done.
      * cbn. set_solver.
      * intros set' held' b Hne Hs' Hb. apply elem_of_transient_blocks. exists set', held'.
        cbn. by rewrite lookup_delete_ne.
      * cbn. set_solver.
  - cbn. by rewrite lookup_delete_eq.
  - cbn. destruct (rt_transient r !! (rt_next r + 1)) as [h|] eqn:E; [|done]. specialize (Hok _ _ E). lia.
Qed.

Definition example_roots : Roots := (Roots_appended 1 7 (Roots_open Roots_new).2).2.

Lemma handover_always_named_witness :
  ([] : list Z) ∈ rt_pinned (Roots_adopt 1 [] example_roots).2 ∧
  (Roots_adopt 1 [] (Roots_adopt 1 [] example_roots).2).1 = Err (Refused refusal_ADDRESS).
Proof.
  assert (R : roots_reached example_roots).
  { eapply rtc_l; [apply rs_open|]. eapply rtc_l; [apply (rs_appended 1 7)|]. apply rtc_refl. }
  destruct (handover_always_named example_roots 1 [] [7] R eq_refl) as (_ & Hs & H2 & _).
  split; [|exact H2].
  destruct (Hs (Roots_adopt 1 [] example_roots).2) as (_ & _ & _ & _).
  - apply list_elem_of_further, list_elem_of_further, list_elem_of_here.
  - apply (bool_decide_unpack _). vm_compute. exact I.
Defined.
