(* ===== verification/BlockDevice.v ===== *)
(** * The block device: [blob/src/device.rs]

    [Device] is the trait the stores write through, [DeviceLaws] what its
    documentation promises of an implementation, and [Memory] the device in
    memory, which keeps the promises.  A device refuses an address or a buffer
    of the wrong length, and may refuse with a fault of its own
    ([blk_read_fault], [blk_write_fault]), in which case it has done nothing. *)

From S2P Require Import Prelude Abi Bytes StoreRecords.

(** ** The trait *)

(** [blk_read] is given the length of the buffer and answers what was put in
    it. *)
Class Device (D : Type) : Type := {
  blk_bytes : D → Z;
  blk_count : D → Z;
  blk_read : Z → Z → sm D fault (list Z);
  blk_write : Z → list Z → sm D fault unit;
  blk_flush : sm D fault unit;
}.

Class DeviceLaws (D : Type) `{Device D} : Type := {
  blk_ok : D → Prop;
  blk_read_fault : fault → Prop;
  blk_write_fault : fault → Prop;
  blk_view : D → Z → list Z;

  same_shape (d d' : D) : Prop := blk_ok d' ∧ blk_bytes d' = blk_bytes d ∧ blk_count d' = blk_count d;
  same_blocks (d d' : D) : Prop := same_shape d d' ∧ ∀ b, blk_view d' b = blk_view d b;
  addressed (d : D) (b n : Z) : Prop := 0 ≤ b < blk_count d ∧ n = blk_bytes d;

  law_shape d : blk_ok d → 0 ≤ blk_count d ≤ u64_max ∧ 0 < blk_bytes d;
  law_view d b : blk_ok d → 0 ≤ b < blk_count d →
    byte_list (blk_view d b) ∧ Z.of_nat (length (blk_view d b)) = blk_bytes d;

  law_read d b n r d' :
    blk_ok d → 0 ≤ b → blk_read b n d = (r, d') → same_blocks d d' ∧
    ((∃ e, r = Err e ∧ blk_read_fault e) ∨
     (addressed d b n ∧ r = Ok (blk_view d b)) ∨
     (¬ addressed d b n ∧ r = Err (Refused refusal_ADDRESS)));
  law_write d b x r d' :
    blk_ok d → 0 ≤ b < blk_count d → byte_list x → blk_write b x d = (r, d') →
    (same_blocks d d' ∧ ∃ e, r = Err e ∧ blk_write_fault e) ∨
    (addressed d b (Z.of_nat (length x)) ∧ r = Ok tt ∧ same_shape d d' ∧
     ∀ b', 0 ≤ b' → blk_view d' b' = if decide (b' = b) then x else blk_view d b') ∨
    (¬ addressed d b (Z.of_nat (length x)) ∧ r = Err (Refused refusal_ADDRESS) ∧ same_blocks d d');
  law_flush d r d' :
    blk_ok d → blk_flush d = (r, d') → same_blocks d d' ∧ (r = Ok tt ∨ ∃ e, r = Err e ∧ blk_write_fault e);
}.

Section same.
Context {D : Type} `{DeviceLaws D}.

Lemma same_blocks_refl d : blk_ok d → same_blocks d d.
Proof. done. Qed.

Lemma same_blocks_trans d1 d2 d3 : same_blocks d1 d2 → same_blocks d2 d3 → same_blocks d1 d3.
Proof.
  intros [(_ & B1 & C1) V1] [(O2 & B2 & C2) V2].
  split; [split_and!; [done|congruence|congruence]|]. intros b. by rewrite V2.
Qed.
End same.

(** ** The device in memory *)
Record Memory : Type := mkMemory {
  mem_block_bytes : Z;
  mem_bytes : list Z;
  mem_flushes : Z;
  mem_writes : Z;
}.

(** The count of blocks is of a device the host can address, so that the
    product is a length. *)
Definition Memory_new (block_bytes blocks : Z) : res fault Memory :=
  if u64_max <? block_bytes * blocks then Err Panicked
  else Ok (mkMemory block_bytes (zeroed (Z.to_nat (block_bytes * blocks))) 0 0).

Definition Memory_flushes (m : Memory) : Z := mem_flushes m.
Definition Memory_writes (m : Memory) : Z := mem_writes m.

Definition with_bytes (m : Memory) (bytes : list Z) : Memory :=
  mkMemory (mem_block_bytes m) bytes (mem_flushes m) (mem_writes m).

Definition Memory_flip (at_ : Z) : sm Memory fault unit := λ m,
  match mem_bytes m !! Z.to_nat at_ with
  | None => (Err (Refused refusal_ADDRESS), m)
  | Some byte => (Ok tt, with_bytes m (<[Z.to_nat at_ := Z.lxor byte 1]> (mem_bytes m)))
  end.

(** [checked_mul] and [checked_add] are of [usize]. *)
Definition Memory_span (m : Memory) (block : Z) : option (Z * Z) :=
  let at_ := block * mem_block_bytes m in
  if u64_max <? at_ then None
  else
    let end_ := at_ + mem_block_bytes m in
    if u64_max <? end_ then None
    else if Z.of_nat (length (mem_bytes m)) <? end_ then None else Some (at_, end_).

Definition Memory_blocks (m : Memory) : Z := Z.of_nat (length (mem_bytes m)) / mem_block_bytes m.

Definition Memory_read (block len : Z) : sm Memory fault (list Z) := λ m,
  if negb (len =? mem_block_bytes m) then (Err (Refused refusal_ADDRESS), m)
  else match Memory_span m block with
       | None => (Err (Refused refusal_ADDRESS), m)
       | Some (at_, end_) => (Ok (slice (mem_bytes m) (Z.to_nat at_) (Z.to_nat (end_ - at_))), m)
       end.

(** The counters are [u64]s: one more than their maximum stops the program. *)
Definition Memory_write (block : Z) (from : list Z) : sm Memory fault unit := λ m,
  if negb (Z.of_nat (length from) =? mem_block_bytes m) then (Err (Refused refusal_ADDRESS), m)
  else match Memory_span m block with
       | None => (Err (Refused refusal_ADDRESS), m)
       | Some (at_, _) =>
           if mem_writes m + 1 >? u64_max then (Err Panicked, m)
           else (Ok tt, mkMemory (mem_block_bytes m) (put (mem_bytes m) (Z.to_nat at_) from)
                          (mem_flushes m) (mem_writes m + 1))
       end.

Definition Memory_flush : sm Memory fault unit := λ m,
  if mem_flushes m + 1 >? u64_max then (Err Panicked, m)
  else (Ok tt, mkMemory (mem_block_bytes m) (mem_bytes m) (mem_flushes m + 1) (mem_writes m)).

#[global] Instance Memory_device : Device Memory := {
  blk_bytes := mem_block_bytes;
  blk_count := Memory_blocks;
  blk_read := Memory_read;
  blk_write := Memory_write;
  blk_flush := Memory_flush;
}.

(** ** It keeps the promises *)
Record Memory_ok (m : Memory) : Prop := {
  mem_ok_block : 0 < mem_block_bytes m;
  mem_ok_whole : Z.of_nat (length (mem_bytes m)) = Memory_blocks m * mem_block_bytes m;
  mem_ok_len : Z.of_nat (length (mem_bytes m)) ≤ u64_max;
  mem_ok_bytes : byte_list (mem_bytes m);
}.

Definition Memory_view (m : Memory) (b : Z) : list Z :=
  slice (mem_bytes m) (Z.to_nat (b * mem_block_bytes m)) (Z.to_nat (mem_block_bytes m)).

Lemma Memory_new_ok block_bytes blocks m :
  0 < block_bytes → 0 ≤ blocks → Memory_new block_bytes blocks = Ok m →
  Memory_ok m ∧ mem_block_bytes m = block_bytes ∧ Memory_blocks m = blocks.
Proof.
  unfold Memory_new. intros Hb Hn. destruct (Z.ltb_spec u64_max (block_bytes * blocks)); [done|].
  intros [= <-]. unfold Memory_blocks. cbn.
  assert (E : Z.of_nat (length (zeroed (Z.to_nat (block_bytes * blocks)))) = block_bytes * blocks).
  { unfold zeroed. rewrite length_replicate. lia. }
  assert (E2 : block_bytes * blocks / block_bytes = blocks) by (rewrite Z.mul_comm; apply Z.div_mul; lia).
  split; [|rewrite E; done]. constructor; unfold Memory_blocks; cbn; rewrite ?E; [done|nia|lia|].
  apply Forall_replicate. done.
Qed.

(** Where a block lies, when it is there. *)
Lemma Memory_span_spec m b :
  Memory_ok m → 0 ≤ b →
  Memory_span m b =
    if decide (b < Memory_blocks m)
    then Some (b * mem_block_bytes m, b * mem_block_bytes m + mem_block_bytes m) else None.
Proof.
  intros [Hb Hw Hl _] Hb0. unfold Memory_span.
  destruct (decide (b < Memory_blocks m)).
  - assert (b * mem_block_bytes m + mem_block_bytes m ≤ Z.of_nat (length (mem_bytes m))) by nia.
    rewrite !(proj2 (Z.ltb_ge _ _)) by lia. done.
  - assert (Z.of_nat (length (mem_bytes m)) < b * mem_block_bytes m + mem_block_bytes m) by nia.
    repeat case_match; try done. lia.
Qed.

Lemma Memory_blocks_put m at_ x f w :
  (at_ + length x ≤ length (mem_bytes m))%nat →
  Memory_blocks (mkMemory (mem_block_bytes m) (put (mem_bytes m) at_ x) f w) = Memory_blocks m.
Proof. intros. unfold Memory_blocks. cbn. by rewrite length_put. Qed.

Lemma Memory_put_ok m b x f w :
  Memory_ok m → 0 ≤ b < Memory_blocks m → byte_list x → Z.of_nat (length x) = mem_block_bytes m →
  let m' := mkMemory (mem_block_bytes m) (put (mem_bytes m) (Z.to_nat (b * mem_block_bytes m)) x) f w in
  Memory_ok m' ∧ Memory_blocks m' = Memory_blocks m ∧
  ∀ b', 0 ≤ b' → Memory_view m' b' = if decide (b' = b) then x else Memory_view m b'.
Proof.
  intros [Hb Hw Hl Hby] Hr Hx Hlen m'.
  assert (Hin : (Z.to_nat (b * mem_block_bytes m) + length x ≤ length (mem_bytes m))%nat) by nia.
  assert (Hbl : Memory_blocks m' = Memory_blocks m) by (by apply Memory_blocks_put).
  split; [|split; [done|]].
  - constructor; [done|rewrite Hbl| |]; cbn; rewrite ?length_put by done; [done|done|].
    unfold put. apply Forall_app. split; [by apply Forall_take|].
    apply Forall_app. split; [done|by apply Forall_drop].
  - intros b' Hb'. unfold Memory_view, m'. cbn. destruct (decide (b' = b)) as [->|Hne].
    + replace (Z.to_nat (mem_block_bytes m)) with (length x) by lia. by apply slice_put_eq.
    + apply slice_put_ne; [done|].
      assert (E : (b' + 1) * mem_block_bytes m ≤ b * mem_block_bytes m ∨
                  (b + 1) * mem_block_bytes m ≤ b' * mem_block_bytes m).
      { destruct (decide (b' < b)); [left|right]; apply Z.mul_le_mono_nonneg_r; lia. }
      assert (0 ≤ b' * mem_block_bytes m) by nia. assert (0 ≤ b * mem_block_bytes m) by nia. lia.
Qed.

#[global] Program Instance Memory_laws : DeviceLaws Memory := {
  blk_ok := Memory_ok;
  blk_read_fault e := False;
  blk_write_fault e := e = Panicked;
  blk_view := Memory_view;
}.
Next Obligation. intros m [Hb Hw Hl _]. cbn. unfold u64_max in *. nia. Qed.
Next Obligation.
  intros m b [Hb Hw Hl Hby] Hr. cbn in *. unfold Memory_view. split; [by apply slice_bytes|].
  rewrite length_slice by nia. lia.
Qed.
Next Obligation.
  intros m b n r m' Hok Hb. cbn. unfold Memory_read. intros E.
  assert (m' = m) as ->.
  { repeat case_match; by injection E. }
  split; [done|]. right.
  destruct (Z.eqb_spec n (mem_block_bytes m)) as [->|]; cbn in E; [|injection E; naive_solver].
  rewrite (Memory_span_spec m b Hok Hb) in E.
  case_decide; injection E as <-; [left|right].
  - split; [done|]. unfold Memory_view. do 3 f_equal. lia.
  - split; [|done]. intros [? _]. lia.
Qed.
Next Obligation.
  intros m b x r m' Hok Hb Hx. cbn. unfold Memory_write. intros E.
  destruct (Z.eqb_spec (Z.of_nat (length x)) (mem_block_bytes m)) as [El|]; cbn in E.
  2:{ injection E as <- <-. right; right. split; [by intros [_ ?]|done]. }
  rewrite (Memory_span_spec m b Hok (proj1 Hb)) in E. case_decide.
  2:{ injection E as <- <-. right; right. split; [intros [? _]; lia|done]. }
  destruct (mem_writes m + 1 >? u64_max); injection E as <- <-.
  - left. split; [done|]. by exists Panicked.
  - right; left. destruct (Memory_put_ok m b x (mem_flushes m) (mem_writes m + 1)) as (? & ? & ?); done.
Qed.
Next Obligation.
  intros m r m' Hok. cbn. unfold Memory_flush. intros E.
  destruct (mem_flushes m + 1 >? u64_max); injection E as <- <-.
  - split; [done|]. right. by exists Panicked.
  - split; [|by left]. split; [|done]. split; [|done]. destruct Hok. by constructor.
Qed.
