(* ===== verification/IndexRecord.v ===== *)
(** * One entry of the index's log: [index/src/record.rs]

    An entry is a fixed head and a name, laid end to end in a block and never
    across two.  [Entry_encode] is the image [to_slice] leaves; the theorems say
    [from_slice] reads it back from the front of any array, and accepts nothing
    that is not such an image. *)

From S2P Require Import Prelude Abi Bytes StoreRecords StoreCodecs.
Import error.

Definition index_MAGIC : Z := 1481203526.      (* 0x5849_5f46 *)
Definition HEAD_BYTES : nat := 44.
Definition index_NAME_MAX : nat := 448.
Definition ENTRY_MAX_BYTES : nat := HEAD_BYTES + index_NAME_MAX.

Definition ns_PATH : Z := 1.
Definition ns_META : Z := 2.
Definition ns_ATTR : Z := 3.
Definition ns_PIN : Z := 4.
Definition ns_known (value : Z) : bool :=
  (value =? ns_PATH) || (value =? ns_META) || (value =? ns_ATTR) || (value =? ns_PIN).

Definition op_SET : Z := 1.
Definition op_REMOVE : Z := 2.
Definition index_op_known (value : Z) : bool := (value =? op_SET) || (value =? op_REMOVE).

Record Entry : Type := mkEntry {
  en_namespace : Z;
  en_op : Z;
  en_hash : list Z;
  en_name : list Z;
}.

#[global] Instance Entry_eq_dec : EqDecision Entry.
Proof. solve_decision. Defined.

Definition entry_bytes (name_bytes : nat) : res fault nat :=
  if (name_bytes =? 0)%nat || (index_NAME_MAX <? name_bytes)%nat then Err (Refused refusal_MALFORMED)
  else Ok (HEAD_BYTES + name_bytes)%nat.

(** Four zero bytes, or fewer than four bytes left. *)
Definition padding_at (raw : list Z) (at_ : nat) : bool :=
  if (length raw <? at_ + 4)%nat then true else bool_decide (slice raw at_ 4 = zeroed 4).

Definition encoded_bytes (e : Entry) : res fault nat := entry_bytes (length (en_name e)).

Definition Entry_fields (e : Entry) (bytes : nat) : layout :=
  [(0%nat, le_bytes 4 index_MAGIC); (4%nat, le_bytes 2 (Z.of_nat bytes));
   (6%nat, [en_namespace e]); (7%nat, [en_op e]); (8%nat, en_hash e);
   (40%nat, le_bytes 2 (Z.of_nat (length (en_name e)))); (42%nat, le_bytes 2 0);
   (HEAD_BYTES, en_name e)].

Definition Entry_to_slice (e : Entry) (out : list Z) : res fault (list Z) :=
  let? bytes := encoded_bytes e in
  if negb (length out =? bytes)%nat then Err (Refused refusal_MALFORMED)
  else if negb (ns_known (en_namespace e)) || negb (index_op_known (en_op e)) then Err (Refused refusal_UNKNOWN)
  else Ok (put_fields out (Entry_fields e bytes)).

Definition Entry_from_slice (raw : list Z) : res fault Entry :=
  if (length raw <? HEAD_BYTES)%nat then Err (Refused refusal_MALFORMED)
  else if negb (word raw 0 =? index_MAGIC) then Err (Refused refusal_MALFORMED)
  else
    let declared := Z.to_nat (short raw 4) in
    let name_bytes := Z.to_nat (short raw 40) in
    let? bytes := entry_bytes name_bytes in
    if negb (declared =? bytes)%nat || (length raw <? declared)%nat then Err (Refused refusal_MALFORMED)
    else if negb (short raw 42 =? 0) then Err (Refused refusal_UNKNOWN)
    else
      match raw !! 6%nat, raw !! 7%nat with
      | Some namespace, Some op =>
          if negb (ns_known namespace) || negb (index_op_known op) then Err (Refused refusal_UNKNOWN)
          else Ok (mkEntry namespace op (slice raw 8 32) (slice raw HEAD_BYTES (declared - HEAD_BYTES)))
      | _, _ => Err Panicked
      end.

(** ** Entries this format can hold *)
Record Entry_valid (e : Entry) : Prop := {
  ev_namespace : ns_known (en_namespace e) = true;
  ev_op : index_op_known (en_op e) = true;
  ev_hash : is_digest (en_hash e);
  ev_name : byte_list (en_name e);
  ev_length : (0 < length (en_name e) ≤ index_NAME_MAX)%nat;
}.

(** The image of an entry, of [HEAD_BYTES] and its name. *)
Definition entry_width (e : Entry) : nat := HEAD_BYTES + length (en_name e).
Definition Entry_encode (e : Entry) : list Z := flat (Entry_fields e (entry_width e)).

Lemma ns_known_byte n : ns_known n = true → is_uint 8 n.
Proof. unfold ns_known, ns_PATH, ns_META, ns_ATTR, ns_PIN, is_uint. lia. Qed.

Lemma index_op_known_byte n : index_op_known n = true → is_uint 8 n.
Proof. unfold index_op_known, op_SET, op_REMOVE, is_uint. lia. Qed.

Lemma entry_bytes_spec n :
  entry_bytes n = if decide (0 < n ≤ index_NAME_MAX)%nat then Ok (HEAD_BYTES + n)%nat
                  else Err (Refused refusal_MALFORMED).
Proof.
  unfold entry_bytes. destruct (Nat.eqb_spec n 0), (Nat.ltb_spec index_NAME_MAX n); cbn [orb];
    case_decide; try done; lia.
Qed.

Section entry.
Context (e : Entry).
Hypothesis Hv : Entry_valid e.

Lemma encoded_bytes_valid : encoded_bytes e = Ok (entry_width e).
Proof. unfold encoded_bytes. rewrite entry_bytes_spec, decide_True; [done|apply Hv]. Qed.

Lemma Entry_contiguous : contiguous 0 (Entry_fields e (entry_width e)).
Proof.
  destruct Hv as [_ _ [_ Hh] _ _]. unfold Entry_fields. cbn [contiguous].
  rewrite !length_le_bytes, Hh. done.
Qed.

Lemma Entry_encode_length : length (Entry_encode e) = entry_width e.
Proof.
  destruct Hv as [_ _ [_ Hh] _ _]. unfold Entry_encode, Entry_fields. rewrite !flat_cons.
  rewrite !length_app, !length_le_bytes, Hh. cbn. unfold entry_width, HEAD_BYTES. lia.
Qed.

Lemma Entry_encode_bytes : byte_list (Entry_encode e).
Proof.
  destruct Hv as [Hn Ho [Hh _] Hname _]. unfold Entry_encode. apply layout_bytes.
  assert (byte_list [en_namespace e]) by (apply list.Forall_cons_2; [by apply ns_known_byte|constructor]).
  assert (byte_list [en_op e]) by (apply list.Forall_cons_2; [by apply index_op_known_byte|constructor]).
  repeat (apply list.Forall_cons_2; [cbn [snd]; first [apply le_bytes_bytes|eassumption]|]).
  apply list.Forall_nil_2.
Qed.

(** What [to_slice] leaves in a zeroed slice of the right width. *)
Lemma Entry_to_slice_encode : Entry_to_slice e (zeroed (entry_width e)) = Ok (Entry_encode e).
Proof.
  unfold Entry_to_slice. rewrite encoded_bytes_valid. rsimpl.
  unfold zeroed at 1. rewrite length_replicate, Nat.eqb_refl. rsimpl.
  rewrite (ev_namespace _ Hv), (ev_op _ Hv). rsimpl. f_equal.
  apply put_fields_all; [apply Entry_contiguous|apply Entry_encode_length].
Qed.
End entry.

Lemma slice_prefix l rest at_ n :
  (at_ + n ≤ length l)%nat → slice (l ++ rest) at_ n = slice l at_ n.
Proof.
  intros. unfold slice. rewrite drop_app_le by lia. rewrite take_app_le; [done|].
  rewrite length_drop. lia.
Qed.

Lemma slice_single l i n x : slice l i 1 = [x] → n = i → l !! n = Some x.
Proof.
  intros H ->. unfold slice in H. pose proof (lookup_drop l i 0) as E. rewrite Nat.add_0_r in E.
  rewrite <- E. destruct (drop i l); [done|]. cbn in *. by injection H as ->.
Qed.

(** Each field read back from the front of an array. *)
Lemma Entry_field e rest at_ x n :
  Entry_valid e → (at_, x) ∈ Entry_fields e (entry_width e) → length x = n →
  slice (Entry_encode e ++ rest) at_ n = x.
Proof.
  intros Hv Hin Hn. pose proof (Entry_contiguous e Hv) as Hc.
  destruct (flat_slice_from 0 _ at_ x Hc Hin) as [_ Hs]. rewrite Nat.sub_0_r in Hs.
  rewrite slice_prefix; [by subst n|].
  assert (Hb : ∀ off fs, contiguous off fs → (at_, x) ∈ fs → (at_ + length x ≤ off + length (flat fs))%nat).
  { intros off fs. revert off. induction fs as [|[a y] fs IH]; intros off C I; [by apply elem_of_nil in I|].
    destruct C as [-> C]. rewrite flat_cons, length_app. apply elem_of_cons in I as [[= -> ->]|I]; [lia|].
    specialize (IH _ C I). lia. }
  specialize (Hb 0%nat _ Hc Hin). unfold Entry_encode. lia.
Qed.

Lemma short_length n : (n ≤ 492)%nat → is_uint (8 * Z.of_nat 2) (Z.of_nat n).
Proof. unfold is_uint. change (2 ^ (8 * Z.of_nat 2)) with 65536. lia. Qed.

Lemma Entry_from_encode e rest :
  Entry_valid e → Entry_from_slice (Entry_encode e ++ rest) = Ok e.
Proof.
  intros Hv. pose proof (Entry_encode_length e Hv) as Hl.
  destruct (id Hv) as [Hns Hop [Hh1 Hh2] Hnm Hlen].
  assert (Hw : (HEAD_BYTES < entry_width e ≤ 492)%nat) by (unfold entry_width, index_NAME_MAX, HEAD_BYTES in *; lia).
  pose proof (Entry_field e rest) as F. unfold Entry_from_slice, short, word.
  rewrite (proj2 (Nat.ltb_ge _ _)) by (rewrite length_app; lia).
  rewrite (F 0%nat (le_bytes 4 index_MAGIC)) by (first [done|unfold Entry_fields; find_field]).
  rewrite from_le_le_bytes, Z.eqb_refl by done. rsimpl.
  rewrite (F 4%nat (le_bytes 2 (Z.of_nat (entry_width e)))) by (first [done|unfold Entry_fields; find_field]).
  rewrite from_le_le_bytes by (apply short_length; lia). rewrite Nat2Z.id.
  rewrite (F 40%nat (le_bytes 2 (Z.of_nat (length (en_name e))))) by (first [done|unfold Entry_fields; find_field]).
  rewrite from_le_le_bytes by (apply short_length; unfold index_NAME_MAX in *; lia). rewrite Nat2Z.id.
  rewrite entry_bytes_spec, decide_True by done. rsimpl.
  fold (entry_width e). rewrite Nat.eqb_refl. rsimpl.
  rewrite (proj2 (Nat.ltb_ge _ _)) by (rewrite length_app; lia).
  rewrite (F 42%nat (le_bytes 2 0)) by (first [done|unfold Entry_fields; find_field]).
  rewrite from_le_le_bytes by done. rewrite Z.eqb_refl. rsimpl.
  rewrite (slice_single _ 6 6 (en_namespace e)) by (first [done|apply F; first [done|unfold Entry_fields; find_field]]).
  rewrite (slice_single _ 7 7 (en_op e)) by (first [done|apply F; first [done|unfold Entry_fields; find_field]]).
  rewrite Hns, Hop. rsimpl.
  rewrite (F 8%nat (en_hash e)) by (first [done|unfold Entry_fields; find_field]).
  rewrite (F HEAD_BYTES (en_name e)) by (first [done|unfold Entry_fields; find_field|unfold entry_width; lia]).
  by destruct e.
Qed.

Lemma slice_take raw n at_ w : (at_ + w ≤ n)%nat → slice (take n raw) at_ w = slice raw at_ w.
Proof.
  intros. destruct (decide (n ≤ length raw)%nat); [|by rewrite take_ge by lia].
  rewrite <- (take_drop n raw) at 2. rewrite slice_prefix; [done|]. rewrite length_take. lia.
Qed.

Lemma lookup_slice raw i x : raw !! i = Some x → slice raw i 1 = [x].
Proof.
  intros H. unfold slice. destruct (drop i raw) as [|y l] eqn:E;
    pose proof (lookup_drop raw i 0) as L; rewrite E, Nat.add_0_r, H in L; [done|].
  cbn in L. by injection L as ->.
Qed.

(** Nothing but an image is accepted. *)
Lemma Entry_from_slice_inv raw e :
  byte_list raw → Entry_from_slice raw = Ok e →
  Entry_valid e ∧ raw = Entry_encode e ++ drop (entry_width e) raw.
Proof.
  unfold Entry_from_slice. intros Hb H.
  destruct (Nat.ltb_spec (length raw) HEAD_BYTES) as [|Hhd]; [done|]. unfold HEAD_BYTES in Hhd.
  destruct (readers raw _ Hb eq_refl) as (HS & HW & _ & HD).
  destruct (Z.eqb_spec (word raw 0) index_MAGIC) as [Em|]; [|done]. rsimpl_in H.
  rewrite entry_bytes_spec in H. destruct (decide _) as [Hn|]; [|done]. rsimpl_in H.
  destruct (Nat.eqb_spec (Z.to_nat (short raw 4)) (HEAD_BYTES + Z.to_nat (short raw 40))) as [Ed|]; [|done].
  destruct (Nat.ltb_spec (length raw) (Z.to_nat (short raw 4))) as [|Hle]; [done|]. rsimpl_in H.
  destruct (Z.eqb_spec (short raw 42) 0) as [Ez|]; [|done]. rsimpl_in H.
  destruct (raw !! 6%nat) as [nsp|] eqn:L6; [|done]. destruct (raw !! 7%nat) as [op|] eqn:L7; [|done].
  destruct (ns_known nsp) eqn:Hns; [|done]. destruct (index_op_known op) eqn:Hop; [|done]. rsimpl_in H.
  injection H as <-.
  set (len := Z.to_nat (short raw 40)) in *. rewrite Ed in *.
  replace (HEAD_BYTES + len - HEAD_BYTES)%nat with len by lia.
  set (e := mkEntry _ _ _ _).
  assert (Hname : length (en_name e) = len) by (cbn; apply length_slice; lia).
  assert (Hv : Entry_valid e).
  { constructor; [done|done|apply HD; lia|by apply slice_bytes|by rewrite Hname]. }
  split; [done|]. rewrite <- (take_drop (entry_width e) raw) at 1. f_equal.
  unfold Entry_encode, entry_width. rewrite Hname.
  pose proof (flat_cuts (take (HEAD_BYTES + len) raw) 0 [4; 2; 1; 1; 32; 2; 2; len]%nat) as F.
  rewrite drop_0 in F. rewrite <- F by (rewrite length_take, Nat.min_l by done; cbn; unfold HEAD_BYTES; lia).
  unfold cuts, Entry_fields. cbn [Nat.add]. rewrite !flat_cons. rewrite !slice_take by (unfold HEAD_BYTES; lia).
  rewrite <- Em, Hname. rewrite (proj2 (HW 0%nat ltac:(lia))).
  rewrite <- Ed, Z2Nat.id by (destruct (HS 4%nat) as [[? _] _]; lia). rewrite (proj2 (HS 4%nat ltac:(lia))).
  unfold len. rewrite Z2Nat.id by (destruct (HS 40%nat) as [[? _] _]; lia). rewrite (proj2 (HS 40%nat ltac:(lia))).
  rewrite <- Ez, (proj2 (HS 42%nat ltac:(lia))).
  rewrite (lookup_slice _ _ _ L6), (lookup_slice _ _ _ L7). done.
Qed.

(** An image is never mistaken for padding, and padding is never an image. *)
Lemma Entry_encode_not_padding e rest :
  Entry_valid e → padding_at (Entry_encode e ++ rest) 0 = false.
Proof.
  intros Hv. unfold padding_at. rewrite (proj2 (Nat.ltb_ge _ _)).
  - rewrite (Entry_field e rest 0 (le_bytes 4 index_MAGIC) 4) by (first [done|unfold Entry_fields; find_field]).
    done.
  - rewrite length_app, Entry_encode_length by done. unfold entry_width, HEAD_BYTES. lia.
Qed.
