(* ===== verification/Index.v ===== *)
(** * The index: [index/src/index.rs]

    A map from a namespace and a name to a content address, kept in memory and
    rebuilt at mount from a log of entries.  A block of the log is written once:
    entries gather in [ix_pending] until the next does not fit or a barrier
    asks for them.  The device is any that keeps [DeviceLaws]. *)

From S2P Require Import Prelude Abi Bytes StoreRecords IndexRecord BlockDevice.
From stdpp Require Import sorting.
#[local] Open Scope Z_scope.

(** [BTreeMap<u8, BTreeMap<Vec<u8>, [u8; 32]>>]. *)
Abbreviation Names := (gmap (list Z) (list Z)).
Abbreviation Entries := (gmap Z Names).

Section index.
Context {D : Type} `{Device D}.

Record Index : Type := mkIndex {
  ix_device : D;
  ix_first : Z;
  ix_blocks : Z;
  ix_used : Z;
  ix_pending : list Z;
  ix_entries : Entries;
}.

Definition with_device (me : Index) (d : D) : Index :=
  mkIndex d (ix_first me) (ix_blocks me) (ix_used me) (ix_pending me) (ix_entries me).
Definition with_used (me : Index) (n : Z) : Index :=
  mkIndex (ix_device me) (ix_first me) (ix_blocks me) n (ix_pending me) (ix_entries me).
Definition with_pending (me : Index) (p : list Z) : Index :=
  mkIndex (ix_device me) (ix_first me) (ix_blocks me) (ix_used me) p (ix_entries me).
Definition with_entries (me : Index) (es : Entries) : Index :=
  mkIndex (ix_device me) (ix_first me) (ix_blocks me) (ix_used me) (ix_pending me) es.

(** A call of the device the index owns. *)
Definition on_device {A : Type} (m : sm D fault A) : sm Index fault A := λ me,
  let '(r, d) := m (ix_device me) in (r, with_device me d).

Definition block_len (me : Index) : nat := Z.to_nat (blk_bytes (ix_device me)).

(** ** The map *)
Definition apply_entry (entries : Entries) (e : Entry) : Entries :=
  if en_op e =? op_REMOVE then
    match entries !! en_namespace e with
    | Some names => <[en_namespace e := delete (en_name e) names]> entries
    | None => entries
    end
  else <[en_namespace e := <[en_name e := en_hash e]> (default ∅ (entries !! en_namespace e))]> entries.

Definition Index_get (me : Index) (namespace : Z) (name : list Z) : option (list Z) :=
  ix_entries me !! namespace ≫= λ names, names !! name.

Definition Index_names (me : Index) (namespace : Z) : nat :=
  match ix_entries me !! namespace with None => 0 | Some names => size names end.

Definition Index_blocks_used (me : Index) : Z := ix_used me.

(** ** Mounting *)

(** The inner loop of [replay]: the entries of one block.  Every turn moves the
    cursor, so a block's length is fuel enough. *)
Fixpoint replay_block (fuel : nat) (block_bytes : nat) (block : list Z) (cursor : nat) :
    sm Entries fault unit := λ entries,
  match fuel with
  | O => (Err Panicked, entries)
  | S fuel =>
      if (cursor + HEAD_BYTES <=? block_bytes)%nat && negb (padding_at block cursor) then
        (do! entry <- sm_lift (Entry_from_slice (drop cursor block));
         do! width <- sm_lift (encoded_bytes entry);
         do! _ <- sm_put (λ entries, apply_entry entries entry);
         replay_block fuel block_bytes block (cursor + width)) entries
      else (Ok tt, entries)
  end.

Definition on_entries {A : Type} (m : sm Entries fault A) : sm Index fault A := λ me,
  let '(r, es) := m (ix_entries me) in (r, with_entries me es).

(** One turn of the outer loop; whether there is another. *)
Definition replay_turn : sm Index fault bool := λ me,
  (do! block <- on_device (blk_read (ix_first me + ix_used me) (blk_bytes (ix_device me)));
   if padding_at block 0 then sm_ret false
   else
     do! _ <- on_entries (replay_block (S (block_len me)) (block_len me) block 0);
     do! _ <- sm_put (λ me, with_used me (ix_used me + 1));
     sm_ret true) me.

Fixpoint replay (fuel : nat) : sm Index fault unit := λ me,
  if ix_used me <? ix_blocks me then
    match fuel with
    | O => (Err Panicked, me)
    | S fuel => (do! more <- replay_turn; if (more : bool) then replay fuel else sm_ret tt) me
    end
  else (Ok tt, me).

(** The device is consumed: a refusal answers nothing else. *)
Definition Index_mount (device : D) (first blocks : Z) : res fault Index :=
  if blk_bytes device <? Z.of_nat ENTRY_MAX_BYTES then Err (Refused refusal_MALFORMED)
  else if (blocks =? 0) || (u64_max <? first + blocks) || (blk_count device <? first + blocks)
  then Err (Refused refusal_ADDRESS)
  else match replay (Z.to_nat blocks) (mkIndex device first blocks 0 [] ∅) with
       | (Ok _, me) => Ok me
       | (Err e, _) => Err e
       end.

(** ** Writing *)
Definition Index_seal : sm Index fault unit := λ me,
  if bool_decide (ix_pending me = []) then (Ok tt, me)
  else if ix_blocks me <=? ix_used me then (Err (Refused refusal_FULL), me)
  else if (block_len me <? length (ix_pending me))%nat then (Err Panicked, me)
  else
    (do! _ <- on_device (blk_write (ix_first me + ix_used me) (put (zeroed (block_len me)) 0 (ix_pending me)));
     do! _ <- sm_put (λ me, with_used me (ix_used me + 1));
     sm_put (λ me, with_pending me [])) me.

Definition append_here (e : Entry) (width : nat) : sm Index fault unit := λ me,
  if ix_blocks me <=? ix_used me then (Err (Refused refusal_FULL), me)
  else
    let at_ := length (ix_pending me) in
    let me := with_pending me (ix_pending me ++ zeroed width) in
    match Entry_to_slice e (drop at_ (ix_pending me)) with
    | Err f => (Err f, me)
    | Ok out => (Ok tt, with_pending me (take at_ (ix_pending me) ++ out))
    end.

Definition Index_append (e : Entry) : sm Index fault unit :=
  do! width <- sm_lift (encoded_bytes e);
  if negb (ns_known (en_namespace e)) then refuse refusal_UNKNOWN
  else
    do! full <- sm_get (λ me, (block_len me <? length (ix_pending me) + width)%nat);
    do! _ <- (if (full : bool) then Index_seal else sm_ret tt);
    append_here e width.

(** Appended first, and believed only if that was. *)
Definition record_entry (e : Entry) : sm Index fault unit :=
  do! _ <- Index_append e;
  sm_put (λ me, with_entries me (apply_entry (ix_entries me) e)).

Definition Index_set (namespace : Z) (name hash : list Z) : sm Index fault unit :=
  record_entry (mkEntry namespace op_SET hash name).

Definition Index_remove (namespace : Z) (name : list Z) : sm Index fault unit :=
  record_entry (mkEntry namespace op_REMOVE (zeroed 32) name).

Definition Index_pin (name root : list Z) : sm Index fault unit := Index_set ns_PIN name root.
Definition Index_unpin (name : list Z) : sm Index fault unit := Index_remove ns_PIN name.

Definition Index_barrier : sm Index fault unit :=
  do! _ <- Index_seal; on_device blk_flush.

(** Names in the order of their bytes, as the map walks them. *)
Fixpoint bytes_le (x y : list Z) : bool :=
  match x, y with
  | [], _ => true
  | _ :: _, [] => false
  | a :: x, b :: y => (a <? b) || ((a =? b) && bytes_le x y)
  end.

Definition name_le (x y : list Z * list Z) : Prop := bytes_le x.1 y.1.
#[local] Instance name_le_dec : RelDecision name_le.
Proof. intros x y. unfold name_le. apply _. Defined.

Definition Index_pinned_roots (me : Index) : list (list Z * list Z) :=
  match ix_entries me !! ns_PIN with
  | None => []
  | Some pins => merge_sort name_le (map_to_list pins)
  end.

(** ** Sequences of calls *)
Inductive Call : Type :=
| CSet (namespace : Z) (name hash : list Z)
| CRemove (namespace : Z) (name : list Z)
| CPin (name root : list Z)
| CUnpin (name : list Z)
| CBarrier.

Definition perform (c : Call) : sm Index fault unit :=
  match c with
  | CSet namespace name hash => Index_set namespace name hash
  | CRemove namespace name => Index_remove namespace name
  | CPin name root => Index_pin name root
  | CUnpin name => Index_unpin name
  | CBarrier => Index_barrier
  end.

Fixpoint perform_all (cs : list Call) (me : Index) : list (res fault unit) * Index :=
  match cs with
  | [] => ([], me)
  | c :: cs =>
      let '(r, me) := perform c me in
      let '(rs, me) := perform_all cs me in (r :: rs, me)
  end.
End index.
Arguments Index D : clear implicits.
