(* ===== verification/IndexFacts.v ===== *)
(** * The index's log, as a list of batches

    [log] says what a region of a device holds: blocks of entries, one batch
    each, and a blank block where they end.  Replaying reads exactly that back,
    from any device, and the invariant [Index_ok] ties a mounted index to the
    batches it has sealed and the entries it has not. *)

From S2P Require Import Prelude Abi Bytes StoreRecords StoreCodecs IndexRecord BlockDevice Index.

(** ** What a block holds *)
Definition encodes (es : list Entry) : list Z := concat (Entry_encode <$> es).

(** Where the entries of a block stop. *)
Definition ending (rest : list Z) : Prop := (length rest < HEAD_BYTES)%nat ∨ padding_at rest 0 = true.

Definition block_holds (block : list Z) (es : list Entry) : Prop :=
  es ≠ [] ∧ Forall Entry_valid es ∧ ∃ rest, block = encodes es ++ rest ∧ ending rest.

Lemma padding_at_app l rest : padding_at (l ++ rest) (length l) = padding_at rest 0.
Proof.
  unfold padding_at. rewrite length_app. unfold slice. rewrite drop_app_length, drop_0.
  destruct (Nat.ltb_spec (length l + length rest) (length l + 4)), (Nat.ltb_spec (length rest) (0 + 4));
    done || lia.
Qed.

Lemma padding_at_drop block cursor :
  (cursor ≤ length block)%nat → padding_at block cursor = padding_at (drop cursor block) 0.
Proof.
  intros. rewrite <- (padding_at_app (take cursor block)), take_drop, length_take. by rewrite Nat.min_l.
Qed.

Lemma encodes_cons e es : encodes (e :: es) = Entry_encode e ++ encodes es.
Proof. done. Qed.

Lemma encodes_app es1 es2 : encodes (es1 ++ es2) = encodes es1 ++ encodes es2.
Proof. unfold encodes. by rewrite fmap_app, concat_app. Qed.

Lemma encodes_snoc es e : encodes (es ++ [e]) = encodes es ++ Entry_encode e.
Proof. rewrite encodes_app. f_equal. apply app_nil_r. Qed.

Lemma encodes_bytes es : Forall Entry_valid es → byte_list (encodes es).
Proof.
  induction 1 as [|e es He _ IH]; [constructor|]. rewrite encodes_cons.
  apply Forall_app. split; [by apply Entry_encode_bytes|done].
Qed.

Lemma encode_not_ending e rest : Entry_valid e → ¬ ending (Entry_encode e ++ rest).
Proof.
  intros Hv [Hl|Hp]; [|by rewrite Entry_encode_not_padding in Hp].
  rewrite length_app, Entry_encode_length in Hl by done. unfold entry_width in Hl. lia.
Qed.

Lemma encodes_nonempty es : Forall Entry_valid es → es ≠ [] → encodes es ≠ [].
Proof.
  destruct 1 as [|e es He _]; [done|]. intros _ E. apply (f_equal length) in E.
  rewrite encodes_cons, length_app, Entry_encode_length in E by done. unfold entry_width, HEAD_BYTES in E.
  cbn in E. lia.
Qed.

(** A block holds one list of entries. *)
Lemma encodes_unique es1 es2 r1 r2 :
  Forall Entry_valid es1 → Forall Entry_valid es2 → ending r1 → ending r2 →
  encodes es1 ++ r1 = encodes es2 ++ r2 → es1 = es2.
Proof.
  intros H1. revert es2. induction H1 as [|e1 es1 Hv1 _ IH]; intros es2 H2 E1 E2 E.
  - destruct H2 as [|e2 es2 Hv2 _]; [done|]. rewrite encodes_cons, <- (assoc_L (++)) in E. cbn in E. subst r1.
    by apply encode_not_ending in E1.
  - destruct H2 as [|e2 es2 Hv2 H2].
    + rewrite encodes_cons, <- (assoc_L (++)) in E. cbn in E. subst r2. by apply encode_not_ending in E2.
    + rewrite !encodes_cons, <- !(assoc_L (++)) in E.
      pose proof (Entry_from_encode e1 (encodes es1 ++ r1) Hv1) as F. rewrite E, Entry_from_encode in F by done.
      injection F as ->. apply app_inv_head in E. f_equal. by apply IH.
Qed.

Lemma block_holds_unique block es1 es2 : block_holds block es1 → block_holds block es2 → es1 = es2.
Proof.
  intros (_ & V1 & r1 & -> & E1) (_ & V2 & r2 & E & E2). by apply (encodes_unique es1 es2 r1 r2).
Qed.

Lemma block_holds_not_padding block es : block_holds block es → padding_at block 0 = false.
Proof.
  intros (Hne & V & rest & -> & _). destruct V as [|e es Hv _]; [done|].
  rewrite encodes_cons, <- (assoc_L (++)). by apply Entry_encode_not_padding.
Qed.

(** ** The inner loop *)
Definition unreadable (f : fault) : Prop := f = Refused refusal_MALFORMED ∨ f = Refused refusal_UNKNOWN.

Lemma Entry_from_slice_errors raw f :
  (HEAD_BYTES ≤ length raw)%nat → Entry_from_slice raw = Err f → unreadable f.
Proof.
  unfold Entry_from_slice, unreadable. intros Hl H.
  destruct (lookup_lt_is_Some_2 raw 6) as [x6 L6]; [unfold HEAD_BYTES in Hl; lia|].
  destruct (lookup_lt_is_Some_2 raw 7) as [x7 L7]; [unfold HEAD_BYTES in Hl; lia|].
  rewrite L6, L7, entry_bytes_spec in H.
  repeat (case_decide || case_match; rsimpl_in H); simplify_eq; auto.
Qed.

Lemma replay_block_holds es : ∀ fuel pre rest entries,
  Forall Entry_valid es → (length es < fuel)%nat → ending rest →
  let block := pre ++ encodes es ++ rest in
  replay_block fuel (length block) block (length pre) entries = (Ok tt, foldl apply_entry entries es).
Proof.
  induction es as [|e es IH]; intros fuel pre rest entries HV Hf He block;
    (destruct fuel as [|fuel]; [lia|]); cbn [replay_block].
  - unfold block. cbn [encodes fmap list_fmap concat app foldl]. rewrite padding_at_app.
    destruct He as [He|He].
    + rewrite (proj2 (Nat.leb_gt _ _)); [done|]. rewrite length_app. lia.
    + rewrite He. cbn [negb]. by rewrite andb_false_r.
  - apply list.Forall_cons in HV as [Hv HV].
    assert (Eb : block = pre ++ Entry_encode e ++ encodes es ++ rest).
    { unfold block. by rewrite encodes_cons, <- (assoc_L (++)). }
    assert (Hw : length block = (length pre + (entry_width e + (length (encodes es ++ rest))))%nat).
    { by rewrite Eb, !length_app, (Entry_encode_length e Hv). }
    rewrite (proj2 (Nat.leb_le _ _)) by (rewrite Hw; unfold entry_width; lia).
    rewrite Eb at 1. rewrite padding_at_app, Entry_encode_not_padding by done. cbn [andb negb].
    rewrite Eb at 1. rewrite drop_app_length, Entry_from_encode by done. rsimpl.
    rewrite encoded_bytes_valid by done. rsimpl.
    specialize (IH fuel (pre ++ Entry_encode e) rest (apply_entry entries e) HV).
    rewrite <- (assoc_L (++)), <- Eb in IH. rewrite length_app, Entry_encode_length in IH by done.
    cbn [foldl]. apply IH; [cbn in Hf; lia|done].
Qed.

Lemma replay_block_total fuel block cursor entries :
  byte_list block → (cursor ≤ length block)%nat → (length block - cursor < fuel)%nat →
  (∃ es rest, Forall Entry_valid es ∧ drop cursor block = encodes es ++ rest ∧ ending rest ∧
     replay_block fuel (length block) block cursor entries = (Ok tt, foldl apply_entry entries es)) ∨
  ∃ f entries', unreadable f ∧ replay_block fuel (length block) block cursor entries = (Err f, entries').
Proof.
  revert cursor entries. induction fuel as [|fuel IH]; intros cursor entries Hb Hc Hf; [lia|].
  cbn [replay_block]. rewrite padding_at_drop by done.
  destruct (Nat.leb_spec (cursor + HEAD_BYTES) (length block)) as [Hle|Hlt].
  2:{ left. exists [], (drop cursor block). split_and!; [constructor|done| |done].
      left. rewrite length_drop. lia. }
  destruct (padding_at (drop cursor block) 0) eqn:Hp; cbn [andb negb].
  { left. exists [], (drop cursor block). split_and!; [constructor|done|by right|done]. }
  destruct (Entry_from_slice (drop cursor block)) as [e|f] eqn:He; rsimpl.
  2:{ right. exists f, entries. split; [|done].
      eapply Entry_from_slice_errors; [|done]. rewrite length_drop. lia. }
  apply Entry_from_slice_inv in He as [Hv Eq]; [|by apply Forall_drop].
  rewrite encoded_bytes_valid by done. rsimpl. rewrite drop_drop in Eq.
  assert (Hw : (cursor + entry_width e ≤ length block)%nat).
  { apply (f_equal length) in Eq. rewrite length_app, !length_drop, Entry_encode_length in Eq by done. lia. }
  destruct (IH (cursor + entry_width e)%nat (apply_entry entries e)) as [(es & rest & V & Ed & En & Er)|Hbad];
    [done|done|unfold entry_width, HEAD_BYTES in *; lia| |by right].
  left. exists (e :: es), rest. split_and!; [by constructor| |done|done].
  rewrite encodes_cons, <- (assoc_L (++)), <- Ed. done.
Qed.

(** ** The log on a device *)
Section log.
Context {D : Type} `{DeviceLaws D}.
Implicit Types (d : D) (me : Index D).

(** A region that can be a log at all. *)
Record region (d : D) (first blocks : Z) : Prop := {
  rg_ok : blk_ok d;
  rg_wide : Z.of_nat ENTRY_MAX_BYTES ≤ blk_bytes d;
  rg_first : 0 ≤ first;
  rg_blocks : 0 < blocks;
  rg_end : first + blocks ≤ blk_count d;
}.

Definition sealed_blocks (d : D) (first : Z) (batches : list (list Entry)) : Prop :=
  ∀ i es, batches !! i = Some es → block_holds (blk_view d (first + Z.of_nat i)) es.

Definition blank (d : D) (first n : Z) : Prop := padding_at (blk_view d (first + n)) 0 = true.

(** The region holds these batches and ends there. *)
Definition log (d : D) (first blocks : Z) (batches : list (list Entry)) : Prop :=
  region d first blocks ∧ Z.of_nat (length batches) ≤ blocks ∧ sealed_blocks d first batches ∧
  (Z.of_nat (length batches) < blocks → blank d first (Z.of_nat (length batches))).

Record Index_ok (me : Index D) (batches : list (list Entry)) (unsealed : list Entry) : Prop := {
  io_region : region (ix_device me) (ix_first me) (ix_blocks me);
  io_used : ix_used me = Z.of_nat (length batches) ∧ ix_used me ≤ ix_blocks me;
  io_sealed : sealed_blocks (ix_device me) (ix_first me) batches;
  io_valid : Forall Entry_valid unsealed;
  io_pending : ix_pending me = encodes unsealed;
  io_fits : Z.of_nat (length (ix_pending me)) ≤ blk_bytes (ix_device me);
  io_room : unsealed ≠ [] → ix_used me < ix_blocks me;
  io_entries : ix_entries me = foldl apply_entry ∅ (concat batches ++ unsealed);
}.

Lemma region_same d d' first blocks : region d first blocks → same_shape d d' → region d' first blocks.
Proof. intros [] (? & E1 & E2). constructor; rewrite ?E1, ?E2; done. Qed.

Lemma sealed_same d d' first batches :
  sealed_blocks d first batches → (∀ b, blk_view d' b = blk_view d b) → sealed_blocks d' first batches.
Proof. intros Hs E i es Hi. rewrite E. by apply Hs. Qed.

Lemma log_same d d' first blocks batches :
  log d first blocks batches → same_blocks d d' → log d' first blocks batches.
Proof.
  intros (Hr & Hl & Hs & Hb) [S V]. split_and!; [by eapply region_same|done|by eapply sealed_same|].
  intros Hlt. unfold blank. rewrite V. by apply Hb.
Qed.

(** A device call that changes no block keeps the index as it is. *)
Lemma Index_ok_device me d' B P :
  Index_ok me B P → same_blocks (ix_device me) d' → Index_ok (with_device me d') B P.
Proof.
  intros [] [S V]. constructor; cbn; try done.
  - by eapply region_same.
  - by eapply sealed_same.
  - destruct S as (_ & -> & _). done.
Qed.

Lemma sealed_snoc d first B es :
  sealed_blocks d first B → block_holds (blk_view d (first + Z.of_nat (length B))) es →
  sealed_blocks d first (B ++ [es]).
Proof.
  intros Hs Hb i es' Hi. apply lookup_app_Some in Hi as [Hi|[Hge Hi]]; [by apply Hs|].
  apply list_lookup_singleton_Some in Hi as [Hz <-]. by replace i with (length B) by lia.
Qed.

(** A region has one log. *)
Lemma log_unique d first blocks B1 B2 : log d first blocks B1 → log d first blocks B2 → B1 = B2.
Proof.
  assert (W : ∀ A B, log d first blocks A → log d first blocks B → (length A ≤ length B)%nat → A = B).
  { intros A B (_ & _ & SA & EA) (_ & LB & SB & _) Hlen.
    assert (Heq : ∀ i es, A !! i = Some es → B !! i = Some es).
    { intros i es Hi. destruct (B !! i) as [es'|] eqn:Hi'.
      - f_equal. exact (block_holds_unique _ _ _ (SB _ _ Hi') (SA _ _ Hi)).
      - apply lookup_lt_Some in Hi. apply lookup_ge_None in Hi'. lia. }
    destruct (decide (length A = length B)) as [El|Hne].
    - apply list_eq_same_length with (length A); [done|done|].
      intros i x y _ Hx Hy. apply Heq in Hx. congruence.
    - exfalso. destruct (lookup_lt_is_Some_2 B (length A)) as [es Hes]; [lia|].
      pose proof (EA ltac:(lia)) as Hbl. unfold blank in Hbl.
      by rewrite (block_holds_not_padding _ _ (SB _ _ Hes)) in Hbl. }
  intros L1 L2. destruct (decide (length B1 ≤ length B2)%nat); [by apply W|].
  symmetry. apply W; [done|done|lia].
Qed.

(** ** Replaying *)
Definition same_place (me me' : Index D) : Prop :=
  ix_first me' = ix_first me ∧ ix_blocks me' = ix_blocks me ∧ same_blocks (ix_device me) (ix_device me').

Lemma same_place_trans me1 me2 me3 : same_place me1 me2 → same_place me2 me3 → same_place me1 me3.
Proof.
  intros (F1 & B1 & S1) (F2 & B2 & S2). split_and!; [congruence|congruence|].
  by eapply same_blocks_trans.
Qed.

Lemma replay_turn_spec me B :
  Index_ok me B [] → ix_used me < ix_blocks me →
  let block := blk_view (ix_device me) (ix_first me + ix_used me) in
  match replay_turn me with
  | (Err f, _) => blk_read_fault f ∨ unreadable f ∧ padding_at block 0 = false ∧ ∀ es, ¬ block_holds block es
  | (Ok false, me') => padding_at block 0 = true ∧ Index_ok me' B [] ∧ same_place me me'
  | (Ok true, me') => ∃ es, block_holds block es ∧ Index_ok me' (B ++ [es]) [] ∧ same_place me me'
  end.
Proof.
  intros Hok Hlt block. destruct (id Hok) as [Hr [Hu Hub] Hs _ Hp Hf _ He].
  unfold replay_turn, sm_bind at 1, on_device. cbn beta.
  destruct (blk_read (ix_first me + ix_used me) (blk_bytes (ix_device me)) (ix_device me)) as [r d'] eqn:E.
  assert (Hin : 0 ≤ ix_first me + ix_used me < blk_count (ix_device me)) by (destruct Hr; lia).
  destruct (law_read _ _ _ _ _ (rg_ok _ _ _ Hr) (proj1 Hin) E) as [Hsame Hres].
  destruct Hres as [(e & -> & He')|[[Ha ->]|[Hna _]]]; [by cbn; left| |by exfalso; apply Hna].
  fold block. cbn beta iota.
  destruct (law_view (ix_device me) _ (rg_ok _ _ _ Hr) Hin) as [Hbytes Hlen]. fold block in Hbytes, Hlen.
  set (me1 := with_device me d').
  assert (Hok1 : Index_ok me1 B []) by (by apply Index_ok_device).
  destruct (padding_at block 0) eqn:Hpad; [by split_and!|].
  unfold on_entries.
  assert (El : block_len me = length block) by (unfold block_len; lia).
  unfold sm_bind. rewrite El.
  destruct (replay_block_total (S (length block)) block 0 (ix_entries me1) Hbytes) as
    [(es & rest & V & Ed & En & Er)|(f & entries' & Hun & Er)]; [lia|lia| |].
  - rewrite Er. rsimpl. rewrite drop_0 in Ed.
    assert (Hh : block_holds block es).
    { split; [|split; [done|by exists rest]]. intros ->. cbn in Ed. subst rest.
      destruct En as [Hsh|]; [|congruence]. destruct Hr. unfold ENTRY_MAX_BYTES, HEAD_BYTES in *. lia. }
    exists es. split; [done|]. split; [|done].
    constructor; cbn; rewrite ?length_app; cbn; try done.
    + apply Hok1.
    + lia.
    + apply sealed_snoc; [apply Hok1|]. destruct Hsame as [_ ->]. rewrite <- Hu. done.
    + rewrite Hp. cbn. destruct Hr, Hsame as [(_ & -> & _) _]. lia.
    + rewrite concat_app, app_nil_r, foldl_app. cbn. rewrite app_nil_r, He, app_nil_r. done.
  - rewrite Er. right. split; [done|]. split; [done|]. intros es (_ & V & rest & Eb & En).
    pose proof (replay_block_holds es (S (length block)) [] rest (ix_entries me1) V) as F.
    cbn [app] in F. rewrite <- Eb in F. cbn zeta in F. cbn [length] in F. rewrite F in Er; [done| |done].
    rewrite Eb, length_app. enough (length es ≤ length (encodes es))%nat by lia.
    clear -V. induction V as [|e es Hv _ IH]; [done|]. rewrite encodes_cons, length_app, Entry_encode_length by done.
    unfold entry_width, HEAD_BYTES. cbn [length]. lia.
Qed.

Lemma log_of_ok me B :
  Index_ok me B [] → (ix_used me < ix_blocks me → blank (ix_device me) (ix_first me) (ix_used me)) →
  log (ix_device me) (ix_first me) (ix_blocks me) B.
Proof.
  intros [Hr [Hu Hub] Hs _ _ _ _ _] Hb. rewrite Hu in *. by split_and!.
Qed.

Lemma same_blocks_sym d1 d2 : blk_ok d1 → same_blocks d1 d2 → same_blocks d2 d1.
Proof. intros O [(_ & E1 & E2) V]. by split_and!. Qed.

(** A log does not stop at, or run past, a block that is neither blank nor a
    batch. *)
Lemma log_runs_on d first blocks B B' :
  log d first blocks B' → sealed_blocks d first B →
  padding_at (blk_view d (first + Z.of_nat (length B))) 0 = false →
  (∀ es, ¬ block_holds (blk_view d (first + Z.of_nat (length B))) es) → Z.of_nat (length B) < blocks → False.
Proof.
  intros (_ & _ & S' & E') S Hp Hh Hlt.
  destruct (Nat.lt_total (length B') (length B)) as [Hl|[Hl|Hl]].
  - destruct (lookup_lt_is_Some_2 B _ Hl) as [es Hes].
    pose proof (block_holds_not_padding _ _ (S _ _ Hes)) as Hnp. pose proof (E' ltac:(lia)) as Hb.
    unfold blank in Hb. congruence.
  - rewrite <- Hl in *. pose proof (E' Hlt) as Hb. unfold blank in Hb. congruence.
  - destruct (lookup_lt_is_Some_2 B' _ Hl) as [es Hes]. exact (Hh es (S' _ _ Hes)).
Qed.

Lemma replay_spec fuel : ∀ me B,
  Index_ok me B [] → ix_blocks me - ix_used me ≤ Z.of_nat fuel →
  match replay fuel me with
  | (Ok _, me') => ∃ B', Index_ok me' B' [] ∧ same_place me me' ∧
      log (ix_device me) (ix_first me) (ix_blocks me) B'
  | (Err f, _) => blk_read_fault f ∨
      unreadable f ∧ ∀ B', ¬ log (ix_device me) (ix_first me) (ix_blocks me) B'
  end.
Proof.
  induction fuel as [|fuel IH]; intros me B Hok Hf; cbn [replay];
    (destruct (Z.ltb_spec (ix_used me) (ix_blocks me)) as [Hlt|Hge];
     [|exists B; split; [done|]; split;
       [split_and!; try done; apply same_blocks_refl, (io_region _ _ _ Hok)|apply log_of_ok; [done|lia]]]).
  { lia. }
  pose proof (replay_turn_spec me B Hok Hlt) as T. cbn zeta in T. unfold sm_bind.
  destruct (id Hok) as [Hr [Hu _] Hs _ _ _ _ _].
  destruct (replay_turn me) as [[[]|f] me1].
  - destruct T as (es & _ & Hok1 & P).
    assert (E1 : ix_used me1 = ix_used me + 1).
    { rewrite (proj1 (io_used _ _ _ Hok1)), length_app, Hu. cbn. lia. }
    pose proof (IH me1 _ Hok1) as T. destruct P as (F1 & F2 & S). rewrite F1, F2 in T.
    specialize (T ltac:(lia)). pose proof (same_blocks_sym _ _ (rg_ok _ _ _ Hr) S) as S'.
    destruct (replay fuel me1) as [[u|f] me2].
    + destruct T as (B' & Hok2 & P2 & L). exists B'. split; [done|]. split; [|by eapply log_same].
      by eapply same_place_trans.
    + destruct T as [|[Hun HB]]; [by left|right]. split; [done|]. intros B' L. apply (HB B').
      by eapply log_same.
  - destruct T as (Hp & Hok1 & P). exists B. split; [done|]. split; [done|]. by apply log_of_ok.
  - destruct T as [|(Hun & Hp & Hh)]; [by left|right]. split; [done|]. intros B' L.
    rewrite Hu in *. by apply (log_runs_on _ _ _ _ _ L Hs).
Qed.

(** Mounting reads a region's log back, or says there is none. *)
Lemma mount_spec d first blocks :
  blk_ok d → 0 ≤ first → 0 ≤ blocks →
  match Index_mount d first blocks with
  | Ok me => ∃ B, log d first blocks B ∧ Index_ok me B [] ∧
      ix_first me = first ∧ ix_blocks me = blocks ∧ same_blocks d (ix_device me)
  | Err f =>
      blk_read_fault f ∨ (f = Refused refusal_ADDRESS ∨ unreadable f) ∧ ∀ B, ¬ log d first blocks B
  end.
Proof.
  intros Hd Hf Hb. unfold Index_mount.
  destruct (Z.ltb_spec (blk_bytes d) (Z.of_nat ENTRY_MAX_BYTES)) as [Hw|Hw].
  { right. split; [right; by left|]. intros B ([] & _). lia. }
  destruct (Z.eqb_spec blocks 0) as [->|Hb0]; cbn [orb].
  { right. split; [by left|]. intros B ([] & _). lia. }
  destruct (law_shape d Hd) as [Hc _].
  destruct (Z.ltb_spec u64_max (first + blocks)) as [Hm|Hm]; cbn [orb].
  { right. split; [by left|]. intros B ([] & _). lia. }
  destruct (Z.ltb_spec (blk_count d) (first + blocks)) as [He|He].
  { right. split; [by left|]. intros B ([] & _). lia. }
  set (me := mkIndex d first blocks 0 [] ∅).
  assert (Hok : Index_ok me [] []).
  { pose proof (proj2 (law_shape d Hd)). constructor; cbn -[ENTRY_MAX_BYTES]; try done; [constructor; try done; lia|lia]. }
  pose proof (replay_spec (Z.to_nat blocks) me [] Hok ltac:(cbn; lia)) as R.
  destruct (replay (Z.to_nat blocks) me) as [[u|f] me'].
  - destruct R as (B & HokB & (F & N & S) & L). by exists B.
  - destruct R as [|[Hun HB]]; [by left|]. right. split; [by right|done].
Qed.

(** ** Writing *)

(** What a call may change: the blocks of the region from the log's end on. *)
Definition writes_log (me me' : Index D) (B B' : list (list Entry)) : Prop :=
  ix_first me' = ix_first me ∧ ix_blocks me' = ix_blocks me ∧
  same_shape (ix_device me) (ix_device me') ∧ (∃ more, B' = B ++ more) ∧
  ∀ b, 0 ≤ b → ¬ (ix_first me + ix_used me ≤ b < ix_first me + ix_used me') →
    blk_view (ix_device me') b = blk_view (ix_device me) b.

Lemma seal_spec me B P :
  Index_ok me B P →
  match Index_seal me with
  | (Ok _, me') => ∃ B', Index_ok me' B' [] ∧ writes_log me me' B B' ∧ concat B' = concat B ++ P ∧
      ix_entries me' = ix_entries me
  | (Err f, me') => blk_write_fault f ∧ Index_ok me' B P ∧ writes_log me me' B B ∧
      ix_entries me' = ix_entries me
  end.
Proof.
  intros Hok. destruct (id Hok) as [Hr [Hu Hub] Hs Hv Hp Hf Hroom He]. unfold Index_seal.
  assert (Hrefl : writes_log me me B B).
  { split_and!; try done; [split; [apply Hr|done]|]. exists []. by rewrite app_nil_r. }
  case_bool_decide as Hempty.
  { assert (P = []) as ->.
    { destruct (decide (P = [])) as [|Hne]; [done|]. by destruct (encodes_nonempty P Hv Hne); rewrite <- Hp. }
    exists B. split; [done|]. split; [done|]. by rewrite app_nil_r. }
  assert (Hne : P ≠ []) by (intros ->; by apply Hempty). specialize (Hroom Hne).
  rewrite (proj2 (Z.leb_gt _ _)) by done.
  assert (Hlen : (length (ix_pending me) ≤ block_len me)%nat) by (unfold block_len; lia).
  rewrite (proj2 (Nat.ltb_ge _ _)) by done.
  set (block := put (zeroed (block_len me)) 0 (ix_pending me)).
  assert (Eb : block = encodes P ++ zeroed (block_len me - length (encodes P))).
  { unfold block, put. rewrite take_0. cbn [app Nat.add]. rewrite Hp. f_equal. apply drop_replicate. }
  assert (Hblen : Z.of_nat (length block) = blk_bytes (ix_device me)).
  { rewrite Eb, length_app, <- Hp. unfold zeroed. rewrite length_replicate. unfold block_len in *. lia. }
  assert (Hby : byte_list block).
  { rewrite Eb. apply Forall_app. split; [by apply encodes_bytes|]. by apply Forall_replicate. }
  assert (Hholds : block_holds block P).
  { split; [done|]. split; [done|]. eexists. split; [exact Eb|]. unfold ending, padding_at, zeroed.
    rewrite length_replicate. set (n := (block_len me - _)%nat). destruct (Nat.ltb_spec n (0 + 4)); [by right|].
    right. apply bool_decide_eq_true. unfold slice, zeroed. rewrite drop_0, take_replicate.
    by rewrite Nat.min_l by lia. }
  unfold sm_bind, on_device.
  destruct (blk_write (ix_first me + ix_used me) block (ix_device me)) as [r d'] eqn:E.
  assert (Hin : 0 ≤ ix_first me + ix_used me < blk_count (ix_device me)) by (destruct Hr; lia).
  destruct (law_write _ _ _ _ _ (rg_ok _ _ _ Hr) Hin Hby E) as
    [(Hsame & e & -> & Hw)|[(_ & -> & Hshape & Hview)|(Hna & _)]];
    [| |by exfalso; apply Hna].
  { split; [done|]. split; [by apply Index_ok_device|]. split; [|done].
    destruct Hsame as [Hs1 Hs2]. split_and!; try done. exists []. by rewrite app_nil_r. }
  cbn. exists (B ++ [P]). split; [|split; [split_and!; try done; [by exists [P]|]|split; [|done]]].
  - constructor; cbn; try done.
    + by eapply region_same.
    + rewrite length_app. cbn. lia.
    + apply sealed_snoc.
      * intros i es Hi. rewrite Hview by (destruct Hr; lia). rewrite decide_False; [by apply Hs|].
        apply lookup_lt_Some in Hi. lia.
      * rewrite Hview, decide_True by (destruct Hr; lia). done.
    + destruct Hr, Hshape as (_ & -> & _). unfold ENTRY_MAX_BYTES, HEAD_BYTES in *. lia.
    + rewrite concat_app, ?app_nil_r; cbn; by rewrite app_nil_r.
  - intros b Hb Hn. cbn in Hn. rewrite Hview, decide_False; [done|lia|done].
  - rewrite concat_app, ?app_nil_r; cbn; by rewrite app_nil_r.
Qed.

Lemma writes_log_refl me B P : Index_ok me B P → writes_log me me B B.
Proof.
  intros [Hr _ _ _ _ _ _ _]. split_and!; try done; [split; [apply Hr|done]|]. exists []. by rewrite app_nil_r.
Qed.

Lemma writes_log_trans me1 me2 me3 B1 B2 B3 :
  ix_used me1 ≤ ix_used me2 ≤ ix_used me3 →
  writes_log me1 me2 B1 B2 → writes_log me2 me3 B2 B3 → writes_log me1 me3 B1 B3.
Proof.
  intros Hu (F1 & N1 & (_ & S1 & C1) & [m1 E1] & V1) (F2 & N2 & (K & S2 & C2) & [m2 E2] & V2).
  split; [congruence|]. split; [congruence|]. split; [split_and!; congruence|].
  split; [exists (m1 ++ m2); by rewrite E2, E1, (assoc_L (++))|].
  intros b Hb Hn. rewrite V2, V1 by lia. done.
Qed.

(** An entry the format can hold, put where there is room. *)
Lemma append_here_spec me B P e :
  Index_ok me B P → Entry_valid e →
  Z.of_nat (length (ix_pending me) + entry_width e) ≤ blk_bytes (ix_device me) →
  match append_here e (entry_width e) me with
  | (Ok _, me') => ix_pending me' = encodes (P ++ [e]) ∧ ix_used me < ix_blocks me ∧
      me' = with_pending me (ix_pending me')
  | (Err f, me') => f = Refused refusal_FULL ∧ me' = me ∧ ix_blocks me ≤ ix_used me
  end.
Proof.
  intros Hok Hv Hfit. unfold append_here. destruct (Z.leb_spec (ix_blocks me) (ix_used me)); [done|].
  cbn -[Entry_to_slice entry_width Entry_encode]. rewrite drop_app_length, Entry_to_slice_encode by done.
  cbn -[entry_width Entry_encode]. rewrite take_app_length, encodes_snoc, <- (io_pending _ _ _ Hok). by split_and!.
Qed.

(** Recording an entry: it joins the log's end, in memory and in the block to
    be sealed, or nothing believed changes. *)
Lemma record_spec me B P e :
  Index_ok me B P → index_op_known (en_op e) = true → is_digest (en_hash e) → byte_list (en_name e) →
  match record_entry e me with
  | (Ok _, me') => Entry_valid e ∧ ix_entries me' = apply_entry (ix_entries me) e ∧
      ∃ B' P', Index_ok me' B' P' ∧ writes_log me me' B B' ∧ concat B' ++ P' = (concat B ++ P) ++ [e]
  | (Err f, me') => ix_entries me' = ix_entries me ∧
      (∃ B' P', Index_ok me' B' P' ∧ writes_log me me' B B' ∧ concat B' ++ P' = concat B ++ P) ∧
      (f = Refused refusal_MALFORMED ∧ ¬ (0 < length (en_name e) ≤ index_NAME_MAX)%nat ∨
       f = Refused refusal_UNKNOWN ∧ ns_known (en_namespace e) = false ∨
       f = Refused refusal_FULL ∧ ix_used me' = ix_blocks me' ∨
       blk_write_fault f)
  end.
Proof.
  intros Hok Hop Hh Hn.
  unfold record_entry, Index_append. unfold sm_bind at 1 2, sm_lift, encoded_bytes. rewrite entry_bytes_spec.
  case_decide as Hlen.
  2:{ split; [done|]. split; [exists B, P; split_and!; eauto using writes_log_refl|]. by left. }
  destruct (ns_known (en_namespace e)) eqn:Hns; cbn [negb].
  2:{ split; [done|]. split; [exists B, P; split_and!; eauto using writes_log_refl|]. by right; left. }
  assert (Hv : Entry_valid e) by done. fold (entry_width e).
  unfold sm_bind, sm_get. cbn beta iota.
  assert (Hroom : Z.of_nat (entry_width e) ≤ blk_bytes (ix_device me)).
  { pose proof (rg_wide _ _ _ (io_region _ _ _ Hok)). unfold entry_width, ENTRY_MAX_BYTES in *. lia. }
  (* the state [append_here] starts from *)
  assert (Hseal : match (if (block_len me <? length (ix_pending me) + entry_width e)%nat
                         then Index_seal else sm_ret tt) me with
    | (Ok _, me1) => ix_entries me1 = ix_entries me ∧ ∃ B1 P1, Index_ok me1 B1 P1 ∧ writes_log me me1 B B1 ∧
        concat B1 ++ P1 = concat B ++ P ∧
        Z.of_nat (length (ix_pending me1) + entry_width e) ≤ blk_bytes (ix_device me1)
    | (Err f, me1) => blk_write_fault f ∧ Index_ok me1 B P ∧ writes_log me me1 B B ∧ ix_entries me1 = ix_entries me
    end).
  { destruct (Nat.ltb_spec (block_len me) (length (ix_pending me) + entry_width e)) as [Hbig|Hsmall].
    - pose proof (seal_spec me B P Hok) as S. destruct (Index_seal me) as [[u|f] me1]; [|done].
      destruct S as (B1 & Hok1 & W & Ec & Ee). split; [done|]. exists B1, []. rewrite app_nil_r.
      split_and!; try done. rewrite (io_pending _ _ _ Hok1). cbn.
      destruct W as (_ & _ & (_ & -> & _) & _). done.
    - split; [done|]. exists B, P. split_and!; eauto using writes_log_refl.
      unfold block_len in Hsmall. pose proof (proj2 (law_shape _ (rg_ok _ _ _ (io_region _ _ _ Hok)))). lia. }
  destruct ((if (block_len me <? _)%nat then Index_seal else sm_ret tt) me) as [[u|f] me1].
  2:{ destruct Hseal as (Hw & Hok1 & W & Ee). split; [done|]. split; [by exists B, P|]. by right; right; right. }
  destruct Hseal as (Ee & B1 & P1 & Hok1 & W & Ec & Hfit).
  pose proof (append_here_spec me1 B1 P1 e Hok1 Hv Hfit) as A.
  destruct (append_here e (entry_width e) me1) as [[u'|f] me2].
  2:{ destruct A as (-> & -> & Hfull). split; [done|]. split; [by exists B1, P1|]. right; right; left.
      pose proof (proj2 (io_used _ _ _ Hok1)). split; [done|lia]. }
  destruct A as (Ep & Hlt & Eme). cbn. split; [done|]. rewrite Eme. cbn. split; [by rewrite Ee|].
  exists B1, (P1 ++ [e]). split; [|split; [done|by rewrite (assoc_L (++)), Ec]].
  destruct Hok1 as [Hr1 Hu1 Hs1 Hv1 Hp1 Hf1 Hr1' He1]. constructor; cbn; try done.
  - apply Forall_app. split; [done|]. by apply list.Forall_cons_2; [|constructor].
  - rewrite Ep, encodes_snoc, length_app, <- Hp1, Entry_encode_length by done. lia.
  - rewrite (assoc_L (++)), foldl_app, <- He1. done.
Qed.

Lemma barrier_spec me B P :
  Index_ok me B P →
  match Index_barrier me with
  | (Ok _, me') => ∃ B', Index_ok me' B' [] ∧ writes_log me me' B B' ∧ concat B' = concat B ++ P ∧
      ix_entries me' = ix_entries me
  | (Err _, me') => ∃ B' P', Index_ok me' B' P' ∧ writes_log me me' B B' ∧ concat B' ++ P' = concat B ++ P ∧
      ix_entries me' = ix_entries me
  end.
Proof.
  intros Hok. unfold Index_barrier. unfold sm_bind.
  pose proof (seal_spec me B P Hok) as S. destruct (Index_seal me) as [[u|f] me1].
  2:{ destruct S as (_ & Hok1 & W & Ee). by exists B, P. }
  destruct S as (B1 & Hok1 & W & Ec & Ee). unfold on_device.
  destruct (blk_flush (ix_device me1)) as [r d'] eqn:E.
  destruct (law_flush _ _ _ (rg_ok _ _ _ (io_region _ _ _ Hok1)) E) as [Hsame _].
  pose proof (Index_ok_device _ _ _ _ Hok1 Hsame) as Hok2.
  assert (W2 : writes_log me (with_device me1 d') B B1).
  { destruct W as (F & N & (K & S1 & S2) & M & V), Hsame as [(K' & S1' & S2') V'].
    split; [done|]. split; [done|]. split; [split_and!; [done|cbn; congruence|cbn; congruence]|].
    split; [done|]. intros b Hb Hn. cbn. rewrite V'. by apply V. }
  destruct r as [u'|f]; [by exists B1|]. exists B1, []. by rewrite app_nil_r.
Qed.
End log.
