(* ===== verification/IndexTheorems.v ===== *)
(** * The index: what a caller may rely on

    A device is read back exactly or refused; a query answers the last update
    acknowledged; and after a remount the map is what the last barrier made
    durable, plus at most updates acknowledged since, in order. *)

From S2P Require Import Prelude Abi Bytes StoreRecords StoreCodecs IndexRecord BlockDevice Index IndexFacts.
From stdpp Require Import sorting fin_maps.
#[local] Open Scope Z_scope.

(** ** Queries *)
Definition look (entries : Entries) (namespace : Z) (name : list Z) : option (list Z) :=
  entries !! namespace ≫= λ names, names !! name.

Lemma look_apply entries e namespace name :
  look (apply_entry entries e) namespace name =
    if decide (namespace = en_namespace e ∧ name = en_name e)
    then if en_op e =? op_REMOVE then None else Some (en_hash e)
    else look entries namespace name.
Proof.
  unfold look, apply_entry. destruct (Z.eqb_spec (en_op e) op_REMOVE) as [_|_].
  - destruct (entries !! en_namespace e) as [names|] eqn:L.
    + destruct (decide (namespace = en_namespace e)) as [->|Hne].
      * rewrite lookup_insert_eq, L. cbn. destruct (decide (name = en_name e)) as [->|].
        -- rewrite decide_True by done. apply lookup_delete_eq.
        -- rewrite decide_False by tauto. by apply lookup_delete_ne.
      * rewrite lookup_insert_ne, decide_False by (done || tauto). done.
    + case_decide as Hd; [destruct Hd as [-> _]; by rewrite L|done].
  - destruct (decide (namespace = en_namespace e)) as [->|Hne].
    + rewrite lookup_insert_eq. cbn. destruct (decide (name = en_name e)) as [->|].
      * rewrite decide_True by done. apply lookup_insert_eq.
      * rewrite decide_False by tauto. rewrite lookup_insert_ne by done.
        destruct (entries !! en_namespace e); [done|]. cbn. apply lookup_empty.
    + rewrite lookup_insert_ne, decide_False by (done || tauto). done.
Qed.

(** ** Sequences of calls *)
Definition entry_of (c : Call) : option Entry :=
  match c with
  | CSet namespace name hash => Some (mkEntry namespace op_SET hash name)
  | CRemove namespace name => Some (mkEntry namespace op_REMOVE (zeroed 32) name)
  | CPin name root => Some (mkEntry ns_PIN op_SET root name)
  | CUnpin name => Some (mkEntry ns_PIN op_REMOVE (zeroed 32) name)
  | CBarrier => None
  end.

(** The arguments are bytes, and an address is thirty-two of them. *)
Definition call_typed (c : Call) : Prop :=
  match entry_of c with
  | Some e => is_digest (en_hash e) ∧ byte_list (en_name e)
  | None => True
  end.

(** The updates answered [Ok], and those of them answered before the last
    barrier that was. *)
Fixpoint acknowledged (cs : list Call) (rs : list (res fault unit)) (acked durable : list Entry) :
    list Entry * list Entry :=
  match cs, rs with
  | c :: cs, Ok _ :: rs =>
      match entry_of c with
      | Some e => acknowledged cs rs (acked ++ [e]) durable
      | None => acknowledged cs rs acked acked
      end
  | _ :: cs, Err _ :: rs => acknowledged cs rs acked durable
  | _, _ => (acked, durable)
  end.

Section theorems.
Context {D : Type} `{DeviceLaws D}.
Implicit Types (d : D) (me : Index D).

Definition blank_tail me : Prop :=
  ∀ n, ix_used me ≤ n < ix_blocks me → blank (ix_device me) (ix_first me) n.

Lemma perform_update c e : entry_of c = Some e → perform (D := D) c = record_entry e.
Proof. by destruct c; intros [= <-]. Qed.

Lemma entry_of_op c e : entry_of c = Some e → index_op_known (en_op e) = true.
Proof. by destruct c; intros [= <-]. Qed.

Lemma used_grows me me' B B' P P' :
  Index_ok me B P → Index_ok me' B' P' → writes_log me me' B B' → ix_used me ≤ ix_used me'.
Proof.
  intros Hok Hok' (_ & _ & _ & [more ->] & _).
  rewrite (proj1 (io_used _ _ _ Hok)), (proj1 (io_used _ _ _ Hok')), length_app. lia.
Qed.

Lemma blank_tail_writes me me' B B' P P' :
  Index_ok me B P → Index_ok me' B' P' → writes_log me me' B B' → blank_tail me → blank_tail me'.
Proof.
  intros Hok Hok' W Hb n Hn. pose proof (used_grows _ _ _ _ _ _ Hok Hok' W).
  destruct W as (F & N & _ & _ & V). destruct (io_region _ _ _ Hok), (io_used _ _ _ Hok).
  unfold blank. rewrite F, V by lia. apply Hb. lia.
Qed.

(** One call, as far as the log is concerned. *)
Lemma perform_log c me B P :
  Index_ok me B P → call_typed c → blank_tail me →
  let '(r, me') := perform c me in
  ∃ B' P', Index_ok me' B' P' ∧ writes_log me me' B B' ∧ blank_tail me' ∧
    concat B' ++ P' = (concat B ++ P) ++ match r, entry_of c with Ok _, Some e => [e] | _, _ => [] end ∧
    match r, entry_of c with Ok _, None => P' = [] | _, _ => True end.
Proof.
  intros Hok Ht Hb. unfold call_typed in Ht. destruct (entry_of c) as [e|] eqn:Ec.
  - rewrite (perform_update _ _ Ec). destruct Ht as [Hh Hn].
    pose proof (record_spec me B P e Hok (entry_of_op _ _ Ec) Hh Hn) as R.
    destruct (record_entry e me) as [[u|f] me'].
    + destruct R as (_ & _ & B' & P' & Hok' & W & E). exists B', P'. split_and!; eauto using blank_tail_writes.
    + destruct R as (_ & (B' & P' & Hok' & W & E) & _). exists B', P'. rewrite app_nil_r.
      split_and!; eauto using blank_tail_writes.
  - destruct c; try done. cbn [perform]. pose proof (barrier_spec me B P Hok) as R.
    destruct (Index_barrier me) as [[u|f] me'].
    + destruct R as (B' & Hok' & W & E & _). exists B', []. rewrite !app_nil_r.
      split_and!; eauto using blank_tail_writes.
    + destruct R as (B' & P' & Hok' & W & E & _). exists B', P'. rewrite app_nil_r.
      split_and!; eauto using blank_tail_writes.
Qed.

Lemma perform_all_log cs base : ∀ me B P acked durable,
  Index_ok me B P → Forall call_typed cs → blank_tail me →
  concat B ++ P = base ++ acked → (base ++ durable) `prefix_of` concat B → durable `prefix_of` acked →
  let '(rs, me') := perform_all cs me in
  let '(acked', durable') := acknowledged cs rs acked durable in
  ∃ B' P', Index_ok me' B' P' ∧ writes_log me me' B B' ∧ blank_tail me' ∧
    concat B' ++ P' = base ++ acked' ∧ (base ++ durable') `prefix_of` concat B'.
Proof.
  induction cs as [|c cs IH]; intros me B P acked durable Hok Ht Hb E Hd Hda; cbn [perform_all].
  { cbn. exists B, P. split_and!; eauto using writes_log_refl. }
  apply list.Forall_cons in Ht as [Hc Ht].
  pose proof (perform_log c me B P Hok Hc Hb) as Hp. destruct (perform c me) as [r me1].
  destruct Hp as (B1 & P1 & Hok1 & W1 & Hb1 & E1 & Hz).
  assert (Hd1 : (base ++ durable) `prefix_of` concat B1).
  { destruct W1 as (_ & _ & _ & [more ->] & _). rewrite concat_app. by apply prefix_app_r. }
  set (acked1 := match r, entry_of c with Ok _, Some e => acked ++ [e] | _, _ => acked end).
  set (durable1 := match r, entry_of c with Ok _, None => acked | _, _ => durable end).
  assert (Ha : concat B1 ++ P1 = base ++ acked1).
  { rewrite E1, E. unfold acked1. destruct r, (entry_of c); rewrite ?app_nil_r, ?(assoc_L (++)); done. }
  assert (Hd1' : (base ++ durable1) `prefix_of` concat B1 ∧ durable1 `prefix_of` acked1).
  { unfold durable1, acked1 in *. destruct r, (entry_of c); try (split; [done|]); try done.
    - by apply prefix_app_r.
    - subst P1. rewrite app_nil_r in Ha. by rewrite Ha. }
  specialize (IH me1 B1 P1 acked1 durable1 Hok1 Ht Hb1 Ha (proj1 Hd1') (proj2 Hd1')).
  destruct (perform_all cs me1) as [rs me2]. cbn [acknowledged].
  assert (Eack : acknowledged cs rs acked1 durable1 =
    match r with
    | Ok _ => match entry_of c with
              | Some e => acknowledged cs rs (acked ++ [e]) durable
              | None => acknowledged cs rs acked acked
              end
    | Err _ => acknowledged cs rs acked durable
    end) by (unfold acked1, durable1; by destruct r, (entry_of c)).
  replace (match r with Ok _ => _ | Err _ => _ end) with (acknowledged cs rs acked1 durable1) by done.
  destruct (acknowledged cs rs acked1 durable1) as [acked2 durable2].
  destruct IH as (B2 & P2 & Hok2 & W2 & Hb2 & E2 & Hd2). exists B2, P2. split_and!; try done.
  eapply writes_log_trans; [|done|done]. split; eapply used_grows; eassumption.
Qed.


(** C37 Mounting reads exactly what is there.  Whatever is on the device, the
    scan ends with a verdict and never stops the program: a map holding the
    updates of the one log the region holds, with nothing on the device
    changed; or a refusal, which is the device's own unless the region holds no
    log at all. *)
Theorem mount_reads_the_log d first blocks :
  blk_ok d → 0 ≤ first → 0 ≤ blocks →
  match Index_mount d first blocks with
  | Ok me => ∃ batches, log d first blocks batches ∧ (∀ others, log d first blocks others → others = batches) ∧
      ix_entries me = foldl apply_entry ∅ (concat batches) ∧ ix_used me = Z.of_nat (length batches) ∧
      same_blocks d (ix_device me)
  | Err f => blk_read_fault f ∨
      f ∈ [Refused refusal_ADDRESS; Refused refusal_MALFORMED; Refused refusal_UNKNOWN] ∧
      ∀ batches, ¬ log d first blocks batches
  end.
Proof.
  intros Hd Hf Hn. pose proof (mount_spec d first blocks Hd Hf Hn) as M.
  destruct (Index_mount d first blocks) as [me|f].
  - destruct M as (B & L & Hok & _ & _ & S). exists B. split; [done|].
    split; [intros B' L'; by eapply log_unique|].
    split; [by rewrite (io_entries _ _ _ Hok), app_nil_r|]. split; [apply Hok|done].
  - destruct M as [|[Hr HB]]; [by left|right]. split; [|done]. unfold unreadable in Hr. rewrite !elem_of_cons. tauto.
Qed.

Lemma look_get me namespace name : Index_get me namespace name = look (ix_entries me) namespace name.
Proof. done. Qed.

Lemma elem_of_pinned_roots me name root :
  (name, root) ∈ Index_pinned_roots me ↔ Index_get me ns_PIN name = Some root.
Proof.
  unfold Index_pinned_roots, Index_get. destruct (ix_entries me !! ns_PIN) as [pins|]; cbn.
  - by rewrite merge_sort_Permutation, elem_of_map_to_list.
  - split; [intros Hin; by apply elem_of_nil in Hin|done].
Qed.

(** A query answers the last update acknowledged.  An update answered [Ok]
    changes what its own name means in its own namespace and nothing else; one
    refused changes nothing a query can see, and is refused only for a name the
    format cannot hold, a namespace it does not know, a region with no block
    left, or by the device.  The roots walked by the collector are the names of
    the pin namespace. *)
Theorem updates_answer me batches unsealed c e :
  Index_ok me batches unsealed → entry_of c = Some e → call_typed c →
  let '(r, me') := perform c me in
  (∀ namespace name, Index_get me' namespace name =
     if decide (r = Ok tt ∧ namespace = en_namespace e ∧ name = en_name e)
     then if en_op e =? op_REMOVE then None else Some (en_hash e)
     else Index_get me namespace name) ∧
  match r with
  | Ok _ => ns_known (en_namespace e) = true ∧ (0 < length (en_name e) ≤ index_NAME_MAX)%nat
  | Err f =>
      f = Refused refusal_MALFORMED ∧ ¬ (0 < length (en_name e) ≤ index_NAME_MAX)%nat ∨
      f = Refused refusal_UNKNOWN ∧ ns_known (en_namespace e) = false ∨
      f = Refused refusal_FULL ∧ ix_used me' = ix_blocks me' ∨
      blk_write_fault f
  end ∧
  ∀ name root, (name, root) ∈ Index_pinned_roots me' ↔ Index_get me' ns_PIN name = Some root.
Proof.
  intros Hok Ec Ht. unfold call_typed in Ht. rewrite Ec in Ht. destruct Ht as [Hh Hn].
  rewrite (perform_update _ _ Ec).
  pose proof (record_spec me batches unsealed e Hok (entry_of_op _ _ Ec) Hh Hn) as R.
  destruct (record_entry e me) as [[[]|f] me'].
  - destruct R as (Hv & Ee & _). split; [|split; [split; apply Hv|apply elem_of_pinned_roots]].
    intros namespace name. rewrite !look_get, Ee, look_apply.
    destruct (decide (namespace = en_namespace e ∧ name = en_name e)); [by rewrite decide_True|].
    rewrite decide_False; [done|tauto].
  - destruct R as (Ee & _ & Hf). split; [|split; [done|apply elem_of_pinned_roots]].
    intros namespace name. rewrite !look_get, Ee, decide_False; [done|]. by intros [[=] _].
Qed.
End theorems.

(** ** A device in memory, and a log of four blocks on it *)
Definition ix_disk : Memory := mkMemory 512 (zeroed 2048) 0 0.
Definition ix_fresh : Index Memory := mkIndex ix_disk 0 4 0 [] ∅.
Definition ix_calls : list Call :=
  [CSet ns_PATH [97; 98] (replicate 32 7); CPin [99] (replicate 32 8); CBarrier; CUnpin [99];
   CSet 9 [97] (replicate 32 1)].

Lemma ix_disk_ok : Memory_ok ix_disk.
Proof. constructor; [done|done|done|]. by apply Forall_replicate. Qed.

Lemma ix_fresh_mounted : Index_mount ix_disk 0 4 = Ok ix_fresh.
Proof. vm_compute. reflexivity. Qed.

Lemma ix_calls_typed : Forall call_typed ix_calls.
Proof. unfold call_typed, is_digest, byte_list. repeat constructor; cbn; try done. Qed.

Lemma ix_fresh_blank : blank_tail ix_fresh.
Proof.
  intros n Hn. cbn in Hn. unfold blank. cbn [ix_device ix_first ix_fresh].
  assert (n = 0 ∨ n = 1 ∨ n = 2 ∨ n = 3) as [->|[->|[->| ->]]] by lia; vm_compute; reflexivity.
Qed.

Example ix_calls_answers :
  (perform_all ix_calls ix_fresh).1 = [Ok tt; Ok tt; Ok tt; Ok tt; Err (Refused refusal_UNKNOWN)].
Proof. vm_compute. reflexivity. Qed.


Lemma mount_reads_the_log_witness :
  blk_ok ix_disk ∧ ∃ batches, log ix_disk 0 4 batches ∧ foldl apply_entry ∅ (concat batches) = ∅.
Proof.
  split; [exact ix_disk_ok|].
  pose proof (mount_reads_the_log ix_disk 0 4 ix_disk_ok ltac:(lia) ltac:(lia)) as W.
  rewrite ix_fresh_mounted in W. destruct W as (batches & L & _ & E & _). exists batches. split; [done|].
  by rewrite <- E.
Defined.

Lemma ix_fresh_ok : Index_ok ix_fresh [] [].
Proof. constructor; cbn; try done. constructor; cbn; try done. exact ix_disk_ok. Qed.

Lemma updates_answer_witness :
  let c := CPin [99] (replicate 32 8) in
  Index_get (perform c ix_fresh).2 ns_PIN [99] = Some (replicate 32 8).
Proof.
  intros c.
  assert (Ht : call_typed c).
  { unfold call_typed, is_digest, byte_list. cbn. repeat constructor; done. }
  pose proof (updates_answer ix_fresh [] [] c _ ix_fresh_ok eq_refl Ht) as W.
  assert (A : (perform c ix_fresh).1 = Ok tt) by (vm_compute; reflexivity).
  destruct (perform c ix_fresh) as [r me']. cbn in A. subst r. destruct W as (W & _).
  rewrite W. by rewrite decide_True.
Defined.
