(* ===== verification/Extents.v ===== *)
(** * Extents

    How many of a collection of half-open intervals an address lies in, as a
    sum: disjoint means at most one everywhere, and two collections cover the
    same memory when the sums agree everywhere. *)

From S2P Require Import Prelude.
From stdpp Require Export functions.
#[local] Open Scope Z_scope.

(** ** Sums *)
Fixpoint zsum {A : Type} (f : A → Z) (l : list A) : Z :=
  match l with [] => 0 | a :: l => f a + zsum f l end.

Section zsum.
Context {A : Type}.
Implicit Types (f g : A → Z) (l : list A).

Lemma zsum_nil f : zsum f [] = 0.
Proof. done. Qed.
Lemma zsum_cons f a l : zsum f (a :: l) = f a + zsum f l.
Proof. done. Qed.
Lemma zsum_app f l1 l2 : zsum f (l1 ++ l2) = zsum f l1 + zsum f l2.
Proof. induction l1; cbn; lia. Qed.
Lemma zsum_add f g l : zsum (λ a, f a + g a) l = zsum f l + zsum g l.
Proof. induction l; cbn; lia. Qed.
Lemma zsum_scale c f l : zsum (λ a, c * f a) l = c * zsum f l.
Proof. induction l; cbn; lia. Qed.
Lemma zsum_ext f g l : (∀ a, a ∈ l → f a = g a) → zsum f l = zsum g l.
Proof.
  induction l as [|a l IH]; intros H; cbn; [done|]. rewrite (H a), IH; [done| |apply list_elem_of_here].
  intros b Hb. apply H. by apply list_elem_of_further.
Qed.
Lemma zsum_le f g l : (∀ a, a ∈ l → f a ≤ g a) → zsum f l ≤ zsum g l.
Proof.
  induction l as [|a l IH]; intros H; cbn; [done|].
  specialize (IH (λ b Hb, H b (list_elem_of_further _ _ _ Hb))). pose proof (H a (list_elem_of_here _ _)). lia.
Qed.
Lemma zsum_nonneg f l : (∀ a, a ∈ l → 0 ≤ f a) → 0 ≤ zsum f l.
Proof.
  intros H. transitivity (zsum (λ _ : A, 0) l); [|by apply zsum_le]. clear. induction l; cbn; lia.
Qed.
Lemma zsum_zero l : zsum (λ _ : A, 0) l = 0.
Proof. induction l; cbn; lia. Qed.
Lemma zsum_const c l : zsum (λ _ : A, c) l = c * Z.of_nat (length l).
Proof. induction l; cbn; lia. Qed.
Lemma zsum_elem f l a : (∀ b, b ∈ l → 0 ≤ f b) → a ∈ l → f a ≤ zsum f l.
Proof.
  induction l as [|b l IH]; intros H Ha; [by apply elem_of_nil in Ha|]. cbn.
  assert (0 ≤ zsum f l) by (apply zsum_nonneg; intros; apply H; by apply list_elem_of_further).
  apply elem_of_cons in Ha as [<-|Ha]; [lia|].
  specialize (IH (λ c Hc, H c (list_elem_of_further _ _ _ Hc)) Ha). specialize (H b (list_elem_of_here _ _)). lia.
Qed.
Lemma zsum_perm f l1 l2 : l1 ≡ₚ l2 → zsum f l1 = zsum f l2.
Proof. induction 1; cbn; lia. Qed.
End zsum.

Lemma zsum_swap {A B} (f : A → B → Z) la lb :
  zsum (λ a, zsum (f a) lb) la = zsum (λ b, zsum (λ a, f a b) la) lb.
Proof.
  induction la as [|a la IH]; cbn; [by rewrite zsum_zero|]. by rewrite IH, <- zsum_add.
Qed.

(** A function changed at one key of a list without repeats. *)
Lemma zsum_insert {K V} `{EqDecision K} (F : K → V → Z) (ks : list K) (g : K → V) k v :
  NoDup ks → k ∈ ks →
  zsum (λ k', F k' ((<[k := v]> g) k')) ks + F k (g k) = zsum (λ k', F k' (g k')) ks + F k v.
Proof.
  induction ks as [|a ks IH]; intros Hn Hk; [by apply elem_of_nil in Hk|]. apply list.NoDup_cons in Hn as [Ha Hn].
  cbn. apply elem_of_cons in Hk as [->|Hk].
  - rewrite fn_lookup_insert. rewrite (zsum_ext _ (λ k', F k' (g k')) ks); [lia|].
    intros b Hb. rewrite fn_lookup_insert_ne; [done|congruence].
  - specialize (IH Hn Hk). rewrite fn_lookup_insert_ne by congruence. lia.
Qed.

(** ** Coverage *)
Definition cov (s e x : Z) : Z := if (s <=? x) && (x <? e) then 1 else 0.

Lemma cov_range s e x : 0 ≤ cov s e x ≤ 1.
Proof. unfold cov. destruct (_ && _); lia. Qed.
Lemma cov_in s e x : cov s e x = 1 ↔ s ≤ x < e.
Proof. unfold cov. destruct (Z.leb_spec s x), (Z.ltb_spec x e); cbn; lia. Qed.
Lemma cov_out s e x : cov s e x = 0 ↔ ¬ s ≤ x < e.
Proof. unfold cov. destruct (Z.leb_spec s x), (Z.ltb_spec x e); cbn; lia. Qed.
Lemma cov_split s m e x : s ≤ m ≤ e → cov s e x = cov s m x + cov m e x.
Proof. intros. unfold cov. destruct (Z.leb_spec s x), (Z.ltb_spec x e), (Z.ltb_spec x m), (Z.leb_spec m x); cbn; lia. Qed.
Lemma cov_empty s x : cov s s x = 0.
Proof. apply cov_out. lia. Qed.

(** The number of addresses below a bound, counted with coverage. *)
Section mass.
Variable L : Z.
Definition mass (f : Z → Z) : Z := zsum f (seqZ 0 L).

Lemma mass_cov s e : 0 ≤ s ≤ e → e ≤ L → mass (cov s e) = e - s.
Proof.
  intros Hs He. unfold mass.
  assert (E : ∀ a n, (0 ≤ n) → (a ≤ s) → e ≤ a + n → zsum (cov s e) (seqZ a n) = e - s).
  { intros a n Hn Ha Hen. replace n with ((s - a) + ((e - s) + (n - (e - a)))) by lia.
    rewrite !seqZ_app, !zsum_app by lia.
    rewrite (zsum_ext _ (λ _, 0) (seqZ a (s - a))), zsum_zero.
    2:{ intros x Hx%elem_of_seqZ. apply cov_out. lia. }
    rewrite (zsum_ext _ (λ _, 1) (seqZ (a + (s - a)) (e - s))), zsum_const, length_seqZ.
    2:{ intros x Hx%elem_of_seqZ. apply cov_in. lia. }
    rewrite (zsum_ext _ (λ _, 0) (seqZ (a + (s - a) + (e - s)) _)), zsum_zero.
    2:{ intros x Hx%elem_of_seqZ. apply cov_out. lia. }
    lia. }
  apply E; lia.
Qed.

Lemma mass_add f g : mass (λ x, f x + g x) = mass f + mass g.
Proof. apply zsum_add. Qed.
Lemma mass_scale c f : mass (λ x, c * f x) = c * mass f.
Proof. apply zsum_scale. Qed.
Lemma mass_ext f g : (∀ x, 0 ≤ x < L → f x = g x) → mass f = mass g.
Proof. intros H. apply zsum_ext. intros x Hx%elem_of_seqZ. apply H. lia. Qed.
Lemma mass_le f g : (∀ x, f x ≤ g x) → mass f ≤ mass g.
Proof. intros H. apply zsum_le. auto. Qed.
Lemma mass_one : 0 ≤ L → mass (λ _, 1) = L.
Proof. intros. unfold mass. rewrite zsum_const, length_seqZ. lia. Qed.
Lemma mass_sum {A} (f : A → Z → Z) l : mass (λ x, zsum (λ a, f a x) l) = zsum (λ a, mass (f a)) l.
Proof. unfold mass. apply zsum_swap. Qed.
Lemma mass_zero f : (∀ x, f x = 0) → mass f = 0.
Proof. intros H. unfold mass. rewrite (zsum_ext _ (λ _, 0)) by auto. apply zsum_zero. Qed.
Lemma mass_nonneg f : (∀ x, 0 ≤ f x) → 0 ≤ mass f.
Proof. intros H. apply zsum_nonneg. auto. Qed.
(** A function that does not change inside blocks of [s]. *)
Lemma zsum_blocks s k f : 0 < s → 0 ≤ k → (∀ q x, q * s ≤ x < q * s + s → f x = f (q * s)) → (s | zsum f (seqZ 0 (s * k))).
Proof.
  intros Hs Hk Hf. apply (natlike_ind (λ k, (s | zsum f (seqZ 0 (s * k))))); [by rewrite Z.mul_0_r; apply Z.divide_0_r| |done].
  clear k Hk. intros k Hk IH. replace (s * Z.succ k) with (s * k + s) by lia. rewrite seqZ_app, zsum_app by lia. apply Z.divide_add_r; [done|].
  rewrite (zsum_ext _ (λ _, f (k * s))), zsum_const, length_seqZ by (intros x Hx%elem_of_seqZ; apply Hf; lia).
  rewrite Z2Nat.id by lia. apply Z.divide_factor_r.
Qed.
Lemma mass_at_most f : 0 ≤ L → (∀ x, f x ≤ 1) → mass f ≤ L.
Proof. intros HL H. rewrite <- mass_one by done. by apply mass_le. Qed.
End mass.

Lemma mass_blocks s k f : 0 < s → 0 ≤ k → (∀ q x, q * s ≤ x < q * s + s → f x = f (q * s)) → (s | mass (s * k) f).
Proof. apply zsum_blocks. Qed.

#[global] Opaque mass.
