(* ===== verification/Reserve.v ===== *)
(** * The reservation table: [abi/src/reserve.rs]

    Admission control: a demand is granted whole physical cores, memory and
    partitions of a machine, or refused with the reason that was found first.
    Core sets are bitmaps of sixty-four cores.  An arithmetic overflow stops the
    program ([Stopped]). *)

From S2P Require Import Prelude Abi.
Import error.

(** ** Constants *)
Definition RESERVATIONS_MAX : nat := 18.
Definition CORES_MAX : Z := 64.
Definition HUGE_BYTES : Z := 2 * 1024 * 1024.

Definition manifest_SOFT : Z := 1.
Definition manifest_HARD : Z := 2.
Definition manifest_class_known (value : Z) : bool := (value =? manifest_SOFT) || (value =? manifest_HARD).

Definition domain_SHARED : Z := 1.
Definition domain_PRIVATE : Z := 2.
Definition domain_HOSTILE : Z := 3.
Definition domain_known (value : Z) : bool :=
  (value =? domain_SHARED) || (value =? domain_PRIVATE) || (value =? domain_HOSTILE).

Definition obtained_PARTITION : Z := 1.
Definition obtained_EXCLUSION : Z := 2.
Definition obtained_UNEXERCISED : Z := 3.

(** ** Refusals *)
Inductive Refusal : Type := NotSchedulable | NoCore | NoBandwidth | NoMemory.

#[global] Instance Refusal_eq_dec : EqDecision Refusal.
Proof. solve_decision. Defined.

Definition Refusal_reason (why : Refusal) : Z :=
  match why with NotSchedulable => 1 | NoCore => 2 | NoBandwidth => 3 | NoMemory => 4 end.

Definition Refusal_code (why : Refusal) : Z := error_pack ADMISSION (Refusal_reason why).

(** A refusal, or an overflow of a checked integer. *)
Inductive stop : Type := Refuses (why : Refusal) | Stopped.

#[global] Instance stop_eq_dec : EqDecision stop.
Proof. solve_decision. Defined.

(** ** The machine *)
Inductive Offers : Type := Partition | Exclusion.

Definition by_partition (o : Offers) : bool := match o with Partition => true | Exclusion => false end.

Record Machine : Type := mkMachine {
  physical_cores : Z;
  threads_per_core : Z;
  cores_per_cache : Z;
  cores_per_bandwidth : Z;
  mch_cache : Offers;
  mch_bandwidth : Offers;
  partitions : Z;
  frame_cores : Z;
  reservable_bytes : Z;
  tick_ns : Z;
}.

Definition Machine_check (m : Machine) : res stop unit :=
  if (physical_cores m =? 0) || (CORES_MAX <? physical_cores m) then Err (Refuses NotSchedulable)
  else if (threads_per_core m =? 0) || (cores_per_cache m =? 0) || (cores_per_bandwidth m =? 0)
  then Err (Refuses NotSchedulable)
  else if (frame_cores m =? 0) || (physical_cores m <=? frame_cores m) then Err (Refuses NotSchedulable)
  else if tick_ns m =? 0 then Err (Refuses NotSchedulable)
  else if (by_partition (mch_cache m) || by_partition (mch_bandwidth m)) && (partitions m =? 0)
  then Err (Refuses NotSchedulable)
  else Ok tt.

Definition offerable (m : Machine) : Z := saturating_sub (physical_cores m) (frame_cores m).

(** The partitions one reservation spends. *)
Definition partitions_wanted (m : Machine) : Z :=
  Z.b2z (by_partition (mch_cache m)) + Z.b2z (by_partition (mch_bandwidth m)).

(** ** The demand *)
Record Demand : Type := mkDemand {
  dem_cores : Z;
  dem_period_ns : Z;
  dem_budget_ns : Z;
  dem_memory_bytes : Z;
  dem_class : Z;
  dem_domain : Z;
}.

Definition whole_cores (d : Demand) : Z :=
  if dem_class d =? manifest_HARD then dem_cores d
  else if dem_domain d =? domain_HOSTILE then 1 else 0.

Definition hardened (d : Demand) (cores period_ns budget_ns : Z) : Demand :=
  let over := dem_memory_bytes d mod HUGE_BYTES in
  let memory_bytes := if over =? 0 then dem_memory_bytes d
                      else saturating_add 64 (dem_memory_bytes d) (HUGE_BYTES - over) in
  mkDemand cores period_ns budget_ns memory_bytes manifest_HARD (dem_domain d).

(** ** The grant *)
Record Grant : Type := mkGrant {
  g_cores : Z;
  g_excluded : Z;
  g_period_ns : Z;
  g_budget_ns : Z;
  g_memory_bytes : Z;
  g_sibling : Z;
  g_cache : Z;
  g_bandwidth : Z;
  g_memory : Z;
  g_class : Z;
}.

#[global] Instance Grant_eq_dec : EqDecision Grant.
Proof. solve_decision. Defined.

Definition Grant_NONE : Grant :=
  mkGrant 0 0 0 0 0 obtained_UNEXERCISED obtained_UNEXERCISED obtained_UNEXERCISED obtained_UNEXERCISED 0.

Definition count_ones (w : Z) : Z := Z.of_nat (length (filter (λ i, Z.testbit w i = true) (seqZ 0 64))).

Definition bnot (w : Z) : Z := Z.lxor w u64_max.

Definition exercised (g : Grant) : bool :=
  negb (g_sibling g =? obtained_UNEXERCISED) && negb (g_cache g =? obtained_UNEXERCISED) &&
  negb (g_bandwidth g =? obtained_UNEXERCISED) && negb (g_memory g =? obtained_UNEXERCISED).

Definition answers (g : Grant) (d : Demand) : bool :=
  (g_class g =? dem_class d) && (g_period_ns g =? dem_period_ns d) && (g_budget_ns g =? dem_budget_ns d) &&
  (g_memory_bytes g =? dem_memory_bytes d) && (count_ones (g_cores g) =? whole_cores d).

(** The cores a grant keeps from everyone else. *)
Definition held_cores (g : Grant) : Z := Z.lor (g_cores g) (g_excluded g).

Definition footprint (g : Grant) : Z := count_ones (held_cores g).

Definition Grant_slack_ns (g : Grant) : option Z :=
  if g_period_ns g =? 0 then None else Some (saturating_sub (g_period_ns g) (g_budget_ns g)).

(** [with_split]: the first [wanted] cores of a footprint run the component. *)
Fixpoint split_loop (n : nat) (bit footprint running left_ : Z) : Z :=
  match n with
  | O => running
  | S n =>
      if left_ =? 0 then running
      else if negb (Z.land footprint (Z.shiftl 1 bit) =? 0)
      then split_loop n (bit + 1) footprint (Z.lor running (Z.shiftl 1 bit)) (left_ - 1)
      else split_loop n (bit + 1) footprint running left_
  end.

Definition with_split (g : Grant) (footprint wanted : Z) : Grant :=
  let running := split_loop (Z.to_nat CORES_MAX) 0 footprint 0 wanted in
  mkGrant running (Z.land footprint (bnot running)) (g_period_ns g) (g_budget_ns g) (g_memory_bytes g)
    (g_sibling g) (g_cache g) (g_bandwidth g) (g_memory g) (g_class g).

Definition round_up (value grain : Z) : Z :=
  if grain <=? 1 then value
  else
    let over := value mod grain in
    if over =? 0 then value else saturating_add 32 value (grain - over).

Definition run_mask (base count : Z) : Z :=
  if (count =? 0) || (CORES_MAX <=? base) then 0
  else
    let width := if CORES_MAX <=? count then CORES_MAX else count in
    let ones := if 64 <=? width then u64_max else Z.shiftl 1 width - 1 in
    (Z.shiftl ones base) mod 2 ^ 64.

(** ** The table *)
Record Reservations : Type := mkReservations {
  rt_machine : Machine;
  rt_held : list Grant;
  rt_count : nat;
  rt_taken : Z;
  rt_partitions_used : Z;
  rt_memory_used : Z;
  rt_admitted : Z;
  rt_refused : list Z;
}.

Definition Reservations_new (m : Machine) : res stop Reservations :=
  let? _ := Machine_check m in
  Ok (mkReservations m (replicate RESERVATIONS_MAX Grant_NONE) 0 0 0 0 0 (replicate 4 0)).

Definition grants (t : Reservations) : list Grant :=
  if (length (rt_held t) <? rt_count t)%nat then [] else take (rt_count t) (rt_held t).

Definition admissions (t : Reservations) : Z := rt_admitted t.

Definition refusal_slot (why : Refusal) : nat :=
  match why with NotSchedulable => 0 | NoCore => 1 | NoBandwidth => 2 | NoMemory => 3 end.

Definition refusals_of (t : Reservations) (why : Refusal) : Z := rt_refused t !!! refusal_slot why.

Definition exclusion_grain (m : Machine) : Z :=
  let grain := 1 in
  let grain := if negb (by_partition (mch_cache m)) && (grain <? cores_per_cache m)
               then cores_per_cache m else grain in
  if negb (by_partition (mch_bandwidth m)) && (grain <? cores_per_bandwidth m)
  then cores_per_bandwidth m else grain.

(** Every turn moves the base on, so the machine's cores are fuel enough. *)
Fixpoint lowest_free_loop (fuel : nat) (physical taken base count step : Z) : res stop (option Z) :=
  match fuel with
  | O => Err Stopped
  | S fuel =>
      if u32_max <? base + count then Err Stopped
      else if physical <? base + count then Ok None
      else
        let mask := run_mask base count in
        if Z.land taken mask =? 0 then Ok (Some mask)
        else if u32_max <? base + step then Err Stopped
        else lowest_free_loop fuel physical taken (base + step) count step
  end.

Definition lowest_free (t : Reservations) (count grain : Z) : res stop (option Z) :=
  let step := if grain =? 0 then 1 else grain in
  let m := rt_machine t in
  lowest_free_loop (S (Z.to_nat (physical_cores m))) (physical_cores m) (rt_taken t)
    (round_up (frame_cores m) step) count step.

(** The processor half of a demand. *)
Definition cpu_half (m : Machine) (d : Demand) : res stop unit :=
  if dem_class d =? manifest_HARD then
    if (dem_cores d =? 0) || (dem_period_ns d =? 0) || (dem_budget_ns d =? 0) then Err (Refuses NotSchedulable)
    else if dem_period_ns d <? dem_budget_ns d then Err (Refuses NotSchedulable)
    else if dem_period_ns d <? tick_ns m then Err (Refuses NotSchedulable)
    else if dem_period_ns d - dem_budget_ns d <? tick_ns m then Err (Refuses NotSchedulable)
    else Ok tt
  else if negb (dem_cores d =? 0) || negb (dem_period_ns d =? 0) || negb (dem_budget_ns d =? 0)
  then Err (Refuses NotSchedulable)
  else Ok tt.

(** The memory half: the pool is the hard class's. *)
Definition memory_half (t : Reservations) (d : Demand) : res stop unit :=
  if dem_memory_bytes d =? 0 then Err (Refuses NoMemory)
  else if dem_class d =? manifest_HARD then
    if negb (dem_memory_bytes d mod HUGE_BYTES =? 0) then Err (Refuses NoMemory)
    else if reservable_bytes (rt_machine t) <? rt_memory_used t then Err (Refuses NoMemory)
    else if reservable_bytes (rt_machine t) - rt_memory_used t <? dem_memory_bytes d then Err (Refuses NoMemory)
    else Ok tt
  else Ok tt.

Definition obtained_by (o : Offers) : Z :=
  match o with Partition => obtained_PARTITION | Exclusion => obtained_EXCLUSION end.

Definition rt_admit (t : Reservations) (d : Demand) : res stop Grant :=
  let m := rt_machine t in
  if negb (manifest_class_known (dem_class d)) || negb (domain_known (dem_domain d))
  then Err (Refuses NotSchedulable)
  else
    let? _ := cpu_half m d in
    let? _ := memory_half t d in
    let wanted := whole_cores d in
    if wanted =? 0 then
      Ok (mkGrant 0 0 0 0 (dem_memory_bytes d) obtained_UNEXERCISED obtained_UNEXERCISED
            obtained_UNEXERCISED obtained_UNEXERCISED (dem_class d))
    else
      let grain := exclusion_grain m in
      let footprint := round_up wanted grain in
      if offerable m <? footprint then Err (Refuses NoCore)
      else
        let? found := lowest_free t footprint grain in
        match found with
        | None => Err (Refuses NoCore)
        | Some taken =>
            if u32_max <? rt_partitions_used t + partitions_wanted m then Err Stopped
            else if partitions m <? rt_partitions_used t + partitions_wanted m then Err (Refuses NoBandwidth)
            else
              Ok (with_split
                    (mkGrant 0 0 (dem_period_ns d) (dem_budget_ns d) (dem_memory_bytes d)
                       (if 1 <? threads_per_core m then obtained_EXCLUSION else obtained_UNEXERCISED)
                       (obtained_by (mch_cache m)) (obtained_by (mch_bandwidth m)) obtained_PARTITION
                       (dem_class d)) taken wanted)
        end.

Definition with_refused (t : Reservations) (why : Refusal) : Reservations :=
  mkReservations (rt_machine t) (rt_held t) (rt_count t) (rt_taken t) (rt_partitions_used t)
    (rt_memory_used t) (rt_admitted t)
    (alter (λ n, saturating_add 32 n 1) (refusal_slot why) (rt_refused t)).

Definition rt_grant (d : Demand) : sm Reservations stop Grant := λ t,
  match rt_admit t d with
  | Err Stopped => (Err Stopped, t)
  | Err (Refuses why) => (Err (Refuses why), with_refused t why)
  | Ok g =>
      if (RESERVATIONS_MAX <=? rt_count t)%nat then (Err (Refuses NoCore), with_refused t NoCore)
      else
        (Ok g,
         mkReservations (rt_machine t) (<[rt_count t := g]> (rt_held t)) (S (rt_count t))
           (Z.lor (rt_taken t) (held_cores g))
           (if 0 <? footprint g
            then saturating_add 32 (rt_partitions_used t) (partitions_wanted (rt_machine t))
            else rt_partitions_used t)
           (if g_class g =? manifest_HARD
            then saturating_add 64 (rt_memory_used t) (g_memory_bytes g) else rt_memory_used t)
           (saturating_add 32 (rt_admitted t) 1) (rt_refused t))
  end.

(** Two grants [release] does not tell apart. *)
Definition same_grant (held g : Grant) : bool :=
  (g_cores held =? g_cores g) && (g_excluded held =? g_excluded g) &&
  (g_memory_bytes held =? g_memory_bytes g) && (g_period_ns held =? g_period_ns g).

(** [for slot in at..count - 1 { held[slot] = held[slot + 1] }] *)
Definition close_gap (held : list Grant) (at_ count : nat) : list Grant :=
  foldl (λ held slot, match held !! S slot with Some next => <[slot := next]> held | None => held end)
    held (seq at_ (count - 1 - at_)).

Definition rt_release (g : Grant) (t : Reservations) : bool * Reservations :=
  match list_find (λ held, same_grant held g = true) (grants t) with
  | None => (false, t)
  | Some (at_, given) =>
      (true,
       mkReservations (rt_machine t)
         (<[(rt_count t - 1)%nat := Grant_NONE]> (close_gap (rt_held t) at_ (rt_count t)))
         (rt_count t - 1) (Z.land (rt_taken t) (bnot (held_cores given)))
         (if 0 <? footprint given
          then saturating_sub (rt_partitions_used t) (partitions_wanted (rt_machine t))
          else rt_partitions_used t)
         (if g_class given =? manifest_HARD
          then saturating_sub (rt_memory_used t) (g_memory_bytes given) else rt_memory_used t)
         (rt_admitted t) (rt_refused t))
  end.

(** ** What a placement and the idle loop ask *)
Definition reserved (t : Reservations) (core : Z) : bool :=
  if CORES_MAX <=? core then true else negb (Z.land (rt_taken t) (Z.shiftl 1 core) =? 0).

Definition runs_on (g : Grant) (core : Z) : bool :=
  negb ((CORES_MAX <=? core) || (Z.land (g_cores g) (Z.shiftl 1 core) =? 0)).

Definition keep_least (seen : option Z) (theirs : Z) : option Z :=
  Some (match seen with
        | Some seen => if seen <=? theirs then seen else theirs
        | None => theirs
        end).

Definition earliest_deadline_ns (t : Reservations) (core : Z) : option Z :=
  foldl (λ earliest g,
    if negb (runs_on g core) || (g_period_ns g =? 0) then earliest
    else keep_least earliest (g_period_ns g)) None (grants t).

Definition slack_ns (t : Reservations) (core : Z) : option Z :=
  foldl (λ slack g,
    if negb (runs_on g core) then slack
    else match Grant_slack_ns g with Some theirs => keep_least slack theirs | None => slack end)
    None (grants t).

Inductive Depth : Type := Computed (depth : Z) | Fallback.

(** [depth as u32] of an index into the table of latencies. *)
Fixpoint idle_loop (depth : Z) (latencies : list Z) (slack deepest : Z) : Z :=
  match latencies with
  | [] => deepest
  | latency :: latencies =>
      if latency <=? slack then idle_loop (depth + 1) latencies slack (depth mod 2 ^ 32) else deepest
  end.

Definition idle_depth (t : Reservations) (core : Z) (exit_latency_ns : list Z) : Depth :=
  match slack_ns t core with
  | None => Fallback
  | Some slack => Computed (idle_loop 0 exit_latency_ns slack 0)
  end.

(** Would [d], admitted first, cost [then_] what it is granted alone? *)
Definition displaces (d : Demand) (m : Machine) (then_ : Demand) : res stop bool :=
  let? fresh := Reservations_new m in
  let alone := is_ok (rt_admit fresh then_) in
  let? table := Reservations_new m in
  let '(granted, table) := rt_grant d table in
  if negb (is_ok granted) then Ok false
  else Ok (alone && negb (is_ok (rt_admit table then_))).

(** A machine of eight cores in two cache domains, the frame on one core. *)
Definition box : Machine := mkMachine 8 2 4 8 Exclusion Partition 4 1 (64 * HUGE_BYTES) 1000000.
Definition audio : Demand := mkDemand 2 10000000 4000000 HUGE_BYTES manifest_HARD domain_SHARED.
Example box_grants :
  match Reservations_new box with
  | Ok t => match (rt_grant audio t).1 with Ok g => (g_cores g, g_excluded g) | Err _ => (0, 0) end
  | Err _ => (0, 0)
  end = (48, 192).
Proof. vm_compute. reflexivity. Qed.
