(* ===== verification/ReserveFacts.v ===== *)
(** * The reservation table: bitmaps, runs of cores, and the invariant

    A core set is reasoned about through [Z.testbit] alone.  [placed] says what
    a grant of whole cores is, a run aligned to the exclusion grain; [rt_ok] is
    the invariant, which counts the holders of every core. *)

From S2P Require Import Prelude Abi Reserve.

(** ** Bitmaps *)
Definition in_run (base n i : Z) : bool := (base <=? i) && (i <? base + n).

Lemma in_run_true base n i : in_run base n i = true ↔ base ≤ i < base + n.
Proof. unfold in_run. lia. Qed.

Lemma in_run_false base n i : in_run base n i = false ↔ ¬ base ≤ i < base + n.
Proof. unfold in_run. lia. Qed.

Lemma testbit_neg w i : i < 0 → Z.testbit w i = false.
Proof. intros. by apply Z.testbit_neg_r. Qed.

Lemma testbit_ones_run n i : 0 ≤ n → Z.testbit (Z.shiftl 1 n - 1) i = in_run 0 n i.
Proof.
  intros. rewrite Z.shiftl_1_l. replace (2 ^ n - 1) with (Z.ones n) by (rewrite Z.ones_equiv; lia).
  rewrite Z.testbit_ones by done. unfold in_run. lia.
Qed.

Lemma testbit_run_mask base n i :
  0 ≤ base → 0 < n → base + n ≤ 64 → Z.testbit (run_mask base n) i = in_run base n i.
Proof.
  intros Hb Hn Hs. unfold run_mask, CORES_MAX.
  rewrite (proj2 (Z.eqb_neq _ _)), (proj2 (Z.leb_gt _ _)) by lia. cbn [orb].
  destruct (decide (i < 0)); [rewrite testbit_neg by done; symmetry; apply in_run_false; lia|].
  replace (if 64 <=? (if 64 <=? n then 64 else n) then u64_max else
           Z.shiftl 1 (if 64 <=? n then 64 else n) - 1) with (Z.shiftl 1 n - 1).
  2:{ repeat case_match; try lia. assert (n = 64) as -> by lia. done. }
  destruct (decide (i < 64)).
  - rewrite Z.mod_pow2_bits_low, Z.shiftl_spec, testbit_ones_run by lia. unfold in_run. lia.
  - rewrite Z.mod_pow2_bits_high by lia. symmetry. apply in_run_false. lia.
Qed.

Lemma land_zero_iff a b : Z.land a b = 0 ↔ ∀ i, ¬ (Z.testbit a i = true ∧ Z.testbit b i = true).
Proof.
  split.
  - intros E i [Ha Hb]. assert (Z.testbit (Z.land a b) i = true) as Ht by (by rewrite Z.land_spec, Ha, Hb).
    by rewrite E, Z.bits_0 in Ht.
  - intros Hn. apply Z.bits_inj'. intros i _. rewrite Z.land_spec, Z.bits_0.
    specialize (Hn i). destruct (Z.testbit a i), (Z.testbit b i); naive_solver.
Qed.

Lemma testbit_bnot w i : 0 ≤ i < 64 → Z.testbit (bnot w) i = negb (Z.testbit w i).
Proof.
  intros. unfold bnot, u64_max. rewrite Z.lxor_spec.
  change (2 ^ 64 - 1) with (Z.shiftl 1 64 - 1). rewrite testbit_ones_run by lia.
  rewrite (proj2 (in_run_true _ _ _)) by lia. apply xorb_true_r.
Qed.

Lemma filter_all {A} (P : A → Prop) `{∀ x, Decision (P x)} (l : list A) :
  (∀ x, x ∈ l → P x) → filter P l = l.
Proof.
  induction l as [|x l IH]; intros Hl; [done|].
  rewrite filter_cons_True by apply Hl, list_elem_of_here. f_equal. apply IH. intros y Hy.
  by apply Hl, list_elem_of_further.
Qed.

(** A run has as many bits as it is long. *)
Lemma count_ones_run w base n :
  0 ≤ base → 0 ≤ n → base + n ≤ 64 → (∀ i, Z.testbit w i = in_run base n i) → count_ones w = n.
Proof.
  intros Hb Hn Hs Hw. unfold count_ones.
  rewrite (list_filter_iff _ (λ i, base ≤ i < base + n)) by (intros i; by rewrite Hw, in_run_true).
  replace (seqZ 0 64) with (seqZ 0 base ++ seqZ base n ++ seqZ (base + n) (64 - base - n)).
  - rewrite !list.filter_app, !length_app.
    assert (Hno : ∀ m k, k ≤ base ∨ base + n ≤ m → length (filter (λ i, base ≤ i < base + n) (seqZ m (k - m))) = 0%nat).
    { intros m k Hk. destruct (filter _ _) as [|x l] eqn:E; [done|].
      assert (Hin : x ∈ filter (λ i, base ≤ i < base + n) (seqZ m (k - m))) by (rewrite E; apply list_elem_of_here).
      apply list_elem_of_filter in Hin as [? Hin%elem_of_seqZ]. lia. }
    pose proof (Hno 0 base) as H1. rewrite Z.sub_0_r in H1. rewrite H1 by lia.
    pose proof (Hno (base + n) 64) as H2. replace (64 - (base + n)) with (64 - base - n) in H2 by lia.
    rewrite H2 by lia.
    rewrite (filter_all _ (seqZ base n)); [rewrite length_seqZ; lia|].
    intros x Hx%elem_of_seqZ. lia.
  - replace (seqZ base n) with (seqZ (0 + base) n) by done.
    replace (64 - base - n) with (64 - (base + n)) by lia.
    rewrite (assoc_L (++)), <- seqZ_app by lia.
    replace (seqZ (base + n)) with (seqZ (0 + (base + n))) by done. rewrite <- seqZ_app by lia. f_equal. lia.
Qed.

(** The component's cores are the first of its run. *)
Lemma split_loop_run base count wanted n : ∀ bit running left_,
  0 ≤ base → 0 < wanted ≤ count → base + count ≤ 64 →
  0 ≤ bit → bit + Z.of_nat n = 64 → 0 ≤ left_ ≤ wanted →
  (left_ = wanted ∧ bit ≤ base ∨ bit = base + (wanted - left_) ∨ left_ = 0) →
  (∀ i, Z.testbit running i = in_run base (wanted - left_) i) →
  ∀ i, Z.testbit (split_loop n bit (run_mask base count) running left_) i = in_run base wanted i.
Proof.
  induction n as [|n IH]; intros bit running left_ Hb Hw Hs Hbit Hn Hl Hpos Hr; cbn [split_loop].
  { assert (left_ = 0) as -> by lia. by rewrite Z.sub_0_r in Hr. }
  destruct (Z.eqb_spec left_ 0) as [->|Hne]; [by rewrite Z.sub_0_r in Hr|].
  rewrite testbit_mask, testbit_run_mask by lia. destruct (in_run base count bit) eqn:Hin.
  - apply in_run_true in Hin. apply IH; try lia.
    intros i. destruct (decide (i < 0)); [rewrite testbit_neg by done; symmetry; apply in_run_false; lia|].
    rewrite testbit_set, Hr by lia. unfold in_run. destruct (Z.eqb_spec bit i); lia.
  - apply in_run_false in Hin. apply IH; try lia. done.
Qed.

(** ** Rounding *)
Lemma round_up_spec value grain :
  0 < value → 0 < grain → round_up value grain < u32_max →
  (grain | round_up value grain) ∧ value ≤ round_up value grain < value + grain.
Proof.
  intros Hv Hg. unfold round_up, saturating_add.
  destruct (Z.leb_spec grain 1); [intros; assert (grain = 1) as -> by lia; split; [apply Z.divide_1_l|lia]|].
  pose proof (Z.mod_pos_bound value grain ltac:(lia)) as Hm.
  destruct (Z.eqb_spec (value mod grain) 0) as [E|Hne].
  - intros. split; [by apply Z.mod_divide; [lia|]|lia].
  - unfold u32_max. intros Hle. rewrite Z.min_l in * by lia. split; [|lia].
    exists (value / grain + 1). pose proof (Z.div_mod value grain ltac:(lia)). lia.
Qed.

Lemma round_up_ge value grain : 0 < value ≤ u32_max → 0 < grain → value ≤ round_up value grain.
Proof.
  intros Hv Hg. unfold round_up, saturating_add, u32_max in *.
  pose proof (Z.mod_pos_bound value grain Hg) as Hm.
  destruct (grain <=? 1); [lia|]. cbn zeta. destruct (value mod grain =? 0); [lia|].
  apply Z.min_glb; lia.
Qed.

(** The next aligned value is the least aligned value not below. *)
Lemma round_up_least value grain b :
  0 < value → 0 < grain → round_up value grain < u32_max → (grain | b) → value ≤ b → round_up value grain ≤ b.
Proof.
  intros Hv Hg Hr [q ->] Hb. destruct (round_up_spec value grain Hv Hg Hr) as [[p E] Hlt].
  assert (p < q + 1) by (apply Z.mul_lt_mono_pos_r with grain; lia).
  rewrite E. apply Z.mul_le_mono_nonneg_r; lia.
Qed.

Lemma round_up_below value grain : 0 < value → 0 < grain → round_up value grain ≤ value + grain.
Proof.
  intros Hv Hg. unfold round_up, saturating_add. pose proof (Z.mod_pos_bound value grain Hg).
  destruct (grain <=? 1); [lia|]. cbn zeta. destruct (value mod grain =? 0); lia.
Qed.

(** ** The machine *)
Record Machine_ok (m : Machine) : Prop := {
  mo_physical : 0 < physical_cores m ≤ 64;
  mo_frame : 0 < frame_cores m < physical_cores m;
  mo_cache : 0 < cores_per_cache m;
  mo_bandwidth : 0 < cores_per_bandwidth m;
  mo_tick : 0 < tick_ns m;
  mo_threads : 0 < threads_per_core m;
  mo_partitions : 0 ≤ partitions m ≤ u32_max;
  mo_memory : is_uint 64 (reservable_bytes m);
}.

(** Every field of a machine description is an unsigned integer. *)
Record Machine_typed (m : Machine) : Prop := {
  mt_words : Forall (is_uint 32) [physical_cores m; threads_per_core m; cores_per_cache m;
    cores_per_bandwidth m; partitions m; frame_cores m];
  mt_longs : is_uint 64 (reservable_bytes m) ∧ is_uint 64 (tick_ns m);
}.

Lemma Machine_check_ok m : Machine_typed m → Machine_check m = Ok tt → Machine_ok m.
Proof.
  intros [Hw [Hr Ht]]. rewrite !list.Forall_cons in Hw. destruct Hw as (H1 & H2 & H3 & H4 & H5 & H6 & _).
  unfold is_uint in *. unfold Machine_check, CORES_MAX.
  destruct ((physical_cores m =? 0) || (64 <? physical_cores m)) eqn:E1; [done|].
  destruct ((threads_per_core m =? 0) || (cores_per_cache m =? 0) || (cores_per_bandwidth m =? 0)) eqn:E2; [done|].
  destruct ((frame_cores m =? 0) || (physical_cores m <=? frame_cores m)) eqn:E3; [done|].
  destruct (tick_ns m =? 0) eqn:E4; [done|]. intros _.
  constructor; unfold is_uint, u32_max; lia.
Qed.

Lemma grain_pos m : Machine_ok m → 0 < exclusion_grain m.
Proof. intros []. unfold exclusion_grain. repeat case_match; lia. Qed.

Lemma partitions_wanted_range m : 0 ≤ partitions_wanted m ≤ 2.
Proof. unfold partitions_wanted. destruct (by_partition _), (by_partition _); cbn; lia. Qed.

(** ** The lowest free run *)
Definition free_run (taken base n : Z) : Prop := ∀ i, base ≤ i < base + n → Z.testbit taken i = false.

Lemma free_run_mask taken base n :
  0 ≤ base → 0 < n → base + n ≤ 64 → Z.land taken (run_mask base n) = 0 ↔ free_run taken base n.
Proof.
  intros Hb Hn Hs. rewrite land_zero_iff. split; intros Hf i.
  - intros Hi. specialize (Hf i). rewrite testbit_run_mask in Hf by done.
    rewrite (proj2 (in_run_true _ _ _) Hi) in Hf. destruct (Z.testbit taken i); [by destruct Hf|done].
  - rewrite testbit_run_mask by done. intros [Ht Hi%in_run_true]. by rewrite Hf in Ht.
Qed.

(** Where a run of [n] cores may be put. *)
Definition candidate (m : Machine) (n grain base : Z) : Prop :=
  (grain | base) ∧ frame_cores m ≤ base ∧ base + n ≤ physical_cores m.

Lemma lowest_free_loop_spec m taken n grain fuel : ∀ base,
  Machine_ok m → 0 < n ≤ 64 → 0 < grain ≤ 64 → (grain | base) → frame_cores m ≤ base ≤ 200 →
  (0 < fuel)%nat → physical_cores m - base < Z.of_nat fuel →
  (∀ b, candidate m n grain b → b < base → ¬ free_run taken b n) →
  match lowest_free_loop fuel (physical_cores m) taken base n grain with
  | Ok (Some mask) => ∃ b, candidate m n grain b ∧ mask = run_mask b n ∧ free_run taken b n ∧
      ∀ b', candidate m n grain b' → b' < b → ¬ free_run taken b' n
  | Ok None => ∀ b, candidate m n grain b → ¬ free_run taken b n
  | Err _ => False
  end.
Proof.
  induction fuel as [|fuel IH]; intros base Hm Hn Hg Hd Hf Hpos Hfuel Hlow; [lia|].
  destruct (id Hm) as [Hp Hfr _ _ _ _ _ _]. assert (Hu : 1000 < u32_max) by done.
  cbn [lowest_free_loop].
  - rewrite (proj2 (Z.ltb_ge _ _)) by lia.
    destruct (Z.ltb_spec (physical_cores m) (base + n)) as [Hend|Hfit].
    { intros b Hc. apply Hlow; [done|]. destruct Hc as (_ & _ & Hb). lia. }
    cbn zeta. destruct (Z.eqb_spec (Z.land taken (run_mask base n)) 0) as [E|E];
      rewrite free_run_mask in E by lia.
    { exists base. split; [split_and!; [done|lia|lia]|by split_and!]. }
    rewrite (proj2 (Z.ltb_ge _ _)) by lia. apply IH; try done; try lia; [by apply Z.divide_add_r; [|apply Z.divide_refl]|].
    intros b Hc Hlt. destruct (decide (b < base)) as [|Hge]; [by apply Hlow|].
    destruct (decide (b = base)) as [->|Hne]; [done|]. exfalso.
    destruct Hc as ([q ->] & _), Hd as [p ->].
    assert (q < p + 1) by (apply Z.mul_lt_mono_pos_r with grain; lia).
    assert (p ≤ q) by (apply Z.mul_le_mono_pos_r with grain; lia).
    by assert (q = p) as -> by lia.
Qed.

Lemma lowest_free_spec t n grain :
  let m := rt_machine t in
  Machine_ok m → 0 < n ≤ 64 → 0 < grain ≤ n →
  match lowest_free t n grain with
  | Ok (Some mask) => ∃ b, candidate m n grain b ∧ mask = run_mask b n ∧ free_run (rt_taken t) b n ∧
      ∀ b', candidate m n grain b' → b' < b → ¬ free_run (rt_taken t) b' n
  | Ok None => ∀ b, candidate m n grain b → ¬ free_run (rt_taken t) b n
  | Err _ => False
  end.
Proof.
  intros m Hm Hn Hg. unfold lowest_free. fold m. rewrite (proj2 (Z.eqb_neq grain 0)) by lia.
  destruct (id Hm) as [Hp Hfr _ _ _ _ _ _].
  pose proof (round_up_below (frame_cores m) grain ltac:(lia) ltac:(lia)) as Hup.
  assert (Hs : round_up (frame_cores m) grain < u32_max) by (unfold u32_max; lia).
  destruct (round_up_spec (frame_cores m) grain ltac:(lia) ltac:(lia) Hs) as [Hd Hr].
  apply lowest_free_loop_spec; try done; try lia.
  intros b (Hb1 & Hb2 & _) Hlt.
  pose proof (round_up_least (frame_cores m) grain b ltac:(lia) ltac:(lia) Hs Hb1 Hb2). lia.
Qed.

(** ** What a demand asks, and what a grant is *)
Record Demand_typed (d : Demand) : Prop := {
  dt_cores : is_uint 32 (dem_cores d);
  dt_longs : Forall (is_uint 64) [dem_period_ns d; dem_budget_ns d; dem_memory_bytes d];
}.

Definition hard (d : Demand) : Prop := dem_class d = manifest_HARD.

#[global] Instance hard_dec d : Decision (hard d).
Proof. unfold hard. apply _. Defined.

Definition schedulable (m : Machine) (d : Demand) : Prop :=
  manifest_class_known (dem_class d) = true ∧ domain_known (dem_domain d) = true ∧
  if decide (hard d)
  then 0 < dem_cores d ∧ 0 < dem_budget_ns d ∧ tick_ns m ≤ dem_period_ns d - dem_budget_ns d
  else dem_cores d = 0 ∧ dem_period_ns d = 0 ∧ dem_budget_ns d = 0.

#[global] Instance schedulable_dec m d : Decision (schedulable m d).
Proof. unfold schedulable. destruct (decide (hard d)); apply _. Defined.

Definition memory_fits (t : Reservations) (d : Demand) : Prop :=
  dem_memory_bytes d ≠ 0 ∧
  (hard d → (HUGE_BYTES | dem_memory_bytes d) ∧
    dem_memory_bytes d ≤ reservable_bytes (rt_machine t) - rt_memory_used t).

(** A grant of the first [wanted] cores of the run of [n] at [base]. *)
Record placed (m : Machine) (g : Grant) (base n wanted : Z) : Prop := {
  pl_candidate : candidate m n (exclusion_grain m) base;
  pl_domains : (exclusion_grain m | n);
  pl_wanted : 0 < wanted ≤ n;
  pl_cores i : Z.testbit (g_cores g) i = in_run base wanted i;
  pl_excluded i : Z.testbit (g_excluded g) i = in_run (base + wanted) (n - wanted) i;
}.

(** A grant of no core: the record the soft class is given. *)
Definition soft_grant (memory_bytes : Z) : Grant :=
  mkGrant 0 0 0 0 memory_bytes obtained_UNEXERCISED obtained_UNEXERCISED obtained_UNEXERCISED
    obtained_UNEXERCISED manifest_SOFT.

Definition holds_nothing (g : Grant) : Prop := g = soft_grant (g_memory_bytes g).

Section placed.
Context (m : Machine) (g : Grant) (base n wanted : Z).
Hypothesis Hm : Machine_ok m.
Hypothesis Hp : placed m g base n wanted.

Lemma placed_bounds : 0 < base ∧ base + n ≤ 64 ∧ 0 < n.
Proof. destruct Hm as [? ? _ _ _ _ _ _], Hp as [(_ & ? & ?) _ ? _ _]. lia. Qed.

Lemma placed_held i : Z.testbit (held_cores g) i = in_run base n i.
Proof.
  unfold held_cores. rewrite Z.lor_spec, (pl_cores _ _ _ _ _ Hp), (pl_excluded _ _ _ _ _ Hp).
  destruct Hp as [_ _ ? _ _]. unfold in_run. lia.
Qed.

Lemma placed_footprint : footprint g = n.
Proof. pose proof placed_bounds. apply (count_ones_run _ base); [lia|lia|lia|apply placed_held]. Qed.

Lemma placed_count : count_ones (g_cores g) = wanted.
Proof.
  pose proof placed_bounds. destruct Hp as [_ _ ? Hc _]. apply (count_ones_run _ base); [lia|lia|lia|done].
Qed.
End placed.

Lemma holds_nothing_held g i : holds_nothing g → Z.testbit (held_cores g) i = false.
Proof. intros ->. apply Z.bits_0. Qed.

Lemma holds_nothing_footprint g : holds_nothing g → footprint g = 0.
Proof. by intros ->. Qed.

(** The split of a free run. *)
Lemma with_split_placed m g base n wanted :
  Machine_ok m → candidate m n (exclusion_grain m) base → (exclusion_grain m | n) → 0 < wanted ≤ n →
  placed m (with_split g (run_mask base n) wanted) base n wanted.
Proof.
  intros Hm Hc Hd Hw. destruct (id Hm) as [? ? _ _ _ _ _ _]. destruct (id Hc) as (_ & ? & ?).
  assert (Hrun : ∀ i, Z.testbit (split_loop (Z.to_nat CORES_MAX) 0 (run_mask base n) 0 wanted) i = in_run base wanted i).
  { apply split_loop_run; try lia; [done|].
    intros i. rewrite Z.bits_0. symmetry. apply in_run_false. lia. }
  constructor; try done. intros i. unfold with_split. cbn [g_excluded]. rewrite Z.land_spec.
  rewrite testbit_run_mask by lia. destruct (in_run base n i) eqn:Hi; cbn [andb].
  - apply in_run_true in Hi. rewrite testbit_bnot, Hrun by lia. unfold in_run. lia.
  - apply in_run_false in Hi. symmetry. apply in_run_false. lia.
Qed.

Lemma with_split_fields g fp wanted :
  g_period_ns (with_split g fp wanted) = g_period_ns g ∧ g_budget_ns (with_split g fp wanted) = g_budget_ns g ∧
  g_memory_bytes (with_split g fp wanted) = g_memory_bytes g ∧ g_class (with_split g fp wanted) = g_class g.
Proof. done. Qed.

(** ** The halves of the decision *)
Lemma cpu_half_spec m d :
  Machine_ok m → Demand_typed d →
  manifest_class_known (dem_class d) = true → domain_known (dem_domain d) = true →
  cpu_half m d = if decide (schedulable m d) then Ok tt else Err (Refuses NotSchedulable).
Proof.
  intros Hm [Hc Hl] Hk Hd. pose proof (mo_tick _ Hm) as Ht. rewrite !list.Forall_cons in Hl.
  destruct Hl as (H1 & H2 & _). unfold is_uint in *. unfold cpu_half.
  destruct (decide (schedulable m d)) as [(_ & _ & Hs)|Hn].
  - destruct (Z.eqb_spec (dem_class d) manifest_HARD) as [E|E].
    + rewrite decide_True in Hs by done. repeat case_match; done || lia.
    + rewrite decide_False in Hs by done. destruct Hs as (-> & -> & ->). done.
  - unfold schedulable, hard in Hn. destruct (Z.eqb_spec (dem_class d) manifest_HARD) as [E|E].
    + rewrite decide_True in Hn by done. repeat case_match; try done. destruct Hn. split_and!; done || lia.
    + rewrite decide_False in Hn by done. case_match; [done|]. destruct Hn. split_and!; done || lia.
Qed.

Lemma memory_half_spec t d :
  Demand_typed d →
  memory_half t d = Ok tt ∧ memory_fits t d ∨ memory_half t d = Err (Refuses NoMemory) ∧ ¬ memory_fits t d.
Proof.
  intros [_ Hl]. rewrite !list.Forall_cons in Hl. destruct Hl as (_ & _ & [Hm _] & _).
  unfold memory_half, memory_fits, hard.
  destruct (Z.eqb_spec (dem_memory_bytes d) 0) as [E|E]; [right; naive_solver|].
  destruct (Z.eqb_spec (dem_class d) manifest_HARD) as [Eh|Eh]; [|left; naive_solver].
  assert (Hdiv : dem_memory_bytes d mod HUGE_BYTES = 0 ↔ (HUGE_BYTES | dem_memory_bytes d)).
  { apply Z.mod_divide. done. }
  destruct (Z.eqb_spec (dem_memory_bytes d mod HUGE_BYTES) 0) as [E1|E1]; cbn [negb].
  2:{ right. split; [done|]. intros [_ Hx]. destruct (Hx Eh) as [? _]. tauto. }
  repeat case_match; (left; split; [done|]; split; [done|]; intros _; split; [tauto|lia]) ||
    (right; split; [done|]; intros [_ Hx]; destruct (Hx Eh) as [_ ?]; lia).
Qed.

(** ** The decision *)
Definition decided (t : Reservations) (d : Demand) (r : res stop Grant) : Prop :=
  let m := rt_machine t in
  let wanted := whole_cores d in
  match r with
  | Ok g =>
      schedulable m d ∧ memory_fits t d ∧ answers g d = true ∧ g_class g = dem_class d ∧
      (wanted = 0 ∧ holds_nothing g ∨
       ∃ base n, placed m g base n wanted ∧ n < wanted + exclusion_grain m ∧ free_run (rt_taken t) base n ∧
         (∀ b, candidate m n (exclusion_grain m) b → b < base → ¬ free_run (rt_taken t) b n) ∧
         rt_partitions_used t + partitions_wanted m ≤ partitions m)
  | Err (Refuses NotSchedulable) => ¬ schedulable m d
  | Err (Refuses NoMemory) => schedulable m d ∧ ¬ memory_fits t d
  | Err (Refuses NoCore) =>
      schedulable m d ∧ memory_fits t d ∧ 0 < wanted ∧
      ∀ b n, candidate m n (exclusion_grain m) b → (exclusion_grain m | n) → wanted ≤ n →
        ¬ free_run (rt_taken t) b n
  | Err (Refuses NoBandwidth) =>
      schedulable m d ∧ memory_fits t d ∧ 0 < wanted ∧
      partitions m < rt_partitions_used t + partitions_wanted m
  | Err Stopped => False
  end.

(** A demand for no whole core is granted with nothing held. *)
Lemma whole_cores_range m d : schedulable m d → Demand_typed d → 0 ≤ whole_cores d ≤ u32_max.
Proof.
  intros (_ & _ & Hs) [Hc _]. unfold whole_cores, is_uint, u32_max, hard in *.
  destruct (Z.eqb_spec (dem_class d) manifest_HARD); [lia|]. destruct (_ =? _); lia.
Qed.

(** A whole number of domains at least as wide as asked is at least the
    footprint. *)
Lemma footprint_least wanted grain n :
  0 < wanted → 0 < grain → (grain | n) → wanted ≤ n ≤ 64 → round_up wanted grain ≤ n.
Proof.
  intros Hw Hg Hd Hn. pose proof (round_up_below wanted grain Hw Hg) as Hup.
  assert (Hgn : grain ≤ n) by (apply Z.divide_pos_le; [lia|done]).
  apply round_up_least; try done; try lia. unfold u32_max. lia.
Qed.

Lemma rt_admit_spec t d :
  Machine_ok (rt_machine t) → Demand_typed d → 0 ≤ rt_partitions_used t ≤ 1000 → decided t d (rt_admit t d).
Proof.
  intros Hm Hd Hpart. unfold rt_admit. set (m := rt_machine t) in *.
  destruct (manifest_class_known (dem_class d)) eqn:Hk; cbn [negb orb].
  2:{ intros (Hs & _). congruence. }
  destruct (domain_known (dem_domain d)) eqn:Hdk; cbn [negb].
  2:{ intros (_ & Hs & _). congruence. }
  rewrite cpu_half_spec by done. destruct (decide (schedulable m d)) as [Hs|Hs]; rsimpl; [|done].
  destruct (memory_half_spec t d Hd) as [[-> Hmem]|[-> Hmem]]; rsimpl; [|done].
  pose proof (whole_cores_range m d Hs Hd) as Hw.
  destruct (Z.eqb_spec (whole_cores d) 0) as [Hz|Hz].
  { assert (Hsoft : ¬ hard d).
    { intros Hh. destruct Hs as (_ & _ & Hs). rewrite decide_True in Hs by done.
      unfold whole_cores in Hz. rewrite Hh in Hz. cbn in Hz. lia. }
    assert (Hcl : dem_class d = manifest_SOFT).
    { unfold manifest_class_known in Hk. unfold hard, manifest_HARD in Hsoft. unfold manifest_HARD, manifest_SOFT in *. lia. }
    split_and!; try done; [|left; split; [done|]; unfold holds_nothing, soft_grant; cbn; by rewrite Hcl]. unfold answers. cbn [g_class g_period_ns g_budget_ns g_memory_bytes g_cores].
    destruct Hs as (_ & _ & Hs). rewrite decide_False in Hs by done. destruct Hs as (_ & -> & ->).
    by rewrite !Z.eqb_refl, Hz. }
  pose proof (grain_pos m Hm) as Hg. set (grain := exclusion_grain m) in *.
  set (n := round_up (whole_cores d) grain).
  destruct (id Hm) as [Hp Hf _ _ _ _ Hpm _].
  assert (Hoff : offerable m = physical_cores m - frame_cores m) by (unfold offerable, saturating_sub; lia).
  assert (Hfit : ∀ b k, candidate m k grain b → (grain | k) → whole_cores d ≤ k → n ≤ k).
  { intros b k (_ & ? & ?) Hk' Hwk. apply footprint_least; try done; lia. }
  destruct (Z.ltb_spec (offerable m) n) as [Hbig|Hsmall].
  { cbn. split; [done|]. split; [done|]. split; [lia|]. intros b k Hc Hk' Hwk _.
    pose proof (Hfit b k Hc Hk' Hwk). destruct Hc as (_ & Hc1 & Hc2). fold m in Hc1, Hc2. lia. }
  destruct (round_up_spec (whole_cores d) grain) as [Hdn Hnr]; [lia|done|fold n; unfold u32_max; lia|].
  fold n in Hdn, Hnr. assert (Hgn : grain ≤ n) by (apply Z.divide_pos_le; [lia|done]).
  pose proof (lowest_free_spec t n grain Hm ltac:(lia) ltac:(lia)) as L. fold m in L.
  destruct (lowest_free t n grain) as [[mask|]|e]; [| |done]; rsimpl.
  2:{ cbn. split; [done|]. split; [done|]. split; [lia|]. intros b k Hc Hk' Hwk Hfree.
      pose proof (Hfit b k Hc Hk' Hwk) as Hnk. apply (L b).
      - destruct Hc as (Hc0 & Hc1 & Hc2). fold m in Hc0, Hc1, Hc2. split_and!; [done|done|lia].
      - intros i Hi. apply Hfree. lia. }
  destruct L as (base & Hc & -> & Hfree & Hlow).
  pose proof (partitions_wanted_range m) as Hpw.
  rewrite (proj2 (Z.ltb_ge u32_max _)) by (unfold u32_max; lia).
  destruct (Z.ltb_spec (partitions m) (rt_partitions_used t + partitions_wanted m)) as [Hno|Hyes].
  { cbn. fold m. split_and!; done || lia. }
  pose proof (with_split_placed m (mkGrant 0 0 (dem_period_ns d) (dem_budget_ns d) (dem_memory_bytes d)
    (if 1 <? threads_per_core m then obtained_EXCLUSION else obtained_UNEXERCISED)
    (obtained_by (mch_cache m)) (obtained_by (mch_bandwidth m)) obtained_PARTITION (dem_class d))
    base n (whole_cores d) Hm Hc Hdn ltac:(lia)) as Hpl.
  split; [done|]. split; [done|]. split; [|split; [done|]].
  - unfold answers. rewrite (placed_count _ _ _ _ _ Hm Hpl). cbn. by rewrite !Z.eqb_refl.
  - right. exists base, n. fold m. fold grain. split_and!; done || lia.
Qed.
