(* ===== verification/ReserveInv.v ===== *)
(** * The reservation table: every operation keeps the invariant

    [rt_ok] counts: a core's bit in [taken] is the number of grants that hold
    it, the pool spent is the sum of the hard grants' memory, and the partitions
    spent are those of the grants that hold a core. *)

From S2P Require Import Prelude Abi Extents Reserve ReserveFacts.
#[local] Open Scope Z_scope.

(** ** Sums and counts over the grants *)
Lemma zsum_range {A} (f : A → Z) l n : (∀ x, x ∈ l → 0 ≤ f x ≤ n) → 0 ≤ zsum f l ≤ n * Z.of_nat (length l).
Proof.
  induction l as [|x l IH]; intros Hf; cbn; [lia|].
  pose proof (Hf x (list_elem_of_here _ _)).
  pose proof (IH (λ y Hy, Hf y (list_elem_of_further _ _ _ Hy))). lia.
Qed.

Definition pool_bytes (g : Grant) : Z := if g_class g =? manifest_HARD then g_memory_bytes g else 0.
Definition spends (g : Grant) : Z := if 0 <? footprint g then 1 else 0.

(** How many grants hold a core. *)
Definition holders (gs : list Grant) (core : Z) : Z := zsum (λ g, Z.b2z (Z.testbit (held_cores g) core)) gs.

(** ** The invariant *)
Record grant_ok (m : Machine) (g : Grant) : Prop := {
  go_memory : 0 ≤ g_memory_bytes g;
  go_period : 0 ≤ g_budget_ns g ≤ g_period_ns g;
  go_cores : holds_nothing g ∨ ∃ base n wanted, placed m g base n wanted;
}.

Record rt_ok (t : Reservations) : Prop := {
  ro_machine : Machine_ok (rt_machine t);
  ro_size : length (rt_held t) = RESERVATIONS_MAX ∧ (rt_count t ≤ RESERVATIONS_MAX)%nat;
  ro_grants : Forall (grant_ok (rt_machine t)) (grants t);
  ro_taken core : holders (grants t) core = Z.b2z (Z.testbit (rt_taken t) core);
  ro_memory : rt_memory_used t = zsum pool_bytes (grants t);
  ro_pool : rt_memory_used t ≤ reservable_bytes (rt_machine t);
  ro_partitions : rt_partitions_used t = partitions_wanted (rt_machine t) * zsum spends (grants t);
  ro_spent : rt_partitions_used t ≤ partitions (rt_machine t);
}.

Lemma grants_take t : rt_ok t → grants t = take (rt_count t) (rt_held t).
Proof.
  intros Hok. destruct (ro_size _ Hok) as [Hl Hc]. unfold grants.
  by rewrite (proj2 (Nat.ltb_ge _ _)) by lia.
Qed.

Lemma grants_length t : rt_ok t → length (grants t) = rt_count t.
Proof.
  intros Hok. rewrite grants_take by done. destruct (ro_size _ Hok). rewrite length_take. lia.
Qed.

Lemma grant_held m g core : Machine_ok m → grant_ok m g → Z.testbit (held_cores g) core = true → 0 ≤ core < 64.
Proof.
  intros Hm [_ _ [Hn|(base & n & w & Hp)]] Ht; [by rewrite holds_nothing_held in Ht|].
  rewrite (placed_held _ _ _ _ _ Hp) in Ht. apply in_run_true in Ht.
  pose proof (placed_bounds _ _ _ _ _ Hm Hp). lia.
Qed.

Lemma pool_bytes_nonneg m g : grant_ok m g → 0 ≤ pool_bytes g.
Proof. intros []. unfold pool_bytes. by case_match. Qed.

Lemma spends_range g : 0 ≤ spends g ≤ 1.
Proof. unfold spends. case_match; lia. Qed.

Lemma spent_bound t : rt_ok t → 0 ≤ rt_partitions_used t ≤ 1000.
Proof.
  intros Hok. rewrite (ro_partitions _ Hok). pose proof (partitions_wanted_range (rt_machine t)).
  pose proof (zsum_range spends (grants t) 1 (λ g _, spends_range g)) as Hs.
  rewrite grants_length in Hs by done. destruct (ro_size _ Hok) as [_ Hc]. unfold RESERVATIONS_MAX in Hc.
  assert (0 ≤ zsum spends (grants t) ≤ 18) by lia.
  assert (partitions_wanted (rt_machine t) * zsum spends (grants t) ≤ 2 * 18) by (apply Z.mul_le_mono_nonneg; lia).
  split; [apply Z.mul_nonneg_nonneg; lia|lia].
Qed.

Lemma bit_range w i : 0 ≤ Z.b2z (Z.testbit w i) ≤ 1.
Proof. destruct (Z.testbit w i); cbn; lia. Qed.

Lemma holders_nonneg gs core : 0 ≤ holders gs core.
Proof. apply (zsum_range _ _ 1). intros g _. apply bit_range. Qed.

Lemma holders_cons g gs core : holders (g :: gs) core = Z.b2z (Z.testbit (held_cores g) core) + holders gs core.
Proof. done. Qed.

Lemma holders_app gs1 gs2 core : holders (gs1 ++ gs2) core = holders gs1 core + holders gs2 core.
Proof. apply zsum_app. Qed.

(** A core is taken exactly when one grant holds it, and no two do. *)
Lemma holders_elem gs core g : g ∈ gs → Z.testbit (held_cores g) core = true → 0 < holders gs core.
Proof.
  intros Hin Ht. apply list_elem_of_split in Hin as (l1 & l2 & ->). rewrite holders_app, holders_cons, Ht.
  pose proof (holders_nonneg l1 core). pose proof (holders_nonneg l2 core). cbn. lia.
Qed.

Lemma holders_pos gs core :
  holders gs core = 1 → ∃ g, g ∈ gs ∧ Z.testbit (held_cores g) core = true.
Proof.
  induction gs as [|x l IH]; [done|]. rewrite holders_cons. intros Hh.
  destruct (Z.testbit (held_cores x) core) eqn:E; [exists x; split; [apply list_elem_of_here|done]|].
  destruct IH as (g & Hg & Ht); [done|]. exists g. split; [by apply list_elem_of_further|done].
Qed.

Lemma held_taken t g core :
  rt_ok t → g ∈ grants t → Z.testbit (held_cores g) core = true → Z.testbit (rt_taken t) core = true.
Proof.
  intros Hok Hin Ht. pose proof (holders_elem _ _ _ Hin Ht) as Hh. rewrite (ro_taken _ Hok) in Hh.
  by destruct (Z.testbit (rt_taken t) core).
Qed.

Lemma grants_disjoint t i j gi gj core :
  rt_ok t → grants t !! i = Some gi → grants t !! j = Some gj → i ≠ j →
  Z.testbit (held_cores gi) core = true → Z.testbit (held_cores gj) core = true → False.
Proof.
  assert (Hlt : ∀ i j gi gj, rt_ok t → grants t !! i = Some gi → grants t !! j = Some gj → (i < j)%nat →
    Z.testbit (held_cores gi) core = true → Z.testbit (held_cores gj) core = true → False).
  { clear i j gi gj. intros i j gi gj Hok Hi Hj Hij Ti Tj.
    pose proof (ro_taken _ Hok core) as Hc. rewrite <- (take_drop_middle _ _ _ Hi) in Hc.
    rewrite holders_app, holders_cons, Ti in Hc.
    assert (Hin : gj ∈ drop (S i) (grants t)).
    { apply list_elem_of_lookup. exists (j - S i)%nat. rewrite lookup_drop, <- Hj. f_equal. lia. }
    pose proof (holders_elem _ _ _ Hin Tj). pose proof (holders_nonneg (take i (grants t)) core).
    pose proof (bit_range (rt_taken t) core). cbn [Z.b2z] in Hc. lia. }
  intros Hok Hi Hj Hne Ti Tj. destruct (decide (i < j)%nat); [by eapply (Hlt i j)|].
  eapply (Hlt j i); try done. lia.
Qed.

(** ** A new table *)
Lemma Reservations_new_ok m t : Machine_typed m → Reservations_new m = Ok t → rt_ok t ∧ grants t = [] ∧ rt_machine t = m.
Proof.
  intros Hm. unfold Reservations_new. destruct (Machine_check m) as [[]|] eqn:E; rsimpl; [|done].
  intros [= <-]. pose proof (Machine_check_ok m Hm E) as Hmo. split; [|done].
  constructor; cbn; try done; try lia.
  - split; [done|unfold RESERVATIONS_MAX; lia].
  - intros core. by rewrite Z.bits_0.
  - apply Hmo.
  - apply Hmo.
Qed.

(** ** Granting *)
Lemma grants_push t g refused admitted taken parts mem :
  rt_ok t → (rt_count t < RESERVATIONS_MAX)%nat →
  let t' := mkReservations (rt_machine t) (<[rt_count t := g]> (rt_held t)) (S (rt_count t)) taken parts mem
              admitted refused in
  grants t' = grants t ++ [g].
Proof.
  intros Hok Hlt t'. destruct (ro_size _ Hok) as [Hl _]. rewrite (grants_take t Hok). unfold grants, t'. cbn [rt_held rt_count].
  rewrite length_insert, (proj2 (Nat.ltb_ge _ _)) by lia.
  rewrite (take_S_r _ _ g) by (apply list_lookup_insert_eq; lia). by rewrite take_insert_ge by lia.
Qed.

Lemma with_refused_ok t why : rt_ok t → rt_ok (with_refused t why) ∧ grants (with_refused t why) = grants t.
Proof. intros []. split; [by constructor|done]. Qed.

(** What the table holds after a grant. *)
Lemma rt_grant_spec t d :
  rt_ok t → Demand_typed d →
  match rt_grant d t with
  | (Ok g, t') => rt_ok t' ∧ grants t' = grants t ++ [g] ∧ rt_machine t' = rt_machine t ∧ decided t d (Ok g) ∧
      grant_ok (rt_machine t) g ∧ (∀ core, Z.testbit (rt_taken t') core =
        Z.testbit (rt_taken t) core || Z.testbit (held_cores g) core)
  | (Err (Refuses why), t') => t' = with_refused t why ∧
      (decided t d (Err (Refuses why)) ∨ why = NoCore ∧ rt_count t = RESERVATIONS_MAX)
  | (Err Stopped, _) => False
  end.
Proof.
  intros Hok Hd. pose proof (rt_admit_spec t d (ro_machine _ Hok) Hd (spent_bound _ Hok)) as A.
  unfold rt_grant. destruct (rt_admit t d) as [g|[why|]]; [|by split; [|left]|done].
  destruct (Nat.leb_spec RESERVATIONS_MAX (rt_count t)) as [Hfull|Hroom].
  { split; [done|]. right. split; [done|]. destruct (ro_size _ Hok). lia. }
  destruct (id A) as (Hs & Hmem & Hans & Hcl & Hcores).
  assert (Hg : grant_ok (rt_machine t) g).
  { unfold answers in Hans. rewrite !andb_true_iff, !Z.eqb_eq in Hans. destruct Hans as ((((_ & Hp) & Hb) & Hm) & _).
    destruct Hd as [_ Hl]. rewrite !list.Forall_cons in Hl. destruct Hl as (H1 & H2 & H3 & _). unfold is_uint in *.
    destruct Hs as (_ & _ & Hs). constructor; [lia| |].
    - rewrite Hp, Hb. pose proof (mo_tick _ (ro_machine _ Hok)). case_decide; lia.
    - destruct Hcores as [[Hz Hn]|(base & n & Hpl & _)]; [by left|by right; eauto]. }
  (* the cores are free *)
  assert (Hfree : ∀ core, Z.testbit (held_cores g) core = true → Z.testbit (rt_taken t) core = false).
  { intros core Ht. destruct Hcores as [[_ Hn]|(base & n & Hpl & _ & Hfree & _)].
    - by rewrite holds_nothing_held in Ht.
    - rewrite (placed_held _ _ _ _ _ Hpl) in Ht. apply in_run_true in Ht. by apply Hfree. }
  pose proof (spent_bound _ Hok) as Hsb. pose proof (partitions_wanted_range (rt_machine t)) as Hpw.
  assert (Hparts : (if 0 <? footprint g then saturating_add 32 (rt_partitions_used t) (partitions_wanted (rt_machine t))
                    else rt_partitions_used t) = rt_partitions_used t + partitions_wanted (rt_machine t) * spends g).
  { unfold spends, saturating_add. destruct (0 <? footprint g); [|lia]. rewrite Z.min_l; lia. }
  assert (Hpool : (if g_class g =? manifest_HARD then saturating_add 64 (rt_memory_used t) (g_memory_bytes g)
                   else rt_memory_used t) = rt_memory_used t + pool_bytes g ∧
                  rt_memory_used t + pool_bytes g ≤ reservable_bytes (rt_machine t)).
  { pose proof (ro_pool _ Hok) as Hpo. unfold pool_bytes.
    destruct (Z.eqb_spec (g_class g) manifest_HARD) as [Eh|]; [|lia].
    unfold answers in Hans. rewrite !andb_true_iff, !Z.eqb_eq in Hans. destruct Hans as ((_ & Hm) & _).
    destruct Hmem as [_ Hmem]. destruct Hmem as [_ Hmem]; [unfold hard; congruence|].
    pose proof (mo_memory _ (ro_machine _ Hok)) as Hr. unfold saturating_add, is_uint in *.
    rewrite Z.min_l; lia. }
  destruct Hpool as [Ep Hpool]. rewrite Hparts, Ep.
  pose proof (grants_push t g (rt_refused t) (saturating_add 32 (rt_admitted t) 1) (Z.lor (rt_taken t) (held_cores g))
    (rt_partitions_used t + partitions_wanted (rt_machine t) * spends g) (rt_memory_used t + pool_bytes g) Hok Hroom) as Eg.
  cbn zeta in Eg. split; [|split_and!; try done; intros core; apply Z.lor_spec].
  destruct (id Hok) as [Hmo [Hl Hc] Hgs Htk Hmu _ Hpu Hpc]. constructor; rewrite ?Eg; cbn; try done.
  - rewrite length_insert. split; [done|lia].
  - apply Forall_app. split; [done|]. by apply list.Forall_cons_2; [|constructor].
  - intros core. rewrite holders_app, Htk, holders_cons, Z.lor_spec. specialize (Hfree core).
    destruct (Z.testbit (held_cores g) core); [rewrite Hfree by done|rewrite orb_false_r]; cbn; lia.
  - rewrite zsum_app, <- Hmu. cbn. lia.
  - rewrite zsum_app, Hpu. cbn. lia.
  - unfold spends. destruct (Z.ltb_spec 0 (footprint g)) as [Hfp|]; [|lia].
    destruct Hcores as [[_ Hn]|(base & n & _ & _ & _ & _ & Hle)]; [|lia].
    rewrite (holds_nothing_footprint _ Hn) in Hfp. lia.
Qed.

(** ** Releasing *)
Lemma close_gap_lookup (held : list Grant) at_ k i :
  (at_ + k < length held)%nat →
  foldl (λ (held : list Grant) slot, match held !! S slot with Some next => <[slot := next]> held | None => held end)
    held (seq at_ k) !! i = if decide (at_ ≤ i < at_ + k)%nat then held !! S i else held !! i.
Proof.
  revert i. induction k as [|k IH]; intros i Hlen.
  { cbn. rewrite decide_False by lia. done. }
  rewrite seq_S, foldl_app. cbn [foldl].
  set (h := foldl _ held (seq at_ k)) in *.
  assert (Hh : length h = length held).
  { unfold h. clear. generalize (seq at_ k) as ss. intros ss. revert held.
    induction ss as [|s ss IH]; intros held; [done|]. cbn. rewrite IH. destruct (held !! S s); [apply length_insert|done]. }
  rewrite (IH (S (at_ + k))), decide_False by lia.
  destruct (lookup_lt_is_Some_2 held (S (at_ + k))) as [next En]; [lia|]. rewrite En.
  destruct (decide (i = (at_ + k)%nat)) as [->|Hne].
  - rewrite list_lookup_insert_eq by lia. rewrite decide_True by lia. by rewrite En.
  - rewrite list_lookup_insert_ne, IH by lia.
    destruct (decide (at_ ≤ i < at_ + k)%nat); [rewrite decide_True by lia|rewrite decide_False by lia]; done.
Qed.

Lemma close_gap_take held at_ count :
  (at_ < count ≤ length held)%nat →
  take (count - 1) (close_gap held at_ count) = delete at_ (take count held).
Proof.
  intros Hc. apply list_eq. intros i. unfold close_gap.
  destruct (decide (i < count - 1)%nat) as [Hi|Hi].
  - rewrite lookup_take_lt, close_gap_lookup by lia. destruct (decide (at_ ≤ i)%nat) as [Hle|Hlt].
    + rewrite decide_True, list_lookup_delete_ge, lookup_take_lt by lia. done.
    + rewrite decide_False, list_lookup_delete_lt, lookup_take_lt by lia. done.
  - rewrite lookup_take_ge by lia. symmetry. apply lookup_ge_None.
    rewrite length_delete; [rewrite length_take; lia|]. apply lookup_lt_is_Some_2. rewrite length_take. lia.
Qed.

Lemma close_gap_length held at_ count : length (close_gap held at_ count) = length held.
Proof.
  unfold close_gap. generalize (seq at_ (count - 1 - at_)) as ss. intros ss. revert held.
  induction ss as [|s ss IH]; intros held; [done|]. cbn. rewrite IH. destruct (held !! S s); [apply length_insert|done].
Qed.

(** What is given back is the first grant [rt_release] cannot tell from the one
    named, and nothing else of the table changes. *)
Lemma rt_release_spec t g :
  rt_ok t →
  let '(given_back, t') := rt_release g t in
  rt_ok t' ∧ rt_machine t' = rt_machine t ∧
  if given_back then
    ∃ i given, grants t !! i = Some given ∧ same_grant given g = true ∧ grants t' = delete i (grants t) ∧
      (∀ core, Z.testbit (rt_taken t') core = Z.testbit (rt_taken t) core && negb (Z.testbit (held_cores given) core)) ∧
      rt_memory_used t' = rt_memory_used t - pool_bytes given ∧
      rt_partitions_used t' = rt_partitions_used t - partitions_wanted (rt_machine t) * spends given
  else t' = t ∧ ∀ held, held ∈ grants t → same_grant held g = false.
Proof.
  intros Hok. unfold rt_release. destruct (list_find _ (grants t)) as [[i given]|] eqn:F.
  2:{ split; [done|]. split; [done|]. split; [done|]. intros held Hin.
      apply list_find_None in F. rewrite list.Forall_forall in F. specialize (F _ Hin).
      by destruct (same_grant held g). }
  apply list_find_Some in F as (Hi & Hsame & _).
  pose proof (grants_length _ Hok) as Hgl. pose proof (lookup_lt_Some _ _ _ Hi) as Hlt. rewrite Hgl in Hlt.
  destruct (id Hok) as [Hmo [Hl Hc] Hgs Htk Hmu Hpo Hpu Hpc].
  assert (Hgo : grant_ok (rt_machine t) given) by (rewrite list.Forall_forall in Hgs; by apply Hgs, (list_elem_of_lookup_2 _ i)).
  pose proof (delete_Permutation _ _ _ Hi) as Hperm.
  assert (Hpool : zsum pool_bytes (grants t) = pool_bytes given + zsum pool_bytes (delete i (grants t)))
    by (rewrite (zsum_perm _ _ _ Hperm); done).
  assert (Hspend : zsum spends (grants t) = spends given + zsum spends (delete i (grants t)))
    by (rewrite (zsum_perm _ _ _ Hperm); done).
  assert (Hdel : Forall (grant_ok (rt_machine t)) (delete i (grants t))).
  { rewrite Hperm in Hgs. by apply list.Forall_cons in Hgs as [_ Hgs]. }
  assert (Hnn : 0 ≤ zsum pool_bytes (delete i (grants t)) ∧ 0 ≤ zsum spends (delete i (grants t))).
  { split; [|apply (zsum_range _ _ 1); intros; apply spends_range].
    clear -Hdel. induction Hdel as [|x l Hx _ IH]; cbn; [done|]. pose proof (pool_bytes_nonneg _ _ Hx). lia. }
  pose proof (partitions_wanted_range (rt_machine t)) as Hpw.
  assert (Eparts : (if 0 <? footprint given
            then saturating_sub (rt_partitions_used t) (partitions_wanted (rt_machine t)) else rt_partitions_used t) =
          rt_partitions_used t - partitions_wanted (rt_machine t) * spends given).
  { unfold spends, saturating_sub in *. destruct (0 <? footprint given); [|lia]. rewrite Hpu, Hspend. nia. }
  assert (Epool : (if g_class given =? manifest_HARD then saturating_sub (rt_memory_used t) (g_memory_bytes given)
                   else rt_memory_used t) = rt_memory_used t - pool_bytes given).
  { unfold pool_bytes, saturating_sub in *. rewrite Hmu. destruct (g_class given =? manifest_HARD); lia. }
  rewrite Eparts, Epool.
  set (t' := mkReservations _ _ _ _ _ _ _ _).
  assert (Hbits : ∀ core, Z.testbit (rt_taken t') core =
            Z.testbit (rt_taken t) core && negb (Z.testbit (held_cores given) core)).
  { intros core. unfold t'. cbn. rewrite Z.land_spec. destruct (Z.testbit (rt_taken t) core) eqn:Tc; [|done].
    rewrite testbit_bnot; [done|]. pose proof (Htk core) as Hh. rewrite Tc in Hh. cbn in Hh.
    assert (Hx : ∃ g, g ∈ grants t ∧ Z.testbit (held_cores g) core = true) by (by apply holders_pos).
    destruct Hx as (x & Hx & Ht). rewrite list.Forall_forall in Hgs. by apply (grant_held _ x _ Hmo (Hgs _ Hx)). }
  assert (Eg : grants t' = delete i (grants t)).
  { rewrite (grants_take t Hok). unfold grants, t'. cbn [rt_held rt_count].
    rewrite length_insert, close_gap_length, (proj2 (Nat.ltb_ge _ _)) by lia.
    rewrite take_insert_ge by lia. apply close_gap_take. lia. }
  split; [|split; [done|]]; [|exists i, given; by split_and!].
  constructor; rewrite ?Eg; cbn; try done.
  - rewrite length_insert, close_gap_length. split; [done|lia].
  - intros core. fold (rt_taken t'). change (Z.land _ _) with (rt_taken t'). rewrite Hbits.
    pose proof (Htk core) as Hh. unfold holders in Hh. rewrite (zsum_perm _ _ _ Hperm) in Hh.
    fold (holders (given :: delete i (grants t)) core) in Hh. rewrite holders_cons in Hh.
    pose proof (holders_nonneg (delete i (grants t)) core).
    destruct (Z.testbit (held_cores given) core), (Z.testbit (rt_taken t) core); cbn in *; lia.
  - lia.
  - pose proof (pool_bytes_nonneg _ _ Hgo). lia.
  - nia.
  - pose proof (spends_range given). nia.
Qed.
