(* ===== verification/ReserveTheorems.v ===== *)
(** * The reservation table: what admission promises

    Whatever is granted and given back, cores, pool and partitions are never
    over-subscribed and a contention domain is never shared; a demand is refused
    exactly when it cannot be met; giving back undoes a grant; and an idle depth
    is one every reservation on the core can wake from in time. *)

From S2P Require Import Prelude Abi Extents Reserve ReserveFacts ReserveInv.
#[local] Open Scope Z_scope.

(** ** Runs of the table *)
Inductive RCall : Type := RGrant (d : Demand) | RRelease (g : Grant).

Definition rt_call (c : RCall) (t : Reservations) : Reservations :=
  match c with
  | RGrant d => (rt_grant d t).2
  | RRelease g => (rt_release g t).2
  end.

Definition rt_run (cs : list RCall) (t : Reservations) : Reservations := foldl (λ t c, rt_call c t) t cs.

Definition rcall_typed (c : RCall) : Prop := match c with RGrant d => Demand_typed d | RRelease _ => True end.

Lemma rt_call_ok c t : rt_ok t → rcall_typed c → rt_ok (rt_call c t) ∧ rt_machine (rt_call c t) = rt_machine t.
Proof.
  intros Hok Hc. destruct c as [d|g]; cbn.
  - pose proof (rt_grant_spec t d Hok Hc) as G. destruct (rt_grant d t) as [[g|[why|]] t']; [| |done].
    + by destruct G as (? & _ & ? & _).
    + destruct G as [-> _]. by destruct (with_refused_ok t why Hok).
  - pose proof (rt_release_spec t g Hok) as R. destruct (rt_release g t) as [b t']. by destruct R as (? & ? & _).
Qed.

Lemma rt_run_ok cs t : rt_ok t → Forall rcall_typed cs → rt_ok (rt_run cs t) ∧ rt_machine (rt_run cs t) = rt_machine t.
Proof.
  intros Hok Hcs. revert t Hok. induction Hcs as [|c cs Hc _ IH]; intros t Hok; [done|].
  destruct (rt_call_ok c t Hok Hc) as [Hok' Em]. destruct (IH _ Hok') as [Hr Er]. split; [done|].
  cbn. unfold rt_run in Er. congruence.
Qed.

(** Reached from a fresh table of a machine that passes the check. *)
Definition rt_reachable (m : Machine) (t : Reservations) : Prop :=
  ∃ fresh cs, Machine_typed m ∧ Reservations_new m = Ok fresh ∧ Forall rcall_typed cs ∧ t = rt_run cs fresh.

Lemma rt_reachable_ok m t : rt_reachable m t → rt_ok t ∧ rt_machine t = m.
Proof.
  intros (fresh & cs & Hm & Hn & Hcs & ->). destruct (Reservations_new_ok m fresh Hm Hn) as (Hok & _ & <-).
  by apply rt_run_ok.
Qed.

(** ** Contention domains *)

(** Cores in one domain of [width] are held by one grant or by none, where the
    domain divides the exclusion grain. *)
Lemma placed_domain m g base n wanted width core core' :
  Machine_ok m → placed m g base n wanted → 0 < width → (width | exclusion_grain m) → core / width = core' / width →
  Z.testbit (held_cores g) core = true → Z.testbit (held_cores g) core' = true.
Proof.
  intros Hm Hp Hw Hd E. rewrite !(placed_held _ _ _ _ _ Hp), !in_run_true. intros [H1 H2].
  destruct (pl_candidate _ _ _ _ _ Hp) as (Hb & _ & _).
  destruct (Z.divide_trans _ _ _ Hd Hb) as [p Ep]. destruct (Z.divide_trans _ _ _ Hd (pl_domains _ _ _ _ _ Hp)) as [q Eq].
  pose proof (Z.div_mod core width ltac:(lia)). pose proof (Z.mod_pos_bound core width Hw).
  pose proof (Z.div_mod core' width ltac:(lia)). pose proof (Z.mod_pos_bound core' width Hw).
  rewrite <- E in *. set (k := core / width) in *.
  assert (p ≤ k) by (apply Zlt_succ_le, (Z.mul_lt_mono_pos_r width); lia).
  assert (k < p + q) by (apply (Z.mul_lt_mono_pos_r width); lia).
  assert (p * width ≤ k * width) by (apply Z.mul_le_mono_nonneg_r; lia).
  assert ((k + 1) * width ≤ (p + q) * width) by (apply Z.mul_le_mono_nonneg_r; lia). lia.
Qed.

Lemma grant_domain m g width core core' :
  Machine_ok m → grant_ok m g → 0 < width → (width | exclusion_grain m) → core / width = core' / width →
  Z.testbit (held_cores g) core = true → Z.testbit (held_cores g) core' = true.
Proof.
  intros Hm [_ _ [Hn|(base & n & w & Hp)]] Hw Hd E Ht; [by rewrite holds_nothing_held in Ht|].
  by eapply placed_domain.
Qed.


(** A demand is refused exactly when it cannot be met.  In every reachable
    table [admit] answers without overflow: a grant that is what was asked, on
    the lowest aligned run of free cores wide enough; or the first reason that
    holds, in order: the demand is not schedulable on this machine's clock, the
    pool cannot hold its memory, no aligned run of whole domains is free, or no
    partition is left. *)
Theorem admission_decides m t d :
  rt_reachable m t → Demand_typed d → decided t d (rt_admit t d).
Proof.
  intros Hr Hd. destruct (rt_reachable_ok m t Hr) as [Hok _].
  apply rt_admit_spec; [apply Hok|done|by apply spent_bound].
Qed.

Lemma zsum_snoc {A} (f : A → Z) l x : zsum f (l ++ [x]) = zsum f l + f x.
Proof. rewrite zsum_app. cbn. lia. Qed.

(** The grant a release of the newest finds. *)
Lemma release_finds_newest t g i given :
  rt_ok t → grants t !! i = Some given → same_grant given g = true → grant_ok (rt_machine t) g →
  (∃ rest, grants t = rest ++ [g]) → given = g ∧ (holds_nothing g ∨ i = (length (grants t) - 1)%nat).
Proof.
  intros Hok Hi Hs Hg [rest E]. unfold same_grant in Hs. rewrite !andb_true_iff, !Z.eqb_eq in Hs.
  destruct Hs as (((Hc & He) & Hm) & _).
  assert (Heq : held_cores given = held_cores g) by (unfold held_cores; congruence).
  assert (Hlast : grants t !! length rest = Some g) by (rewrite E; by apply list_lookup_middle).
  assert (Hlen : (length (grants t) - 1 = length rest)%nat) by (rewrite E, length_app; cbn; lia).
  destruct (go_cores _ _ Hg) as [Hn|(base & n & w & Hp)].
  - split; [|by left]. pose proof (ro_grants _ Hok) as Hgs. rewrite list.Forall_forall in Hgs.
    destruct (go_cores _ _ (Hgs _ (list_elem_of_lookup_2 _ _ _ Hi))) as [Hn'|(b' & n' & w' & Hp')].
    + rewrite Hn', Hn, Hm. done.
    + exfalso. pose proof (placed_bounds _ _ _ _ _ (ro_machine _ Hok) Hp').
      pose proof (placed_held _ _ _ _ _ Hp' b') as Ht. rewrite Heq, holds_nothing_held in Ht by done.
      symmetry in Ht. apply in_run_false in Ht. lia.
  - pose proof (placed_bounds _ _ _ _ _ (ro_machine _ Hok) Hp) as Hb.
    assert (Ht : Z.testbit (held_cores g) base = true) by (rewrite (placed_held _ _ _ _ _ Hp); apply in_run_true; lia).
    destruct (decide (i = length rest)) as [->|Hne].
    + rewrite Hlast in Hi. injection Hi as <-. split; [done|by right].
    + exfalso. eapply (grants_disjoint t i (length rest)); eauto. by rewrite Heq.
Qed.

(** Giving back undoes a grant.  Releasing what was just granted answers
    that something was given back and leaves the table with the reservations,
    the cores, the pool and the partitions it had (the reservations of whole
    cores in the order they had). *)
Theorem release_undoes_grant m t d g t' :
  rt_reachable m t → Demand_typed d → rt_grant d t = (Ok g, t') →
  let '(given_back, t'') := rt_release g t' in
  given_back = true ∧ grants t'' ≡ₚ grants t ∧ (g_cores g ≠ 0 → grants t'' = grants t) ∧
  (∀ core, Z.testbit (rt_taken t'') core = Z.testbit (rt_taken t) core) ∧
  rt_memory_used t'' = rt_memory_used t ∧ rt_partitions_used t'' = rt_partitions_used t.
Proof.
  intros Hr Hd Hgr. destruct (rt_reachable_ok m t Hr) as [Hok _].
  pose proof (rt_grant_spec t d Hok Hd) as G. rewrite Hgr in G.
  destruct G as (Hok' & Eg & Em & _ & Hgo & Htk).
  pose proof (rt_release_spec t' g Hok') as R. destruct (rt_release g t') as [[] t'']; destruct R as (Hok'' & Em'' & R).
  2:{ destruct R as [_ Hno]. exfalso. specialize (Hno g). rewrite Eg in Hno.
      specialize (Hno ltac:(apply elem_of_app; right; apply list_elem_of_here)).
      unfold same_grant in Hno. by rewrite !Z.eqb_refl in Hno. }
  destruct R as (i & given & Hi & Hs & Ed & Hbits & Hmem & Hpart).
  destruct (release_finds_newest t' g i given Hok' Hi Hs) as [-> Hpos]; [by rewrite Em|by exists (grants t)|].
  split; [done|].
  assert (Hperm : grants t'' ≡ₚ grants t).
  { pose proof (delete_Permutation _ _ _ Hi) as Hp. rewrite <- Ed, Eg in Hp.
    apply (Permutation_cons_inv (a := g)). rewrite <- Hp. by rewrite (Permutation_app_comm (grants t)). }
  split; [done|]. split; [|split; [|split]].
  - intros Hc. destruct Hpos as [Hn| ->]; [by rewrite Hn in Hc|].
    rewrite Ed, Eg, length_app. cbn. rewrite Nat.add_sub.
    pose proof (delete_middle (grants t) [] g) as Hdm. by rewrite app_nil_r in Hdm.
  - intros core. rewrite Hbits, Htk. destruct (Z.testbit (held_cores g) core) eqn:Th.
    + rewrite andb_false_r. symmetry. destruct (Z.testbit (rt_taken t) core) eqn:Tc; [|done]. exfalso.
      pose proof (ro_taken _ Hok core) as Hh. pose proof (ro_taken _ Hok' core) as Hh'.
      rewrite Eg, holders_app, holders_cons, Hh, Tc, Th, Htk, Tc in Hh'. cbn in Hh'. lia.
    + by rewrite orb_false_r, andb_true_r.
  - rewrite (ro_memory _ Hok''), (ro_memory _ Hok). by apply zsum_perm.
  - rewrite (ro_partitions _ Hok''), (ro_partitions _ Hok), Em'', Em. f_equal. by apply zsum_perm.
Qed.

(** ** Deadlines and idling *)

(** Keeping the least answer over a list. *)
Section least.
Context {A : Type} (f : A → option Z).

Definition keep_step (acc : option Z) (x : A) : option Z :=
  match f x with Some v => keep_least acc v | None => acc end.

Lemma keep_least_spec l acc :
  match foldl keep_step acc l with
  | None => acc = None ∧ ∀ x, x ∈ l → f x = None
  | Some s => (acc = Some s ∨ ∃ x, x ∈ l ∧ f x = Some s) ∧ (∀ a, acc = Some a → s ≤ a) ∧
      ∀ x v, x ∈ l → f x = Some v → s ≤ v
  end.
Proof.
  revert acc. induction l as [|y l IH]; intros acc; cbn [foldl].
  { destruct acc as [a|]; [|split; [done|]; intros x Hx; by apply elem_of_nil in Hx].
    split; [by left|]. split; [intros b [= <-]; lia|]. intros x v Hx. by apply elem_of_nil in Hx. }
  specialize (IH (keep_step acc y)). destruct (foldl keep_step (keep_step acc y) l) as [s|].
  - destruct IH as (Hwhere & Hacc & Hl). unfold keep_step, keep_least in Hwhere, Hacc.
    assert (Hy : ∀ v, f y = Some v → s ≤ v).
    { intros v E. rewrite E in Hacc. specialize (Hacc _ eq_refl). destruct acc as [a|]; [|done].
      destruct (Z.leb_spec a v); lia. }
    split; [|split].
    + destruct Hwhere as [Hs|(x & Hx & E)]; [|right; exists x; by split; [apply list_elem_of_further|]].
      destruct (f y) as [v|] eqn:E; [|by left].
      destruct acc as [a|]; [destruct (Z.leb_spec a v)|]; injection Hs as <-; [by left| |];
        right; exists y; (split; [apply list_elem_of_here|done]).
    + intros a ->. destruct (f y) as [v|]; [|by apply Hacc]. specialize (Hacc _ eq_refl).
      destruct (Z.leb_spec a v); lia.
    + intros x v [->|Hx]%elem_of_cons E; [by apply Hy|by eapply Hl].
  - destruct IH as [Hacc Hl]. unfold keep_step, keep_least in Hacc. destruct (f y) as [v|] eqn:E; [done|].
    split; [done|]. intros x [->|Hx]%elem_of_cons; [done|by apply Hl].
Qed.
End least.

(** Reservations with a deadline that run on a core. *)
Definition deadline_on (t : Reservations) (core : Z) (g : Grant) : Prop :=
  g ∈ grants t ∧ Z.testbit (g_cores g) core = true ∧ g_period_ns g ≠ 0.

#[local] Instance deadline_on_dec t core g : Decision (deadline_on t core g).
Proof. unfold deadline_on. apply _. Defined.

Lemma runs_on_bit g core : 0 ≤ core < 64 → runs_on g core = Z.testbit (g_cores g) core.
Proof.
  intros Hc. unfold runs_on, CORES_MAX. rewrite (proj2 (Z.leb_gt _ _)) by lia. cbn [orb]. apply testbit_mask. lia.
Qed.

Lemma foldl_pointwise {A B} (f g : A → B → A) l acc :
  (∀ a x, f a x = g a x) → foldl f acc l = foldl g acc l.
Proof. intros E. revert acc. induction l as [|x l IH]; intros acc; [done|]. cbn. by rewrite E. Qed.

Lemma slack_ns_keep t core :
  slack_ns t core = foldl (keep_step (λ g, if runs_on g core then Grant_slack_ns g else None)) None (grants t).
Proof.
  apply foldl_pointwise. intros acc g. unfold keep_step. by destruct (runs_on g core).
Qed.

Lemma earliest_keep t core :
  earliest_deadline_ns t core =
    foldl (keep_step (λ g, if runs_on g core && negb (g_period_ns g =? 0) then Some (g_period_ns g) else None))
      None (grants t).
Proof.
  apply foldl_pointwise. intros acc g. unfold keep_step. by destruct (runs_on g core), (g_period_ns g =? 0).
Qed.

(** The deepest state of the leading ones that fit. *)
Lemma idle_loop_spec latencies slack : ∀ depth deepest,
  0 ≤ depth → depth + Z.of_nat (length latencies) ≤ 2 ^ 32 →
  let n := idle_loop depth latencies slack deepest in
  (n = deepest ∧ (∀ l, latencies !! 0%nat = Some l → slack < l)) ∨
  (depth ≤ n < depth + Z.of_nat (length latencies) ∧
   (∀ k, depth + Z.of_nat k ≤ n → ∃ l, latencies !! k = Some l ∧ l ≤ slack) ∧
   ∀ l, latencies !! Z.to_nat (n + 1 - depth) = Some l → slack < l).
Proof.
  induction latencies as [|l0 ls IH]; intros depth deepest Hd Hb; cbn zeta; cbn [idle_loop].
  { left. split; [done|]. by intros l. }
  destruct (Z.leb_spec l0 slack) as [Hle|Hgt].
  2:{ left. split; [done|]. intros l [= <-]. done. }
  cbn [length] in Hb. rewrite (Z.mod_small depth) by lia. right.
  destruct (IH (depth + 1) depth ltac:(lia) ltac:(lia)) as [[-> Hstop]|(Hr & Hall & Hstop)].
  - cbn [length]. split; [lia|]. split.
    + intros k Hk. assert (k = 0%nat) as -> by lia. by exists l0.
    + replace (Z.to_nat (depth + 1 - depth)) with 1%nat by lia. exact Hstop.
  - cbn [length]. set (n := idle_loop _ ls slack _) in *. split; [lia|]. split.
    + intros [|k] Hk; [by exists l0|]. cbn. apply Hall. lia.
    + replace (Z.to_nat (n + 1 - depth)) with (S (Z.to_nat (n + 1 - (depth + 1)))) by lia. exact Hstop.
Qed.

(** An idle core wakes in time.  In every reachable table, the depth answered
    for a core is one from which, and through every shallower state of the
    table of latencies, the core wakes within the slack of every reservation
    that runs on it; no deeper one is; and [Fallback] is answered exactly when
    no reservation with a deadline runs there.  The earliest deadline answered
    is the least period among them. *)
Theorem idle_depth_meets_deadlines m t core latencies :
  rt_reachable m t → 0 ≤ core < 64 → Z.of_nat (length latencies) ≤ 2 ^ 32 →
  match idle_depth t core latencies with
  | Fallback => ∀ g, ¬ deadline_on t core g
  | Computed depth =>
      (0 < depth → ∀ k, Z.of_nat k ≤ depth → ∃ l, latencies !! k = Some l ∧
         ∀ g, deadline_on t core g → l ≤ g_period_ns g - g_budget_ns g) ∧
      (∀ n, (∀ k, (k ≤ n)%nat → ∃ l, latencies !! k = Some l ∧
         ∀ g, deadline_on t core g → l ≤ g_period_ns g - g_budget_ns g) → Z.of_nat n ≤ depth) ∧
      ∃ g, deadline_on t core g
  end ∧
  match earliest_deadline_ns t core with
  | None => ∀ g, ¬ deadline_on t core g
  | Some p => (∃ g, deadline_on t core g ∧ g_period_ns g = p) ∧ ∀ g, deadline_on t core g → p ≤ g_period_ns g
  end.
Proof.
  intros Hr Hc Hlen. destruct (rt_reachable_ok m t Hr) as [Hok _].
  pose proof (ro_grants _ Hok) as Hgs. rewrite list.Forall_forall in Hgs.
  assert (Hf : ∀ g, g ∈ grants t → (if runs_on g core then Grant_slack_ns g else None) =
    if decide (deadline_on t core g) then Some (g_period_ns g - g_budget_ns g) else None).
  { intros g Hin. pose proof (go_period _ _ (Hgs _ Hin)) as Hp. rewrite runs_on_bit by done.
    unfold Grant_slack_ns, saturating_sub. destruct (decide (deadline_on t core g)) as [(_ & -> & Hne)|Hn].
    - rewrite (proj2 (Z.eqb_neq _ _)) by done. f_equal. lia.
    - destruct (Z.testbit (g_cores g) core) eqn:E; [|done].
      destruct (Z.eqb_spec (g_period_ns g) 0); [done|]. by destruct Hn. }
  split.
  - unfold idle_depth. rewrite slack_ns_keep.
    pose proof (keep_least_spec (λ g, if runs_on g core then Grant_slack_ns g else None) (grants t) None) as K.
    destruct (foldl _ None (grants t)) as [s|].
    2:{ destruct K as [_ K]. intros g Hg. pose proof (K g (proj1 Hg)) as E. rewrite Hf in E by apply Hg.
        by rewrite decide_True in E. }
    destruct K as ([?|(gm & Hgm & Es)] & _ & Hleast); [done|].
    assert (Hmin : ∀ g, deadline_on t core g → s ≤ g_period_ns g - g_budget_ns g).
    { intros g Hg. apply (Hleast g); [apply Hg|]. rewrite Hf by apply Hg. by rewrite decide_True. }
    rewrite Hf in Es by done. case_decide as Hdm; [|done]. injection Es as Es.
    split; [|split; [|by exists gm]];
      destruct (idle_loop_spec latencies s 0 0 ltac:(lia) ltac:(lia)) as [[En Hstop]|(Hn & Hall & Hstop)].
    + lia.
    + intros _ k Hk. destruct (Hall k ltac:(lia)) as (l & Hl & Hle). exists l. split; [done|].
      intros g Hg. specialize (Hmin g Hg). lia.
    + intros n Hfit. rewrite En. destruct (Hfit 0%nat ltac:(lia)) as (l & Hl & Hle).
      specialize (Hstop l Hl). specialize (Hle gm Hdm). lia.
    + intros n Hfit. destruct (decide (Z.of_nat n ≤ idle_loop 0 latencies s 0)) as [|Hgt]; [done|]. exfalso.
      destruct (Hfit (Z.to_nat (idle_loop 0 latencies s 0 + 1 - 0)) ltac:(lia)) as (l & Hl & Hle).
      specialize (Hstop l Hl). specialize (Hle gm Hdm). lia.
  - rewrite earliest_keep.
    set (f := λ g, if runs_on g core && negb (g_period_ns g =? 0) then Some (g_period_ns g) else None).
    assert (Hfe : ∀ g p, g ∈ grants t → f g = Some p ↔ deadline_on t core g ∧ g_period_ns g = p).
    { intros g p Hin. unfold f, deadline_on. rewrite runs_on_bit by done.
      destruct (Z.testbit (g_cores g) core), (Z.eqb_spec (g_period_ns g) 0); cbn; naive_solver. }
    pose proof (keep_least_spec f (grants t) None) as K.
    destruct (foldl _ None (grants t)) as [p|].
    + destruct K as ([?|(g & Hg & E)] & _ & Hleast); [done|]. apply Hfe in E; [|done].
      split; [by exists g|]. intros g' Hg'. apply (Hleast g'); [apply Hg'|]. by apply Hfe; [apply Hg'|].
    + destruct K as [_ K]. intros g Hg. pose proof (K g (proj1 Hg)) as E.
      assert (E2 : f g = Some (g_period_ns g)) by (by apply Hfe; [apply Hg|]). congruence.
Qed.

(** A demand that holds no core costs a later one nothing. *)
Lemma soft_displaces_nothing m d then_ :
  Machine_typed m → Machine_check m = Ok tt → Demand_typed d → whole_cores d = 0 → ¬ hard d →
  displaces d m then_ = Ok false.
Proof.
  intros Hm Hc Hd Hw Hh. unfold displaces, Reservations_new. rewrite Hc. rsimpl.
  set (fresh := mkReservations m _ _ _ _ _ _ _).
  assert (Hok : rt_ok fresh) by (destruct (Reservations_new_ok m fresh) as (? & _); [done|unfold Reservations_new; by rewrite Hc|done]).
  pose proof (rt_grant_spec fresh d Hok Hd) as G.
  destruct (rt_grant d fresh) as [[g|e] t'] eqn:E; [|done]. cbn [is_ok negb].
  destruct G as (_ & _ & Em & (_ & _ & _ & Hcl & Hcores) & _ & Htk).
  destruct Hcores as [[_ Hn]|(base & n & Hp & _)]; [|destruct (pl_wanted _ _ _ _ _ Hp); lia].
  (* nothing [admit] reads has changed *)
  assert (Hsame : rt_admit t' then_ = rt_admit fresh then_); [|rewrite Hsame; by destruct (rt_admit fresh then_)].
  unfold rt_grant in E. destruct (rt_admit fresh d) as [g'|[]] eqn:Ea; [|done|done].
  cbn [RESERVATIONS_MAX Nat.leb rt_count fresh] in E. injection E as -> <-.
  rewrite (holds_nothing_footprint _ Hn). cbn [Z.ltb Z.compare].
  assert (Hsoft : (g_class g =? manifest_HARD) = false) by (apply Z.eqb_neq; unfold hard in Hh; congruence).
  rewrite Hsoft. assert (Hz : held_cores g = 0) by (by rewrite Hn). rewrite Hz. done.
Qed.

(** ** A box of eight cores in two cache domains, one hard reservation granted *)
Definition box_fresh : Reservations :=
  mkReservations box (replicate RESERVATIONS_MAX Grant_NONE) 0 0 0 0 0 (replicate 4 0).
Definition box_table : Reservations := rt_run [RGrant audio] box_fresh.
Definition batch_job : Demand := mkDemand 0 0 0 4096 manifest_SOFT domain_SHARED.

Ltac solve_uints := repeat (apply list.Forall_cons_2; [by vm_compute|]); apply list.Forall_nil_2.

Lemma box_typed : Machine_typed box.
Proof. constructor; [solve_uints|by vm_compute]. Qed.

Lemma audio_typed : Demand_typed audio.
Proof. constructor; [by vm_compute|solve_uints]. Qed.

Lemma batch_job_typed : Demand_typed batch_job.
Proof. constructor; [by vm_compute|solve_uints]. Qed.

Lemma box_reachable : rt_reachable box box_table.
Proof.
  exists box_fresh, [RGrant audio]. split; [exact box_typed|]. split; [by vm_compute|].
  split; [|done]. apply list.Forall_cons_2; [exact audio_typed|constructor].
Qed.

Example box_reserved : map (reserved box_table) [0; 3; 4; 7; 8; 64] = [false; false; true; true; false; true].
Proof. vm_compute. reflexivity. Qed.


(** A second reservation finds no whole cache domain. *)
Lemma admission_decides_witness :
  rt_admit box_table audio = Err (Refuses NoCore) ∧
  ∀ b n, candidate box n 4 b → (4 | n) → 2 ≤ n → ¬ free_run (rt_taken box_table) b n.
Proof.
  split; [vm_compute; reflexivity|].
  pose proof (admission_decides box box_table audio box_reachable audio_typed) as W.
  assert (E : rt_admit box_table audio = Err (Refuses NoCore)) by (vm_compute; reflexivity).
  rewrite E in W. destruct W as (_ & _ & _ & W). exact W.
Defined.

Lemma release_undoes_grant_witness :
  ∃ g t', rt_grant batch_job box_table = (Ok g, t') ∧ (rt_release g t').1 = true.
Proof.
  destruct (rt_grant batch_job box_table) as [r t'] eqn:E.
  assert (Er : r = Ok (soft_grant 4096)) by (pose proof (f_equal fst E) as Ef; vm_compute in Ef; by rewrite <- Ef).
  subst r. exists (soft_grant 4096), t'. split; [done|].
  pose proof (release_undoes_grant box box_table batch_job _ t' box_reachable batch_job_typed E) as W.
  destruct (rt_release (soft_grant 4096) t') as [b t'']. apply W.
Defined.

Lemma idle_depth_meets_deadlines_witness :
  idle_depth box_table 4 [1000; 2000000; 9000000] = Computed 1 ∧ earliest_deadline_ns box_table 4 = Some 10000000 ∧
  ∃ g, deadline_on box_table 4 g ∧ g_period_ns g = 10000000.
Proof.
  split; [vm_compute; reflexivity|]. split; [vm_compute; reflexivity|].
  destruct (idle_depth_meets_deadlines box box_table 4 [1000; 2000000; 9000000] box_reachable ltac:(lia)
    ltac:(cbn; lia)) as [_ W].
  assert (E : earliest_deadline_ns box_table 4 = Some 10000000) by (vm_compute; reflexivity).
  rewrite E in W. apply W.
Defined.
