(* ===== verification/Chunker.v ===== *)
(** * Content-defined chunking: [blob/src/gear.rs], [blob/src/chunk.rs]

    A register rolls over the bytes; a position is a candidate when the register
    misses the mask, and a chunk ends at a candidate with no other within the
    minimum before it, or at the maximum.  The gear table and the mask are drawn
    from two labels. *)

From S2P Require Import Prelude.
From Stdlib Require Import String Ascii.
From Stdlib Require Import String.
#[local] Open Scope Z_scope.

(** * Seeds and streams: [env/src/split.rs]

    The one derivation of the tree: [mix] is a bijection of 64-bit words, so
    [derive] never takes two identities of a parent, or two parents, to one
    seed; a [Stream] never comes back to a state it has been in, because its
    counter does not. *)

Definition wrapping_mul (w a b : Z) : Z := (a * b) mod 2 ^ w.

(** [<<] and [rotate_left] of a [u64]. *)
Definition shl64 (a n : Z) : Z := (Z.shiftl a n) mod 2 ^ 64.
Definition rotate_left64 (a n : Z) : Z := Z.lor (shl64 a n) (Z.shiftr a (64 - n)).

Definition GOLDEN : Z := 11400714819323198485.        (* 0x9E37_79B9_7F4A_7C15 *)

Definition mix (z : Z) : Z :=
  let z := wrapping_mul 64 (Z.lxor z (Z.shiftr z 30)) 13787848793156543929 in
  let z := wrapping_mul 64 (Z.lxor z (Z.shiftr z 27)) 10723151780598845931 in
  Z.lxor z (Z.shiftr z 31).

Definition derive (parent identity : Z) : Z :=
  mix (Z.lxor parent (mix (wrapping_add 64 identity GOLDEN))).

Fixpoint label_loop (name : string) (hash : Z) : Z :=
  match name with
  | EmptyString => hash
  | String c name =>
      label_loop name (wrapping_mul 64 (Z.lxor hash (Z.of_N (N_of_ascii c))) 1099511628211)
  end.

Definition label (name : string) : Z := label_loop name 14695981039346656037.

Definition WARMUP : nat := 12.

Record Stream : Type := mkStream { st_a : Z; st_b : Z; st_c : Z; st_counter : Z; st_origin : Z }.

Definition next_u64 (s : Stream) : Z * Stream :=
  let out := wrapping_add 64 (wrapping_add 64 (st_a s) (st_b s)) (st_counter s) in
  (out,
   mkStream (Z.lxor (st_b s) (Z.shiftr (st_b s) 11))
     (wrapping_add 64 (st_c s) (shl64 (st_c s) 3))
     (wrapping_add 64 (rotate_left64 (st_c s) 24) out)
     (wrapping_add 64 (st_counter s) 1) (st_origin s)).

Fixpoint steps (n : nat) (s : Stream) : Stream :=
  match n with O => s | S n => steps n (next_u64 s).2 end.

Definition from_seed (seed : Z) : Stream :=
  let s1 := wrapping_add 64 seed GOLDEN in
  let s2 := wrapping_add 64 s1 GOLDEN in
  let s3 := wrapping_add 64 s2 GOLDEN in
  steps WARMUP (mkStream (mix s1) (mix s2) (mix s3) 1 seed).

Definition split (s : Stream) (identity : Z) : Stream := from_seed (derive (st_origin s) identity).

Definition Stream_state (s : Stream) : list Z := [st_a s; st_b s; st_c s; st_counter s; st_origin s].
Definition from_state (state : list Z) : option Stream :=
  match state with [a; b; c; counter; origin] => Some (mkStream a b c counter origin) | _ => None end.

(** ** Bijections of a word *)
Lemma xorshift_inj s x y : 0 < s → 0 ≤ x → 0 ≤ y → Z.lxor x (Z.shiftr x s) = Z.lxor y (Z.shiftr y s) → x = y.
Proof.
  intros Hs Hx Hy E. apply Z.lxor_eq. set (z := Z.lxor x y).
  assert (Hz : 0 ≤ z) by (apply Z.lxor_nonneg; lia).
  assert (Ez : z = Z.shiftr z s).
  { apply Z.lxor_eq. unfold z. rewrite Z.shiftr_lxor.
    replace (Z.lxor (Z.lxor x y) (Z.lxor (Z.shiftr x s) (Z.shiftr y s)))
      with (Z.lxor (Z.lxor x (Z.shiftr x s)) (Z.lxor y (Z.shiftr y s))).
    - rewrite E. apply Z.lxor_nilpotent.
    - apply Z.bits_inj'. intros i _. rewrite !Z.lxor_spec. by destruct (Z.testbit x i), (Z.testbit y i),
        (Z.testbit (Z.shiftr x s) i), (Z.testbit (Z.shiftr y s) i). }
  rewrite Z.shiftr_div_pow2 in Ez by lia. destruct (decide (z = 0)) as [|Hne]; [done|].
  assert (z / 2 ^ s < z); [|lia]. apply Z.div_lt; [lia|]. apply Z.pow_gt_1; lia.
Qed.

Lemma odd_mul_inj m inv x y :
  (m * inv) mod 2 ^ 64 = 1 → is_uint 64 x → is_uint 64 y → wrapping_mul 64 x m = wrapping_mul 64 y m → x = y.
Proof.
  intros Hm Hx Hy E. unfold wrapping_mul in E.
  assert (Hinv : ∀ z, is_uint 64 z → ((z * m) mod 2 ^ 64 * inv) mod 2 ^ 64 = z).
  { intros z Hz. rewrite Z.mul_mod_idemp_l, <- Z.mul_assoc, <- Z.mul_mod_idemp_r by done.
    rewrite Hm, Z.mul_1_r. by apply Z.mod_small. }
  by rewrite <- (Hinv x Hx), <- (Hinv y Hy), E.
Qed.

Lemma wrapping_add_inj w a b c : 0 ≤ w → is_uint w a → is_uint w b → wrapping_add w a c = wrapping_add w b c → a = b.
Proof.
  intros Hw Ha Hb E.
  assert (Hs : ∀ z, is_uint w z → wrapping_sub w (wrapping_add w z c) c = z).
  { intros z Hz. unfold wrapping_sub, wrapping_add. rewrite Zminus_mod_idemp_l.
    replace (z + c - c) with z by lia. by apply Z.mod_small. }
  by rewrite <- (Hs a Ha), <- (Hs b Hb), E.
Qed.

Lemma wrapping_add_comm w a b : wrapping_add w a b = wrapping_add w b a.
Proof. unfold wrapping_add. by rewrite Z.add_comm. Qed.

Lemma lxor_cancel_l a b c : Z.lxor a b = Z.lxor a c → b = c.
Proof.
  intros E. apply (f_equal (Z.lxor a)) in E. by rewrite <- !Z.lxor_assoc, Z.lxor_nilpotent, !Z.lxor_0_l in E.
Qed.

Lemma lxor_uint w a b : 0 ≤ w → is_uint w a → is_uint w b → is_uint w (Z.lxor a b).
Proof.
  intros Hw [Ha1 Ha2] [Hb1 Hb2]. split; [apply Z.lxor_nonneg; lia|].
  destruct (decide (Z.lxor a b = 0)) as [->|Hne]; [lia|].
  apply Z.log2_lt_pow2; [pose proof (proj2 (Z.lxor_nonneg a b)); lia|].
  pose proof (Z.log2_lxor a b Ha1 Hb1) as Hl. destruct (decide (w = 0)) as [->|]; [|
    assert (Z.log2 a < w ∧ Z.log2 b < w); [split; destruct (decide (0 < a)), (decide (0 < b));
      try (apply Z.log2_lt_pow2; lia); try (replace a with 0 by lia; cbn; lia); try (replace b with 0 by lia; cbn; lia)|lia]].
  assert (a = 0) as -> by lia. assert (b = 0) as -> by lia. done.
Qed.

Lemma shiftr_uint w a n : 0 ≤ n → is_uint w a → is_uint w (Z.shiftr a n).
Proof.
  intros Hn [H1 H2]. split; [by apply Z.shiftr_nonneg|]. rewrite Z.shiftr_div_pow2 by done.
  pose proof (Z.pow_pos_nonneg 2 n). eapply Z.le_lt_trans; [apply Z.div_le_upper_bound|exact H2]; [lia|nia].
Qed.

Lemma wrapping_mul_uint w a b : 0 ≤ w → is_uint w (wrapping_mul w a b).
Proof. intros. apply Z.mod_pos_bound. lia. Qed.

Lemma mix_uint z : is_uint 64 (mix z).
Proof.
  unfold mix. apply lxor_uint; [done|by apply wrapping_mul_uint|].
  apply shiftr_uint; [done|by apply wrapping_mul_uint].
Qed.

Lemma mix_inj x y : is_uint 64 x → is_uint 64 y → mix x = mix y → x = y.
Proof.
  intros Hx Hy E. unfold mix in E.
  assert (Hs : ∀ z n, 0 ≤ n → is_uint 64 z → is_uint 64 (Z.lxor z (Z.shiftr z n))).
  { intros z n Hn Hz. apply lxor_uint; [done|done|by apply shiftr_uint]. }
  apply xorshift_inj in E; [|done|apply wrapping_mul_uint; done..].
  apply (odd_mul_inj _ 3573116690164977347) in E; [|done|apply Hs; [done|by apply wrapping_mul_uint]..].
  apply xorshift_inj in E; [|done|apply wrapping_mul_uint; done..].
  apply (odd_mul_inj _ 10871156337175269513) in E; [|done|by apply Hs..].
  apply xorshift_inj in E; [done|done|apply Hx|apply Hy].
Qed.

(** ** Streams *)
Record Stream_ok (s : Stream) : Prop := {
  so_a : is_uint 64 (st_a s);
  so_b : is_uint 64 (st_b s);
  so_c : is_uint 64 (st_c s);
  so_counter : is_uint 64 (st_counter s);
}.

Lemma next_ok s : Stream_ok s → Stream_ok (next_u64 s).2.
Proof.
  intros []. constructor; cbn [next_u64 snd st_a st_b st_c st_counter]; try by apply wrapping_add_range.
  apply lxor_uint; [done|done|]. by apply shiftr_uint.
Qed.

Lemma next_counter s : st_counter (next_u64 s).2 = wrapping_add 64 (st_counter s) 1.
Proof. done. Qed.

Lemma steps_ok n s : Stream_ok s → Stream_ok (steps n s).
Proof. revert s. induction n as [|n IH]; intros s Hs; [done|]. cbn [steps]. by apply IH, next_ok. Qed.

Lemma steps_counter n s :
  is_uint 64 (st_counter s) → st_counter (steps n s) = (st_counter s + Z.of_nat n) mod 2 ^ 64.
Proof.
  revert s. induction n as [|n IH]; intros s Hs; cbn [steps].
  { rewrite Z.add_0_r. symmetry. by apply Z.mod_small. }
  rewrite IH, next_counter by (rewrite next_counter; by apply wrapping_add_range).
  unfold wrapping_add. rewrite Zplus_mod_idemp_l. f_equal. lia.
Qed.

Lemma from_seed_ok seed : Stream_ok (from_seed seed).
Proof. apply steps_ok. constructor; try apply mix_uint. done. Qed.

(** The step of the state is invertible. *)
Lemma next_inj s t : Stream_ok s → Stream_ok t → (next_u64 s).2 = (next_u64 t).2 → s = t.
Proof.
  intros [] [] E. unfold next_u64 in E. cbn [snd] in E. injection E as Ea Eb Ec Ek Eo.
  apply xorshift_inj in Ea; [|done|apply so_b0|apply so_b1].
  assert (Hnine : ∀ c, wrapping_add 64 c (shl64 c 3) = wrapping_mul 64 c 9).
  { intros c. unfold wrapping_add, shl64, wrapping_mul. rewrite Zplus_mod_idemp_r, Z.shiftl_mul_pow2 by done.
    f_equal. lia. }
  rewrite !Hnine in Eb. apply (odd_mul_inj 9 10248191152060862009) in Eb; [|done..].
  apply wrapping_add_inj in Ek; [|done..].
  destruct s as [a b c k o], t as [a' b' c' k' o']. cbn in *. subst b' c' k' o'.
  rewrite !(wrapping_add_comm 64 (rotate_left64 c 24)) in Ec.
  apply wrapping_add_inj in Ec; [|done|by apply wrapping_add_range..].
  apply wrapping_add_inj in Ec; [|done|by apply wrapping_add_range..].
  apply wrapping_add_inj in Ec; [by subst|done..].
Qed.

(** Seeds and streams stay apart.  For a fixed parent no two identities are
    taken to one seed, and for a fixed identity no two parents are; and a stream
    is never, within 2^64 - 1 draws, in a state it has been in, whatever that
    state is: the all-zero words are no fixed point either. *)
Theorem streams_stay_apart :
  (∀ parent i j, is_uint 64 parent → is_uint 64 i → is_uint 64 j → derive parent i = derive parent j → i = j) ∧
  (∀ p q i, is_uint 64 p → is_uint 64 q → derive p i = derive q i → p = q) ∧
  (∀ s n m, Stream_ok s → (n < m)%nat → Z.of_nat m < 2 ^ 64 → steps n s ≠ steps m s) ∧
  (∀ s t, Stream_ok s → Stream_ok t → (next_u64 s).2 = (next_u64 t).2 → s = t).
Proof.
  split_and!.
  - intros p i j Hp Hi Hj E. unfold derive in E.
    apply mix_inj in E; [|apply lxor_uint; [done|done|apply mix_uint]..].
    apply lxor_cancel_l, mix_inj in E; [|by apply wrapping_add_range..].
    by apply wrapping_add_inj in E.
  - intros p q i Hp Hq E. unfold derive in E.
    apply mix_inj in E; [|apply lxor_uint; [done|done|apply mix_uint]..].
    rewrite !(Z.lxor_comm _ (mix (wrapping_add 64 i GOLDEN))) in E. by apply lxor_cancel_l in E.
  - intros s n m Hs Hnm Hm E. apply (f_equal st_counter) in E.
    rewrite !steps_counter in E by apply Hs. apply (f_equal (λ z, (z - st_counter s) mod 2 ^ 64)) in E.
    rewrite !Zminus_mod_idemp_l in E.
    replace (st_counter s + Z.of_nat n - st_counter s) with (Z.of_nat n) in E by lia.
    replace (st_counter s + Z.of_nat m - st_counter s) with (Z.of_nat m) in E by lia.
    rewrite !Z.mod_small in E by lia. lia.
  - apply next_inj.
Qed.

(** The state [from_state] calls a fixed point moves at the first draw. *)
Lemma all_zero_is_no_fixed_point counter origin :
  is_uint 64 counter → (next_u64 (mkStream 0 0 0 counter origin)).2 ≠ mkStream 0 0 0 counter origin.
Proof.
  intros Hc E. apply (f_equal st_counter) in E. cbn in E. unfold wrapping_add in E.
  unfold is_uint in Hc.
  destruct (decide (counter + 1 = 2 ^ 64)) as [Ec|]; [rewrite Ec, Z.mod_same in E by done; lia|].
  rewrite Z.mod_small in E by lia. lia.
Qed.

Definition CHUNK_MIN_BYTES : Z := 16 * 1024.
Definition CHUNK_TARGET_BYTES : Z := 64 * 1024.
Definition CHUNK_MAX_BYTES : Z := 256 * 1024.
Definition MASK_BITS : Z := 16.
Definition RESYNC_BOUND_BYTES : Z := 512 * 1024.

(** ** The gear table and the mask *)
Definition GEAR_LABEL : string := "f-blob gear v1".
Definition MASK_LABEL : string := "f-blob mask v2".

Fixpoint draw (n : nat) (s : Stream) : list Z :=
  match n with
  | O => []
  | S n => let '(z, s) := next_u64 s in z :: draw n s
  end.

Definition gear_table : list Z := draw 256 (from_seed (label GEAR_LABEL)).

(** Draws until enough bits are set; a position drawn twice costs a draw. *)
Fixpoint spread_loop (fuel : nat) (s : Stream) (mask set_ bits : Z) : option Z :=
  if set_ <? bits then
    match fuel with
    | O => None
    | S fuel =>
        let '(z, s) := next_u64 s in
        let position := z mod 63 in
        if Z.land mask (Z.shiftl 1 position) =? 0
        then spread_loop fuel s (Z.lor mask (Z.shiftl 1 position)) (set_ + 1) bits
        else spread_loop fuel s mask set_ bits
    end
  else Some mask.

Definition spread (s : Stream) (bits : Z) : option Z := spread_loop 64 s (Z.shiftl 1 63) 1 bits.

Definition mask : option Z := spread (from_seed (label MASK_LABEL)) MASK_BITS.

Definition GEAR : list Z := Eval vm_compute in gear_table.
Definition MASK : Z := Eval vm_compute in default 0 mask.

Definition ZERO_RUN_FIXED_POINT : Z := 1332753553446743466. (* 0x127e_e44b_ae55_2daa *)

(** ** The chunker *)
Record Chunker : Type := mkChunker { ck_register : Z; ck_since_candidate : Z; ck_since_cut : Z }.

Definition Chunker_new : Chunker := mkChunker 0 0 0.

(** [(register << 1).wrapping_add(GEAR[byte])]: a byte is an index of the table. *)
Definition roll (register byte : Z) : Z := wrapping_add 64 (shl64 register 1) (GEAR !!! Z.to_nat byte).

Definition Chunker_step (c : Chunker) (byte : Z) : bool * Chunker :=
  let register := roll (ck_register c) byte in
  let since_cut := ck_since_cut c + 1 in
  let since_candidate := if ck_since_candidate c <? CHUNK_MIN_BYTES then ck_since_candidate c + 1
                         else ck_since_candidate c in
  if Z.land register MASK =? 0 then
    if (CHUNK_MIN_BYTES <=? since_candidate) && (CHUNK_MIN_BYTES <=? since_cut)
    then (true, mkChunker register 0 0)
    else if since_cut =? CHUNK_MAX_BYTES then (true, mkChunker register 0 0)
    else (false, mkChunker register 0 since_cut)
  else if since_cut =? CHUNK_MAX_BYTES then (true, mkChunker register since_candidate 0)
  else (false, mkChunker register since_candidate since_cut).

(** Every offset of a cut in a slice, and the chunker after the whole of it:
    the iterator scans on when it is dropped. *)
Fixpoint Cuts_from (c : Chunker) (at_ : Z) (bytes : list Z) : list Z * Chunker :=
  match bytes with
  | [] => ([], c)
  | byte :: bytes =>
      let '(cut, c) := Chunker_step c byte in
      let '(cuts, c) := Cuts_from c (at_ + 1) bytes in
      (if (cut : bool) then at_ + 1 :: cuts else cuts, c)
  end.

Definition Chunker_feed (c : Chunker) (bytes : list Z) : list Z * Chunker := Cuts_from c 0 bytes.

Definition Chunker_finish (c : Chunker) : Z := ck_since_cut c.

(** The constants the source asserts of its draws. *)
Example mask_drawn : mask = Some MASK.
Proof. vm_compute. reflexivity. Qed.

Example gear_drawn : gear_table = GEAR.
Proof. vm_compute. reflexivity. Qed.

Lemma MASK_bit_63 : Z.testbit MASK 63 = true.
Proof. vm_compute. reflexivity. Qed.

Lemma GEAR_distinct : base.NoDup GEAR ∧ Forall (λ g, g ≠ 0 ∧ is_uint 64 g) GEAR.
Proof. apply (bool_decide_unpack _). vm_compute. exact I. Qed.
