(* ===== verification/ChunkerTheorems.v ===== *)
(** * The chunker: what its boundaries promise

    Chunks are of bounded size, do not depend on how the bytes arrived, and an
    edit is forgotten: a register holds sixty-four bytes, and acceptance looks
    back over one minimum chunk and no further. *)

From S2P Require Import Prelude Chunker.

Record Chunker_ok (c : Chunker) : Prop := {
  ko_register : is_uint 64 (ck_register c);
  ko_candidate : 0 ≤ ck_since_candidate c ≤ CHUNK_MIN_BYTES;
  ko_cut : 0 ≤ ck_since_cut c < CHUNK_MAX_BYTES;
}.

Lemma Chunker_new_ok : Chunker_ok Chunker_new.
Proof. by constructor. Qed.

(** A chunk ends with between the minimum and the maximum in it. *)
Lemma Chunker_step_spec c byte :
  Chunker_ok c →
  let '(cut, c') := Chunker_step c byte in
  Chunker_ok c' ∧ ck_register c' = roll (ck_register c) byte ∧
  if cut then CHUNK_MIN_BYTES ≤ ck_since_cut c + 1 ≤ CHUNK_MAX_BYTES ∧ ck_since_cut c' = 0
  else ck_since_cut c' = ck_since_cut c + 1.
Proof.
  intros [Hr Hc Hs]. unfold Chunker_step.
  assert (Hroll : is_uint 64 (roll (ck_register c) byte)) by by apply wrapping_add_range.
  set (sc := if _ <? _ then _ else _).
  assert (Hsc : 0 ≤ sc ≤ CHUNK_MIN_BYTES) by (unfold sc; destruct (Z.ltb_spec (ck_since_candidate c) CHUNK_MIN_BYTES); lia).
  assert (Hmm : CHUNK_MIN_BYTES = 16384 ∧ CHUNK_MAX_BYTES = 262144) by done.
  destruct (Z.land _ MASK =? 0);
    [destruct ((CHUNK_MIN_BYTES <=? sc) && (CHUNK_MIN_BYTES <=? ck_since_cut c + 1)) eqn:E1|];
    [|destruct (Z.eqb_spec (ck_since_cut c + 1) CHUNK_MAX_BYTES)..];
    (split; [constructor; cbn; try done; lia|split; [done|cbn; lia]]).
Qed.

Lemma Cuts_from_ok bytes : ∀ c at_, Chunker_ok c → Chunker_ok (Cuts_from c at_ bytes).2.
Proof.
  induction bytes as [|b bs IH]; intros c at_ Hc; cbn [Cuts_from]; [done|].
  pose proof (Chunker_step_spec c b Hc) as S. destruct (Chunker_step c b) as [cut c']. destruct S as (Hc' & _).
  specialize (IH c' (at_ + 1) Hc'). by destruct (Cuts_from c' (at_ + 1) bs).
Qed.

(** ** Feeding *)
Lemma Cuts_from_app x y : ∀ c at_,
  Cuts_from c at_ (x ++ y) =
    let '(cuts, c) := Cuts_from c at_ x in
    let '(cuts', c) := Cuts_from c (at_ + Z.of_nat (length x)) y in (cuts ++ cuts', c).
Proof.
  induction x as [|b x IH]; intros c at_; cbn [app Cuts_from].
  { rewrite Z.add_0_r. by destruct (Cuts_from c at_ y). }
  destruct (Chunker_step c b) as [cut c']. rewrite IH. destruct (Cuts_from c' (at_ + 1) x) as [l1 c1].
  replace (at_ + 1 + Z.of_nat (length x)) with (at_ + Z.of_nat (length (b :: x))) by (cbn [length]; lia).
  destruct (Cuts_from c1 _ y) as [l2 c2]. by destruct cut.
Qed.

Lemma Cuts_from_shift bytes : ∀ c at_ d,
  Cuts_from c (at_ + d) bytes = let '(cuts, c) := Cuts_from c at_ bytes in ((λ n, n + d) <$> cuts, c).
Proof.
  induction bytes as [|b bs IH]; intros c at_ d; cbn [Cuts_from]; [done|].
  destruct (Chunker_step c b) as [cut c']. replace (at_ + d + 1) with (at_ + 1 + d) by lia. rewrite IH.
  destruct (Cuts_from c' (at_ + 1) bs) as [l c'']. by destruct cut.
Qed.

(** Feeding piece after piece, placing each cut by the bytes fed before. *)
Fixpoint feed_pieces (c : Chunker) (base : Z) (pieces : list (list Z)) : list Z * Chunker :=
  match pieces with
  | [] => ([], c)
  | piece :: pieces =>
      let '(cuts, c) := Chunker_feed c piece in
      let '(cuts', c) := feed_pieces c (base + Z.of_nat (length piece)) pieces in
      (((λ n, n + base) <$> cuts) ++ cuts', c)
  end.

Lemma feed_pieces_from pieces : ∀ c base, feed_pieces c base pieces = Cuts_from c base (concat pieces).
Proof.
  induction pieces as [|p ps IH]; intros c base; cbn [feed_pieces concat]; [done|].
  rewrite Cuts_from_app. unfold Chunker_feed. pose proof (Cuts_from_shift p c 0 base) as E.
  rewrite Z.add_0_l in E. rewrite E. destruct (Cuts_from c 0 p) as [l1 c1]. rewrite IH.
  by destruct (Cuts_from c1 _ (concat ps)).
Qed.

(** ** Bounds *)

(** Cuts after a last one, each between the minimum and the maximum further on. *)
Fixpoint spaced (last_ : Z) (cuts : list Z) : Prop :=
  match cuts with
  | [] => True
  | cut :: cuts => CHUNK_MIN_BYTES ≤ cut - last_ ≤ CHUNK_MAX_BYTES ∧ spaced cut cuts
  end.

Lemma Cuts_from_spaced bytes : ∀ c at_,
  Chunker_ok c →
  let '(cuts, c') := Cuts_from c at_ bytes in
  spaced (at_ - ck_since_cut c) cuts ∧
  ck_since_cut c' = at_ + Z.of_nat (length bytes) - default (at_ - ck_since_cut c) (list.last cuts).
Proof.
  induction bytes as [|b bs IH]; intros c at_ Hc; cbn [Cuts_from length].
  { split; [done|]. cbn. lia. }
  pose proof (Chunker_step_spec c b Hc) as S. destruct (Chunker_step c b) as [cut c']. destruct S as (Hc' & _ & Hcut).
  specialize (IH c' (at_ + 1) Hc'). destruct (Cuts_from c' (at_ + 1) bs) as [l c'']. destruct IH as [Hl Hlast].
  destruct cut.
  - destruct Hcut as [Hb E]. rewrite E in *. split; [split; [lia|by replace (at_ + 1) with (at_ + 1 - 0) by lia]|].
    rewrite Hlast. rewrite list.last_cons. destruct (list.last l); cbn; lia.
  - rewrite Hcut in *. replace (at_ + 1 - (ck_since_cut c + 1)) with (at_ - ck_since_cut c) in * by lia.
    split; [done|]. rewrite Hlast. lia.
Qed.

(** Chunks are of bounded size, however the bytes arrive.  Fed to a fresh
    chunker in any pieces, an object is cut where it is cut fed at once; every
    chunk but the last has between [CHUNK_MIN_BYTES] and [CHUNK_MAX_BYTES]; and
    [finish] answers the bytes after the last cut, fewer than the maximum. *)
Theorem chunks_bounded pieces :
  let bytes := concat pieces in
  let '(cuts, c) := feed_pieces Chunker_new 0 pieces in
  (cuts, c) = Chunker_feed Chunker_new bytes ∧ spaced 0 cuts ∧
  Chunker_finish c = Z.of_nat (length bytes) - default 0 (list.last cuts) ∧ 0 ≤ Chunker_finish c < CHUNK_MAX_BYTES.
Proof.
  cbn zeta. rewrite feed_pieces_from. unfold Chunker_feed.
  pose proof (Cuts_from_spaced (concat pieces) Chunker_new 0 Chunker_new_ok) as S.
  pose proof (Cuts_from_ok (concat pieces) Chunker_new 0 Chunker_new_ok) as Hok.
  destruct (Cuts_from Chunker_new 0 (concat pieces)) as [cuts c]. destruct S as [Hs Hl].
  split; [done|]. split; [exact Hs|]. split; [exact Hl|apply Hok].
Qed.

(** ** Forgetting *)
Definition rolled (h : Z) (bytes : list Z) : Z := foldl roll h bytes.

Lemma roll_shift h d byte : roll ((h + d) mod 2 ^ 64) byte = (roll h byte + 2 * d) mod 2 ^ 64.
Proof.
  unfold roll, wrapping_add, shl64. rewrite !Z.shiftl_mul_pow2 by done. change (2 ^ 1) with 2.
  rewrite Zplus_mod_idemp_l, (Zplus_mod_idemp_l (h * 2)), Zplus_mod_idemp_l.
  rewrite <- (Zplus_mod_idemp_l ((h + d) mod 2 ^ 64 * 2)), Zmult_mod_idemp_l, Zplus_mod_idemp_l. f_equal. lia.
Qed.

(** What the register held is shifted out, a bit a byte. *)
Lemma rolled_shift bytes : ∀ h d,
  rolled ((h + d) mod 2 ^ 64) bytes = (rolled (h mod 2 ^ 64) bytes + 2 ^ Z.of_nat (length bytes) * d) mod 2 ^ 64.
Proof.
  induction bytes as [|b bs IH]; intros h d; cbn [rolled foldl length].
  { rewrite Zplus_mod_idemp_l. f_equal. cbn. lia. }
  fold (rolled (roll ((h + d) mod 2 ^ 64) b) bs). fold (rolled (roll (h mod 2 ^ 64) b) bs).
  rewrite roll_shift, IH.
  replace (roll (h mod 2 ^ 64) b) with (roll h b mod 2 ^ 64).
  - do 2 f_equal. rewrite Nat2Z.inj_succ, Z.pow_succ_r by lia. lia.
  - pose proof (roll_shift h 0 b) as E. by rewrite Z.add_0_r, Z.mul_0_r, Z.add_0_r in E.
Qed.

Lemma rolled_forgets bytes h h' :
  is_uint 64 h → is_uint 64 h' → (64 ≤ length bytes)%nat → rolled h bytes = rolled h' bytes.
Proof.
  intros Hh Hh' Hl. pose proof (rolled_shift bytes 0 h) as E. pose proof (rolled_shift bytes 0 h') as E'.
  rewrite Z.add_0_l, Z.mod_small in E by done. rewrite Z.add_0_l, Z.mod_small in E' by done.
  rewrite E, E'. replace (Z.of_nat (length bytes)) with (64 + (Z.of_nat (length bytes) - 64)) by lia.
  rewrite Z.pow_add_r, <- !Z.mul_assoc by lia. rewrite !(Z.mul_comm (2 ^ 64)), !Z.mod_add by done. done.
Qed.

(** The part of a chunker that content alone decides. *)
Definition same_view (c c' : Chunker) : Prop :=
  ck_register c = ck_register c' ∧ ck_since_candidate c = ck_since_candidate c'.

Lemma Chunker_step_view c byte :
  let c' := (Chunker_step c byte).2 in
  ck_register c' = roll (ck_register c) byte ∧
  ck_since_candidate c' =
    if Z.land (roll (ck_register c) byte) MASK =? 0 then 0
    else if ck_since_candidate c <? CHUNK_MIN_BYTES then ck_since_candidate c + 1 else ck_since_candidate c.
Proof.
  unfold Chunker_step. destruct (Z.land _ MASK =? 0); [destruct (_ && _)|];
    [|destruct (ck_since_cut c + 1 =? CHUNK_MAX_BYTES)..]; done.
Qed.

Lemma Cuts_from_cons c at_ b bs :
  (Cuts_from c at_ (b :: bs)).2 = (Cuts_from (Chunker_step c b).2 (at_ + 1) bs).2.
Proof. cbn [Cuts_from]. destruct (Chunker_step c b) as [cut c']. cbn [snd]. by destruct (Cuts_from c' _ bs). Qed.

Lemma Cuts_from_register bytes : ∀ c at_, ck_register (Cuts_from c at_ bytes).2 = rolled (ck_register c) bytes.
Proof.
  induction bytes as [|b bs IH]; intros c at_; [done|].
  rewrite Cuts_from_cons, IH. by rewrite (proj1 (Chunker_step_view c b)).
Qed.

Lemma Cuts_from_state x y c at_ :
  (Cuts_from c at_ (x ++ y)).2 = (Cuts_from (Cuts_from c at_ x).2 (at_ + Z.of_nat (length x)) y).2.
Proof.
  rewrite Cuts_from_app. destruct (Cuts_from c at_ x) as [l1 c1]. cbn [snd]. by destruct (Cuts_from c1 _ y).
Qed.

Lemma same_view_step c c' byte : same_view c c' → same_view (Chunker_step c byte).2 (Chunker_step c' byte).2.
Proof.
  intros [Er Ec]. destruct (Chunker_step_view c byte) as [R C], (Chunker_step_view c' byte) as [R' C'].
  split; [by rewrite R, R', Er|]. by rewrite C, C', Er, Ec.
Qed.

Lemma same_view_feed bytes : ∀ c c' at_ at',
  same_view c c' → same_view (Cuts_from c at_ bytes).2 (Cuts_from c' at' bytes).2.
Proof.
  induction bytes as [|b bs IH]; intros c c' at_ at' Hv; [done|]. rewrite !Cuts_from_cons.
  by apply IH, same_view_step.
Qed.

(** With the register in common, one minimum chunk settles the rest. *)
Lemma candidates_settle bytes : ∀ c c' at_ at' k,
  ck_register c = ck_register c' →
  ck_since_candidate c = ck_since_candidate c' ∨ k ≤ ck_since_candidate c ∧ k ≤ ck_since_candidate c' →
  Chunker_ok c → Chunker_ok c' → CHUNK_MIN_BYTES ≤ k + Z.of_nat (length bytes) →
  same_view (Cuts_from c at_ bytes).2 (Cuts_from c' at' bytes).2.
Proof.
  induction bytes as [|b bs IH]; intros c c' at_ at' k Er Hk Hc Hc' Hlen.
  { cbn in Hlen |- *. split; [done|]. destruct Hk as [|[? ?]]; [done|].
    destruct (ko_candidate _ Hc), (ko_candidate _ Hc'). lia. }
  rewrite !Cuts_from_cons.
  pose proof (Chunker_step_spec c b Hc) as S. pose proof (Chunker_step_spec c' b Hc') as S'.
  destruct (Chunker_step_view c b) as [R C], (Chunker_step_view c' b) as [R' C']. rewrite <- Er in R', C'.
  destruct (Chunker_step c b) as [? d], (Chunker_step c' b) as [? d']. cbn [snd] in *.
  apply (IH _ _ _ _ (k + 1)); [congruence| |apply S|apply S'|cbn [length] in Hlen; lia].
  rewrite C, C'. destruct (Z.land _ MASK =? 0); [by left|].
  destruct Hk as [->|[H1 H2]]; [by left|].
  destruct (ko_candidate _ Hc) as [_ Hm], (ko_candidate _ Hc') as [_ Hm'].
  destruct (Z.ltb_spec (ck_since_candidate c) CHUNK_MIN_BYTES), (Z.ltb_spec (ck_since_candidate c') CHUNK_MIN_BYTES);
    destruct (decide (k + 1 ≤ CHUNK_MIN_BYTES)); try (right; lia); left; lia.
Qed.

Lemma view_forgets w c c' at_ at' :
  Chunker_ok c → Chunker_ok c' → 64 + CHUNK_MIN_BYTES ≤ Z.of_nat (length w) →
  same_view (Cuts_from c at_ w).2 (Cuts_from c' at' w).2.
Proof.
  intros Hc Hc' Hw. rewrite <- (take_drop 64 w), !Cuts_from_state.
  assert (Ht : length (take 64 w) = 64%nat) by (rewrite length_take; unfold CHUNK_MIN_BYTES in Hw; lia).
  pose proof (Cuts_from_ok (take 64 w) c at_ Hc) as K. pose proof (Cuts_from_ok (take 64 w) c' at' Hc') as K'.
  apply (candidates_settle _ _ _ _ _ 0); try done.
  - rewrite !Cuts_from_register. apply rolled_forgets; [apply Hc|apply Hc'|by rewrite Ht].
  - right. split; apply ko_candidate; done.
  - rewrite length_drop. lia.
Qed.

(** An edit is forgotten.  Whatever two chunkers have seen, after the same
    [64 + CHUNK_MIN_BYTES] bytes the register and the distance to the last
    candidate are the same in both, and stay so; and the first time after that
    both end a chunk at one byte, or one ends a chunk the content chose and the
    other's last boundary is a minimum away, they end it together and every
    later boundary is common, whatever the bytes. *)
Theorem boundaries_resynchronise c c' w s byte :
  Chunker_ok c → Chunker_ok c' → 64 + CHUNK_MIN_BYTES ≤ Z.of_nat (length w) →
  let d := (Chunker_feed c (w ++ s)).2 in
  let d' := (Chunker_feed c' (w ++ s)).2 in
  same_view d d' ∧
  ((Chunker_step d byte).1 = true ∧ (Chunker_step d' byte).1 = true ∨
   (Chunker_step d byte).1 = true ∧ ck_since_cut d + 1 < CHUNK_MAX_BYTES ∧ CHUNK_MIN_BYTES ≤ ck_since_cut d' + 1 →
   Chunker_step d byte = Chunker_step d' byte ∧
   ∀ rest at_, Cuts_from (Chunker_step d byte).2 at_ rest = Cuts_from (Chunker_step d' byte).2 at_ rest).
Proof.
  intros Hc Hc' Hw. cbn zeta. unfold Chunker_feed. rewrite !Cuts_from_state.
  set (d := (Cuts_from _ _ s).2). set (d' := (Cuts_from (Cuts_from c' 0 w).2 _ s).2).
  assert (Hv : same_view d d') by (by apply same_view_feed, view_forgets).
  split; [done|]. intros Hcut.
  assert (E : Chunker_step d byte = Chunker_step d' byte); [|by rewrite E].
  destruct Hv as [Er Ec]. unfold Chunker_step in *. rewrite <- Er, <- Ec in *.
  set (sc := if _ <? _ then _ else _) in *. set (r := roll _ _) in *.
  destruct (Z.land r MASK =? 0).
  - destruct (Z.leb_spec CHUNK_MIN_BYTES sc) as [_|_]; cbn [andb] in *.
    + destruct (Z.leb_spec CHUNK_MIN_BYTES (ck_since_cut d + 1)), (Z.leb_spec CHUNK_MIN_BYTES (ck_since_cut d' + 1)); try done;
        destruct (Z.eqb_spec (ck_since_cut d + 1) CHUNK_MAX_BYTES), (Z.eqb_spec (ck_since_cut d' + 1) CHUNK_MAX_BYTES);
        cbn in Hcut; unfold CHUNK_MIN_BYTES, CHUNK_MAX_BYTES in *; try done; exfalso;
        destruct Hcut as [[? ?]|(? & ? & ?)]; done || lia.
    + destruct (Z.eqb_spec (ck_since_cut d + 1) CHUNK_MAX_BYTES), (Z.eqb_spec (ck_since_cut d' + 1) CHUNK_MAX_BYTES);
        cbn in Hcut; try done; exfalso; destruct Hcut as [[? ?]|(? & ? & ?)]; done || lia.
  - destruct (Z.eqb_spec (ck_since_cut d + 1) CHUNK_MAX_BYTES), (Z.eqb_spec (ck_since_cut d' + 1) CHUNK_MAX_BYTES);
      cbn in Hcut; try done; exfalso; destruct Hcut as [[? ?]|(? & ? & ?)]; done || lia.
Qed.

(** ** Starvation *)
Section periodic.
Context (bytes : list Z) (p : nat).
Hypothesis Hp : (0 < p)%nat ∧ Z.of_nat p + 64 ≤ CHUNK_MIN_BYTES.
Hypothesis Hperiod : ∀ i, (i + p < length bytes)%nat → bytes !! i = bytes !! (i + p)%nat.

(** The chunker after the first [n] bytes. *)
Definition after (n : nat) : Chunker := (Cuts_from Chunker_new 0 (take n bytes)).2.

Lemma after_ok n : Chunker_ok (after n).
Proof. apply Cuts_from_ok, Chunker_new_ok. Qed.

Lemma after_S n b : bytes !! n = Some b → after (S n) = (Chunker_step (after n) b).2.
Proof.
  intros Hb. unfold after. rewrite (take_S_r _ _ _ Hb), Cuts_from_state. cbn [Cuts_from].
  by destruct (Chunker_step _ b).
Qed.

(** Sixty-four bytes decide the register, and a period back they are the same. *)
Lemma register_periodic n :
  (64 ≤ n)%nat → (n + p ≤ length bytes)%nat → ck_register (after (n + p)) = ck_register (after n).
Proof.
  intros Hn Hl. unfold after. rewrite !Cuts_from_register.
  assert (E : ∀ m, (64 ≤ m ≤ length bytes)%nat →
    rolled 0 (take m bytes) = rolled 0 (take 64 (drop (m - 64) bytes))).
  { intros m Hm. rewrite <- (take_drop (m - 64) (take m bytes)). unfold rolled. rewrite foldl_app.
    fold (rolled 0 (take (m - 64) (take m bytes))).
    replace (drop (m - 64) (take m bytes)) with (take 64 (drop (m - 64) bytes))
      by (rewrite take_drop_commute; do 2 f_equal; lia).
    apply rolled_forgets; [|done|rewrite length_take, length_drop; lia].
    pose proof (Cuts_from_register (take (m - 64) (take m bytes)) Chunker_new 0) as R. cbn [ck_register Chunker_new] in R.
    rewrite <- R. apply ko_register, Cuts_from_ok, Chunker_new_ok. }
  cbn [ck_register Chunker_new]. rewrite (E (n + p)%nat), (E n) by lia. f_equal. apply list_eq. intros i.
  destruct (decide (i < 64)%nat); [|by rewrite !lookup_take_ge by lia].
  rewrite !lookup_take_lt, !lookup_drop by lia. replace (n + p - 64 + i)%nat with (n - 64 + i + p)%nat by lia.
  symmetry. apply Hperiod. lia.
Qed.

Definition candidate_at (n : nat) : bool := Z.land (ck_register (after n)) MASK =? 0.

Lemma since_candidate_S n b :
  bytes !! n = Some b →
  ck_since_candidate (after (S n)) =
    if candidate_at (S n) then 0
    else if ck_since_candidate (after n) <? CHUNK_MIN_BYTES then ck_since_candidate (after n) + 1
    else ck_since_candidate (after n).
Proof.
  intros Hb. unfold candidate_at. rewrite (after_S _ _ Hb). destruct (Chunker_step_view (after n) b) as [R C].
  by rewrite C, R.
Qed.

Lemma since_candidate_le k : ∀ n, (n + k ≤ length bytes)%nat →
  ck_since_candidate (after (n + k)) ≤ ck_since_candidate (after n) + Z.of_nat k.
Proof.
  induction k as [|k IH]; intros n Hl; [rewrite Nat.add_0_r; lia|].
  destruct (lookup_lt_is_Some_2 bytes (n + k)) as [b Hb]; [lia|].
  rewrite Nat.add_succ_r, (since_candidate_S _ _ Hb). specialize (IH n ltac:(lia)).
  pose proof (ko_candidate _ (after_ok n)). destruct (candidate_at _); [lia|].
  destruct (_ <? _); lia.
Qed.

(** No candidate is far enough from the last. *)
Lemma starved n b :
  bytes !! n = Some b → candidate_at (S n) = true → ck_since_candidate (after n) + 1 < CHUNK_MIN_BYTES.
Proof.
  intros Hb Hc. pose proof (lookup_lt_Some _ _ _ Hb) as Hlt.
  destruct (decide (64 + p ≤ S n)%nat) as [Hbig|Hsmall].
  - assert (Hback : candidate_at (S n - p) = true).
    { unfold candidate_at in *. rewrite <- (register_periodic (S n - p)) by lia.
      by replace (S n - p + p)%nat with (S n) by lia. }
    destruct (lookup_lt_is_Some_2 bytes (n - p)) as [b' Hb']; [lia|].
    pose proof (since_candidate_S _ _ Hb') as E. replace (S (n - p)) with (S n - p)%nat in E by lia.
    rewrite Hback in E. pose proof (since_candidate_le (p - 1) (S n - p) ltac:(lia)) as Hle.
    replace (S n - p + (p - 1))%nat with n in Hle by lia. unfold CHUNK_MIN_BYTES in *. lia.
  - pose proof (since_candidate_le n 0 ltac:(lia)) as Hle. cbn [Nat.add] in Hle.
    replace (ck_since_candidate (after 0)) with 0 in Hle by done. unfold CHUNK_MIN_BYTES in *. lia.
Qed.

(** So a chunk ends at the maximum and nowhere else. *)
Lemma starved_step n b :
  bytes !! n = Some b →
  (Chunker_step (after n) b).1 = (ck_since_cut (after n) + 1 =? CHUNK_MAX_BYTES).
Proof.
  intros Hb. pose proof (starved n b Hb) as Hs. unfold candidate_at in Hs. rewrite (after_S _ _ Hb) in Hs.
  rewrite (proj1 (Chunker_step_view (after n) b)) in Hs. unfold Chunker_step.
  destruct (Z.land _ MASK =? 0).
  - specialize (Hs eq_refl). rewrite (proj2 (Z.ltb_lt (ck_since_candidate (after n)) _)) by lia.
    rewrite (proj2 (Z.leb_gt _ _)) by lia. cbn [andb]. by destruct (_ =? _).
  - by destruct (_ =? _).
Qed.

Lemma starved_prefix n :
  (n ≤ length bytes)%nat →
  (Cuts_from Chunker_new 0 (take n bytes)).1 =
    (λ k, (k + 1) * CHUNK_MAX_BYTES) <$> seqZ 0 (Z.of_nat n / CHUNK_MAX_BYTES) ∧
  ck_since_cut (after n) = Z.of_nat n mod CHUNK_MAX_BYTES.
Proof.
  induction n as [|n IH]; intros Hl; [done|].
  destruct (lookup_lt_is_Some_2 bytes n) as [b Hb]; [lia|]. destruct (IH ltac:(lia)) as [Ec Es].
  pose proof (starved_step n b Hb) as Hcut. pose proof (Chunker_step_spec (after n) b (after_ok n)) as S.
  rewrite (after_S _ _ Hb). rewrite (take_S_r _ _ _ Hb), Cuts_from_app.
  unfold after in *. destruct (Cuts_from Chunker_new 0 (take n bytes)) as [l c]. cbn [fst snd] in *.
  rewrite length_take, Nat.min_l by lia. cbn [Cuts_from].
  destruct (Chunker_step c b) as [cut c']. cbn [fst snd] in *. destruct S as (_ & _ & S). rewrite Es in *.
  assert (Hmax : 0 < CHUNK_MAX_BYTES) by done.
  pose proof (Z.div_mod (Z.of_nat n) CHUNK_MAX_BYTES ltac:(lia)) as Hdm.
  pose proof (Z.mod_pos_bound (Z.of_nat n) CHUNK_MAX_BYTES Hmax) as Hmod.
  set (q := Z.of_nat n / CHUNK_MAX_BYTES) in *. set (r := Z.of_nat n mod CHUNK_MAX_BYTES) in *.
  assert (Hq : 0 ≤ q) by (apply Z.div_pos; lia).
  subst cut l. destruct (Z.eqb_spec (r + 1) CHUNK_MAX_BYTES) as [Er|Er].
  - assert (Eq : Z.of_nat (Datatypes.S n) / CHUNK_MAX_BYTES = q + 1 ∧ Z.of_nat (Datatypes.S n) mod CHUNK_MAX_BYTES = 0).
    { replace (Z.of_nat (Datatypes.S n)) with ((q + 1) * CHUNK_MAX_BYTES) by lia.
      split; [apply Z.div_mul; lia|apply Z.mod_mul; lia]. }
    destruct Eq as [-> ->]. split; [|lia]. rewrite seqZ_app, fmap_app by lia. f_equal.
    rewrite (seqZ_cons (0 + q)), seqZ_nil by lia. cbn [fmap list_fmap]. f_equal. lia.
  - assert (Eq : Z.of_nat (Datatypes.S n) / CHUNK_MAX_BYTES = q ∧ Z.of_nat (Datatypes.S n) mod CHUNK_MAX_BYTES = r + 1).
    { split; symmetry; [apply Z.div_unique with (r + 1)|apply Z.mod_unique with q]; lia. }
    destruct Eq as [-> ->]. split; [by rewrite app_nil_r|done].
Qed.
End periodic.

(** Periodic content starves.  An object whose bytes repeat with a period at
    least sixty-four below [CHUNK_MIN_BYTES] has no boundary the content chose:
    it is cut at every multiple of [CHUNK_MAX_BYTES] and nowhere else. *)
Theorem periodic_content_starves bytes p :
  (0 < p)%nat → Z.of_nat p + 64 ≤ CHUNK_MIN_BYTES →
  (∀ i, (i + p < length bytes)%nat → bytes !! i = bytes !! (i + p)%nat) →
  let '(cuts, c) := Chunker_feed Chunker_new bytes in
  cuts = (λ k, (k + 1) * CHUNK_MAX_BYTES) <$> seqZ 0 (Z.of_nat (length bytes) / CHUNK_MAX_BYTES) ∧
  Chunker_finish c = Z.of_nat (length bytes) mod CHUNK_MAX_BYTES.
Proof.
  intros Hp Hmin Hper. pose proof (starved_prefix bytes p (conj Hp Hmin) Hper (length bytes) ltac:(lia)) as [Ec Es].
  unfold after in Es. rewrite firstn_all in Ec, Es. unfold Chunker_feed.
  by destruct (Cuts_from Chunker_new 0 bytes).
Qed.

Lemma boundaries_resynchronise_witness :
  let w := replicate (Z.to_nat 16448) 0 in
  let c' := mkChunker 12345 3 77 in
  same_view (Chunker_feed Chunker_new (w ++ [])).2 (Chunker_feed c' (w ++ [])).2.
Proof.
  cbn zeta. apply (boundaries_resynchronise Chunker_new (mkChunker 12345 3 77) (replicate (Z.to_nat 16448) 0) [] 0).
  - apply Chunker_new_ok.
  - constructor; cbn; unfold is_uint, CHUNK_MIN_BYTES, CHUNK_MAX_BYTES; lia.
  - rewrite length_replicate. cbn. unfold CHUNK_MIN_BYTES. lia.
Defined.

Lemma periodic_content_starves_witness :
  let '(cuts, c) := Chunker_feed Chunker_new (replicate 5 7) in
  cuts = (λ k, (k + 1) * CHUNK_MAX_BYTES) <$> seqZ 0 (Z.of_nat (length (replicate 5 7)) / CHUNK_MAX_BYTES) ∧
  Chunker_finish c = Z.of_nat (length (replicate 5 7)) mod CHUNK_MAX_BYTES.
Proof.
  apply (periodic_content_starves (replicate 5 7) 1).
  - lia.
  - unfold CHUNK_MIN_BYTES. lia.
  - intros i Hi. rewrite length_replicate in Hi. rewrite !lookup_replicate_2 by lia. done.
Defined.
