(* ===== verification/Sha256.v ===== *)
(** * SHA-256: [hash/src/lib.rs]

    A streaming digest: sixty-four bytes gather in a block, and each full block
    is compressed into eight words.  [digest_of] is the standard's own reading,
    the message padded and cut into blocks, and the theorem says every way of
    feeding the bytes computes it. *)

From S2P Require Import Prelude Bytes StoreRecords.
#[local] Open Scope Z_scope.

Definition SHA_BLOCK_BYTES : nat := 64.
Definition LENGTH_OFFSET : nat := 56.

Definition SHA_K : list Z :=
  [1116352408; 1899447441; 3049323471; 3921009573; 961987163; 1508970993; 2453635748; 2870763221;
   3624381080; 310598401; 607225278; 1426881987; 1925078388; 2162078206; 2614888103; 3248222580;
   3835390401; 4022224774; 264347078; 604807628; 770255983; 1249150122; 1555081692; 1996064986;
   2554220882; 2821834349; 2952996808; 3210313671; 3336571891; 3584528711; 113926993; 338241895;
   666307205; 773529912; 1294757372; 1396182291; 1695183700; 1986661051; 2177026350; 2456956037;
   2730485921; 2820302411; 3259730800; 3345764771; 3516065817; 3600352804; 4094571909; 275423344;
   430227734; 506948616; 659060556; 883997877; 958139571; 1322822218; 1537002063; 1747873779;
   1955562222; 2024104815; 2227730452; 2361852424; 2428436474; 2756734187; 3204031479; 3329325298].

Definition SHA_H0 : list Z :=
  [1779033703; 3144134277; 1013904242; 2773480762; 1359893119; 2600822924; 528734635; 1541459225].

(** ** Words, big end first *)
Definition from_be (raw : list Z) : Z := from_le (rev raw).
Definition be_bytes (n : nat) (z : Z) : list Z := rev (le_bytes n z).

Definition rotate_right32 (a n : Z) : Z := Z.lor (Z.shiftr a n) ((Z.shiftl a (32 - n)) mod 2 ^ 32).
Definition not32 (a : Z) : Z := Z.lxor a u32_max.
Definition add32 : Z → Z → Z := wrapping_add 32.

(** [as_chunks]: the whole pieces of a slice, and what is left over. *)
Fixpoint pieces (k n : nat) (l : list Z) : list (list Z) :=
  match k with O => [] | S k => take n l :: pieces k n (drop n l) end.

Definition as_chunks (n : nat) (l : list Z) : list (list Z) * list Z :=
  (pieces (length l / n) n l, drop (length l / n * n) l).

(** ** The compression function *)
Definition schedule_word (w : list Z) (i : nat) : list Z :=
  let w15 := w !!! (i - 15)%nat in
  let w2 := w !!! (i - 2)%nat in
  let s0 := Z.lxor (Z.lxor (rotate_right32 w15 7) (rotate_right32 w15 18)) (Z.shiftr w15 3) in
  let s1 := Z.lxor (Z.lxor (rotate_right32 w2 17) (rotate_right32 w2 19)) (Z.shiftr w2 10) in
  <[i := add32 (add32 (add32 (w !!! (i - 16)%nat) s0) (w !!! (i - 7)%nat)) s1]> w.

Definition schedule (block : list Z) : list Z :=
  let w := put (zeroed 64) 0 (from_be <$> (as_chunks 4 block).1) in
  foldl schedule_word w (seq 16 48).

(** The eight working variables. *)
Record Working : Type := mkWorking { wa : Z; wb : Z; wc : Z; wd : Z; we : Z; wf : Z; wg : Z; wh : Z }.

Definition round (w : list Z) (v : Working) (i : nat) : Working :=
  let '(mkWorking a b c d e f g hh) := v in
  let s1 := Z.lxor (Z.lxor (rotate_right32 e 6) (rotate_right32 e 11)) (rotate_right32 e 25) in
  let ch := Z.lxor (Z.land e f) (Z.land (not32 e) g) in
  let t1 := add32 (add32 (add32 (add32 hh s1) ch) (SHA_K !!! i)) (w !!! i) in
  let s0 := Z.lxor (Z.lxor (rotate_right32 a 2) (rotate_right32 a 13)) (rotate_right32 a 22) in
  let maj := Z.lxor (Z.lxor (Z.land a b) (Z.land a c)) (Z.land b c) in
  let t2 := add32 s0 maj in
  mkWorking (add32 t1 t2) a b c (add32 d t1) e f g.

Definition compress (state : list Z) (block : list Z) : list Z :=
  let w := schedule block in
  let start := mkWorking (state !!! 0%nat) (state !!! 1%nat) (state !!! 2%nat) (state !!! 3%nat)
                 (state !!! 4%nat) (state !!! 5%nat) (state !!! 6%nat) (state !!! 7%nat) in
  let v := foldl (round w) start (seq 0 64) in
  zip_with add32 state [wa v; wb v; wc v; wd v; we v; wf v; wg v; wh v].

(** ** The streaming state *)
Record Sha256 : Type := mkSha256 {
  sha_state : list Z;
  sha_block : list Z;
  sha_buffered : nat;
  sha_length_bytes : Z;
}.

Definition Sha256_new : Sha256 := mkSha256 SHA_H0 (zeroed SHA_BLOCK_BYTES) 0 0.

(** The blocks of what is left, and its tail kept. *)
Definition update_whole (me : Sha256) (rest : list Z) : Sha256 :=
  let '(blocks, tail) := as_chunks SHA_BLOCK_BYTES rest in
  mkSha256 (foldl compress (sha_state me) blocks) (put (sha_block me) 0 tail) (length tail) (sha_length_bytes me).

Definition Sha256_update (me : Sha256) (bytes : list Z) : Sha256 :=
  let len := wrapping_add 64 (sha_length_bytes me) (Z.of_nat (length bytes)) in
  if (0 <? sha_buffered me)%nat then
    let want := (SHA_BLOCK_BYTES - sha_buffered me)%nat in
    let taken := Nat.min want (length bytes) in
    let block := put (sha_block me) (sha_buffered me) (take taken bytes) in
    let buffered := (sha_buffered me + taken)%nat in
    if (buffered =? SHA_BLOCK_BYTES)%nat
    then update_whole (mkSha256 (compress (sha_state me) block) block 0 len) (drop taken bytes)
    else mkSha256 (sha_state me) block buffered len
  else update_whole (mkSha256 (sha_state me) (sha_block me) (sha_buffered me) len) bytes.

Definition Sha256_finish (me : Sha256) : list Z :=
  let bits := (sha_length_bytes me * 8) mod 2 ^ 64 in
  let block := take (sha_buffered me) (sha_block me) ++ zeroed (SHA_BLOCK_BYTES - sha_buffered me) in
  let block := <[sha_buffered me := 128]> block in
  let buffered := S (sha_buffered me) in
  let '(state, block) :=
    if (LENGTH_OFFSET <? buffered)%nat then (compress (sha_state me) block, zeroed SHA_BLOCK_BYTES)
    else (sha_state me, block) in
  let block := put block LENGTH_OFFSET (be_bytes 8 bits) in
  let state := compress state block in
  concat (be_bytes 4 <$> state).

Definition sha256 (bytes : list Z) : list Z := Sha256_finish (Sha256_update Sha256_new bytes).

(** ** The standard's reading *)
Definition padded (bytes : list Z) : list Z :=
  bytes ++ [128] ++ zeroed ((119 - length bytes mod 64) mod 64) ++
  be_bytes 8 ((Z.of_nat (length bytes) * 8) mod 2 ^ 64).

Definition digest_of (bytes : list Z) : list Z :=
  concat (be_bytes 4 <$> foldl compress SHA_H0 (as_chunks SHA_BLOCK_BYTES (padded bytes)).1).

(** ** Pieces *)
Lemma pieces_app k j n x y :
  length x = (k * n)%nat → pieces (k + j) n (x ++ y) = pieces k n x ++ pieces j n y.
Proof.
  revert x. induction k as [|k IH]; intros x Hx; cbn [Nat.add pieces app].
  { by rewrite (nil_length_inv x) by lia. }
  rewrite take_app_le, drop_app_le by lia. f_equal. apply IH. rewrite length_drop. lia.
Qed.

Lemma as_chunks_app k n x y :
  (0 < n)%nat → length x = (k * n)%nat →
  as_chunks n (x ++ y) = ((as_chunks n x).1 ++ (as_chunks n y).1, (as_chunks n y).2).
Proof.
  intros Hn Hx. unfold as_chunks. cbn [fst snd]. rewrite length_app, Hx.
  rewrite (Nat.add_comm (k * n)), Nat.div_add, Nat.div_mul by lia.
  rewrite (Nat.add_comm _ k), pieces_app by done. f_equal.
  rewrite Nat.mul_add_distr_r, <- Hx, drop_app_add. done.
Qed.

Lemma as_chunks_short n l : (length l < n)%nat → as_chunks n l = ([], l).
Proof. intros. unfold as_chunks. by rewrite Nat.div_small. Qed.

Lemma as_chunks_one n x y :
  (0 < n)%nat → length x = n → as_chunks n (x ++ y) = (x :: (as_chunks n y).1, (as_chunks n y).2).
Proof.
  intros Hn Hx. rewrite (as_chunks_app 1) by lia. unfold as_chunks at 1. cbn [fst].
  rewrite Hx, Nat.div_same by lia. cbn [pieces app]. by rewrite take_ge by lia.
Qed.

(** A message is its whole blocks and a tail shorter than one. *)
Definition whole (n : nat) (l : list Z) : list Z := take (length l / n * n) l.

Lemma whole_tail n l :
  (0 < n)%nat →
  l = whole n l ++ (as_chunks n l).2 ∧ length (whole n l) = (length l / n * n)%nat ∧
  length (as_chunks n l).2 = (length l mod n)%nat ∧
  ∀ y, as_chunks n (l ++ y) = ((as_chunks n l).1 ++ (as_chunks n ((as_chunks n l).2 ++ y)).1,
                               (as_chunks n ((as_chunks n l).2 ++ y)).2).
Proof.
  intros Hn. pose proof (Nat.div_mod_eq (length l) n) as E. rewrite Nat.mul_comm in E.
  assert (Hsplit : l = whole n l ++ (as_chunks n l).2) by (symmetry; apply take_drop).
  assert (Hw : length (whole n l) = (length l / n * n)%nat) by (unfold whole; rewrite length_take; lia).
  split_and!; [done|done|unfold as_chunks; cbn [snd]; rewrite length_drop; lia|].
  intros y. rewrite Hsplit at 1. rewrite <- (assoc_L (++)), (as_chunks_app (length l / n)) by done. f_equal.
  f_equal. rewrite Hsplit at 2. rewrite (as_chunks_app (length l / n)) by done. cbn [fst].
  rewrite (as_chunks_short n (as_chunks n l).2), app_nil_r; [done|].
  unfold as_chunks. cbn [snd]. rewrite length_drop. pose proof (Nat.mod_upper_bound (length l) n). lia.
Qed.

(** ** What a stream has seen *)
Record saw (me : Sha256) (m : list Z) : Prop := {
  saw_state : sha_state me = foldl compress SHA_H0 (as_chunks SHA_BLOCK_BYTES m).1;
  saw_tail : take (sha_buffered me) (sha_block me) = (as_chunks SHA_BLOCK_BYTES m).2;
  saw_buffered : sha_buffered me = (length m mod SHA_BLOCK_BYTES)%nat;
  saw_block : length (sha_block me) = SHA_BLOCK_BYTES;
  saw_length : sha_length_bytes me = Z.of_nat (length m) mod 2 ^ 64;
}.

Lemma take_put_prefix block x : take (length x) (put block 0 x) = x.
Proof. apply (take_app_length x). Qed.

Lemma update_whole_saw state block n len m rest :
  state = foldl compress SHA_H0 (as_chunks SHA_BLOCK_BYTES m).1 → (as_chunks SHA_BLOCK_BYTES m).2 = [] →
  length block = SHA_BLOCK_BYTES → len = Z.of_nat (length (m ++ rest)) mod 2 ^ 64 →
  saw (update_whole (mkSha256 state block n len) rest) (m ++ rest).
Proof.
  intros Hs Ht Hb Hl. unfold update_whole.
  destruct (whole_tail SHA_BLOCK_BYTES rest) as (_ & _ & Hr & _); [unfold SHA_BLOCK_BYTES; lia|].
  destruct (whole_tail SHA_BLOCK_BYTES m) as (_ & _ & Hm & E); [unfold SHA_BLOCK_BYTES; lia|].
  rewrite Ht in Hm, E. cbn [app] in E. specialize (E rest).
  destruct (as_chunks SHA_BLOCK_BYTES rest) as [blocks tail]. cbn [snd fst] in *.
  pose proof (Nat.mod_upper_bound (length rest) SHA_BLOCK_BYTES ltac:(done)) as Hlt.
  constructor; cbn [sha_state sha_buffered sha_block sha_length_bytes]; rewrite ?E; cbn [fst snd].
  - by rewrite foldl_app, <- Hs.
  - apply take_put_prefix.
  - rewrite Hr, length_app, <- Nat.Div0.add_mod_idemp_l, <- Hm. done.
  - rewrite length_put; [done|lia].
  - done.
Qed.

Lemma update_saw me m bytes : saw me m → saw (Sha256_update me bytes) (m ++ bytes).
Proof.
  intros [Hs Ht Hb Hl Hlen]. assert (H64 : (0 < SHA_BLOCK_BYTES)%nat) by (unfold SHA_BLOCK_BYTES; lia).
  destruct (whole_tail SHA_BLOCK_BYTES m H64) as (_ & _ & Hr & E). specialize (E bytes).
  set (t := (as_chunks SHA_BLOCK_BYTES m).2) in *.
  pose proof (Nat.mod_upper_bound (length m) SHA_BLOCK_BYTES ltac:(done)) as Hlt.
  assert (Hnew : wrapping_add 64 (sha_length_bytes me) (Z.of_nat (length bytes)) =
                 Z.of_nat (length (m ++ bytes)) mod 2 ^ 64).
  { unfold wrapping_add. rewrite Hlen, Zplus_mod_idemp_l, length_app. f_equal. lia. }
  unfold Sha256_update. rewrite Hnew. destruct (Nat.ltb_spec 0 (sha_buffered me)) as [Hpos|Hz].
  2:{ apply update_whole_saw; try done. apply nil_length_inv. fold t. lia. }
  set (taken := Nat.min _ _).
  assert (Hblock : take (sha_buffered me + taken) (put (sha_block me) (sha_buffered me) (take taken bytes)) =
                   t ++ take taken bytes).
  { unfold put. rewrite Ht, (assoc_L (++)). rewrite take_app_le by (rewrite length_app, length_take; lia).
    apply take_ge. rewrite length_app, length_take. lia. }
  assert (Hput : length (put (sha_block me) (sha_buffered me) (take taken bytes)) = SHA_BLOCK_BYTES)
    by (rewrite length_put; [done|rewrite length_take; lia]).
  destruct (Nat.eqb_spec (sha_buffered me + taken) SHA_BLOCK_BYTES) as [Hfull|Hpart].
  - assert (Em : m ++ bytes = (m ++ take taken bytes) ++ drop taken bytes) by by rewrite <- (assoc_L (++)), take_drop.
    rewrite Hfull, take_ge in Hblock by lia.
    destruct (whole_tail SHA_BLOCK_BYTES m H64) as (_ & _ & _ & E'). specialize (E' (take taken bytes)).
    fold t in E'. rewrite <- (app_nil_r (t ++ take taken bytes)) in E'.
    assert (Htl : length (t ++ take taken bytes) = SHA_BLOCK_BYTES) by by rewrite <- Hblock.
    rewrite (as_chunks_one _ (t ++ take taken bytes)), (as_chunks_short _ []) in E' by done. cbn [fst snd] in E'.
    rewrite Em. apply update_whole_saw; [|by rewrite E'|done|by rewrite <- Em].
    rewrite E'. cbn [fst]. by rewrite foldl_app, <- Hs, Hblock.
  - assert (Hall : taken = length bytes) by lia. rewrite Hall, firstn_all in *.
    rewrite (as_chunks_short _ (t ++ bytes)) in E by (rewrite length_app; lia). cbn [fst snd] in E.
    rewrite app_nil_r in E.
    constructor; cbn [sha_state sha_buffered sha_block sha_length_bytes]; rewrite ?E; cbn [fst snd]; try done.
    rewrite length_app, <- Nat.Div0.add_mod_idemp_l, <- Hb. symmetry. apply Nat.mod_small. lia.
Qed.

Lemma new_saw : saw Sha256_new [].
Proof. by constructor. Qed.

(** ** The end of a message *)
Lemma be_bytes_length n z : length (be_bytes n z) = n.
Proof. unfold be_bytes. by rewrite length_rev, length_le_bytes. Qed.

Lemma put_end l at_ x : (at_ + length x = length l)%nat → put l at_ x = take at_ l ++ x.
Proof. intros. unfold put. by rewrite drop_ge, app_nil_r by lia. Qed.

(** The block [finish] fills: the tail, the bit, and zeros. *)
Lemma marked_block me t :
  take (sha_buffered me) (sha_block me) = t → sha_buffered me = length t → (length t < SHA_BLOCK_BYTES)%nat →
  <[sha_buffered me := 128]> (take (sha_buffered me) (sha_block me) ++ zeroed (SHA_BLOCK_BYTES - sha_buffered me)) =
  t ++ 128 :: zeroed (63 - length t).
Proof.
  intros Ht Hb Hlt. rewrite Ht, Hb. unfold SHA_BLOCK_BYTES in *.
  replace (64 - length t)%nat with (S (63 - length t)) by lia.
  rewrite <- (Nat.add_0_r (length t)) at 1. rewrite insert_app_r. done.
Qed.

Lemma finish_saw me m : saw me m → Sha256_finish me = digest_of m.
Proof.
  intros [Hs Ht Hb Hl Hlen]. assert (H64 : (0 < SHA_BLOCK_BYTES)%nat) by (unfold SHA_BLOCK_BYTES; lia).
  destruct (whole_tail SHA_BLOCK_BYTES m H64) as (_ & _ & Hr & E).
  set (t := (as_chunks SHA_BLOCK_BYTES m).2) in *. rewrite <- Hb in Hr.
  pose proof (Nat.mod_upper_bound (length m) SHA_BLOCK_BYTES ltac:(done)) as Hlt.
  unfold Sha256_finish, digest_of, padded. rewrite E. cbn [fst]. rewrite foldl_app, <- Hs.
  rewrite (marked_block me t) by (done || lia). rewrite Hlen.
  replace (Z.of_nat (length m) mod 2 ^ 64 * 8) with (8 * (Z.of_nat (length m) mod 2 ^ 64)) by lia.
  rewrite Zmult_mod_idemp_r, (Z.mul_comm 8). set (bits := be_bytes 8 _).
  assert (Hbits : length bits = 8%nat) by apply be_bytes_length.
  change (length m mod 64)%nat with (length m mod SHA_BLOCK_BYTES)%nat. rewrite <- Hb, <- Hr.
  do 2 f_equal. unfold SHA_BLOCK_BYTES, LENGTH_OFFSET in *.
  destruct (Nat.ltb_spec 56 (S (length t))) as [Hbig|Hsmall].
  - replace ((119 - length t) mod 64)%nat with (63 - length t + 56)%nat
      by (rewrite Nat.mod_small; lia).
    unfold zeroed at 3. rewrite replicate_add. fold (zeroed (63 - length t)) (zeroed 56).
    replace (t ++ [128] ++ (zeroed (63 - length t) ++ zeroed 56) ++ bits)
      with ((t ++ 128 :: zeroed (63 - length t)) ++ (zeroed 56 ++ bits) ++ []) by (by rewrite app_nil_r, <- !(assoc_L (++))).
    rewrite !as_chunks_one by (try lia; rewrite ?length_app; cbn [length]; unfold zeroed; rewrite length_replicate; lia).
    rewrite as_chunks_short by (cbn; lia). cbn [fst foldl]. by rewrite put_end by (rewrite Hbits; done).
  - replace ((119 - length t) mod 64)%nat with (55 - length t)%nat.
    2:{ replace (119 - length t)%nat with (55 - length t + 1 * 64)%nat by lia.
        rewrite Nat.Div0.mod_add, Nat.mod_small; lia. }
    replace (t ++ [128] ++ zeroed (55 - length t) ++ bits)
      with ((t ++ 128 :: zeroed (55 - length t) ++ bits) ++ []) by by rewrite app_nil_r.
    rewrite as_chunks_one.
    + rewrite as_chunks_short by (cbn; lia). cbn [fst foldl]. f_equal.
      rewrite put_end by (rewrite Hbits, length_app; cbn [length]; unfold zeroed; rewrite length_replicate; lia).
      replace (63 - length t)%nat with (55 - length t + 8)%nat by lia.
      unfold zeroed at 1. rewrite replicate_add, app_comm_cons, (assoc_L (++)), take_app_le.
      * rewrite take_ge; [by rewrite <- (assoc_L (++))|].
        rewrite length_app. cbn [length]. rewrite length_replicate. lia.
      * rewrite length_app. cbn [length]. rewrite length_replicate. lia.
    + lia.
    + rewrite length_app. cbn [length]. rewrite length_app, Hbits. unfold zeroed. rewrite length_replicate. lia.
Qed.

(** ** A digest is thirty-two bytes *)
Lemma compress_length state block : length state = 8%nat → length (compress state block) = 8%nat.
Proof. intros H. unfold compress. by rewrite length_zip_with, H. Qed.

Lemma compress_all_length blocks state : length state = 8%nat → length (foldl compress state blocks) = 8%nat.
Proof. revert state. induction blocks as [|b bs IH]; intros state H; [done|]. by apply IH, compress_length. Qed.

Lemma be_bytes_bytes n z : byte_list (be_bytes n z).
Proof. unfold be_bytes. apply Forall_rev, le_bytes_bytes. Qed.

Lemma digest_of_digest m : is_digest (digest_of m).
Proof.
  unfold digest_of. set (ws := foldl _ _ _).
  assert (Hw : length ws = 8%nat) by by apply compress_all_length.
  split.
  - apply Forall_concat, list.Forall_fmap, list.Forall_true. intros z. apply be_bytes_bytes.
  - do 8 (destruct ws as [|? ws]; [done|]). destruct ws; [|done].
    cbn [fmap list_fmap concat]. by rewrite !length_app, !be_bytes_length.
Qed.

Lemma sha256_digest_of m : sha256 m = digest_of m.
Proof. apply finish_saw, (update_saw Sha256_new [] m), new_saw. Qed.

Lemma sha256_digest m : is_digest (sha256 m).
Proof. rewrite sha256_digest_of. apply digest_of_digest. Qed.

(** The standard's vectors. *)
Example sha256_abc :
  from_be (sha256 [97; 98; 99]) = 0xba7816bf8f01cfea414140de5dae2223b00361a396177a9cb410ff61f20015ad.
Proof. vm_compute. reflexivity. Qed.

Example sha256_empty :
  from_be (sha256 []) = 0xe3b0c44298fc1c149afbf4c8996fb92427ae41e4649b934ca495991b7852b855.
Proof. vm_compute. reflexivity. Qed.

Lemma updates_saw ps : ∀ me m, saw me m → saw (foldl Sha256_update me ps) (m ++ concat ps).
Proof.
  induction ps as [|p ps IH]; intros me m Hs; cbn [foldl concat]; [by rewrite app_nil_r|].
  rewrite (assoc_L (++)). by apply IH, update_saw.
Qed.

(** Pieces fed one after another are hashed as one message. *)
Lemma sha256_pieces ps : Sha256_finish (foldl Sha256_update Sha256_new ps) = sha256 (concat ps).
Proof. rewrite sha256_digest_of. apply finish_saw, (updates_saw ps _ [] new_saw). Qed.

(** C33 Streaming is SHA-256.  However a message is cut into pieces, empty ones
    included, feeding them to a fresh state and finishing answers the digest the
    standard defines on the whole message, padded and cut into blocks; it is
    thirty-two bytes; and hashing in one call is the same. *)
Theorem sha256_streams ps :
  let bytes := concat ps in
  Sha256_finish (foldl Sha256_update Sha256_new ps) = digest_of bytes ∧
  sha256 bytes = digest_of bytes ∧ is_digest (digest_of bytes).
Proof.
  cbn zeta. split_and!; [|apply sha256_digest_of|apply digest_of_digest]. by rewrite sha256_pieces, sha256_digest_of.
Qed.
