(* ===== verification/Store.v ===== *)
(** * The store: [blob/src/store.rs]

    Blobs on a block device, each under the digest of its content: a record is
    a header and the content, in whole blocks from the first free one; the map
    from a digest to the block is rebuilt at mount by reading every block.  An
    object is a blob naming its chunks.  A buffer a caller offers is part of the
    state of the call, since a call that fails leaves it half written. *)

From S2P Require Import Prelude Abi Bytes StoreRecords BlockDevice Sha256 Chunker.
#[local] Open Scope Z_scope.

Definition GEAR_IDENTITY : Z := label GEAR_LABEL.
Definition MASK_IDENTITY : Z := label MASK_LABEL.
Definition MIN_BLOCK_BYTES : Z := 512.

Definition superblock_for_this_build (block_bytes zones zone_bytes root_zone_a root_zone_b : Z) : Superblock :=
  mkSuperblock SCHEMA block_bytes zones root_zone_a root_zone_b CHUNK_MIN_BYTES CHUNK_TARGET_BYTES CHUNK_MAX_BYTES
    MASK_BITS zone_bytes GEAR_IDENTITY MASK_IDENTITY.

Definition refuse_a_chunker_that_moved (found : Superblock) : res Z unit :=
  let mine := superblock_for_this_build (sb_block_bytes found) (sb_zones found) (sb_zone_bytes found)
                (sb_root_zone_a found) (sb_root_zone_b found) in
  if negb (sb_chunk_min_bytes found =? sb_chunk_min_bytes mine)
     || negb (sb_chunk_target_bytes found =? sb_chunk_target_bytes mine)
     || negb (sb_chunk_max_bytes found =? sb_chunk_max_bytes mine)
     || negb (sb_mask_bits found =? sb_mask_bits mine)
     || negb (sb_gear_label found =? sb_gear_label mine)
     || negb (sb_mask_label found =? sb_mask_label mine)
  then Err refusal_UNKNOWN
  else Ok tt.

(** A refusal word of a constructor, as a fault. *)
Definition or_refuse {A : Type} (r : res Z A) : res fault A :=
  match r with Ok a => Ok a | Err e => Err (Refused e) end.

Definition header_at (block : list Z) : res Z Header :=
  if (length block <? Header_BYTES)%nat then Err refusal_MALFORMED
  else Header_from_bytes (take Header_BYTES block).

Definition header_in (block hash : list Z) : res Z Header :=
  if (length block <? Header_BYTES)%nat then Err refusal_MALFORMED
  else
    let? header := Header_from_bytes (take Header_BYTES block) in
    if bool_decide (hdr_hash header = hash) then Ok header else Err refusal_CONTENT.

Definition div_ceil (a b : Z) : Z := (a + b - 1) / b.

(** [located.entry(hash).or_insert(at)] *)
Definition or_insert (hash : list Z) (at_ : Z) (located : gmap (list Z) Z) : gmap (list Z) Z :=
  match located !! hash with Some _ => located | None => <[hash := at_]> located end.

Section store.
Context {D : Type} `{Device D}.

Record Store : Type := mkStore {
  bs_device : D;
  bs_superblock : Superblock;
  bs_free : Z;
  bs_located : gmap (list Z) Z;
}.

(** A call of the device the store owns. *)
Definition on_blocks {A : Type} (m : sm D fault A) : sm Store fault A := λ me,
  let '(r, d) := m (bs_device me) in (r, mkStore d (bs_superblock me) (bs_free me) (bs_located me)).

Definition Store_block_bytes (me : Store) : Z := sb_block_bytes (bs_superblock me).

Definition Store_format (device : D) (layout : Superblock) : res fault Store :=
  if (sb_block_bytes layout <? MIN_BLOCK_BYTES) || negb (sb_block_bytes layout =? blk_bytes device)
  then Err (Refused refusal_MALFORMED)
  else if blk_count device <? 2 then Err (Refused refusal_FULL)
  else
    let? _ := or_refuse (refuse_a_chunker_that_moved layout) in
    let store := mkStore device layout 1 ∅ in
    let block := put (zeroed (Z.to_nat (sb_block_bytes layout))) 0 (Superblock_to_bytes layout) in
    match (do! _ <- on_blocks (blk_write 0 block); on_blocks blk_flush) store with
    | (Ok _, store) => Ok store
    | (Err f, _) => Err f
    end.

(** The scan of [mount]: the device, what was located, the first free block and
    the block looked at.  Every turn moves on, so the blocks are fuel enough. *)
Fixpoint mount_scan (fuel : nat) (block_bytes blocks : Z) (d : D) (located : gmap (list Z) Z) (free at_ : Z) :
    res fault (D * gmap (list Z) Z * Z) :=
  if at_ <? blocks then
    match fuel with
    | O => Err Panicked
    | S fuel =>
        let skip d := mount_scan fuel block_bytes blocks d located free (at_ + 1) in
        match blk_read at_ block_bytes d with
        | (Err Panicked, _) => Err Panicked
        | (Err (Refused _), d) => skip d
        | (Ok block, d) =>
            match header_at block with
            | Err _ => skip d
            | Ok header =>
                let record_bytes := Z.of_nat Header_BYTES + hdr_content_bytes header in
                if u64_max <? record_bytes then skip d
                else
                  let span := div_ceil record_bytes block_bytes in
                  let at' := saturating_add 64 at_ span in
                  mount_scan fuel block_bytes blocks d (or_insert (hdr_hash header) at_ located) (Z.min at' blocks) at'
            end
        end
    end
  else Ok (d, located, free).

Definition Store_mount (device : D) : res fault Store :=
  let block_bytes := blk_bytes device in
  match blk_read 0 block_bytes device with
  | (Err f, _) => Err f
  | (Ok block, device) =>
      if (length block <? Superblock_BYTES)%nat then Err (Refused refusal_MALFORMED)
      else
        let? superblock := or_refuse (Superblock_from_bytes (take Superblock_BYTES block)) in
        if negb (sb_block_bytes superblock =? block_bytes) then Err (Refused refusal_MALFORMED)
        else
          let? _ := or_refuse (refuse_a_chunker_that_moved superblock) in
          let blocks := blk_count device in
          let? (device, located, free) := mount_scan (Z.to_nat blocks) block_bytes blocks device ∅ 1 1 in
          Ok (mkStore device superblock free located)
  end.

Definition Store_free (me : Store) : Z := bs_free me.
Definition Store_records (me : Store) : nat := size (bs_located me).
Definition Store_address (me : Store) (hash : list Z) : option Z := bs_located me !! hash.
Definition Store_barrier : sm Store fault unit := on_blocks blk_flush.

(** ** Putting *)
Fixpoint put_blocks (at_ : Z) (blocks : list (list Z)) : sm Store fault unit :=
  match blocks with
  | [] => sm_ret tt
  | one :: blocks => do! _ <- on_blocks (blk_write at_ one); put_blocks (at_ + 1) blocks
  end.

Definition put_record (header : Header) (content : list Z) (block_bytes : Z) : list Z :=
  let record_bytes := Z.of_nat Header_BYTES + Z.of_nat (length content) in
  let record := zeroed (Z.to_nat (div_ceil record_bytes block_bytes * block_bytes)) in
  put (put record 0 (Header_to_bytes header)) Header_BYTES content.

Definition Store_put (kind : Z) (content : list Z) : sm Store fault (list Z) := λ me,
  if negb (kind_known kind) then (Err (Refused refusal_UNKNOWN), me)
  else
    let hash := sha256 content in
    match bs_located me !! hash with
    | Some _ => (Ok hash, me)
    | None =>
        let block_bytes := Store_block_bytes me in
        let record_bytes := Z.of_nat Header_BYTES + Z.of_nat (length content) in
        if (u64_max <? record_bytes) || (block_bytes =? 0) then (Err Panicked, me)
        else
          let blocks := div_ceil record_bytes block_bytes in
          if (u64_max <? bs_free me + blocks) || (blk_count (bs_device me) <? bs_free me + blocks)
          then (Err (Refused refusal_FULL), me)
          else if isize_max <? blocks * block_bytes then (Err Panicked, me)
          else
            let header := mkHeader kind 0 (Z.of_nat (length content)) hash in
            let record := put_record header content block_bytes in
            (do! _ <- put_blocks (bs_free me) (pieces (Z.to_nat blocks) (Z.to_nat block_bytes) record);
             do! _ <- sm_put (λ me, mkStore (bs_device me) (bs_superblock me) (bs_free me)
                                      (<[hash := bs_free me]> (bs_located me)));
             do! _ <- sm_put (λ me, mkStore (bs_device me) (bs_superblock me) (bs_free me + blocks) (bs_located me));
             sm_ret hash) me
    end.

(** ** Getting *)
Definition Store_head (hash : list Z) : sm Store fault Header :=
  do! located <- sm_get (λ me, bs_located me !! hash);
  do! block <- sm_lift (option_or_refuse located refusal_ADDRESS);
  do! block_bytes <- sm_get Store_block_bytes;
  do! first <- on_blocks (blk_read block block_bytes);
  sm_lift (or_refuse (header_in first hash)).

(** A store and the buffer a caller offered. *)
Definition Reading : Type := Store * list Z.

Definition on_store {A : Type} (m : sm Store fault A) : sm Reading fault A := λ '(me, into),
  let '(r, me) := m me in (r, (me, into)).

Definition copy_into (at_ : nat) (x : list Z) : sm Reading fault unit := λ '(me, into),
  if (length into <? at_ + length x)%nat then (Err Panicked, (me, into))
  else (Ok tt, (me, put into at_ x)).

(** The blocks after the first; [at] is a [u64]. *)
Fixpoint get_loop (fuel : nat) (block_bytes : Z) (content_bytes done : nat) (at_ : Z) : sm Reading fault unit :=
  if (done <? content_bytes)%nat then
    match fuel with
    | O => sm_err Panicked
    | S fuel =>
        do! one <- on_store (on_blocks (blk_read at_ block_bytes));
        let taken := Nat.min (Z.to_nat block_bytes) (content_bytes - done) in
        do! _ <- copy_into done (take taken one);
        if u64_max <? at_ + 1 then sm_err Panicked
        else get_loop fuel block_bytes content_bytes (done + taken) (at_ + 1)
    end
  else sm_ret tt.

Definition Store_get (hash : list Z) : sm Reading fault Z :=
  do! located <- sm_get (λ '(me, _), bs_located me !! hash);
  do! block <- sm_lift (option_or_refuse located refusal_ADDRESS);
  do! block_bytes <- sm_get (λ '(me, _), Store_block_bytes me);
  do! one <- on_store (on_blocks (blk_read block block_bytes));
  do! header <- sm_lift (or_refuse (header_in one hash));
  let content_bytes := hdr_content_bytes header in
  do! room <- sm_get (λ '(_, into), Z.of_nat (length into));
  if room <? content_bytes then sm_err (Refused refusal_SHORT_BUFFER)
  else
    let content_bytes := Z.to_nat content_bytes in
    let first := Nat.min (Z.to_nat block_bytes - Header_BYTES) content_bytes in
    do! _ <- copy_into 0 (slice one Header_BYTES first);
    if u64_max <? block + 1 then sm_err Panicked
    else
      do! _ <- get_loop content_bytes block_bytes content_bytes first (block + 1);
      do! into <- sm_get snd;
      if bool_decide (sha256 (take content_bytes into) = hash) then sm_ret (Z.of_nat content_bytes)
      else sm_err (Refused refusal_CONTENT).

(** ** Objects *)
Definition slice_or_panic (bytes : list Z) (from to : Z) : res fault (list Z) :=
  if (from <? 0) || (to <? from) || (Z.of_nat (length bytes) <? to) then Err Panicked
  else Ok (slice bytes (Z.to_nat from) (Z.to_nat (to - from))).

(** The chunks up to each cut, and where the last ended. *)
Fixpoint put_cuts (bytes : list Z) (at_ : Z) (cuts : list Z) : sm Store fault (list (list Z) * Z) :=
  match cuts with
  | [] => sm_ret ([], at_)
  | cut :: cuts =>
      do! chunk <- sm_lift (slice_or_panic bytes at_ cut);
      do! hash <- Store_put kind_CHUNK chunk;
      do! (hashes, at_) <- put_cuts bytes cut cuts;
      sm_ret (hash :: hashes, at_)
  end.

Definition object_content (object_bytes : Z) (hashes : list (list Z)) : list Z :=
  ObjectHead_to_bytes (mkObjectHead object_bytes (Z.of_nat (length hashes))) ++ concat hashes.

Definition Store_put_object (bytes : list Z) : sm Store fault (list Z) :=
  let '(cuts, chunker) := Chunker_feed Chunker_new bytes in
  let tail := Chunker_finish chunker in
  do! (hashes, at_) <- put_cuts bytes 0 cuts;
  do! hashes <- (if 0 <? tail then
                   do! chunk <- sm_lift (slice_or_panic bytes at_ (Z.of_nat (length bytes)));
                   do! hash <- Store_put kind_CHUNK chunk;
                   sm_ret (hashes ++ [hash])
                 else sm_ret hashes);
  if CHUNKS_MAX <? Z.of_nat (length hashes) then refuse refusal_UNKNOWN
  else Store_put kind_OBJECT (object_content (Z.of_nat (length bytes)) hashes).

(** A call on the bytes of the buffer from [from] up to [to]. *)
Definition on_slice {A : Type} (from to : nat) (m : sm Reading fault A) : sm Reading fault A := λ '(me, into),
  if (to <? from)%nat || (length into <? to)%nat then (Err Panicked, (me, into))
  else
    let '(r, (me, part)) := m (me, slice into from (to - from)) in
    (r, (me, put into from part)).

Fixpoint get_chunks (indices : list nat) (content : list Z) (object_bytes done : nat) : sm Reading fault nat :=
  match indices with
  | [] => sm_ret done
  | index :: indices =>
      let at_ := (ObjectHead_HEAD_BYTES + index * 32)%nat in
      do! chunk <- sm_lift (slice_or_panic content (Z.of_nat at_) (Z.of_nat at_ + 32));
      do! moved <- on_slice done object_bytes (Store_get chunk);
      get_chunks indices content object_bytes (done + Z.to_nat moved)
  end.

(** A call with a buffer of its own; one longer than an allocation can be stops
    the program. *)
Definition with_buffer {A : Type} (n : Z) (m : sm Reading fault A) : sm Store fault (A * list Z) := λ me,
  if isize_max <? n then (Err Panicked, me)
  else
    let '(r, (me, content)) := m (me, zeroed (Z.to_nat n)) in
    (match r with Ok a => Ok (a, content) | Err f => Err f end, me).

Definition Store_get_object (hash : list Z) : sm Reading fault Z :=
  do! header <- on_store (Store_head hash);
  if negb (hdr_kind header =? kind_OBJECT) then sm_err (Refused refusal_UNKNOWN)
  else
    do! (_, content) <- on_store (with_buffer (hdr_content_bytes header) (Store_get hash));
    if (length content <? ObjectHead_HEAD_BYTES)%nat then sm_err (Refused refusal_MALFORMED)
    else
      do! head <- sm_lift (or_refuse (ObjectHead_from_bytes (take ObjectHead_HEAD_BYTES content)));
      if negb (ObjectHead_bytes head =? Z.of_nat (length content)) then sm_err (Refused refusal_MALFORMED)
      else
        do! room <- sm_get (λ '(_, into), Z.of_nat (length into));
        if room <? oh_object_bytes head then sm_err (Refused refusal_SHORT_BUFFER)
        else
          let object_bytes := Z.to_nat (oh_object_bytes head) in
          do! done <- get_chunks (seq 0 (Z.to_nat (oh_chunks head))) content object_bytes 0;
          if negb (done =? object_bytes)%nat then sm_err (Refused refusal_MALFORMED)
          else sm_ret (oh_object_bytes head).
End store.
Arguments Store D : clear implicits.
