(* ===== verification/StoreFacts.v ===== *)
(** * The store's device, read back

    [walked] is the scan of [mount] as a relation on what the blocks hold: how
    far it got, what it located, the first free block.  [Store_wf] says a store
    stands where some scan of its device could, and every record it holds is
    written whole below its first free block. *)

From S2P Require Import Prelude Abi Bytes StoreRecords BlockDevice Store StoreCodecs Sha256 Chunker.

(** * Calls that only read

    What reads of the device keep, the store's reads keep: for any relation on
    devices that every block read is in, heads and gets are in it too. *)

Create HintDb framed.

Section frame.
Context {D : Type} `{Device D} (R : relation D) `{!PreOrder R}.
Hypothesis reads : ∀ b n d r d', blk_read b n d = (r, d') → R d d'.

(** A call on a state that has a device in it. *)
Definition framed_by {S A} (dev : S → D) (m : sm S fault A) : Prop := ∀ x r x', m x = (r, x') → R (dev x) (dev x').

Lemma framed_ret {S A} (dev : S → D) (a : A) : framed_by dev (sm_ret a).
Proof. by intros x r x' [= _ <-]. Qed.

Lemma framed_err {S A} (dev : S → D) e : framed_by (A := A) dev (sm_err e).
Proof. by intros x r x' [= _ <-]. Qed.

Lemma framed_lift {S A} (dev : S → D) (a : res fault A) : framed_by dev (sm_lift a).
Proof. by intros x r x' [= _ <-]. Qed.

Lemma framed_get {S A} (dev : S → D) (f : S → A) : framed_by dev (sm_get f).
Proof. by intros x r x' [= _ <-]. Qed.

Lemma framed_bind {S A B} (dev : S → D) (m : sm S fault A) (k : A → sm S fault B) :
  framed_by dev m → (∀ a, framed_by dev (k a)) → framed_by dev (do! a <- m; k a).
Proof.
  intros Hm Hk x r x'. unfold sm_bind. destruct (m x) as [[a|e] x1] eqn:E.
  - intros E1. etrans; [by eapply Hm|by eapply Hk].
  - intros [= _ <-]. by eapply Hm.
Qed.

Lemma framed_read b n : framed_by bs_device (on_blocks (blk_read b n)).
Proof.
  intros x r x'. unfold on_blocks. destruct (blk_read b n (bs_device x)) as [r1 d1] eqn:E. intros [= _ <-].
  by eapply reads.
Qed.

Let reading_device (x : Reading) : D := bs_device (fst x).

Lemma framed_on_store {A} (m : sm (Store D) fault A) : framed_by bs_device m → framed_by reading_device (on_store m).
Proof.
  intros Hm [s into] r [s' into']. unfold on_store. destruct (m s) as [r1 s1] eqn:E. intros [= _ <- _].
  by eapply Hm.
Qed.

Lemma framed_copy at_ x : framed_by reading_device (copy_into at_ x).
Proof. intros [s into] r [s' into']. unfold copy_into. by destruct (_ <? _)%nat; intros [= _ <- _]. Qed.

Hint Resolve framed_ret framed_err framed_lift framed_get framed_bind framed_read framed_on_store framed_copy : framed.

Lemma framed_get_loop fuel : ∀ bb cb done at_, framed_by reading_device (get_loop fuel bb cb done at_).
Proof.
  induction fuel as [|fuel IH]; intros bb cb done at_; cbn [get_loop]; destruct (_ <? _)%nat; auto with framed.
  apply framed_bind; [auto with framed|]. intros one. apply framed_bind; [auto with framed|]. intros _.
  destruct (_ <? _); auto with framed.
Qed.

Lemma framed_head h : framed_by bs_device (Store_head h).
Proof. unfold Store_head. repeat (apply framed_bind; [auto with framed|intros ?]). auto with framed. Qed.

Lemma framed_get_blob h : framed_by reading_device (Store_get h).
Proof.
  unfold Store_get. do 6 (apply framed_bind; [auto with framed|intros ?]).
  destruct (_ <? _); [auto with framed|]. apply framed_bind; [auto with framed|intros _].
  destruct (_ <? _); [auto with framed|]. apply framed_bind; [apply framed_get_loop|intros _].
  apply framed_bind; [auto with framed|intros ?]. case_bool_decide; auto with framed.
Qed.

Lemma framed_with_buffer {A} n (m : sm Reading fault A) :
  framed_by reading_device m → framed_by bs_device (with_buffer n m).
Proof.
  intros Hm s r s'. unfold with_buffer. destruct (_ <? _); [intros [= _ <-]; reflexivity|]. destruct (m (s, zeroed (Z.to_nat n))) as [r1 [s1 c]] eqn:E.
  intros [= _ <-]. by apply Hm in E.
Qed.

Lemma framed_get_buffer h n : framed_by bs_device (with_buffer n (Store_get h)).
Proof. apply framed_with_buffer, framed_get_blob. Qed.
End frame.

(** ** Rounding up *)
Lemma div_ceil_spec a b : 0 ≤ a → 0 < b → a ≤ div_ceil a b * b < a + b.
Proof.
  intros Ha Hb. unfold div_ceil. pose proof (Z.div_mod (a + b - 1) b ltac:(lia)).
  pose proof (Z.mod_pos_bound (a + b - 1) b Hb). nia.
Qed.

Lemma div_ceil_pos a b : 0 < a → 0 < b → 1 ≤ div_ceil a b.
Proof. intros Ha Hb. pose proof (div_ceil_spec a b ltac:(lia) Hb). nia. Qed.

(** The header a scan believes a block to start with. *)
Definition record_in (block : list Z) : option Header :=
  match header_at block with
  | Ok header => if u64_max <? Z.of_nat Header_BYTES + hdr_content_bytes header then None else Some header
  | Err _ => None
  end.

Definition header_span (block_bytes : Z) (hd : Header) : Z :=
  div_ceil (Z.of_nat Header_BYTES + hdr_content_bytes hd) block_bytes.

(** ** Walking the blocks *)
Section walked.
Context (block_bytes count : Z).
Hypothesis Hbb : 0 < block_bytes.
Hypothesis Hcount : 1 ≤ count ≤ u64_max.

Inductive walked (view : Z → list Z) : Z → gmap (list Z) Z → Z → Prop :=
| walked_start : walked view 1 ∅ 1
| walked_hole at_ l free : walked view at_ l free → at_ < count → record_in (view at_) = None → walked view (at_ + 1) l free
| walked_record at_ l free hd :
    walked view at_ l free → at_ < count → record_in (view at_) = Some hd → 0 ≤ hdr_content_bytes hd →
    walked view (saturating_add 64 at_ (header_span block_bytes hd)) (or_insert (hdr_hash hd) at_ l)
      (Z.min (saturating_add 64 at_ (header_span block_bytes hd)) count).

Lemma span_pos hd : 0 ≤ hdr_content_bytes hd → 1 ≤ header_span block_bytes hd.
Proof. intros. apply div_ceil_pos; [unfold Header_BYTES|]; lia. Qed.

Lemma saturating_next at_ hd :
  at_ < count → 0 ≤ hdr_content_bytes hd →
  let next := saturating_add 64 at_ (header_span block_bytes hd) in
  at_ < next ∧ (next = at_ + header_span block_bytes hd ∨ count ≤ next ∧ count ≤ at_ + header_span block_bytes hd).
Proof.
  intros Ha Hc. pose proof (span_pos hd Hc). unfold saturating_add, u64_max in *. cbn zeta. lia.
Qed.

Lemma walked_bounds view at_ l free : walked view at_ l free → 1 ≤ at_ ∧ 1 ≤ free ∧ free ≤ at_ ∧ free ≤ count.
Proof.
  induction 1 as [|at_ l free _ IH Hlt _|at_ l free hd _ IH Hlt _ Hc]; [lia|lia|].
  pose proof (saturating_next at_ hd Hlt Hc). cbn zeta in *. lia.
Qed.

(** A walk that ends with holes has been where its free block is. *)
Lemma walked_prefix view at_ l free :
  walked view at_ l free → ∃ at', walked view at' l free ∧ free = Z.min at' count.
Proof.
  induction 1 as [|at_ l free _ IH _ _|at_ l free hd W IH Hlt Hr Hc]; [exists 1; split; [constructor|lia]|done|].
  exists (saturating_add 64 at_ (header_span block_bytes hd)). split; [by apply walked_record with free|done].
Qed.

(** What was located is a record, and lies below the first free block. *)
Lemma walked_located view at_ l free h b :
  walked view at_ l free → l !! h = Some b →
  ∃ hd, record_in (view b) = Some hd ∧ hdr_hash hd = h ∧ 1 ≤ b < free ∧
        (b + header_span block_bytes hd ≤ free ∨ free = count).
Proof.
  intros W. revert h b. induction W as [|at_ l free W IH Hlt _|at_ l free hd W IH Hlt Hr Hc]; intros h b Hb.
  - by rewrite lookup_empty in Hb.
  - by apply IH.
  - pose proof (saturating_next at_ hd Hlt Hc) as N. cbn zeta in N. pose proof (walked_bounds _ _ _ _ W).
    unfold or_insert in Hb.
    assert (Hold : l !! h = Some b → ∃ hd0, record_in (view b) = Some hd0 ∧ hdr_hash hd0 = h ∧
      1 ≤ b < Z.min (saturating_add 64 at_ (header_span block_bytes hd)) count ∧
      (b + header_span block_bytes hd0 ≤ Z.min (saturating_add 64 at_ (header_span block_bytes hd)) count ∨
       Z.min (saturating_add 64 at_ (header_span block_bytes hd)) count = count)).
    { intros E. destruct (IH _ _ E) as (hd0 & ? & ? & ? & ?). exists hd0. split_and!; try done; lia. }
    destruct (l !! hdr_hash hd) eqn:E; [by apply Hold|].
    destruct (decide (h = hdr_hash hd)) as [->|Hne].
    + rewrite lookup_insert_eq in Hb. injection Hb as <-. exists hd. split_and!; try done; lia.
    + rewrite lookup_insert_ne in Hb by done. by apply Hold.
Qed.

(** A walk depends on the blocks it has passed only. *)
Lemma walked_same view view' at_ l free :
  walked view at_ l free → (∀ b, 1 ≤ b < Z.min at_ count → view' b = view b) → walked view' at_ l free.
Proof.
  induction 1 as [|at_ l free W IH Hlt Hr|at_ l free hd W IH Hlt Hr Hc]; intros Hv; [constructor| |];
    pose proof (walked_bounds _ _ _ _ W) as B.
  - apply walked_hole; [apply IH; intros; apply Hv; lia|done|]. by rewrite Hv by lia.
  - pose proof (saturating_next at_ hd Hlt Hc) as N. cbn zeta in N.
    eapply walked_record; [apply IH; intros; apply Hv; lia|done| |done]. by rewrite Hv by lia.
Qed.
End walked.

Lemma header_at_valid block hd : byte_list block → header_at block = Ok hd → Header_valid hd.
Proof.
  unfold header_at. intros Hb. destruct (Nat.ltb_spec (length block) Header_BYTES); [done|]. intros E.
  apply (codec_enc_dec (take Header_BYTES block)) in E as [_ Hv]; [done|by apply Forall_take|].
  rewrite length_take. lia.
Qed.

Lemma header_at_encode hd rest : Header_valid hd → header_at (Header_to_bytes hd ++ rest) = Ok hd.
Proof.
  intros Hv. pose proof (codec_size hd Hv) as Hl. unfold header_at.
  rewrite (proj2 (Nat.ltb_ge _ _)) by (rewrite length_app; lia).
  rewrite take_app_le, take_ge by lia. by apply codec_dec_enc.
Qed.

Section facts.
Context {D : Type} `{DeviceLaws D}.

(** ** Mounting *)
Section scan.
Context (d0 : D).
Hypothesis Hcalm : ∀ e, ¬ blk_read_fault e.
Hypothesis Hok : blk_ok d0.
Hypothesis Hone : 1 ≤ blk_count d0.

Let bb := blk_bytes d0.
Let count := blk_count d0.
Let view := blk_view d0.

Lemma scan_geometry : 0 < bb ∧ 1 ≤ count ≤ u64_max.
Proof. destruct (law_shape d0 Hok). unfold bb, count. lia. Qed.

Lemma scan_read d at_ :
  same_blocks d0 d → 0 ≤ at_ < count → ∃ d', blk_read at_ bb d = (Ok (view at_), d') ∧ same_blocks d0 d'.
Proof.
  intros Hs Hat. destruct (blk_read at_ bb d) as [r d'] eqn:E. pose proof Hs as [(Hd & Hb & Hc) Hv].
  apply law_read in E as [Hs' Hr]; [|done|lia]. exists d'. split; [|by eapply same_blocks_trans].
  destruct Hr as [(e & _ & He)|[(_ & ->)|[Hna _]]]; [by apply Hcalm in He|by rewrite Hv|].
  exfalso. apply Hna. unfold addressed. rewrite Hc, Hb. done.
Qed.

(** A turn of the scan. *)
Lemma scan_turn fuel d l free at_ :
  same_blocks d0 d → 0 ≤ at_ < count →
  ∃ d', same_blocks d0 d' ∧
    mount_scan (S fuel) bb count d l free at_ =
      match record_in (view at_) with
      | None => mount_scan fuel bb count d' l free (at_ + 1)
      | Some hd =>
          let at' := saturating_add 64 at_ (header_span bb hd) in
          mount_scan fuel bb count d' (or_insert (hdr_hash hd) at_ l) (Z.min at' count) at'
      end.
Proof.
  intros Hs Hat. destruct (scan_read d at_ Hs Hat) as (d' & Er & Hs'). exists d'. split; [done|].
  cbn [mount_scan]. rewrite (proj2 (Z.ltb_lt _ _)), Er by lia. unfold record_in.
  destruct (header_at (view at_)) as [hd|]; [|done]. by destruct (_ <? _).
Qed.

Lemma record_content at_ hd : 0 ≤ at_ < count → record_in (view at_) = Some hd → 0 ≤ hdr_content_bytes hd.
Proof.
  intros Hat. unfold record_in. destruct (header_at (view at_)) as [hd'|] eqn:E; [|done].
  apply header_at_valid in E; [|by apply law_view]. destruct (_ <? _); [done|]. intros [= <-]. apply E.
Qed.

(** From anywhere, a scan ends, having walked on and forgotten nothing. *)
Lemma scan_ends fuel : ∀ d l free at_,
  same_blocks d0 d → walked bb count view at_ l free → count - at_ ≤ Z.of_nat fuel →
  ∃ d' l' free' at', mount_scan fuel bb count d l free at_ = Ok (d', l', free') ∧ same_blocks d0 d' ∧
    walked bb count view at' l' free' ∧ l ⊆ l'.
Proof.
  destruct scan_geometry as [Hbb Hcount].
  induction fuel as [|fuel IH]; intros d l free at_ Hs W Hf;
    (destruct (Z.ltb_spec at_ count) as [Hlt|Hge];
     [|exists d, l, free, at_; cbn [mount_scan]; rewrite (proj2 (Z.ltb_ge _ _)) by done; done]).
  { lia. }
  pose proof (walked_bounds _ _ Hbb Hcount _ _ _ _ W) as B.
  destruct (scan_turn fuel d l free at_ Hs ltac:(lia)) as (d1 & Hs1 & ->).
  destruct (record_in (view at_)) as [hd|] eqn:Er.
  - pose proof (record_content at_ hd ltac:(lia) Er) as Hc.
    pose proof (saturating_next bb count Hbb Hcount at_ hd Hlt Hc) as N. cbn zeta in N |- *.
    destruct (IH d1 (or_insert (hdr_hash hd) at_ l) (Z.min (saturating_add 64 at_ (header_span bb hd)) count)
      (saturating_add 64 at_ (header_span bb hd)))
      as (d' & l' & free' & at' & -> & ? & ? & Hsub); [done|by apply walked_record with free|lia|].
    exists d', l', free', at'. split_and!; try done. etrans; [|exact Hsub].
    unfold or_insert. destruct (l !! hdr_hash hd) eqn:E; [done|by apply insert_subseteq].
  - destruct (IH d1 l free (at_ + 1)) as (d' & l' & free' & at' & E & R); [done|by apply walked_hole|lia|].
    by exists d', l', free', at'.
Qed.

(** A scan from the first block goes where a walk has been. *)
Lemma scan_follows at_ l free fuel d :
  walked bb count view at_ l free → same_blocks d0 d → count - 1 ≤ Z.of_nat fuel →
  ∃ d' fuel', same_blocks d0 d' ∧ count - at_ ≤ Z.of_nat fuel' ∧
    mount_scan fuel bb count d ∅ 1 1 = mount_scan fuel' bb count d' l free at_.
Proof.
  destruct scan_geometry as [Hbb Hcount]. intros W Hs Hf.
  induction W as [|at_ l free W IH Hlt Hr|at_ l free hd W IH Hlt Hr Hc]; [by exists d, fuel| |];
    destruct IH as (d1 & fuel1 & Hs1 & Hf1 & ->);
    pose proof (walked_bounds _ _ Hbb Hcount _ _ _ _ W) as B;
    (destruct fuel1 as [|fuel1]; [lia|]);
    destruct (scan_turn fuel1 d1 l free at_ Hs1 ltac:(lia)) as (d2 & Hs2 & ->); rewrite Hr; cbn zeta.
  - exists d2, fuel1. split_and!; [done|lia|done].
  - pose proof (saturating_next bb count Hbb Hcount at_ hd Hlt Hc) as N. cbn zeta in N.
    exists d2, fuel1. split_and!; [done|lia|done].
Qed.

(** Over blocks that hold no record a scan finds nothing. *)
Lemma scan_blank fuel : ∀ d l free at_,
  same_blocks d0 d → 0 ≤ at_ → count - at_ ≤ Z.of_nat fuel →
  (∀ b, at_ ≤ b < count → record_in (view b) = None) →
  ∃ d', same_blocks d0 d' ∧ mount_scan fuel bb count d l free at_ = Ok (d', l, free).
Proof.
  induction fuel as [|fuel IH]; intros d l free at_ Hs Hat Hf Hb;
    (destruct (Z.ltb_spec at_ count) as [Hlt|Hge];
     [|exists d; cbn [mount_scan]; rewrite (proj2 (Z.ltb_ge _ _)) by done; done]).
  { lia. }
  destruct (scan_turn fuel d l free at_ Hs ltac:(lia)) as (d1 & Hs1 & ->).
  rewrite Hb by lia. apply IH; [done|lia|lia|]. intros; apply Hb; lia.
Qed.
End scan.

(** ** A well-formed store *)
Record Store_wf (s : Store D) : Prop := {
  wf_device : blk_ok (bs_device s);
  wf_bytes : blk_bytes (bs_device s) = Store_block_bytes s;
  wf_room : Z.of_nat Superblock_BYTES ≤ Store_block_bytes s;
  wf_count : 1 ≤ blk_count (bs_device s);
  wf_superblock : Superblock_from_bytes (take Superblock_BYTES (blk_view (bs_device s) 0)) = Ok (bs_superblock s);
  wf_chunker : refuse_a_chunker_that_moved (bs_superblock s) = Ok tt;
  wf_walked : ∃ at_, walked (Store_block_bytes s) (blk_count (bs_device s)) (blk_view (bs_device s)) at_
                       (bs_located s) (bs_free s) ∧ bs_free s = Z.min at_ (blk_count (bs_device s));
}.

(** What every call on a store needs of it, and a collection under it keeps:
    the walk is a fact of a store nothing has swept. *)
Record Store_sound (s : Store D) : Prop := {
  so_device : blk_ok (bs_device s);
  so_bytes : blk_bytes (bs_device s) = Store_block_bytes s;
  so_room : Z.of_nat Superblock_BYTES ≤ Store_block_bytes s;
  so_free : 1 ≤ bs_free s ≤ blk_count (bs_device s);
  so_located : ∀ h b, bs_located s !! h = Some b → 1 ≤ b < bs_free s;
}.

(** The record of a blob, and that it stands at a block. *)
Definition blob_header (k : Z) (c : list Z) : Header := mkHeader k 0 (Z.of_nat (length c)) (sha256 c).
Definition blob_span (s : Store D) (c : list Z) : Z :=
  div_ceil (Z.of_nat Header_BYTES + Z.of_nat (length c)) (Store_block_bytes s).

Definition raw_of (view : Z → list Z) (b : Z) (n : nat) : list Z := concat ((λ i, view (b + Z.of_nat i)) <$> seq 0 n).

Definition stands (s : Store D) (b k : Z) (c : list Z) : Prop :=
  raw_of (blk_view (bs_device s)) b (Z.to_nat (blob_span s c)) = put_record (blob_header k c) c (Store_block_bytes s).

(** A store holds a content, stored as a kind, under its digest. *)
Record holds (s : Store D) (k : Z) (c : list Z) : Prop := {
  holds_located : ∃ b, bs_located s !! sha256 c = Some b ∧ stands s b k c ∧ 1 ≤ b ∧ b + blob_span s c ≤ bs_free s;
  holds_kind : kind_known k = true;
  holds_bytes : byte_list c;
  holds_length : Z.of_nat Header_BYTES + Z.of_nat (length c) ≤ u64_max;
}.

(** Calls that read change nothing but the device's own state. *)
Definition same_store (s s' : Store D) : Prop :=
  same_blocks (bs_device s) (bs_device s') ∧ bs_superblock s' = bs_superblock s ∧ bs_free s' = bs_free s ∧
  bs_located s' = bs_located s.

Lemma same_store_refl s : blk_ok (bs_device s) → same_store s s.
Proof. done. Qed.

Lemma same_store_trans s1 s2 s3 : same_store s1 s2 → same_store s2 s3 → same_store s1 s3.
Proof.
  intros (D1 & S1 & F1 & L1) (D2 & S2 & F2 & L2).
  split; [by eapply same_blocks_trans|]. split_and!; congruence.
Qed.

Lemma wf_sound s : Store_wf s → Store_sound s.
Proof.
  intros [Hd Hb Hr Hc _ _ (at_ & W & E)]. destruct (law_shape _ Hd) as [[_ Hmax] _].
  assert (Hpos : 0 < Store_block_bytes s) by (unfold Superblock_BYTES in *; lia).
  pose proof (walked_bounds _ _ Hpos (conj Hc Hmax) _ _ _ _ W). split; [done|done|done|lia|].
  intros h b L. by destruct (walked_located _ _ Hpos (conj Hc Hmax) _ _ _ _ _ _ W L) as (_ & _ & _ & ? & _).
Qed.

Lemma sound_geometry s :
  Store_sound s →
  Z.of_nat Superblock_BYTES ≤ Store_block_bytes s ∧ 0 < Store_block_bytes s ∧
  1 ≤ blk_count (bs_device s) ≤ u64_max ∧ 1 ≤ bs_free s ≤ blk_count (bs_device s).
Proof.
  intros [Hd _ Hr Hf _]. destruct (law_shape _ Hd) as [[_ Hmax] _]. unfold Superblock_BYTES in *. lia.
Qed.

Lemma wf_geometry s :
  Store_wf s →
  Z.of_nat Superblock_BYTES ≤ Store_block_bytes s ∧ 0 < Store_block_bytes s ∧
  1 ≤ blk_count (bs_device s) ≤ u64_max ∧ 1 ≤ bs_free s ≤ blk_count (bs_device s).
Proof. intros. by apply sound_geometry, wf_sound. Qed.

(** A device of the same shape, with the same blocks below the first free one. *)
Definition kept_below (n : Z) (d d' : D) : Prop :=
  same_shape d d' ∧ ∀ b, 0 ≤ b < n → blk_view d' b = blk_view d b.

Lemma wf_keeps s d' :
  Store_wf s → kept_below (bs_free s) (bs_device s) d' →
  Store_wf (mkStore d' (bs_superblock s) (bs_free s) (bs_located s)).
Proof.
  intros Hwf [(Hd & Hb & Hc) Hv]. pose proof (wf_geometry s Hwf) as (? & Hpos & Hcount & ?).
  destruct Hwf as [_ Hb' Hr Hn Hs Hk (at_ & W & E)].
  constructor; cbn; rewrite ?Hb, ?Hc, ?Hv by lia; try done.
  exists at_. split; [|done]. apply (walked_same _ _ Hpos Hcount _ _ _ _ _ W). intros. apply Hv. lia.
Qed.

Lemma sound_keeps s d' :
  Store_sound s → kept_below (bs_free s) (bs_device s) d' →
  Store_sound (mkStore d' (bs_superblock s) (bs_free s) (bs_located s)).
Proof. intros [_ ? ? ? ?] [(Hd & Hb & Hc) _]. constructor; cbn; rewrite ?Hb, ?Hc; done. Qed.

(** Written at a block, a record is a step of the walk. *)
Lemma put_record_header bb hd c :
  Header_valid hd → hdr_content_bytes hd = Z.of_nat (length c) → 0 < bb →
  let n := Z.to_nat (div_ceil (Z.of_nat Header_BYTES + Z.of_nat (length c)) bb * bb) in
  put_record hd c bb = Header_to_bytes hd ++ c ++ zeroed (n - Header_BYTES - length c) ∧
  (Header_BYTES + length c ≤ n)%nat ∧ length (put_record hd c bb) = n.
Proof.
  intros Hv Hc Hb n. pose proof (codec_size hd Hv) as Hl.
  pose proof (div_ceil_spec (Z.of_nat Header_BYTES + Z.of_nat (length c)) bb ltac:(lia) Hb) as Hd.
  assert (Hn : (Header_BYTES + length c ≤ n)%nat) by (unfold n; lia).
  assert (E : put_record hd c bb = Header_to_bytes hd ++ c ++ zeroed (n - Header_BYTES - length c)).
  { unfold put_record. fold n. pose proof (put_next [] n (Header_to_bytes hd)) as E1. cbn [app length] in E1.
    rewrite E1 by lia. rewrite <- Hl at 1. rewrite put_next by lia. rewrite <- (assoc_L (++)). by rewrite Hl. }
  split_and!; [done|done|]. rewrite E, !length_app, Hl. unfold zeroed. rewrite length_replicate. lia.
Qed.

(** ** The blocks of a record *)
Lemma raw_of_S view b n : raw_of view b (S n) = raw_of view b n ++ view (b + Z.of_nat n).
Proof. unfold raw_of. rewrite seq_S, fmap_app, concat_app. cbn. by rewrite app_nil_r. Qed.

Lemma raw_of_length d b n :
  blk_ok d → 0 ≤ b → b + Z.of_nat n ≤ blk_count d →
  length (raw_of (blk_view d) b n) = (n * Z.to_nat (blk_bytes d))%nat.
Proof.
  intros Hd Hb. induction n as [|n IH]; intros Hn; [done|]. rewrite raw_of_S, length_app, IH by lia.
  destruct (law_view d (b + Z.of_nat n) Hd) as [_ Hl]; [lia|]. lia.
Qed.

Lemma raw_of_bytes d b n :
  blk_ok d → 0 ≤ b → b + Z.of_nat n ≤ blk_count d → byte_list (raw_of (blk_view d) b n).
Proof.
  intros Hd Hb. induction n as [|n IH]; intros Hn; [constructor|]. rewrite raw_of_S. apply Forall_app.
  split; [apply IH; lia|]. apply law_view; [done|lia].
Qed.

Lemma raw_of_same view view' b n :
  (∀ b', b ≤ b' < b + Z.of_nat n → view' b' = view b') → raw_of view' b n = raw_of view b n.
Proof.
  intros Hv. unfold raw_of. f_equal. apply list_fmap_ext. intros i x Hx. apply lookup_seq in Hx. apply Hv. lia.
Qed.

Lemma raw_of_first view b n : raw_of view b (S n) = view b ++ raw_of view (b + 1) n.
Proof.
  unfold raw_of. cbn [seq fmap list_fmap concat]. rewrite Z.add_0_r. f_equal. f_equal. rewrite <- fmap_S_seq.
  rewrite <- list_fmap_compose. apply list_fmap_ext. intros i x _. cbn. f_equal. lia.
Qed.

(** The first block of a record starts with its header. *)
Lemma raw_first_header view b n hd c bb :
  Header_valid hd → hdr_content_bytes hd = Z.of_nat (length c) → 0 < bb →
  raw_of view b n = put_record hd c bb → (1 ≤ n)%nat → (Header_BYTES ≤ length (view b))%nat →
  take Header_BYTES (view b) = Header_to_bytes hd.
Proof.
  intros Hv Hc Hb R Hn Hl. destruct (put_record_header bb hd c Hv Hc Hb) as (E & _).
  destruct n as [|n]; [lia|]. rewrite raw_of_first, E in R. apply (f_equal (take Header_BYTES)) in R.
  pose proof (codec_size hd Hv) as Hh. by rewrite !take_app_le, (take_ge (Header_to_bytes _)) in R by lia.
Qed.

Lemma holds_keeps s k c d' free' l' :
  holds s k c → kept_below (bs_free s) (bs_device s) d' → bs_free s ≤ free' →
  l' !! sha256 c = bs_located s !! sha256 c → holds (mkStore d' (bs_superblock s) free' l') k c.
Proof.
  intros [(b & L & S & Hb & He) Hk Hc Hl] [Hs Hv] Hf El. constructor; try done.
  exists b. cbn. unfold stands, blob_span, Store_block_bytes in *. cbn in *. split_and!; [congruence| |lia|lia].
  rewrite <- S. apply raw_of_same. intros b' Hb'. apply Hv.
  set (n := div_ceil _ _) in *. lia.
Qed.

(** ** Putting *)
Lemma kept_below_trans n n' d1 d2 d3 : n ≤ n' → kept_below n d1 d2 → kept_below n' d2 d3 → kept_below n d1 d3.
Proof.
  intros Hn [(O1 & B1 & C1) V1] [(O2 & B2 & C2) V2]. split; [split_and!; [done|congruence|congruence]|].
  intros b Hb. rewrite V2, V1 by lia. done.
Qed.

Lemma same_blocks_kept n d d' : same_blocks d d' → kept_below n d d'.
Proof. intros [Hs Hv]. split; [done|]. intros b _. apply Hv. Qed.

Definition on_device_of (s : Store D) (d : D) : Store D := mkStore d (bs_superblock s) (bs_free s) (bs_located s).

Lemma put_blocks_spec blocks : ∀ s b r s',
  blk_ok (bs_device s) → 0 ≤ b → b + Z.of_nat (length blocks) ≤ blk_count (bs_device s) →
  Forall (λ x, byte_list x ∧ Z.of_nat (length x) = blk_bytes (bs_device s)) blocks →
  put_blocks b blocks s = (r, s') →
  s' = on_device_of s (bs_device s') ∧ kept_below b (bs_device s) (bs_device s') ∧
  ((∃ e, r = Err e ∧ blk_write_fault e) ∨
   r = Ok tt ∧ raw_of (blk_view (bs_device s')) b (length blocks) = concat blocks).
Proof.
  induction blocks as [|x xs IH]; intros s b r s' Hok Hb Hn HF E.
  { injection E as <- <-. destruct s. split_and!; try done. by right. }
  apply list.Forall_cons in HF as [[Hx Hl] HF]. cbn [put_blocks length] in *.
  unfold sm_bind at 1, on_blocks in E. destruct (blk_write b x (bs_device s)) as [r1 d1] eqn:W.
  assert (Hin : 0 ≤ b < blk_count (bs_device s)) by lia.
  pose proof (law_write _ _ _ _ _ Hok Hin Hx W) as [[Hs (e & -> & He)]|[(Ha & -> & Hs & Hv)|(Ha & _)]].
  - injection E as <- <-. cbn. split_and!; [done|by apply same_blocks_kept|]. left. by exists e.
  - destruct (id Hs) as (Ho & Eb & Ec).
    apply IH in E as (-> & K & R); cbn [bs_device] in *; [|done|lia|lia|by rewrite Eb].
    split; [done|]. split.
    + eapply (kept_below_trans b (b + 1)); [lia| |exact K]. split; [done|]. intros b' Hb'.
      rewrite Hv by lia. by rewrite decide_False by lia.
    + destruct R as [R|[-> R]]; [by left|right]. split; [done|]. rewrite raw_of_first, R. cbn [concat]. f_equal.
      rewrite (proj2 K b) by lia. rewrite Hv by lia. by rewrite decide_True.
  - exfalso. apply Ha. unfold addressed. lia.
Qed.

Lemma pieces_spec k n l :
  length l = (k * n)%nat → concat (pieces k n l) = l ∧ length (pieces k n l) = k ∧
  Forall (λ x, length x = n ∧ (byte_list l → byte_list x)) (pieces k n l).
Proof.
  revert l. induction k as [|k IH]; intros l Hl; cbn [pieces concat length].
  { split_and!; [symmetry; by apply nil_length_inv|done|constructor]. }
  destruct (IH (drop n l)) as (E1 & E2 & E3); [rewrite length_drop; lia|].
  rewrite E1, E2, take_drop. split_and!; [done|done|]. constructor.
  - rewrite length_take. split; [lia|]. apply Forall_take.
  - eapply list.Forall_impl; [exact E3|]. cbn. intros x [? Hx]. split; [done|]. intros. by apply Hx, Forall_drop.
Qed.

Lemma blob_header_valid k c :
  kind_known k = true → Z.of_nat Header_BYTES + Z.of_nat (length c) ≤ u64_max → Header_valid (blob_header k c).
Proof.
  intros Hk Hc. constructor; cbn; [done|done| |apply sha256_digest]. unfold is_uint, u64_max in *. lia.
Qed.

(** A blob put at the first free block. *)
Lemma put_stands s d' k c :
  Store_sound s → kind_known k = true → byte_list c →
  Z.of_nat Header_BYTES + Z.of_nat (length c) ≤ u64_max →
  bs_located s !! sha256 c = None → bs_free s + blob_span s c ≤ blk_count (bs_device s) →
  kept_below (bs_free s) (bs_device s) d' →
  raw_of (blk_view d') (bs_free s) (Z.to_nat (blob_span s c)) = put_record (blob_header k c) c (Store_block_bytes s) →
  let s' := mkStore d' (bs_superblock s) (bs_free s + blob_span s c) (<[sha256 c := bs_free s]> (bs_located s)) in
  Store_sound s' ∧ holds s' k c ∧ ∀ k' c', holds s k' c' → holds s' k' c'.
Proof.
  intros Hso Hk Hc Hl Hnew Hfit Hkept R. cbn zeta.
  pose proof (sound_geometry s Hso) as (Hroom & Hpos & Hcount & Hfree).
  assert (Hspan : 1 ≤ blob_span s c) by (apply div_ceil_pos; [unfold Header_BYTES|]; lia).
  pose proof Hkept as [(Hd & Hb & Hcn) _]. split_and!.
  - destruct Hso as [_ Hb' _ _ Hloc]. constructor; cbn; rewrite ?Hb, ?Hcn; try done; [lia|].
    intros h b. destruct (decide (h = sha256 c)) as [->|].
    + rewrite lookup_insert_eq. intros [= <-]. lia.
    + rewrite lookup_insert_ne by done. intros L. apply Hloc in L. lia.
  - constructor; try done. exists (bs_free s). cbn. rewrite lookup_insert_eq.
    split_and!; [done|exact R|lia|unfold blob_span, Store_block_bytes; cbn; lia].
  - intros k' c' Hh. apply (holds_keeps s k' c' d'); [done|done|lia|]. apply lookup_insert_ne. intros E.
    destruct (holds_located _ _ _ Hh) as (b & L & _). rewrite <- E, Hnew in L. done.
Qed.

(** The walk goes over a blob put at the first free block. *)
Lemma put_walks s d' k c :
  Store_wf s → bs_located s !! sha256 c = None → kept_below (bs_free s) (bs_device s) d' →
  let s' := mkStore d' (bs_superblock s) (bs_free s + blob_span s c) (<[sha256 c := bs_free s]> (bs_located s)) in
  bs_free s' ≤ blk_count d' → holds s' k c → Store_wf s'.
Proof.
  intros Hwf Hnew Hkept s' Hfit Hh. pose proof (wf_geometry s Hwf) as (Hroom & Hpos & Hcount & Hfree).
  destruct Hh as [(b & L & R & _) Hk Hc Hl]. cbn in L. rewrite lookup_insert_eq in L. injection L as <-.
  unfold stands in R. cbn in Hfit, R. change (blob_span s' c) with (blob_span s c) in R.
  change (Store_block_bytes s') with (Store_block_bytes s) in R.
  assert (Hspan : 1 ≤ blob_span s c) by (apply div_ceil_pos; [unfold Header_BYTES|]; lia).
  pose proof (blob_header_valid k c Hk Hl) as Hv. pose proof Hkept as [(Hd & Hb & Hcn) Hview].
  assert (Hlen : (Header_BYTES ≤ length (blk_view d' (bs_free s)))%nat).
  { destruct (law_view d' (bs_free s) Hd) as [_ Hvl]; [lia|].
    unfold Superblock_BYTES, Header_BYTES in *. rewrite (wf_bytes s Hwf) in Hb. lia. }
  assert (Hfirst : record_in (blk_view d' (bs_free s)) = Some (blob_header k c)).
  { apply (raw_first_header _ _ _ _ c (Store_block_bytes s) Hv) in R; [|done|done|lia|done].
    unfold record_in, header_at. rewrite (proj2 (Nat.ltb_ge _ _)) by lia.
    rewrite R, codec_dec_enc by done. cbn [hdr_content_bytes blob_header]. by rewrite (proj2 (Z.ltb_ge _ _)). }
  destruct Hwf as [_ Hb' _ _ Hs Hck (at_ & W & E)].
  constructor; cbn; rewrite ?Hb, ?Hcn, ?(Hview 0) by lia; try done; try lia.
  assert (at_ = bs_free s) as -> by lia.
  apply (walked_same _ _ Hpos Hcount _ (blk_view d')) in W; [|intros; apply Hview; lia].
  apply (walked_record _ _ _ _ _ _ (blob_header k c)) in W; [|lia|done|cbn; lia].
  change (header_span (Store_block_bytes s) (blob_header k c)) with (blob_span s c) in W.
  replace (saturating_add 64 (bs_free s) (blob_span s c)) with (bs_free s + blob_span s c) in W
    by (unfold saturating_add, u64_max in *; lia).
  exists (bs_free s + blob_span s c). rewrite Z.min_l in W |- * by lia. split; [|done].
  unfold or_insert in W. cbn [hdr_hash blob_header] in W. by rewrite Hnew in W.
Qed.

(** Everything a put can come to. *)
Inductive put_outcome (s : Store D) (k : Z) (c : list Z) : res fault (list Z) → Store D → Prop :=
| put_unknown : kind_known k = false → put_outcome s k c (Err (Refused refusal_UNKNOWN)) s
| put_present b : kind_known k = true → bs_located s !! sha256 c = Some b → put_outcome s k c (Ok (sha256 c)) s
| put_full :
    kind_known k = true → bs_located s !! sha256 c = None → blk_count (bs_device s) < bs_free s + blob_span s c →
    put_outcome s k c (Err (Refused refusal_FULL)) s
| put_failed e d' :
    blk_write_fault e → kept_below (bs_free s) (bs_device s) d' → put_outcome s k c (Err e) (on_device_of s d')
| put_done d' :
    kind_known k = true → bs_located s !! sha256 c = None → kept_below (bs_free s) (bs_device s) d' →
    let s' := mkStore d' (bs_superblock s) (bs_free s + blob_span s c) (<[sha256 c := bs_free s]> (bs_located s)) in
    holds s' k c → put_outcome s k c (Ok (sha256 c)) s'.

(** A content a program can hold with its header and a block to spare. *)
Definition fits (s : Store D) (c : list Z) : Prop :=
  byte_list c ∧ Z.of_nat Header_BYTES + Z.of_nat (length c) + Store_block_bytes s ≤ isize_max.

Lemma put_sound s k c r s' :
  Store_sound s → fits s c → Store_put k c s = (r, s') →
  put_outcome s k c r s' ∧ Store_sound s' ∧ (∀ k' c', holds s k' c' → holds s' k' c').
Proof.
  intros Hwf [Hc Hfit] E. pose proof (sound_geometry s Hwf) as (Hroom & Hpos & Hcount & Hfree). pose proof isize_below.
  unfold Store_put in E. destruct (kind_known k) eqn:Hk.
  2:{ injection E as <- <-. by split; [constructor|]. }
  cbn [negb] in E. destruct (bs_located s !! sha256 c) as [b|] eqn:L.
  { injection E as <- <-. by split; [eapply put_present|]. }
  rewrite (proj2 (Z.ltb_ge _ _)) in E by lia. rewrite (proj2 (Z.eqb_neq _ _)) in E by lia. cbn [orb] in E.
  fold (blob_span s c) in E.
  assert (Hspan : 1 ≤ blob_span s c) by (apply div_ceil_pos; [unfold Header_BYTES|]; lia).
  pose proof (div_ceil_spec (Z.of_nat Header_BYTES + Z.of_nat (length c)) (Store_block_bytes s) ltac:(lia) Hpos) as Hd.
  fold (blob_span s c) in Hd.
  destruct (Z.ltb_spec (blk_count (bs_device s)) (bs_free s + blob_span s c)) as [Hfull|Hroom'].
  { rewrite orb_true_r in E. injection E as <- <-. by split; [apply put_full|]. }
  rewrite (proj2 (Z.ltb_ge _ _)) in E by lia. cbn [orb] in E. rewrite (proj2 (Z.ltb_ge _ _)) in E by lia.
  unfold sm_bind at 1 in E. fold (blob_header k c) in E. set (rec := put_record _ _ _) in *.
  assert (Hv : Header_valid (blob_header k c)) by (apply blob_header_valid; [done|lia]).
  destruct (put_record_header _ _ c Hv eq_refl Hpos) as (Erec & Hn & Hlen). fold rec in Erec, Hlen.
  destruct (pieces_spec (Z.to_nat (blob_span s c)) (Z.to_nat (Store_block_bytes s)) rec) as (P1 & P2 & P3).
  { rewrite Hlen. fold (blob_span s c). lia. }
  assert (Hrec : byte_list rec).
  { rewrite Erec. apply Forall_app. split; [by apply codec_bytes|]. apply Forall_app. split; [done|].
    apply Forall_replicate. done. }
  destruct (put_blocks _ _ s) as [r1 s1] eqn:W. apply put_blocks_spec in W as (Es1 & K & R);
    [|apply Hwf|lia|rewrite P2; lia|].
  2:{ rewrite (so_bytes _ Hwf). eapply list.Forall_impl; [exact P3|]. cbn. intros x [Hx Hxb].
      split; [by apply Hxb|lia]. }
  destruct R as [(e & -> & He)|[-> R]].
  - injection E as <- <-. rewrite Es1. split_and!; [by apply put_failed|by apply sound_keeps|].
    intros k' c' Hh. eapply holds_keeps; done.
  - rewrite Es1 in E. injection E as <- <-. rewrite P1, P2 in R.
    destruct (put_stands s (bs_device s1) k c) as (W' & Hh & Hall); try done; [lia|]. cbn.
    split_and!; [by apply put_done|done|done].
Qed.

Lemma put_spec s k c r s' :
  Store_wf s → fits s c → Store_put k c s = (r, s') →
  put_outcome s k c r s' ∧ Store_wf s' ∧ (∀ k' c', holds s k' c' → holds s' k' c').
Proof.
  intros Hwf Hf E. destruct (put_sound s k c r s' (wf_sound s Hwf) Hf E) as (O & So & Hall). split_and!; [done| |done].
  destruct O as [|b| |e d' ? ?|d' ? ? Hk s1 Hh]; [done|done|done|by apply wf_keeps|].
  apply (put_walks s d' k c); try done. apply (so_free _ So).
Qed.
End facts.

#[global] Hint Extern 0 (Store_sound _) => (apply wf_sound; assumption) : core.
