(* ===== verification/StoreTheorems.v ===== *)
(** * What the store promises

    What was put is read back until something else is wrong, nothing is ever
    answered that does not hash to its name, and a mount finds again what the
    store it replaces had located. *)

From S2P Require Import Prelude Abi Bytes StoreRecords StoreCodecs BlockDevice Sha256 Chunker Store StoreFacts.

(** * Reading a blob back, whatever the device holds

    [get_spec] is the whole of [Store::get]: every refusal, and the bytes a
    buffer is left with, from the blocks of the device alone. *)

Section reads.
Context {D : Type} `{DeviceLaws D}.

(** The content a header claims, as the blocks give it. *)
Definition claimed_bytes (s : Store D) (b : Z) (cb : nat) : list Z :=
  take cb (drop Header_BYTES (raw_of (blk_view (bs_device s)) b
    (Z.to_nat (div_ceil (Z.of_nat Header_BYTES + Z.of_nat cb) (Store_block_bytes s))))).

Lemma same_store_wf s s' : Store_wf s → same_store s s' → Store_wf s'.
Proof.
  intros Hwf (Hb & E1 & E2 & E3). pose proof (wf_keeps s (bs_device s') Hwf (same_blocks_kept _ _ _ Hb)) as W.
  destruct s' as [d' sb f l]. cbn in *. by subst.
Qed.

Lemma same_store_sound s s' : Store_sound s → same_store s s' → Store_sound s'.
Proof.
  intros Hso (Hb & E1 & E2 & E3). pose proof (sound_keeps s (bs_device s') Hso (same_blocks_kept _ _ _ Hb)) as W.
  destruct s' as [d' sb f l]. cbn in *. by subst.
Qed.

Lemma same_store_holds s s' k c : same_store s s' → holds s k c → holds s' k c.
Proof.
  intros (Hb & E1 & E2 & E3) Hh.
  pose proof (holds_keeps s k c (bs_device s') (bs_free s) (bs_located s) Hh (same_blocks_kept _ _ _ Hb) ltac:(lia) eq_refl).
  destruct s' as [d' sb f l]. cbn in *. by subst.
Qed.

Lemma on_device_same s d' : same_blocks (bs_device s) d' → same_store s (on_device_of s d').
Proof. done. Qed.

(** One read of the store's device. *)
Lemma on_blocks_read s b r s' :
  Store_sound s → 0 ≤ b → on_blocks (blk_read b (Store_block_bytes s)) s = (r, s') →
  same_store s s' ∧
  ((∃ e, r = Err e ∧ blk_read_fault e) ∨
   (b < blk_count (bs_device s) ∧ r = Ok (blk_view (bs_device s) b)) ∨
   (blk_count (bs_device s) ≤ b ∧ r = Err (Refused refusal_ADDRESS))).
Proof.
  intros Hso Hb. unfold on_blocks. destruct (blk_read _ _ _) as [r1 d1] eqn:E. intros [= <- <-].
  apply law_read in E as [Hs Hr]; [|apply Hso|done]. split; [done|]. unfold addressed in Hr.
  pose proof (so_bytes s Hso). destruct Hr as [?|[[[[_ ?] _] ?]|[? ?]]]; [by left|by right; left|right; right].
  split; [lia|done].
Qed.

Lemma sound_block_length s b :
  Store_sound s → 0 ≤ b < blk_count (bs_device s) →
  byte_list (blk_view (bs_device s) b) ∧ length (blk_view (bs_device s) b) = Z.to_nat (Store_block_bytes s).
Proof.
  intros Hso Hb. destruct (law_view (bs_device s) b (so_device s Hso) Hb) as [? Hl]. split; [done|].
  rewrite (so_bytes s Hso) in Hl. lia.
Qed.

Lemma put_prefix P x (rest : list Z) :
  (length x ≤ length rest)%nat → put (P ++ rest) (length P) x = (P ++ x) ++ drop (length x) rest.
Proof. intros. unfold put. rewrite take_app_length, drop_app_add, (assoc_L (++)). done. Qed.

(** *** The blocks after the first *)
Section loop.
Context (s0 : Store D) (b : Z) (cb : nat).
Hypothesis Hso : Store_sound s0.
Hypothesis Hb : 1 ≤ b.

Let bb := Store_block_bytes s0.
Let count := blk_count (bs_device s0).
Let full (i : nat) := drop Header_BYTES (raw_of (blk_view (bs_device s0)) b i).
Let span := div_ceil (Z.of_nat Header_BYTES + Z.of_nat cb) bb.

(** What the first [i] blocks give of the content. *)
Let gathered (i : nat) := take cb (full i).

Lemma loop_geometry :
  68 ≤ bb ∧ 52 + Z.of_nat cb ≤ span * bb < 52 + Z.of_nat cb + bb ∧ count ≤ u64_max.
Proof.
  pose proof (sound_geometry s0 Hso) as (Hsb & Hpos & Hcount & _). fold bb count in Hsb, Hpos, Hcount.
  pose proof (div_ceil_spec (Z.of_nat Header_BYTES + Z.of_nat cb) bb ltac:(lia) Hpos) as Hd. fold span in Hd.
  unfold Superblock_BYTES, Header_BYTES in *. lia.
Qed.

Lemma full_length i : b + Z.of_nat i ≤ count → length (full i) = (i * Z.to_nat bb - 52)%nat.
Proof.
  intros Hi. unfold full. rewrite length_drop, raw_of_length by (apply Hso || (unfold count in Hi; lia)).
  by rewrite (so_bytes s0 Hso).
Qed.

Lemma gathered_length i : b + Z.of_nat i ≤ count → length (gathered i) = Nat.min cb (i * Z.to_nat bb - 52).
Proof. intros Hi. unfold gathered. by rewrite length_take, full_length. Qed.

Lemma gathered_next i :
  (1 ≤ i)%nat → b + Z.of_nat i < count → (length (gathered i) < cb)%nat →
  let taken := Nat.min (Z.to_nat bb) (cb - length (gathered i)) in
  let v := blk_view (bs_device s0) (b + Z.of_nat i) in
  gathered i ++ take taken v = gathered (S i) ∧ length (take taken v) = taken.
Proof.
  intros Hi Hn Hlt taken v. pose proof loop_geometry as (Hbb & _ & Hmax).
  destruct (sound_block_length s0 (b + Z.of_nat i) Hso) as [_ Hv]; [unfold count in Hn; lia|]. fold v bb in Hv.
  pose proof (gathered_length i ltac:(lia)) as Hg. pose proof (full_length i ltac:(lia)) as Hf.
  split; [|rewrite length_take; lia]. unfold gathered at 2, full. rewrite raw_of_S.
  rewrite drop_app_le.
  2:{ rewrite raw_of_length by (apply Hso || (unfold count in Hn; lia)). rewrite (so_bytes s0 Hso). fold bb.
      unfold Header_BYTES. nia. }
  fold (full i) v. rewrite take_app. f_equal. replace (length (full i)) with (length (gathered i)) by lia.
  unfold taken. destruct (decide (Z.to_nat bb ≤ cb - length (gathered i))%nat).
  - by rewrite Nat.min_l, !take_ge by lia.
  - by rewrite Nat.min_r by lia.
Qed.

(** The loop has not run past the record, and is done when it is at its end. *)
Lemma gathered_span i :
  (1 ≤ i)%nat → b + Z.of_nat i ≤ count → Z.of_nat i ≤ span →
  if decide (length (gathered i) < cb)%nat then Z.of_nat i < span
  else span = Z.of_nat i ∧ gathered i = claimed_bytes s0 b cb.
Proof.
  intros Hi Hn Hs. pose proof loop_geometry as (Hbb & Hd & _). pose proof (gathered_length i Hn) as Hg.
  case_decide; [nia|]. assert (E : span = Z.of_nat i) by nia. split; [done|].
  unfold claimed_bytes. fold bb. fold span. by rewrite E, Nat2Z.id.
Qed.

Lemma get_loop_spec fuel : ∀ s i rest r s' into',
  same_store s0 s → (1 ≤ i)%nat → b + Z.of_nat i ≤ count → Z.of_nat i ≤ span →
  (cb ≤ length (gathered i ++ rest))%nat → (cb - length (gathered i) ≤ fuel)%nat →
  get_loop fuel bb cb (length (gathered i)) (b + Z.of_nat i) (s, gathered i ++ rest) = (r, (s', into')) →
  same_store s0 s' ∧ length into' = length (gathered i ++ rest) ∧
  ((∃ e, r = Err e ∧ blk_read_fault e) ∨
   (count < b + span ∧ r = Err (Refused refusal_ADDRESS)) ∨
   (b + span ≤ count ∧ r = Ok tt ∧ into' = claimed_bytes s0 b cb ++ drop cb (gathered i ++ rest))).
Proof.
  pose proof loop_geometry as (Hbb & Hd & Hmax).
  induction fuel as [|fuel IH]; intros s i rest r s' into' Hs Hi Hn Hspan Hroom Hf E;
    pose proof (gathered_span i Hi Hn Hspan) as Hg; pose proof (gathered_length i Hn) as Hl;
    (case_decide as Hlt;
     [|destruct Hg as [Hg1 Hg2]; cbn [get_loop] in E; rewrite (proj2 (Nat.ltb_ge _ _)) in E by lia;
       injection E as <- <- <-; split_and!; [done|done|]; right; right; split_and!; [lia|done|];
       rewrite <- Hg2, drop_app_ge by lia; do 2 f_equal; by replace (cb - _)%nat with 0%nat by lia]).
  { lia. }
  cbn [get_loop] in E. rewrite (proj2 (Nat.ltb_lt _ _)) in E by done.
  pose proof (same_store_sound s0 s Hso Hs) as Hso'. destruct (id Hs) as ([(_ & _ & Ec) Ev] & Esb & _ & _).
  assert (Ebb : Store_block_bytes s = bb) by (unfold bb, Store_block_bytes; by rewrite Esb).
  unfold sm_bind at 1, on_store at 1 in E. destruct (on_blocks (A:=list Z) _ s) as [r1 s1] eqn:W.
  rewrite <- Ebb in W. apply on_blocks_read in W as [Hs1 R]; [|done|lia].
  rewrite Ec, !Ev in R. fold count in R. assert (Hs01 : same_store s0 s1) by by eapply same_store_trans.
  destruct R as [(e & -> & He)|[[Hlt' ->]|[Hge ->]]].
  - injection E as <- <- <-. split_and!; [done|done|]. left. by exists e.
  - destruct (gathered_next i Hi Hlt' Hlt) as [EP Hx]. rewrite length_app in Hroom.
    set (taken := Nat.min _ _) in *. set (v := blk_view _ _) in *.
    unfold sm_bind at 1, copy_into at 1 in E.
    rewrite Hx, (proj2 (Nat.ltb_ge _ _)), (proj2 (Z.ltb_ge _ _)) in E by (rewrite ?length_app; lia).
    rewrite put_prefix, EP, Hx in E by lia.
    replace (b + Z.of_nat i + 1) with (b + Z.of_nat (S i)) in E by lia.
    assert (El : length (gathered (S i)) = (length (gathered i) + taken)%nat) by (rewrite <- EP, length_app; lia).
    rewrite <- El in E. apply IH in E as (? & Elen & E); try done; try lia.
    2:{ rewrite length_app, length_drop. lia. }
    rewrite !length_app, length_drop in Elen. split_and!; [done|rewrite length_app; lia|].
    destruct E as [E|[E|(? & ? & ->)]]; [by left|by right; left|right; right].
    split_and!; [done|done|]. f_equal.
    rewrite !drop_app, !(drop_ge (gathered _)), El by lia. cbn [app]. rewrite drop_drop. f_equal. lia.
  - injection E as <- <- <-. split_and!; [done|done|]. right; left. split; [lia|done].
Qed.

Lemma claimed_length : b + span ≤ count → length (claimed_bytes s0 b cb) = cb.
Proof.
  intros Hn. pose proof loop_geometry as (Hbb & Hd & _). unfold claimed_bytes. fold bb. fold span.
  fold (full (Z.to_nat span)). rewrite length_take, full_length by nia. nia.
Qed.
End loop.

(** *** The calls *)
Lemma sound_located s h b : Store_sound s → bs_located s !! h = Some b → 1 ≤ b < blk_count (bs_device s).
Proof. intros Hso L. pose proof (so_free s Hso). apply (so_located s Hso) in L. lia. Qed.

Lemma header_in_valid block h hd :
  byte_list block → header_in block h = Ok hd → Header_valid hd ∧ hdr_hash hd = h ∧ (Header_BYTES ≤ length block)%nat.
Proof.
  intros Hb. unfold header_in. destruct (Nat.ltb_spec (length block) Header_BYTES) as [|Hl]; [done|].
  destruct (Header_from_bytes _) as [hd'|] eqn:E; rsimpl; [|done].
  apply codec_enc_dec in E as [_ Hv]; [|by apply Forall_take|rewrite length_take; lia].
  case_bool_decide; [|done]. by intros [= <-].
Qed.

Lemma Store_head_spec s h r s' :
  Store_sound s → Store_head h s = (r, s') →
  same_store s s' ∧
  ((∃ e, r = Err e ∧ blk_read_fault e) ∨
   r = match bs_located s !! h with
       | None => Err (Refused refusal_ADDRESS)
       | Some b => or_refuse (header_in (blk_view (bs_device s) b) h)
       end).
Proof.
  intros Hso. unfold Store_head. rsimpl. destruct (bs_located s !! h) as [b|] eqn:L; unfold option_or_refuse; unfold sm_bind; rsimpl.
  2:{ intros [= <- <-]. split; [by apply same_store_refl, Hso|by right]. }
  pose proof (sound_located s h b Hso L) as Hb.
  destruct (on_blocks (A:=list Z) _ s) as [r1 s1] eqn:W. apply on_blocks_read in W as [Hs R]; [|done|lia].
  destruct R as [(e & -> & He)|[[_ ->]|[? _]]]; [| |lia]; intros [= <- <-]; (split; [done|]); [left; by exists e|by right].
Qed.

(** What a [get] comes to when its block could be read. *)
Definition get_answer (s : Store D) (h : list Z) (into : list Z) (r : res fault Z) (into' : list Z) : Prop :=
  match bs_located s !! h with
  | None => r = Err (Refused refusal_ADDRESS)
  | Some b =>
      match header_in (blk_view (bs_device s) b) h with
      | Err e => r = Err (Refused e)
      | Ok hd =>
          let cb := Z.to_nat (hdr_content_bytes hd) in
          let c := claimed_bytes s b cb in
          if decide (length into < cb)%nat then r = Err (Refused refusal_SHORT_BUFFER)
          else if decide (blk_count (bs_device s) < b + header_span (Store_block_bytes s) hd)
          then r = Err (Refused refusal_ADDRESS)
          else into' = c ++ drop cb into ∧ length c = cb ∧
               r = if decide (sha256 c = h) then Ok (Z.of_nat cb) else Err (Refused refusal_CONTENT)
      end
  end.

Lemma get_first block cb bb (into : list Z) :
  length block = bb → (52 ≤ bb)%nat → (cb ≤ length into)%nat →
  let first := Nat.min (bb - Header_BYTES) cb in
  slice block Header_BYTES first = take cb (drop Header_BYTES block) ∧
  length (take cb (drop Header_BYTES block)) = first ∧
  put into 0 (take cb (drop Header_BYTES block)) = take cb (drop Header_BYTES block) ++ drop first into.
Proof.
  intros Hl Hbb Hc first. unfold Header_BYTES in *.
  assert (E : length (take cb (drop 52 block)) = first) by (rewrite length_take, length_drop; lia).
  split_and!; [|done|unfold put; cbn [take app]; by rewrite E].
  unfold slice, first. destruct (decide (cb ≤ bb - 52)%nat).
  - by rewrite Nat.min_r by lia.
  - rewrite Nat.min_l by lia. by rewrite !take_ge by (rewrite length_drop; lia).
Qed.

Lemma Store_get_spec s h into r s' into' :
  Store_sound s → Store_get h (s, into) = (r, (s', into')) →
  same_store s s' ∧ length into' = length into ∧
  ((∃ e, r = Err e ∧ blk_read_fault e) ∨ get_answer s h into r into').
Proof.
  intros Hso. unfold Store_get, get_answer. rsimpl.
  destruct (bs_located s !! h) as [b|] eqn:L; unfold option_or_refuse; unfold sm_bind; rsimpl.
  2:{ intros [= <- <- <-]. split_and!; [by apply same_store_refl, Hso|done|by right]. }
  pose proof (sound_located s h b Hso L) as Hb. pose proof (sound_geometry s Hso) as (Hroom & Hpos & Hcount & _).
  unfold on_store at 1. destruct (on_blocks (A:=list Z) _ s) as [r1 s1] eqn:W. apply on_blocks_read in W as [Hs R]; [|done|lia].
  destruct R as [(e & -> & He)|[[_ ->]|[? _]]]; [| |lia].
  { intros [= <- <- <-]. split_and!; [done|done|]. left. by exists e. }
  set (v := blk_view (bs_device s) b). destruct (sound_block_length s b Hso ltac:(lia)) as [Hvb Hvl]. fold v in Hvb, Hvl.
  rsimpl. fold v. destruct (header_in v h) as [hd|e] eqn:Eh; cbn [or_refuse]; rsimpl.
  2:{ intros [= <- <- <-]. split_and!; [done|done|by right]. }
  destruct (header_in_valid v h hd Hvb Eh) as ([_ _ Hcb _] & Hh & _).
  set (cb := Z.to_nat (hdr_content_bytes hd)).
  destruct (Z.ltb_spec (Z.of_nat (length into)) (hdr_content_bytes hd)) as [Hshort|Hfits].
  { intros [= <- <- <-]. split_and!; [done|done|]. right. by rewrite decide_True by lia. }
  rewrite (decide_False (P := (length into < cb)%nat)) by lia.
  unfold Superblock_BYTES in Hroom. fold cb.
  destruct (get_first v cb (Z.to_nat (Store_block_bytes s)) into Hvl ltac:(lia) ltac:(lia)) as (E1 & E2 & E3).
  rewrite E1. unfold copy_into at 1. rewrite E2, E3. rewrite (proj2 (Nat.ltb_ge _ _)) by lia. rsimpl.
  rewrite (proj2 (Z.ltb_ge _ _)) by lia.
  assert (Eg : take cb (drop Header_BYTES v) = take cb (drop Header_BYTES (raw_of (blk_view (bs_device s)) b 1))).
  { unfold raw_of. cbn [seq fmap list_fmap concat]. by rewrite app_nil_r, Z.add_0_r. }
  rewrite Eg in *. rewrite <- E2. change (b + 1) with (b + Z.of_nat 1).
  destruct (get_loop _ _ _ _ _ _) as [r2 [s2 into2]] eqn:G.
  assert (Hspan : header_span (Store_block_bytes s) hd = div_ceil (Z.of_nat Header_BYTES + Z.of_nat cb) (Store_block_bytes s))
    by (unfold header_span, cb; by rewrite Z2Nat.id by apply Hcb).
  pose proof (div_ceil_pos (Z.of_nat Header_BYTES + Z.of_nat cb) (Store_block_bytes s) ltac:(unfold Header_BYTES; lia) Hpos).
  apply (get_loop_spec s b cb Hso ltac:(lia)) in G as (Hs2 & El & G); try done; try lia.
  2:{ rewrite length_app, length_drop. lia. }
  rewrite length_app, length_drop, E2 in El. rewrite Hspan.
  destruct G as [(e & -> & He)|[[Hrun ->]|(Hin & -> & ->)]]; rsimpl.
  - intros [= <- <- <-]. split_and!; [done|lia|]. left. by exists e.
  - intros [= <- <- <-]. split_and!; [done|lia|]. right. by rewrite decide_True.
  - pose proof (claimed_length s b cb Hso ltac:(lia) Hin) as Hcl.
    rewrite take_app_le, take_ge, decide_False by lia.
    assert (Ed : drop cb (take cb (drop Header_BYTES (raw_of (blk_view (bs_device s)) b 1)) ++
                drop (length (take cb (drop Header_BYTES (raw_of (blk_view (bs_device s)) b 1)))) into) = drop cb into).
    { rewrite drop_app_ge, drop_drop by (rewrite E2; lia). f_equal. rewrite E2. lia. }
    rewrite Ed in *. case_bool_decide as Hd; [rewrite decide_True by done|rewrite decide_False by done];
      intros [= <- <- <-]; (split_and!; [done|rewrite length_app, Hcl, length_drop; lia|]); by right.
Qed.
End reads.

Section theorems.
Context {D : Type} `{DeviceLaws D}.

(** ** Reading what is held *)
Lemma holds_header s k c : holds s k c → Header_valid (blob_header k c).
Proof. intros Hh. apply blob_header_valid; apply Hh. Qed.

Lemma holds_claimed s k c b :
  Store_sound s → holds s k c → bs_located s !! sha256 c = Some b →
  header_in (blk_view (bs_device s) b) (sha256 c) = Ok (blob_header k c) ∧
  claimed_bytes s b (length c) = c ∧ b + blob_span s c ≤ blk_count (bs_device s).
Proof.
  intros Hso Hh L. pose proof (sound_geometry s Hso) as (Hroom & Hpos & Hcount & Hfree).
  pose proof (holds_header s k c Hh) as Hv. destruct (holds_located _ _ _ Hh) as (b' & L' & S & Hb & He).
  rewrite L in L'. injection L' as <-.
  assert (Hspan : 1 ≤ blob_span s c) by (apply div_ceil_pos; [unfold Header_BYTES|]; lia).
  destruct (sound_block_length s b Hso) as [_ Hl]; [lia|]. unfold Superblock_BYTES in Hroom.
  assert (Hf : take Header_BYTES (blk_view (bs_device s) b) = Header_to_bytes (blob_header k c)).
  { eapply raw_first_header; [exact Hv|reflexivity|exact Hpos|exact S|lia|unfold Header_BYTES; lia]. }
  destruct (put_record_header (Store_block_bytes s) _ c Hv eq_refl Hpos) as (E & _).
  split_and!; [| |lia].
  - unfold header_in. rewrite (proj2 (Nat.ltb_ge _ _)) by (unfold Header_BYTES; lia).
    rewrite Hf, codec_dec_enc by done. rsimpl. by rewrite bool_decide_true.
  - unfold claimed_bytes. fold (blob_span s c). unfold stands in S. rewrite S, E.
    pose proof (codec_size _ Hv) as Hh52. rewrite drop_app_ge, Hh52, Nat.sub_diag, drop_0 by lia.
    by rewrite take_app_le, take_ge by lia.
Qed.

Lemma get_holds s k c into r s' into' :
  Store_sound s → holds s k c → (length c ≤ length into)%nat → Store_get (sha256 c) (s, into) = (r, (s', into')) →
  same_store s s' ∧
  ((∃ e, r = Err e ∧ blk_read_fault e) ∨
   r = Ok (Z.of_nat (length c)) ∧ into' = c ++ drop (length c) into).
Proof.
  intros Hso Hh Hl E. apply Store_get_spec in E as (Hs & _ & E); [|done]. split; [done|].
  destruct E as [E|E]; [by left|right]. unfold get_answer in E.
  destruct (holds_located _ _ _ Hh) as (b & L & _). destruct (holds_claimed s k c b Hso Hh L) as (E1 & E2 & E3).
  rewrite L, E1 in E. cbn [hdr_content_bytes blob_header] in E. cbn zeta in E. rewrite Nat2Z.id, E2 in E.
  change (header_span (Store_block_bytes s) (blob_header k c)) with (blob_span s c) in E.
  rewrite !decide_False in E by lia. rewrite decide_True in E by done. by destruct E as (-> & _ & ->).
Qed.


(** C22 What was put is read back.  A put comes to one of five ends, and after any
    of them every content held before is held still, and a content newly put is
    held too; and a held content is read back, whole, into any buffer large
    enough, unless the device refuses a read. *)
Theorem blobs_kept s k c r s' :
  Store_wf s → fits s c → Store_put k c s = (r, s') →
  put_outcome s k c r s' ∧ Store_wf s' ∧
  ∀ k' c' into r2 s2 into2,
    holds s k' c' ∨ (r = Ok (sha256 c) ∧ bs_located s !! sha256 c = None ∧ k' = k ∧ c' = c) →
    (length c' ≤ length into)%nat → Store_get (sha256 c') (s', into) = (r2, (s2, into2)) →
    (∃ e, r2 = Err e ∧ blk_read_fault e) ∨
    (r2 = Ok (Z.of_nat (length c')) ∧ into2 = c' ++ drop (length c') into).
Proof.
  intros Hwf Hfit E. destruct (put_spec s k c r s' Hwf Hfit E) as (O & Hwf' & Hall).
  split_and!; [done|done|]. intros k' c' into r2 s2 into2 Hh Hl G.
  assert (Hh' : holds s' k' c').
  { destruct Hh as [Hh|(-> & Hnew & -> & ->)]; [by apply Hall|]. inversion O; try done; congruence. }
  by apply (get_holds s' k' c' into r2 s2 into2 (wf_sound s' Hwf') Hh' Hl) in G as [_ G].
Qed.

(** ** Formatting and mounting *)
Lemma chunker_of_this_build layout :
  refuse_a_chunker_that_moved layout = Ok tt ∨ refuse_a_chunker_that_moved layout = Err refusal_UNKNOWN.
Proof. unfold refuse_a_chunker_that_moved. destruct (_ || _); auto. Qed.

Lemma superblock_block sb bb :
  Superblock_valid sb → (Superblock_BYTES ≤ bb)%nat →
  let block := put (zeroed bb) 0 (Superblock_to_bytes sb) in
  length block = bb ∧ byte_list block ∧ Superblock_from_bytes (take Superblock_BYTES block) = Ok sb.
Proof.
  intros Hv Hb. pose proof (codec_size sb Hv) as Hl. pose proof (codec_bytes sb Hv) as Hbytes.
  assert (E : put (zeroed bb) 0 (Superblock_to_bytes sb) = Superblock_to_bytes sb ++ zeroed (bb - Superblock_BYTES)).
  { pose proof (put_next [] bb (Superblock_to_bytes sb)) as E. cbn [app length] in E. rewrite E by lia. by rewrite Hl. }
  cbn zeta. rewrite E. split_and!.
  - rewrite length_app, Hl. unfold zeroed. rewrite length_replicate. lia.
  - apply Forall_app. split; [done|]. apply Forall_replicate. done.
  - rewrite take_app_le, take_ge by lia. by apply codec_dec_enc.
Qed.

Lemma format_spec d layout s :
  blk_ok d → Superblock_valid layout → Store_format d layout = Ok s →
  Store_wf s ∧ bs_located s = ∅ ∧ bs_free s = 1 ∧ bs_superblock s = layout ∧ same_shape d (bs_device s).
Proof.
  intros Hd Hv. unfold Store_format, MIN_BLOCK_BYTES.
  destruct (Z.ltb_spec (sb_block_bytes layout) 512) as [|Hmin]; [done|].
  destruct (Z.eqb_spec (sb_block_bytes layout) (blk_bytes d)) as [Hbb|]; [|done]. cbn [orb negb].
  destruct (Z.ltb_spec (blk_count d) 2) as [|Hn]; [done|].
  destruct (chunker_of_this_build layout) as [Hck|Hck]; rewrite Hck; cbn [or_refuse res_bind]; [|done].
  destruct (superblock_block layout (Z.to_nat (sb_block_bytes layout)) Hv) as (Hl & Hb & Hs); [unfold Superblock_BYTES; lia|].
  set (block := put _ 0 _) in *. unfold sm_bind, on_blocks. cbn [bs_device].
  destruct (blk_write 0 block d) as [r1 d1] eqn:W. cbn [bs_device bs_superblock bs_free bs_located].
  apply law_write in W as [[_ (e & -> & _)]|[(_ & -> & Hs1 & Hview)|(_ & -> & _)]]; [done| |done|done|lia|done].
  destruct (blk_flush d1) as [r2 d2] eqn:F. apply law_flush in F as [[(Ho2 & Eb & Ec) Hv2] R]; [|apply Hs1].
  destruct R as [->|(e & -> & _)]; [|done]. intros [= <-]. cbn.
  destruct Hs1 as (_ & Eb1 & Ec1). split_and!; try done; [|split_and!; [done|congruence|congruence]].
  constructor; unfold Store_block_bytes; cbn; [done|congruence|unfold Superblock_BYTES; lia|lia| |done|].
  - rewrite Hv2, Hview by lia. by rewrite decide_True.
  - exists 1. split; [constructor|lia].
Qed.

(** The refusals a mount can come to, and that otherwise it stands. *)
Lemma store_mount_spec d :
  blk_ok d → (∀ e, ¬ blk_read_fault e) →
  match Store_mount d with
  | Ok s => Store_wf s ∧ same_blocks d (bs_device s)
  | Err f => f = Refused refusal_ADDRESS ∨ f = Refused refusal_MALFORMED ∨ f = Refused refusal_UNKNOWN
  end.
Proof.
  intros Hd Hcalm. unfold Store_mount. destruct (blk_read 0 _ d) as [r d1] eqn:R.
  apply law_read in R as [Hs1 R]; [|done|lia].
  destruct R as [(e & _ & He)|[([Hn _] & ->)|[_ ->]]]; [by apply Hcalm in He| |by left].
  destruct (law_view d 0 Hd Hn) as [Hvb Hvl].
  destruct (Nat.ltb_spec (length (blk_view d 0)) Superblock_BYTES) as [|Hlen]; [by right; left|].
  destruct (Superblock_from_bytes _) as [sb|e] eqn:Es; cbn [or_refuse res_bind].
  2:{ right. unfold Superblock_from_bytes, prologue in Es. repeat case_match; simplify_eq; rsimpl_in Es; simplify_eq; auto. }
  destruct (Z.eqb_spec (sb_block_bytes sb) (blk_bytes d)) as [Ebb|]; cbn [negb]; [|by right; left].
  destruct (chunker_of_this_build sb) as [Hck|Hck]; rewrite Hck; cbn [or_refuse res_bind]; [|by right; right].
  destruct (id Hs1) as [(Ho1 & Eb1 & Ec1) Ev1]. rewrite Ec1.
  destruct (scan_ends d Hcalm Hd ltac:(lia) (Z.to_nat (blk_count d)) d1 ∅ 1 1) as
    (d2 & l & free & at_ & -> & Hs2 & W & _); [done|constructor|lia|]. cbn [res_bind].
  destruct (law_shape d Hd) as [[_ Hmax] Hpos]. destruct (id Hs2) as [(Ho2 & Eb2 & Ec2) Ev2].
  pose proof W as W'. eapply walked_prefix in W' as (at' & W' & Ef); [|lia..].
  assert (Hcount : 1 ≤ blk_count d ≤ u64_max) by lia.
  split; [|done]. constructor; unfold Store_block_bytes; cbn; rewrite ?Eb2, ?Ec2, ?Ev2, ?Ebb; try done; [lia|lia|].
  exists at'. split; [|done]. apply (walked_same _ _ Hpos Hcount _ (blk_view d2)) in W'; [done|]. intros. apply Ev2.
Qed.

Lemma header_in_at block h hd : header_in block h = Ok hd → header_at block = Ok hd.
Proof.
  unfold header_in, header_at. destruct (_ <? _)%nat; [done|].
  destruct (Header_from_bytes _); rsimpl; [|done]. by case_bool_decide.
Qed.

(** A store that has located what another holds, over the same blocks. *)
Lemma holds_located_again s s' k c :
  Store_wf s → Store_wf s' → same_blocks (bs_device s) (bs_device s') → bs_superblock s' = bs_superblock s →
  (∀ h b, bs_located s !! h = Some b → bs_located s' !! h = Some b) → holds s k c → holds s' k c.
Proof.
  intros Hwf Hwf' [(_ & Eb & Ec) Ev] Esb Hsub Hh. destruct (holds_located _ _ _ Hh) as (b & L & S & Hb & _).
  destruct (holds_claimed s k c b (wf_sound s Hwf) Hh L) as (E1 & _ & E3). apply Hsub in L. apply header_in_at in E1.
  destruct (wf_walked s' Hwf') as (at_ & W & _). pose proof (wf_geometry s' Hwf') as (_ & Hpos & Hcount & Hfree).
  destruct (walked_located _ _ Hpos Hcount _ _ _ _ _ _ W L) as (hd & R & _ & _ & Hn).
  assert (Espan : blob_span s' c = blob_span s c) by (unfold blob_span, Store_block_bytes; by rewrite Esb).
  unfold record_in in R. rewrite Ev, E1 in R. rewrite (proj2 (Z.ltb_ge _ _)) in R by apply Hh. injection R as <-.
  change (header_span (Store_block_bytes s') (blob_header k c)) with (blob_span s' c) in Hn.
  constructor; [|apply Hh..]. exists b. unfold stands in *. unfold Store_block_bytes in *.
  rewrite Espan in *. rewrite Esb. split_and!; [done| |done|lia].
  rewrite <- S. apply raw_of_same. intros. apply Ev.
Qed.

End theorems.

(** ** A store on the device in memory *)
Definition ex_superblock : Superblock := superblock_for_this_build 512 4 4096 1 2.
Definition ex_device : Memory := mkMemory 512 (zeroed (Z.to_nat (512 * 16))) 0 0.

Lemma ex_device_ok : Memory_ok ex_device.
Proof. by apply (Memory_new_ok 512 16 ex_device). Qed.

Lemma ex_superblock_valid : Superblock_valid ex_superblock.
Proof.
  constructor; [done|done|..]; apply (bool_decide_unpack _); vm_compute; exact I.
Qed.

Definition ex_store : Store Memory :=
  match Store_format ex_device ex_superblock with Ok s => s | Err _ => mkStore ex_device ex_superblock 1 ∅ end.

Lemma ex_store_wf : Store_wf ex_store ∧ bs_located ex_store = ∅ ∧ bs_superblock ex_store = ex_superblock.
Proof.
  unfold ex_store. destruct (Store_format ex_device ex_superblock) as [s|f] eqn:E; [|by vm_compute in E].
  apply format_spec in E as (? & ? & _ & ? & _); [done|apply ex_device_ok|apply ex_superblock_valid].
Qed.

Lemma ex_store_fits c : byte_list c → Z.of_nat (length c) ≤ 2 ^ 32 → fits ex_store c.
Proof.
  intros Hc Hl. split; [done|]. unfold Store_block_bytes. destruct ex_store_wf as (_ & _ & ->).
  change (sb_block_bytes ex_superblock) with 512. unfold Header_BYTES, isize_max. lia.
Qed.


Lemma blobs_kept_witness :
  let '(r, s') := Store_put kind_CHUNK [1; 2; 3] ex_store in
  put_outcome ex_store kind_CHUNK [1; 2; 3] r s' ∧ Store_wf s'.
Proof.
  destruct (Store_put kind_CHUNK [1; 2; 3] ex_store) as [r s'] eqn:E.
  destruct (blobs_kept ex_store kind_CHUNK [1; 2; 3] r s') as (O & W & _).
  - apply ex_store_wf.
  - apply ex_store_fits; [|cbn; lia]. apply (bool_decide_unpack _). vm_compute. exact I.
  - exact E.
  - split; [exact O|exact W].
Defined.

