(* ===== verification/StoreObjects.v ===== *)
(** * Objects: chunked, stored, and put together again

    An object's blob names its chunks in order.  Putting one and getting it back
    is the identity as long as the names the store already knows stand for what
    they should; two examples at the end show the calls do not check it. *)

From S2P Require Import Prelude Abi Bytes StoreRecords StoreCodecs BlockDevice Sha256 Chunker ChunkerTheorems Store StoreFacts StoreTheorems.

(** ** The chunks of an object *)
Fixpoint sliced (bytes : list Z) (at_ : Z) (cuts : list Z) : list (list Z) :=
  match cuts with
  | [] => []
  | cut :: cuts => slice bytes (Z.to_nat at_) (Z.to_nat (cut - at_)) :: sliced bytes cut cuts
  end.

Definition object_chunks (bytes : list Z) : list (list Z) :=
  let '(cuts, c) := Chunker_feed Chunker_new bytes in
  sliced bytes 0 cuts ++
    (if 0 <? Chunker_finish c then [drop (Z.to_nat (default 0 (list.last cuts))) bytes] else []).

Definition object_record (bytes : list Z) : list Z :=
  object_content (Z.of_nat (length bytes)) (sha256 <$> object_chunks bytes).

Lemma spaced_last cuts : ∀ at_, spaced at_ cuts → at_ ≤ default at_ (list.last cuts).
Proof.
  induction cuts as [|cut cuts IH]; intros at_ Hs; [done|]. destruct Hs as [[? _] Hs].
  rewrite list.last_cons. specialize (IH _ Hs). unfold CHUNK_MIN_BYTES in *. destruct (list.last cuts); cbn in *; lia.
Qed.

Lemma sliced_spec bytes cuts : ∀ at_,
  0 ≤ at_ → spaced at_ cuts → default at_ (list.last cuts) ≤ Z.of_nat (length bytes) →
  concat (sliced bytes at_ cuts) ++ drop (Z.to_nat (default at_ (list.last cuts))) bytes = drop (Z.to_nat at_) bytes ∧
  Forall (λ c, c ≠ []) (sliced bytes at_ cuts).
Proof.
  induction cuts as [|cut cuts IH]; intros at_ Ha Hs Hl; cbn [sliced concat].
  { split; [done|constructor]. }
  destruct Hs as [[Hmin Hmax] Hs]. unfold CHUNK_MIN_BYTES in Hmin. pose proof (spaced_last cuts cut Hs) as Hle.
  rewrite list.last_cons in *.
  replace (default at_ (match list.last cuts with Some y => Some y | None => Some cut end))
    with (default cut (list.last cuts)) in * by by destruct (list.last cuts).
  destruct (IH cut ltac:(lia) Hs Hl) as [E F]. split.
  - rewrite <- (assoc_L (++)), E. unfold slice.
    replace (Z.to_nat cut) with (Z.to_nat at_ + Z.to_nat (cut - at_))%nat by lia.
    by rewrite <- drop_drop, take_drop.
  - constructor; [|done]. intros En. apply (f_equal length) in En. rewrite length_slice in En by lia. cbn in En. lia.
Qed.

Lemma feed_cuts bytes :
  let '(cuts, c) := Chunker_feed Chunker_new bytes in
  spaced 0 cuts ∧ Chunker_finish c = Z.of_nat (length bytes) - default 0 (list.last cuts) ∧ 0 ≤ Chunker_finish c.
Proof.
  unfold Chunker_feed. pose proof (Cuts_from_spaced bytes Chunker_new 0 Chunker_new_ok) as S.
  pose proof (Cuts_from_ok bytes Chunker_new 0 Chunker_new_ok) as Hok.
  destruct (Cuts_from Chunker_new 0 bytes) as [cuts c]. cbn [snd] in Hok. destruct S as [Hs Hl]. cbn [ck_since_cut Chunker_new] in *.
  split_and!; [done|done|apply Hok].
Qed.

Lemma object_chunks_spec bytes :
  concat (object_chunks bytes) = bytes ∧ Forall (λ c, c ≠ []) (object_chunks bytes).
Proof.
  unfold object_chunks. pose proof (feed_cuts bytes) as S. destruct (Chunker_feed Chunker_new bytes) as [cuts c].
  destruct S as (Hs & Hf & Hpos). pose proof (spaced_last cuts 0 Hs) as Hl0. destruct (sliced_spec bytes cuts 0 ltac:(lia) Hs ltac:(lia)) as [E F].
  rewrite drop_0 in E. destruct (Z.ltb_spec 0 (Chunker_finish c)) as [Hlt|Hge].
  - rewrite concat_app. cbn [concat]. rewrite app_nil_r. split; [done|]. apply Forall_app. split; [done|].
    constructor; [|constructor]. intros En. apply (f_equal length) in En. rewrite length_drop in En. cbn in En. lia.
  - rewrite app_nil_r. split; [|done]. rewrite drop_ge, app_nil_r in E by lia. done.
Qed.

Lemma concat_nonempty (X : list (list Z)) : Forall (λ c, c ≠ []) X → (length X ≤ length (concat X))%nat.
Proof.
  induction 1 as [|c X Hc _ IH]; [done|]. cbn [length concat]. rewrite length_app. destruct c; [done|]. cbn. lia.
Qed.

Lemma object_chunks_length bytes : (length (object_chunks bytes) ≤ length bytes)%nat.
Proof.
  destruct (object_chunks_spec bytes) as [E F]. rewrite <- E at 2. by apply concat_nonempty.
Qed.

Lemma object_chunks_elem bytes c :
  c ∈ object_chunks bytes → (length c ≤ length bytes)%nat ∧ (byte_list bytes → byte_list c).
Proof.
  intros Hin. destruct (object_chunks_spec bytes) as [E _].
  apply list_elem_of_split in Hin as (l1 & l2 & El). rewrite El, concat_app in E. cbn [concat] in E.
  rewrite <- E. rewrite !length_app. split; [lia|]. intros Hb. apply Forall_app in Hb as [_ Hb].
  by apply Forall_app in Hb as [Hb _].
Qed.

(** ** The object's own blob *)
Lemma object_head_valid bytes :
  Z.of_nat (length bytes) ≤ u64_max → Z.of_nat (length (object_chunks bytes)) ≤ CHUNKS_MAX →
  ObjectHead_valid (mkObjectHead (Z.of_nat (length bytes)) (Z.of_nat (length (object_chunks bytes)))).
Proof.
  intros Hb Hc. destruct (object_chunks_spec bytes) as [E F]. pose proof (concat_nonempty _ F) as Hl. rewrite E in Hl.
  unfold ObjectHead_valid, head_valid. cbn [oh_object_bytes oh_chunks]. unfold is_uint, u64_max in *.
  split; [lia|]. split; [lia|]. destruct (object_chunks bytes) eqn:Ex; [by rewrite <- E|cbn in Hl |- *; lia].
Qed.

Lemma concat_hashes (X : list (list Z)) : length (concat (sha256 <$> X)) = (length X * 32)%nat.
Proof.
  induction X as [|x X IH]; [done|]. cbn [fmap list_fmap concat length]. rewrite length_app, IH.
  destruct (sha256_digest x) as [_ ->]. lia.
Qed.

Lemma slice_hash (X : list (list Z)) i x :
  X !! i = Some x → slice (concat (sha256 <$> X)) (i * 32) 32 = sha256 x.
Proof.
  intros Hx. rewrite <- (take_drop_middle X i x Hx), fmap_app, concat_app. cbn [fmap list_fmap concat].
  assert (El : length (concat (sha256 <$> take i X)) = (i * 32)%nat).
  { rewrite concat_hashes, length_take. apply lookup_lt_Some in Hx. lia. }
  rewrite <- El. destruct (sha256_digest x) as [_ Hd]. rewrite <- Hd. apply slice_app.
Qed.

Lemma object_record_spec bytes :
  Z.of_nat (length bytes) ≤ u64_max → Z.of_nat (length (object_chunks bytes)) ≤ CHUNKS_MAX →
  let X := object_chunks bytes in
  let head := mkObjectHead (Z.of_nat (length bytes)) (Z.of_nat (length X)) in
  object_record bytes = ObjectHead_to_bytes head ++ concat (sha256 <$> X) ∧
  length (ObjectHead_to_bytes head) = 12%nat ∧ length (object_record bytes) = (12 + length X * 32)%nat ∧
  byte_list (object_record bytes) ∧ ObjectHead_from_bytes (take 12 (object_record bytes)) = Ok head ∧
  ∀ i x, X !! i = Some x → slice (object_record bytes) (12 + i * 32) 32 = sha256 x.
Proof.
  intros Hb Hc X head. pose proof (object_head_valid bytes Hb Hc) as Hv. fold X head in Hv.
  pose proof (codec_size head Hv) as Hl. change ObjectHead_HEAD_BYTES with 12%nat in Hl.
  assert (E : object_record bytes = ObjectHead_to_bytes head ++ concat (sha256 <$> X)).
  { unfold object_record, object_content. by rewrite length_fmap. }
  rewrite E. split_and!; [done|done| | | |].
  - rewrite length_app, concat_hashes. lia.
  - apply Forall_app. split; [by apply codec_bytes|]. apply Forall_concat, list.Forall_fmap, list.Forall_true.
    intros x. apply sha256_digest.
  - rewrite take_app_le, take_ge by lia. by apply codec_dec_enc.
  - intros i x Hx. rewrite <- (slice_hash X i x Hx). unfold slice.
    replace (12 + i * 32)%nat with (length (ObjectHead_to_bytes head) + i * 32)%nat by lia. by rewrite drop_app_add.
Qed.

(** ** Putting an object *)
Section object.
Context {D : Type} `{DeviceLaws D}.
Context (bytes : list Z).
Let X := object_chunks bytes.
Let rec := object_record bytes.

(** No two of the contents in play share a digest. *)
Hypothesis Hinj : ∀ x y, x ∈ rec :: X → y ∈ rec :: X → sha256 x = sha256 y → x = y.
Hypothesis Hrec : rec ∉ X.

(** What the store has located of them is what they are. *)
Record ready (s : Store D) : Prop := {
  rd_wf : Store_wf s;
  rd_bytes : byte_list bytes;
  rd_fits : 64 + Z.of_nat (length bytes) * 32 + Store_block_bytes s ≤ isize_max;
  rd_chunks : ∀ x b, x ∈ X → bs_located s !! sha256 x = Some b → ∃ k, holds s k x;
  rd_record : ∀ b, bs_located s !! sha256 rec = Some b → holds s kind_OBJECT rec;
}.

Lemma ready_fits s x : ready s → x ∈ X → fits s x.
Proof.
  intros R Hx. destruct (object_chunks_elem bytes x Hx) as [Hl Hb]. pose proof (rd_fits s R).
  split; [by apply Hb, (rd_bytes s R)|]. unfold Header_BYTES. lia.
Qed.

Lemma ready_fits_record s : ready s → Z.of_nat (length X) ≤ CHUNKS_MAX → fits s rec.
Proof.
  intros R Hc. pose proof (rd_fits s R). pose proof isize_below. pose proof (wf_geometry s (rd_wf s R)) as (_ & ? & _).
  pose proof (object_chunks_length bytes) as Hl.
  destruct (object_record_spec bytes) as (_ & _ & Hrl & Hrb & _); [lia|done|].
  split; [done|]. fold rec X in Hrl. unfold X in *. rewrite Hrl. unfold Header_BYTES. lia.
Qed.

Definition refusal_of_put (f : fault) : Prop :=
  f = Refused refusal_FULL ∨ f = Refused refusal_UNKNOWN ∧ CHUNKS_MAX < Z.of_nat (length X) ∨ blk_write_fault f.

(** One put of the call: everything stays ready, and what is put is held. *)
Lemma put_ready s k x r s' :
  ready s → fits s x → (k = kind_CHUNK ∧ x ∈ X ∨ k = kind_OBJECT ∧ x = rec) → Store_put k x s = (r, s') →
  ready s' ∧ (∀ k' c', holds s k' c' → holds s' k' c') ∧
  ((∃ f, r = Err f ∧ refusal_of_put f) ∨
   r = Ok (sha256 x) ∧ ∃ k', holds s' k' x ∧ (x = rec → k' = kind_OBJECT)).
Proof.
  intros R Hf Hx E. destruct (put_spec s k x r s' (rd_wf s R) Hf E) as (O & Hwf' & Hall).
  assert (Hin : x ∈ rec :: X) by (destruct Hx as [[_ ?]|[_ ->]]; [by apply list_elem_of_further|apply list_elem_of_here]).
  assert (Hknown : kind_known k = true) by (destruct Hx as [[-> _]|[-> _]]; done).
  assert (Hkeep : ready s' ∨ (bs_located s !! sha256 x = None ∧ ∃ b, bs_located s' = <[sha256 x := b]> (bs_located s) ∧
                    bs_superblock s' = bs_superblock s ∧ holds s' k x)).
  { inversion O; subst; try (by left); [left|right; split; [done|by exists (bs_free s)]].
    destruct R as [? ? ? Hc Hr]. constructor; try done; cbn.
    - intros y b Hy L. destruct (Hc y b Hy L) as [k' Hk]. exists k'. by apply Hall.
    - intros b L. by apply Hall, (Hr b). }
  assert (R' : ready s').
  { destruct Hkeep as [|(Hnew & b & El & Es & Hh)]; [done|]. destruct R as [? ? ? Hc Hr].
    constructor; [done|done|unfold Store_block_bytes in *; by rewrite Es| |].
    - intros y b' Hy L. rewrite El in L. destruct (decide (sha256 x = sha256 y)) as [Ey|Hne].
      + apply Hinj in Ey as <-; [by exists k|done|by apply list_elem_of_further].
      + rewrite lookup_insert_ne in L by done. destruct (Hc y b' Hy L) as [k' Hk]. exists k'. by apply Hall.
    - intros b' L. rewrite El in L. destruct (decide (sha256 x = sha256 rec)) as [Ey|Hne].
      + apply Hinj in Ey as ->; [|done|apply list_elem_of_here]. by destruct Hx as [[_ ?]|[-> _]].
      + rewrite lookup_insert_ne in L by done. by apply Hall, (Hr b'). }
  split_and!; [done|done|]. inversion O; subst; try congruence.
  - right. split; [done|]. destruct (decide (x = rec)) as [->|Hne].
    + exists kind_OBJECT. split; [|done]. by eapply rd_record.
    + destruct Hx as [[_ Hx]|[_ ?]]; [|done]. destruct (rd_chunks s' R' x b Hx) as [k' Hk]; [done|]. by exists k'.
  - left. eexists. split; [done|]. by left.
  - left. eexists. split; [done|]. by right; right.
  - right. split; [done|]. exists k. split; [done|]. intros ->. by destruct Hx as [[_ ?]|[-> _]].
Qed.

Lemma slice_or_panic_ok from to :
  0 ≤ from ≤ to → to ≤ Z.of_nat (length bytes) →
  slice_or_panic bytes from to = Ok (slice bytes (Z.to_nat from) (Z.to_nat (to - from))).
Proof.
  intros Hf Ht. unfold slice_or_panic. destruct (Z.ltb_spec from 0), (Z.ltb_spec to from), (Z.ltb_spec (Z.of_nat (length bytes)) to);
    done || lia.
Qed.

Lemma put_cuts_spec cuts : ∀ at_ s r s',
  ready s → 0 ≤ at_ → spaced at_ cuts → default at_ (list.last cuts) ≤ Z.of_nat (length bytes) →
  (∀ x, x ∈ sliced bytes at_ cuts → x ∈ X) → put_cuts bytes at_ cuts s = (r, s') →
  ready s' ∧ (∀ k' c', holds s k' c' → holds s' k' c') ∧
  ((∃ f, r = Err f ∧ refusal_of_put f) ∨
   r = Ok (sha256 <$> sliced bytes at_ cuts, default at_ (list.last cuts)) ∧
   ∀ x, x ∈ sliced bytes at_ cuts → ∃ k, holds s' k x).
Proof.
  induction cuts as [|cut cuts IH]; intros at_ s r s' R Ha Hs Hl Hin E; cbn [put_cuts sliced] in *.
  { injection E as <- <-. split_and!; [done|done|right]. split; [done|]. intros x Hx. by apply elem_of_nil in Hx. }
  destruct Hs as [[Hmin _] Hs]. unfold CHUNK_MIN_BYTES in Hmin. pose proof (spaced_last cuts cut Hs) as Hle.
  rewrite list.last_cons in Hl |- *.
  assert (El : default at_ (match list.last cuts with Some y => Some y | None => Some cut end) =
               default cut (list.last cuts)) by by destruct (list.last cuts).
  rewrite El in *. unfold sm_bind at 1, sm_lift at 1 in E. rewrite slice_or_panic_ok in E by lia.
  set (x := slice bytes _ _) in *. assert (Hx : x ∈ X) by (apply Hin, list_elem_of_here).
  unfold sm_bind at 1 in E. destruct (Store_put _ _ s) as [r1 s1] eqn:P.
  apply put_ready in P as (R1 & Hall & P); [|done|by apply ready_fits|by left].
  destruct P as [(f & -> & Hf)|(-> & k1 & Hk1 & _)].
  { injection E as <- <-. split_and!; [done|done|]. left. by exists f. }
  unfold sm_bind at 1 in E. destruct (put_cuts bytes cut cuts s1) as [r2 s2] eqn:Q.
  apply IH in Q as (R2 & Hall2 & Q); [|done|lia|done|lia|by intros; apply Hin, list_elem_of_further].
  destruct Q as [(f & -> & Hf)|(-> & Hc)]; injection E as <- <-.
  { split_and!; [done|by intros; apply Hall2, Hall|]. left. by exists f. }
  split_and!; [done|by intros; apply Hall2, Hall|right]. split; [done|].
  intros y Hy. apply elem_of_cons in Hy as [->|Hy]; [|by apply Hc]. exists k1. by apply Hall2.
Qed.

(** The chunk the content did not end. *)
Definition put_tail (at_ tail : Z) (hashes : list (list Z)) : sm (Store D) fault (list (list Z)) :=
  if 0 <? tail then
    do! chunk <- sm_lift (slice_or_panic bytes at_ (Z.of_nat (length bytes)));
    do! hash <- Store_put kind_CHUNK chunk;
    sm_ret (hashes ++ [hash])
  else sm_ret hashes.

Lemma put_tail_spec at_ tail chunks s r s' :
  ready s → 0 ≤ at_ ≤ Z.of_nat (length bytes) → (∀ x, x ∈ chunks → ∃ k, holds s k x) →
  X = chunks ++ (if 0 <? tail then [drop (Z.to_nat at_) bytes] else []) →
  put_tail at_ tail (sha256 <$> chunks) s = (r, s') →
  ready s' ∧ (∀ k' c', holds s k' c' → holds s' k' c') ∧
  ((∃ f, r = Err f ∧ refusal_of_put f) ∨ r = Ok (sha256 <$> X) ∧ ∀ x, x ∈ X → ∃ k, holds s' k x).
Proof.
  intros R Ha Hc EX. unfold put_tail. destruct (0 <? tail).
  2:{ rewrite app_nil_r in EX. rewrite EX. intros [= <- <-]. split_and!; [done|done|by right]. }
  unfold sm_bind, sm_lift. rewrite slice_or_panic_ok by lia.
  assert (Et : slice bytes (Z.to_nat at_) (Z.to_nat (Z.of_nat (length bytes) - at_)) = drop (Z.to_nat at_) bytes).
  { unfold slice. apply take_ge. rewrite length_drop. lia. }
  rewrite Et. set (x := drop _ bytes) in *.
  assert (Hx : x ∈ X) by (rewrite EX; apply elem_of_app; right; apply list_elem_of_here).
  destruct (Store_put kind_CHUNK x s) as [r1 s1] eqn:Q.
  apply put_ready in Q as (R1 & Hall & Q); [|done|by apply ready_fits|by left].
  destruct Q as [(f & -> & Hf)|(-> & k & Hk & _)]; intros [= <- <-].
  { split_and!; [done|done|]. left. by exists f. }
  split_and!; [done|done|right]. rewrite EX, fmap_app. split; [done|]. intros y Hy.
  apply elem_of_app in Hy as [Hy|Hy]; [destruct (Hc y Hy) as [k' Hk']; exists k'; by apply Hall|].
  apply list_elem_of_singleton in Hy as ->. by exists k.
Qed.

Lemma put_object_spec s r s' :
  ready s → Store_put_object bytes s = (r, s') →
  Store_wf s' ∧ (∀ k' c', holds s k' c' → holds s' k' c') ∧
  ((∃ f, r = Err f ∧ refusal_of_put f) ∨
   r = Ok (sha256 rec) ∧ Z.of_nat (length X) ≤ CHUNKS_MAX ∧ holds s' kind_OBJECT rec ∧
   ∀ x, x ∈ X → ∃ k, holds s' k x).
Proof.
  intros R E. unfold Store_put_object in E. pose proof (feed_cuts bytes) as S.
  assert (EX : X = object_chunks bytes) by done. unfold object_chunks in EX.
  destruct (Chunker_feed Chunker_new bytes) as [cuts ck]. destruct S as (Hs & Hfin & Hpos).
  pose proof (spaced_last cuts 0 Hs) as Hl0.
  unfold sm_bind at 1 in E. destruct (put_cuts bytes 0 cuts s) as [r1 s1] eqn:P.
  apply put_cuts_spec in P as (R1 & Hall & P); [|done|lia|done|lia|intros; rewrite EX; apply elem_of_app; by left].
  destruct P as [(f & -> & Hf)|(-> & Hc)].
  { injection E as <- <-. split_and!; [apply R1|done|]. left. by exists f. }
  unfold sm_bind at 1 in E.
  fold (put_tail (default 0 (list.last cuts)) (Chunker_finish ck) (sha256 <$> sliced bytes 0 cuts)) in E.
  destruct (put_tail _ _ _ s1) as [r2 s2] eqn:Q.
  apply put_tail_spec in Q as (R2 & Hall2 & Q); [|done|lia|done|done].
  destruct Q as [(f & -> & Hf)|(-> & Hc2)].
  { injection E as <- <-. split_and!; [apply R2|by intros; apply Hall2, Hall|]. left. by exists f. }
  rewrite length_fmap in E. destruct (Z.ltb_spec CHUNKS_MAX (Z.of_nat (length X))) as [Hmany|Hfew].
  { injection E as <- <-. split_and!; [apply R2|by intros; apply Hall2, Hall|]. left. eexists. split; [done|]. by right; left. }
  change (object_content (Z.of_nat (length bytes)) (sha256 <$> X)) with rec in E.
  apply put_ready in E as (R3 & Hall3 & E); [|done|by apply ready_fits_record|by right].
  split_and!; [apply R3|by intros; apply Hall3, Hall2, Hall|].
  destruct E as [E|(-> & k & Hk & Hkr)]; [by left|right]. rewrite (Hkr eq_refl) in Hk. split_and!; try done.
  intros x Hx. destruct (Hc2 x Hx) as [k' Hk']. exists k'. by apply Hall3.
Qed.

(** ** Getting it back *)
Lemma on_slice_get s done_ P rest x r s' into' :
  Store_wf s → done_ = length P → (done_ + length x ≤ length bytes)%nat → (length bytes ≤ length (P ++ rest))%nat →
  (∃ k, holds s k x) → on_slice done_ (length bytes) (Store_get (sha256 x)) (s, P ++ rest) = (r, (s', into')) →
  same_store s s' ∧
  ((∃ e, r = Err e ∧ blk_read_fault e) ∨ r = Ok (Z.of_nat (length x)) ∧ into' = (P ++ x) ++ drop (length x) rest).
Proof.
  intros Hwf -> Hx Hl [k Hk] E. unfold on_slice in E. rewrite length_app in Hl.
  destruct (Nat.ltb_spec (length bytes) (length P)); [lia|].
  destruct (Nat.ltb_spec (length (P ++ rest)) (length bytes)) as [Hlt|_]; [rewrite length_app in Hlt; lia|]. cbn [orb] in E.
  destruct (Store_get _ _) as [r1 [s1 part]] eqn:G. injection E as <- <- <-.
  set (m := (length bytes - length P)%nat) in *.
  assert (Ep : slice (P ++ rest) (length P) m = take m rest) by (unfold slice; by rewrite drop_app_length).
  rewrite Ep in G. apply (get_holds s k x) in G as [Hs G]; [|done|done|rewrite length_take; lia].
  split; [done|]. destruct G as [G|[-> ->]]; [by left|right]. split; [done|].
  rewrite put_prefix by (rewrite length_app, length_drop, length_take; lia).
  rewrite <- !(assoc_L (++)). do 2 f_equal.
  rewrite length_app, length_drop, length_take, Nat.min_l by lia.
  replace (length x + (m - length x))%nat with m by lia.
  rewrite <- (take_drop m rest) at 3. rewrite (drop_app_le (take m rest)) by (rewrite length_take; lia). done.
Qed.

Lemma get_chunks_spec n : ∀ i s rest r s' into',
  Z.of_nat (length bytes) ≤ u64_max → Z.of_nat (length X) ≤ CHUNKS_MAX →
  Store_wf s → (∀ x, x ∈ X → ∃ k, holds s k x) → (i + n = length X)%nat →
  (length bytes ≤ length (concat (take i X) ++ rest))%nat →
  get_chunks (seq i n) rec (length bytes) (length (concat (take i X))) (s, concat (take i X) ++ rest) = (r, (s', into')) →
  same_store s s' ∧
  ((∃ e, r = Err e ∧ blk_read_fault e) ∨
   r = Ok (length bytes) ∧ into' = bytes ++ drop (length bytes) (concat (take i X) ++ rest)).
Proof.
  pose proof (object_chunks_spec bytes) as [EX _]. fold X in EX.
  induction n as [|n IH]; intros i s rest r s' into' Hb Hm Hwf Hh Hn Hl E; cbn [seq get_chunks] in E.
  { injection E as <- <- <-. rewrite take_ge, EX by lia. split; [by apply same_store_refl, Hwf|]. right. split; [done|].
    by rewrite drop_app_length. }
  destruct (lookup_lt_is_Some_2 X i) as [x Hx]; [lia|].
  destruct (object_record_spec bytes Hb Hm) as (_ & _ & Hrl & _ & _ & Hslice). fold rec X in Hrl, Hslice.
  unfold sm_bind at 1, sm_lift at 1, slice_or_panic in E. change ObjectHead_HEAD_BYTES with 12%nat in E.
  destruct (Z.ltb_spec (Z.of_nat (12 + i * 32)) 0), (Z.ltb_spec (Z.of_nat (12 + i * 32) + 32) (Z.of_nat (12 + i * 32))),
    (Z.ltb_spec (Z.of_nat (length rec)) (Z.of_nat (12 + i * 32) + 32)); try lia. cbn [orb] in E.
  rewrite Nat2Z.id in E. replace (Z.to_nat (_ + 32 - _)) with 32%nat in E by lia. rewrite (Hslice i x Hx) in E.
  assert (ET : concat (take (S i) X) = concat (take i X) ++ x).
  { rewrite (take_S_r _ _ _ Hx), concat_app. cbn. by rewrite app_nil_r. }
  assert (Hfit : (length (concat (take i X)) + length x ≤ length bytes)%nat).
  { rewrite <- length_app, <- ET, <- EX. rewrite <- (take_drop (S i) X) at 2. rewrite concat_app, length_app. lia. }
  unfold sm_bind at 1 in E. destruct (on_slice _ _ _ _) as [r1 [s1 into1]] eqn:G.
  apply on_slice_get in G as [Hs G]; [|done|done|done|done|by apply Hh, (list_elem_of_lookup_2 _ i)].
  destruct G as [(e & -> & He)|[-> ->]].
  { injection E as <- <- <-. split; [done|]. left. by exists e. }
  rewrite Nat2Z.id, <- length_app, <- ET in E.
  apply IH in E as [Hs1 E]; [|done|done|by eapply same_store_wf| |lia|].
  - split; [by eapply same_store_trans|]. destruct E as [E|[-> ->]]; [by left|right]. split; [done|]. f_equal.
    rewrite ET, <- (assoc_L (++)), !drop_app. rewrite !(drop_ge (concat _)), drop_ge by lia. cbn [app].
    rewrite drop_drop. f_equal. lia.
  - intros y Hy. destruct (Hh y Hy) as [k Hk]. exists k. by eapply same_store_holds.
  - rewrite ET. rewrite !length_app in *. rewrite length_drop. lia.
Qed.

Lemma get_object_spec s into r s' into' :
  Z.of_nat (length bytes) ≤ u64_max → Z.of_nat (length X) ≤ CHUNKS_MAX →
  Store_wf s → holds s kind_OBJECT rec → (∀ x, x ∈ X → ∃ k, holds s k x) → (length bytes ≤ length into)%nat →
  Store_get_object (sha256 rec) (s, into) = (r, (s', into')) →
  (∃ e, r = Err e ∧ blk_read_fault e) ∨
  r = Ok (Z.of_nat (length bytes)) ∧ into' = bytes ++ drop (length bytes) into.
Proof.
  intros Hb Hm Hwf Hh HX Hl E. unfold Store_get_object in E.
  destruct (object_record_spec bytes Hb Hm) as (Erec & Hhl & Hrl & _ & Hdec & _). fold rec X in Erec, Hhl, Hrl, Hdec.
  set (head := mkObjectHead _ _) in *.
  unfold sm_bind at 1, on_store at 1 in E. destruct (Store_head (sha256 rec) s) as [r1 s1] eqn:G1.
  apply Store_head_spec in G1 as [Hs1 G1]; [|done]. destruct G1 as [(e & -> & He)| ->].
  { injection E as <- <- <-. left. by exists e. }
  destruct (holds_located _ _ _ Hh) as (b & L & _). destruct (holds_claimed s _ _ b (wf_sound s Hwf) Hh L) as (Eh & _ & _).
  rewrite L, Eh in E. cbn [or_refuse hdr_kind blob_header hdr_content_bytes] in E. rewrite Z.eqb_refl in E. cbn [negb] in E.
  pose proof (same_store_wf s s1 Hwf Hs1) as Hwf1. pose proof (same_store_holds s s1 _ _ Hs1 Hh) as Hh1.
  unfold sm_bind at 1, on_store at 1, with_buffer in E. rewrite Nat2Z.id in E.
  rewrite (proj2 (Z.ltb_ge _ _)) in E by (rewrite Hrl; change CHUNKS_MAX with (2 ^ 20) in Hm; unfold isize_max; fold X; lia).
  destruct (Store_get (sha256 rec) (s1, _)) as [r2 [s2 content]] eqn:G2.
  apply (get_holds s1 kind_OBJECT rec) in G2 as [Hs2 G2]; [|done|done|by unfold zeroed; rewrite length_replicate].
  destruct G2 as [(e & -> & He)|[-> ->]].
  { injection E as <- <- <-. left. by exists e. }
  unfold zeroed in E. rewrite drop_ge, app_nil_r in E by by rewrite length_replicate.
  change ObjectHead_HEAD_BYTES with 12%nat in E. rewrite (proj2 (Nat.ltb_ge _ _)) in E by lia.
  unfold sm_bind at 1, sm_lift at 1 in E. rewrite Hdec in E. cbn [or_refuse] in E.
  unfold ObjectHead_bytes in E. cbn [oh_chunks oh_object_bytes head] in E. change ObjectHead_HEAD_BYTES with 12%nat in E.
  rewrite (proj2 (Z.eqb_eq _ _)) in E by lia. cbn [negb] in E.
  unfold sm_bind at 1, sm_get at 1 in E. rewrite (proj2 (Z.ltb_ge _ _)) in E by lia.
  unfold sm_bind at 1 in E. rewrite !Nat2Z.id in E. destruct (get_chunks _ _ _ _ _) as [r3 [s3 into3]] eqn:G3.
  assert (Hs02 : same_store s s2) by by eapply same_store_trans.
  apply (get_chunks_spec (length X) 0 s2 into) in G3 as [_ G3]; [|done|done|by eapply same_store_wf| |done|done].
  2:{ intros y Hy. destruct (HX y Hy) as [k Hk]. exists k. by eapply same_store_holds. }
  destruct G3 as [(e & -> & He)|[-> ->]].
  { injection E as <- <- <-. left. by exists e. }
  rewrite Nat.eqb_refl in E. injection E as <- <- <-. by right.
Qed.
End object.

(** C24 Objects round-trip.  Putting an object answers the digest of its own blob
    or refuses (full, more than [CHUNKS_MAX] chunks, or the device); afterwards
    every content held before is held still, and the object is read back whole
    into any buffer large enough, unless the device refuses a read.  Asked of
    the store: that what it has located under the object's own names are those
    contents ([ready]), no two of which share a digest. *)
Theorem objects_round_trip {D} `{DeviceLaws D} bytes (s : Store D) r s' :
  (∀ x y, x ∈ object_record bytes :: object_chunks bytes → y ∈ object_record bytes :: object_chunks bytes →
     sha256 x = sha256 y → x = y) →
  object_record bytes ∉ object_chunks bytes → ready bytes s →
  Store_put_object bytes s = (r, s') →
  Store_wf s' ∧ (∀ k c, holds s k c → holds s' k c) ∧
  ((∃ f, r = Err f ∧ refusal_of_put bytes f) ∨
   r = Ok (sha256 (object_record bytes)) ∧
   ∀ into r2 s2 into2, (length bytes ≤ length into)%nat →
     Store_get_object (sha256 (object_record bytes)) (s', into) = (r2, (s2, into2)) →
     (∃ e, r2 = Err e ∧ blk_read_fault e) ∨
     (r2 = Ok (Z.of_nat (length bytes)) ∧ into2 = bytes ++ drop (length bytes) into)).
Proof.
  intros Hinj Hrec R E. pose proof (rd_fits _ _ R) as Hf. pose proof isize_below. pose proof (wf_geometry s (rd_wf _ _ R)) as (_ & Hpos & _).
  apply (put_object_spec bytes Hinj Hrec) in E as (Hwf' & Hall & E); [|done]. split_and!; [done|done|].
  destruct E as [E|(-> & Hm & Hh & HX)]; [by left|right]. split; [done|].
  intros into r2 s2 into2 Hl G. apply (get_object_spec bytes) in G; try done. lia.
Qed.

Lemma two_apart {A B} (f : A → B) a b :
  a ≠ b → f a ≠ f b → (∀ x y, x ∈ [a; b] → y ∈ [a; b] → f x = f y → x = y) ∧ a ∉ [b].
Proof.
  intros Hab Hf. split.
  - intros x y Hx Hy E. apply elem_of_cons in Hx as [->|Hx%list_elem_of_singleton];
      apply elem_of_cons in Hy as [->|Hy%list_elem_of_singleton]; subst; done.
  - by intros ?%list_elem_of_singleton.
Qed.

Lemma ex_object_chunks : object_chunks [1; 2; 3] = [[1; 2; 3]].
Proof. vm_compute. reflexivity. Qed.

Lemma ex_object_ready : ready [1; 2; 3] ex_store.
Proof.
  destruct ex_store_wf as (Hwf & Hl & Hsb). constructor; [done| | | |].
  - apply (bool_decide_unpack _). vm_compute. exact I.
  - unfold Store_block_bytes. rewrite Hsb. change (sb_block_bytes ex_superblock) with 512. unfold isize_max. cbn. lia.
  - intros x b _. by rewrite Hl, lookup_empty.
  - intros b. by rewrite Hl, lookup_empty.
Qed.

Lemma ex_object_apart :
  object_record [1; 2; 3] ≠ [1; 2; 3] ∧ sha256 (object_record [1; 2; 3]) ≠ sha256 [1; 2; 3].
Proof. split; apply (bool_decide_unpack _); vm_compute; exact I. Qed.

Lemma objects_round_trip_witness :
  let '(r, s') := Store_put_object [1; 2; 3] ex_store in
  Store_wf s' ∧ (∀ k c, holds ex_store k c → holds s' k c).
Proof.
  destruct (Store_put_object [1; 2; 3] ex_store) as [r s'] eqn:E. destruct ex_object_apart as [A1 A2].
  destruct (two_apart sha256 _ _ A1 A2) as [Hinj Hni].
  destruct (objects_round_trip [1; 2; 3] ex_store r s') as (W & K & _).
  - rewrite ex_object_chunks. exact Hinj.
  - rewrite ex_object_chunks. exact Hni.
  - apply ex_object_ready.
  - exact E.
  - split; [exact W|exact K].
Defined.

(** ** What the calls do not check *)

(** An object the store acknowledges and cannot give back: its record is the
    content of another file, put first, so the name is known as a chunk's. *)
Definition put_then_put_get (first second : list Z) (s : Store Memory) :
    res fault (list Z) * res fault (list Z) * res fault Z :=
  let '(r1, s) := Store_put_object first s in
  let '(r2, s) := Store_put_object second s in
  (r1, r2, (Store_get_object (sha256 (object_record second)) (s, zeroed 8)).1).

Example object_name_taken :
  put_then_put_get (object_record [1]) [1] ex_store =
    (Ok (sha256 (object_record (object_record [1]))), Ok (sha256 (object_record [1])), Err (Refused refusal_UNKNOWN)).
Proof. vm_compute. reflexivity. Qed.

(** A record whose header reached the device and whose content did not: mount
    locates it, a put of the content is acknowledged and writes nothing, and the
    content cannot be read. *)
Definition torn_content : list Z := replicate 600 7.

Definition put_tear_put_get (content : list Z) (torn_at : Z) (s : Store Memory) :
    option (res fault (list Z) * bool * res fault Z) :=
  let '(_, s) := Store_put kind_CHUNK content s in
  match Store_mount (Memory_flip torn_at (bs_device s)).2 with
  | Err _ => None
  | Ok s =>
      let '(r, s') := Store_put kind_CHUNK content s in
      Some (r, mem_writes (bs_device s') =? mem_writes (bs_device s),
            (Store_get (sha256 content) (s', zeroed (length content))).1)
  end.

Example torn_record_stays_torn :
  put_tear_put_get torn_content (2 * 512 + 10) ex_store = Some (Ok (sha256 torn_content), true, Err (Refused refusal_CONTENT)).
Proof. vm_compute. reflexivity. Qed.
