(* ===== verification/ZoneStore.v ===== *)
(** * A mapping is a block device: [impl Device for ZoneMap], [zone/src/map.rs]

    The store is written over [Device]; the mapping over a zoned device is one,
    and keeps what the trait promises of blocks it has: a block is what it
    holds, or nothing yet, and a refusal changes nothing. *)

From S2P Require Import Prelude Abi Bytes BTree StoreRecords BlockDevice ZoneDevice ZoneMap ZoneMapFacts ZoneOps.

#[global] Instance ZoneMap_device {D} `{Zoned D} : Device (ZoneMap D) := {
  blk_bytes m := block_bytes (zm_device m);
  blk_count := ZoneMap_blocks;
  blk_read := ZoneMap_read;
  blk_write := ZoneMap_write;
  blk_flush := ZoneMap_flush;
}.

Section laws.
Context {D : Type} `{HL : ZonedLaws D}.
Implicit Types (m : ZoneMap D).

(** A mapping a store can stand on. *)
Record Mapped_ok m : Prop := {
  mp_map : Map_ok m;
  mp_block : 0 < block_bytes (zm_device m);
  mp_count : ZoneMap_blocks m ≤ u64_max;
  mp_range : ∀ l, is_Some (zm_physical m !! l) → 0 ≤ l < ZoneMap_blocks m;
  mp_bytes : ∀ l x, contents m l = Some x → byte_list x;
}.

Definition Mapped_view m (l : Z) : list Z :=
  default (zeroed (Z.to_nat (block_bytes (zm_device m)))) (contents m l).

(** Calls that keep the geometry and add at most the block they write. *)
Definition framed (l : Z) m m' : Prop :=
  same_geometry (zm_device m) (zm_device m') ∧ ZoneMap_blocks m' = ZoneMap_blocks m ∧
  ∀ l', is_Some (zm_physical m' !! l') → l' = l ∨ is_Some (zm_physical m !! l').

Lemma framed_geometry l m d' : same_geometry (zm_device m) d' → framed l m (with_device d' m).
Proof.
  intros Hg. split_and!; [done| |by right]. unfold ZoneMap_blocks. cbn. by destruct Hg as (_ & -> & _).
Qed.

Lemma quiet_framed l m m' : quiet m m' → framed l m m'.
Proof.
  intros Q. destruct (q_geometry _ _ Q) as (Hb & Hc & Hz & Hk). split_and!; [by split_and!| |].
  - unfold ZoneMap_blocks. by rewrite Hc, (q_from _ _ Q), (q_zb _ _ Q).
  - intros l'. rewrite (q_physical _ _ Q). by right.
Qed.

Lemma write_frame m l x r m' : Map_ok m → ZoneMap_write l x m = (r, m') → framed l m m'.
Proof.
  intros Hm. unfold ZoneMap_write. destruct (zm_physical m !! l) as [b|] eqn:P.
  - destruct (zm_zone_blocks m =? 0); [intros [= <- <-]; apply quiet_framed, quiet_refl|].
    destruct (u32_max <? _); [intros [= <- <-]; apply quiet_framed, quiet_refl|].
    case_bool_decide; [intros [= <- <-]; apply quiet_framed, quiet_refl|].
    unfold on_device. destruct (dev_write b x (zm_device m)) as [r1 d1] eqn:E. intros [= <- <-].
    apply framed_geometry. destruct (mo_zb m Hm) as [Hzb Hzb0]. rewrite Hzb in Hzb0.
    assert (Hb : 0 ≤ b).
    { destruct (mo_home m Hm l b P) as [->|Hi]; [done|]. pose proof (in_data_pos m b Hm Hi). lia. }
    destruct (law_write _ _ _ _ _ (mo_dev m Hm) Hzb0 Hb E)
      as [[_ (_ & Hg & _)]|[[_ (_ & Hg & _)]|(_ & _ & _ & Hg & _)]]; exact Hg.
  - unfold sm_bind. destruct (append_somewhere x m) as [r1 m1] eqn:E1.
    destruct (append_somewhere_settled m x r1 m1 Hm E1) as [(_ & Q & _) _].
    destruct r1 as [at_|e]; intros [= <- <-]; [|by apply quiet_framed].
    destruct (quiet_framed l m m1 Q) as (Hg & Hc & Hp). split_and!; [done|done|].
    intros l' [b Hb]. cbn in Hb. destruct (decide (l' = l)) as [->|]; [by left|].
    rewrite lookup_insert_ne in Hb by done. apply Hp. eauto.
Qed.

Lemma framed_ok l m m' :
  Mapped_ok m → 0 ≤ l < ZoneMap_blocks m → Map_ok m' → framed l m m' →
  (∀ l' x, contents m' l' = Some x → byte_list x) → Mapped_ok m'.
Proof.
  intros [_ Hb Hc Hr _] Hl Hm' (Hg & En & Hp) Hx. constructor; [done|by destruct Hg as [-> _]|lia| |done].
  intros l' Hl'. rewrite En. destruct (Hp l' Hl') as [->|?]; [done|by apply Hr].
Qed.

Lemma Mapped_zero m : Mapped_ok m → 0 ≤ 0 < ZoneMap_blocks m.
Proof.
  intros [Hm _ _ _ _]. pose proof (mo_from m Hm). destruct (mo_zb m Hm). unfold ZoneMap_blocks. nia.
Qed.

Lemma contents_length m l x : Map_ok m → contents m l = Some x → Z.of_nat (length x) = block_bytes (zm_device m).
Proof.
  intros Hm. unfold contents. destruct (zm_physical m !! l) as [b|]; [|done]. cbn. apply law_block, Hm.
Qed.

Definition no_panic (f : fault) : Prop := ∃ code, f = Refused code.

Definition Mapped_same m m' : Prop :=
  (Mapped_ok m' ∧ block_bytes (zm_device m') = block_bytes (zm_device m) ∧ ZoneMap_blocks m' = ZoneMap_blocks m) ∧
  ∀ l, Mapped_view m' l = Mapped_view m l.

Lemma framed_same l m m' :
  Mapped_ok m → 0 ≤ l < ZoneMap_blocks m → Map_ok m' → framed l m m' → (∀ l', contents m' l' = contents m l') →
  Mapped_same m m'.
Proof.
  intros Hok Hl Hm' Hf Hc. pose proof Hf as ((Hb & _) & En & _). split; [split_and!; [|done|done]|].
  - apply (framed_ok l m); try done. intros l' x. rewrite Hc. by apply mp_bytes.
  - intros l'. unfold Mapped_view. by rewrite Hc, Hb.
Qed.

Lemma quiet_same m m' : Mapped_ok m → Map_ok m' → quiet m m' → Mapped_same m m'.
Proof.
  intros Hok Hm' Q. apply (framed_same 0); [done|by apply Mapped_zero|done|by apply quiet_framed|].
  intros l. apply quiet_contents; [apply Hok|done].
Qed.

Lemma Mapped_read m l len r m' :
  Mapped_ok m → 0 ≤ l → ZoneMap_read l len m = (r, m') →
  Mapped_same m m' ∧
  ((∃ e, r = Err e ∧ no_panic e) ∨
   ((0 ≤ l < ZoneMap_blocks m ∧ len = block_bytes (zm_device m)) ∧ r = Ok (Mapped_view m l))).
Proof.
  intros Hok Hl E. pose proof (mp_map m Hok) as Hm. destruct (read_spec m l len r m' Hm E) as [(Hm' & Q & _) _].
  split; [by apply quiet_same|]. unfold ZoneMap_read in E. unfold Mapped_view, contents.
  destruct (zm_physical m !! l) as [b|] eqn:P.
  2:{ injection E as <- <-. left. eexists. split; [done|by eexists]. }
  unfold on_device in E. destruct (dev_read b len (zm_device m)) as [r1 d1] eqn:E1. injection E as <- <-.
  assert (Hb : 0 ≤ b).
  { destruct (mo_home m Hm l b P) as [->|Hi]; [done|]. pose proof (in_data_pos m b Hm Hi). lia. }
  destruct (law_read _ _ _ _ _ (mo_dev m Hm) Hb E1) as [_ [(e & -> & _)| ->]].
  { left. eexists. split; [done|by eexists]. }
  cbn. destruct (view_block (zm_device m) b) as [x|]; [|left; eexists; split; [done|by eexists]].
  destruct (Z.eqb_spec len (block_bytes (zm_device m))); [right|left; eexists; split; [done|by eexists]].
  split; [|done]. split; [apply (mp_range m Hok); eauto|done].
Qed.

Lemma Mapped_write m l x r m' :
  Mapped_ok m → 0 ≤ l < ZoneMap_blocks m → byte_list x → ZoneMap_write l x m = (r, m') →
  (Mapped_same m m' ∧ ∃ e, r = Err e ∧ no_panic e) ∨
  (Z.of_nat (length x) = block_bytes (zm_device m) ∧ r = Ok tt ∧
   (Mapped_ok m' ∧ block_bytes (zm_device m') = block_bytes (zm_device m) ∧ ZoneMap_blocks m' = ZoneMap_blocks m) ∧
   ∀ l', Mapped_view m' l' = if decide (l' = l) then x else Mapped_view m l').
Proof.
  intros Hok Hl Hx E. pose proof (mp_map m Hok) as Hm. pose proof (write_frame m l x r m' Hm E) as Hf.
  destruct (write_spec m l x r m' Hm E) as (Hp & Hm' & Hc). destruct r as [[]|e].
  - right. destruct Hc as [_ Hc]. pose proof Hf as ((Hb & _) & En & _). split_and!; [|done| |done|done|].
    + rewrite <- Hb. apply (contents_length m' l); [done|]. by rewrite Hc, Z.eqb_refl.
    + apply (framed_ok l m); try done. intros l' y. rewrite Hc. destruct (l' =? l); [by intros [= <-]|by apply mp_bytes].
    + intros l'. unfold Mapped_view. rewrite Hc, Hb. case_decide as Hd.
      * subst. by rewrite Z.eqb_refl.
      * by rewrite (proj2 (Z.eqb_neq _ _)).
  - left. split; [by apply (framed_same l)|]. exists e. split; [done|]. destruct e; [by eexists|done].
Qed.
End laws.

#[global] Program Instance ZoneMap_laws {D} `{HL : ZonedLaws D} : DeviceLaws (ZoneMap D) := {
  blk_ok := Mapped_ok;
  blk_read_fault := no_panic;
  blk_write_fault := no_panic;
  blk_view := Mapped_view;
}.
Next Obligation.
  intros D ?? m Hok. cbn. pose proof (Mapped_zero m Hok). pose proof (mp_count m Hok). split; [lia|apply Hok].
Qed.
Next Obligation.
  intros D ?? m l Hok Hl. cbn. unfold Mapped_view. destruct (contents m l) as [x|] eqn:C; cbn.
  - split; [by eapply mp_bytes|apply (contents_length m l); [apply Hok|done]].
  - split; [apply Forall_replicate; done|]. unfold zeroed. rewrite length_replicate. pose proof (mp_block m Hok). lia.
Qed.
Next Obligation.
  intros D ?? m l len r m' Hok Hl E. cbn in *. apply Mapped_read in E as [Hs Hr]; [|done|done].
  split; [exact Hs|]. destruct Hr as [Hr|Hr]; [by left|by right; left].
Qed.
Next Obligation.
  intros D ?? m l x r m' Hok Hl Hx E. cbn in *. apply Mapped_write in E as [E|(Hlen & -> & Hs & Hv)]; [by left| |done..].
  right; left. split_and!; [apply Hl|apply Hl|done|done|apply Hs..|]. intros l' _. apply Hv.
Qed.
Next Obligation.
  intros D ?? m r m' Hok E. cbn in *. unfold ZoneMap_flush, on_device in E.
  destruct (dev_flush (zm_device m)) as [r1 d1] eqn:F. injection E as <- <-.
  destruct (law_flush _ _ _ (mo_dev m (mp_map m Hok)) F) as [Hs Hr].
  pose proof (same_view_quiet m d1 Hs) as Q. pose proof (same_view_ok m d1 (mp_map m Hok) Hs) as Hm'.
  split; [by apply quiet_same|]. destruct Hr as [(e & -> & _)| ->]; [right|by left]. eexists. split; [done|by eexists].
Qed.
