(* ===== verification/Mark.v ===== *)
(** * The mark: [zone/src/mark.rs]

    The walk from the roots: a record read a step, the blocks it occupies set
    in the bitmap, and an object's chunks put on the work list.  A step changes
    the mark and reads through the store, so the state of a call is both. *)

From S2P Require Import Prelude Abi Bytes BTree StoreRecords BlockDevice Store ZoneDevice ZoneMap ZoneStore Roots.
From stdpp Require Import sorting.
#[local] Open Scope Z_scope.

(** * The mark bitmap: [zone/src/mark.rs], [Bitmap]

    One bit for every block of the device, in 64-bit words.  A block past the
    end is always set and never marked. *)

Record Bitmap : Type := mkBitmap {
  bm_words : list Z;
  bm_bits : Z;
}.

(** [u64::div_ceil] by the width of a word. *)
Definition words_for (bits : Z) : Z := (bits + 63) / 64.

Definition Bitmap_new (bits : Z) : Bitmap := mkBitmap (replicate (Z.to_nat (words_for bits)) 0) bits.

Definition Bitmap_set (at_ : Z) : sm Bitmap fault bool := λ b,
  if bm_bits b <=? at_ then (Ok true, b)
  else
    match index_or_panic (bm_words b) (at_ / 64) with
    | Err e => (Err e, b)
    | Ok word =>
        let bit := Z.shiftl 1 (at_ mod 64) in
        (Ok (negb (Z.land word bit =? 0)),
         mkBitmap (<[Z.to_nat (at_ / 64) := Z.lor word bit]> (bm_words b)) (bm_bits b))
    end.

Definition Bitmap_get (b : Bitmap) (at_ : Z) : res fault bool :=
  if bm_bits b <=? at_ then Ok false
  else
    let? word := index_or_panic (bm_words b) (at_ / 64) in
    Ok (negb (Z.land word (Z.shiftl 1 (at_ mod 64)) =? 0)).

Definition Bitmap_clear (b : Bitmap) : Bitmap := mkBitmap ((λ _, 0) <$> bm_words b) (bm_bits b).

(** [(from..to).any(..)] stops at the first block that is set. *)
Fixpoint any_loop (n : nat) (at_ : Z) (b : Bitmap) : res fault bool :=
  match n with
  | O => Ok false
  | S n => let? set := Bitmap_get b at_ in if set : bool then Ok true else any_loop n (at_ + 1) b
  end.

Definition Bitmap_any (b : Bitmap) (from to : Z) : res fault bool :=
  any_loop (Z.to_nat (Z.min to (bm_bits b) - from)) from b.

Definition count_ones (word : Z) : Z := Z.of_nat (length (filter (λ i, Z.testbit word (Z.of_nat i) = true) (seq 0 64))).

Definition Bitmap_count (b : Bitmap) : Z := foldr Z.add 0 (count_ones <$> bm_words b).

(** ** What a bitmap says of a block *)
Definition Bitmap_ok (b : Bitmap) : Prop := 0 ≤ bm_bits b ∧ length (bm_words b) = Z.to_nat (words_for (bm_bits b)).

Definition is_set (b : Bitmap) (at_ : Z) : bool :=
  (0 <=? at_) && (at_ <? bm_bits b) &&
  Z.testbit (default 0 (bm_words b !! Z.to_nat (at_ / 64))) (at_ mod 64).

Lemma word_index bits at_ : 0 ≤ at_ < bits → 0 ≤ at_ / 64 < words_for bits ∧ 0 ≤ at_ mod 64 < 64.
Proof. unfold words_for. intros H. pose proof (Z.div_mod at_ 64). pose proof (Z.mod_pos_bound at_ 64).
  split; [|lia]. split; [apply Z.div_pos; lia|]. apply Z.div_lt_upper_bound; [lia|].
  pose proof (Z.div_mod (bits + 63) 64). pose proof (Z.mod_pos_bound (bits + 63) 64). lia.
Qed.

Lemma word_at b at_ :
  Bitmap_ok b → 0 ≤ at_ < bm_bits b →
  ∃ word, bm_words b !! Z.to_nat (at_ / 64) = Some word ∧ index_or_panic (bm_words b) (at_ / 64) = Ok word.
Proof.
  intros [Hb Hl] Ha. destruct (word_index _ _ Ha) as [Hi _].
  destruct (lookup_lt_is_Some_2 (bm_words b) (Z.to_nat (at_ / 64))) as [word L]; [lia|].
  exists word. split; [done|]. unfold index_or_panic.
  by rewrite (proj2 (Z.ltb_ge _ _)), L by lia.
Qed.

(** A bit of a word, by the mask of the bit. *)
Lemma land_bit word k : 0 ≤ k → negb (Z.land word (Z.shiftl 1 k) =? 0) = Z.testbit word k.
Proof.
  intros Hk. rewrite Z.shiftl_1_l. destruct (Z.testbit word k) eqn:T.
  - apply negb_true_iff, Z.eqb_neq. intros E. apply (f_equal (λ x, Z.testbit x k)) in E.
    rewrite Z.land_spec, T, Z.pow2_bits_true, Z.bits_0 in E by done. done.
  - apply negb_false_iff, Z.eqb_eq. apply Z.bits_inj'. intros n Hn. rewrite Z.land_spec, Z.bits_0.
    destruct (decide (n = k)) as [->|]; [by rewrite T|]. by rewrite Z.pow2_bits_false, andb_false_r by done.
Qed.

Lemma Bitmap_new_ok bits : 0 ≤ bits → Bitmap_ok (Bitmap_new bits) ∧ ∀ at_, is_set (Bitmap_new bits) at_ = false.
Proof.
  intros Hb. split; [split; [done|apply length_replicate]|]. intros at_. unfold is_set. cbn.
  destruct (replicate (Z.to_nat (words_for bits)) 0 !! Z.to_nat (at_ / 64)) as [w|] eqn:L; cbn.
  - apply lookup_replicate in L as [-> _]. by rewrite Z.bits_0, andb_false_r.
  - by rewrite Z.bits_0, andb_false_r.
Qed.

Lemma Bitmap_clear_ok b : Bitmap_ok b → Bitmap_ok (Bitmap_clear b) ∧ ∀ at_, is_set (Bitmap_clear b) at_ = false.
Proof.
  intros [Hb Hl]. split; [split; [done|cbn; by rewrite length_fmap]|]. intros at_. unfold is_set. cbn.
  rewrite list_lookup_fmap. destruct (bm_words b !! Z.to_nat (at_ / 64)); cbn; by rewrite Z.bits_0, andb_false_r.
Qed.

(** A set: what it answers, and that it sets that block and no other. *)
Lemma Bitmap_set_spec b at_ r b' :
  Bitmap_ok b → 0 ≤ at_ → Bitmap_set at_ b = (r, b') →
  Bitmap_ok b' ∧ bm_bits b' = bm_bits b ∧
  (bm_bits b ≤ at_ ∧ r = Ok true ∧ b' = b ∨
   at_ < bm_bits b ∧ r = Ok (is_set b at_) ∧ ∀ k, is_set b' k = (k =? at_) || is_set b k).
Proof.
  intros Hok Ha. unfold Bitmap_set. destruct (Z.leb_spec (bm_bits b) at_) as [|Hlt].
  { intros [= <- <-]. split_and!; [done|done|by left]. }
  destruct (word_at b at_ Hok ltac:(lia)) as (word & L & ->). destruct (word_index (bm_bits b) at_ ltac:(lia)) as [Hi Hm].
  rewrite land_bit by lia. intros [= <- <-]. destruct Hok as [Hb Hl].
  split_and!; [split; [done|cbn; by rewrite length_insert]|done|right]. split; [done|].
  assert (Eat : is_set b at_ = Z.testbit word (at_ mod 64)).
  { unfold is_set. rewrite L, (proj2 (Z.leb_le 0 at_)), (proj2 (Z.ltb_lt at_ _)) by lia. done. }
  split; [by rewrite Eat|]. intros k. unfold is_set. cbn [bm_bits bm_words].
  destruct (Z.leb_spec 0 k) as [Hk|Hk]; [|by rewrite (proj2 (Z.eqb_neq k at_)) by lia].
  destruct (Z.ltb_spec k (bm_bits b)) as [Hkb|]; [|by rewrite (proj2 (Z.eqb_neq k at_)) by lia]. cbn [andb].
  destruct (word_index (bm_bits b) k ltac:(lia)) as [Hik Hmk].
  destruct (decide (k / 64 = at_ / 64)) as [E|Hne].
  - rewrite E, list_lookup_insert_eq, L by (apply lookup_lt_Some in L; lia). cbn [default from_option id].
    rewrite Z.lor_spec, Z.shiftl_1_l. destruct (Z.eqb_spec k at_) as [->|Hn]; cbn [orb].
    + by rewrite Z.pow2_bits_true, orb_true_r by lia.
    + rewrite Z.pow2_bits_false, orb_false_r; [done|]. intros Em. apply Hn.
      pose proof (Z.div_mod k 64). pose proof (Z.div_mod at_ 64). lia.
  - rewrite list_lookup_insert_ne by lia. destruct (Z.eqb_spec k at_) as [->|]; [done|]. done.
Qed.

Lemma Bitmap_get_spec b at_ : Bitmap_ok b → 0 ≤ at_ → Bitmap_get b at_ = Ok (is_set b at_).
Proof.
  intros Hok Ha. unfold Bitmap_get, is_set. rewrite (proj2 (Z.leb_le 0 at_)) by done.
  destruct (Z.leb_spec (bm_bits b) at_) as [|Hlt]; [by rewrite (proj2 (Z.ltb_ge at_ _))|].
  rewrite (proj2 (Z.ltb_lt at_ _)) by done. destruct (word_at b at_ Hok ltac:(lia)) as (word & L & ->). rsimpl.
  destruct (word_index (bm_bits b) at_ ltac:(lia)) as [_ Hm]. by rewrite land_bit, L by lia.
Qed.

Lemma any_loop_spec b n : ∀ from,
  Bitmap_ok b → 0 ≤ from →
  ∃ r, any_loop n from b = Ok r ∧ (r = true ↔ ∃ at_, from ≤ at_ < from + Z.of_nat n ∧ is_set b at_ = true).
Proof.
  induction n as [|n IH]; intros from Hok Hf; cbn [any_loop].
  { exists false. split; [done|]. split; [done|]. intros (? & ? & _). lia. }
  rewrite Bitmap_get_spec by done. rsimpl. destruct (is_set b from) eqn:Es.
  - exists true. split; [done|]. split; [|done]. intros _. exists from. split; [lia|done].
  - destruct (IH (from + 1) Hok ltac:(lia)) as (r & E & Hr). exists r. split; [done|]. rewrite Hr.
    split; intros (at_ & Ha & Hs); exists at_; (split; [|done]); [lia|].
    destruct (decide (at_ = from)) as [->|]; [congruence|lia].
Qed.

Lemma Bitmap_any_spec b from to :
  Bitmap_ok b → 0 ≤ from →
  ∃ r, Bitmap_any b from to = Ok r ∧ (r = true ↔ ∃ at_, from ≤ at_ < to ∧ is_set b at_ = true).
Proof.
  intros Hok Hf. unfold Bitmap_any.
  destruct (any_loop_spec b (Z.to_nat (Z.min to (bm_bits b) - from)) from Hok Hf) as (r & E & Hr).
  exists r. split; [done|]. rewrite Hr. split; intros (at_ & Ha & Hs); exists at_; (split; [|done]); [lia|].
  assert (at_ < bm_bits b) by (unfold is_set in Hs; lia). lia.
Qed.

(** [BTreeSet] walks: integers ascending, digests as byte strings ascending. *)
Definition set_list (X : gset Z) : list Z := merge_sort Z.le (elements X).

Fixpoint bytes_leb (a b : list Z) : bool :=
  match a, b with
  | [], _ => true
  | _ :: _, [] => false
  | x :: a, y :: b => (x <? y) || ((x =? y) && bytes_leb a b)
  end.
Definition bytes_le (a b : list Z) : Prop := bytes_leb a b = true.

#[global] Instance bytes_le_dec : RelDecision bytes_le.
Proof. intros a b. unfold bytes_le. apply _. Defined.

Definition hash_list (X : gset (list Z)) : list (list Z) := merge_sort bytes_le (elements X).

(** [+=] on a [u64], which stops the program on overflow. *)
Definition add_u64 (a b : Z) : res fault Z := if u64_max <? a + b then Err Panicked else Ok (a + b).

Record Extent : Type := mkExtent {
  ex_start : Z;
  ex_blocks : Z;
  ex_hash : list Z;
}.

(** [pending] is a stack: its top is the head of the list. *)
Record Mark : Type := mkMark {
  mk_bits : Bitmap;
  mk_roots : gset (list Z);
  mk_live : gmap Z Extent;
  mk_live_bytes : gmap Z Z;
  mk_pending : list (list Z);
  mk_seen : gset (list Z);
  mk_unresolved : Z;
  mk_reads : Z;
}.

Definition Mark_new (blocks : Z) : Mark := mkMark (Bitmap_new blocks) ∅ ∅ ∅ [] ∅ 0 0.

(** Setters. *)
Definition mk_with_bits (b : Bitmap) (k : Mark) : Mark :=
  mkMark b (mk_roots k) (mk_live k) (mk_live_bytes k) (mk_pending k) (mk_seen k) (mk_unresolved k) (mk_reads k).
Definition mk_with_roots (r : gset (list Z)) (k : Mark) : Mark :=
  mkMark (mk_bits k) r (mk_live k) (mk_live_bytes k) (mk_pending k) (mk_seen k) (mk_unresolved k) (mk_reads k).
Definition mk_with_live (l : gmap Z Extent) (k : Mark) : Mark :=
  mkMark (mk_bits k) (mk_roots k) l (mk_live_bytes k) (mk_pending k) (mk_seen k) (mk_unresolved k) (mk_reads k).
Definition mk_with_live_bytes (l : gmap Z Z) (k : Mark) : Mark :=
  mkMark (mk_bits k) (mk_roots k) (mk_live k) l (mk_pending k) (mk_seen k) (mk_unresolved k) (mk_reads k).
Definition mk_with_pending (p : list (list Z)) (k : Mark) : Mark :=
  mkMark (mk_bits k) (mk_roots k) (mk_live k) (mk_live_bytes k) p (mk_seen k) (mk_unresolved k) (mk_reads k).
Definition mk_with_seen (s : gset (list Z)) (k : Mark) : Mark :=
  mkMark (mk_bits k) (mk_roots k) (mk_live k) (mk_live_bytes k) (mk_pending k) s (mk_unresolved k) (mk_reads k).
Definition mk_with_unresolved (n : Z) (k : Mark) : Mark :=
  mkMark (mk_bits k) (mk_roots k) (mk_live k) (mk_live_bytes k) (mk_pending k) (mk_seen k) n (mk_reads k).
Definition mk_with_reads (n : Z) (k : Mark) : Mark :=
  mkMark (mk_bits k) (mk_roots k) (mk_live k) (mk_live_bytes k) (mk_pending k) (mk_seen k) (mk_unresolved k) n.

Definition Mark_live_bytes (k : Mark) (zone : Z) : Z := default 0 (mk_live_bytes k !! zone).
Definition Mark_live_bytes_total (k : Mark) : Z := foldr Z.add 0 (btree_values (mk_live_bytes k)).
Definition Mark_walking (k : Mark) : bool := match mk_pending k with [] => false | _ => true end.

Definition Mark_restart (k : Mark) : Mark := mkMark (Bitmap_clear (mk_bits k)) ∅ ∅ ∅ [] ∅ 0 (mk_reads k).

Definition Mark_walk (root : list Z) (k : Mark) : Mark :=
  if bool_decide (root ∈ mk_seen k) then k else mk_with_pending (root :: mk_pending k) k.

Section mark.
Context {D : Type} `{Zoned D}.

Local Abbreviation Stored := (Store (ZoneMap D)).

(** One block of a record or of a write set: marked where it lies, and its
    bytes accrued to the zone, the first time. *)
Definition occupy_block (s : Stored) (logical : Z) : sm Mark fault unit := λ k,
  match ZoneMap_physical (bs_device s) logical with
  | None => (Ok tt, k)
  | Some physical =>
      match Bitmap_set physical (mk_bits k) with
      | (Err e, b) => (Err e, mk_with_bits b k)
      | (Ok true, b) => (Ok tt, mk_with_bits b k)
      | (Ok false, b) =>
          let k := mk_with_bits b k in
          if zone_blocks (zm_device (bs_device s)) =? 0 then (Err Panicked, k)
          else
            let zone := (physical / zone_blocks (zm_device (bs_device s))) mod 2 ^ 32 in
            match add_u64 (Mark_live_bytes k zone) (Store_block_bytes s) with
            | Err e => (Err e, mk_with_live_bytes (<[zone := Mark_live_bytes k zone]> (mk_live_bytes k)) k)
            | Ok n => (Ok tt, mk_with_live_bytes (<[zone := n]> (mk_live_bytes k)) k)
            end
      end
  end.

Fixpoint occupy_blocks (s : Stored) (blocks : list Z) : sm Mark fault unit :=
  match blocks with
  | [] => sm_ret tt
  | logical :: blocks => do! _ <- occupy_block s logical; occupy_blocks s blocks
  end.

Definition extent_blocks (e : Extent) : list Z := seqZ (ex_start e) (ex_blocks e).

(** The address of the last block is the first that can overflow: it is asked
    about before the loop rather than in it. *)
Definition occupy (s : Stored) (e : Extent) : sm Mark fault unit :=
  do! _ <- sm_put (λ k, mk_with_live (<[ex_start e := e]> (mk_live k)) k);
  if u64_max <? ex_start e + ex_blocks e - 1 then sm_err Panicked
  else occupy_blocks s (extent_blocks e).

Definition Mark_occupy_transient (s : Stored) (blocks : gset Z) : sm Mark fault unit :=
  occupy_blocks s (set_list blocks).

Fixpoint occupy_all (s : Stored) (extents : list Extent) : sm Mark fault unit :=
  match extents with
  | [] => sm_ret tt
  | e :: extents => do! _ <- occupy s e; occupy_all s extents
  end.

Definition Mark_rebuild (s : Stored) (roots : Roots) : sm Mark fault unit :=
  do! _ <- sm_put (λ k, mk_with_live_bytes ∅ (mk_with_bits (Bitmap_clear (mk_bits k)) k));
  do! extents <- sm_get (λ k, btree_values (mk_live k));
  do! _ <- occupy_all s extents;
  Mark_occupy_transient s (Roots_transient_blocks roots).

(** [for zone in zones], each given what the mark counted. *)
Fixpoint publish_zones (k : Mark) (zones : list Z) : sm (ZoneMap D) fault unit :=
  match zones with
  | [] => sm_ret tt
  | zone :: zones => do! _ <- ZoneMap_set_live_bytes zone (Mark_live_bytes k zone); publish_zones k zones
  end.

Definition Mark_publish (k : Mark) : sm (ZoneMap D) fault unit := λ m,
  publish_zones k (zn_zone <$> ZoneMap_zones m) m.

(** ** A step of the walk *)
Definition Walking : Type := Mark * Stored.

Definition of_mark {A} (m : sm Mark fault A) : sm Walking fault A := λ '(k, s),
  let '(r, k) := m k in (r, (k, s)).
Definition of_store {A} (m : sm Stored fault A) : sm Walking fault A := λ '(k, s),
  let '(r, s) := m s in (r, (k, s)).

Definition count_read : sm Mark fault unit := λ k,
  match add_u64 (mk_reads k) 1 with
  | Ok n => (Ok tt, mk_with_reads n k)
  | Err e => (Err e, k)
  end.

(** [for index in 0..head.chunks] *)
Fixpoint walk_children (indices : list nat) (content : list Z) : sm Mark fault unit :=
  match indices with
  | [] => sm_ret tt
  | index :: indices =>
      let at_ := (ObjectHead_HEAD_BYTES + index * 32)%nat in
      do! child <- sm_lift (slice_or_panic content (Z.of_nat at_) (Z.of_nat at_ + 32));
      do! _ <- sm_put (Mark_walk child);
      walk_children indices content
  end.

Definition children (hash : list Z) (header : Header) : sm Walking fault unit :=
  do! (_, content) <- of_store (with_buffer (hdr_content_bytes header) (Store_get hash));
  do! _ <- of_mark count_read;
  if (length content <? ObjectHead_HEAD_BYTES)%nat then sm_err (Refused refusal_MALFORMED)
  else
    do! head <- sm_lift (or_refuse (ObjectHead_from_bytes (take ObjectHead_HEAD_BYTES content)));
    if negb (ObjectHead_bytes head =? Z.of_nat (length content)) then sm_err (Refused refusal_MALFORMED)
    else of_mark (walk_children (seq 0 (Z.to_nat (oh_chunks head))) content).

(** A record the store locates at [start]. *)
Definition mark_record (hash : list Z) (start : Z) : sm Walking fault bool :=
  do! header <- of_store (Store_head hash);
  do! _ <- of_mark count_read;
  do! block_bytes <- sm_get (λ '(_, s), Store_block_bytes s);
  let record_bytes := Z.of_nat Header_BYTES + hdr_content_bytes header in
  if (u64_max <? record_bytes) || (block_bytes =? 0) then sm_err Panicked
  else
    let blocks := div_ceil record_bytes block_bytes in
    do! s <- sm_get snd;
    do! _ <- of_mark (occupy s (mkExtent start blocks hash));
    do! _ <- if hdr_kind header =? kind_OBJECT then children hash header else sm_ret tt;
    do! _ <- of_mark (sm_put (λ k, mk_with_roots ({[hash]} ∪ mk_roots k) k));
    sm_ret true.

Definition Mark_step : sm Walking fault bool := λ '(k, s),
  match mk_pending k with
  | [] => (Ok false, (k, s))
  | hash :: pending =>
      let k := mk_with_pending pending k in
      if bool_decide (hash ∈ mk_seen k) then (Ok true, (k, s))
      else
        let k := mk_with_seen ({[hash]} ∪ mk_seen k) k in
        match Store_address s hash with
        | None =>
            match add_u64 (mk_unresolved k) 1 with
            | Err e => (Err e, (k, s))
            | Ok n => (Ok true, (mk_with_roots ({[hash]} ∪ mk_roots k) (mk_with_unresolved n k), s))
            end
        | Some start => mark_record hash start (k, s)
        end
  end.
End mark.
