(* ===== verification/MarkFacts.v ===== *)
(** * What marking keeps and what it reaches

    Over any device that keeps the trait's promises: marking only ever sets
    bits, an occupied block is marked where the mapping has it, and a record
    that is held and walked is marked whole, with the objects it names on the
    work list. *)

From S2P Require Import Prelude Abi Bytes BTree StoreRecords StoreCodecs BlockDevice Sha256 Chunker Store StoreFacts StoreTheorems StoreObjects ZoneDevice ZoneMap ZoneMapFacts ZoneOps ZoneStore Roots Mark.
From stdpp Require Import sorting.
#[local] Open Scope Z_scope.

Lemma elem_of_set_list X x : x ∈ set_list X ↔ x ∈ X.
Proof. unfold set_list. rewrite merge_sort_Permutation. apply elem_of_elements. Qed.

Lemma elem_of_hash_list X x : x ∈ hash_list X ↔ x ∈ X.
Proof. unfold hash_list. rewrite merge_sort_Permutation. apply elem_of_elements. Qed.

Lemma elem_of_extent_blocks e l : l ∈ extent_blocks e ↔ ex_start e ≤ l < ex_start e + ex_blocks e.
Proof. unfold extent_blocks. rewrite elem_of_seqZ. done. Qed.

(** ** Bits are only ever set *)
Record grows (k k' : Mark) : Prop := {
  gr_ok : Bitmap_ok (mk_bits k) → Bitmap_ok (mk_bits k');
  gr_bits : bm_bits (mk_bits k') = bm_bits (mk_bits k);
  gr_set : Bitmap_ok (mk_bits k) → ∀ p, is_set (mk_bits k) p = true → is_set (mk_bits k') p = true;
}.

(** The rest of a mark: what the walk has seen and is to see. *)
Record same_walk (k k' : Mark) : Prop := {
  sw_roots : mk_roots k' = mk_roots k;
  sw_pending : mk_pending k' = mk_pending k;
  sw_seen : mk_seen k' = mk_seen k;
  sw_unresolved : mk_unresolved k' = mk_unresolved k;
}.

#[global] Instance grows_preorder : PreOrder grows.
Proof.
  split; [by split|]. intros k1 k2 k3 [O1 B1 S1] [O2 B2 S2]. split; [by auto|congruence|]. eauto.
Qed.

#[global] Instance same_walk_preorder : PreOrder same_walk.
Proof. split; [by split|]. intros k1 k2 k3 [] []. split; congruence. Qed.

Section facts.
Context {D : Type} `{HL : ZonedLaws D}.
Implicit Types (s : Store (ZoneMap D)).

(** The bitmap has a bit for every block a mapping can place one at. *)
Definition covers (m : ZoneMap D) (k : Mark) : Prop :=
  Bitmap_ok (mk_bits k) ∧ zone_count (zm_device m) * zone_blocks (zm_device m) ≤ bm_bits (mk_bits k).

Lemma physical_range (m : ZoneMap D) l p :
  Map_ok m → zm_physical m !! l = Some p → 0 ≤ p < zone_count (zm_device m) * zone_blocks (zm_device m).
Proof.
  intros Hm P. destruct (mo_zb m Hm) as [Ez Hz]. pose proof (mo_from m Hm).
  destruct (mo_home m Hm l p P) as [->|(z & i & -> & Hi & Hzone & _)]; nia.
Qed.

Lemma covers_grows m k k' : covers m k → grows k k' → covers m k'.
Proof. intros [Ho Hc] G. split; [by apply G|]. by rewrite (gr_bits _ _ G). Qed.

(** *** One block, and many *)
Lemma occupy_block_spec s k l r k' :
  Map_ok (bs_device s) → covers (bs_device s) k → occupy_block s l k = (r, k') →
  grows k k' ∧ same_walk k k' ∧ mk_live k' = mk_live k ∧
  (∀ p, zm_physical (bs_device s) !! l = Some p → is_set (mk_bits k') p = true) ∧
  (∀ e, r = Err e → e = Panicked).
Proof.
  intros Hm [Ho Hc]. unfold occupy_block, ZoneMap_physical.
  destruct (zm_physical (bs_device s) !! l) as [p|] eqn:P.
  2:{ intros [= <- <-]. split_and!; done. }
  pose proof (physical_range _ _ _ Hm P) as Hp.
  destruct (Bitmap_set p (mk_bits k)) as [rb b'] eqn:E.
  destruct (Bitmap_set_spec _ _ _ _ Ho (proj1 Hp) E) as (Ho' & Hb & [(? & _)|(_ & -> & Hs)]); [lia|].
  assert (Hset : is_set b' p = true) by (by rewrite Hs, Z.eqb_refl).
  assert (Hall : ∀ k2, mk_bits k2 = b' → same_walk k k2 → mk_live k2 = mk_live k →
    grows k k2 ∧ same_walk k k2 ∧ mk_live k2 = mk_live k ∧ ∀ p', Some p = Some p' → is_set (mk_bits k2) p' = true).
  { intros k2 Eb Hw Hl. split_and!; [|done|done|intros ? [= <-]; by rewrite Eb]. split; rewrite Eb; [done|done|].
    intros _ q Hq. by rewrite Hs, Hq, orb_true_r. }
  destruct (is_set (mk_bits k) p); [intros [= <- <-]|destruct (zone_blocks _ =? 0); [intros [= <- <-]|
    unfold add_u64; destruct (u64_max <? _); intros [= <- <-]]];
    (match goal with |- grows _ ?k2 ∧ _ => destruct (Hall k2 eq_refl ltac:(by split) eq_refl) as (? & ? & ? & ?) end;
     split_and!; try done; by intros ? [= <-]).
Qed.

Lemma occupy_blocks_spec s ls : ∀ k r k',
  Map_ok (bs_device s) → covers (bs_device s) k → occupy_blocks s ls k = (r, k') →
  grows k k' ∧ same_walk k k' ∧ mk_live k' = mk_live k ∧
  (r = Ok tt → ∀ l p, l ∈ ls → zm_physical (bs_device s) !! l = Some p → is_set (mk_bits k') p = true) ∧
  (∀ e, r = Err e → e = Panicked).
Proof.
  induction ls as [|l ls IH]; intros k r k' Hm Hc; cbn [occupy_blocks].
  { intros [= <- <-]. split_and!; try done. by intros _ l p ?%elem_of_nil. }
  unfold sm_bind. destruct (occupy_block s l k) as [r1 k1] eqn:E1.
  destruct (occupy_block_spec s k l r1 k1 Hm Hc E1) as (G1 & W1 & L1 & S1 & P1).
  destruct r1 as [[]|e]; [|intros [= <- <-]; split_and!; try done; intros ? [= <-]; by eapply P1].
  intros E. destruct (IH k1 r k' Hm (covers_grows _ _ _ Hc G1) E) as (G & W & L & S & P).
  split_and!; [by etrans|by etrans|congruence| |done].
  intros Hr l' p [->|Hin]%elem_of_cons Hp; [|by eapply S]. apply G; [apply (covers_grows _ _ _ Hc G1)|by apply S1].
Qed.

Lemma occupy_spec s e k r k' :
  Map_ok (bs_device s) → covers (bs_device s) k → occupy s e k = (r, k') →
  grows k k' ∧ same_walk k k' ∧ mk_live k' = <[ex_start e := e]> (mk_live k) ∧
  (r = Ok tt → ∀ l p, l ∈ extent_blocks e → zm_physical (bs_device s) !! l = Some p → is_set (mk_bits k') p = true) ∧
  (∀ f, r = Err f → f = Panicked).
Proof.
  intros Hm Hc. unfold occupy. rsimpl.
  set (k1 := mk_with_live _ k). assert (Hc1 : covers (bs_device s) k1) by done.
  destruct (u64_max <? _).
  { intros [= <- <-]. split_and!; try done. by intros ? [= <-]. }
  intros E. destruct (occupy_blocks_spec s _ k1 r k' Hm Hc1 E) as (G & W & L & S & P).
  split_and!; try done.
  - by etrans; [|exact G].
  - by etrans; [|exact W].
Qed.

Lemma occupy_all_spec s es : ∀ k r k',
  Map_ok (bs_device s) → covers (bs_device s) k → (∀ e, e ∈ es → mk_live k !! ex_start e = Some e) →
  occupy_all s es k = (r, k') →
  grows k k' ∧ same_walk k k' ∧ mk_live k' = mk_live k ∧
  (r = Ok tt → ∀ e l p, e ∈ es → l ∈ extent_blocks e → zm_physical (bs_device s) !! l = Some p → is_set (mk_bits k') p = true) ∧
  (∀ f, r = Err f → f = Panicked).
Proof.
  induction es as [|e es IH]; intros k r k' Hm Hc Hl; cbn [occupy_all].
  { intros [= <- <-]. split_and!; try done. by intros _ e l p ?%elem_of_nil. }
  unfold sm_bind. destruct (occupy s e k) as [r1 k1] eqn:E1.
  destruct (occupy_spec s e k r1 k1 Hm Hc E1) as (G1 & W1 & L1 & S1 & P1).
  rewrite insert_id in L1 by (apply Hl, list_elem_of_here).
  destruct r1 as [[]|f]; [|intros [= <- <-]; split_and!; try done; intros ? [= <-]; by eapply P1].
  intros E. destruct (IH k1 r k' Hm (covers_grows _ _ _ Hc G1)) as (G & W & L & S & P); [|done|].
  { intros e' He'. rewrite L1. by apply Hl, list_elem_of_further. }
  split_and!; [by etrans|by etrans|congruence| |done].
  intros Hr e' l p [->|Hin]%elem_of_cons Hb Hp; [|by eapply S].
  apply G; [apply (covers_grows _ _ _ Hc G1)|]. by eapply S1.
Qed.

(** The mark of a live record stands on the key it is found under. *)
Definition keyed (k : Mark) : Prop := ∀ b e, mk_live k !! b = Some e → ex_start e = b.

Lemma rebuild_spec s roots k r k' :
  Map_ok (bs_device s) → covers (bs_device s) k → keyed k → Mark_rebuild s roots k = (r, k') →
  Bitmap_ok (mk_bits k') ∧ bm_bits (mk_bits k') = bm_bits (mk_bits k) ∧ same_walk k k' ∧ mk_live k' = mk_live k ∧
  (r = Ok tt → ∀ b e l p, mk_live k !! b = Some e → l ∈ extent_blocks e → zm_physical (bs_device s) !! l = Some p →
     is_set (mk_bits k') p = true) ∧
  (∀ f, r = Err f → f = Panicked).
Proof.
  intros Hm [Ho Hc] Hk. unfold Mark_rebuild. unfold sm_bind at 1, sm_put.
  set (k0 := mk_with_live_bytes ∅ _). destruct (Bitmap_clear_ok (mk_bits k) Ho) as [Ho0 _].
  assert (Hc0 : covers (bs_device s) k0) by done.
  unfold sm_bind at 1, sm_get. unfold sm_bind. destruct (occupy_all s _ k0) as [r1 k1] eqn:E1.
  destruct (occupy_all_spec s (btree_values (mk_live k0)) k0 r1 k1 Hm Hc0) as (G1 & W1 & L1 & S1 & P1); [|exact E1|].
  { intros e (b & Hb)%elem_of_btree_values. by rewrite (Hk b e Hb). }
  assert (Hw0 : same_walk k k0) by done.
  destruct r1 as [[]|f].
  2:{ intros [= <- <-]. split_and!; [by apply G1|apply G1|by etrans|done|done|]. intros ? [= <-]. by eapply P1. }
  unfold Mark_occupy_transient. intros E.
  destruct (occupy_blocks_spec s (set_list (Roots_transient_blocks roots)) k1 r k' Hm (covers_grows _ _ _ Hc0 G1) E) as (G & W & L & S & P).
  split_and!; [by apply G, G1|rewrite (gr_bits _ _ G); apply G1|etrans; [|exact W]; by etrans|by rewrite L, L1| |done].
  intros Hr b e l p Hb Hl Hp. apply G; [by apply G1|]. eapply (S1 eq_refl e); [|done|done].
  apply elem_of_btree_values. by exists b.
Qed.
(** *** Reading through the mapping *)
Definition kept_map (m m' : ZoneMap D) : Prop := Map_ok m → Map_ok m' ∧ quiet m m'.

#[global] Instance kept_map_preorder : PreOrder kept_map.
Proof.
  split; [intros m Hm; split; [done|apply quiet_refl]|].
  intros m1 m2 m3 H12 H23 Hm. destruct (H12 Hm) as [Hm2 Q1]. destruct (H23 Hm2) as [Hm3 Q2].
  split; [done|by eapply quiet_trans].
Qed.

Lemma kept_map_read b n (m : ZoneMap D) r m' : blk_read b n m = (r, m') → kept_map m m'.
Proof. intros E Hm. by destruct (read_spec m b n r m' Hm E) as [(? & ? & _) _]. Qed.

Lemma sound_map s : Store_sound s → Map_ok (bs_device s).
Proof. intros Hs. apply (so_device s Hs). Qed.

Lemma head_quiet s h r s' :
  Store_sound s → Store_head h s = (r, s') → Store_sound s' ∧ same_store s s' ∧ quiet (bs_device s) (bs_device s').
Proof.
  intros Hs E. pose proof (framed_head kept_map kept_map_read h s r s' E (sound_map s Hs)) as [_ Q].
  apply Store_head_spec in E as [Hsame _]; [|done]. split_and!; [by eapply same_store_sound|done|done].
Qed.

Lemma get_quiet s h n r s' :
  Store_sound s → with_buffer n (Store_get h) s = (r, s') →
  Store_sound s' ∧ same_store s s' ∧ quiet (bs_device s) (bs_device s').
Proof.
  intros Hs E. pose proof (framed_get_buffer kept_map kept_map_read h n s r s' E (sound_map s Hs)) as [_ Q].
  unfold with_buffer in E. destruct (_ <? _); [injection E as _ <-; split_and!; [done|by apply same_store_refl, Hs|done]|].
  destruct (Store_get h (s, _)) as [r1 [s1 c1]] eqn:G. injection E as _ <-.
  apply Store_get_spec in G as [Hsame _]; [|done]. split_and!; [by eapply same_store_sound|done|done].
Qed.

(** ** Records that are held and mapped *)
Record held s k c : Prop := {
  hd_holds : holds s k c;
  hd_mapped : ∀ b l, bs_located s !! sha256 c = Some b → b ≤ l < b + blob_span s c → is_Some (contents (bs_device s) l);
}.

(** The digests an object's content names. *)
Definition object_names (c : list Z) : list (list Z) :=
  if (length c <? ObjectHead_HEAD_BYTES)%nat then []
  else
    match ObjectHead_from_bytes (take ObjectHead_HEAD_BYTES c) with
    | Ok head =>
        if negb (ObjectHead_bytes head =? Z.of_nat (length c)) then []
        else (λ i, slice c (ObjectHead_HEAD_BYTES + i * 32) 32) <$> seq 0 (Z.to_nat (oh_chunks head))
    | Err _ => []
    end.

(** A record stays held by a store that has its blocks where it had them. *)
Lemma held_moved s s' k c :
  held s k c → bs_superblock s' = bs_superblock s →
  bs_located s' !! sha256 c = bs_located s !! sha256 c →
  (∀ b, bs_located s !! sha256 c = Some b → b + blob_span s c ≤ bs_free s → b + blob_span s c ≤ bs_free s') →
  (∀ b l, bs_located s !! sha256 c = Some b → b ≤ l < b + blob_span s c → contents (bs_device s') l = contents (bs_device s) l) →
  held s' k c.
Proof.
  intros [[(b & L & S & Hb & He) Hk Hc Hl] Hm] Es El Ef Hc'.
  assert (Ebb : Store_block_bytes s' = Store_block_bytes s) by (unfold Store_block_bytes; by rewrite Es).
  assert (Espan : blob_span s' c = blob_span s c) by (unfold blob_span; by rewrite Ebb).
  split; [constructor; try done|].
  - exists b. rewrite El, Espan. split_and!; [done| |lia|by apply Ef]. unfold stands in *. rewrite Espan.
    rewrite Ebb, <- S. apply raw_of_same. intros l Hl'.
    destruct (Hm b l L) as [x Hx]; [lia|]. cbn. unfold Mapped_view. by rewrite (Hc' b l L), Hx by lia.
  - intros b' l. rewrite El, Espan. intros L' Hl'. rewrite (Hc' b' l L' Hl'). by apply Hm with b'.
Qed.

Lemma held_kept s s' k c :
  held s k c → bs_superblock s' = bs_superblock s → bs_free s ≤ bs_free s' →
  bs_located s' !! sha256 c = bs_located s !! sha256 c →
  (∀ b l, bs_located s !! sha256 c = Some b → b ≤ l < b + blob_span s c → contents (bs_device s') l = contents (bs_device s) l) →
  held s' k c.
Proof. intros Hh Es Ef El. apply held_moved; try done. intros; lia. Qed.

Lemma held_bound s k c b :
  held s k c → bs_located s !! sha256 c = Some b → 1 ≤ b ∧ b + blob_span s c ≤ bs_free s.
Proof. intros [[(b' & L' & _ & ?) _ _ _] _] L. rewrite L in L'. injection L' as <-. done. Qed.

(** One block starts one record. *)
Lemma held_unique s k c k' c' b :
  Store_sound s → held s k c → held s k' c' → bs_located s !! sha256 c = Some b → bs_located s !! sha256 c' = Some b →
  sha256 c = sha256 c'.
Proof.
  intros Hs Hh Hh' L L'. destruct (holds_claimed s k c b Hs (hd_holds _ _ _ Hh) L) as (E & _).
  destruct (holds_claimed s k' c' b Hs (hd_holds _ _ _ Hh') L') as (E' & _).
  unfold header_in in *. destruct (_ <? _)%nat; [done|].
  destruct (Header_from_bytes _) as [hd|]; rsimpl_in E; [|done]. rsimpl_in E'.
  case_bool_decide as H1; [|done]. case_bool_decide as H2; [congruence|done].
Qed.

(** *** A step of the walk *)

(** What reading a record's children does to a mark. *)
Record pushes k k' : Prop := {
  pu_bits : mk_bits k' = mk_bits k;
  pu_roots : mk_roots k' = mk_roots k;
  pu_live : mk_live k' = mk_live k;
  pu_seen : mk_seen k' = mk_seen k;
  pu_unresolved : mk_unresolved k' = mk_unresolved k;
  pu_pending : mk_pending k ⊆ mk_pending k';
}.

#[global] Instance pushes_preorder : PreOrder pushes.
Proof. split; [by split|]. intros k1 k2 k3 [] []. split; try congruence. by etrans. Qed.

Lemma walk_pushes h k : pushes k (Mark_walk h k) ∧ (h ∈ mk_seen k ∨ h ∈ mk_pending (Mark_walk h k)).
Proof.
  unfold Mark_walk. case_bool_decide; [split; [reflexivity|by left]|]. split; [split; try done|right; apply list_elem_of_here].
  cbn. intros x Hx. by apply list_elem_of_further.
Qed.

Lemma walk_children_spec c idx k r k' :
  walk_children idx c k = (r, k') →
  pushes k k' ∧
  (r = Ok tt → ∀ i, i ∈ idx → let h := slice c (ObjectHead_HEAD_BYTES + i * 32) 32 in h ∈ mk_seen k ∨ h ∈ mk_pending k').
Proof.
  revert k. induction idx as [|i idx IH]; intros k; cbn [walk_children].
  { intros [= <- <-]. split; [done|]. by intros _ i ?%elem_of_nil. }
  unfold sm_bind at 1, sm_lift, slice_or_panic. destruct (_ || _)%bool.
  { intros [= <- <-]. done. }
  unfold sm_bind at 1, sm_put. intros E. apply IH in E as [P Hin].
  replace (Z.to_nat (Z.of_nat (ObjectHead_HEAD_BYTES + i * 32) + 32 - Z.of_nat (ObjectHead_HEAD_BYTES + i * 32)))
    with 32%nat in * by lia. rewrite Nat2Z.id in *.
  set (h := slice c _ 32) in *. destruct (walk_pushes h k) as [P1 H1]. split; [by etrans|].
  intros Hr j [->|Hj]%elem_of_cons; cbn zeta.
  - fold h. destruct H1 as [?|H1]; [by left|right]. by apply P.
  - destruct (Hin Hr j Hj) as [Hs|?]; [left|by right]. by rewrite (pu_seen _ _ P1) in Hs.
Qed.

Lemma children_spec s h hd k r k' s' :
  Store_sound s → children h hd (k, s) = (r, (k', s')) →
  Store_sound s' ∧ same_store s s' ∧ quiet (bs_device s) (bs_device s') ∧ pushes k k' ∧
  (r = Ok tt → ∀ c, holds s kind_OBJECT c → sha256 c = h → hd = blob_header kind_OBJECT c →
     ∀ child, child ∈ object_names c → child ∈ mk_seen k ∨ child ∈ mk_pending k').
Proof.
  intros Hs. unfold children, sm_bind at 1, of_store.
  destruct (with_buffer _ _ s) as [r1 s1] eqn:G. pose proof (get_quiet s h _ r1 s1 Hs G) as (Hs1 & Hsame & Q).
  destruct r1 as [[n content]|e]; [|intros [= <- <- <-]; done].
  assert (Hread : ∀ c, holds s kind_OBJECT c → sha256 c = h → hd = blob_header kind_OBJECT c → content = c).
  { intros c Hh <- ->. unfold with_buffer in G. destruct (_ <? _); [done|]. destruct (Store_get _ _) as [r2 [s2 c2]] eqn:E.
    apply (get_holds s kind_OBJECT c) in E as [_ [(e & -> & _)|[-> ->]]]; [done| |done|done|].
    - injection G as _ <- _. rewrite drop_ge, app_nil_r; [done|]. cbn. unfold zeroed. rewrite length_replicate. lia.
    - cbn. unfold zeroed. rewrite length_replicate. lia. }
  unfold sm_bind at 1, of_mark at 1, count_read, add_u64. destruct (u64_max <? _).
  { intros [= <- <- <-]. done. }
  set (k1 := mk_with_reads _ k). assert (P1 : pushes k k1) by done.
  destruct (_ <? _)%nat eqn:El; [intros [= <- <- <-]; done|].
  unfold sm_bind at 1, sm_lift, or_refuse.
  destruct (ObjectHead_from_bytes _) as [head|e] eqn:Eh; [|intros [= <- <- <-]; done].
  destruct (negb _) eqn:Eb; [intros [= <- <- <-]; done|]. unfold of_mark.
  destruct (walk_children _ content k1) as [r2 k2] eqn:W. intros [= <- <- <-].
  apply walk_children_spec in W as [P2 Hin]. split_and!; [done|done|done|by etrans|].
  intros Hr c Hh Eh' Ehd child. rewrite <- (Hread c Hh Eh' Ehd). unfold object_names. rewrite El, Eh, Eb.
  intros (i & -> & Hi)%list_elem_of_fmap. by apply Hin.
Qed.

(** What walking one record leaves of the mark, whatever it comes to. *)
Record records (h : list Z) (b : Z) k k' : Prop := {
  re_grows : grows k k';
  re_seen : mk_seen k' = mk_seen k;
  re_unresolved : mk_unresolved k' = mk_unresolved k;
  re_pending : mk_pending k ⊆ mk_pending k';
  re_live : mk_live k' = mk_live k ∨ ∃ n, mk_live k' = <[b := mkExtent b n h]> (mk_live k);
}.

(** A record marked whole: every block where it lies, and all it names to be
    walked. *)
Definition marked_whole s k (b kd : Z) (c : list Z) : Prop :=
  mk_live k !! b = Some (mkExtent b (blob_span s c) (sha256 c)) ∧
  (∀ l p, b ≤ l < b + blob_span s c → zm_physical (bs_device s) !! l = Some p → is_set (mk_bits k) p = true) ∧
  (kd = kind_OBJECT → ∀ child, child ∈ object_names c → child ∈ mk_seen k ∨ child ∈ mk_pending k).

Lemma pushes_grows k k' : pushes k k' → grows k k'.
Proof. intros P. split; rewrite (pu_bits _ _ P); done. Qed.

Lemma header_in_holds s k c b h hd :
  Store_sound s → holds s k c → bs_located s !! sha256 c = Some b → header_in (blk_view (bs_device s) b) h = Ok hd →
  sha256 c = h ∧ hd = blob_header k c.
Proof.
  intros Hs Hh L E. destruct (holds_claimed s k c b Hs Hh L) as (E' & _).
  unfold header_in in *. destruct (_ <? _)%nat; [done|].
  destruct (Header_from_bytes _) as [hd'|]; rsimpl_in E; [|done]. rsimpl_in E'.
  case_bool_decide as H1; [|done]. case_bool_decide as H2; [|done]. injection E as <-. injection E' as ->.
  split; [congruence|done].
Qed.

Lemma mark_record_spec s k h b r k' s' :
  Store_sound s → covers (bs_device s) k → bs_located s !! h = Some b → mark_record h b (k, s) = (r, (k', s')) →
  Store_sound s' ∧ same_store s s' ∧ quiet (bs_device s) (bs_device s') ∧ records h b k k' ∧
  ∀ a, r = Ok a → mk_roots k' = {[h]} ∪ mk_roots k ∧
    ∀ kd c, holds s kd c → bs_located s !! sha256 c = Some b → sha256 c = h ∧ marked_whole s k' b kd c.
Proof.
  intros Hs Hc L. unfold mark_record, sm_bind at 1, of_store.
  destruct (Store_head h s) as [r1 s1] eqn:Eh. pose proof (head_quiet s h r1 s1 Hs Eh) as (Hs1 & Hsame & Q).
  apply Store_head_spec in Eh as [_ Eh]; [|done]. rewrite L in Eh.
  assert (R0 : ∀ k2, pushes k k2 → records h b k k2).
  { intros k2 P. split; [by apply pushes_grows|apply P|apply P|apply P|left; apply P]. }
  destruct r1 as [hd|e]; [|intros [= <- <- <-]; split_and!; [done|done|done|by apply R0|done]].
  assert (Ehd : header_in (blk_view (bs_device s) b) h = Ok hd).
  { destruct Eh as [(e & ? & _)|Eh]; [done|]. destruct (header_in _ _); cbn in Eh; congruence. }
  unfold sm_bind at 1, of_mark at 1, count_read, add_u64. destruct (u64_max <? _).
  { intros [= <- <- <-]. split_and!; [done|done|done|by apply R0|done]. }
  set (k1 := mk_with_reads _ k). unfold sm_bind at 1, sm_get at 1.
  assert (Ebb : Store_block_bytes s1 = Store_block_bytes s) by (unfold Store_block_bytes; destruct Hsame as (_ & -> & _); done).
  rewrite Ebb. destruct (_ || _)%bool.
  { intros [= <- <- <-]. split_and!; [done|done|done|by apply R0|done]. }
  unfold sm_bind at 1, sm_get at 1. cbn [snd]. unfold sm_bind at 1, of_mark at 1.
  set (n := div_ceil _ _). destruct (occupy s1 _ k1) as [r2 k2] eqn:Eo.
  assert (Hc1 : covers (bs_device s1) k1).
  { destruct (q_geometry _ _ Q) as (_ & E1 & E2 & _). unfold covers. rewrite E1, E2. exact Hc. }
  destruct (occupy_spec s1 _ k1 r2 k2 (sound_map s1 Hs1) Hc1 Eo) as (G2 & W2 & L2 & S2 & _).
  cbn [ex_start] in L2. assert (G02 : grows k k2) by by destruct G2.
  assert (R2 : ∀ k3, pushes k2 k3 → records h b k k3).
  { intros k3 P. split; [etrans; [exact G02|by apply pushes_grows]|rewrite (pu_seen _ _ P); apply W2
      |rewrite (pu_unresolved _ _ P); apply W2|rewrite <- (pu_pending _ _ P), (sw_pending _ _ W2); done|].
    right. exists n. by rewrite (pu_live _ _ P), L2. }
  destruct r2 as [[]|f]; [|intros [= <- <- <-]; split_and!; [done|done|done|by apply R2|done]].
  unfold sm_bind at 1.
  match goal with |- context [(if ?x then ?y else ?z) (k2, s1)] => destruct ((if x then y else z) (k2, s1)) as [r3 [k3 s3]] eqn:Ec end.
  assert (Hch : Store_sound s3 ∧ same_store s1 s3 ∧ quiet (bs_device s1) (bs_device s3) ∧ pushes k2 k3 ∧
    (r3 = Ok tt → ∀ c, holds s1 kind_OBJECT c → sha256 c = h → hd = blob_header kind_OBJECT c →
     ∀ child, child ∈ object_names c → child ∈ mk_seen k2 ∨ child ∈ mk_pending k3)).
  { destruct (Z.eqb_spec (hdr_kind hd) kind_OBJECT) as [|Hne].
    - by apply (children_spec s1 h hd).
    - injection Ec as <- <- <-. split_and!; [done|apply same_store_refl, Hs1|apply quiet_refl|done|].
      intros _ c _ _ ->. done. }
  destruct Hch as (Hs3 & Hsame3 & Q3 & P3 & Hch).
  assert (Hsame' : same_store s s3) by by eapply same_store_trans.
  assert (Q' : quiet (bs_device s) (bs_device s3)) by by eapply quiet_trans.
  destruct r3 as [[]|f]; [|intros [= <- <- <-]; split_and!; [done|done|done|by apply R2|done]].
  intros [= <- <- <-]. split_and!; [done|done|done| |].
  { destruct (R2 k3 P3) as [A ? ? ? ?]. split; [destruct A; by split|done..]. }
  intros a _. split; [cbn; by rewrite (pu_roots _ _ P3), (sw_roots _ _ W2)|].
  intros kd c Hh Lc. destruct (header_in_holds s kd c b h hd Hs Hh Lc Ehd) as [<- ->]. split; [done|].
  split_and!; cbn.
  - rewrite (pu_live _ _ P3), L2, lookup_insert_eq. done.
  - intros l p Hl Hp. rewrite (pu_bits _ _ P3). apply (S2 eq_refl l); [by apply elem_of_extent_blocks|].
    by rewrite (q_physical _ _ Q).
  - intros -> child Hin. rewrite (pu_seen _ _ P3). apply (Hch eq_refl c); [by eapply same_store_holds|done|done|done].
Qed.
End facts.
