(* ===== verification/Collector.v ===== *)
(** * The collector: [zone/src/collect.rs] and [zone/src/invariants.rs]

    A cycle is a sequence of steps over a mark, a queue, the store and the
    roots: mark what is reachable, publish what every zone holds of it, choose
    sealed zones below a quarter live, copy what is live out of one, and reset
    it when the three invariants hold. *)

From S2P Require Import Prelude Abi Bytes BTree StoreRecords BlockDevice Store ZoneDevice ZoneMap ZoneStore ZoneQueue Roots Mark.
From stdpp Require Import sorting.
#[local] Open Scope Z_scope.

Definition SWEEP_LIVE_FRACTION_DENOMINATOR : Z := 4.
Definition COLLECT_FREE_ZONES_LOW : Z := 2.

Inductive Phase : Type := PhIdle | PhMarking | PhSelecting | PhSweeping.

#[global] Instance Phase_eq_dec : EqDecision Phase.
Proof. solve_decision. Defined.

(** [remaining] is a stack, as [pending] of the mark is: its top is the head. *)
Record Sweep : Type := mkSweep {
  sp_zone : Z;
  sp_remaining : list Z;
  sp_committed : bool;
}.

Inductive Progress : Type := Marked | Published_ | Selected | Copied | Committed | Reset_ | Waiting | Done_.

#[global] Instance Progress_eq_dec : EqDecision Progress.
Proof. solve_decision. Defined.

(** [chosen] is the vector as the code fills it; a zone is taken off its back. *)
Record Collector : Type := mkCollector {
  co_mark : Mark;
  co_queue : Queue;
  co_phase : Phase;
  co_chosen : list Z;
  co_sweeping : option Sweep;
  co_cycle : Z;
  co_full_remarks : Z;
  co_copied_bytes : Z;
  co_zones_condemned : Z;
}.

Definition Collector_new (blocks : Z) : Collector :=
  mkCollector (Mark_new blocks) Queue_new PhIdle [] None 0 0 0 0.

(** Setters. *)
Definition co_with_mark (k : Mark) (c : Collector) : Collector :=
  mkCollector k (co_queue c) (co_phase c) (co_chosen c) (co_sweeping c) (co_cycle c) (co_full_remarks c) (co_copied_bytes c) (co_zones_condemned c).
Definition co_with_queue (q : Queue) (c : Collector) : Collector :=
  mkCollector (co_mark c) q (co_phase c) (co_chosen c) (co_sweeping c) (co_cycle c) (co_full_remarks c) (co_copied_bytes c) (co_zones_condemned c).
Definition co_with_phase (p : Phase) (c : Collector) : Collector :=
  mkCollector (co_mark c) (co_queue c) p (co_chosen c) (co_sweeping c) (co_cycle c) (co_full_remarks c) (co_copied_bytes c) (co_zones_condemned c).
Definition co_with_chosen (l : list Z) (c : Collector) : Collector :=
  mkCollector (co_mark c) (co_queue c) (co_phase c) l (co_sweeping c) (co_cycle c) (co_full_remarks c) (co_copied_bytes c) (co_zones_condemned c).
Definition co_with_sweeping (s : option Sweep) (c : Collector) : Collector :=
  mkCollector (co_mark c) (co_queue c) (co_phase c) (co_chosen c) s (co_cycle c) (co_full_remarks c) (co_copied_bytes c) (co_zones_condemned c).
Definition co_with_copied (n : Z) (c : Collector) : Collector :=
  mkCollector (co_mark c) (co_queue c) (co_phase c) (co_chosen c) (co_sweeping c) (co_cycle c) (co_full_remarks c) n (co_zones_condemned c).
Definition co_with_condemned (n : Z) (c : Collector) : Collector :=
  mkCollector (co_mark c) (co_queue c) (co_phase c) (co_chosen c) (co_sweeping c) (co_cycle c) (co_full_remarks c) (co_copied_bytes c) n.

Definition Collector_running (c : Collector) : bool := bool_decide (co_phase c ≠ PhIdle).

(** [begin] changes the collector and the roots. *)
Definition Collector_begin : sm (Collector * Roots) fault unit := λ '(c, roots),
  match add_u64 (co_cycle c) 1 with
  | Err e => (Err e, (c, roots))
  | Ok cycle =>
      match add_u64 (co_full_remarks c) 1 with
      | Err e => (Err e, (mkCollector (co_mark c) (co_queue c) (co_phase c) (co_chosen c) (co_sweeping c) cycle
                            (co_full_remarks c) (co_copied_bytes c) (co_zones_condemned c), roots))
      | Ok full =>
          let mark := foldl (λ k root, Mark_walk root k) (Mark_restart (co_mark c)) (hash_list (rt_pinned roots)) in
          (Ok tt, (mkCollector mark (co_queue c) PhMarking [] None cycle full (co_copied_bytes c) (co_zones_condemned c),
                   Roots_remarked roots))
      end
  end.

Section collector.
Context {D : Type} `{Zoned D}.

Local Abbreviation Stored := (Store (ZoneMap D)).

Definition Collector_should_collect (m : ZoneMap D) : bool := ZoneMap_zones_free m <? COLLECT_FREE_ZONES_LOW.

(** ** The invariants *)
Fixpoint all_marked (m : ZoneMap D) (k : Mark) (blocks : list Z) : res fault bool :=
  match blocks with
  | [] => Ok true
  | logical :: blocks =>
      match ZoneMap_physical m logical with
      | None => Ok false
      | Some physical =>
          let? set := Bitmap_get (mk_bits k) physical in
          if set : bool then all_marked m k blocks else Ok false
      end
  end.

Definition nothing_reachable_is_swept (m : ZoneMap D) (k : Mark) (roots : Roots) (zone : Z) : res fault bool :=
  if negb (bool_decide (rt_pinned roots ⊆ mk_roots k)) then Ok false
  else
    let? ok := all_marked m k (set_list (Roots_transient_blocks roots)) in
    if ok : bool then
      let blocks := zone_blocks (zm_device m) in
      if u64_max <? zone * blocks + blocks then Err Panicked
      else
        let? any := Bitmap_any (mk_bits k) (zone * blocks) (zone * blocks + blocks) in
        Ok (negb any)
    else Ok false.

Definition all_three (m : ZoneMap D) (k : Mark) (roots : Roots) (q : Queue) (zone : Z) : res fault bool :=
  let? first := nothing_reachable_is_swept m k roots zone in
  Ok (first && a_reset_zone_holds_no_live_blob m && collection_never_starves_an_urgent_read q).

(** ** A step: the collector and the store change, the roots are read *)
Definition World : Type := Collector * Stored.

Definition of_walk {A} (m : sm (@Walking D) fault A) : sm World fault A := λ '(c, s),
  let '(r, (k, s)) := m (co_mark c, s) in (r, (co_with_mark k c, s)).
Definition of_queue (f : Queue → option (res fault unit * Queue)) : sm World fault unit := λ '(c, s),
  match f (co_queue c) with
  | Some (r, q) => (r, (co_with_queue q c, s))
  | None => (Err Panicked, (c, s))
  end.
Definition of_map {A} (m : sm (ZoneMap D) fault A) : sm World fault A := λ '(c, s),
  let '(r, s) := on_blocks m s in (r, (c, s)).
Definition set_co (f : Collector → Collector) : sm World fault unit := sm_put (λ '(c, s), (f c, s)).

Definition catch_up (roots : Roots) : sm World fault unit := λ '(c, s),
  let missing := filter (λ root, root ∉ mk_roots (co_mark c)) (hash_list (rt_pinned roots)) in
  let c := co_with_mark (foldl (λ k root, Mark_walk root k) (co_mark c) missing) c in
  (do! _ <- of_walk (of_mark (Mark_occupy_transient s (Roots_transient_blocks roots)));
   match missing with
   | [] => sm_ret tt
   | _ => set_co (co_with_phase PhMarking)
   end) (c, s).

Definition publish_mark : sm World fault unit := λ '(c, s), of_map (Mark_publish (co_mark c)) (c, s).

Definition marking (roots : Roots) : sm World fault Progress := λ '(c, s),
  (if Mark_walking (co_mark c) then
     do! _ <- of_queue Queue_collector_operation;
     do! _ <- of_walk Mark_step;
     sm_ret Marked
   else
     do! _ <- of_walk (of_mark (Mark_occupy_transient s (Roots_transient_blocks roots)));
     do! _ <- publish_mark;
     do! _ <- set_co (co_with_phase PhSelecting);
     sm_ret Published_) (c, s).

(** The filters and the map of [selecting], a zone at a time. *)
Fixpoint candidates_of (zone_bytes : Z) (zones : list Zone) : res fault (list (Z * Z)) :=
  match zones with
  | [] => Ok []
  | zone :: zones =>
      if bool_decide (zn_state zone = StSealed) then
        if u64_max <? zn_live_bytes zone * SWEEP_LIVE_FRACTION_DENOMINATOR then Err Panicked
        else
          let? rest := candidates_of zone_bytes zones in
          Ok (if zn_live_bytes zone * SWEEP_LIVE_FRACTION_DENOMINATOR <? zone_bytes
              then (zn_live_bytes zone, zn_zone zone) :: rest else rest)
      else candidates_of zone_bytes zones
  end.

(** The order of a pair of integers. *)
Definition pair_le (a b : Z * Z) : Prop := a.1 < b.1 ∨ a.1 = b.1 ∧ a.2 ≤ b.2.

#[global] Instance pair_le_dec : RelDecision pair_le.
Proof. intros a b. unfold pair_le. apply _. Defined.

Definition selecting : sm World fault Progress := λ '(c, s),
  let m := bs_device s in
  let zone_bytes := zone_blocks (zm_device m) * Store_block_bytes s in
  if u64_max <? zone_bytes then (Err Panicked, (c, s))
  else
    match candidates_of zone_bytes (ZoneMap_zones m) with
    | Err e => (Err e, (c, s))
    | Ok candidates =>
        let chosen := snd <$> merge_sort pair_le candidates in
        let c := co_with_chosen chosen c in
        match chosen with
        | [] => (Ok Done_, (co_with_phase PhIdle c, s))
        | _ => (Ok Selected, (co_with_phase PhSweeping c, s))
        end
    end.

(** The blocks a zone holds that are marked; a filter that stops the program is
    one of the bitmap's, which is never asked out of its range. *)
Fixpoint live_of (m : ZoneMap D) (k : Mark) (blocks : list Z) : res fault (list Z) :=
  match blocks with
  | [] => Ok []
  | logical :: blocks =>
      let? set := match ZoneMap_physical m logical with
                  | Some at_ => Bitmap_get (mk_bits k) at_
                  | None => Ok false
                  end in
      let? rest := live_of m k blocks in
      Ok (if set : bool then logical :: rest else rest)
  end.

(** Reversed and then taken off the back: ascending, taken off the front. *)
Definition live_in (s : Stored) (k : Mark) (zone : Z) : res fault (list Z) :=
  live_of (bs_device s) k (ZoneMap_holds (bs_device s) zone).

Definition condemn_next : sm World fault Progress := λ '(c, s),
  match list.last (co_chosen c) with
  | None => (Ok Selected, (co_with_phase PhSelecting c, s))
  | Some zone =>
      (do! _ <- set_co (co_with_chosen (removelast (co_chosen c)));
       do! _ <- of_map (ZoneMap_condemn zone);
       λ '(c, s),
         match live_in s (co_mark c) zone with
         | Err e => (Err e, (c, s))
         | Ok remaining => (Ok Selected, (co_with_sweeping (Some (mkSweep zone remaining false)) c, s))
         end) (c, s)
  end.

Definition count_copied (s : Stored) : sm World fault unit := λ '(c, s'),
  match add_u64 (co_copied_bytes c) (Store_block_bytes s) with
  | Ok n => (Ok tt, (co_with_copied n c, s'))
  | Err e => (Err e, (c, s'))
  end.

Definition count_condemned : sm World fault unit := λ '(c, s),
  match add_u64 (co_zones_condemned c) 1 with
  | Ok n => (Ok tt, (co_with_condemned n c, s))
  | Err e => (Err e, (c, s))
  end.

Definition sweep_copy (sweep : Sweep) (logical : Z) (remaining : list Z) : sm World fault Progress :=
  do! _ <- set_co (co_with_sweeping (Some (mkSweep (sp_zone sweep) remaining (sp_committed sweep))));
  do! _ <- of_queue Queue_collector_operation;
  do! _ <- of_map (ZoneMap_copy_forward logical);
  do! s <- sm_get snd;
  do! _ <- count_copied s;
  sm_ret Copied.

Definition sweep_commit (roots : Roots) (sweep : Sweep) : sm World fault Progress :=
  do! _ <- set_co (co_with_sweeping (Some (mkSweep (sp_zone sweep) (sp_remaining sweep) true)));
  do! _ <- of_queue Queue_collector_operation;
  do! _ <- of_map ZoneMap_commit_copies;
  do! s <- sm_get snd;
  do! _ <- of_walk (of_mark (Mark_rebuild s roots));
  do! _ <- publish_mark;
  sm_ret Committed.

Definition sweep_reset (roots : Roots) (zone : Z) : sm World fault Progress := λ '(c, s),
  if negb (no_reader_believes_the_zone (bs_device s) zone) then (Ok Waiting, (c, s))
  else
    match all_three (bs_device s) (co_mark c) roots (co_queue c) zone with
    | Err e => (Err e, (c, s))
    | Ok false => (Err (Refused refusal_MALFORMED), (c, s))
    | Ok true =>
        (do! _ <- of_queue Queue_collector_operation;
         do! _ <- of_map (ZoneMap_recycle zone);
         do! _ <- count_condemned;
         do! _ <- set_co (co_with_sweeping None);
         sm_ret Reset_) (c, s)
    end.

Definition sweeping (roots : Roots) : sm World fault Progress := λ '(c, s),
  match co_sweeping c with
  | None => condemn_next (c, s)
  | Some sweep =>
      match sp_remaining sweep with
      | logical :: remaining => sweep_copy sweep logical remaining (c, s)
      | [] => if sp_committed sweep then sweep_reset roots (sp_zone sweep) (c, s)
              else sweep_commit roots sweep (c, s)
      end
  end.

Definition Collector_step (roots : Roots) : sm World fault Progress := λ '(c, s),
  if bool_decide (co_phase c = PhIdle) then (Ok Done_, (c, s))
  else
    (do! _ <- catch_up roots;
     λ '(c, s),
       match co_phase c with
       | PhIdle => (Ok Done_, (c, s))
       | PhMarking => marking roots (c, s)
       | PhSelecting => selecting (c, s)
       | PhSweeping => sweeping roots (c, s)
       end) (c, s).

(** The loop of [collect]; running out of fuel is [None]. *)
Fixpoint collect_loop (fuel : nat) (roots : Roots) (steps : Z) (w : World) : option (res fault Z * World) :=
  match fuel with
  | O => None
  | S fuel =>
      match Collector_step roots w with
      | (Err e, w) => Some (Err e, w)
      | (Ok Done_, w) =>
          Some ((do! _ <- set_co (co_with_phase PhIdle);
                 do! _ <- of_queue (λ q, Some (Queue_settle q));
                 sm_ret steps) w)
      | (Ok Waiting, w) => Some ((do! _ <- of_queue (λ q, Some (Queue_settle q)); sm_ret steps) w)
      | (Ok _, w) =>
          match add_u64 steps 1 with
          | Ok steps => collect_loop fuel roots steps w
          | Err e => Some (Err e, w)
          end
      end
  end.

Definition Collector_collect (fuel : nat) (c : Collector) (s : Stored) (roots : Roots) :
    option (res fault Z * World) * Roots :=
  match Collector_begin (c, roots) with
  | (Ok _, (c, roots)) => (collect_loop fuel roots 0 (c, s), roots)
  | (Err e, (c, roots)) => (Some (Err e, (c, s)), roots)
  end.

(** What the collector publishes. *)
Record Published : Type := mkPublished {
  pb_cycle : Z; pb_full_remarks : Z; pb_roots_pinned : Z; pb_roots_transient : Z; pb_zones_free : Z;
  pb_zones_sealed : Z; pb_zones_condemned : Z; pb_live_bytes_total : Z; pb_copied_bytes : Z;
  pb_ops_ahead_of_urgent_read : Z; pb_unresolved : Z;
}.

Definition Collector_published (c : Collector) (m : ZoneMap D) (roots : Roots) : Published :=
  mkPublished (co_cycle c) (co_full_remarks c) (Z.of_nat (Roots_roots_pinned roots)) (Z.of_nat (Roots_roots_transient roots))
    (ZoneMap_zones_free m) (Z.of_nat (length (filter (λ z, zn_state z = StSealed) (ZoneMap_zones m))))
    (co_zones_condemned c) (Mark_live_bytes_total (co_mark c)) (co_copied_bytes c)
    (Queue_ops_ahead_of_urgent_read (co_queue c)) (mk_unresolved (co_mark c)).
End collector.
