(* ===== verification/CollectorFacts.v ===== *)
(** * What every step of a cycle keeps

    The invariant of a cycle over any device that keeps the trait's promises:
    what the walk has been to is marked whole where the mapping has it, and what
    that names is walked or to be walked.  Only a reset takes contents away,
    and only from a zone in which nothing is marked. *)

From S2P Require Import Prelude Abi Bytes BTree StoreRecords StoreCodecs BlockDevice Sha256 Store StoreFacts StoreTheorems ZoneDevice ZoneMap ZoneMapFacts ZoneOps ZoneTheorems ZoneQueue ZoneStore Roots Mark MarkFacts Collector.
#[local] Open Scope Z_scope.

Section facts.
Context {D : Type} `{HL : ZonedLaws D}.
Implicit Types (s : Store (ZoneMap D)) (m : ZoneMap D).

(** ** What the mapping's operations do to a store over it *)

(** No block appears, none changes its contents, and a block that is still
    mapped is readable if it was. *)
Record lessens m m' : Prop := {
  le_map : Map_ok m';
  le_frame : same_frame m m';
  le_physical : ∀ l, is_Some (zm_physical m' !! l) → is_Some (zm_physical m !! l);
  le_contents : ∀ l x, contents m' l = Some x → contents m l = Some x;
  le_zero : ∀ l, zm_physical m' !! l = Some 0 → zm_physical m !! l = Some 0;
}.

Lemma lessens_refl m : Map_ok m → lessens m m.
Proof. intros. split; [done|split; [by split_and!|done|done]|done..]. Qed.

Lemma quiet_lessens m m' : Map_ok m → Map_ok m' → quiet m m' → lessens m m'.
Proof.
  intros Hm Hm' Q. split; [done|exact (quiet_frame m m' Q)|intros l; by rewrite (q_physical _ _ Q)|..].
  - intros l x. by rewrite (quiet_contents m m').
  - intros l. by rewrite (q_physical _ _ Q).
Qed.

Lemma lessens_mapped m m' : Mapped_ok m → lessens m m' → Mapped_ok m'.
Proof.
  intros [Hm Hb Hc Hr Hx] [Hm' [(Eb & Ec & Ez & Ek) Ef Ezb] Hp Hl _].
  assert (En : ZoneMap_blocks m' = ZoneMap_blocks m) by (unfold ZoneMap_blocks; by rewrite Ec, Ef, Ezb).
  constructor; rewrite ?Eb, ?En; try done.
  - intros l ?. by apply Hr, Hp.
  - intros l x ?. by eapply Hx, Hl.
Qed.

(** A call of the mapping under a store. *)
Definition under s m' : Store (ZoneMap D) := mkStore m' (bs_superblock s) (bs_free s) (bs_located s).

Lemma lessens_sound s m' : Store_sound s → lessens (bs_device s) m' → Store_sound (under s m').
Proof.
  intros [Hd Hb Hr Hf Hl] L. pose proof L as [_ [(Eb & Ec & _) Ef Ezb] _ _ _].
  assert (En : ZoneMap_blocks m' = ZoneMap_blocks (bs_device s)) by (unfold ZoneMap_blocks; by rewrite Ec, Ef, Ezb).
  constructor; cbn in *; try done; [by eapply lessens_mapped|by rewrite Eb|by rewrite En].
Qed.

Lemma lessens_held s m' k c : lessens (bs_device s) m' → held (under s m') k c → held s k c.
Proof.
  intros L Hh. apply (held_kept (under s m') s); cbn; [done|done|lia|done|].
  intros b l Lc Hl. cbn. destruct (hd_mapped _ _ _ Hh b l Lc Hl) as [x Hx]. cbn in Hx.
  by rewrite Hx, (le_contents _ _ L _ _ Hx).
Qed.

(** A sequence of calls of the mapping. *)
Lemma lessens_trans m1 m2 m3 : lessens m1 m2 → lessens m2 m3 → lessens m1 m3.
Proof.
  intros [H1 [(G1 & G2 & G3 & G4) F1 Z1] P1 C1 Y1] [H2 [(G1' & G2' & G3' & G4') F2 Z2] P2 C2 Y2].
  split; [done| |by auto|by auto|by auto].
  split; [|congruence|congruence]. split_and!; [congruence..|]. intros z. by rewrite G4'.
Qed.

(** The calls of a cycle, and what they leave alone. *)
Lemma settled_lessens {A} m (r : res fault A) m' : Map_ok m → settled m r m' → lessens m m'.
Proof. intros Hm (Hm' & Q & _). by apply quiet_lessens. Qed.

Lemma copy_forward_lessens m l r m' :
  Map_ok m → zm_physical m !! l ≠ Some 0 → ZoneMap_copy_forward l m = (r, m') →
  lessens m m' ∧ zm_physical m' = zm_physical m ∧ ∀ l', contents m' l' = contents m l'.
Proof.
  intros Hm Hl E. destruct (copy_forward_spec m l r m' Hm Hl E) as (_ & Hm' & Hc). destruct r as [to|e].
  - destruct Hc as (m1 & x & (Hm1 & Q & _) & _ & _ & ->).
    assert (Hc' : ∀ l', contents (with_copies (<[l:=to]> (zm_copies m1)) m1) l' = contents m l').
    { intros l'. change (contents m1 l' = contents m l'). by apply quiet_contents. }
    split_and!; [|apply Q|done]. destruct (quiet_lessens m m1 Hm Hm1 Q) as [_ [G F Z] P C Y].
    split; [done|by split|done|intros l' y; by rewrite Hc'|done].
  - split_and!; [by apply quiet_lessens|apply Hc|intros; by apply quiet_contents].
Qed.

Lemma commit_lessens m r m' :
  Map_ok m → ZoneMap_commit_copies m = (r, m') →
  lessens m m' ∧ (∀ l, contents m' l = contents m l) ∧ (∀ e, r = Err e → zm_physical m' = zm_physical m).
Proof.
  intros Hm E. destruct (commit_spec m r m' Hm E) as (_ & Hm' & Hc & _ & _ & Hr). destruct r as [n|e].
  - destruct Hr as (_ & _ & Hp & F). split_and!; [|done|done]. split; [done|done| |intros l x; by rewrite Hc|].
    + intros l [b Hb]. rewrite Hp in Hb. apply lookup_union_Some_raw in Hb as [Hb|[_ Hb]]; [|by eexists].
      destruct (mo_copies m Hm l b Hb) as (_ & _ & _ & b' & ? & _). by eexists.
    + intros l. rewrite Hp. intros [Hb|[_ Hb]]%lookup_union_Some_raw; [|done].
      destruct (mo_copies m Hm l 0 Hb) as (Hi & _). pose proof (in_data_pos m 0 Hm Hi). lia.
  - split_and!; [by apply quiet_lessens|done|intros e' _; apply Hr].
Qed.

Lemma recycle_lessens m z r m' :
  Map_ok m → ZoneMap_recycle z m = (r, m') →
  lessens m m' ∧ (∀ l b, zm_physical m' !! l = Some b → zm_physical m !! l = Some b) ∧
  (∀ l, l ∉ ZoneMap_holds m z → contents m' l = contents m l).
Proof.
  intros Hm E. destruct (recycle_spec m z r m' Hm E) as (_ & Hm' & Hr). destruct r as [[]|e].
  - destruct Hr as (_ & _ & Hc & _ & _ & F & Hp). split_and!; [|done|intros l Hl; by rewrite Hc, decide_False].
    split; [done|done|intros l [b Hb]; eexists; by apply Hp| |intros l Hb; by apply Hp].
    intros l x. rewrite Hc. by case_decide.
  - split_and!; [by apply quiet_lessens|by rewrite (q_physical _ _ Hr)|intros l _; by apply quiet_contents].
Qed.

Lemma publish_zones_settled k zones : ∀ m r m',
  Map_ok m → publish_zones k zones m = (r, m') → Map_ok m' ∧ quiet m m'.
Proof.
  induction zones as [|z zones IH]; intros m r m' Hm; cbn [publish_zones].
  { intros [= _ <-]. split; [done|apply quiet_refl]. }
  unfold sm_bind. destruct (ZoneMap_set_live_bytes _ _ m) as [r1 m1] eqn:E1.
  destruct (set_live_bytes_settled m z _ r1 m1 Hm E1) as (Hm1 & Q1 & _). destruct r1 as [[]|e]; [|intros [= _ <-]; done].
  intros E. destruct (IH m1 r m' Hm1 E) as [? Q]. split; [done|by eapply quiet_trans].
Qed.

(** ** The invariant of the mark *)

(** What the walk has been to is marked whole, where the mapping has it. *)
Record Marks_ok (k : Mark) s : Prop := {
  ma_covers : covers (bs_device s) k;
  ma_keyed : keyed k;
  ma_walked : mk_seen k ⊆ mk_roots k;
  ma_marked : ∀ kd x b, sha256 x ∈ mk_roots k → held s kd x → bs_located s !! sha256 x = Some b → marked_whole s k b kd x;
}.

Lemma covers_frame m m' k : covers m k → same_frame m m' → covers m' k.
Proof. intros Hc [(_ & E1 & E2 & _) _ _]. unfold covers. by rewrite E1, E2. Qed.

(** A call of the mapping that moves no block. *)
Lemma marks_lessens k s m' :
  Marks_ok k s → lessens (bs_device s) m' →
  (∀ l p, zm_physical m' !! l = Some p → zm_physical (bs_device s) !! l = Some p) → Marks_ok k (under s m').
Proof.
  intros [Hc Hk Hw Hm] L Hsub. split; try done.
  - eapply covers_frame; [done|apply L].
  - intros kd x b Hx Hh Hl. destruct (Hm kd x b Hx (lessens_held _ _ _ _ L Hh) Hl) as (H1 & H2 & H3).
    split_and!; [done| |done]. intros l p Hb P. apply (H2 l p Hb). by apply Hsub.
Qed.

Lemma pushes_marks k k' s : pushes k k' → Marks_ok k s → Marks_ok k' s.
Proof.
  intros [Eb Er El Es Eu Hp] [Hc Hk Hw Hm].
  split; [by unfold covers; rewrite Eb|by unfold keyed; rewrite El|by rewrite Es, Er|].
  intros kd x b. rewrite Er. intros Hx Hh Hl. destruct (Hm kd x b Hx Hh Hl) as (H1 & H2 & H3).
  split_and!; [by rewrite El|by rewrite Eb|]. intros Hkd child Hin. rewrite Es.
  destruct (H3 Hkd child Hin); auto.
Qed.

Lemma grows_marks k k' s : grows k k' → same_walk k k' → mk_live k' = mk_live k → Marks_ok k s → Marks_ok k' s.
Proof.
  intros G [Er Ep Es _] El [Hc Hk Hw Hm].
  split; [by eapply covers_grows|by unfold keyed; rewrite El|by rewrite Es, Er|].
  intros kd x b. rewrite Er. intros Hx Hh Hl. destruct (Hm kd x b Hx Hh Hl) as (H1 & H2 & H3).
  split_and!; [by rewrite El| |by rewrite Es, Ep]. intros l p Hb P. apply G; [apply Hc|by eapply H2].
Qed.

Lemma walks_pushes hs k : pushes k (foldl (λ k h, Mark_walk h k) k hs).
Proof.
  revert k. induction hs as [|h hs IH]; intros k; cbn [foldl]; [reflexivity|].
  etrans; [apply walk_pushes|apply IH].
Qed.

(** One step of the walk: nothing of the store moves, and a step that is taken
    keeps the invariant. *)
Lemma mark_step_marks k s r k' s' :
  Store_sound s → Marks_ok k s → Mark_step (k, s) = (r, (k', s')) →
  s' = under s (bs_device s') ∧ lessens (bs_device s) (bs_device s') ∧ zm_physical (bs_device s') = zm_physical (bs_device s) ∧
  (∀ l, contents (bs_device s') l = contents (bs_device s) l) ∧ bm_bits (mk_bits k') = bm_bits (mk_bits k) ∧
  Bitmap_ok (mk_bits k') ∧ ∀ a, r = Ok a → Marks_ok k' s'.
Proof.
  intros Hs Hma. pose proof (sound_map s Hs) as Hmap. pose proof Hma as [Hc Hk Hw Hm]. unfold Mark_step.
  assert (Hstay : s = under s (bs_device s) ∧ lessens (bs_device s) (bs_device s)).
  { split; [by destruct s|by apply lessens_refl]. }
  destruct (mk_pending k) as [|h rest] eqn:Ep.
  { intros [= <- <- <-]. split_and!; try apply Hstay; try apply Hc; done. }
  assert (Hpop : ∀ k2, mk_bits k2 = mk_bits k → mk_live k2 = mk_live k →
    mk_seen k ⊆ mk_seen k2 → h ∈ mk_seen k2 → rest ⊆ mk_pending k2 →
    ∀ kd x b, sha256 x ∈ mk_roots k → held s kd x → bs_located s !! sha256 x = Some b → marked_whole s k2 b kd x).
  { intros k2 Eb El Hseen Hh Hrest kd x b Hx Hheld Hl. destruct (Hm kd x b Hx Hheld Hl) as (H1 & H2 & H3).
    split_and!; [by rewrite El|by rewrite Eb|]. intros Hkd child Hin. rewrite Ep in H3.
    destruct (H3 Hkd child Hin) as [|[->|]%elem_of_cons]; [left; by apply Hseen|by left|right; by apply Hrest]. }
  assert (Hsub : mk_seen k ⊆ {[h]} ∪ mk_seen k) by apply union_subseteq_r.
  assert (Hin : h ∈ ({[h]} ∪ mk_seen k : gset (list Z))) by by apply elem_of_union_l, elem_of_singleton_2.
  case_bool_decide as Hseen.
  { intros [= <- <- <-]. split_and!; try apply Hstay; try apply Hc; try done. intros _ _. split; try done.
    apply (Hpop (mk_with_pending rest k) eq_refl eq_refl ltac:(done) Hseen ltac:(done)). }
  destruct (Store_address s h) as [b0|] eqn:La.
  2:{ unfold add_u64. destruct (u64_max <? _); intros [= <- <- <-]; (split_and!; try apply Hstay; try apply Hc; try done).
      intros _ _. split; [done|done|cbn; by apply union_mono_l|]. intros kd x b Hx Hheld Hl. cbn in Hx.
      apply elem_of_union in Hx as [Hx%elem_of_singleton|Hx]; [unfold Store_address in La; congruence|].
      apply (Hpop (mk_with_roots _ (mk_with_unresolved _ (mk_with_seen _ (mk_with_pending rest k)))) eq_refl eq_refl Hsub Hin ltac:(done) kd x b Hx Hheld Hl). }
  set (k1 := mk_with_seen _ _). intros E.
  destruct (mark_record_spec s k1 h b0 r k' s' Hs Hc La E) as (Hs' & (_ & E1 & E2 & E3) & Q & [G Es _ Hp Hlive] & Hr).
  assert (Hunder : s' = under s (bs_device s')) by (destruct s'; cbn in *; subst; done).
  assert (Hless : lessens (bs_device s) (bs_device s')) by (apply quiet_lessens; [done|by apply sound_map|done]).
  split_and!; [done|done|apply Q|intros; by apply quiet_contents|apply G|apply G, Hc|].
  intros a ->. destruct (Hr a eq_refl) as [Er Hnew]. rewrite Hunder.
  apply marks_lessens; [|done|by rewrite (q_physical _ _ Q)].
  split; [exact (covers_grows _ k1 k' Hc G)| |rewrite Es, Er; cbn; by apply union_mono_l|].
  { intros b e. destruct Hlive as [->|[n ->]]; [apply Hk|].
    destruct (decide (b = b0)) as [->|]; [rewrite lookup_insert_eq; by intros [= <-]|].
    rewrite lookup_insert_ne by done. apply Hk. }
  intros kd x b Hx Hheld Hl. destruct (decide (b = b0)) as [->|Hb]; [by apply Hnew, Hl; apply Hheld|].
  rewrite Er in Hx. apply elem_of_union in Hx as [Hx%elem_of_singleton|Hx].
  { unfold Store_address in La. congruence. }
  destruct (Hpop k1 eq_refl eq_refl Hsub Hin ltac:(done) kd x b Hx Hheld Hl) as (H1 & H2 & H3).
  split_and!.
  - destruct Hlive as [->|[n ->]]; [done|]. by rewrite lookup_insert_ne.
  - intros l p Hlp P. apply G; [apply Hc|by eapply H2].
  - intros Hkd child Hc'. rewrite Es. destruct (H3 Hkd child Hc'); auto.
Qed.

(** ** The invariant of a cycle *)
Record Cycle_ok (c : Collector) s : Prop := {
  cy_sound : Store_sound s;
  cy_marks : Marks_ok (co_mark c) s;
  cy_phase : co_phase c = PhMarking ∨ mk_pending (co_mark c) = [];
  cy_remaining : ∀ sw l, co_sweeping c = Some sw → l ∈ sp_remaining sw → zm_physical (bs_device s) !! l ≠ Some 0;
}.

Lemma cycle_lessens c s m' :
  Cycle_ok c s → lessens (bs_device s) m' →
  (∀ l p, zm_physical m' !! l = Some p → zm_physical (bs_device s) !! l = Some p) → Cycle_ok c (under s m').
Proof.
  intros [Hs Hm Hp Hr] L Hsub. split; [by apply lessens_sound|by apply marks_lessens|done|].
  intros sw l Hsw Hl P. apply (Hr sw l Hsw Hl). by apply (le_zero _ _ L).
Qed.

(** ** What may not be lost *)

(** The digests named from the pinned roots, through the objects held. *)
Inductive reachable s (R : gset (list Z)) : list Z → Prop :=
| reached_root h : h ∈ R → reachable s R h
| reached_child x child :
    reachable s R (sha256 x) → held s kind_OBJECT x → child ∈ object_names x → reachable s R child.

(** Every record reachable from the roots stays held, and every block of an
    open write set keeps its contents. *)
Definition keeps_reachable (roots : Roots) s s' : Prop :=
  (∀ kd x, reachable s (rt_pinned roots) (sha256 x) → held s kd x → held s' kd x) ∧
  ∀ l, l ∈ Roots_transient_blocks roots → contents (bs_device s') l = contents (bs_device s) l.

Lemma all_marked_true m k ls :
  Map_ok m → Bitmap_ok (mk_bits k) → all_marked m k ls = Ok true →
  ∀ l, l ∈ ls → ∃ p, zm_physical m !! l = Some p ∧ is_set (mk_bits k) p = true.
Proof.
  intros Hm Hb. induction ls as [|l ls IH]; cbn [all_marked]; [intros _ l ?%elem_of_nil; done|].
  unfold ZoneMap_physical. destruct (zm_physical m !! l) as [p|] eqn:P; [|done].
  rewrite Bitmap_get_spec by (done || by eapply physical_range). rsimpl.
  destruct (is_set (mk_bits k) p) eqn:Es; [|done]. intros E l' [->|Hl]%elem_of_cons; [by exists p|by apply IH].
Qed.

(** The guard of a reset, when it holds. *)
Lemma guard_true m k roots z :
  Map_ok m → Bitmap_ok (mk_bits k) → 0 ≤ z → nothing_reachable_is_swept m k roots z = Ok true →
  rt_pinned roots ⊆ mk_roots k ∧
  (∀ l, l ∈ Roots_transient_blocks roots → ∃ p, zm_physical m !! l = Some p ∧ is_set (mk_bits k) p = true) ∧
  ∀ p, in_zone_range m z p → is_set (mk_bits k) p = false.
Proof.
  intros Hm Hb Hz. unfold nothing_reachable_is_swept. case_bool_decide as Hp; [|done]. cbn [negb].
  destruct (all_marked m k _) as [[]|] eqn:Ha; rsimpl; try done.
  destruct (u64_max <? _); [done|]. destruct (mo_zb m Hm) as [Ezb Hzb].
  assert (Hfrom : 0 ≤ z * zone_blocks (zm_device m)) by (rewrite <- Ezb; nia).
  destruct (Bitmap_any_spec (mk_bits k) (z * zone_blocks (zm_device m)) (z * zone_blocks (zm_device m) + zone_blocks (zm_device m)) Hb Hfrom)
    as (r & -> & Hr). rsimpl. intros [= Er]. split_and!; [done| |].
  - intros l Hl. apply (all_marked_true m k _ Hm Hb Ha). by apply elem_of_set_list.
  - intros p Hp'. destruct (is_set (mk_bits k) p) eqn:Es; [|done]. destruct r; [done|].
    destruct (proj2 Hr); [|done]. exists p. unfold in_zone_range in Hp'. rewrite Ezb in Hp'. done.
Qed.

Lemma reachable_walked k s R h :
  Marks_ok k s → mk_pending k = [] → R ⊆ mk_roots k → reachable s R h → h ∈ mk_roots k.
Proof.
  intros Hma Hp HR. induction 1 as [h Hh|x child _ IH Hheld Hin]; [by apply HR|].
  destruct (holds_located _ _ _ (hd_holds _ _ _ Hheld)) as (b & L & _).
  destruct (ma_marked _ _ Hma _ _ b IH Hheld L) as (_ & _ & Hch). apply (ma_walked _ _ Hma).
  destruct (Hch eq_refl child Hin) as [|Hc]; [done|]. rewrite Hp in Hc. by apply elem_of_nil in Hc.
Qed.

Lemma reset_keeps k s roots z m' :
  Store_sound s → Marks_ok k s → mk_pending k = [] → 0 ≤ z →
  nothing_reachable_is_swept (bs_device s) k roots z = Ok true →
  (∀ l, l ∉ ZoneMap_holds (bs_device s) z → contents m' l = contents (bs_device s) l) →
  keeps_reachable roots s (under s m').
Proof.
  intros Hs Hma Hp Hz Hg Hc. pose proof (sound_map s Hs) as Hm.
  destruct (guard_true _ _ _ _ Hm (proj1 (ma_covers _ _ Hma)) Hz Hg) as (HR & Ht & Hclear).
  assert (Hsafe : ∀ l, (∀ p, zm_physical (bs_device s) !! l = Some p → is_set (mk_bits k) p = true) →
                       contents m' l = contents (bs_device s) l).
  { intros l Hl. apply Hc. intros (p & P & Hr)%(elem_of_holds _ _ _ Hm). specialize (Hl p P). by rewrite Hclear in Hl. }
  split.
  - intros kd x Hreach Hheld. pose proof (reachable_walked k s _ _ Hma Hp HR Hreach) as Hin.
    apply (held_kept s); try done. intros b l L Hl. apply Hsafe. intros p P.
    destruct (ma_marked _ _ Hma _ _ b Hin Hheld L) as (_ & Hset & _). by eapply Hset.
  - intros l Hl. apply Hsafe. intros p P. destruct (Ht l Hl) as (p' & P' & ?). congruence.
Qed.

(** ** The steps *)
Definition stays s s' : Prop :=
  s' = under s (bs_device s') ∧ lessens (bs_device s) (bs_device s') ∧
  ∀ l, contents (bs_device s') l = contents (bs_device s) l.

Lemma stays_refl s : Store_sound s → stays s s.
Proof. intros Hs. split_and!; [by destruct s|by apply lessens_refl, sound_map|done]. Qed.

Lemma stays_trans s1 s2 s3 : stays s1 s2 → stays s2 s3 → stays s1 s3.
Proof.
  intros (E1 & L1 & C1) (E2 & L2 & C2). split_and!; [by rewrite E2, E1|by eapply lessens_trans|].
  intros l. by rewrite C2.
Qed.

Lemma stays_keeps roots s s' : stays s s' → keeps_reachable roots s s'.
Proof.
  intros (E & L & C). split; [|intros; apply C]. intros kd x _ Hh. rewrite E. by apply (held_kept s).
Qed.

(** What a step that takes nothing away comes to. *)
Record calm (c c' : Collector) s s' (ok : Prop) : Prop := {
  ca_stays : stays s s';
  ca_covers : covers (bs_device s') (co_mark c');
  ca_ok : ok → Cycle_ok c' s';
}.

Lemma calm_refl c s ok : Cycle_ok c s → calm c c s s ok.
Proof. intros Hc. split; [apply stays_refl, Hc|apply Hc|done]. Qed.

Lemma of_queue_spec f c s r c' s' :
  of_queue f (c, s) = (r, (c', s')) → s' = s ∧ ∃ q, c' = co_with_queue q c.
Proof.
  unfold of_queue. destruct (f (co_queue c)) as [[r1 q]|]; intros [= _ <- <-]; (split; [done|]); [by eexists|].
  exists (co_queue c). by destruct c.
Qed.

Lemma cycle_queue c s q : Cycle_ok c s → Cycle_ok (co_with_queue q c) s.
Proof. intros []. by split. Qed.

Lemma occupy_transient_spec s roots k r k' :
  Store_sound s → Marks_ok k s → Mark_occupy_transient s (Roots_transient_blocks roots) k = (r, k') →
  Marks_ok k' s ∧ mk_pending k' = mk_pending k ∧ mk_roots k' = mk_roots k.
Proof.
  intros Hs Hma E. apply occupy_blocks_spec in E as (G & W & L & _); [|by apply sound_map|apply Hma].
  split_and!; [by eapply grows_marks|apply W|apply W].
Qed.

Lemma catch_up_spec roots c s r c' s' :
  Cycle_ok c s → catch_up roots (c, s) = (r, (c', s')) →
  s' = s ∧ covers (bs_device s) (co_mark c') ∧ (r = Ok tt → Cycle_ok c' s) ∧ (co_phase c ≠ PhIdle → co_phase c' ≠ PhIdle).
Proof.
  intros [Hs Hma Hp Hr]. unfold catch_up. set (missing := filter _ _). set (k1 := foldl _ _ _).
  assert (Hpush : pushes (co_mark c) k1) by apply walks_pushes.
  pose proof (pushes_marks _ _ _ Hpush Hma) as Hma1.
  unfold sm_bind, of_walk, of_mark. cbn [co_mark co_with_mark].
  destruct (Mark_occupy_transient s _ k1) as [r1 k2] eqn:E.
  destruct (occupy_transient_spec s roots k1 r1 k2 Hs Hma1 E) as (Hma2 & Ep & _).
  destruct r1 as [[]|e]; [|intros [= <- <- <-]; split_and!; [done|apply Hma2|done|done]].
  destruct missing as [|h hs] eqn:Em; intros [= <- <- <-]; (split_and!; [done|apply Hma2| |done]); intros _;
    (split; [done|done| |done]); [|by left].
  cbn. destruct Hp as [Hp|Hp]; [left|right]; [done|]. by rewrite Ep.
Qed.

Lemma publish_mark_spec c s r c' s' :
  Store_sound s → publish_mark (c, s) = (r, (c', s')) →
  c' = c ∧ stays s s' ∧ zm_physical (bs_device s') = zm_physical (bs_device s).
Proof.
  intros Hs. unfold publish_mark, of_map, on_blocks, Mark_publish.
  destruct (publish_zones _ _ (bs_device s)) as [r1 m1] eqn:E. intros [= _ <- <-]. pose proof (sound_map s Hs) as Hm.
  destruct (publish_zones_settled _ _ _ _ _ Hm E) as [Hm1 Q]. split_and!; [done| |apply Q].
  split_and!; [done|by apply quiet_lessens|intros; by apply quiet_contents].
Qed.

(** A call that stays, in the invariant. *)
Lemma cycle_stays c s s' :
  Cycle_ok c s → stays s s' → zm_physical (bs_device s') = zm_physical (bs_device s) → Cycle_ok c s'.
Proof. intros Hc (E & L & _) P. rewrite E. apply cycle_lessens; [done|done|]. by rewrite P. Qed.

Lemma stays_covers s s' k : covers (bs_device s) k → stays s s' → covers (bs_device s') k.
Proof. intros Hc (_ & L & _). eapply covers_frame; [done|apply L]. Qed.

Lemma marking_spec roots c s r c' s' :
  Cycle_ok c s → co_phase c = PhMarking → marking roots (c, s) = (r, (c', s')) →
  calm c c' s s' (∃ p, r = Ok p).
Proof.
  intros Hc Hph. pose proof Hc as [Hs Hma Hp Hr]. unfold marking.
  destruct (Mark_walking (co_mark c)) eqn:Ew.
  - unfold sm_bind at 1. destruct (of_queue _ (c, s)) as [r1 [c1 s1]] eqn:Eq.
    apply of_queue_spec in Eq as (-> & q & ->).
    destruct r1 as [[]|e]; [|intros [= <- <- <-]; split; [by apply stays_refl|apply Hma|by intros [? ?]]].
    unfold sm_bind, of_walk. cbn [co_mark co_with_queue]. destruct (Mark_step (co_mark c, s)) as [r2 [k2 s2]] eqn:Em.
    destruct (mark_step_marks _ _ _ _ _ Hs Hma Em) as (E & L & P & C & Eb & Ho & Hok).
    assert (Hst : stays s s2) by by split_and!.
    assert (Hcov : covers (bs_device s2) k2).
    { destruct (ma_covers _ _ Hma) as [_ Hcv]. destruct (fr_geometry _ _ (le_frame _ _ L)) as (_ & E1 & E2 & _).
      split; [done|]. by rewrite E1, E2, Eb. }
    destruct r2 as [a|e]; intros [= <- <- <-]; (split; [done|done|]); [|by intros [? ?]]. intros _.
    split; [rewrite E; by apply lessens_sound|by eapply Hok|by left|].
    intros sw l Hsw Hl. rewrite P. by apply (Hr sw l).
  - unfold sm_bind at 1, of_walk, of_mark. destruct (Mark_occupy_transient s _ (co_mark c)) as [r1 k1] eqn:E1.
    destruct (occupy_transient_spec s roots _ r1 k1 Hs Hma E1) as (Hma1 & Ep & _).
    destruct r1 as [[]|e]; [|intros [= <- <- <-]; split; [by apply stays_refl|apply Hma1|by intros [? ?]]].
    assert (Hc1 : Cycle_ok (co_with_mark k1 c) s) by (split; [done|done|by left|done]).
    unfold sm_bind at 1. destruct (publish_mark (co_with_mark k1 c, s)) as [r2 [c2 s2]] eqn:E2.
    apply publish_mark_spec in E2 as (-> & Hst & P); [|done].
    pose proof (cycle_stays _ _ _ Hc1 Hst P) as [Hs2 Hma2 _ Hr2].
    destruct r2 as [[]|e]; intros [= <- <- <-]; (split; [done|apply Hma2|]); [|by intros [? ?]]. intros _.
    split; [done|done|right|done]. cbn. rewrite Ep. unfold Mark_walking in Ew. by destruct (mk_pending (co_mark c)).
Qed.

Lemma selecting_spec c s r c' s' :
  Cycle_ok c s → co_phase c ≠ PhMarking → selecting (c, s) = (r, (c', s')) → calm c c' s s' (∃ p, r = Ok p).
Proof.
  intros Hc Hph. pose proof Hc as [Hs Hma [Hp|Hp] Hr]; [done|]. unfold selecting.
  assert (Hw : ∀ l ph, Cycle_ok (co_with_phase ph (co_with_chosen l c)) s) by (intros; split; [done|done|by right|done]).
  destruct (u64_max <? _); [intros [= <- <- <-]; by apply calm_refl|].
  destruct (candidates_of _ _) as [cs|e]; [|intros [= <- <- <-]; by apply calm_refl].
  destruct (snd <$> _); intros [= <- <- <-]; (split; [by apply stays_refl|apply Hma|intros _; apply Hw]).
Qed.

(** What is live in a zone is held by it, away from the superblock. *)
Lemma live_of_elem m k ls live : live_of m k ls = Ok live → live ⊆ ls.
Proof.
  revert live. induction ls as [|l ls IH]; intros live; cbn [live_of]; [by intros [= <-]|].
  match goal with |- context [res_bind ?x _] => destruct x as [set|] end; rsimpl; [|done].
  destruct (live_of m k ls) as [rest|]; rsimpl; [|done]. specialize (IH rest eq_refl).
  destruct set; intros [= <-] x; rewrite ?elem_of_cons; [intros [->|?]; [by left|]|intros ?]; right; by apply IH.
Qed.

Lemma condemn_next_spec c s r c' s' :
  Cycle_ok c s → co_phase c ≠ PhMarking → condemn_next (c, s) = (r, (c', s')) → calm c c' s s' (∃ p, r = Ok p).
Proof.
  intros Hc Hph. pose proof Hc as [Hs Hma [Hp|Hp] Hr]; [done|]. unfold condemn_next.
  destruct (list.last (co_chosen c)) as [z|].
  2:{ intros [= <- <- <-]. split; [by apply stays_refl|apply Hma|]. intros _. split; [done|done|by right|done]. }
  unfold sm_bind at 1, set_co, sm_put. unfold sm_bind, of_map, on_blocks.
  destruct (ZoneMap_condemn z (bs_device s)) as [r1 m1] eqn:E1. pose proof (sound_map s Hs) as Hm.
  destruct (condemn_settled _ _ _ _ Hm E1) as [(Hm1 & Q & _) Hz].
  assert (Hst : stays s (under s m1)) by (split_and!; [done|by apply quiet_lessens|intros; by apply quiet_contents]).
  pose proof (cycle_stays _ _ _ Hc Hst (q_physical _ _ Q)) as [Hs1 Hma1 _ Hr1].
  destruct r1 as [[]|e]; [|intros [= <- <- <-]; split; [done|apply Hma1|by intros [? ?]]].
  destruct (live_in _ _ z) as [live|e] eqn:El; intros [= <- <- <-]; (split; [done|apply Hma1|]); [|by intros [? ?]].
  intros _. split; [done|done|by right|]. intros sw l [= <-] Hl. cbn in Hl. apply (live_of_elem _ _ _ _ El) in Hl.
  apply (held_not_zero m1 z); [done| |done].
  destruct Hz as [Hz _]. specialize (Hz eq_refl) as [_ Hz]. unfold state_of in Hz. by destruct (zm_zones m1 !! z).
Qed.

Lemma sweep_copy_spec sw l rest c s r c' s' :
  Cycle_ok c s → co_phase c ≠ PhMarking → co_sweeping c = Some sw → sp_remaining sw = l :: rest →
  sweep_copy sw l rest (c, s) = (r, (c', s')) → calm c c' s s' (∃ p, r = Ok p).
Proof.
  intros Hc Hph Hsw Hrem. pose proof Hc as [Hs Hma [Hp|Hp] Hr]; [done|]. unfold sweep_copy.
  assert (Hl : zm_physical (bs_device s) !! l ≠ Some 0).
  { apply (Hr sw l Hsw). rewrite Hrem. apply list_elem_of_here. }
  set (c1 := co_with_sweeping (Some (mkSweep (sp_zone sw) rest (sp_committed sw))) c). assert (Hc1 : Cycle_ok c1 s).
  { split; [done|done|by right|]. intros sw' l' [= <-] Hl'. apply (Hr sw l' Hsw). rewrite Hrem. by apply list_elem_of_further. }
  unfold sm_bind at 1, set_co, sm_put. fold c1. unfold sm_bind at 1.
  destruct (of_queue _ (c1, s)) as [r1 [c2 s2]] eqn:Eq. apply of_queue_spec in Eq as (-> & q & ->).
  pose proof (cycle_queue c1 s q Hc1) as Hc2.
  destruct r1 as [[]|e]; [|intros [= <- <- <-]; split; [by apply stays_refl|apply Hma|by intros [? ?]]].
  unfold sm_bind at 1, of_map, on_blocks. destruct (ZoneMap_copy_forward l (bs_device s)) as [r2 m2] eqn:E2.
  destruct (copy_forward_lessens _ _ _ _ (sound_map s Hs) Hl E2) as (L & P & C).
  assert (Hst : stays s (under s m2)) by done.
  pose proof (cycle_stays _ _ _ Hc2 Hst P) as Hc3. pose proof Hc3 as [Hs3 Hma3 _ Hr3].
  destruct r2 as [to|e]; [|intros [= <- <- <-]; split; [done|apply Hma3|by intros [? ?]]].
  unfold sm_bind, sm_get, count_copied. destruct (add_u64 _ _); intros [= <- <- <-]; (split; [done|apply Hma3|]); [|by intros [? ?]].
  intros _. split; [done|done|by right|done].
Qed.

(** After a commit the mark is made again from what it found live. *)
Lemma rebuild_marks k s s' roots r k' :
  Store_sound s' → Marks_ok k s → stays s s' → Mark_rebuild s' roots k = (r, k') →
  covers (bs_device s') k' ∧ mk_pending k' = mk_pending k ∧ (r = Ok tt → Marks_ok k' s').
Proof.
  intros Hs' [Hc Hk Hw Hm] Hst E. pose proof Hst as (Eu & L & C). pose proof (stays_covers _ _ _ Hc Hst) as Hc1.
  destruct (rebuild_spec s' roots k r k' (sound_map s' Hs') Hc1 Hk E) as (Ho & Eb & W & El & Hset & _).
  assert (Hcov : covers (bs_device s') k') by (split; [done|rewrite Eb; apply Hc1]).
  split_and!; [done|apply W|]. intros ->. split; [done|by unfold keyed; rewrite El|by rewrite (sw_seen _ _ W), (sw_roots _ _ W)|].
  intros kd x b. rewrite (sw_roots _ _ W). intros Hx Hh Hl. rewrite Eu in Hh, Hl.
  destruct (Hm kd x b Hx (lessens_held _ _ _ _ L Hh) Hl) as (H1 & H2 & H3).
  assert (Espan : blob_span s' x = blob_span s x) by (by rewrite Eu).
  split_and!.
  - by rewrite El, Espan.
  - intros l p Hlp P. rewrite Espan in Hlp. eapply (Hset eq_refl b); [exact H1| |exact P].
    by apply elem_of_extent_blocks.
  - intros Hkd child Hin. rewrite (sw_seen _ _ W), (sw_pending _ _ W). by apply H3.
Qed.

Lemma sweep_commit_spec roots sw c s r c' s' :
  Cycle_ok c s → co_phase c ≠ PhMarking → co_sweeping c = Some sw → sp_remaining sw = [] →
  sweep_commit roots sw (c, s) = (r, (c', s')) → calm c c' s s' (∃ p, r = Ok p).
Proof.
  intros Hc Hph Hsw Hrem. pose proof Hc as [Hs Hma [Hp|Hp] Hr]; [done|]. unfold sweep_commit.
  set (c1 := co_with_sweeping (Some (mkSweep (sp_zone sw) (sp_remaining sw) true)) c). assert (Hrem1 : ∀ sw' l (P : Prop), co_sweeping c1 = Some sw' → l ∈ sp_remaining sw' → P).
  { intros sw' l P [= <-]. cbn. rewrite Hrem. by intros ?%elem_of_nil. }
  unfold sm_bind at 1, set_co, sm_put. fold c1. unfold sm_bind at 1.
  destruct (of_queue _ (c1, s)) as [r1 [c2 s2]] eqn:Eq. apply of_queue_spec in Eq as (-> & q & ->).
  destruct r1 as [[]|e]; [|intros [= <- <- <-]; split; [by apply stays_refl|apply Hma|by intros [? ?]]].
  unfold sm_bind at 1, of_map, on_blocks. destruct (ZoneMap_commit_copies (bs_device s)) as [r2 m2] eqn:E2.
  destruct (commit_lessens _ _ _ (sound_map s Hs) E2) as (L & C & _).
  assert (Hst : stays s (under s m2)) by done. assert (Hs2 : Store_sound (under s m2)) by by apply lessens_sound.
  destruct r2 as [n|e]; [|intros [= <- <- <-]; split; [done|by apply (stays_covers s), Hst; apply Hma|by intros [? ?]]].
  unfold sm_bind at 1, sm_get. cbn [snd]. unfold sm_bind at 1, of_walk, of_mark. cbn [co_mark co_with_queue].
  change (co_mark c1) with (co_mark c).
  destruct (Mark_rebuild _ roots (co_mark c)) as [r3 k3] eqn:E3.
  destruct (rebuild_marks _ s _ roots r3 k3 Hs2 Hma Hst E3) as (Hcov & Ep & Hma3).
  destruct r3 as [[]|e]; [|intros [= <- <- <-]; split; [done|done|by intros [? ?]]].
  set (c3 := co_with_mark k3 _).
  assert (Hc3 : Cycle_ok c3 (under s m2)).
  { split; [done|by apply Hma3|right; by rewrite <- Hp|]. intros sw' l Hsw' Hl. by eapply Hrem1. }
  unfold sm_bind. destruct (publish_mark (c3, _)) as [r4 [c4 s4]] eqn:E4.
  apply publish_mark_spec in E4 as (-> & Hst4 & P4); [|done]. pose proof (cycle_stays _ _ _ Hc3 Hst4 P4) as Hc4.
  assert (Hst' : stays s s4) by by eapply stays_trans.
  destruct r4 as [[]|e]; intros [= <- <- <-]; (split; [done|apply Hc4|]); [done|by intros [? ?]].
Qed.

(** A reset, whatever it comes to. *)
Lemma sweep_reset_spec roots z c s r c' s' :
  Cycle_ok c s → co_phase c ≠ PhMarking → sweep_reset roots z (c, s) = (r, (c', s')) →
  keeps_reachable roots s s' ∧ s' = under s (bs_device s') ∧ lessens (bs_device s) (bs_device s') ∧
  covers (bs_device s') (co_mark c') ∧ ((∃ p, r = Ok p) → Cycle_ok c' s').
Proof.
  intros Hc Hph. pose proof Hc as [Hs Hma [Hp|Hp] Hr]; [done|]. unfold sweep_reset.
  assert (Hstop : ∀ q, keeps_reachable roots s s ∧ s = under s (bs_device s) ∧ lessens (bs_device s) (bs_device s) ∧
    covers (bs_device s) (co_mark (co_with_queue q c))).
  { intros q. pose proof (stays_refl s Hs) as Hst. split_and!; [by apply stays_keeps|apply Hst|apply Hst|apply Hma]. }
  destruct (Hstop (co_queue c)) as (A1 & A2 & A3 & A4).
  destruct (no_reader_believes_the_zone (bs_device s) z) eqn:Hreader; cbn [negb]; [|intros [= <- <- <-]; by split_and!].
  destruct (all_three _ _ _ _ z) as [[]|e] eqn:Hg; [|intros [= <- <- <-]; split_and!; try done; by intros [? ?]..].
  unfold all_three in Hg. destruct (nothing_reachable_is_swept _ _ _ z) as [[]|] eqn:Hn; rsimpl_in Hg; try done.
  unfold sm_bind at 1. destruct (of_queue _ (c, s)) as [r1 [c1 s1]] eqn:Eq. apply of_queue_spec in Eq as (-> & q & ->).
  destruct r1 as [[]|e]; [|intros [= <- <- <-]; destruct (Hstop q) as (? & ? & ? & ?); split_and!; try done; by intros [? ?]].
  unfold sm_bind at 1, of_map, on_blocks. destruct (ZoneMap_recycle z (bs_device s)) as [r2 m2] eqn:E2.
  destruct (recycle_lessens _ _ _ _ (sound_map s Hs) E2) as (L & P & C).
  assert (Hz : 0 ≤ z).
  { unfold no_reader_believes_the_zone, ZoneMap_zone in Hreader. destruct (zm_zones _ !! z) eqn:Ez; [|done].
    pose proof (proj1 (mo_zones _ (sound_map s Hs) z) ltac:(by eexists)). pose proof (mo_from _ (sound_map s Hs)). lia. }
  pose proof (reset_keeps _ s roots z m2 Hs Hma Hp Hz Hn C) as Hk.
  pose proof (cycle_lessens _ s m2 (cycle_queue c s q Hc) L P) as [Hs2 Hma2 _ Hr2].
  destruct r2 as [[]|e]; [|intros [= <- <- <-]; split_and!; try done; [apply Hma2|by intros [? ?]]].
  unfold sm_bind, count_condemned, sm_put. destruct (add_u64 _ _); intros [= <- <- <-];
    (split_and!; [done|done|done|apply Hma2|]); [|by intros [? ?]].
  intros _. split; [done|done|by right|done].
Qed.

(** ** Any step *)
Lemma step_spec roots c s r c' s' :
  Cycle_ok c s → Collector_step roots (c, s) = (r, (c', s')) →
  keeps_reachable roots s s' ∧ s' = under s (bs_device s') ∧ lessens (bs_device s) (bs_device s') ∧
  covers (bs_device s') (co_mark c') ∧ ((∃ p, r = Ok p) → Cycle_ok c' s').
Proof.
  intros Hc. unfold Collector_step.
  assert (Hcalm : ∀ c1 c2 s2 ok, calm c1 c2 s s2 ok → keeps_reachable roots s s2 ∧ s2 = under s (bs_device s2) ∧
    lessens (bs_device s) (bs_device s2) ∧ covers (bs_device s2) (co_mark c2) ∧ (ok → Cycle_ok c2 s2)).
  { intros c1 c2 s2 ok [Hst Hcv Hok]. split_and!; [by apply stays_keeps|apply Hst|apply Hst|done|done]. }
  case_bool_decide as Hidle; [intros [= <- <- <-]; by apply (Hcalm c), calm_refl|].
  unfold sm_bind. destruct (catch_up roots (c, s)) as [r1 [c1 s1]] eqn:E1.
  destruct (catch_up_spec _ _ _ _ _ _ Hc E1) as (-> & Hcv & Hok & Hph).
  destruct r1 as [[]|e].
  2:{ intros [= <- <- <-]. apply (Hcalm c). split; [apply stays_refl, Hc|done|by intros [? ?]]. }
  specialize (Hok eq_refl). destruct (co_phase c1) eqn:Eph.
  - by destruct (Hph Hidle).
  - intros E. by eapply Hcalm, marking_spec.
  - intros E. eapply Hcalm, selecting_spec; [done|by rewrite Eph|done].
  - assert (Hnm : co_phase c1 ≠ PhMarking) by by rewrite Eph.
    unfold sweeping. destruct (co_sweeping c1) as [sw|] eqn:Esw.
    + destruct (sp_remaining sw) as [|l rest] eqn:Erem.
      * destruct (sp_committed sw); intros E; [by eapply sweep_reset_spec|by eapply Hcalm, sweep_commit_spec].
      * intros E. by eapply Hcalm, sweep_copy_spec.
    + intros E. by eapply Hcalm, condemn_next_spec.
Qed.
End facts.
