(* ===== verification/CollectorTheorems.v ===== *)
(** * The collector keeps what is reachable

    The first invariant of [zone/src/invariants.rs], proved: nothing a pinned
    root reaches is swept, whatever the client does between the steps and
    however a step ends; and what a step chooses to sweep. *)

From S2P Require Import Prelude Abi Bytes BTree StoreRecords StoreCodecs BlockDevice Sha256 Store StoreFacts StoreTheorems ZoneDevice ZoneMap ZoneMapFacts ZoneOps ZoneTheorems ZoneQueue ZoneStore Roots Mark MarkFacts Collector CollectorFacts ZoneDeviceFacts.
#[local] Open Scope Z_scope.

(** * A cycle and its client

    Between two steps of a cycle the client may put blobs, read, and change the
    roots.  None of it takes a block away, and the invariant of the cycle holds
    through it. *)

Section runs.
Context {D : Type} `{HL : ZonedLaws D}.
Implicit Types (s : Store (ZoneMap D)) (m : ZoneMap D).

(** ** Writing above a block *)

(** Everything below [n] is where it was and as it was. *)
Record adds (n : Z) m m' : Prop := {
  ad_map : Map_ok m';
  ad_frame : same_frame m m';
  ad_physical : ∀ l, l < n → zm_physical m' !! l = zm_physical m !! l;
  ad_contents : ∀ l, l < n → contents m' l = contents m l;
  ad_zero : ∀ l, zm_physical m' !! l = Some 0 → zm_physical m !! l = Some 0;
}.

Lemma adds_refl n m : Map_ok m → adds n m m.
Proof. intros. split; [done|split; [by split_and!|done..]|done..]. Qed.

Lemma adds_trans n n' m1 m2 m3 : n ≤ n' → adds n m1 m2 → adds n' m2 m3 → adds n m1 m3.
Proof.
  intros Hn [H1 [(G1 & G2 & G3 & G4) F1 Z1] P1 C1 Y1] [H2 [(G1' & G2' & G3' & G4') F2 Z2] P2 C2 Y2].
  split; [done| |intros l ?; by rewrite P2, P1 by lia|intros l ?; by rewrite C2, C1 by lia|by auto].
  split; [|congruence|congruence]. split_and!; [congruence..|]. intros z. by rewrite G4'.
Qed.

Lemma quiet_adds n m m' : Map_ok m → Map_ok m' → quiet m m' → adds n m m'.
Proof.
  intros Hm Hm' Q. split; [done|exact (quiet_frame m m' Q)|intros l _; by rewrite (q_physical _ _ Q)| |].
  - intros l _. by apply quiet_contents.
  - intros l. by rewrite (q_physical _ _ Q).
Qed.

Lemma write_adds m l x r m' : Map_ok m → ZoneMap_write l x m = (r, m') → adds l m m'.
Proof.
  intros Hm E. destruct (write_spec m l x r m' Hm E) as (_ & Hm' & Hc).
  pose proof (write_frame m l x r m' Hm E) as (Hg & En & _).
  assert (Hp : (∀ l', l' ≠ l → zm_physical m' !! l' = zm_physical m !! l') ∧
    (zm_physical m' !! l = Some 0 → zm_physical m !! l = Some 0) ∧ zm_data_from m' = zm_data_from m ∧
    zm_zone_blocks m' = zm_zone_blocks m).
  { unfold ZoneMap_write in E. destruct (zm_physical m !! l) as [b|] eqn:P.
    - destruct (zm_zone_blocks m =? 0); [injection E as <- <-; by rewrite P|].
      destruct (u32_max <? _); [injection E as <- <-; by rewrite P|].
      case_bool_decide; [injection E as <- <-; by rewrite P|].
      unfold on_device in E. destruct (dev_write b x (zm_device m)) as [r1 d1]. injection E as <- <-. cbn. by rewrite P.
    - unfold sm_bind in E. destruct (append_somewhere x m) as [r1 m1] eqn:E1.
      destruct (append_somewhere_settled m x r1 m1 Hm E1) as [(Hm1 & Q & _) Hl]. destruct r1 as [at_|e]; injection E as <- <-.
      + cbn. split_and!; [intros l' ?; by rewrite lookup_insert_ne, (q_physical _ _ Q)| |apply Q..].
        rewrite lookup_insert_eq. intros [= ->]. destruct Hl as [Hd _ _ _ _ _ _].
        pose proof (in_data_pos m1 0 Hm1 Hd). lia.
      + rewrite (q_physical _ _ Q), P. split_and!; [done|done|apply Q..]. }
  destruct Hp as (Hp & H0 & Hf & Hzb). split; [done|by split|intros l' ?; apply Hp; lia| |].
  - intros l' Hl'. destruct r as [[]|e]; [|by apply Hc]. destruct Hc as [_ Hc].
    by rewrite Hc, (proj2 (Z.eqb_neq l' l)) by lia.
  - intros l' Hl'. destruct (decide (l' = l)) as [->|]; [by apply H0|]. by rewrite <- Hp.
Qed.

Lemma put_blocks_adds blocks : ∀ b s r s',
  Map_ok (bs_device s) → put_blocks b blocks s = (r, s') → adds b (bs_device s) (bs_device s').
Proof.
  induction blocks as [|x blocks IH]; intros b s r s' Hm; cbn [put_blocks].
  { intros [= _ <-]. by apply adds_refl. }
  unfold sm_bind, on_blocks. cbn [blk_write ZoneMap_device]. destruct (ZoneMap_write b x (bs_device s)) as [r1 m1] eqn:E1.
  pose proof (write_adds _ _ _ _ _ Hm E1) as A1. destruct r1 as [[]|e]; [|by intros [= _ <-]].
  intros E. apply IH in E; [|apply A1]. eapply (adds_trans b (b + 1)); [lia|done|done].
Qed.

Lemma put_adds k x s r s' :
  Store_sound s → Store_put k x s = (r, s') → adds (bs_free s) (bs_device s) (bs_device s').
Proof.
  intros Hs. pose proof (sound_map s Hs) as Hm. unfold Store_put.
  destruct (negb _); [intros [= _ <-]; by apply adds_refl|].
  destruct (bs_located s !! sha256 x); [intros [= _ <-]; by apply adds_refl|].
  destruct (_ || _)%bool; [intros [= _ <-]; by apply adds_refl|].
  destruct (_ || _)%bool; [intros [= _ <-]; by apply adds_refl|].
  destruct (isize_max <? _); [intros [= _ <-]; by apply adds_refl|].
  unfold sm_bind at 1. destruct (put_blocks _ _ s) as [r1 s1] eqn:E1. apply put_blocks_adds in E1; [|done].
  destruct r1 as [[]|e]; [|by intros [= _ <-]]. unfold sm_bind, sm_put, sm_ret. by intros [= _ <-].
Qed.

(** ** Where records end *)

(** A located record that can be read ends below the first free block, or the
    store is full. *)
Definition Spans_ok s : Prop := ∀ h b hd,
  bs_located s !! h = Some b → header_in (blk_view (bs_device s) b) h = Ok hd →
  b + header_span (Store_block_bytes s) hd ≤ bs_free s ∨ bs_free s = blk_count (bs_device s).

Lemma wf_spans s : Store_wf s → Spans_ok s.
Proof.
  intros Hwf h b hd L E. pose proof (wf_geometry s Hwf) as (_ & Hpos & Hcount & Hf).
  destruct (wf_walked s Hwf) as (at_ & W & _).
  destruct (walked_located _ _ Hpos Hcount _ _ _ _ _ _ W L) as (hd' & Hr & _ & _ & Hend).
  apply header_in_at in E. unfold record_in in Hr. rewrite E in Hr.
  destruct (u64_max <? _); [done|]. by injection Hr as ->.
Qed.

(** Nothing is a header of zeros. *)
Lemma header_in_zeros n h hd : header_in (zeroed n) h ≠ Ok hd.
Proof.
  unfold header_in. unfold zeroed. rewrite length_replicate. destruct (Nat.ltb_spec n Header_BYTES) as [|Hn]; [done|].
  rewrite take_replicate, Nat.min_l by done.
  assert (E : is_ok (Header_from_bytes (replicate Header_BYTES 0)) = false) by by vm_compute.
  by destruct (Header_from_bytes (replicate Header_BYTES 0)).
Qed.

Lemma lessens_count m m' : lessens m m' → ZoneMap_blocks m' = ZoneMap_blocks m.
Proof. intros [_ [(_ & Ec & _) Ef Ez] _ _ _]. unfold ZoneMap_blocks. by rewrite Ec, Ef, Ez. Qed.

Lemma spans_lessens s m' : Spans_ok s → lessens (bs_device s) m' → Spans_ok (under s m').
Proof.
  intros Hsp L h b hd Lb E. cbn in *. rewrite (lessens_count _ _ L). apply (Hsp h b hd Lb).
  cbn. unfold Mapped_view in *. destruct (contents m' b) as [x|] eqn:C; [by rewrite (le_contents _ _ L _ _ C)|].
  by apply header_in_zeros in E.
Qed.

Lemma adds_view n m m' l : adds n m m' → l < n → Mapped_view m' l = Mapped_view m l.
Proof.
  intros A Hl. unfold Mapped_view. rewrite (ad_contents _ _ _ A) by done. by destruct (fr_geometry _ _ (ad_frame _ _ _ A)) as (-> & _).
Qed.

Lemma adds_count n m m' : adds n m m' → ZoneMap_blocks m' = ZoneMap_blocks m.
Proof. intros [_ [(_ & Ec & _) Ef Ez] _ _ _]. unfold ZoneMap_blocks. by rewrite Ec, Ef, Ez. Qed.

(** ** A put between two steps *)

(** What a put does to what is located and free. *)
Lemma put_places k x s r s' :
  Store_sound s → fits s x → Store_put k x s = (r, s') →
  Store_sound s' ∧ bs_superblock s' = bs_superblock s ∧
  (bs_free s' = bs_free s ∧ bs_located s' = bs_located s ∨
   bs_located s !! sha256 x = None ∧ bs_located s' = <[sha256 x := bs_free s]> (bs_located s) ∧
   bs_free s' = bs_free s + blob_span s x ∧ bs_free s < bs_free s' ∧ holds s' k x).
Proof.
  intros Hs Hf E. destruct (put_sound s k x r s' Hs Hf E) as (O & Hs' & _). split; [done|].
  pose proof (sound_geometry s Hs) as (_ & Hpos & _).
  assert (Hspan : 1 ≤ blob_span s x) by (apply div_ceil_pos; [unfold Header_BYTES|]; lia).
  destruct O as [|b| |e d' ? ?|d' ? ? Hk s1 Hh]; (split; [done|]); [by left..|right].
  split_and!; [done|done|done|cbn; lia|done].
Qed.

(** Above what is mapped, a put changes no record that was there. *)
Lemma put_held_back k x s r s' kd y b :
  Store_sound s → Spans_ok s → fits s x → Store_put k x s = (r, s') →
  bs_located s !! sha256 y = Some b → held s' kd y → held s kd y ∧ b + blob_span s y ≤ bs_free s.
Proof.
  intros Hs Hsp Hf E Lb Hh. pose proof (put_adds k x s r s' Hs E) as A.
  destruct (put_places k x s r s' Hs Hf E) as (Hs' & Esb & Hp).
  assert (Lb' : bs_located s' !! sha256 y = Some b).
  { destruct Hp as [[_ ->]|(Hn & -> & _)]; [done|]. rewrite lookup_insert_ne; [done|congruence]. }
  pose proof (so_located s Hs _ _ Lb) as Hb.
  assert (Ebb : Store_block_bytes s' = Store_block_bytes s) by (unfold Store_block_bytes; by rewrite Esb).
  assert (Espan : blob_span s' y = blob_span s y) by (unfold blob_span; by rewrite Ebb).
  destruct (holds_claimed s' kd y b Hs' (hd_holds _ _ _ Hh) Lb') as (Eh & _ & Hcount).
  change (blk_count (bs_device s')) with (ZoneMap_blocks (bs_device s')) in Hcount.
  rewrite (adds_count _ _ _ A), Espan in Hcount.
  assert (Hend : b + blob_span s y ≤ bs_free s).
  { cbn in Eh. rewrite (adds_view _ _ _ b A) in Eh by lia. destruct (Hsp _ _ _ Lb Eh) as [He|He]; [done|].
    cbn in He. rewrite He. exact Hcount. }
  split; [|done]. apply (held_moved s' s); [done|done|by rewrite Lb, Lb'| |].
  - intros b' L' _. rewrite Lb' in L'. injection L' as <-. by rewrite Espan.
  - intros b' l L' Hl. rewrite Lb' in L'. injection L' as <-. rewrite Espan in Hl. symmetry.
    apply (ad_contents _ _ _ A). lia.
Qed.

Lemma put_spans k x s r s' :
  Store_sound s → Spans_ok s → fits s x → Store_put k x s = (r, s') → Spans_ok s'.
Proof.
  intros Hs Hsp Hf E. pose proof (put_adds k x s r s' Hs E) as A.
  destruct (put_places k x s r s' Hs Hf E) as (Hs' & Esb & Hp). intros h b hd Lb Eh.
  assert (Ebb : Store_block_bytes s' = Store_block_bytes s) by (unfold Store_block_bytes; by rewrite Esb).
  assert (Hold : bs_located s !! h = Some b →
    b + header_span (Store_block_bytes s') hd ≤ bs_free s ∨ bs_free s = blk_count (bs_device s')).
  { intros L. pose proof (so_located s Hs _ _ L) as Hb. cbn in Eh. rewrite (adds_view _ _ _ b A) in Eh by lia.
    rewrite Ebb. cbn. rewrite (adds_count _ _ _ A). by apply (Hsp h b hd L). }
  pose proof (so_free _ Hs') as Hf'. destruct Hp as [[Ef El]|(Hn & El & Ef & Hlt & Hh)].
  - rewrite Ef. apply Hold. by rewrite El in Lb.
  - destruct (decide (h = sha256 x)) as [->|Hne].
    + assert (b = bs_free s) as -> by (rewrite El, lookup_insert_eq in Lb; congruence).
      destruct (header_in_holds s' k x _ _ hd Hs' Hh Lb Eh) as [_ ->]. left. rewrite Ef, Ebb. done.
    + rewrite El, lookup_insert_ne in Lb by done. destruct (Hold Lb) as [?|?]; [left; lia|lia].
Qed.

Lemma put_cycle k x c s r s' :
  Cycle_ok c s → Spans_ok s → fits s x →
  (bs_located s !! sha256 x = None → sha256 x ∉ mk_roots (co_mark c)) →
  Store_put k x s = (r, s') → Cycle_ok c s'.
Proof.
  intros [Hs [Hc Hk Hw Hm] Hp Hr] Hsp Hf Hnew E. pose proof (put_adds k x s r s' Hs E) as A.
  destruct (put_places k x s r s' Hs Hf E) as (Hs' & Esb & Hpl).
  split; [done| |done|intros sw l Hsw Hl P; apply (Hr sw l Hsw Hl), (ad_zero _ _ _ A), P].
  split; [eapply covers_frame; [done|apply A]|done|done|]. intros kd y b Hy Hh Lb.
  assert (L : bs_located s !! sha256 y = Some b).
  { destruct Hpl as [[_ El]|(Hn & El & _)]; [by rewrite <- El|]. rewrite El in Lb.
    rewrite lookup_insert_ne in Lb; [done|]. intros Eq. apply (Hnew Hn). by rewrite Eq. }
  destruct (put_held_back k x s r s' kd y b Hs Hsp Hf E L Hh) as [Hh0 Hend].
  destruct (Hm kd y b Hy Hh0 L) as (H1 & H2 & H3).
  assert (Espan : blob_span s' y = blob_span s y) by (unfold blob_span, Store_block_bytes; by rewrite Esb).
  split_and!; [by rewrite Espan| |done]. intros l p Hl P. rewrite Espan in Hl. apply (H2 l p Hl).
  rewrite <- (ad_physical _ _ _ A); [done|lia].
Qed.

(** ** Everything a client may do between two steps *)

(** Calls of the mapping that a client of the store has a use for: readers
    coming and going, a barrier, a root record appended. *)
Definition client_op (op : map_op) : bool :=
  match op with
  | OpRead _ _ | OpFlush | OpHoldRead _ | OpReleaseRead _ | OpAppendReserved _ _ => true
  | _ => false
  end.

Lemma client_op_quiet op m r m' :
  Map_ok m → client_op op = true → legal op m → exec op m = (r, m') → Map_ok m' ∧ quiet m m'.
Proof.
  intros Hm Hop Hl E. destruct op; try done; cbn [exec] in E; apply answering_inv in E as (r0 & E & _); cbn [legal] in Hl.
  - destruct (read_spec m _ _ r0 m' Hm E) as [(? & ? & _) _]. done.
  - by destruct (flush_spec m r0 m' Hm E) as (? & ? & _).
  - destruct (hold_read_settled m _ r0 m' Hm E) as [(held & Hz & Hmax & _)|(? & ? & _)]; [by apply Hl in Hz|done].
  - by destruct (release_read_settled m _ r0 m' Hm E) as (? & ? & _).
  - by destruct (append_reserved_spec m _ _ r0 m' Hm Hl E) as (? & ? & _).
Qed.

Definition Whole : Type := Collector * Store (ZoneMap D) * Roots.

Inductive client : Whole → Whole → Prop :=
| cl_roots c s roots roots' : roots_step roots roots' → client (c, s, roots) (c, s, roots')
| cl_queue c s roots q : client (c, s, roots) (co_with_queue q c, s, roots)
| cl_map c s roots op r m' :
    client_op op = true → legal op (bs_device s) → exec op (bs_device s) = (r, m') →
    client (c, s, roots) (c, under s m', roots)
| cl_put c s roots k x r s' :
    fits s x → (bs_located s !! sha256 x = None → sha256 x ∉ mk_roots (co_mark c)) →
    Store_put k x s = (r, s') → client (c, s, roots) (c, s', roots).

(** A turn of the cycle is a step that answered, or something of the client. *)
Inductive turn : Whole → Whole → Prop :=
| tu_client w w' : client w w' → turn w w'
| tu_step c s roots p c' s' : Collector_step roots (c, s) = (Ok p, (c', s')) → turn (c, s, roots) (c', s', roots).

Definition Whole_ok (w : Whole) : Prop := Cycle_ok w.1.1 w.1.2 ∧ Spans_ok w.1.2.

Lemma turn_ok w w' : Whole_ok w → turn w w' → Whole_ok w'.
Proof.
  intros [Hc Hsp] T. destruct T as [w w' C|c s roots p c' s' E].
  - destruct C as [c s roots roots' _|c s roots q|c s roots op r m' Hop Hl E|c s roots k x r s' Hf Hn E]; cbn in *.
    + by split.
    + split; [by apply cycle_queue|done].
    + pose proof (sound_map s (cy_sound _ _ Hc)) as Hm. destruct (client_op_quiet op _ r m' Hm Hop Hl E) as [Hm' Q].
      pose proof (quiet_lessens _ _ Hm Hm' Q) as L. split; [|by apply spans_lessens].
      apply cycle_lessens; [done|done|]. by rewrite (q_physical _ _ Q).
    + split; [by eapply put_cycle|]. eapply put_spans; [apply Hc|done..].
  - cbn in *. destruct (step_spec roots c s _ c' s' Hc E) as (_ & Eu & L & _ & Hok).
    split; [apply Hok; by exists p|]. cbn. rewrite Eu. by apply spans_lessens.
Qed.

Lemma turns_ok w w' : Whole_ok w → rtc turn w w' → Whole_ok w'.
Proof. intros Hw T. induction T as [|w1 w2 w3 T1 _ IH]; [done|]. by eapply IH, turn_ok. Qed.

(** ** Beginning *)
Lemma begin_ok c s roots c' roots' :
  Store_sound s → covers (bs_device s) (co_mark c) →
  Collector_begin (c, roots) = (Ok tt, (c', roots')) → Cycle_ok c' s ∧ rt_pinned roots' = rt_pinned roots.
Proof.
  intros Hs [Ho Hc]. unfold Collector_begin. destruct (add_u64 (co_cycle c) 1); [|done].
  destruct (add_u64 (co_full_remarks c) 1); [|done]. intros [= <- <-]. split; [|done].
  split; [done| |by left|done]. cbn. eapply pushes_marks; [apply walks_pushes|].
  split; [split; [by apply Bitmap_clear_ok|done]|intros b e; cbn; by rewrite lookup_empty|done|].
  intros kd x b. cbn. by intros ?%elem_of_empty.
Qed.
End runs.

Section theorems.
Context {D : Type} `{HL : ZonedLaws D}.
Implicit Types (s : Store (ZoneMap D)).

(** Steps taken one after another. *)
Fixpoint steps (n : nat) (roots : Roots) (w : World) : option World :=
  match n with
  | O => Some w
  | S n => match Collector_step roots w with
           | (Ok _, w) => steps n roots w
           | (Err _, _) => None
           end
  end.

Lemma steps_turns n roots : ∀ c s c' s',
  steps n roots (c, s) = Some (c', s') → rtc turn (c, s, roots) (c', s', roots).
Proof.
  induction n as [|n IH]; intros c s c' s'; cbn [steps]; [intros [= <- <-]; apply rtc_refl|].
  destruct (Collector_step roots (c, s)) as [[p|e] [c1 s1]] eqn:E; [|done]. intros Hn.
  eapply rtc_l; [by eapply tu_step|by apply IH].
Qed.

Lemma turned_ok n c0 s0 roots0 c1 roots1 c s :
  Store_sound s0 → Spans_ok s0 → covers (bs_device s0) (co_mark c0) →
  Collector_begin (c0, roots0) = (Ok tt, (c1, roots1)) → steps n roots1 (c1, s0) = Some (c, s) →
  Cycle_ok c s ∧ Spans_ok s.
Proof.
  intros Hs Hsp Hc Hb E. destruct (begin_ok c0 s0 roots0 c1 roots1 Hs Hc Hb) as [Hok _].
  exact (turns_ok (c1, s0, roots1) _ (conj Hok Hsp) (steps_turns n roots1 c1 s0 c s E)).
Qed.

(** A collection is steps and the settling of the queue. *)
Lemma keeps_reachable_refl roots s : Store_sound s → keeps_reachable roots s s.
Proof. intros. by apply stays_keeps, stays_refl. Qed.

Lemma keeps_reachable_trans roots s1 s2 s3 :
  keeps_reachable roots s1 s2 → keeps_reachable roots s2 s3 → keeps_reachable roots s1 s3.
Proof.
  intros [H12 T12] [H23 T23].
  assert (Hr : ∀ h, reachable s1 (rt_pinned roots) h → reachable s2 (rt_pinned roots) h).
  { induction 1 as [h Hh|x child Hx IH Hheld Hin]; [by constructor|].
    apply reached_child with x; [done|by apply H12|done]. }
  split; [|intros l Hl; by rewrite T23, T12]. intros kd x Hx Hh. apply H23; [by apply Hr|by apply H12].
Qed.

Lemma collect_loop_keeps fuel roots : ∀ n c s r c' s',
  Cycle_ok c s → collect_loop fuel roots n (c, s) = Some (r, (c', s')) →
  keeps_reachable roots s s' ∧ s' = under s (bs_device s') ∧ lessens (bs_device s) (bs_device s') ∧
  covers (bs_device s') (co_mark c').
Proof.
  induction fuel as [|fuel IH]; intros n c s r c' s' Hc; cbn [collect_loop]; [done|].
  destruct (Collector_step roots (c, s)) as [r1 [c1 s1]] eqn:E.
  destruct (step_spec _ _ _ _ _ _ Hc E) as (K & Eu & L & Hcv & Hok).
  destruct r1 as [p|e]; [|intros [= _ <- <-]; done]. specialize (Hok ltac:(by exists p)).
  assert (Hsettle : ∀ c2 s2 r2 q, of_queue q (c2, s1) = (r2, (c', s2)) → co_mark c2 = co_mark c1 →
    s2 = s1 ∧ covers (bs_device s1) (co_mark c')).
  { intros c2 s2 r2 q (-> & q' & ->)%of_queue_spec Ec. split; [done|]. cbn. by rewrite Ec. }
  assert (Hgo : ∀ m, collect_loop fuel roots m (c1, s1) = Some (r, (c', s')) →
    keeps_reachable roots s s' ∧ s' = under s (bs_device s') ∧ lessens (bs_device s) (bs_device s') ∧
    covers (bs_device s') (co_mark c')).
  { intros m El. destruct (IH _ _ _ _ _ _ Hok El) as (K' & Eu' & L' & Hcv'). split_and!; [|by rewrite Eu', Eu| |done].
    - by eapply keeps_reachable_trans.
    - by eapply lessens_trans. }
  destruct p; try (destruct (add_u64 n 1); [apply Hgo|by intros [= _ <- <-]]).
  - unfold sm_bind. destruct (of_queue _ (c1, s1)) as [r2 [c2 s2]] eqn:E2. intros E3.
    assert (s2 = s' ∧ c2 = c') as [-> ->] by (destruct r2; injection E3 as _ <- <-; done).
    destruct (Hsettle c1 s' r2 _ E2 eq_refl) as [-> ?]. done.
  - unfold sm_bind at 1, set_co, sm_put. unfold sm_bind. destruct (of_queue _ (co_with_phase PhIdle c1, s1)) as [r2 [c2 s2]] eqn:E2.
    intros E3. assert (s2 = s' ∧ c2 = c') as [-> ->] by (destruct r2; injection E3 as _ <- <-; done).
    destruct (Hsettle _ s' r2 _ E2 eq_refl) as [-> ?]. done.
Qed.
End theorems.


(** The same of a whole collection run at once. *)
Theorem collect_keeps_reachable {D} `{ZonedLaws D} fuel (c : Collector) (s : Store (ZoneMap D)) roots r c' s' roots' :
  Store_sound s → Spans_ok s → covers (bs_device s) (co_mark c) →
  Collector_collect fuel c s roots = (Some (r, (c', s')), roots') →
  keeps_reachable roots s s' ∧ rt_pinned roots' = rt_pinned roots ∧
  (Store_sound s' ∧ Spans_ok s' ∧ covers (bs_device s') (co_mark c')).
Proof.
  intros Hs Hsp Hc. unfold Collector_collect. destruct (Collector_begin (c, roots)) as [[[]|e] [c1 roots1]] eqn:Eb.
  - destruct (begin_ok c s roots c1 roots1 Hs Hc Eb) as [Hok Hp]. intros [= E <-].
    destruct (collect_loop_keeps fuel roots1 0 c1 s r c' s' Hok E) as (K & Eu & L & Hcv).
    assert (K' : keeps_reachable roots s s').
    { unfold Collector_begin in Eb. destruct (add_u64 _ 1); [|done]. destruct (add_u64 _ 1); [|done].
      by injection Eb as _ <-. }
    split_and!; [done|done| | |done]; rewrite Eu; [by apply lessens_sound|by apply spans_lessens].
  - intros [= _ <- <- <-]. unfold Collector_begin in Eb.
    destruct (add_u64 (co_cycle c) 1); [destruct (add_u64 (co_full_remarks c) 1); [done|]|];
      injection Eb as _ <- <-; (split_and!; [by apply keeps_reachable_refl|done..]).
Qed.

(** ** A store on a zoned device in memory *)
Definition ex_layout : Superblock := superblock_for_this_build 512 8 2560 1 2.

Definition ex_zoned : res fault (ZonedMemory) := ZonedMemory_new 512 5 8.

Definition ex_blank : res fault (Store (ZoneMap ZonedMemory)) :=
  let? d := ex_zoned in
  let? m := ZoneMap_new d 3 in
  Store_format m ex_layout.

Definition put_all (xs : list (list Z)) (s : Store (ZoneMap ZonedMemory)) : Store (ZoneMap ZonedMemory) :=
  foldl (λ s x, (Store_put kind_CHUNK x s).2) s xs.

(** Six chunks, which fill zone 3 and open zone 4. *)
Definition ex_chunks : list (list Z) := [[1]; [2]; [3]; [4]; [5]; [6]].

Definition filled_with (xs : list (list Z)) : option (Store (ZoneMap ZonedMemory)) :=
  match ex_blank with Ok s => Some (put_all xs s) | Err _ => None end.

Definition ex_filled : option (Store (ZoneMap ZonedMemory)) := filled_with ex_chunks.

(** The first of them is pinned. *)
Definition ex_roots : Roots := insert_pinned (sha256 [1]) Roots_new.

Lemma ex_blank_ok s : ex_blank = Ok s → Store_wf s ∧ Store_block_bytes s = 512 ∧ bs_located s = ∅.
Proof.
  unfold ex_blank. destruct ex_zoned as [d|] eqn:Ed; rsimpl; [|done].
  destruct (ZonedMemory_new_ok 512 5 8 d) as [Hd _]; [lia|lia|cbv; split; congruence|done|].
  assert (Hdev : dev_ok d) by exact Hd.
  destruct (ZoneMap_new d 3) as [m|] eqn:Em; rsimpl; [|done]. intros Es.
  destruct (new_ok d 3 m Hdev ltac:(lia) Em) as (Hm & Ezd & Hp & _ & Hf & _ & _).
  assert (Hd' : d = match ex_zoned with Ok d => d | Err _ => d end) by by rewrite Ed.
  assert (Hg : zmem_block_bytes d = 512 ∧ zmem_zone_count d = 8 ∧ zmem_zone_blocks d = 5).
  { rewrite Hd'. by vm_compute. }
  destruct Hg as (G1 & G2 & G3).
  assert (Hn : ZoneMap_blocks m = 26).
  { unfold ZoneMap_blocks. destruct (mo_zb m Hm) as [-> _]. rewrite Ezd, Hf. cbn. by rewrite G2, G3. }
  apply format_spec in Es as (? & ? & _ & Esb & _).
  - split_and!; [done|unfold Store_block_bytes; by rewrite Esb|done].
  - cbn. constructor; rewrite ?Ezd, ?Hn; try done.
    + cbn. by rewrite G1.
    + intros l [b Hb]. rewrite Hp in Hb. apply lookup_singleton_Some in Hb as [<- <-]. lia.
    + intros l x Hx. unfold contents in Hx. rewrite Hp in Hx.
      destruct (decide (l = 0)) as [->|]; [|by rewrite lookup_singleton_ne in Hx].
      rewrite lookup_singleton_eq, Ezd in Hx. cbn [mbind option_bind] in Hx.
      assert (Hz : view_block d 0 = Some (zeroed 512)) by (rewrite Hd'; by vm_compute).
      rewrite Hz in Hx. injection Hx as <-. by apply Forall_replicate.
  - constructor; [done|done|..]; apply (bool_decide_unpack _); vm_compute; exact I.
Qed.

Lemma put_all_ok xs s :
  Forall byte_list xs → Forall (λ x, Z.of_nat (length x) ≤ 2 ^ 32) xs → Store_block_bytes s = 512 →
  Store_sound s → Spans_ok s → Store_sound (put_all xs s) ∧ Spans_ok (put_all xs s).
Proof.
  revert s. induction xs as [|x xs IH]; intros s Hb Hl Hbb Hs Hsp; [done|]. cbn [put_all foldl].
  apply list.Forall_cons in Hb as [Hb1 Hb]. apply list.Forall_cons in Hl as [Hl1 Hl].
  destruct (Store_put kind_CHUNK x s) as [r s'] eqn:E. cbn [snd].
  assert (Hf : fits s x) by (split; [done|rewrite Hbb; unfold Header_BYTES, isize_max; lia]).
  destruct (put_places _ _ _ _ _ Hs Hf E) as (Hs' & Esb & _).
  apply IH; [done|done|unfold Store_block_bytes; by rewrite Esb|done|exact (put_spans _ _ _ _ _ Hs Hsp Hf E)].
Qed.

Lemma filled_ok xs s :
  Forall byte_list xs → Forall (λ x, Z.of_nat (length x) ≤ 2 ^ 32) xs → filled_with xs = Some s →
  Store_sound s ∧ Spans_ok s.
Proof.
  intros Hb Hl. unfold filled_with. destruct ex_blank as [s0|] eqn:E; [|done]. intros <-%(inj Some).
  destruct (ex_blank_ok s0 E) as (Hwf & Hbb & _).
  by apply put_all_ok; [| |done|apply wf_sound|apply wf_spans].
Qed.

Lemma ex_filled_ok s : ex_filled = Some s → Store_sound s ∧ Spans_ok s.
Proof. apply filled_ok; apply (bool_decide_unpack _); vm_compute; exact I. Qed.

(** The cycle over it, its steps, and the last of them. *)
Definition ex_begun : Collector * Roots := (Collector_begin (Collector_new 40, ex_roots)).2.

Definition ex_progress (n : nat) : option (list Progress) :=
  match ex_filled with
  | None => None
  | Some s =>
      (fix go (n : nat) (w : World) : option (list Progress) :=
         match n with
         | O => Some []
         | S n => match Collector_step ex_begun.2 w with
                  | (Ok p, w) => (p ::.) <$> go n w
                  | (Err _, _) => None
                  end
         end) n (ex_begun.1, s)
  end.

Example ex_cycle :
  ex_progress 10 = Some [Marked; Marked; Published_; Selected; Selected; Copied; Committed; Reset_; Selected; Done_].
Proof. by vm_compute. Qed.

Lemma ex_begin : Collector_begin (Collector_new 40, ex_roots) = (Ok tt, (ex_begun.1, ex_begun.2)).
Proof. vm_compute. reflexivity. Qed.

(** What a run over a filled store is checked for, and comes to. *)
Definition run_shape (n : nat) (last : res fault Progress → bool) (o : option (Store (ZoneMap ZonedMemory))) : bool :=
  match o with
  | Some s =>
      (zone_count (zm_device (bs_device s)) * zone_blocks (zm_device (bs_device s)) <=? 40) &&
      match steps n ex_begun.2 (ex_begun.1, s) with
      | Some w => last (Collector_step ex_begun.2 w).1
      | None => false
      end
  | None => false
  end.

Lemma run_shape_ok xs n last :
  Forall byte_list xs → Forall (λ x, Z.of_nat (length x) ≤ 2 ^ 32) xs → run_shape n last (filled_with xs) = true →
  ∃ s0 c s r c' s', filled_with xs = Some s0 ∧ Store_sound s0 ∧ Spans_ok s0 ∧
    covers (bs_device s0) (co_mark (Collector_new 40)) ∧ steps n ex_begun.2 (ex_begun.1, s0) = Some (c, s) ∧
    Collector_step ex_begun.2 (c, s) = (r, (c', s')) ∧ last r = true.
Proof.
  intros Hb Hl. unfold run_shape. destruct (filled_with xs) as [s0|] eqn:E0; [|done].
  destruct (filled_ok xs s0 Hb Hl E0) as [Hs Hsp]. intros [Hg Hrun]%andb_true_iff.
  destruct (steps n _ _) as [[c s]|] eqn:En; [|done].
  destruct (Collector_step ex_begun.2 (c, s)) as [r [c' s']] eqn:Er. exists s0, c, s, r, c', s'.
  assert (Hcov : covers (bs_device s0) (co_mark (Collector_new 40))).
  { split; [by apply Bitmap_new_ok|]. apply Z.leb_le, Hg. }
  exact (conj eq_refl (conj Hs (conj Hsp (conj Hcov (conj En (conj Er Hrun)))))).
Qed.

Definition is_reset (r : res fault Progress) : bool := match r with Ok Reset_ => true | _ => false end.

Lemma ex_run : run_shape 7 is_reset (filled_with ex_chunks) = true.
Proof. vm_compute. reflexivity. Qed.

Lemma ex_chunks_bytes : Forall byte_list ex_chunks ∧ Forall (λ x, Z.of_nat (length x) ≤ 2 ^ 32) ex_chunks.
Proof. split; apply (bool_decide_unpack _); vm_compute; exact I. Qed.

