(* ===== verification/CollectorSelect.v ===== *)
(** * What a cycle chooses, and what it forgets

    Which zones [selecting] chooses and in which order they are swept, and three
    runs, computed, in which the store over the mapping does not do what it
    means to. *)

From S2P Require Import Prelude Abi Bytes BTree StoreRecords StoreCodecs BlockDevice Sha256 Store StoreFacts ZoneDevice ZoneMap ZoneMapFacts ZoneOps ZoneStore ZoneTheorems Roots Mark MarkFacts Collector CollectorFacts CollectorTheorems.
From stdpp Require Import sorting.
#[local] Open Scope Z_scope.

#[global] Instance pair_le_trans : Transitive pair_le.
Proof. intros [a1 a2] [b1 b2] [c1 c2]. unfold pair_le. cbn. lia. Qed.

#[global] Instance pair_le_total : Total pair_le.
Proof. intros [a1 a2] [b1 b2]. unfold pair_le. cbn. lia. Qed.

(** A sealed zone less than a quarter live. *)
Definition worth_sweeping (zone_bytes : Z) (Z : Zone) : Prop :=
  zn_state Z = StSealed ∧ zn_live_bytes Z * SWEEP_LIVE_FRACTION_DENOMINATOR < zone_bytes.

Lemma candidates_of_spec zb zones cs :
  candidates_of zb zones = Ok cs →
  ∀ live z, (live, z) ∈ cs ↔ ∃ Z, Z ∈ zones ∧ worth_sweeping zb Z ∧ zn_live_bytes Z = live ∧ zn_zone Z = z.
Proof.
  revert cs. induction zones as [|Z zones IH]; intros cs; cbn [candidates_of].
  { intros [= <-] live z. split; [by intros ?%elem_of_nil|]. by intros (Z & ?%elem_of_nil & _). }
  assert (Hskip : ¬ worth_sweeping zb Z → (∀ live z, (live, z) ∈ cs ↔ ∃ Z, Z ∈ zones ∧ worth_sweeping zb Z ∧ zn_live_bytes Z = live ∧ zn_zone Z = z) →
    ∀ live z, (live, z) ∈ cs ↔ ∃ Z', Z' ∈ Z :: zones ∧ worth_sweeping zb Z' ∧ zn_live_bytes Z' = live ∧ zn_zone Z' = z).
  { intros Hn H live z. rewrite H. split; intros (Z' & Hin & Hw & Hl & Hz); exists Z'; (split; [|done]).
    - by apply list_elem_of_further.
    - apply elem_of_cons in Hin as [->|]; done. }
  case_bool_decide as Hs.
  2:{ intros E. apply Hskip; [by intros [? _]|by apply IH]. }
  destruct (u64_max <? _); [done|]. destruct (candidates_of zb zones) as [rest|] eqn:Er; rsimpl; [|done].
  specialize (IH rest eq_refl). destruct (Z.ltb_spec (zn_live_bytes Z * SWEEP_LIVE_FRACTION_DENOMINATOR) zb) as [Hlt|Hge]; intros [= <-].
  - intros live z. rewrite elem_of_cons, IH. split.
    + intros [[= -> ->]|(Z' & Hin & Hw)]; [exists Z|exists Z']; split_and!; try done; [apply list_elem_of_here|by apply list_elem_of_further|apply Hw..].
    + intros (Z' & [->|Hin]%elem_of_cons & Hw & <- & <-); [by left|right; by exists Z'].
  - apply Hskip; [|done]. intros [_ ?]. lia.
Qed.

Lemma candidates_of_err zb zones e : candidates_of zb zones = Err e → e = Panicked.
Proof.
  revert e. induction zones as [|Z zones IH]; intros e; cbn [candidates_of]; [done|].
  case_bool_decide; [|apply IH]. destruct (u64_max <? _); [by intros [= <-]|].
  destruct (candidates_of _ zones); rsimpl; [done|]. intros [= <-]. by apply IH.
Qed.

Section select.
Context {D : Type} `{HL : ZonedLaws D}.
Implicit Types (s : Store (ZoneMap D)).

Definition zone_bytes_of s : Z := zone_blocks (zm_device (bs_device s)) * Store_block_bytes s.

Lemma sorted_last (l : list (Z * Z)) x y : StronglySorted pair_le (l ++ [x]) → y ∈ l ++ [x] → pair_le y x.
Proof.
  induction l as [|a l IH]; cbn.
  - intros _ [->|?%elem_of_nil]%elem_of_cons; [|done]. destruct x. unfold pair_le. cbn. lia.
  - intros [Hf Hs]%StronglySorted_cons [->|Hin]%elem_of_cons; [|by apply IH].
    rewrite list.Forall_forall in Hf. apply Hf, elem_of_app. right. apply list_elem_of_here.
Qed.
End select.

(** What [selecting] chooses: exactly the sealed zones of which less than a
    quarter is live, by the counts the mark published.  Nothing of the store or
    the mark changes; with no such zone the cycle is over, and otherwise the
    zone swept first, the last of the list, is one with the most live bytes. *)
Theorem selects_under_a_quarter {D} `{ZonedLaws D} (c : Collector) (s : Store (ZoneMap D)) r c' s' :
  Map_ok (bs_device s) → selecting (c, s) = (r, (c', s')) → r ≠ Err Panicked →
  s' = s ∧ co_mark c' = co_mark c ∧
  (∀ z, z ∈ co_chosen c' ↔ ∃ Z, zm_zones (bs_device s) !! z = Some Z ∧ worth_sweeping (zone_bytes_of s) Z) ∧
  (r = Ok Done_ ∧ co_phase c' = PhIdle ∧ co_chosen c' = [] ∨
   ∃ z Z, r = Ok Selected ∧ co_phase c' = PhSweeping ∧ list.last (co_chosen c') = Some z ∧
     zm_zones (bs_device s) !! z = Some Z ∧
     ∀ z' Z', z' ∈ co_chosen c' → zm_zones (bs_device s) !! z' = Some Z' → zn_live_bytes Z' ≤ zn_live_bytes Z).
Proof.
  intros Hm. unfold selecting. fold (zone_bytes_of s). destruct (u64_max <? _); [by intros [= <- <- <-]|].
  destruct (candidates_of _ _) as [cs|e] eqn:Ec.
  2:{ intros [= <- <- <-] Hr. by rewrite (candidates_of_err _ _ _ Ec) in Hr. }
  pose proof (candidates_of_spec _ _ _ Ec) as Hcs. set (sorted := merge_sort pair_le cs).
  assert (Hsorted : ∀ live z, (live, z) ∈ sorted ↔ ∃ Z, zm_zones (bs_device s) !! z = Some Z ∧ worth_sweeping (zone_bytes_of s) Z ∧ zn_live_bytes Z = live).
  { intros live z. unfold sorted. rewrite merge_sort_Permutation, Hcs. split.
    - intros (Z & (k & Hk)%elem_of_btree_values & Hw & Hl & Hz). exists Z.
      rewrite <- Hz, (mo_zone_self _ Hm k Z Hk). done.
    - intros (Z & Hk & Hw & Hl). exists Z. split_and!; [apply elem_of_btree_values; by exists z|done|done|].
      by apply (mo_zone_self _ Hm). }
  assert (Hin : ∀ z, z ∈ snd <$> sorted ↔ ∃ Z, zm_zones (bs_device s) !! z = Some Z ∧ worth_sweeping (zone_bytes_of s) Z).
  { intros z. rewrite list_elem_of_fmap. split.
    - intros ([live z'] & -> & Hz). apply Hsorted in Hz as (Z & ? & ? & _). by exists Z.
    - intros (Z & Hk & Hw). exists (zn_live_bytes Z, z). split; [done|]. apply Hsorted. by exists Z. }
  destruct (snd <$> sorted) as [|z0 rest] eqn:Es; intros [= <- <- <-] _; (split; [done|]; split; [done|]; split; [exact Hin|]).
  - by left.
  - right. destruct (exists_last (l := sorted)) as (init & [live z] & El); [by destruct sorted|].
    assert (Hz : (live, z) ∈ sorted) by (rewrite El; apply elem_of_app; right; apply list_elem_of_here).
    apply Hsorted in Hz as (Z & Hk & Hw & Hl). exists z, Z. split_and!; [done|done| |done|].
    + cbn. rewrite <- Es, El, fmap_app. cbn. apply last_snoc.
    + intros z' Z' Hz' Hk'. cbn in Hz'. rewrite <- Es in Hz'. apply list_elem_of_fmap in Hz' as ([live' z''] & -> & Hz').
      pose proof Hz' as Hz2. apply Hsorted in Hz2 as (Z2 & Hk2 & _ & Hl2). cbn in Hk'. rewrite Hk2 in Hk'. injection Hk' as <-.
      assert (Hs : StronglySorted pair_le (init ++ [(live, z)])).
      { rewrite <- El. apply StronglySorted_merge_sort; apply _. }
      rewrite El in Hz'. pose proof (sorted_last init _ _ Hs Hz') as Hle. unfold pair_le in Hle. cbn in Hle. lia.
Qed.

(** Two full zones, one with the pinned chunk in it and one with nothing live. *)
Definition ex_eleven : list (list Z) := [[1]; [2]; [3]; [4]; [5]; [6]; [7]; [8]; [9]; [10]; [11]].
Definition ex_two_zones : option (Store (ZoneMap ZonedMemory)) := filled_with ex_eleven.

Definition ex_two_marked : option (@World ZonedMemory) :=
  match ex_two_zones with Some s => steps 3 ex_begun.2 (ex_begun.1, s) | None => None end.

(** The zone with a live block in it is taken before the empty one. *)
Example fullest_first :
  match ex_two_marked with
  | Some (c, s) =>
      (λ Z, (zn_zone Z, zn_live_bytes Z)) <$> filter (λ Z, zn_state Z = StSealed) (ZoneMap_zones (bs_device s)) = [(3, 512); (4, 0)] ∧
      co_chosen (selecting (c, s)).2.1 = [4; 3] ∧
      list.last (co_chosen (selecting (c, s)).2.1) = Some 3
  | None => False
  end.
Proof. by vm_compute. Qed.

Definition is_selected (r : res fault Progress) : bool := match r with Ok Selected => true | _ => false end.

Lemma ex_eleven_run : run_shape 3 is_selected (filled_with ex_eleven) = true.
Proof. vm_compute. reflexivity. Qed.

Lemma ex_eleven_bytes : Forall byte_list ex_eleven ∧ Forall (λ x, Z.of_nat (length x) ≤ 2 ^ 32) ex_eleven.
Proof. split; apply (bool_decide_unpack _); vm_compute; exact I. Qed.

Lemma ex_eleven_selects :
  match ex_two_marked with Some w => bool_decide ((selecting w).1 = Ok Selected) | None => false end = true.
Proof. vm_compute. reflexivity. Qed.

Lemma selects_under_a_quarter_witness :
  ∃ c s, ex_two_marked = Some (c, s) ∧
    (3 ∈ co_chosen (selecting (c, s)).2.1 ↔
     ∃ Z, zm_zones (bs_device s) !! 3 = Some Z ∧ worth_sweeping (zone_bytes_of s) Z).
Proof.
  destruct (run_shape_ok ex_eleven 3 is_selected (proj1 ex_eleven_bytes) (proj2 ex_eleven_bytes) ex_eleven_run)
    as (s0 & c & s & _ & _ & _ & E0 & Hs & Hsp & Hcov & En & _).
  pose proof ex_eleven_selects as Hsel. unfold ex_two_marked, ex_two_zones in *. rewrite E0, En in Hsel |- *.
  exists c, s. split; [exact eq_refl|]. apply bool_decide_eq_true_1 in Hsel.
  destruct (turned_ok 3 _ s0 ex_roots _ _ c s Hs Hsp Hcov ex_begin En) as [Hc _].
  destruct (selecting (c, s)) as [r [c' s']] eqn:Er. cbn [fst] in Hsel. subst r.
  exact (proj1 (proj2 (proj2 (selects_under_a_quarter c s _ c' s' (sound_map s (cy_sound _ _ Hc)) Er ltac:(discriminate)))) 3).
Defined.

(** ** A blob that was collected is acknowledged and not stored

    [located] names a blob for as long as the store is mounted; a collection
    takes its blocks.  Putting the content again is answered without writing
    it, reading it is refused, and once its digest is pinned every collection
    is refused at the mark. *)
Definition collected : option (World (D := ZonedMemory) * Roots) :=
  match ex_filled with
  | Some s => match Collector_collect 20 (Collector_new 40) s ex_roots with
              | (Some (Ok _, w), roots) => Some (w, roots)
              | _ => None
              end
  | None => None
  end.

Definition get_of (x : list Z) (s : Store (ZoneMap ZonedMemory)) : res fault Z := (Store_get (sha256 x) (s, [0; 0])).1.

Example collected_blob_acknowledged :
  match collected with
  | Some ((c, s), roots) =>
      let '(r, s1) := Store_put kind_CHUNK [2] s in
      r = Ok (sha256 [2]) ∧ bs_free s1 = bs_free s ∧ get_of [2] s1 = Err (Refused refusal_ADDRESS) ∧
      match Collector_collect 20 c s1 (insert_pinned (sha256 [2]) roots) with
      | (Some (r, _), _) => r = Err (Refused refusal_ADDRESS)
      | _ => False
      end
  | None => False
  end.
Proof. vm_compute. repeat split; reflexivity. Qed.

(** ** A put that stopped half way stops every put after it

    A record that runs out of zones part of the way leaves its first blocks
    mapped at the addresses the next put will use, and a mapped block of a
    sequential zone takes no second write: every put of new content is refused
    as [ADDRESS], after zones are free again too. *)
Section wedged.
Context {D : Type} `{HL : ZonedLaws D}.
Implicit Types (s : Store (ZoneMap D)).

Lemma wedged_put s k x at_ :
  Store_sound s → fits s x → kind_known k = true → bs_located s !! sha256 x = None →
  bs_free s + blob_span s x ≤ blk_count (bs_device s) →
  zm_physical (bs_device s) !! bs_free s = Some at_ → at_ ≠ 0 →
  (Store_put k x s).1 = Err (Refused refusal_ADDRESS) ∧ bs_device (Store_put k x s).2 = bs_device s.
Proof.
  intros Hs [_ Hfit] Hk Hn Hroom P Hat. pose proof (sound_map s Hs) as Hm.
  pose proof isize_below. pose proof (sound_geometry s Hs) as (_ & Hpos & Hcount & Hfree).
  assert (Hspan : 1 ≤ blob_span s x) by (apply div_ceil_pos; [unfold Header_BYTES|]; lia).
  pose proof (div_ceil_spec (Z.of_nat Header_BYTES + Z.of_nat (length x)) (Store_block_bytes s) ltac:(lia) Hpos) as Hd.
  fold (blob_span s x) in Hd. unfold Store_put. rewrite Hk, Hn. cbn [negb].
  rewrite (proj2 (Z.ltb_ge _ _)), (proj2 (Z.eqb_neq _ _)) by lia. cbn [orb]. fold (blob_span s x).
  rewrite (proj2 (Z.ltb_ge u64_max (bs_free s + _))), (proj2 (Z.ltb_ge _ (bs_free s + _))) by lia. cbn [orb].
  rewrite (proj2 (Z.ltb_ge _ _)) by lia.
  destruct (Z.to_nat (blob_span s x)) as [|n] eqn:En; [lia|]. cbn [pieces put_blocks].
  unfold sm_bind, on_blocks. cbn [blk_write ZoneMap_device]. unfold ZoneMap_write. rewrite P.
  destruct (mo_zb _ Hm) as [Ezb Hzb]. rewrite (proj2 (Z.eqb_neq (zm_zone_blocks _) 0)) by lia.
  rewrite (home_kind _ _ _ Hm P Hat), bool_decide_true by done.
  destruct (u32_max <? _); cbn; by destruct s.
Qed.
End wedged.

Local Abbreviation Ex := (Store (ZoneMap ZonedMemory)).

Definition run_collect (c : Collector) (s : Ex) : option (res fault Z * World (D := ZonedMemory)) :=
  (Collector_collect 40 c s ex_roots).1.

(** Four full zones with one live block, and a reader of the zone it is in. *)
Definition ex_read_zone : option Ex :=
  match filled_with ((λ x, [x]) <$> seqZ 1 20) with
  | Some s => Some (under s (ZoneMap_hold_read 3 (bs_device s)).2)
  | None => None
  end.

Definition release_zone (s : Ex) : Ex := under s (ZoneMap_release_read 3 (bs_device s)).2.

Definition put_sevens (s : Ex) : res fault (list Z) * Ex := Store_put kind_CHUNK (replicate (Z.to_nat 2508) 7) s.

Definition put_after (w : Collector * Ex) : res fault (list Z) * (Collector * Ex) :=
  let '(r, s) := put_sevens w.2 in (r, (w.1, release_zone s)).

(** The collection waits for the reader; a record of five blocks is put when
    four are left. *)
Definition half_put : option (res fault (list Z) * (Collector * Ex)) :=
  match ex_read_zone with
  | Some s =>
      match run_collect (Collector_new 40) s with
      | Some (Ok _, w) => Some (put_after w)
      | _ => None
      end
  | None => None
  end.

(** The next collection is refused for want of a free zone, though three zones
    hold nothing live: it sweeps the fullest first. The one after it frees
    them, and still nothing can be put. *)
Example half_put_stops_every_put :
  match half_put with
  | Some (r, (c, s)) =>
      r = Err (Refused refusal_FULL) ∧ (Store_put kind_CHUNK [99] s).1 = Err (Refused refusal_ADDRESS) ∧
      match run_collect c s with
      | Some (r, (c, s)) =>
          r = Err (Refused refusal_FULL) ∧
          match run_collect c s with
          | Some (Ok _, (_, s)) =>
              ZoneMap_zones_free (bs_device s) = 3 ∧ (Store_put kind_CHUNK [99] s).1 = Err (Refused refusal_ADDRESS)
          | _ => False
          end
      | None => False
      end
  | None => False
  end.
Proof. vm_compute. repeat split; reflexivity. Qed.
