(* ===== verification/MarkTheorems.v ===== *)
(** * The mark ends, and has found everything

    The walk visits a digest once and a record names finitely many, so the
    marking phase of a cycle ends; when it publishes, every record the pinned
    roots reach is marked whole. *)

From S2P Require Import Prelude Abi Bytes BTree StoreRecords StoreCodecs BlockDevice Sha256 Store StoreFacts StoreTheorems ZoneDevice ZoneDeviceFacts ZoneMap ZoneMapFacts ZoneOps ZoneTheorems ZoneQueue ZoneStore Roots Mark MarkFacts Collector CollectorFacts CollectorTheorems.
From Stdlib Require Import Wellfounded.
#[local] Open Scope Z_scope.

Section ends.
Context {D : Type} `{HL : ZonedLaws D}.
Implicit Types (s : Store (ZoneMap D)).

(** The steps of the marking phase, until one answers something else. *)
Fixpoint mark_phase (fuel : nat) (roots : Roots) (w : World (D := D)) : option (res fault Progress * World (D := D)) :=
  match fuel with
  | O => None
  | S fuel =>
      match Collector_step roots w with
      | (Ok Marked, w) => mark_phase fuel roots w
      | other => Some other
      end
  end.

(** What a step of the walk that was taken does to what has been seen. *)
Record stepped (k k' : Mark) (h : list Z) (rest : list (list Z)) (located : gmap (list Z) Z) : Prop := {
  sp_seen : mk_seen k' = {[h]} ∪ mk_seen k;
  sp_roots : h ∉ mk_seen k → mk_roots k' = {[h]} ∪ mk_roots k;
  sp_roots_old : mk_roots k ⊆ mk_roots k';
  sp_pending : h ∈ mk_seen k ∨ located !! h = None → mk_pending k' = rest;
}.

Lemma mark_step_stepped k s a k' s' h rest :
  Store_sound s → covers (bs_device s) k → mk_pending k = h :: rest → Mark_step (k, s) = (Ok a, (k', s')) →
  stepped k k' h rest (bs_located s).
Proof.
  intros Hs Hc Ep. unfold Mark_step. rewrite Ep. case_bool_decide as Hseen.
  { intros [= _ <- _]. cbn in Hseen. split; cbn; [set_solver|done|done|done]. }
  cbn in Hseen. destruct (Store_address s h) as [b|] eqn:La.
  2:{ unfold add_u64. destruct (u64_max <? _); [done|]. intros [= _ <- _]. split; cbn; [done|done|apply union_subseteq_r|done]. }
  intros E. apply mark_record_spec in E as (_ & _ & _ & [_ Es _ _ _] & Hr); [|done|exact Hc|exact La].
  destruct (Hr a eq_refl) as [Er _]. split; cbn in *.
  - by rewrite Es.
  - by rewrite Er.
  - rewrite Er. apply union_subseteq_r.
  - intros [?|Hn]; [done|]. unfold Store_address in La. congruence.
Qed.

Lemma walks_new hs : ∀ k, (∀ h, h ∈ hs → h ∉ mk_seen k) →
  mk_pending (foldl (λ k h, Mark_walk h k) k hs) = reverse hs ++ mk_pending k.
Proof.
  induction hs as [|h hs IH]; intros k Hn; [done|]. cbn [foldl].
  assert (Hh : h ∉ mk_seen k) by apply Hn, list_elem_of_here.
  unfold Mark_walk at 2. rewrite bool_decide_false by done. rewrite IH.
  - by rewrite reverse_cons, <- (assoc_L (++)).
  - intros h' Hh'. cbn. by apply Hn, list_elem_of_further.
Qed.

(** What a step is after catching up: the roots not marked yet on top. *)
Lemma catch_up_pending roots c s c' s' :
  Cycle_ok c s → catch_up roots (c, s) = (Ok tt, (c', s')) →
  s' = s ∧ mk_seen (co_mark c') = mk_seen (co_mark c) ∧ mk_roots (co_mark c') = mk_roots (co_mark c) ∧
  mk_pending (co_mark c') = reverse (filter (λ root, root ∉ mk_roots (co_mark c)) (hash_list (rt_pinned roots))) ++ mk_pending (co_mark c).
Proof.
  intros [Hs Hma _ _]. unfold catch_up. set (missing := filter _ _). set (k1 := foldl _ _ _).
  assert (Hnew : ∀ h, h ∈ missing → h ∉ mk_seen (co_mark c)).
  { intros h [Hh _]%list_elem_of_filter Hseen. by apply Hh, (ma_walked _ _ Hma). }
  pose proof (walks_new missing (co_mark c) Hnew) as Ep. fold k1 in Ep.
  pose proof (walks_pushes missing (co_mark c)) as Hpush. fold k1 in Hpush.
  pose proof (pushes_marks _ _ _ Hpush Hma) as Hma1.
  unfold sm_bind, of_walk, of_mark. cbn [co_mark co_with_mark].
  destruct (Mark_occupy_transient s _ k1) as [r1 k2] eqn:E.
  apply occupy_blocks_spec in E as (_ & W & _); [|by apply sound_map|apply Hma1].
  assert (Hk2 : mk_seen k2 = mk_seen (co_mark c) ∧ mk_roots k2 = mk_roots (co_mark c) ∧ mk_pending k2 = reverse missing ++ mk_pending (co_mark c)).
  { rewrite (sw_seen _ _ W), (sw_roots _ _ W), (sw_pending _ _ W), (pu_seen _ _ Hpush), (pu_roots _ _ Hpush). done. }
  destruct Hk2 as (? & ? & ?). destruct r1 as [[]|]; [|done].
  destruct missing; intros [= <- <-]; cbn; done.
Qed.

Lemma catch_up_phase roots c s c' s' :
  co_phase c = PhMarking → catch_up roots (c, s) = (Ok tt, (c', s')) → co_phase c' = PhMarking.
Proof.
  intros Hph. unfold catch_up, sm_bind, of_walk, of_mark, set_co, sm_put.
  destruct (Mark_occupy_transient _ _ _) as [[[]|] k2]; [|done]. by destruct (filter _ _); intros [= <- <-].
Qed.

(** ** The measure of the phase *)
Definition roots_left (roots : Roots) (k : Mark) : nat := size (rt_pinned roots ∖ mk_roots k).
Definition records_left s (k : Mark) : nat := size (dom (bs_located s) ∖ mk_seen k).

Definition before (x y : nat * nat * nat) : Prop :=
  (x.1.1 < y.1.1 ∨ x.1.1 = y.1.1 ∧ (x.1.2 < y.1.2 ∨ x.1.2 = y.1.2 ∧ x.2 < y.2))%nat.

Lemma before_wf : well_founded before.
Proof.
  assert (Hall : ∀ a b c, Acc before (a, b, c)).
  { intros a. induction (lt_wf a) as [a _ IHa]. intros b. induction (lt_wf b) as [b _ IHb].
    intros c. induction (lt_wf c) as [c _ IHc]. constructor. intros [[a' b'] c']. unfold before. cbn.
    intros [?|[-> [?|[-> ?]]]]; [by apply IHa|by apply IHb|by apply IHc]. }
  intros [[a b] c]. apply Hall.
Qed.

Definition left_to_do roots (w : World (D := D)) : nat * nat * nat :=
  (roots_left roots (co_mark w.1), records_left w.2 (co_mark w.1), length (mk_pending (co_mark w.1))).

Lemma difference_shrinks (X Y Y' : gset (list Z)) h :
  Y ⊆ Y' → h ∈ X → h ∉ Y → h ∈ Y' → (size (X ∖ Y') < size (X ∖ Y))%nat.
Proof. intros HY HX Hn Hin. apply subset_size. set_solver. Qed.

Lemma difference_mono (X Y Y' : gset (list Z)) : Y ⊆ Y' → (size (X ∖ Y') ≤ size (X ∖ Y))%nat.
Proof. intros HY. apply subseteq_size. set_solver. Qed.

(** A marked step leaves less to do. *)
Lemma marked_decreases roots c s c' s' :
  Cycle_ok c s → co_phase c = PhMarking → Collector_step roots (c, s) = (Ok Marked, (c', s')) →
  before (left_to_do roots (c', s')) (left_to_do roots (c, s)) ∧ co_phase c' = PhMarking.
Proof.
  intros Hc Hph. unfold Collector_step. rewrite bool_decide_false by (rewrite Hph; done). unfold sm_bind at 1.
  destruct (catch_up roots (c, s)) as [[[]|e] [c1 s1]] eqn:E1; [|done].
  destruct (catch_up_spec _ _ _ _ _ _ Hc E1) as (-> & Hcv & Hok & Hnidle). specialize (Hok eq_refl).
  destruct (catch_up_pending _ _ _ _ _ Hc E1) as (_ & Es & Er & Ep).
  pose proof (catch_up_phase _ _ _ _ _ Hph E1) as Eph.
  rewrite Eph. unfold marking. destruct (Mark_walking (co_mark c1)) eqn:Ew.
  2:{ unfold sm_bind. destruct (of_walk _ _) as [[[]|] w1]; [|done]. destruct (publish_mark w1) as [[[]|] w2]; [|done]. done. }
  unfold sm_bind at 1. destruct (of_queue _ (c1, s)) as [[[]|] [c2 s2]] eqn:Eq; [|done].
  apply of_queue_spec in Eq as (-> & q & ->). unfold sm_bind, of_walk. cbn [co_mark co_with_queue].
  destruct (Mark_step (co_mark c1, s)) as [[a|] [k3 s3]] eqn:Em; [|done]. intros [= <- <-]. split; [|done].
  destruct (mark_step_marks _ _ _ _ _ (cy_sound _ _ Hok) (cy_marks _ _ Hok) Em) as (Eu & _).
  destruct (mk_pending (co_mark c1)) as [|h rest] eqn:Ep1; [by unfold Mark_walking in Ew; rewrite Ep1 in Ew|].
  destruct (mark_step_stepped _ _ _ _ _ _ _ (cy_sound _ _ Hok) Hcv Ep1 Em) as [Hseen Hroots Hold Hpend].
  rewrite Es, Er in *. unfold before, left_to_do, roots_left, records_left. cbn [fst snd co_mark co_with_mark].
  assert (El : bs_located s3 = bs_located s) by by rewrite Eu. rewrite El.
  pose proof (difference_mono (rt_pinned roots) _ _ Hold) as Hm1.
  assert (Hsub : mk_seen (co_mark c) ⊆ mk_seen k3) by (rewrite Hseen; apply union_subseteq_r).
  pose proof (difference_mono (dom (bs_located s)) _ _ Hsub) as Hm2.
  set (missing := filter _ _) in Ep. destruct (reverse missing) as [|h' rest'] eqn:Emiss.
  - cbn in Ep. destruct (decide (h ∈ mk_seen (co_mark c) ∨ bs_located s !! h = None)) as [Hd|Hd].
    + rewrite (Hpend Hd), <- Ep. cbn. lia.
    + assert (Hlt : (size (dom (bs_located s) ∖ mk_seen k3) < size (dom (bs_located s) ∖ mk_seen (co_mark c)))%nat).
      { apply (difference_shrinks _ _ _ h); [done| |tauto|rewrite Hseen; set_solver].
        apply elem_of_dom. destruct (bs_located s !! h); [by eexists|tauto]. }
      lia.
  - left. injection Ep as E0 _. subst h'.
    assert (Hin : h ∈ missing) by (apply elem_of_reverse; rewrite Emiss; apply list_elem_of_here).
    apply list_elem_of_filter in Hin as [Hn Hin]. apply elem_of_hash_list in Hin.
    assert (Hns : h ∉ mk_seen (co_mark c)) by (intros ?; by apply Hn, (ma_walked _ _ (cy_marks _ _ Hc))).
    apply (difference_shrinks _ _ _ h); [done|done|done|]. rewrite (Hroots Hns). set_solver.
Qed.

(** What the step that publishes has found. *)
Lemma published_found roots c s c' s' :
  Cycle_ok c s → co_phase c = PhMarking → Collector_step roots (c, s) = (Ok Published_, (c', s')) →
  mk_pending (co_mark c') = [] ∧ rt_pinned roots ⊆ mk_roots (co_mark c').
Proof.
  intros Hc Hph. unfold Collector_step. rewrite bool_decide_false by (rewrite Hph; done). unfold sm_bind at 1.
  destruct (catch_up roots (c, s)) as [[[]|e] [c1 s1]] eqn:E1; [|done].
  destruct (catch_up_spec _ _ _ _ _ _ Hc E1) as (-> & Hcv & Hok & Hnidle). specialize (Hok eq_refl).
  destruct (catch_up_pending _ _ _ _ _ Hc E1) as (_ & Es & Er & Ep).
  pose proof (catch_up_phase _ _ _ _ _ Hph E1) as Eph.
  rewrite Eph. unfold marking. destruct (Mark_walking (co_mark c1)) eqn:Ew.
  { unfold sm_bind. destruct (of_queue _ _) as [[[]|] w1]; [|done]. destruct (of_walk _ w1) as [[?|] w2]; done. }
  unfold sm_bind at 1, of_walk, of_mark. destruct (Mark_occupy_transient s _ (co_mark c1)) as [[[]|] k1] eqn:E2; [|done].
  destruct (occupy_transient_spec s roots _ _ k1 (cy_sound _ _ Hok) (cy_marks _ _ Hok) E2) as (_ & Ep2 & Er2).
  unfold sm_bind at 1. destruct (publish_mark (co_with_mark k1 c1, s)) as [[[]|] [c2 s2]] eqn:E3; [|done].
  apply publish_mark_spec in E3 as (-> & _); [|apply Hc]. intros [= <- <-]. cbn.
  assert (Hnil : mk_pending (co_mark c1) = []) by (unfold Mark_walking in Ew; by destruct (mk_pending (co_mark c1))).
  split; [by rewrite Ep2|]. rewrite Er2, Er. rewrite Hnil in Ep. symmetry in Ep. apply app_nil in Ep as [Ep _].
  intros h Hh. destruct (decide (h ∈ mk_roots (co_mark c))) as [|Hn]; [done|].
  assert (Hin : h ∈ filter (λ root, root ∉ mk_roots (co_mark c)) (hash_list (rt_pinned roots))).
  { apply list_elem_of_filter. split; [done|by apply elem_of_hash_list]. }
  apply elem_of_reverse in Hin. rewrite Ep in Hin. by apply elem_of_nil in Hin.
Qed.

Lemma marking_answers roots c s p w :
  Cycle_ok c s → co_phase c = PhMarking → Collector_step roots (c, s) = (Ok p, w) → p = Marked ∨ p = Published_.
Proof.
  intros Hc Hph. unfold Collector_step. rewrite bool_decide_false by (rewrite Hph; done). unfold sm_bind at 1.
  destruct (catch_up roots (c, s)) as [[[]|e] [c1 s1]] eqn:E1; [|done].
  rewrite (catch_up_phase _ _ _ _ _ Hph E1). unfold marking. destruct (Mark_walking _); unfold sm_bind.
  - destruct (of_queue _ _) as [[[]|] w1]; [|done]. destruct (of_walk _ w1) as [[?|] w2]; [|done]. intros [= <- _]. by left.
  - destruct (of_walk _ _) as [[[]|] w1]; [|done]. destruct (publish_mark w1) as [[[]|] w2]; [|done]. intros [= <- _]. by right.
Qed.

Lemma mark_phase_ends roots w :
  Cycle_ok w.1 w.2 → co_phase w.1 = PhMarking →
  ∃ fuel r c s c' s', mark_phase fuel roots w = Some (r, (c', s')) ∧ Cycle_ok c s ∧ co_phase c = PhMarking ∧
    Collector_step roots (c, s) = (r, (c', s')) ∧ (r = Ok Published_ ∨ ∃ e, r = Err e).
Proof.
  induction w as [[c s] IH] using (well_founded_induction (wf_inverse_image _ _ _ (left_to_do roots) before_wf)).
  intros Hc Hph. cbn in Hc, Hph. destruct (Collector_step roots (c, s)) as [r [c' s']] eqn:E.
  destruct r as [p|e].
  2:{ exists 1%nat, (Err e), c, s, c', s'. cbn [mark_phase]. rewrite E. split_and!; try done. right. by exists e. }
  destruct (marking_answers _ _ _ _ _ Hc Hph E) as [->| ->].
  2:{ exists 1%nat, (Ok Published_), c, s, c', s'. cbn [mark_phase]. rewrite E. split_and!; try done. by left. }
  destruct (marked_decreases _ _ _ _ _ Hc Hph E) as [Hlt Hph'].
  destruct (step_spec _ _ _ _ _ _ Hc E) as (_ & _ & _ & _ & Hok).
  destruct (IH (c', s') Hlt (Hok ltac:(by eexists)) Hph') as (fuel & r & c2 & s2 & c3 & s3 & E2 & H2).
  exists (S fuel), r, c2, s2, c3, s3. cbn [mark_phase]. rewrite E. by split.
Qed.
End ends.

(** C34 The mark ends, and has found everything.  From any state of a cycle that is
    marking, whatever the client did before, the steps reach one that publishes
    or one that is refused; when it publishes, every record that the pinned
    roots reach through the objects held is marked whole: its extent is live,
    every block of it is marked where the mapping has it, and what it names is
    walked. *)
Theorem mark_finds_everything {D} `{ZonedLaws D} (c0 : Collector) (s0 : Store (ZoneMap D)) roots0 c1 roots1 c s roots :
  Store_sound s0 → Spans_ok s0 → covers (bs_device s0) (co_mark c0) →
  Collector_begin (c0, roots0) = (Ok tt, (c1, roots1)) → rtc turn (c1, s0, roots1) (c, s, roots) →
  co_phase c = PhMarking →
  ∃ fuel r c' s', mark_phase fuel roots (c, s) = Some (r, (c', s')) ∧ (r = Ok Published_ ∨ ∃ e, r = Err e) ∧
    (r = Ok Published_ → ∀ kd x b,
       reachable s' (rt_pinned roots) (sha256 x) → held s' kd x → bs_located s' !! sha256 x = Some b →
       marked_whole s' (co_mark c') b kd x ∧ mk_pending (co_mark c') = []).
Proof.
  intros Hs Hsp Hc Hb T Hph. destruct (begin_ok c0 s0 roots0 c1 roots1 Hs Hc Hb) as [Hok _].
  destruct (turns_ok (c1, s0, roots1) _ (conj Hok Hsp) T) as [Hok1 _]. cbn in Hok1.
  destruct (mark_phase_ends roots (c, s) Hok1 Hph) as (fuel & r & c2 & s2 & c3 & s3 & E & Hc2 & Hph2 & E2 & Hr).
  exists fuel, r, c3, s3. split_and!; [done|done|]. intros -> kd x b Hreach Hheld Hl.
  destruct (published_found _ _ _ _ _ Hc2 Hph2 E2) as [Hp Hroots].
  destruct (step_spec _ _ _ _ _ _ Hc2 E2) as (_ & _ & _ & _ & Hok3). specialize (Hok3 ltac:(by eexists)).
  split; [|done]. apply (ma_marked _ _ (cy_marks _ _ Hok3)); [|done|done].
  exact (reachable_walked _ _ _ _ (cy_marks _ _ Hok3) Hp Hroots Hreach).
Qed.

Lemma mark_finds_everything_witness :
  ∃ s0 fuel r c' s', filled_with ex_chunks = Some s0 ∧
    mark_phase fuel ex_begun.2 (ex_begun.1, s0) = Some (r, (c', s')) ∧ (r = Ok Published_ ∨ ∃ e, r = Err e).
Proof.
  destruct (run_shape_ok ex_chunks 7 is_reset (proj1 ex_chunks_bytes) (proj2 ex_chunks_bytes) ex_run)
    as (s0 & _ & _ & _ & _ & _ & E0 & Hs & Hsp & Hcov & _).
  destruct (mark_finds_everything _ s0 ex_roots _ _ _ s0 _ Hs Hsp Hcov ex_begin (rtc_refl _ _) ltac:(vm_compute; reflexivity))
    as (fuel & r & c' & s' & E & Hr & _).
  exists s0, fuel, r, c', s'. split; [exact E0|]. split; [exact E|exact Hr].
Defined.
