(* ===== verification/FrameLists.v ===== *)
(** * Free lists of frames: [kernel/src/mem.rs], up to the frontier

    A free block holds the address of the next one in its first word, masked.
    Memory is the words of physical memory, by address; [Window_virt] is where
    the processor reaches one, and the only thing that can go wrong there is an
    overflow of the sum. *)

From S2P Require Import Prelude.
#[local] Open Scope Z_scope.

(** * Loops

    A [while] whose body may refuse, run for at most [2 ^ 64] turns.  The bound
    is a binary number, so a loop that ends early costs what it does; a theorem
    about a loop gives the number of its turns, and that they are enough. *)

Section loop.
Context {S A : Type}.
Implicit Types (step : S → S + A) (s : S).

(** [p] turns, or fewer if one of them answers. *)
Fixpoint turns (p : positive) step s : S + A :=
  let twice q s := match turns q step s with inl s => turns q step s | inr a => inr a end in
  match p with
  | xH => step s
  | xO q => twice q s
  | xI q => match step s with inl s => twice q s | inr a => inr a end
  end.

(** The loop ends from [s] after [n] turns that go on, with [a]. *)
Inductive ends step : nat → S → A → Prop :=
| ends_here s a : step s = inr a → ends step 0 s a
| ends_later n s s' a : step s = inl s' → ends step n s' a → ends step (Datatypes.S n) s a.

(** Where [k] turns lead. *)
Inductive goes step : nat → S → S → Prop :=
| goes_nil s : goes step 0 s s
| goes_cons n s s' s'' : step s = inl s' → goes step n s' s'' → goes step (Datatypes.S n) s s''.

Lemma ends_goes step k : ∀ n s a, ends step (k + n) s a → ∃ s', goes step k s s' ∧ ends step n s' a.
Proof.
  induction k as [|k IH]; intros n s a H; cbn in H; [exists s; split; [constructor|done]|].
  inversion H as [|? ? s1 ? E H1]; subst. destruct (IH _ _ _ H1) as (s' & Hg & He).
  exists s'. split; [by econstructor|done].
Qed.

Lemma turns_goes step p : ∀ s s', goes step (Pos.to_nat p) s s' → turns p step s = inl s'.
Proof.
  assert (Hadd : ∀ k n s s'', goes step (k + n) s s'' → ∃ s', goes step k s s' ∧ goes step n s' s'').
  { induction k as [|k IH]; intros n s s'' H; cbn in H; [exists s; split; [constructor|done]|].
    inversion H as [|? ? s1 ? E H1]; subst. destruct (IH _ _ _ H1) as (s' & H2 & H3).
    exists s'. split; [by econstructor|done]. }
  induction p as [p IH|p IH|]; intros s s' H; cbn [turns].
  - rewrite Pos2Nat.inj_xI in H. replace (2 * Pos.to_nat p)%nat with (Pos.to_nat p + Pos.to_nat p)%nat in H by lia.
    inversion H as [|? ? s1 ? E H1]; subst. rewrite E. destruct (Hadd _ _ _ _ H1) as (s2 & H2 & H3).
    by rewrite (IH _ _ H2), (IH _ _ H3).
  - rewrite Pos2Nat.inj_xO in H. replace (2 * Pos.to_nat p)%nat with (Pos.to_nat p + Pos.to_nat p)%nat in H by lia.
    destruct (Hadd _ _ _ _ H) as (s2 & H2 & H3). by rewrite (IH _ _ H2), (IH _ _ H3).
  - inversion H as [|? ? s1 ? E H1]; subst. inversion H1; subst. done.
Qed.

Lemma turns_ends step p : ∀ n s a, (n < Pos.to_nat p)%nat → ends step n s a → turns p step s = inr a.
Proof.
  assert (Htwice : ∀ q n s a, (∀ n s a, (n < Pos.to_nat q)%nat → ends step n s a → turns q step s = inr a) →
    (n < Pos.to_nat q + Pos.to_nat q)%nat → ends step n s a →
    match turns q step s with inl s => turns q step s | inr a => inr a end = inr a).
  { intros q n s a IH Hn He. destruct (decide (n < Pos.to_nat q)%nat) as [|Hge]; [by rewrite (IH n s a)|].
    replace n with (Pos.to_nat q + (n - Pos.to_nat q))%nat in He by lia.
    destruct (ends_goes _ _ _ _ _ He) as (s' & Hg & He'). rewrite (turns_goes _ _ _ _ Hg).
    apply (IH (n - Pos.to_nat q)%nat); [lia|done]. }
  induction p as [p IH|p IH|]; intros n s a Hn He; cbn [turns].
  - rewrite Pos2Nat.inj_xI in Hn. inversion He as [? ? E|n' ? s1 ? E H1]; subst; rewrite E; [done|].
    apply (Htwice p n'); [done|lia|done].
  - rewrite Pos2Nat.inj_xO in Hn. apply (Htwice p n); [done|lia|done].
  - inversion He as [? ? E|n' ? s1 ? E H1]; subst; [done|]. change (Pos.to_nat 1) with 1%nat in Hn. lia.
Qed.

(** A loop with an invariant and a measure that goes down. *)
Lemma ends_measure (I : S → Prop) (μ : S → Z) (Q : A → Prop) step :
  (∀ s, I s → 0 ≤ μ s ∧ ((∃ s', step s = inl s' ∧ I s' ∧ μ s' < μ s) ∨ ∃ a, step s = inr a ∧ Q a)) →
  ∀ s, I s → ∃ n a, Z.of_nat n ≤ μ s ∧ ends step n s a ∧ Q a.
Proof.
  intros Hstep s Hs. assert (H : ∀ k s, I s → μ s ≤ Z.of_nat k → ∃ n a, Z.of_nat n ≤ μ s ∧ ends step n s a ∧ Q a).
  { clear s Hs. induction k as [|k IH]; intros s Hs Hk; destruct (Hstep s Hs) as (Hpos & [(s' & E & Hs' & Hlt)|(a & E & Ha)]).
    - destruct (Hstep s' Hs') as [? _]. lia.
    - exists 0%nat, a. split_and!; [lia|by constructor|done].
    - destruct (IH s' Hs' ltac:(lia)) as (n & a & Hn & He & Ha). exists (Datatypes.S n), a.
      split_and!; [lia|by eapply ends_later|done].
    - exists 0%nat, a. split_and!; [lia|by constructor|done]. }
  destruct (Hstep s Hs) as [Hpos _]. apply (H (Z.to_nat (μ s))); [done|lia].
Qed.
End loop.

(** The body answers [inl] to go round again, and [inr] to leave. *)
Definition loop_body {S X A : Type} (step : X → sm S fault (X + A)) : X * S → (X * S) + (res fault A * S) :=
  λ '(x, s), match step x s with
             | (Ok (inl x), s) => inl (x, s)
             | (Ok (inr a), s) => inr (Ok a, s)
             | (Err e, s) => inr (Err e, s)
             end.

Definition loop_turns : positive := (2 ^ 64)%positive.

Definition sm_loop {S X A : Type} (step : X → sm S fault (X + A)) (x : X) : sm S fault A := λ s,
  match turns loop_turns (loop_body step) (x, s) with
  | inr r => r
  | inl (_, s) => (Err Panicked, s)
  end.

Lemma sm_loop_ends {S X A : Type} (step : X → sm S fault (X + A)) n x s r :
  Z.of_nat n < 2 ^ 64 → ends (loop_body step) n (x, s) r → sm_loop step x s = r.
Proof.
  intros Hn He. unfold sm_loop. rewrite (turns_ends _ loop_turns n _ r); [done| |done].
  assert (H : Z.of_nat (Pos.to_nat loop_turns) = 2 ^ 64) by (rewrite positive_nat_Z; reflexivity). lia.
Qed.

Definition FRAME_SIZE : Z := 4096.
Definition IDENTITY_LIMIT : Z := 2 ^ 30.
Definition LOW_MEMORY_LIMIT : Z := 2 ^ 20.

(** ** Orders: at most [Order_MAX], by [Order_new] *)
Definition Order : Type := nat.
Definition Order_FRAME : Order := 0%nat.
Definition Order_HUGE : Order := 9%nat.
Definition Order_DEFAULT : Order := Order_HUGE.
Definition Order_MAX : nat := 18%nat.
Definition ORDERS : nat := 19%nat.

Definition Order_new (order : Z) : option Order :=
  if order <=? Z.of_nat Order_MAX then Some (Z.to_nat order) else None.
Definition Order_frames (o : Order) : Z := Z.shiftl 1 (Z.of_nat o).
Definition Order_bytes (o : Order) : Z := Z.shiftl FRAME_SIZE (Z.of_nat o).
Definition Order_up (o : Order) : option Order := if (o <? Order_MAX)%nat then Some (S o) else None.
Definition Order_down (o : Order) : option Order := match o with O => None | S o => Some o end.
Definition Order_aligns (o : Order) (addr : Z) : bool := addr mod Order_bytes o =? 0.
Definition Order_is_lower (o : Order) (addr : Z) : bool := Z.land addr (Order_bytes o) =? 0.

Record Frame : Type := mkFrame { frame_base : Z; frame_order : Order }.
Definition Frame_from_addr (addr : Z) : Frame := mkFrame addr Order_FRAME.
Definition Frame_block (addr : Z) (order : Order) : Frame := mkFrame addr order.

Record Reserved : Type := mkReserved { rs_base : Z; rs_end : Z }.
Definition Reserved_new (base len : Z) : Reserved := mkReserved base (saturating_add 64 base len).
Definition Reserved_empty : Reserved := mkReserved 0 0.
Definition Reserved_overlaps (r : Reserved) (base end_ : Z) : bool := (base <? rs_end r) && (rs_base r <? end_).

(** ** Reaching a frame *)
Definition Mem : Type := Z → Z.

Record Window : Type := mkWindow {
  win_phys_offset : Z;
  win_limit : Z;
  win_cookie : Z;
}.

Definition Window_virt (w : Window) (addr : Z) : res fault Z :=
  if u64_max <? addr + win_phys_offset w then Err Panicked else Ok (addr + win_phys_offset w).

Definition write_word (at_ v : Z) (m : Mem) : Mem := λ a, if a =? at_ then v else m a.

Definition write_link (w : Window) (block next : Z) : sm Mem fault unit :=
  do! _ <- sm_lift (Window_virt w block);
  sm_put (write_word block (Z.lxor next (win_cookie w))).

Definition clear_link (w : Window) (block : Z) : sm Mem fault unit :=
  do! _ <- sm_lift (Window_virt w block);
  sm_put (write_word block 0).

Definition read_link (w : Window) (block : Z) : sm Mem fault Z :=
  do! _ <- sm_lift (Window_virt w block);
  sm_get (λ m, Z.lxor (m block) (win_cookie w)).

Definition zero (w : Window) (block : Z) (order : Order) : sm Mem fault unit :=
  do! _ <- sm_lift (Window_virt w block);
  sm_put (λ m a, if (block <=? a) && (a <? block + Order_bytes order) then 0 else m a).

(** ** The lists of a shard *)
Record Lists : Type := mkLists { heads : list Z }.
Definition Lists_EMPTY : Lists := mkLists (replicate ORDERS 0).
Definition Lists_head (l : Lists) (o : Order) : Z := default 0 (heads l !! o).
Definition Lists_set_head (o : Order) (block : Z) (l : Lists) : Lists := mkLists (<[o := block]> (heads l)).

Record Shard : Type := mkShard {
  sh_clean : Lists;
  sh_dirty : Lists;
  sh_clean_frames : Z;
  sh_dirty_frames : Z;
  sh_served : Z;
  sh_refills : Z;
  sh_remote : Z;
  sh_splits : Z;
  sh_merges : Z;
}.

Definition Shard_EMPTY : Shard := mkShard Lists_EMPTY Lists_EMPTY 0 0 0 0 0 0 0.
Definition Shard_lists (s : Shard) (clean : bool) : Lists := if clean then sh_clean s else sh_dirty s.
Definition Shard_frames (s : Shard) (clean : bool) : Z := if clean then sh_clean_frames s else sh_dirty_frames s.

(** What the two [&mut] accessors let a caller write. *)
Definition sh_with_lists (clean : bool) (l : Lists) (s : Shard) : Shard :=
  let c := if clean then l else sh_clean s in
  let d := if clean then sh_dirty s else l in
  mkShard c d (sh_clean_frames s) (sh_dirty_frames s) (sh_served s) (sh_refills s) (sh_remote s) (sh_splits s) (sh_merges s).
Definition sh_with_frames (clean : bool) (n : Z) (s : Shard) : Shard :=
  let c := if clean then n else sh_clean_frames s in
  let d := if clean then sh_dirty_frames s else n in
  mkShard (sh_clean s) (sh_dirty s) c d (sh_served s) (sh_refills s) (sh_remote s) (sh_splits s) (sh_merges s).
Definition sh_count_split (s : Shard) : Shard :=
  mkShard (sh_clean s) (sh_dirty s) (sh_clean_frames s) (sh_dirty_frames s) (sh_served s) (sh_refills s) (sh_remote s)
    (saturating_add 64 (sh_splits s) 1) (sh_merges s).
Definition sh_count_merge (s : Shard) : Shard :=
  mkShard (sh_clean s) (sh_dirty s) (sh_clean_frames s) (sh_dirty_frames s) (sh_served s) (sh_refills s) (sh_remote s)
    (sh_splits s) (saturating_add 64 (sh_merges s) 1).

(** A core works on memory and on its shard. *)
Definition Core : Type := Mem * Shard.
Definition on_mem {A} (f : sm Mem fault A) : sm Core fault A := λ '(m, s), let '(r, m) := f m in (r, (m, s)).
Definition on_shard (f : Shard → Shard) : sm Core fault unit := sm_put (λ '(m, s), (m, f s)).
Definition head_of (clean : bool) (o : Order) : sm Core fault Z := sm_get (λ '(_, s), Lists_head (Shard_lists s clean) o).
Definition set_head_of (clean : bool) (o : Order) (block : Z) : sm Core fault unit :=
  on_shard (λ s, sh_with_lists clean (Lists_set_head o block (Shard_lists s clean)) s).

(** [lists] is always [shard.lists(clean)]. *)
Definition list_push (w : Window) (clean : bool) (o : Order) (block : Z) : sm Core fault unit :=
  do! next <- head_of clean o;
  do! _ <- on_mem (write_link w block next);
  set_head_of clean o block.

Definition list_pop (w : Window) (clean : bool) (o : Order) : sm Core fault (option Z) :=
  do! block <- head_of clean o;
  if block =? 0 then sm_ret None
  else
    do! next <- on_mem (read_link w block);
    do! _ <- set_head_of clean o next;
    sm_ret (Some block).

Definition give (w : Window) (o : Order) (clean : bool) (block : Z) : sm Core fault unit :=
  do! _ <- list_push w clean o block;
  on_shard (λ s, sh_with_frames clean (saturating_add 64 (Shard_frames s clean) (Order_frames o)) s).

(** [u64] addition, which stops the program on overflow. *)
Definition plus_u64 (a b : Z) : res fault Z := if u64_max <? a + b then Err Panicked else Ok (a + b).

(** From order [at_] down to [to]. *)
Fixpoint split_down (w : Window) (clean : bool) (block : Z) (at_ to : Order) : sm Core fault unit :=
  match at_ with
  | O => sm_ret tt
  | S lower =>
      if (to <? at_)%nat then
        do! upper <- sm_lift (plus_u64 block (Order_bytes lower));
        do! _ <- list_push w clean lower upper;
        do! _ <- on_shard sh_count_split;
        split_down w clean block lower to
      else sm_ret tt
  end.

(** [n] is how many orders there are from [at_] on. *)
Fixpoint pop_split_loop (w : Window) (n : nat) (at_ order : Order) (clean : bool) : sm Core fault (option Z) :=
  match n with
  | O => sm_ret None
  | S n =>
      do! popped <- list_pop w clean at_;
      match popped with
      | Some block =>
          do! _ <- split_down w clean block at_ order;
          do! _ <- on_shard (λ s, sh_with_frames clean (saturating_sub (Shard_frames s clean) (Order_frames order)) s);
          sm_ret (Some block)
      | None =>
          match Order_up at_ with
          | Some up => pop_split_loop w n up order clean
          | None => sm_ret None
          end
      end
  end.
Definition pop_split (w : Window) (order : Order) (clean : bool) : sm Core fault (option Z) :=
  pop_split_loop w ORDERS order order clean.

(** The largest order, from [o] up, that is aligned at [at_] and ends by [end_]. *)
Fixpoint carve_order (n : nat) (o : Order) (at_ end_ : Z) : Order :=
  match n with
  | O => o
  | S n =>
      match Order_up o with
      | None => o
      | Some up =>
          if negb (Order_aligns up at_) then o
          else if (at_ + Order_bytes up <=? u64_max) && (at_ + Order_bytes up <=? end_)
          then carve_order n up at_ end_
          else o
      end
  end.

Definition carve_step (w : Window) (end_ : Z) (at_ : Z) : sm Core fault (Z + unit) :=
  if at_ <? end_ then
    let order := carve_order ORDERS Order_FRAME at_ end_ in
    do! _ <- give w order false at_;
    do! next <- sm_lift (plus_u64 at_ (Order_bytes order));
    sm_ret (inl next)
  else sm_ret (inr tt).
Definition carve (w : Window) (start end_ : Z) : sm Core fault unit := sm_loop (carve_step w end_) start.

(** ** Sorting a free list *)

(** The lower of the two heads comes off its list. *)
Definition take_lower (w : Window) (a b : Z) : sm Mem fault (Z * (Z * Z)) :=
  if a <=? b then do! next <- read_link w a; sm_ret (a, (next, b))
  else do! next <- read_link w b; sm_ret (b, (a, next)).

Definition merge_step (w : Window) (x : Z * Z * Z) : sm Mem fault ((Z * Z * Z) + (Z * Z * Z)) :=
  let '(a, b, tail) := x in
  if (a =? 0) || (b =? 0) then sm_ret (inr (a, b, tail))
  else
    do! (taken, (a, b)) <- take_lower w a b;
    do! _ <- write_link w tail taken;
    sm_ret (inl (a, b, taken)).

Definition merge_sorted (w : Window) (a b : Z) : sm Mem fault Z :=
  if a =? 0 then sm_ret b
  else if b =? 0 then sm_ret a
  else
    do! (head, (a, b)) <- take_lower w a b;
    do! (a, b, tail) <- sm_loop (merge_step w) (a, b, head);
    do! _ <- write_link w tail (if a =? 0 then b else a);
    sm_ret head.

(** The carry through the slots: what is left of it, and the slots after. *)
Fixpoint sort_carry (w : Window) (carry : Z) (pending : list Z) : sm Mem fault (Z * list Z) :=
  match pending with
  | [] => sm_ret (carry, [])
  | slot :: rest =>
      if slot =? 0 then sm_ret (0, carry :: rest)
      else
        do! carry <- merge_sorted w slot carry;
        do! (carry, rest) <- sort_carry w carry rest;
        sm_ret (carry, 0 :: rest)
  end.

Definition sort_step (w : Window) (x : Z * list Z) : sm Mem fault ((Z * list Z) + list Z) :=
  let '(head, pending) := x in
  if head =? 0 then sm_ret (inr pending)
  else
    do! next <- read_link w head;
    do! _ <- write_link w head 0;
    do! (carry, pending) <- sort_carry w head pending;
    sm_ret (inl (next, if carry =? 0 then pending else <[0%nat := carry]> pending)).

Fixpoint merge_slots (w : Window) (out : Z) (pending : list Z) : sm Mem fault Z :=
  match pending with
  | [] => sm_ret out
  | slot :: rest => do! out <- merge_sorted w out slot; merge_slots w out rest
  end.

Definition sort (w : Window) (head : Z) : sm Mem fault Z :=
  do! pending <- sm_loop (sort_step w) (head, replicate 64 0);
  merge_slots w 0 pending.

(** ** Merging buddies *)

(** One block of the sorted list: [merged] so far, at most [budget]. *)
Definition coalesce_step (w : Window) (budget : Z) (clean : bool) (order up : Order) (x : Z * Z) :
    sm Core fault ((Z * Z) + Z) :=
  let '(at_, merged) := x in
  if at_ =? 0 then sm_ret (inr merged)
  else
    do! next <- on_mem (read_link w at_);
    do! paired <- sm_lift (if negb (next =? 0) && (merged <? budget) && Order_is_lower order at_
                           then let? stop := plus_u64 at_ (Order_bytes order) in Ok (next =? stop)
                           else Ok false);
    if paired : bool then
      do! after <- on_mem (read_link w next);
      do! _ <- (if clean then on_mem (clear_link w next) else sm_ret tt);
      do! _ <- list_push w clean up at_;
      do! _ <- on_shard sh_count_merge;
      sm_ret (inl (after, merged + 1))
    else
      do! _ <- list_push w clean order at_;
      sm_ret (inl (next, merged)).

(** [for clean in [false, true]], which a spent budget leaves. *)
Fixpoint coalesce_kinds (w : Window) (budget : Z) (kinds : list bool) (order up : Order) (merged : Z) : sm Core fault Z :=
  match kinds with
  | [] => sm_ret merged
  | clean :: kinds =>
      if budget <=? merged then sm_ret merged
      else
        do! head <- head_of clean order;
        do! _ <- set_head_of clean order 0;
        do! at_ <- on_mem (sort w head);
        do! merged <- sm_loop (coalesce_step w budget clean order up) (at_, merged);
        coalesce_kinds w budget kinds order up merged
  end.

Fixpoint coalesce_orders (w : Window) (budget : Z) (n : nat) (order : Order) (merged : Z) : sm Core fault Z :=
  match n with
  | O => sm_ret merged
  | S n =>
      match Order_up order with
      | None => sm_ret merged
      | Some up =>
          do! merged <- coalesce_kinds w budget [false; true] order up merged;
          coalesce_orders w budget n up merged
      end
  end.
Definition coalesce_shard (w : Window) (budget : Z) : sm Core fault Z := coalesce_orders w budget ORDERS Order_FRAME 0.
