(* ===== verification/FrameAllocator.v ===== *)
(** * The frame allocator: [kernel/src/mem.rs], from the frontier on

    Every core's shard, the runs of memory no one has written to, and the
    operations.  The core a call runs on is an argument: [current_cpu] asks the
    hardware. *)

From S2P Require Import Prelude FrameLists.
#[local] Open Scope Z_scope.

(** [kernel/src/percpu.rs]. *)
Definition MAX_CPUS : nat := 8%nat.

Definition minus_u64 (a b : Z) : res fault Z := if a <? b then Err Panicked else Ok (a - b).

(** ** The frontier *)
Record Run : Type := mkRun { run_next : Z; run_end : Z }.
Definition UNTOUCHED_RUNS : nat := 64%nat.

Record Frontier : Type := mkFrontier {
  fr_runs : list Run;
  fr_count : nat;
  fr_frames : Z;
}.

Definition Frontier_EMPTY : Frontier := mkFrontier (replicate UNTOUCHED_RUNS (mkRun 0 0)) 0 0.

Definition Frontier_accept (start end_ : Z) : sm Frontier fault bool := λ f,
  if (UNTOUCHED_RUNS <=? fr_count f)%nat then (Ok false, f)
  else if negb (fr_count f <? length (fr_runs f))%nat then (Ok false, f)
  else
    let f := mkFrontier (<[fr_count f := mkRun start end_]> (fr_runs f)) (S (fr_count f)) (fr_frames f) in
    match minus_u64 end_ start with
    | Err e => (Err e, f)
    | Ok bytes => (Ok true, mkFrontier (fr_runs f) (fr_count f) (saturating_add 64 (fr_frames f) (bytes / FRAME_SIZE)))
    end.

Definition next_multiple_of (a size : Z) : Z := (a + size - 1) / size * size.

(** An aligned block of [size] bytes in the run. *)
Definition run_serves (r : Run) (size : Z) : option Z :=
  let aligned := next_multiple_of (run_next r) size in
  if u64_max <? aligned then None
  else if u64_max <? aligned + size then None
  else if run_end r <? aligned + size then None
  else Some aligned.

(** The entry at [index] gave up everything before [stop]. *)
Definition run_spent (index : nat) (stop : Z) (f : Frontier) : Frontier :=
  match fr_runs f !! index with
  | None => f
  | Some run =>
      let f := mkFrontier (fr_runs f) (fr_count f) (saturating_sub (fr_frames f) ((stop - run_next run) / FRAME_SIZE)) in
      let runs := <[index := mkRun stop (run_end run)]> (fr_runs f) in
      if run_end run <=? stop then
        let last := (fr_count f - 1)%nat in
        let runs := match runs !! last with
                    | Some moved => if bool_decide (index ≠ last) then <[index := moved]> runs else runs
                    | None => runs
                    end in
        mkFrontier runs last (fr_frames f)
      else mkFrontier runs (fr_count f) (fr_frames f)
  end.

(** From the last live entry down: [(block, gap_start, gap_end)]. *)
Fixpoint Frontier_take_from (index : nat) (order : Order) : sm Frontier fault (option (Z * Z * Z)) := λ f,
  match index with
  | O => (Ok None, f)
  | S index =>
      match fr_runs f !! index with
      | None => Frontier_take_from index order f
      | Some run =>
          match run_serves run (Order_bytes order) with
          | None => Frontier_take_from index order f
          | Some aligned =>
              (Ok (Some (aligned, run_next run, aligned)), run_spent index (aligned + Order_bytes order) f)
          end
      end
  end.
Definition Frontier_take (order : Order) : sm Frontier fault (option (Z * Z * Z)) := λ f,
  Frontier_take_from (fr_count f) order f.

(** ** The allocator *)
Record FrameAllocator : Type := mkFrameAllocator {
  fa_shards : list Shard;
  fa_frontier : Frontier;
  fa_map : Window;
  fa_total : Z;
  fa_unreachable : Z;
}.

Definition FrameAllocator_new (cookie : Z) : FrameAllocator :=
  mkFrameAllocator (replicate MAX_CPUS Shard_EMPTY) Frontier_EMPTY (mkWindow 0 IDENTITY_LIMIT cookie) 0 0.

Definition FrameAllocator_virt (fa : FrameAllocator) (f : Frame) : res fault Z := Window_virt (fa_map fa) (frame_base f).

Definition FrameAllocator_rebind (phys_offset limit : Z) (fa : FrameAllocator) : FrameAllocator :=
  mkFrameAllocator (fa_shards fa) (fa_frontier fa) (mkWindow phys_offset limit (win_cookie (fa_map fa))) (fa_total fa) 0.

(** [for cpu in 0..MAX_CPUS], the sum saturating. *)
Definition FrameAllocator_sum (pick : Shard → res fault Z) (fa : FrameAllocator) : res fault Z :=
  foldl (λ total cpu,
           let? total := total in
           let? s := ok_or (fa_shards fa !! cpu) Panicked in
           let? n := pick s in
           Ok (saturating_add 64 total n))
    (Ok 0) (seq 0 MAX_CPUS).

Definition FrameAllocator_free_count (fa : FrameAllocator) : res fault Z :=
  let? held := FrameAllocator_sum (λ s, plus_u64 (sh_clean_frames s) (sh_dirty_frames s)) fa in
  Ok (saturating_add 64 (fr_frames (fa_frontier fa)) held).
Definition FrameAllocator_clean_count (fa : FrameAllocator) : res fault Z :=
  FrameAllocator_sum (λ s, Ok (sh_clean_frames s)) fa.
Definition FrameAllocator_dirty_count (fa : FrameAllocator) : res fault Z :=
  let? held := FrameAllocator_sum (λ s, Ok (sh_dirty_frames s)) fa in
  Ok (saturating_add 64 (fr_frames (fa_frontier fa)) held).

(** A call works on memory and the allocator; one pass of an allocation on
    memory, one shard and the frontier. *)
Definition Machine : Type := Mem * FrameAllocator.
Definition Pass : Type := Core * Frontier.

Definition on_core {A} (f : sm Core fault A) : sm Pass fault A := λ '(c, fr), let '(r, c) := f c in (r, (c, fr)).
Definition on_frontier {A} (f : sm Frontier fault A) : sm Pass fault A := λ '(c, fr), let '(r, fr) := f fr in (r, (c, fr)).

Definition fa_with (shards : list Shard) (fr : Frontier) (fa : FrameAllocator) : FrameAllocator :=
  mkFrameAllocator shards fr (fa_map fa) (fa_total fa) (fa_unreachable fa).

(** [shards.at(cpu)], and what the reference is used for. *)
Definition on_pass {A} (cpu : nat) (f : Window → sm Pass fault A) : sm Machine fault A := λ '(m, fa),
  match fa_shards fa !! cpu with
  | None => (Err Panicked, (m, fa))
  | Some s =>
      let '(r, ((m, s), fr)) := f (fa_map fa) ((m, s), fa_frontier fa) in
      (r, (m, fa_with (<[cpu := s]> (fa_shards fa)) fr fa))
  end.
Definition on_cpu {A} (cpu : nat) (f : Window → sm Core fault A) : sm Machine fault A := on_pass cpu (λ w, on_core (f w)).

(** ** Adding a region *)
Definition fa_with_counts (total unreachable : Z) (fa : FrameAllocator) : FrameAllocator :=
  mkFrameAllocator (fa_shards fa) (fa_frontier fa) (fa_map fa) total unreachable.

Definition on_runs {A} (f : sm Frontier fault A) : sm Machine fault A := λ '(m, fa),
  let '(r, fr) := f (fa_frontier fa) in (r, (m, fa_with (fa_shards fa) fr fa)).

Definition FrameAllocator_accept (cpu : nat) (start end_ : Z) : sm Machine fault unit :=
  do! bytes <- sm_lift (minus_u64 end_ start);
  do! _ <- sm_put (λ '(m, fa), (m, fa_with_counts (saturating_add 64 (fa_total fa) (bytes / FRAME_SIZE)) (fa_unreachable fa) fa));
  do! held <- on_runs (Frontier_accept start end_);
  if held : bool then sm_ret tt
  else on_cpu cpu (λ w, carve w start end_).

Definition count_unreachable (n : Z) : sm Machine fault unit :=
  do! u <- sm_get (λ '(_, fa), fa_unreachable fa);
  do! u <- sm_lift (plus_u64 u n);
  sm_put (λ '(m, fa), (m, fa_with_counts (fa_total fa) u fa)).

(** One frame below the threshold; [run] is where the open run starts, or zero. *)
Definition region_step (cpu : nat) (reserved : list Reserved) (threshold frames_end reach : Z) (x : Z * Z) :
    sm Machine fault ((Z * Z) + (Z * Z)) :=
  let '(frame, run) := x in
  if negb ((frame <? threshold) && (frame <? frames_end)) then sm_ret (inr (frame, run))
  else
    do! end_ <- sm_lift (plus_u64 frame FRAME_SIZE);
    let usable := (LOW_MEMORY_LIMIT <=? frame) && negb (existsb (λ r, Reserved_overlaps r frame end_) reserved) in
    do! _ <- (if usable && (reach <? end_) then count_unreachable 1 else sm_ret tt);
    if usable && (end_ <=? reach) then sm_ret (inl (end_, if run =? 0 then frame else run))
    else if negb (run =? 0) then
      do! _ <- FrameAllocator_accept cpu run frame;
      sm_ret (inl (end_, 0))
    else sm_ret (inl (end_, run)).

Definition FrameAllocator_add_region (cpu : nat) (base len : Z) (reserved : list Reserved) : sm Machine fault unit :=
  let region_end := saturating_add 64 base len in
  let frames_end := region_end / FRAME_SIZE * FRAME_SIZE in
  do! frame <- sm_lift (let n := next_multiple_of base FRAME_SIZE in if u64_max <? n then Err Panicked else Ok n);
  let ceiling := foldr Z.max 0 (rs_end <$> reserved) in
  let threshold := Z.max ceiling LOW_MEMORY_LIMIT in
  do! limit <- sm_get (λ '(_, fa), win_limit (fa_map fa));
  let reach := limit / FRAME_SIZE * FRAME_SIZE in
  do! (frame, run) <- sm_loop (region_step cpu reserved threshold frames_end reach) (frame, 0);
  let rest := Z.min frames_end reach in
  let run := if frame <? rest then (if run =? 0 then frame else run) else run in
  let frame := if frame <? rest then rest else frame in
  do! _ <- (if negb (run =? 0) then FrameAllocator_accept cpu run frame else sm_ret tt);
  if frame <? frames_end then count_unreachable ((frames_end - frame) / FRAME_SIZE) else sm_ret tt.

(** ** One pass *)
Inductive Source : Type := Shard_ | Frontier_.

Definition count_up (n : Z) : Z := saturating_add 64 n 1.
Definition record (source : Source) (stolen : bool) (s : Shard) : Shard :=
  if stolen then
    mkShard (sh_clean s) (sh_dirty s) (sh_clean_frames s) (sh_dirty_frames s) (sh_served s) (sh_refills s) (count_up (sh_remote s)) (sh_splits s) (sh_merges s)
  else
    match source with
    | Shard_ => mkShard (sh_clean s) (sh_dirty s) (sh_clean_frames s) (sh_dirty_frames s) (count_up (sh_served s)) (sh_refills s) (sh_remote s) (sh_splits s) (sh_merges s)
    | Frontier_ => mkShard (sh_clean s) (sh_dirty s) (sh_clean_frames s) (sh_dirty_frames s) (sh_served s) (count_up (sh_refills s)) (sh_remote s) (sh_splits s) (sh_merges s)
    end.

(** From [want] down to [order]: [n] is how many orders are left. *)
Fixpoint refill_from (w : Window) (n : nat) (want order : Order) : sm Pass fault bool :=
  match n with
  | O => sm_ret false
  | S n =>
      do! found <- on_frontier (Frontier_take want);
      match found with
      | Some (block, gap_start, gap_end) =>
          do! _ <- on_core (carve w gap_start gap_end);
          do! _ <- on_core (give w want false block);
          sm_ret true
      | None =>
          match Order_down want with
          | None => sm_ret false
          | Some down => if (down <? order)%nat then sm_ret false else refill_from w n down order
          end
      end
  end.
Definition refill (w : Window) (order : Order) : sm Pass fault bool :=
  let want := if (Order_DEFAULT <? order)%nat then order else Order_DEFAULT in
  refill_from w (S want) want order.

(** [if let Some(block) = f { return Some(hit(block)) }], and what follows. *)
Definition or_else {S A B : Type} (f : sm S fault (option A)) (hit : A → B) (k : sm S fault (option B)) : sm S fault (option B) :=
  do! found <- f;
  match found with Some a => sm_ret (Some (hit a)) | None => k end.

Definition attempt (w : Window) (order : Order) (prefer_clean : bool) : sm Pass fault (option (Z * Source * bool)) :=
  or_else (if prefer_clean then on_core (pop_split w order true) else sm_ret None) (λ b, (b, Shard_, true))
  (or_else (on_core (pop_split w order false)) (λ b, (b, Shard_, false))
  (or_else (do! filled <- refill w order;
            if filled : bool then on_core (pop_split w order false) else sm_ret None) (λ b, (b, Frontier_, false))
  (or_else (if prefer_clean then sm_ret None else on_core (pop_split w order true)) (λ b, (b, Shard_, true))
  (sm_ret None)))).

(** ** Another core's memory *)
Fixpoint steal_kinds (me cpu : nat) (at_ : Order) (kinds : list bool) : sm Machine fault bool :=
  match kinds with
  | [] => sm_ret false
  | clean :: kinds =>
      do! popped <- on_cpu cpu (λ w, list_pop w clean at_);
      match popped with
      | Some block =>
          do! _ <- on_cpu cpu (λ _, on_shard (λ s, sh_with_frames clean (saturating_sub (Shard_frames s clean) (Order_frames at_)) s));
          do! _ <- on_cpu me (λ w, give w at_ clean block);
          sm_ret true
      | None => steal_kinds me cpu at_ kinds
      end
  end.

Fixpoint steal_cpus (me : nat) (at_ : Order) (cpus : list nat) : sm Machine fault bool :=
  match cpus with
  | [] => sm_ret false
  | cpu :: cpus =>
      if bool_decide (cpu = me) then steal_cpus me at_ cpus
      else
        do! got <- steal_kinds me cpu at_ [false; true];
        if got : bool then sm_ret true else steal_cpus me at_ cpus
  end.

Fixpoint steal_orders (n : nat) (me : nat) (at_ : Order) : sm Machine fault bool :=
  match n with
  | O => sm_ret false
  | S n =>
      do! got <- steal_cpus me at_ (seq 0 MAX_CPUS);
      if got : bool then sm_ret true
      else match Order_up at_ with Some up => steal_orders n me up | None => sm_ret false end
  end.
Definition steal (me : nat) (order : Order) : sm Machine fault bool := steal_orders ORDERS me order.

(** ** The operations *)

(** One round of [take]: an attempt, and who is charged for it. *)
Definition take_round (cpu : nat) (order : Order) (prefer_clean stolen : bool) : sm Machine fault (option (Z * bool)) :=
  on_pass cpu (λ w,
    do! hit <- attempt w order prefer_clean;
    match hit with
    | Some (block, source, clean) =>
        do! _ <- on_core (on_shard (record source stolen));
        sm_ret (Some (block, clean))
    | None => sm_ret None
    end).

Definition FrameAllocator_take (cpu : nat) (order : Order) (prefer_clean : bool) : sm Machine fault (option (Z * bool)) :=
  or_else (take_round cpu order prefer_clean false) id
  (or_else (do! _ <- on_cpu cpu (λ w, coalesce_shard w u64_max); take_round cpu order prefer_clean false) id
  (or_else (do! got <- steal cpu order;
            if got : bool then take_round cpu order prefer_clean true else sm_ret None) id
  (sm_ret None))).

Definition FrameAllocator_alloc (cpu : nat) (order : Order) : sm Machine fault (option Frame) :=
  or_else (FrameAllocator_take cpu order false) (λ '(block, _), mkFrame block order) (sm_ret None).

(** [self.map], to write with. *)
Definition on_window (f : Window → sm Mem fault unit) : sm Machine fault unit := λ '(m, fa),
  let '(r, m) := f (fa_map fa) m in (r, (m, fa)).

Definition FrameAllocator_alloc_zeroed (cpu : nat) (order : Order) : sm Machine fault (option Frame) :=
  do! taken <- FrameAllocator_take cpu order true;
  match taken with
  | None => sm_ret None
  | Some (block, clean) =>
      do! _ <- on_window (λ w, if clean : bool then clear_link w block else zero w block order);
      sm_ret (Some (mkFrame block order))
  end.

Definition FrameAllocator_free (cpu : nat) (f : Frame) : sm Machine fault unit :=
  if negb (Order_aligns (frame_order f) (frame_base f)) then sm_err Panicked
  else on_cpu cpu (λ w, give w (frame_order f) false (frame_base f)).

Definition FrameAllocator_coalesce (cpu : nat) (budget : Z) : sm Machine fault Z := on_cpu cpu (λ w, coalesce_shard w budget).

(** The largest order [left] frames pay for. *)
Fixpoint scrub_order (n : nat) (want : Order) (left_ : Z) : Order :=
  match n with
  | O => want
  | S n => match Order_up want with
           | Some up => if Order_frames up <=? left_ then scrub_order n up left_ else want
           | None => want
           end
  end.

(** From [want] down, until the dirty lists have one. *)
Fixpoint scrub_pop (w : Window) (want : Order) : sm Core fault (option (Z * Order)) :=
  or_else (pop_split w want false) (λ b, (b, want))
    (match want with
     | O => sm_ret None
     | S down => scrub_pop w down
     end).

Definition scrub_step (w : Window) (budget done : Z) : sm Pass fault (Z + Z) :=
  if budget <=? done then sm_ret (inr done)
  else
    do! taken <- on_core (scrub_pop w (scrub_order ORDERS Order_FRAME (budget - done)));
    match taken with
    | None =>
        do! filled <- refill w Order_FRAME;
        sm_ret (if filled : bool then inl done else inr done)
    | Some (block, order) =>
        do! _ <- on_core (on_mem (zero w block order));
        do! _ <- on_core (give w order true block);
        sm_ret (inl (saturating_add 64 done (Order_frames order)))
    end.

Definition FrameAllocator_scrub (cpu : nat) (budget : Z) : sm Machine fault Z :=
  on_pass cpu (λ w, sm_loop (scrub_step w budget) 0).

(** The walk of [free_blocks]. *)
Definition count_step (w : Window) (x : Z * Z) : sm Mem fault ((Z * Z) + Z) :=
  let '(at_, count) := x in
  if at_ =? 0 then sm_ret (inr count)
  else
    do! next <- read_link w at_;
    sm_ret (inl (next, saturating_add 64 count 1)).

Definition FrameAllocator_free_blocks (cpu : nat) (order : Order) : sm Machine fault Z :=
  on_cpu cpu (λ w,
    do! clean <- head_of true order;
    do! count <- on_mem (sm_loop (count_step w) (clean, 0));
    do! dirty <- head_of false order;
    on_mem (sm_loop (count_step w) (dirty, count))).

(** The counters, over all cores. *)
Definition FrameAllocator_served_count (fa : FrameAllocator) : res fault Z := FrameAllocator_sum (λ s, Ok (sh_served s)) fa.
Definition FrameAllocator_refill_count (fa : FrameAllocator) : res fault Z := FrameAllocator_sum (λ s, Ok (sh_refills s)) fa.
Definition FrameAllocator_remote_count (fa : FrameAllocator) : res fault Z := FrameAllocator_sum (λ s, Ok (sh_remote s)) fa.
Definition FrameAllocator_split_count (fa : FrameAllocator) : res fault Z := FrameAllocator_sum (λ s, Ok (sh_splits s)) fa.
Definition FrameAllocator_merge_count (fa : FrameAllocator) : res fault Z := FrameAllocator_sum (λ s, Ok (sh_merges s)) fa.
