(* ===== verification/FrameSort.v ===== *)
(** * Chains of free blocks, and their sorting

    A chain is a list of blocks linked through memory.  Sorting one permutes it
    into ascending order and writes nothing but the links of its blocks. *)

From S2P Require Import Prelude FrameLists.
From stdpp Require Import sorting.
#[local] Open Scope Z_scope.

Section chain.
Context (w : Window).
Implicit Types (m : Mem) (l : list Z).

(** The processor reaches the block. *)
Definition reached (b : Z) : Prop := b + win_phys_offset w ≤ u64_max.

Definition link m (b : Z) : Z := Z.lxor (m b) (win_cookie w).

Fixpoint chain m (head : Z) l : Prop :=
  match l with
  | [] => head = 0
  | b :: l => head = b ∧ b ≠ 0 ∧ chain m (link m b) l
  end.

Lemma chain_ext m m' l : ∀ h, (∀ b, b ∈ l → m' b = m b) → chain m h l → chain m' h l.
Proof.
  induction l as [|b l IH]; intros h Hm; cbn; [done|]. intros (-> & Hb & Hl). split_and!; [done|done|].
  unfold link. rewrite Hm by apply list_elem_of_here. apply IH; [|done]. intros c Hc. apply Hm. by apply list_elem_of_further.
Qed.

Lemma chain_nil m h l : chain m h l → h = 0 ↔ l = [].
Proof. destruct l; cbn; [done|]. intros (-> & ? & _). done. Qed.

Lemma chain_nonzero m l b : ∀ h, chain m h l → b ∈ l → b ≠ 0.
Proof.
  induction l as [|c l IH]; intros h; cbn; [by intros _ ?%elem_of_nil|].
  intros (_ & Hc & Hl) [->|Hb]%elem_of_cons; [done|by eapply IH].
Qed.

Lemma chains_nonzero m la lb a b c : chain m a la → chain m b lb → c ∈ la ++ lb → c ≠ 0.
Proof. intros Ha Hb [H|H]%elem_of_app; [exact (chain_nonzero _ _ _ _ Ha H)|exact (chain_nonzero _ _ _ _ Hb H)]. Qed.

Lemma chain_zero m l : chain m 0 l → l = [].
Proof. intros H. by apply (proj1 (chain_nil _ _ _ H)). Qed.

Lemma virt_reached b : reached b → Window_virt w b = Ok (b + win_phys_offset w).
Proof. unfold reached, Window_virt. intros. destruct (Z.ltb_spec u64_max (b + win_phys_offset w)); [lia|done]. Qed.

Lemma write_link_eq m b next : reached b → write_link w b next m = (Ok tt, write_word b (Z.lxor next (win_cookie w)) m).
Proof. intros Hb. unfold write_link. unfold sm_bind at 1, sm_lift. by rewrite virt_reached. Qed.

Lemma clear_link_eq m b : reached b → clear_link w b m = (Ok tt, write_word b 0 m).
Proof. intros Hb. unfold clear_link. unfold sm_bind at 1, sm_lift. by rewrite virt_reached. Qed.

Lemma read_link_eq m b : reached b → read_link w b m = (Ok (link m b), m).
Proof. intros Hb. unfold read_link. unfold sm_bind at 1, sm_lift. by rewrite virt_reached. Qed.

Lemma link_write m b next : link (write_word b (Z.lxor next (win_cookie w)) m) b = next.
Proof. unfold link, write_word. by rewrite Z.eqb_refl, Z.lxor_assoc, Z.lxor_nilpotent, Z.lxor_0_r. Qed.

Lemma write_word_ne m b v x : x ≠ b → write_word b v m x = m x.
Proof. unfold write_word. destruct (Z.eqb_spec x b); congruence. Qed.

Lemma link_write_ne m b v x : x ≠ b → link (write_word b v m) x = link m x.
Proof. intros. unfold link. by rewrite write_word_ne. Qed.

Lemma chain_write m b v h l : b ∉ l → chain m h l → chain (write_word b v m) h l.
Proof. intros Hb. apply chain_ext. intros c Hc. apply write_word_ne. congruence. Qed.

(** ** Merging two sorted chains *)
Lemma list_merge_cons_r a la b lb : ¬ a ≤ b → list_merge Z.le (a :: la) (b :: lb) = b :: list_merge Z.le (a :: la) lb.
Proof. intros. cbn. by rewrite decide_False. Qed.
Lemma list_merge_cons_l a la b lb : a ≤ b → list_merge Z.le (a :: la) (b :: lb) = a :: list_merge Z.le la (b :: lb).
Proof. intros. cbn. by rewrite decide_True. Qed.
Lemma list_merge_nil_r la : list_merge Z.le la [] = la.
Proof. by destruct la. Qed.

(** The head that is taken, and the chains that are left. *)
Lemma take_lower_spec m a la b lb :
  chain m a la → chain m b lb → la ≠ [] → lb ≠ [] → Forall reached (la ++ lb) →
  ∃ c a' b' la' lb', take_lower w a b m = (Ok (c, (a', b')), m) ∧ chain m a' la' ∧ chain m b' lb' ∧
    list_merge Z.le la lb = c :: list_merge Z.le la' lb' ∧ la ++ lb ≡ₚ c :: la' ++ lb' ∧
    (length la' + length lb' + 1 = length la + length lb)%nat.
Proof.
  intros Ha Hb Hna Hnb Hr. destruct la as [|a0 la]; [done|]. destruct lb as [|b0 lb]; [done|].
  pose proof Ha as Ha'. pose proof Hb as Hb'. destruct Ha' as (-> & Ha0 & Hla). destruct Hb' as (-> & Hb0 & Hlb).
  assert (Hra : reached a0) by (rewrite Forall_forall in Hr; apply Hr, elem_of_app; left; apply list_elem_of_here).
  assert (Hrb : reached b0) by (rewrite Forall_forall in Hr; apply Hr, elem_of_app; right; apply list_elem_of_here).
  unfold take_lower. destruct (Z.leb_spec a0 b0).
  - unfold sm_bind. rewrite read_link_eq by done. exists a0, (link m a0), b0, la, (b0 :: lb).
    split_and!; [done|done|done|by apply list_merge_cons_l|done|cbn; lia].
  - unfold sm_bind. rewrite read_link_eq by done. exists b0, a0, (link m b0), (a0 :: la), lb.
    split_and!; [done|done|done|apply list_merge_cons_r; lia| |cbn; lia].
    symmetry. apply (Permutation_middle (a0 :: la) lb b0).
Qed.

(** What the loop and the write after it make of the chains: the link of
    [tail] is the merge of what is left. *)
Lemma merge_loop n : ∀ la lb a b t m,
  (length la + length lb ≤ n)%nat → chain m a la → chain m b lb → NoDup (t :: la ++ lb) → Forall reached (t :: la ++ lb) →
  ∃ k a' b' t' m1 m2, (k ≤ n)%nat ∧ ends (loop_body (merge_step w)) k ((a, b, t), m) (Ok (a', b', t'), m1) ∧
    write_link w t' (if a' =? 0 then b' else a') m1 = (Ok tt, m2) ∧
    chain m2 (link m2 t) (list_merge Z.le la lb) ∧ ∀ x, x ∉ t :: la ++ lb → m2 x = m x.
Proof.
  induction n as [|n IH]; intros la lb a b t m Hn Ha Hb Hnd Hr.
  all: destruct (decide (la = [])) as [->|Hna].
  2:{ destruct la; [done|]. cbn in Hn. lia. }
  1, 2: apply list.NoDup_cons in Hnd as [Ht Hnd]; apply Forall_cons in Hr as [Hrt Hr]; cbn in Ha; subst a;
    exists 0%nat, 0, b, t, m, (write_word t (Z.lxor b (win_cookie w)) m);
    (split_and!; [lia|by constructor|by apply write_link_eq| |]);
    [rewrite link_write; replace (list_merge Z.le [] lb) with lb by (by destruct lb); by apply chain_write
    |intros x [? _]%not_elem_of_cons; by apply write_word_ne].
  destruct (decide (lb = [])) as [->|Hnb].
  { apply list.NoDup_cons in Hnd as [Ht Hnd]; apply Forall_cons in Hr as [Hrt Hr]. cbn in Hb. subst b.
    rewrite app_nil_r in *. pose proof (chain_nil _ _ _ Ha) as Ha0.
    exists 0%nat, a, 0, t, m, (write_word t (Z.lxor a (win_cookie w)) m). split_and!; [lia| | | |].
    - constructor. cbn. by rewrite orb_true_r.
    - rewrite write_link_eq by done. destruct (Z.eqb_spec a 0) as [->|]; done.
    - rewrite link_write, list_merge_nil_r. by apply chain_write.
    - intros x [? _]%not_elem_of_cons. by apply write_word_ne. }
  apply list.NoDup_cons in Hnd as [Ht Hnd]; apply Forall_cons in Hr as [Hrt Hr].
  destruct (take_lower_spec m a la b lb Ha Hb Hna Hnb Hr) as (c & a1 & b1 & la1 & lb1 & E & Ha1 & Hb1 & Em & Hp & Hl).
  set (m1 := write_word t (Z.lxor c (win_cookie w)) m).
  assert (Ht' : t ∉ c :: la1 ++ lb1) by (by rewrite <- Hp).
  assert ((t ∉ la1) ∧ (t ∉ lb1)) as [Hta Htb] by (apply not_elem_of_cons in Ht' as [_ Ht']; by apply not_elem_of_app in Ht').
  destruct (IH la1 lb1 a1 b1 c m1) as (k & a' & b' & t' & m2 & m3 & Hk & He & Ew & Hc & Hf).
  { lia. } { by apply chain_write. } { by apply chain_write. } { by rewrite <- Hp. } { by rewrite <- Hp. }
  exists (S k), a', b', t', m2, m3. split_and!; [lia| |done| |].
  - eapply ends_later; [|exact He]. cbn.
    assert (Hab : (a =? 0) || (b =? 0) = false).
    { apply orb_false_iff. split; apply Z.eqb_neq; [rewrite (chain_nil _ _ _ Ha)|rewrite (chain_nil _ _ _ Hb)]; done. }
    rewrite Hab. unfold sm_bind. rewrite E. rewrite write_link_eq by done. done.
  - rewrite Em. cbn. split_and!; [| |done].
    + unfold link. rewrite Hf by done. apply (link_write m t c).
    + apply (chains_nonzero m la lb a b); [done|done|]. rewrite Hp. apply list_elem_of_here.
  - intros x Hx. rewrite Hf.
    + apply write_word_ne. by apply not_elem_of_cons in Hx as [? _].
    + apply not_elem_of_cons in Hx as [_ Hx]. by rewrite <- Hp.
Qed.

Lemma merge_sorted_spec m a la b lb :
  chain m a la → chain m b lb → NoDup (la ++ lb) → Forall reached (la ++ lb) →
  Z.of_nat (length (la ++ lb)) < 2 ^ 64 →
  ∃ h m', merge_sorted w a b m = (Ok h, m') ∧ chain m' h (list_merge Z.le la lb) ∧ ∀ x, x ∉ la ++ lb → m' x = m x.
Proof.
  intros Ha Hb Hnd Hr Hlen. unfold merge_sorted. pose proof (chain_nil _ _ _ Ha) as Ha0. pose proof (chain_nil _ _ _ Hb) as Hb0.
  destruct (Z.eqb_spec a 0) as [->|Hna].
  { rewrite (proj1 Ha0 eq_refl) in *. exists b, m. split_and!; [done|by destruct lb|done]. }
  destruct (Z.eqb_spec b 0) as [->|Hnb].
  { rewrite (proj1 Hb0 eq_refl) in *. exists a, m. split_and!; [done|by rewrite list_merge_nil_r|done]. }
  destruct (take_lower_spec m a la b lb) as (c & a1 & b1 & la1 & lb1 & E & Ha1 & Hb1 & Em & Hp & Hl); try tauto.
  unfold sm_bind at 1. rewrite E. cbn [fst snd].
  assert (Hnd1 : NoDup (c :: la1 ++ lb1)) by (by rewrite <- Hp).
  assert (Hr1 : Forall reached (c :: la1 ++ lb1)) by (by rewrite <- Hp).
  destruct (merge_loop (length la1 + length lb1) la1 lb1 a1 b1 c m) as (k & a' & b' & t' & m1 & m2 & Hk & He & Ew & Hc & Hf); try done.
  unfold sm_bind. rewrite length_app in Hlen. rewrite (sm_loop_ends _ k _ _ _ ltac:(lia) He).
  rewrite Ew. exists c, m2. split_and!; [done| |].
  - rewrite Em. cbn. split_and!; [done| |done].
    apply (chains_nonzero m la lb a b); [done|done|]. rewrite Hp. apply list_elem_of_here.
  - intros x Hx. apply Hf. by rewrite <- Hp.
Qed.

(** ** The slots of the sort *)
Record slots m (hs : list Z) (ps : list (list Z)) : Prop := {
  sl_chains : Forall2 (chain m) hs ps;
  sl_sorted : Forall (Sorted Z.le) ps;
}.

(** What a sorting step may rely on: the blocks are distinct, within reach, and
    not more than memory has. *)
Record sortable (l : list Z) : Prop := {
  so_nodup : NoDup l;
  so_reached : Forall reached l;
  so_few : Z.of_nat (length l) < 2 ^ 64;
}.

Lemma sortable_perm l l' : l ≡ₚ l' → sortable l → sortable l'.
Proof. intros H [H1 H2 H3]. split; by rewrite <- H. Qed.

Lemma sortable_app l l' : sortable (l ++ l') → sortable l ∧ sortable l' ∧ ∀ x, x ∈ l → x ∉ l'.
Proof.
  intros [H1 H2 H3]. apply list.NoDup_app in H1 as (N1 & N & N2). apply Forall_app in H2 as [R1 R2].
  rewrite length_app in H3.
  split; [split; [done|done|lia]|split; [split; [done|done|lia]|done]].
Qed.

Lemma chains_ext m m' hs ps : (∀ b, b ∈ concat ps → m' b = m b) → Forall2 (chain m) hs ps → Forall2 (chain m') hs ps.
Proof.
  intros Hm. induction 1 as [|h l hs ps Hh _ IH]; constructor.
  - eapply chain_ext; [|exact Hh]. intros b Hb. apply Hm. cbn. apply elem_of_app. by left.
  - apply IH. intros b Hb. apply Hm. cbn. apply elem_of_app. by right.
Qed.

Lemma slots_ext m m' hs ps : (∀ b, b ∈ concat ps → m' b = m b) → slots m hs ps → slots m' hs ps.
Proof. intros Hm [H1 H2]. split; [by eapply chains_ext|done]. Qed.

(** Two sorted chains among others. *)
Lemma merge_two m a la b lb rest :
  chain m a la → chain m b lb → Sorted Z.le la → Sorted Z.le lb → sortable ((la ++ lb) ++ rest) →
  ∃ h m' l, merge_sorted w a b m = (Ok h, m') ∧ chain m' h l ∧ Sorted Z.le l ∧ l ≡ₚ la ++ lb ∧
    (∀ x, x ∉ la ++ lb → m' x = m x) ∧ (∀ x, x ∈ rest → m' x = m x).
Proof.
  intros Ha Hb Sa Sb Hs. destruct (sortable_app _ _ Hs) as ([N R F] & _ & Hd).
  destruct (merge_sorted_spec m a la b lb Ha Hb N R F) as (h & m' & E & Hc & Hf).
  exists h, m', (list_merge Z.le la lb). split_and!; [done|done| |apply merge_Permutation|done|].
  - by apply Sorted_list_merge; [apply _|..].
  - intros x Hx. apply Hf. intros Hin. by apply (Hd x).
Qed.

Lemma sort_carry_spec hs : ∀ ps m c lc rest,
  chain m c lc → Sorted Z.le lc → slots m hs ps → sortable ((lc ++ concat ps) ++ rest) →
  ∃ c' hs' m' lc' ps', sort_carry w c hs m = (Ok (c', hs'), m') ∧ chain m' c' lc' ∧ Sorted Z.le lc' ∧ slots m' hs' ps' ∧
    lc' ++ concat ps' ≡ₚ lc ++ concat ps ∧ (lc' = [] ∨ Forall (λ p, p = []) ps') ∧
    length hs' = length hs ∧ (∀ x, x ∉ lc ++ concat ps → m' x = m x) ∧ (∀ x, x ∈ rest → m' x = m x).
Proof.
  induction hs as [|h hs IH]; intros ps m c lc rest Hc Sc [Hps Sps] Hs; cbn [sort_carry].
  { apply Forall2_nil_inv_l in Hps as ->. exists c, [], m, lc, []. split_and!; try done. by right. }
  apply Forall2_cons_inv_l in Hps as (p & ps' & Hp & Hps & ->). apply Forall_cons in Sps as [Sp Sps].
  destruct (Z.eqb_spec h 0) as [->|Hh].
  { apply chain_zero in Hp as ->. exists 0, (c :: hs), m, [], (lc :: ps').
    split_and!; try done; [split; by constructor|by left]. }
  cbn [concat] in Hs.
  assert (Hs1 : sortable ((p ++ lc) ++ concat ps' ++ rest)).
  { eapply sortable_perm; [|exact Hs]. rewrite (Permutation_app_comm p lc), <- !app_assoc. done. }
  destruct (merge_two m h p c lc _ Hp Hc Sp Sc Hs1) as (h1 & m1 & l1 & E & Hc1 & Sc1 & Hp1 & Hf & Hr).
  destruct (IH ps' m1 h1 l1 rest Hc1 Sc1) as (c' & hs' & m' & lc' & ps1 & E' & Hc' & Sc' & Hs' & Hp' & Hor & Hl & Hf' & Hr').
  { split; [|done]. eapply chains_ext; [|exact Hps]. intros x Hx. apply Hr, elem_of_app. by left. }
  { eapply sortable_perm; [|exact Hs1]. by rewrite <- Hp1, app_assoc. }
  unfold sm_bind. rewrite E, E'. exists c', (0 :: hs'), m', lc', ([] :: ps1). destruct Hs' as [Hs1' Hs2'].
  split_and!; try done.
  - split; by constructor.
  - cbn. rewrite Hp', Hp1, (Permutation_app_comm p lc), app_assoc. done.
  - destruct Hor as [->|Hor]; [by left|right; by constructor].
  - cbn. by rewrite Hl.
  - intros x Hx. cbn in Hx. rewrite Hf'; [apply Hf|]; [set_solver|]. rewrite Hp1. set_solver.
  - intros x Hx. rewrite Hr' by done. apply Hr, elem_of_app. by right.
Qed.

(** The loop moves every block of the list into the slots. *)
Lemma sort_loop lh : ∀ m h hs ps,
  chain m h lh → slots m hs ps → length hs = 64%nat → sortable (lh ++ concat ps) →
  ∃ hs' m' ps', ends (loop_body (sort_step w)) (length lh) ((h, hs), m) (Ok hs', m') ∧ slots m' hs' ps' ∧
    concat ps' ≡ₚ lh ++ concat ps ∧ (∀ x, x ∉ lh ++ concat ps → m' x = m x).
Proof.
  induction lh as [|b lh IH]; intros m h hs ps Hh Hps Hlen Hs.
  { cbn in Hh. subst h. exists hs, m, ps. split_and!; try done. by constructor. }
  destruct Hh as (-> & Hb & Hlh).
  assert (Hs1 : sortable (([b] ++ concat ps) ++ lh)).
  { eapply sortable_perm; [|exact Hs]. cbn. by rewrite (Permutation_app_comm lh). }
  set (m1 := write_word b (Z.lxor 0 (win_cookie w)) m).
  destruct Hs as [N R F]. apply list.NoDup_cons in N as [Hnb N]. apply Forall_cons in R as [Rb R].
  assert (Hm1 : ∀ x, x ∈ lh ++ concat ps → m1 x = m x) by (intros x Hx; apply write_word_ne; by intros ->).
  assert (Hlh1 : chain m1 (link m b) lh).
  { eapply chain_ext; [|exact Hlh]. intros x Hx. apply Hm1, elem_of_app. by left. }
  destruct (sort_carry_spec hs ps m1 b [b] lh) as (c' & hs1 & m2 & lc & ps1 & E & Hc & Sc & Hs2 & Hp & Hor & Hl & Hf & Hr).
  { cbn. split_and!; [done|done|]. exact (link_write m b 0). }
  { constructor; constructor. }
  { eapply slots_ext; [|exact Hps]. intros x Hx. apply Hm1, elem_of_app. by right. }
  { done. }
  set (hs2 := if c' =? 0 then hs1 else <[0%nat := c']> hs1).
  set (ps2 := if c' =? 0 then ps1 else <[0%nat := lc]> ps1).
  assert (Hlh2 : chain m2 (link m b) lh) by (eapply chain_ext; [|exact Hlh1]; auto).
  assert (H2 : slots m2 hs2 ps2 ∧ concat ps2 ≡ₚ lc ++ concat ps1 ∧ length hs2 = 64%nat).
  { unfold hs2, ps2. destruct (Z.eqb_spec c' 0) as [->|Hc']; [apply chain_zero in Hc as ->; split_and!; [done|done|lia]|].
    destruct Hor as [->|Hnil]; [by cbn in Hc|]. destruct hs1 as [|h1 hs1]; [cbn in Hl; lia|].
    destruct Hs2 as [Hch Hso]. apply Forall2_cons_inv_l in Hch as (p & ps' & Hp1 & Hch & ->).
    apply Forall_cons in Hso as [_ Hso]. apply Forall_cons in Hnil as [-> Hnil]. cbn in *. split_and!; [|done|lia].
    split; by constructor. }
  destruct H2 as (Hs3 & Hp3 & Hl3).
  destruct (IH m2 (link m b) hs2 ps2) as (hs' & m' & ps' & He & Hs' & Hp' & Hf'); [done|done|done| |].
  { eapply sortable_perm; [|exact Hs1]. by rewrite Hp3, Hp, (Permutation_app_comm lh). }
  assert (Hall : lh ++ concat ps2 ≡ₚ (b :: lh) ++ concat ps) by (rewrite Hp3, Hp; symmetry; apply (Permutation_middle lh (concat ps) b)).
  exists hs', m', ps'. split_and!; [|done|by rewrite Hp'|].
  - eapply ends_later; [|exact He]. cbn. destruct (Z.eqb_spec b 0); [done|]. unfold sm_bind.
    rewrite read_link_eq, write_link_eq by done. fold m1. by rewrite E.
  - intros x Hx. rewrite Hf' by (by rewrite Hall). rewrite Hf by set_solver. apply write_word_ne. set_solver.
Qed.

Lemma merge_slots_spec hs : ∀ ps m out lo,
  chain m out lo → Sorted Z.le lo → slots m hs ps → sortable (lo ++ concat ps) →
  ∃ h m' l, merge_slots w out hs m = (Ok h, m') ∧ chain m' h l ∧ Sorted Z.le l ∧ l ≡ₚ lo ++ concat ps ∧
    (∀ x, x ∉ lo ++ concat ps → m' x = m x).
Proof.
  induction hs as [|h hs IH]; intros ps m out lo Ho So [Hps Sps] Hs; cbn [merge_slots].
  { apply Forall2_nil_inv_l in Hps as ->. exists out, m, lo. split_and!; try done. by rewrite app_nil_r. }
  apply Forall2_cons_inv_l in Hps as (p & ps' & Hp & Hps & ->). apply Forall_cons in Sps as [Sp Sps].
  cbn [concat] in *. rewrite app_assoc in Hs.
  destruct (merge_two m out lo h p _ Ho Hp So Sp Hs) as (h1 & m1 & l1 & E & Hc1 & Sc1 & Hp1 & Hf & Hr).
  destruct (IH ps' m1 h1 l1) as (h2 & m2 & l2 & E2 & Hc2 & Sc2 & Hp2 & Hf2); [done|done| | |].
  { split; [|done]. by eapply chains_ext. }
  { eapply sortable_perm; [|exact Hs]. by rewrite Hp1. }
  unfold sm_bind. rewrite E, E2. exists h2, m2, l2. split_and!; [done|done|done| |].
  - by rewrite Hp2, Hp1, app_assoc.
  - intros x Hx. rewrite app_assoc in Hx. rewrite Hf2; [apply Hf; set_solver|]. by rewrite Hp1.
Qed.

(** Sorting a free list. *)
Lemma sort_spec m h l :
  chain m h l → sortable l →
  ∃ h' m' l', FrameLists.sort w h m = (Ok h', m') ∧ chain m' h' l' ∧ Sorted Z.le l' ∧ l' ≡ₚ l ∧ (∀ x, x ∉ l → m' x = m x).
Proof.
  intros Hc Hs. assert (Hps : concat (replicate 64 ([] : list Z)) = []) by done.
  destruct (sort_loop l m h (replicate 64 0) (replicate 64 [])) as (hs & m1 & ps & He & Hs1 & Hp & Hf); [done| |done| |].
  { split; [by repeat constructor|by repeat constructor]. }
  { by rewrite Hps, app_nil_r. }
  rewrite Hps, app_nil_r in *.
  destruct (merge_slots_spec hs ps m1 0 []) as (h' & m' & l' & E & Hc' & Sc' & Hp' & Hf'); [done|constructor|done| |].
  { by eapply sortable_perm; [symmetry; exact Hp|]. }
  exists h', m', l'. unfold FrameLists.sort, sm_bind. rewrite (sm_loop_ends _ _ _ _ _ (so_few _ Hs) He).
  split_and!; [done|done|done|by rewrite Hp'|]. intros x Hx. cbn in Hf'. rewrite Hf' by (by rewrite Hp). by apply Hf.
Qed.
End chain.
