(* ===== verification/FrameShard.v ===== *)
(** * One core's free memory

    What a shard holds: for each kind and order the blocks on its list.  Every
    list operation keeps the blocks apart, aligned and within reach, and moves
    exactly the memory it says. *)

From S2P Require Import Prelude FrameLists Extents FrameSort.
From Stdlib Require Import Bool.
From stdpp Require Import sorting.
#[local] Open Scope Z_scope.

(** ** Orders *)
Lemma Order_bytes_eq o : Order_bytes o = FRAME_SIZE * 2 ^ Z.of_nat o.
Proof. unfold Order_bytes. by rewrite Z.shiftl_mul_pow2 by lia. Qed.
Lemma Order_frames_eq o : Order_frames o = 2 ^ Z.of_nat o.
Proof. unfold Order_frames. by rewrite Z.shiftl_1_l. Qed.
Lemma Order_bytes_S o : Order_bytes (S o) = 2 * Order_bytes o.
Proof. rewrite !Order_bytes_eq, Nat2Z.inj_succ, Z.pow_succ_r by lia. lia. Qed.
Lemma Order_bytes_pos o : FRAME_SIZE ≤ Order_bytes o.
Proof. rewrite Order_bytes_eq. pose proof (Z.pow_pos_nonneg 2 (Z.of_nat o)). unfold FRAME_SIZE. lia. Qed.
Lemma Order_bytes_frames o : Order_bytes o = FRAME_SIZE * Order_frames o.
Proof. by rewrite Order_bytes_eq, Order_frames_eq. Qed.
Lemma Order_frames_pos o : 0 < Order_frames o.
Proof. rewrite Order_frames_eq. apply Z.pow_pos_nonneg; lia. Qed.
Lemma Order_bytes_divide o o' : (o ≤ o')%nat → (Order_bytes o | Order_bytes o').
Proof.
  intros H. rewrite !Order_bytes_eq. apply Z.mul_divide_mono_l. exists (2 ^ Z.of_nat (o' - o)).
  rewrite <- Z.pow_add_r by lia. f_equal. lia.
Qed.
Lemma Order_bytes_le o o' : (o ≤ o')%nat → Order_bytes o ≤ Order_bytes o'.
Proof. intros H. pose proof (Order_bytes_pos o'). apply Z.divide_pos_le; [unfold FRAME_SIZE in *; lia|by apply Order_bytes_divide]. Qed.
Lemma FRAME_divide o : (FRAME_SIZE | Order_bytes o).
Proof. rewrite Order_bytes_eq. apply Z.divide_factor_l. Qed.
Lemma Order_aligns_spec o a : Order_aligns o a = true ↔ (Order_bytes o | a).
Proof. unfold Order_aligns. rewrite Z.eqb_eq. pose proof (Order_bytes_pos o). unfold FRAME_SIZE in *. by rewrite Z.mod_divide by lia. Qed.

(** An aligned block is the lower half of the pair above exactly when it is
    aligned to the order above. *)
Lemma Order_is_lower_spec o a : (Order_bytes o | a) → Order_is_lower o a = true ↔ (Order_bytes (S o) | a).
Proof.
  intros [q ->]. pose proof (Order_bytes_pos o) as Hp. unfold Order_is_lower. rewrite Order_bytes_S, Z.eqb_eq.
  assert (E : Z.land (q * Order_bytes o) (Order_bytes o) = if Z.even q then 0 else Order_bytes o).
  { rewrite Order_bytes_eq. replace FRAME_SIZE with (2 ^ 12) by done. rewrite <- Z.pow_add_r by lia.
    set (k := 12 + Z.of_nat o). rewrite <- Z.shiftl_mul_pow2, <- (Z.shiftl_1_l k), <- Z.shiftl_land by lia.
    replace (Z.land q 1) with (q mod 2 ^ 1) by (rewrite <- Z.land_ones by lia; done).
    change (2 ^ 1) with 2. rewrite Zmod_even. destruct (Z.even q); [apply Z.shiftl_0_l|done]. }
  rewrite E. destruct (Z.even q) eqn:Eq.
  - apply Z.even_spec in Eq as [p ->]. split; [|done]. intros _. exists p. lia.
  - split; [unfold FRAME_SIZE in *; lia|]. intros [p Hq]. exfalso.
    assert (q = 2 * p) as -> by (unfold FRAME_SIZE in *; nia). by rewrite Z.even_mul in Eq.
Qed.

(** ** What the lists hold *)
Definition bcov (o : Order) (b x : Z) : Z := cov b (b + Order_bytes o) x.
Definition lcov (o : Order) (l : list Z) (x : Z) : Z := zsum (λ b, bcov o b x) l.

Definition Held : Type := bool → Order → list Z.
Definition held_none : Held := λ _ _, [].
Definition held_set (c : bool) (o : Order) (l : list Z) (g : Held) : Held := λ c', if decide (c = c') then <[o := l]> (g c' : nat → list Z) else g c'.
Definition kcov (g : Held) (c : bool) (x : Z) : Z := zsum (λ o, lcov o (g c o) x) (seq 0 ORDERS).
Definition gcov (g : Held) (x : Z) : Z := kcov g false x + kcov g true x.
Definition kind (c c' : bool) (n : Z) : Z := if eqb c c' then n else 0.

#[global] Arguments bcov : simpl never.
#[global] Arguments lcov : simpl never.
#[global] Arguments kcov : simpl never.
#[global] Arguments gcov : simpl never.
#[global] Arguments held_set : simpl never.

Lemma bcov_range o b x : 0 ≤ bcov o b x ≤ 1.
Proof. apply cov_range. Qed.
Lemma bcov_in o b x : bcov o b x = 1 ↔ b ≤ x < b + Order_bytes o.
Proof. apply cov_in. Qed.
Lemma bcov_out o b x : bcov o b x = 0 ↔ ¬ b ≤ x < b + Order_bytes o.
Proof. apply cov_out. Qed.
Lemma bcov_start o b : bcov o b b = 1.
Proof. apply bcov_in. pose proof (Order_bytes_pos o). unfold FRAME_SIZE in *. lia. Qed.
Lemma bcov_halves o b x : bcov (S o) b x = bcov o b x + bcov o (b + Order_bytes o) x.
Proof.
  unfold bcov. pose proof (Order_bytes_pos o). rewrite (cov_split b (b + Order_bytes o)) by (rewrite Order_bytes_S; unfold FRAME_SIZE in *; lia).
  do 2 f_equal. rewrite Order_bytes_S. lia.
Qed.

Lemma lcov_nonneg o l x : 0 ≤ lcov o l x.
Proof. apply zsum_nonneg. intros. apply bcov_range. Qed.
Lemma lcov_elem o l b x : b ∈ l → bcov o b x ≤ lcov o l x.
Proof. intros. apply (zsum_elem (λ b, bcov o b x)); [intros; apply bcov_range|done]. Qed.
Lemma lcov_nil o x : lcov o [] x = 0.
Proof. done. Qed.
Lemma lcov_cons o b l x : lcov o (b :: l) x = bcov o b x + lcov o l x.
Proof. done. Qed.
Lemma lcov_perm o l l' x : l ≡ₚ l' → lcov o l x = lcov o l' x.
Proof. apply zsum_perm. Qed.

Lemma held_set_eq c o l g : held_set c o l g c o = l.
Proof. unfold held_set. rewrite decide_True by done. apply fn_lookup_insert. Qed.
Lemma held_set_ne c o l g c' o' : c ≠ c' ∨ o ≠ o' → held_set c o l g c' o' = g c' o'.
Proof.
  unfold held_set. intros H. destruct (decide (c = c')) as [<-|Hc]; [|done].
  rewrite fn_lookup_insert_ne; [done|]. by destruct H.
Qed.

Lemma kcov_nonneg g c x : 0 ≤ kcov g c x.
Proof. apply zsum_nonneg. intros. apply lcov_nonneg. Qed.
Lemma kcov_set g c o l c' x :
  (o < ORDERS)%nat → kcov (held_set c o l g) c' x + kind c c' (lcov o (g c o) x) = kcov g c' x + kind c c' (lcov o l x).
Proof.
  intros Ho. unfold kcov, kind, held_set. destruct (decide (c = c')) as [<-|Hc]; [rewrite eqb_reflx|rewrite (proj2 (eqb_false_iff c c') Hc)].
  - apply (zsum_insert (λ o l, lcov o l x)); [apply NoDup_ListNoDup, seq_NoDup|].
    apply elem_of_seq. lia.
  - done.
Qed.
Lemma kcov_elem g c o b x : (o < ORDERS)%nat → b ∈ g c o → bcov o b x ≤ kcov g c x.
Proof.
  intros Ho Hb. transitivity (lcov o (g c o) x); [by apply lcov_elem|].
  apply (zsum_elem (λ o, lcov o (g c o) x)); [intros; apply lcov_nonneg|]. apply elem_of_seq. lia.
Qed.
Lemma gcov_nonneg g x : 0 ≤ gcov g x.
Proof. unfold gcov. pose proof (kcov_nonneg g false x). pose proof (kcov_nonneg g true x). lia. Qed.
Lemma kcov_gcov g c x : kcov g c x ≤ gcov g x.
Proof. unfold gcov. pose proof (kcov_nonneg g false x). pose proof (kcov_nonneg g true x). destruct c; lia. Qed.
Lemma gcov_elem g c o b x : (o < ORDERS)%nat → b ∈ g c o → bcov o b x ≤ gcov g x.
Proof. intros. transitivity (kcov g c x); [by apply kcov_elem|apply kcov_gcov]. Qed.

(** An update of one kind by a known amount. *)
Lemma gcov_of_kcov g g' c d e :
  (∀ c' x, kcov g' c' x + kind c c' (d x) = kcov g c' x + kind c c' (e x)) → ∀ x, gcov g' x + d x = gcov g x + e x.
Proof.
  intros H x. unfold gcov. pose proof (H false x) as H1. pose proof (H true x) as H2. unfold kind in *.
  destruct c; cbn in *; lia.
Qed.

Section shard.
Context (w : Window).

Record Window_ok : Prop := {
  wo_offset : 0 ≤ win_phys_offset w;
  wo_limit : 0 ≤ win_limit w ≤ u64_max;
  wo_reach : win_limit w + win_phys_offset w ≤ 2 ^ 64;
}.
Hypothesis Hw : Window_ok.

Record block_ok (o : Order) (b : Z) : Prop := {
  bo_aligned : (Order_bytes o | b);
  bo_pos : 0 < b;
  bo_end : b + Order_bytes o ≤ win_limit w;
}.

Definition zeroed (m : Mem) (o : Order) (b : Z) : Prop := ∀ x, b < x < b + Order_bytes o → m x = 0.

Record Shard_holds (m : Mem) (s : Shard) (g : Held) : Prop := {
  sd_len : ∀ c, length (heads (Shard_lists s c)) = ORDERS;
  sd_chain : ∀ c o, (o < ORDERS)%nat → chain w m (Lists_head (Shard_lists s c) o) (g c o);
  sd_blocks : ∀ c o b, (o < ORDERS)%nat → b ∈ g c o → block_ok o b;
  sd_clean : ∀ o b, (o < ORDERS)%nat → b ∈ g true o → zeroed m o b;
  sd_apart : ∀ x, gcov g x ≤ 1;
}.

(** Only lists and counters of the shard changed, not how many frames it says
    it has. *)
Definition same_frames (s s' : Shard) : Prop := ∀ c, Shard_frames s' c = Shard_frames s c.

Lemma block_reached o b : block_ok o b → reached w b.
Proof. intros [_ ? He]. unfold reached, u64_max. pose proof (Order_bytes_pos o). destruct Hw. unfold FRAME_SIZE in *. lia. Qed.

Lemma block_half o b : block_ok (S o) b → block_ok o b ∧ block_ok o (b + Order_bytes o).
Proof.
  intros [Ha Hp He]. rewrite Order_bytes_S in Ha, He. pose proof (Order_bytes_pos o) as Hb. unfold FRAME_SIZE in Hb.
  assert ((Order_bytes o | b)) by (etransitivity; [apply Z.divide_factor_r|exact Ha]).
  split; constructor; try lia; [done|]. apply Z.divide_add_r; [done|apply Z.divide_refl].
Qed.

Lemma zeroed_frame m m' o b : (∀ x, b < x < b + Order_bytes o → m' x = m x) → zeroed m o b → zeroed m' o b.
Proof. intros H Hz x Hx. rewrite H by done. by apply Hz. Qed.

(** A shard's lists survive writes outside what they hold. *)
Lemma holds_frame m m' s g : (∀ x, gcov g x ≠ 0 → m' x = m x) → Shard_holds m s g → Shard_holds m' s g.
Proof.
  intros Hm [H1 H2 H3 H4 H5].
  assert (Hin : ∀ c o b x, (o < ORDERS)%nat → b ∈ g c o → b ≤ x < b + Order_bytes o → m' x = m x).
  { intros c o b x Ho Hb Hx%bcov_in. apply Hm. pose proof (gcov_elem g c o b x Ho Hb). lia. }
  split; [done| |done| |done].
  - intros c o Ho. eapply chain_ext; [|by apply H2]. intros b Hb. apply (Hin c o b b Ho Hb).
    pose proof (Order_bytes_pos o). unfold FRAME_SIZE in *. lia.
  - intros o b Ho Hb. eapply zeroed_frame; [|by apply H4]. intros x Hx. apply (Hin true o b x Ho Hb). lia.
Qed.

(** The chain of one list is fit to be sorted. *)
Lemma apart_nodup o l : (∀ x, lcov o l x ≤ 1) → NoDup l.
Proof.
  induction l as [|b l IH]; intros H; [constructor|]. apply list.NoDup_cons. split.
  - intros Hb. specialize (H b). unfold lcov in H. cbn in H. rewrite bcov_start in H.
    pose proof (lcov_elem o l b b Hb) as Hl. rewrite bcov_start in Hl. unfold lcov in Hl. lia.
  - apply IH. intros x. specialize (H x). unfold lcov in *. cbn in H. pose proof (bcov_range o b x). lia.
Qed.

Lemma mass_lcov o l : Forall (block_ok o) l → mass (2 ^ 64) (lcov o l) = Order_bytes o * Z.of_nat (length l).
Proof.
  intros Hl. unfold lcov. rewrite mass_sum. rewrite (zsum_ext _ (λ _, Order_bytes o)).
  - by rewrite zsum_const.
  - intros b Hb. rewrite Forall_forall in Hl. destruct (Hl b Hb) as [_ ? He]. pose proof (Order_bytes_pos o).
    destruct Hw. unfold bcov, FRAME_SIZE, u64_max in *. rewrite mass_cov; lia.
Qed.

Lemma apart_sortable o l : Forall (block_ok o) l → (∀ x, lcov o l x ≤ 1) → sortable w l.
Proof.
  intros Hl Ha. split; [by eapply apart_nodup|eapply Forall_impl; [exact Hl|apply block_reached]|].
  pose proof (mass_at_most (2 ^ 64) (lcov o l) ltac:(lia) Ha) as Hm. rewrite mass_lcov in Hm by done.
  pose proof (Order_bytes_pos o). unfold FRAME_SIZE in *. nia.
Qed.
End shard.

#[export] Hint Resolve bcov_range lcov_nonneg kcov_nonneg gcov_nonneg kcov_gcov : core.

(** * Moving blocks on and off a shard's lists *)

Section accessors.
Implicit Types (s : Shard).

Lemma lists_with_lists c c' l s : Shard_lists (sh_with_lists c l s) c' = if eqb c c' then l else Shard_lists s c'.
Proof. by destruct c, c'. Qed.
Lemma lists_with_frames c c' n s : Shard_lists (sh_with_frames c n s) c' = Shard_lists s c'.
Proof. by destruct c, c'. Qed.
Lemma frames_with_lists c c' l s : Shard_frames (sh_with_lists c l s) c' = Shard_frames s c'.
Proof. by destruct c, c'. Qed.
Lemma frames_with_frames c c' n s : Shard_frames (sh_with_frames c n s) c' = if eqb c c' then n else Shard_frames s c'.
Proof. by destruct c, c'. Qed.
Lemma head_set_eq o b l : (o < length (heads l))%nat → Lists_head (Lists_set_head o b l) o = b.
Proof. intros. unfold Lists_head, Lists_set_head. cbn. by rewrite list_lookup_insert_eq. Qed.
Lemma head_set_ne o o' b l : o ≠ o' → Lists_head (Lists_set_head o b l) o' = Lists_head l o'.
Proof. intros. unfold Lists_head, Lists_set_head. cbn. by rewrite list_lookup_insert_ne. Qed.
End accessors.

Section ops.
Context (w : Window) (Hw : Window_ok w).
Implicit Types (m : Mem) (s : Shard) (g : Held).

(** The shard with one list's head and what it holds replaced. *)
Lemma holds_set m m' s g c o head l :
  Shard_holds w m s g → (o < ORDERS)%nat → chain w m' head l → Forall (block_ok w o) l →
  (c = true → Forall (zeroed m' o) l) → (∀ x, gcov (held_set c o l g) x ≤ 1) →
  (∀ c' o' x, (o' < ORDERS)%nat → (c ≠ c' ∨ o ≠ o') → lcov o' (g c' o') x ≠ 0 → m' x = m x) →
  Shard_holds w m' (sh_with_lists c (Lists_set_head o head (Shard_lists s c)) s) (held_set c o l g).
Proof.
  intros [H1 H2 H3 H4 H5] Ho Hc Hl Hz Ha Hm. rewrite list.Forall_forall in Hl.
  assert (Hsame : ∀ c' o', {c = c' ∧ o = o'} + {c ≠ c' ∨ o ≠ o'}).
  { intros c' o'. destruct (decide (c = c')) as [<-|]; [|by right; left].
    destruct (decide (o = o')) as [<-|]; [by left|by right; right]. }
  split.
  - intros c'. rewrite lists_with_lists. destruct (eqb c c'); [|done]. cbn. by rewrite length_insert.
  - intros c' o' Ho'. rewrite lists_with_lists. destruct (Hsame c' o') as [[<- <-]|Hne].
    + rewrite eqb_reflx, head_set_eq by (by rewrite H1). by rewrite held_set_eq.
    + rewrite held_set_ne by done.
      assert (Hch : chain w m' (Lists_head (Shard_lists s c') o') (g c' o')).
      { eapply chain_ext; [|by apply H2]. intros b Hb. apply (Hm c' o' b Ho' Hne).
        pose proof (lcov_elem o' (g c' o') b b Hb) as Hle. rewrite bcov_start in Hle. lia. }
      destruct (eqb c c') eqn:E; [|done]. apply eqb_prop in E as <-. rewrite head_set_ne; [done|]. by destruct Hne.
  - intros c' o' b Ho' Hb. destruct (Hsame c' o') as [[<- <-]|Hne]; [rewrite held_set_eq in Hb; by apply Hl|].
    rewrite held_set_ne in Hb by done. by eapply H3.
  - intros o' b Ho' Hb. destruct (Hsame true o') as [[-> <-]|Hne].
    + rewrite held_set_eq in Hb. specialize (Hz eq_refl). rewrite list.Forall_forall in Hz. by apply Hz.
    + rewrite held_set_ne in Hb by done. eapply zeroed_frame; [|by apply H4].
      intros x Hx. apply (Hm true o' x Ho' Hne). pose proof (lcov_elem o' (g true o') b x Hb) as Hle.
      assert (bcov o' b x = 1) by (apply bcov_in; lia). lia.
  - done.
Qed.

Lemma list_push_spec c o b m s g :
  Shard_holds w m s g → (o < ORDERS)%nat → block_ok w o b → (c = true → zeroed m o b) →
  (∀ x, gcov g x + bcov o b x ≤ 1) →
  ∃ m' s', list_push w c o b (m, s) = (Ok tt, (m', s')) ∧ Shard_holds w m' s' (held_set c o (b :: g c o) g) ∧
    same_frames s s' ∧ ∀ x, x ≠ b → m' x = m x.
Proof.
  intros Hs Ho Hb Hz Ha. unfold list_push, head_of, set_head_of, on_mem, on_shard, sm_get, sm_put, sm_bind.
  pose proof (block_reached w Hw o b Hb) as Hr. rewrite write_link_eq by done. cbn.
  set (m' := write_word b _ m). eexists m', _. split; [done|].
  assert (Hm : ∀ x, x ≠ b → m' x = m x) by (intros; by apply write_word_ne).
  assert (Hfree : ∀ c' o' b', (o' < ORDERS)%nat → b' ∈ g c' o' → ¬ b' ≤ b < b' + Order_bytes o').
  { intros c' o' b' Ho' Hb' Hin%bcov_in. pose proof (gcov_elem g c' o' b' b Ho' Hb'). specialize (Ha b). rewrite bcov_start in Ha. lia. }
  assert (Hcov : ∀ c' o', (o' < ORDERS)%nat → lcov o' (g c' o') b = 0).
  { intros c' o' Ho'. transitivity (zsum (λ _ : Z, 0) (g c' o')); [|apply zsum_zero]. apply zsum_ext.
    intros b' Hb'. by apply bcov_out, Hfree with c'. }
  assert (Hnin : ∀ c' o', (o' < ORDERS)%nat → b ∉ g c' o').
  { intros c' o' Ho' Hin. pose proof (lcov_elem o' _ b b Hin) as Hle. rewrite bcov_start, Hcov in Hle by done. lia. }
  split_and!.
  - apply holds_set with m; [done|done| | | | |].
    + cbn. split_and!; [done|destruct Hb; lia|]. unfold m'. rewrite link_write. apply chain_write; [by apply Hnin|by apply Hs].
    + constructor; [done|]. rewrite list.Forall_forall. intros b' Hb'. by eapply (sd_blocks _ _ _ _ Hs).
    + intros ->. constructor.
      * eapply zeroed_frame; [|by apply Hz]. intros x Hx. apply Hm. lia.
      * rewrite list.Forall_forall. intros b' Hb'. eapply zeroed_frame; [|by eapply (sd_clean _ _ _ _ Hs)].
        intros x Hx. apply Hm. intros ->. apply (Hfree true o b' Ho Hb'). lia.
    + intros x. specialize (Ha x).
      pose proof (gcov_of_kcov g (held_set c o (b :: g c o) g) c (lcov o (g c o)) (lcov o (b :: g c o))
        (λ c' x, kcov_set g c o _ c' x Ho) x) as E. rewrite lcov_cons in E. lia.
    + intros c' o' x Ho' _ Hx. apply Hm. intros ->. by rewrite Hcov in Hx.
  - intros c'. apply frames_with_lists.
  - done.
Qed.

(** What a push adds to what is held. *)
Lemma kcov_push g c o b c' x : (o < ORDERS)%nat → kcov (held_set c o (b :: g c o) g) c' x = kcov g c' x + kind c c' (bcov o b x).
Proof.
  intros Ho. pose proof (kcov_set g c o (b :: g c o) c' x Ho) as E. rewrite lcov_cons in E. unfold kind in *. destruct (eqb c c'); lia.
Qed.

Lemma kcov_pop g c o b l c' x :
  (o < ORDERS)%nat → g c o = b :: l → kcov (held_set c o l g) c' x + kind c c' (bcov o b x) = kcov g c' x.
Proof.
  intros Ho Hg. pose proof (kcov_set g c o l c' x Ho) as E. rewrite Hg, lcov_cons in E. unfold kind in *. destruct (eqb c c'); lia.
Qed.

Lemma gcov_push g c o b x : (o < ORDERS)%nat → gcov (held_set c o (b :: g c o) g) x = gcov g x + bcov o b x.
Proof. intros Ho. unfold gcov. rewrite !kcov_push by done. unfold kind. destruct c; cbn; lia. Qed.

Lemma gcov_pop g c o b l x : (o < ORDERS)%nat → g c o = b :: l → gcov (held_set c o l g) x + bcov o b x = gcov g x.
Proof.
  intros Ho Hg. unfold gcov. rewrite <- (kcov_pop g c o b l false x Ho Hg), <- (kcov_pop g c o b l true x Ho Hg).
  unfold kind. destruct c; cbn; lia.
Qed.

Lemma list_pop_spec c o m s g :
  Shard_holds w m s g → (o < ORDERS)%nat →
  (list_pop w c o (m, s) = (Ok None, (m, s)) ∧ g c o = []) ∨
  ∃ b l s', list_pop w c o (m, s) = (Ok (Some b), (m, s')) ∧ g c o = b :: l ∧ Shard_holds w m s' (held_set c o l g) ∧
    same_frames s s' ∧ block_ok w o b ∧ (c = true → zeroed m o b).
Proof.
  intros Hs Ho. pose proof (sd_chain _ _ _ _ Hs c o Ho) as Hc.
  unfold list_pop, head_of, set_head_of, on_mem, on_shard, sm_get, sm_put, sm_bind.
  destruct (g c o) as [|b l] eqn:Hg; cbn in Hc.
  - left. split; [|done]. by rewrite Hc.
  - destruct Hc as (Hh & Hb0 & Hl). rewrite Hh. right. rewrite (proj2 (Z.eqb_neq _ _) Hb0).
    assert (Hb : block_ok w o b) by (apply (sd_blocks _ _ _ _ Hs c o b Ho); rewrite Hg; apply list_elem_of_here).
    rewrite read_link_eq by (by eapply block_reached). cbn. eexists b, l, _. split; [done|]. split; [done|].
    split_and!; [|intros c'; apply frames_with_lists|done|].
    + apply holds_set with m; [done|done|done| | | |done].
      * rewrite list.Forall_forall. intros b' Hb'. apply (sd_blocks _ _ _ _ Hs c o b' Ho). rewrite Hg. by apply list_elem_of_further.
      * intros ->. rewrite list.Forall_forall. intros b' Hb'. apply (sd_clean _ _ _ _ Hs o b' Ho). rewrite Hg. by apply list_elem_of_further.
      * intros x. pose proof (gcov_pop g c o b l x Ho Hg). pose proof (sd_apart _ _ _ _ Hs x). pose proof (bcov_range o b x). lia.
    + intros ->. apply (sd_clean _ _ _ _ Hs o b Ho). rewrite Hg. apply list_elem_of_here.
Qed.

(** ** The counts *)
Definition Counts_ok s g : Prop := ∀ c, Shard_frames s c * FRAME_SIZE = mass (2 ^ 64) (kcov g c).

Record Shard_ok m s g : Prop := {
  sk_holds : Shard_holds w m s g;
  sk_counts : Counts_ok s g;
}.

Lemma mass_bcov o b : block_ok w o b → mass (2 ^ 64) (bcov o b) = Order_bytes o.
Proof.
  intros [_ Hp He]. pose proof (Order_bytes_pos o). destruct Hw. unfold bcov, FRAME_SIZE, u64_max in *. rewrite mass_cov; lia.
Qed.

(** Frames that come or go with a block of one kind. *)
Lemma counts_gain s s' g g' c o b :
  Counts_ok s g → (∀ x, gcov g' x ≤ 1) → block_ok w o b →
  (∀ c' x, kcov g' c' x = kcov g c' x + kind c c' (bcov o b x)) →
  (∀ c', Shard_frames s' c' = if eqb c c' then saturating_add 64 (Shard_frames s c') (Order_frames o) else Shard_frames s c') →
  Counts_ok s' g'.
Proof.
  intros Hc Ha Hb Hk Hs c'. rewrite Hs, (mass_ext _ (kcov g' c') _ (λ x _, Hk c' x)), mass_add. specialize (Hc c').
  assert (Hle : mass (2 ^ 64) (kcov g' c') ≤ 2 ^ 64).
  { apply mass_at_most; [lia|]. intros x. pose proof (kcov_gcov g' c' x). specialize (Ha x). lia. }
  rewrite (mass_ext _ (kcov g' c') _ (λ x _, Hk c' x)), mass_add in Hle.
  unfold kind in *. destruct (eqb c c').
  - fold (bcov o b) in *. change (λ x, bcov o b x) with (bcov o b) in *. rewrite mass_bcov in * by done.
    rewrite Order_bytes_frames in *. unfold saturating_add, FRAME_SIZE in *. pose proof (Order_frames_pos o). lia.
  - rewrite (mass_zero _ (λ _, 0)) by done. lia.
Qed.

Lemma counts_loss s s' g g' c o b :
  Counts_ok s g → (∀ x, gcov g x ≤ 1) → block_ok w o b →
  (∀ c' x, kcov g' c' x + kind c c' (bcov o b x) = kcov g c' x) →
  (∀ c', Shard_frames s' c' = if eqb c c' then saturating_sub (Shard_frames s c') (Order_frames o) else Shard_frames s c') →
  Counts_ok s' g'.
Proof.
  intros Hc Ha Hb Hk Hs c'. rewrite Hs. specialize (Hc c').
  rewrite <- (mass_ext _ _ _ (λ x _, Hk c' x)), mass_add in Hc.
  pose proof (mass_nonneg (2 ^ 64) (kcov g' c') (kcov_nonneg g' c')) as Hn.
  unfold kind in *. destruct (eqb c c').
  - change (λ x, bcov o b x) with (bcov o b) in *. rewrite mass_bcov in * by done.
    rewrite Order_bytes_frames in *. unfold saturating_sub, FRAME_SIZE in *. pose proof (Order_frames_pos o). lia.
  - rewrite (mass_zero _ (λ _, 0)) in Hc by done. lia.
Qed.

(** ** Giving, splitting, taking *)
Lemma give_spec c o b m s g :
  Shard_ok m s g → (o < ORDERS)%nat → block_ok w o b → (c = true → zeroed m o b) →
  (∀ x, gcov g x + bcov o b x ≤ 1) →
  ∃ m' s', give w o c b (m, s) = (Ok tt, (m', s')) ∧ Shard_ok m' s' (held_set c o (b :: g c o) g) ∧ ∀ x, x ≠ b → m' x = m x.
Proof.
  intros [Hs Hn] Ho Hb Hz Ha. destruct (list_push_spec c o b m s g Hs Ho Hb Hz Ha) as (m' & s' & E & Hs' & Hf & Hm).
  unfold give, sm_bind. rewrite E. unfold on_shard, sm_put. eexists m', _. split; [done|]. split; [|done]. split.
  - destruct Hs' as [H1 H2 H3 H4 H5]. split; [| |done..]; intros c'; rewrite lists_with_frames; auto.
  - apply (counts_gain s _ g _ c o b); [done| |done| |].
    + intros x. by rewrite gcov_push.
    + intros c' x. by apply kcov_push.
    + intros c'. rewrite frames_with_frames, !Hf. destruct (eqb c c') eqn:E'; [|done]. by apply eqb_prop in E' as <-.
Qed.

Lemma holds_counters m s s' g : (∀ c, Shard_lists s' c = Shard_lists s c) → Shard_holds w m s g → Shard_holds w m s' g.
Proof. intros H [H1 H2 H3 H4 H5]. split; [| |done..]; intros c; rewrite H; auto. Qed.

Lemma bcov_parts o b x : bcov (S o) b x = bcov o b x + bcov o (b + Order_bytes o) x.
Proof. apply bcov_halves. Qed.

Lemma split_down_spec c to at_ : ∀ b m s g,
  Shard_holds w m s g → (to ≤ at_)%nat → (at_ < ORDERS)%nat → block_ok w at_ b → (c = true → zeroed m at_ b) →
  (∀ x, gcov g x + bcov at_ b x ≤ 1) →
  ∃ m' s' g', split_down w c b at_ to (m, s) = (Ok tt, (m', s')) ∧ Shard_holds w m' s' g' ∧ same_frames s s' ∧
    block_ok w to b ∧ (c = true → zeroed m' to b) ∧
    (∀ c' x, kcov g' c' x + kind c c' (bcov to b x) = kcov g c' x + kind c c' (bcov at_ b x)) ∧
    (∀ x, x = b ∨ bcov at_ b x = 0 → m' x = m x).
Proof.
  induction at_ as [|lower IH]; intros b m s g Hs Hto Hat Hb Hz Ha; cbn [split_down].
  { assert (to = 0%nat) as -> by lia. exists m, s, g. split_and!; done. }
  destruct (Nat.ltb_spec to (S lower)) as [Hlt|Hge].
  2:{ assert (to = S lower) as -> by lia. exists m, s, g. split_and!; done. }
  destruct (block_half w lower b Hb) as [Hb1 Hb2]. set (upper := b + Order_bytes lower) in *.
  pose proof (Order_bytes_pos lower) as Hpos. unfold FRAME_SIZE in Hpos.
  assert (Hsum : plus_u64 b (Order_bytes lower) = Ok upper).
  { unfold plus_u64. destruct Hb2. destruct Hw. fold upper. destruct (Z.ltb_spec u64_max upper); [lia|done]. }
  pose proof (bcov_halves lower b) as Hh. fold upper in Hh.
  destruct (list_push_spec c lower upper m s g) as (m1 & s1 & E1 & Hs1 & Hf1 & Hm1); [done|lia|done| | |].
  { intros Hc x Hx. apply (Hz Hc). rewrite Order_bytes_S. unfold upper in Hx. lia. }
  { intros x. specialize (Ha x). rewrite Hh in Ha. pose proof (bcov_range lower b x). lia. }
  set (g1 := held_set c lower (upper :: g c lower) g) in *.
  destruct (IH b m1 (sh_count_split s1) g1) as (m' & s' & g' & E' & Hs' & Hf' & Hb' & Hz' & Hk' & Hm').
  { eapply holds_counters; [|exact Hs1]. by intros []. }
  { lia. } { lia. } { done. }
  { intros Hc x Hx. rewrite Hm1; [apply (Hz Hc); rewrite Order_bytes_S; lia|unfold upper; lia]. }
  { intros x. unfold g1. rewrite gcov_push by lia. specialize (Ha x). rewrite Hh in Ha. lia. }
  exists m', s', g'. unfold sm_bind, sm_lift. rewrite Hsum, E1. cbn. rewrite E'. split_and!; try done.
  - intros c'. by rewrite Hf', <- Hf1.
  - intros c' x. rewrite Hk'. unfold g1. rewrite kcov_push by lia. rewrite Hh. unfold kind. destruct (eqb c c'); lia.
  - intros x Hx. rewrite Hm'.
    + apply Hm1. intros ->. destruct Hx as [Hx|Hx]; [unfold upper in Hx; lia|].
      rewrite Hh, (bcov_start lower upper) in Hx. pose proof (bcov_range lower b upper). lia.
    + destruct Hx as [->|Hx]; [by left|right]. rewrite Hh in Hx. pose proof (bcov_range lower b x). pose proof (bcov_range lower upper x). lia.
Qed.

(** What [pop_split] answers: a block out of what was held, or that there is
    none of this order or above. *)
Definition popped (c : bool) (order : Order) m s g (r : option Z) m' s' g' : Prop :=
  match r with
  | None => m' = m ∧ s' = s ∧ g' = g ∧ ∀ o, (order ≤ o < ORDERS)%nat → g c o = []
  | Some b => block_ok w order b ∧ (c = true → zeroed m' order b) ∧
      (∀ c' x, kcov g' c' x + kind c c' (bcov order b x) = kcov g c' x) ∧ (∀ x, gcov g x = 0 → m' x = m x)
  end.

Lemma pop_split_loop_spec c order n : ∀ at_ m s g,
  Shard_ok m s g → (order ≤ at_)%nat → (at_ < ORDERS)%nat → (ORDERS ≤ n + at_)%nat →
  (∀ o, (order ≤ o < at_)%nat → g c o = []) →
  ∃ r m' s' g', pop_split_loop w n at_ order c (m, s) = (Ok r, (m', s')) ∧ Shard_ok m' s' g' ∧
    popped c order m s g r m' s' g'.
Proof.
  induction n as [|n IH]; intros at_ m s g Hs Hle Hat Hn Hnone; [lia|]. cbn [pop_split_loop].
  destruct (list_pop_spec c at_ m s g (sk_holds _ _ _ Hs) Hat) as [[E Hg]|(b & l & s1 & E & Hg & Hs1 & Hf & Hb & Hz)];
    unfold sm_bind at 1; rewrite E.
  - assert (Hnone' : ∀ o, (order ≤ o < S at_)%nat → g c o = []).
    { intros o Ho. destruct (decide (o = at_)) as [->|]; [done|]. apply Hnone. lia. }
    unfold Order_up. destruct (Nat.ltb_spec at_ Order_MAX) as [Hmax|Hmax].
    + apply IH; [done|lia|unfold Order_MAX, ORDERS in *; lia|lia|done].
    + exists None, m, s, g. split; [done|]. split; [done|]. unfold popped. split_and!; try done. intros o Ho. apply Hnone'. unfold Order_MAX, ORDERS in *. lia.
  - destruct (split_down_spec c order at_ b m s1 _ Hs1 Hle Hat Hb Hz) as (m2 & s2 & g2 & E2 & Hs2 & Hf2 & Hb2 & Hz2 & Hk2 & Hm2).
    { intros x. rewrite (gcov_pop g c at_ b l x Hat Hg). apply (sd_apart _ _ _ _ (sk_holds _ _ _ Hs)). }
    assert (Hk : ∀ c' x, kcov g2 c' x + kind c c' (bcov order b x) = kcov g c' x).
    { intros c' x. rewrite Hk2. by apply kcov_pop. }
    unfold sm_bind. rewrite E2. unfold on_shard, sm_put. eexists (Some b), m2, _, g2. split; [done|]. split; [|unfold popped; split_and!; [done|done|done|]].
    + split; [eapply holds_counters; [|exact Hs2]; intros c'; apply lists_with_frames|].
      apply (counts_loss s _ g _ c order b); [apply Hs|apply (sd_apart _ _ _ _ (sk_holds _ _ _ Hs))|done|done|].
      intros c'. rewrite frames_with_frames, !Hf2, !Hf. destruct (eqb c c') eqn:E'; [|done]. by apply eqb_prop in E' as <-.
    + intros x Hx. apply Hm2. right. pose proof (gcov_pop g c at_ b l x Hat Hg).
      pose proof (gcov_nonneg (held_set c at_ l g) x). pose proof (bcov_range at_ b x). lia.
Qed.

Lemma pop_split_spec c order m s g :
  Shard_ok m s g → (order < ORDERS)%nat →
  ∃ r m' s' g', pop_split w order c (m, s) = (Ok r, (m', s')) ∧ Shard_ok m' s' g' ∧ popped c order m s g r m' s' g'.
Proof. intros Hs Ho. apply pop_split_loop_spec; try done; lia. Qed.

(** ** Carving *)
Lemma carve_order_spec n : ∀ o a e,
  (Order_bytes o | a) → a + Order_bytes o ≤ e → (o < ORDERS)%nat → e ≤ 2 ^ 64 →
  let o' := carve_order n o a e in (Order_bytes o' | a) ∧ a + Order_bytes o' ≤ e ∧ (o' < ORDERS)%nat.
Proof.
  induction n as [|n IH]; intros o a e Ha He Ho Hmax; cbn [carve_order]; [done|].
  unfold Order_up. destruct (Nat.ltb_spec o Order_MAX); [|done].
  destruct (Order_aligns (S o) a) eqn:Eal; [|done]. cbn [negb].
  destruct ((_ <=? u64_max) && _) eqn:E; [|done]. apply andb_true_iff in E as [_ E%Z.leb_le].
  apply IH; [by apply Order_aligns_spec|done|unfold Order_MAX, ORDERS in *; lia|done].
Qed.

Lemma carve_loop n : ∀ a e m s g,
  e - a ≤ FRAME_SIZE * Z.of_nat n → (FRAME_SIZE | a) → (FRAME_SIZE | e) → 0 < a ≤ e → e ≤ win_limit w →
  Shard_ok m s g → (∀ x, gcov g x + cov a e x ≤ 1) →
  ∃ k m' s' g', (k ≤ n)%nat ∧ ends (loop_body (carve_step w e)) k (a, (m, s)) (Ok tt, (m', s')) ∧ Shard_ok m' s' g' ∧
    (∀ c x, kcov g' c x = kcov g c x + kind false c (cov a e x)) ∧ (∀ x, cov a e x = 0 → m' x = m x).
Proof.
  induction n as [|n IH]; intros a e m s g Hn Ha He Hae Hlim Hs Hap.
  { assert (a = e) as -> by lia. exists 0%nat, m, s, g. split_and!; [lia| |done| |done].
    - constructor. cbn. unfold carve_step. by rewrite Z.ltb_irrefl.
    - intros c x. rewrite cov_empty. unfold kind. destruct (eqb false c); lia. }
  destruct (decide (a = e)) as [->|Hne].
  { exists 0%nat, m, s, g. split_and!; [lia| |done| |done].
    - constructor. cbn. unfold carve_step. by rewrite Z.ltb_irrefl.
    - intros c x. rewrite cov_empty. unfold kind. destruct (eqb false c); lia. }
  assert (Hfit : a + FRAME_SIZE ≤ e).
  { destruct Ha as [p ->], He as [q ->]. unfold FRAME_SIZE in *. lia. }
  destruct (carve_order_spec ORDERS Order_FRAME a e) as (Ho1 & Ho2 & Ho3); [done|done|unfold Order_FRAME, ORDERS; lia|destruct Hw; unfold u64_max in *; lia|].
  set (o := carve_order ORDERS Order_FRAME a e) in *. pose proof (Order_bytes_pos o) as Hpos. pose proof (FRAME_divide o) as Hdiv.
  assert (Hb : block_ok w o a) by (constructor; [done|lia|lia]).
  assert (Hcs : ∀ x, cov a e x = bcov o a x + cov (a + Order_bytes o) e x).
  { intros x. unfold bcov. apply cov_split. unfold FRAME_SIZE in *. lia. }
  destruct (give_spec false o a m s g Hs Ho3 Hb) as (m1 & s1 & E1 & Hs1 & Hm1); [done| |].
  { intros x. specialize (Hap x). rewrite Hcs in Hap. pose proof (cov_range (a + Order_bytes o) e x). lia. }
  destruct (IH (a + Order_bytes o) e m1 s1 (held_set false o (a :: g false o) g)) as (k & m' & s' & g' & Hk & He' & Hs' & Hk' & Hm');
    [unfold FRAME_SIZE in *; lia|by apply Z.divide_add_r|done|unfold FRAME_SIZE in *; lia|done|exact Hs1| |].
  { intros x. rewrite gcov_push by done. specialize (Hap x). rewrite Hcs in Hap. lia. }
  exists (S k), m', s', g'. split_and!; [lia| |done| |].
  - eapply ends_later; [|exact He']. cbn. unfold carve_step. rewrite (proj2 (Z.ltb_lt a e)) by lia. fold o.
    unfold sm_bind. rewrite E1. unfold sm_lift, plus_u64. destruct Hw.
    destruct (Z.ltb_spec u64_max (a + Order_bytes o)); [lia|done].
  - intros c x. rewrite Hk', kcov_push, Hcs by done. unfold kind. destruct (eqb false c); lia.
  - intros x Hx. rewrite Hcs in Hx. pose proof (bcov_range o a x). pose proof (cov_range (a + Order_bytes o) e x).
    rewrite Hm' by lia. apply Hm1. intros ->. pose proof (bcov_start o a). lia.
Qed.

Lemma carve_spec a e m s g :
  (FRAME_SIZE | a) → (FRAME_SIZE | e) → 0 < a ≤ e → e ≤ win_limit w →
  Shard_ok m s g → (∀ x, gcov g x + cov a e x ≤ 1) →
  ∃ m' s' g', carve w a e (m, s) = (Ok tt, (m', s')) ∧ Shard_ok m' s' g' ∧
    (∀ c x, kcov g' c x = kcov g c x + kind false c (cov a e x)) ∧ (∀ x, cov a e x = 0 → m' x = m x).
Proof.
  intros Ha He Hae Hlim Hs Hap.
  destruct (carve_loop (Z.to_nat (e - a)) a e m s g) as (k & m' & s' & g' & Hk & He' & Hs' & Hk' & Hm');
    [unfold FRAME_SIZE in *; lia|done..|].
  exists m', s', g'. split_and!; try done. unfold carve. apply (sm_loop_ends _ k); [|done].
  destruct Hw. unfold u64_max in *. lia.
Qed.
End ops.
