(* ===== verification/FrameCoalesce.v ===== *)
(** * Merging buddies

    The pass over a shard keeps every frame it holds, of either kind, and when
    its budget is not spent no two buddies of one kind are left. *)

From S2P Require Import Prelude FrameLists Extents FrameSort FrameShard.
From Stdlib Require Import Bool.
From stdpp Require Import sorting.
#[local] Open Scope Z_scope.

Section coalesce.
Context (w : Window) (Hw : Window_ok w).
Implicit Types (m : Mem) (s : Shard) (g : Held).

Definition no_pair g c o : Prop := ∀ a, (Order_bytes (S o) | a) → a ∈ g c o → a + Order_bytes o ∉ g c o.

(** The blocks off the list that the walk still has to place. *)
Record walking m s g (c : bool) (o : Order) (l : list Z) : Prop := {
  wk_holds : Shard_holds w m s g;
  wk_blocks : Forall (block_ok w o) l;
  wk_clean : c = true → Forall (zeroed m o) l;
  wk_apart : ∀ x, gcov g x + lcov o l x ≤ 1;
}.

Lemma walking_tail m s g c o b l : walking m s g c o (b :: l) → walking m s g c o l.
Proof.
  intros [H1 H2 H3 H4]. apply Forall_cons in H2 as [_ H2]. split; [done|done| |].
  - intros Hc. specialize (H3 Hc). by apply Forall_cons in H3 as [_ H3].
  - intros x. specialize (H4 x). rewrite lcov_cons in H4. pose proof (bcov_range o b x). lia.
Qed.

(** An aligned address is not strictly inside an aligned block. *)
Lemma aligned_outside o a b : (Order_bytes o | a) → (Order_bytes o | b) → ¬ b < a < b + Order_bytes o.
Proof. intros [p ->] [q ->] H. pose proof (Order_bytes_pos o). unfold FRAME_SIZE in *. assert (q < p) by nia. assert (p < q + 1) by nia. lia. Qed.

(** Blocks in ascending order that do not overlap are a block apart. *)
Lemma walking_next m s g c o b l n :
  walking m s g c o (b :: l) → Sorted Z.le (b :: l) → n ∈ l → b + Order_bytes o ≤ n.
Proof.
  intros Hk Hs Hn. apply Sorted_StronglySorted in Hs; [|intros ???; lia].
  apply StronglySorted_cons in Hs as [Hle _]. rewrite list.Forall_forall in Hle. specialize (Hle n Hn).
  destruct (decide (b + Order_bytes o ≤ n)) as [|Hlt]; [done|]. exfalso.
  pose proof (wk_apart _ _ _ _ _ _ Hk n) as Ha. rewrite lcov_cons in Ha. pose proof (lcov_elem o l n n Hn) as Hl.
  rewrite bcov_start in Hl. assert (bcov o b n = 1) by (apply bcov_in; lia). pose proof (gcov_nonneg g n). lia.
Qed.

(** One block goes on a list of the shard. *)
Lemma walking_push m s g c o o' b l :
  walking m s g c o l → (o' < ORDERS)%nat → block_ok w o' b → (c = true → zeroed m o' b) →
  (∀ x, gcov g x + bcov o' b x + lcov o l x ≤ 1) →
  ∃ m' s', list_push w c o' b (m, s) = (Ok tt, (m', s')) ∧ walking m' s' (held_set c o' (b :: g c o') g) c o l ∧
    same_frames s s' ∧ (∀ x, x ≠ b → m' x = m x) ∧ b ∉ l.
Proof.
  intros [H1 H2 H3 H4] Ho Hb Hz Ha.
  destruct (list_push_spec w Hw c o' b m s g H1 Ho Hb Hz) as (m' & s' & E & Hs' & Hf & Hm).
  { intros x. specialize (Ha x). pose proof (lcov_nonneg o l x). lia. }
  assert (Hout : ∀ n, n ∈ l → ¬ n ≤ b < n + Order_bytes o).
  { intros n Hn Hin%bcov_in. pose proof (lcov_elem o l n b Hn). specialize (Ha b). rewrite bcov_start in Ha.
    pose proof (gcov_nonneg g b). lia. }
  exists m', s'. split_and!; [done| |done|done|].
  - split; [done|done| |].
    + intros Hc. specialize (H3 Hc). rewrite list.Forall_forall in H3 |- *. intros n Hn.
      eapply zeroed_frame; [|by apply H3]. intros x Hx. apply Hm. intros ->. apply (Hout n Hn). lia.
    + intros x. rewrite gcov_push by done. specialize (Ha x). lia.
  - intros Hin. apply (Hout b Hin). pose proof (Order_bytes_pos o). unfold FRAME_SIZE in *. lia.
Qed.

Lemma coalesce_step_eq budget c o up b merged m s :
  b ≠ 0 → reached w b → plus_u64 b (Order_bytes o) = Ok (b + Order_bytes o) →
  let next := link w m b in
  coalesce_step w budget c o up (b, merged) (m, s) =
  (if negb (next =? 0) && (merged <? budget) && Order_is_lower o b && (next =? b + Order_bytes o) then
     do! after <- on_mem (read_link w next);
     do! _ <- (if c then on_mem (clear_link w next) else sm_ret tt);
     do! _ <- list_push w c up b;
     do! _ <- on_shard sh_count_merge;
     sm_ret (inl (after, merged + 1))
   else
     do! _ <- list_push w c o b;
     sm_ret (inl (next, merged))) (m, s).
Proof.
  intros Hb Hr Hsum next. unfold coalesce_step. rewrite (proj2 (Z.eqb_neq b 0) Hb).
  unfold sm_bind at 1, on_mem at 1. rewrite read_link_eq by done. fold next. rewrite Hsum.
  unfold sm_bind at 1, sm_lift.
  destruct (negb (next =? 0) && (merged <? budget) && Order_is_lower o b); cbn [andb]; [|done].
  cbn [res_bind]. by destruct (next =? b + Order_bytes o).
Qed.

(** What the pass has made of a list of blocks. *)
Record placed m s g c o (l : list Z) m' s' g' : Prop := {
  pl_holds : Shard_holds w m' s' g';
  pl_frames : same_frames s s';
  pl_kcov : ∀ c' x, kcov g' c' x = kcov g c' x + kind c c' (lcov o l x);
  pl_frame : ∀ x, gcov g x + lcov o l x = 0 → m' x = m x;
  pl_else : ∀ c' o', c' ≠ c ∨ (o' ≠ o ∧ o' ≠ S o) → g' c' o' = g c' o';
}.

Lemma walking_frame m m' s g c o l :
  (∀ x, gcov g x + lcov o l x ≠ 0 → m' x = m x) → walking m s g c o l → walking m' s g c o l.
Proof.
  intros Hm [H1 H2 H3 H4]. split; [|done| |done].
  - eapply holds_frame; [|exact H1]. intros x Hx. apply Hm. pose proof (lcov_nonneg o l x). pose proof (gcov_nonneg g x). lia.
  - intros Hc. specialize (H3 Hc). rewrite list.Forall_forall in H3 |- *. intros n Hn. eapply zeroed_frame; [|by apply H3].
    intros x Hx. apply Hm. pose proof (lcov_elem o l n x Hn). pose proof (gcov_nonneg g x).
    assert (bcov o n x = 1) by (apply bcov_in; lia). lia.
Qed.

Lemma walking_counters m s s' g c o l :
  (∀ c, Shard_lists s' c = Shard_lists s c) → walking m s g c o l → walking m s' g c o l.
Proof. intros Hs [H1 H2 H3 H4]. split; [by eapply holds_counters|done..]. Qed.

(** A pair leaves the walk as one block of the order above. *)
Lemma pair_block c o b m :
  block_ok w o b → block_ok w o (b + Order_bytes o) → (Order_bytes (S o) | b) →
  (c = true → zeroed m o b ∧ zeroed m o (b + Order_bytes o)) →
  let m1 := if c then write_word (b + Order_bytes o) 0 m else m in
  block_ok w (S o) b ∧ (c = true → zeroed m1 (S o) b).
Proof.
  intros [_ Hp _] [_ _ He] Hal Hz. pose proof (Order_bytes_S o) as HS. split.
  - constructor; [done|done|lia].
  - intros ->. specialize (Hz eq_refl) as [Hz1 Hz2]. intros x Hx. rewrite HS in Hx. unfold write_word.
    destruct (Z.eqb_spec x (b + Order_bytes o)); [done|]. destruct (decide (x < b + Order_bytes o)); [apply Hz1|apply Hz2]; lia.
Qed.

(** Every pushed lower half is without its buddy, here and in what is left. *)
Definition lonely g c o (l : list Z) : Prop :=
  ∀ a, (Order_bytes (S o) | a) → a ∈ g c o → a + Order_bytes o ∉ g c o ++ l.
Definition pushed_before g c o (l : list Z) : Prop := ∀ a b, a ∈ g c o → b ∈ l → a < b.

(** The buddy is the next block: the pair goes up. *)
Lemma step_pair budget c o b l merged m s g :
  let N := b + Order_bytes o in
  (o < Order_MAX)%nat → walking m s g c o (b :: N :: l) → chain w m b (b :: N :: l) →
  (Order_bytes (S o) | b) → merged < budget →
  ∃ a m2 s2, loop_body (coalesce_step w budget c o (S o)) ((b, merged), (m, s)) = inl ((a, merged + 1), (m2, s2)) ∧
    chain w m2 a l ∧ walking m2 s2 (held_set c (S o) (b :: g c (S o)) g) c o l ∧ same_frames s s2 ∧
    ∀ x, x ≠ b → x ≠ N → m2 x = m x.
Proof.
  intros N Ho Hk (_ & Hb0 & Hl & HN0 & Hch) Hlow Hbud.
  pose proof (wk_blocks _ _ _ _ _ _ Hk) as Hbl. apply Forall_cons in Hbl as [Hb [HbN Hbl]%Forall_cons].
  pose proof (wk_apart _ _ _ _ _ _ Hk) as Hap. pose proof (block_reached w Hw o b Hb) as Hr.
  pose proof (block_reached w Hw o N HbN) as HrN. pose proof (walking_tail _ _ _ _ _ _ _ (walking_tail _ _ _ _ _ _ _ Hk)) as Hk2.
  set (m1 := if c then write_word N 0 m else m).
  assert (Hm1 : ∀ x, x ≠ N → m1 x = m x) by (intros x Hx; unfold m1; destruct c; [by apply write_word_ne|done]).
  destruct (pair_block c o b m Hb HbN Hlow) as [HbS HzS].
  { intros Hc. pose proof (wk_clean _ _ _ _ _ _ Hk Hc) as Hz. apply Forall_cons in Hz as [Hz1 Hz]. by apply Forall_cons in Hz as [Hz2 _]. }
  fold N in HzS. fold m1 in HzS.
  assert (HN : gcov g N = 0 ∧ lcov o l N = 0).
  { specialize (Hap N). rewrite !lcov_cons, (bcov_start o N) in Hap. pose proof (bcov_range o b N).
    pose proof (gcov_nonneg g N). pose proof (lcov_nonneg o l N). lia. }
  destruct (walking_push m1 s g c o (S o) b l) as (m2 & s2 & E2 & Hk4 & Hf2 & Hm2 & Hbl2).
  { eapply walking_frame; [|exact Hk2]. intros x Hx. apply Hm1. intros ->. lia. }
  { unfold Order_MAX, ORDERS in *. lia. } { done. } { done. }
  { intros x. specialize (Hap x). rewrite !lcov_cons in Hap. rewrite bcov_halves. fold N. lia. }
  assert (HNl : N ∉ l) by (intros Hin; pose proof (lcov_elem o l N N Hin) as Hle; rewrite bcov_start in Hle; lia).
  exists (link w m N), m2, (sh_count_merge s2). split_and!; [| | | |].
  - assert (E1 : (if c then on_mem (clear_link w N) else sm_ret tt) (m, s) = (Ok tt, (m1, s))).
    { unfold m1, on_mem. destruct c; [by rewrite clear_link_eq|done]. }
    assert (Hsum : plus_u64 b (Order_bytes o) = Ok N).
    { unfold plus_u64. fold N. destruct HbN, Hw. pose proof (Order_bytes_pos o). unfold FRAME_SIZE in *.
      destruct (Z.ltb_spec u64_max N); [lia|done]. }
    unfold loop_body. rewrite coalesce_step_eq by done. cbn zeta. rewrite Hl. fold N. rewrite Z.eqb_refl.
    rewrite (proj2 (Z.eqb_neq N 0) HN0), (proj2 (Z.ltb_lt _ _) Hbud).
    rewrite (proj2 (Order_is_lower_spec o b (bo_aligned _ _ _ Hb)) Hlow). cbn [negb andb].
    unfold sm_bind. unfold on_mem at 1. cbv beta iota. rewrite read_link_eq by done. cbv beta iota. rewrite E1. cbv beta iota. by rewrite E2.
  - eapply chain_ext; [|exact Hch]. intros x Hx. rewrite Hm2 by congruence. apply Hm1. congruence.
  - eapply walking_counters; [|exact Hk4]. by intros [].
  - exact Hf2.
  - intros x Hx HxN. rewrite Hm2 by done. by apply Hm1.
Qed.

(** It is not, or the budget is spent: the block goes back. *)
Lemma step_keep budget c o b l merged m s g :
  (o < Order_MAX)%nat → walking m s g c o (b :: l) → chain w m b (b :: l) →
  (merged < budget → (Order_bytes (S o) | b) → link w m b = b + Order_bytes o → False) →
  ∃ a m2 s2, loop_body (coalesce_step w budget c o (S o)) ((b, merged), (m, s)) = inl ((a, merged), (m2, s2)) ∧
    chain w m2 a l ∧ walking m2 s2 (held_set c o (b :: g c o) g) c o l ∧ same_frames s s2 ∧
    ∀ x, x ≠ b → m2 x = m x.
Proof.
  intros Ho Hk (_ & Hb0 & Hch) Hno. pose proof (wk_blocks _ _ _ _ _ _ Hk) as Hbl. apply Forall_cons in Hbl as [Hb Hbl].
  pose proof (block_reached w Hw o b Hb) as Hr.
  destruct (walking_push m s g c o o b l (walking_tail _ _ _ _ _ _ _ Hk)) as (m2 & s2 & E2 & Hk4 & Hf2 & Hm2 & Hbl2).
  { unfold Order_MAX, ORDERS in *. lia. } { done. }
  { intros Hc. pose proof (wk_clean _ _ _ _ _ _ Hk Hc) as Hz. by apply Forall_cons in Hz as [Hz _]. }
  { intros x. pose proof (wk_apart _ _ _ _ _ _ Hk x) as Hap. rewrite lcov_cons in Hap. lia. }
  exists (link w m b), m2, s2. split_and!; [| |done..].
  - assert (Hsum : plus_u64 b (Order_bytes o) = Ok (b + Order_bytes o)).
    { unfold plus_u64. destruct Hb, Hw. destruct (Z.ltb_spec u64_max (b + Order_bytes o)); [lia|done]. }
    unfold loop_body. rewrite coalesce_step_eq by done. cbn zeta. destruct (_ && _ && _ && _) eqn:E.
    + exfalso. rewrite !andb_true_iff, Z.ltb_lt, Z.eqb_eq in E. destruct E as [[[_ E1] E3] E4].
      apply Hno; [done| |done]. apply Order_is_lower_spec; [by destruct Hb|done].
    + unfold sm_bind. by rewrite E2.
  - eapply chain_ext; [|exact Hch]. intros x Hx. apply Hm2. congruence.
Qed.

(** What is placed after one more block was pushed. *)
Lemma placed_push m s g c o o' b l l' m2 s2 m' s' g' :
  (o' < ORDERS)%nat → o' = o ∨ o' = S o → same_frames s s2 → (∀ x, lcov o l' x = bcov o' b x + lcov o l x) →
  (∀ x, gcov g x + lcov o l' x = 0 → m2 x = m x) →
  placed m2 s2 (held_set c o' (b :: g c o') g) c o l m' s' g' → placed m s g c o l' m' s' g'.
Proof.
  intros Ho' Hor Hf Hl Hm [P1 P2 P3 P4 P5]. split; [done| | | |].
  - intros c'. by rewrite P2, <- Hf.
  - intros c' x. rewrite P3, kcov_push, Hl by done. unfold kind. destruct (eqb c c'); lia.
  - intros x Hx. rewrite P4; [by apply Hm|]. rewrite gcov_push by done. rewrite Hl in Hx. lia.
  - intros c' o2 Hne. rewrite P5 by done. apply held_set_ne. destruct Hne as [|[]]; [by left|right; destruct Hor; congruence].
Qed.

(** A lower half whose buddy waits in the walk has it next. *)
Lemma next_is_buddy m s g c o b l :
  walking m s g c o (b :: l) → Sorted Z.le (b :: l) → chain w m b (b :: l) →
  b + Order_bytes o ∈ l → link w m b = b + Order_bytes o.
Proof.
  intros Hk Hso (_ & _ & Hch) Hin. destruct l as [|b2 l]; [by apply elem_of_nil in Hin|]. destruct Hch as (-> & _ & _).
  pose proof (walking_next _ _ _ _ _ _ _ b2 Hk Hso ltac:(apply list_elem_of_here)).
  apply Sorted_inv in Hso as [Hso _]. apply Sorted_StronglySorted in Hso; [|intros ???; lia].
  apply StronglySorted_cons in Hso as [Hall _]. rewrite list.Forall_forall in Hall.
  apply elem_of_cons in Hin as [->|Hin]; [done|]. specialize (Hall _ Hin). lia.
Qed.

Lemma coalesce_walk budget c o n : ∀ l a merged m s g,
  (length l ≤ n)%nat → (o < Order_MAX)%nat → chain w m a l → Sorted Z.le l → walking m s g c o l →
  (merged < budget → lonely g c o l) → pushed_before g c o l →
  ∃ k merged' m' s' g', (k ≤ length l)%nat ∧
    ends (loop_body (coalesce_step w budget c o (S o))) k ((a, merged), (m, s)) (Ok merged', (m', s')) ∧
    placed m s g c o l m' s' g' ∧ merged ≤ merged' ≤ merged + Z.of_nat (length l) ∧
    (merged' < budget → no_pair g' c o).
Proof.
  induction n as [|n IH]; intros l a merged m s g Hn Ho Hch Hso Hk Hlo Hpb.
  all: destruct l as [|b l].
  2:{ cbn in Hn. lia. }
  1, 2: cbn in Hch; subst a; exists 0%nat, merged, m, s, g; split_and!; [cbn; lia|by constructor| |lia|cbn; lia|].
  1, 3: split; [apply Hk|done| |done|done]; intros c' x; unfold lcov, kind; cbn; destruct (eqb c c'); lia.
  1, 2: intros Hlt a Ha Hin Hin2; apply (Hlo Hlt a Ha Hin); by rewrite app_nil_r.
  assert (a = b) as -> by (by destruct Hch). pose proof (λ n, walking_next _ _ _ _ _ _ _ n Hk Hso) as Hfar.
  pose proof (Order_bytes_pos o) as Hpos. unfold FRAME_SIZE in Hpos.
  assert ((Order_bytes o | b) ∧ 0 < b) as [Hal Hbpos] by (pose proof (wk_blocks _ _ _ _ _ _ Hk) as Hbl; by apply Forall_cons in Hbl as [[] _]).
  assert (Hstart : ∀ x l', gcov g x + lcov o (b :: l') x = 0 → x ≠ b).
  { intros x l' Hx ->. rewrite lcov_cons, bcov_start in Hx. pose proof (gcov_nonneg g b). pose proof (lcov_nonneg o l' b). lia. }
  destruct (decide (merged < budget ∧ Order_is_lower o b = true ∧ link w m b = b + Order_bytes o)) as [(Hbud & Hlow & Hnext)|Hno].
  - apply Order_is_lower_spec in Hlow; [|done]. destruct l as [|b2 l]; [destruct Hch as (_ & _ & Hz); cbn in Hz; lia|].
    assert (b2 = b + Order_bytes o) as -> by (destruct Hch as (_ & _ & ? & _); congruence).
    destruct (step_pair budget c o b l merged m s g Ho Hk Hch Hlow Hbud) as (a & m2 & s2 & E & Hch2 & Hk2 & Hf & Hm).
    set (g2 := held_set c (S o) (b :: g c (S o)) g) in *.
    destruct (IH l a (merged + 1) m2 s2 g2) as (k & merged' & m' & s' & g' & Hkl & He & Hpl & Hmer & Hnp);
      [cbn in Hn; lia|done|exact Hch2|by apply Sorted_inv in Hso as [[? _]%Sorted_inv _]|exact Hk2| | |].
    { intros Hlt x Hx. unfold g2. rewrite held_set_ne by (right; lia). intros Hin Hin2. apply (Hlo Hbud x Hx Hin). set_solver. }
    { intros x y. unfold g2. rewrite held_set_ne by (right; lia). intros Hx Hy. apply Hpb; [done|]. set_solver. }
    exists (S k), merged', m', s', g'. split_and!; [cbn; lia|by eapply ends_later| |cbn in *; lia..|done].
    apply (placed_push m s g c o (S o) b l _ m2 s2); [unfold Order_MAX, ORDERS in *; lia|by right|done| | |done].
    + intros x. rewrite !lcov_cons, bcov_halves. lia.
    + intros x Hx. apply Hm; [by eapply Hstart|]. intros ->. rewrite !lcov_cons, (bcov_start o) in Hx.
      pose proof (bcov_range o b (b + Order_bytes o)). pose proof (gcov_nonneg g (b + Order_bytes o)).
      pose proof (lcov_nonneg o l (b + Order_bytes o)). lia.
  - destruct (step_keep budget c o b l merged m s g Ho Hk Hch) as (a & m2 & s2 & E & Hch2 & Hk2 & Hf & Hm).
    { intros H1 H2 H3. apply Hno. split_and!; [done|by apply Order_is_lower_spec|done]. }
    set (g2 := held_set c o (b :: g c o) g) in *.
    destruct (IH l a merged m2 s2 g2) as (k & merged' & m' & s' & g' & Hkl & He & Hpl & Hmer & Hnp);
      [cbn in Hn; lia|done|exact Hch2|by apply Sorted_inv in Hso as [? _]|exact Hk2| | |].
    { intros Hlt. specialize (Hlo Hlt). unfold lonely, g2. rewrite held_set_eq. intros x Hx Hin Hin2.
      apply elem_of_cons in Hin as [->|Hin]; [|apply (Hlo x Hx Hin); set_solver].
      apply elem_of_app in Hin2 as [[?|Hin2]%elem_of_cons|Hin2]; [lia| |].
      - specialize (Hpb _ b Hin2 ltac:(apply list_elem_of_here)). lia.
      - apply Hno. split_and!; [done|by apply Order_is_lower_spec|by apply (next_is_buddy m s g c o b l)]. }
    { intros x y. unfold g2. rewrite held_set_eq. intros [->|Hx]%elem_of_cons Hy; [pose proof (Hfar y Hy); lia|].
      apply Hpb; [done|]. by apply list_elem_of_further. }
    exists (S k), merged', m', s', g'. split_and!; [cbn; lia|by eapply ends_later| |cbn in *; lia..|done].
    apply (placed_push m s g c o o b l _ m2 s2); [unfold Order_MAX, ORDERS in *; lia|by left|done|intros x; apply lcov_cons| |done].
    intros x Hx. apply Hm. by eapply Hstart.
Qed.

(** ** The pass over the whole shard *)

(** The same frames of the same kinds, in other blocks. *)
Record regrouped m s g m' s' g' : Prop := {
  rg_holds : Shard_holds w m' s' g';
  rg_frames : same_frames s s';
  rg_kcov : ∀ c x, kcov g' c x = kcov g c x;
  rg_frame : ∀ x, gcov g x = 0 → m' x = m x;
}.

Lemma regrouped_refl m s g : Shard_holds w m s g → regrouped m s g m s g.
Proof. by split. Qed.

Lemma regrouped_gcov m s g m' s' g' x : regrouped m s g m' s' g' → gcov g' x = gcov g x.
Proof. intros [_ _ H _]. unfold gcov. by rewrite !H. Qed.

Lemma regrouped_trans m s g m1 s1 g1 m2 s2 g2 :
  regrouped m s g m1 s1 g1 → regrouped m1 s1 g1 m2 s2 g2 → regrouped m s g m2 s2 g2.
Proof.
  intros H1 [A B C D]. pose proof (λ x, regrouped_gcov _ _ _ _ _ _ x H1) as Hg. destruct H1 as [A1 B1 C1 D1]. split; [done| | |].
  - intros c. by rewrite B, <- B1.
  - intros c x. by rewrite C, C1.
  - intros x Hx. rewrite D by (by rewrite Hg). by apply D1.
Qed.

(** What one list can hold. *)
Lemma list_bound m s g c o : Shard_holds w m s g → (o < ORDERS)%nat → Z.of_nat (length (g c o)) ≤ 2 ^ 52.
Proof.
  intros Hs Ho. assert (Hb : Forall (block_ok w o) (g c o)).
  { rewrite list.Forall_forall. intros b Hb. by eapply (sd_blocks _ _ _ _ Hs). }
  assert (Hle : mass (2 ^ 64) (lcov o (g c o)) ≤ 2 ^ 64).
  { apply mass_at_most; [lia|]. intros x. pose proof (sd_apart _ _ _ _ Hs x). pose proof (kcov_gcov g c x).
    pose proof (zsum_elem (λ o, lcov o (g c o) x) (seq 0 ORDERS) o (λ o' _, lcov_nonneg o' _ x) ltac:(apply elem_of_seq; lia)).
    unfold kcov in *. lia. }
  rewrite (mass_lcov w Hw) in Hle by done. pose proof (Order_bytes_pos o). unfold FRAME_SIZE in *. nia.
Qed.

Lemma coalesce_kind budget c o merged m s g :
  Shard_holds w m s g → (o < Order_MAX)%nat →
  ∃ s1 a m1 merged' m' s' g',
    set_head_of c o 0 (m, s) = (Ok tt, (m, s1)) ∧
    on_mem (FrameLists.sort w (Lists_head (Shard_lists s c) o)) (m, s1) = (Ok a, (m1, s1)) ∧
    sm_loop (coalesce_step w budget c o (S o)) (a, merged) (m1, s1) = (Ok merged', (m', s')) ∧
    regrouped m s g m' s' g' ∧ merged ≤ merged' ≤ merged + 2 ^ 52 ∧ (merged' < budget → no_pair g' c o) ∧
    ∀ c' o', c' ≠ c ∨ (o' ≠ o ∧ o' ≠ S o) → g' c' o' = g c' o'.
Proof.
  intros Hs Ho. assert (Ho' : (o < ORDERS)%nat) by (unfold Order_MAX, ORDERS in *; lia).
  assert (Hb : Forall (block_ok w o) (g c o)).
  { rewrite list.Forall_forall. intros b Hb. by eapply (sd_blocks _ _ _ _ Hs). }
  set (g1 := held_set c o [] g).
  assert (Hk1 : ∀ c' x, kcov g1 c' x + kind c c' (lcov o (g c o) x) = kcov g c' x).
  { intros c' x. pose proof (kcov_set g c o [] c' x Ho') as E. fold g1 in E. rewrite lcov_nil in E. unfold kind in *. destruct (eqb c c'); lia. }
  assert (Hg1 : ∀ x, gcov g1 x + lcov o (g c o) x = gcov g x).
  { intros x. unfold gcov. rewrite <- !Hk1. unfold kind. destruct c; cbn; lia. }
  assert (Hap : ∀ x, gcov g1 x + lcov o (g c o) x ≤ 1) by (intros x; rewrite Hg1; apply Hs).
  set (s1 := sh_with_lists c (Lists_set_head o 0 (Shard_lists s c)) s).
  assert (Hs1 : Shard_holds w m s1 g1).
  { apply holds_set with m; [done..|constructor|constructor| |done].
    intros x. fold g1. specialize (Hap x). pose proof (lcov_nonneg o (g c o) x). lia. }
  destruct (sort_spec w m _ _ (sd_chain _ _ _ _ Hs c o Ho')) as (a & m1 & l & E & Hch & Hso & Hp & Hm1).
  { apply (apart_sortable w Hw o); [done|]. intros x. specialize (Hap x). pose proof (gcov_nonneg g1 x). lia. }
  assert (Hl : ∀ x, lcov o l x = lcov o (g c o) x) by (intros; by apply lcov_perm).
  assert (Hin : ∀ x, x ∈ l → bcov o x x ≤ lcov o l x) by (intros; by apply lcov_elem).
  assert (Hk : walking m1 s1 g1 c o l).
  { split.
    - eapply holds_frame; [|exact Hs1]. intros x Hx. apply Hm1. intros Hxl. rewrite <- Hp in Hxl. specialize (Hin x Hxl).
      rewrite bcov_start, Hl in Hin. specialize (Hap x). pose proof (gcov_nonneg g1 x). lia.
    - by rewrite Hp.
    - intros ->. rewrite Hp, list.Forall_forall. intros b Hbl. eapply zeroed_frame; [|by eapply (sd_clean _ _ _ _ Hs)].
      intros x Hx. apply Hm1. intros Hxl. rewrite list.Forall_forall in Hb. destruct (Hb b Hbl) as [Hba _ _].
      destruct (Hb x Hxl) as [Hxa _ _]. by apply (aligned_outside o x b).
    - intros x. by rewrite Hl. }
  destruct (coalesce_walk budget c o (length l) l a merged m1 s1 g1) as (k & merged' & m' & s' & g' & Hkl & He & [P1 P2 P3 P4 P5] & Hmer & Hnp); try done.
  { intros _ x _. unfold g1. rewrite held_set_eq. by intros ?%elem_of_nil. }
  { intros x y. unfold g1. rewrite held_set_eq. by intros ?%elem_of_nil. }
  pose proof (list_bound m s g c o Hs Ho') as Hlb. rewrite <- Hp in Hlb.
  exists s1, a, m1, merged', m', s', g'. split_and!; [done|unfold on_mem; by rewrite E| | |lia|lia|done|].
  - apply (sm_loop_ends _ k); [lia|done].
  - split; [done| | |].
    + intros c'. rewrite P2. apply frames_with_lists.
    + intros c' x. by rewrite P3, Hl, Hk1.
    + intros x Hx. rewrite <- Hg1 in Hx. pose proof (gcov_nonneg g1 x). pose proof (lcov_nonneg o (g c o) x).
      rewrite P4 by (rewrite Hl; lia). apply Hm1. intros Hxl. rewrite <- Hp in Hxl. specialize (Hin x Hxl).
      rewrite bcov_start, Hl in Hin. lia.
  - intros c' o' Hne. rewrite P5 by done. apply held_set_ne. destruct Hne as [|[]]; [by left|by right].
Qed.

Lemma coalesce_kinds_spec budget o kinds : ∀ merged m s g,
  Shard_holds w m s g → (o < Order_MAX)%nat → NoDup kinds →
  ∃ merged' m' s' g', coalesce_kinds w budget kinds o (S o) merged (m, s) = (Ok merged', (m', s')) ∧
    regrouped m s g m' s' g' ∧ merged ≤ merged' ≤ merged + 2 ^ 52 * Z.of_nat (length kinds) ∧
    (merged' < budget → ∀ c, c ∈ kinds → no_pair g' c o) ∧
    ∀ c o', c ∉ kinds ∨ (o' ≠ o ∧ o' ≠ S o) → g' c o' = g c o'.
Proof.
  induction kinds as [|c kinds IH]; intros merged m s g Hs Ho Hnd; cbn [coalesce_kinds].
  { exists merged, m, s, g. split_and!; [done|by apply regrouped_refl|lia|cbn; lia| |done]. by intros _ c ?%elem_of_nil. }
  apply list.NoDup_cons in Hnd as [Hc Hnd]. destruct (Z.leb_spec budget merged) as [Hle|Hlt].
  { exists merged, m, s, g. split_and!; [done|by apply regrouped_refl|lia|cbn; lia| |done]. lia. }
  destruct (coalesce_kind budget c o merged m s g Hs Ho) as (s1 & a & m1 & merged1 & m2 & s2 & g2 & E1 & E2 & E3 & Hr & Hm & Hnp & Hel).
  destruct (IH merged1 m2 s2 g2) as (merged' & m' & s' & g' & E4 & Hr' & Hm' & Hnp' & Hel'); [apply Hr|done|done|].
  exists merged', m', s', g'. unfold sm_bind. unfold head_of, sm_get. rewrite E1. cbv beta iota. rewrite E2. cbv beta iota.
  rewrite E3. split_and!; [done|by eapply regrouped_trans|lia|cbn [length]; lia| |].
  - intros Hb c' [->|Hin]%elem_of_cons; [|by apply Hnp'].
    unfold no_pair. rewrite (Hel' c o) by (by left). apply Hnp. lia.
  - intros c' o' Hne. rewrite Hel', Hel; [done| |]; (destruct Hne as [[]%not_elem_of_cons|]; [by left|by right]).
Qed.

Lemma coalesce_orders_spec budget n : ∀ o merged m s g,
  Shard_holds w m s g → (o ≤ Order_MAX)%nat → (Order_MAX ≤ n + o)%nat →
  (merged < budget → ∀ c o', (o' < o)%nat → no_pair g c o') →
  ∃ merged' m' s' g', coalesce_orders w budget n o merged (m, s) = (Ok merged', (m', s')) ∧
    regrouped m s g m' s' g' ∧ merged ≤ merged' ≤ merged + 2 ^ 53 * Z.of_nat (Order_MAX - o) ∧
    (merged' < budget → ∀ c o', (o' < Order_MAX)%nat → no_pair g' c o').
Proof.
  induction n as [|n IH]; intros o merged m s g Hs Ho Hn Hnp; cbn [coalesce_orders].
  { exists merged, m, s, g. assert (o = Order_MAX) as -> by lia. split_and!; [done|by apply regrouped_refl|lia|lia|done]. }
  unfold Order_up. destruct (Nat.ltb_spec o Order_MAX) as [Hlt|Hge].
  2:{ exists merged, m, s, g. assert (o = Order_MAX) as -> by lia. split_and!; [done|by apply regrouped_refl|lia|lia|done]. }
  destruct (coalesce_kinds_spec budget o [false; true] merged m s g Hs Hlt) as (merged1 & m1 & s1 & g1 & E1 & Hr1 & Hm1 & Hnp1 & Hel1).
  { apply (bool_decide_unpack _). exact I. }
  destruct (IH (S o) merged1 m1 s1 g1) as (merged' & m' & s' & g' & E' & Hr' & Hm' & Hnp'); [apply Hr1|lia|lia| |].
  { intros Hb c o' Ho'. destruct (decide (o' = o)) as [->|].
    - apply Hnp1; [done|]. destruct c; set_solver.
    - unfold no_pair. rewrite Hel1 by (right; lia). apply Hnp; lia. }
  exists merged', m', s', g'. unfold sm_bind. rewrite E1, E'. split_and!; [done|by eapply regrouped_trans|lia| |done].
  replace (Order_MAX - o)%nat with (S (Order_MAX - S o)) by lia. cbn [length] in Hm1. lia.
Qed.

(** The pass: the same frames, and with budget left no two buddies. *)
Lemma coalesce_shard_spec budget m s g :
  Shard_ok w m s g →
  ∃ n m' s' g', coalesce_shard w budget (m, s) = (Ok n, (m', s')) ∧ Shard_ok w m' s' g' ∧ regrouped m s g m' s' g' ∧
    0 ≤ n < 2 ^ 58 ∧ (n < budget → ∀ c o, (o < Order_MAX)%nat → no_pair g' c o).
Proof.
  intros [Hs Hc]. destruct (coalesce_orders_spec budget ORDERS Order_FRAME 0 m s g Hs) as (n & m' & s' & g' & E & Hr & Hn & Hnp).
  { unfold Order_FRAME, Order_MAX. lia. } { unfold Order_FRAME, Order_MAX, ORDERS. lia. } { unfold Order_FRAME. lia. }
  exists n, m', s', g'. split_and!; [done| |done|lia| |done].
  - split; [apply Hr|]. intros c. rewrite (rg_frames _ _ _ _ _ _ Hr), Hc. apply mass_ext. intros x _. by rewrite (rg_kcov _ _ _ _ _ _ Hr).
  - unfold Order_FRAME, Order_MAX in Hn. cbn in Hn. lia.
Qed.
End coalesce.
