(* ===== verification/FrameFrontier.v ===== *)
(** * The frontier, and one pass of an allocation *)

From S2P Require Import Prelude FrameLists FrameAllocator Extents FrameSort FrameShard FrameCoalesce.
From Stdlib Require Import Bool.
#[local] Open Scope Z_scope.

(** ** Sums over a list that changes at one place *)
Lemma zsum_list_insert {A} (f : A → Z) (l : list A) i a v :
  l !! i = Some a → zsum f (<[i := v]> l) + f a = zsum f l + f v.
Proof.
  intros Hi. pose proof (lookup_lt_Some _ _ _ Hi) as Hlt. rewrite insert_take_drop by done.
  rewrite <- (take_drop_middle l i a Hi) at 3. rewrite !zsum_app. cbn. lia.
Qed.

Lemma zsum_take_last {A} (f : A → Z) (l : list A) n a :
  l !! n = Some a → zsum f (take n l) + f a = zsum f (take (S n) l).
Proof. intros H. rewrite (take_S_r _ _ _ H), zsum_app. cbn. lia. Qed.

Definition rcov (r : Run) (x : Z) : Z := cov (run_next r) (run_end r) x.
Definition live (f : Frontier) : list Run := take (fr_count f) (fr_runs f).
Definition fcov (f : Frontier) (x : Z) : Z := zsum (λ r, rcov r x) (live f).
#[global] Arguments fcov : simpl never.

Lemma fcov_nonneg f x : 0 ≤ fcov f x.
Proof. apply zsum_nonneg. intros. apply cov_range. Qed.

(** An aligned block as long as the run allows. *)
Definition serves (f : Frontier) (o : Order) : Prop :=
  ∃ r a, r ∈ live f ∧ (Order_bytes o | a) ∧ run_next r ≤ a ∧ a + Order_bytes o ≤ run_end r.

Lemma next_multiple_spec a size : 0 < size →
  (size | next_multiple_of a size) ∧ a ≤ next_multiple_of a size ∧ ∀ b, (size | b) → a ≤ b → next_multiple_of a size ≤ b.
Proof.
  intros Hs. unfold next_multiple_of. pose proof (Z.div_mod (a + size - 1) size ltac:(lia)) as E.
  pose proof (Z.mod_pos_bound (a + size - 1) size Hs). split_and!; [by exists ((a + size - 1) / size)|nia|].
  intros b [q ->] Hab. apply Z.mul_le_mono_nonneg_r; [lia|]. apply Z.lt_succ_r, Z.div_lt_upper_bound; nia.
Qed.

Section frontier.
Context (w : Window) (Hw : Window_ok w).
Implicit Types (m : Mem) (s : Shard) (g : Held) (f fr : Frontier).

Record run_ok (r : Run) : Prop := {
  ro_next : (FRAME_SIZE | run_next r);
  ro_end : (FRAME_SIZE | run_end r);
  ro_range : 0 < run_next r < run_end r;
  ro_limit : run_end r ≤ win_limit w;
}.

Record Frontier_ok f : Prop := {
  fo_len : length (fr_runs f) = UNTOUCHED_RUNS;
  fo_count : (fr_count f ≤ UNTOUCHED_RUNS)%nat;
  fo_live : ∀ r, r ∈ live f → run_ok r;
  fo_frames : fr_frames f * FRAME_SIZE = mass (2 ^ 64) (fcov f);
}.

Lemma mass_cov_limit (a e : Z) : 0 ≤ a ≤ e → e ≤ win_limit w → mass (2 ^ 64) (cov a e) = e - a.
Proof. intros. destruct Hw. unfold u64_max in *. apply mass_cov; lia. Qed.

(** A run served from its start up to [stop]. *)
Lemma run_spent_spec f i r stop :
  Frontier_ok f → (∀ x, fcov f x ≤ 1) → (i < fr_count f)%nat → fr_runs f !! i = Some r →
  (FRAME_SIZE | stop) → run_next r < stop ≤ run_end r →
  Frontier_ok (run_spent i stop f) ∧ ∀ x, fcov (run_spent i stop f) x + cov (run_next r) stop x = fcov f x.
Proof.
  intros [H1 H2 H3 H4] Hap Hi Hr Hst Hrange. unfold run_spent. rewrite Hr. cbv zeta. cbn [fr_runs fr_count fr_frames].
  assert (Hlive : r ∈ live f).
  { unfold live. apply list_elem_of_lookup. exists i. rewrite lookup_take. by rewrite decide_True by lia. }
  destruct (H3 r Hlive) as [R1 R2 R3 R4].
  set (r1 := mkRun stop (run_end r)). set (frames := saturating_sub _ _).
  assert (Hframes : ∀ f', (∀ x, fcov f' x + cov (run_next r) stop x = fcov f x) → frames * FRAME_SIZE = mass (2 ^ 64) (fcov f')).
  { intros f' Hf'. rewrite <- (mass_ext _ _ _ (λ x _, Hf' x)), mass_add in H4.
    change (λ x, cov (run_next r) stop x) with (cov (run_next r) stop) in H4. rewrite mass_cov_limit in H4 by lia.
    pose proof (mass_nonneg (2 ^ 64) (fcov f') (fcov_nonneg f')). unfold frames, saturating_sub.
    destruct R1 as [p Hp], Hst as [q Hq]. rewrite Hp, Hq in *. replace (q * FRAME_SIZE - p * FRAME_SIZE) with ((q - p) * FRAME_SIZE) in * by lia.
    rewrite Z.div_mul by (unfold FRAME_SIZE; lia). unfold FRAME_SIZE in *. lia. }
  assert (Hr1 : run_end r ≠ stop → run_ok r1) by (intros; split; cbn; [done|done|lia|done]).
  assert (Hins : ∀ x, zsum (λ r, rcov r x) (take (fr_count f) (<[i := r1]> (fr_runs f))) + cov (run_next r) stop x = fcov f x).
  { intros x. rewrite take_insert_lt by done. pose proof (zsum_list_insert (λ r, rcov r x) (live f) i r r1) as E.
    unfold live in E. rewrite lookup_take, decide_True in E by lia. specialize (E Hr). unfold fcov, live.
    assert (Ec : rcov r x = cov (run_next r) stop x + rcov r1 x) by (apply cov_split; lia). lia. }
  destruct (Z.leb_spec (run_end r) stop) as [Hspent|Hleft].
  - assert (run_end r = stop) as He by lia.
    destruct (lookup_lt_is_Some_2 (<[i := r1]> (fr_runs f)) (fr_count f - 1)) as [moved Hmoved].
    { rewrite length_insert, H1. unfold UNTOUCHED_RUNS in *. lia. }
    rewrite Hmoved. set (runs := if bool_decide _ then _ else _).
    assert (Hz : ∀ x, rcov r1 x = 0) by (intros x; unfold rcov, r1; cbn; rewrite He; apply cov_empty).
    assert (Hf : ∀ x, fcov (mkFrontier runs (fr_count f - 1) frames) x + cov (run_next r) stop x = fcov f x).
    { intros x. rewrite <- Hins. f_equal. unfold fcov, live. cbn. unfold runs. case_bool_decide as Hne.
      - pose proof (zsum_take_last (λ r, rcov r x) (<[i := r1]> (fr_runs f)) (fr_count f - 1) moved Hmoved) as E.
        replace (S (fr_count f - 1)) with (fr_count f) in E by lia.
        rewrite take_insert_lt by lia.
        pose proof (zsum_list_insert (λ r, rcov r x) (take (fr_count f - 1) (<[i := r1]> (fr_runs f))) i r1 moved) as E2.
        rewrite lookup_take, decide_True in E2 by lia. rewrite list_lookup_insert_eq in E2 by (rewrite H1; unfold UNTOUCHED_RUNS in *; lia).
        specialize (E2 eq_refl). rewrite Hz in E2. lia.
      - assert (Heq : i = (fr_count f - 1)%nat) by (destruct (decide (i = (fr_count f - 1)%nat)); [done|by destruct Hne]).
        pose proof (zsum_take_last (λ r, rcov r x) (<[i := r1]> (fr_runs f)) (fr_count f - 1) moved Hmoved) as E.
        replace (S (fr_count f - 1)) with (fr_count f) in E by lia.
        rewrite <- Heq, list_lookup_insert_eq in Hmoved by (rewrite H1; unfold UNTOUCHED_RUNS in *; lia).
        injection Hmoved as <-. rewrite Hz in E. lia. }
    split; [|exact Hf]. split; [|cbn; lia| |by apply Hframes].
    + cbn. unfold runs. case_bool_decide; by rewrite ?length_insert.
    + intros r' Hr'. apply H3. unfold live in *. cbn in Hr'. apply list_elem_of_lookup in Hr' as [j Hj].
      rewrite lookup_take in Hj. destruct (decide (j < fr_count f - 1)%nat) as [Hjlt|]; [|done]. unfold runs in Hj.
      assert (Hold : ∀ j, j ≠ i → (j < fr_count f)%nat → <[i := r1]> (fr_runs f) !! j = Some r' → r' ∈ take (fr_count f) (fr_runs f)).
      { intros k Hk Hkl Ek. rewrite list_lookup_insert_ne in Ek by done. apply list_elem_of_lookup. exists k.
        by rewrite lookup_take, decide_True by lia. }
      case_bool_decide as Hne.
      * destruct (decide (j = i)) as [->|Hji].
        -- rewrite list_lookup_insert_eq in Hj by (rewrite length_insert, H1; unfold UNTOUCHED_RUNS in *; lia).
           injection Hj as <-. apply (Hold (fr_count f - 1)%nat); [done|lia|done].
        -- rewrite list_lookup_insert_ne in Hj by done. apply (Hold j); [done|lia|done].
      * apply (Hold j); [|lia|done]. assert (i = (fr_count f - 1)%nat) by (destruct (decide (i = (fr_count f - 1)%nat)); [done|by destruct Hne]). lia.
  - assert (Hf : ∀ x, fcov (mkFrontier (<[i := r1]> (fr_runs f)) (fr_count f) frames) x + cov (run_next r) stop x = fcov f x) by exact Hins.
    split; [|exact Hf]. split; [cbn; by rewrite length_insert|done| |by apply Hframes].
    intros r' Hr'. unfold live in Hr'. cbn in Hr'. rewrite take_insert_lt in Hr' by done.
    apply list_elem_of_lookup in Hr' as [j Hj]. destruct (decide (j = i)) as [->|Hji].
    + rewrite list_lookup_insert_eq in Hj; [injection Hj as <-; apply Hr1; lia|].
      rewrite length_take, H1. unfold UNTOUCHED_RUNS in *. lia.
    + rewrite list_lookup_insert_ne in Hj by done. apply H3. apply list_elem_of_lookup. by exists j.
Qed.

Lemma run_serves_spec r o :
  run_ok r →
  match run_serves r (Order_bytes o) with
  | Some a => (Order_bytes o | a) ∧ run_next r ≤ a ∧ a + Order_bytes o ≤ run_end r
  | None => ∀ a, (Order_bytes o | a) → run_next r ≤ a → run_end r < a + Order_bytes o
  end.
Proof.
  intros [_ _ Hr Hl]. pose proof (Order_bytes_pos o) as Hp. unfold FRAME_SIZE in Hp.
  destruct (next_multiple_spec (run_next r) (Order_bytes o)) as (H1 & H2 & H3); [lia|]. unfold run_serves.
  set (a0 := next_multiple_of _ _) in *. destruct Hw.
  assert (Hnone : run_end r < a0 + Order_bytes o → ∀ a, (Order_bytes o | a) → run_next r ≤ a → run_end r < a + Order_bytes o).
  { intros Hlt a Ha Hle. specialize (H3 a Ha Hle). lia. }
  destruct (Z.ltb_spec u64_max a0); [apply Hnone; lia|]. destruct (Z.ltb_spec u64_max (a0 + Order_bytes o)); [apply Hnone; lia|].
  destruct (Z.ltb_spec (run_end r) (a0 + Order_bytes o)); [by apply Hnone|]. split_and!; [done|done|lia].
Qed.

(** Every run has a frame, so none is left when none is served. *)
Lemma frontier_spent f : Frontier_ok f → ¬ serves f Order_FRAME → fr_frames f = 0.
Proof.
  intros [_ _ H3 H4] Hs. enough (mass (2 ^ 64) (fcov f) = 0) as E by (rewrite E in H4; unfold FRAME_SIZE in H4; lia).
  apply mass_zero. intros x. unfold fcov. destruct (live f) as [|r l] eqn:El; [apply zsum_nil|]. exfalso. apply Hs.
  assert (Hr : r ∈ live f) by (rewrite El; apply list_elem_of_here). destruct (H3 r) as [R1 R2 R3 R4]; [rewrite <- El; exact Hr|].
  exists r, (run_next r). change (Order_bytes Order_FRAME) with FRAME_SIZE. split; [done|]. split; [done|]. split; [lia|].
  destruct R1 as [p Hp], R2 as [q Hq]. unfold FRAME_SIZE in *. lia.
Qed.

Lemma take_from_spec o i : ∀ f,
  Frontier_ok f → (∀ x, fcov f x ≤ 1) → (i ≤ fr_count f)%nat →
  (Frontier_take_from i o f = (Ok None, f) ∧ ∀ r, r ∈ take i (fr_runs f) → run_serves r (Order_bytes o) = None) ∨
  ∃ b start f', Frontier_take_from i o f = (Ok (Some (b, start, b)), f') ∧ Frontier_ok f' ∧ block_ok w o b ∧
    (FRAME_SIZE | start) ∧ 0 < start ≤ b ∧ (∀ x, fcov f' x + cov start b x + bcov o b x = fcov f x).
Proof.
  induction i as [|i IH]; intros f Hf Hap Hi; cbn [Frontier_take_from].
  { left. split; [done|]. intros r ?%elem_of_nil. done. }
  destruct (lookup_lt_is_Some_2 (fr_runs f) i) as [r Hr]; [destruct Hf; lia|]. rewrite Hr.
  assert (Hlive : r ∈ live f).
  { unfold live. apply list_elem_of_lookup. exists i. rewrite lookup_take. by rewrite decide_True by lia. }
  pose proof (fo_live _ Hf r Hlive) as Hrun. pose proof (run_serves_spec r o Hrun) as Hs.
  destruct (run_serves r (Order_bytes o)) as [a|] eqn:Es.
  - right. destruct Hs as (Ha & Hn & He). pose proof (Order_bytes_pos o) as Hp. destruct Hrun as [R1 R2 R3 R4].
    assert (Hfa : (FRAME_SIZE | a)) by (etransitivity; [apply (FRAME_divide o)|done]).
    destruct (run_spent_spec f i r (a + Order_bytes o)) as [Hok Hc]; [done|done|lia|done| |unfold FRAME_SIZE in *; lia|].
    { apply Z.divide_add_r; [done|apply FRAME_divide]. }
    exists a, (run_next r), (run_spent i (a + Order_bytes o) f). split_and!; [done|done| |done|lia|lia|].
    + constructor; [done|lia|lia].
    + intros x. rewrite <- Hc. unfold bcov. rewrite (cov_split (run_next r) a (a + Order_bytes o)) by (unfold FRAME_SIZE in *; lia). lia.
  - destruct (IH f Hf Hap ltac:(lia)) as [[E Hn]|H]; [left|by right]. split; [done|].
    intros r'. rewrite (take_S_r _ _ _ Hr). intros [Hin|Hin]%elem_of_app; [by apply Hn|].
    apply list_elem_of_singleton in Hin as ->. done.
Qed.

Lemma frontier_take_spec o f :
  Frontier_ok f → (∀ x, fcov f x ≤ 1) →
  (Frontier_take o f = (Ok None, f) ∧ ¬ serves f o) ∨
  ∃ b start f', Frontier_take o f = (Ok (Some (b, start, b)), f') ∧ Frontier_ok f' ∧ block_ok w o b ∧
    (FRAME_SIZE | start) ∧ 0 < start ≤ b ∧ (∀ x, fcov f' x + cov start b x + bcov o b x = fcov f x).
Proof.
  intros Hf Hap. destruct (take_from_spec o (fr_count f) f Hf Hap (le_n _)) as [[E Hn]|H]; [left|by right]. split; [done|].
  intros (r & a & Hr & Ha & H1 & H2). specialize (Hn r Hr). pose proof (run_serves_spec r o (fo_live _ Hf r Hr)) as Hs.
  rewrite Hn in Hs. specialize (Hs a Ha H1). lia.
Qed.

(** ** A pass works on a shard and the frontier *)
Record Pass_ok m s fr g : Prop := {
  ps_shard : Shard_ok w m s g;
  ps_frontier : Frontier_ok fr;
  ps_apart : ∀ x, gcov g x + fcov fr x ≤ 1;
}.

(** The memory of a pass. *)
Definition pcov g fr (x : Z) : Z := gcov g x + fcov fr x.

Lemma pass_parts m s fr g : Pass_ok m s fr g → (∀ x, gcov g x ≤ 1) ∧ (∀ x, fcov fr x ≤ 1).
Proof. intros [_ _ H]. split; intros x; specialize (H x); pose proof (gcov_nonneg g x); pose proof (fcov_nonneg fr x); lia. Qed.

(** A refill moves memory from the frontier to the dirty lists, and puts a
    block that is large enough there; it fails when no run serves the order. *)
Lemma refill_from_spec order n : ∀ want m s fr g,
  Pass_ok m s fr g → (order ≤ want < ORDERS)%nat → (want < n)%nat →
  ∃ r m' s' fr' g', refill_from w n want order ((m, s), fr) = (Ok r, ((m', s'), fr')) ∧ Pass_ok m' s' fr' g' ∧
    (∀ x, pcov g' fr' x = pcov g fr x) ∧ (∀ x, kcov g' true x = kcov g true x) ∧ (∀ x, pcov g fr x = 0 → m' x = m x) ∧
    if r : bool then ∃ o, (order ≤ o < ORDERS)%nat ∧ g' false o ≠ []
    else m' = m ∧ s' = s ∧ fr' = fr ∧ g' = g ∧ ¬ serves fr order.
Proof.
  induction n as [|n IH]; intros want m s fr g Hp Ho Hn; [lia|]. cbn [refill_from].
  pose proof (pass_parts _ _ _ _ Hp) as [Hg1 Hf1]. pose proof Hp as [Hs Hfr Hap].
  unfold sm_bind at 1, on_frontier at 1.
  destruct (frontier_take_spec want fr Hfr Hf1) as [[E Hns]|(b & start & fr' & E & Hfr' & Hb & Hst & Hrange & Hc)]; rewrite E.
  - unfold Order_down. destruct want as [|down].
    + exists false, m, s, fr, g. split_and!; try done. by assert (order = 0%nat) as -> by lia.
    + destruct (Nat.ltb_spec down order).
      * exists false, m, s, fr, g. split_and!; try done. by assert (order = S down) as -> by lia.
      * apply IH; [done|lia|lia].
  - assert (Hpc : ∀ x, pcov g fr' x + cov start b x + bcov want b x = pcov g fr x) by (intros x; unfold pcov; rewrite <- Hc; lia).
    assert (Hle : ∀ x, pcov g fr' x + cov start b x + bcov want b x ≤ 1) by (intros x; rewrite Hpc; apply Hap).
    pose proof Hb as [Hba Hbp Hbe]. pose proof (Order_bytes_pos want) as Hpos. unfold FRAME_SIZE in Hpos.
    destruct (carve_spec w Hw start b m s g) as (m1 & s1 & g1 & E1 & Hs1 & Hk1 & Hm1); [done| |lia|lia|done| |].
    { etransitivity; [apply (FRAME_divide want)|done]. }
    { intros x. specialize (Hle x). unfold pcov in Hle. pose proof (bcov_range want b x). pose proof (fcov_nonneg fr' x). lia. }
    assert (Hg1' : ∀ x, gcov g1 x = gcov g x + cov start b x) by (intros x; unfold gcov; rewrite !Hk1; unfold kind; cbn; lia).
    destruct (give_spec w Hw false want b m1 s1 g1 Hs1) as (m2 & s2 & E2 & Hs2 & Hm2); [lia|done|done| |].
    { intros x. rewrite Hg1'. specialize (Hle x). unfold pcov in Hle. pose proof (fcov_nonneg fr' x). lia. }
    set (g2 := held_set false want (b :: g1 false want) g1) in *.
    assert (Hg2 : ∀ x, gcov g2 x = gcov g x + cov start b x + bcov want b x) by (intros x; unfold g2; rewrite gcov_push by lia; rewrite Hg1'; lia).
    exists true, m2, s2, fr', g2. unfold sm_bind, on_core. rewrite E1. cbv beta iota. rewrite E2. split_and!; [done| | | | |].
    + split; [done|done|]. intros x. rewrite Hg2. specialize (Hle x). unfold pcov in Hle. lia.
    + intros x. unfold pcov in *. rewrite Hg2, <- Hpc. lia.
    + intros x. unfold g2. rewrite kcov_push, Hk1 by lia. unfold kind. cbn. lia.
    + intros x Hx. rewrite <- Hpc in Hx. pose proof (cov_range start b x). pose proof (bcov_range want b x).
      pose proof (gcov_nonneg g x). pose proof (fcov_nonneg fr' x). unfold pcov in Hx.
      rewrite Hm2; [apply Hm1; lia|]. intros ->. pose proof (bcov_start want b). lia.
    + exists want. split; [lia|]. unfold g2. rewrite held_set_eq. done.
Qed.

Lemma refill_spec order m s fr g :
  Pass_ok m s fr g → (order < ORDERS)%nat →
  ∃ r m' s' fr' g', refill w order ((m, s), fr) = (Ok r, ((m', s'), fr')) ∧ Pass_ok m' s' fr' g' ∧
    (∀ x, pcov g' fr' x = pcov g fr x) ∧ (∀ x, kcov g' true x = kcov g true x) ∧ (∀ x, pcov g fr x = 0 → m' x = m x) ∧
    if r : bool then ∃ o, (order ≤ o < ORDERS)%nat ∧ g' false o ≠ []
    else m' = m ∧ s' = s ∧ fr' = fr ∧ g' = g ∧ ¬ serves fr order.
Proof.
  intros Hp Ho. unfold refill. destruct (Nat.ltb_spec Order_DEFAULT order); apply refill_from_spec; try done;
    unfold Order_DEFAULT, Order_HUGE, ORDERS in *; lia.
Qed.

(** ** One attempt *)

(** What an attempt answers: a block that left the memory of the pass, or that
    there was none. *)
Definition attempted (order : Order) m s fr g (r : option (Z * bool)) m' s' fr' g' : Prop :=
  Pass_ok m' s' fr' g' ∧ (∀ x, pcov g fr x = 0 → m' x = m x) ∧
  match r with
  | Some (b, clean) => block_ok w order b ∧ (clean = true → zeroed m' order b) ∧
      ∀ x, pcov g' fr' x + bcov order b x = pcov g fr x
  | None => m' = m ∧ s' = s ∧ fr' = fr ∧ g' = g ∧ ¬ serves fr order ∧ ∀ c o, (order ≤ o < ORDERS)%nat → g c o = []
  end.

(** A pop in a pass. *)
Lemma pass_pop order c m s fr g :
  Pass_ok m s fr g → (order < ORDERS)%nat →
  (on_core (pop_split w order c) ((m, s), fr) = (Ok None, ((m, s), fr)) ∧ ∀ o, (order ≤ o < ORDERS)%nat → g c o = []) ∨
  ∃ b m' s' g', on_core (pop_split w order c) ((m, s), fr) = (Ok (Some b), ((m', s'), fr)) ∧ Pass_ok m' s' fr g' ∧
    block_ok w order b ∧ (c = true → zeroed m' order b) ∧ (∀ x, pcov g' fr x + bcov order b x = pcov g fr x) ∧
    (∀ x, pcov g fr x = 0 → m' x = m x).
Proof.
  intros [Hs Hf Hap] Ho. destruct (pop_split_spec w Hw c order m s g Hs Ho) as (r & m' & s' & g' & E & Hs' & Hr).
  unfold on_core. rewrite E. destruct r as [b|]; cbn in Hr.
  - right. destruct Hr as (Hb & Hz & Hk & Hm). exists b, m', s', g'.
    assert (Hg : ∀ x, gcov g' x + bcov order b x = gcov g x).
    { intros x. unfold gcov. rewrite <- !Hk. unfold kind. destruct c; cbn; lia. }
    split_and!; [done| |done|done| |].
    + split; [done|done|]. intros x. specialize (Hap x). rewrite <- Hg in Hap. pose proof (bcov_range order b x). lia.
    + intros x. unfold pcov. rewrite <- Hg. lia.
    + intros x Hx. apply Hm. unfold pcov in Hx. pose proof (gcov_nonneg g x). pose proof (fcov_nonneg fr x). lia.
  - left. destruct Hr as (-> & -> & -> & Hn). done.
Qed.

Lemma or_else_none {S A B : Type} (f : sm S fault (option A)) (hit : A → B) k st st' :
  f st = (Ok None, st') → or_else f hit k st = k st'.
Proof. intros E. unfold or_else, sm_bind. by rewrite E. Qed.

Lemma or_else_some {S A B : Type} (f : sm S fault (option A)) (hit : A → B) k st a st' :
  f st = (Ok (Some a), st') → or_else f hit k st = (Ok (Some (hit a)), st').
Proof. intros E. unfold or_else, sm_bind. by rewrite E. Qed.

(** A refill, and a pop from what it brought. *)
Lemma refill_pop order m s fr g :
  Pass_ok m s fr g → (order < ORDERS)%nat →
  let f := do! filled <- refill w order; if filled : bool then on_core (pop_split w order false) else sm_ret None in
  (f ((m, s), fr) = (Ok None, ((m, s), fr)) ∧ ¬ serves fr order) ∨
  ∃ b m' s' fr' g', f ((m, s), fr) = (Ok (Some b), ((m', s'), fr')) ∧ Pass_ok m' s' fr' g' ∧
    block_ok w order b ∧ (∀ x, pcov g' fr' x + bcov order b x = pcov g fr x) ∧ (∀ x, pcov g fr x = 0 → m' x = m x).
Proof.
  intros Hp Ho f. unfold f, sm_bind.
  destruct (refill_spec order m s fr g Hp Ho) as (r & m1 & s1 & fr1 & g1 & E & Hp1 & Hc1 & Hk1 & Hm1 & Hr). rewrite E.
  destruct r; [right|left; destruct Hr as (-> & -> & -> & -> & Hns); done].
  destruct Hr as (o & Ho1 & Hne).
  destruct (pass_pop order false m1 s1 fr1 g1 Hp1 Ho) as [[_ Hnil]|(b & m2 & s2 & g2 & E2 & Hp2 & Hb & _ & Hc2 & Hm2)].
  { exfalso. by apply Hne, Hnil. }
  exists b, m2, s2, fr1, g2. split_and!; [done|done|done| |].
  - intros x. by rewrite Hc2.
  - intros x Hx. rewrite Hm2 by (by rewrite Hc1). by apply Hm1.
Qed.

Lemma pop_or order c m s fr g :
  Pass_ok m s fr g → (order < ORDERS)%nat → ∀ {B} (hit : Z → B) k,
  (or_else (on_core (pop_split w order c)) hit k ((m, s), fr) = k ((m, s), fr) ∧ (∀ o, (order ≤ o < ORDERS)%nat → g c o = [])) ∨
  ∃ b m' s' g', or_else (on_core (pop_split w order c)) hit k ((m, s), fr) = (Ok (Some (hit b)), ((m', s'), fr)) ∧
    attempted order m s fr g (Some (b, c)) m' s' fr g'.
Proof.
  intros Hp Ho B hit k. destruct (pass_pop order c m s fr g Hp Ho) as [[E Hn]|(b & m' & s' & g' & E & Hp' & Hb & Hz & Hc & Hm)].
  - left. split; [by apply or_else_none|done].
  - right. exists b, m', s', g'. split; [by apply or_else_some|done].
Qed.

Lemma attempt_spec order prefer_clean m s fr g :
  Pass_ok m s fr g → (order < ORDERS)%nat →
  ∃ r m' s' fr' g', attempt w order prefer_clean ((m, s), fr) = (Ok r, ((m', s'), fr')) ∧
    attempted order m s fr g ((λ '(b, _, c), (b, c)) <$> r) m' s' fr' g'.
Proof.
  intros Hp Ho. unfold attempt. pose proof (λ c, @pop_or order c m s fr g Hp Ho) as Hpop.
  assert (Hnone : (∀ o, (order ≤ o < ORDERS)%nat → g true o = []) → (∀ o, (order ≤ o < ORDERS)%nat → g false o = []) → ¬ serves fr order →
    attempted order m s fr g None m s fr g).
  { intros H1 H2 H3. split; [done|]. split; [done|]. split_and!; try done. intros [] o Hlt; [by apply H1|by apply H2]. }
  set (last := or_else (if prefer_clean then sm_ret None else on_core (pop_split w order true)) _ _).
  assert (Hlast : (prefer_clean = true → ∀ o, (order ≤ o < ORDERS)%nat → g true o = []) → (∀ o, (order ≤ o < ORDERS)%nat → g false o = []) →
    ¬ serves fr order → ∃ r m' s' fr' g', last ((m, s), fr) = (Ok r, ((m', s'), fr')) ∧
    attempted order m s fr g ((λ '(b, _, c), (b, c)) <$> r) m' s' fr' g').
  { intros H1 H2 H3. unfold last. destruct prefer_clean.
    - exists None, m, s, fr, g. split; [by apply or_else_none|]. apply Hnone; auto.
    - destruct (Hpop true _ (λ b, (b, Shard_, true)) (sm_ret None)) as [[E H4]|(b & m' & s' & g' & E & Ha)].
      + exists None, m, s, fr, g. split; [by rewrite E|]. by apply Hnone.
      + exists (Some (b, Shard_, true)), m', s', fr, g'. done. }
  set (third := or_else (do! filled <- refill w order; if filled : bool then on_core (pop_split w order false) else sm_ret None) _ last).
  assert (Hthird : (prefer_clean = true → ∀ o, (order ≤ o < ORDERS)%nat → g true o = []) → (∀ o, (order ≤ o < ORDERS)%nat → g false o = []) →
    ∃ r m' s' fr' g', third ((m, s), fr) = (Ok r, ((m', s'), fr')) ∧ attempted order m s fr g ((λ '(b, _, c), (b, c)) <$> r) m' s' fr' g').
  { intros H1 H2. unfold third.
    destruct (refill_pop order m s fr g Hp Ho) as [[E Hns]|(b & m' & s' & fr' & g' & E & Hp' & Hb & Hc & Hm)].
    - rewrite (or_else_none _ _ _ _ _ E). by apply Hlast.
    - exists (Some (b, Frontier_, false)), m', s', fr', g'. split; [by rewrite (or_else_some _ _ _ _ _ _ E)|done]. }
  set (second := or_else (on_core (pop_split w order false)) _ third).
  assert (Hsecond : (prefer_clean = true → ∀ o, (order ≤ o < ORDERS)%nat → g true o = []) →
    ∃ r m' s' fr' g', second ((m, s), fr) = (Ok r, ((m', s'), fr')) ∧ attempted order m s fr g ((λ '(b, _, c), (b, c)) <$> r) m' s' fr' g').
  { intros H1. destruct (Hpop false _ (λ b, (b, Shard_, false)) third) as [[E H2]|(b & m' & s' & g' & E & Ha)].
    - unfold second. rewrite E. by apply Hthird.
    - exists (Some (b, Shard_, false)), m', s', fr, g'. done. }
  destruct prefer_clean.
  - destruct (Hpop true _ (λ b, (b, Shard_, true)) second) as [[E H1]|(b & m' & s' & g' & E & Ha)].
    + rewrite E. by apply Hsecond.
    + exists (Some (b, Shard_, true)), m', s', fr, g'. done.
  - by apply Hsecond.
Qed.
End frontier.
