(* ===== verification/FrameOps.v ===== *)
(** * Allocating: the rounds, and another core's memory *)

From S2P Require Import Prelude FrameLists FrameAllocator Extents FrameSort FrameShard FrameCoalesce FrameFrontier.
From Stdlib Require Import Bool.
#[local] Open Scope Z_scope.

(** * The machine's free memory

    Every core's shard and the frontier hold memory apart from one another; an
    operation on one of them leaves the others as they were. *)

Definition Holding : Type := nat → Held.
Definition holding_set (cpu : nat) (g : Held) (G : Holding) : Holding := λ c, if decide (cpu = c) then g else G c.

(** The free memory of the machine. *)
Definition mcov (G : Holding) (fr : Frontier) (x : Z) : Z := zsum (λ cpu, gcov (G cpu) x) (seq 0 MAX_CPUS) + fcov fr x.
#[global] Arguments mcov : simpl never.

Lemma holding_set_eq cpu g G : holding_set cpu g G cpu = g.
Proof. unfold holding_set. by rewrite decide_True. Qed.
Lemma holding_set_ne cpu cpu' g G : cpu ≠ cpu' → holding_set cpu g G cpu' = G cpu'.
Proof. intros. unfold holding_set. by rewrite decide_False. Qed.

Lemma mcov_set G fr fr' cpu g x :
  (cpu < MAX_CPUS)%nat → mcov (holding_set cpu g G) fr' x + pcov (G cpu) fr x = mcov G fr x + pcov g fr' x.
Proof.
  intros Hc. unfold mcov, pcov.
  assert (E : zsum (λ c, gcov (holding_set cpu g G c) x) (seq 0 MAX_CPUS) + gcov (G cpu) x =
    zsum (λ c, gcov (G c) x) (seq 0 MAX_CPUS) + gcov g x).
  { apply (zsum_insert (λ _ g, gcov g x) (seq 0 MAX_CPUS) G cpu g); [apply NoDup_ListNoDup, seq_NoDup|apply elem_of_seq; lia]. }
  lia.
Qed.

Lemma mcov_cpu G fr cpu x : (cpu < MAX_CPUS)%nat → gcov (G cpu) x + fcov fr x ≤ mcov G fr x.
Proof.
  intros Hc. unfold mcov.
  pose proof (zsum_elem (λ cpu, gcov (G cpu) x) (seq 0 MAX_CPUS) cpu (λ c _, gcov_nonneg (G c) x) ltac:(apply elem_of_seq; lia)).
  cbn beta in *. lia.
Qed.

Lemma mcov_two G fr c c' x : (c < MAX_CPUS)%nat → (c' < MAX_CPUS)%nat → c ≠ c' → gcov (G c) x + pcov (G c') fr x ≤ mcov G fr x.
Proof.
  intros Hc Hc' Hne. pose proof (mcov_set G fr fr c held_none x Hc) as E. unfold pcov in *.
  pose proof (mcov_cpu (holding_set c held_none G) fr c' x Hc') as H. rewrite holding_set_ne in H by done.
  assert (H0 : gcov held_none x = 0) by (unfold gcov, kcov, held_none; by rewrite !(zsum_ext _ (λ _, 0)), !zsum_zero by done).
  lia.
Qed.

Record Machine_ok (M : Machine) (G : Holding) : Prop := {
  mc_window : Window_ok (fa_map M.2);
  mc_len : length (fa_shards M.2) = MAX_CPUS;
  mc_shards : ∀ cpu s, fa_shards M.2 !! cpu = Some s → Shard_ok (fa_map M.2) M.1 s (G cpu);
  mc_frontier : Frontier_ok (fa_map M.2) (fa_frontier M.2);
  mc_apart : ∀ x, mcov G (fa_frontier M.2) x ≤ 1;
}.

Definition free_mem (M : Machine) (G : Holding) (x : Z) : Z := mcov G (fa_frontier M.2) x.

(** Neither the window nor the totals move. *)
Definition same_map (M M' : Machine) : Prop :=
  fa_map M'.2 = fa_map M.2 ∧ fa_total M'.2 = fa_total M.2 ∧ fa_unreachable M'.2 = fa_unreachable M.2.

Lemma free_nonneg M G x : 0 ≤ free_mem M G x.
Proof.
  unfold free_mem, mcov. pose proof (fcov_nonneg (fa_frontier M.2) x).
  pose proof (zsum_nonneg (λ cpu, gcov (G cpu) x) (seq 0 MAX_CPUS) (λ c _, gcov_nonneg (G c) x)). lia.
Qed.

Lemma shard_at M G cpu : Machine_ok M G → (cpu < MAX_CPUS)%nat → ∃ s, fa_shards M.2 !! cpu = Some s.
Proof. intros H Hc. apply lookup_lt_is_Some_2. rewrite (mc_len _ _ H). done. Qed.

Lemma machine_pass m fa G cpu s :
  Machine_ok (m, fa) G → fa_shards fa !! cpu = Some s → Pass_ok (fa_map fa) m s (fa_frontier fa) (G cpu).
Proof.
  intros H Hs. split; [by apply (mc_shards _ _ H)|by apply (mc_frontier _ _ H)|].
  intros x. pose proof (lookup_lt_Some _ _ _ Hs) as Hc. pose proof (mc_len _ _ H) as Hl. cbn in Hl. rewrite Hl in Hc.
  pose proof (mcov_cpu (G) (fa_frontier fa) cpu x Hc). pose proof (mc_apart _ _ H x) as Ha. cbn in Ha. lia.
Qed.

(** What an operation of one core does to the machine: [d] left, [e] came. *)
Record moved (M : Machine) (G : Holding) (d e : Z → Z) (M' : Machine) (G' : Holding) : Prop := {
  mv_ok : Machine_ok M' G';
  mv_free : ∀ x, free_mem M' G' x + d x = free_mem M G x + e x;
  mv_frame : ∀ x, free_mem M G x + e x = 0 → M'.1 x = M.1 x;
  mv_map : same_map M M';
}.

Definition nothing : Z → Z := λ _, 0.

Lemma on_pass_spec {A} cpu (f : Window → sm Pass fault A) m fa G s r m' s' fr' g' d e :
  Machine_ok (m, fa) G → (cpu < MAX_CPUS)%nat → fa_shards fa !! cpu = Some s →
  f (fa_map fa) ((m, s), fa_frontier fa) = (r, ((m', s'), fr')) →
  Pass_ok (fa_map fa) m' s' fr' g' →
  (∀ x, pcov g' fr' x + d x = pcov (G cpu) (fa_frontier fa) x + e x) → (∀ x, 0 ≤ d x) → (∀ x, 0 ≤ e x) →
  (∀ x, mcov G (fa_frontier fa) x + e x ≤ 1) →
  (∀ x, pcov (G cpu) (fa_frontier fa) x + e x = 0 → m' x = m x) →
  ∃ fa', on_pass cpu f (m, fa) = (r, (m', fa')) ∧ moved (m, fa) G d e (m', fa') (holding_set cpu g' G) ∧
    fa_shards fa' = <[cpu := s']> (fa_shards fa) ∧ fa_frontier fa' = fr'.
Proof.
  intros H Hc Hs E [Hs' Hf' Hap'] Hmove Hd He Hle Hm. unfold on_pass. rewrite Hs, E.
  eexists. split; [done|]. split; [|done].
  assert (Hfree : ∀ x, mcov (holding_set cpu g' G) fr' x + d x = mcov G (fa_frontier fa) x + e x).
  { intros x. pose proof (mcov_set G (fa_frontier fa) fr' cpu g' x Hc). specialize (Hmove x). lia. }
  split; [|exact Hfree| |done].
  - destruct H as [H1 H2 H3 H4 H5]. cbn in *. split; cbn; [done|by rewrite length_insert| |done|].
    + intros c s1 Hs1. destruct (decide (c = cpu)) as [->|Hne].
      * rewrite list_lookup_insert_eq in Hs1 by (by rewrite H2). injection Hs1 as <-. by rewrite holding_set_eq.
      * rewrite list_lookup_insert_ne in Hs1 by done. rewrite holding_set_ne by done.
        specialize (H3 c s1 Hs1) as [Ho Hn]. split; [|done]. eapply holds_frame; [|exact Ho].
        intros x Hx. apply Hm. pose proof (lookup_lt_Some _ _ _ Hs1) as Hc1. rewrite H2 in Hc1.
        pose proof (mcov_two G (fa_frontier fa) c cpu x Hc1 Hc Hne). specialize (Hle x). specialize (He x).
        pose proof (gcov_nonneg (G c) x). pose proof (gcov_nonneg (G cpu) x). pose proof (fcov_nonneg (fa_frontier fa) x).
        unfold pcov in *. lia.
    + intros x. specialize (Hfree x). specialize (Hle x). specialize (Hd x). lia.
  - intros x Hx. cbn in *. apply Hm. unfold free_mem in Hx. cbn in Hx. pose proof (mcov_cpu G (fa_frontier fa) cpu x Hc).
    specialize (He x). pose proof (gcov_nonneg (G cpu) x). pose proof (fcov_nonneg (fa_frontier fa) x). unfold pcov. lia.
Qed.

Lemma moved_refl M G : Machine_ok M G → moved M G nothing nothing M G.
Proof. intros H. by split. Qed.

Lemma same_map_trans M1 M2 M3 : same_map M1 M2 → same_map M2 M3 → same_map M1 M3.
Proof. intros (A & B & C) (D & E & F). unfold same_map. by rewrite D, E, F. Qed.

(** Nothing came or went, then a block did. *)
Lemma moved_then M G M1 G1 d e M2 G2 :
  moved M G nothing nothing M1 G1 → moved M1 G1 d e M2 G2 → (∀ x, 0 ≤ e x) → moved M G d e M2 G2.
Proof.
  intros [A1 A2 A3 A4] [B1 B2 B3 B4] He. unfold nothing in *.
  assert (Hf : ∀ x, free_mem M1 G1 x = free_mem M G x) by (intros x; specialize (A2 x); lia). split; [done| | |].
  - intros x. by rewrite B2, Hf.
  - intros x Hx. pose proof (free_nonneg M G x). specialize (He x). rewrite B3 by (by rewrite Hf). apply A3. lia.
  - by eapply same_map_trans.
Qed.

(** ** The operations of one core *)
Section ops.
Implicit Types (M : Machine) (G : Holding).

(** An operation on the core's shard alone. *)
Lemma on_cpu_spec {A} cpu (f : Window → sm Core fault A) m fa G s r m' s' g' d e :
  Machine_ok (m, fa) G → (cpu < MAX_CPUS)%nat → fa_shards fa !! cpu = Some s →
  f (fa_map fa) (m, s) = (r, (m', s')) → Shard_ok (fa_map fa) m' s' g' →
  (∀ x, gcov g' x + d x = gcov (G cpu) x + e x) → (∀ x, 0 ≤ d x) → (∀ x, 0 ≤ e x) →
  (∀ x, mcov G (fa_frontier fa) x + e x ≤ 1) → (∀ x, gcov (G cpu) x + e x = 0 → m' x = m x) →
  ∃ fa', on_cpu cpu f (m, fa) = (r, (m', fa')) ∧ moved (m, fa) G d e (m', fa') (holding_set cpu g' G) ∧
    fa_shards fa' = <[cpu := s']> (fa_shards fa) ∧ fa_frontier fa' = fa_frontier fa.
Proof.
  intros H Hc Hs E Hs' Hmove Hd He Hle Hm.
  apply (on_pass_spec cpu (λ w, on_core (f w)) m fa G s r m' s' (fa_frontier fa) g' d e); try done.
  - unfold on_core. by rewrite E.
  - split; [done|apply (mc_frontier _ _ H)|]. intros x. specialize (Hmove x). specialize (Hd x). specialize (Hle x).
    pose proof (mcov_cpu G (fa_frontier fa) cpu x Hc). lia.
  - intros x. unfold pcov. specialize (Hmove x). lia.
  - intros x Hx. apply Hm. unfold pcov in Hx. pose proof (gcov_nonneg (G cpu) x). pose proof (fcov_nonneg (fa_frontier fa) x).
    specialize (He x). lia.
Qed.

Definition blk (o : Order) (b : Z) : Z → Z := bcov o b.

Lemma frame_free_spec cpu f M G :
  Machine_ok M G → (cpu < MAX_CPUS)%nat → (frame_order f < ORDERS)%nat → block_ok (fa_map M.2) (frame_order f) (frame_base f) →
  (∀ x, free_mem M G x + bcov (frame_order f) (frame_base f) x ≤ 1) →
  ∃ M' G', FrameAllocator_free cpu f M = (Ok tt, M') ∧ moved M G nothing (blk (frame_order f) (frame_base f)) M' G'.
Proof.
  destruct M as [m fa]. cbn. intros H Hc Ho Hb Hle. unfold FrameAllocator_free.
  rewrite (proj2 (Order_aligns_spec _ _) (bo_aligned _ _ _ Hb)). cbn [negb].
  destruct (shard_at _ _ cpu H Hc) as [s Hs]. cbn in Hs.
  destruct (give_spec (fa_map fa) (mc_window _ _ H) false (frame_order f) (frame_base f) m s (G cpu)) as (m' & s' & E & Hs' & Hm);
    [by apply (mc_shards _ _ H)|done|done|done| |].
  { intros x. specialize (Hle x). unfold free_mem in Hle. pose proof (mcov_cpu G (fa_frontier fa) cpu x Hc).
    pose proof (fcov_nonneg (fa_frontier fa) x). cbn in Hle. lia. }
  destruct (on_cpu_spec cpu (λ w, give w (frame_order f) false (frame_base f)) m fa G s (Ok tt) m' s' _ nothing
    (blk (frame_order f) (frame_base f)) H Hc Hs E Hs') as (fa' & E' & Hmv & _).
  { intros x. rewrite gcov_push by done. unfold nothing, blk. lia. }
  { done. } { intros x. apply bcov_range. } { exact Hle. }
  { intros x Hx. apply Hm. intros ->. unfold blk in Hx. rewrite bcov_start in Hx. pose proof (gcov_nonneg (G cpu) (frame_base f)). lia. }
  by exists (m', fa'), (holding_set cpu (held_set false (frame_order f) (frame_base f :: G cpu false (frame_order f)) (G cpu)) G).
Qed.

(** Every list of the core without two buddies. *)
Definition merged (G : Holding) (cpu : nat) : Prop := ∀ c o, (o < Order_MAX)%nat → no_pair (G cpu) c o.

Lemma coalesce_spec cpu budget M G :
  Machine_ok M G → (cpu < MAX_CPUS)%nat →
  ∃ n M' G', FrameAllocator_coalesce cpu budget M = (Ok n, M') ∧ moved M G nothing nothing M' G' ∧ 0 ≤ n < 2 ^ 58 ∧
    (∀ c x, kcov (G' cpu) c x = kcov (G cpu) c x) ∧ (n < budget → merged G' cpu) ∧
    fa_frontier M'.2 = fa_frontier M.2 ∧ ∀ c, c ≠ cpu → G' c = G c.
Proof.
  destruct M as [m fa]. intros H Hc. destruct (shard_at _ _ cpu H Hc) as [s Hs]. cbn in Hs.
  destruct (coalesce_shard_spec (fa_map fa) (mc_window _ _ H) budget m s (G cpu)) as (n & m' & s' & g' & E & Hs' & Hr & Hn & Hnp);
    [by apply (mc_shards _ _ H)|].
  destruct (on_cpu_spec cpu (λ w, coalesce_shard w budget) m fa G s (Ok n) m' s' g' nothing nothing H Hc Hs E Hs') as (fa' & E' & Hmv & _ & Hfr); try done.
  { intros x. unfold nothing. by rewrite (regrouped_gcov _ _ _ _ _ _ _ x Hr). }
  { intros x. unfold nothing. pose proof (mc_apart _ _ H x) as Ha. cbn in Ha. lia. }
  { intros x Hx. apply (rg_frame _ _ _ _ _ _ _ Hr). unfold nothing in Hx. lia. }
  exists n, (m', fa'), (holding_set cpu g' G). split_and!; [done|done|lia|lia| | |done|intros; by apply holding_set_ne].
  - intros c x. rewrite holding_set_eq. apply (rg_kcov _ _ _ _ _ _ _ Hr).
  - intros Hlt c o Ho. rewrite holding_set_eq. by apply Hnp.
Qed.
End ops.

Section ops.
Implicit Types (M : Machine) (G : Holding).

Lemma fa_with_same fa cpu s :
  fa_shards fa !! cpu = Some s → fa_with (<[cpu := s]> (fa_shards fa)) (fa_frontier fa) fa = fa.
Proof. intros H. unfold fa_with. rewrite list_insert_id by done. by destruct fa. Qed.

Lemma on_cpu_eval {A} cpu (f : Window → sm Core fault A) m fa s r m' s' :
  fa_shards fa !! cpu = Some s → f (fa_map fa) (m, s) = (r, (m', s')) →
  on_cpu cpu f (m, fa) = (r, (m', fa_with (<[cpu := s']> (fa_shards fa)) (fa_frontier fa) fa)).
Proof. intros Hs E. unfold on_cpu, on_pass, on_core. by rewrite Hs, E. Qed.

(** The core has no block of the order or above. *)
Definition has_none G (cpu : nat) (order : Order) : Prop := ∀ c o, (order ≤ o < ORDERS)%nat → G cpu c o = [].

(** ** One round *)
Definition answered (order : Order) M G (r : option (Z * bool)) M' G' : Prop :=
  match r with
  | Some (b, clean) => block_ok (fa_map M.2) order b ∧ (clean = true → zeroed M'.1 order b) ∧ moved M G (blk order b) nothing M' G'
  | None => moved M G nothing nothing M' G'
  end.

Lemma record_lists source stolen s c : Shard_lists (record source stolen s) c = Shard_lists s c.
Proof. by destruct stolen, source, c. Qed.
Lemma record_frames source stolen s c : Shard_frames (record source stolen s) c = Shard_frames s c.
Proof. by destruct stolen, source, c. Qed.

Lemma take_round_spec cpu order prefer_clean stolen M G :
  Machine_ok M G → (cpu < MAX_CPUS)%nat → (order < ORDERS)%nat →
  ∃ r M' G', take_round cpu order prefer_clean stolen M = (Ok r, M') ∧ answered order M G r M' G' ∧
    (r = None → M' = M ∧ G' = G ∧ has_none G cpu order ∧ ¬ serves (fa_frontier M.2) order).
Proof.
  destruct M as [m fa]. intros H Hc Ho. destruct (shard_at _ _ cpu H Hc) as [s Hs]. cbn in Hs.
  destruct (attempt_spec (fa_map fa) (mc_window _ _ H) order prefer_clean m s (fa_frontier fa) (G cpu)) as
    (hit & m' & s' & fr' & g' & E & Hp' & Hm & Hhit); [by eapply machine_pass|done|].
  destruct hit as [[[b source] clean]|]; cbn in Hhit.
  - destruct Hhit as (Hb & Hz & Hcov).
    set (f := λ w : Window, do! hit <- attempt w order prefer_clean;
      match hit with
      | Some (block, source, clean) => do! _ <- on_core (on_shard (record source stolen)); sm_ret (Some (block, clean))
      | None => sm_ret None
      end).
    assert (Ef : f (fa_map fa) ((m, s), fa_frontier fa) = (Ok (Some (b, clean)), ((m', record source stolen s'), fr'))).
    { unfold f, sm_bind. by rewrite E. }
    destruct (on_pass_spec cpu f m fa G s _ m' (record source stolen s') fr' g' (blk order b) nothing H Hc Hs Ef) as (fa' & E' & Hmv & _).
    { destruct Hp' as [[P1 P2] P3 P4]. split; [|done|done]. split.
      - eapply holds_counters; [|exact P1]. intros; apply record_lists.
      - intros c. rewrite record_frames. apply P2. }
    { intros x. unfold blk, nothing. rewrite Hcov. lia. }
    { intros x. apply bcov_range. } { done. }
    { intros x. unfold nothing. pose proof (mc_apart _ _ H x) as Ha. cbn in Ha. lia. }
    { intros x Hx. apply Hm. unfold nothing in Hx. lia. }
    exists (Some (b, clean)), (m', fa'), (holding_set cpu g' G). by split_and!.
  - destruct Hhit as (-> & -> & -> & -> & Hns & Hnil). exists None, (m, fa), G. split_and!; [|by apply moved_refl|done].
    unfold take_round, on_pass. rewrite Hs. unfold sm_bind. rewrite E. cbn. by rewrite fa_with_same.
Qed.

(** ** Stealing *)
Lemma steal_kinds_spec me cpu at_ kinds : ∀ M G,
  Machine_ok M G → (me < MAX_CPUS)%nat → (cpu < MAX_CPUS)%nat → me ≠ cpu → (at_ < ORDERS)%nat →
  (steal_kinds me cpu at_ kinds M = (Ok false, M) ∧ ∀ c, c ∈ kinds → G cpu c at_ = []) ∨
  ∃ M' G', steal_kinds me cpu at_ kinds M = (Ok true, M') ∧ moved M G nothing nothing M' G' ∧ ∃ c, G' me c at_ ≠ [].
Proof.
  induction kinds as [|c kinds IH]; intros [m fa] G H Hme Hc Hne Ho; cbn [steal_kinds].
  { left. split; [done|]. by intros c ?%elem_of_nil. }
  destruct (shard_at _ _ cpu H Hc) as [s Hs]. cbn in Hs. pose proof (mc_window _ _ H) as Hw. cbn in Hw.
  pose proof (mc_shards _ _ H cpu s Hs) as [Hsh Hsc]. cbn in Hsh, Hsc.
  destruct (list_pop_spec (fa_map fa) Hw c at_ m s (G cpu) Hsh Ho) as [[E Hg]|(b & l & s1 & E & Hg & Hs1 & Hf & Hb & Hz)].
  - unfold sm_bind. rewrite (on_cpu_eval cpu (λ w, list_pop w c at_) m fa s _ m s Hs E), fa_with_same by done.
    destruct (IH (m, fa) G H Hme Hc Hne Ho) as [[E' Hn]|Hr]; [left|by right].
    split; [done|]. intros c' [->|Hin]%elem_of_cons; [done|by apply Hn].
  - right. set (s2 := sh_with_frames c (saturating_sub (Shard_frames s1 c) (Order_frames at_)) s1).
    set (fa1 := fa_with (<[cpu := s1]> (fa_shards fa)) (fa_frontier fa) fa).
    assert (Hs1' : fa_shards fa1 !! cpu = Some s1) by (apply list_lookup_insert_eq; by eapply lookup_lt_Some).
    assert (Hcov : ∀ x, gcov (held_set c at_ l (G cpu)) x + bcov at_ b x = gcov (G cpu) x) by (intros x; by apply gcov_pop).
    destruct (on_cpu_spec cpu (λ _ _, (Ok tt, (m, s2))) m fa G s (Ok tt) m s2 (held_set c at_ l (G cpu)) (blk at_ b) nothing H Hc Hs eq_refl)
      as (fa2 & E2 & Hmv2 & _ & Hfr2).
    { split; [eapply holds_counters; [|exact Hs1]; intros c'; apply lists_with_frames|].
      apply (counts_loss (fa_map fa) Hw s _ (G cpu) _ c at_ b); [done|apply Hsh|done|by intros; apply kcov_pop|].
      intros c'. unfold s2. rewrite frames_with_frames, !Hf. destruct (eqb c c') eqn:Ec; [|done]. by apply eqb_prop in Ec as <-. }
    { intros x. unfold blk, nothing. rewrite Hcov. lia. } { intros; apply bcov_range. } { done. }
    { intros x. unfold nothing. pose proof (mc_apart _ _ H x) as Ha. cbn in Ha. lia. } { done. }
    rewrite (on_cpu_eval cpu _ m fa s _ m s2 Hs eq_refl) in E2. injection E2 as E2.
    set (G2 := holding_set cpu (held_set c at_ l (G cpu)) G) in *. pose proof (mv_ok _ _ _ _ _ _ Hmv2) as H2.
    destruct (shard_at _ _ me H2 Hme) as [s3 Hs3]. cbn in Hs3.
    assert (Hmap : fa_map fa2 = fa_map fa) by (by rewrite <- E2).
    assert (Hroom : ∀ x, mcov G2 (fa_frontier fa2) x + bcov at_ b x ≤ 1).
    { intros x. pose proof (mv_free _ _ _ _ _ _ Hmv2 x) as Hx. unfold free_mem, blk, nothing in Hx. cbn in Hx.
      pose proof (mc_apart _ _ H x) as Ha. cbn in Ha. lia. }
    destruct (give_spec (fa_map fa) Hw c at_ b m s3 (G2 me)) as (m4 & s4 & E4 & Hs4 & Hm4).
    { rewrite <- Hmap. by apply (mc_shards _ _ H2). } { done. } { done. } { done. }
    { intros x. specialize (Hroom x). pose proof (mcov_cpu G2 (fa_frontier fa2) me x Hme).
      pose proof (fcov_nonneg (fa_frontier fa2) x). lia. }
    destruct (on_cpu_spec me (λ w, give w at_ c b) m fa2 G2 s3 (Ok tt) m4 s4 (held_set c at_ (b :: G2 me c at_) (G2 me)) nothing (blk at_ b) H2 Hme Hs3) as (fa4 & E5 & Hmv4 & _).
    { by rewrite Hmap. } { by rewrite Hmap. }
    { intros x. rewrite gcov_push by done. unfold nothing, blk. lia. } { done. } { intros; apply bcov_range. } { exact Hroom. }
    { intros x Hx. apply Hm4. intros ->. unfold blk in Hx. rewrite bcov_start in Hx. pose proof (gcov_nonneg (G2 me) b). lia. }
    exists (m4, fa4), (holding_set me (held_set c at_ (b :: G2 me c at_) (G2 me)) G2). split_and!.
    + unfold sm_bind. rewrite (on_cpu_eval cpu (λ w, list_pop w c at_) m fa s _ m s1 Hs E). fold fa1.
      rewrite (on_cpu_eval cpu _ m fa1 s1 (Ok tt) m s2 Hs1') by done.
      replace (fa_with (<[cpu := s2]> (fa_shards fa1)) (fa_frontier fa1) fa1) with fa2; [by rewrite E5|].
      rewrite <- E2. unfold fa1, fa_with. cbn. by rewrite list_insert_insert_eq.
    + split; [apply Hmv4| | |].
      * intros x. pose proof (mv_free _ _ _ _ _ _ Hmv2 x). pose proof (mv_free _ _ _ _ _ _ Hmv4 x). unfold nothing in *. lia.
      * intros x Hx. pose proof (mv_free _ _ _ _ _ _ Hmv2 x) as Hx2. unfold nothing in *. rewrite (mv_frame _ _ _ _ _ _ Hmv4).
        -- apply (mv_frame _ _ _ _ _ _ Hmv2). unfold nothing. lia.
        -- lia.
      * eapply same_map_trans; [apply Hmv2|apply Hmv4].
    + exists c. by rewrite holding_set_eq, held_set_eq.
Qed.

Lemma steal_cpus_spec me at_ cpus : ∀ M G,
  Machine_ok M G → (me < MAX_CPUS)%nat → (∀ c, c ∈ cpus → (c < MAX_CPUS)%nat) → (at_ < ORDERS)%nat →
  (steal_cpus me at_ cpus M = (Ok false, M) ∧ ∀ cpu c, cpu ∈ cpus → cpu ≠ me → G cpu c at_ = []) ∨
  ∃ M' G', steal_cpus me at_ cpus M = (Ok true, M') ∧ moved M G nothing nothing M' G' ∧ ∃ c, G' me c at_ ≠ [].
Proof.
  induction cpus as [|cpu cpus IH]; intros M G H Hme Hc Ho; cbn [steal_cpus].
  { left. split; [done|]. by intros cpu c ?%elem_of_nil. }
  specialize (IH M G H Hme (λ c Hin, Hc c (list_elem_of_further _ _ _ Hin)) Ho). case_bool_decide as Heq.
  - destruct IH as [[E Hn]|Hr]; [left|by right]. split; [done|]. intros c k [->|Hin]%elem_of_cons Hne; [done|by apply Hn].
  - unfold sm_bind. destruct (steal_kinds_spec me cpu at_ [false; true] M G H Hme (Hc cpu (list_elem_of_here _ _)) ltac:(done) Ho)
      as [[E Hn]|(M' & G' & E & Hmv)]; rewrite E; [|right; by exists M', G'].
    destruct IH as [[E' Hn']|Hr]; [left|by right]. split; [done|].
    intros c k [->|Hin]%elem_of_cons Hne; [|by apply Hn']. apply Hn. destruct k; set_solver.
Qed.

Lemma steal_orders_spec n me : ∀ at_ M G,
  Machine_ok M G → (me < MAX_CPUS)%nat → (at_ < ORDERS)%nat → (ORDERS ≤ n + at_)%nat →
  (steal_orders n me at_ M = (Ok false, M) ∧ ∀ cpu, (cpu < MAX_CPUS)%nat → cpu ≠ me → has_none G cpu at_) ∨
  ∃ M' G', steal_orders n me at_ M = (Ok true, M') ∧ moved M G nothing nothing M' G' ∧
    ∃ c o, (at_ ≤ o < ORDERS)%nat ∧ G' me c o ≠ [].
Proof.
  induction n as [|n IH]; intros at_ M G H Hme Ho Hn; [lia|]. cbn [steal_orders]. unfold sm_bind.
  destruct (steal_cpus_spec me at_ (seq 0 MAX_CPUS) M G H Hme) as [[E Hnone]|(M' & G' & E & Hmv & c & Hne)]; [|done| |]; rewrite ?E.
  { intros c Hc%elem_of_seq. lia. }
  2:{ right. exists M', G'. split_and!; [done|done|]. exists c, at_. split; [lia|done]. }
  assert (Hat : ∀ cpu c, (cpu < MAX_CPUS)%nat → cpu ≠ me → G cpu c at_ = []).
  { intros cpu c Hc. apply Hnone. apply elem_of_seq. lia. }
  unfold Order_up. destruct (Nat.ltb_spec at_ Order_MAX).
  - destruct (IH (S at_) M G H Hme) as [[E' Hn']|(M' & G' & E' & Hmv & c & o & Hlt & Hne)];
      [unfold Order_MAX, ORDERS in *; lia|lia| |].
    + left. split; [done|]. intros cpu Hc Hne c o Hlt. destruct (decide (o = at_)) as [->|]; [by apply Hat|].
      apply (Hn' cpu Hc Hne). lia.
    + right. exists M', G'. split_and!; [done|done|]. exists c, o. split; [lia|done].
  - left. split; [done|]. intros cpu Hc Hne c o Hlt. assert (o = at_) as -> by (unfold Order_MAX, ORDERS in *; lia). by apply Hat.
Qed.

(** ** Taking a block *)

(** Nothing more can be done for the core: its own lists are merged and have no
    block that large, no run of the frontier has one, and no other core. *)
Record exhausted M G (cpu : nat) (order : Order) : Prop := {
  xh_own : has_none G cpu order;
  xh_merged : merged G cpu;
  xh_frontier : ¬ serves (fa_frontier M.2) order;
  xh_others : ∀ c, (c < MAX_CPUS)%nat → c ≠ cpu → has_none G c order;
}.

Lemma answered_then order M G M1 G1 r M2 G2 :
  moved M G nothing nothing M1 G1 → answered order M1 G1 r M2 G2 → answered order M G r M2 G2.
Proof.
  intros H1 H2. destruct r as [[b clean]|]; cbn in *.
  - destruct H2 as (Hb & Hz & Hmv). destruct (mv_map _ _ _ _ _ _ H1) as (E & _). rewrite E in Hb.
    split_and!; [done|done|]. by eapply moved_then.
  - by eapply moved_then.
Qed.

Lemma or_else_id {S A : Type} (f k : sm S fault (option A)) st r st' :
  f st = (Ok r, st') → or_else f id k st = match r with Some a => (Ok (Some a), st') | None => k st' end.
Proof. intros E. unfold or_else, sm_bind. rewrite E. by destruct r. Qed.

Lemma allocator_take_spec cpu order prefer_clean M G :
  Machine_ok M G → (cpu < MAX_CPUS)%nat → (order < ORDERS)%nat →
  ∃ r M' G', FrameAllocator_take cpu order prefer_clean M = (Ok r, M') ∧ answered order M G r M' G' ∧
    (r = None → exhausted M' G' cpu order).
Proof.
  intros H Hc Ho. unfold FrameAllocator_take.
  destruct (take_round_spec cpu order prefer_clean false M G H Hc Ho) as (r & M1 & G1 & E & Ha & Hn).
  rewrite (or_else_id _ _ _ _ _ E). destruct r as [hit|]; [by exists (Some hit), M1, G1|].
  destruct (Hn eq_refl) as (-> & -> & _ & _). clear E Ha Hn.
  destruct (coalesce_spec cpu u64_max M G H Hc) as (n & M1 & G1 & E1 & Hmv1 & Hn & Hk & Hmg & Hfr & Hoth).
  unfold FrameAllocator_coalesce in E1. specialize (Hmg ltac:(unfold u64_max; lia)). pose proof (mv_ok _ _ _ _ _ _ Hmv1) as H1.
  destruct (take_round_spec cpu order prefer_clean false M1 G1 H1 Hc Ho) as (r & M2 & G2 & E2 & Ha2 & Hn2).
  erewrite or_else_id; [|unfold sm_bind; rewrite E1; exact E2].
  destruct r as [hit|]; [exists (Some hit), M2, G2; split_and!; [done|by eapply answered_then|done]|].
  destruct (Hn2 eq_refl) as (-> & -> & Hnone & Hns). clear E2 Ha2 Hn2.
  destruct (steal_orders_spec ORDERS cpu order M1 G1 H1 Hc Ho) as [[E3 Hothers]|(M3 & G3 & E3 & Hmv3 & c & o & Hlt & Hne)]; [lia| |].
  - erewrite or_else_id; [|unfold sm_bind, steal; rewrite E3; done].
    exists None, M1, G1. split_and!; [done|done|]. intros _. by split.
  - pose proof (mv_ok _ _ _ _ _ _ Hmv3) as H3.
    destruct (take_round_spec cpu order prefer_clean true M3 G3 H3 Hc Ho) as (r & M4 & G4 & E4 & Ha4 & Hn4).
    erewrite or_else_id; [|unfold sm_bind, steal; rewrite E3; exact E4].
    destruct r as [hit|].
    + exists (Some hit), M4, G4. split_and!; [done| |done]. eapply answered_then; [|exact Ha4]. by eapply moved_then.
    + destruct (Hn4 eq_refl) as (_ & _ & Hnone3 & _). by destruct (Hne (Hnone3 c o Hlt)).
Qed.

(** Every word of the block. *)
Definition blank (m : Mem) (o : Order) (b : Z) : Prop := ∀ x, b ≤ x < b + Order_bytes o → m x = 0.

Lemma alloc_spec cpu order M G :
  Machine_ok M G → (cpu < MAX_CPUS)%nat → (order < ORDERS)%nat →
  ∃ r M' G', FrameAllocator_alloc cpu order M = (Ok r, M') ∧
    match r with
    | Some f => frame_order f = order ∧ block_ok (fa_map M.2) order (frame_base f) ∧ moved M G (blk order (frame_base f)) nothing M' G'
    | None => moved M G nothing nothing M' G' ∧ exhausted M' G' cpu order
    end.
Proof.
  intros H Hc Ho. destruct (allocator_take_spec cpu order false M G H Hc Ho) as (r & M' & G' & E & Ha & Hn). unfold FrameAllocator_alloc.
  destruct r as [[b clean]|].
  - rewrite (or_else_some _ _ _ _ _ _ E). exists (Some (mkFrame b order)), M', G'. destruct Ha as (Hb & _ & Hmv). done.
  - rewrite (or_else_none _ _ _ _ _ E). exists None, M', G'. split; [done|]. by split; [|apply Hn].
Qed.

(** A write inside a block that is not free leaves the free memory alone. *)
Lemma machine_write m m' fa G :
  Machine_ok (m, fa) G → (∀ x, free_mem (m, fa) G x ≠ 0 → m' x = m x) → Machine_ok (m', fa) G.
Proof.
  intros [H1 H2 H3 H4 H5] Hm. cbn in *. split; cbn; [done|done| |done|done]. intros c s Hs. destruct (H3 c s Hs) as [Ho Hn].
  split; [|done]. eapply holds_frame; [|exact Ho]. intros x Hx. apply Hm. unfold free_mem. cbn.
  pose proof (lookup_lt_Some _ _ _ Hs) as Hc. rewrite H2 in Hc. pose proof (mcov_cpu G (fa_frontier fa) c x Hc).
  pose proof (gcov_nonneg (G c) x). pose proof (fcov_nonneg (fa_frontier fa) x). lia.
Qed.

Lemma zero_eq w m b o : reached w b → zero w b o m = (Ok tt, λ a, if (b <=? a) && (a <? b + Order_bytes o) then 0 else m a).
Proof. intros Hb. unfold zero. unfold sm_bind at 1, sm_lift. by rewrite virt_reached. Qed.

Lemma alloc_zeroed_spec cpu order M G :
  Machine_ok M G → (cpu < MAX_CPUS)%nat → (order < ORDERS)%nat →
  ∃ r M' G', FrameAllocator_alloc_zeroed cpu order M = (Ok r, M') ∧
    match r with
    | Some f => frame_order f = order ∧ block_ok (fa_map M.2) order (frame_base f) ∧ blank M'.1 order (frame_base f) ∧
        moved M G (blk order (frame_base f)) nothing M' G'
    | None => moved M G nothing nothing M' G' ∧ exhausted M' G' cpu order
    end.
Proof.
  intros H Hc Ho. destruct (allocator_take_spec cpu order true M G H Hc Ho) as (r & [m1 fa1] & G' & E & Ha & Hn).
  unfold FrameAllocator_alloc_zeroed, sm_bind. rewrite E. destruct r as [[b clean]|].
  2:{ exists None, (m1, fa1), G'. split; [done|]. by split; [|apply Hn]. }
  destruct Ha as (Hb & Hz & Hmv). pose proof (mv_ok _ _ _ _ _ _ Hmv) as H1.
  destruct (mv_map _ _ _ _ _ _ Hmv) as (Emap & Et & Eu). cbn in Emap, Et, Eu.
  assert (Hr : reached (fa_map fa1) b).
  { rewrite Emap. apply (block_reached _ (mc_window _ _ H) order b Hb). }
  set (m2 := if clean then write_word b 0 m1 else (λ a, if (b <=? a) && (a <? b + Order_bytes order) then 0 else m1 a)).
  assert (Hw : on_window (λ w, if clean : bool then clear_link w b else zero w b order) (m1, fa1) = (Ok tt, (m2, fa1))).
  { unfold on_window, m2. destruct clean; [by rewrite clear_link_eq|by rewrite zero_eq]. }
  assert (Hin : ∀ x, m2 x ≠ m1 x → b ≤ x < b + Order_bytes order).
  { intros x Hx. unfold m2, write_word in Hx. pose proof (Order_bytes_pos order). unfold FRAME_SIZE in *.
    destruct clean; [destruct (Z.eqb_spec x b); [lia|done]|].
    destruct (Z.leb_spec b x), (Z.ltb_spec x (b + Order_bytes order)); cbn in Hx; done || lia. }
  assert (Hout : ∀ x, ¬ b ≤ x < b + Order_bytes order → m2 x = m1 x).
  { intros x Hx. destruct (decide (m2 x = m1 x)) as [|Hne]; [done|]. by destruct (Hx (Hin x Hne)). }
  assert (Hfree : ∀ x, b ≤ x < b + Order_bytes order → free_mem (m1, fa1) G' x = 0 ∧ free_mem M G x = 1).
  { intros x Hx%bcov_in. pose proof (mv_free _ _ _ _ _ _ Hmv x) as Hf. unfold blk, nothing in Hf.
    pose proof (free_nonneg (m1, fa1) G' x). pose proof (mc_apart _ _ H x) as Ha. unfold free_mem in *. lia. }
  rewrite Hw. exists (Some (mkFrame b order)), (m2, fa1), G'. split; [done|]. cbn. split_and!; [done|done| |].
  - intros x Hx. unfold m2. destruct clean.
    + unfold write_word. destruct (Z.eqb_spec x b); [done|]. apply (Hz eq_refl). lia.
    + rewrite (proj2 (Z.leb_le b x)), (proj2 (Z.ltb_lt x _)) by lia. done.
  - split.
    + eapply machine_write; [exact H1|]. intros x Hx. apply Hout. intros Hx2. destruct (Hfree x Hx2). done.
    + exact (mv_free _ _ _ _ _ _ Hmv).
    + intros x Hx. cbn. rewrite Hout; [apply (mv_frame _ _ _ _ _ _ Hmv x Hx)|].
      intros Hx2. destruct (Hfree x Hx2) as [_ H01]. unfold nothing in Hx. lia.
    + done.
Qed.
End ops.

(** * Zeroing what is dirty *)

Lemma scrub_order_spec n : ∀ want left_,
  Order_frames want ≤ left_ → (want < ORDERS)%nat →
  Order_frames (scrub_order n want left_) ≤ left_ ∧ (scrub_order n want left_ < ORDERS)%nat.
Proof.
  induction n as [|n IH]; intros want left_ Hl Ho; cbn [scrub_order]; [done|].
  unfold Order_up. destruct (Nat.ltb_spec want Order_MAX); [|done].
  destruct (Z.leb_spec (Order_frames (S want)) left_); [|done]. apply IH; [done|unfold Order_MAX, ORDERS in *; lia].
Qed.

Section scrub.
Context (w : Window) (Hw : Window_ok w).
Implicit Types (m : Mem) (s : Shard) (g : Held) (fr : Frontier).

Lemma scrub_pop_spec want : ∀ m s g,
  Shard_ok w m s g → (want < ORDERS)%nat →
  (scrub_pop w want (m, s) = (Ok None, (m, s)) ∧ ∀ o, (o < ORDERS)%nat → g false o = []) ∨
  ∃ b o m' s' g', scrub_pop w want (m, s) = (Ok (Some (b, o)), (m', s')) ∧ (o ≤ want)%nat ∧ Shard_ok w m' s' g' ∧
    popped w false o m s g (Some b) m' s' g'.
Proof.
  induction want as [|down IH]; intros m s g Hs Ho; cbn [scrub_pop].
  all: destruct (pop_split_spec w Hw false _ m s g Hs Ho) as (r & m' & s' & g' & E & Hs' & Hr).
  all: destruct r as [b|]; [right|].
  1: exists b, 0%nat, m', s', g'; split_and!; [by rewrite (or_else_some _ _ _ _ _ _ E)|lia|done|done].
  2: exists b, (S down), m', s', g'; split_and!; [by rewrite (or_else_some _ _ _ _ _ _ E)|lia|done|done].
  - destruct Hr as (-> & -> & -> & Hn). left. rewrite (or_else_none _ _ _ _ _ E). split; [done|]. intros o Hlt. apply Hn. lia.
  - destruct Hr as (-> & -> & -> & Hn). rewrite (or_else_none _ _ _ _ _ E).
    destruct (IH m s g Hs ltac:(lia)) as [Hl|(b & o & m' & s' & g' & E' & Hle & H')]; [by left|right].
    exists b, o, m', s', g'. split_and!; [done|lia|apply H'..].
Qed.

Lemma frames_mass s g c : Counts_ok s g → 0 ≤ Shard_frames s c ∧ mass (2 ^ 64) (kcov g c) = Shard_frames s c * FRAME_SIZE.
Proof.
  intros H. specialize (H c). pose proof (mass_nonneg (2 ^ 64) (kcov g c) (kcov_nonneg g c)). unfold FRAME_SIZE in *. lia.
Qed.

(** What there is to do: a frame of the frontier is moved and then zeroed. *)
Definition todo (x : Z * (Core * Frontier)) : Z :=
  2 * fr_frames x.2.2 + sh_dirty_frames x.2.1.2.

Record scrubbing budget m0 fr0 g0 (n : Z) m s fr g : Prop := {
  sb_pass : Pass_ok w m s fr g;
  sb_cov : ∀ x, pcov g fr x = pcov g0 fr0 x;
  sb_frame : ∀ x, pcov g0 fr0 x = 0 → m x = m0 x;
  sb_done : mass (2 ^ 64) (kcov g true) = mass (2 ^ 64) (kcov g0 true) + n * FRAME_SIZE;
  sb_range : 0 ≤ n ≤ budget;
}.

(** One block of dirty memory is zeroed and given to the clean lists. *)
Lemma scrub_block b o m1 s1 g1 fr :
  Pass_ok w m1 s1 fr g1 → (o < ORDERS)%nat → block_ok w o b → (∀ x, pcov g1 fr x + bcov o b x ≤ 1) →
  ∃ m2 s2 g2, (∀ A (k : sm Pass fault A), (do! _ <- on_core (on_mem (zero w b o)); do! _ <- on_core (give w o true b); k) ((m1, s1), fr) = k ((m2, s2), fr)) ∧
    Pass_ok w m2 s2 fr g2 ∧ (∀ x, pcov g2 fr x = pcov g1 fr x + bcov o b x) ∧
    (∀ c x, kcov g2 c x = kcov g1 c x + kind true c (bcov o b x)) ∧ (∀ x, bcov o b x = 0 → m2 x = m1 x).
Proof.
  intros [Hs Hf Hap] Ho Hb Hle. set (m1' := λ a, if (b <=? a) && (a <? b + Order_bytes o) then 0 else m1 a).
  assert (Hin : ∀ x, b ≤ x < b + Order_bytes o → m1' x = 0).
  { intros x Hx. unfold m1'. by rewrite (proj2 (Z.leb_le b x)), (proj2 (Z.ltb_lt x _)) by lia. }
  assert (Hout : ∀ x, bcov o b x = 0 → m1' x = m1 x).
  { intros x Hx%bcov_out. unfold m1'. destruct (Z.leb_spec b x), (Z.ltb_spec x (b + Order_bytes o)); cbn; done || lia. }
  assert (Hs1 : Shard_ok w m1' s1 g1).
  { destruct Hs as [H1 H2]. split; [|done]. eapply holds_frame; [|exact H1]. intros x Hx. apply Hout.
    specialize (Hle x). unfold pcov in Hle. pose proof (bcov_range o b x). pose proof (gcov_nonneg g1 x). pose proof (fcov_nonneg fr x). lia. }
  destruct (give_spec w Hw true o b m1' s1 g1 Hs1 Ho Hb) as (m2 & s2 & E & Hs2 & Hm2).
  { intros _ x Hx. apply Hin. lia. }
  { intros x. specialize (Hle x). unfold pcov in Hle. pose proof (fcov_nonneg fr x). lia. }
  assert (Hg : ∀ x, pcov (held_set true o (b :: g1 true o) g1) fr x = pcov g1 fr x + bcov o b x).
  { intros x. unfold pcov. rewrite gcov_push by done. lia. }
  exists m2, s2, (held_set true o (b :: g1 true o) g1). split_and!.
  - intros A k. unfold sm_bind, on_core, on_mem. rewrite zero_eq by (by eapply block_reached). fold m1'. by rewrite E.
  - split; [done|done|]. intros x. specialize (Hg x). unfold pcov in Hg. rewrite Hg. apply Hle.
  - done.
  - intros c x. by apply kcov_push.
  - intros x Hx. rewrite Hm2; [by apply Hout|]. intros ->. rewrite bcov_start in Hx. lia.
Qed.

(** What is left when the loop ends early. *)
Definition all_clean g fr : Prop := (∀ o, (o < ORDERS)%nat → g false o = []) ∧ ¬ serves fr Order_FRAME.

Lemma scrub_turn budget m0 fr0 g0 n m s fr g :
  budget ≤ u64_max → scrubbing budget m0 fr0 g0 n m s fr g →
  let x := (n, ((m, s), fr)) in
  0 ≤ todo x ∧
  ((∃ n' m' s' fr' g', loop_body (scrub_step w budget) x = inl (n', ((m', s'), fr')) ∧
      scrubbing budget m0 fr0 g0 n' m' s' fr' g' ∧ todo (n', ((m', s'), fr')) < todo x) ∨
   loop_body (scrub_step w budget) x = inr (Ok n, ((m, s), fr)) ∧ (n < budget → all_clean g fr)).
Proof.
  intros Hmax [Hp Hc Hm Hd Hr]. cbv zeta. pose proof Hp as [[Hsh Hsc] Hf Hap].
  destruct (frames_mass s g false Hsc) as [Hd0 Hdm]. cbn in Hd0, Hdm.
  pose proof (mass_nonneg (2 ^ 64) (fcov fr) (fcov_nonneg fr)) as Hf0. pose proof (fo_frames _ _ Hf) as Hfm.
  assert (Hff : 0 ≤ fr_frames fr) by (unfold FRAME_SIZE in *; lia).
  split; [unfold todo; cbn; lia|]. unfold loop_body.
  destruct (scrub_step w budget n ((m, s), fr)) as [r0 c0] eqn:Es. unfold scrub_step in Es.
  destruct (Z.leb_spec budget n) as [Hle|Hlt]; [injection Es as <- <-; right; split; [done|lia]|].
  destruct (scrub_order_spec ORDERS Order_FRAME (budget - n)) as [Hfr Ho]; [unfold Order_FRAME; rewrite Order_frames_eq; cbn; lia|unfold Order_FRAME, ORDERS; lia|].
  set (want := scrub_order ORDERS Order_FRAME (budget - n)) in *.
  destruct (scrub_pop_spec want m s g (ps_shard _ _ _ _ _ Hp) Ho) as [[E Hn]|(b & o & m1 & s1 & g1 & E & Hle & Hs1 & Hb & _ & Hk & Hm1)];
    unfold sm_bind at 1, on_core at 1 in Es; rewrite E in Es; cbv beta iota in Es.
  - destruct (refill_spec w Hw Order_FRAME m s fr g Hp) as (r & m1 & s1 & fr1 & g1 & E1 & Hp1 & Hc1 & Hk1 & Hm1 & Hr1); [unfold Order_FRAME, ORDERS; lia|].
    unfold sm_bind in Es. match type of E1 with ?l = _ => match type of Es with context [refill ?a ?b ?c] => change (refill a b c) with l in Es end end.
    rewrite E1 in Es. destruct r; injection Es as <- <-.
    + left. exists n, m1, s1, fr1, g1. split; [done|]. split.
      * split; [done| | | |done].
        -- intros x. by rewrite Hc1.
        -- intros x Hx. rewrite Hm1 by (by rewrite Hc). by apply Hm.
        -- rewrite <- Hd. apply mass_ext. intros x _. apply Hk1.
      * pose proof Hp1 as [[Hsh1 Hsc1] Hf1 Hap1]. destruct Hr1 as (o & Hlo & Hne).
        destruct (frames_mass s1 g1 false Hsc1) as [_ Hdm1]. cbn in Hdm1. pose proof (fo_frames _ _ Hf1) as Hfm1.
        (* the dirty lists have gained what the frontier lost *)
        assert (Hsum : mass (2 ^ 64) (kcov g1 false) + mass (2 ^ 64) (fcov fr1) = mass (2 ^ 64) (kcov g false) + mass (2 ^ 64) (fcov fr)).
        { rewrite <- !mass_add. apply mass_ext. intros x _. specialize (Hc1 x). unfold pcov, gcov in Hc1. rewrite Hk1 in Hc1. lia. }
        assert (Hz : mass (2 ^ 64) (kcov g false) = 0).
        { apply mass_zero. intros x. unfold kcov. rewrite (zsum_ext _ (λ _, 0)); [apply zsum_zero|].
          intros o' Ho'%elem_of_seq. by rewrite Hn by lia. }
        assert (Hpos : FRAME_SIZE ≤ mass (2 ^ 64) (kcov g1 false)).
        { destruct (g1 false o) as [|b l] eqn:Eg; [exfalso; exact (Hne eq_refl)|]. assert (Hin : b ∈ g1 false o) by (rewrite Eg; apply list_elem_of_here).
          transitivity (Order_bytes o); [apply Order_bytes_pos|]. rewrite <- (mass_bcov w Hw o b) by (eapply (sd_blocks _ _ _ _ Hsh1); [|done]; lia).
          apply mass_le. intros x. apply kcov_elem; [lia|done]. }
        unfold todo. cbn. unfold FRAME_SIZE in *. lia.
    + right. destruct Hr1 as (-> & -> & -> & -> & Hns). split; [done|]. intros _. by split.
  - left. assert (Hg1 : ∀ x, gcov g1 x + bcov o b x = gcov g x).
    { intros x. unfold gcov. rewrite <- !Hk. unfold kind. cbn. lia. }
    assert (Hov : (o < ORDERS)%nat) by lia.
    assert (Hp1 : Pass_ok w m1 s1 fr g1).
    { split; [done|done|]. intros x. specialize (Hap x). rewrite <- Hg1 in Hap. pose proof (bcov_range o b x). lia. }
    destruct (scrub_block b o m1 s1 g1 fr Hp1 Hov Hb) as (m2 & s2 & g2 & E2 & Hp2 & Hc2 & Hk2 & Hm2).
    { intros x. unfold pcov. specialize (Hap x). rewrite <- Hg1 in Hap. lia. }
    assert (Hof : Order_frames o ≤ budget - n).
    { etransitivity; [|exact Hfr]. rewrite !Order_frames_eq. apply Z.pow_le_mono_r; lia. }
    pose proof (Order_frames_pos o) as Hop. apply (eq_trans (eq_sym (E2 _ _))) in Es.
    injection Es as <- <-.
    assert (Hsat : saturating_add 64 n (Order_frames o) = n + Order_frames o) by (unfold saturating_add, u64_max in *; lia).
    rewrite Hsat. exists (n + Order_frames o), m2, s2, fr, g2. split; [done|]. split; [split; [done| | | |lia]|].
    + intros x. rewrite Hc2, <- Hc. unfold pcov. rewrite <- Hg1. lia.
    + intros x Hx. rewrite <- Hc in Hx. unfold pcov in Hx. rewrite <- Hg1 in Hx.
      pose proof (gcov_nonneg g1 x). pose proof (fcov_nonneg fr x). pose proof (bcov_range o b x).
      rewrite Hm2, Hm1 by (rewrite <- ?Hg1; lia). apply Hm. rewrite <- Hc. unfold pcov. rewrite <- Hg1. lia.
    + rewrite (mass_ext _ _ _ (λ x _, Hk2 true x)), mass_add, (mass_ext _ (λ x, kind true true (bcov o b x)) (bcov o b)), (mass_bcov w Hw o b Hb) by done.
      rewrite Z.mul_add_distr_r, Z.add_assoc, <- Hd, Order_bytes_frames. rewrite (mass_ext _ (kcov g true) (kcov g1 true)); [lia|].
      intros x _. rewrite <- Hk. unfold kind. cbn. lia.
    + pose proof Hp2 as [[Hsh2 Hsc2] Hf2 Hap2]. destruct (frames_mass s2 g2 false Hsc2) as [_ Hdm2]. cbn in Hdm2.
      assert (Hlose : mass (2 ^ 64) (kcov g2 false) + Order_bytes o = mass (2 ^ 64) (kcov g false)).
      { rewrite <- (mass_bcov w Hw o b Hb), <- mass_add. apply mass_ext. intros x _. rewrite Hk2, <- Hk. unfold kind. cbn. lia. }
      pose proof (Order_bytes_pos o). unfold todo. cbn. unfold FRAME_SIZE in *. lia.
Qed.

Lemma todo_few m s fr g n : Pass_ok w m s fr g → todo (n, ((m, s), fr)) < 2 ^ 64.
Proof.
  intros [[Hsh Hsc] Hf Hap]. destruct (frames_mass s g false Hsc) as [_ Hdm]. cbn in Hdm. pose proof (fo_frames _ _ Hf) as Hfm.
  assert (H1 : mass (2 ^ 64) (kcov g false) ≤ 2 ^ 64).
  { apply mass_at_most; [lia|]. intros x. specialize (Hap x). pose proof (kcov_gcov g false x). pose proof (fcov_nonneg fr x). lia. }
  assert (H2 : mass (2 ^ 64) (fcov fr) ≤ 2 ^ 64).
  { apply mass_at_most; [lia|]. intros x. specialize (Hap x). pose proof (gcov_nonneg g x). lia. }
  unfold todo. cbn. unfold FRAME_SIZE in *. lia.
Qed.

Lemma scrub_loop budget m s fr g :
  0 ≤ budget ≤ u64_max → Pass_ok w m s fr g →
  ∃ n m' s' fr' g', sm_loop (scrub_step w budget) 0 ((m, s), fr) = (Ok n, ((m', s'), fr')) ∧
    scrubbing budget m fr g n m' s' fr' g' ∧ (n < budget → all_clean g' fr').
Proof.
  intros Hb Hp.
  destruct (ends_measure (λ x, ∃ n m' s' fr' g', x = (n, ((m', s'), fr')) ∧ scrubbing budget m fr g n m' s' fr' g') todo
    (λ a, ∃ n m' s' fr' g', a = (Ok n, ((m', s'), fr')) ∧ scrubbing budget m fr g n m' s' fr' g' ∧ (n < budget → all_clean g' fr'))
    (loop_body (scrub_step w budget))) with (s := (0, ((m, s), fr))) as (k & a & Hk & He & n & m' & s' & fr' & g' & -> & Hs & Hn).
  - intros x (n & m' & s' & fr' & g' & -> & Hs). destruct (scrub_turn budget m fr g n m' s' fr' g' ltac:(lia) Hs) as (H0 & [H|[E Hn]]).
    + split; [done|left]. destruct H as (n1 & m1 & s1 & fr1 & g1 & E & Hs1 & Hlt). eexists. split; [exact E|]. split; [|done].
      by exists n1, m1, s1, fr1, g1.
    + split; [done|right]. eexists. split; [exact E|]. by exists n, m', s', fr', g'.
  - exists 0, m, s, fr, g. split; [done|]. split; [done|done|done|lia|lia].
  - exists n, m', s', fr', g'. split; [|done]. apply (sm_loop_ends _ k); [|done]. pose proof (todo_few m s fr g 0 Hp). lia.
Qed.
End scrub.

(** The operation on the machine. *)
Lemma scrub_spec cpu budget M G :
  Machine_ok M G → (cpu < MAX_CPUS)%nat → 0 ≤ budget ≤ u64_max →
  ∃ n M' G', FrameAllocator_scrub cpu budget M = (Ok n, M') ∧ moved M G nothing nothing M' G' ∧ 0 ≤ n ≤ budget ∧
    mass (2 ^ 64) (kcov (G' cpu) true) = mass (2 ^ 64) (kcov (G cpu) true) + n * FRAME_SIZE ∧
    (n < budget → all_clean (G' cpu) (fa_frontier M'.2)).
Proof.
  destruct M as [m fa]. intros H Hc Hb. destruct (shard_at _ _ cpu H Hc) as [s Hs]. cbn in Hs.
  destruct (scrub_loop (fa_map fa) (mc_window _ _ H) budget m s (fa_frontier fa) (G cpu) Hb) as (n & m' & s' & fr' & g' & E & [P1 P2 P3 P4 P5] & Hn);
    [by eapply machine_pass|].
  destruct (on_pass_spec cpu (λ w, sm_loop (scrub_step w budget) 0) m fa G s (Ok n) m' s' fr' g' nothing nothing H Hc Hs E P1) as (fa' & E' & Hmv & _ & Hfr).
  { intros x. unfold nothing. rewrite P2. lia. }
  { intros x. unfold nothing. lia. } { intros x. unfold nothing. lia. }
  { intros x. unfold nothing. pose proof (mc_apart _ _ H x) as Ha. cbn in Ha. lia. }
  { intros x Hx. apply P3. unfold nothing in Hx. lia. }
  exists n, (m', fa'), (holding_set cpu g' G). rewrite !holding_set_eq. cbn. rewrite Hfr.
  repeat apply conj; [exact E'|exact Hmv|apply P5|apply P5|exact P4|exact Hn].
Qed.
