(* ===== verification/FrameRegion.v ===== *)
(** * Adding a region of memory

    [FrameAllocator_add_region] asks about a frame only below the last
    reservation.  Here the rule is written frame by frame, and what the
    operation accepts is exactly that. *)

From S2P Require Import Prelude FrameLists FrameAllocator Extents FrameSort FrameShard FrameCoalesce FrameFrontier FrameOps.
From Stdlib Require Import Bool.
#[local] Open Scope Z_scope.

(** ** A run is accepted *)
Lemma live_accept f r : (fr_count f < length (fr_runs f))%nat → ∀ n,
  live (mkFrontier (<[fr_count f := r]> (fr_runs f)) (S (fr_count f)) n) = live f ++ [r].
Proof.
  intros Hl n. unfold live. cbn. rewrite (take_S_r _ _ r) by (by rewrite list_lookup_insert_eq).
  by rewrite take_insert_ge by lia.
Qed.

Section accept.
Implicit Types (M : Machine) (G : Holding).

Lemma frontier_accept_spec w f a e :
  Window_ok w → Frontier_ok w f → (FRAME_SIZE | a) → (FRAME_SIZE | e) → 0 < a < e → e ≤ win_limit w → (∀ x, fcov f x + cov a e x ≤ 1) →
  (Frontier_accept a e f = (Ok false, f)) ∨
  ∃ f', Frontier_accept a e f = (Ok true, f') ∧ Frontier_ok w f' ∧ ∀ x, fcov f' x = fcov f x + cov a e x.
Proof.
  intros Hw [H1 H2 H3 H4] Ha He Hr Hl Hap. unfold Frontier_accept.
  destruct (Nat.leb_spec UNTOUCHED_RUNS (fr_count f)) as [|Hlt]; [by left|]. rewrite (proj2 (Nat.ltb_lt _ _)) by (by rewrite H1).
  cbv zeta. cbn [negb fr_runs fr_count fr_frames]. unfold minus_u64. destruct (Z.ltb_spec e a); [lia|]. right.
  assert (Hc : ∀ n x, fcov (mkFrontier (<[fr_count f := mkRun a e]> (fr_runs f)) (S (fr_count f)) n) x = fcov f x + cov a e x).
  { intros n x. unfold fcov. rewrite live_accept by lia. rewrite zsum_app. cbn [zsum]. unfold rcov. cbn [run_next run_end]. lia. }
  eexists. split; [done|]. split; [|apply Hc]. split; cbn [fr_runs fr_count fr_frames].
  - by rewrite length_insert.
  - lia.
  - intros r. rewrite live_accept by lia. intros [Hin|Hin]%elem_of_app; [by apply H3|].
    apply list_elem_of_singleton in Hin as ->. by split; cbn.
  - rewrite (mass_ext _ _ _ (λ x _, Hc _ x)), mass_add, <- H4.
    change (λ x, cov a e x) with (cov a e). rewrite (mass_cov_limit w Hw) by lia.
    assert (Hm : mass (2 ^ 64) (fcov f) + mass (2 ^ 64) (cov a e) ≤ 2 ^ 64).
    { rewrite <- mass_add. apply mass_at_most; [lia|exact Hap]. }
    rewrite (mass_cov_limit w Hw), <- H4 in Hm by lia.
    destruct Ha as [p ->], He as [q ->]. replace (q * FRAME_SIZE - p * FRAME_SIZE) with ((q - p) * FRAME_SIZE) in * by lia.
    rewrite Z.div_mul by (unfold FRAME_SIZE; lia). unfold saturating_add, FRAME_SIZE in *. lia.
Qed.

(** Memory [e] comes, and the totals move. *)
Record grown M G (e : Z → Z) (total unreachable : Z) M' G' : Prop := {
  gw_ok : Machine_ok M' G';
  gw_free : ∀ x, free_mem M' G' x = free_mem M G x + e x;
  gw_frame : ∀ x, free_mem M G x + e x = 0 → M'.1 x = M.1 x;
  gw_map : fa_map M'.2 = fa_map M.2;
  gw_total : fa_total M'.2 = total;
  gw_unreachable : fa_unreachable M'.2 = unreachable;
}.

Lemma counts_ok m fa t u G : Machine_ok (m, fa) G → Machine_ok (m, fa_with_counts t u fa) G.
Proof. by intros [H1 H2 H3 H4 H5]. Qed.

Lemma accept_spec cpu a e M G :
  Machine_ok M G → (cpu < MAX_CPUS)%nat → (FRAME_SIZE | a) → (FRAME_SIZE | e) → 0 < a < e → e ≤ win_limit (fa_map M.2) →
  (∀ x, free_mem M G x + cov a e x ≤ 1) →
  ∃ M' G', FrameAllocator_accept cpu a e M = (Ok tt, M') ∧
    grown M G (cov a e) (saturating_add 64 (fa_total M.2) ((e - a) / FRAME_SIZE)) (fa_unreachable M.2) M' G'.
Proof.
  destruct M as [m fa]. cbn. intros H Hc Ha He Hr Hl Hap. unfold FrameAllocator_accept, sm_lift, minus_u64.
  destruct (Z.ltb_spec e a); [lia|]. unfold sm_bind, sm_put. cbv beta iota.
  set (total := saturating_add 64 _ _). set (fa1 := fa_with_counts total _ fa).
  assert (H1 : Machine_ok (m, fa1) G) by (by apply counts_ok).
  assert (Hw : Window_ok (fa_map fa)) by apply (mc_window _ _ H).
  unfold on_runs. change (fa_frontier fa1) with (fa_frontier fa).
  destruct (frontier_accept_spec (fa_map fa) (fa_frontier fa) a e Hw (mc_frontier _ _ H) Ha He Hr Hl) as [E|(f' & E & Hf' & Hc')].
  { intros x. specialize (Hap x). unfold free_mem in Hap. pose proof (mcov_cpu G (fa_frontier fa) cpu x Hc).
    pose proof (gcov_nonneg (G cpu) x). cbn in Hap. lia. }
  - rewrite E. destruct (shard_at _ _ cpu H1 Hc) as [s Hs]. cbn in Hs.
    change (fa_with (fa_shards fa1) (fa_frontier fa) fa1) with fa1.
    destruct (carve_spec (fa_map fa) Hw a e m s (G cpu)) as (m' & s' & g' & E1 & Hs' & Hk & Hm);
      [done|done|lia|done|by apply (mc_shards _ _ H1)| |].
    { intros x. specialize (Hap x). unfold free_mem in Hap. pose proof (mcov_cpu G (fa_frontier fa) cpu x Hc).
      pose proof (fcov_nonneg (fa_frontier fa) x). cbn in Hap. lia. }
    destruct (on_cpu_spec cpu (λ w, carve w a e) m fa1 G s (Ok tt) m' s' g' nothing (cov a e) H1 Hc Hs E1 Hs') as (fa2 & E2 & Hmv & _).
    { intros x. unfold nothing, gcov. rewrite !Hk. unfold kind. cbn. lia. }
    { intros x. unfold nothing. lia. } { intros x. apply cov_range. } { exact Hap. }
    { intros x Hx. apply Hm. pose proof (gcov_nonneg (G cpu) x). pose proof (cov_range a e x). lia. }
    exists (m', fa2), (holding_set cpu g' G). split; [exact E2|]. destruct Hmv as [A1 A2 A3 (B1 & B2 & B3)].
    split; [done| |exact A3|done|done|done]. intros x. specialize (A2 x). unfold nothing in A2.
    change (free_mem (m, fa1) G x) with (free_mem (m, fa) G x) in A2. lia.
  - rewrite E. set (fa2 := fa_with (fa_shards fa1) f' fa1). exists (m, fa2), G. split; [done|].
    assert (Hfree : ∀ x, free_mem (m, fa2) G x = free_mem (m, fa) G x + cov a e x).
    { intros x. unfold free_mem, mcov. cbn. rewrite Hc'. lia. }
    split; [|exact Hfree|done|done|done|done]. destruct H as [A1 A2 A3 A4 A5]. split; [done|done|exact A3|done|].
    intros x. specialize (Hfree x). specialize (Hap x). unfold free_mem in *. cbn in *. lia.
Qed.

Lemma grown_then M G M1 G1 M2 G2 e1 e2 e t1 u1 t2 u2 :
  grown M G e1 t1 u1 M1 G1 → grown M1 G1 e2 t2 u2 M2 G2 → (∀ x, e1 x + e2 x = e x) → (∀ x, 0 ≤ e1 x) → (∀ x, 0 ≤ e2 x) →
  grown M G e t2 u2 M2 G2.
Proof.
  intros [A1 A2 A3 A4 A5 A6] [B1 B2 B3 B4 B5 B6] He H1 H2. split; try done.
  - intros x. rewrite B2, A2, <- He. lia.
  - intros x Hx. rewrite <- He in Hx. pose proof (free_nonneg M G x). specialize (H1 x). specialize (H2 x).
    rewrite B3; [apply A3; lia|]. rewrite A2. lia.
  - by rewrite B4.
Qed.
End accept.

(** ** The rule *)
Definition frame_of (x : Z) : Z := x / FRAME_SIZE * FRAME_SIZE.

(** A whole frame of the region, not low, and nothing reserved in it. *)
Definition usable (base len : Z) (reserved : list Reserved) (frame : Z) : bool :=
  (base <=? frame) && (frame + FRAME_SIZE <=? saturating_add 64 base len) && (LOW_MEMORY_LIMIT <=? frame) &&
  negb (existsb (λ r, Reserved_overlaps r frame (frame + FRAME_SIZE)) reserved).

(** The bytes to accept, and the bytes that would be but for the limit. *)
Definition accepted (base len : Z) (reserved : list Reserved) (limit x : Z) : Z :=
  if usable base len reserved (frame_of x) && (frame_of x + FRAME_SIZE <=? limit) then 1 else 0.
Definition refused (base len : Z) (reserved : list Reserved) (limit x : Z) : Z :=
  if usable base len reserved (frame_of x) && (limit <? frame_of x + FRAME_SIZE) then 1 else 0.

Definition below (b : Z) (f : Z → Z) (x : Z) : Z := if x <? b then f x else 0.

Lemma below_step b e f c x : b ≤ e → (∀ x, b ≤ x < e → f x = c) → below e f x = below b f x + c * cov b e x.
Proof.
  intros Hbe Hf. unfold below, cov. destruct (Z.ltb_spec x b), (Z.ltb_spec x e), (Z.leb_spec b x); cbn; try lia.
  rewrite Hf; lia.
Qed.

(** How many frames a function of bytes covers. *)
Definition frames (f : Z → Z) : Z := mass (2 ^ 64) f / FRAME_SIZE.

Lemma frames_step b e f c :
  (FRAME_SIZE | b) → (FRAME_SIZE | e) → 0 ≤ b ≤ e → e ≤ 2 ^ 64 → (∀ x, b ≤ x < e → f x = c) →
  frames (below e f) = frames (below b f) + c * ((e - b) / FRAME_SIZE).
Proof.
  intros [p ->] [q ->] Hb He Hf. unfold frames.
  rewrite (mass_ext _ _ _ (λ x _, below_step _ _ _ c x (proj2 Hb) Hf)), mass_add.
  assert (E : mass (2 ^ 64) (λ x, c * cov (p * FRAME_SIZE) (q * FRAME_SIZE) x) = c * (q - p) * FRAME_SIZE).
  { rewrite (mass_scale _ c (cov (p * FRAME_SIZE) (q * FRAME_SIZE))), mass_cov by lia. lia. }
  rewrite E. rewrite Z.div_add by (unfold FRAME_SIZE; lia).
  replace (q * FRAME_SIZE - p * FRAME_SIZE) with ((q - p) * FRAME_SIZE) by lia. rewrite Z.div_mul by (unfold FRAME_SIZE; lia). done.
Qed.

Lemma frames_nonneg f : (∀ x, 0 ≤ f x) → 0 ≤ frames f.
Proof. intros H. apply Z.div_pos; [by apply mass_nonneg|unfold FRAME_SIZE; lia]. Qed.

Lemma frames_le f g : (∀ x, f x ≤ g x) → frames f ≤ frames g.
Proof. intros H. apply Z.div_le_mono; [unfold FRAME_SIZE; lia|by apply mass_le]. Qed.

Lemma frame_of_in frame x : (FRAME_SIZE | frame) → frame ≤ x < frame + FRAME_SIZE → frame_of x = frame.
Proof.
  intros [q ->] Hx. unfold frame_of. f_equal. symmetry. apply (Z.div_unique _ _ _ (x - q * FRAME_SIZE)); lia.
Qed.
Lemma frame_of_spec x : (FRAME_SIZE | frame_of x) ∧ frame_of x ≤ x < frame_of x + FRAME_SIZE.
Proof.
  unfold frame_of. split; [apply Z.divide_factor_r|]. pose proof (Z.div_mod x FRAME_SIZE ltac:(done)).
  pose proof (Z.mod_pos_bound x FRAME_SIZE ltac:(done)). unfold FRAME_SIZE in *. lia.
Qed.
Lemma frame_above a x : (FRAME_SIZE | a) → a ≤ x → a ≤ frame_of x.
Proof. intros [q ->] Hx. destruct (frame_of_spec x) as [[p Hp] H]. rewrite Hp in *. unfold FRAME_SIZE in *. nia. Qed.

Lemma frames_whole f : (∀ x, f x = f (frame_of x)) → (FRAME_SIZE | mass (2 ^ 64) f).
Proof.
  intros Hf. change (2 ^ 64) with (FRAME_SIZE * 2 ^ 52). apply mass_blocks; [done|done|].
  intros q x Hx. rewrite Hf. by rewrite (frame_of_in (q * FRAME_SIZE)) by (done || apply Z.divide_factor_r).
Qed.

Lemma overlaps_below r base end_ : rs_end r ≤ base → Reserved_overlaps r base end_ = false.
Proof. intros H. unfold Reserved_overlaps. by destruct (Z.ltb_spec base (rs_end r)); [lia|]. Qed.

Lemma ceiling_spec reserved r : r ∈ reserved → rs_end r ≤ foldr Z.max 0 (rs_end <$> reserved).
Proof.
  induction reserved as [|r' l IH]; [by intros ?%elem_of_nil|]. intros [->|H]%elem_of_cons; cbn; [lia|]. specialize (IH H). lia.
Qed.

Lemma below_range b f x : (∀ x, 0 ≤ f x ≤ 1) → 0 ≤ below b f x ≤ f x.
Proof. intros H. specialize (H x). unfold below. destruct (x <? b); lia. Qed.

Lemma accepted_range base len reserved limit x : 0 ≤ accepted base len reserved limit x ≤ 1.
Proof. unfold accepted. destruct (_ && _); lia. Qed.
Lemma refused_range base len reserved limit x : 0 ≤ refused base len reserved limit x ≤ 1.
Proof. unfold refused. destruct (_ && _); lia. Qed.

Lemma frame_of_idem x : frame_of (frame_of x) = frame_of x.
Proof. destruct (frame_of_spec x) as [H _]. apply frame_of_in; [done|unfold FRAME_SIZE; lia]. Qed.
Lemma accepted_whole base len reserved limit : (FRAME_SIZE | mass (2 ^ 64) (accepted base len reserved limit)).
Proof. apply frames_whole. intros x. unfold accepted. by rewrite frame_of_idem. Qed.

Lemma accepted_low base len reserved limit x : accepted base len reserved limit x ≠ 0 →
  LOW_MEMORY_LIMIT ≤ frame_of x ∧ frame_of x + FRAME_SIZE ≤ limit.
Proof.
  unfold accepted. destruct (usable base len reserved (frame_of x)) eqn:Eu; cbn [andb]; [|by intros []].
  destruct (Z.leb_spec (frame_of x + FRAME_SIZE) limit) as [Hle|]; [|by intros []]. intros _. split; [|exact Hle].
  unfold usable in Eu. apply andb_prop in Eu as [Eu _]. apply andb_prop in Eu as [_ Eu]. by apply Z.leb_le.
Qed.

Lemma accepted_spec base len reserved limit x : accepted base len reserved limit x ≠ 0 ↔
  usable base len reserved (frame_of x) = true ∧ frame_of x + FRAME_SIZE ≤ limit.
Proof.
  unfold accepted. destruct (usable base len reserved (frame_of x)); cbn [andb]; [|by split; [intros []|intros []]].
  destruct (Z.leb_spec (frame_of x + FRAME_SIZE) limit); split; [done|done|intros []; done|intros []; lia].
Qed.

Lemma get_limit (M : Machine) : sm_get (E := fault) (λ '(_, fa), win_limit (fa_map fa)) M = (Ok (win_limit (fa_map M.2)), M).
Proof. by destruct M. Qed.

Section region.
Context (cpu : nat) (base len : Z) (reserved : list Reserved) (M0 : Machine) (G0 : Holding).
Implicit Types (M : Machine) (G : Holding).

Let limit := win_limit (fa_map M0.2).
Let frames_end := saturating_add 64 base len / FRAME_SIZE * FRAME_SIZE.
Let reach := limit / FRAME_SIZE * FRAME_SIZE.
Let threshold := Z.max (foldr Z.max 0 (rs_end <$> reserved)) LOW_MEMORY_LIMIT.
Let acc := accepted base len reserved limit.
Let ref := refused base len reserved limit.

Hypothesis Hcpu : (cpu < MAX_CPUS)%nat.
Hypothesis Hbase : 0 ≤ base.
Hypothesis H0 : Machine_ok M0 G0.
Hypothesis Hapart : ∀ x, free_mem M0 G0 x + acc x ≤ 1.
Hypothesis Htotal : 0 ≤ fa_total M0.2 ≤ u64_max.
Hypothesis Hunreachable : 0 ≤ fa_unreachable M0.2 ∧ fa_unreachable M0.2 + frames ref ≤ u64_max.

Lemma acc_range x : 0 ≤ acc x ≤ 1.
Proof. apply accepted_range. Qed.
Lemma ref_range x : 0 ≤ ref x ≤ 1.
Proof. apply refused_range. Qed.

(** What was accepted below [bound], and asked below [seen]. *)
Definition adding (bound seen : Z) M G : Prop :=
  grown M0 G0 (below bound acc) (saturating_add 64 (fa_total M0.2) (frames (below bound acc))) (fa_unreachable M0.2 + frames (below seen ref)) M G.

Record region_at (frame run : Z) M G : Prop := {
  ra_frame : (FRAME_SIZE | frame);
  ra_base : base ≤ frame;
  ra_run : run ≠ 0 → (FRAME_SIZE | run) ∧ 0 < run < frame ∧ frame ≤ reach ∧ ∀ x, run ≤ x < frame → acc x = 1;
  ra_end : frame ≤ 2 ^ 64;
  ra_adding : adding (if run =? 0 then frame else run) frame M G;
}.

Lemma frames_end_spec : (FRAME_SIZE | frames_end) ∧ frames_end ≤ saturating_add 64 base len ∧ frames_end ≤ u64_max ∧
  ∀ a, (FRAME_SIZE | a) → a ≤ saturating_add 64 base len → a ≤ frames_end.
Proof.
  destruct (frame_of_spec (saturating_add 64 base len)) as [H1 H2]. split_and!; [done|apply H2| |].
  - unfold frames_end. unfold frame_of, saturating_add, u64_max in *. lia.
  - intros a [q ->] Ha. destruct H1 as [p Hp]. unfold frames_end. unfold frame_of in *. unfold FRAME_SIZE in *. nia.
Qed.
Lemma reach_spec a : (FRAME_SIZE | a) → (a ≤ reach ↔ a ≤ limit).
Proof.
  intros Ha. destruct (frame_of_spec limit) as [_ H2]. split; [intros; unfold reach, frame_of in *; lia|].
  intros Hl. by apply (frame_above a limit).
Qed.

(** The rule for a whole frame of the region. *)
Lemma usable_inside frame : (FRAME_SIZE | frame) → base ≤ frame → frame < frames_end →
  usable base len reserved frame = (LOW_MEMORY_LIMIT <=? frame) && negb (existsb (λ r, Reserved_overlaps r frame (frame + FRAME_SIZE)) reserved).
Proof.
  intros Hf Hb He. destruct frames_end_spec as ([q Hq] & H2 & _ & _). unfold usable.
  rewrite (proj2 (Z.leb_le base frame) Hb). destruct Hf as [p Hp].
  rewrite (proj2 (Z.leb_le (frame + FRAME_SIZE) _)); [done|]. unfold FRAME_SIZE in *. lia.
Qed.

Lemma usable_above frame : (FRAME_SIZE | frame) → base ≤ frame → threshold ≤ frame → frame < frames_end → usable base len reserved frame = true.
Proof.
  intros Hf Hb Ht He. rewrite usable_inside by done. unfold threshold in Ht. rewrite (proj2 (Z.leb_le LOW_MEMORY_LIMIT frame)) by lia.
  cbn. rewrite negb_true_iff. destruct (existsb _ _) eqn:Eq; [|done]. apply existsb_exists in Eq as (r & Hr & Ho).
  rewrite overlaps_below in Ho; [done|]. pose proof (ceiling_spec reserved r). rewrite <- list_elem_of_In in Hr. specialize (H Hr). lia.
Qed.

Lemma usable_past frame : (FRAME_SIZE | frame) → frames_end ≤ frame → usable base len reserved frame = false.
Proof.
  intros Hf He. destruct frames_end_spec as (_ & _ & _ & H4). unfold usable.
  destruct (Z.leb_spec (frame + FRAME_SIZE) (saturating_add 64 base len)) as [Hle|]; [|by rewrite andb_false_r].
  specialize (H4 (frame + FRAME_SIZE)). unfold FRAME_SIZE in *. exfalso. enough (frame + 4096 ≤ frames_end) by lia.
  apply H4; [|done]. by apply Z.divide_add_r.
Qed.

(** Asked a little further. *)
Lemma adding_bound b e s c M G :
  adding b s M G → (FRAME_SIZE | b) → (FRAME_SIZE | e) → 0 ≤ b ≤ e → e ≤ 2 ^ 64 → (∀ x, b ≤ x < e → acc x = 0) → c = s → adding e c M G.
Proof.
  intros [A1 A2 A3 A4 A5 A6] Hb He Hbe Hmax Hz ->. pose proof (λ x, below_step b e acc 0 x (proj2 Hbe) Hz) as E.
  split; [done| | |done| |done].
  - intros x. rewrite A2, E. lia.
  - intros x. rewrite E. intros Hx. apply A3. lia.
  - rewrite A5. f_equal. rewrite (frames_step b e acc 0) by done. lia.
Qed.

(** The open run is accepted. *)
Lemma region_flush frame run s M G :
  (FRAME_SIZE | frame) → frame ≤ 2 ^ 64 → (FRAME_SIZE | run) ∧ 0 < run < frame ∧ frame ≤ reach ∧ (∀ x, run ≤ x < frame → acc x = 1) →
  adding run s M G → ∃ M' G', FrameAllocator_accept cpu run frame M = (Ok tt, M') ∧ adding frame s M' G'.
Proof.
  intros R1 R4 (Ha & Hlt & Hle & Hacc) R5.
  pose proof R5 as [A1 A2 A3 A4 A5 A6].
  assert (E : ∀ x, below frame acc x = below run acc x + cov run frame x).
  { intros x. rewrite (below_step run frame acc 1 x) by (done || lia). lia. }
  destruct (accept_spec cpu run frame M G A1 Hcpu Ha R1 Hlt) as (M' & G' & EM & Hg).
  { rewrite A4. apply (reach_spec frame R1). done. }
  { intros x. rewrite A2. specialize (Hapart x). pose proof (below_range frame acc x acc_range). rewrite E in H. lia. }
  exists M', G'. split; [done|]. unfold adding.
  pose proof (grown_then M0 G0 M G M' G' _ _ (below frame acc) _ _ _ _ R5 Hg) as [B1 B2 B3 B4 B5 B6].
  { intros x. by rewrite E. } { intros x. apply (below_range run acc x acc_range). } { intros x. apply cov_range. }
  split; [done|done|done|done| |congruence].
  rewrite B5, A5, (frames_step run frame acc 1) by (done || lia).
  assert (0 ≤ frames (below run acc)) by (apply frames_nonneg; intros x; apply (below_range run acc x acc_range)).
  pose proof (Z.div_pos (frame - run) FRAME_SIZE ltac:(lia) ltac:(done)). unfold saturating_add, u64_max in *. lia.
Qed.

(** Frames that only the limit refuses are counted. *)
Lemma region_refused b s e M G :
  adding b s M G → (FRAME_SIZE | s) → (FRAME_SIZE | e) → 0 ≤ s ≤ e → e ≤ 2 ^ 64 → (∀ x, s ≤ x < e → ref x = 1) →
  ∃ M', count_unreachable ((e - s) / FRAME_SIZE) M = (Ok tt, M') ∧ adding b e M' G.
Proof.
  intros [A1 A2 A3 A4 A5 A6] Hs He Hse Hmax Hr. unfold count_unreachable, sm_bind, sm_get, sm_put, sm_lift. destruct M as [m fa]. cbn in A6.
  pose proof (frames_step s e ref 1 Hs He Hse Hmax Hr) as E.
  assert (Hle : frames (below e ref) ≤ frames ref) by (apply frames_le; intros x; apply (below_range e ref x ref_range)).
  cbv beta iota. rewrite A6. unfold plus_u64. destruct (Z.ltb_spec u64_max (fa_unreachable M0.2 + frames (below s ref) + (e - s) / FRAME_SIZE)); [lia|].
  eexists. split; [done|]. split; [by apply counts_ok|done|done|done|done|]. cbn. lia.
Qed.

Lemma adding_seen b s e M G :
  adding b s M G → (FRAME_SIZE | s) → (FRAME_SIZE | e) → 0 ≤ s ≤ e → e ≤ 2 ^ 64 → (∀ x, s ≤ x < e → ref x = 0) → adding b e M G.
Proof.
  intros [A1 A2 A3 A4 A5 A6] Hs He Hse Hmax Hr. split; [done..|]. rewrite A6, (frames_step s e ref 0) by done. lia.
Qed.

(** Where the run starts that the next frame extends. *)
Lemma region_open frame run M G e :
  region_at frame run M G → (FRAME_SIZE | e) → frame < e → e ≤ reach → LOW_MEMORY_LIMIT ≤ frame → (∀ x, frame ≤ x < e → acc x = 1) →
  adding (if run =? 0 then frame else run) e M G → e ≤ 2 ^ 64 → region_at e (if run =? 0 then frame else run) M G.
Proof.
  intros [R1 R2 R3 R4 R5] He Hlt Hle Hlow Hacc Ha Hmax. unfold LOW_MEMORY_LIMIT in Hlow. split; [done|lia| |done|].
  - intros _. destruct (Z.eqb_spec run 0) as [->|Hr]; [by split_and!; try lia|].
    destruct (R3 Hr) as (H1 & H2 & H3 & H4). split_and!; [done|lia|lia|lia|].
    intros x Hx. destruct (Z.lt_ge_cases x frame); [apply H4; lia|apply Hacc; lia].
  - destruct (Z.eqb_spec run 0) as [->|Hr]; [|by rewrite (proj2 (Z.eqb_neq _ _) Hr)].
    rewrite (proj2 (Z.eqb_neq frame 0)) by lia. done.
Qed.

Lemma region_turn frame run M G :
  region_at frame run M G → frame < threshold → frame < frames_end →
  ∃ run' M' G', region_step cpu reserved threshold frames_end reach (frame, run) M = (Ok (inl (frame + FRAME_SIZE, run')), M') ∧
    region_at (frame + FRAME_SIZE) run' M' G'.
Proof.
  intros Hat Ht He. pose proof Hat as [R1 R2 R3 R4 R5]. unfold region_step.
  rewrite (proj2 (Z.ltb_lt _ _) Ht), (proj2 (Z.ltb_lt _ _) He). cbn [negb andb].
  destruct frames_end_spec as ([q Hq] & F2 & F3 & _).
  assert (Hend : frame + FRAME_SIZE ≤ frames_end) by (destruct R1 as [p Hp]; unfold FRAME_SIZE in *; lia).
  unfold sm_bind at 1, sm_lift, plus_u64. destruct (Z.ltb_spec u64_max (frame + FRAME_SIZE)); [lia|]. cbv beta iota.
  assert (He1 : (FRAME_SIZE | frame + FRAME_SIZE)) by (by apply Z.divide_add_r).
  assert (Hrange : 0 ≤ frame ≤ frame + FRAME_SIZE) by (unfold FRAME_SIZE in *; lia).
  assert (Hmax : frame + FRAME_SIZE ≤ 2 ^ 64) by (unfold u64_max in *; lia).
  pose proof (usable_inside frame R1 R2 He) as Hu. rewrite <- Hu. set (u := usable base len reserved frame) in *.
  assert (Hin : ∀ x, frame ≤ x < frame + FRAME_SIZE → acc x = (if u && (frame + FRAME_SIZE <=? reach) then 1 else 0) ∧
    ref x = if u && (reach <? frame + FRAME_SIZE) then 1 else 0).
  { intros x Hx. unfold acc, ref, accepted, refused. rewrite (frame_of_in frame x R1 Hx). fold u. pose proof (reach_spec _ He1) as Hre.
    destruct (Z.leb_spec (frame + FRAME_SIZE) limit), (Z.leb_spec (frame + FRAME_SIZE) reach), (Z.ltb_spec limit (frame + FRAME_SIZE)), (Z.ltb_spec reach (frame + FRAME_SIZE)); try lia; done. }
  destruct (u && (frame + FRAME_SIZE <=? reach)) eqn:Ein.
  - apply andb_true_iff in Ein as [Eu Er%Z.leb_le]. rewrite Eu in *. destruct (Z.ltb_spec reach (frame + FRAME_SIZE)); [lia|].
    unfold sm_bind, sm_ret. cbn [andb]. exists (if run =? 0 then frame else run), M, G. split; [done|].
    symmetry in Hu. apply andb_true_iff in Hu as [Hlow%Z.leb_le _].
    apply (region_open frame run); try done; [unfold FRAME_SIZE; lia| |].
    + intros x Hx. apply Hin. lia.
    + apply (adding_seen _ frame); try done. intros x Hx. apply Hin. done.
  - (* the frame is not accepted: first the count, then the open run *)
    assert (Hcount : ∃ M1, (if u && (reach <? frame + FRAME_SIZE) then count_unreachable 1 else sm_ret tt) M = (Ok tt, M1) ∧
      adding (if run =? 0 then frame else run) (frame + FRAME_SIZE) M1 G).
    { destruct (u && (reach <? frame + FRAME_SIZE)).
      - replace 1 with ((frame + FRAME_SIZE - frame) / FRAME_SIZE) by (rewrite Z.add_simpl_l; apply Z.div_same; done).
        apply (region_refused _ frame); try done. intros x Hx. by apply Hin.
      - exists M. split; [done|]. apply (adding_seen _ frame); try done. intros x Hx. by apply Hin. }
    destruct Hcount as (M1 & E1 & Ha1). unfold sm_bind at 1. rewrite E1. cbv beta iota. destruct (Z.eqb_spec run 0) as [->|Hr]; cbn [negb].
    + exists 0, M1, G. split; [done|]. split; [done|lia|done|done|]. cbn. apply (adding_bound frame _ (frame + FRAME_SIZE)); try done.
      intros x Hx. by apply Hin.
    + destruct (region_flush frame run _ M1 G R1 R4 (R3 Hr) Ha1) as (M2 & G2 & E2 & Ha2). unfold sm_bind. rewrite E2.
      exists 0, M2, G2. split; [done|]. split; [done|lia|done|done|]. cbn. apply (adding_bound frame _ (frame + FRAME_SIZE)); try done.
      intros x Hx. by apply Hin.
Qed.

Lemma region_loop frame run M G :
  region_at frame run M G →
  ∃ frame' run' M' G', sm_loop (region_step cpu reserved threshold frames_end reach) (frame, run) M = (Ok (frame', run'), M') ∧
    region_at frame' run' M' G' ∧ (threshold ≤ frame' ∨ frames_end ≤ frame').
Proof.
  intros Hat.
  destruct (ends_measure (λ x, ∃ f r M G, x = ((f, r), M) ∧ region_at f r M G) (λ x, Z.max 0 (frames_end - x.1.1))
    (λ a, ∃ f r M G, a = (Ok (f, r), M) ∧ region_at f r M G ∧ (threshold ≤ f ∨ frames_end ≤ f))
    (loop_body (region_step cpu reserved threshold frames_end reach))) with (s := ((frame, run), M)) as (k & a & Hk & He & f & r & M' & G' & -> & Ha).
  - intros x (f & r & M1 & G1 & -> & H1). split; [lia|]. unfold loop_body. cbn [fst].
    destruct (Z.ltb_spec f threshold) as [Ht|Ht]; [destruct (Z.ltb_spec f frames_end) as [Hf|Hf]|].
    + left. destruct (region_turn f r M1 G1 H1 Ht Hf) as (r' & M2 & G2 & E & H2). rewrite E. eexists. split; [done|].
      split; [by exists (f + FRAME_SIZE), r', M2, G2|]. cbn. unfold FRAME_SIZE. lia.
    + right. eexists. unfold region_step. rewrite (proj2 (Z.ltb_lt f threshold) Ht), (proj2 (Z.ltb_ge f frames_end) Hf). cbn.
      split; [done|]. exists f, r, M1, G1. split; [done|]. split; [done|by right].
    + right. eexists. unfold region_step. rewrite (proj2 (Z.ltb_ge f threshold) Ht). cbn.
      split; [done|]. exists f, r, M1, G1. split; [done|]. split; [done|by left].
  - by exists frame, run, M, G.
  - exists f, r, M', G'. split; [|exact Ha]. apply (sm_loop_ends _ k); [|exact He].
    destruct frames_end_spec as (_ & _ & F3 & _). destruct Hat as [_ Hb _ _ _]. cbn [fst] in Hk. unfold u64_max in *. lia.
Qed.

Lemma below_all b f x : (∀ x, b ≤ x → f x = 0) → below b f x = f x.
Proof. intros H. unfold below. destruct (Z.ltb_spec x b); [done|by rewrite H]. Qed.

(** What lies past the whole frames of the region is neither. *)
Lemma past_end x : frames_end ≤ x → acc x = 0 ∧ ref x = 0.
Proof.
  intros Hx. destruct frames_end_spec as (F1 & _). unfold acc, ref, accepted, refused.
  by rewrite (usable_past (frame_of x) (proj1 (frame_of_spec x)) (frame_above _ _ F1 Hx)).
Qed.

(** From the threshold on only the limit matters. *)
Lemma past_threshold frame x : (FRAME_SIZE | frame) → base ≤ frame → threshold ≤ frame → frame ≤ x < frames_end →
  (x < reach → acc x = 1 ∧ ref x = 0) ∧ (reach ≤ x → acc x = 0 ∧ ref x = 1).
Proof.
  intros R1 R2 Ht Hx. destruct (frame_of_spec x) as [S1 S2]. destruct frames_end_spec as (F1 & _).
  pose proof (frame_above frame x R1 (proj1 Hx)) as Hge. unfold acc, ref, accepted, refused.
  rewrite (usable_above (frame_of x) S1) by lia. cbn [andb].
  assert (Hd : (FRAME_SIZE | reach)) by apply Z.divide_factor_r.
  assert (H1 : (FRAME_SIZE | frame_of x + FRAME_SIZE)) by (by apply Z.divide_add_r). pose proof (reach_spec _ H1) as Hre.
  split; intros Hlt.
  - assert (frame_of x + FRAME_SIZE ≤ reach) as Hin%Hre.
    { destruct S1 as [p Hp], Hd as [q Hq]. rewrite Hp, Hq in *. unfold FRAME_SIZE in *. nia. }
    destruct (Z.leb_spec (frame_of x + FRAME_SIZE) limit), (Z.ltb_spec limit (frame_of x + FRAME_SIZE)); lia.
  - assert (¬ frame_of x + FRAME_SIZE ≤ limit) as Hout by (rewrite <- Hre; lia).
    destruct (Z.leb_spec (frame_of x + FRAME_SIZE) limit), (Z.ltb_spec limit (frame_of x + FRAME_SIZE)); lia.
Qed.

(** Everything from the threshold on, in one extension of the open run. *)
Lemma region_rest frame run M G :
  region_at frame run M G → threshold ≤ frame ∨ frames_end ≤ frame →
  let rest := Z.min frames_end reach in
  let run' := if frame <? rest then (if run =? 0 then frame else run) else run in
  let frame' := if frame <? rest then rest else frame in
  region_at frame' run' M G ∧ (frames_end ≤ frame' ∨ threshold ≤ frame' ∧ reach ≤ frame').
Proof.
  intros Hat Ht rest. pose proof Hat as [R1 R2 R3 R4 R5]. destruct frames_end_spec as (F1 & F2 & F3 & _).
  destruct (Z.ltb_spec frame rest) as [Hlt|Hge]; cbv zeta.
  - assert (Hth : threshold ≤ frame) by lia. assert (Hd : (FRAME_SIZE | reach)) by apply Z.divide_factor_r.
    split; [|lia]. pose proof (λ x Hx, proj1 (past_threshold frame x R1 R2 Hth Hx)) as Hin.
    apply (region_open frame run); try done.
    + unfold rest. destruct (Z.min_spec frames_end reach) as [[_ ->]|[_ ->]]; done.
    + lia.
    + unfold threshold in Hth. lia.
    + intros x Hx. apply Hin; lia.
    + apply (adding_seen _ frame); [done|done| |lia|unfold u64_max in *; lia|].
      * unfold rest. destruct (Z.min_spec frames_end reach) as [[_ ->]|[_ ->]]; done.
      * intros x Hx. apply Hin; lia.
    + unfold u64_max in *. lia.
  - split; [done|]. lia.
Qed.

Lemma add_region_spec : base + FRAME_SIZE - 1 ≤ u64_max →
  ∃ M' G', FrameAllocator_add_region cpu base len reserved M0 = (Ok tt, M') ∧
    grown M0 G0 acc (saturating_add 64 (fa_total M0.2) (frames acc)) (fa_unreachable M0.2 + frames ref) M' G'.
Proof.
  intros Hmax. destruct (next_multiple_spec base FRAME_SIZE ltac:(done)) as (N1 & N2 & N3). set (first := next_multiple_of base FRAME_SIZE) in *.
  assert (Hfirst : first ≤ u64_max).
  { unfold first, next_multiple_of. pose proof (Z.div_mod (base + FRAME_SIZE - 1) FRAME_SIZE ltac:(done)).
    pose proof (Z.mod_pos_bound (base + FRAME_SIZE - 1) FRAME_SIZE ltac:(done)). lia. }
  assert (Hstart : region_at first 0 M0 G0).
  { split; [done|done|done|unfold u64_max in *; lia|]. cbn.
    assert (Hz : ∀ x, x < first → usable base len reserved (frame_of x) = false).
    { intros x Hx. unfold usable. destruct (Z.leb_spec base (frame_of x)) as [Hb|]; [|done]. destruct (frame_of_spec x) as [S1 S2].
      specialize (N3 _ S1 Hb). lia. }
    assert (Hacc : ∀ x, below first acc x = 0) by (intros x; unfold below, acc, accepted; destruct (Z.ltb_spec x first); [by rewrite Hz|done]).
    assert (Href : ∀ x, below first ref x = 0) by (intros x; unfold below, ref, refused; destruct (Z.ltb_spec x first); [by rewrite Hz|done]).
    assert (Hf : ∀ f, (∀ x, f x = 0) → frames f = 0) by (intros f Hf; unfold frames; rewrite mass_zero by done; apply Z.div_0_l; done).
    split; [done| |done|done| |].
    - intros x. rewrite Hacc. lia.
    - rewrite (Hf _ Hacc). unfold saturating_add, u64_max in *. lia.
    - rewrite (Hf _ Href). lia. }
  destruct (region_loop first 0 M0 G0 Hstart) as (frame & run & M1 & G1 & E1 & H1 & Ht).
  pose proof (region_rest frame run M1 G1 H1 Ht) as [H2 Hend].
  unfold FrameAllocator_add_region. fold first. unfold sm_lift. destruct (Z.ltb_spec u64_max first); [lia|].
  unfold sm_bind. rewrite get_limit. cbv beta iota zeta. fold limit. fold frames_end reach threshold. rewrite E1. cbv beta iota.
  set (run' := if frame <? Z.min frames_end reach then (if run =? 0 then frame else run) else run) in *.
  set (frame' := if frame <? Z.min frames_end reach then Z.min frames_end reach else frame) in *. pose proof H2 as [R1 R2 R3 R4 R5].
  assert (Hflush : ∃ M2 G2, (if negb (run' =? 0) then FrameAllocator_accept cpu run' frame' else sm_ret tt) M1 = (Ok tt, M2) ∧ adding frame' frame' M2 G2).
  { destruct (Z.eqb_spec run' 0) as [Hr|Hr]; cbn [negb]; [by exists M1, G1|]. by apply (region_flush frame' run' frame' M1 G1 R1 R4 (R3 Hr)). }
  destruct Hflush as (M2 & G2 & E2 & Ha2). rewrite E2. cbv beta iota. destruct frames_end_spec as (F1 & F2 & F3 & _).
  assert (Hlast : ∃ M3 e, (if frame' <? frames_end then count_unreachable ((frames_end - frame') / FRAME_SIZE) else sm_ret tt) M2 = (Ok tt, M3) ∧
    adding frame' e M3 G2 ∧ frames_end ≤ e).
  { destruct (Z.ltb_spec frame' frames_end) as [Hlt|Hge]; [|by exists M2, frame'].
    destruct (region_refused frame' frame' frames_end M2 G2 Ha2) as (M3 & E3 & H3); [done|done|lia|unfold u64_max in *; lia| |by exists M3, frames_end].
    intros x Hx. destruct Hend as [|[Hth Hre]]; [lia|]. apply (past_threshold frame' x R1 R2 Hth Hx). lia. }
  destruct Hlast as (M3 & e & E3 & [A1 A2 A3 A4 A5 A6] & He). exists M3, G2. split; [exact E3|].
  assert (Ba : ∀ x, below frame' acc x = acc x).
  { intros x. apply below_all. clear x. intros x Hx. destruct (Z.le_gt_cases frames_end x) as [Hp|Hp]; [by apply past_end|].
    destruct Hend as [|[Hth Hre]]; [lia|]. apply (past_threshold frame' x R1 R2 Hth); lia. }
  assert (Br : ∀ x, below e ref x = ref x) by (intros x; apply below_all; clear x; intros x Hx; apply past_end; lia).
  assert (Ea : frames (below frame' acc) = frames acc) by (unfold frames; f_equal; apply mass_ext; intros; apply Ba).
  assert (Er : frames (below e ref) = frames ref) by (unfold frames; f_equal; apply mass_ext; intros; apply Br).
  split; [done| | |done| |].
  - intros x. by rewrite A2, Ba.
  - intros x Hx. apply A3. by rewrite Ba.
  - by rewrite A5, Ea.
  - by rewrite A6, Er.
Qed.
End region.
