(* ===== verification/FrameCalls.v ===== *)
(** * The frame allocator in use

    The calls the kernel makes, who owns what after them, and what every state
    that can be reached has in common. *)

From S2P Require Import Prelude FrameLists FrameAllocator Extents FrameSort FrameShard FrameCoalesce FrameFrontier FrameOps FrameRegion.
From Stdlib Require Import Bool.
#[local] Open Scope Z_scope.

(** ** Calls *)
Inductive Call : Type :=
| Alloc (cpu : nat) (order : Order)
| AllocZeroed (cpu : nat) (order : Order)
| Free (cpu : nat) (f : Frame)
| Coalesce (cpu : nat) (budget : Z)
| Scrub (cpu : nat) (budget : Z)
| AddRegion (cpu : nat) (base len : Z) (reserved : list Reserved)
| Rebind (phys_offset limit : Z).

Definition perform (c : Call) : sm Machine fault (option Frame) :=
  match c with
  | Alloc cpu order => FrameAllocator_alloc cpu order
  | AllocZeroed cpu order => FrameAllocator_alloc_zeroed cpu order
  | Free cpu f => do! _ <- FrameAllocator_free cpu f; sm_ret None
  | Coalesce cpu budget => do! _ <- FrameAllocator_coalesce cpu budget; sm_ret None
  | Scrub cpu budget => do! _ <- FrameAllocator_scrub cpu budget; sm_ret None
  | AddRegion cpu base len reserved => do! _ <- FrameAllocator_add_region cpu base len reserved; sm_ret None
  | Rebind phys_offset limit => do! _ <- sm_put (λ '(m, fa), (m, FrameAllocator_rebind phys_offset limit fa)); sm_ret None
  end.

(** ** Who owns what: bytes handed out, and bytes the allocator was given *)
Record Ledger : Type := mkLedger { owned : Z → Z; given : Z → Z }.
Definition ledger_empty : Ledger := mkLedger (λ _, 0) (λ _, 0).

Definition region (base len : Z) (reserved : list Reserved) (M : Machine) : Z → Z := accepted base len reserved (win_limit (fa_map M.2)).

Definition settle (c : Call) (r : option Frame) (M : Machine) (L : Ledger) : Ledger :=
  match c with
  | Alloc _ _ | AllocZeroed _ _ =>
      match r with
      | Some f => mkLedger (λ x, owned L x + bcov (frame_order f) (frame_base f) x) (given L)
      | None => L
      end
  | Free _ f => mkLedger (λ x, owned L x - bcov (frame_order f) (frame_base f) x) (given L)
  | AddRegion _ base len reserved => mkLedger (owned L) (λ x, given L x + region base len reserved M x)
  | Coalesce _ _ | Scrub _ _ | Rebind _ _ => L
  end.

(** What the kernel owes: it frees what it owns, each whole and aligned; adds
    memory once; and rebinds to a window no smaller. *)
Definition allowed (c : Call) (M : Machine) (L : Ledger) : Prop :=
  match c with
  | Alloc cpu order | AllocZeroed cpu order => (cpu < MAX_CPUS)%nat ∧ (order < ORDERS)%nat
  | Free cpu f => (cpu < MAX_CPUS)%nat ∧ (frame_order f < ORDERS)%nat ∧ (Order_bytes (frame_order f) | frame_base f) ∧
      ∀ x, bcov (frame_order f) (frame_base f) x ≤ owned L x
  | Coalesce cpu budget => (cpu < MAX_CPUS)%nat
  | Scrub cpu budget => (cpu < MAX_CPUS)%nat ∧ 0 ≤ budget ≤ u64_max
  | AddRegion cpu base len reserved => (cpu < MAX_CPUS)%nat ∧ 0 ≤ base ∧ base + FRAME_SIZE - 1 ≤ u64_max ∧
      (∀ x, given L x + region base len reserved M x ≤ 1) ∧
      fa_unreachable M.2 + frames (refused base len reserved (win_limit (fa_map M.2))) ≤ u64_max
  | Rebind phys_offset limit => 0 ≤ phys_offset ∧ win_limit (fa_map M.2) ≤ limit ≤ u64_max ∧ limit + phys_offset ≤ 2 ^ 64
  end.

Inductive step : Machine * Ledger → Machine * Ledger → Prop :=
| step_call c M L r M' : allowed c M L → perform c M = (Ok r, M') → step (M, L) (M', settle c r M L)
| step_write m m' fa L : (∀ x, owned L x = 0 → m' x = m x) → step ((m, fa), L) ((m', fa), L).

(** From the boot allocator, over whatever memory holds. *)
Inductive reached_by : Machine → Ledger → Prop :=
| reached_boot m cookie : reached_by (m, FrameAllocator_new cookie) ledger_empty
| reached_step M L M' L' : reached_by M L → step (M, L) (M', L') → reached_by M' L'.

(** ** The invariant *)
Record In_use (M : Machine) (L : Ledger) (G : Holding) : Prop := {
  iu_machine : Machine_ok M G;
  iu_split : ∀ x, free_mem M G x + owned L x = given L x;
  iu_owned : ∀ x, 0 ≤ owned L x;
  iu_given : ∀ x, given L x ≤ 1;
  iu_low : ∀ x, given L x ≠ 0 → 0 < frame_of x ∧ frame_of x + FRAME_SIZE ≤ win_limit (fa_map M.2);
  iu_total : fa_total M.2 * FRAME_SIZE = mass (2 ^ 64) (given L);
  iu_unreachable : 0 ≤ fa_unreachable M.2;
}.

Lemma gcov_none x : gcov held_none x = 0.
Proof. unfold gcov, kcov, held_none. by rewrite !(zsum_ext _ (λ _, 0)), !zsum_zero by done. Qed.

Lemma kcov_none c x : kcov held_none c x = 0.
Proof. pose proof (gcov_none x). pose proof (kcov_nonneg held_none false x). pose proof (kcov_nonneg held_none true x). unfold gcov in *. destruct c; lia. Qed.

Lemma boot_in_use m cookie : In_use (m, FrameAllocator_new cookie) ledger_empty (λ _, held_none).
Proof.
  assert (Hf : ∀ x, free_mem (m, FrameAllocator_new cookie) (λ _, held_none) x = 0).
  { intros x. unfold free_mem, mcov. rewrite (zsum_ext _ (λ _, 0)) by (intros; apply gcov_none). by rewrite zsum_zero. }
  split; [|intros x; rewrite Hf; done|done|done|done| |done].
  - split; cbn [fst snd].
    + split; by vm_compute.
    + done.
    + intros cpu s Hs%lookup_replicate_1. destruct Hs as [-> _].
      split; [split|].
      * by intros [].
      * intros c o Ho. unfold held_none, Lists_head. cbn [chain].
        by destruct c; cbn [Shard_lists Shard_EMPTY sh_clean sh_dirty Lists_EMPTY heads]; rewrite lookup_replicate_2 by done.
      * by intros c o b _ ?%elem_of_nil.
      * by intros o b _ ?%elem_of_nil.
      * intros x. rewrite gcov_none. lia.
      * intros c. rewrite mass_zero by (intros; apply kcov_none). by destruct c.
    + split; [done|cbn; lia|by intros r ?%elem_of_nil|]. by rewrite mass_zero.
    + intros x. specialize (Hf x). unfold free_mem in Hf. cbn in Hf. cbn. lia.
  - by rewrite mass_zero.
Qed.

(** A larger window. *)
Lemma rebind_ok m fa G phys_offset limit :
  Machine_ok (m, fa) G → 0 ≤ phys_offset → win_limit (fa_map fa) ≤ limit ≤ u64_max → limit + phys_offset ≤ 2 ^ 64 →
  Machine_ok (m, FrameAllocator_rebind phys_offset limit fa) G.
Proof.
  intros [[W1 W2 W3] H2 H3 H4 H5] Hp Hl Hr. cbn in *. split; cbn; [split; cbn; lia|done| | |done].
  - intros cpu s Hs. destruct (H3 cpu s Hs) as [[S1 S2 S3 S4 S5] Hc]. split; [split|done]; [done| | |done|done].
    + intros c o Ho. specialize (S2 c o Ho). generalize dependent (Lists_head (Shard_lists s c) o). clear -m.
      induction (G cpu c o) as [|b l IH]; intros h; cbn; [done|]. intros (-> & Hb & Hl). split_and!; [done|done|by apply IH].
    + intros c o b Ho Hb. destruct (S3 c o b Ho Hb) as [B1 B2 B3]. split; cbn; [done|done|lia].
  - destruct H4 as [F1 F2 F3 F4]. split; [done|done| |done]. intros r Hr1. destruct (F3 r Hr1) as [R1 R2 R3 R4]. split; cbn; [done|done|done|lia].
Qed.

Section in_use.
Implicit Types (M : Machine) (G : Holding) (L : Ledger).

Lemma owned_not_free M L G x : In_use M L G → owned L x ≠ 0 → free_mem M G x = 0 ∧ owned L x = 1 ∧ given L x = 1.
Proof.
  intros [H1 H2 H3 H4 _ _ _] Hx. pose proof (free_nonneg M G x). specialize (H2 x). specialize (H3 x). specialize (H4 x). lia.
Qed.

(** A call that only moves memory between the allocator and its owners. *)
Lemma moved_in_use M L G d e M' G' o :
  In_use M L G → moved M G d e M' G' → (∀ x, o x = owned L x + d x - e x) → (∀ x, 0 ≤ o x) → In_use M' (mkLedger o (given L)) G'.
Proof.
  intros [H1 H2 H3 H4 H5 H6 H7] [A1 A2 A3 (B1 & B2 & B3)] Ho Hpos. split; cbn; [done| |done|done| | |].
  - intros x. rewrite Ho. specialize (H2 x). specialize (A2 x). lia.
  - by rewrite B1.
  - by rewrite B2.
  - by rewrite B3.
Qed.

Lemma moved_keeps M L G d e M' G' o :
  In_use M L G → moved M G d e M' G' → (∀ x, o x = owned L x + d x - e x) → (∀ x, 0 ≤ d x ≤ free_mem M G x) → (∀ x, 0 ≤ e x) → (∀ x, 0 ≤ o x) →
  ∀ x, owned L x ≠ 0 → o x ≠ 0 → M'.1 x = M.1 x.
Proof.
  intros H Hm Ho Hd He Hp x Hx Hox. destruct (owned_not_free M L G x H Hx) as (E1 & E2 & _). apply (mv_frame _ _ _ _ _ _ Hm).
  specialize (Ho x). specialize (Hd x). specialize (He x). specialize (Hp x). lia.
Qed.

(** A block that left was free. *)
Lemma left_free M G o b M' G' x : moved M G (blk o b) nothing M' G' → 0 ≤ blk o b x ≤ free_mem M G x.
Proof.
  intros Hm. pose proof (mv_free _ _ _ _ _ _ Hm x) as E. pose proof (free_nonneg M' G' x). pose proof (bcov_range o b x).
  unfold nothing, blk in *. lia.
Qed.

Lemma owned_block M L G o b :
  In_use M L G → (Order_bytes o | b) → (∀ x, bcov o b x ≤ owned L x) → block_ok (fa_map M.2) o b.
Proof.
  intros H Ha Hb. pose proof (Order_bytes_pos o) as Hp. unfold FRAME_SIZE in Hp.
  assert (Hin : ∀ x, b ≤ x < b + Order_bytes o → given L x ≠ 0).
  { intros x Hx%bcov_in. specialize (Hb x). destruct (owned_not_free M L G x H) as (_ & _ & E); lia. }
  assert (Hf : (FRAME_SIZE | b)) by (etransitivity; [apply (FRAME_divide o)|done]).
  assert (Hf2 : (FRAME_SIZE | b + Order_bytes o)) by (apply Z.divide_add_r; [done|apply FRAME_divide]).
  split; [done| |].
  - destruct (iu_low _ _ _ H b) as [H1 _]; [apply Hin; lia|]. rewrite (frame_of_in b) in H1; unfold FRAME_SIZE; (done || lia).
  - destruct (iu_low _ _ _ H (b + Order_bytes o - 1)) as [_ H1]; [apply Hin; lia|].
    rewrite (frame_of_in (b + Order_bytes o - FRAME_SIZE)) in H1; [unfold FRAME_SIZE in *; lia| |unfold FRAME_SIZE; lia].
    by apply Z.divide_sub_r.
Qed.

(** What every call does, from a state in use. *)
Definition served M L c r M' : Prop :=
  (∃ G', In_use M' (settle c r M L) G') ∧ ∀ x, owned L x ≠ 0 → owned (settle c r M L) x ≠ 0 → M'.1 x = M.1 x.

Lemma settle_same L (o : Z → Z) G M : (∀ x, o x = owned L x) → In_use M (mkLedger o (given L)) G → In_use M L G.
Proof. intros Ho [H1 H2 H3 H4 H5 H6 H7]. cbn in *. split; [exact H1| | |exact H4|exact H5|exact H6|exact H7]; intros x; rewrite <- Ho; [apply H2|apply H3]. Qed.

Lemma quiet_in_use M L G M' G' : In_use M L G → moved M G nothing nothing M' G' →
  In_use M' L G' ∧ ∀ x, owned L x ≠ 0 → M'.1 x = M.1 x.
Proof.
  intros H Hm. split.
  - apply (settle_same L (owned L)); [done|]. apply (moved_in_use M L G nothing nothing M' G' _ H Hm).
    + intros x. unfold nothing. lia.
    + apply (iu_owned _ _ _ H).
  - intros x Hx. apply (moved_keeps M L G nothing nothing M' G' (owned L) H Hm); [..|exact Hx|exact Hx]; intros y; unfold nothing; try lia.
    + split; [lia|apply free_nonneg].
    + apply (iu_owned _ _ _ H).
Qed.

Lemma taken_in_use M L G M' G' f : In_use M L G → moved M G (blk (frame_order f) (frame_base f)) nothing M' G' →
  let o := λ x, owned L x + bcov (frame_order f) (frame_base f) x in
  In_use M' (mkLedger o (given L)) G' ∧ ∀ x, owned L x ≠ 0 → M'.1 x = M.1 x.
Proof.
  intros H Hm o. assert (Hpos : ∀ x, owned L x ≤ o x) by (intros x; unfold o; pose proof (bcov_range (frame_order f) (frame_base f) x); lia).
  assert (Ho : ∀ x, o x = owned L x + blk (frame_order f) (frame_base f) x - nothing x) by (intros; unfold o, blk, nothing; lia).
  assert (H0 : ∀ x, 0 ≤ o x) by (intros x; pose proof (iu_owned _ _ _ H x); specialize (Hpos x); lia). split.
  - by apply (moved_in_use M L G _ _ M' G' o H Hm Ho).
  - intros x Hx. apply (moved_keeps M L G _ _ M' G' o H Hm Ho).
    + intros y. by eapply left_free.
    + intros y. unfold nothing. lia.
    + done.
    + done.
    + pose proof (iu_owned _ _ _ H x). specialize (Hpos x). lia.
Qed.

Lemma freed_in_use cpu f M L G : In_use M L G → allowed (Free cpu f) M L →
  ∃ M' G', FrameAllocator_free cpu f M = (Ok tt, M') ∧ In_use M' (settle (Free cpu f) None M L) G' ∧
    ∀ x, owned L x ≠ 0 → owned (settle (Free cpu f) None M L) x ≠ 0 → M'.1 x = M.1 x.
Proof.
  intros H (Hc & Ho & Ha & Hb). destruct (frame_free_spec cpu f M G (iu_machine _ _ _ H) Hc Ho) as (M' & G' & E & Hm).
  - by eapply owned_block.
  - intros x. specialize (Hb x). pose proof (iu_split _ _ _ H x). pose proof (iu_given _ _ _ H x). lia.
  - exists M', G'. split; [done|]. cbn [settle owned].
    assert (Eo : ∀ x, owned L x - bcov (frame_order f) (frame_base f) x = owned L x + nothing x - blk (frame_order f) (frame_base f) x) by (intros; unfold nothing, blk; lia).
    assert (H0 : ∀ x, 0 ≤ owned L x - bcov (frame_order f) (frame_base f) x) by (intros x; specialize (Hb x); lia).
    split; [by apply (moved_in_use M L G _ _ M' G' _ H Hm Eo)|].
    apply (moved_keeps M L G _ _ M' G' _ H Hm Eo); [|intros x; apply bcov_range|done].
    intros x. unfold nothing. split; [lia|apply free_nonneg].
Qed.

Lemma region_grown cpu base len reserved M L G : In_use M L G → allowed (AddRegion cpu base len reserved) M L →
  ∃ M' G', FrameAllocator_add_region cpu base len reserved M = (Ok tt, M') ∧
    grown M G (region base len reserved M) (saturating_add 64 (fa_total M.2) (frames (region base len reserved M)))
      (fa_unreachable M.2 + frames (refused base len reserved (win_limit (fa_map M.2)))) M' G'.
Proof.
  intros H (Hc & Hb & Hmax & Hap & Hu). pose proof (iu_total _ _ _ H) as Ht.
  assert (Hsplit : ∀ x, free_mem M G x ≤ given L x) by (intros x; pose proof (iu_split _ _ _ H x); pose proof (iu_owned _ _ _ H x); lia).
  assert (Hm1 : mass (2 ^ 64) (given L) ≤ 2 ^ 64) by (apply mass_at_most; [lia|apply (iu_given _ _ _ H)]).
  assert (Hm0 : 0 ≤ mass (2 ^ 64) (given L)) by (apply mass_nonneg; intros x; specialize (Hsplit x); pose proof (free_nonneg M G x); lia).
  apply (add_region_spec cpu base len reserved M G Hc Hb (iu_machine _ _ _ H)); [| | |exact Hmax].
  - intros x. specialize (Hap x). specialize (Hsplit x). unfold region in Hap. lia.
  - unfold FRAME_SIZE, u64_max in *. lia.
  - split; [apply (iu_unreachable _ _ _ H)|done].
Qed.

Lemma region_in_use cpu base len reserved M L G : In_use M L G → allowed (AddRegion cpu base len reserved) M L →
  ∃ M' G', FrameAllocator_add_region cpu base len reserved M = (Ok tt, M') ∧ In_use M' (settle (AddRegion cpu base len reserved) None M L) G' ∧
    ∀ x, owned L x ≠ 0 → M'.1 x = M.1 x.
Proof.
  intros H (Hc & Hb & Hmax & Hap & Hu). set (acc := region base len reserved M) in *.
  assert (Hsplit : ∀ x, free_mem M G x ≤ given L x) by (intros x; pose proof (iu_split _ _ _ H x); pose proof (iu_owned _ _ _ H x); lia).
  assert (Hacc : ∀ x, 0 ≤ acc x) by (intros x; apply accepted_range).
  assert (Hgiven : ∀ x, 0 ≤ given L x) by (intros x; specialize (Hsplit x); pose proof (free_nonneg M G x); lia).
  assert (Hm1 : mass (2 ^ 64) (given L) ≤ 2 ^ 64) by (apply mass_at_most; [lia|apply (iu_given _ _ _ H)]).
  assert (Hm2 : mass (2 ^ 64) (given L) + mass (2 ^ 64) acc ≤ 2 ^ 64) by (rewrite <- mass_add; apply mass_at_most; [lia|exact Hap]).
  pose proof (mass_nonneg (2 ^ 64) (given L) Hgiven) as Hm0. pose proof (iu_total _ _ _ H) as Ht.
  destruct (region_grown cpu base len reserved M L G H (conj Hc (conj Hb (conj Hmax (conj Hap Hu))))) as (M' & G' & E & [A1 A2 A3 A4 A5 A6]).
  fold acc in A2, A3, A5. exists M', G'. split; [done|]. cbn [settle]. fold acc. split.
  - split; cbn [owned given]; [done| |apply (iu_owned _ _ _ H)|done| | |].
    + intros x. rewrite A2, <- (iu_split _ _ _ H). lia.
    + intros x Hx. rewrite A4. destruct (decide (given L x = 0)) as [E0|Hg]; [|by apply (iu_low _ _ _ H)].
      assert (acc x ≠ 0) as Ha by lia. apply accepted_low in Ha. unfold LOW_MEMORY_LIMIT in Ha. lia.
    + rewrite mass_add, A5, <- Ht. change (λ x, acc x) with acc.
      destruct (accepted_whole base len reserved (win_limit (fa_map M.2))) as [q Hq]. change (accepted _ _ _ _) with acc in Hq.
      unfold frames. rewrite Hq, Z.div_mul by (unfold FRAME_SIZE; lia). unfold saturating_add, FRAME_SIZE in *. lia.
    + rewrite A6. pose proof (iu_unreachable _ _ _ H).
      assert (0 ≤ frames (refused base len reserved (win_limit (fa_map M.2)))) by (apply frames_nonneg; intros x; apply refused_range).
      lia.
  - intros x Hx. apply A3. destruct (owned_not_free M L G x H Hx) as (E1 & _ & E3). specialize (Hap x). specialize (Hacc x). lia.
Qed.

(** Every allowed call returns, and leaves the allocator in use. *)
Lemma call_spec c M L G : In_use M L G → allowed c M L → ∃ r M', perform c M = (Ok r, M') ∧ served M L c r M'.
Proof.
  intros H Ha. pose proof (iu_machine _ _ _ H) as Hm. unfold served. destruct c as [cpu o|cpu o|cpu f|cpu b|cpu b|cpu base len reserved|off limit]; cbn [perform allowed] in *.
  - destruct Ha as [Hc Ho]. destruct (alloc_spec cpu o M G Hm Hc Ho) as (r & M' & G' & E & Hr). exists r, M'. split; [exact E|]. destruct r as [f|].
    + destruct Hr as (<- & _ & Hmv). destruct (taken_in_use M L G M' G' f H Hmv) as [Hi Hk]. split; [by exists G'|]. intros x Hx _. by apply Hk.
    + destruct Hr as [Hmv _]. destruct (quiet_in_use M L G M' G' H Hmv) as [Hi Hk]. split; [by exists G'|]. intros x Hx _. by apply Hk.
  - destruct Ha as [Hc Ho]. destruct (alloc_zeroed_spec cpu o M G Hm Hc Ho) as (r & M' & G' & E & Hr). exists r, M'. split; [exact E|]. destruct r as [f|].
    + destruct Hr as (<- & _ & _ & Hmv). destruct (taken_in_use M L G M' G' f H Hmv) as [Hi Hk]. split; [by exists G'|]. intros x Hx _. by apply Hk.
    + destruct Hr as [Hmv _]. destruct (quiet_in_use M L G M' G' H Hmv) as [Hi Hk]. split; [by exists G'|]. intros x Hx _. by apply Hk.
  - destruct (freed_in_use cpu f M L G H Ha) as (M' & G' & E & Hi & Hk). exists None, M'. unfold sm_bind. rewrite E.
    split; [done|]. split; [by exists G'|exact Hk].
  - destruct (coalesce_spec cpu b M G Hm Ha) as (n & M' & G' & E & Hmv & _). exists None, M'. unfold sm_bind. rewrite E. split; [done|].
    destruct (quiet_in_use M L G M' G' H Hmv) as [Hi Hk]. split; [by exists G'|]. intros x Hx _. by apply Hk.
  - destruct Ha as [Hc Hb]. destruct (scrub_spec cpu b M G Hm Hc Hb) as (n & M' & G' & E & Hmv & _). exists None, M'. unfold sm_bind. rewrite E. split; [done|].
    destruct (quiet_in_use M L G M' G' H Hmv) as [Hi Hk]. split; [by exists G'|]. intros x Hx _. by apply Hk.
  - destruct (region_in_use cpu base len reserved M L G H Ha) as (M' & G' & E & Hi & Hk). exists None, M'. unfold sm_bind. rewrite E.
    split; [done|]. split; [by exists G'|]. intros x Hx _. by apply Hk.
  - destruct M as [m fa]. destruct Ha as (H1 & H2 & H3). exists None, (m, FrameAllocator_rebind off limit fa). split; [done|]. split; [|done].
    exists G. destruct H as [A1 A2 A3 A4 A5 A6 A7]. split; [by apply rebind_ok|exact A2|exact A3|exact A4| |exact A6|cbn; lia].
    intros x Hx. destruct (A5 x Hx). cbn in *. lia.
Qed.

Lemma write_in_use m m' fa L G : In_use (m, fa) L G → (∀ x, owned L x = 0 → m' x = m x) → In_use (m', fa) L G.
Proof.
  intros [A1 A2 A3 A4 A5 A6 A7] Hm. split; [|exact A2|exact A3|exact A4|exact A5|exact A6|exact A7].
  eapply machine_write; [exact A1|]. intros x Hx. apply Hm. specialize (A2 x). specialize (A3 x). specialize (A4 x).
  pose proof (free_nonneg (m, fa) G x). lia.
Qed.

Lemma reached_in_use M L : reached_by M L → ∃ G, In_use M L G.
Proof.
  induction 1 as [m cookie|M L M' L' _ [G H] Hs]; [exists (λ _, held_none); apply boot_in_use|].
  inversion Hs as [c M1 L1 r M2 Ha E|m m' fa L1 Hm]; subst.
  - destruct (call_spec c M L G H Ha) as (r' & M2 & E' & [Hi _]). rewrite E in E'. by injection E' as <- <-.
  - exists G. by apply (write_in_use m).
Qed.
End in_use.

(** ** How many frames are free *)
Lemma sum_spec pick fa (n : nat → Z) :
  (∀ cpu, (cpu < MAX_CPUS)%nat → ∃ s, fa_shards fa !! cpu = Some s ∧ pick s = Ok (n cpu) ∧ 0 ≤ n cpu) → zsum n (seq 0 MAX_CPUS) ≤ u64_max →
  FrameAllocator_sum pick fa = Ok (zsum n (seq 0 MAX_CPUS)).
Proof.
  intros Hn Hsum. unfold FrameAllocator_sum.
  assert (H : ∀ l t, (∀ cpu, cpu ∈ l → (cpu < MAX_CPUS)%nat) → t + zsum n l ≤ u64_max →
    foldl (λ total cpu, let? total := total in let? s := ok_or (fa_shards fa !! cpu) Panicked in let? k := pick s in Ok (saturating_add 64 total k)) (Ok t) l
      = Ok (t + zsum n l)).
  { induction l as [|cpu l IH]; intros t Hl Ht; cbn [foldl zsum]; [f_equal; lia|]. cbn [zsum] in Ht.
    destruct (Hn cpu) as (s & Es & Ep & H0); [apply Hl, list_elem_of_here|]. cbn [res_bind]. rewrite Es. cbn [ok_or res_bind]. rewrite Ep. cbn [res_bind].
    assert (0 ≤ zsum n l).
    { apply zsum_nonneg. intros c Hc. destruct (Hn c) as (_ & _ & _ & ?); [by apply Hl, list_elem_of_further|done]. }
    assert (saturating_add 64 t (n cpu) = t + n cpu) as -> by (unfold saturating_add, u64_max in *; lia).
    rewrite IH; [f_equal; lia| |lia]. intros c Hc. by apply Hl, list_elem_of_further. }
  rewrite (H _ 0); [done| |lia]. intros cpu Hc%elem_of_seq. lia.
Qed.

Lemma free_count_spec M G : Machine_ok M G → ∃ n, FrameAllocator_free_count M.2 = Ok n ∧ n * FRAME_SIZE = mass (2 ^ 64) (free_mem M G).
Proof.
  intros H. set (n := λ cpu, mass (2 ^ 64) (gcov (G cpu)) / FRAME_SIZE).
  assert (Hn : ∀ cpu, (cpu < MAX_CPUS)%nat → ∃ s, fa_shards M.2 !! cpu = Some s ∧ 0 ≤ sh_clean_frames s ∧ 0 ≤ sh_dirty_frames s ∧
    (sh_clean_frames s + sh_dirty_frames s) * FRAME_SIZE = mass (2 ^ 64) (gcov (G cpu))).
  { intros cpu Hc. destruct (shard_at M G cpu H Hc) as [s Hs]. exists s. destruct (mc_shards _ _ H cpu s Hs) as [_ Hk].
    destruct (frames_mass s (G cpu) false Hk) as [F1 F2], (frames_mass s (G cpu) true Hk) as [T1 T2]. cbn in F1, F2, T1, T2.
    repeat apply conj; [exact Hs|exact T1|exact F1|]. unfold gcov. rewrite mass_add, F2, T2. lia. }
  assert (Hmass : mass (2 ^ 64) (free_mem M G) = zsum (λ cpu, mass (2 ^ 64) (gcov (G cpu))) (seq 0 MAX_CPUS) + mass (2 ^ 64) (fcov (fa_frontier M.2))).
  { unfold free_mem, mcov. rewrite mass_add, mass_sum. f_equal. }
  assert (Hmax : mass (2 ^ 64) (free_mem M G) ≤ 2 ^ 64) by (apply mass_at_most; [lia|apply (mc_apart _ _ H)]).
  assert (Hsum : zsum (λ cpu, mass (2 ^ 64) (gcov (G cpu))) (seq 0 MAX_CPUS) = FRAME_SIZE * zsum n (seq 0 MAX_CPUS)).
  { rewrite <- zsum_scale. apply zsum_ext. intros cpu Hc%elem_of_seq. destruct (Hn cpu) as (s & _ & _ & _ & E); [lia|].
    unfold n. rewrite <- E, Z.div_mul by done. lia. }
  pose proof (mass_nonneg (2 ^ 64) (fcov (fa_frontier M.2)) (fcov_nonneg _)) as Hf0.
  pose proof (fo_frames _ _ (mc_frontier _ _ H)) as Hf.
  assert (Hz : 0 ≤ zsum n (seq 0 MAX_CPUS)).
  { apply zsum_nonneg. intros cpu _. apply Z.div_pos; [apply mass_nonneg, gcov_nonneg|done]. }
  assert (Hs : FrameAllocator_sum (λ s, plus_u64 (sh_clean_frames s) (sh_dirty_frames s)) M.2 = Ok (zsum n (seq 0 MAX_CPUS))).
  { apply sum_spec; [|unfold FRAME_SIZE, u64_max in *; lia]. intros cpu Hc. destruct (Hn cpu Hc) as (s & Es & H1 & H2 & E). exists s.
    assert (En : sh_clean_frames s + sh_dirty_frames s = n cpu) by (unfold n; rewrite <- E, Z.div_mul by done; lia).
    assert (Hle : n cpu ≤ zsum n (seq 0 MAX_CPUS)).
    { apply zsum_elem; [|apply elem_of_seq; lia]. intros c _. apply Z.div_pos; [apply mass_nonneg, gcov_nonneg|done]. }
    split; [exact Es|]. unfold plus_u64. rewrite En. destruct (Z.ltb_spec u64_max (n cpu)); [unfold FRAME_SIZE, u64_max in *; lia|]. split; [reflexivity|lia]. }
  unfold FrameAllocator_free_count. rewrite Hs. cbn [res_bind]. eexists. split; [reflexivity|].
  rewrite Hmass, Hsum, <- Hf. unfold saturating_add, FRAME_SIZE in *. lia.
Qed.

(** * What a core's lists hold once they are merged

    Lists in which no two buddies are left hold every aligned block their
    memory has: one that is covered by smaller blocks would have been merged. *)

(** The byte lies in a block on one of the core's lists of the kind. *)
Definition listed (M : Machine) (cpu : nat) (clean : bool) (x : Z) : Prop :=
  ∃ s o l b, fa_shards M.2 !! cpu = Some s ∧ (o < ORDERS)%nat ∧ chain (fa_map M.2) M.1 (Lists_head (Shard_lists s clean) o) l ∧
    b ∈ l ∧ b ≤ x < b + Order_bytes o.

Lemma chain_unique w m l : ∀ h l', chain w m h l → chain w m h l' → l = l'.
Proof.
  induction l as [|b l IH]; intros h [|b' l']; cbn; [done|..].
  - by intros -> (<- & [] & _).
  - by intros (-> & Hb & _) ->.
  - intros (-> & _ & H) (-> & _ & H'). f_equal. by eapply IH.
Qed.

Lemma zsum_pos {A} (f : A → Z) (l : list A) : (∀ a, 0 ≤ f a) → zsum f l ≠ 0 → ∃ a, a ∈ l ∧ f a ≠ 0.
Proof.
  intros Hf. induction l as [|a l IH]; cbn; [done|]. intros Hn. destruct (decide (f a = 0)) as [E|Hne].
  - destruct IH as (b & Hb & Hne); [lia|]. exists b. split; [by apply list_elem_of_further|done].
  - exists a. split; [apply list_elem_of_here|done].
Qed.

Lemma kcov_in g c x : kcov g c x ≠ 0 → ∃ o b, (o < ORDERS)%nat ∧ b ∈ g c o ∧ b ≤ x < b + Order_bytes o.
Proof.
  intros (o & Ho%elem_of_seq & Hl)%zsum_pos; [|intros; apply lcov_nonneg].
  apply zsum_pos in Hl as (b & Hb & Hx); [|intros; apply bcov_range]. exists o, b.
  split; [lia|]. split; [done|]. apply bcov_in. pose proof (bcov_range o b x). lia.
Qed.

(** The lists of the core are the ones the machine's account says. *)
Lemma listed_kcov M G cpu c x : Machine_ok M G → (cpu < MAX_CPUS)%nat → listed M cpu c x ↔ kcov (G cpu) c x ≠ 0.
Proof.
  intros H Hc. split.
  - intros (s & o & l & b & Hs & Ho & Hl & Hb & Hx%bcov_in). destruct (mc_shards _ _ H cpu s Hs) as [Hsh _].
    rewrite (chain_unique _ _ _ _ _ Hl (sd_chain _ _ _ _ Hsh c o Ho)) in Hb. pose proof (kcov_elem (G cpu) c o b x Ho Hb). lia.
  - intros (o & b & Ho & Hb & Hx)%kcov_in. destruct (shard_at M G cpu H Hc) as [s Hs]. destruct (mc_shards _ _ H cpu s Hs) as [Hsh _].
    exists s, o, (G cpu c o), b. split; [done|]. split; [done|]. split; [by apply (sd_chain _ _ _ _ Hsh)|done].
Qed.

(** Aligned blocks nest. *)
Lemma aligned_nested k o b b' x : (k ≤ o)%nat → (Order_bytes k | b) → (Order_bytes o | b') → b ≤ x < b + Order_bytes k → b' ≤ x < b' + Order_bytes o →
  b' ≤ b ∧ b + Order_bytes k ≤ b' + Order_bytes o.
Proof.
  intros Hko [p ->] Hb' Hx Hx'. destruct (Order_bytes_divide k o Hko) as [q Hq]. pose proof (Order_bytes_pos k) as Hp. unfold FRAME_SIZE in Hp.
  assert ((Order_bytes k | b')) as [p' ->] by (etransitivity; [by apply Order_bytes_divide|done]). rewrite Hq in *.
  set (B := Order_bytes k) in *. clearbody B. clear Hb' Hq Hko. assert (p' ≤ p) by nia. assert (p + 1 ≤ p' + q) by nia. nia.
Qed.

Lemma merged_block g c :
  (∀ o b, (o < ORDERS)%nat → b ∈ g c o → (Order_bytes o | b)) → (∀ o, (o < Order_MAX)%nat → no_pair g c o) →
  ∀ k b, (k < ORDERS)%nat → (Order_bytes k | b) → (∀ x, b ≤ x < b + Order_bytes k → kcov g c x ≠ 0) →
  ∃ o b', (k ≤ o < ORDERS)%nat ∧ b' ∈ g c o ∧ b' ≤ b ∧ b + Order_bytes k ≤ b' + Order_bytes o.
Proof.
  intros Hal Hnp. induction k as [|k IH]; intros b Hk Hb Hall.
  - pose proof (Order_bytes_pos 0%nat) as Hp. unfold FRAME_SIZE in Hp.
    destruct (kcov_in g c b) as (o & b' & Ho & Hb' & Hx); [apply Hall; lia|]. exists o, b'. split; [lia|]. split; [done|].
    apply (aligned_nested 0%nat o b b' b); [lia|done|by apply Hal|lia|done].
  - pose proof (Order_bytes_pos k) as Hp. unfold FRAME_SIZE in Hp. assert (Hbk : (Order_bytes k | b)) by (etransitivity; [apply Order_bytes_divide|exact Hb]; lia).
    rewrite Order_bytes_S in Hall |- *.
    destruct (IH b) as (o1 & b1 & Ho1 & Hb1 & Hl1 & Hr1); [lia|done|intros x Hx; apply Hall; lia|].
    destruct (IH (b + Order_bytes k)) as (o2 & b2 & Ho2 & Hb2 & Hl2 & Hr2); [lia|apply Z.divide_add_r; [done|apply Z.divide_refl]|intros x Hx; apply Hall; lia|].
    destruct (decide (o1 = k)) as [->|Hne1]; [destruct (decide (o2 = k)) as [->|Hne2]|].
    + exfalso. assert (b1 = b) as -> by lia. assert (b2 = b + Order_bytes k) as -> by lia.
      apply (Hnp k) in Hb1; [by apply Hb1|unfold Order_MAX, ORDERS in *; lia|done].
    + exists o2, b2. split; [lia|]. split; [done|]. rewrite <- Order_bytes_S.
      apply (aligned_nested (S k) o2 b b2 (b + Order_bytes k)); [lia|done|apply Hal; [lia|done]|rewrite Order_bytes_S; lia|lia].
    + exists o1, b1. split; [lia|]. split; [done|]. rewrite <- Order_bytes_S.
      apply (aligned_nested (S k) o1 b b1 b); [lia|done|apply Hal; [lia|done]|rewrite Order_bytes_S; lia|lia].
Qed.

(** A core with nothing that large has no such block at all. *)
Lemma exhausted_block M G cpu order c b :
  Machine_ok M G → (cpu < MAX_CPUS)%nat → (order < ORDERS)%nat → has_none G cpu order → merged G cpu → (Order_bytes order | b) →
  ¬ ∀ x, b ≤ x < b + Order_bytes order → listed M cpu c x.
Proof.
  intros H Hc Ho Hnone Hm Hb Hall. destruct (shard_at M G cpu H Hc) as [s Hs]. destruct (mc_shards _ _ H cpu s Hs) as [Hsh _].
  destruct (merged_block (G cpu) c) with (k := order) (b := b) as (o & b' & Hlt & Hb' & _); [|by intros; apply Hm|done|done| |].
  - intros o b' Hlt Hb'. apply (sd_blocks _ _ _ _ Hsh c o b' Hlt Hb').
  - intros x Hx. by apply (listed_kcov M G), Hall.
  - rewrite (Hnone c o) in Hb' by lia. by apply elem_of_nil in Hb'.
Qed.

(** ** No byte on two lists *)
Lemma zsum_two {A} (f : A → Z) (l : list A) a b : (∀ a, 0 ≤ f a) → a ≠ b → a ∈ l → b ∈ l → f a + f b ≤ zsum f l.
Proof.
  intros Hf Hne. induction l as [|c l IH]; [by intros ?%elem_of_nil|]. pose proof (Hf c). cbn.
  intros [->|Ha]%elem_of_cons [->|Hb]%elem_of_cons; [done|..].
  - pose proof (zsum_elem f l b (λ b _, Hf b) Hb). lia.
  - pose proof (zsum_elem f l a (λ b _, Hf b) Ha). lia.
  - specialize (IH Ha Hb). lia.
Qed.

Lemma kcov_two g c o b o' b' x : (o < ORDERS)%nat → (o' < ORDERS)%nat → b ∈ g c o → b' ∈ g c o' → (o, b) ≠ (o', b') →
  bcov o b x + bcov o' b' x ≤ kcov g c x.
Proof.
  intros Ho Ho' Hb Hb' Hne. destruct (decide (o = o')) as [<-|Hoo].
  - transitivity (lcov o (g c o) x); [apply (zsum_two (λ b, bcov o b x)); [intros; apply bcov_range|congruence|done|done]|].
    apply (zsum_elem (λ o, lcov o (g c o) x)); [intros; apply lcov_nonneg|apply elem_of_seq; lia].
  - transitivity (lcov o (g c o) x + lcov o' (g c o') x).
    + pose proof (lcov_elem o (g c o) b x Hb). pose proof (lcov_elem o' (g c o') b' x Hb'). lia.
    + apply (zsum_two (λ o, lcov o (g c o) x)); [intros; apply lcov_nonneg|done|apply elem_of_seq; lia..].
Qed.

(** A block on a list of a core. *)
Record on_list (M : Machine) (cpu : nat) (clean : bool) (o : Order) (b : Z) : Prop := {
  ol_order : (o < ORDERS)%nat;
  ol_chain : ∃ s l, fa_shards M.2 !! cpu = Some s ∧ chain (fa_map M.2) M.1 (Lists_head (Shard_lists s clean) o) l ∧ b ∈ l;
}.

Lemma on_list_held M G cpu clean o b : Machine_ok M G → on_list M cpu clean o b → (cpu < MAX_CPUS)%nat ∧ b ∈ G cpu clean o ∧
  block_ok (fa_map M.2) o b ∧ (clean = true → zeroed M.1 o b).
Proof.
  intros H [Ho (s & l & Hs & Hl & Hb)]. pose proof (lookup_lt_Some _ _ _ Hs) as Hc. rewrite (mc_len _ _ H) in Hc.
  destruct (mc_shards _ _ H cpu s Hs) as [Hsh _]. rewrite (chain_unique _ _ _ _ _ Hl (sd_chain _ _ _ _ Hsh clean o Ho)) in Hb.
  split; [done|]. split; [done|]. split; [by apply (sd_blocks _ _ _ _ Hsh clean o b)|]. intros ->. by apply (sd_clean _ _ _ _ Hsh).
Qed.

Lemma on_list_apart M G cpu clean o b cpu' clean' o' b' x :
  Machine_ok M G → on_list M cpu clean o b → on_list M cpu' clean' o' b' → b ≤ x < b + Order_bytes o → b' ≤ x < b' + Order_bytes o' →
  (cpu, clean, o, b) = (cpu', clean', o', b').
Proof.
  intros H H1 H2 Hx%bcov_in Hx'%bcov_in. destruct (on_list_held M G _ _ _ _ H H1) as (Hc & Hb & _). destruct (on_list_held M G _ _ _ _ H H2) as (Hc' & Hb' & _).
  pose proof (ol_order _ _ _ _ _ H1) as Ho. pose proof (ol_order _ _ _ _ _ H2) as Ho'. pose proof (mc_apart _ _ H x) as Hap.
  pose proof (kcov_elem (G cpu) clean o b x Ho Hb) as K1. pose proof (kcov_elem (G cpu') clean' o' b' x Ho' Hb') as K2.
  destruct (decide (cpu = cpu')) as [<-|Hne].
  2:{ exfalso. pose proof (mcov_two G (fa_frontier M.2) cpu cpu' x Hc Hc' Hne) as Hm. unfold pcov in Hm. pose proof (fcov_nonneg (fa_frontier M.2) x).
      pose proof (kcov_gcov (G cpu) clean x). pose proof (kcov_gcov (G cpu') clean' x). lia. }
  pose proof (mcov_cpu G (fa_frontier M.2) cpu x Hc) as Hm. pose proof (fcov_nonneg (fa_frontier M.2) x) as Hf.
  destruct (decide (clean = clean')) as [<-|Hne].
  2:{ exfalso. unfold gcov in Hm. destruct clean, clean'; (done || lia). }
  destruct (decide ((o, b) = (o', b'))) as [E|Hne]; [by injection E as -> ->|]. exfalso.
  pose proof (kcov_two (G cpu) clean o b o' b' x Ho Ho' Hb Hb' Hne). pose proof (kcov_gcov (G cpu) clean x). lia.
Qed.

(** ** Every byte that is free: on a list, or in a run of the frontier *)
Definition free_at (M : Machine) (x : Z) : Prop :=
  (∃ cpu c, (cpu < MAX_CPUS)%nat ∧ listed M cpu c x) ∨ ∃ r, r ∈ live (fa_frontier M.2) ∧ run_next r ≤ x < run_end r.

Lemma free_at_mem M G x : Machine_ok M G → free_at M x ↔ free_mem M G x ≠ 0.
Proof.
  intros H. assert (Hnn : ∀ cpu, 0 ≤ gcov (G cpu) x) by (intros; apply gcov_nonneg). pose proof (fcov_nonneg (fa_frontier M.2) x) as Hf. split.
  - intros [(cpu & c & Hc & Hl)|(r & Hr & Hx%cov_in)].
    + apply (listed_kcov M G cpu c x H Hc) in Hl. pose proof (mcov_cpu G (fa_frontier M.2) cpu x Hc). unfold free_mem.
      pose proof (kcov_gcov (G cpu) c x). pose proof (kcov_nonneg (G cpu) c x). lia.
    + pose proof (zsum_elem (λ r, rcov r x) (live (fa_frontier M.2)) r (λ r _, proj1 (cov_range _ _ _)) Hr) as Hle. unfold rcov at 1 in Hle.
      unfold free_mem, mcov. unfold fcov in *. pose proof (zsum_nonneg (λ cpu, gcov (G cpu) x) (seq 0 MAX_CPUS) (λ cpu _, Hnn cpu)). lia.
  - intros Hx. unfold free_mem, mcov in Hx. destruct (decide (fcov (fa_frontier M.2) x = 0)) as [E|Hne].
    + left. rewrite E, Z.add_0_r in Hx. apply zsum_pos in Hx as (cpu & Hc%elem_of_seq & Hg); [|done]. unfold gcov in Hg.
      assert (Hcpu : (cpu < MAX_CPUS)%nat) by lia.
      destruct (decide (kcov (G cpu) false x = 0)) as [E0|E0].
      * exists cpu, true. split; [done|]. apply (listed_kcov M G cpu true x H Hcpu). lia.
      * exists cpu, false. split; [done|]. by apply (listed_kcov M G cpu false x H Hcpu).
    + right. unfold fcov in Hne. apply zsum_pos in Hne as (r & Hr & Hc); [|intros; apply cov_range]. exists r. split; [done|].
      apply cov_in. pose proof (cov_range (run_next r) (run_end r) x). unfold rcov in Hc. lia.
Qed.

Lemma free_at_same M G M' G' : Machine_ok M G → Machine_ok M' G' → (∀ x, free_mem M' G' x = free_mem M G x) → ∀ x, free_at M' x ↔ free_at M x.
Proof. intros H H' E x. by rewrite (free_at_mem M' G' x H'), (free_at_mem M G x H), E. Qed.
