(* ===== verification/FrameTheorems.v ===== *)
(** * What the frame allocator promises

    About every state the kernel can bring it to, by the calls of [FrameCalls]
    and by writing to what it owns. *)

From S2P Require Import Prelude FrameLists FrameAllocator Extents FrameSort FrameShard FrameCoalesce FrameFrontier FrameOps FrameRegion FrameCalls.
From Stdlib Require Import Bool.
#[local] Open Scope Z_scope.

(** ** A state for the examples: one region, with a gap, from boot *)
Definition boot : Machine := (λ _, 7, FrameAllocator_new 12345).
Definition holes : list Reserved := [Reserved_new (2 ^ 20) 123456; Reserved_new (2 ^ 23) 4096].
Definition first_region : Call := AddRegion 0 0 (2 ^ 27) holes.
Definition given_region : Machine := (perform first_region boot).2.
Definition given_ledger : Ledger := settle first_region None boot ledger_empty.
Definition first_frame : Frame := mkFrame 8392704 0%nat.
Definition in_use : Machine := (perform (AllocZeroed 1 0%nat) given_region).2.
Definition in_use_ledger : Ledger := settle (AllocZeroed 1 0%nat) (Some first_frame) given_region given_ledger.

Lemma frames_at_most f : (∀ x, f x ≤ 1) → frames f ≤ 2 ^ 52.
Proof.
  intros H. unfold frames. apply Z.div_le_upper_bound; [done|]. pose proof (mass_at_most (2 ^ 64) f ltac:(lia) H). unfold FRAME_SIZE. lia.
Qed.

Lemma first_region_allowed : allowed first_region boot ledger_empty.
Proof.
  unfold allowed, first_region. assert (H : ∀ x, region 0 (2 ^ 27) holes boot x ≤ 1) by (intros x; apply accepted_range).
  pose proof (frames_at_most (refused 0 (2 ^ 27) holes (win_limit (fa_map boot.2))) (λ x, proj2 (refused_range _ _ _ _ _))) as Hf.
  refine (conj _ (conj _ (conj _ (conj _ _)))); [apply Nat.ltb_lt; reflexivity|lia|vm_compute; discriminate|exact H|].
  change (fa_unreachable boot.2) with 0. etransitivity; [exact Hf|vm_compute; discriminate].
Qed.

Lemma call_reached c M L r : reached_by M L → allowed c M L → (perform c M).1 = Ok r → reached_by (perform c M).2 (settle c r M L).
Proof. intros H Ha E. eapply reached_step; [exact H|]. apply step_call; [exact Ha|]. rewrite <- E. by destruct (perform c M). Qed.

Lemma in_use_reached : reached_by in_use in_use_ledger.
Proof.
  apply call_reached; [|by split; apply Nat.ltb_lt|vm_compute; reflexivity].
  apply call_reached; [apply reached_boot|apply first_region_allowed|vm_compute; reflexivity].
Qed.

(** ** Allocation *)

Lemma answer_None {A} (f : sm Machine fault (option A)) M : (f M).1 = Ok None → f M = (Ok None, (f M).2).
Proof. destruct (f M). cbn. by intros ->. Qed.

Lemma taken_unshared M L G o b M' G' x : In_use M L G → moved M G (blk o b) nothing M' G' → b ≤ x < b + Order_bytes o → owned L x = 0 ∧ given L x = 1.
Proof.
  intros H Hmv Hx%bcov_in. pose proof (left_free M G o b M' G' x Hmv) as Hl. unfold blk in Hl.
  pose proof (iu_split _ _ _ H x). pose proof (iu_owned _ _ _ H x). pose proof (iu_given _ _ _ H x). lia.
Qed.



(** [alloc_zeroed] hands out a block whose every word is zero, whatever its
    last owner left and whether it came from a clean list, a dirty one or the
    frontier; it too is unshared, and owners' memory is left alone. *)
Theorem alloc_zeroed_blank (M : Machine) (L : Ledger) (cpu : nat) (order : Order) :
  reached_by M L → (cpu < MAX_CPUS)%nat → (order < ORDERS)%nat →
  ∃ r M', FrameAllocator_alloc_zeroed cpu order M = (Ok r, M') ∧ (∀ x, owned L x ≠ 0 → M'.1 x = M.1 x) ∧
    match r with
    | Some f => frame_order f = order ∧ (Order_bytes order | frame_base f) ∧
        ∀ x, frame_base f ≤ x < frame_base f + Order_bytes order → M'.1 x = 0 ∧ owned L x = 0 ∧ given L x = 1
    | None => True
    end.
Proof.
  intros [G H]%reached_in_use Hc Ho. destruct (alloc_zeroed_spec cpu order M G (iu_machine _ _ _ H) Hc Ho) as (r & M' & G' & E & Hr).
  exists r, M'. split; [done|]. destruct r as [f|].
  - destruct Hr as (<- & Hb & Hz & Hmv). destruct (taken_in_use M L G M' G' f H Hmv) as [_ Hk]. split; [done|]. split; [done|]. split; [apply Hb|].
    intros x Hx. split; [by apply Hz|]. by apply (taken_unshared M L G (frame_order f) (frame_base f) M' G').
  - destruct Hr as [Hmv _]. split; [|done]. apply (quiet_in_use M L G M' G' H Hmv).
Qed.

Lemma alloc_zeroed_blank_witness :
  (FrameAllocator_alloc_zeroed 1 0%nat given_region).1 = Ok (Some first_frame) ∧ given_region.1 (frame_base first_frame) = 7 ∧
  ∃ r M', FrameAllocator_alloc_zeroed 1 2%nat in_use = (Ok r, M') ∧ (∀ x, owned in_use_ledger x ≠ 0 → M'.1 x = in_use.1 x) ∧
    match r with
    | Some f => frame_order f = 2%nat ∧ (Order_bytes 2%nat | frame_base f) ∧
        ∀ x, frame_base f ≤ x < frame_base f + Order_bytes 2%nat → M'.1 x = 0 ∧ owned in_use_ledger x = 0 ∧ given in_use_ledger x = 1
    | None => True
    end.
Proof.
  split; [vm_compute; reflexivity|]. split; [vm_compute; reflexivity|].
  apply (alloc_zeroed_blank in_use in_use_ledger 1 2%nat); [apply in_use_reached|apply Nat.ltb_lt; reflexivity..].
Defined.



(** The lists stay lists: in every reachable state each head of each core
    starts a finite chain; every block on one is aligned to its order and within
    the window; one on a clean list is zero past its link; and no byte is in two
    blocks, of one core or of two. *)
Theorem lists_well_formed (M : Machine) (L : Ledger) :
  reached_by M L →
  (∀ cpu s clean o, fa_shards M.2 !! cpu = Some s → (o < ORDERS)%nat →
    ∃ l, chain (fa_map M.2) M.1 (Lists_head (Shard_lists s clean) o) l ∧ NoDup l) ∧
  (∀ cpu clean o b, on_list M cpu clean o b → (Order_bytes o | b) ∧ 0 < b ∧ b + Order_bytes o ≤ win_limit (fa_map M.2) ∧
    (clean = true → ∀ x, b < x < b + Order_bytes o → M.1 x = 0)) ∧
  (∀ cpu clean o b cpu' clean' o' b' x, on_list M cpu clean o b → on_list M cpu' clean' o' b' →
    b ≤ x < b + Order_bytes o → b' ≤ x < b' + Order_bytes o' → (cpu, clean, o, b) = (cpu', clean', o', b')).
Proof.
  intros [G H]%reached_in_use. pose proof (iu_machine _ _ _ H) as Hm. split; [|split].
  - intros cpu s clean o Hs Ho. destruct (mc_shards _ _ Hm cpu s Hs) as [Hsh _]. exists (G cpu clean o).
    split; [by apply (sd_chain _ _ _ _ Hsh)|]. apply (apart_nodup o). intros x. pose proof (sd_apart _ _ _ _ Hsh x).
    pose proof (zsum_elem (λ o, lcov o (G cpu clean o) x) (seq 0 ORDERS) o (λ o _, lcov_nonneg o _ x) ltac:(apply elem_of_seq; lia)) as Hk.
    pose proof (kcov_gcov (G cpu) clean x). unfold kcov in *. cbn beta in Hk. lia.
  - intros cpu clean o b Hb. destruct (on_list_held M G cpu clean o b Hm Hb) as (_ & _ & [B1 B2 B3] & Hz). by repeat split.
  - intros cpu clean o b cpu' clean' o' b' x. by apply (on_list_apart M G).
Qed.

Lemma lists_well_formed_witness :
  (∃ s, fa_shards in_use.2 !! 1%nat = Some s ∧ Lists_head (sh_dirty s) 1%nat = 8396800) ∧
  ∀ cpu clean o b cpu' clean' o' b' x, on_list in_use cpu clean o b → on_list in_use cpu' clean' o' b' →
    b ≤ x < b + Order_bytes o → b' ≤ x < b' + Order_bytes o' → (cpu, clean, o, b) = (cpu', clean', o', b').
Proof.
  split; [eexists; split; vm_compute; reflexivity|]. exact (proj2 (proj2 (lists_well_formed in_use in_use_ledger in_use_reached))).
Defined.





(** ** Merging and scrubbing *)

(** [coalesce] moves no memory between the lists of clean and of dirty
    frames; and when it stops short of its budget, no list of the core holds
    both halves of a larger block. *)
Theorem coalesce_complete (M : Machine) (L : Ledger) (cpu : nat) (budget : Z) :
  reached_by M L → (cpu < MAX_CPUS)%nat →
  ∃ n M', FrameAllocator_coalesce cpu budget M = (Ok n, M') ∧ 0 ≤ n ∧
    (∀ clean x, listed M' cpu clean x ↔ listed M cpu clean x) ∧
    (n < budget → ∀ clean o s l b, (o < Order_MAX)%nat → fa_shards M'.2 !! cpu = Some s →
      chain (fa_map M'.2) M'.1 (Lists_head (Shard_lists s clean) o) l → (Order_bytes (S o) | b) → b ∈ l → b + Order_bytes o ∉ l).
Proof.
  intros [G H]%reached_in_use Hc. pose proof (iu_machine _ _ _ H) as Hm.
  destruct (coalesce_spec cpu budget M G Hm Hc) as (n & M' & G' & E & Hmv & Hn & Hk & Hmg & _ & _). pose proof (mv_ok _ _ _ _ _ _ Hmv) as Hm'.
  exists n, M'. split; [exact E|]. split; [lia|]. split.
  - intros clean x. by rewrite (listed_kcov M' G' cpu clean x Hm' Hc), (listed_kcov M G cpu clean x Hm Hc), Hk.
  - intros Hlt clean o s l b Ho Hs Hl Hb. destruct (mc_shards _ _ Hm' cpu s Hs) as [Hsh _].
    rewrite (chain_unique _ _ _ _ _ Hl (sd_chain _ _ _ _ Hsh clean o ltac:(unfold Order_MAX, ORDERS in *; lia))). by apply (Hmg Hlt clean o Ho).
Qed.

Lemma coalesce_complete_witness :
  (FrameAllocator_coalesce 1 1000 in_use).1 = Ok 0 ∧
  ∃ n M', FrameAllocator_coalesce 1 1000 in_use = (Ok n, M') ∧ 0 ≤ n ∧
    (∀ clean x, listed M' 1 clean x ↔ listed in_use 1 clean x) ∧
    (n < 1000 → ∀ clean o s l b, (o < Order_MAX)%nat → fa_shards M'.2 !! 1%nat = Some s →
      chain (fa_map M'.2) M'.1 (Lists_head (Shard_lists s clean) o) l → (Order_bytes (S o) | b) → b ∈ l → b + Order_bytes o ∉ l).
Proof.
  split; [vm_compute; reflexivity|]. apply (coalesce_complete in_use in_use_ledger 1 1000); [apply in_use_reached|apply Nat.ltb_lt; reflexivity].
Defined.

(** [scrub] does what its budget pays for: it moves exactly as many frames
    to the core's clean lists as it answers, frees and takes nothing, and when
    it stops early nothing dirty is left, on the core's lists or in the
    frontier. *)
Theorem scrub_exact (M : Machine) (L : Ledger) (cpu : nat) (budget : Z) :
  reached_by M L → (cpu < MAX_CPUS)%nat → 0 ≤ budget ≤ u64_max →
  ∃ n M' s s', FrameAllocator_scrub cpu budget M = (Ok n, M') ∧ 0 ≤ n ≤ budget ∧
    fa_shards M.2 !! cpu = Some s ∧ fa_shards M'.2 !! cpu = Some s' ∧ sh_clean_frames s' = sh_clean_frames s + n ∧
    (∀ x, free_at M' x ↔ free_at M x) ∧ (n < budget → sh_dirty_frames s' = 0 ∧ fr_frames (fa_frontier M'.2) = 0).
Proof.
  intros [G H]%reached_in_use Hc Hb. pose proof (iu_machine _ _ _ H) as Hm.
  destruct (scrub_spec cpu budget M G Hm Hc Hb) as (n & M' & G' & E & Hmv & Hn & Hk & Hclean). pose proof (mv_ok _ _ _ _ _ _ Hmv) as Hm'.
  destruct (shard_at M G cpu Hm Hc) as [s Hs], (shard_at M' G' cpu Hm' Hc) as [s' Hs'].
  destruct (mc_shards _ _ Hm cpu s Hs) as [_ Hcs], (mc_shards _ _ Hm' cpu s' Hs') as [_ Hcs'].
  exists n, M', s, s'. split; [exact E|]. split; [exact Hn|]. split; [exact Hs|]. split; [exact Hs'|]. split; [|split].
  - pose proof (Hcs true) as E1. pose proof (Hcs' true) as E2. rewrite <- E1, <- E2 in Hk. cbn [Shard_frames] in Hk. unfold FRAME_SIZE in Hk. lia.
  - apply (free_at_same M G M' G' Hm Hm'). intros x. pose proof (mv_free _ _ _ _ _ _ Hmv x). unfold nothing in *. lia.
  - intros Hlt. destruct (Hclean Hlt) as [Hd Hf]. split.
    + pose proof (Hcs' false) as E1. cbn [Shard_frames] in E1. rewrite mass_zero in E1; [unfold FRAME_SIZE in E1; lia|].
      intros x. unfold kcov. rewrite (zsum_ext _ (λ _, 0)); [apply zsum_zero|]. intros o Ho%elem_of_seq. by rewrite Hd by lia.
    + by apply (frontier_spent (fa_map M'.2)); [apply (mc_frontier _ _ Hm')|].
Qed.

Lemma scrub_exact_witness :
  (FrameAllocator_scrub 0 300 in_use).1 = Ok 300 ∧
  ∃ n M' s s', FrameAllocator_scrub 0 300 in_use = (Ok n, M') ∧ 0 ≤ n ≤ 300 ∧
    fa_shards in_use.2 !! 0%nat = Some s ∧ fa_shards M'.2 !! 0%nat = Some s' ∧ sh_clean_frames s' = sh_clean_frames s + n ∧
    (∀ x, free_at M' x ↔ free_at in_use x) ∧ (n < 300 → sh_dirty_frames s' = 0 ∧ fr_frames (fa_frontier M'.2) = 0).
Proof.
  split; [vm_compute; reflexivity|].
  apply (scrub_exact in_use in_use_ledger 0 300); [apply in_use_reached|apply Nat.ltb_lt; reflexivity|split; vm_compute; discriminate].
Defined.

(** ** Adding memory *)

(** [add_region] asks about a frame only below the last reservation, and is
    the per-frame rule all the same: what becomes free is exactly the whole
    frames of the region that are not low, overlap nothing reserved and end
    within reach, the total grows by their number, and the frames only the
    reach refuses are counted. *)
Theorem add_region_exact (M : Machine) (L : Ledger) (cpu : nat) (base len : Z) (reserved : list Reserved) :
  reached_by M L → allowed (AddRegion cpu base len reserved) M L →
  let limit := win_limit (fa_map M.2) in
  ∃ M', FrameAllocator_add_region cpu base len reserved M = (Ok tt, M') ∧
    (∀ x, free_at M' x ↔ free_at M x ∨ usable base len reserved (frame_of x) = true ∧ frame_of x + FRAME_SIZE ≤ limit) ∧
    fa_total M'.2 = fa_total M.2 + frames (accepted base len reserved limit) ∧
    fa_unreachable M'.2 = fa_unreachable M.2 + frames (refused base len reserved limit).
Proof.
  intros [G H]%reached_in_use Ha limit. destruct (region_in_use cpu base len reserved M L G H Ha) as (M' & G' & E & [Hi _ _ _ _ Ht _] & _).
  destruct Ha as (Hc & Hb & Hmax & Hap & Hu). pose proof (iu_machine _ _ _ H) as Hm.
  destruct (region_grown cpu base len reserved M L G H (conj Hc (conj Hb (conj Hmax (conj Hap Hu))))) as (M1 & G1 & E1 & [A1 A2 A3 A4 A5 A6]).
  rewrite E in E1. injection E1 as <-. exists M'. split; [exact E|]. split; [|split; [|exact A6]].
  - intros x. rewrite (free_at_mem M' G1 x A1), (free_at_mem M G x Hm), A2. pose proof (free_nonneg M G x).
    unfold limit. rewrite <- accepted_spec. pose proof (accepted_range base len reserved (win_limit (fa_map M.2)) x). unfold region. lia.
  - pose proof (iu_total _ _ _ H) as Ht0. cbn [settle given] in Ht. rewrite mass_add in Ht.
    change (region base len reserved M) with (accepted base len reserved limit) in Ht.
    destruct (accepted_whole base len reserved limit) as [q Hq]. unfold frames. rewrite Hq in *. rewrite Z.div_mul by done.
    unfold FRAME_SIZE in *. lia.
Qed.

Lemma add_region_exact_witness :
  (FrameAllocator_add_region 0 0 (2 ^ 27) holes boot).1 = Ok tt ∧
  ∃ M', FrameAllocator_add_region 0 0 (2 ^ 27) holes boot = (Ok tt, M') ∧
    (∀ x, free_at M' x ↔ free_at boot x ∨ usable 0 (2 ^ 27) holes (frame_of x) = true ∧ frame_of x + FRAME_SIZE ≤ 2 ^ 30) ∧
    fa_total M'.2 = 0 + frames (accepted 0 (2 ^ 27) holes (2 ^ 30)) ∧
    fa_unreachable M'.2 = 0 + frames (refused 0 (2 ^ 27) holes (2 ^ 30)).
Proof.
  split; [vm_compute; reflexivity|].
  apply (add_region_exact boot ledger_empty 0 0 (2 ^ 27) holes); [apply reached_boot|apply first_region_allowed].
Defined.
