(* ===== verification/Generation.v ===== *)
(** * A generation's record tree: the [generation] crate and [abi/src/boot.rs]

    Checking a tree's bytes, folding one to its root, finding where two stop
    agreeing, and choosing among the modules a loader offers. *)

From S2P Require Import Prelude Abi Bytes StoreRecords Sha256.
#[local] Open Scope Z_scope.

(** [bytes.get(at..at + n)]. *)
Definition get_range (bytes : list Z) (at_ n : nat) : option (list Z) :=
  if (at_ + n <=? length bytes)%nat then Some (slice bytes at_ n) else None.

(** ** [record.rs]: where the parts are *)
Definition FRAME_AT : nat := Generation_BYTES.
Definition TOPOLOGY_AT : nat := (FRAME_AT + Leaf_BYTES)%nat.

Inductive Refusal : Type :=
| Length | Node (code : Z) | Kind | Name | DuplicateName | DuplicateRoute | Dangling | Order | RouteOrder.

Record Tree : Type := mkTree { tree_bytes : list Z; tree_head : Topology }.

(** The first position whose byte answers. *)
Fixpoint position (p : Z → bool) (l : list Z) : option nat :=
  match l with
  | [] => None
  | x :: l => if p x then Some O else S <$> position p l
  end.

Definition is_ascii_lowercase (b : Z) : bool := (97 <=? b) && (b <=? 122).
Definition is_ascii_digit (b : Z) : bool := (48 <=? b) && (b <=? 57).
Definition hyphen : Z := 45.

Definition named (padded : list Z) : bool :=
  let end_ := default NAME_MAX (position (λ b, b =? 0) padded) in
  let name := take end_ padded in
  match name with
  | [] => false
  | first :: _ =>
      if negb (forallb (λ b, b =? 0) (drop end_ padded)) then false
      else if (first =? hyphen) || (List.last name 0 =? hyphen) then false
      else forallb (λ b, is_ascii_lowercase b || is_ascii_digit b || (b =? hyphen)) name
  end.

Definition map_err {E F A} (f : E → F) (r : res E A) : res F A := match r with Ok a => Ok a | Err e => Err (f e) end.

Definition leaf_at (bytes : list Z) (at_ : nat) : res Refusal Leaf :=
  let? raw := ok_or (get_range bytes at_ Leaf_BYTES) Length in
  map_err Node (Leaf_from_bytes raw).

(** [Ord] on byte arrays, and on the pair a route is identified by. *)
Fixpoint bytes_cmp (a b : list Z) : comparison :=
  match a, b with
  | [], [] => Eq
  | [], _ :: _ => Lt
  | _ :: _, [] => Gt
  | x :: a, y :: b => match Z.compare x y with Eq => bytes_cmp a b | c => c end
  end.
Definition key_cmp (a b : Z * list Z) : comparison :=
  match Z.compare a.1 b.1 with Eq => bytes_cmp a.2 b.2 | c => c end.

(** ** Reading a tree *)
Definition members_at (t : Topology) : nat := (TOPOLOGY_AT + Topology_bytes t)%nat.

Definition Tree_leaf (t : Tree) (at_ : nat) : Leaf :=
  let raw := default (zeroed Leaf_BYTES) (get_range (tree_bytes t) at_ Leaf_BYTES) in
  match Leaf_from_bytes raw with Ok l => l | Err _ => mkLeaf 0 (zeroed 32) (zeroed NAME_MAX) end.
Definition Tree_frame (t : Tree) : Leaf := Tree_leaf t FRAME_AT.
Definition Tree_members (t : Tree) : Z := top_members (tree_head t).
Definition Tree_routes (t : Tree) : Z := top_routes (tree_head t).
Definition Tree_member (t : Tree) (index : nat) : option Leaf :=
  if Tree_members t <=? Z.of_nat index then None
  else Some (Tree_leaf t (members_at (tree_head t) + index * Leaf_BYTES)).
Definition Tree_route (t : Tree) (index : nat) : option Route :=
  if Tree_routes t <=? Z.of_nat index then None
  else Route_from_bytes <$> get_range (tree_bytes t) (TOPOLOGY_AT + Topology_HEAD_BYTES + index * Route_BYTES) Route_BYTES.

(** [0..n]. *)
Definition range (n : Z) : list nat := seq 0 (Z.to_nat n).

(** ** Checking *)
Fixpoint check_members (bytes : list Z) (at_ : nat) (indices : list nat) (previous : option (list Z)) : res Refusal unit :=
  match indices with
  | [] => Ok tt
  | index :: indices =>
      let? leaf := leaf_at bytes (at_ + index * Leaf_BYTES) in
      if negb (leaf_kind leaf =? node_COMPONENT) then Err Kind
      else if negb (named (leaf_name leaf)) then Err Name
      else match from_option (λ before, bytes_cmp before (leaf_name leaf)) Lt previous with
           | Lt => check_members bytes at_ indices (Some (leaf_name leaf))
           | Eq => Err DuplicateName
           | Gt => Err Order
           end
  end.

Fixpoint check_routes (t : Tree) (indices : list nat) (before : option (Z * list Z)) : res Refusal unit :=
  match indices with
  | [] => Ok tt
  | index :: indices =>
      let? route := ok_or (Tree_route t index) Length in
      if (Tree_members t <=? route_component route) || (Tree_members t <=? route_source route) then Err Dangling
      else if negb (named (route_capability route)) then Err Name
      else
        let key := (route_component route, route_capability route) in
        match from_option (λ previous, key_cmp previous key) Lt before with
        | Lt => check_routes t indices (Some key)
        | Eq => Err DuplicateRoute
        | Gt => Err RouteOrder
        end
  end.

Definition Tree_check (bytes : list Z) : res Refusal Tree :=
  if (length bytes <? TOPOLOGY_AT + Topology_HEAD_BYTES)%nat then Err Length
  else
    let? _ := map_err Node (Generation_from_bytes (slice bytes 0 Generation_BYTES)) in
    let? frame := leaf_at bytes FRAME_AT in
    if negb (leaf_kind frame =? node_BYTES) then Err Kind
    else if negb (named (leaf_name frame)) then Err Name
    else
      let? head := map_err Node (Topology_from_bytes (slice bytes TOPOLOGY_AT Topology_HEAD_BYTES)) in
      if negb (length bytes =? members_at head + Z.to_nat (top_members head) * Leaf_BYTES)%nat then Err Length
      else
        let tree := mkTree bytes head in
        let? _ := check_members bytes (members_at head) (range (top_members head)) None in
        let? _ := check_routes tree (range (top_routes head)) None in
        Ok tree.

(** ** [fold.rs] *)
Definition leaf_fold (node : Leaf) : list Z := Sha256_finish (Sha256_update Sha256_new (Leaf_to_bytes node)).

Definition topology_fold (t : Tree) : list Z :=
  let state := Sha256_update Sha256_new (Topology_to_bytes (tree_head t)) in
  let state := foldl (λ state index, match Tree_member t index with
                                     | Some member => Sha256_update state (leaf_fold member)
                                     | None => state
                                     end) state (range (Tree_members t)) in
  let state := foldl (λ state index, match Tree_route t index with
                                     | Some route => Sha256_update state (Route_to_bytes route)
                                     | None => state
                                     end) state (range (Tree_routes t)) in
  Sha256_finish state.

Definition root_fold (t : Tree) : list Z :=
  let state := Sha256_update Sha256_new Generation_to_bytes in
  let state := Sha256_update state (leaf_fold (Tree_frame t)) in
  let state := Sha256_update state (topology_fold t) in
  Sha256_finish state.

(** ** [diff.rs] *)
Inductive Divergence : Type :=
| DLeaf (left_ right_ : Leaf)
| Membership (left_ right_ : option Leaf)
| DRoute (index : nat) (left_ right_ : option Route)
| Head
| Compiler.

Fixpoint diff_members (left_ right_ : Tree) (indices : list nat) : option Divergence :=
  match indices with
  | [] => None
  | index :: indices =>
      match Tree_member left_ index, Tree_member right_ index with
      | Some a, Some b =>
          if bool_decide (leaf_name a = leaf_name b) then
            if bool_decide (leaf_fold a ≠ leaf_fold b) then Some (DLeaf a b) else diff_members left_ right_ indices
          else Some (Membership (Some a) (Some b))
      | a, b => Some (Membership a b)
      end
  end.

Fixpoint diff_routes (left_ right_ : Tree) (indices : list nat) : option Divergence :=
  match indices with
  | [] => None
  | index :: indices =>
      let a := Tree_route left_ index in
      let b := Tree_route right_ index in
      let same := match a, b with
                  | Some a, Some b => bool_decide (Route_to_bytes a = Route_to_bytes b)
                  | _, _ => false
                  end in
      if same then diff_routes left_ right_ indices else Some (DRoute index a b)
  end.

Definition divergence (left_ right_ : Tree) : option Divergence :=
  if bool_decide (root_fold left_ = root_fold right_) then None
  else
    let frame_left := Tree_frame left_ in
    let frame_right := Tree_frame right_ in
    if bool_decide (leaf_fold frame_left ≠ leaf_fold frame_right) then Some (DLeaf frame_left frame_right)
    else
      match diff_members left_ right_ (range (Z.max (Tree_members left_) (Tree_members right_))) with
      | Some d => Some d
      | None =>
          match diff_routes left_ right_ (range (Z.max (Tree_routes left_) (Tree_routes right_))) with
          | Some d => Some d
          | None =>
              if bool_decide (Topology_to_bytes (tree_head left_) ≠ Topology_to_bytes (tree_head right_))
              then Some Head else Some Compiler
          end
      end.

Definition Divergence_named (d : Divergence) : option (list Z) :=
  match d with
  | DLeaf l _ => Some (leaf_name l)
  | Membership (Some l) _ | Membership None (Some l) => Some (leaf_name l)
  | DRoute _ (Some r) _ | DRoute _ None (Some r) => Some (route_capability r)
  | Membership None None | DRoute _ None None | Head | Compiler => None
  end.
Definition names_an_input (d : Divergence) : bool :=
  match d with DLeaf _ _ | Membership _ _ | DRoute _ _ _ => true | _ => false end.
