(* ===== verification/GenerationTheorems.v ===== *)
(** * What a generation's root and its comparison promise

    A tree is accepted exactly when it is canonical; its root names it, unless
    two of the messages hashed collide; and two trees with different roots are
    told apart at the first thing that differs, which is always an input. *)

From S2P Require Import Prelude Abi Bytes StoreRecords StoreCodecs Sha256 Generation.
#[local] Open Scope Z_scope.

(** * Record trees: what a checked one is made of

    The canonical tree of a frame, routes and members; a tree is accepted
    exactly when it is the encoding of one. *)

(** ** Orders *)
Section order.
Context {A : Type} (cmp : A → A → comparison).

(** Strictly ascending, from what came before. *)
Fixpoint ascending (before : option A) (l : list A) : Prop :=
  match l with
  | [] => True
  | x :: l => from_option (λ b, cmp b x) Lt before = Lt ∧ ascending (Some x) l
  end.
End order.

(** ** Ranges *)
Lemma get_range_mid pre x post : get_range (pre ++ x ++ post) (length pre) (length x) = Some x.
Proof.
  unfold get_range. rewrite !length_app. destruct (Nat.leb_spec (length pre + length x) (length pre + (length x + length post))); [|lia].
  by rewrite slice_app.
Qed.

Lemma get_range_Some bytes a n raw : get_range bytes a n = Some raw ↔ (a + n ≤ length bytes)%nat ∧ raw = slice bytes a n.
Proof.
  unfold get_range. destruct (Nat.leb_spec (a + n) (length bytes)); split; [by intros [= <-]|by intros [_ ->]|done|lia].
Qed.

Lemma length_concat_pieces n (ps : list (list Z)) : Forall (λ p, length p = n) ps → length (concat ps) = (length ps * n)%nat.
Proof. induction 1 as [|p ps Hp _ IH]; cbn; [done|]. by rewrite length_app, Hp, IH. Qed.

Lemma get_range_piece pre ps post n i p :
  Forall (λ p, length p = n) ps → ps !! i = Some p → get_range (pre ++ concat ps ++ post) (length pre + i * n) n = Some p.
Proof.
  intros Hps Hi. rewrite <- (take_drop_middle ps i p Hi), concat_app. cbn [concat]. rewrite <- !(assoc_L (++)), (assoc_L (++) pre).
  assert (Hp : length p = n) by (rewrite list.Forall_forall in Hps; apply Hps; by apply list_elem_of_lookup_2 in Hi).
  assert (Hpre : length (pre ++ concat (take i ps)) = (length pre + i * n)%nat).
  { rewrite length_app, (length_concat_pieces n) by (by apply list.Forall_take). rewrite length_take. apply lookup_lt_Some in Hi. by rewrite Nat.min_l by lia. }
  rewrite <- Hpre, <- Hp. apply get_range_mid.
Qed.

(** A stretch cut into pieces. *)
Lemma slices_concat raw a n k : (a + k * n ≤ length raw)%nat →
  concat ((λ i, slice raw (a + i * n) n) <$> seq 0 k) ++ drop (a + k * n) raw = drop a raw.
Proof.
  intros Hl. assert (H : ∀ j, (j ≤ k)%nat →
    concat ((λ i, slice raw (a + i * n) n) <$> seq (k - j) j) ++ drop (a + k * n) raw = drop (a + (k - j) * n) raw).
  { induction j as [|j IH]; intros Hj; [by rewrite Nat.sub_0_r|].
    cbn [seq]. rewrite fmap_cons. cbn [concat]. rewrite <- (assoc_L (++)). replace (S (k - S j)) with (k - j)%nat by lia. rewrite IH by lia. unfold slice.
    replace (a + (k - j) * n)%nat with (n + (a + (k - S j) * n))%nat by (replace (k - j)%nat with (S (k - S j)) by lia; lia).
    set (x := (a + (k - S j) * n)%nat). rewrite (Nat.add_comm n x), <- drop_drop. apply take_drop. }
  specialize (H k (le_n k)). rewrite Nat.sub_diag in H. by rewrite Nat.mul_0_l, Nat.add_0_r in H.
Qed.

Lemma Forall2_fmap_eq {A B C} (f : B → C) (g : A → C) la lb : Forall2 (λ a b, f b = g a) la lb → f <$> lb = g <$> la.
Proof. induction 1 as [|a b la lb H _ IH]; [done|]. by rewrite !fmap_cons, H, IH. Qed.

(** ** Canonical trees *)
Record Canon : Type := mkCanon { cn_frame : Leaf; cn_routes : list Route; cn_members : list Leaf }.

Definition cn_head (c : Canon) : Topology := mkTopology (Z.of_nat (length (cn_members c))) (Z.of_nat (length (cn_routes c))).

Definition canon_bytes (c : Canon) : list Z :=
  Generation_to_bytes ++ Leaf_to_bytes (cn_frame c) ++ Topology_to_bytes (cn_head c) ++
  concat (Route_to_bytes <$> cn_routes c) ++ concat (Leaf_to_bytes <$> cn_members c).

Record member_ok (l : Leaf) : Prop := {
  mo_valid : Leaf_valid l;
  mo_kind : leaf_kind l = node_COMPONENT;
  mo_name : named (leaf_name l) = true;
}.

Record route_ok (n : Z) (r : Route) : Prop := {
  ru_valid : Route_valid r;
  ru_inside : route_component r < n ∧ route_source r < n;
  ru_name : named (route_capability r) = true;
}.

Definition route_key (r : Route) : Z * list Z := (route_component r, route_capability r).

Record canon_ok (c : Canon) : Prop := {
  ck_frame : Leaf_valid (cn_frame c) ∧ leaf_kind (cn_frame c) = node_BYTES ∧ named (leaf_name (cn_frame c)) = true;
  ck_members : Forall member_ok (cn_members c);
  ck_routes : Forall (route_ok (Z.of_nat (length (cn_members c)))) (cn_routes c);
  ck_members_sorted : ascending bytes_cmp None (leaf_name <$> cn_members c);
  ck_routes_sorted : ascending key_cmp None (route_key <$> cn_routes c);
  ck_few : Topology_valid (cn_head c);
}.

Definition canon_tree (c : Canon) : Tree := mkTree (canon_bytes c) (cn_head c).

Section canon.
Context (c : Canon) (Hc : canon_ok c).

Lemma canon_route_pieces : Forall (λ p, length p = Route_BYTES) (Route_to_bytes <$> cn_routes c).
Proof.
  apply list.Forall_fmap. eapply list.Forall_impl; [apply (ck_routes c Hc)|]. intros r Hr. cbn.
  exact (codec_size (Codec := Route_codec) r (ru_valid _ _ Hr)).
Qed.
Lemma canon_member_pieces : Forall (λ p, length p = Leaf_BYTES) (Leaf_to_bytes <$> cn_members c).
Proof.
  apply list.Forall_fmap. eapply list.Forall_impl; [apply (ck_members c Hc)|]. intros l Hl. exact (codec_size (Codec := Leaf_codec) l (mo_valid _ Hl)).
Qed.
Lemma canon_frame_length : length (Leaf_to_bytes (cn_frame c)) = Leaf_BYTES.
Proof. exact (codec_size (Codec := Leaf_codec) _ (proj1 (ck_frame c Hc))). Qed.
Lemma canon_head_length : length (Topology_to_bytes (cn_head c)) = Topology_HEAD_BYTES.
Proof. exact (codec_size (Codec := Topology_codec) _ (ck_few c Hc)). Qed.
Lemma canon_generation_length : length Generation_to_bytes = Generation_BYTES.
Proof. done. Qed.

Lemma canon_route_at i r : cn_routes c !! i = Some r →
  get_range (canon_bytes c) (TOPOLOGY_AT + Topology_HEAD_BYTES + i * Route_BYTES) Route_BYTES = Some (Route_to_bytes r).
Proof.
  intros Hi. unfold canon_bytes. rewrite !(assoc_L (++)), <- (assoc_L (++) _ (concat _)).
  replace (TOPOLOGY_AT + Topology_HEAD_BYTES)%nat with (length ((Generation_to_bytes ++ Leaf_to_bytes (cn_frame c)) ++ Topology_to_bytes (cn_head c))).
  - apply get_range_piece; [apply canon_route_pieces|]. by rewrite list_lookup_fmap, Hi.
  - by rewrite !length_app, canon_frame_length, canon_head_length.
Qed.

Lemma canon_members_at : members_at (cn_head c) = (length (Generation_to_bytes ++ Leaf_to_bytes (cn_frame c) ++ Topology_to_bytes (cn_head c)) + length (cn_routes c) * Route_BYTES)%nat.
Proof.
  rewrite !length_app, canon_frame_length, canon_head_length, canon_generation_length. unfold members_at, Topology_bytes, TOPOLOGY_AT, FRAME_AT.
  cbn [cn_head top_routes]. rewrite Nat2Z.id. lia.
Qed.

Lemma canon_member_at i l : cn_members c !! i = Some l →
  get_range (canon_bytes c) (members_at (cn_head c) + i * Leaf_BYTES) Leaf_BYTES = Some (Leaf_to_bytes l).
Proof.
  intros Hi. unfold canon_bytes. rewrite !(assoc_L (++)). rewrite <- (app_nil_r (concat (Leaf_to_bytes <$> _))).
  assert (E : members_at (cn_head c) = length (((Generation_to_bytes ++ Leaf_to_bytes (cn_frame c)) ++ Topology_to_bytes (cn_head c)) ++ concat (Route_to_bytes <$> cn_routes c))).
  { rewrite canon_members_at. rewrite !length_app, (length_concat_pieces Route_BYTES _ canon_route_pieces), length_fmap. lia. }
  rewrite E. apply get_range_piece; [apply canon_member_pieces|]. by rewrite list_lookup_fmap, Hi.
Qed.

Lemma canon_frame_at : get_range (canon_bytes c) FRAME_AT Leaf_BYTES = Some (Leaf_to_bytes (cn_frame c)).
Proof. unfold canon_bytes. rewrite <- canon_frame_length. apply (get_range_mid Generation_to_bytes). Qed.

Lemma canon_length : length (canon_bytes c) = (members_at (cn_head c) + length (cn_members c) * Leaf_BYTES)%nat.
Proof.
  unfold canon_bytes. rewrite canon_members_at, !length_app, (length_concat_pieces _ _ canon_route_pieces), (length_concat_pieces _ _ canon_member_pieces), !length_fmap. lia.
Qed.

Lemma leaf_decodes l : Leaf_valid l → Leaf_from_bytes (Leaf_to_bytes l) = Ok l.
Proof. apply (codec_dec_enc (Codec := Leaf_codec)). Qed.
Lemma route_decodes r : Route_valid r → Route_from_bytes (Route_to_bytes r) = r.
Proof. intros H. pose proof (codec_dec_enc (Codec := Route_codec) r H) as E. by injection E. Qed.

(** What a checked tree answers. *)
Lemma canon_tree_frame : Tree_frame (canon_tree c) = cn_frame c.
Proof. unfold Tree_frame, Tree_leaf. cbn [tree_bytes canon_tree]. rewrite canon_frame_at. cbn [from_option id]. by rewrite leaf_decodes by apply (ck_frame c Hc). Qed.

Lemma canon_tree_member i : Tree_member (canon_tree c) i = cn_members c !! i.
Proof.
  unfold Tree_member, Tree_members. cbn [tree_head canon_tree cn_head top_members].
  destruct (Z.leb_spec (Z.of_nat (length (cn_members c))) (Z.of_nat i)); [by rewrite lookup_ge_None_2 by lia|].
  destruct (lookup_lt_is_Some_2 (cn_members c) i) as [l Hl]; [lia|]. rewrite Hl. unfold Tree_leaf. cbn [tree_bytes canon_tree].
  change (members_at (mkTopology _ _)) with (members_at (cn_head c)). rewrite (canon_member_at i l Hl). cbn [from_option id].
  rewrite leaf_decodes; [done|]. pose proof (ck_members c Hc) as H1. rewrite list.Forall_forall in H1. apply H1. by apply list_elem_of_lookup_2 in Hl.
Qed.

Lemma canon_tree_route i : Tree_route (canon_tree c) i = cn_routes c !! i.
Proof.
  unfold Tree_route, Tree_routes. cbn [tree_head canon_tree cn_head top_routes].
  destruct (Z.leb_spec (Z.of_nat (length (cn_routes c))) (Z.of_nat i)); [by rewrite lookup_ge_None_2 by lia|].
  destruct (lookup_lt_is_Some_2 (cn_routes c) i) as [r Hr]; [lia|]. rewrite Hr. cbn [tree_bytes canon_tree].
  rewrite (canon_route_at i r Hr). cbn [fmap option_fmap option_map]. rewrite route_decodes; [done|].
  pose proof (ck_routes c Hc) as H1. rewrite list.Forall_forall in H1. apply (H1 r). by apply list_elem_of_lookup_2 in Hr.
Qed.
End canon.

(** ** Checking *)
Lemma check_members_iff bytes at_ idxs : ∀ before,
  check_members bytes at_ idxs before = Ok tt ↔
  ∃ ls, Forall2 (λ i l, leaf_at bytes (at_ + i * Leaf_BYTES) = Ok l ∧ leaf_kind l = node_COMPONENT ∧ named (leaf_name l) = true) idxs ls ∧
    ascending bytes_cmp before (leaf_name <$> ls).
Proof.
  induction idxs as [|i idxs IH]; intros before; cbn [check_members].
  { split; [intros _; exists []; split; [constructor|done]|done]. }
  split.
  - destruct (leaf_at bytes (at_ + i * Leaf_BYTES)) as [l|e] eqn:E; cbn [res_bind]; [|done].
    destruct (Z.eqb_spec (leaf_kind l) node_COMPONENT) as [Hk|]; cbn [negb]; [|done].
    destruct (named (leaf_name l)) eqn:En; cbn [negb]; [|done].
    destruct (from_option _ _ before) eqn:Eo; [done| |done]. intros (ls & Hls & Ha)%IH. exists (l :: ls).
    split; [by constructor|]. by rewrite fmap_cons.
  - intros (ls & Hls & Ha). inversion Hls as [|? l ? ls' (E & Hk & Hn) Hls']; subst. rewrite E. cbn [res_bind].
    rewrite Hk, Z.eqb_refl, Hn. cbn [negb]. rewrite fmap_cons in Ha. destruct Ha as [Ho Ha]. rewrite Ho. apply IH. by exists ls'.
Qed.

Lemma check_routes_iff t idxs : ∀ before,
  check_routes t idxs before = Ok tt ↔
  ∃ rs, Forall2 (λ i r, Tree_route t i = Some r ∧ (route_component r < Tree_members t ∧ route_source r < Tree_members t) ∧
      named (route_capability r) = true) idxs rs ∧
    ascending key_cmp before (route_key <$> rs).
Proof.
  induction idxs as [|i idxs IH]; intros before; cbn [check_routes].
  { split; [intros _; exists []; split; [constructor|done]|done]. }
  split.
  - destruct (Tree_route t i) as [r|] eqn:E; cbn [ok_or res_bind]; [|done].
    destruct (Z.leb_spec (Tree_members t) (route_component r)); [done|].
    destruct (Z.leb_spec (Tree_members t) (route_source r)); [done|]. cbn [orb].
    destruct (named (route_capability r)) eqn:En; cbn [negb]; [|done]. fold (route_key r).
    destruct (from_option _ _ before) eqn:Eo; [done| |done]. intros (rs & Hrs & Ha)%IH. exists (r :: rs).
    split; [by constructor|]. by rewrite fmap_cons.
  - intros (rs & Hrs & Ha). inversion Hrs as [|? r ? rs' (E & [Hc Hs] & Hn) Hrs']; subst. rewrite E. cbn [ok_or res_bind].
    destruct (Z.leb_spec (Tree_members t) (route_component r)); [lia|].
    destruct (Z.leb_spec (Tree_members t) (route_source r)); [lia|]. cbn [orb]. rewrite Hn. cbn [negb]. fold (route_key r).
    rewrite fmap_cons in Ha. destruct Ha as [Ho Ha]. rewrite Ho. apply IH. by exists rs'.
Qed.

Lemma leaf_at_inv bytes a l : byte_list bytes → leaf_at bytes a = Ok l →
  (a + Leaf_BYTES ≤ length bytes)%nat ∧ Leaf_to_bytes l = slice bytes a Leaf_BYTES ∧ Leaf_valid l.
Proof.
  intros Hb. unfold leaf_at. destruct (get_range bytes a Leaf_BYTES) as [raw|] eqn:E; cbn [ok_or res_bind]; [|done].
  apply get_range_Some in E as [Hl ->]. destruct (Leaf_from_bytes _) as [l'|] eqn:El; cbn [map_err]; [|done]. intros [= ->].
  split; [done|]. apply (codec_enc_dec (Codec := Leaf_codec)); [by apply slice_bytes|by apply length_slice|done].
Qed.

Lemma leaf_at_canon l raw a : Leaf_valid l → get_range raw a Leaf_BYTES = Some (Leaf_to_bytes l) → leaf_at raw a = Ok l.
Proof. intros Hl E. unfold leaf_at. rewrite E. cbn [ok_or res_bind]. by rewrite leaf_decodes. Qed.

(** What is checked is canonical. *)
Lemma check_inv bytes t : byte_list bytes → Tree_check bytes = Ok t → ∃ c, canon_ok c ∧ bytes = canon_bytes c ∧ t = canon_tree c.
Proof.
  intros Hb. unfold Tree_check. destruct (Nat.ltb_spec (length bytes) (TOPOLOGY_AT + Topology_HEAD_BYTES)) as [|Hlen]; [done|].
  destruct (Generation_from_bytes _) as [u|] eqn:Eg; cbn [map_err res_bind]; [|done].
  destruct (leaf_at bytes FRAME_AT) as [frame|] eqn:Ef; cbn [res_bind]; [|done].
  destruct (Z.eqb_spec (leaf_kind frame) node_BYTES) as [Hk|]; cbn [negb]; [|done].
  destruct (named (leaf_name frame)) eqn:Hn; cbn [negb]; [|done].
  destruct (Topology_from_bytes _) as [head|] eqn:Eh; cbn [map_err res_bind]; [|done].
  destruct (Nat.eqb_spec (length bytes) (members_at head + Z.to_nat (top_members head) * Leaf_BYTES)) as [Hl|]; cbn [negb]; [|done].
  destruct (check_members _ _ _ _) as [[]|] eqn:Em; cbn [res_bind]; [|done].
  destruct (check_routes _ _ _) as [[]|] eqn:Er; cbn [res_bind]; [|done]. intros [= <-].
  apply check_members_iff in Em as (ls & Hls & Hsl). apply check_routes_iff in Er as (rs & Hrs & Hsr).
  change (92 ≤ length bytes)%nat in Hlen.
  destruct (codec_enc_dec (Codec := Generation_codec) (slice bytes 0 Generation_BYTES) u) as [Hg _];
    [by apply slice_bytes|apply length_slice; change (8 ≤ length bytes)%nat; lia|done|].
  destruct (leaf_at_inv bytes FRAME_AT frame Hb Ef) as (_ & Hfe & Hfv).
  destruct (codec_enc_dec (Codec := Topology_codec) (slice bytes TOPOLOGY_AT Topology_HEAD_BYTES) head) as [Hhe Hhv];
    [by apply slice_bytes|apply length_slice; change (92 ≤ length bytes)%nat; lia|done|].
  assert (Hnl : length ls = Z.to_nat (top_members head)) by (rewrite <- (list.Forall2_length _ _ _ Hls); apply length_seq).
  assert (Hnr : length rs = Z.to_nat (top_routes head)) by (rewrite <- (list.Forall2_length _ _ _ Hrs); apply length_seq).
  set (c := mkCanon frame rs ls). assert (Hhead : cn_head c = head).
  { unfold cn_head, c. cbn. rewrite Hnl, Hnr, !Z2Nat.id by apply Hhv. by destruct head. }
  assert (Hls' : Forall2 (λ i l, Leaf_to_bytes l = slice bytes (members_at head + i * Leaf_BYTES) Leaf_BYTES ∧ member_ok l) (range (top_members head)) ls).
  { eapply list.Forall2_impl; [exact Hls|]. intros i l (E & K1 & K2). destruct (leaf_at_inv _ _ _ Hb E) as (_ & E1 & E2). by split. }
  assert (Hrs' : Forall2 (λ i r, Route_to_bytes r = slice bytes (TOPOLOGY_AT + Topology_HEAD_BYTES + i * Route_BYTES) Route_BYTES ∧
    route_ok (Z.of_nat (length ls)) r) (range (top_routes head)) rs).
  { eapply list.Forall2_impl; [exact Hrs|]. intros i r (E & K1 & K2). unfold Tree_route in E. cbn [tree_bytes] in E.
    destruct (Tree_routes _ <=? _); [done|].
    destruct (get_range bytes _ Route_BYTES) as [raw|] eqn:Eraw; [|done]. injection E as E. apply get_range_Some in Eraw as [Hr ->].
    destruct (codec_enc_dec (Codec := Route_codec) (slice bytes (TOPOLOGY_AT + Topology_HEAD_BYTES + i * Route_BYTES) Route_BYTES) r) as [E1 E2];
      [by apply slice_bytes|by apply length_slice|by rewrite E|]. split; [done|]. split; [done| |done].
    unfold Tree_members in K1. cbn in K1. rewrite Hnl, Z2Nat.id by apply Hhv. done. }
  assert (Hbytes : bytes = canon_bytes c).
  { unfold canon_bytes. rewrite Hhead. cbn [c cn_frame cn_routes cn_members]. rewrite Hg, Hfe, Hhe.
    rewrite (Forall2_fmap_eq _ _ _ _ (list.Forall2_impl _ _ _ _ Hls' (λ _ _ H, proj1 H))), (Forall2_fmap_eq _ _ _ _ (list.Forall2_impl _ _ _ _ Hrs' (λ _ _ H, proj1 H))).
    pose proof (slices_concat bytes (members_at head) Leaf_BYTES (Z.to_nat (top_members head)) ltac:(lia)) as E1.
    rewrite (drop_ge bytes (_ + _)), app_nil_r in E1 by lia. unfold range. rewrite E1.
    change (members_at head) with (TOPOLOGY_AT + Topology_HEAD_BYTES + Z.to_nat (top_routes head) * Route_BYTES)%nat in *.
    rewrite slices_concat by lia. unfold slice.
    change TOPOLOGY_AT with 80%nat. change Topology_HEAD_BYTES with 12%nat. change FRAME_AT with 8%nat. change Leaf_BYTES with 72%nat. change Generation_BYTES with 8%nat.
    rewrite <- (drop_drop _ 12 80), (take_drop 12). change 80%nat with (8 + 72)%nat. by rewrite <- (drop_drop _ 72 8), (take_drop 72), drop_0, take_drop. }
  exists c. split; [|split; [exact Hbytes|unfold canon_tree; by rewrite <- Hbytes, Hhead]].
  split; cbn [c cn_frame cn_routes cn_members]; [done| | |done|done|by rewrite Hhead].
  - eapply list.Forall2_Forall_r; [exact Hls'|]. apply list.Forall_true. by intros i l [_ H].
  - eapply list.Forall2_Forall_r; [exact Hrs'|]. apply list.Forall_true. by intros i l [_ H].
Qed.

Lemma Forall2_range {A} (P : nat → A → Prop) (l : list A) :
  (∀ i x, l !! i = Some x → P i x) → Forall2 P (range (Z.of_nat (length l))) l.
Proof.
  intros H. unfold range. rewrite Nat2Z.id. apply list.Forall2_same_length_lookup_2; [by rewrite length_seq|].
  intros i j x Hj Hx. apply lookup_seq in Hj as [-> _]. by apply H.
Qed.

Lemma check_canon c : canon_ok c → Tree_check (canon_bytes c) = Ok (canon_tree c).
Proof.
  intros Hc. unfold Tree_check. destruct (Nat.ltb_spec (length (canon_bytes c)) (TOPOLOGY_AT + Topology_HEAD_BYTES)) as [Hlt|_].
  { rewrite canon_length in Hlt by done. unfold members_at, Topology_bytes in Hlt. lia. }
  assert (Eg : slice (canon_bytes c) 0 Generation_BYTES = Generation_to_bytes).
  { unfold slice. rewrite drop_0. unfold canon_bytes. by rewrite <- canon_generation_length at 1; rewrite take_app_length. }
  rewrite Eg. rewrite (codec_dec_enc (Codec := Generation_codec) tt I). cbn [map_err res_bind].
  destruct (ck_frame c Hc) as (Hf & Hk & Hn). rewrite (leaf_at_canon (cn_frame c)) by (done || by apply canon_frame_at). cbn [res_bind].
  rewrite Hk, Z.eqb_refl, Hn. cbn [negb].
  assert (Et : slice (canon_bytes c) TOPOLOGY_AT Topology_HEAD_BYTES = Topology_to_bytes (cn_head c)).
  { unfold canon_bytes. rewrite (assoc_L (++)), <- (canon_head_length c Hc).
    replace TOPOLOGY_AT with (length (Generation_to_bytes ++ Leaf_to_bytes (cn_frame c))) by (by rewrite length_app, canon_frame_length). apply slice_app. }
  rewrite Et, (codec_dec_enc (Codec := Topology_codec) _ (ck_few c Hc)). cbn [map_err res_bind].
  rewrite canon_length by done. cbn [cn_head top_members]. rewrite Nat2Z.id. change (mkTopology _ _) with (cn_head c). rewrite Nat.eqb_refl. cbn [negb].
  assert (Em : check_members (canon_bytes c) (members_at (cn_head c)) (range (Z.of_nat (length (cn_members c)))) None = Ok tt).
  { apply check_members_iff. exists (cn_members c). split; [|apply (ck_members_sorted c Hc)]. apply Forall2_range. intros i l Hl.
    pose proof (ck_members c Hc) as Hm. rewrite list.Forall_forall in Hm. destruct (Hm l (list_elem_of_lookup_2 _ _ _ Hl)) as [M1 M2 M3].
    split; [|done]. apply leaf_at_canon; [done|by apply canon_member_at]. }
  rewrite Em. cbn [res_bind].
  assert (Er : check_routes (canon_tree c) (range (Z.of_nat (length (cn_routes c)))) None = Ok tt).
  { apply check_routes_iff. exists (cn_routes c). split; [|apply (ck_routes_sorted c Hc)]. apply Forall2_range. intros i r Hr.
    pose proof (ck_routes c Hc) as Hm. rewrite list.Forall_forall in Hm. destruct (Hm r (list_elem_of_lookup_2 _ _ _ Hr)) as [R1 R2 R3].
    split; [by rewrite canon_tree_route|done]. }
  change (mkTree (canon_bytes c) (cn_head c)) with (canon_tree c). cbn [cn_head top_routes]. by rewrite Er.
Qed.

(** ** Folding *)
Definition leaf_message (l : Leaf) : list Z := Leaf_to_bytes l.
Definition topology_message (c : Canon) : list Z :=
  Topology_to_bytes (cn_head c) ++ concat ((λ l, sha256 (leaf_message l)) <$> cn_members c) ++ concat (Route_to_bytes <$> cn_routes c).
Definition root_message (c : Canon) : list Z :=
  Generation_to_bytes ++ sha256 (leaf_message (cn_frame c)) ++ sha256 (topology_message c).

Lemma foldl_indexed {A B} (f : B → A → B) (l : list A) : ∀ pre st,
  foldl (λ st i, match (pre ++ l) !! i with Some x => f st x | None => st end) st (seq (length pre) (length l)) = foldl f st l.
Proof.
  induction l as [|x l IH]; intros pre st; [done|]. cbn [length seq foldl]. rewrite list_lookup_middle by done.
  specialize (IH (pre ++ [x]) (f st x)). rewrite length_app, Nat.add_1_r in IH. rewrite <- IH.
  by rewrite <- (assoc_L (++)).
Qed.

Lemma foldl_range {A B} (f : B → A → B) (get : nat → option A) (l : list A) st :
  (∀ i, get i = l !! i) → foldl (λ st i, match get i with Some x => f st x | None => st end) st (range (Z.of_nat (length l))) = foldl f st l.
Proof.
  intros H. rewrite <- (foldl_indexed f l [] st). unfold range. rewrite Nat2Z.id. cbn [length app].
  generalize (seq 0 (length l)). intros idxs. revert st. induction idxs as [|i idxs IH]; intros st; [done|]. cbn [foldl]. by rewrite H, IH.
Qed.

Lemma foldl_fmap {A B C} (f : B → C → B) (g : A → C) (l : list A) : ∀ st, foldl (λ st x, f st (g x)) st l = foldl f st (g <$> l).
Proof. induction l as [|x l IH]; intros st; [done|]. by rewrite fmap_cons; cbn [foldl]. Qed.

Lemma leaf_fold_eq l : leaf_fold l = sha256 (leaf_message l).
Proof. done. Qed.

Lemma topology_fold_eq c : canon_ok c → topology_fold (canon_tree c) = sha256 (topology_message c).
Proof.
  intros Hc. unfold topology_fold, Tree_members, Tree_routes. cbn [tree_head canon_tree cn_head top_members top_routes]. change (mkTopology _ _) with (cn_head c).
  rewrite (foldl_range (λ state member, Sha256_update state (leaf_fold member)) (Tree_member (canon_tree c)) (cn_members c)) by apply (canon_tree_member c Hc).
  rewrite (foldl_range (λ state route, Sha256_update state (Route_to_bytes route)) (Tree_route (canon_tree c)) (cn_routes c)) by apply (canon_tree_route c Hc).
  rewrite (foldl_fmap Sha256_update leaf_fold), (foldl_fmap Sha256_update Route_to_bytes).
  pose proof (sha256_pieces (Topology_to_bytes (cn_head c) :: (leaf_fold <$> cn_members c) ++ (Route_to_bytes <$> cn_routes c))) as E.
  cbn [foldl concat] in E. rewrite foldl_app, concat_app in E. exact E.
Qed.

Lemma root_fold_eq c : canon_ok c → root_fold (canon_tree c) = sha256 (root_message c).
Proof.
  intros Hc. unfold root_fold. rewrite topology_fold_eq, canon_tree_frame by done.
  pose proof (sha256_pieces [Generation_to_bytes; leaf_fold (cn_frame c); sha256 (topology_message c)]) as E.
  cbn [foldl concat] in E. rewrite app_nil_r in E. exact E.
Qed.

Lemma canon_unique c c' : canon_ok c → canon_ok c' → canon_bytes c = canon_bytes c' → c = c'.
Proof.
  intros H H' E. assert (Et : canon_tree c = canon_tree c').
  { pose proof (check_canon c H) as E1. rewrite E, (check_canon c' H') in E1. symmetry. exact (ok_inj _ _ E1). }
  pose proof (canon_tree_frame c H) as Ef. rewrite Et, (canon_tree_frame c' H') in Ef.
  assert (Em : cn_members c = cn_members c').
  { apply list_eq. intros i. by rewrite <- (canon_tree_member c H i), Et, (canon_tree_member c' H'). }
  assert (Er : cn_routes c = cn_routes c').
  { apply list_eq. intros i. by rewrite <- (canon_tree_route c H i), Et, (canon_tree_route c' H'). }
  destruct c, c'. cbn in *. by subst.
Qed.

(** ** A small generation *)
Definition name_of (l : list Z) : list Z := l ++ zeroed (NAME_MAX - length l).
Definition leaf_of (kind : Z) (tag : Z) (name : list Z) : Leaf := mkLeaf kind (replicate 32 tag) (name_of name).
Definition small (tag : Z) : Canon := mkCanon (leaf_of node_BYTES 7 [102; 114; 97; 109; 101])
  [mkRoute 0 1 (name_of [108; 111; 103])] [leaf_of node_COMPONENT tag [97]; leaf_of node_COMPONENT 9 [98; 45; 50]].

Lemma digest_dec (h : list Z) : bool_decide (Forall (λ b, 0 ≤ b < 256) h) && (length h =? 32)%nat = true → is_digest h.
Proof. rewrite andb_true_iff, Nat.eqb_eq. intros [H%bool_decide_eq_true Hl]. split; [|done]. eapply list.Forall_impl; [exact H|]. intros b Hb. exact Hb. Qed.

Lemma small_ok tag : 0 ≤ tag < 256 → canon_ok (small tag).
Proof.
  intros Ht. assert (Hd : is_digest (replicate 32 tag)) by (split; [apply Forall_replicate; exact Ht|done]).
  split.
  - split; [|done]. split; [done|by apply digest_dec|by apply digest_dec].
  - repeat (apply list.Forall_cons_2; [split; [split; [done| |by apply digest_dec]|done|done]|]); [exact Hd|by apply digest_dec|apply list.Forall_nil_2].
  - apply list.Forall_cons_2; [|apply list.Forall_nil_2]. split; [split; [unfold is_uint; cbn; lia|unfold is_uint; cbn; lia|by apply digest_dec]|cbn; lia|done].
  - done.
  - done.
  - split; cbn; unfold MEMBERS_MAX, ROUTES_MAX; lia.
Qed.

Lemma canon_byte_list c : canon_ok c → byte_list (canon_bytes c).
Proof.
  intros Hc. unfold canon_bytes. apply Forall_app. split; [exact (codec_bytes (Codec := Generation_codec) tt I)|].
  apply Forall_app. split; [exact (codec_bytes (Codec := Leaf_codec) _ (proj1 (ck_frame c Hc)))|].
  apply Forall_app. split; [exact (codec_bytes (Codec := Topology_codec) _ (ck_few c Hc))|].
  apply Forall_app. split; apply Forall_concat, list.Forall_fmap.
  - eapply list.Forall_impl; [apply (ck_routes c Hc)|]. intros r Hr. exact (codec_bytes (Codec := Route_codec) r (ru_valid _ _ Hr)).
  - eapply list.Forall_impl; [apply (ck_members c Hc)|]. intros l Hl. exact (codec_bytes (Codec := Leaf_codec) l (mo_valid _ Hl)).
Qed.

(** ** Checking *)

(** C14 A record tree is accepted exactly when its bytes are the encoding of a
    canonical one: a named frame leaf, at most 64 named components in strictly
    ascending order of name, at most 256 routes between them in strictly
    ascending order of component and capability, every padding byte zero and no
    byte left over.  The encoding is unique, and what an accepted tree answers
    is what was encoded. *)
Theorem tree_check_exact (bytes : list Z) :
  byte_list bytes →
  (∀ t, Tree_check bytes = Ok t → ∃ c, canon_ok c ∧ bytes = canon_bytes c ∧ Tree_frame t = cn_frame c ∧
    (∀ i, Tree_member t i = cn_members c !! i) ∧ (∀ i, Tree_route t i = cn_routes c !! i)) ∧
  (∀ c, canon_ok c → bytes = canon_bytes c → (∃ t, Tree_check bytes = Ok t) ∧ ∀ c', canon_ok c' → bytes = canon_bytes c' → c' = c).
Proof.
  intros Hb. split.
  - intros t (c & Hc & E & ->)%check_inv; [|done]. exists c.
    by split_and!; [done|done|apply canon_tree_frame|apply canon_tree_member|apply canon_tree_route].
  - intros c Hc ->. split; [exists (canon_tree c); by apply check_canon|]. intros c' Hc' E. by apply canon_unique.
Qed.

Lemma tree_check_exact_witness :
  byte_list (canon_bytes (small 5)) ∧
  (∃ t, Tree_check (canon_bytes (small 5)) = Ok t) ∧ ∀ c', canon_ok c' → canon_bytes (small 5) = canon_bytes c' → c' = small 5.
Proof.
  split; [apply canon_byte_list, small_ok; lia|].
  apply (proj2 (tree_check_exact (canon_bytes (small 5)) (canon_byte_list _ (small_ok 5 ltac:(lia)))) (small 5)); [apply small_ok; lia|reflexivity].
Defined.

(** ** The root names the tree *)

(** Every message folding the tree hashes. *)
Definition messages (c : Canon) : list (list Z) :=
  root_message c :: topology_message c :: leaf_message (cn_frame c) :: (leaf_message <$> cn_members c).

Definition collide (m m' : list Z) : Prop := m ≠ m' ∧ sha256 m = sha256 m'.

Lemma sha256_length m : length (sha256 m) = 32%nat.
Proof. apply (sha256_digest m). Qed.

(** Equal digests come from equal messages, or collide. *)
Lemma digests_or_collide (ms ms' : list (list Z)) :
  (sha256 <$> ms) = (sha256 <$> ms') → ms = ms' ∨ ∃ m m', m ∈ ms ∧ m' ∈ ms' ∧ collide m m'.
Proof.
  revert ms'. induction ms as [|m ms IH]; intros [|m' ms']; rewrite ?fmap_cons, ?fmap_nil; try done; [by left|].
  intros [= E Er]. destruct (decide (m = m')) as [->|Hne].
  - destruct (IH ms' Er) as [->|(a & b & Ha & Hb & Hc)]; [by left|right].
    exists a, b. split; [by apply list_elem_of_further|]. split; [by apply list_elem_of_further|done].
  - right. exists m, m'. split; [apply list_elem_of_here|]. split; [apply list_elem_of_here|done].
Qed.

Lemma concat_digests_inj (ms ms' : list (list Z)) x x' :
  length ms = length ms' → concat (sha256 <$> ms) ++ x = concat (sha256 <$> ms') ++ x' → (sha256 <$> ms) = (sha256 <$> ms') ∧ x = x'.
Proof.
  revert ms'. induction ms as [|m ms IH]; intros [|m' ms'] Hl; try done. rewrite !fmap_cons. cbn [concat]. rewrite <- !(assoc_L (++)).
  intros E. apply app_inj_1 in E as [E1 E2]; [|by rewrite !sha256_length]. injection Hl as Hl. destruct (IH ms' Hl E2) as [-> ->]. by rewrite E1.
Qed.

Lemma concat_pieces_inj {A} (f : A → list Z) n (l l' : list A) :
  Forall (λ p, length p = n) (f <$> l) → Forall (λ p, length p = n) (f <$> l') → length l = length l' →
  concat (f <$> l) = concat (f <$> l') → (f <$> l) = (f <$> l').
Proof.
  revert l'. induction l as [|x l IH]; intros [|x' l'] H H' Hl; try done. rewrite !fmap_cons in *. cbn [concat].
  apply list.Forall_cons in H as [Hx H]. apply list.Forall_cons in H' as [Hx' H']. intros E.
  apply app_inj_1 in E as [E1 E2]; [|by rewrite Hx, Hx']. injection Hl as Hl. by rewrite E1, (IH l' H H' Hl E2).
Qed.

Lemma fmap_inj_valid {A} (V : A → Prop) (f : A → list Z) (l l' : list A) :
  (∀ x y, V x → V y → f x = f y → x = y) → Forall V l → Forall V l' → (f <$> l) = (f <$> l') → l = l'.
Proof.
  intros Hf. revert l'. induction l as [|x l IH]; intros [|x' l'] H H'; rewrite ?fmap_cons, ?fmap_nil; try done.
  apply list.Forall_cons in H as [Hx H]. apply list.Forall_cons in H' as [Hx' H']. intros [= E1 E2]. f_equal; [by apply Hf|by apply IH].
Qed.

Lemma topology_parts c c' : canon_ok c → canon_ok c' → topology_message c = topology_message c' →
  (sha256 <$> (leaf_message <$> cn_members c)) = (sha256 <$> (leaf_message <$> cn_members c')) ∧ cn_routes c = cn_routes c'.
Proof.
  intros H H' E. unfold topology_message in E. apply app_inj_1 in E as [Eh E]; [|by rewrite !canon_head_length].
  apply (codec_inj _ _ _ _ _ _ Topology_codec (ck_few c H) (ck_few c' H')) in Eh. injection Eh as Em%Nat2Z.inj Er%Nat2Z.inj.
  rewrite !(list_fmap_compose leaf_message sha256) in E.
  apply concat_digests_inj in E as [E1 E2]; [|by rewrite !length_fmap]. split; [exact E1|].
  apply (concat_pieces_inj _ Route_BYTES) in E2; [|by apply canon_route_pieces..|done].
  apply (fmap_inj_valid Route_valid) in E2; [done| | |].
  - intros x y. apply (codec_inj _ _ _ _ _ _ Route_codec).
  - eapply list.Forall_impl; [apply (ck_routes c H)|]. by intros r [].
  - eapply list.Forall_impl; [apply (ck_routes c' H')|]. by intros r [].
Qed.

Lemma leaves_inj (l l' : list Leaf) : Forall Leaf_valid l → Forall Leaf_valid l' → (leaf_message <$> l) = (leaf_message <$> l') → l = l'.
Proof. apply fmap_inj_valid. intros x y. apply (codec_inj _ _ _ _ _ _ Leaf_codec). Qed.

(** C15 A root names one generation: two checked trees with one root have the
    same bytes, or two of the messages that were hashed for them collide under
    SHA-256, and the theorem says which kind. *)
Theorem root_names_tree (bytes bytes' : list Z) (t t' : Tree) :
  byte_list bytes → byte_list bytes' → Tree_check bytes = Ok t → Tree_check bytes' = Ok t' → root_fold t = root_fold t' →
  bytes = bytes' ∨
  ∃ c c' m m', bytes = canon_bytes c ∧ bytes' = canon_bytes c' ∧ m ∈ messages c ∧ m' ∈ messages c' ∧ collide m m'.
Proof.
  intros Hb Hb' (c & H & -> & ->)%check_inv (c' & H' & -> & ->)%check_inv E; [|done..]. rewrite !root_fold_eq in E by done.
  destruct (decide (root_message c = root_message c')) as [Er|Hne].
  2:{ right. exists c, c', (root_message c), (root_message c'). do 2 (split; [done|]). do 2 (split; [apply list_elem_of_here|]). done. }
  unfold root_message in Er. apply app_inj_1 in Er as [_ Er]; [|done]. apply app_inj_1 in Er as [Ef Et]; [|by rewrite !sha256_length].
  destruct (decide (topology_message c = topology_message c')) as [Em|Hne].
  2:{ right. exists c, c', (topology_message c), (topology_message c'). do 2 (split; [done|]).
      do 2 (split; [apply list_elem_of_further, list_elem_of_here|]). done. }
  destruct (topology_parts c c' H H' Em) as [Ed Err].
  assert (Edig : (sha256 <$> (leaf_message <$> (cn_frame c :: cn_members c))) = (sha256 <$> (leaf_message <$> (cn_frame c' :: cn_members c')))).
  { rewrite !(fmap_cons leaf_message), !(fmap_cons sha256). by rewrite Ef, Ed. }
  destruct (digests_or_collide _ _ Edig) as [Eall|(m & m' & Hm & Hm' & Hcol)].
  - left. f_equal. apply (leaves_inj (cn_frame c :: cn_members c) (cn_frame c' :: cn_members c')) in Eall.
    + injection Eall as E1 E2. destruct c, c'. cbn in *. by subst.
    + apply list.Forall_cons_2; [apply (ck_frame c H)|]. eapply list.Forall_impl; [apply (ck_members c H)|]. by intros l [].
    + apply list.Forall_cons_2; [apply (ck_frame c' H')|]. eapply list.Forall_impl; [apply (ck_members c' H')|]. by intros l [].
  - right. exists c, c', m, m'. do 2 (split; [done|]). do 2 (split; [by do 2 apply list_elem_of_further|]). done.
Qed.

Lemma root_names_tree_witness :
  (∃ t t', Tree_check (canon_bytes (small 5)) = Ok t ∧ Tree_check (canon_bytes (small 6)) = Ok t' ∧ root_fold t ≠ root_fold t') ∧
  (canon_bytes (small 5) = canon_bytes (small 5) ∨
  ∃ c c' m m', canon_bytes (small 5) = canon_bytes c ∧ canon_bytes (small 5) = canon_bytes c' ∧ m ∈ messages c ∧ m' ∈ messages c' ∧ collide m m').
Proof.
  split.
  - exists (canon_tree (small 5)), (canon_tree (small 6)). split; [apply check_canon, small_ok; lia|]. split; [apply check_canon, small_ok; lia|].
    apply (bool_decide_unpack _). vm_compute. exact I.
  - apply (root_names_tree _ _ (canon_tree (small 5)) (canon_tree (small 5))); [apply canon_byte_list, small_ok; lia..| | |reflexivity]; apply check_canon, small_ok; lia.
Defined.

(** ** Where two trees stop agreeing *)

(** The two members at a place have one name and one digest, or neither is
    there. *)
Definition members_agree (t t' : Tree) (i : nat) : Prop :=
  (leaf_name <$> Tree_member t i) = (leaf_name <$> Tree_member t' i) ∧ (leaf_fold <$> Tree_member t i) = (leaf_fold <$> Tree_member t' i).

(** [d] is a difference, and everything before it in the order of the fold
    agrees. *)
Definition first_difference (t t' : Tree) (d : Divergence) : Prop :=
  match d with
  | DLeaf a b => leaf_fold a ≠ leaf_fold b ∧
      (a = Tree_frame t ∧ b = Tree_frame t' ∨
       leaf_fold (Tree_frame t) = leaf_fold (Tree_frame t') ∧
       ∃ i, Tree_member t i = Some a ∧ Tree_member t' i = Some b ∧ leaf_name a = leaf_name b ∧ ∀ j, (j < i)%nat → members_agree t t' j)
  | Membership a b => leaf_fold (Tree_frame t) = leaf_fold (Tree_frame t') ∧ (leaf_name <$> a) ≠ (leaf_name <$> b) ∧
      ∃ i, Tree_member t i = a ∧ Tree_member t' i = b ∧ ∀ j, (j < i)%nat → members_agree t t' j
  | DRoute i a b => leaf_fold (Tree_frame t) = leaf_fold (Tree_frame t') ∧ (∀ j, members_agree t t' j) ∧
      Tree_route t i = a ∧ Tree_route t' i = b ∧ a ≠ b ∧ ∀ j, (j < i)%nat → Tree_route t j = Tree_route t' j
  | Head | Compiler => False
  end.

Lemma diff_members_spec t t' k : ∀ i,
  (∀ j, (i ≤ j < i + k)%nat → Tree_member t j ≠ None ∨ Tree_member t' j ≠ None) →
  match diff_members t t' (seq i k) with
  | None => ∀ j, (i ≤ j < i + k)%nat → members_agree t t' j
  | Some d => ∃ j, (∀ j', (i ≤ j' < j)%nat → members_agree t t' j') ∧
      match d with
      | DLeaf a b => Tree_member t j = Some a ∧ Tree_member t' j = Some b ∧ leaf_name a = leaf_name b ∧ leaf_fold a ≠ leaf_fold b
      | Membership a b => Tree_member t j = a ∧ Tree_member t' j = b ∧ (leaf_name <$> a) ≠ (leaf_name <$> b)
      | _ => False
      end
  end.
Proof.
  induction k as [|k IH]; intros i Hsome; cbn [seq diff_members]; [intros j Hj; lia|].
  assert (Hhere : ∀ (P : nat → Prop) j, (i ≤ j < i)%nat → P j) by (intros; lia).
  destruct (Tree_member t i) as [a|] eqn:Ea, (Tree_member t' i) as [b|] eqn:Eb.
  - case_bool_decide as Hn; [case_bool_decide as Hf|].
    + exists i. split; [apply Hhere|done].
    + assert (Hag : members_agree t t' i).
      { unfold members_agree. rewrite Ea, Eb. cbn. split; [by rewrite Hn|]. by destruct (decide (leaf_fold a = leaf_fold b)) as [->|]. }
      specialize (IH (S i) (λ j Hj, Hsome j ltac:(lia))).
      destruct (diff_members t t' (seq (S i) k)) as [d|].
      * destruct IH as (j & Hj & Hd). exists j. split; [|done]. intros j' Hj'. destruct (decide (j' = i)) as [->|]; [done|]. apply Hj. lia.
      * intros j Hj. destruct (decide (j = i)) as [->|]; [done|]. apply IH. lia.
    + exists i. split; [apply Hhere|]. split; [done|]. split; [done|]. cbn. congruence.
  - exists i. split; [apply Hhere|done].
  - exists i. split; [apply Hhere|done].
  - destruct (Hsome i) as [?|?]; [lia|done..].
Qed.

Lemma diff_routes_spec t t' k : ∀ i,
  match diff_routes t t' (seq i k) with
  | None => ∀ j, (i ≤ j < i + k)%nat → (Route_to_bytes <$> Tree_route t j) = (Route_to_bytes <$> Tree_route t' j)
  | Some d => ∃ j, (i ≤ j < i + k)%nat ∧ (∀ j', (i ≤ j' < j)%nat → (Route_to_bytes <$> Tree_route t j') = (Route_to_bytes <$> Tree_route t' j')) ∧
      d = DRoute j (Tree_route t j) (Tree_route t' j) ∧
      ((Route_to_bytes <$> Tree_route t j) ≠ (Route_to_bytes <$> Tree_route t' j) ∨ Tree_route t j = None ∧ Tree_route t' j = None)
  end.
Proof.
  induction k as [|k IH]; intros i; cbn [seq diff_routes]; [intros j Hj; lia|].
  set (same := match Tree_route t i with Some a => _ | None => false end).
  assert (Hsame : if same then (Route_to_bytes <$> Tree_route t i) = (Route_to_bytes <$> Tree_route t' i)
    else (Route_to_bytes <$> Tree_route t i) ≠ (Route_to_bytes <$> Tree_route t' i) ∨ Tree_route t i = None ∧ Tree_route t' i = None).
  { unfold same. destruct (Tree_route t i), (Tree_route t' i); cbn; [|by left|by left|by right]. case_bool_decide; [congruence|left; congruence]. }
  destruct same.
  - specialize (IH (S i)). destruct (diff_routes t t' (seq (S i) k)) as [d|].
    + destruct IH as (j & Hj & Hb & Hd). exists j. split; [lia|]. split; [|done]. intros j' Hj'.
      destruct (decide (j' = i)) as [->|]; [done|]. apply Hb. lia.
    + intros j Hj. destruct (decide (j = i)) as [->|]; [done|]. apply IH. lia.
  - exists i. split; [lia|]. split; [intros; lia|done].
Qed.

(** When all that is compared agrees, so do the roots. *)
Lemma agree_same_root c c' : canon_ok c → canon_ok c' → leaf_fold (cn_frame c) = leaf_fold (cn_frame c') →
  (∀ i, members_agree (canon_tree c) (canon_tree c') i) → cn_routes c = cn_routes c' →
  cn_head c = cn_head c' ∧ root_fold (canon_tree c) = root_fold (canon_tree c').
Proof.
  intros H H' Hf Hm Hr.
  assert (Em : (leaf_fold <$> cn_members c) = (leaf_fold <$> cn_members c')).
  { apply list_eq. intros i. destruct (Hm i) as [_ E]. rewrite !canon_tree_member in E by done. by rewrite !list_lookup_fmap. }
  assert (El : length (cn_members c) = length (cn_members c')) by (by rewrite <- (length_fmap leaf_fold), Em, length_fmap).
  assert (Eh : cn_head c = cn_head c') by (unfold cn_head; by rewrite El, Hr). split; [done|].
  rewrite !root_fold_eq by done. f_equal. unfold root_message, topology_message. change (λ l, sha256 (leaf_message l)) with leaf_fold.
  change (sha256 (leaf_message ?x)) with (leaf_fold x). by rewrite Hf, Eh, Em, Hr.
Qed.

(** Comparing two checked trees answers nothing exactly when their roots are
    equal, and otherwise the first difference in the order of the fold: the
    frame, the members, the routes.  It always names an input; the answers for
    a head or a compiler that differ are never given. *)
Theorem divergence_first (bytes bytes' : list Z) (t t' : Tree) :
  byte_list bytes → byte_list bytes' → Tree_check bytes = Ok t → Tree_check bytes' = Ok t' →
  match divergence t t' with
  | None => root_fold t = root_fold t'
  | Some d => root_fold t ≠ root_fold t' ∧ first_difference t t' d ∧ names_an_input d = true
  end.
Proof.
  intros Hb Hb' (c & H & -> & ->)%check_inv (c' & H' & -> & ->)%check_inv; [|done..]. unfold divergence.
  case_bool_decide as Hroot; [done|]. case_bool_decide as Hf.
  { split; [done|]. split; [|done]. split; [done|by left]. }
  assert (Hframe : leaf_fold (Tree_frame (canon_tree c)) = leaf_fold (Tree_frame (canon_tree c'))).
  { by destruct (decide (leaf_fold (Tree_frame (canon_tree c)) = leaf_fold (Tree_frame (canon_tree c')))). }
  clear Hf. set (n := Z.max _ _).
  pose proof (diff_members_spec (canon_tree c) (canon_tree c') (Z.to_nat n) 0) as Hm. change (seq 0 (Z.to_nat n)) with (range n) in Hm.
  assert (Hn : ∀ i, (i < Z.to_nat n)%nat ↔ (i < length (cn_members c))%nat ∨ (i < length (cn_members c'))%nat).
  { intros i. unfold n, Tree_members. cbn. lia. }
  destruct (diff_members _ _ (range n)) as [d|].
  { destruct Hm as (j & Hj & Hd).
    { intros j Hj. rewrite !canon_tree_member by done. destruct (proj1 (Hn j)) as [Hl|Hl]; [lia| |];
        apply lookup_lt_is_Some_2 in Hl as [x Hx]; rewrite Hx; [by left|by right]. }
    split; [done|]. destruct d as [a b|a b| | |]; try done.
    - destruct Hd as (D1 & D2 & D3 & D4). split; [|done]. split; [done|]. right. split; [done|]. exists j. split_and!; try done. intros j' Hj'. apply Hj. lia.
    - destruct Hd as (D1 & D2 & D3). split; [|done]. split; [done|]. split; [done|]. exists j. split_and!; try done. intros j' Hj'. apply Hj. lia. }
  assert (Hall : ∀ j, members_agree (canon_tree c) (canon_tree c') j).
  { intros j. destruct (decide (j < Z.to_nat n)%nat) as [Hlt|Hge].
    - apply Hm; [|lia]. intros i Hi. rewrite !canon_tree_member by done. destruct (proj1 (Hn i)) as [Hl|Hl]; [lia| |];
        apply lookup_lt_is_Some_2 in Hl as [x Hx]; rewrite Hx; [by left|by right].
    - unfold members_agree. rewrite !canon_tree_member by done. rewrite Hn in Hge. by rewrite !lookup_ge_None_2 by lia. }
  clear Hm. set (k := Z.max (Tree_routes _) _).
  pose proof (diff_routes_spec (canon_tree c) (canon_tree c') (Z.to_nat k) 0) as Hr. change (seq 0 (Z.to_nat k)) with (range k) in Hr.
  assert (Hk : ∀ i, (i < Z.to_nat k)%nat ↔ (i < length (cn_routes c))%nat ∨ (i < length (cn_routes c'))%nat).
  { intros i. unfold k, Tree_routes. cbn. lia. }
  assert (Hinj : ∀ j, (Route_to_bytes <$> Tree_route (canon_tree c) j) = (Route_to_bytes <$> Tree_route (canon_tree c') j) →
    Tree_route (canon_tree c) j = Tree_route (canon_tree c') j).
  { intros j. rewrite !canon_tree_route by done. destruct (cn_routes c !! j) as [r|] eqn:Er, (cn_routes c' !! j) as [r'|] eqn:Er'; cbn; try done.
    intros E. f_equal. apply (codec_inj _ _ _ _ _ _ Route_codec); [| |exact (inj Some _ _ E)].
    - pose proof (ck_routes c H) as Hv. rewrite list.Forall_forall in Hv. apply (Hv r (list_elem_of_lookup_2 _ _ _ Er)).
    - pose proof (ck_routes c' H') as Hv. rewrite list.Forall_forall in Hv. apply (Hv r' (list_elem_of_lookup_2 _ _ _ Er')). }
  destruct (diff_routes _ _ (range k)) as [d|].
  { destruct Hr as (j & Hj & Hb1 & -> & Hd). split; [done|]. split; [|done]. split_and!; try done.
    - destruct Hd as [Hd|[Hd1 Hd2]]; [congruence|]. rewrite canon_tree_route in Hd1, Hd2 by done.
      apply lookup_ge_None in Hd1, Hd2. destruct (proj1 (Hk j)); lia.
    - intros j' Hj'. apply Hinj, Hb1. lia. }
  exfalso. apply Hroot. rewrite !canon_tree_frame in Hframe by done. apply (agree_same_root c c'); [done..|].
  apply list_eq. intros i. destruct (decide (i < Z.to_nat k)%nat) as [Hlt|Hge].
  - rewrite <- !canon_tree_route by done. apply Hinj, Hr. lia.
  - rewrite Hk in Hge. by rewrite !lookup_ge_None_2 by lia.
Qed.

Lemma divergence_first_witness :
  divergence (canon_tree (small 5)) (canon_tree (small 6)) = Some (DLeaf (leaf_of node_COMPONENT 5 [97]) (leaf_of node_COMPONENT 6 [97])) ∧
  first_difference (canon_tree (small 5)) (canon_tree (small 6)) (DLeaf (leaf_of node_COMPONENT 5 [97]) (leaf_of node_COMPONENT 6 [97])).
Proof.
  assert (E : divergence (canon_tree (small 5)) (canon_tree (small 6)) = Some (DLeaf (leaf_of node_COMPONENT 5 [97]) (leaf_of node_COMPONENT 6 [97])))
    by (vm_compute; reflexivity).
  split; [exact E|].
  pose proof (divergence_first (canon_bytes (small 5)) (canon_bytes (small 6)) (canon_tree (small 5)) (canon_tree (small 6))
    (canon_byte_list _ (small_ok 5 ltac:(lia))) (canon_byte_list _ (small_ok 6 ltac:(lia))) (check_canon _ (small_ok 5 ltac:(lia))) (check_canon _ (small_ok 6 ltac:(lia)))) as H.
  rewrite E in H. apply H.
Defined.
