(* ===== verification/Boot.v ===== *)
(** * What the loader hands over: [abi/src/boot.rs] and [generation/src/select.rs]

    The two tokens of the command line, the module a generation travels in, and
    which of the modules offered is the one that was asked for. *)

From S2P Require Import Prelude Abi Bytes StoreRecords Sha256 Generation.
Import error.
#[local] Open Scope Z_scope.

(** ** Tokens *)
Definition KEY : list Z := [102; 46; 114; 111; 111; 116; 61].            (* f.root= *)
Definition FRAME_KEY : list Z := [102; 46; 102; 114; 97; 109; 101; 61].  (* f.frame= *)
Definition DIGITS : nat := 64.
Definition ROOT_BYTES : nat := 32.
Definition HEX : list Z := [48; 49; 50; 51; 52; 53; 54; 55; 56; 57; 97; 98; 99; 100; 101; 102].

Definition is_ascii_whitespace (b : Z) : bool := (b =? 32) || (b =? 9) || (b =? 10) || (b =? 12) || (b =? 13).

Fixpoint starts_with (word key : list Z) : bool :=
  match key, word with
  | [], _ => true
  | k :: key, b :: word => (b =? k) && starts_with word key
  | _ :: _, [] => false
  end.
Definition strip_prefix (word key : list Z) : option (list Z) :=
  if starts_with word key then Some (drop (length key) word) else None.

(** [split]: the pieces between separators, empty ones included. *)
Fixpoint split_on (p : Z → bool) (l : list Z) : list (list Z) :=
  match l with
  | [] => [[]]
  | b :: l =>
      if p b then [] :: split_on p l
      else match split_on p l with
           | [] => [[b]]
           | word :: words => (b :: word) :: words
           end
  end.

Definition token (cmdline key : list Z) : option (list Z) :=
  List.find (λ word, starts_with word key) (split_on is_ascii_whitespace cmdline).

Definition nibble (c : Z) : option Z :=
  if is_ascii_digit c then Some (c - 48)
  else if (97 <=? c) && (c <=? 102) then Some (c - 97 + 10)
  else None.

Definition bad_header : Z := error_pack ARGUMENT MALFORMED_HEADER.
Definition bad_token : Z := error_pack ARGUMENT UNKNOWN_FLAG.

(** Pairs of digits, from the front. *)
Fixpoint digest_bytes (n : nat) (digits : list Z) : res Z (list Z) :=
  match n with
  | O => Ok []
  | S n =>
      match digits with
      | h :: l :: digits =>
          let? high := ok_or (nibble h) bad_header in
          let? low := ok_or (nibble l) bad_header in
          let? rest := digest_bytes n digits in
          Ok (Z.lor (Z.shiftl high 4) low :: rest)
      | _ => Err bad_header
      end
  end.
Definition digest_parse (digits : list Z) : res Z (list Z) :=
  if negb (length digits =? DIGITS)%nat then Err bad_header else digest_bytes ROOT_BYTES digits.

Definition hex_digits (bytes : list Z) : list Z :=
  concat ((λ b, [nth (Z.to_nat (Z.shiftr b 4)) HEX 0; nth (Z.to_nat (Z.land b 15)) HEX 0]) <$> bytes).

Record Selection : Type := mkSelection { sel_root : list Z }.
Definition Selection_render (s : Selection) : list Z := KEY ++ hex_digits (sel_root s).
Definition Selection_parse (word : list Z) : res Z Selection :=
  let? digits := ok_or (strip_prefix word KEY) bad_token in
  let? root := digest_parse digits in
  Ok (mkSelection root).
Definition Selection_find (cmdline : list Z) : option (res Z Selection) := Selection_parse <$> token cmdline KEY.

Record Declaration : Type := mkDeclaration { decl_frame : list Z }.
Definition Declaration_render (d : Declaration) : list Z := FRAME_KEY ++ hex_digits (decl_frame d).
Definition Declaration_parse (word : list Z) : res Z Declaration :=
  let? digits := ok_or (strip_prefix word FRAME_KEY) bad_token in
  let? frame := digest_parse digits in
  Ok (mkDeclaration frame).
Definition Declaration_find (cmdline : list Z) : option (res Z Declaration) := Declaration_parse <$> token cmdline FRAME_KEY.

(** ** The module *)
Definition MODULE_MAGIC : Z := 0x465f4d4f44000001.
Definition MODULE_HEAD_BYTES : nat := 16.
Definition MODULE_FILES_MAX : Z := MEMBERS_MAX.

Record BootModule : Type := mkModule { mod_bytes : list Z; mod_tree_bytes : Z; mod_files : Z }.

(** [usize] arithmetic that answers nothing past the width. *)
Definition checked_add (a b : Z) : option Z := if u64_max <? a + b then None else Some (a + b).
Definition checked_mul (a b : Z) : option Z := if u64_max <? a * b then None else Some (a * b).

Definition get_at (bytes : list Z) (at_ n : Z) : option (list Z) := get_range bytes (Z.to_nat at_) (Z.to_nat n).

Definition file_bytes (m : BootModule) (index : nat) : option Z :=
  (λ raw, word raw 0) <$> get_range (mod_bytes m) (MODULE_HEAD_BYTES + index * 4) 4.

Fixpoint total_bytes (m : BootModule) (indices : list nat) (total : Z) : option Z :=
  match indices with
  | [] => Some total
  | index :: indices => n ← file_bytes m index; total ← checked_add total n; total_bytes m indices total
  end.

Definition Module_read (bytes : list Z) : res Z BootModule :=
  let? head := ok_or (get_range bytes 0 MODULE_HEAD_BYTES) bad_header in
  if negb (long head 0 =? MODULE_MAGIC) then Err bad_header
  else
    let tree_bytes := word head 8 in
    let files := word head 12 in
    if MODULE_FILES_MAX <? files then Err bad_token
    else
      let? lengths := ok_or (checked_mul files 4) bad_header in
      let? tree_at := ok_or (checked_add (Z.of_nat MODULE_HEAD_BYTES) lengths) bad_header in
      let? files_at := ok_or (checked_add tree_at tree_bytes) bad_header in
      let module := mkModule bytes tree_bytes files in
      let? total := ok_or (total_bytes module (range files) files_at) bad_header in
      if negb (Z.of_nat (length bytes) =? total) then Err bad_header else Ok module.

Definition Module_tree (m : BootModule) : list Z :=
  default [] (get_at (mod_bytes m) (Z.of_nat MODULE_HEAD_BYTES + mod_files m * 4) (mod_tree_bytes m)).

Definition Module_file (m : BootModule) (index : nat) : option (list Z) :=
  if mod_files m <=? Z.of_nat index then None
  else
    let at_ := Z.of_nat MODULE_HEAD_BYTES + mod_files m * 4 + mod_tree_bytes m in
    at_ ← total_bytes m (seq 0 index) at_;
    n ← file_bytes m index;
    stop ← checked_add at_ n;
    get_at (mod_bytes m) at_ n.

(** ** Choosing *)
Record Examined : Type := mkExamined { ex_root : list Z; ex_digest : list Z; ex_bytes : nat; ex_members : Z }.
Inductive Rejected : Type := RModule (code : Z) | RTree (r : Refusal).

Definition is_module (bytes : list Z) : bool :=
  match get_range bytes 0 8 with Some head => long head 0 =? MODULE_MAGIC | None => false end.

Definition examine (bytes : list Z) : res Rejected Examined :=
  let? module := map_err RModule (Module_read bytes) in
  let? tree := map_err RTree (Tree_check (Module_tree module)) in
  Ok (mkExamined (root_fold tree) (Sha256_finish (Sha256_update Sha256_new bytes)) (length bytes) (Tree_members tree)).

Record Chosen : Type := mkChosen {
  ch_at : option nat;
  ch_found : option Examined;
  ch_offered : nat;
  ch_rejected : nat;
  ch_why : option Rejected;
}.
Definition Chosen_default : Chosen := mkChosen None None 0 0 None.

Definition select_step (root : list Z) (chosen : Chosen) (at_ : nat) (bytes : list Z) : Chosen :=
  if negb (is_module bytes) then chosen
  else
    let chosen := mkChosen (ch_at chosen) (ch_found chosen) (S (ch_offered chosen)) (ch_rejected chosen) (ch_why chosen) in
    match examine bytes with
    | Ok found =>
        if bool_decide (ex_root found = root) && bool_decide (ch_at chosen = None)
        then mkChosen (Some at_) (Some found) (ch_offered chosen) (ch_rejected chosen) (ch_why chosen)
        else chosen
    | Err why =>
        mkChosen (ch_at chosen) (ch_found chosen) (ch_offered chosen) (S (ch_rejected chosen))
          (match ch_why chosen with None => Some why | w => w end)
    end.

Fixpoint select_from (root : list Z) (at_ : nat) (offered : list (list Z)) (chosen : Chosen) : Chosen :=
  match offered with
  | [] => chosen
  | bytes :: offered => select_from root (S at_) offered (select_step root chosen at_ bytes)
  end.
Definition select (root : list Z) (offered : list (list Z)) : Chosen := select_from root 0 offered Chosen_default.
