(* ===== verification/BootTheorems.v ===== *)
(** * What the loader's words and modules come to

    Tokens and modules are read exactly as they are written, and the module
    chosen is the first whose tree folds to the root asked for. *)

From S2P Require Import Prelude Abi Bytes StoreRecords StoreCodecs Sha256 Generation GenerationTheorems Boot.
#[local] Open Scope Z_scope.

(** * Modules and tokens: what is accepted

    A module is accepted exactly when it is the encoding of a tree and files; a
    token exactly when it is what [render] prints. *)

(** ** The module *)
Definition length_bytes (f : list Z) : list Z := le_bytes 4 (Z.of_nat (length f)).
Definition module_head (tree : list Z) (files : list (list Z)) : list Z :=
  le_bytes 8 MODULE_MAGIC ++ le_bytes 4 (Z.of_nat (length tree)) ++ le_bytes 4 (Z.of_nat (length files)).
Definition module_bytes (tree : list Z) (files : list (list Z)) : list Z :=
  module_head tree files ++ concat (length_bytes <$> files) ++ tree ++ concat files.

Record module_fits (tree : list Z) (files : list (list Z)) : Prop := {
  mf_tree : is_uint 32 (Z.of_nat (length tree));
  mf_files : Forall (λ f, is_uint 32 (Z.of_nat (length f))) files;
  mf_count : Z.of_nat (length files) ≤ MODULE_FILES_MAX;
}.

Definition module_of (tree : list Z) (files : list (list Z)) : BootModule :=
  mkModule (module_bytes tree files) (Z.of_nat (length tree)) (Z.of_nat (length files)).

Lemma get_range_front x post n : length x = n → get_range (x ++ post) 0 n = Some x.
Proof. intros <-. apply (get_range_mid []). Qed.

Lemma slice_self l n : length l = n → slice l 0 n = l.
Proof. intros <-. unfold slice. by rewrite drop_0, take_ge. Qed.

Lemma word_le_bytes z : is_uint 32 z → word (le_bytes 4 z) 0 = z.
Proof. intros Hz. unfold word. rewrite slice_self by apply length_le_bytes. by apply from_le_le_bytes. Qed.

Section fits.
Context (tree : list Z) (files : list (list Z)) (Hfit : module_fits tree files).

Lemma module_head_length : length (module_head tree files) = MODULE_HEAD_BYTES.
Proof. unfold module_head. by rewrite !length_app, !length_le_bytes. Qed.

Lemma lengths_pieces : Forall (λ p, length p = 4%nat) (length_bytes <$> files).
Proof. apply list.Forall_fmap, list.Forall_true. intros f. apply length_le_bytes. Qed.

Lemma concat_files_bound : Z.of_nat (length (concat files)) ≤ Z.of_nat (length files) * (2 ^ 32 - 1).
Proof.
  destruct Hfit as [_ Hf _]. clear Hfit. induction Hf as [|f fs Hx _ IH]; [done|]. cbn [concat length]. rewrite length_app, Nat2Z.inj_succ. unfold is_uint in Hx. cbv beta in Hx. lia.
Qed.

Lemma module_file_bytes i f : files !! i = Some f → file_bytes (module_of tree files) i = Some (Z.of_nat (length f)).
Proof.
  intros Hi. unfold file_bytes. cbn [mod_bytes module_of]. unfold module_bytes. rewrite <- module_head_length.
  rewrite (get_range_piece _ _ _ 4 i (length_bytes f)); [|apply lengths_pieces|by rewrite list_lookup_fmap, Hi]. cbn. f_equal.
  apply word_le_bytes. destruct Hfit as [_ Hf _]. rewrite list.Forall_forall in Hf. apply Hf. by apply list_elem_of_lookup_2 in Hi.
Qed.

Lemma module_total k : ∀ i total, (i + k ≤ length files)%nat → 0 ≤ total →
  total + Z.of_nat (length (concat (drop i files))) ≤ u64_max →
  total_bytes (module_of tree files) (seq i k) total = Some (total + Z.of_nat (length (concat (take k (drop i files))))).
Proof.
  induction k as [|k IH]; intros i total Hk Ht Hmax; cbn [seq total_bytes].
  { rewrite take_0. cbn. f_equal. lia. }
  destruct (lookup_lt_is_Some_2 files i) as [f Hf]; [lia|]. rewrite (module_file_bytes i f Hf). cbn [mbind option_bind].
  rewrite (drop_S _ _ _ Hf) in Hmax |- *. cbn [take concat] in Hmax |- *. rewrite length_app in Hmax |- *.
  unfold checked_add. destruct (Z.ltb_spec u64_max (total + Z.of_nat (length f))); [lia|]. cbn [mbind option_bind].
  rewrite IH by lia. f_equal. lia.
Qed.

(** Where the tree and the files are. *)
Lemma lengths_length : length (concat (length_bytes <$> files)) = (length files * 4)%nat.
Proof. by rewrite (length_concat_pieces 4 _ lengths_pieces), length_fmap. Qed.

Lemma module_length : Z.of_nat (length (module_bytes tree files)) =
  Z.of_nat MODULE_HEAD_BYTES + Z.of_nat (length files) * 4 + Z.of_nat (length tree) + Z.of_nat (length (concat files)).
Proof. unfold module_bytes. rewrite !length_app, module_head_length, lengths_length. lia. Qed.

Lemma module_length_small : Z.of_nat (length (module_bytes tree files)) ≤ u64_max.
Proof.
  rewrite module_length. pose proof concat_files_bound. destruct Hfit as [Ht _ Hc]. unfold is_uint in Ht.
  change MODULE_FILES_MAX with 64 in Hc. change (Z.of_nat MODULE_HEAD_BYTES) with 16. unfold u64_max. lia.
Qed.

Lemma get_at_mid pre x post a n : Z.of_nat (length pre) = a → Z.of_nat (length x) = n → get_at (pre ++ x ++ post) a n = Some x.
Proof. intros <- <-. unfold get_at. rewrite !Nat2Z.id. apply get_range_mid. Qed.

Lemma module_of_tree : Module_tree (module_of tree files) = tree.
Proof.
  unfold Module_tree. cbn [mod_bytes mod_files mod_tree_bytes module_of]. unfold module_bytes. rewrite (assoc_L (++) _ _ (tree ++ _)).
  rewrite get_at_mid; [done| |done]. rewrite length_app, module_head_length, lengths_length. lia.
Qed.

Lemma module_of_file i : Module_file (module_of tree files) i = files !! i.
Proof.
  unfold Module_file. cbn [mod_bytes mod_files mod_tree_bytes module_of].
  destruct (Z.leb_spec (Z.of_nat (length files)) (Z.of_nat i)) as [Hge|Hlt]; [by rewrite lookup_ge_None_2 by lia|].
  destruct (lookup_lt_is_Some_2 files i) as [f Hf]; [lia|]. rewrite Hf. pose proof module_length_small as Hs. rewrite module_length in Hs.
  rewrite module_total by (rewrite ?drop_0; lia). cbn [mbind option_bind]. rewrite drop_0, (module_file_bytes i f Hf). cbn [mbind option_bind].
  pose proof (f_equal length (f_equal (@concat Z) (take_drop_middle files i f Hf))) as El. rewrite concat_app in El. cbn [concat] in El. rewrite !length_app in El.
  unfold checked_add. match goal with |- context [u64_max <? ?x] => destruct (Z.ltb_spec u64_max x); [lia|] end. cbn [mbind option_bind].
  assert (Ec : concat files = concat (take i files) ++ f ++ concat (drop (S i) files)) by (rewrite <- (take_drop_middle files i f Hf) at 1; by rewrite concat_app).
  unfold module_bytes. rewrite Ec.
  rewrite !(assoc_L (++)), <- (assoc_L (++) _ f). apply get_at_mid; [|done].
  rewrite !length_app, module_head_length, lengths_length. lia.
Qed.

(** The encoding is accepted. *)
Lemma module_head_reads post : let head := default [] (get_range (module_head tree files ++ post) 0 MODULE_HEAD_BYTES) in
  get_range (module_head tree files ++ post) 0 MODULE_HEAD_BYTES = Some head ∧ long head 0 = MODULE_MAGIC ∧
  word head 8 = Z.of_nat (length tree) ∧ word head 12 = Z.of_nat (length files).
Proof.
  cbv zeta. rewrite get_range_front by apply module_head_length. cbn [from_option id]. split; [done|].
  set (F := [(0%nat, le_bytes 8 MODULE_MAGIC); (8%nat, le_bytes 4 (Z.of_nat (length tree))); (12%nat, le_bytes 4 (Z.of_nat (length files)))]).
  assert (Hc : contiguous 0 F) by (unfold F; solve_contiguous).
  assert (E : module_head tree files = flat F) by (unfold F; rewrite !flat_cons; unfold flat; cbn [concat fmap list_fmap]; by rewrite app_nil_r).
  destruct Hfit as [Ht _ Hn]. change MODULE_FILES_MAX with 64 in Hn.
  rewrite E. unfold long, word, F in *. read_fields Hc. rewrite !from_le_le_bytes; [done|unfold is_uint; cbn; lia|exact Ht|by unfold is_uint].
Qed.

Lemma module_reads : Module_read (module_bytes tree files) = Ok (module_of tree files).
Proof.
  unfold Module_read. pose proof (module_head_reads (concat (length_bytes <$> files) ++ tree ++ concat files)) as H. cbv zeta in H.
  fold (module_bytes tree files) in H. destruct H as (Eg & Em & Et & Ef). set (head := default [] _) in *. rewrite Eg. cbn [ok_or res_bind].
  rewrite Em, Z.eqb_refl, Et, Ef. cbn [negb]. destruct Hfit as [Ht _ Hn]. unfold is_uint in Ht. change MODULE_FILES_MAX with 64 in *.
  destruct (Z.ltb_spec 64 (Z.of_nat (length files))); [lia|]. pose proof module_length_small as Hs. rewrite module_length in Hs. change (Z.of_nat MODULE_HEAD_BYTES) with 16 in *.
  unfold checked_mul. destruct (Z.ltb_spec u64_max (Z.of_nat (length files) * 4)); [unfold u64_max in *; lia|]. cbn [ok_or res_bind].
  unfold checked_add. destruct (Z.ltb_spec u64_max (16 + Z.of_nat (length files) * 4)); [lia|]. cbn [ok_or res_bind].
  destruct (Z.ltb_spec u64_max (16 + Z.of_nat (length files) * 4 + Z.of_nat (length tree))); [lia|]. cbn [ok_or res_bind].
  fold (module_of tree files). unfold range. rewrite Nat2Z.id, (module_total (length files) 0) by (rewrite ?drop_0; lia). cbn [ok_or res_bind].
  rewrite drop_0, take_ge, module_length, Z.eqb_refl by lia. done.
Qed.
End fits.

(** ** And nothing else *)
Lemma cuts_lengths raw ws : ∀ off, (off + sum_list ws ≤ length raw)%nat → length <$> (cuts raw off ws).*2 = ws.
Proof.
  induction ws as [|w ws IH]; intros off H; [done|]. cbn [cuts fmap list_fmap snd]. cbn [sum_list sum_list_with foldr] in H.
  change (sum_list_with id ws) with (sum_list ws) in H. cbn in H. f_equal; [apply length_slice; lia|]. apply IH. lia.
Qed.

Lemma total_inv m k : ∀ i base total, total_bytes m (seq i k) base = Some total →
  ∃ ns, Forall2 (λ j n, file_bytes m j = Some n) (seq i k) ns ∧ total = base + foldr Z.add 0 ns.
Proof.
  induction k as [|k IH]; intros i base total; cbn [seq total_bytes]; [intros [= <-]; exists []; split; [constructor|cbn; lia]|].
  destruct (file_bytes m i) as [n|] eqn:En; cbn [mbind option_bind]; [|done]. unfold checked_add.
  destruct (Z.ltb_spec u64_max (base + n)); cbn [mbind option_bind]; [done|]. intros (ns & Hns & ->)%IH.
  exists (n :: ns). split; [by constructor|]. cbn. lia.
Qed.

Lemma module_inv bytes m : byte_list bytes → Module_read bytes = Ok m →
  ∃ tree files, module_fits tree files ∧ bytes = module_bytes tree files ∧ m = module_of tree files.
Proof.
  intros Hb. unfold Module_read. destruct (get_range bytes 0 MODULE_HEAD_BYTES) as [head|] eqn:Eg; cbn [ok_or res_bind]; [|done].
  apply get_range_Some in Eg as [Hl16 Ehead]. change (0 + MODULE_HEAD_BYTES)%nat with 16%nat in Hl16. change MODULE_HEAD_BYTES with 16%nat in *.
  destruct (Z.eqb_spec (long head 0) MODULE_MAGIC) as [Hmagic|]; cbn [negb]; [|done].
  destruct (Z.ltb_spec MODULE_FILES_MAX (word head 12)) as [|Hfiles]; [done|]. change MODULE_FILES_MAX with 64 in Hfiles.
  assert (Hhb : byte_list head) by (rewrite Ehead; by apply slice_bytes). assert (Hhl : length head = 16%nat) by (rewrite Ehead; by apply length_slice).
  destruct (long_spec head 0 Hhb) as [_ E0]; [lia|]. destruct (word_spec head 8 Hhb) as [U8 E8]; [lia|]. destruct (word_spec head 12 Hhb) as [U12 E12]; [lia|].
  rewrite Hmagic in E0. set (tb := word head 8) in *. set (nf := word head 12) in *. unfold is_uint in U8, U12.
  unfold checked_mul at 1. destruct (Z.ltb_spec u64_max (nf * 4)); cbn [ok_or res_bind]; [done|].
  unfold checked_add at 1. destruct (Z.ltb_spec u64_max (Z.of_nat 16 + nf * 4)); cbn [ok_or res_bind]; [done|].
  unfold checked_add at 1. destruct (Z.ltb_spec u64_max (Z.of_nat 16 + nf * 4 + tb)); cbn [ok_or res_bind]; [done|].
  destruct (total_bytes _ _ _) as [total|] eqn:Et; cbn [ok_or res_bind]; [|done].
  destruct (Z.eqb_spec (Z.of_nat (length bytes)) total) as [Hl|]; cbn [negb]; [|done]. intros [= <-].
  apply total_inv in Et as (ns & Hns & ->). set (k := Z.to_nat nf) in *.
  (* each length, read and as bytes *)
  assert (Hns' : Forall2 (λ j n, is_uint 32 n ∧ le_bytes 4 n = slice bytes (16 + j * 4) 4) (seq 0 k) ns).
  { eapply list.Forall2_impl; [exact Hns|]. intros j n E. unfold file_bytes in E. cbn [mod_bytes] in E.
    destruct (get_range bytes _ 4) as [raw|] eqn:Er; [|done]. apply get_range_Some in Er as [Hr ->]. apply (inj Some) in E. subst n. change MODULE_HEAD_BYTES with 16%nat in *.
    assert (Hrb : byte_list (slice bytes (16 + j * 4) 4)) by by apply slice_bytes.
    assert (Hrl : length (slice bytes (16 + j * 4) 4) = 4%nat) by by apply length_slice.
    destruct (word_spec _ 0 Hrb) as [W1 W2]; [lia|]. cbv beta. split; [exact W1|]. rewrite W2. by apply slice_self. }
  assert (Hlen : length ns = k) by (rewrite <- (list.Forall2_length _ _ _ Hns'); apply length_seq).
  assert (Hu : Forall (is_uint 32) ns) by (eapply list.Forall2_Forall_r; [exact Hns'|]; apply list.Forall_true; by intros j n [H' _]).
  set (ws := Z.to_nat <$> ns). set (at_ := (16 + k * 4 + Z.to_nat tb)%nat).
  assert (Hsum : Z.of_nat (sum_list ws) = foldr Z.add 0 ns).
  { unfold ws. clear -Hu. induction Hu as [|n ns Hn _ IH]; [done|]. rewrite fmap_cons. change (sum_list (Z.to_nat n :: (Z.to_nat <$> ns))) with (Z.to_nat n + sum_list (Z.to_nat <$> ns))%nat.
    rewrite Nat2Z.inj_add, IH. unfold is_uint in Hn. cbn [foldr]. lia. }
  assert (Htot : (at_ + sum_list ws = length bytes)%nat) by (unfold at_, k in *; lia).
  set (tree := slice bytes (16 + k * 4) (Z.to_nat tb)). set (files := (cuts bytes at_ ws).*2).
  assert (Hws : length <$> files = ws) by (apply cuts_lengths; lia).
  assert (Hnf : length files = k) by (rewrite <- (length_fmap length), Hws; unfold ws; by rewrite length_fmap).
  assert (Htl : length tree = Z.to_nat tb) by (apply length_slice; unfold at_ in Htot; lia).
  assert (Hlb : (length_bytes <$> files) = ((λ j, slice bytes (16 + j * 4) 4) <$> seq 0 k)).
  { transitivity (le_bytes 4 <$> ns).
    - transitivity ((λ n, le_bytes 4 (Z.of_nat n)) <$> (length <$> files)); [by rewrite <- list_fmap_compose|]. rewrite Hws. unfold ws. rewrite <- list_fmap_compose.
      apply list_fmap_ext. intros j n Hn%list_elem_of_lookup_2. cbn. rewrite list.Forall_forall in Hu. specialize (Hu n Hn). unfold is_uint in Hu. by rewrite Z2Nat.id by lia.
    - apply Forall2_fmap_eq. eapply list.Forall2_impl; [exact Hns'|]. by intros j n [_ E]. }
  assert (Ebytes : bytes = module_bytes tree files).
  { unfold module_bytes, module_head. rewrite Htl, Hnf. replace (Z.of_nat (Z.to_nat tb)) with tb by lia. replace (Z.of_nat k) with nf by lia.
    rewrite Hlb, E0, E8, E12. change (concat files) with (flat (cuts bytes at_ ws)). rewrite flat_cuts by done.
    assert (Hhead3 : slice head 0 8 ++ slice head 8 4 ++ slice head 12 4 = head).
    { transitivity (flat (cuts head 0 [8; 4; 4]%nat)); [unfold flat; cbn [cuts concat fmap list_fmap snd Nat.add]; by rewrite app_nil_r|].
      rewrite flat_cuts; [by rewrite drop_0|by rewrite Hhl]. }
    rewrite Hhead3. unfold at_, tree, slice. rewrite <- (drop_drop _ (Z.to_nat tb) (16 + k * 4)), take_drop.
    pose proof (slices_concat bytes 16 4 k) as Es. unfold slice in Es. rewrite Es by (unfold at_ in Htot; lia).
    rewrite Ehead. unfold slice. by rewrite drop_0, take_drop. }
  exists tree, files. split; [|split; [exact Ebytes|]].
  - split; [unfold is_uint; rewrite Htl; lia| |rewrite Hnf; unfold MODULE_FILES_MAX, MEMBERS_MAX; lia].
    assert (Hf : Forall (λ n, is_uint 32 (Z.of_nat n)) (length <$> files)).
    { rewrite Hws. unfold ws. apply list.Forall_fmap. eapply list.Forall_impl; [exact Hu|]. intros n Hn. unfold is_uint in *. cbn. lia. }
    apply (proj1 (list.Forall_fmap _ _ _)) in Hf. exact Hf.
  - unfold module_of. rewrite <- Ebytes, Htl, Hnf. f_equal; lia.
Qed.

Import error.

(** ** Hexadecimal *)
Definition hex_pair (b : Z) : list Z := [nth (Z.to_nat (Z.shiftr b 4)) HEX 0; nth (Z.to_nat (Z.land b 15)) HEX 0].

Lemma hex_reads b : is_uint 8 b → nibble (nth (Z.to_nat (Z.shiftr b 4)) HEX 0) = Some (Z.shiftr b 4) ∧
  nibble (nth (Z.to_nat (Z.land b 15)) HEX 0) = Some (Z.land b 15) ∧ Z.lor (Z.shiftl (Z.shiftr b 4) 4) (Z.land b 15) = b.
Proof.
  intros Hb. assert (H : Forall (λ b, nibble (nth (Z.to_nat (Z.shiftr b 4)) HEX 0) = Some (Z.shiftr b 4) ∧
    nibble (nth (Z.to_nat (Z.land b 15)) HEX 0) = Some (Z.land b 15) ∧ Z.lor (Z.shiftl (Z.shiftr b 4) 4) (Z.land b 15) = b) (seqZ 0 256)).
  { apply (bool_decide_unpack _). vm_compute. exact I. }
  rewrite list.Forall_forall in H. apply H, elem_of_seqZ. unfold is_uint in Hb. lia.
Qed.

Lemma nibble_inv c x : nibble c = Some x → 0 ≤ x < 16 ∧ nth (Z.to_nat x) HEX 0 = c.
Proof.
  intros E. assert (Hc : 48 ≤ c ≤ 57 ∨ 97 ≤ c ≤ 102).
  { unfold nibble, is_ascii_digit in E. destruct (Z.leb_spec 48 c), (Z.leb_spec c 57), (Z.leb_spec 97 c), (Z.leb_spec c 102); cbn in E; try done; lia. }
  assert (H : Forall (λ c, ∀ x, nibble c = Some x → 0 ≤ x < 16 ∧ nth (Z.to_nat x) HEX 0 = c) (seqZ 48 10 ++ seqZ 97 6)).
  { repeat (apply list.Forall_cons_2; [intros y [= <-]; split; [lia|done]|]). apply list.Forall_nil_2. }
  rewrite list.Forall_forall in H. apply (H c); [|done]. apply elem_of_app. rewrite !elem_of_seqZ. lia.
Qed.

Lemma hex_joins x y : 0 ≤ x < 16 → 0 ≤ y < 16 →
  is_uint 8 (Z.lor (Z.shiftl x 4) y) ∧ Z.shiftr (Z.lor (Z.shiftl x 4) y) 4 = x ∧ Z.land (Z.lor (Z.shiftl x 4) y) 15 = y.
Proof.
  intros Hx Hy. assert (H : Forall (λ x, Forall (λ y, (0 ≤ Z.lor (Z.shiftl x 4) y < 256) ∧ Z.shiftr (Z.lor (Z.shiftl x 4) y) 4 = x ∧
    Z.land (Z.lor (Z.shiftl x 4) y) 15 = y) (seqZ 0 16)) (seqZ 0 16)).
  { apply (bool_decide_unpack _). vm_compute. exact I. }
  rewrite list.Forall_forall in H. specialize (H x ltac:(apply elem_of_seqZ; lia)). rewrite list.Forall_forall in H.
  apply H, elem_of_seqZ. lia.
Qed.

Lemma hex_digits_cons b bs : hex_digits (b :: bs) = hex_pair b ++ hex_digits bs.
Proof. done. Qed.
Lemma hex_digits_length bs : length (hex_digits bs) = (2 * length bs)%nat.
Proof. induction bs as [|b bs IH]; [done|]. rewrite hex_digits_cons, length_app, IH. cbn. lia. Qed.

Lemma digest_bytes_iff n : ∀ digits bs, length digits = (2 * n)%nat →
  digest_bytes n digits = Ok bs ↔ byte_list bs ∧ length bs = n ∧ digits = hex_digits bs.
Proof.
  induction n as [|n IH]; intros digits bs Hl.
  - destruct digits; [|done]. cbn [digest_bytes]. split; [intros [= <-]; split_and!; [constructor|done|done]|].
    intros (_ & Hb & _). by destruct bs.
  - destruct digits as [|h [|l digits]]; [done|cbn in Hl; lia|]. cbn [digest_bytes]. cbn [length] in Hl. specialize (IH digits). split.
    + destruct (nibble h) as [x|] eqn:Eh; cbn [ok_or res_bind]; [|done]. destruct (nibble l) as [y|] eqn:El; cbn [ok_or res_bind]; [|done].
      destruct (digest_bytes n digits) as [rest|] eqn:Er; cbn [res_bind]; [|done]. intros E%ok_inj. subst bs.
      apply nibble_inv in Eh as [Hx Hh], El as [Hy Hy']. destruct (proj1 (IH rest ltac:(lia)) eq_refl) as (Hb & Hbl & ->).
      destruct (hex_joins x y Hx Hy) as (U & E1 & E2). split; [by apply list.Forall_cons_2|]. split; [cbn; by rewrite Hbl|].
      rewrite hex_digits_cons. unfold hex_pair. by rewrite E1, E2, Hh, Hy'.
    + intros (Hb & Hbl & E). destruct bs as [|b bs]; [done|]. rewrite hex_digits_cons in E. unfold hex_pair in E. cbn [app] in E.
      apply list.Forall_cons in Hb as [Hb Hbs]. destruct (hex_reads b Hb) as (R1 & R2 & R3).
      assert (Eh : h = nth (Z.to_nat (Z.shiftr b 4)) HEX 0) by congruence. assert (El : l = nth (Z.to_nat (Z.land b 15)) HEX 0) by congruence.
      assert (Ed : digits = hex_digits bs) by congruence. rewrite Eh, El, R1, R2. cbn [ok_or res_bind].
      rewrite (proj2 (IH bs ltac:(lia))) by (split_and!; [done|cbn in Hbl; lia|done]). cbn [res_bind]. by rewrite R3.
Qed.

Lemma digest_parse_iff digits bs : digest_parse digits = Ok bs ↔ is_digest bs ∧ digits = hex_digits bs.
Proof.
  unfold digest_parse, is_digest. destruct (Nat.eqb_spec (length digits) DIGITS) as [Hl|Hl]; cbn [negb].
  - rewrite (digest_bytes_iff ROOT_BYTES digits bs Hl). unfold ROOT_BYTES. tauto.
  - split; [done|]. intros [[_ Hb] ->]. rewrite hex_digits_length, Hb in Hl. by destruct Hl.
Qed.

(** ** Words *)
Lemma starts_with_app key rest : starts_with (key ++ rest) key = true.
Proof. induction key as [|k key IH]; [by destruct rest|]. cbn. by rewrite Z.eqb_refl. Qed.

Lemma starts_with_inv key : ∀ word, starts_with word key = true → word = key ++ drop (length key) word.
Proof.
  induction key as [|k key IH]; intros [|b word]; try done.
  cbn [starts_with]. intros [Hb Hw]%andb_true_iff. apply Z.eqb_eq in Hb as ->. cbn. f_equal. by apply IH.
Qed.

Lemma strip_prefix_iff word key rest : strip_prefix word key = Some rest ↔ word = key ++ rest.
Proof.
  unfold strip_prefix. split.
  - destruct (starts_with word key) eqn:E; [|done]. intros H. apply (inj Some) in H as <-. by apply starts_with_inv.
  - intros ->. by rewrite starts_with_app, drop_app_length.
Qed.

(** Words without whitespace, and what is between them. *)
Definition line (first : list Z) (rest : list (Z * list Z)) : list Z := first ++ concat ((λ '(s, w), s :: w) <$> rest).

Lemma split_on_word p w l : Forall (λ b, p b = false) w →
  split_on p (w ++ l) = match split_on p l with [] => [w] | x :: xs => (w ++ x) :: xs end.
Proof.
  induction 1 as [|b w Hb _ IH]; cbn [app split_on].
  - destruct l as [|b l]; [done|]. cbn [split_on]. destruct (p b); [done|]. by destruct (split_on p l).
  - rewrite Hb, IH. by destruct (split_on p l).
Qed.

Lemma split_line p first rest : Forall (λ b, p b = false) first → Forall (λ '(s, w), p s = true ∧ Forall (λ b, p b = false) w) rest →
  split_on p (line first rest) = first :: rest.*2.
Proof.
  intros Hf Hr. revert first Hf. induction Hr as [|[s w] rest [Hs Hw] _ IH]; intros first Hf; unfold line; rewrite split_on_word by done.
  - cbn. by rewrite app_nil_r.
  - rewrite fmap_cons. cbn [concat app split_on]. rewrite Hs. cbn. rewrite app_nil_r. f_equal. by apply IH.
Qed.

(** A token is read exactly as it is printed.  A word parses to a root
    exactly when it is what [render] prints for that root: no truncation, no
    padding, no upper case.  And on a line of words the first that begins with
    the key is the one that is parsed, well-formed or not. *)
Theorem tokens_exact (first : list Z) (rest : list (Z * list Z)) :
  Forall (λ b, is_ascii_whitespace b = false) first →
  Forall (λ '(s, w), is_ascii_whitespace s = true ∧ Forall (λ b, is_ascii_whitespace b = false) w) rest →
  (∀ word s, Selection_parse word = Ok s ↔ is_digest (sel_root s) ∧ word = Selection_render s) ∧
  (∀ word d, Declaration_parse word = Ok d ↔ is_digest (decl_frame d) ∧ word = Declaration_render d) ∧
  Selection_find (line first rest) = Selection_parse <$> List.find (λ w, starts_with w KEY) (first :: rest.*2) ∧
  Declaration_find (line first rest) = Declaration_parse <$> List.find (λ w, starts_with w FRAME_KEY) (first :: rest.*2).
Proof.
  intros Hf Hr. split; [|split].
  - intros word s. unfold Selection_parse, Selection_render. destruct (strip_prefix word KEY) as [digits|] eqn:E; cbn [ok_or res_bind].
    + apply strip_prefix_iff in E as ->. split.
      * destruct (digest_parse digits) as [r|] eqn:Ed; cbn [res_bind]; [|done]. intros <-%ok_inj. by apply digest_parse_iff in Ed as [Hd ->].
      * intros [Hd Ew]. apply app_inv_head in Ew. rewrite (proj2 (digest_parse_iff digits (sel_root s)) (conj Hd Ew)). cbn [res_bind]. by destruct s.
    + split; [done|]. intros [_ ->]. by rewrite (proj2 (strip_prefix_iff _ KEY _) eq_refl) in E.
  - intros word d. unfold Declaration_parse, Declaration_render. destruct (strip_prefix word FRAME_KEY) as [digits|] eqn:E; cbn [ok_or res_bind].
    + apply strip_prefix_iff in E as ->. split.
      * destruct (digest_parse digits) as [r|] eqn:Ed; cbn [res_bind]; [|done]. intros <-%ok_inj. by apply digest_parse_iff in Ed as [Hd ->].
      * intros [Hd Ew]. apply app_inv_head in Ew. rewrite (proj2 (digest_parse_iff digits (decl_frame d)) (conj Hd Ew)). cbn [res_bind]. by destruct d.
    + split; [done|]. intros [_ ->]. by rewrite (proj2 (strip_prefix_iff _ FRAME_KEY _) eq_refl) in E.
  - unfold Selection_find, Declaration_find, token. by rewrite split_line.
Qed.

Definition asked : Selection := mkSelection (replicate 32 171).

Lemma tokens_exact_witness :
  Selection_find (line [116; 61; 54] [(32, Selection_render asked); (9, KEY)]) = Some (Ok asked) ∧
  Selection_find (line [116; 61; 54] [(32, Selection_render asked); (9, KEY)]) =
    Selection_parse <$> List.find (λ w, starts_with w KEY) [[116; 61; 54]; Selection_render asked; KEY].
Proof.
  split; [vm_compute; reflexivity|].
  refine (proj1 (proj2 (proj2 (tokens_exact [116; 61; 54] [(32, Selection_render asked); (9, KEY)] _ _)))); apply (bool_decide_unpack _); vm_compute; exact I.
Defined.

(** ** Modules *)

(** A boot module is accepted exactly when it is the encoding of a record
    tree and at most 64 files, with nothing left over; it answers that tree and
    those files in order, and no module encodes two contents. *)
Theorem module_exact (bytes : list Z) :
  byte_list bytes →
  (∀ m, Module_read bytes = Ok m → ∃ tree files, module_fits tree files ∧ bytes = module_bytes tree files ∧
    Module_tree m = tree ∧ ∀ i, Module_file m i = files !! i) ∧
  (∀ tree files, module_fits tree files → bytes = module_bytes tree files →
    (∃ m, Module_read bytes = Ok m) ∧
    ∀ tree' files', module_fits tree' files' → bytes = module_bytes tree' files' → tree' = tree ∧ files' = files).
Proof.
  intros Hb. split.
  - intros m (tree & files & Hf & -> & ->)%module_inv; [|done]. exists tree, files.
    split; [done|]. split; [done|]. split; [apply module_of_tree|by apply module_of_file].
  - intros tree files Hf ->. split; [exists (module_of tree files); by apply module_reads|]. intros tree' files' Hf' E.
    pose proof (module_reads tree files Hf) as E1. rewrite E, (module_reads tree' files' Hf') in E1. apply ok_inj in E1.
    split; [by rewrite <- (module_of_tree tree' files'), E1, module_of_tree|].
    apply list_eq. intros i. by rewrite <- (module_of_file tree' files' Hf' i), E1, module_of_file.
Qed.

Definition small_module (tag : Z) : list Z := module_bytes (canon_bytes (small tag)) [[1; 2; 3]; []].

Lemma small_fits tag : 0 ≤ tag < 256 → module_fits (canon_bytes (small tag)) [[1; 2; 3]; []].
Proof.
  intros Ht. split.
  - rewrite canon_length by (by apply small_ok). unfold is_uint. cbn. split; [by apply Z.leb_le|by apply Z.ltb_lt].
  - repeat (apply list.Forall_cons_2; [split; [by apply Z.leb_le|by apply Z.ltb_lt]|]). apply list.Forall_nil_2.
  - cbn. unfold MODULE_FILES_MAX, MEMBERS_MAX. lia.
Qed.

Lemma module_byte_list tree files : byte_list tree → Forall byte_list files → byte_list (module_bytes tree files).
Proof.
  intros Ht Hf. unfold module_bytes, module_head. repeat (apply Forall_app; split); try apply le_bytes_bytes; [|done|].
  - apply Forall_concat, list.Forall_fmap, list.Forall_true. intros f. apply le_bytes_bytes.
  - by apply Forall_concat.
Qed.

Lemma small_module_bytes tag : 0 ≤ tag < 256 → byte_list (small_module tag).
Proof.
  intros Ht. refine (module_byte_list (canon_bytes (small tag)) [[1; 2; 3]; []] (canon_byte_list _ (small_ok tag Ht)) _).
  apply (bool_decide_unpack _). vm_compute. exact I.
Qed.

Lemma module_exact_witness :
  (∃ m, Module_read (small_module 5) = Ok m) ∧
  ∀ tree files, module_fits tree files → small_module 5 = module_bytes tree files → tree = canon_bytes (small 5) ∧ files = [[1; 2; 3]; []].
Proof.
  apply (proj2 (module_exact (small_module 5) (small_module_bytes 5 ltac:(lia))) (canon_bytes (small 5)) [[1; 2; 3]; []]); [apply small_fits; lia|reflexivity].
Defined.

(** ** The module that was asked for *)
Lemma is_module_reads bytes m : Module_read bytes = Ok m → is_module bytes = true.
Proof.
  unfold Module_read, is_module. destruct (get_range bytes 0 MODULE_HEAD_BYTES) as [head|] eqn:E; cbn [ok_or res_bind]; [|done].
  apply get_range_Some in E as [Hl ->]. change (0 + MODULE_HEAD_BYTES)%nat with 16%nat in Hl.
  destruct (Z.eqb_spec (long (slice bytes 0 MODULE_HEAD_BYTES) 0) MODULE_MAGIC) as [Hm|]; cbn [negb]; [|done]. intros _.
  unfold get_range. rewrite (proj2 (Nat.leb_le _ _)) by lia. rewrite <- Hm, Z.eqb_eq. unfold long, slice. rewrite !drop_0, !take_take. done.
Qed.

Lemma examine_iff bytes e : byte_list bytes → examine bytes = Ok e ↔
  ∃ c files, canon_ok c ∧ module_fits (canon_bytes c) files ∧ bytes = module_bytes (canon_bytes c) files ∧
    e = mkExamined (sha256 (root_message c)) (sha256 bytes) (length bytes) (Z.of_nat (length (cn_members c))).
Proof.
  intros Hb. unfold examine. split.
  - destruct (Module_read bytes) as [m|] eqn:Em; cbn [map_err res_bind]; [|done].
    apply module_inv in Em as (tree & files & Hf & Eb & ->); [|done]. rewrite module_of_tree.
    destruct (Tree_check tree) as [t|] eqn:Et; cbn [map_err res_bind]; [|done].
    assert (Htb : byte_list tree).
    { rewrite Eb in Hb. unfold module_bytes in Hb. apply Forall_app in Hb as [_ Hb]. apply Forall_app in Hb as [_ Hb]. by apply Forall_app in Hb as [Hb _]. }
    apply check_inv in Et as (c & Hc & -> & ->); [|done]. intros <-%ok_inj. exists c, files. rewrite root_fold_eq by done.
    exact (conj Hc (conj Hf (conj Eb eq_refl))).
  - intros (c & files & Hc & Hf & Eb & ->). rewrite Eb at 1. rewrite module_reads by done. cbn [map_err res_bind].
    rewrite module_of_tree, check_canon by done. cbn [map_err res_bind]. by rewrite root_fold_eq.
Qed.

(** Does the blob answer to the root? *)
Definition answers (root bytes : list Z) : bool :=
  match examine bytes with Ok e => bool_decide (ex_root e = root) | Err _ => false end.
Definition refused_module (bytes : list Z) : bool :=
  is_module bytes && match examine bytes with Ok _ => false | Err _ => true end.

Lemma examine_is_module bytes e : examine bytes = Ok e → is_module bytes = true.
Proof. unfold examine. destruct (Module_read bytes) as [m|] eqn:Em; cbn [map_err res_bind]; [|done]. intros _. by eapply is_module_reads. Qed.

(** The first place that answers, from [at_] on. *)
Definition chosen_from (root : list Z) (at_ : nat) (offered : list (list Z)) (chosen : Chosen) (final : Chosen) : Prop :=
  (ch_offered final = ch_offered chosen + length (List.filter is_module offered))%nat ∧
  (ch_rejected final = ch_rejected chosen + length (List.filter refused_module offered))%nat ∧
  match ch_at chosen with
  | Some _ => ch_at final = ch_at chosen ∧ ch_found final = ch_found chosen
  | None =>
      (ch_at final = None ∧ ch_found final = ch_found chosen ∧ ∀ b, b ∈ offered → answers root b = false) ∨
      ∃ i b e, ch_at final = Some (at_ + i)%nat ∧ ch_found final = Some e ∧ offered !! i = Some b ∧ examine b = Ok e ∧ ex_root e = root ∧
        ∀ j b', (j < i)%nat → offered !! j = Some b' → answers root b' = false
  end ∧
  match ch_why chosen with
  | Some why => ch_why final = Some why
  | None => ch_why final = match List.find refused_module offered with
                           | Some b => match examine b with Err why => Some why | Ok _ => None end
                           | None => None
                           end
  end.

Lemma select_from_spec root offered : ∀ at_ chosen, chosen_from root at_ offered chosen (select_from root at_ offered chosen).
Proof.
  induction offered as [|b offered IH]; intros at_ chosen; cbn [select_from].
  { unfold chosen_from. cbn. split; [lia|]. split; [lia|]. split; [|by destruct (ch_why chosen)].
    destruct (ch_at chosen); [done|]. left. split_and!; [done|done|]. by intros b ?%elem_of_nil. }
  specialize (IH (S at_) (select_step root chosen at_ b)). set (final := select_from _ _ _ _) in *. clearbody final.
  assert (Hskip : answers root b = false → ch_at (select_step root chosen at_ b) = ch_at chosen → ch_found (select_step root chosen at_ b) = ch_found chosen →
    match ch_at (select_step root chosen at_ b) with
    | Some _ => ch_at final = ch_at (select_step root chosen at_ b) ∧ ch_found final = ch_found (select_step root chosen at_ b)
    | None =>
      (ch_at final = None ∧ ch_found final = ch_found (select_step root chosen at_ b) ∧ ∀ b, b ∈ offered → answers root b = false) ∨
      ∃ i b e, ch_at final = Some (S at_ + i)%nat ∧ ch_found final = Some e ∧ offered !! i = Some b ∧ examine b = Ok e ∧ ex_root e = root ∧
        ∀ j b', (j < i)%nat → offered !! j = Some b' → answers root b' = false
    end → match ch_at chosen with
    | Some _ => ch_at final = ch_at chosen ∧ ch_found final = ch_found chosen
    | None =>
      (ch_at final = None ∧ ch_found final = ch_found chosen ∧ ∀ b', b' ∈ b :: offered → answers root b' = false) ∨
      ∃ i b' e, ch_at final = Some (at_ + i)%nat ∧ ch_found final = Some e ∧ (b :: offered) !! i = Some b' ∧ examine b' = Ok e ∧ ex_root e = root ∧
        ∀ j b', (j < i)%nat → (b :: offered) !! j = Some b' → answers root b' = false
    end).
  { intros Hb -> ->. destruct (ch_at chosen); [done|]. intros [(H1 & H2 & H3)|(i & b' & e & H1 & H2 & H3 & H4 & H5 & H6)].
    - left. split; [done|]. split; [done|]. intros b' [->|Hin]%elem_of_cons; [done|by apply H3].
    - right. exists (S i), b', e. split_and!; [rewrite H1; f_equal; lia|done|done|done|done|]. intros [|j] b'' Hj Hl; cbn in Hl; [congruence|].
      apply (H6 j); [lia|done]. }
  unfold select_step in *. destruct (is_module b) eqn:Em; cbn [negb] in *.
  2:{ assert (Hans : answers root b = false).
      { unfold answers. destruct (examine b) as [e|] eqn:Ee; [|done]. by rewrite (examine_is_module b e Ee) in Em. }
      assert (Href : refused_module b = false) by (unfold refused_module; by rewrite Em).
      destruct IH as (I1 & I2 & I3 & I4). unfold chosen_from. cbn [List.filter List.find]. rewrite Em, Href.
      split; [done|]. split; [done|]. split; [by apply Hskip|done]. }
  destruct (examine b) as [e|why] eqn:Ee.
  - assert (Href : refused_module b = false) by (unfold refused_module; by rewrite Em, Ee).
    destruct (bool_decide (ex_root e = root)) eqn:Er; cbn [andb] in *; cycle 1.
    { assert (Hans : answers root b = false) by (unfold answers; by rewrite Ee).
      destruct IH as (I1 & I2 & I3 & I4). unfold chosen_from. cbn [List.filter List.find ch_offered ch_rejected ch_why ch_at ch_found length] in *. rewrite Em, Href.
      split; [cbn [length]; lia|]. split; [done|]. split; [by apply Hskip|done]. }
    apply bool_decide_eq_true in Er. cbn [ch_at] in *. destruct (bool_decide (ch_at chosen = None)) eqn:Ea.
    + apply bool_decide_eq_true in Ea. destruct IH as (I1 & I2 & I3 & I4).
      unfold chosen_from. cbn [List.filter List.find ch_offered ch_rejected ch_why ch_at ch_found length] in *. rewrite Em, Href, Ea.
      split; [cbn [length]; lia|]. split; [done|]. split; [|done]. right. destruct I3 as [I3 I3']. exists 0%nat, b, e.
      split_and!; [rewrite I3; f_equal; lia|done|done|done|done|intros j b' Hj; lia].
    + apply bool_decide_eq_false in Ea. destruct IH as (I1 & I2 & I3 & I4).
      unfold chosen_from. cbn [List.filter List.find ch_offered ch_rejected ch_why ch_at ch_found length] in *. rewrite Em, Href.
      split; [cbn [length]; lia|]. split; [done|]. split; [|done]. by destruct (ch_at chosen).
  - assert (Href : refused_module b = true) by (unfold refused_module; by rewrite Em, Ee).
    assert (Hans : answers root b = false) by (unfold answers; by rewrite Ee).
    destruct IH as (I1 & I2 & I3 & I4). unfold chosen_from. cbn [List.filter List.find ch_offered ch_rejected ch_why ch_at ch_found length] in *. rewrite Em, Href.
    split; [cbn [length]; lia|]. split; [cbn [length]; lia|]. split; [by apply Hskip|]. rewrite Ee. by destruct (ch_why chosen).
Qed.

(** A blob that carries the generation a root names. *)
Definition carries (root bytes : list Z) : Prop := ∃ c files, canon_ok c ∧ module_fits (canon_bytes c) files ∧
  bytes = module_bytes (canon_bytes c) files ∧ sha256 (root_message c) = root.

Lemma answers_iff root bytes : byte_list bytes → answers root bytes = true ↔ carries root bytes.
Proof.
  intros Hb. unfold answers, carries. split.
  - destruct (examine bytes) as [e|] eqn:Ee; [|done]. intros Er%bool_decide_eq_true.
    apply examine_iff in Ee as (c & files & Hc & Hf & Eb & ->); [|done]. by exists c, files.
  - intros (c & files & Hc & Hf & Eb & Er).
    rewrite (proj2 (examine_iff bytes (mkExamined (sha256 (root_message c)) (sha256 bytes) (length bytes) (Z.of_nat (length (cn_members c)))) Hb)) by (exists c, files; exact (conj Hc (conj Hf (conj Eb eq_refl)))).
    by apply bool_decide_eq_true.
Qed.

(** Nothing else is offered: the refusals, in order. *)
Definition refusal (bytes : list Z) : option Rejected :=
  if is_module bytes then match examine bytes with Err why => Some why | Ok _ => None end else None.
Definition first_refusal (offered : list (list Z)) : option Rejected := head (omap refusal offered).

Lemma first_refusal_find offered : first_refusal offered =
  match List.find refused_module offered with
  | Some b => match examine b with Err why => Some why | Ok _ => None end
  | None => None
  end.
Proof.
  unfold first_refusal. induction offered as [|b offered IH]; [done|]. cbn [omap list_omap List.find]. unfold refusal at 1, refused_module at 1.
  destruct (is_module b); cbn [andb]; [|exact IH]. destruct (examine b) eqn:E; [exact IH|]. cbn [head]. by rewrite E.
Qed.


Definition junk : list Z := le_bytes 8 MODULE_MAGIC ++ [1].
Definition two_modules : list (list Z) := [[1; 2]; junk; small_module 5; small_module 6; small_module 6].
Definition sixth : list Z := sha256 (root_message (small 6)).

Lemma two_modules_bytes : Forall byte_list two_modules.
Proof.
  repeat apply list.Forall_cons_2; try apply list.Forall_nil_2; try (apply small_module_bytes; lia); apply (bool_decide_unpack _); vm_compute; exact I.
Qed.

