(* ===== verification/Publish.v ===== *)
(** * Publishing and mounting: [zone/src/publish.rs] and [zone/src/mount.rs]

    A publish makes its blobs durable, appends one root record to the root zone
    in use, wrapping to the other when that is nearly full, makes it durable,
    and only then pins the root.  A mount rebuilds the map and takes the newest
    record whose tree resolves.  The build is the one without the defect that
    skips the first barrier. *)

From S2P Require Import Prelude Abi Bytes BTree StoreRecords BlockDevice Sha256 Store ZoneDevice ZoneMap ZoneStore Roots Mark.
From stdpp Require Import sorting.
#[local] Open Scope Z_scope.

Definition ROOT_CARRY : nat := 16.

(** [a - b] on [u64]s. *)
Definition sub_or_panic (a b : Z) : res fault Z := if a <? b then Err Panicked else Ok (a - b).

(** A whole record at the front of a block, if it is one this build believes. *)
Definition believed (buffer : list Z) : option RootRecord :=
  let raw := take RootRecord_BYTES buffer in
  match RootRecord_from_bytes raw (sha256 (take RootRecord_CHECKED_BYTES raw)) with
  | Ok record => Some record
  | Err _ => None
  end.

(** A block of zeros with a record copied over its front. *)
Definition root_block (block_bytes : Z) (record : RootRecord) : res fault (list Z) :=
  if block_bytes <? Z.of_nat RootRecord_BYTES then Err Panicked
  else Ok (put (zeroed (Z.to_nat block_bytes)) 0 (RootRecord_to_bytes record)).

Definition with_check (r : RootRecord) : RootRecord :=
  mkRootRecord (rr_generation r) (rr_root r) (rr_frame r) (rr_module r) (rr_previous r) (sha256 (RootRecord_checked r)).

Definition blobs_are_durable_before_the_root : bool := true.

Record Publisher : Type := mkPublisher { pb_set : Z; pb_at : Z }.

Section publish.
Context {D : Type} `{Zoned D}.

Local Abbreviation Stored := (Store (ZoneMap D)).

(** A call on the zoned device under the mapping. *)
Definition on_zoned {A} (op : sm D fault A) : sm Stored fault A := on_blocks (on_device op).

(** ** Reading root records *)
Definition record_at (block : Z) : sm Stored fault (option RootRecord) :=
  do! block_bytes <- sm_get Store_block_bytes;
  if block_bytes <? Z.of_nat RootRecord_BYTES then sm_ret None
  else λ s,
    match on_zoned (dev_read block block_bytes) s with
    | (Ok buffer, s) => (Ok (believed buffer), s)
    | (Err (Refused _), s) => (Ok None, s)
    | (Err Panicked, s) => (Err Panicked, s)
    end.

(** [for at in start..pointer] over the records believed. *)
Fixpoint over_records {X} (f : X → RootRecord → X) (blocks : list Z) (x : X) : sm Stored fault X :=
  match blocks with
  | [] => sm_ret x
  | at_ :: blocks =>
      do! found <- record_at at_;
      over_records f blocks (from_option (f x) x found)
  end.

Definition written_blocks (report : Report) : list Z :=
  seqZ (rep_start report) (rep_write_pointer report - rep_start report).

Definition over_zone {X} (f : X → RootRecord → X) (zone : Z) (x : X) : sm Stored fault X :=
  do! report <- on_zoned (dev_report zone);
  over_records f (written_blocks report) x.

Definition highest_in (zone : Z) : sm Stored fault Z :=
  over_zone (λ highest found, Z.max highest (rr_generation found)) zone 0.

Definition better (best : option RootRecord) (found : RootRecord) : option RootRecord :=
  match best with
  | Some held => if rr_generation held <? rr_generation found then Some found else best
  | None => Some found
  end.

Definition latest_root : sm Stored fault (option RootRecord) :=
  do! sb <- sm_get bs_superblock;
  do! best <- over_zone better (sb_root_zone_a sb) None;
  over_zone better (sb_root_zone_b sb) best.

(** ** Wrapping *)
Fixpoint carry (n : nat) (start at_ : Z) (carried : list RootRecord) : sm Stored fault (list RootRecord) :=
  match n with
  | O => sm_ret carried
  | S n =>
      if (start <? at_) && (length carried <? ROOT_CARRY)%nat then
        do! found <- record_at (at_ - 1);
        carry n start (at_ - 1) (match found with Some r => carried ++ [r] | None => carried end)
      else sm_ret carried
  end.

Fixpoint append_records (zone block_bytes : Z) (records : list RootRecord) : sm Stored fault unit :=
  match records with
  | [] => sm_ret tt
  | record :: records =>
      do! block <- sm_lift (root_block block_bytes record);
      do! _ <- on_blocks (ZoneMap_append_reserved zone block);
      append_records zone block_bytes records
  end.

Definition wrap (active other : Z) : sm Stored fault Z :=
  do! destination <- on_zoned (dev_report other);
  if rep_blocks destination <? 2 * Z.of_nat ROOT_CARRY then refuse refusal_FULL
  else
    do! report <- on_zoned (dev_report active);
    do! carried <- carry (Z.to_nat (rep_write_pointer report - rep_start report)) (rep_start report) (rep_write_pointer report) [];
    do! _ <- on_zoned (dev_reset other);
    do! block_bytes <- sm_get Store_block_bytes;
    do! _ <- append_records other block_bytes (reverse carried);
    do! _ <- on_blocks ZoneMap_flush;
    sm_ret other.

Definition root_zone_for_the_next_record : sm Stored fault Z :=
  do! sb <- sm_get bs_superblock;
  let a := sb_root_zone_a sb in
  let b := sb_root_zone_b sb in
  do! top_a <- highest_in a;
  do! top_b <- highest_in b;
  let '(active, other) := if top_a <? top_b then (b, a) else (a, b) in
  do! report <- on_zoned (dev_report active);
  do! written <- sm_lift (sub_or_panic (rep_write_pointer report) (rep_start report));
  do! remaining <- sm_lift (sub_or_panic (rep_blocks report) written);
  if negb (match rep_state report with Full => true | _ => false end) && (Z.of_nat ROOT_CARRY <=? remaining)
  then sm_ret active
  else wrap active other.

(** ** The publisher *)
Definition Publisher_open (s : Stored) (roots : Roots) : Publisher * Roots :=
  let '(set, roots) := Roots_open roots in (mkPublisher set (Store_free s), roots).

Fixpoint append_blocks (set : Z) (blocks : list Z) : sm Roots fault unit :=
  match blocks with
  | [] => sm_ret tt
  | block :: blocks => do! _ <- Roots_appended set block; append_blocks set blocks
  end.

Definition Publisher_appended (s : Stored) : sm (Publisher * Roots) fault unit := λ '(p, roots),
  match append_blocks (pb_set p) (seqZ (pb_at p) (Store_free s - pb_at p)) roots with
  | (Ok _, roots) => (Ok tt, (mkPublisher (pb_set p) (Store_free s), roots))
  | (Err e, roots) => (Err e, (p, roots))
  end.

(** A store and the root set, and calls on either. *)
Definition Publishing : Type := Stored * Roots.
Definition of_stored {A} (m : sm Stored fault A) : sm Publishing fault A := λ '(s, roots),
  let '(r, s) := m s in (r, (s, roots)).
Definition of_roots {A} (m : sm Roots fault A) : sm Publishing fault A := λ '(s, roots),
  let '(r, roots) := m roots in (r, (s, roots)).

Definition Publisher_commit (p : Publisher) (record : RootRecord) : sm Publishing fault RootRecord :=
  do! s <- sm_get fst;
  do! _ <- of_roots (λ roots, let '(r, (_, roots)) := Publisher_appended s (p, roots) in (r, roots));
  do! _ <- (if blobs_are_durable_before_the_root then of_stored Store_barrier else sm_ret tt);
  let written := with_check record in
  do! block_bytes <- sm_get (λ '(s, _), Store_block_bytes s);
  do! block <- sm_lift (root_block block_bytes written);
  do! zone <- of_stored root_zone_for_the_next_record;
  do! _ <- of_stored (on_blocks (ZoneMap_append_reserved zone block));
  do! _ <- of_stored (on_blocks ZoneMap_flush);
  do! _ <- of_roots (Roots_adopt (pb_set p) (rr_root written));
  sm_ret written.

Definition Publisher_abandon (p : Publisher) : sm Roots fault unit := Roots_abandon (pb_set p).

(** ** Mounting *)
Record Mounted : Type := mkMounted {
  mt_root : option RootRecord;
  mt_roots_refused_check : Z;
  mt_roots_refused_unresolved : Z;
  mt_blobs : Z;
}.

Definition generation_le (a b : RootRecord) : Prop := rr_generation a ≤ rr_generation b.
#[global] Instance generation_le_dec : RelDecision generation_le.
Proof. intros a b. unfold generation_le. apply _. Defined.

(** Of a run of equal generations, the first. *)
Fixpoint dedup_generations (kept : option RootRecord) (records : list RootRecord) : list RootRecord :=
  match records with
  | [] => []
  | r :: records =>
      if from_option (λ k, rr_generation k =? rr_generation r) false kept then dedup_generations kept records
      else r :: dedup_generations (Some r) records
  end.

Definition candidates : sm Stored fault (list RootRecord) :=
  do! sb <- sm_get bs_superblock;
  do! out <- over_zone (λ out found, out ++ [found]) (sb_root_zone_a sb) [];
  do! out <- over_zone (λ out found, out ++ [found]) (sb_root_zone_b sb) out;
  sm_ret (dedup_generations None (merge_sort generation_le out)).

(** Is the block written by this format and not a whole record? *)
Fixpoint torn_blocks (blocks : list Z) (torn : Z) : sm Stored fault Z :=
  match blocks with
  | [] => sm_ret torn
  | at_ :: blocks =>
      do! block_bytes <- sm_get Store_block_bytes;
      λ s,
        match on_zoned (dev_read at_ block_bytes) s with
        | (Err Panicked, s) => (Err Panicked, s)
        | (Err (Refused _), s) => torn_blocks blocks torn s
        | (Ok block, s) =>
            if (length block <? RootRecord_BYTES)%nat || negb (from_le (take 4 block) =? ROOT_MAGIC) then torn_blocks blocks torn s
            else
              (do! found <- record_at at_;
               torn_blocks blocks (match found with None => torn + 1 | Some _ => torn end)) s
        end
  end.

Definition torn_records : sm Stored fault Z :=
  do! sb <- sm_get bs_superblock;
  do! report <- on_zoned (dev_report (sb_root_zone_a sb));
  do! torn <- torn_blocks (written_blocks report) 0;
  do! report <- on_zoned (dev_report (sb_root_zone_b sb));
  torn_blocks (written_blocks report) torn.

Definition hashes_after (content : list Z) (from count : nat) : list (list Z) :=
  (λ index, slice content (from + index * 32) 32) <$> seq 0 count.

Definition object_children (content : list Z) : option (list (list Z)) :=
  if (length content <? ObjectHead_HEAD_BYTES)%nat then None
  else match ObjectHead_from_bytes (take ObjectHead_HEAD_BYTES content) with
       | Err _ => None
       | Ok head =>
           if negb (ObjectHead_bytes head =? Z.of_nat (length content)) then None
           else Some (hashes_after content ObjectHead_HEAD_BYTES (Z.to_nat (oh_chunks head)))
       end.

Definition extent_children (content : list Z) : option (list (list Z)) :=
  if (length content <? ExtentHead_HEAD_BYTES)%nat then None
  else match ExtentHead_from_bytes (take ExtentHead_HEAD_BYTES content) with
       | Err _ => None
       | Ok head =>
           if negb (ExtentHead_bytes head =? Z.of_nat (length content)) then None
           else Some (hashes_after content ExtentHead_HEAD_BYTES (Z.to_nat (eh_pieces head)))
       end.

(** What a blob of a kind names. *)
Definition children_of (kind : Z) (content : list Z) : option (list (list Z)) :=
  if kind =? kind_CHUNK then Some []
  else if kind =? kind_EXTENT then extent_children content
  else object_children content.

(** One blob of the walk: what it names, or nothing where the walk stops. *)
Definition resolve_one (hash : list Z) : sm Stored fault (option (list (list Z))) := λ s,
  match Store_head hash s with
  | (Err Panicked, s) => (Err Panicked, s)
  | (Err (Refused _), s) => (Ok None, s)
  | (Ok header, s) =>
      match with_buffer (hdr_content_bytes header) (Store_get hash) s with
      | (Err Panicked, s) => (Err Panicked, s)
      | (Err (Refused _), s) => (Ok None, s)
      | (Ok (_, content), s) => (Ok (children_of (hdr_kind header) content), s)
      end
  end.

(** [pending] is a stack, its top the head; nothing at the end of the fuel. *)
Fixpoint resolves (fuel : nat) (seen : gset (list Z)) (pending : list (list Z)) (s : Stored) : option (res fault bool * Stored) :=
  match pending with
  | [] => Some (Ok true, s)
  | hash :: pending =>
      match fuel with
      | O => None
      | S fuel =>
          if bool_decide (hash ∈ seen) then resolves fuel seen pending s
          else match resolve_one hash s with
               | (Err e, s) => Some (Err e, s)
               | (Ok None, s) => Some (Ok false, s)
               | (Ok (Some children), s) => resolves fuel ({[hash]} ∪ seen) (reverse children ++ pending) s
               end
      end
  end.

(** The first of the records that resolves, and how many before it do not. *)
Fixpoint accept (fuel : nat) (records : list RootRecord) (refused : Z) (s : Stored) :
    option (res fault (option RootRecord * Z) * Stored) :=
  match records with
  | [] => Some (Ok (None, refused), s)
  | record :: records =>
      match resolves fuel ∅ [rr_root record] s with
      | None => None
      | Some (Err e, s) => Some (Err e, s)
      | Some (Ok true, s) => Some (Ok (Some record, refused), s)
      | Some (Ok false, s) => accept fuel records (refused + 1) s
      end
  end.

Definition mount (fuel : nat) (device : D) (data_from : Z) : option (res fault (Mounted * Stored)) :=
  match (let? map := ZoneMap_remount device data_from in Store_mount map) with
  | Err e => Some (Err e)
  | Ok s =>
      let blobs := Z.of_nat (Store_records s) in
      match candidates s with
      | (Err e, _) => Some (Err e)
      | (Ok records, s) =>
          match accept fuel (reverse records) 0 s with
          | None => None
          | Some (Err e, _) => Some (Err e)
          | Some (Ok (root, refused), s) =>
              match torn_records s with
              | (Err e, _) => Some (Err e)
              | (Ok torn, s) => Some (Ok (mkMounted root torn refused blobs, s))
              end
          end
      end
  end.
End publish.
