(* ===== verification/PublishFacts.v ===== *)
(** * What the calls of a publish do to the root zones

    Every call leaves the mapping's blocks as they were; the records in the
    root zones change by an append or a reset, and by nothing else. *)

From S2P Require Import Prelude Abi Bytes BTree StoreRecords StoreCodecs BlockDevice Sha256 Store StoreFacts ZoneDevice ZoneMap ZoneMapFacts ZoneOps ZoneStore Roots Mark Publish.
#[local] Open Scope Z_scope.

(** ** A record and its block *)
Definition RootRecord_whole (r : RootRecord) : Prop := RootRecord_valid (sha256 (RootRecord_checked r)) r.

Lemma checked_front r : RootRecord_whole r → take RootRecord_CHECKED_BYTES (RootRecord_to_bytes r) = RootRecord_checked r.
Proof.
  intros [_ Hd _]. destruct (RootRecord_flat r Hd) as (Ec & Hl & Et & _). rewrite Et, Ec. unfold flat. rewrite fmap_app, concat_app.
  fold (flat (RootRecord_fields r)). rewrite <- Hl. by rewrite take_app_length.
Qed.

Lemma believed_block bb r : RootRecord_whole r → Z.of_nat RootRecord_BYTES ≤ bb → ∃ x,
  root_block bb r = Ok x ∧ Z.of_nat (length x) = bb ∧ byte_list x ∧ believed x = Some r.
Proof.
  intros Hr Hbb. unfold root_block. rewrite (proj2 (Z.ltb_ge _ _)) by done. eexists. split; [reflexivity|].
  pose proof (codec_size (Codec := RootRecord_codec _) r Hr) as Hl. pose proof (codec_bytes (Codec := RootRecord_codec _) r Hr) as Hb.
  assert (Ep : put (zeroed (Z.to_nat bb)) 0 (RootRecord_to_bytes r) = RootRecord_to_bytes r ++ drop RootRecord_BYTES (zeroed (Z.to_nat bb))).
  { unfold put. by rewrite take_0, Hl. }
  rewrite Ep. split; [|split].
  - rewrite length_app, length_drop, Hl. unfold zeroed. rewrite length_replicate. lia.
  - apply Forall_app. split; [done|]. apply list.Forall_drop. unfold zeroed. by apply Forall_replicate.
  - unfold believed.
    assert (Ef : take RootRecord_BYTES (RootRecord_to_bytes r ++ drop RootRecord_BYTES (zeroed (Z.to_nat bb))) = RootRecord_to_bytes r).
    { rewrite <- Hl at 1. apply take_app_length. }
    rewrite Ef, checked_front by done. by rewrite (codec_dec_enc (Codec := RootRecord_codec _) r Hr).
Qed.

Lemma believed_whole x r : byte_list x → (RootRecord_BYTES ≤ length x)%nat → believed x = Some r → RootRecord_whole r.
Proof.
  intros Hb Hl. unfold believed. destruct (RootRecord_from_bytes _ _) as [r'|] eqn:E; [|done]. intros [= ->].
  set (raw := take RootRecord_BYTES x) in *. assert (Hraw : byte_list raw) by by apply list.Forall_take.
  assert (Hlen : length raw = RootRecord_BYTES) by (unfold raw; rewrite length_take; lia).
  destruct (codec_enc_dec (Codec := RootRecord_codec (sha256 (take RootRecord_CHECKED_BYTES raw))) raw r Hraw Hlen E) as [Ee Hv].
  unfold RootRecord_whole. pose proof Hv as [H1 H2 H3]. split; [done|done|]. rewrite H3. f_equal. rewrite <- Ee.
  destruct (RootRecord_flat r H2) as (Ec & Hlc & Et & _). rewrite Et, Ec. unfold flat. rewrite fmap_app, concat_app.
  fold (flat (RootRecord_fields r)). rewrite <- Hlc. by rewrite take_app_length.
Qed.

Lemma with_check_whole r : is_uint 64 (rr_generation r) → rr_generation r ≠ 0 →
  Forall is_digest [rr_root r; rr_frame r; rr_module r; rr_previous r] → RootRecord_whole (with_check r).
Proof.
  intros Hg Hz Hd. split; [done| |done]. repeat (apply list.Forall_cons in Hd as [? Hd]).
  repeat (apply list.Forall_cons_2; [done|]). apply list.Forall_cons_2; [apply sha256_digest|apply list.Forall_nil_2].
Qed.

Section facts.
Context {D : Type} `{HL : ZonedLaws D}.
Implicit Types (s : Store (ZoneMap D)).

(** The device under a store, and the records in a zone of one. *)
Definition under_dev s : D := zm_device (bs_device s).

Definition root_in (d : D) (b : Z) : option RootRecord := view_block d b ≫= believed.
Definition zone_list (d : D) (z : Z) : list RootRecord :=
  omap (root_in d) (seqZ (z * zone_blocks d) (zone_blocks d)).

Lemma elem_of_zone_list d z r : r ∈ zone_list d z ↔ ∃ i, 0 ≤ i < zone_blocks d ∧ root_in d (z * zone_blocks d + i) = Some r.
Proof.
  unfold zone_list. rewrite list_elem_of_omap. split.
  - intros (b & Hb%elem_of_seqZ & E). exists (b - z * zone_blocks d). split; [lia|]. by replace (_ + _) with b by lia.
  - intros (i & Hi & E). eexists. split; [|exact E]. apply elem_of_seqZ. lia.
Qed.

(** What a store needs for its root zones to be written. *)
Definition is_root_zone s (z : Z) : Prop :=
  0 < z < zm_data_from (bs_device s) ∧ kind (under_dev s) z = SequentialWriteRequired.

Definition zone_a s : Z := sb_root_zone_a (bs_superblock s).
Definition zone_b s : Z := sb_root_zone_b (bs_superblock s).
Definition recorded s (r : RootRecord) : Prop := r ∈ zone_list (under_dev s) (zone_a s) ∨ r ∈ zone_list (under_dev s) (zone_b s).

Record Rooted_ok s : Prop := {
  ro_map : Mapped_ok (bs_device s);
  ro_block : Store_block_bytes s = block_bytes (under_dev s);
  ro_room : Z.of_nat RootRecord_BYTES ≤ Store_block_bytes s;
  ro_a : is_root_zone s (zone_a s);
  ro_b : is_root_zone s (zone_b s);
  ro_apart : zone_a s ≠ zone_b s;
  ro_bytes : ∀ z i x, z = zone_a s ∨ z = zone_b s → 0 ≤ i < zone_blocks (under_dev s) →
    view_block (under_dev s) (z * zone_blocks (under_dev s) + i) = Some x → byte_list x;
}.

(** A store on a device whose data zones are as they were. *)
Record moved s (d' : D) : Prop := {
  mv_ok : dev_ok d';
  mv_geometry : same_geometry (under_dev s) d';
  mv_view : ∀ b, b = 0 ∨ in_data (bs_device s) b → view_block d' b = view_block (under_dev s) b;
  mv_written : ∀ z, zm_data_from (bs_device s) ≤ z → view_written d' z = view_written (under_dev s) z;
}.

Definition on_dev s (d' : D) : Store (ZoneMap D) := on_device_of s (with_device d' (bs_device s)).
Definition rooted s s' : Prop := ∃ d', s' = on_dev s d' ∧ moved s d'.
Definition still s s' : Prop := ∃ d', s' = on_dev s d' ∧ same_view (under_dev s) d'.

Lemma same_view_moved s d' : same_view (under_dev s) d' → moved s d'.
Proof. intros (Hok & Hg & Hv & Hw & _). split; [done|done|by intros; apply Hv|by intros; apply Hw]. Qed.

Lemma still_rooted s s' : still s s' → rooted s s'.
Proof. intros (d' & -> & Hd). exists d'. split; [done|by apply same_view_moved]. Qed.

Lemma on_dev_id s : on_dev s (under_dev s) = s.
Proof. unfold on_dev, on_device_of, under_dev, with_device. destruct s as [m sb f l]. cbn. by destruct m. Qed.

Lemma still_refl s : Map_ok (bs_device s) → still s s.
Proof. intros Hm. exists (under_dev s). split; [by rewrite on_dev_id|]. split; [apply Hm|by split_and!]. Qed.

Lemma in_data_moved s d' b : moved s d' → in_data (bs_device s) b → in_data (with_device d' (bs_device s)) b.
Proof.
  intros [_ (_ & Hc & _ & Hk) _ Hw] (z & i & -> & Hi & Hz & Hkd & Hwr). exists z, i. cbn. rewrite Hc, Hk, Hw by lia.
  exact (conj eq_refl (conj Hi (conj Hz (conj Hkd Hwr)))).
Qed.

Lemma rooted_trans s1 s2 s3 : rooted s1 s2 → rooted s2 s3 → rooted s1 s3.
Proof.
  intros (d2 & -> & M2) (d3 & -> & M3). exists d3. split; [done|].
  pose proof M2 as [_ Hg2 Hv2 Hw2]. destruct M3 as [Hok Hg3 Hv3 Hw3]. unfold under_dev, on_dev, on_device_of in *. cbn in *. split; [done|by eapply same_geometry_trans| |].
  - intros b Hb. rewrite Hv3, Hv2; [done|done|]. destruct Hb as [?|Hb]; [by left|right]. by apply in_data_moved.
  - intros z Hz. by rewrite Hw3, Hw2.
Qed.

Lemma still_trans s1 s2 s3 : still s1 s2 → still s2 s3 → still s1 s3.
Proof.
  intros (d2 & -> & _ & Hg2 & Hv2 & Hw2 & Hs2) (d3 & -> & Hok & Hg3 & Hv3 & Hw3 & Hs3). exists d3. split; [done|].
  unfold under_dev, on_dev, on_device_of in *. cbn in *. split; [done|]. split; [by eapply same_geometry_trans|].
  split; [intros b; by rewrite Hv3|]. split; [intros z; by rewrite Hw3|intros z; by rewrite Hs3].
Qed.

(** ** The mapping is kept *)
Lemma moved_ok s d' : Map_ok (bs_device s) → moved s d' → Map_ok (with_device d' (bs_device s)).
Proof.
  intros Hm M. pose proof M as [Hok (Hb & Hc & Hz & Hk) Hv Hw]. set (m := bs_device s) in *.
  split; cbn [zm_device zm_zone_blocks zm_data_from zm_physical zm_logical zm_zones zm_open zm_copies with_device].
  - done.
  - destruct (mo_zb m Hm). split; [|done]. by rewrite Hz.
  - unfold under_dev in Hc. fold m in Hc. rewrite Hc. apply Hm.
  - apply Hm.
  - intros l b Hl. destruct (mo_home m Hm l b Hl) as [?|Hi]; [by left|right]. by apply in_data_moved.
  - unfold under_dev in Hc. fold m in Hc. rewrite Hc. apply Hm.
  - apply Hm.
  - intros z i. apply (mo_free m Hm).
  - apply (mo_open m Hm).
  - intros l to Hl. destruct (mo_copies m Hm l to Hl) as (H1 & H2 & H3 & b & H4 & H5 & H6). split; [by apply in_data_moved|].
    split; [done|]. split; [done|]. exists b. split; [done|]. split; [done|]. rewrite !Hv; [done| |by right].
    by apply (mo_home m Hm l).
  - apply (mo_copies_inj m Hm).
Qed.

Lemma moved_contents s d' l : Map_ok (bs_device s) → moved s d' →
  contents (with_device d' (bs_device s)) l = contents (bs_device s) l.
Proof.
  intros Hm M. unfold contents. cbn. destruct (zm_physical (bs_device s) !! l) as [b|] eqn:P; [|done]. cbn.
  apply (mv_view _ _ M). by apply (mo_home _ Hm l).
Qed.

Lemma moved_mapped s d' : Mapped_ok (bs_device s) → moved s d' → Mapped_ok (with_device d' (bs_device s)).
Proof.
  intros Hok M. pose proof (mp_map _ Hok) as Hm. pose proof M as [_ (Hb & Hc & _) _ _].
  assert (En : ZoneMap_blocks (with_device d' (bs_device s)) = ZoneMap_blocks (bs_device s)).
  { unfold ZoneMap_blocks. cbn. unfold under_dev in Hc. by rewrite Hc. }
  split.
  - by apply moved_ok.
  - cbn. rewrite Hb. apply Hok.
  - rewrite En. apply Hok.
  - rewrite En. apply Hok.
  - intros l x. rewrite moved_contents by done. apply Hok.
Qed.

(** *** Where a block of a root zone is not *)
Lemma root_block_elsewhere s z i b : Map_ok (bs_device s) → 0 < z < zm_data_from (bs_device s) → 0 ≤ i < zone_blocks (under_dev s) →
  b = 0 ∨ in_data (bs_device s) b → z * zone_blocks (under_dev s) + i ≠ b.
Proof.
  intros Hm Hz Hi Hb. destruct (mo_zb _ Hm) as [Ez Hz0]. unfold under_dev in *. rewrite Ez in Hz0.
  destruct Hb as [->|(z' & i' & -> & Hi' & Hz' & _)]; [nia|]. rewrite Ez in *. nia.
Qed.
End facts.

(** * The calls of a publish, one by one

    Over a device that serves its reads: what a scan answers is the records of
    the zone, an append adds one record to one zone, and a reset empties it. *)

(** The device refuses no read by a fault of its hardware: a refusal is of a
    block that cannot be read. *)
Definition reads_serve (D : Type) `{HL : ZonedLaws D} : Prop :=
  ∀ (d : D) b len r d', dev_ok d → dev_read b len d = (r, d') → ¬ faulted r.

Lemma omap_none {A B} (f : A → option B) l : (∀ x, x ∈ l → f x = None) → omap f l = [].
Proof.
  induction l as [|x l IH]; intros H; [done|]. cbn [omap list_omap]. rewrite (H x (list_elem_of_here _ _)).
  apply IH. intros y Hy. by apply H, list_elem_of_further.
Qed.

Lemma omap_same {A B} (f g : A → option B) (l : list A) : (∀ x, x ∈ l → f x = g x) → omap f l = omap g l.
Proof.
  induction l as [|x l IH]; intros H; [done|]. cbn [omap list_omap]. rewrite (H x (list_elem_of_here _ _)), IH; [done|].
  intros y Hy. by apply H, list_elem_of_further.
Qed.

Section ops.
Context {D : Type} `{HL : ZonedLaws D} (Hserve : reads_serve D).
Implicit Types (s : Store (ZoneMap D)).

Lemma on_zoned_inv {A} (op : sm D fault A) s r s' : on_zoned op s = (r, s') → ∃ d', op (under_dev s) = (r, d') ∧ s' = on_dev s d'.
Proof.
  unfold on_zoned, on_blocks, on_device, under_dev. destruct (op (zm_device (bs_device s))) as [r1 d1]. intros [= <- <-]. by exists d1.
Qed.

(** *** Quiet calls *)
Lemma still_zone_list s s' z : still s s' → zone_list (under_dev s') z = zone_list (under_dev s) z.
Proof.
  intros (d' & -> & _ & (_ & _ & Hz & _) & Hv & _). unfold zone_list, root_in, under_dev, on_dev, on_device_of in *. cbn in *. rewrite Hz.
  apply omap_same. intros b _. by rewrite Hv.
Qed.

Lemma still_root_in s s' b : still s s' → root_in (under_dev s') b = root_in (under_dev s) b.
Proof. intros (d' & -> & _ & _ & Hv & _). unfold root_in, under_dev, on_dev, on_device_of in *. cbn in *. by rewrite Hv. Qed.

Lemma rooted_zones s s' : rooted s s' → zone_a s' = zone_a s ∧ zone_b s' = zone_b s ∧
  (∀ z, is_root_zone s' z ↔ is_root_zone s z) ∧ zone_blocks (under_dev s') = zone_blocks (under_dev s) ∧
  Store_block_bytes s' = Store_block_bytes s.
Proof.
  intros (d' & -> & [_ (_ & _ & Hz & Hk) _ _]). split; [done|]. split; [done|]. split; [|split; [exact Hz|done]].
  intros z. unfold is_root_zone, under_dev, on_dev, on_device_of in *. cbn in *. by rewrite Hk.
Qed.

Lemma rooted_ok s s' : Rooted_ok s → rooted s s' →
  (∀ z i x, z = zone_a s ∨ z = zone_b s → 0 ≤ i < zone_blocks (under_dev s) →
    view_block (under_dev s') (z * zone_blocks (under_dev s) + i) = Some x → byte_list x) → Rooted_ok s'.
Proof.
  intros Hok HR Hb. destruct (rooted_zones s s' HR) as (Ea & Eb & Hrz & Ez & Ebb). destruct HR as (d' & -> & M). split.
  - exact (moved_mapped s d' (ro_map s Hok) M).
  - rewrite Ebb, (ro_block s Hok). destruct M as [_ [Eb' _] _ _]. symmetry. exact Eb'.
  - rewrite Ebb. apply Hok.
  - rewrite Ea. apply Hrz, Hok.
  - rewrite Eb. apply Hrz, Hok.
  - rewrite Ea, Eb. apply Hok.
  - rewrite Ea, Eb, Ez. exact Hb.
Qed.

Lemma still_ok s s' : Rooted_ok s → still s s' → Rooted_ok s'.
Proof.
  intros Hok HS. apply (rooted_ok s); [done|by apply still_rooted|]. destruct HS as (d' & -> & _ & _ & Hv & _).
  intros z i x Hz Hi. unfold under_dev at 1, on_dev, on_device_of. cbn. rewrite Hv. by apply (ro_bytes s Hok).
Qed.

Lemma report_spec s z r s' : Rooted_ok s → is_root_zone s z → on_zoned (dev_report z) s = (r, s') →
  still s s' ∧ ((∃ e, r = Err (Refused e)) ∨
    ∃ rep w, r = Ok rep ∧ rep_start rep = z * zone_blocks (under_dev s) ∧
      rep_write_pointer rep = z * zone_blocks (under_dev s) + w ∧ view_written (under_dev s) z ≤ w ≤ zone_blocks (under_dev s) ∧
      0 ≤ w ∧ rep_blocks rep = zone_blocks (under_dev s)).
Proof.
  intros Hok [Hz Hk] E. pose proof (mp_map _ (ro_map s Hok)) as Hm. apply on_zoned_inv in E as (d' & E & ->).
  assert (Hz0 : 0 ≤ z) by lia. destruct (law_report _ _ _ _ (mo_dev _ Hm) Hz0 E) as [Hs Hr].
  split; [by exists d'|]. destruct Hr as [(e & -> & _)|Hr]; [left; by exists e|].
  destruct (Z.leb_spec (zone_count (zm_device (bs_device s))) z); [left; by exists refusal_ADDRESS|right].
  destruct Hr as (rep & -> & Hst & Hp & Hbl & _). pose proof (law_written _ z (mo_dev _ Hm)) as Hw. unfold under_dev.
  eexists rep, _. split; [done|]. split; [done|]. split; [exact Hp|]. destruct (view_sealed _ _); lia.
Qed.

Lemma record_at_spec s b r s' : Rooted_ok s → 0 ≤ b → record_at b s = (r, s') → still s s' ∧ r = Ok (root_in (under_dev s) b).
Proof.
  intros Hok Hb. pose proof (mp_map _ (ro_map s Hok)) as Hm. unfold record_at, sm_bind, sm_get.
  rewrite (proj2 (Z.ltb_ge _ _)) by apply Hok. destruct (on_zoned _ s) as [r1 s1] eqn:E. apply on_zoned_inv in E as (d' & E & ->).
  pose proof (Hserve _ _ _ _ _ (mo_dev _ Hm) E) as Hns. destruct (law_read _ _ _ _ _ (mo_dev _ Hm) Hb E) as [Hs [?| ->]]; [done|].
  change (zm_device (bs_device s)) with (under_dev s) in *. unfold root_in.
  destruct (view_block (under_dev s) b) as [x|]; cbn [mbind option_bind].
  - rewrite (ro_block s Hok), Z.eqb_refl. intros [= <- <-]. split; [by exists d'|done].
  - intros [= <- <-]. split; [by exists d'|done].
Qed.

Lemma over_records_spec {X} (f : X → RootRecord → X) blocks : ∀ s x r s', Rooted_ok s → Forall (Z.le 0) blocks →
  over_records f blocks x s = (r, s') → still s s' ∧ r = Ok (foldl f x (omap (root_in (under_dev s)) blocks)).
Proof.
  induction blocks as [|b blocks IH]; intros s x r s' Hok Hb; cbn [over_records].
  { intros [= <- <-]. split; [|done]. apply still_refl, (mp_map _ (ro_map s Hok)). }
  apply list.Forall_cons in Hb as [Hb Hbs]. unfold sm_bind. destruct (record_at b s) as [r1 s1] eqn:E1.
  destruct (record_at_spec s b r1 s1 Hok Hb E1) as [H1 ->]. intros E. destruct (IH s1 _ _ _ (still_ok _ _ Hok H1) Hbs E) as [H2 ->].
  split; [by eapply still_trans|]. f_equal. cbn [omap list_omap].
  rewrite (omap_same (root_in (under_dev s1)) (root_in (under_dev s)) blocks (λ b' _, still_root_in _ _ b' H1)).
  by destruct (root_in (under_dev s) b).
Qed.
(** *** The records of a zone *)
Lemma unwritten_none s z i : Rooted_ok s → is_root_zone s z →
  view_written (under_dev s) z ≤ i < zone_blocks (under_dev s) → view_block (under_dev s) (z * zone_blocks (under_dev s) + i) = None.
Proof.
  intros Hok [Hz Hk] Hi. pose proof (mp_map _ (ro_map s Hok)) as Hm. pose proof (mo_from _ Hm). pose proof (law_written _ z (mo_dev _ Hm)).
  unfold under_dev in *. apply eq_None_not_Some. rewrite (law_readable _ _ _ (mo_dev _ Hm)); [lia|lia|done|lia].
Qed.

Lemma scan_zone_list s z w : Rooted_ok s → is_root_zone s z → view_written (under_dev s) z ≤ w ≤ zone_blocks (under_dev s) → 0 ≤ w →
  omap (root_in (under_dev s)) (seqZ (z * zone_blocks (under_dev s)) w) = zone_list (under_dev s) z.
Proof.
  intros Hok Hz Hw Hw0. unfold zone_list.
  replace (seqZ (z * zone_blocks (under_dev s)) (zone_blocks (under_dev s)))
    with (seqZ (z * zone_blocks (under_dev s)) w ++ seqZ (z * zone_blocks (under_dev s) + w) (zone_blocks (under_dev s) - w)).
  2:{ rewrite <- seqZ_app by lia. f_equal. lia. }
  rewrite omap_app, (omap_none _ (seqZ (_ + w) _)), app_nil_r; [done|].
  intros b Hb%elem_of_seqZ. unfold root_in. replace b with (z * zone_blocks (under_dev s) + (b - z * zone_blocks (under_dev s))) by lia.
  rewrite unwritten_none; [done|done|done|lia].
Qed.

Lemma seqZ_nonneg m n : 0 ≤ m → Forall (Z.le 0) (seqZ m n).
Proof. intros Hm. apply list.Forall_forall. intros x Hx%elem_of_seqZ. lia. Qed.

Lemma zone_start_nonneg s z : Rooted_ok s → is_root_zone s z → 0 ≤ z * zone_blocks (under_dev s).
Proof.
  intros Hok [Hz _]. pose proof (mp_map _ (ro_map s Hok)) as Hm. pose proof (law_geometry _ (mo_dev _ Hm)). unfold under_dev. nia.
Qed.

Lemma over_zone_spec {X} (f : X → RootRecord → X) z x s r s' : Rooted_ok s → is_root_zone s z → over_zone f z x s = (r, s') →
  still s s' ∧ ((∃ e, r = Err (Refused e)) ∨ r = Ok (foldl f x (zone_list (under_dev s) z))).
Proof.
  intros Hok Hz. unfold over_zone, sm_bind. destruct (on_zoned _ s) as [r1 s1] eqn:E1.
  destruct (report_spec s z r1 s1 Hok Hz E1) as [H1 [(e & ->)|(rep & w & -> & Hst & Hp & Hw & Hw0 & _)]].
  { intros [= <- <-]. split; [done|]. left. by exists e. }
  intros E. apply over_records_spec in E as [H2 ->]; [|by eapply still_ok|].
  2:{ unfold written_blocks. rewrite Hst. apply seqZ_nonneg. by apply zone_start_nonneg. }
  split; [by eapply still_trans|]. right. do 2 f_equal.
  destruct (rooted_zones _ _ (still_rooted _ _ H1)) as (_ & _ & Hrz & Ez & _).
  unfold written_blocks. rewrite Hst, Hp, <- Ez. replace (_ + w - _) with w by lia.
  rewrite <- (still_zone_list s s1 z H1). apply scan_zone_list; [by eapply still_ok|by apply Hrz| |done].
  rewrite Ez. destruct H1 as (d' & -> & _ & _ & _ & Hvw & _). unfold under_dev, on_dev, on_device_of in *. cbn in *. by rewrite Hvw.
Qed.

(** *** Calls that write *)
Definition others_kept s s' (z : Z) : Prop :=
  ∀ z', is_root_zone s z' → z' ≠ z → zone_list (under_dev s') z' = zone_list (under_dev s) z'.

Lemma others_kept_still s s' z : still s s' → others_kept s s' z.
Proof. intros HS z' _ _. by apply still_zone_list. Qed.

Lemma zone_of_block s z i z' : 0 ≤ i < zone_blocks (under_dev s) → 0 < zone_blocks (under_dev s) →
  z' * zone_blocks (under_dev s) ≤ z * zone_blocks (under_dev s) + i < z' * zone_blocks (under_dev s) + zone_blocks (under_dev s) → z' = z.
Proof. nia. Qed.

Lemma rooted_geometry s : Rooted_ok s → 0 < zone_blocks (under_dev s) ∧ Map_ok (bs_device s).
Proof. intros Hok. pose proof (mp_map _ (ro_map s Hok)) as Hm. destruct (mo_zb _ Hm) as [E ?]. unfold under_dev. split; [lia|done]. Qed.

Lemma append_root_spec s z x r s' : Rooted_ok s → z = zone_a s ∨ z = zone_b s → byte_list x →
  on_blocks (ZoneMap_append_reserved z x) s = (r, s') →
  Rooted_ok s' ∧ rooted s s' ∧ others_kept s s' z ∧
  ((still s s' ∧ ∃ e, r = Err (Refused e)) ∨
   ((∃ at_, r = Ok at_) ∧ ∀ q, q ∈ zone_list (under_dev s') z ↔ q ∈ zone_list (under_dev s) z ∨ believed x = Some q)).
Proof.
  intros Hok Hzab Hx E. destruct (rooted_geometry s Hok) as [Hzb Hm].
  assert (Hz : is_root_zone s z) by (destruct Hzab as [->| ->]; apply Hok). pose proof Hz as [Hz0 Hk].
  assert (Hstill : ∀ s1, still s s1 → Rooted_ok s1 ∧ rooted s s1 ∧ others_kept s s1 z).
  { intros s1 HS. split; [by eapply still_ok|]. split; [by apply still_rooted|by apply others_kept_still]. }
  unfold on_blocks, ZoneMap_append_reserved in E. rewrite (proj2 (Z.eqb_neq z 0)), (proj2 (Z.leb_gt _ z)) in E by lia. cbn [orb] in E.
  unfold on_device in E. destruct (dev_append z x (zm_device (bs_device s))) as [r1 d1] eqn:E1. injection E as <- <-.
  change (mkStore (with_device d1 (bs_device s)) (bs_superblock s) (bs_free s) (bs_located s)) with (on_dev s d1).
  assert (Hznn : 0 ≤ z) by lia.
  destruct (law_append _ _ _ _ _ (mo_dev _ Hm) Hznn E1)
    as [[(e & -> & _) Hs]|[(e & -> & Hs & _)|(-> & Hc & _ & Hl & _ & Hw & Hd1 & Hg & Hv & Hwr & _)]].
  - assert (HS : still s (on_dev s d1)) by by exists d1. destruct (Hstill _ HS) as (? & ? & ?). split_and!; try done. left. split; [done|by exists e].
  - assert (HS : still s (on_dev s d1)) by by exists d1. destruct (Hstill _ HS) as (? & ? & ?). split_and!; try done. left. split; [done|by exists e].
  - pose proof (law_written _ z (mo_dev _ Hm)) as Hw0. set (w := view_written (zm_device (bs_device s)) z) in *.
    change (zm_device (bs_device s)) with (under_dev s) in *.
    assert (Hg' := Hg). destruct Hg' as (_ & _ & Ezb & _).
    assert (M : moved s d1).
    { split; [done|done| |].
      - intros b Hb. rewrite Hv. destruct (Z.eqb_spec b (z * zone_blocks (under_dev s) + w)) as [->|]; [|done].
        exfalso. by apply (root_block_elsewhere s z w _ Hm Hz0 ltac:(lia) Hb).
      - intros z' Hz'. rewrite Hwr. destruct (Z.eqb_spec z' z); lia. }
    assert (HR : rooted s (on_dev s d1)) by by exists d1.
    assert (Hother : others_kept s (on_dev s d1) z).
    { intros z' _ Hne. unfold zone_list. change (under_dev (on_dev s d1)) with d1. rewrite Ezb. apply omap_same.
      intros b Hb%elem_of_seqZ. unfold root_in. rewrite Hv. destruct (Z.eqb_spec b (z * zone_blocks (under_dev s) + w)) as [->|]; [|done].
      exfalso. apply Hne. apply (zone_of_block s z w z'); lia. }
    split; [|split; [done|split; [done|right]]].
    + apply (rooted_ok s); [done|done|]. intros z' i y Hz' Hi. change (under_dev (on_dev s d1)) with d1. rewrite Hv.
      destruct (_ =? _); [by intros [= <-]|by apply (ro_bytes s Hok)].
    + split; [by eexists|]. intros q. change (under_dev (on_dev s d1)) with d1. rewrite !elem_of_zone_list, Ezb. unfold root_in. split.
      * intros (i & Hi & E). rewrite Hv in E. destruct (Z.eqb_spec (z * zone_blocks (under_dev s) + i) (z * zone_blocks (under_dev s) + w)); [by right|left; by exists i].
      * intros [(i & Hi & E)|E].
        -- exists i. split; [done|]. rewrite Hv. destruct (Z.eqb_spec (z * zone_blocks (under_dev s) + i) (z * zone_blocks (under_dev s) + w)) as [Ei|]; [|done].
           exfalso. rewrite (unwritten_none s z i Hok Hz) in E; [done|]. fold w. unfold under_dev in *. fold w. lia.
        -- exists w. split; [lia|]. by rewrite Hv, Z.eqb_refl.
Qed.

Lemma reset_spec s z r s' : Rooted_ok s → z = zone_a s ∨ z = zone_b s → on_zoned (dev_reset z) s = (r, s') →
  Rooted_ok s' ∧ rooted s s' ∧ others_kept s s' z ∧
  ((still s s' ∧ ∃ e, r = Err (Refused e)) ∨ (r = Ok tt ∧ zone_list (under_dev s') z = [])).
Proof.
  intros Hok Hzab E. destruct (rooted_geometry s Hok) as [Hzb Hm].
  assert (Hz : is_root_zone s z) by (destruct Hzab as [->| ->]; apply Hok). pose proof Hz as [Hz0 Hk].
  apply on_zoned_inv in E as (d1 & E & ->). assert (Hznn : 0 ≤ z) by lia.
  destruct (law_reset _ _ _ _ (mo_dev _ Hm) Hznn E) as [[(e & -> & _) Hs]|[[-> Hs]|(-> & Hc & Hd1 & Hg & Hv & Hwr & _)]].
  - assert (HS : still s (on_dev s d1)) by by exists d1.
    split; [by eapply still_ok|]. split; [by apply still_rooted|]. split; [by apply others_kept_still|]. left. split; [done|by exists e].
  - assert (HS : still s (on_dev s d1)) by by exists d1.
    split; [by eapply still_ok|]. split; [by apply still_rooted|]. split; [by apply others_kept_still|]. left. split; [done|by eexists].
  - change (zm_device (bs_device s)) with (under_dev s) in *. assert (Hg' := Hg). destruct Hg' as (_ & _ & Ezb & _).
    assert (Hv' : ∀ b, ¬ (z * zone_blocks (under_dev s) ≤ b < z * zone_blocks (under_dev s) + zone_blocks (under_dev s)) →
      view_block d1 b = view_block (under_dev s) b).
    { intros b Hb. rewrite Hv. destruct (Z.leb_spec (z * zone_blocks (under_dev s)) b), (Z.ltb_spec b (z * zone_blocks (under_dev s) + zone_blocks (under_dev s))); done || lia. }
    assert (M : moved s d1).
    { split; [done|done| |].
      - intros b Hb. apply Hv'. intros Hin.
        assert (Hi : 0 ≤ b - z * zone_blocks (under_dev s) < zone_blocks (under_dev s)) by (clear -Hin; lia).
        apply (root_block_elsewhere s z _ b Hm Hz0 Hi Hb). lia.
      - intros z' Hz'. rewrite Hwr. destruct (Z.eqb_spec z' z); [lia|done]. }
    assert (HR : rooted s (on_dev s d1)) by by exists d1.
    split; [|split; [done|split; [|right; split; [done|]]]].
    + apply (rooted_ok s); [done|done|]. intros z' i y Hz' Hi. change (under_dev (on_dev s d1)) with d1. rewrite Hv.
      destruct (_ <=? _); [destruct (_ <? _); [done|]|]; by apply (ro_bytes s Hok).
    + intros z' _ Hne. unfold zone_list. change (under_dev (on_dev s d1)) with d1. rewrite Ezb. apply omap_same.
      intros b Hb%elem_of_seqZ. unfold root_in. rewrite Hv'; [done|]. intros Hin. apply Hne. nia.
    + unfold zone_list. change (under_dev (on_dev s d1)) with d1. rewrite Ezb. apply omap_none. intros b Hb%elem_of_seqZ.
      unfold root_in. rewrite Hv, (proj2 (Z.leb_le _ _)), (proj2 (Z.ltb_lt _ _)) by lia. done.
Qed.

Lemma flush_root_spec s r s' : Rooted_ok s → on_blocks ZoneMap_flush s = (r, s') →
  still s s' ∧ ((∃ e, r = Err (Refused e)) ∨ r = Ok tt).
Proof.
  intros Hok E. destruct (rooted_geometry s Hok) as [_ Hm]. apply on_zoned_inv in E as (d1 & E & ->).
  destruct (law_flush _ _ _ (mo_dev _ Hm) E) as [Hs [(e & -> & _)| ->]]; (split; [by exists d1|]); [left; by exists e|by right].
Qed.
End ops.

(** * Choosing the zone, and wrapping

    The zone chosen is the one that holds the newest record, or the other with
    the last sixteen of its records carried over; what the newest zone holds is
    never touched. *)

Lemma omap_reverse' {A B} (f : A → option B) (l : list A) : omap f (reverse l) = reverse (omap f l).
Proof.
  induction l as [|x l IH]; [done|]. rewrite reverse_cons, omap_app, IH. cbn [omap list_omap].
  destruct (f x); [by rewrite reverse_cons|by rewrite app_nil_r].
Qed.

Section wrap.
Context {D : Type} `{HL : ZonedLaws D} (Hserve : reads_serve D).
Implicit Types (s : Store (ZoneMap D)).

Lemma zone_list_whole s z r : Rooted_ok s → z = zone_a s ∨ z = zone_b s → r ∈ zone_list (under_dev s) z → RootRecord_whole r.
Proof.
  intros Hok Hz (i & Hi & E)%elem_of_zone_list. unfold root_in in E.
  destruct (view_block (under_dev s) _) as [x|] eqn:V; [|done]. cbn in E.
  destruct (rooted_geometry s Hok) as [_ Hm]. pose proof (law_block _ _ _ (mo_dev _ Hm) V) as Hl.
  pose proof (ro_room s Hok) as Hroom. rewrite (ro_block s Hok) in Hroom. unfold under_dev in Hroom.
  apply (believed_whole x); [by apply (ro_bytes s Hok z i x)|lia|done].
Qed.

Lemma others_kept_trans s1 s2 s3 z : rooted s1 s2 → others_kept s1 s2 z → others_kept s2 s3 z → others_kept s1 s3 z.
Proof.
  intros HR H12 H23 z' Hz Hne. rewrite H23; [by apply H12| |done]. by apply (rooted_zones _ _ HR).
Qed.

Lemma carry_spec n : ∀ s start carried r s', Rooted_ok s → 0 ≤ start → (length carried ≤ ROOT_CARRY)%nat →
  carry n start (start + Z.of_nat n) carried s = (r, s') →
  still s s' ∧ r = Ok (take ROOT_CARRY (carried ++ reverse (omap (root_in (under_dev s)) (seqZ start (Z.of_nat n))))).
Proof.
  induction n as [|n IH]; intros s start carried r s' Hok Hst Hl; cbn [carry].
  { intros [= <- <-]. split; [apply still_refl; by apply rooted_geometry|]. cbn. by rewrite app_nil_r, take_ge. }
  rewrite (proj2 (Z.ltb_lt start _)) by lia. cbn [andb].
  destruct (Nat.ltb_spec (length carried) ROOT_CARRY) as [Hlt|Hge].
  2:{ intros [= <- <-]. split; [apply still_refl; by apply rooted_geometry|]. by rewrite take_app_le, take_ge by lia. }
  replace (start + Z.of_nat (S n) - 1) with (start + Z.of_nat n) by lia. unfold sm_bind.
  destruct (record_at _ s) as [r1 s1] eqn:E1. apply (record_at_spec Hserve) in E1 as [H1 ->]; [|done|lia].
  rewrite seqZ_S, omap_app, reverse_app, (assoc_L (++)). cbn [omap list_omap].
  assert (Eo : omap (root_in (under_dev s1)) (seqZ start (Z.of_nat n)) = omap (root_in (under_dev s)) (seqZ start (Z.of_nat n))).
  { apply omap_same. intros b _. by apply still_root_in. }
  intros E. destruct (root_in (under_dev s) (start + Z.of_nat n)) as [q|].
  - apply IH in E as [H2 ->]; [|by eapply still_ok|done|rewrite length_app; cbn; lia]. split; [by eapply still_trans|]. by rewrite Eo.
  - apply IH in E as [H2 ->]; [|by eapply still_ok|done|lia]. split; [by eapply still_trans|]. cbn. by rewrite Eo, app_nil_r.
Qed.

Lemma append_records_spec z records : ∀ s r s', Rooted_ok s → z = zone_a s ∨ z = zone_b s → Forall RootRecord_whole records →
  append_records z (Store_block_bytes s) records s = (r, s') →
  Rooted_ok s' ∧ rooted s s' ∧ others_kept s s' z ∧
  (∀ q, q ∈ zone_list (under_dev s') z → q ∈ zone_list (under_dev s) z ∨ q ∈ records) ∧
  ((∃ e, r = Err (Refused e)) ∨
   (r = Ok tt ∧ ∀ q, q ∈ zone_list (under_dev s') z ↔ q ∈ zone_list (under_dev s) z ∨ q ∈ records)).
Proof.
  induction records as [|record records IH]; intros s r s' Hok Hz Hw; cbn [append_records].
  { intros [= <- <-]. pose proof (still_refl s (proj2 (rooted_geometry s Hok))) as HS.
    split; [done|]. split; [by apply still_rooted|]. split; [by apply others_kept_still|].
    split; [by left|right]. split; [done|]. intros q. rewrite elem_of_nil. tauto. }
  apply list.Forall_cons in Hw as [Hw Hws]. destruct (believed_block _ record Hw (ro_room s Hok)) as (x & Ex & _ & Hxb & Hbel).
  unfold sm_bind at 1, sm_lift. rewrite Ex. unfold sm_bind. destruct (on_blocks (ZoneMap_append_reserved z x) s) as [r1 s1] eqn:E1.
  destruct (append_root_spec s z x r1 s1 Hok Hz Hxb E1) as (Hok1 & HR1 & Hk1 & [[HS (e & ->)]|[(at_ & ->) Hq]]).
  { intros [= <- <-]. split; [done|]. split; [done|]. split; [done|]. split; [|left; by exists e].
    intros q. rewrite (still_zone_list _ _ z HS). by left. }
  destruct (rooted_zones _ _ HR1) as (Ea & Eb & _ & _ & Ebb). rewrite <- Ebb. intros E.
  destruct (IH s1 r s' Hok1 ltac:(by rewrite Ea, Eb) Hws E) as (Hok2 & HR2 & Hk2 & Hsub & Hr).
  split; [done|]. split; [by eapply rooted_trans|]. split; [by eapply others_kept_trans|]. split.
  - intros q Hin. rewrite elem_of_cons. apply Hsub in Hin as [Hin|Hin]; [|tauto]. apply Hq in Hin as [Hin|Hin]; [by left|right; left; congruence].
  - destruct Hr as [Hr|[-> Hin]]; [by left|right]. split; [done|]. intros q. rewrite Hin, Hq, elem_of_cons, Hbel.
    split; [intros [[?|[= ->]]|?]; tauto|intros [?|[->|?]]; tauto].
Qed.

(** The last sixteen records of a zone, the newest written first. *)
Definition last_records (d : D) (z : Z) : list RootRecord := take ROOT_CARRY (reverse (zone_list d z)).

Lemma last_records_sub d z q : q ∈ last_records d z → q ∈ zone_list d z.
Proof. unfold last_records. intros Hq. apply elem_of_reverse. rewrite <- (take_drop ROOT_CARRY). apply elem_of_app. by left. Qed.

Lemma wrap_spec s active other r s' : Rooted_ok s →
  (active = zone_a s ∧ other = zone_b s) ∨ (active = zone_b s ∧ other = zone_a s) →
  wrap active other s = (r, s') →
  Rooted_ok s' ∧ rooted s s' ∧ others_kept s s' other ∧
  (∀ q, q ∈ zone_list (under_dev s') other → q ∈ zone_list (under_dev s) other ∨ q ∈ zone_list (under_dev s) active) ∧
  ((∃ e, r = Err (Refused e)) ∨
   (r = Ok other ∧ ∀ q, q ∈ zone_list (under_dev s') other ↔ q ∈ last_records (under_dev s) active)).
Proof.
  intros Hok Hab. assert (Ho : other = zone_a s ∨ other = zone_b s) by tauto. assert (Ha : active = zone_a s ∨ active = zone_b s) by tauto.
  assert (Hro : is_root_zone s other) by (destruct Ho as [->| ->]; apply Hok).
  assert (Hra : is_root_zone s active) by (destruct Ha as [->| ->]; apply Hok).
  assert (Hquiet : ∀ s1 e, still s s1 → (Err (Refused e), s1) = (r, s') →
    Rooted_ok s' ∧ rooted s s' ∧ others_kept s s' other ∧
    (∀ q, q ∈ zone_list (under_dev s') other → q ∈ zone_list (under_dev s) other ∨ q ∈ zone_list (under_dev s) active) ∧
    ((∃ e, r = Err (Refused e)) ∨ (r = Ok other ∧ ∀ q, q ∈ zone_list (under_dev s') other ↔ q ∈ last_records (under_dev s) active))).
  { intros s1 e HS [= <- <-]. split; [by eapply still_ok|]. split; [by apply still_rooted|]. split; [by apply others_kept_still|].
    split; [|left; by exists e]. intros q. rewrite (still_zone_list _ _ other HS). by left. }
  unfold wrap. unfold sm_bind at 1. destruct (on_zoned (dev_report other) s) as [r1 s1] eqn:E1.
  destruct (report_spec s other r1 s1 Hok Hro E1) as [H1 [(e & ->)|(dest & w1 & -> & _)]]; [by apply Hquiet|].
  destruct (rep_blocks dest <? _); [by apply (Hquiet s1)|].
  unfold sm_bind at 1. destruct (on_zoned (dev_report active) s1) as [r2 s2] eqn:E2.
  pose proof (still_ok _ _ Hok H1) as Hok1. destruct (rooted_zones _ _ (still_rooted _ _ H1)) as (_ & _ & Hrz1 & Ez1 & _).
  destruct (report_spec s1 active r2 s2 Hok1 (proj2 (Hrz1 active) Hra) E2) as [H2 [(e & ->)|(rep & w & -> & Hst & Hp & Hw & Hw0 & _)]].
  { apply Hquiet. by eapply still_trans. }
  pose proof (still_trans _ _ _ H1 H2) as H12. pose proof (still_ok _ _ Hok H12) as Hok2.
  unfold sm_bind at 1. destruct (carry _ _ _ _ s2) as [r3 s3] eqn:E3.
  assert (Epz : rep_write_pointer rep = rep_start rep + Z.of_nat (Z.to_nat (rep_write_pointer rep - rep_start rep))) by lia.
  rewrite Epz in E3 at 2. apply carry_spec in E3 as [H3 ->]; [|done| |cbn; lia].
  2:{ rewrite Hst. by apply zone_start_nonneg, (proj2 (Hrz1 active)). }
  pose proof (still_trans _ _ _ H12 H3) as H13. pose proof (still_ok _ _ Hok H13) as Hok3.
  assert (Ecar : take ROOT_CARRY ([] ++ reverse (omap (root_in (under_dev s2)) (seqZ (rep_start rep) (Z.of_nat (Z.to_nat (rep_write_pointer rep - rep_start rep)))))) = last_records (under_dev s) active).
  { unfold last_records. cbn [app]. do 2 f_equal. replace (Z.of_nat _) with w by lia. rewrite Hst.
    rewrite (omap_same (root_in (under_dev s2)) (root_in (under_dev s1))) by (intros; by apply still_root_in).
    rewrite (scan_zone_list s1 active w) by (done || by apply Hrz1). by apply still_zone_list. }
  rewrite Ecar. clear Ecar Epz. unfold sm_bind at 1. destruct (on_zoned (dev_reset other) s3) as [r4 s4] eqn:E4.
  destruct (rooted_zones _ _ (still_rooted _ _ H13)) as (Ea3 & Eb3 & Hrz3 & Ez3 & Ebb3).
  destruct (reset_spec s3 other r4 s4 Hok3 ltac:(by rewrite Ea3, Eb3) E4) as (Hok4 & HR4 & Hk4 & [[H4 (e & ->)]|[-> Hnil]]).
  { apply Hquiet. by eapply still_trans. }
  pose proof (rooted_trans _ _ _ (still_rooted _ _ H13) HR4) as HR14.
  pose proof (others_kept_trans _ _ _ _ (still_rooted _ _ H13) (others_kept_still _ _ other H13) Hk4) as Hk14.
  destruct (rooted_zones _ _ HR14) as (Ea4 & Eb4 & _ & _ & Ebb4).
  unfold sm_bind at 1, sm_get. unfold sm_bind at 1. destruct (append_records _ _ _ s4) as [r5 s5] eqn:E5.
  apply append_records_spec in E5 as (Hok5 & HR5 & Hk5 & Hsub & Hr5); [|done|by rewrite Ea4, Eb4|].
  2:{ apply list.Forall_forall. intros q Hq%elem_of_reverse%last_records_sub. by apply (zone_list_whole s active). }
  pose proof (rooted_trans _ _ _ HR14 HR5) as HR15. pose proof (others_kept_trans _ _ _ _ HR14 Hk14 Hk5) as Hk15.
  assert (Hsub' : ∀ q, q ∈ zone_list (under_dev s5) other → q ∈ zone_list (under_dev s) other ∨ q ∈ zone_list (under_dev s) active).
  { intros q Hq. apply Hsub in Hq as [Hq|Hq]; [rewrite Hnil in Hq; by apply elem_of_nil in Hq|]. right.
    by apply elem_of_reverse, last_records_sub in Hq. }
  destruct Hr5 as [(e & ->)|[-> Hall]].
  { intros [= <- <-]. split_and!; try done. left. by exists e. }
  unfold sm_bind. destruct (on_blocks ZoneMap_flush s5) as [r6 s6] eqn:E6.
  destruct (flush_root_spec s5 r6 s6 Hok5 E6) as [H6 Hr6].
  assert (Hout : Rooted_ok s6 ∧ rooted s s6 ∧ others_kept s s6 other ∧
    (∀ q, q ∈ zone_list (under_dev s6) other → q ∈ zone_list (under_dev s) other ∨ q ∈ zone_list (under_dev s) active)).
  { split; [by eapply still_ok|]. split; [by eapply rooted_trans, still_rooted|].
    split; [by eapply others_kept_trans, others_kept_still|]. intros q. rewrite (still_zone_list _ _ other H6). apply Hsub'. }
  destruct Hout as (Ho1 & Ho2 & Ho3 & Ho4). destruct Hr6 as [(e & ->)| ->]; intros [= <- <-]; split_and!; try done.
  - left. by exists e.
  - right. split; [done|]. intros q. rewrite (still_zone_list _ _ other H6), Hall, Hnil, elem_of_nil, elem_of_reverse. tauto.
Qed.
End wrap.
