(* ===== verification/PublishTheorems.v ===== *)
(** * What a publish comes to

    However far a publish gets before a call refuses, the newest record on the
    device is the one before it or the new one, and what it covers is there. *)

From S2P Require Import Prelude Abi Bytes BTree StoreRecords StoreCodecs BlockDevice Sha256 Store StoreFacts StoreTheorems ZoneDevice ZoneDeviceFacts ZoneMap ZoneMapFacts ZoneOps ZoneTheorems ZoneStore Roots Mark Publish PublishFacts.
#[local] Open Scope Z_scope.

(** ** Scans *)
Definition highest (l : list RootRecord) : Z := foldl (λ highest found, Z.max highest (rr_generation found)) 0 l.

Lemma highest_from l : ∀ h, h ≤ foldl (λ highest found, Z.max highest (rr_generation found)) h l ∧
  (∀ q, q ∈ l → rr_generation q ≤ foldl (λ highest found, Z.max highest (rr_generation found)) h l).
Proof.
  induction l as [|x l IH]; intros h; cbn [foldl]; [split; [done|by intros q ?%elem_of_nil]|].
  destruct (IH (Z.max h (rr_generation x))) as [H1 H2]. split; [lia|]. intros q [->|Hq]%elem_of_cons; [lia|by apply H2].
Qed.

Lemma highest_bound l q : q ∈ l → rr_generation q ≤ highest l.
Proof. apply highest_from. Qed.

Lemma highest_reached l : highest l = 0 ∨ ∃ q, q ∈ l ∧ rr_generation q = highest l.
Proof.
  unfold highest. generalize 0. induction l as [|x l IH]; intros h; cbn [foldl]; [by left|].
  destruct (IH (Z.max h (rr_generation x))) as [E|(q & Hq & E)].
  - destruct (Z.max_spec h (rr_generation x)) as [[_ Em]|[_ Em]]; rewrite Em in E |- *.
    + right. exists x. split; [apply list_elem_of_here|done].
    + by left.
  - right. exists q. split; [by apply list_elem_of_further|done].
Qed.

Lemma best_from l : ∀ best, match foldl better best l with
  | None => best = None ∧ l = []
  | Some q => (best = Some q ∨ q ∈ l) ∧ (∀ q', q' ∈ l → rr_generation q' ≤ rr_generation q) ∧ (∀ b, best = Some b → rr_generation b ≤ rr_generation q)
  end.
Proof.
  induction l as [|x l IH]; intros best; cbn [foldl].
  { destruct best; [split; [by left|]; split; [by intros q ?%elem_of_nil|intros b [= ->]; done]|done]. }
  specialize (IH (better best x)). destruct (foldl better (better best x) l) as [q|].
  - destruct IH as (Hq & Hl & Hb). unfold better in *. destruct best as [held|].
    + destruct (Z.ltb_spec (rr_generation held) (rr_generation x)) as [Hlt|Hge]; specialize (Hb _ eq_refl).
      * split; [right; destruct Hq as [[= ->]|Hq]; [apply list_elem_of_here|by apply list_elem_of_further]|].
        split; [intros q' [->|Hq']%elem_of_cons; [done|by apply Hl]|intros b [= <-]; lia].
      * split; [destruct Hq as [[= ->]|Hq]; [by left|right; by apply list_elem_of_further]|].
        split; [intros q' [->|Hq']%elem_of_cons; [lia|by apply Hl]|intros b [= <-]; done].
    + specialize (Hb _ eq_refl). split; [right; destruct Hq as [[= ->]|Hq]; [apply list_elem_of_here|by apply list_elem_of_further]|].
      split; [intros q' [->|Hq']%elem_of_cons; [done|by apply Hl]|done].
  - destruct IH as [Hb _]. unfold better in Hb. destruct best; [destruct (_ <? _)|]; done.
Qed.

Section publish.
Context {D : Type} `{HL : ZonedLaws D} (Hserve : reads_serve D).
Implicit Types (s : Store (ZoneMap D)) (q w : RootRecord).

(** The zone in use, and the other. *)
Definition newest_zone s : Z :=
  if highest (zone_list (under_dev s) (zone_a s)) <? highest (zone_list (under_dev s) (zone_b s)) then zone_b s else zone_a s.
Definition other_zone s : Z :=
  if highest (zone_list (under_dev s) (zone_a s)) <? highest (zone_list (under_dev s) (zone_b s)) then zone_a s else zone_b s.

Lemma zones_pair s : (newest_zone s = zone_a s ∧ other_zone s = zone_b s) ∨ (newest_zone s = zone_b s ∧ other_zone s = zone_a s).
Proof. unfold newest_zone, other_zone. destruct (_ <? _); [by right|by left]. Qed.

Lemma recorded_zones s q : recorded s q ↔ q ∈ zone_list (under_dev s) (newest_zone s) ∨ q ∈ zone_list (under_dev s) (other_zone s).
Proof. unfold recorded. destruct (zones_pair s) as [[-> ->]|[-> ->]]; tauto. Qed.

Definition newest_record s q : Prop := recorded s q ∧ ∀ q', recorded s q' → rr_generation q' ≤ rr_generation q.
Definition one_per_generation s : Prop := ∀ q q', recorded s q → recorded s q' → rr_generation q = rr_generation q' → q = q'.

Lemma recorded_positive s q : Rooted_ok s → recorded s q → 0 < rr_generation q.
Proof.
  intros Hok Hq. assert (Hw : RootRecord_whole q).
  { destruct Hq as [Hq|Hq]; eapply (zone_list_whole s); [done|by left|done|done|by right|done]. }
  destruct Hw as [[[Hg _] Hne] _ _]. lia.
Qed.

(** The newest record is in the zone in use. *)
Lemma newest_bound s q : recorded s q → 0 < rr_generation q → ∃ q0, q0 ∈ zone_list (under_dev s) (newest_zone s) ∧ rr_generation q ≤ rr_generation q0.
Proof.
  unfold recorded, newest_zone. pose proof (highest_reached (zone_list (under_dev s) (zone_a s))) as Ha.
  pose proof (highest_reached (zone_list (under_dev s) (zone_b s))) as Hb.
  intros Hq Hpos. assert (Hq' : rr_generation q ≤ highest (zone_list (under_dev s) (zone_a s)) ∨ rr_generation q ≤ highest (zone_list (under_dev s) (zone_b s))).
  { destruct Hq as [Hq|Hq]; [left|right]; by apply highest_bound. }
  destruct (Z.ltb_spec (highest (zone_list (under_dev s) (zone_a s))) (highest (zone_list (under_dev s) (zone_b s)))).
  - destruct Hb as [?|(q0 & Hq0 & E)]; [lia|]. exists q0. split; [done|lia].
  - destruct Ha as [?|(q0 & Hq0 & E)]; [lia|]. exists q0. split; [done|lia].
Qed.

(** *** Choosing the zone *)
Lemma choose_spec s r s' : Rooted_ok s → root_zone_for_the_next_record s = (r, s') →
  Rooted_ok s' ∧ rooted s s' ∧ others_kept s s' (other_zone s) ∧
  (∀ q, q ∈ zone_list (under_dev s') (other_zone s) → recorded s q) ∧
  ((∃ e, r = Err (Refused e)) ∨ (r = Ok (newest_zone s) ∧ still s s') ∨
   (r = Ok (other_zone s) ∧ ∀ q, q ∈ zone_list (under_dev s') (other_zone s) ↔ q ∈ last_records (under_dev s) (newest_zone s))).
Proof.
  intros Hok. set (post := λ (r : res fault Z) s', Rooted_ok s' ∧ rooted s s' ∧ others_kept s s' (other_zone s) ∧
    (∀ q, q ∈ zone_list (under_dev s') (other_zone s) → recorded s q) ∧
    ((∃ e, r = Err (Refused e)) ∨ (r = Ok (newest_zone s) ∧ still s s') ∨
     (r = Ok (other_zone s) ∧ ∀ q, q ∈ zone_list (under_dev s') (other_zone s) ↔ q ∈ last_records (under_dev s) (newest_zone s)))).
  change (root_zone_for_the_next_record s = (r, s') → post r s').
  assert (Hquiet : ∀ s1 r1, still s s1 → (∃ e, r1 = Err (Refused e)) ∨ r1 = Ok (newest_zone s) → post r1 s1).
  { intros s1 r1 HS Hr. split; [by eapply still_ok|]. split; [by apply still_rooted|]. split; [by apply others_kept_still|].
    split; [intros q; rewrite (still_zone_list _ _ (other_zone s) HS), recorded_zones; intros ?; by right|]. destruct Hr; [by left|right; by left]. }
  unfold root_zone_for_the_next_record, sm_bind, sm_get. destruct (highest_in _ s) as [r1 s1] eqn:E1.
  apply (over_zone_spec Hserve) in E1 as [H1 [(e & ->)| ->]]; [| |done|apply Hok].
  { intros [= <- <-]. apply Hquiet; [done|]. left. by exists e. }
  destruct (highest_in _ s1) as [r2 s2] eqn:E2. pose proof (still_ok _ _ Hok H1) as Hok1.
  destruct (rooted_zones _ _ (still_rooted _ _ H1)) as (Ea1 & Eb1 & Hrz1 & _ & _).
  apply (over_zone_spec Hserve) in E2 as [H2 [(e & ->)| ->]]; [| |done|apply Hrz1, Hok].
  { intros [= <- <-]. apply Hquiet; [by eapply still_trans|]. left. by exists e. }
  pose proof (still_trans _ _ _ H1 H2) as H12. pose proof (still_ok _ _ Hok H12) as Hok2.
  rewrite (still_zone_list _ _ _ H1). fold (highest (zone_list (under_dev s) (sb_root_zone_a (bs_superblock s)))) (highest (zone_list (under_dev s) (sb_root_zone_b (bs_superblock s)))).
  change (sb_root_zone_a (bs_superblock s)) with (zone_a s). change (sb_root_zone_b (bs_superblock s)) with (zone_b s).
  assert (Epick : (if highest (zone_list (under_dev s) (zone_a s)) <? highest (zone_list (under_dev s) (zone_b s)) then (zone_b s, zone_a s) else (zone_a s, zone_b s)) = (newest_zone s, other_zone s)).
  { unfold newest_zone, other_zone. by destruct (_ <? _). }
  rewrite Epick. destruct (rooted_zones _ _ (still_rooted _ _ H12)) as (Ea2 & Eb2 & Hrz2 & _ & _).
  assert (Hrn : is_root_zone s2 (newest_zone s)) by (apply Hrz2; destruct (zones_pair s) as [[-> _]|[-> _]]; apply Hok).
  destruct (on_zoned _ s2) as [r3 s3] eqn:E3.
  destruct (report_spec s2 _ r3 s3 Hok2 Hrn E3) as [H3 [(e & ->)|(rep & w & -> & Hst & Hp & Hw & Hw0 & Hbl)]].
  { intros [= <- <-]. apply Hquiet; [by eapply still_trans|]. left. by exists e. }
  pose proof (still_trans _ _ _ H12 H3) as H13. unfold sm_lift, sub_or_panic.
  rewrite Hst, Hp. rewrite (proj2 (Z.ltb_ge _ _)) by lia. replace (_ + w - _) with w by lia. rewrite Hbl, (proj2 (Z.ltb_ge _ _)) by lia.
  destruct (_ && _).
  { intros [= <- <-]. apply Hquiet; [done|by right]. }
  destruct (rooted_zones _ _ (still_rooted _ _ H13)) as (Ea3 & Eb3 & _ & _ & _).
  intros E. apply (wrap_spec Hserve) in E as (Hok4 & HR4 & Hk4 & Hsub & Hr); [|by eapply still_ok|].
  2:{ rewrite Ea3, Eb3. apply zones_pair. }
  split; [done|]. split; [by eapply rooted_trans; [apply still_rooted|]|].
  split; [by eapply others_kept_trans; [by apply still_rooted|by apply others_kept_still|]|]. split.
  - intros q Hq. rewrite recorded_zones. apply Hsub in Hq. rewrite !(still_zone_list _ _ _ H13) in Hq. tauto.
  - destruct Hr as [Hr|[-> Hr]]; [by left|right; right]. split; [done|]. intros q. rewrite Hr. unfold last_records.
    by rewrite (still_zone_list _ _ _ H13).
Qed.

(** *** The write set *)
Lemma append_blocks_spec set blocks : ∀ roots r roots', append_blocks set blocks roots = (r, roots') →
  rt_pinned roots' = rt_pinned roots ∧ rt_next roots' = rt_next roots ∧ rt_remarks_owed roots' = rt_remarks_owed roots ∧
  (∀ set', set' ≠ set → rt_transient roots' !! set' = rt_transient roots !! set') ∧
  match rt_transient roots !! set with
  | Some held => r = Ok tt ∧ rt_transient roots' !! set = Some (held ++ blocks)
  | None => rt_transient roots' !! set = None ∧ (blocks ≠ [] → r = Err (Refused refusal_ADDRESS)) ∧ (blocks = [] → r = Ok tt)
  end.
Proof.
  induction blocks as [|b blocks IH]; intros roots r roots'; cbn [append_blocks].
  { intros [= <- <-]. split; [done|]. split; [done|]. split; [done|]. split; [done|].
    destruct (rt_transient roots !! set) as [held|]; [by rewrite app_nil_r|done]. }
  unfold sm_bind, Roots_appended. destruct (rt_transient roots !! set) as [held|] eqn:L.
  - intros E. apply IH in E as (E1 & E2 & E3 & E4 & E5). cbn in *. split; [done|]. split; [done|]. split; [done|].
    rewrite lookup_insert_eq in E5. split; [intros set' Hne; rewrite E4, lookup_insert_ne; done|]. by rewrite <- app_assoc in E5.
  - intros [= <- <-]. split; [done|]. split; [done|]. split; [done|]. split; [done|]. by split.
Qed.

(** What the device comes to, whatever a publish answers. *)
Record published s s' w : Prop := {
  pb_ok : Rooted_ok s';
  pb_rooted : rooted s s';
  pb_only : ∀ q, recorded s' q → recorded s q ∨ q = w;
  pb_kept : ∀ q, q ∈ zone_list (under_dev s) (newest_zone s) → q ∈ zone_list (under_dev s') (newest_zone s);
}.

Lemma still_published s s' w : Rooted_ok s → still s s' → published s s' w.
Proof.
  intros Hok HS. split; [by eapply still_ok|by apply still_rooted| |].
  - intros q. unfold recorded. destruct (rooted_zones _ _ (still_rooted _ _ HS)) as (-> & -> & _).
    rewrite !(still_zone_list _ _ _ HS). by left.
  - intros q. by rewrite (still_zone_list _ _ _ HS).
Qed.

Lemma published_still s s1 s2 w : published s s1 w → still s1 s2 → published s s2 w.
Proof.
  intros [H1 H2 H3 H4] HS. split; [by eapply still_ok|by eapply rooted_trans, still_rooted| |].
  - intros q. unfold recorded. destruct (rooted_zones _ _ (still_rooted _ _ HS)) as (-> & -> & _).
    rewrite !(still_zone_list _ _ _ HS). apply H3.
  - intros q Hq. rewrite (still_zone_list _ _ _ HS). by apply H4.
Qed.

Lemma recorded_newest s s' q : zone_a s' = zone_a s → zone_b s' = zone_b s →
  recorded s' q ↔ q ∈ zone_list (under_dev s') (newest_zone s) ∨ q ∈ zone_list (under_dev s') (other_zone s).
Proof. intros Ea Eb. unfold recorded. rewrite Ea, Eb. destruct (zones_pair s) as [[-> ->]|[-> ->]]; tauto. Qed.

Lemma pair_apart s : Rooted_ok s → newest_zone s ≠ other_zone s.
Proof. intros Hok. pose proof (ro_apart s Hok). destruct (zones_pair s) as [[-> ->]|[-> ->]]; congruence. Qed.

Lemma chosen_published s s1 w : Rooted_ok s → Rooted_ok s1 → rooted s s1 → others_kept s s1 (other_zone s) →
  (∀ q, q ∈ zone_list (under_dev s1) (other_zone s) → recorded s q) → published s s1 w.
Proof.
  intros Hok Hok1 HR Hk Hsub. destruct (rooted_zones _ _ HR) as (Ea & Eb & _).
  assert (Hn : zone_list (under_dev s1) (newest_zone s) = zone_list (under_dev s) (newest_zone s)).
  { apply Hk; [|by apply pair_apart]. destruct (zones_pair s) as [[-> _]|[-> _]]; apply Hok. }
  split; [done|done| |by intros q; rewrite Hn].
  intros q [Hq|Hq]%(recorded_newest s); [|left; by apply Hsub|done|done]. left. rewrite Hn in Hq. apply recorded_zones. by left.
Qed.

(** The new record, appended to one of the two. *)
Lemma appended_published s s1 s2 z w x : Rooted_ok s → published s s1 w → z = zone_a s ∨ z = zone_b s →
  believed x = Some w → Rooted_ok s2 → rooted s1 s2 → others_kept s1 s2 z →
  (∀ q, q ∈ zone_list (under_dev s2) z ↔ q ∈ zone_list (under_dev s1) z ∨ believed x = Some q) → published s s2 w.
Proof.
  intros Hok [H1 H2 H3 H4] Hz Hx Hok2 HR Hk Hq. pose proof (rooted_trans _ _ _ H2 HR) as HR2.
  destruct (rooted_zones _ _ H2) as (Ea1 & Eb1 & Hrz1 & _). destruct (rooted_zones _ _ HR2) as (Ea2 & Eb2 & _ & _).
  assert (Heach : ∀ z' q, z' = zone_a s ∨ z' = zone_b s →
    (q ∈ zone_list (under_dev s2) z' → q ∈ zone_list (under_dev s1) z' ∨ q = w) ∧
    (q ∈ zone_list (under_dev s1) z' → q ∈ zone_list (under_dev s2) z')).
  { intros z' q Hz'. destruct (decide (z' = z)) as [->|Hne].
    - rewrite Hq, Hx. split; [intros [?|[= ->]]; tauto|tauto].
    - rewrite (Hk z'); [tauto| |done]. apply Hrz1. destruct Hz' as [->| ->]; apply Hok. }
  split; [done|done| |].
  - intros q. unfold recorded. rewrite Ea2, Eb2. intros Hin.
    assert (Hin1 : recorded s1 q ∨ q = w).
    { unfold recorded. rewrite Ea1, Eb1. destruct Hin as [Hin|Hin]; apply Heach in Hin as [Hin|Hin]; tauto. }
    destruct Hin1 as [Hin1|?]; [by apply H3|by right].
  - intros q Hin. apply Heach; [|by apply H4]. destruct (zones_pair s) as [[-> _]|[-> _]]; tauto.
Qed.

Lemma publish_commit_spec s roots p record r s' roots' : Rooted_ok s → RootRecord_whole (with_check record) →
  Publisher_commit p record (s, roots) = (r, (s', roots')) →
  let w := with_check record in
  published s s' w ∧
  match r with
  | Ok w' => w' = w ∧ recorded s' w ∧ rt_pinned roots' = {[rr_root record]} ∪ rt_pinned roots ∧ rt_transient roots' !! pb_set p = None ∧
      (w ∈ zone_list (under_dev s') (other_zone s) → w ∉ zone_list (under_dev s) (other_zone s) →
       ∀ q, q ∈ last_records (under_dev s) (newest_zone s) → q ∈ zone_list (under_dev s') (other_zone s))
  | Err e => e ≠ Panicked ∧ rt_pinned roots' = rt_pinned roots ∧
      (∀ held, rt_transient roots !! pb_set p = Some held →
         rt_transient roots' !! pb_set p = Some (held ++ seqZ (pb_at p) (Store_free s - pb_at p)))
  end.
Proof.
  intros Hok Hwhole E w. pose proof (still_refl s (proj2 (rooted_geometry s Hok))) as HS0.
  unfold Publisher_commit in E. unfold sm_bind at 1, sm_get at 1 in E. cbn [fst] in E.
  unfold sm_bind at 1, of_roots at 1, Publisher_appended in E. destruct (append_blocks _ _ roots) as [r0 roots0] eqn:E0.
  destruct (append_blocks_spec _ _ _ _ _ E0) as (P0 & _ & _ & T0 & H0).
  destruct r0 as [[]|e].
  2:{ injection E as <- <- <-. split; [by apply still_published|]. destruct (rt_transient roots !! pb_set p) as [held|]; [by destruct H0|].
      destruct (decide (seqZ (pb_at p) (Store_free s - pb_at p) = [])) as [Hnil|Hnil].
      - destruct H0 as (_ & _ & H0). by specialize (H0 Hnil).
      - destruct H0 as (_ & H0 & _). specialize (H0 Hnil). injection H0 as ->. done. }
  assert (Herr : ∀ e s1, published s s1 w → (Err (Refused e), (s1, roots0)) = (r, (s', roots')) →
    published s s' w ∧ match r with Ok _ => False | Err e => e ≠ Panicked ∧ rt_pinned roots' = rt_pinned roots ∧
      (∀ held, rt_transient roots !! pb_set p = Some held →
         rt_transient roots' !! pb_set p = Some (held ++ seqZ (pb_at p) (Store_free s - pb_at p))) end).
  { intros e s1 HP [= <- <- <-]. split; [done|]. split; [done|]. split; [done|]. intros held L. rewrite L in H0. by destruct H0. }
  assert (Herr' : ∀ e s1, published s s1 w → (Err (Refused e), (s1, roots0)) = (r, (s', roots')) →
    published s s' w ∧ match r with Ok w' => w' = w ∧ recorded s' w ∧ rt_pinned roots' = {[rr_root record]} ∪ rt_pinned roots ∧ rt_transient roots' !! pb_set p = None ∧
      (w ∈ zone_list (under_dev s') (other_zone s) → w ∉ zone_list (under_dev s) (other_zone s) →
       ∀ q, q ∈ last_records (under_dev s) (newest_zone s) → q ∈ zone_list (under_dev s') (other_zone s))
     | Err e => e ≠ Panicked ∧ rt_pinned roots' = rt_pinned roots ∧
      (∀ held, rt_transient roots !! pb_set p = Some held →
         rt_transient roots' !! pb_set p = Some (held ++ seqZ (pb_at p) (Store_free s - pb_at p))) end).
  { intros e s1 HP Ee. destruct (Herr e s1 HP Ee) as [H1 H2]. split; [done|]. by destruct r. }
  clear Herr. cbn [blobs_are_durable_before_the_root] in E. change blobs_are_durable_before_the_root with true in E. cbv iota in E.
  unfold sm_bind at 1, of_stored at 1 in E. destruct (Store_barrier s) as [r1 s1] eqn:E1.
  destruct (flush_root_spec s r1 s1 Hok E1) as [H1 [(e & ->)| ->]]; [by apply (Herr' e s1); [apply still_published|]|].
  pose proof (still_ok _ _ Hok H1) as Hok1. destruct (rooted_zones _ _ (still_rooted _ _ H1)) as (Ea1 & Eb1 & _ & _ & Ebb1).
  unfold sm_bind at 1, sm_get at 1 in E. rewrite Ebb1 in E. fold w in E.
  destruct (believed_block _ w Hwhole (ro_room s Hok)) as (x & Ex & _ & Hxb & Hbel).
  unfold sm_bind at 1, sm_lift in E. rewrite Ex in E.
  unfold sm_bind at 1, of_stored at 1 in E. destruct (root_zone_for_the_next_record s1) as [r2 s2] eqn:E2.
  assert (Enw : newest_zone s1 = newest_zone s ∧ other_zone s1 = other_zone s).
  { unfold newest_zone, other_zone. by rewrite Ea1, Eb1, !(still_zone_list _ _ _ H1). }
  destruct Enw as [Enw Eow]. pose proof (choose_spec s1 r2 s2 Hok1 E2) as (Hok2 & HR2 & Hk2 & Hsub2 & Hr2). rewrite Enw, Eow in *.
  pose proof (rooted_trans _ _ _ (still_rooted _ _ H1) HR2) as HR02.
  assert (HP2 : published s s2 w).
  { apply chosen_published; [done|done|done| |].
    - by eapply others_kept_trans; [by apply still_rooted|by apply others_kept_still|].
    - intros q Hq. apply Hsub2 in Hq. unfold recorded in *. by rewrite Ea1, Eb1, !(still_zone_list _ _ _ H1) in Hq. }
  destruct Hr2 as [(e & ->)|Hr2]; [by apply (Herr' e s2)|].
  assert (Hz : ∃ z, r2 = Ok z ∧ (z = newest_zone s ∧ still s s2 ∨ z = other_zone s ∧
    ∀ q, q ∈ zone_list (under_dev s2) (other_zone s) ↔ q ∈ last_records (under_dev s) (newest_zone s))).
  { destruct Hr2 as [[-> HS]|[-> Hl]]; eexists; (split; [done|]); [left|right]; (split; [done|]); [by eapply still_trans|].
    intros q. rewrite Hl. unfold last_records. by rewrite (still_zone_list _ _ _ H1). }
  destruct Hz as (z & -> & Hz).
  assert (Hzab : z = zone_a s ∨ z = zone_b s) by (destruct Hz as [[-> _]|[-> _]]; destruct (zones_pair s) as [[E5 E6]|[E5 E6]]; rewrite ?E5, ?E6; tauto).
  destruct (rooted_zones _ _ HR02) as (Ea2 & Eb2 & Hrz2 & _ & _).
  unfold sm_bind at 1, of_stored at 1 in E. destruct (on_blocks _ s2) as [r3 s3] eqn:E3.
  destruct (append_root_spec s2 z x r3 s3 Hok2 ltac:(by rewrite Ea2, Eb2) Hxb E3) as (Hok3 & HR3 & Hk3 & [[H3 (e & ->)]|[(at_ & ->) Hq3]]).
  { apply (Herr' e s3); [by eapply published_still|done]. }
  assert (HP3 : published s s3 w) by by eapply appended_published.
  unfold sm_bind at 1, of_stored at 1 in E. destruct (on_blocks _ s3) as [r4 s4] eqn:E4.
  destruct (flush_root_spec s3 r4 s4 Hok3 E4) as [H4 [(e & ->)| ->]].
  { apply (Herr' e s4); [by eapply published_still|done]. }
  pose proof (published_still _ _ _ _ HP3 H4) as HP4.
  unfold sm_bind, of_roots, Roots_adopt, Roots_adopt_states in E. destruct (rt_transient roots0 !! pb_set p) as [held|] eqn:L0.
  2:{ cbn in E. by apply (Herr' refusal_ADDRESS s4). }
  cbn in E. injection E as <- <- <-. split; [done|]. split; [done|].
  assert (Hw4 : w ∈ zone_list (under_dev s4) z) by (rewrite (still_zone_list _ _ _ H4); apply Hq3; by right).
  destruct (rooted_zones _ _ (pb_rooted _ _ _ HP4)) as (Ea4 & Eb4 & _).
  split; [unfold recorded; rewrite Ea4, Eb4; destruct Hzab as [<-| <-]; tauto|].
  split; [cbn; by rewrite P0|]. split; [cbn; apply lookup_delete_eq|].
  intros Hin Hnot q Hq. destruct Hz as [[-> HS]|[-> Hl]].
  - exfalso. apply Hnot. rewrite (still_zone_list _ _ _ H4) in Hin.
    rewrite (Hk3 (other_zone s)) in Hin; [by rewrite (still_zone_list _ _ _ HS) in Hin| |by apply not_eq_sym, pair_apart].
    apply Hrz2. destruct (zones_pair s) as [[_ ->]|[_ ->]]; apply Hok.
  - rewrite (still_zone_list _ _ _ H4), Hq3. left. by apply Hl.
Qed.
End publish.

(** ** Reading it back *)
Section latest.
Context {D : Type} `{HL : ZonedLaws D} (Hserve : reads_serve D).
Implicit Types (s : Store (ZoneMap D)).

Lemma latest_root_spec s best s' : Rooted_ok s → latest_root s = (Ok best, s') →
  match best with Some q => newest_record s q | None => ∀ q, ¬ recorded s q end.
Proof.
  intros Hok. unfold latest_root, sm_bind, sm_get. destruct (over_zone better (sb_root_zone_a _) None s) as [r1 s1] eqn:E1.
  apply (over_zone_spec Hserve) in E1 as [H1 [(e & ->)| ->]]; [done| |done|apply Hok]. intros E.
  destruct (rooted_zones _ _ (still_rooted _ _ H1)) as (_ & Eb1 & Hrz1 & _).
  apply (over_zone_spec Hserve) in E as [_ [(e & [=])|E]]; [|by eapply still_ok|apply Hrz1, Hok]. apply ok_inj in E.
  rewrite (still_zone_list _ _ _ H1), <- foldl_app in E.
  change (sb_root_zone_a (bs_superblock s)) with (zone_a s) in E. change (sb_root_zone_b (bs_superblock s)) with (zone_b s) in E.
  pose proof (best_from (zone_list (under_dev s) (zone_a s) ++ zone_list (under_dev s) (zone_b s)) None) as Hb. rewrite <- E in Hb.
  destruct best as [q|].
  - destruct Hb as ([?|Hq] & Hall & _); [done|]. unfold newest_record, recorded. split; [by apply elem_of_app|].
    intros q' Hq'. apply Hall, elem_of_app, Hq'.
  - destruct Hb as [_ Hnil]. apply app_nil in Hnil as [Ea Eb]. intros q. unfold recorded. rewrite Ea, Eb. rewrite !elem_of_nil. tauto.
Qed.
End latest.


(** *** A device with two root zones of thirty-two blocks *)
Lemma memory_serves : reads_serve ZonedMemory.
Proof. intros d b len r d' _ _ (e & _ & []). Qed.

Definition pub_layout : Superblock := superblock_for_this_build 512 4 16384 1 2.
Definition pub_zoned : res fault ZonedMemory := ZonedMemory_new 512 32 4.
Definition pub_blank : res fault (Store (ZoneMap ZonedMemory)) :=
  let? d := pub_zoned in
  let? m := ZoneMap_new d 3 in
  Store_format m pub_layout.

Definition pub_hash (b : Z) : list Z := replicate 32 b.
Definition pub_record (g : Z) : RootRecord := mkRootRecord g (pub_hash g) (pub_hash 2) (pub_hash 3) (pub_hash 4) (pub_hash 0).

(** A store, the set of an open publisher, and a publish of a generation. *)
Definition pub_commit (g : Z) (sr : Store (ZoneMap ZonedMemory) * Roots) : res fault RootRecord * (Store (ZoneMap ZonedMemory) * Roots) :=
  let '(s, roots) := sr in
  let '(p, roots) := Publisher_open s roots in
  Publisher_commit p (pub_record g) (s, roots).

Lemma pub_digests g : 0 ≤ g < 256 → Forall is_digest [rr_root (pub_record g); rr_frame (pub_record g); rr_module (pub_record g); rr_previous (pub_record g)].
Proof.
  intros Hg. assert (H : ∀ b, 0 ≤ b < 256 → is_digest (pub_hash b)).
  { intros b Hb. split; [unfold pub_hash; apply Forall_replicate; exact Hb|done]. }
  repeat (apply list.Forall_cons_2; [apply H; lia|]). apply list.Forall_nil_2.
Qed.

(** Everything the example says of a blank store, computed. *)
Definition pub_blank_facts (s : Store (ZoneMap ZonedMemory)) : bool :=
  bool_decide (zm_data_from (bs_device s) = 3) && bool_decide (zone_a s = 1) && bool_decide (zone_b s = 2) &&
  bool_decide (zmem_zone_blocks (under_dev s) = 32) && bool_decide (zmem_block_bytes (under_dev s) = 512) &&
  bool_decide (Store_block_bytes s = 512) &&
  forallb (λ b, bool_decide (view_block (under_dev s) b = None)) (seqZ 32 64).

Lemma pub_blank_computed s : pub_blank = Ok s → pub_blank_facts s = true.
Proof.
  intros E. assert (H : match pub_blank with Ok s => pub_blank_facts s | Err _ => false end = true) by (vm_compute; reflexivity).
  by rewrite E in H.
Qed.

Lemma pub_blank_mapped s : pub_blank = Ok s → Mapped_ok (bs_device s).
Proof.
  unfold pub_blank. destruct pub_zoned as [d|] eqn:Ed; rsimpl; [|done].
  destruct (ZonedMemory_new_ok 512 32 4 d) as [Hd _]; [lia|lia|cbv; split; congruence|done|].
  assert (Hdev : dev_ok d) by exact Hd.
  destruct (ZoneMap_new d 3) as [m|] eqn:Em; rsimpl; [|done]. intros Es.
  destruct (new_ok d 3 m Hdev ltac:(lia) Em) as (Hm & Ezd & Hp & _ & Hf & _ & _).
  assert (Hd' : d = match pub_zoned with Ok d => d | Err _ => d end) by by rewrite Ed.
  assert (Hg : zmem_block_bytes d = 512 ∧ zmem_zone_count d = 4 ∧ zmem_zone_blocks d = 32).
  { rewrite Hd'. by vm_compute. }
  destruct Hg as (G1 & G2 & G3).
  assert (Hn : ZoneMap_blocks m = 33).
  { unfold ZoneMap_blocks. destruct (mo_zb m Hm) as [-> _]. rewrite Ezd, Hf. cbn. by rewrite G2, G3. }
  apply format_spec in Es as (Hwf & _); [exact (so_device _ (wf_sound _ Hwf))| |].
  - cbn. constructor; rewrite ?Ezd, ?Hn; try done.
    + cbn. by rewrite G1.
    + intros l [b Hb]. rewrite Hp in Hb. apply lookup_singleton_Some in Hb as [<- <-]. lia.
    + intros l x Hx. unfold contents in Hx. rewrite Hp in Hx.
      destruct (decide (l = 0)) as [->|]; [|by rewrite lookup_singleton_ne in Hx].
      rewrite lookup_singleton_eq, Ezd in Hx. cbn [mbind option_bind] in Hx.
      assert (Hz : view_block d 0 = Some (zeroed 512)) by (rewrite Hd'; by vm_compute).
      rewrite Hz in Hx. injection Hx as <-. by apply Forall_replicate.
  - constructor; [done|done|..]; apply (bool_decide_unpack _); vm_compute; exact I.
Qed.

Lemma pub_blank_ok s : pub_blank = Ok s → Rooted_ok s ∧ ∀ q, ¬ recorded s q.
Proof.
  intros E. pose proof (pub_blank_computed s E) as Hc. unfold pub_blank_facts in Hc. rewrite !andb_true_iff, !bool_decide_eq_true, forallb_forall in Hc.
  destruct Hc as ((((((Ef & Ea) & Eb) & Ez) & Ebb) & Es) & Hnone).
  assert (Hv : ∀ z i, z = zone_a s ∨ z = zone_b s → 0 ≤ i < 32 → view_block (under_dev s) (z * 32 + i) = None).
  { intros z i Hz Hi. apply (bool_decide_eq_true (view_block (under_dev s) (z * 32 + i) = None)), Hnone, list_elem_of_In, elem_of_seqZ. lia. }
  assert (Hz : zone_blocks (under_dev s) = 32) by exact Ez.
  split.
  - split.
    + by apply pub_blank_mapped.
    + rewrite Es. by symmetry.
    + rewrite Es. by apply Z.leb_le.
    + split; [rewrite Ea, Ef; lia|rewrite Ea; done].
    + split; [rewrite Eb, Ef; lia|rewrite Eb; done].
    + lia.
    + intros z i x Hzz Hi. rewrite Hz in *. by rewrite Hv.
  - intros q. unfold recorded. rewrite !elem_of_zone_list, Hz. unfold root_in.
    intros [(i & Hi & E1)|(i & Hi & E1)]; rewrite Hv in E1; auto; done.
Qed.

(** A zone finished from below: what it holds is there still. *)
Lemma finish_rooted (s : Store (ZoneMap ZonedMemory)) z r s' : Rooted_ok s → 0 ≤ z → on_zoned (dev_finish z) s = (r, s') →
  Rooted_ok s' ∧ rooted s s' ∧ ∀ z', zone_list (under_dev s') z' = zone_list (under_dev s) z'.
Proof.
  intros Hok Hz E. destruct (rooted_geometry s Hok) as [_ Hm]. apply on_zoned_inv in E as (d1 & E & ->).
  assert (Hs : ∀ d', same_view (under_dev s) d' → Rooted_ok (on_dev s d') ∧ rooted s (on_dev s d') ∧
    ∀ z', zone_list (under_dev (on_dev s d')) z' = zone_list (under_dev s) z').
  { intros d' Hd. assert (HS : still s (on_dev s d')) by by exists d'.
    split; [by eapply still_ok|]. split; [by apply still_rooted|]. intros z'. by apply still_zone_list. }
  destruct (law_finish _ _ _ _ (mo_dev _ Hm) Hz E) as [[_ H]|[[_ H]|(_ & _ & Hd & Hg & Hv & Hw & _)]]; [by apply Hs|by apply Hs|].
  assert (HR : rooted s (on_dev s d1)).
  { exists d1. split; [done|]. split; [done|done|intros; apply Hv|intros; apply Hw]. }
  split; [|split; [done|]].
  - apply (rooted_ok s); [done|done|]. intros z' i x Hz' Hi. change (under_dev (on_dev s d1)) with d1. rewrite Hv. by apply (ro_bytes s Hok).
  - intros z'. unfold zone_list. change (under_dev (on_dev s d1)) with d1. destruct Hg as (_ & _ & -> & _).
    apply omap_same. intros b _. unfold root_in. by rewrite Hv.
Qed.

(** Two publishes, the zone in use finished between them. *)
Definition pub_run : option (res fault RootRecord * (Store (ZoneMap ZonedMemory) * Roots)) :=
  match pub_blank with
  | Ok s =>
      match pub_commit 7 (s, Roots_new) with
      | (Ok _, (s, roots)) => Some (pub_commit 9 ((on_zoned (dev_finish 1) s).2, roots))
      | _ => None
      end
  | Err _ => None
  end.

Lemma pub_run_computed : match pub_run with
  | Some (Ok w, (s, _)) => w = with_check (pub_record 9) ∧ zone_list (under_dev s) 2 = [with_check (pub_record 7); with_check (pub_record 9)]
  | _ => False end.
Proof. vm_compute. split; reflexivity. Qed.

