(* ===== verification/MountFacts.v ===== *)
(** * Walking a tree at a mount

    What a mounted store is, what a blob of it names, that the walk of a tree
    ends, and what it has seen when it answers yes. *)

From S2P Require Import Prelude Abi Bytes BTree StoreRecords BlockDevice ZoneDevice ZoneMap ZoneMapFacts ZoneTheorems ZoneMount ZoneStore StoreCodecs Sha256 Store StoreFacts StoreTheorems ZoneOps Roots Mark MarkFacts MarkTheorems Publish PublishFacts.
#[local] Open Scope Z_scope.

(** * Rebuilding a mapping over any device

    Over a device whose data zones are sequential and sealed only when full, a
    remount answers a mapping in good order that holds the blocks of those
    zones, whatever wrote them. *)

Section remount.
Context {D : Type} `{HL : ZonedLaws D} (d : D) (from : Z).

(** What is asked of the device. *)
Record Remountable : Prop := {
  rm_dev : dev_ok d;
  rm_from : 0 < from < zone_count d;
  rm_zb : 0 < zone_blocks d;
  rm_bb : 0 < block_bytes d;
  rm_count : 1 + (zone_count d - from) * zone_blocks d ≤ u64_max;
  rm_kind : ∀ z, from ≤ z < zone_count d → kind d z = SequentialWriteRequired;
  rm_sealed : ∀ z, from ≤ z < zone_count d → view_sealed d z = true → view_written d z = zone_blocks d;
  rm_bytes : ∀ b x, b = 0 ∨ from * zone_blocks d ≤ b → view_block d b = Some x → byte_list x;
}.

(** After the zones before [from + k], and [j] blocks of the next. *)
Record Scanned (k j logical : Z) (m : ZoneMap D) : Prop := {
  sn_view : same_view d (zm_device m);
  sn_zb : zm_zone_blocks m = zone_blocks d;
  sn_from : zm_data_from m = from;
  sn_inverse : ∀ l b, zm_physical m !! l = Some b ↔ zm_logical m !! b = Some l;
  sn_mapped : ∀ l b, zm_physical m !! l = Some b → (l = 0 ∧ b = 0) ∨
    (1 ≤ l < logical ∧ ∃ z i, b = z * zone_blocks d + i ∧ 0 ≤ i < view_written d z ∧ from ≤ z ∧
       (z < from + k ∨ z = from + k ∧ i < j));
  sn_zones : ∀ z, zm_zones m !! z = if decide (from ≤ z < zone_count d)
    then Some (zone_fresh z (if (z <? from + k) && (0 <? view_written d z) then StSealed else StFree)) else None;
  sn_rest : zm_open m = None ∧ zm_copies m = ∅;
}.

Context (HR : Remountable).

Lemma scanned_blocks n : ∀ k j logical m lg m', 0 ≤ k → 0 ≤ j → 1 ≤ logical ≤ 1 + k * zone_blocks d + j →
  j + Z.of_nat n ≤ view_written d (from + k) → from + k < zone_count d → Scanned k j logical m →
  remount_blocks n ((from + k) * zone_blocks d + j) logical m = (lg, m') →
  Scanned k (j + Z.of_nat n) lg m' ∧ lg = logical + Z.of_nat n.
Proof.
  induction n as [|n IH]; intros k j logical m lg m' Hk Hj Hlg Hw Hc Hs; cbn [remount_blocks].
  { intros [= <- <-]. by rewrite !Z.add_0_r. }
  pose proof (law_written d (from + k) (rm_dev HR)) as Hwr. set (at_ := (from + k) * zone_blocks d + j).
  set (m1 := with_maps _ _ m). destruct Hs as [V Zb Fr I P Zs R].
  assert (Hs1 : Scanned k (j + 1) (logical + 1) m1).
  { split; cbn; try done.
    - assert (Hl : zm_physical m !! logical = None).
      { destruct (zm_physical m !! logical) as [b|] eqn:E; [|done]. exfalso.
        destruct (P _ _ E) as [[? _]|[? _]]; lia. }
      assert (Hb : zm_logical m !! at_ = None).
      { destruct (zm_logical m !! at_) as [l|] eqn:E; [|done]. exfalso. apply I in E. pose proof (rm_from HR). pose proof (rm_zb HR).
        destruct (P _ _ E) as [[_ ?]|(_ & z & i & Eb & Hi & Hz & Hzk)]; [unfold at_ in *; nia|].
        pose proof (law_written d z (rm_dev HR)). unfold at_ in Eb. assert (z = from + k) by nia. subst z. assert (i = j) by lia. lia. }
      intros l b. destruct (decide (l = logical)) as [->|Hnl], (decide (b = at_)) as [->|Hnb];
        rewrite ?lookup_insert_eq, ?lookup_insert_ne by done; [done| | |apply I].
      + split; [congruence|]. intros L. apply I in L. congruence.
      + split; [|congruence]. intros L. apply I in L. congruence.
    - intros l b. destruct (decide (l = logical)) as [->|Hnl].
      + rewrite lookup_insert_eq. intros [= <-]. right. split; [lia|]. exists (from + k), j. split; [done|]. split; [lia|]. split; [lia|]. right. lia.
      + rewrite lookup_insert_ne by done. intros L. destruct (P _ _ L) as [?|(? & z & i & -> & Hi & Hz & Hzk)]; [by left|right].
        split; [lia|]. exists z, i. split; [done|]. split; [done|]. split; [done|]. lia. }
  intros E. replace (at_ + 1) with ((from + k) * zone_blocks d + (j + 1)) in E by (unfold at_; lia).
  apply IH in E as [Hs' ->]; [|lia|lia|lia|lia|lia|exact Hs1].
  replace (j + 1 + Z.of_nat n) with (j + Z.of_nat (S n)) in Hs' by lia. split; [|lia].
  by replace (logical + 1 + Z.of_nat n) with (logical + Z.of_nat (S n)) in * by lia.
Qed.

Lemma scanned_zones todo : ∀ k logical m r m', 0 ≤ k → 1 ≤ logical ≤ 1 + k * zone_blocks d →
  from + k + Z.of_nat todo = zone_count d → Scanned k 0 logical m →
  remount_zones todo (from + k) logical m = (r, m') →
  (∃ e, r = Err (Refused e)) ∨
  (r = Ok tt ∧ ∃ lg, 1 ≤ lg ≤ 1 + (zone_count d - from) * zone_blocks d ∧ Scanned (zone_count d - from) 0 lg m').
Proof.
  induction todo as [|todo IH]; intros k logical m r m' Hk Hlg Hc Hs; cbn [remount_zones].
  { intros [= <- <-]. right. split; [done|]. exists logical. replace (zone_count d - from) with k by lia. split; [done|exact Hs]. }
  unfold sm_bind, on_device. destruct (dev_report (from + k) (zm_device m)) as [r1 d1] eqn:E1.
  destruct Hs as [V Zb Fr I P Zs R]. pose proof V as (Hok & (_ & Hgc & Hgz & _) & _ & Hvw & Hvs). pose proof (rm_from HR).
  assert (Hz0 : 0 ≤ from + k) by lia. destruct (law_report _ _ _ _ Hok Hz0 E1) as [Hsv [(e & -> & _)|Hrep]].
  { intros [= <- <-]. left. by exists e. }
  rewrite Hgc in Hrep. destruct (Z.leb_spec (zone_count d) (from + k)); [lia|]. destruct Hrep as (rep & -> & Hst & Hptr & _).
  set (w := view_written d (from + k)). pose proof (law_written d (from + k) (rm_dev HR)) as Hw. fold w in Hw.
  assert (Hptr' : rep_write_pointer rep = (from + k) * zone_blocks d + w).
  { rewrite Hptr, Hgz, Hvs, Hvw. fold w. destruct (view_sealed d (from + k)) eqn:Hse; [|done]. f_equal. symmetry. by apply (rm_sealed HR); [lia|]. }
  assert (Hs1 : Scanned k 0 logical (with_device d1 m)).
  { split; cbn; try done. by eapply same_view_trans. }
  rewrite Hgz in Hst. rewrite Hst, Hptr'. replace (_ + w - _) with w by lia.
  destruct (remount_blocks (Z.to_nat w) _ logical (with_device d1 m)) as [lg m2] eqn:E2.
  replace ((from + k) * zone_blocks d) with ((from + k) * zone_blocks d + 0) in E2 by lia.
  apply scanned_blocks in E2 as [Hs2 ->]; [|lia|lia|lia|fold w; lia|lia|exact Hs1].
  replace (0 + Z.of_nat (Z.to_nat w)) with w in Hs2 by lia. intros E.
  replace (from + k + 1) with (from + (k + 1)) in E by lia.
  apply IH in E; [exact E|lia|nia|lia|]. destruct Hs2 as [V2 Zb2 Fr2 I2 P2 Zs2 R2].
  assert (Hzones : ∀ z, from ≤ z < zone_count d → (z <? from + (k + 1)) && (0 <? view_written d z) =
    if z =? from + k then 0 <? w else (z <? from + k) && (0 <? view_written d z)).
  { intros z Hz. destruct (Z.eqb_spec z (from + k)) as [->|].
    - destruct (Z.ltb_spec (from + k) (from + (k + 1))); [done|lia].
    - f_equal. destruct (Z.ltb_spec z (from + (k + 1))), (Z.ltb_spec z (from + k)); done || lia. }
  assert (Hmapped : ∀ l b, zm_physical m2 !! l = Some b → (l = 0 ∧ b = 0) ∨
    (1 ≤ l < logical + Z.of_nat (Z.to_nat w) ∧ ∃ z i, b = z * zone_blocks d + i ∧ 0 ≤ i < view_written d z ∧ from ≤ z ∧
       (z < from + (k + 1) ∨ z = from + (k + 1) ∧ i < 0))).
  { intros l b L. destruct (P2 l b L) as [?|(? & z & i & -> & Hi & Hz & Hzk)]; [by left|right]. split; [done|].
    exists z, i. split; [done|]. split; [done|]. split; [done|]. left. lia. }
  destruct (Z.ltb_spec ((from + k) * zone_blocks d) ((from + k) * zone_blocks d + w)) as [Hpos|Hzero].
  - split; cbn; try done. intros z. destruct (decide (z = from + k)) as [->|Hne].
    + rewrite lookup_insert_eq, decide_True, Hzones, Z.eqb_refl by lia. by destruct (Z.ltb_spec 0 w); [|lia].
    + rewrite lookup_insert_ne, Zs2 by done. destruct (decide _) as [Hin|]; [|done]. rewrite Hzones by done.
      by destruct (Z.eqb_spec z (from + k)).
  - split; try done. intros z. rewrite Zs2. destruct (decide _) as [Hin|]; [|done]. rewrite Hzones by done.
    destruct (Z.eqb_spec z (from + k)) as [->|]; [|done]. fold w.
    destruct (Z.ltb_spec (from + k) (from + k)); [lia|]. by destruct (Z.ltb_spec 0 w); [lia|].
Qed.

Lemma scanned_ok lg m : 1 ≤ lg ≤ 1 + (zone_count d - from) * zone_blocks d → Scanned (zone_count d - from) 0 lg m → Mapped_ok m.
Proof.
  intros Hlg [V Zb Fr I P Zs [Ho Hc]]. pose proof V as (Hok & (Hbb & Hgc & Hgz & Hgk) & Hv & Hvw & Hvs).
  pose proof (rm_from HR) as Hfr. pose proof (rm_zb HR) as Hzb.
  assert (Hin : ∀ l b, zm_physical m !! l = Some b → b = 0 ∨ in_data m b).
  { intros l b L. destruct (P l b L) as [[_ ->]|(_ & z & i & -> & Hi & Hz & Hzk)]; [by left|right].
    pose proof (law_written d z (rm_dev HR)) as Hw. exists z, i. rewrite Zb, Fr, Hgc, Hgk, Hvw.
    split; [done|]. split; [lia|]. split; [lia|]. split; [apply (rm_kind HR); lia|lia]. }
  assert (Hmap : Map_ok m).
  { split.
    - done.
    - by rewrite Zb, Hgz.
    - by rewrite Fr, Hgc.
    - exact I.
    - exact Hin.
    - intros z. rewrite Zs, Fr, Hgc. destruct (decide _); split; try done; by intros [? ?].
    - intros z Z. rewrite Zs. destruct (decide _); [by intros [= <-]|done].
    - intros z i Hf Hi. rewrite Zb in *. destruct (zm_logical m !! _) as [l|] eqn:L; [|done]. exfalso.
      apply I in L. unfold state_of in Hf. rewrite Zs in Hf. destruct (decide _) as [Hz|]; [|done]. cbn in Hf.
      destruct (Z.ltb_spec z (from + (zone_count d - from))); [|lia]. cbn [andb] in Hf.
      destruct (Z.ltb_spec 0 (view_written d z)); [done|].
      destruct (P _ _ L) as [[_ E]|(_ & z' & i' & E & Hi' & Hz' & _)]; [nia|].
      pose proof (law_written d z' (rm_dev HR)). assert (z' = z) as -> by nia. lia.
    - intros z. by rewrite Ho.
    - intros l to. by rewrite Hc, lookup_empty.
    - intros l1 l2 to. by rewrite Hc, lookup_empty. }
  assert (En : ZoneMap_blocks m = 1 + (zone_count d - from) * zone_blocks d) by (unfold ZoneMap_blocks; by rewrite Fr, Hgc, Zb).
  split.
  - done.
  - rewrite Hbb. apply HR.
  - rewrite En. apply HR.
  - intros l [b L]. rewrite En. destruct (P l b L) as [[-> _]|[? _]]; nia.
  - intros l x. unfold contents. destruct (zm_physical m !! l) as [b|] eqn:L; [|done]. cbn. rewrite Hv. apply (rm_bytes HR).
    destruct (P l b L) as [[_ ->]|(_ & z & i & -> & Hi & Hz & _)]; [by left|right; nia].
Qed.

Lemma remount_ok r : ZoneMap_remount d from = r →
  (∃ e, r = Err (Refused e)) ∨
  ∃ m, r = Ok m ∧ Mapped_ok m ∧ same_view d (zm_device m) ∧ zm_data_from m = from.
Proof.
  intros <-. unfold ZoneMap_remount. pose proof (rm_from HR) as Hfr. pose proof (rm_zb HR) as Hzb.
  destruct (ZoneMap_new d from) as [mi|e] eqn:Hnew; rsimpl.
  2:{ left. revert Hnew. unfold ZoneMap_new. destruct (_ || _); [intros [= <-]; by eexists|]. destruct (_ =? _); [intros [= <-]; by eexists|done]. }
  destruct (new_ok d from mi (rm_dev HR) ltac:(lia) Hnew) as (Hmi & Ed & Ep & Ec & Ef & Eo & _).
  assert (Hzn : zm_zones mi = fresh_zones from (zone_count d) ∧ zm_zone_blocks mi = zone_blocks d).
  { revert Hnew. unfold ZoneMap_new. destruct (_ || _); [done|]. destruct (_ =? _); [done|]. by intros [= <-]. }
  destruct Hzn as (Hzn & Hzbi). destruct (remount_zones _ from 1 mi) as [r m2] eqn:E.
  rewrite <- (Z.add_0_r from) in E at 2.
  apply (scanned_zones (Z.to_nat (zone_count d - from)) 0) in E as [(e & ->)|(-> & lg & Hlg & Hs)]; [left; by exists e| |lia|lia|lia|].
  - right. exists m2. split; [done|]. split; [by eapply scanned_ok|]. split; [apply Hs|apply Hs].
  - split.
    + rewrite Ed. split; [apply HR|]. split; [apply same_geometry_refl|done].
    + done.
    + done.
    + exact (mo_inverse mi Hmi).
    + intros l b. rewrite Ep, lookup_singleton_Some. intros [<- <-]. by left.
    + intros z. rewrite Hzn, fresh_zones_lookup. destruct (decide _); [|done]. by destruct (Z.ltb_spec z (from + 0)); [lia|].
    + done.
Qed.
End remount.

(** ** A mounted store, whatever reads the device refuses *)
Section sound.
Context {D : Type} `{HL : DeviceLaws D}.
Implicit Types (d : D).

Lemma read_answer d b n x d' : blk_ok d → 0 ≤ b → blk_read b n d = (Ok x, d') →
  same_blocks d d' ∧ 0 ≤ b < blk_count d ∧ n = blk_bytes d ∧ x = blk_view d b.
Proof.
  intros Hd Hb E. apply BlockDevice.law_read in E as [Hs Hr]; [|done|done]. split; [done|].
  destruct Hr as [(e & [=] & _)|[([? ?] & Ex)|[_ [=]]]]. by apply ok_inj in Ex.
Qed.

Record Scan_ok (count : Z) (l : gmap (list Z) Z) (free at_ : Z) : Prop := {
  sc_at : 1 ≤ at_;
  sc_free : 1 ≤ free ≤ count;
  sc_past : free ≤ at_;
  sc_located : ∀ h b, l !! h = Some b → 1 ≤ b < free;
}.

Lemma scan_sound fuel : ∀ d l free at_ d' l' free', blk_ok d → Scan_ok (blk_count d) l free at_ →
  mount_scan fuel (blk_bytes d) (blk_count d) d l free at_ = Ok (d', l', free') →
  same_blocks d d' ∧ ∃ at', Scan_ok (blk_count d) l' free' at'.
Proof.
  induction fuel as [|fuel IH]; intros d l free at_ d' l' free' Hd Hs; cbn [mount_scan].
  { destruct (_ <? _); [done|]. intros [= <- <- <-]. split; [done|by exists at_]. }
  destruct (Z.ltb_spec at_ (blk_count d)) as [Hlt|]; [|intros [= <- <- <-]; split; [done|by exists at_]].
  pose proof Hs as [Ha Hf Hp Hl]. destruct (blk_read at_ (blk_bytes d) d) as [r d1] eqn:E.
  assert (Hb : same_blocks d d1) by (by apply BlockDevice.law_read in E as [? _]; [|done|lia]).
  pose proof Hb as [(Ho1 & Eb1 & Ec1) _].
  assert (Hskip : mount_scan fuel (blk_bytes d) (blk_count d) d1 l free (at_ + 1) = Ok (d', l', free') →
    same_blocks d d' ∧ ∃ at', Scan_ok (blk_count d) l' free' at').
  { intros Em. rewrite <- Eb1, <- Ec1 in Em. apply IH in Em as [? H2]; [|done|].
    - split; [by eapply same_blocks_trans|]. by rewrite Ec1 in H2.
    - rewrite Ec1. split; [lia|lia|lia|done]. }
  destruct r as [block|[code|]]; [|exact Hskip|done].
  destruct (header_at block) as [hd|] eqn:Eh; [|exact Hskip]. destruct (u64_max <? _); [exact Hskip|].
  apply read_answer in E as (_ & Hr & _ & ->); [|done|lia].
  destruct (law_view d at_ Hd Hr) as [Hvb _]. destruct (header_at_valid _ _ Hvb Eh) as [_ _ Hc _].
  destruct (law_shape d Hd) as [[_ Hmax] Hbb].
  destruct (saturating_next (blk_bytes d) (blk_count d) Hbb (conj (Z.le_trans _ _ _ (proj1 Hf) (proj2 Hf)) Hmax) at_ hd Hlt ltac:(apply Hc)) as [Hn _].
  cbn zeta in Hn. unfold header_span in Hn. intros Em. rewrite <- Eb1, <- Ec1 in Em. rewrite <- Eb1 in Hn.
  apply IH in Em as [? H2]; [|done|].
  - split; [by eapply same_blocks_trans|]. by rewrite Ec1 in H2.
  - rewrite Ec1. split; [lia|lia|lia|]. intros h b. unfold or_insert. destruct (l !! hdr_hash hd) as [b0|] eqn:L.
    + intros L'. destruct (Hl _ _ L'). lia.
    + destruct (decide (h = hdr_hash hd)) as [->|]; [rewrite lookup_insert_eq; intros [= <-]; lia|].
      rewrite lookup_insert_ne by done. intros L'. destruct (Hl _ _ L'). lia.
Qed.

Lemma mount_sound d s : blk_ok d → 1 ≤ blk_count d → Store_mount d = Ok s → Store_sound s ∧ same_blocks d (bs_device s).
Proof.
  intros Hd Hc. unfold Store_mount. destruct (blk_read 0 _ d) as [r d1] eqn:R. destruct r as [block|]; [|done].
  apply read_answer in R as (Hs1 & Hr & _ & ->); [|done|lia]. destruct (law_view d 0 Hd Hr) as [_ Hvl].
  destruct (Nat.ltb_spec (length (blk_view d 0)) Superblock_BYTES) as [|Hlen]; [done|].
  destruct (or_refuse (Superblock_from_bytes _)) as [sb|]; cbn [res_bind]; [|done].
  destruct (Z.eqb_spec (sb_block_bytes sb) (blk_bytes d)) as [Ebb|]; cbn [negb]; [|done].
  destruct (or_refuse (refuse_a_chunker_that_moved sb)); cbn [res_bind]; [|done].
  pose proof Hs1 as [(Ho1 & Eb1 & Ec1) _]. rewrite <- Eb1 in *.
  destruct (mount_scan _ _ _ d1 ∅ 1 1) as [[[d2 l] free]|] eqn:Em; cbn [res_bind]; [|done]. intros <-%ok_inj.
  apply scan_sound in Em as [Hs2 (at' & [_ Hf _ Hl])]; [|done|].
  2:{ split; [lia|lia|lia|]. intros h b. by rewrite lookup_empty. }
  pose proof Hs2 as [(Ho2 & Eb2 & Ec2) _]. split; [|by eapply same_blocks_trans].
  split; unfold Store_block_bytes; cbn; [done|congruence|rewrite Ebb, <- Hvl; lia|by rewrite Ec2|exact Hl].
Qed.
End sound.

(** ** Reading leaves the zoned device as it was *)
Section walk.
Context {D : Type} `{HL : ZonedLaws D}.
Implicit Types (s : Store (ZoneMap D)).

Definition seen_same (m m' : ZoneMap D) : Prop := Map_ok m → ∃ d', m' = with_device d' m ∧ same_view (zm_device m) d'.

#[global] Instance seen_same_preorder : PreOrder seen_same.
Proof.
  split.
  - intros m Hm. exists (zm_device m). split; [by destruct m|]. split; [apply Hm|by split_and!].
  - intros m1 m2 m3 H12 H23 Hm. destruct (H12 Hm) as (d2 & -> & V2). destruct (H23 (same_view_ok _ _ Hm V2)) as (d3 & -> & V3).
    exists d3. split; [done|]. by eapply same_view_trans.
Qed.

Lemma seen_same_read b n (m : ZoneMap D) r m' : blk_read b n m = (r, m') → seen_same m m'.
Proof.
  cbn. unfold ZoneMap_read. destruct (zm_physical m !! b) as [at_|] eqn:P; [|intros [= _ <-]; reflexivity].
  unfold on_device. destruct (dev_read at_ n (zm_device m)) as [r1 d1] eqn:E. intros [= _ <-] Hm. exists d1. split; [done|].
  assert (Hat : 0 ≤ at_) by (destruct (mo_home m Hm b at_ P) as [->|Hi]; [done|]; by apply Z.lt_le_incl, (in_data_pos m)).
  by destruct (ZoneDevice.law_read _ _ _ _ _ (mo_dev m Hm) Hat E).
Qed.

Lemma scan_seen fuel bb count : ∀ (m : ZoneMap D) l free at_ m' l' free',
  mount_scan fuel bb count m l free at_ = Ok (m', l', free') → seen_same m m'.
Proof.
  induction fuel as [|fuel IH]; intros m l free at_ m' l' free'; cbn [mount_scan].
  { destruct (_ <? _); [done|]. by intros [= <- _ _]. }
  destruct (_ <? _); [|by intros [= <- _ _]]. destruct (blk_read _ _ m) as [r m1] eqn:E. apply seen_same_read in E.
  destruct r as [block|[code|]]; [|intros Em; apply IH in Em; by transitivity m1|done].
  destruct (header_at block); [|intros Em; apply IH in Em; by transitivity m1].
  destruct (_ <? _); intros Em; apply IH in Em; by transitivity m1.
Qed.

Lemma mount_seen (m : ZoneMap D) s : Store_mount m = Ok s → seen_same m (bs_device s).
Proof.
  unfold Store_mount. destruct (blk_read 0 _ m) as [[block|] m1] eqn:R; [|done]. apply seen_same_read in R.
  destruct (_ <? _)%nat; [done|]. destruct (or_refuse _) as [sb|]; cbn [res_bind]; [|done].
  destruct (negb _); [done|]. destruct (or_refuse _); cbn [res_bind]; [|done].
  destruct (mount_scan _ _ _ m1 ∅ 1 1) as [[[m2 l] free]|] eqn:Em; cbn [res_bind]; [|done]. intros <-%ok_inj.
  apply scan_seen in Em. cbn. by transitivity m1.
Qed.

Lemma still_of s s' : Store_sound s → same_store s s' → seen_same (bs_device s) (bs_device s') → still s s'.
Proof.
  intros Hs (_ & E1 & E2 & E3) HR. destruct (HR (sound_map s Hs)) as (d' & Ed & V). exists d'. split; [|done].
  unfold on_dev, on_device_of. destruct s'. cbn in *. by subst.
Qed.

(** *** What a blob names *)
Definition blob_children s (h : list Z) : option (list (list Z)) :=
  match bs_located s !! h with
  | None => None
  | Some b =>
      match header_in (blk_view (bs_device s) b) h with
      | Err _ => None
      | Ok hd =>
          let c := claimed_bytes s b (Z.to_nat (hdr_content_bytes hd)) in
          if decide (blk_count (bs_device s) < b + header_span (Store_block_bytes s) hd) then None
          else if decide (sha256 c = h) then children_of (hdr_kind hd) c else None
      end
  end.

(** A header that claims more than a buffer can have. *)
Definition oversized s (h : list Z) : Prop := ∃ b hd, bs_located s !! h = Some b ∧
  header_in (blk_view (bs_device s) b) h = Ok hd ∧ isize_max < hdr_content_bytes hd.

Lemma claimed_same s s' b n : same_store s s' → claimed_bytes s' b n = claimed_bytes s b n.
Proof.
  intros ([_ Hv] & Esb & _). unfold claimed_bytes, Store_block_bytes. rewrite Esb. do 2 f_equal.
  apply raw_of_same. intros b' _. apply Hv.
Qed.

Lemma blob_children_same s s' h : same_store s s' → blob_children s' h = blob_children s h.
Proof.
  intros HS. pose proof HS as ([(_ & _ & Ec) Hv] & Esb & _ & El). unfold blob_children. rewrite El, Ec. unfold Store_block_bytes. rewrite Esb.
  destruct (bs_located s !! h) as [b|]; [|done]. rewrite Hv. destruct (header_in _ h); [|done]. by rewrite (claimed_same s s').
Qed.

Lemma oversized_same s s' h : same_store s s' → oversized s' h → oversized s h.
Proof. intros ([_ Hv] & _ & _ & El) (b & hd & L & Eh & Hc). exists b, hd. rewrite <- El, <- Hv. done. Qed.

Lemma resolve_one_spec s h r s' : Store_sound s → resolve_one h s = (r, s') →
  same_store s s' ∧ still s s' ∧
  match r with
  | Ok (Some cs) => blob_children s h = Some cs
  | Ok None => True
  | Err e => e = Panicked ∧ oversized s h
  end.
Proof.
  intros Hs. unfold resolve_one. destruct (Store_head h s) as [r1 s1] eqn:E1.
  pose proof (still_of s s1 Hs (proj1 (Store_head_spec s h r1 s1 Hs E1)) (framed_head seen_same seen_same_read h s r1 s1 E1)) as HS1.
  apply Store_head_spec in E1 as [Hsame1 Hr1]; [|done]. pose proof (same_store_sound _ _ Hs Hsame1) as Hs1.
  destruct r1 as [hd|[code|]].
  2:{ intros [= <- <-]. done. }
  2:{ exfalso. destruct Hr1 as [(e & [= <-] & [? [=]])|Hr1]. destruct (bs_located s !! h); [|done]. by destruct (header_in _ _). }
  assert (Hh : ∃ b, bs_located s !! h = Some b ∧ header_in (blk_view (bs_device s) b) h = Ok hd).
  { destruct Hr1 as [(e & [=] & _)|Hr1]. destruct (bs_located s !! h) as [b|]; [|done]. exists b. split; [done|].
    destruct (header_in _ _); [by apply ok_inj in Hr1 as ->|done]. }
  destruct Hh as (b & L & Eh). destruct (with_buffer _ _ s1) as [r2 s2] eqn:E2.
  pose proof (framed_get_buffer seen_same seen_same_read h _ s1 r2 s2 E2) as HR2.
  unfold with_buffer in E2. destruct (Z.ltb_spec isize_max (hdr_content_bytes hd)) as [Hbig|Hfits].
  { injection E2 as <- <-. intros [= <- <-]. split; [done|]. split; [done|]. split; [done|]. by exists b, hd. }
  destruct (Store_get h (s1, _)) as [r3 [s3 content]] eqn:E3. injection E2 as <- <-.
  apply Store_get_spec in E3 as (Hsame2 & _ & Hg); [|done]. pose proof (still_of _ _ Hs1 Hsame2 HR2) as HS2.
  pose proof (same_store_trans _ _ _ Hsame1 Hsame2) as Hsame. pose proof (still_trans _ _ _ HS1 HS2) as HS.
  destruct r3 as [n|[code|]].
  - intros [= <- <-]. split; [done|]. split; [done|].
    destruct (children_of (hdr_kind hd) content) as [cs|] eqn:Ek; [|done].
    destruct Hg as [(e & [=] & _)|Hg]. unfold get_answer in Hg.
    pose proof Hsame1 as ([(_ & _ & Ec) Hv] & Esb & _ & El). rewrite El, L, Hv, Eh in Hg. cbv zeta in Hg.
    case_decide; [done|]. case_decide as Hend; [done|]. rewrite (claimed_same s s1 _ _ Hsame1) in Hg.
    destruct Hg as (Econ & Hlen & Eans). case_decide as Hd; [|done]. unfold blob_children. rewrite L, Eh. cbv zeta.
    rewrite Ec in Hend. unfold Store_block_bytes in *. rewrite Esb in Hend. rewrite decide_False by done. rewrite decide_True by done.
    rewrite <- Ek. f_equal. rewrite Econ, drop_ge, app_nil_r; [done|]. unfold zeroed. rewrite length_replicate. done.
  - intros [= <- <-]. done.
  - exfalso. destruct Hg as [(e & [= <-] & [? [=]])|Hg]. unfold get_answer in Hg.
    destruct (bs_located s1 !! h) as [b1|]; [|done]. destruct (header_in (blk_view (bs_device s1) b1) h); [|done]. cbv zeta in Hg.
    case_decide; [done|]. case_decide; [done|]. destruct Hg as (_ & _ & Hg). by case_decide.
Qed.

(** *** The tree under a root *)
Definition child s (h h' : list Z) : Prop := ∃ cs, blob_children s h = Some cs ∧ h' ∈ cs.
Definition tree_resolves s (root : list Z) : Prop := ∀ h, rtc (child s) root h → is_Some (blob_children s h).

(** Somewhere in the tree a blob did not read as one. *)
Definition did_not_resolve s (root : list Z) : Prop := ∃ h s1 s2, rtc (child s) root h ∧ same_store s s1 ∧ resolve_one h s1 = (Ok None, s2).

Lemma child_same s s' : same_store s s' → ∀ h h', child s' h h' ↔ child s h h'.
Proof. intros HS h h'. unfold child. by rewrite (blob_children_same s s' h HS). Qed.

(** *** How many turns a walk can take *)
Definition names_of s (h : list Z) : nat := length (default [] (blob_children s h)).
Definition names_left s (seen : gset (list Z)) : nat := sum_list (names_of s <$> elements (dom (bs_located s) ∖ seen)).
Definition walk_bound s : nat := S (names_left s ∅).

Lemma names_left_seen s seen h : h ∉ seen → is_Some (bs_located s !! h) →
  names_left s seen = (names_of s h + names_left s ({[h]} ∪ seen))%nat.
Proof.
  intros Hn Hl. apply elem_of_dom in Hl. unfold names_left.
  assert (E : dom (bs_located s) ∖ seen = {[h]} ∪ (dom (bs_located s) ∖ ({[h]} ∪ seen))).
  { apply set_eq. intros x. rewrite !elem_of_difference, !elem_of_union, !elem_of_difference, elem_of_union, elem_of_singleton.
    destruct (decide (x = h)) as [->|]; tauto. }
  rewrite E at 1. rewrite (elements_union_singleton _ h) by set_solver. done.
Qed.

Lemma names_left_same s s' seen : same_store s s' → names_left s' seen = names_left s seen.
Proof.
  intros HS. unfold names_left. pose proof HS as (_ & _ & _ & ->). f_equal. apply list_fmap_ext. intros i h _. unfold names_of.
  by rewrite (blob_children_same s s' h HS).
Qed.

(** What the walk has done so far. *)
Record Walked_tree s (root : list Z) (seen : gset (list Z)) (pending : list (list Z)) : Prop := {
  wt_root : root ∈ seen ∨ root ∈ pending;
  wt_seen : ∀ h, h ∈ seen → is_Some (blob_children s h);
  wt_closed : ∀ h h', h ∈ seen → child s h h' → h' ∈ seen ∨ h' ∈ pending;
  wt_reached : ∀ h, h ∈ pending → rtc (child s) root h;
}.

Lemma closed_resolves s (root : list Z) (seen : gset (list Z)) : Walked_tree s root seen [] → tree_resolves s root.
Proof.
  intros [Hroot Hseen Hcl _] h Hh. apply Hseen. assert (Hr : root ∈ seen) by (destruct Hroot as [?|?%elem_of_nil]; done).
  clear Hroot. induction Hh as [x|x y z Hxy _ IHh]; [done|]. apply IHh. by destruct (Hcl x y Hr Hxy) as [?|?%elem_of_nil].
Qed.

Lemma located_of_children s h cs : blob_children s h = Some cs → is_Some (bs_located s !! h).
Proof. unfold blob_children. destruct (bs_located s !! h); [by eexists|done]. Qed.

Lemma resolves_spec s (root : list Z) fuel : ∀ seen pending s1, Store_sound s1 → same_store s s1 → Walked_tree s root seen pending →
  match resolves fuel seen pending s1 with
  | None => (fuel < length pending + names_left s seen)%nat
  | Some (r, s2) => same_store s s2 ∧ still s1 s2 ∧
      match r with
      | Ok true => tree_resolves s root
      | Ok false => did_not_resolve s root
      | Err e => e = Panicked ∧ ∃ h, rtc (child s) root h ∧ oversized s h
      end
  end.
Proof.
  induction fuel as [|fuel IH]; intros seen pending s1 Hs1 HS HW; destruct pending as [|h pending]; cbn [resolves].
  1,3: (split; [done|]; split; [apply still_refl; by apply sound_map|by eapply closed_resolves]).
  { cbn [length]. lia. }
  destruct HW as [Hroot Hseen Hcl Hre]. case_bool_decide as Hin.
  { assert (HW' : Walked_tree s root seen pending).
    { split; [| |intros x y Hx Hxy; destruct (Hcl x y Hx Hxy) as [?|[->|?]%elem_of_cons]; auto|intros x Hx; by apply Hre, list_elem_of_further].
      - destruct Hroot as [?|[->|?]%elem_of_cons]; auto.
      - done. }
    specialize (IH seen pending s1 Hs1 HS HW'). destruct (resolves fuel seen pending s1) as [[r s2]|]; [done|]. cbn [length]. lia. }
  destruct (resolve_one h s1) as [r s2] eqn:E. destruct (resolve_one_spec s1 h r s2 Hs1 E) as (HS2 & Hst & Hr).
  pose proof (same_store_trans _ _ _ HS HS2) as HS02. assert (Hrh : rtc (child s) root h) by apply Hre, list_elem_of_here.
  destruct r as [[cs|]|e].
  - rewrite (blob_children_same s s1 h HS) in Hr.
    assert (HW' : Walked_tree s root ({[h]} ∪ seen) (reverse cs ++ pending)).
    { split.
      - rewrite elem_of_union, elem_of_singleton, elem_of_app, elem_of_reverse. destruct Hroot as [?|[->|?]%elem_of_cons]; tauto.
      - intros x [->%elem_of_singleton|Hx]%elem_of_union; [by eexists|by apply Hseen].
      - intros x y Hx Hxy. rewrite elem_of_union, elem_of_singleton, elem_of_app, elem_of_reverse.
        apply elem_of_union in Hx as [->%elem_of_singleton|Hx].
        + destruct Hxy as (cs' & Ecs & Hy). rewrite Hr in Ecs. injection Ecs as <-. tauto.
        + destruct (Hcl x y Hx Hxy) as [?|[->|?]%elem_of_cons]; tauto.
      - intros x [Hx|Hx]%elem_of_app; [|by apply Hre, list_elem_of_further].
        rewrite elem_of_reverse in Hx. eapply rtc_r; [exact Hrh|]. exists cs. exact (conj Hr Hx). }
    specialize (IH _ _ s2 (same_store_sound _ _ Hs1 HS2) HS02 HW').
    destruct (resolves fuel _ _ s2) as [[r s3]|].
    + destruct IH as (H1 & H2 & H3). split; [done|]. split; [by eapply still_trans|done].
    + rewrite length_app, length_reverse in IH. cbn [length].
      rewrite (names_left_seen s seen h Hin (located_of_children s h cs Hr)). unfold names_of. rewrite Hr. cbn [from_option id]. lia.
  - split; [done|]. split; [done|]. by exists h, s1, s2.
  - split; [done|]. split; [done|]. destruct Hr as [-> Ho]. split; [done|]. exists h. split; [done|]. exact (oversized_same s s1 h HS Ho).
Qed.
End walk.
