(* ===== verification/MountTheorems.v ===== *)
(** * What a mount accepts

    The newest record whose tree resolves, and nothing newer that does; or
    nothing, when no record's tree does. *)

From S2P Require Import Prelude Abi Bytes BTree StoreRecords StoreCodecs BlockDevice Sha256 Store StoreFacts StoreTheorems ZoneDevice ZoneDeviceFacts ZoneMap ZoneMapFacts ZoneOps ZoneMount ZoneStore MountFacts Roots Mark MarkFacts Publish PublishFacts PublishTheorems.
From stdpp Require Import sorting.
#[local] Open Scope Z_scope.

Lemma foldl_snoc {A} (l : list A) : ∀ acc, foldl (λ out found, out ++ [found]) acc l = acc ++ l.
Proof. induction l as [|x l IH]; intros acc; cbn [foldl]; [by rewrite app_nil_r|]. by rewrite IH, <- app_assoc. Qed.

(** ** One of each generation, in order *)
Definition generation_lt (a b : RootRecord) : Prop := rr_generation a < rr_generation b.

#[global] Instance generation_le_trans : Transitive generation_le.
Proof. intros a b c. unfold generation_le. lia. Qed.
#[global] Instance generation_le_total : Total generation_le.
Proof. intros a b. unfold generation_le. lia. Qed.

Lemma dedup_spec l : ∀ kept, StronglySorted generation_le l → (∀ k x, kept = Some k → x ∈ l → rr_generation k ≤ rr_generation x) →
  StronglySorted generation_lt (dedup_generations kept l) ∧
  (∀ k x, kept = Some k → x ∈ dedup_generations kept l → rr_generation k < rr_generation x) ∧
  (∀ x, x ∈ dedup_generations kept l → x ∈ l) ∧
  (∀ x, x ∈ l → (∃ k, kept = Some k ∧ rr_generation k = rr_generation x) ∨ ∃ y, y ∈ dedup_generations kept l ∧ rr_generation y = rr_generation x).
Proof.
  induction l as [|r l IH]; intros kept Hs Hk; cbn [dedup_generations].
  { split; [constructor|]. split; [by intros k x _ ?%elem_of_nil|]. split; by intros x ?%elem_of_nil. }
  inversion Hs as [|? ? Hsl Hall]; subst. rewrite list.Forall_forall in Hall.
  destruct (from_option (λ k, rr_generation k =? rr_generation r) false kept) eqn:Ek.
  - destruct kept as [k|]; [|done]. cbn in Ek. apply Z.eqb_eq in Ek.
    destruct (IH (Some k) Hsl) as (H1 & H2 & H3 & H4); [intros k' x E Hx; by apply Hk; [|apply list_elem_of_further]|].
    split; [done|]. split; [done|]. split; [intros x Hx; by apply list_elem_of_further, H3|].
    intros x [->|Hx]%elem_of_cons; [left; by exists k|by apply H4].
  - destruct (IH (Some r) Hsl) as (H1 & H2 & H3 & H4); [intros k x [= <-] Hx; by apply Hall|].
    split; [|split; [|split]].
    + constructor; [done|]. apply list.Forall_forall. intros x Hx. by apply H2.
    + intros k x -> Hx. cbn in Ek. apply Z.eqb_neq in Ek. pose proof (Hk k r eq_refl (list_elem_of_here _ _)) as Hkr.
      apply elem_of_cons in Hx as [->|Hx]; [lia|]. specialize (H2 r x eq_refl Hx). lia.
    + intros x [->|Hx]%elem_of_cons; [apply list_elem_of_here|by apply list_elem_of_further, H3].
    + intros x [->|Hx]%elem_of_cons; right.
      * exists r. split; [apply list_elem_of_here|done].
      * destruct (H4 x Hx) as [(k & [= <-] & E)|(y & Hy & E)]; [exists r; split; [apply list_elem_of_here|done]|].
        exists y. split; [by apply list_elem_of_further|done].
Qed.

(** A strictly decreasing list is split at an element by its generation. *)
Lemma decreasing_split pre q post x : StronglySorted (flip generation_lt) (pre ++ q :: post) →
  x ∈ pre ++ q :: post → (x ∈ pre ↔ rr_generation q < rr_generation x).
Proof.
  intros Hs Hx. assert (Hpre : ∀ y, y ∈ pre → rr_generation q < rr_generation y).
  { intros y Hy. apply (StronglySorted_app_1_elem_of _ pre (q :: post) y q Hs Hy), list_elem_of_here. }
  split; [apply Hpre|]. intros Hlt. apply elem_of_app in Hx as [?|[->|Hpost]%elem_of_cons]; [done|lia|].
  apply StronglySorted_app_1_r in Hs. inversion Hs as [|? ? _ Hall]; subst. rewrite list.Forall_forall in Hall.
  specialize (Hall x Hpost). unfold flip, generation_lt in Hall. lia.
Qed.

Lemma decreasing_NoDup l : StronglySorted (flip generation_lt) l → NoDup l.
Proof.
  induction 1 as [|x l Hl IH Hall]; [constructor|]. apply list.NoDup_cons. split; [|done]. intros Hx.
  rewrite list.Forall_forall in Hall. specialize (Hall x Hx). unfold flip, generation_lt in Hall. lia.
Qed.

Lemma sorted_reverse {A} (R : relation A) l : StronglySorted R l → StronglySorted (flip R) (reverse l).
Proof.
  induction 1 as [|x l Hl IH Hall]; [constructor|]. rewrite reverse_cons. apply StronglySorted_app_2; [|done|repeat constructor].
  intros a b Ha ->%list_elem_of_singleton. rewrite elem_of_reverse in Ha. rewrite list.Forall_forall in Hall. exact (Hall a Ha).
Qed.

Section mount.
Context {D : Type} `{HL : ZonedLaws D} (Hserve : reads_serve D).
Implicit Types (s : Store (ZoneMap D)) (q : RootRecord).

Definition candidate_list s : list RootRecord :=
  dedup_generations None (merge_sort generation_le (zone_list (under_dev s) (zone_a s) ++ zone_list (under_dev s) (zone_b s))).

Lemma candidates_spec s r s' : Rooted_ok s → candidates s = (r, s') →
  still s s' ∧ ((∃ e, r = Err (Refused e)) ∨ r = Ok (candidate_list s)).
Proof.
  intros Hok. unfold candidates, sm_bind, sm_get. destruct (over_zone _ (sb_root_zone_a _) [] s) as [r1 s1] eqn:E1.
  apply (over_zone_spec Hserve) in E1 as [H1 [(e & ->)| ->]]; [| |done|apply Hok].
  { intros [= <- <-]. split; [done|]. left. by exists e. }
  destruct (over_zone _ _ _ s1) as [r2 s2] eqn:E2. destruct (rooted_zones _ _ (still_rooted _ _ H1)) as (_ & _ & Hrz1 & _).
  apply (over_zone_spec Hserve) in E2 as [H2 [(e & ->)| ->]]; [| |by eapply still_ok|apply Hrz1, Hok].
  { intros [= <- <-]. split; [by eapply still_trans|]. left. by exists e. }
  intros [= <- <-]. split; [by eapply still_trans|]. right. by rewrite !foldl_snoc, (still_zone_list _ _ _ H1).
Qed.

Lemma candidate_list_spec s : one_per_generation s →
  StronglySorted generation_lt (candidate_list s) ∧ ∀ q, q ∈ candidate_list s ↔ recorded s q.
Proof.
  intros Hone. set (l := zone_list (under_dev s) (zone_a s) ++ zone_list (under_dev s) (zone_b s)).
  assert (Hl : ∀ q, q ∈ merge_sort generation_le l ↔ recorded s q).
  { intros q. rewrite merge_sort_Permutation. unfold l, recorded. by rewrite elem_of_app. }
  destruct (dedup_spec (merge_sort generation_le l) None) as (H1 & _ & H3 & H4); [apply StronglySorted_merge_sort; apply _|done|].
  split; [done|]. intros q. split; [intros Hq; by apply Hl, H3|]. intros Hq.
  destruct (H4 q (proj2 (Hl q) Hq)) as [(k & [=] & _)|(y & Hy & E)]. by rewrite <- (Hone y q (proj1 (Hl y) (H3 y Hy)) Hq E).
Qed.

(** *** Torn records *)
Definition torn_in (d : D) (b : Z) : bool :=
  match view_block d b with
  | Some x => negb ((length x <? RootRecord_BYTES)%nat || negb (from_le (take 4 x) =? ROOT_MAGIC)) && bool_decide (believed x = None)
  | None => false
  end.
Definition torn_list (d : D) (z : Z) : list Z := filter (λ b, torn_in d b = true) (seqZ (z * zone_blocks d) (zone_blocks d)).

Lemma torn_same s s' b : still s s' → torn_in (under_dev s') b = torn_in (under_dev s) b.
Proof. intros (d' & -> & _ & _ & Hv & _). unfold torn_in, under_dev, on_dev, on_device_of in *. cbn in *. by rewrite Hv. Qed.

Lemma torn_filter s s' (l : list Z) : still s s' →
  filter (λ b, torn_in (under_dev s') b = true) l = filter (λ b, torn_in (under_dev s) b = true) l.
Proof. intros HS. induction l as [|b l IH]; [done|]. by rewrite !filter_cons, (torn_same s s' b HS), IH. Qed.

Lemma torn_cons d b (l : list Z) : Z.of_nat (length (filter (λ b, torn_in d b = true) (b :: l))) =
  (if torn_in d b then 1 else 0) + Z.of_nat (length (filter (λ b, torn_in d b = true) l)).
Proof. rewrite filter_cons. destruct (decide _) as [->|Hn]; [cbn [length]; lia|]. by destruct (torn_in d b). Qed.

Lemma torn_blocks_spec blocks : ∀ torn s r s', Rooted_ok s → Forall (Z.le 0) blocks → torn_blocks blocks torn s = (r, s') →
  still s s' ∧ r = Ok (torn + Z.of_nat (length (filter (λ b, torn_in (under_dev s) b = true) blocks))).
Proof.
  induction blocks as [|b blocks IH]; intros torn s r s' Hok Hb; cbn [torn_blocks].
  { intros [= <- <-]. split; [apply still_refl; by apply rooted_geometry|]. f_equal. cbn. lia. }
  apply list.Forall_cons in Hb as [Hb Hbs]. unfold sm_bind at 1, sm_get.
  destruct (on_zoned _ s) as [r1 s1] eqn:E. apply on_zoned_inv in E as (d' & E & ->).
  destruct (rooted_geometry s Hok) as [_ Hm]. pose proof (Hserve _ _ _ _ _ (mo_dev _ Hm) E) as Hns.
  destruct (ZoneDevice.law_read _ _ _ _ _ (mo_dev _ Hm) Hb E) as [Hs [?| ->]]; [done|].
  change (zm_device (bs_device s)) with (under_dev s) in *. assert (HS : still s (on_dev s d')) by by exists d'.
  pose proof (still_ok _ _ Hok HS) as Hok1.
  assert (Hrest : ∀ t1 s1 r s', still s s1 → torn_blocks blocks t1 s1 = (r, s') →
    still s s' ∧ r = Ok (t1 + Z.of_nat (length (filter (λ b, torn_in (under_dev s) b = true) blocks)))).
  { intros t1 s1 r1 s1' HS1 E1. apply IH in E1 as [H1 ->]; [|exact (still_ok _ _ Hok HS1)|done]. split; [by eapply still_trans|].
    by rewrite (torn_filter s s1 blocks HS1). }
  rewrite torn_cons. unfold torn_in at 1. destruct (view_block (under_dev s) b) as [x|] eqn:V; [|exact (Hrest torn _ _ _ HS)].
  rewrite (ro_block s Hok), Z.eqb_refl. destruct (_ || _) eqn:Eor; cbn [negb andb]; [exact (Hrest torn _ _ _ HS)|].
  unfold sm_bind. destruct (record_at b (on_dev s d')) as [r2 s2] eqn:E2.
  apply (record_at_spec Hserve) in E2 as [HS2 ->]; [|done|done]. rewrite (still_root_in _ _ b HS). unfold root_in. rewrite V. cbn [mbind option_bind].
  pose proof (still_trans _ _ _ HS HS2) as HS02. destruct (believed x) as [q|].
  - rewrite bool_decide_false by done. exact (Hrest torn _ _ _ HS02).
  - rewrite bool_decide_true by done. intros E1. apply (Hrest (torn + 1)) in E1 as [? ->]; [|done]. split; [done|]. f_equal. lia.
Qed.

Lemma torn_none d (l : list Z) : (∀ b, b ∈ l → torn_in d b = false) → filter (λ b, torn_in d b = true) l = [].
Proof.
  induction l as [|b l IH]; intros Hl; [done|]. rewrite filter_cons, decide_False by (by rewrite (Hl b (list_elem_of_here _ _))).
  apply IH. intros b' Hb. by apply Hl, list_elem_of_further.
Qed.

Lemma torn_zone s z w : Rooted_ok s → is_root_zone s z → view_written (under_dev s) z ≤ w ≤ zone_blocks (under_dev s) → 0 ≤ w →
  filter (λ b, torn_in (under_dev s) b = true) (seqZ (z * zone_blocks (under_dev s)) w) = torn_list (under_dev s) z.
Proof.
  intros Hok Hz Hw Hw0. unfold torn_list.
  replace (seqZ (z * zone_blocks (under_dev s)) (zone_blocks (under_dev s)))
    with (seqZ (z * zone_blocks (under_dev s)) w ++ seqZ (z * zone_blocks (under_dev s) + w) (zone_blocks (under_dev s) - w)).
  2:{ rewrite <- seqZ_app by lia. f_equal. lia. }
  rewrite filter_app. assert (E : filter (λ b, torn_in (under_dev s) b = true) (seqZ (z * zone_blocks (under_dev s) + w) (zone_blocks (under_dev s) - w)) = []).
  { apply torn_none. intros b Hb%elem_of_seqZ. unfold torn_in.
    replace b with (z * zone_blocks (under_dev s) + (b - z * zone_blocks (under_dev s))) by lia. by rewrite unwritten_none by (done || lia). }
  by rewrite E, app_nil_r.
Qed.

Lemma torn_scan_spec s z torn r s' : Rooted_ok s → is_root_zone s z →
  (do! report <- on_zoned (dev_report z); torn_blocks (written_blocks report) torn) s = (r, s') →
  still s s' ∧ ((∃ e, r = Err (Refused e)) ∨ r = Ok (torn + Z.of_nat (length (torn_list (under_dev s) z)))).
Proof.
  intros Hok Hz. unfold sm_bind. destruct (on_zoned _ s) as [r1 s1] eqn:E1.
  destruct (report_spec s z r1 s1 Hok Hz E1) as [H1 [(e & ->)|(rep & w & -> & Hst & Hp & Hw & Hw0 & _)]].
  { intros [= <- <-]. split; [done|]. left. by exists e. }
  unfold written_blocks. rewrite Hst, Hp. replace (_ + w - _) with w by lia. intros E.
  apply torn_blocks_spec in E as [H2 ->]; [|by eapply still_ok|by apply seqZ_nonneg, zone_start_nonneg].
  split; [by eapply still_trans|]. right. by rewrite <- (torn_zone s z w), (torn_filter s s1) by done.
Qed.

Lemma torn_records_spec s r s' : Rooted_ok s → torn_records s = (r, s') →
  still s s' ∧ ((∃ e, r = Err (Refused e)) ∨
    r = Ok (Z.of_nat (length (torn_list (under_dev s) (zone_a s)) + length (torn_list (under_dev s) (zone_b s))))).
Proof.
  intros Hok E. assert (Hsplit : torn_records s = (do! torn <- (do! report <- on_zoned (dev_report (zone_a s)); torn_blocks (written_blocks report) 0);
    (do! report <- on_zoned (dev_report (zone_b s)); torn_blocks (written_blocks report) torn)) s).
  { unfold torn_records, sm_bind, sm_get, zone_a, zone_b. by destruct (on_zoned _ s) as [[?|] ?]. }
  rewrite Hsplit in E. clear Hsplit. unfold sm_bind at 1 in E. destruct ((do! report <- _; _) s) as [r1 s1] eqn:E1.
  apply torn_scan_spec in E1 as [H1 [(e & ->)| ->]]; [| |done|apply Hok].
  { injection E as <- <-. split; [done|]. left. by exists e. }
  destruct (rooted_zones _ _ (still_rooted _ _ H1)) as (_ & _ & Hrz1 & Ez1 & _).
  apply torn_scan_spec in E as [H2 [(e & ->)| ->]]; [| |by eapply still_ok|apply Hrz1, Hok].
  { split; [by eapply still_trans|]. left. by exists e. }
  split; [by eapply still_trans|]. right. rewrite Nat2Z.inj_add, Z.add_0_l. unfold torn_list. by rewrite Ez1, (torn_filter s s1).
Qed.

(** *** Taking the newest that resolves *)
Lemma mount_accept_spec fuel s records : Store_sound s → ∀ refused s1, same_store s s1 →
  match accept fuel records refused s1 with
  | None => (fuel < walk_bound s)%nat
  | Some (r, s2) => same_store s s2 ∧ still s1 s2 ∧
      match r with
      | Ok (Some q, n) => ∃ pre post, records = pre ++ q :: post ∧ n = refused + Z.of_nat (length pre) ∧
          (∀ q', q' ∈ pre → did_not_resolve s (rr_root q')) ∧ tree_resolves s (rr_root q)
      | Ok (None, n) => n = refused + Z.of_nat (length records) ∧ ∀ q', q' ∈ records → did_not_resolve s (rr_root q')
      | Err e => e = Panicked ∧ ∃ q h, q ∈ records ∧ rtc (child s) (rr_root q) h ∧ oversized s h
      end
  end.
Proof.
  intros Hs. induction records as [|q records IH]; intros refused s1 HS; pose proof (same_store_sound _ _ Hs HS) as Hs1; cbn [accept].
  { split; [done|]. split; [apply still_refl; by apply sound_map|]. split; [cbn; lia|by intros q ?%elem_of_nil]. }
  assert (HW : Walked_tree s (rr_root q) ∅ [rr_root q]).
  { split; [right; apply list_elem_of_here|by intros h ?%elem_of_empty|by intros h h' ?%elem_of_empty|].
    intros h ->%list_elem_of_singleton. constructor. }
  pose proof (resolves_spec s (rr_root q) fuel ∅ [rr_root q] s1 Hs1 HS HW) as Hr.
  destruct (resolves fuel ∅ [rr_root q] s1) as [[[[|]|e] s2]|].
  - destruct Hr as (H1 & H2 & H3). split; [done|]. split; [done|]. exists [], records. split; [done|]. split; [cbn; lia|].
    split; [by intros q' ?%elem_of_nil|done].
  - destruct Hr as (H1 & H2 & H3). specialize (IH (refused + 1) s2 H1).
    destruct (accept fuel records (refused + 1) s2) as [[r s3]|]; [|done]. destruct IH as (H4 & H5 & H6).
    split; [done|]. split; [by eapply still_trans|]. destruct r as [[[q1|] n]|e].
    + destruct H6 as (pre & post & -> & -> & Hpre & Hq). exists (q :: pre), post. split; [done|]. split; [cbn [length]; lia|].
      split; [|done]. intros q' [->|Hq']%elem_of_cons; [done|by apply Hpre].
    + destruct H6 as [-> Hall]. split; [cbn [length]; lia|]. intros q' [->|Hq']%elem_of_cons; [done|by apply Hall].
    + destruct H6 as (-> & q' & h & Hq' & Hh). split; [done|]. exists q', h. split; [by apply list_elem_of_further|done].
  - destruct Hr as (H1 & H2 & -> & h & Hh). split; [done|]. split; [done|]. split; [done|]. exists q, h.
    split; [apply list_elem_of_here|done].
  - cbn [length] in Hr. unfold walk_bound. lia.
Qed.

(** *** The whole of a mount *)
Lemma still_same_store s s' : Mapped_ok (bs_device s) → still s s' → same_store s s'.
Proof.
  intros Hok (d' & -> & Hd). pose proof (same_view_moved s d' Hd) as M. pose proof Hd as (_ & (Hb & Hc & _) & _).
  split; [|done]. split; [split; [exact (moved_mapped s d' Hok M)|]|].
  - cbn. unfold ZoneMap_blocks. cbn. unfold under_dev in *. by rewrite Hb, Hc.
  - intros l. cbn. unfold Mapped_view. rewrite moved_contents; [|apply Hok|done]. cbn. unfold under_dev in Hb. by rewrite Hb.
Qed.

(** A store just mounted, with root zones a publish could have written. *)
Definition Root_layout s : Prop := is_root_zone s (zone_a s) ∧ is_root_zone s (zone_b s) ∧ zone_a s ≠ zone_b s.

Lemma mounted_rooted d from m s : Remountable d from → (∀ b x, view_block d b = Some x → byte_list x) →
  Z.of_nat RootRecord_BYTES ≤ block_bytes d → ZoneMap_remount d from = Ok m → Store_mount m = Ok s → Root_layout s →
  Store_sound s ∧ Rooted_ok s ∧ same_view d (under_dev s).
Proof.
  intros HR Hbytes Hroom Em Es (Ha & Hb & Hab). destruct (remount_ok d from HR (Ok m) Em) as [(e & [=])|(m' & [= <-] & Hok & Hv & _)].
  destruct (mount_sound m s) as [Hs Hsame]; [done|pose proof (Mapped_zero m Hok); cbn; lia|done|].
  assert (Hdev : bs_device s = m ∨ seen_same m (bs_device s)) by (right; by eapply mount_seen).
  assert (HV : same_view d (under_dev s)).
  { destruct Hdev as [E|HS]; [unfold under_dev; by rewrite E|].
    destruct (HS (mp_map m Hok)) as (d' & E & V). unfold under_dev. rewrite E. by eapply same_view_trans. }
  split; [done|]. split; [|done]. pose proof HV as (_ & (Eb & _) & Evb & _).
  pose proof (so_bytes s Hs) as Ebb. cbn in Ebb. fold (under_dev s) in Ebb.
  split; [apply (so_device s Hs)|by symmetry|rewrite <- Ebb, Eb; done|done|done|done|].
  intros z i x _ _. rewrite Evb. apply Hbytes.
Qed.
End mount.


(** *** Two publishes, the newer of a tree that is not there *)
Definition mnt_record (g : Z) (root : list Z) : RootRecord := mkRootRecord g root (pub_hash 2) (pub_hash 3) (pub_hash 4) (pub_hash 0).
Definition mnt_commit (record : RootRecord) (sr : Store (ZoneMap ZonedMemory) * Roots) : res fault RootRecord * (Store (ZoneMap ZonedMemory) * Roots) :=
  let '(s, roots) := sr in
  let '(p, roots) := Publisher_open s roots in
  Publisher_commit p record (s, roots).

Definition mnt_run : option (ZonedMemory * RootRecord * RootRecord) :=
  match pub_blank with
  | Ok s =>
      match Store_put kind_CHUNK [1; 2; 3] s with
      | (Ok h, s) =>
          match mnt_commit (mnt_record 7 h) (s, Roots_new) with
          | (Ok older, sr) =>
              match mnt_commit (mnt_record 9 (pub_hash 9)) sr with
              | (Ok newer, (s, _)) => Some (under_dev s, older, newer)
              | _ => None
              end
          | _ => None
          end
      | _ => None
      end
  | Err _ => None
  end.

Definition mnt_device_facts (d : ZonedMemory) : bool :=
  (zmem_block_bytes d =? 512) && (zmem_zone_blocks d =? 32) && (zmem_zone_count d =? 4) &&
  (Z.of_nat (length (zmem_bytes d)) =? 65536) && (Z.of_nat (length (zmem_written d)) =? 4) && (Z.of_nat (length (zmem_sealed d)) =? 4) &&
  forallb (λ w, (0 <=? w) && (w <=? 32)) (zmem_written d) && forallb (λ b, (0 <=? b) && (b <? 256)) (zmem_bytes d) &&
  negb (mem_sealed d 3).

Lemma mnt_computed : match mnt_run with
  | Some (d, older, newer) =>
      mnt_device_facts d = true ∧
      match (let? m := ZoneMap_remount d 3 in let? s := Store_mount m in Ok (m, s)) with
      | Ok (m, s) =>
          (zm_data_from (bs_device s), zone_a s, zone_b s) = (3, 1, 2) ∧
          zone_list (under_dev s) 1 = [older; newer] ∧ zone_list (under_dev s) 2 = [] ∧
          (rr_generation older, rr_generation newer) = (7, 9) ∧ Nat.leb (walk_bound s) 10 = true
      | Err _ => False
      end ∧
      match mount 10 d 3 with
      | Some (Ok (found, _)) => found = mkMounted (Some older) 0 1 1
      | _ => False
      end
  | None => False
  end.
Proof. vm_compute. repeat split. Qed.

Lemma mnt_device_ok d : mnt_device_facts d = true → Remountable d 3 ∧ (∀ b x, view_block d b = Some x → byte_list x) ∧ zmem_block_bytes d = 512.
Proof.
  unfold mnt_device_facts. rewrite !andb_true_iff, !Z.eqb_eq, !forallb_forall, negb_true_iff.
  intros ((((((((G1 & G2) & G3) & L1) & L2) & L3) & Hw) & Hb) & Hs).
  assert (Hok : ZonedMemory_ok d).
  { constructor; rewrite ?G1, ?G2, ?G3, ?L1, ?L2, ?L3; [done|done|by split; apply Z.leb_le|done|done|done|done|].
    apply list.Forall_forall. intros w Hin%list_elem_of_In%Hw. apply andb_true_iff in Hin as [Hl%Z.leb_le Hr%Z.leb_le]. exact (conj Hl Hr). }
  assert (Hbytes : ∀ b x, view_block d b = Some x → byte_list x).
  { intros b x. cbn. unfold mem_block. destruct (mem_readable d b); [|done]. intros [= <-]. unfold mem_raw, slice.
    apply list.Forall_take, list.Forall_drop, list.Forall_forall. intros y Hin%list_elem_of_In%Hb.
    apply andb_true_iff in Hin as [Hl%Z.leb_le Hr%Z.ltb_lt]. exact (conj Hl Hr). }
  split; [|done]. split; [done|cbn; by rewrite G3|cbn; by rewrite G2|cbn; by rewrite G1|cbn; by rewrite G2, G3| | |intros b x _; apply Hbytes].
  - intros z Hz. cbn in *. rewrite G3 in Hz. by replace z with 3 by lia.
  - intros z Hz. cbn in Hz. rewrite G3 in Hz. replace z with 3 by lia. change (mem_sealed d 3 = true → mem_written d 3 = zmem_zone_blocks d).
    by rewrite Hs.
Qed.

