(* ===== verification/ExtentObject.v ===== *)
(** * Extents: [blob/src/extent.rs]

    The second kind of object: pieces at fixed offsets, each a blob, replaced
    whole by a write, and named in order by a record that a snapshot puts.  The
    handle is the owner's; the store holds the pieces. *)

From S2P Require Import Prelude Abi Bytes StoreRecords BlockDevice Sha256 Store.
#[local] Open Scope Z_scope.

Definition EXTENT_BYTES : Z := 1024 * 1024.

Record Cost : Type := mkCost { cost_pieces : Z; cost_copied : Z; cost_hashed : Z }.
Definition Cost_default : Cost := mkCost 0 0 0.
Definition Cost_and (a b : Cost) : Cost :=
  mkCost (saturating_add 32 (cost_pieces a) (cost_pieces b)) (saturating_add 64 (cost_copied a) (cost_copied b))
    (saturating_add 64 (cost_hashed a) (cost_hashed b)).

Record Extent : Type := mkExtentHandle { xt_extent_bytes : Z; xt_pieces : list (list Z); xt_piece_bytes : Z }.

(** [bytes.chunks(n)] *)
Definition chunks (n : Z) (bytes : list Z) : list (list Z) :=
  pieces (Z.to_nat (div_ceil (Z.of_nat (length bytes)) n)) (Z.to_nat n) bytes.

(** Where a piece lies, and the part of it that [at .. end] covers: its offset,
    its length, and the part's ends within it. *)
Definition piece_at (g index : Z) : Z := index * g.
Definition piece_len (extent_bytes g index : Z) : Z := Z.min (extent_bytes - piece_at g index) g.
Definition part_from (g at_ index : Z) : Z := Z.max at_ (piece_at g index) - piece_at g index.
Definition part_to (g end_ index len : Z) : Z := Z.min end_ (piece_at g index + len) - piece_at g index.
(** [first ..= last] *)
Definition touched (g at_ end_ : Z) : list Z := seqZ (at_ / g) ((end_ - 1) / g + 1 - at_ / g).

(** [to[at .. at + x.len()].copy_from_slice(x)] *)
Definition copy_range (to : list Z) (at_ : Z) (x : list Z) : res fault (list Z) :=
  if (at_ <? 0) || (Z.of_nat (length to) <? at_ + Z.of_nat (length x)) then Err Panicked
  else Ok (put to (Z.to_nat at_) x).

Section extent.
Context {D : Type} `{Device D}.

Local Abbreviation Stored := (Store D).

Fixpoint put_pieces (contents : list (list Z)) : sm Stored fault (list (list Z)) :=
  match contents with
  | [] => sm_ret []
  | piece :: contents =>
      do! hash <- Store_put kind_CHUNK piece;
      do! hashes <- put_pieces contents;
      sm_ret (hash :: hashes)
  end.

Definition Extent_create (bytes : list Z) : sm Stored fault Extent :=
  if PIECES_MAX <? div_ceil (Z.of_nat (length bytes)) EXTENT_BYTES then refuse refusal_UNKNOWN
  else
    do! hashes <- put_pieces (chunks EXTENT_BYTES bytes);
    sm_ret (mkExtentHandle (Z.of_nat (length bytes)) hashes EXTENT_BYTES).

(** The hashes after the head, one for each index. *)
Definition piece_hashes (content : list Z) (count : Z) : list (list Z) :=
  (λ index, slice content (ExtentHead_HEAD_BYTES + index * 32) 32) <$> seq 0 (Z.to_nat count).

Definition granularity_of (hashes : list (list Z)) : sm Stored fault Z :=
  match hashes with
  | [] => sm_ret EXTENT_BYTES
  | first :: _ => do! header <- Store_head first; sm_ret (hdr_content_bytes header)
  end.

Definition Extent_open (hash : list Z) : sm Stored fault Extent :=
  do! header <- Store_head hash;
  if negb (hdr_kind header =? kind_EXTENT) then refuse refusal_UNKNOWN
  else
    do! (_, content) <- with_buffer (hdr_content_bytes header) (Store_get hash);
    if (length content <? ExtentHead_HEAD_BYTES)%nat then refuse refusal_MALFORMED
    else
      do! head <- sm_lift (or_refuse (ExtentHead_from_bytes (take ExtentHead_HEAD_BYTES content)));
      if negb (ExtentHead_bytes head =? Z.of_nat (length content)) then refuse refusal_MALFORMED
      else
        let hashes := piece_hashes content (eh_pieces head) in
        do! piece_bytes <- granularity_of hashes;
        if (piece_bytes =? 0) || negb (div_ceil (eh_extent_bytes head) piece_bytes =? Z.of_nat (length hashes))
        then refuse refusal_MALFORMED
        else sm_ret (mkExtentHandle (eh_extent_bytes head) hashes piece_bytes).

(** ** Writing *)

(** The handle, the store, and the buffer for one piece. *)
Definition Writing : Type := Extent * Reading (D := D).
Definition of_reading {A : Type} (m : sm Reading fault A) : sm Writing fault A := λ '(e, rd),
  let '(r, rd) := m rd in (r, (e, rd)).
Definition in_buffer (f : list Z → res fault (list Z)) : sm Writing fault unit := λ '(e, (me, buffer)),
  match f buffer with
  | Ok buffer => (Ok tt, (e, (me, buffer)))
  | Err x => (Err x, (e, (me, buffer)))
  end.
(** [self.pieces[index] = hash] *)
Definition set_piece (index : Z) (hash : list Z) : sm Writing fault unit := λ '(e, rd),
  match index_or_panic (xt_pieces e) index with
  | Ok _ => (Ok tt, (mkExtentHandle (xt_extent_bytes e) (<[Z.to_nat index := hash]> (xt_pieces e)) (xt_piece_bytes e), rd))
  | Err x => (Err x, (e, rd))
  end.

(** The piece as it is to be, at the front of the buffer. *)
Definition fill_piece (e : Extent) (index len from to taken : Z) (bytes : list Z) : sm Writing fault unit :=
  if (from =? 0) && (to =? len) then
    do! part <- sm_lift (slice_or_panic bytes taken (taken + len));
    in_buffer (λ buffer, copy_range buffer 0 part)
  else
    do! piece <- sm_lift (index_or_panic (xt_pieces e) index);
    do! read <- of_reading (Store_get piece);
    if negb (read =? len) then sm_err (Refused refusal_MALFORMED)
    else
      do! part <- sm_lift (slice_or_panic bytes taken (taken + (to - from)));
      in_buffer (λ buffer, copy_range buffer from part).

(** One piece of a write at [at .. end]. *)
Definition write_piece (at_ end_ : Z) (bytes : list Z) (index : Z) : sm Writing fault Cost :=
  do! e <- sm_get fst;
  let g := xt_piece_bytes e in
  let len := piece_len (xt_extent_bytes e) g index in
  let from := part_from g at_ index in
  let to := part_to g end_ index len in
  let taken := piece_at g index + from - at_ in
  do! _ <- fill_piece e index len from to taken bytes;
  do! (_, (_, buffer)) <- sm_get id;
  do! whole <- sm_lift (slice_or_panic buffer 0 len);
  do! hash <- of_reading (on_store (Store_put kind_CHUNK whole));
  do! _ <- set_piece index hash;
  sm_ret (mkCost 1 len len).

Fixpoint write_pieces (at_ end_ : Z) (bytes : list Z) (indices : list Z) (cost : Cost) : sm Writing fault Cost :=
  match indices with
  | [] => sm_ret cost
  | index :: indices =>
      do! one <- write_piece at_ end_ bytes index;
      write_pieces at_ end_ bytes indices (Cost_and cost one)
  end.

Definition Extent_write (at_ : Z) (bytes : list Z) : sm (Extent * Stored) fault Cost := λ '(e, me),
  let end_ := at_ + Z.of_nat (length bytes) in
  if u64_max <? end_ then (Err (Refused refusal_ADDRESS), (e, me))
  else if xt_extent_bytes e <? end_ then (Err (Refused refusal_ADDRESS), (e, me))
  else if (length bytes =? 0)%nat then (Ok Cost_default, (e, me))
  else if (xt_piece_bytes e =? 0) || (isize_max <? xt_piece_bytes e) then (Err Panicked, (e, me))
  else
    let '(r, (e, (me, _))) :=
      write_pieces at_ end_ bytes (touched (xt_piece_bytes e) at_ end_) Cost_default
        (e, (me, zeroed (Z.to_nat (xt_piece_bytes e)))) in
    (r, (e, me)).

(** ** Reading *)

(** The store with the buffer for one piece, and what is read into. *)
Definition Filling : Type := Reading (D := D) * list Z.
Definition of_piece {A : Type} (m : sm Reading fault A) : sm Filling fault A := λ '(rd, into),
  let '(r, rd) := m rd in (r, (rd, into)).
Definition into_range (at_ : Z) (x : list Z) : sm Filling fault unit := λ '(rd, into),
  match copy_range into at_ x with
  | Ok into => (Ok tt, (rd, into))
  | Err f => (Err f, (rd, into))
  end.

Fixpoint read_pieces (e : Extent) (at_ end_ : Z) (indices : list Z) (done_ : Z) : sm Filling fault Z :=
  match indices with
  | [] => sm_ret done_
  | index :: indices =>
      let g := xt_piece_bytes e in
      do! piece <- sm_lift (index_or_panic (xt_pieces e) index);
      do! len <- of_piece (Store_get piece);
      let from := part_from g at_ index in
      let to := part_to g end_ index len in
      do! (_, buffer, _) <- sm_get id;
      do! part <- sm_lift (slice_or_panic buffer from to);
      do! _ <- into_range done_ part;
      read_pieces e at_ end_ indices (done_ + (to - from))
  end.

Definition Extent_read (e : Extent) (at_ : Z) : sm Reading fault Z := λ '(me, into),
  let end_ := at_ + Z.of_nat (length into) in
  if u64_max <? end_ then (Err (Refused refusal_ADDRESS), (me, into))
  else if xt_extent_bytes e <? end_ then (Err (Refused refusal_ADDRESS), (me, into))
  else if (length into =? 0)%nat then (Ok 0, (me, into))
  else if (xt_piece_bytes e =? 0) || (isize_max <? xt_piece_bytes e) then (Err Panicked, (me, into))
  else
    let '(r, ((me, _), into)) :=
      read_pieces e at_ end_ (touched (xt_piece_bytes e) at_ end_) 0 ((me, zeroed (Z.to_nat (xt_piece_bytes e))), into) in
    match r with
    | Ok done_ => if negb (done_ =? Z.of_nat (length into)) then (Err (Refused refusal_MALFORMED), (me, into)) else (Ok done_, (me, into))
    | Err x => (Err x, (me, into))
    end.

(** ** Publishing *)
Definition extent_content (e : Extent) : list Z :=
  ExtentHead_to_bytes (mkExtentHead (xt_extent_bytes e) (Z.of_nat (length (xt_pieces e)))) ++ concat (xt_pieces e).

Definition Extent_snapshot (e : Extent) : sm Stored fault (list Z * Cost) :=
  if u32_max <? Z.of_nat (length (xt_pieces e)) then refuse refusal_UNKNOWN
  else
    let content := extent_content e in
    do! _ <- Store_barrier;
    do! hash <- Store_put kind_EXTENT content;
    do! _ <- Store_barrier;
    sm_ret (hash, mkCost 0 (Z.of_nat (length content)) (Z.of_nat (length content))).
End extent.
