(* ===== verification/ExtentFacts.v ===== *)
(** * The pieces of an extent

    A handle stands for a run of bytes: its pieces name the chunks of them in
    order.  A write overlays its bytes, one piece after another. *)

From S2P Require Import Prelude Abi Bytes StoreRecords StoreCodecs BlockDevice Sha256 Store StoreFacts StoreTheorems ExtentObject.
#[local] Open Scope Z_scope.

(** ** Chunks of a run of bytes *)
Lemma pieces_lookup k n : ∀ l i, pieces k n l !! i = if decide (i < k)%nat then Some (slice l (i * n) n) else None.
Proof.
  induction k as [|k IH]; intros l i; cbn [pieces]; [by rewrite decide_False by lia|].
  destruct i as [|i]; cbn [lookup list_lookup].
  - rewrite decide_True by lia. unfold slice. by rewrite drop_0.
  - change (pieces k n (drop n l) !! i = if decide (S i < S k)%nat then Some (slice l (S i * n) n) else None).
    rewrite IH. unfold slice. rewrite drop_drop. destruct (decide _), (decide _); done || lia.
Qed.

Section chunks.
Context (g : Z) (Hg : 0 < g).

Lemma chunks_lookup l i :
  chunks g l !! i = if decide (i * Z.to_nat g < length l)%nat then Some (slice l (i * Z.to_nat g) (Z.to_nat g)) else None.
Proof.
  unfold chunks. rewrite pieces_lookup. pose proof (div_ceil_spec (Z.of_nat (length l)) g ltac:(lia) Hg) as Hd.
  destruct (decide _) as [H1|H1], (decide _) as [H2|H2]; done || exfalso; nia.
Qed.

Lemma chunks_length l : Z.of_nat (length (chunks g l)) = div_ceil (Z.of_nat (length l)) g.
Proof.
  pose proof (div_ceil_spec (Z.of_nat (length l)) g ltac:(lia) Hg) as Hd.
  assert (H : ∀ k n x, length (pieces k n x) = k) by (induction k; intros; cbn; auto). unfold chunks. rewrite H. nia.
Qed.

Lemma chunk_length l i c : chunks g l !! i = Some c →
  Z.of_nat (length c) = Z.min (Z.of_nat (length l) - Z.of_nat i * g) g ∧ (i * Z.to_nat g < length l)%nat.
Proof.
  rewrite chunks_lookup. destruct (decide _); [|done]. intros [= <-]. unfold slice. rewrite length_take, length_drop. nia.
Qed.

Lemma slice_put_in out at_ (x : list Z) a n : (a ≤ at_)%nat → (at_ + length x ≤ a + n)%nat → (at_ + length x ≤ length out)%nat →
  slice (put out at_ x) a n = put (slice out a n) (at_ - a) x.
Proof.
  intros Ha Hn Ho. unfold slice, put. rewrite drop_app_le by (rewrite length_take; lia).
  rewrite take_app_ge by (rewrite length_drop, length_take; lia). rewrite length_drop, length_take, Nat.min_l by lia.
  rewrite take_app_ge by lia. f_equal.
  - rewrite take_take, Nat.min_l by lia. by rewrite skipn_firstn_comm.
  - f_equal. rewrite skipn_firstn_comm, drop_drop. f_equal; [lia|f_equal; lia].
Qed.

Lemma chunks_put l i c o x : chunks g l !! i = Some c → (o + length x ≤ length c)%nat →
  chunks g (put l (i * Z.to_nat g + o) x) = <[i := put c o x]> (chunks g l).
Proof.
  intros Hc Hx. destruct (chunk_length _ _ _ Hc) as [Hl Hi]. pose proof Hc as Hc'. rewrite chunks_lookup, decide_True in Hc' by done.
  injection Hc' as <-. assert (Ho : (i * Z.to_nat g + o + length x ≤ length l)%nat) by nia.
  apply list_eq. intros j. rewrite chunks_lookup, length_put by done. destruct (decide (j = i)) as [->|Hj].
  - rewrite decide_True by done. rewrite list_lookup_insert_eq by (by eapply lookup_lt_Some). f_equal.
    rewrite slice_put_in by (lia || nia). f_equal. lia.
  - rewrite list_lookup_insert_ne by done. rewrite chunks_lookup. destruct (decide _); [|done]. f_equal.
    apply slice_put_ne; [done|]. destruct (decide (j < i)%nat); [left|right]; nia.
Qed.
End chunks.

(** ** Stores whose names are right *)
Section store.
Context {D : Type} `{HL : DeviceLaws D}.
Implicit Types (s : Store D) (e : Extent).

(** What was held is held. *)
Record kept s s' : Prop := {
  kp_holds : ∀ k c, holds s k c → holds s' k c;
  kp_block : Store_block_bytes s' = Store_block_bytes s;
}.
#[global] Instance kept_preorder : PreOrder kept.
Proof. split; [by split|]. intros s1 s2 s3 [H1 B1] [H2 B2]. split; [auto|congruence]. Qed.

Lemma same_store_kept s s' : same_store s s' → kept s s'.
Proof. intros HS. split; [intros k c; by apply same_store_holds|]. unfold Store_block_bytes. by destruct HS as (_ & -> & _). Qed.

(** A handle and the bytes it stands for. *)
Record Extent_is s e (bytes : list Z) : Prop := {
  xi_size : xt_extent_bytes e = Z.of_nat (length bytes) ∧ Z.of_nat (length bytes) ≤ u64_max;
  xi_grain : 0 < xt_piece_bytes e ≤ isize_max;
  xi_bytes : byte_list bytes;
  xi_count : Z.of_nat (length (xt_pieces e)) ≤ PIECES_MAX;
  xi_pieces : Forall2 (λ h c, h = sha256 c ∧ ∃ k, holds s k c) (xt_pieces e) (chunks (xt_piece_bytes e) bytes);
}.

Lemma Extent_is_holds s s' e bytes : Extent_is s e bytes → (∀ k c, holds s k c → holds s' k c) → Extent_is s' e bytes.
Proof.
  intros [H1 H2 H3 H4 H5] K. split; try done. eapply list.Forall2_impl; [exact H5|]. intros h c [-> [k Hk]].
  split; [done|]. exists k. by apply K.
Qed.

Lemma Extent_is_kept s s' e bytes : Extent_is s e bytes → kept s s' → Extent_is s' e bytes.
Proof. intros Hx [K _]. by eapply Extent_is_holds. Qed.

Context (P : list Z → Prop) (Hinj : ∀ x y, P x → P y → sha256 x = sha256 y → x = y).

(** Whatever is located is held, and is one of contents no two of which share a
    digest. *)
Record clean s : Prop := {
  cl_sound : Store_sound s;
  cl_named : ∀ h b, bs_located s !! h = Some b → ∃ k c, h = sha256 c ∧ holds s k c ∧ P c;
}.

Lemma clean_same s s' : clean s → same_store s s' → clean s'.
Proof.
  intros [Hs Hn] HS. split; [by eapply same_store_sound|]. intros h b. pose proof HS as (_ & _ & _ & ->). intros L.
  destruct (Hn h b L) as (k & c & -> & Hk & Hp). exists k, c. split; [done|]. split; [by eapply same_store_holds|done].
Qed.

Definition put_refused (f : fault) : Prop := f = Refused refusal_FULL ∨ blk_write_fault f.

Lemma put_clean s k x r s' : clean s → P x → fits s x → kind_known k = true → Store_put k x s = (r, s') →
  clean s' ∧ kept s s' ∧
  ((∃ f, r = Err f ∧ put_refused f) ∨
   (r = Ok (sha256 x) ∧ ∃ k', holds s' k' x ∧ ((∀ k0, holds s k0 x → k0 = k) → k' = k))).
Proof.
  intros [Hs Hn] Hp Hf Hk E. destruct (put_sound s k x r s' Hs Hf E) as (O & Hs' & Hall).
  assert (Hkept : Store_block_bytes s' = Store_block_bytes s → kept s s') by by split.
  assert (Hold : ∀ h b, bs_located s !! h = Some b → ∃ k c, h = sha256 c ∧ holds s' k c ∧ P c).
  { intros h b L. destruct (Hn h b L) as (k1 & c & -> & Hh & Hpc). exists k1, c. split; [done|]. split; [by apply Hall|done]. }
  destruct O as [Hu|b _ L|_ L Hfull|f d' Hf' Hk'|d' _ L Hk' s' Hh].
  - congruence.
  - split; [by split|]. split; [by apply Hkept|]. right. split; [done|]. destruct (Hn _ _ L) as (k1 & c & Eh & Hh & Hpc).
    assert (x = c) as <- by by apply Hinj. exists k1. split; [done|]. intros H1. by apply H1.
  - split; [by split|]. split; [by apply Hkept|]. left. eexists. split; [done|by left].
  - split; [by split|]. split; [by apply Hkept|]. left. exists f. split; [done|by right].
  - split; [split; [done|]|].
    + intros h b. cbn. destruct (decide (h = sha256 x)) as [->|Hne].
      * intros _. by exists k, x.
      * rewrite lookup_insert_ne by done. apply Hold.
    + split; [by apply Hkept|]. right. split; [done|]. by exists k.
Qed.

Lemma piece_held s e bytes i : Extent_is s e bytes → (i * Z.to_nat (xt_piece_bytes e) < length bytes)%nat → ∃ c k,
  chunks (xt_piece_bytes e) bytes !! i = Some c ∧ xt_pieces e !! i = Some (sha256 c) ∧ holds s k c ∧
  Z.of_nat (length c) = piece_len (xt_extent_bytes e) (xt_piece_bytes e) (Z.of_nat i).
Proof.
  intros [[Hsz _] [Hg _] _ _ HF] Hi. destruct (chunks (xt_piece_bytes e) bytes !! i) as [c|] eqn:Ec.
  2:{ rewrite chunks_lookup, decide_True in Ec by done. done. }
  destruct (Forall2_lookup_r _ _ _ _ _ HF Ec) as (h & Eh & -> & k & Hk). exists c, k.
  split; [done|]. split; [done|]. split; [done|]. destruct (chunk_length _ Hg _ _ _ Ec) as [-> _].
  unfold piece_len, piece_at. by rewrite Hsz.
Qed.

Lemma get_piece s c k (buffer : list Z) r s' buffer' : Store_sound s → holds s k c → (length c ≤ length buffer)%nat →
  Store_get (sha256 c) (s, buffer) = (r, (s', buffer')) →
  same_store s s' ∧ length buffer' = length buffer ∧ ((∃ f, r = Err f ∧ blk_read_fault f) ∨
    (r = Ok (Z.of_nat (length c)) ∧ buffer' = c ++ drop (length c) buffer)).
Proof.
  intros Hs Hh Hl E. pose proof E as E'. apply Store_get_spec in E' as (_ & Hlen & _); [|done].
  apply (get_holds s k c) in E as [HS Hr]; done.
Qed.

(** *** One piece *)
Definition io_refused (f : fault) : Prop := blk_read_fault f ∨ put_refused f.

Lemma put_app_l (c rest : list Z) a x : (a + length x ≤ length c)%nat → put (c ++ rest) a x = put c a x ++ rest.
Proof.
  intros Hx. unfold put. rewrite take_app_le by lia. rewrite drop_app_le by lia. by rewrite <- !app_assoc.
Qed.

Lemma put_whole (c x : list Z) : length x = length c → put c 0 x = x.
Proof. intros Hx. unfold put. rewrite take_0, drop_ge, app_nil_r by lia. done. Qed.

Lemma slice_panics (bytes : list Z) a b : 0 ≤ a ≤ b → b ≤ Z.of_nat (length bytes) →
  slice_or_panic bytes a b = Ok (slice bytes (Z.to_nat a) (Z.to_nat (b - a))).
Proof.
  intros Ha Hb. unfold slice_or_panic. by rewrite !(proj2 (Z.ltb_ge _ _)) by lia.
Qed.

Lemma copy_range_ok (buffer : list Z) a x : 0 ≤ a → a + Z.of_nat (length x) ≤ Z.of_nat (length buffer) →
  copy_range buffer a x = Ok (put buffer (Z.to_nat a) x).
Proof. intros Ha Hx. unfold copy_range. by rewrite !(proj2 (Z.ltb_ge _ _)) by lia. Qed.

Lemma fill_spec s e cur c index (from to taken : Z) (bytes buffer : list Z) r e' s' buffer' :
  clean s → Extent_is s e cur → 0 ≤ index → chunks (xt_piece_bytes e) cur !! Z.to_nat index = Some c →
  length buffer = Z.to_nat (xt_piece_bytes e) → 0 ≤ from ≤ to → to ≤ Z.of_nat (length c) →
  0 ≤ taken → taken + (to - from) ≤ Z.of_nat (length bytes) →
  fill_piece e index (Z.of_nat (length c)) from to taken bytes (e, (s, buffer)) = (r, (e', (s', buffer'))) →
  same_store s s' ∧ e' = e ∧ length buffer' = length buffer ∧
  ((∃ f, r = Err f ∧ blk_read_fault f) ∨
   (r = Ok tt ∧ ∃ rest, buffer' = put c (Z.to_nat from) (slice bytes (Z.to_nat taken) (Z.to_nat (to - from))) ++ rest)).
Proof.
  intros Hc Hx Hi Ec Hb Hft Hto Ht Hend. pose proof (xi_grain _ _ _ Hx) as Hg.
  destruct (chunk_length _ (proj1 Hg) _ _ _ Ec) as [Hcl Hil].
  assert (Hsame : same_store s s) by by apply same_store_refl, (cl_sound s Hc).
  set (part := slice bytes (Z.to_nat taken) (Z.to_nat (to - from))).
  assert (Hpl : length part = Z.to_nat (to - from)) by (apply length_slice; lia).
  unfold fill_piece. destruct (_ && _) eqn:Ew.
  - apply andb_true_iff in Ew as [->%Z.eqb_eq Eto%Z.eqb_eq].
    unfold sm_bind, sm_lift. rewrite slice_panics by lia. replace (taken + Z.of_nat (length c) - taken) with (to - 0) by lia.
    fold part. unfold in_buffer. rewrite copy_range_ok by lia. intros [= <- <- <- <-]. split; [done|]. split; [done|].
    split; [apply length_put; lia|]. right. split; [done|]. change (Z.to_nat 0) with 0%nat. rewrite (put_whole c part) by lia. exists (drop (length part) buffer).
    unfold put. by rewrite take_0.
  - destruct (piece_held s e cur (Z.to_nat index) Hx Hil) as (c' & k & Ec' & Ep & Hh & _). rewrite Ec in Ec'. injection Ec' as <-.
    unfold sm_bind at 1, sm_lift at 1, index_or_panic. rewrite (proj2 (Z.ltb_ge _ _)), Ep by lia. cbn [ok_or].
    unfold sm_bind at 1, of_reading. destruct (Store_get (sha256 c) (s, buffer)) as [r1 [s1 buffer1]] eqn:G.
    apply (get_piece s c k) in G as (HS & Hl1 & Hr); [|apply Hc|done|lia].
    destruct Hr as [(f & -> & Hf)|[-> ->]]; [intros [= <- <- <- <-]; split; [done|]; split; [done|]; split; [done|]; left; by exists f|].
    rewrite Z.eqb_refl. cbn [negb]. unfold sm_bind, sm_lift. rewrite slice_panics by lia.
    replace (taken + (to - from) - taken) with (to - from) by lia. fold part.
    unfold in_buffer. rewrite copy_range_ok by (rewrite ?Hl1; lia). intros [= <- <- <- <-]. split; [done|]. split; [done|].
    split; [rewrite length_put; [done|lia]|]. right. split; [done|]. exists (drop (length c) buffer). apply put_app_l. lia.
Qed.

(** Where the part of a piece that a write covers lies. *)
Lemma part_spec g size at_ end_ index : 0 < g → 0 ≤ at_ → at_ < end_ ≤ size → at_ / g ≤ index ≤ (end_ - 1) / g →
  let len := piece_len size g index in let from := part_from g at_ index in let to := part_to g end_ index len in
  0 ≤ index ∧ piece_at g index < end_ ∧ 0 ≤ from < to ∧ to ≤ len ∧ len ≤ g ∧
  piece_at g index + from = Z.max at_ (index * g) ∧ piece_at g index + to = Z.min end_ ((index + 1) * g).
Proof.
  intros Hg Ha [He Hs] [Hl Hh] len from to. unfold to, from, len, part_to, part_from, piece_len, piece_at.
  pose proof (Z.mul_div_le (end_ - 1) g Hg). pose proof (Z.mul_succ_div_gt at_ g Hg). pose proof (Z.div_pos at_ g Ha Hg).
  assert (index * g ≤ end_ - 1) by nia. assert (at_ < (index + 1) * g) by nia. split; [lia|]. split; [lia|]. lia.
Qed.

Lemma write_piece_spec s e cur bytes buffer at_ index r e' s' buffer' :
  clean s → Extent_is s e cur → byte_list bytes → length buffer = Z.to_nat (xt_piece_bytes e) →
  let end_ := at_ + Z.of_nat (length bytes) in let g := xt_piece_bytes e in
  0 ≤ at_ → at_ < end_ ≤ Z.of_nat (length cur) → at_ / g ≤ index ≤ (end_ - 1) / g →
  Z.of_nat Header_BYTES + g + Store_block_bytes s ≤ isize_max →
  let len := piece_len (xt_extent_bytes e) g index in let from := part_from g at_ index in let to := part_to g end_ index len in
  let new := put cur (Z.to_nat (piece_at g index + from)) (slice bytes (Z.to_nat (piece_at g index + from - at_)) (Z.to_nat (to - from))) in
  (∀ c, chunks g new !! Z.to_nat index = Some c → P c) →
  write_piece at_ end_ bytes index (e, (s, buffer)) = (r, (e', (s', buffer'))) →
  clean s' ∧ kept s s' ∧ length buffer' = length buffer ∧
  ((∃ f, r = Err f ∧ io_refused f ∧ e' = e) ∨
   (r = Ok (mkCost 1 len len) ∧ Extent_is s' e' new ∧ xt_piece_bytes e' = g ∧ xt_extent_bytes e' = xt_extent_bytes e)).
Proof.
  intros Hc Hx Hby Hbuf end_ g Ha He Hi Hfit len from to new Hp E. pose proof Hx as [[Hsz Hmax] [Hg Hgm] Hcb Hcnt HF]. fold g in Hg, Hgm.
  destruct (part_spec g (Z.of_nat (length cur)) at_ end_ index Hg Ha He Hi) as (Hi0 & Hpe & Hft & Htl & Hlg & Ef & Et).
  rewrite <- Hsz in Hft, Htl, Hlg, Et. fold from in Hft, Ef. fold len in Hlg. fold len to in Hft, Htl, Et.
  unfold piece_at in Hpe. fold g in HF.
  destruct (piece_held s e cur (Z.to_nat index) Hx) as (c & k & Ec & Ep & Hh & Hcl); [fold g; nia|]. fold g in Ec, Hcl.
  rewrite Z2Nat.id in Hcl by done. fold len in Hcl.
  set (part := slice bytes (Z.to_nat (piece_at g index + from - at_)) (Z.to_nat (to - from))) in *.
  assert (Hpl : length part = Z.to_nat (to - from)) by (apply length_slice; unfold piece_at in *; lia).
  set (x := put c (Z.to_nat from) part).
  assert (Hxl : length x = length c) by (apply length_put; lia).
  assert (Enew : chunks g new = <[Z.to_nat index := x]> (chunks g cur)).
  { unfold new, x. rewrite <- (chunks_put g Hg cur (Z.to_nat index) c (Z.to_nat from) part Ec) by lia. do 2 f_equal. unfold piece_at. nia. }
  assert (Hnew : length new = length cur) by (apply length_put; unfold piece_at in *; lia).
  assert (Hpb : byte_list part) by by apply slice_bytes.
  assert (Hnb : byte_list new).
  { unfold new, put. apply Forall_app. split; [by apply list.Forall_take|]. apply Forall_app. split; [done|by apply list.Forall_drop]. }
  assert (HPx : P x). { apply Hp. rewrite Enew. apply list_lookup_insert_eq. by eapply lookup_lt_Some. }
  assert (Hxb : byte_list x).
  { assert (Ex : chunks g new !! Z.to_nat index = Some x) by (rewrite Enew; apply list_lookup_insert_eq; by eapply lookup_lt_Some).
    rewrite chunks_lookup in Ex by done. destruct (decide _); [|done]. injection Ex as <-. by apply slice_bytes. }
  unfold write_piece in E. unfold sm_bind at 1, sm_get at 1 in E. cbn [fst] in E. fold g in E. fold len in E. fold from in E. fold to in E.
  unfold sm_bind at 1 in E. destruct (fill_piece _ _ _ _ _ _ _ _) as [r1 [e1 [s1 buffer1]]] eqn:E1. rewrite <- Hcl in E1.
  apply (fill_spec s e cur c) in E1 as (HS1 & -> & Hl1 & Hr1); [|done|done|done|done|done|lia|lia|unfold piece_at in *; lia|unfold piece_at in *; lia].
  pose proof (same_store_kept _ _ HS1) as K1. pose proof (clean_same _ _ Hc HS1) as Hc1.
  destruct Hr1 as [(f & -> & Hf)|[-> (rest & ->)]].
  { injection E as <- <- <- <-. split; [done|]. split; [done|]. split; [done|]. left. exists f. split; [done|]. split; [by left|done]. }
  fold part in E, Hl1. fold x in E, Hl1. unfold sm_bind at 1, sm_get at 1, id in E.
  unfold sm_bind at 1, sm_lift at 1 in E. rewrite slice_panics in E by (rewrite ?length_app; lia).
  assert (Es : slice (x ++ rest) (Z.to_nat 0) (Z.to_nat (len - 0)) = x).
  { unfold slice. rewrite drop_0. replace (Z.to_nat (len - 0)) with (length x) by lia. apply take_app_length. }
  rewrite Es in E. unfold sm_bind at 1, of_reading, on_store in E. destruct (Store_put kind_CHUNK x s1) as [r2 s2] eqn:E2.
  apply put_clean in E2 as (Hc2 & K2 & Hr2); [|done|done| |done].
  2:{ split; [done|]. rewrite (kp_block _ _ K1). lia. }
  pose proof (transitivity K1 K2) as K12.
  destruct Hr2 as [(f & -> & Hf)|(-> & k' & Hh' & _)].
  { injection E as <- <- <- <-. split; [done|]. split; [done|]. split; [done|]. left. exists f. split; [done|]. split; [by right|done]. }
  unfold sm_bind, set_piece, index_or_panic in E. rewrite (proj2 (Z.ltb_ge _ _)), Ep in E by done. cbn [ok_or] in E.
  injection E as <- <- <- <-. split; [done|]. split; [done|]. split; [done|]. right. split; [done|]. split; [|done].
  split; cbn; [by rewrite Hnew|done|done|by rewrite length_insert|]. fold g. rewrite Enew.
  apply Forall2_insert; [|split; [done|by exists k']].
  eapply list.Forall2_impl; [exact HF|]. intros h c0 [-> [k0 Hk0]]. split; [done|]. exists k0. by apply (kp_holds _ _ K12).
Qed.

(** *** A write, one piece after another *)
Lemma put_put (l : list Z) a x y : (a + length x ≤ length l)%nat → put (put l a x) (a + length x) y = put l a (x ++ y).
Proof.
  intros Hl. unfold put. assert (Ht : length (take a l) = a) by (rewrite length_take; lia).
  assert (E1 : take (a + length x) (take a l ++ x ++ drop (a + length x) l) = take a l ++ x).
  { rewrite (assoc_L (++)). rewrite take_app_le by (rewrite length_app, Ht; lia). apply take_ge. rewrite length_app, Ht. lia. }
  assert (E2 : drop (a + length x + length y) (take a l ++ x ++ drop (a + length x) l) = drop (a + length (x ++ y)) l).
  { rewrite (assoc_L (++)). rewrite drop_app_ge by (rewrite length_app, Ht; lia). rewrite drop_drop, !length_app, Ht. f_equal. lia. }
  by rewrite E1, E2, <- !(assoc_L (++)).
Qed.

Lemma overlay_next (l bytes : list Z) a n m : (a + length bytes ≤ length l)%nat → (n + m ≤ length bytes)%nat →
  put (put l a (take n bytes)) (a + n) (slice bytes n m) = put l a (take (n + m) bytes).
Proof.
  intros Hl Hn. assert (Ht : length (take n bytes) = n) by (rewrite length_take; lia).
  rewrite <- Ht at 2. rewrite put_put by (rewrite Ht; lia). by rewrite <- take_take_drop.
Qed.

(** The bytes of a write before a piece. *)
Definition before (g at_ end_ index : Z) : nat := Z.to_nat (Z.min end_ (Z.max at_ (index * g)) - at_).

Lemma write_pieces_spec bs bytes at_ g size : let end_ := at_ + Z.of_nat (length bytes) in
  0 ≤ at_ → at_ < end_ ≤ Z.of_nat (length bs) → byte_list bytes → 0 < g →
  (∀ c, c ∈ chunks g (put bs (Z.to_nat at_) bytes) → P c) →
  ∀ count index s e buffer cost r e' s' buffer',
  clean s → Extent_is s e (put bs (Z.to_nat at_) (take (before g at_ end_ index) bytes)) → xt_piece_bytes e = g → xt_extent_bytes e = size →
  length buffer = Z.to_nat g → at_ / g ≤ index → index + Z.of_nat count = (end_ - 1) / g + 1 →
  Z.of_nat Header_BYTES + g + Store_block_bytes s ≤ isize_max →
  write_pieces at_ end_ bytes (seqZ index (Z.of_nat count)) cost (e, (s, buffer)) = (r, (e', (s', buffer'))) →
  clean s' ∧ kept s s' ∧ xt_piece_bytes e' = g ∧ ∃ m, (m ≤ length bytes)%nat ∧
  Extent_is s' e' (put bs (Z.to_nat at_) (take m bytes)) ∧
  ((∃ f, r = Err f ∧ io_refused f) ∨
   (m = length bytes ∧ r = Ok (foldl (λ cost i, Cost_and cost (mkCost 1 (piece_len size g i) (piece_len size g i))) cost (seqZ index (Z.of_nat count))))).
Proof.
  intros end_ Ha He Hby Hg HP. induction count as [|count IH]; intros index s e buffer cost r e' s' buffer' Hc Hx Eg Esz Hbuf Hlo Hhi Hfit E.
  { cbn in E. injection E as <- <- <- <-. split; [done|]. split; [done|]. split; [done|].
    assert (Hb : before g at_ end_ index = length bytes).
    { unfold before. pose proof (Z.mul_succ_div_gt (end_ - 1) g Hg). replace (Z.succ ((end_ - 1) / g)) with index in * by lia. lia. }
    rewrite Hb in Hx. exists (length bytes). split; [done|]. split; [done|]. by right. }
  rewrite seqZ_cons in E |- * by lia. replace (Z.pred (Z.of_nat (S count))) with (Z.of_nat count) in * by lia.
  cbn [write_pieces foldl] in *. unfold sm_bind at 1 in E.
  destruct (write_piece at_ end_ bytes index (e, (s, buffer))) as [r1 [e1 [s1 buffer1]]] eqn:E1.
  assert (Hi : at_ / g ≤ index ≤ (end_ - 1) / g) by lia.
  set (cur := put bs (Z.to_nat at_) (take (before g at_ end_ index) bytes)) in *.
  assert (Hn : (before g at_ end_ index ≤ length bytes)%nat) by (unfold before; lia).
  assert (Hcl : length cur = length bs) by (apply length_put; rewrite length_take; lia).
  destruct (part_spec g (Z.of_nat (length cur)) at_ end_ index Hg Ha ltac:(lia) Hi) as (Hi0 & Hpe & Hft & Htl & Hlg & Ef & Et).
  pose proof (xi_size _ _ _ Hx) as [Hsz _]. rewrite <- Hsz, Esz in *. set (len := piece_len size g index) in *.
  set (from := part_from g at_ index) in *. set (to := part_to g end_ index len) in *. unfold piece_at in *.
  assert (Hstart : at_ < (index + 1) * g) by (pose proof (Z.mul_succ_div_gt at_ g Hg); nia).
  assert (Hnext : put cur (Z.to_nat (index * g + from)) (slice bytes (Z.to_nat (index * g + from - at_)) (Z.to_nat (to - from))) =
    put bs (Z.to_nat at_) (take (before g at_ end_ (index + 1)) bytes)).
  { replace (Z.to_nat (index * g + from - at_)) with (before g at_ end_ index) by (unfold before; lia).
    replace (Z.to_nat (index * g + from)) with (Z.to_nat at_ + before g at_ end_ index)%nat by (unfold before; lia).
    unfold cur. rewrite overlay_next by (unfold before in *; lia). do 2 f_equal. unfold before. lia. }
  assert (HPnext : ∀ c, chunks g (put bs (Z.to_nat at_) (take (before g at_ end_ (index + 1)) bytes)) !! Z.to_nat index = Some c → P c).
  { intros c Ec. apply HP, (list_elem_of_lookup_2 _ (Z.to_nat index)). rewrite <- Ec. set (n' := before g at_ end_ (index + 1)) in *.
    assert (Hn' : (n' ≤ length bytes)%nat) by (unfold n', before; lia).
    assert (Ed : put bs (Z.to_nat at_) bytes = put (put bs (Z.to_nat at_) (take n' bytes)) (Z.to_nat at_ + n') (slice bytes n' (length bytes - n'))).
    { rewrite overlay_next by lia. replace (n' + (length bytes - n'))%nat with (length bytes) by lia. by rewrite firstn_all. }
    assert (Hl1 : length (put bs (Z.to_nat at_) (take n' bytes)) = length bs) by (apply length_put; rewrite length_take; lia).
    assert (Hl2 : length (slice bytes n' (length bytes - n')) = (length bytes - n')%nat) by (apply length_slice; lia).
    rewrite Ed, !chunks_lookup by done. rewrite length_put by lia. destruct (decide _); [|done]. f_equal.
    destruct (decide (n' = length bytes)) as [En|Hne].
    - assert (Enil : slice bytes n' (length bytes - n') = []) by (apply nil_length_inv; lia). rewrite Enil. unfold put at 1. cbn [app length].
      by rewrite Nat.add_0_r, take_drop.
    - apply slice_put_ne; [lia|]. left. unfold n', before in *. nia. }
  apply (write_piece_spec s e cur bytes buffer at_ index) in E1; try (rewrite ?Eg; done || (fold end_; lia)).
  2:{ rewrite Eg, Esz. fold end_. fold len. fold from. fold to. unfold piece_at. rewrite Hnext. exact HPnext. }
  rewrite Eg, Esz in E1. fold end_ in E1. fold len in E1. fold from in E1. fold to in E1. unfold piece_at in E1. rewrite Hnext in E1.
  destruct E1 as (Hc1 & K1 & Hl1 & [(f & -> & Hf & ->)|(-> & Hx1 & Eg1 & Esz1)]).
  - injection E as <- <- <- <-. split; [done|]. split; [done|]. split; [done|]. exists (before g at_ end_ index). split; [done|].
    split; [by eapply Extent_is_kept|]. left. by exists f.
  - rewrite (Z.add_1_r index) in Hx1. apply IH in E as (Hc2 & K2 & Eg2 & m & Hm & Hx2 & Hr2); try done || lia.
    + split; [done|]. split; [by etrans|]. split; [done|]. by exists m.
    + by rewrite (kp_block _ _ K1).
Qed.
End store.
