(* ===== verification/ExtentTheorems.v ===== *)
(** * What an extent promises

    A write overlays its bytes or a whole number of pieces of them; a read
    copies out what is there; a record put by a snapshot opens as the bytes it
    was put for, whatever is written since. *)

From S2P Require Import Prelude Abi Bytes StoreRecords StoreCodecs BlockDevice Sha256 Store StoreFacts StoreTheorems StoreObjects ExtentObject ExtentFacts.
#[local] Open Scope Z_scope.

(** ** Costs *)
Lemma put_nothing (l : list Z) a : put l a [] = l.
Proof. unfold put. cbn [app length]. by rewrite Nat.add_0_r, take_drop. Qed.

Lemma cost_total g size count : ∀ index p c h, 0 < g → 0 ≤ index → (index + Z.of_nat count) * g < size + g →
  0 ≤ p → p + Z.of_nat count ≤ u32_max → 0 ≤ c → 0 ≤ h →
  let sum := Z.min size ((index + Z.of_nat count) * g) - Z.min size (index * g) in c + sum ≤ u64_max → h + sum ≤ u64_max →
  foldl (λ cost i, Cost_and cost (mkCost 1 (piece_len size g i) (piece_len size g i))) (mkCost p c h) (seqZ index (Z.of_nat count)) =
  mkCost (p + Z.of_nat count) (c + sum) (h + sum).
Proof.
  induction count as [|count IH]; intros index p c h Hg Hi Hend Hp Hpc Hc0 Hh0 sum Hc Hh.
  { assert (E0 : sum = 0) by (unfold sum; rewrite Z.add_0_r; lia). 
    change (mkCost p c h = mkCost (p + 0) (c + sum) (h + sum)). by rewrite E0, !Z.add_0_r. }
  rewrite seqZ_cons by lia. replace (Z.pred (Z.of_nat (S count))) with (Z.of_nat count) by lia. cbn [foldl].
  assert (Hin : index * g < size) by nia. assert (Hmono : (index + 1) * g ≤ (index + Z.of_nat (S count)) * g) by nia.
  set (len := piece_len size g index). assert (Hlen : len = Z.min size ((index + 1) * g) - Z.min size (index * g)).
  { unfold len, piece_len, piece_at. lia. }
  unfold Cost_and at 2. cbn [cost_pieces cost_copied cost_hashed]. unfold saturating_add, u32_max, u64_max in *.
  rewrite !Z.min_l by (unfold sum in *; lia). rewrite <- Z.add_1_r. rewrite IH; try lia.
  f_equal; unfold sum; replace (index + 1 + Z.of_nat count) with (index + Z.of_nat (S count)) by lia; lia.
Qed.

(** The pieces a write touches. *)
Lemma touched_count g at_ len : 0 < g → 0 ≤ at_ → 0 < len →
  (at_ + len - 1) / g + 1 - at_ / g = div_ceil (at_ mod g + len) g.
Proof.
  intros Hg Ha Hl. unfold div_ceil. replace (at_ mod g + len + g - 1) with ((at_ + len - 1 - at_ / g * g) + 1 * g).
  - rewrite Z.div_add by lia. replace (at_ + len - 1 - at_ / g * g) with (at_ + len - 1 + (- (at_ / g)) * g) by lia.
    rewrite Z.div_add by lia. lia.
  - pose proof (Z.div_mod at_ g ltac:(lia)). lia.
Qed.

(** ** Reading *)
Section reads.
Context {D : Type} `{HL : DeviceLaws D}.
Implicit Types (s : Store D) (e : Extent).

Lemma slice_slice (l : list Z) a n b m : (b + m ≤ n)%nat → slice (slice l a n) b m = slice l (a + b) m.
Proof.
  intros H1. unfold slice. rewrite skipn_firstn_comm, take_take, drop_drop. f_equal; lia.
Qed.

Lemma put_take (into x : list Z) d : (d + length x ≤ length into)%nat → take (d + length x) (put into d x) = take d into ++ x.
Proof.
  intros Hd. unfold put. rewrite (assoc_L (++)). rewrite take_app_le by (rewrite length_app, length_take; lia).
  apply take_ge. rewrite length_app, length_take. lia.
Qed.

Lemma slice_add (l : list Z) a n m : slice l a (n + m) = slice l a n ++ slice l (a + n) m.
Proof. unfold slice. rewrite <- take_take_drop. by rewrite drop_drop. Qed.

Lemma read_pieces_spec e bs at_ g len : let end_ := at_ + len in
  0 < g → xt_piece_bytes e = g → 0 ≤ at_ → at_ < end_ ≤ Z.of_nat (length bs) →
  ∀ count index s buffer into r s' buffer' into',
  Store_sound s → Extent_is s e bs → length buffer = Z.to_nat g → Z.of_nat (length into) = len →
  take (before g at_ end_ index) into = slice bs (Z.to_nat at_) (before g at_ end_ index) →
  at_ / g ≤ index → index + Z.of_nat count = (end_ - 1) / g + 1 →
  read_pieces e at_ end_ (seqZ index (Z.of_nat count)) (Z.of_nat (before g at_ end_ index)) ((s, buffer), into) = (r, ((s', buffer'), into')) →
  same_store s s' ∧ length into' = length into ∧
  ((∃ f, r = Err f ∧ blk_read_fault f) ∨ (r = Ok len ∧ into' = slice bs (Z.to_nat at_) (Z.to_nat len))).
Proof.
  intros end_ Hg Eg Ha He. induction count as [|count IH]; intros index s buffer into r s' buffer' into' Hs Hx Hbuf Hinto Hdone Hlo Hhi E.
  { cbn in E. injection E as <- <- <- <-. split; [by apply same_store_refl, Hs|]. split; [done|]. right.
    assert (Hb : before g at_ end_ index = Z.to_nat len).
    { unfold before. pose proof (Z.mul_succ_div_gt (end_ - 1) g Hg). replace (Z.succ ((end_ - 1) / g)) with index in * by lia. lia. }
    rewrite Hb in *. split; [f_equal; lia|]. rewrite take_ge in Hdone by lia. done. }
  rewrite seqZ_cons in E by lia. replace (Z.pred (Z.of_nat (S count))) with (Z.of_nat count) in E by lia.
  assert (Hi : at_ / g ≤ index ≤ (end_ - 1) / g) by lia.
  destruct (part_spec g (Z.of_nat (length bs)) at_ end_ index Hg Ha He Hi) as (Hi0 & Hpe & Hft & Htl & Hlg & Ef & Et). unfold piece_at in Hpe, Ef, Et.
  pose proof (xi_size _ _ _ Hx) as [Hsz _]. rewrite <- Hsz in *.
  destruct (piece_held s e bs (Z.to_nat index) Hx) as (c & k & Ec & Ep & Hh & Hcl); [rewrite Eg; nia|]. rewrite Eg, Z2Nat.id in Hcl by done. rewrite Eg in Ec.
  cbn [read_pieces] in E. rewrite Eg in E. unfold sm_bind at 1, sm_lift at 1, index_or_panic in E.
  rewrite (proj2 (Z.ltb_ge _ _)), Ep in E by done. cbn [ok_or] in E.
  unfold sm_bind at 1, of_piece in E. destruct (Store_get (sha256 c) (s, buffer)) as [r1 [s1 buffer1]] eqn:G.
  apply (get_piece s c k) in G as (HS & Hl1 & Hr); [|done|done|lia].
  destruct Hr as [(f & -> & Hf)|[-> ->]]; [injection E as <- <- <- <-; split; [done|]; split; [done|]; left; by exists f|].
  rewrite Hcl in E. set (from := part_from g at_ index) in *. set (to := part_to g end_ index (piece_len (xt_extent_bytes e) g index)) in *.
  unfold sm_bind at 1, sm_get at 1, id in E. unfold sm_bind at 1, sm_lift at 1 in E.
  rewrite slice_panics in E by (rewrite ?length_app; lia).
  assert (Hpart : slice (c ++ drop (length c) buffer) (Z.to_nat from) (Z.to_nat (to - from)) =
    slice bs (Z.to_nat at_ + before g at_ end_ index) (Z.to_nat (to - from))).
  { rewrite chunks_lookup in Ec by done. destruct (decide _); [|done]. injection Ec as Ec.
    transitivity (slice c (Z.to_nat from) (Z.to_nat (to - from))).
    - unfold slice. rewrite drop_app_le by lia. by rewrite take_app_le by (rewrite length_drop; lia).
    - rewrite <- Ec, slice_slice by lia. f_equal. unfold before. nia. }
  rewrite Hpart in E. set (part := slice bs (Z.to_nat at_ + before g at_ end_ index) _) in *.
  assert (Hpl : length part = Z.to_nat (to - from)) by (apply length_slice; unfold before; lia).
  assert (Hd : (before g at_ end_ index + length part)%nat = before g at_ end_ (index + 1)) by (rewrite Hpl; unfold before; nia).
  unfold sm_bind at 1, into_range in E. rewrite copy_range_ok in E by (unfold before in *; lia). rewrite Nat2Z.id in E.
  rewrite <- Z.add_1_r in E. replace (Z.of_nat (before g at_ end_ index) + (to - from)) with (Z.of_nat (before g at_ end_ (index + 1))) in E by lia.
  assert (Hfits : (before g at_ end_ index + length part ≤ length into)%nat) by (unfold before in *; lia).
  apply IH in E as (HS2 & Hl2 & Hr2); try lia.
  - split; [by eapply same_store_trans|]. split; [rewrite Hl2; by apply length_put|done].
  - by eapply same_store_sound.
  - eapply Extent_is_kept; [done|by apply same_store_kept].
  - rewrite length_put by done. done.
  - rewrite <- Hd, put_take, Hdone, slice_add by done. unfold part at 1. fold part. by rewrite Hpl.
Qed.
End reads.

(** ** Publishing *)
Section publish.
Context {D : Type} `{HL : DeviceLaws D}.
Implicit Types (s : Store D) (e : Extent).

Lemma pieces_are s e bs : Extent_is s e bs → xt_pieces e = sha256 <$> chunks (xt_piece_bytes e) bs.
Proof. intros [_ _ _ _ HF]. induction HF as [|h c hs cs [-> _] _ IH]; [done|]. cbn. by rewrite IH. Qed.

Lemma head_of s e bs : Extent_is s e bs →
  ExtentHead_valid (mkExtentHead (xt_extent_bytes e) (Z.of_nat (length (xt_pieces e)))).
Proof.
  intros Hx. pose proof Hx as [[Hsz Hmax] [Hg _] _ Hcnt _]. unfold ExtentHead_valid, head_valid. cbn [eh_extent_bytes eh_pieces].
  rewrite (pieces_are s e bs Hx), length_fmap in *. pose proof (chunks_length _ Hg bs) as Hl. rewrite Hl in *.
  pose proof (div_ceil_spec (Z.of_nat (length bs)) _ ltac:(lia) Hg). unfold is_uint, u64_max in *. rewrite Hsz. split; [lia|]. split; [nia|]. nia.
Qed.

Lemma extent_content_spec s e bs : Extent_is s e bs → let content := extent_content e in
  Z.of_nat (length content) = 12 + Z.of_nat (length (xt_pieces e)) * 32 ∧ byte_list content ∧
  ExtentHead_from_bytes (take ExtentHead_HEAD_BYTES content) = Ok (mkExtentHead (xt_extent_bytes e) (Z.of_nat (length (xt_pieces e)))) ∧
  piece_hashes content (Z.of_nat (length (xt_pieces e))) = xt_pieces e.
Proof.
  intros Hx content. pose proof (head_of s e bs Hx) as Hv. pose proof (codec_size _ Hv) as Hl. change ExtentHead_HEAD_BYTES with 12%nat in *.
  pose proof (pieces_are s e bs Hx) as Ep. unfold content, extent_content. set (head := mkExtentHead _ _) in *.
  split; [|split; [|split]].
  - rewrite length_app, Hl. rewrite Ep at 1. rewrite concat_hashes, Ep, length_fmap. lia.
  - apply Forall_app. split; [by apply codec_bytes|]. rewrite Ep. apply Forall_concat, list.Forall_fmap, list.Forall_true.
    intros x. apply sha256_digest.
  - rewrite take_app_le, take_ge by lia. by apply codec_dec_enc.
  - unfold piece_hashes. rewrite Nat2Z.id. apply list_eq. intros i. rewrite list_lookup_fmap. destruct (decide (i < length (xt_pieces e))%nat) as [Hi|Hi].
    + rewrite lookup_seq_lt by done. cbn [fmap option_fmap option_map].
      destruct (lookup_lt_is_Some_2 _ _ Hi) as [h Eh]. rewrite Eh. f_equal. rewrite Ep in Eh.
      apply list_lookup_fmap_Some in Eh as (x & -> & Ex). rewrite Ep, <- (slice_hash _ i x Ex). unfold slice.
      change ExtentHead_HEAD_BYTES with 12%nat. replace (0 + i)%nat with i by lia. rewrite <- Hl. by rewrite drop_app_add.
    + rewrite lookup_seq_ge, lookup_ge_None_2 by lia. done.
Qed.

(** The granularity a handle is opened at: that of the first piece. *)
Definition grain_of (size g : Z) : Z := if size =? 0 then EXTENT_BYTES else Z.min size g.

Lemma chunks_grain bs g : 0 < g → chunks (grain_of (Z.of_nat (length bs)) g) bs = chunks g bs ∧ 0 < grain_of (Z.of_nat (length bs)) g.
Proof.
  intros Hg. unfold grain_of. destruct (Z.eqb_spec (Z.of_nat (length bs)) 0) as [E|Hne].
  - destruct bs; [|cbn in E; lia]. split; [|done]. apply list_eq. intros i. by rewrite !chunks_lookup by done.
  - split; [|lia]. destruct (Z.min_spec (Z.of_nat (length bs)) g) as [[Hlt ->]|[_ ->]]; [|done].
    apply list_eq. intros i. rewrite !chunks_lookup, Nat2Z.id by lia. assert (Hle : (length bs ≤ Z.to_nat g)%nat) by lia.
    destruct i as [|i]; [|by rewrite !decide_False by nia]. rewrite !decide_True by lia.
    f_equal. unfold slice. by rewrite !take_ge by (rewrite length_drop; lia).
Qed.

Lemma open_spec s e bs r s' : Store_sound s → Extent_is s e bs → holds s kind_EXTENT (extent_content e) →
  Extent_open (sha256 (extent_content e)) s = (r, s') →
  same_store s s' ∧ ((∃ f, r = Err f ∧ blk_read_fault f) ∨
    let e' := mkExtentHandle (xt_extent_bytes e) (xt_pieces e) (grain_of (xt_extent_bytes e) (xt_piece_bytes e)) in
    r = Ok e' ∧ Extent_is s' e' bs).
Proof.
  intros Hs Hx Hh E. pose proof Hx as [[Hsz Hmax] [Hg Hgm] Hb Hcnt HF].
  destruct (extent_content_spec s e bs Hx) as (Hlen & Hcb & Hdec & Hph). set (content := extent_content e) in *.
  change PIECES_MAX with (2 ^ 20) in Hcnt. unfold Extent_open in E. unfold sm_bind at 1 in E.
  destruct (Store_head (sha256 content) s) as [r1 s1] eqn:E1. apply Store_head_spec in E1 as [HS1 Hr1]; [|done].
  destruct Hr1 as [(f & -> & Hf)| ->]; [injection E as <- <-; split; [done|]; left; by exists f|].
  destruct (holds_located _ _ _ Hh) as (b & L & _). destruct (holds_claimed s _ _ b Hs Hh L) as (Eh & _ & _). rewrite L, Eh in E.
  cbn [or_refuse hdr_kind blob_header hdr_content_bytes] in E. rewrite Z.eqb_refl in E. cbn [negb] in E.
  pose proof (same_store_sound _ _ Hs HS1) as Hs1. pose proof (same_store_holds _ _ _ _ HS1 Hh) as Hh1.
  unfold sm_bind at 1, with_buffer in E. rewrite (proj2 (Z.ltb_ge _ _)), Nat2Z.id in E by (rewrite Hlen; unfold isize_max; lia).
  destruct (Store_get (sha256 content) (s1, _)) as [r2 [s2 content']] eqn:E2.
  apply (get_holds s1 kind_EXTENT content) in E2 as [HS2 Hr2]; [|done|done|by unfold zeroed; rewrite length_replicate].
  pose proof (same_store_trans _ _ _ HS1 HS2) as HS12.
  destruct Hr2 as [(f & -> & Hf)|[-> ->]]; [injection E as <- <-; split; [done|]; left; by exists f|].
  unfold zeroed in E. rewrite drop_ge, app_nil_r in E by by rewrite length_replicate.
  rewrite (proj2 (Nat.ltb_ge _ _)) in E by (unfold ExtentHead_HEAD_BYTES; lia).
  unfold sm_bind at 1, sm_lift at 1 in E. rewrite Hdec in E. cbn [or_refuse] in E. unfold ExtentHead_bytes in E. cbn [eh_pieces eh_extent_bytes] in E.
  rewrite (proj2 (Z.eqb_eq _ _)) in E by (rewrite Hlen; unfold ExtentHead_HEAD_BYTES; lia). cbn [negb] in E. rewrite Hph in E.
  destruct (chunks_grain bs (xt_piece_bytes e) Hg) as [Eg Hg0]. rewrite <- Hsz in Eg, Hg0.
  set (g' := grain_of (xt_extent_bytes e) (xt_piece_bytes e)) in *.
  assert (Hgrain : ∀ r3 s3, granularity_of (xt_pieces e) s2 = (r3, s3) → same_store s2 s3 ∧ ((∃ f, r3 = Err f ∧ blk_read_fault f) ∨ r3 = Ok g')).
  { intros r3 s3. pose proof (same_store_sound _ _ Hs HS12) as Hs2. inversion HF as [Enil Ecs|h c hs cs [-> [k Hk]] _ Ehs Ecs].
    - intros [= <- <-]. split; [by apply same_store_refl, Hs2|]. right. f_equal. unfold g', grain_of.
      symmetry in Ecs. apply (f_equal length) in Ecs. pose proof (chunks_length _ Hg bs) as Hcl. rewrite Ecs in Hcl. cbn in Hcl.
      pose proof (div_ceil_spec (Z.of_nat (length bs)) _ ltac:(lia) Hg) as Hd. rewrite <- Hcl in Hd. destruct (Z.eqb_spec (xt_extent_bytes e) 0); [done|lia].
    - unfold granularity_of, sm_bind. destruct (Store_head (sha256 c) s2) as [r4 s4] eqn:E4. apply Store_head_spec in E4 as [HS4 Hr4]; [|done].
      destruct Hr4 as [(f & -> & Hf)| ->]; [intros [= <- <-]; split; [done|]; left; by exists f|].
      pose proof (same_store_holds _ _ _ _ HS12 Hk) as Hk2. destruct (holds_located _ _ _ Hk2) as (b2 & L2 & _).
      destruct (holds_claimed s2 _ _ b2 Hs2 Hk2 L2) as (Eh2 & _ & _). rewrite L2, Eh2. intros [= <- <-]. split; [done|]. right. f_equal. cbn.
      assert (Ec0 : chunks (xt_piece_bytes e) bs !! 0%nat = Some c) by by rewrite <- Ecs.
      destruct (chunk_length _ Hg _ _ _ Ec0) as [-> Hlt]. unfold g', grain_of. destruct (Z.eqb_spec (xt_extent_bytes e) 0); lia. }
  unfold sm_bind at 1 in E. destruct (granularity_of (xt_pieces e) s2) as [r3 s3] eqn:E3.
  destruct (Hgrain _ _ eq_refl) as [HS3 Hr3]. pose proof (same_store_trans _ _ _ HS12 HS3) as HS13.
  destruct Hr3 as [(f & -> & Hf)| ->]; [injection E as <- <-; split; [done|]; left; by exists f|].
  rewrite (proj2 (Z.eqb_neq g' 0)) in E by lia. pose proof (chunks_length g' Hg0 bs) as Hcl. rewrite Eg in Hcl.
  assert (Hn : length (xt_pieces e) = length (chunks (xt_piece_bytes e) bs)) by by eapply Forall2_length.
  rewrite (proj2 (Z.eqb_eq _ _)) in E by (rewrite Hsz, Hn; by symmetry). cbn [orb negb] in E. injection E as <- <-.
  split; [done|]. right. split; [done|]. eapply Extent_is_kept; [|by apply same_store_kept]. split; cbn; try done.
  - unfold g', grain_of in *. destruct (_ =? 0); [done|lia].
  - by rewrite Eg.
Qed.
End publish.

Section puts.
Context {D : Type} `{HL : DeviceLaws D}.
Context (P : list Z → Prop) (Hinj : ∀ x y, P x → P y → sha256 x = sha256 y → x = y).
Implicit Types (s : Store D) (e : Extent).

Lemma put_pieces_spec l : ∀ s r s', clean P s →
  (∀ x, x ∈ l → P x ∧ fits s x) → put_pieces l s = (r, s') →
  clean P s' ∧ kept s s' ∧
  ((∃ f, r = Err f ∧ put_refused f) ∨ (r = Ok (sha256 <$> l) ∧ ∀ x, x ∈ l → ∃ k, holds s' k x)).
Proof.
  induction l as [|x l IH]; intros s r s' Hc Hl; cbn [put_pieces].
  { intros [= <- <-]. split; [done|]. split; [done|]. right. split; [done|]. by intros x ?%elem_of_nil. }
  destruct (Hl x (list_elem_of_here _ _)) as [Hp Hf]. unfold sm_bind at 1. destruct (Store_put kind_CHUNK x s) as [r1 s1] eqn:E1.
  apply (put_clean P Hinj) in E1 as (Hc1 & K1 & Hr1); [|done..]. destruct Hr1 as [(f & -> & Hf1)|(-> & k & Hk & _)].
  { intros [= <- <-]. split; [done|]. split; [done|]. left. by exists f. }
  unfold sm_bind. destruct (put_pieces l s1) as [r2 s2] eqn:E2. apply IH in E2 as (Hc2 & K2 & Hr2); [|done|].
  2:{ intros y Hy. destruct (Hl y) as [Hpy [Hby Hfy]]; [by apply list_elem_of_further|]. split; [done|]. split; [done|].
      by rewrite (kp_block _ _ K1). }
  pose proof (transitivity K1 K2) as K12. destruct Hr2 as [(f & -> & Hf2)|[-> Hall]]; intros [= <- <-].
  - split; [done|]. split; [done|]. left. by exists f.
  - split; [done|]. split; [done|]. right. split; [done|]. intros y [->|Hy]%elem_of_cons; [|by apply Hall].
    exists k. by apply (kp_holds _ _ K2).
Qed.

(** A handle whose pieces are held. *)
Lemma handle_is s bs g : 0 < g ≤ isize_max → byte_list bs → Z.of_nat (length bs) ≤ u64_max → div_ceil (Z.of_nat (length bs)) g ≤ PIECES_MAX →
  (∀ x, x ∈ chunks g bs → ∃ k, holds s k x) → Extent_is s (mkExtentHandle (Z.of_nat (length bs)) (sha256 <$> chunks g bs) g) bs.
Proof.
  intros Hg Hb Hm Hn Hh. split; cbn; [done|done|done|by rewrite length_fmap, chunks_length by lia|].
  induction (chunks g bs) as [|c cs IH]; [constructor|]. constructor; [split; [done|]; apply Hh, list_elem_of_here|].
  apply IH. intros x Hx. by apply Hh, list_elem_of_further.
Qed.

Lemma create_spec s bytes r s' : clean P s → byte_list bytes → Z.of_nat (length bytes) ≤ u64_max →
  Z.of_nat Header_BYTES + EXTENT_BYTES + Store_block_bytes s ≤ isize_max → (∀ x, x ∈ chunks EXTENT_BYTES bytes → P x) →
  Extent_create bytes s = (r, s') →
  clean P s' ∧ kept s s' ∧
  ((∃ f, r = Err f ∧ (put_refused f ∨ (f = Refused refusal_UNKNOWN ∧ PIECES_MAX < div_ceil (Z.of_nat (length bytes)) EXTENT_BYTES))) ∨
   (∃ e, r = Ok e ∧ Extent_is s' e bytes ∧ xt_piece_bytes e = EXTENT_BYTES)).
Proof.
  intros Hc Hb Hm Hfit HP. unfold Extent_create. destruct (Z.ltb_spec PIECES_MAX (div_ceil (Z.of_nat (length bytes)) EXTENT_BYTES)) as [Hbig|Hn].
  { intros [= <- <-]. split; [done|]. split; [done|]. left. eexists. split; [done|]. by right. }
  unfold sm_bind. destruct (put_pieces _ s) as [r1 s1] eqn:E1. apply put_pieces_spec in E1 as (Hc1 & K1 & Hr1); [|done|].
  2:{ intros x Hx. split; [by apply HP|]. apply list_elem_of_lookup in Hx as [i Ex]. destruct (chunk_length EXTENT_BYTES ltac:(done) _ _ _ Ex) as [Hl _].
      rewrite chunks_lookup in Ex by done. destruct (decide _); [|done]. injection Ex as <-. split; [by apply slice_bytes|lia]. }
  destruct Hr1 as [(f & -> & Hf)|[-> Hall]]; intros [= <- <-]; (split; [done|]); (split; [done|]).
  - left. exists f. split; [done|by left].
  - right. eexists. split; [done|]. split; [|done]. by apply handle_is.
Qed.

Lemma same_store_sym s s' : Store_sound s → same_store s s' → same_store s' s.
Proof.
  intros Hs (((Ho & Eb & Ec) & Hv) & E1 & E2 & E3). split; [|done]. split; [split; [apply Hs|done]|]. intros b. symmetry. apply Hv.
Qed.

Lemma snapshot_spec s e bs r s' : clean P s → Extent_is s e bs → P (extent_content e) → fits s (extent_content e) →
  (∀ k, holds s k (extent_content e) → k = kind_EXTENT) → Extent_snapshot e s = (r, s') →
  clean P s' ∧ kept s s' ∧
  ((∃ f, r = Err f ∧ put_refused f) ∨
   (∃ n, r = Ok (sha256 (extent_content e), mkCost 0 n n) ∧ n = 12 + 32 * Z.of_nat (length (xt_pieces e)) ∧ holds s' kind_EXTENT (extent_content e))).
Proof.
  intros Hc Hx Hp Hf Hk. destruct (extent_content_spec s e bs Hx) as (Hlen & _). pose proof (xi_count _ _ _ Hx) as Hn. change PIECES_MAX with (2 ^ 20) in Hn.
  unfold Extent_snapshot. rewrite (proj2 (Z.ltb_ge _ _)) by (unfold u32_max; lia).
  assert (Hbar : ∀ s0 r0 s0', clean P s0 → Store_barrier s0 = (r0, s0') → same_store s0 s0' ∧ (r0 = Ok tt ∨ ∃ f, r0 = Err f ∧ put_refused f)).
  { intros s0 r0 s0' Hc0. unfold Store_barrier, on_blocks. destruct (blk_flush _) as [rb db] eqn:Eb. intros [= <- <-].
    apply law_flush in Eb as [Hb Hr]; [|apply (cl_sound P s0 Hc0)]. split; [by apply on_device_same|].
    destruct Hr as [->|(f & -> & Hff)]; [by left|right]. exists f. split; [done|by right]. }
  unfold sm_bind at 1. destruct (Store_barrier s) as [r1 s1] eqn:E1. apply Hbar in E1 as [HS1 Hr1]; [|done].
  pose proof (clean_same P _ _ Hc HS1) as Hc1. pose proof (same_store_kept _ _ HS1) as K1.
  destruct Hr1 as [->|(f & -> & Hff)]; [|intros [= <- <-]; split; [done|]; split; [done|]; left; by exists f].
  unfold sm_bind at 1. destruct (Store_put kind_EXTENT _ s1) as [r2 s2] eqn:E2.
  apply (put_clean P Hinj) in E2 as (Hc2 & K2 & Hr2); [|done|done| |done].
  2:{ destruct Hf as [Hb Hf]. split; [done|]. by rewrite (kp_block _ _ K1). }
  pose proof (transitivity K1 K2) as K12.
  destruct Hr2 as [(f & -> & Hff)|(-> & k & Hh & Hkind)]; [intros [= <- <-]; split; [done|]; split; [done|]; left; by exists f|].
  assert (k = kind_EXTENT) as ->.
  { apply Hkind. intros k0 Hk0. apply Hk. eapply same_store_holds; [|exact Hk0]. by apply same_store_sym; [apply Hc|]. }
  unfold sm_bind. destruct (Store_barrier s2) as [r3 s3] eqn:E3. apply Hbar in E3 as [HS3 Hr3]; [|done].
  pose proof (clean_same P _ _ Hc2 HS3) as Hc3. pose proof (transitivity K12 (same_store_kept _ _ HS3)) as K13.
  destruct Hr3 as [->|(f & -> & Hff)]; intros [= <- <-]; (split; [done|]); (split; [done|]); [right|left; by exists f].
  exists (Z.of_nat (length (extent_content e))). split; [reflexivity|]. split; [lia|]. by eapply same_store_holds.
Qed.
End puts.

(** C31 A write overlays its bytes, and is priced by the pieces it touches.  A
    write past the end is refused and changes nothing.  Within the extent, the
    handle afterwards stands for the bytes with a front of the written ones over
    them: all of them when the write answers, and then the cost is the pieces
    under the range, each whole; the pieces already put when a read or a put
    refuses.  Whatever the store held it holds still, so a published snapshot and
    another handle on the same pieces are not written through.  Asked of the
    store: that what it has located is held, among contents no two of which
    share a digest, the pieces to be written with them. *)
Theorem extent_writes {D} `{HL : DeviceLaws D} (P : list Z → Prop) (s : Store D) e bs at_ bytes r e' s' :
  (∀ x y, P x → P y → sha256 x = sha256 y → x = y) → clean P s → Extent_is s e bs → byte_list bytes → 0 ≤ at_ →
  Z.of_nat Header_BYTES + xt_piece_bytes e + Store_block_bytes s ≤ isize_max →
  (∀ c, c ∈ chunks (xt_piece_bytes e) (put bs (Z.to_nat at_) bytes) → P c) →
  Extent_write at_ bytes (e, s) = (r, (e', s')) →
  let len := Z.of_nat (length bytes) in let g := xt_piece_bytes e in
  clean P s' ∧ (∀ k c, holds s k c → holds s' k c) ∧
  (Z.of_nat (length bs) < at_ + len → r = Err (Refused refusal_ADDRESS) ∧ e' = e ∧ s' = s) ∧
  (at_ + len ≤ Z.of_nat (length bs) → ∃ m, (m ≤ length bytes)%nat ∧ Extent_is s' e' (put bs (Z.to_nat at_) (take m bytes)) ∧
     ((∃ f, r = Err f ∧ io_refused f) ∨
      (m = length bytes ∧ ∃ cost, r = Ok cost ∧ cost_pieces cost = (if bytes is [] then 0 else div_ceil (at_ mod g + len) g) ∧
         cost_copied cost ≤ cost_pieces cost * g ∧ cost_hashed cost = cost_copied cost))).
Proof.
  intros Hinj Hc Hx Hb Ha Hfit HP E len g. pose proof Hx as [[Hsz Hmax] [Hg Hgm] Hbb Hcnt HF]. unfold Extent_write in E. fold len in E.
  rewrite Hsz in E. destruct (Z.ltb_spec u64_max (at_ + len)) as [Hover|Hin].
  { injection E as <- <- <-. split; [done|]. split; [done|]. split; [done|lia]. }
  destruct (Z.ltb_spec (Z.of_nat (length bs)) (at_ + len)) as [Hpast|Hin'].
  { injection E as <- <- <-. split; [done|]. split; [done|]. split; [done|lia]. }
  destruct (decide (bytes = [])) as [->|Hne].
  { injection E as <- <- <-. split; [done|]. split; [done|]. split; [cbn in *; lia|]. intros _. exists 0%nat. split; [done|].
    assert (Enil : put bs (Z.to_nat at_) (take 0 []) = bs) by apply put_nothing.
    rewrite Enil. split; [done|]. right. split; [done|]. exists Cost_default. done. }
  assert (Hlen : 0 < len) by (unfold len; destruct bytes; [done|cbn; lia]).
  rewrite (proj2 (Nat.eqb_neq _ 0)), (proj2 (Z.eqb_neq _ _)), (proj2 (Z.ltb_ge _ _)) in E by lia. cbn [orb] in E. fold g in E.
  destruct (write_pieces _ _ _ _ _ _) as [r1 [e1 [s1 buffer1]]] eqn:W. injection E as <- <- <-.
  set (first := at_ / g) in *. set (count := (at_ + len - 1) / g + 1 - first).
  assert (Hcount : 0 < count).
  { unfold count, first. pose proof (Z.div_le_mono at_ (at_ + len - 1) g Hg ltac:(lia)). lia. }
  assert (Htouched : touched g at_ (at_ + len) = seqZ first (Z.of_nat (Z.to_nat count))) by (unfold touched; f_equal; unfold count; lia).
  rewrite Htouched in W.
  assert (Hfirst : first * g ≤ at_) by (unfold first; pose proof (Z.mul_div_le at_ g Hg); lia).
  assert (Hb0 : before g at_ (at_ + len) first = 0%nat) by (unfold before; lia).
  assert (E0 : put bs (Z.to_nat at_) (take 0 bytes) = bs) by (rewrite take_0; apply put_nothing).
  apply (write_pieces_spec P Hinj bs bytes at_ g (xt_extent_bytes e)) in W as (Hc' & K & _ & m & Hm & Hx' & Hr);
    try done || (fold len; lia); [|fold len; by rewrite Hb0, E0|unfold zeroed; by rewrite length_replicate].
  split; [done|]. split; [apply K|]. split; [lia|]. intros _. exists m. split; [done|]. split; [done|].
  destruct Hr as [Hr|[Hm' Hr]]; [by left|right]. split; [done|]. eexists. split; [exact Hr|].
  assert (Hends : count * g + first * g ≤ at_ + len - 1 + g).
  { unfold count. pose proof (Z.mul_div_le (at_ + len - 1) g Hg). nia. }
  assert (Hcp : count ≤ PIECES_MAX).
  { pose proof (list.Forall2_length _ _ _ HF) as HL2. pose proof (chunks_length g Hg bs) as HL3. fold g in HL2.
    pose proof (div_ceil_spec (Z.of_nat (length bs)) g ltac:(lia) Hg). rewrite <- HL3 in *. unfold first in *. pose proof (Z.div_pos at_ g Ha Hg). nia. }
  change PIECES_MAX with (2 ^ 20) in Hcp. unfold Cost_default. pose proof (Z.div_pos at_ g Ha Hg) as Hf0. fold first in Hf0.
  assert (Hdist : (first + count) * g = first * g + count * g) by lia.
  rewrite cost_total; try (unfold u32_max; lia); rewrite ?Z2Nat.id by lia; rewrite ?Hsz.
  cbn [cost_pieces cost_copied cost_hashed]. rewrite Hdist. split; [|split; [lia|done]].
  destruct bytes; [done|]. unfold count, first, len. rewrite <- touched_count by (fold len; lia). lia.
Qed.

(** A read copies out what the handle stands for, and nothing else.  A range
    past the end is refused and the buffer left alone; within the extent the
    buffer is filled with the bytes there, unless the device refuses a read.
    The store is as it was. *)
Theorem extent_reads {D} `{HL : DeviceLaws D} (s : Store D) e bs at_ into r s' into' :
  Store_sound s → Extent_is s e bs → 0 ≤ at_ → Extent_read e at_ (s, into) = (r, (s', into')) →
  let len := Z.of_nat (length into) in
  same_store s s' ∧ length into' = length into ∧
  (Z.of_nat (length bs) < at_ + len → r = Err (Refused refusal_ADDRESS) ∧ into' = into) ∧
  (at_ + len ≤ Z.of_nat (length bs) →
     (∃ f, r = Err f ∧ blk_read_fault f) ∨ (r = Ok len ∧ into' = slice bs (Z.to_nat at_) (length into))).
Proof.
  intros Hs Hx Ha E len. pose proof Hx as [[Hsz Hmax] [Hg Hgm] _ _ _]. unfold Extent_read in E. fold len in E. rewrite Hsz in E.
  assert (Hsame : same_store s s) by by apply same_store_refl, Hs.
  destruct (Z.ltb_spec u64_max (at_ + len)) as [Hover|Hin].
  { injection E as <- <- <-. split; [done|]. split; [done|]. split; [done|lia]. }
  destruct (Z.ltb_spec (Z.of_nat (length bs)) (at_ + len)) as [Hpast|Hin'].
  { injection E as <- <- <-. split; [done|]. split; [done|]. split; [done|lia]. }
  destruct (Nat.eqb_spec (length into) 0) as [Hz|Hnz].
  { injection E as <- <- <-. split; [done|]. split; [done|]. split; [lia|]. intros _. right. unfold len.
    apply nil_length_inv in Hz as ->. done. }
  rewrite (proj2 (Z.eqb_neq _ _)), (proj2 (Z.ltb_ge _ _)) in E by lia. cbn [orb] in E. set (g := xt_piece_bytes e) in *.
  destruct (read_pieces _ _ _ _ _ _) as [r1 [[s1 buffer1] into1]] eqn:W.
  set (first := at_ / g) in *. set (count := (at_ + len - 1) / g + 1 - first).
  assert (Hcount : 0 < count).
  { unfold count, first. pose proof (Z.div_le_mono at_ (at_ + len - 1) g Hg ltac:(lia)). lia. }
  assert (Htouched : touched g at_ (at_ + len) = seqZ first (Z.of_nat (Z.to_nat count))) by (unfold touched; f_equal; unfold count; lia).
  assert (Hfirst : first * g ≤ at_) by (unfold first; pose proof (Z.mul_div_le at_ g Hg); lia).
  assert (Hb0 : before g at_ (at_ + len) first = 0%nat) by (unfold before; lia).
  rewrite Htouched in W. change 0 with (Z.of_nat 0) in W. rewrite <- Hb0 in W.
  apply (read_pieces_spec e bs at_ g len) in W as (HS & Hl & Hr); try done || lia;
    [|unfold zeroed; by rewrite length_replicate|by rewrite Hb0].
  assert (Hres : (r, s', into') = (match r1 with Ok d => if negb (d =? len) then Err (Refused refusal_MALFORMED) else Ok d | Err f => Err f end, s1, into1)).
  { rewrite Hl in E. fold len in E. destruct r1 as [d|f]; [destruct (negb (d =? len))|]; by injection E as <- <- <-. }
  injection Hres as -> -> ->. split; [done|]. split; [done|]. split; [lia|]. intros _.
  destruct Hr as [(f & -> & Hf)|[-> ->]]; [left; by exists f|right]. rewrite Z.eqb_refl. split; [done|]. unfold len. by rewrite Nat2Z.id.
Qed.


(** *** Seven bytes in pieces of three *)
Definition ext_bytes : list Z := [1; 2; 3; 4; 5; 6; 7].
Definition ext_handle : Extent := mkExtentHandle 7 (sha256 <$> chunks 3 ext_bytes) 3.
Definition ext_contents : list (list Z) := [[1; 2; 3]; [4; 5; 6]; [7]; [1; 2; 9]; [9; 5; 6]; extent_content ext_handle].
Definition ext_in (x : list Z) : Prop := x ∈ ext_contents.
Definition ext_put : res fault (list (list Z)) * Store Memory := put_pieces (chunks 3 ext_bytes) ex_store.

Lemma ext_apart x y : ext_in x → ext_in y → sha256 x = sha256 y → x = y.
Proof.
  assert (H : Forall (λ x, Forall (λ y, sha256 x = sha256 y → x = y) ext_contents) ext_contents).
  { apply (bool_decide_unpack _). vm_compute. exact I. }
  rewrite list.Forall_forall in H. intros Hx Hy. specialize (H x Hx). rewrite list.Forall_forall in H. by apply H.
Qed.

Lemma ext_put_ok : is_ok (ext_put.1) = true.
Proof. vm_compute. reflexivity. Qed.

Lemma ext_elem x : bool_decide (x ∈ ext_contents) = true → ext_in x.
Proof. apply bool_decide_eq_true. Qed.

Lemma ext_store_clean : clean ext_in ext_put.2 ∧ Extent_is ext_put.2 ext_handle ext_bytes ∧ Store_block_bytes ext_put.2 = 512.
Proof.
  pose proof ext_put_ok as Hok. destruct ext_put as [r s] eqn:E. cbn [fst snd] in *. destruct ex_store_wf as (Hwf & Hl & Hsb).
  assert (Hbb : Store_block_bytes ex_store = 512) by (unfold Store_block_bytes; by rewrite Hsb).
  assert (Hc : clean ext_in ex_store).
  { split; [by apply wf_sound|]. intros h b. by rewrite Hl, lookup_empty. }
  apply (put_pieces_spec ext_in ext_apart) in E as (Hc' & K & Hr); [|done|].
  2:{ assert (H : Forall (λ x, x ∈ ext_contents ∧ byte_list x ∧ Z.of_nat (length x) ≤ 2 ^ 32) (chunks 3 ext_bytes)).
      { apply (bool_decide_unpack _). vm_compute. exact I. }
      rewrite list.Forall_forall in H. intros x Hx. destruct (H x Hx) as (H1 & H2 & H3). split; [exact H1|]. by apply ex_store_fits. }
  destruct Hr as [(f & -> & _)|[-> Hall]]; [discriminate Hok|]. split; [exact Hc'|]. split; [|exact (eq_trans (kp_block _ _ K) Hbb)].
  apply (handle_is s ext_bytes 3); [split; [by apply Z.ltb_lt|by apply Z.leb_le]| |by apply Z.leb_le|by apply Z.leb_le|exact Hall].
  apply (bool_decide_unpack _). vm_compute. exact I.
Qed.

Lemma extent_writes_witness : ∃ e' s', Extent_write 2 [9; 9] (ext_handle, ext_put.2) = (Ok (mkCost 2 6 6), (e', s')) ∧
  Extent_is s' e' [1; 2; 9; 9; 5; 6; 7] ∧ Extent_is s' ext_handle ext_bytes.
Proof.
  assert (Hc : match (Extent_write 2 [9; 9] (ext_handle, ext_put.2)).1 with Ok c => c = mkCost 2 6 6 | Err _ => False end) by (vm_compute; reflexivity).
  destruct ext_store_clean as (Hcl & Hx & Hbb).
  destruct (Extent_write 2 [9; 9] (ext_handle, ext_put.2)) as [r [e' s']] eqn:E. cbn [fst] in Hc. destruct r as [c|]; [|destruct Hc]. rewrite Hc in E.
  exists e', s'. rewrite Hc. split; [reflexivity|].
  destruct (extent_writes ext_in ext_put.2 ext_handle ext_bytes 2 [9; 9] _ e' s' ext_apart Hcl Hx
    ltac:(apply (bool_decide_unpack _); vm_compute; exact I) ltac:(lia) ltac:(rewrite Hbb; by apply Z.leb_le)
    ltac:(intros c0 Hin; cut (Forall (λ c, c ∈ ext_contents) (chunks 3 (put ext_bytes 2 [9; 9]))); [intros HF; rewrite list.Forall_forall in HF; exact (HF c0 Hin)|apply (bool_decide_unpack _); vm_compute; exact I])
    E) as (_ & Hk & _ & Hw).
  destruct (Hw ltac:(by apply Z.leb_le)) as (m & _ & Hx' & [(f & [=] & _)|(-> & _)]). split; [exact Hx'|].
  exact (Extent_is_holds _ _ _ _ Hx Hk).
Defined.

Lemma extent_reads_witness : ∃ s', Extent_read ext_handle 2 (ext_put.2, [0; 0; 0]) = (Ok 3, (s', [3; 4; 5])).
Proof.
  assert (Hc : is_ok (Extent_read ext_handle 2 (ext_put.2, [0; 0; 0])).1 = true) by (vm_compute; reflexivity).
  destruct ext_store_clean as (Hcl & Hx & Hbb). destruct (Extent_read ext_handle 2 (ext_put.2, [0; 0; 0])) as [r [s' into']] eqn:E.
  destruct (extent_reads ext_put.2 ext_handle ext_bytes 2 [0; 0; 0] r s' into' (cl_sound _ _ Hcl) Hx ltac:(lia) E) as (_ & _ & _ & Hr).
  destruct (Hr ltac:(by apply Z.leb_le)) as [(f & -> & _)|[-> ->]]; [discriminate Hc|]. exists s'. reflexivity.
Defined.


(** *** A piece shorter than the granularity

    [open] looks at the length of the first piece only.  A record whose second
    piece is short opens, and a read of what that piece should hold stops the
    program: the part to copy ends before it begins. *)
Definition short_pieces : list (list Z) := [[1; 2; 3; 4; 5]; [6; 7]; [8; 9; 10; 11; 12]].
Definition short_handle : Extent := mkExtentHandle 15 (sha256 <$> short_pieces) 5.

Definition short_read : res fault Extent * res fault Z :=
  let '(_, s) := put_pieces short_pieces ex_store in
  let '(name, s) := Store_put kind_EXTENT (extent_content short_handle) s in
  match name with
  | Ok name => let '(e, s) := Extent_open name s in (e, (Extent_read short_handle 8 (s, zeroed 4)).1)
  | Err f => (Err f, Err f)
  end.

Example short_piece_stops_a_read : short_read = (Ok short_handle, Err Panicked).
Proof. vm_compute. reflexivity. Qed.
