(* ===== verification/SceneWire.v ===== *)
(** * Scene deltas on the wire: [abi/src/scene.rs]

    A delta is a submission entry and a payload of one width.  [Writer] and
    [Reader] move a position over the payload; a record is an instance of
    [WireRecord], what it writes and what it reads; [Delta_encode] and
    [Delta_decode] are the entry around it.  The records are codecs of [Bytes],
    and the last theorem says a delta is decoded from its own encoding and from
    nothing else. *)

From S2P Require Import Prelude Abi Control Ring Bytes.
Import error.

#[local] Open Scope Z_scope.

Definition PAYLOAD_BYTES : Z := 56.
Definition SQE_BYTES : Z := 64.
Definition NO_NODE : Z := 0.
Definition FLAGS_ACCEPTED : Z := flags_NO_CQE.

Definition kind_TRANSFORM : Z := 1.
Definition kind_CLIP : Z := 2.
Definition kind_LAYER : Z := 3.
Definition kind_DRAW : Z := 4.
Definition kind_EFFECT : Z := 5.
Definition kind_SEMANTIC : Z := 6.

Definition kind_known (value : Z) : bool :=
  existsb (Z.eqb value) [kind_TRANSFORM; kind_CLIP; kind_LAYER; kind_DRAW; kind_EFFECT; kind_SEMANTIC].

Definition fill_NON_ZERO : Z := 1.
Definition fill_EVEN_ODD : Z := 2.

Definition fill_known (value : Z) : bool := existsb (Z.eqb value) [fill_NON_ZERO; fill_EVEN_ODD].

Inductive WireRefusal : Type :=
| UnknownOpcode | UnknownFlag | Reserved | Malformed | Value | NoNode | NotScheduled.

#[export] Instance WireRefusal_eq_dec : EqDecision WireRefusal.
Proof. solve_decision. Defined.

Definition WireRefusal_packed (r : WireRefusal) : Z :=
  error_pack ARGUMENT
    match r with
    | UnknownOpcode => UNKNOWN_OPCODE
    | Reserved => RESERVED_NOT_ZERO
    | Malformed => MALFORMED_HEADER
    | UnknownFlag | Value | NoNode | NotScheduled => UNKNOWN_FLAG
    end.

(** ** Writing and reading a payload *)
Record Writer : Type := mkWriter { w_out : list Z; w_at : nat }.

Definition Writer_put (bytes : list Z) (w : Writer) : Writer :=
  mkWriter (put (w_out w) (w_at w) bytes) (w_at w + length bytes).

Definition Writer_u16 (value : Z) : Writer → Writer := Writer_put (le_bytes 2 value).
Definition Writer_u32 (value : Z) : Writer → Writer := Writer_put (le_bytes 4 value).
Definition Writer_u64 (value : Z) : Writer → Writer := Writer_put (le_bytes 8 value).
(** The bytes of a negative number are those of its two's complement. *)
Definition Writer_i64 (value : Z) : Writer → Writer := Writer_put (le_bytes 8 value).

Record Reader : Type := mkReader { r_raw : list Z; r_at : nat }.

Definition Reader_take (bytes : nat) : sm Reader WireRefusal nat :=
  λ r, (Ok (r_at r), mkReader (r_raw r) (r_at r + bytes)).

Definition Reader_word (bytes : nat) : sm Reader WireRefusal Z :=
  do! at_ <- Reader_take bytes;
  sm_get (λ r, from_le (slice (r_raw r) at_ bytes)).

Definition Reader_u16 : sm Reader WireRefusal Z := Reader_word 2.
Definition Reader_u32 : sm Reader WireRefusal Z := Reader_word 4.
Definition Reader_u64 : sm Reader WireRefusal Z := Reader_word 8.

Definition cast_signed (v : Z) : Z := if v <? 2 ^ 63 then v else v - 2 ^ 64.

Definition Reader_i64 : sm Reader WireRefusal Z :=
  do! v <- Reader_u64; sm_ret (cast_signed v).

Definition Reader_finish (r : Reader) : res WireRefusal unit :=
  if forallb (Z.eqb 0) (drop (r_at r) (r_raw r)) then Ok tt else Err Reserved.

Definition refuse_if (c : bool) (why : WireRefusal) : sm Reader WireRefusal unit :=
  if c then sm_err why else sm_ret tt.

(** The trait [Record]. *)
Class WireRecord (R : Type) : Type := {
  WIDTH : nat;
  write : R → Writer → Writer;
  read : sm Reader WireRefusal R;
}.

Definition to_payload {R} `{WireRecord R} (r : R) : list Z :=
  w_out (write r (mkWriter (zeroed (Z.to_nat PAYLOAD_BYTES)) 0)).

Definition from_payload {R} `{WireRecord R} (raw : list Z) : res WireRefusal R :=
  match read (mkReader raw 0) with
  | (Err e, _) => Err e
  | (Ok value, reader) =>
      if negb (r_at reader =? WIDTH (R := R))%nat then Err Reserved
      else let? _ := Reader_finish reader in Ok value
  end.

(** ** The records *)
Record CreateNode : Type := mkCreateNode {
  create_node : Z; create_parent : Z; create_before : Z; create_kind : Z;
}.

#[export] Instance CreateNode_record : WireRecord CreateNode := {
  WIDTH := 4 + 4 + 4 + 2;
  write r w :=
    Writer_u16 (create_kind r) (Writer_u32 (create_before r)
      (Writer_u32 (create_parent r) (Writer_u32 (create_node r) w)));
  read :=
    do! node <- Reader_u32;
    do! parent <- Reader_u32;
    do! before <- Reader_u32;
    do! kind <- Reader_u16;
    do! _ <- refuse_if (node =? NO_NODE) NoNode;
    do! _ <- refuse_if (negb (kind_known kind)) Value;
    do! _ <- refuse_if ((parent =? node) || (before =? node)) Value;
    sm_ret (mkCreateNode node parent before kind);
}.

Record SetTransform : Type := mkSetTransform {
  transform_node : Z;
  a_x65536 : Z; b_x65536 : Z; c_x65536 : Z; d_x65536 : Z; tx_x65536 : Z; ty_x65536 : Z;
}.

#[export] Instance SetTransform_record : WireRecord SetTransform := {
  WIDTH := 4 + 8 * 6;
  write r w :=
    Writer_i64 (ty_x65536 r) (Writer_i64 (tx_x65536 r) (Writer_i64 (d_x65536 r)
      (Writer_i64 (c_x65536 r) (Writer_i64 (b_x65536 r) (Writer_i64 (a_x65536 r)
        (Writer_u32 (transform_node r) w))))));
  read :=
    do! node <- Reader_u32;
    do! a <- Reader_i64;
    do! b <- Reader_i64;
    do! c <- Reader_i64;
    do! d <- Reader_i64;
    do! tx <- Reader_i64;
    do! ty <- Reader_i64;
    do! _ <- refuse_if (node =? NO_NODE) NoNode;
    sm_ret (mkSetTransform node a b c d tx ty);
}.

Record SetPath : Type := mkSetPath {
  path_node : Z; geometry_offset : Z; geometry_bytes : Z; fill_rule : Z;
}.

#[export] Instance SetPath_record : WireRecord SetPath := {
  WIDTH := 4 + 4 + 4 + 2;
  write r w :=
    Writer_u16 (fill_rule r) (Writer_u32 (geometry_bytes r)
      (Writer_u32 (geometry_offset r) (Writer_u32 (path_node r) w)));
  read :=
    do! node <- Reader_u32;
    do! offset <- Reader_u32;
    do! bytes <- Reader_u32;
    do! rule <- Reader_u16;
    do! _ <- refuse_if (node =? NO_NODE) NoNode;
    do! _ <- refuse_if (negb (fill_known rule)) Value;
    sm_ret (mkSetPath node offset bytes rule);
}.

Record SetPaint : Type := mkSetPaint {
  paint_node : Z;
  red_x65535 : Z; green_x65535 : Z; blue_x65535 : Z; alpha_x65535 : Z;
  stroke_width_x65536 : Z;
}.

#[export] Instance SetPaint_record : WireRecord SetPaint := {
  WIDTH := 4 + 2 + 2 + 2 + 2 + 4;
  write r w :=
    Writer_u32 (stroke_width_x65536 r) (Writer_u16 (alpha_x65535 r) (Writer_u16 (blue_x65535 r)
      (Writer_u16 (green_x65535 r) (Writer_u16 (red_x65535 r) (Writer_u32 (paint_node r) w)))));
  read :=
    do! node <- Reader_u32;
    do! red <- Reader_u16;
    do! green <- Reader_u16;
    do! blue <- Reader_u16;
    do! alpha <- Reader_u16;
    do! stroke <- Reader_u32;
    do! _ <- refuse_if (node =? NO_NODE) NoNode;
    sm_ret (mkSetPaint node red green blue alpha stroke);
}.

Record RemoveNode : Type := mkRemoveNode { remove_node : Z }.

#[export] Instance RemoveNode_record : WireRecord RemoveNode := {
  WIDTH := 4;
  write r w := Writer_u32 (remove_node r) w;
  read :=
    do! node <- Reader_u32;
    do! _ <- refuse_if (node =? NO_NODE) NoNode;
    sm_ret (mkRemoveNode node);
}.

Record Commit : Type := mkCommit { frame_token : Z }.

#[export] Instance Commit_record : WireRecord Commit := {
  WIDTH := 8;
  write r w := Writer_u64 (frame_token r) w;
  read :=
    do! token <- Reader_u64;
    do! _ <- refuse_if (token =? 0) NotScheduled;
    sm_ret (mkCommit token);
}.

Record SetEffect : Type := mkSetEffect {
  effect_node : Z; estimate_us_x100 : Z; saving_us_x100 : Z;
}.

#[export] Instance SetEffect_record : WireRecord SetEffect := {
  WIDTH := 4 + 4 + 4;
  write r w :=
    Writer_u32 (saving_us_x100 r) (Writer_u32 (estimate_us_x100 r) (Writer_u32 (effect_node r) w));
  read :=
    do! node <- Reader_u32;
    do! estimate <- Reader_u32;
    do! saving <- Reader_u32;
    do! _ <- refuse_if (node =? NO_NODE) NoNode;
    do! _ <- refuse_if (saving =? 0) Value;
    do! _ <- refuse_if (estimate <? saving) Value;
    sm_ret (mkSetEffect node estimate saving);
}.

(** ** The opcodes, and an entry of any of them *)
Inductive Entry : Type :=
| Entry_CreateNode (r : CreateNode)
| Entry_SetTransform (r : SetTransform)
| Entry_SetPath (r : SetPath)
| Entry_SetPaint (r : SetPaint)
| Entry_RemoveNode (r : RemoveNode)
| Entry_Commit (r : Commit)
| Entry_SetEffect (r : SetEffect).

Definition op_CREATE_NODE : Z := 1.
Definition op_SET_TRANSFORM : Z := 2.
Definition op_SET_PATH : Z := 3.
Definition op_SET_PAINT : Z := 4.
Definition op_REMOVE_NODE : Z := 5.
Definition op_COMMIT : Z := 6.
Definition op_SET_EFFECT : Z := 7.

Definition op_carries_deadline (opcode : Z) : option bool :=
  match opcode with
  | 1 | 2 | 3 | 4 | 5 | 7 => Some false
  | 6 => Some true
  | _ => None
  end.

Definition Entry_opcode (body : Entry) : Z :=
  match body with
  | Entry_CreateNode _ => op_CREATE_NODE
  | Entry_SetTransform _ => op_SET_TRANSFORM
  | Entry_SetPath _ => op_SET_PATH
  | Entry_SetPaint _ => op_SET_PAINT
  | Entry_RemoveNode _ => op_REMOVE_NODE
  | Entry_Commit _ => op_COMMIT
  | Entry_SetEffect _ => op_SET_EFFECT
  end.

Definition Entry_payload (body : Entry) : list Z :=
  match body with
  | Entry_CreateNode r => to_payload r
  | Entry_SetTransform r => to_payload r
  | Entry_SetPath r => to_payload r
  | Entry_SetPaint r => to_payload r
  | Entry_RemoveNode r => to_payload r
  | Entry_Commit r => to_payload r
  | Entry_SetEffect r => to_payload r
  end.

Definition Entry_read (opcode : Z) (raw : list Z) : res WireRefusal Entry :=
  match opcode with
  | 1 => let? r := from_payload raw in Ok (Entry_CreateNode r)
  | 2 => let? r := from_payload raw in Ok (Entry_SetTransform r)
  | 3 => let? r := from_payload raw in Ok (Entry_SetPath r)
  | 4 => let? r := from_payload raw in Ok (Entry_SetPaint r)
  | 5 => let? r := from_payload raw in Ok (Entry_RemoveNode r)
  | 6 => let? r := from_payload raw in Ok (Entry_Commit r)
  | 7 => let? r := from_payload raw in Ok (Entry_SetEffect r)
  | _ => Err UnknownOpcode
  end.

(** ** Deltas *)
Record SceneFrame : Type := mkSceneFrame { fr_token : Z; fr_deadline : Z; fr_class : Z }.

Record Delta : Type := mkDelta {
  d_user_data : Z;
  d_class : Z;
  d_deadline : Z;
  d_payload_offset : Z;
  d_flags : Z;
  d_body : Entry;
}.

Definition envelope_rules (opcode flags deadline : Z) : res WireRefusal unit :=
  match op_carries_deadline opcode with
  | None => Err UnknownOpcode
  | Some scheduled =>
      if negb (Z.land flags (cap.u8_not FLAGS_ACCEPTED) =? 0) then Err UnknownFlag
      else if scheduled then if deadline =? NO_DEADLINE then Err NotScheduled else Ok tt
      else if negb (deadline =? NO_DEADLINE) then Err Reserved
      else Ok tt
  end.

Definition Delta_opcode (d : Delta) : Z := Entry_opcode (d_body d).

Definition Delta_check (d : Delta) : res WireRefusal unit :=
  envelope_rules (Delta_opcode d) (d_flags d) (d_deadline d).

Definition Delta_frame (d : Delta) : option SceneFrame :=
  match d_body d with
  | Entry_Commit commit => Some (mkSceneFrame (frame_token commit) (d_deadline d) (d_class d))
  | _ => None
  end.

Definition Delta_envelope (d : Delta) : Sqe :=
  mkSqe (Delta_opcode d) (d_flags d) (d_class d) 0 (d_user_data d) (d_deadline d)
    (d_payload_offset d) 0 0 PAYLOAD_BYTES 0 (0, 0).

Definition Delta_encode (d : Delta) : Sqe * list Z := (Delta_envelope d, Entry_payload (d_body d)).

(** The 64 bytes of an entry, which has no padding. *)
Definition sqe_bytes (e : Sqe) : list Z :=
  le_bytes 1 (sqe_opcode e) ++ le_bytes 1 (sqe_flags e) ++ le_bytes 2 (sqe_class e) ++
  le_bytes 4 (sqe_cap e) ++ le_bytes 8 (sqe_user_data e) ++ le_bytes 8 (sqe_deadline e) ++
  le_bytes 8 (sqe_offset e) ++ le_bytes 4 (sqe_buf_set e) ++ le_bytes 4 (sqe_buf_index e) ++
  le_bytes 4 (sqe_len e) ++ le_bytes 4 (sqe_reserved e) ++
  le_bytes 8 (fst (sqe_ext e)) ++ le_bytes 8 (snd (sqe_ext e)).

Definition Delta_decode (e : Sqe) (payload : list Z) : res WireRefusal Delta :=
  let? _ := envelope_rules (sqe_opcode e) (sqe_flags e) (sqe_deadline e) in
  if negb (sqe_len e =? PAYLOAD_BYTES) then Err Malformed
  else if u32_max <? sqe_offset e then Err Malformed
  else
    let? body := Entry_read (sqe_opcode e) payload in
    let delta := mkDelta (sqe_user_data e) (sqe_class e) (sqe_deadline e)
                   (sqe_offset e mod 2 ^ 32) (sqe_flags e) body in
    if negb (bool_decide (sqe_bytes (Delta_envelope delta) = sqe_bytes e)) then Err Reserved
    else Ok delta.

(** ** Fields side by side *)
Definition field_bytes (fs : list (nat * Z)) : list Z := concat ((λ '(n, v), le_bytes n v) <$> fs).

Fixpoint words (raw : list Z) (off : nat) (widths : list nat) : list (nat * Z) :=
  match widths with
  | [] => []
  | w :: ws => (w, from_le (slice raw off w)) :: words raw (off + w) ws
  end.

Lemma words_bytes raw off ws :
  byte_list raw → (off + sum_list ws ≤ length raw)%nat →
  field_bytes (words raw off ws) = slice raw off (sum_list ws).
Proof.
  intros Hb. revert off. induction ws as [|w ws IH]; intros off Hl; [done|].
  cbn [words]. unfold field_bytes in *. rewrite fmap_cons. cbn [concat].
  change (sum_list (w :: ws)) with (w + sum_list ws)%nat in *.
  rewrite IH by lia. destruct (from_le_slice raw off w Hb) as [_ E]; [lia|]. rewrite E. unfold slice.
  rewrite <- (take_take_drop (drop off raw) w (sum_list ws)). by rewrite drop_drop.
Qed.

Lemma zeros_finish l : forallb (Z.eqb 0) l = true → l = zeroed (length l).
Proof.
  induction l as [|b l IH]; [done|]. cbn [forallb]. intros [E H]%andb_prop. apply Z.eqb_eq in E as <-.
  change (zeroed (length (0 :: l))) with (0 :: zeroed (length l)).
  f_equal. by apply IH.
Qed.

(** A payload whose unread bytes are zero is the fields read and zeros. *)
Lemma payload_rebuilt ws raw :
  byte_list raw → (sum_list ws ≤ length raw)%nat →
  forallb (Z.eqb 0) (drop (sum_list ws) raw) = true →
  field_bytes (words raw 0 ws) ++ zeroed (length raw - sum_list ws) = raw.
Proof.
  intros Hb Hl Hz. rewrite words_bytes by done. apply zeros_finish in Hz.
  rewrite length_drop in Hz. rewrite <- Hz. apply take_drop.
Qed.

Lemma read_back n v raw off :
  is_uint (8 * Z.of_nat n) v → slice raw off n = le_bytes n v → from_le (slice raw off n) = v.
Proof. intros Hv ->. by apply from_le_le_bytes. Qed.

Definition is_int64 (z : Z) : Prop := - 2 ^ 63 ≤ z < 2 ^ 63.

Lemma le_bytes_period n z k : le_bytes n (z + k * 2 ^ (8 * Z.of_nat n)) = le_bytes n z.
Proof.
  revert z k. induction n as [|n IH]; intros z k; [done|]. cbn [le_bytes]. rewrite width_S.
  replace (z + k * (256 * 2 ^ (8 * Z.of_nat n))) with (z + (k * 2 ^ (8 * Z.of_nat n)) * 256) by lia.
  rewrite Z.mod_add, Z.div_add by lia. by rewrite IH.
Qed.

Lemma le_bytes_signed z : le_bytes 8 (cast_signed z) = le_bytes 8 z.
Proof.
  unfold cast_signed. destruct (z <? 2 ^ 63); [done|].
  replace (z - 2 ^ 64) with (z + (-1) * 2 ^ (8 * Z.of_nat 8)) by (change (8 * Z.of_nat 8) with 64; lia). apply le_bytes_period.
Qed.

Lemma cast_signed_range z : is_uint 64 z → is_int64 (cast_signed z).
Proof. unfold is_uint, is_int64, cast_signed. intros. destruct (Z.ltb_spec z (2 ^ 63)); lia. Qed.

Lemma read_back_signed v raw off :
  is_int64 v → slice raw off 8 = le_bytes 8 v → cast_signed (from_le (slice raw off 8)) = v.
Proof.
  intros Hv ->. unfold is_int64 in Hv. unfold cast_signed.
  destruct (decide (0 ≤ v)).
  - rewrite from_le_le_bytes by (unfold is_uint; change (8 * Z.of_nat 8) with 64; lia).
    destruct (Z.ltb_spec v (2 ^ 63)); lia.
  - replace (le_bytes 8 v) with (le_bytes 8 (v + 2 ^ 64)) by apply (le_bytes_period 8 v 1).
    rewrite from_le_le_bytes by (unfold is_uint; change (8 * Z.of_nat 8) with 64; lia).
    destruct (Z.ltb_spec (v + 2 ^ 64) (2 ^ 63)); lia.
Qed.

(** ** What each record may hold *)
Definition CreateNode_ok (r : CreateNode) : Prop :=
  is_uint 32 (create_node r) ∧ is_uint 32 (create_parent r) ∧ is_uint 32 (create_before r) ∧
  create_node r ≠ NO_NODE ∧ kind_known (create_kind r) = true ∧
  create_parent r ≠ create_node r ∧ create_before r ≠ create_node r.

Definition SetTransform_ok (r : SetTransform) : Prop :=
  is_uint 32 (transform_node r) ∧ transform_node r ≠ NO_NODE ∧
  is_int64 (a_x65536 r) ∧ is_int64 (b_x65536 r) ∧ is_int64 (c_x65536 r) ∧
  is_int64 (d_x65536 r) ∧ is_int64 (tx_x65536 r) ∧ is_int64 (ty_x65536 r).

Definition SetPath_ok (r : SetPath) : Prop :=
  is_uint 32 (path_node r) ∧ is_uint 32 (geometry_offset r) ∧ is_uint 32 (geometry_bytes r) ∧
  path_node r ≠ NO_NODE ∧ fill_known (fill_rule r) = true.

Definition SetPaint_ok (r : SetPaint) : Prop :=
  is_uint 32 (paint_node r) ∧ paint_node r ≠ NO_NODE ∧
  is_uint 16 (red_x65535 r) ∧ is_uint 16 (green_x65535 r) ∧ is_uint 16 (blue_x65535 r) ∧
  is_uint 16 (alpha_x65535 r) ∧ is_uint 32 (stroke_width_x65536 r).

Definition RemoveNode_ok (r : RemoveNode) : Prop :=
  is_uint 32 (remove_node r) ∧ remove_node r ≠ NO_NODE.

Definition Commit_ok (r : Commit) : Prop := is_uint 64 (frame_token r) ∧ frame_token r ≠ 0.

(** A saving of nothing is refused, and so is one above the cost it saves. *)
Definition SetEffect_ok (r : SetEffect) : Prop :=
  is_uint 32 (effect_node r) ∧ is_uint 32 (estimate_us_x100 r) ∧ effect_node r ≠ NO_NODE ∧
  0 < saving_us_x100 r ≤ estimate_us_x100 r.

Definition Entry_ok (body : Entry) : Prop :=
  match body with
  | Entry_CreateNode r => CreateNode_ok r
  | Entry_SetTransform r => SetTransform_ok r
  | Entry_SetPath r => SetPath_ok r
  | Entry_SetPaint r => SetPaint_ok r
  | Entry_RemoveNode r => RemoveNode_ok r
  | Entry_Commit r => Commit_ok r
  | Entry_SetEffect r => SetEffect_ok r
  end.

(** ** Every record is a codec *)
Ltac reading H :=
  unfold from_payload in H;
  cbn [read CreateNode_record SetTransform_record SetPath_record SetPaint_record RemoveNode_record
       Commit_record SetEffect_record WIDTH
       sm_bind Reader_u16 Reader_u32 Reader_u64 Reader_i64 Reader_word Reader_take sm_get sm_ret
       r_raw r_at Nat.add] in H.

Ltac reading_goal :=
  unfold from_payload;
  cbn [read CreateNode_record SetTransform_record SetPath_record SetPaint_record RemoveNode_record
       Commit_record SetEffect_record WIDTH
       sm_bind Reader_u16 Reader_u32 Reader_u64 Reader_i64 Reader_word Reader_take sm_get sm_ret
       r_raw r_at Nat.add].

Lemma listed_range v l : existsb (Z.eqb v) l = true → forallb (λ x, bool_decide (is_uint 16 x)) l = true → is_uint 16 v.
Proof.
  intros (x & Hx & ->%Z.eqb_eq)%existsb_exists Hl. rewrite forallb_forall in Hl.
  apply (bool_decide_unpack _). by rewrite (Hl x Hx).
Qed.

Lemma known_kind_range v : kind_known v = true → is_uint 16 v.
Proof. intros H. by apply (listed_range _ _ H). Qed.

Lemma known_fill_range v : fill_known v = true → is_uint 16 v.
Proof. intros H. by apply (listed_range _ _ H). Qed.

Lemma raw_word raw off n :
  byte_list raw → (off + n ≤ length raw)%nat → is_uint (8 * Z.of_nat n) (from_le (slice raw off n)).
Proof. intros Hb Hl. by destruct (from_le_slice raw off n Hb Hl). Qed.

Ltac back n v off := rewrite (read_back n v _ off) by (first [assumption|reflexivity]).
Ltac backs v off := rewrite (read_back_signed v _ off) by (first [assumption|reflexivity]).
Ltac distinct H := rewrite (proj2 (Z.eqb_neq _ _) H).

(** Peel the refusals of a read that succeeded, and the zeros behind it. *)
Ltac guards H :=
  repeat match type of H with
         | context [refuse_if ?c _] =>
             destruct c eqn:?; cbn [refuse_if sm_bind sm_err sm_ret r_at Nat.eqb negb] in H;
             [easy|]
         end;
  unfold Reader_finish in H; cbn [r_at r_raw] in H;
  match type of H with context [forallb ?p ?l] => destruct (forallb p l) eqn:?; [|discriminate H] end;
  apply ok_inj in H.

Lemma fields_bytes fs k : byte_list (field_bytes fs ++ zeroed k).
Proof.
  apply Forall_app; split; [|apply Forall_replicate; unfold is_uint; lia].
  apply Forall_concat, Forall_fmap, Forall_true. intros [n v]. apply le_bytes_bytes.
Qed.

(** The payload decoded is the one the fields were cut from. *)
Ltac rebuilt ws raw Hl :=
  etrans; [|apply (payload_rebuilt ws raw); [done|rewrite Hl; cbn; lia|done]]; by rewrite Hl.

Ltac word_ranges raw Hl :=
  unfold CreateNode_ok, SetTransform_ok, SetPath_ok, SetPaint_ok, RemoveNode_ok, Commit_ok, SetEffect_ok;
  repeat match goal with |- _ ∧ _ => split end;
  first [ assumption
        | cbn; lia
        | apply (raw_word raw _ 4); [done|rewrite Hl; lia]
        | apply (raw_word raw _ 2); [done|rewrite Hl; lia]
        | apply (raw_word raw _ 8); [done|rewrite Hl; lia]
        | apply cast_signed_range, (raw_word raw _ 8); [done|rewrite Hl; lia] ].

#[export] Instance CreateNode_codec : Codec 56 CreateNode_ok to_payload (from_payload (R := CreateNode)).
Proof.
  split.
  - done.
  - intros [node parent before kind] _.
    apply (fields_bytes [(4, node); (4, parent); (4, before); (2, kind)]%nat 42).
  - intros [node parent before kind] (Hn & Hp & Hb & H0 & Hk & Hpn & Hbn).
    cbn [create_node create_parent create_before create_kind] in *.
    pose proof (known_kind_range _ Hk) as Hk'.
    reading_goal. back 4%nat node 0%nat. back 4%nat parent 4%nat. back 4%nat before 8%nat. back 2%nat kind 12%nat.
    rewrite Hk. distinct H0. distinct Hpn. distinct Hbn. reflexivity.
  - intros raw r Hb Hl H. reading H. guards H. subst r. split; [rebuilt [4; 4; 4; 2]%nat raw Hl|].
    apply Z.eqb_neq in Heqb. apply negb_false_iff in Heqb0. apply orb_false_iff in Heqb1 as [E1%Z.eqb_neq E2%Z.eqb_neq].
    word_ranges raw Hl.
Qed.

#[export] Instance SetTransform_codec :
  Codec 56 SetTransform_ok to_payload (from_payload (R := SetTransform)).
Proof.
  split.
  - done.
  - intros [node a b c d tx ty] _.
    apply (fields_bytes [(4, node); (8, a); (8, b); (8, c); (8, d); (8, tx); (8, ty)]%nat 4).
  - intros [node a b c d tx ty] (Hn & H0 & Ha & Hb & Hc & Hd & Hx & Hy).
    cbn [transform_node a_x65536 b_x65536 c_x65536 d_x65536 tx_x65536 ty_x65536] in *.
    reading_goal. back 4%nat node 0%nat. backs a 4%nat. backs b 12%nat. backs c 20%nat.
    backs d 28%nat. backs tx 36%nat. backs ty 44%nat. distinct H0. reflexivity.
  - intros raw r Hb Hl H. reading H. guards H. subst r. apply Z.eqb_neq in Heqb. split.
    + change (to_payload ?r) with
        (field_bytes [(4, transform_node r); (8, a_x65536 r); (8, b_x65536 r); (8, c_x65536 r);
                      (8, d_x65536 r); (8, tx_x65536 r); (8, ty_x65536 r)]%nat ++ zeroed 4).
      unfold field_bytes. cbn [fmap list_fmap transform_node a_x65536 b_x65536 c_x65536 d_x65536 tx_x65536 ty_x65536].
      rewrite !le_bytes_signed. rebuilt [4; 8; 8; 8; 8; 8; 8]%nat raw Hl.
    + word_ranges raw Hl.
Qed.

#[export] Instance SetPath_codec : Codec 56 SetPath_ok to_payload (from_payload (R := SetPath)).
Proof.
  split.
  - done.
  - intros [node offset bytes rule] _.
    apply (fields_bytes [(4, node); (4, offset); (4, bytes); (2, rule)]%nat 42).
  - intros [node offset bytes rule] (Hn & Ho & Hb & H0 & Hk).
    cbn [path_node geometry_offset geometry_bytes fill_rule] in *.
    pose proof (known_fill_range _ Hk) as Hk'.
    reading_goal. back 4%nat node 0%nat. back 4%nat offset 4%nat. back 4%nat bytes 8%nat. back 2%nat rule 12%nat.
    rewrite Hk. distinct H0. reflexivity.
  - intros raw r Hb Hl H. reading H. guards H. subst r. split; [rebuilt [4; 4; 4; 2]%nat raw Hl|].
    apply Z.eqb_neq in Heqb. apply negb_false_iff in Heqb0. word_ranges raw Hl.
Qed.

#[export] Instance SetPaint_codec : Codec 56 SetPaint_ok to_payload (from_payload (R := SetPaint)).
Proof.
  split.
  - done.
  - intros [node red green blue alpha stroke] _.
    apply (fields_bytes [(4, node); (2, red); (2, green); (2, blue); (2, alpha); (4, stroke)]%nat 40).
  - intros [node red green blue alpha stroke] (Hn & H0 & Hr & Hg & Hb & Ha & Hs).
    cbn [paint_node red_x65535 green_x65535 blue_x65535 alpha_x65535 stroke_width_x65536] in *.
    reading_goal. back 4%nat node 0%nat. back 2%nat red 4%nat. back 2%nat green 6%nat. back 2%nat blue 8%nat.
    back 2%nat alpha 10%nat. back 4%nat stroke 12%nat. distinct H0. reflexivity.
  - intros raw r Hb Hl H. reading H. guards H. subst r. split; [rebuilt [4; 2; 2; 2; 2; 4]%nat raw Hl|].
    apply Z.eqb_neq in Heqb. word_ranges raw Hl.
Qed.

#[export] Instance RemoveNode_codec : Codec 56 RemoveNode_ok to_payload (from_payload (R := RemoveNode)).
Proof.
  split.
  - done.
  - intros [node] _. apply (fields_bytes [(4%nat, node)] 52).
  - intros [node] [Hn H0]. cbn [remove_node] in *. reading_goal. back 4%nat node 0%nat. distinct H0. reflexivity.
  - intros raw r Hb Hl H. reading H. guards H. subst r. split; [rebuilt [4]%nat raw Hl|].
    apply Z.eqb_neq in Heqb. word_ranges raw Hl.
Qed.

#[export] Instance Commit_codec : Codec 56 Commit_ok to_payload (from_payload (R := Commit)).
Proof.
  split.
  - done.
  - intros [token] _. apply (fields_bytes [(8%nat, token)] 48).
  - intros [token] [Hn H0]. cbn [frame_token] in *. reading_goal. back 8%nat token 0%nat. distinct H0. reflexivity.
  - intros raw r Hb Hl H. reading H. guards H. subst r. split; [rebuilt [8]%nat raw Hl|].
    apply Z.eqb_neq in Heqb. word_ranges raw Hl.
Qed.

#[export] Instance SetEffect_codec : Codec 56 SetEffect_ok to_payload (from_payload (R := SetEffect)).
Proof.
  split.
  - done.
  - intros [node estimate saving] _. apply (fields_bytes [(4, node); (4, estimate); (4, saving)]%nat 44).
  - intros [node estimate saving] (Hn & He & H0 & Hs).
    cbn [effect_node estimate_us_x100 saving_us_x100] in *.
    assert (Hs' : is_uint 32 saving) by (unfold is_uint in *; lia).
    reading_goal. back 4%nat node 0%nat. back 4%nat estimate 4%nat. back 4%nat saving 8%nat.
    distinct H0. rewrite (proj2 (Z.eqb_neq saving 0)) by lia. rewrite (proj2 (Z.ltb_ge estimate saving)) by lia.
    reflexivity.
  - intros raw r Hb Hl H. reading H. guards H. subst r. split; [rebuilt [4; 4; 4]%nat raw Hl|].
    apply Z.eqb_neq in Heqb, Heqb0. apply Z.ltb_ge in Heqb1.
    pose proof (raw_word raw 8 4 Hb ltac:(rewrite Hl; lia)) as Hs. unfold is_uint in Hs.
    word_ranges raw Hl.
Qed.

Lemma Entry_read_payload body :
  Entry_ok body → Entry_read (Entry_opcode body) (Entry_payload body) = Ok body.
Proof.
  intros H. destruct body as [r|r|r|r|r|r|r]; cbn [Entry_opcode Entry_payload];
    unfold Entry_read, op_CREATE_NODE, op_SET_TRANSFORM, op_SET_PATH, op_SET_PAINT, op_REMOVE_NODE,
      op_COMMIT, op_SET_EFFECT;
    by rewrite (codec_dec_enc (dec := from_payload) r H).
Qed.

Lemma Entry_read_exact opcode raw body :
  byte_list raw → length raw = 56%nat → Entry_read opcode raw = Ok body →
  Entry_opcode body = opcode ∧ Entry_payload body = raw ∧ Entry_ok body.
Proof.
  intros Hb Hl H. unfold Entry_read in H.
  repeat (case_match; try discriminate H);
    match type of H with
    | context [from_payload (R := ?R) ?l] => destruct (from_payload (R := R) l) as [r|] eqn:E
    end; try discriminate H; apply ok_inj in H; subst body;
    destruct (codec_enc_dec _ _ Hb Hl E) as [Hp Hok]; auto.
Qed.

(** ** Deltas are decoded from their encodings, and from nothing else *)
Definition Sqe_ok (e : Sqe) : Prop :=
  is_uint 8 (sqe_opcode e) ∧ is_uint 8 (sqe_flags e) ∧ is_uint 16 (sqe_class e) ∧
  is_uint 32 (sqe_cap e) ∧ is_uint 64 (sqe_user_data e) ∧ is_uint 64 (sqe_deadline e) ∧
  is_uint 64 (sqe_offset e) ∧ is_uint 32 (sqe_buf_set e) ∧ is_uint 32 (sqe_buf_index e) ∧
  is_uint 32 (sqe_len e) ∧ is_uint 32 (sqe_reserved e) ∧
  is_uint 64 (fst (sqe_ext e)) ∧ is_uint 64 (snd (sqe_ext e)).

Definition Delta_ok (d : Delta) : Prop :=
  is_uint 64 (d_user_data d) ∧ is_uint 16 (d_class d) ∧ is_uint 64 (d_deadline d) ∧
  is_uint 32 (d_payload_offset d) ∧ is_uint 8 (d_flags d) ∧
  Delta_check d = Ok tt ∧ Entry_ok (d_body d).

Lemma le_bytes_inj n a b :
  is_uint (8 * Z.of_nat n) a → is_uint (8 * Z.of_nat n) b → le_bytes n a = le_bytes n b → a = b.
Proof. intros Ha Hb E. by rewrite <- (from_le_le_bytes n a Ha), E, from_le_le_bytes. Qed.

Lemma le_bytes_app_inj n a b x y :
  is_uint (8 * Z.of_nat n) a → is_uint (8 * Z.of_nat n) b →
  le_bytes n a ++ x = le_bytes n b ++ y → a = b ∧ x = y.
Proof.
  intros Ha Hb H. apply app_inj_1 in H as [E ->]; [|by rewrite !length_le_bytes].
  by apply le_bytes_inj in E.
Qed.

Lemma sqe_bytes_inj e1 e2 : Sqe_ok e1 → Sqe_ok e2 → sqe_bytes e1 = sqe_bytes e2 → e1 = e2.
Proof.
  destruct e1 as [a1 a2 a3 a4 a5 a6 a7 a8 a9 a10 a11 [a12 a13]], e2 as [b1 b2 b3 b4 b5 b6 b7 b8 b9 b10 b11 [b12 b13]].
  unfold Sqe_ok, sqe_bytes. cbn [sqe_opcode sqe_flags sqe_class sqe_cap sqe_user_data sqe_deadline sqe_offset
    sqe_buf_set sqe_buf_index sqe_len sqe_reserved sqe_ext fst snd].
  intros H1 H2 H. destruct_and!.
  repeat match goal with
         | H : le_bytes ?n _ ++ _ = le_bytes ?n _ ++ _ |- _ =>
             apply le_bytes_app_inj in H as [? H]; [|assumption|assumption]
         end.
  apply (le_bytes_inj 8) in H; [|assumption|assumption].
  by subst.
Qed.

Lemma opcode_range body : is_uint 8 (Entry_opcode body).
Proof. by destruct body. Qed.

Lemma Delta_envelope_ok d : Delta_ok d → Sqe_ok (Delta_envelope d).
Proof.
  intros (Hu & Hc & Hd & Ho & Hf & _). pose proof (opcode_range (d_body d)).
  unfold Sqe_ok, Delta_envelope. cbn [sqe_opcode sqe_flags sqe_class sqe_cap sqe_user_data sqe_deadline sqe_offset
    sqe_buf_set sqe_buf_index sqe_len sqe_reserved sqe_ext fst snd].
  repeat split; unfold Delta_opcode, is_uint in *; unfold PAYLOAD_BYTES; try lia.
Qed.

Lemma decode_of_encode d :
  Delta_ok d → Delta_decode (Delta_envelope d) (Entry_payload (d_body d)) = Ok d.
Proof.
  intros (Hu & Hc & Hd & Ho & Hf & Hk & He). unfold Delta_decode.
  cbn [Delta_envelope sqe_opcode sqe_flags sqe_class sqe_user_data sqe_deadline sqe_offset sqe_len].
  unfold Delta_check in Hk. rewrite Hk. cbn [res_bind]. rewrite Z.eqb_refl. cbn [negb].
  unfold is_uint in Ho. destruct (Z.ltb_spec u32_max (d_payload_offset d)) as [Hlt|_].
  { unfold u32_max in Hlt. lia. }
  unfold Delta_opcode. rewrite Entry_read_payload by done. cbn [res_bind].
  rewrite Z.mod_small by done. destruct d as [u c dl o f b]. cbn [d_user_data d_class d_deadline d_payload_offset d_flags d_body].
  by rewrite bool_decide_true.
Qed.

(** C30 A delta on the wire has one spelling.  A submission entry and a payload of
    56 bytes decode to a delta exactly when that delta passes the envelope
    rules, its record passes the checks of its opcode, and the two are byte for
    byte what it encodes to: every field read back as it was written, signed
    ones included, every byte the record does not use zero, and nothing in the
    entry that the delta does not carry. *)
Theorem delta_has_one_spelling (e : Sqe) (payload : list Z) (d : Delta) :
  Sqe_ok e → byte_list payload → length payload = Z.to_nat PAYLOAD_BYTES →
  Delta_decode e payload = Ok d ↔ Delta_ok d ∧ Delta_encode d = (e, payload).
Proof.
  intros He Hb Hl. split.
  - intros H. pose proof He as He'. destruct He as (H1 & H2 & H3 & H4 & H5 & H6 & H7 & _).
    unfold Delta_decode in H. destruct (envelope_rules _ _ _) as [[]|] eqn:Er; [|discriminate H]. cbn [res_bind] in H.
    destruct (sqe_len e =? PAYLOAD_BYTES); [|discriminate H]. cbn [negb] in H.
    destruct (Z.ltb_spec u32_max (sqe_offset e)) as [|Ho]; [discriminate H|].
    destruct (Entry_read (sqe_opcode e) payload) as [body|] eqn:Eb; [|discriminate H]. cbn [res_bind] in H.
    destruct (bool_decide_reflect (sqe_bytes (Delta_envelope (mkDelta (sqe_user_data e) (sqe_class e) (sqe_deadline e)
                   (sqe_offset e mod 2 ^ 32) (sqe_flags e) body)) = sqe_bytes e)) as [Es|]; [|discriminate H].
    cbn [negb] in H. apply ok_inj in H. subst d.
    apply Entry_read_exact in Eb as (Eo & Ep & Hok); [|done..].
    assert (Hd : Delta_ok (mkDelta (sqe_user_data e) (sqe_class e) (sqe_deadline e)
                   (sqe_offset e mod 2 ^ 32) (sqe_flags e) body)).
    { repeat split; try done; try apply H5; try apply H6; try (apply Z.mod_pos_bound; lia); try apply H3; try apply H2.
      unfold Delta_check, Delta_opcode. cbn. by rewrite Eo. }
    split; [done|]. unfold Delta_encode. f_equal; [|done].
    apply sqe_bytes_inj; [by apply Delta_envelope_ok|done|done].
  - intros [Hd E]. unfold Delta_encode in E. injection E as <- <-. by apply decode_of_encode.
Qed.

(** A node drawn in front of node 11 under node 3, and the same entry with a
    stray byte behind its record. *)
Definition drawn : Delta :=
  mkDelta 5 1 0 4096 flags_NO_CQE (Entry_CreateNode (mkCreateNode 7 3 11 kind_DRAW)).

Lemma delta_has_one_spelling_witness :
  Delta_decode (Delta_envelope drawn) (Entry_payload (d_body drawn)) = Ok drawn ∧
  Delta_decode (Delta_envelope drawn) (put (Entry_payload (d_body drawn)) 20 [1]) = Err Reserved.
Proof.
  assert (Hok : Delta_ok drawn) by (repeat split; cbn; try lia; discriminate).
  split; [|reflexivity].
  apply (delta_has_one_spelling (Delta_envelope drawn) (Entry_payload (d_body drawn)) drawn).
  - by apply Delta_envelope_ok.
  - apply (bool_decide_unpack _). vm_compute. exact I.
  - reflexivity.
  - split; [exact Hok|reflexivity].
Defined.
