(* ===== verification/SceneArena.v ===== *)
(** * The retained scene: [scene/src/kind.rs], [scene/src/arena.rs]

    A forest in an array of [NODES_MAX] slots.  A slot holds a node or is free,
    and its [next] word is the next sibling or the next free slot.  A loop of
    the source that follows links takes the number of slots as fuel and answers
    [None] when the links outlast it; [SceneTheorems] shows they do not. *)

From S2P Require Import Prelude SceneWire.

#[local] Open Scope Z_scope.

(** ** [kind.rs]: what a delta means *)
Inductive Family : Type := Family_Context | Family_Mark | Family_Meaning.

Inductive Kind : Type :=
| Kind_Transform | Kind_Clip | Kind_Layer | Kind_Draw | Kind_Effect | Kind_Semantic.

#[export] Instance Kind_eq_dec : EqDecision Kind.
Proof. solve_decision. Defined.

Definition Kind_COUNT : nat := 6.

Definition Kind_wire (k : Kind) : Z :=
  match k with
  | Kind_Transform => kind_TRANSFORM
  | Kind_Clip => kind_CLIP
  | Kind_Layer => kind_LAYER
  | Kind_Draw => kind_DRAW
  | Kind_Effect => kind_EFFECT
  | Kind_Semantic => kind_SEMANTIC
  end.

Definition Kind_index (k : Kind) : nat := Z.to_nat (Kind_wire k - 1).

Definition Kind_family (k : Kind) : Family :=
  match k with
  | Kind_Draw => Family_Mark
  | Kind_Semantic => Family_Meaning
  | _ => Family_Context
  end.

Definition Kind_from_wire (raw : Z) : option Kind :=
  match raw with
  | 1 => Some Kind_Transform
  | 2 => Some Kind_Clip
  | 3 => Some Kind_Layer
  | 4 => Some Kind_Draw
  | 5 => Some Kind_Effect
  | 6 => Some Kind_Semantic
  | _ => None
  end.

(** One count per kind. *)
Definition ByKind : Type := list Z.

Definition ByKind_at (t : ByKind) (k : Kind) : Z := t !!! Kind_index k.
Definition ByKind_set (k : Kind) (v : Z) (t : ByKind) : ByKind := <[Kind_index k := v]> t.

(** The token of a node that exists: its identifier is never [NO_NODE]. *)
Record Created : Type := mkCreated { created_node : Z; created_kind : Kind }.

#[export] Instance Created_eq_dec : EqDecision Created.
Proof. solve_decision. Defined.

Record Removal : Type := mkRemoval { removal_root : Z }.

Definition Created_removed_by (c : Created) (removal : Removal) : res Created Kind :=
  if removal_root removal =? created_node c then Ok (created_kind c) else Err c.

Definition Created_removed_under (c : Created) (removal : Removal) : Kind := created_kind c.

Inductive Change : Type :=
| Change_Created (c : Created)
| Change_Removed (r : Removal)
| Change_Untouched.

Definition Change_of (d : Delta) : res WireRefusal Change :=
  let? _ := Delta_check d in
  match d_body d with
  | Entry_CreateNode create =>
      if create_node create =? 0 then Err NoNode
      else match Kind_from_wire (create_kind create) with
           | None => Err Value
           | Some kind => Ok (Change_Created (mkCreated (create_node create) kind))
           end
  | Entry_RemoveNode remove =>
      if remove_node remove =? 0 then Err NoNode
      else Ok (Change_Removed (mkRemoval (remove_node remove)))
  | Entry_SetTransform _ | Entry_SetPath _ | Entry_SetPaint _ | Entry_SetEffect _ | Entry_Commit _ =>
      Ok Change_Untouched
  end.

(** ** The arena *)
Definition NODES_MAX : Z := 1024.
Definition SLOT_MASK : Z := NODES_MAX - 1.

Definition SlotIx : Type := Z.
Definition SlotIx_at (ix : SlotIx) : nat := Z.to_nat (Z.land ix SLOT_MASK).

Inductive SceneRefusal : Type :=
| Capacity
| NoSuchNode (node : Z)
| NoSuchParent (node : Z)
| NotASibling (node : Z)
| Cycle (node : Z)
| KindChanged (node : Z)
| Mismatched
| Wire (r : WireRefusal).

Definition SceneRefusal_node (r : SceneRefusal) : Z :=
  match r with
  | NoSuchNode node | NoSuchParent node | NotASibling node | Cycle node | KindChanged node => node
  | Capacity | Mismatched | Wire _ => NO_NODE
  end.

Inductive Hung : Type := Hung_Created | Hung_Moved.

Inductive Applied : Type :=
| Applied_Hung (h : Hung)
| Applied_Removed (gone : Z)
| Applied_Set (node : Z)
| Applied_Closes (frame : Z).

Record Slot : Type := mkSlot {
  held : option Created;
  parent : option SlotIx;
  first_child : option SlotIx;
  next : option SlotIx;
  transform : option SetTransform;
  path : option SetPath;
  paint : option SetPaint;
}.

Definition Slot_EMPTY : Slot := mkSlot None None None None None None None.

#[export] Instance Slot_inhabited : Inhabited Slot := populate Slot_EMPTY.

Record Arena : Type := mkArena {
  slots : list Slot;
  roots : option SlotIx;
  free : option SlotIx;
  bumped : Z;
  census : ByKind;
}.

Definition Arena_EMPTY : Arena :=
  mkArena (replicate (Z.to_nat NODES_MAX) Slot_EMPTY) None None 0 (replicate Kind_COUNT 0).

Definition Arena_slot (a : Arena) (ix : SlotIx) : Slot := slots a !!! SlotIx_at ix.

(** Assignments through [slot_mut], and to the fields beside the slots. *)
Definition Arena_slot_mut (ix : SlotIx) (f : Slot → Slot) (a : Arena) : Arena :=
  mkArena (alter f (SlotIx_at ix) (slots a)) (roots a) (free a) (bumped a) (census a).

Definition set_held (c : option Created) (s : Slot) : Slot :=
  mkSlot c (parent s) (first_child s) (next s) (transform s) (path s) (paint s).
Definition set_parent (p : option SlotIx) (s : Slot) : Slot :=
  mkSlot (held s) p (first_child s) (next s) (transform s) (path s) (paint s).
Definition set_first_child (c : option SlotIx) (s : Slot) : Slot :=
  mkSlot (held s) (parent s) c (next s) (transform s) (path s) (paint s).
Definition set_next (n : option SlotIx) (s : Slot) : Slot :=
  mkSlot (held s) (parent s) (first_child s) n (transform s) (path s) (paint s).

Definition with_roots (r : option SlotIx) (a : Arena) : Arena :=
  mkArena (slots a) r (free a) (bumped a) (census a).
Definition with_free (f : option SlotIx) (a : Arena) : Arena :=
  mkArena (slots a) (roots a) f (bumped a) (census a).
Definition with_bumped (b : Z) (a : Arena) : Arena :=
  mkArena (slots a) (roots a) (free a) b (census a).
Definition with_census (c : ByKind) (a : Arena) : Arena :=
  mkArena (slots a) (roots a) (free a) (bumped a) c.

(** ** Questions *)
Fixpoint find_from (steps : nat) (a : Arena) (raw : SlotIx) (node : Z) : option SlotIx :=
  match steps with
  | O => None
  | S steps =>
      match held (Arena_slot a raw) with
      | Some c => if created_node c =? node then Some raw else find_from steps a (raw + 1) node
      | None => find_from steps a (raw + 1) node
      end
  end.

Definition Arena_find (a : Arena) (node : Z) : option SlotIx :=
  find_from (Z.to_nat NODES_MAX) a 0 node.

Definition Arena_live (a : Arena) : Z := foldr Z.add 0 (census a).
Definition Arena_is_empty (a : Arena) : bool := Arena_live a =? 0.
Definition Arena_remaining (a : Arena) : Z := saturating_sub NODES_MAX (Arena_live a).
Definition Arena_count_of (a : Arena) (k : Kind) : Z := ByKind_at (census a) k.
Definition Arena_holds (a : Arena) (node : Z) : bool := bool_decide (is_Some (Arena_find a node)).

Definition Arena_kind_of (a : Arena) (node : Z) : option Kind :=
  ix ← Arena_find a node; created_kind <$> held (Arena_slot a ix).

Definition Arena_node_at (a : Arena) (ix : SlotIx) : Z :=
  match held (Arena_slot a ix) with Some c => created_node c | None => NO_NODE end.

Definition found (a : Arena) (node : Z) : res SceneRefusal SlotIx :=
  ok_or (Arena_find a node) (NoSuchNode node).

Definition Arena_parent_of (a : Arena) (node : Z) : res SceneRefusal Z :=
  let? ix := found a node in
  Ok match parent (Arena_slot a ix) with Some p => Arena_node_at a p | None => NO_NODE end.

Definition Arena_transform_of (a : Arena) (node : Z) : res SceneRefusal (option SetTransform) :=
  let? ix := found a node in Ok (transform (Arena_slot a ix)).
Definition Arena_path_of (a : Arena) (node : Z) : res SceneRefusal (option SetPath) :=
  let? ix := found a node in Ok (path (Arena_slot a ix)).
Definition Arena_paint_of (a : Arena) (node : Z) : res SceneRefusal (option SetPaint) :=
  let? ix := found a node in Ok (paint (Arena_slot a ix)).

(** An iterator is the slot it reports next. *)
Definition Arena_children (a : Arena) (node : Z) : res SceneRefusal (option SlotIx) :=
  let? ix := found a node in Ok (first_child (Arena_slot a ix)).

Definition Children_next (a : Arena) (at_ : option SlotIx) : option Z * option SlotIx :=
  match at_ with
  | None => (None, None)
  | Some ix => (created_node <$> held (Arena_slot a ix), next (Arena_slot a ix))
  end.

(** ** Slots taken and given back *)
Definition Arena_take_free (a : Arena) : option SlotIx * Arena :=
  match free a with
  | Some ix => (Some ix, Arena_slot_mut ix (λ _, Slot_EMPTY) (with_free (next (Arena_slot a ix)) a))
  | None =>
      if bumped a <? NODES_MAX then (Some (bumped a), with_bumped (bumped a + 1) a)
      else (None, a)
  end.

Definition Arena_release (ix : SlotIx) (removal : Removal) (a : Arena) : option Kind * Arena :=
  let token := held (Arena_slot a ix) in
  let a' := with_free (Some ix) (Arena_slot_mut ix (λ _, set_next (free a) Slot_EMPTY) a) in
  match token with
  | None => (None, a')
  | Some token =>
      let kind := match Created_removed_by token removal with
                  | Ok kind => kind
                  | Err beneath => Created_removed_under beneath removal
                  end in
      (Some kind, with_census (ByKind_set kind (saturating_sub (ByKind_at (census a') kind) 1) (census a')) a')
  end.

(** ** Sibling lists *)
Definition Arena_head (a : Arena) (p : option SlotIx) : option SlotIx :=
  match p with Some one => first_child (Arena_slot a one) | None => roots a end.

Definition Arena_set_head (p to : option SlotIx) (a : Arena) : Arena :=
  match p with
  | Some one => Arena_slot_mut one (set_first_child to) a
  | None => with_roots to a
  end.

Fixpoint unlink_walk (fuel : nat) (ix : SlotIx) (after cursor : option SlotIx) (a : Arena) : option Arena :=
  match cursor, fuel with
  | None, _ => Some a
  | Some _, O => None
  | Some one, S fuel =>
      let nxt := next (Arena_slot a one) in
      if bool_decide (nxt = Some ix) then Some (Arena_slot_mut one (set_next after) a)
      else unlink_walk fuel ix after nxt a
  end.

Definition Arena_unlink (ix : SlotIx) (a : Arena) : option Arena :=
  let p := parent (Arena_slot a ix) in
  let after := next (Arena_slot a ix) in
  a ← (if bool_decide (Arena_head a p = Some ix) then Some (Arena_set_head p after a)
       else unlink_walk (Z.to_nat NODES_MAX) ix after (Arena_head a p) a);
  Some (Arena_slot_mut ix (λ s, set_next None (set_parent None s)) a).

Fixpoint link_walk (fuel : nat) (ix : SlotIx) (before cursor : option SlotIx) (a : Arena) : option Arena :=
  match cursor, fuel with
  | None, _ => Some a
  | Some _, O => None
  | Some one, S fuel =>
      let nxt := next (Arena_slot a one) in
      if bool_decide (nxt = before ∨ nxt = None)
      then Some (Arena_slot_mut one (set_next (Some ix)) (Arena_slot_mut ix (set_next nxt) a))
      else link_walk fuel ix before nxt a
  end.

Definition Arena_link (ix : SlotIx) (p before : option SlotIx) (a : Arena) : option Arena :=
  let a := Arena_slot_mut ix (λ s, set_next None (set_parent p s)) a in
  let head := Arena_head a p in
  if bool_decide (head = None ∨ head = before)
  then Some (Arena_set_head p (Some ix) (Arena_slot_mut ix (set_next head) a))
  else link_walk (Z.to_nat NODES_MAX) ix before head a.

(** The walk upwards counts its steps: [steps] is how many remain of
    [NODES_MAX]. *)
Fixpoint descends_walk (steps : nat) (a : Arena) (cursor : option SlotIx) (ancestor : SlotIx) : bool :=
  match cursor with
  | None => false
  | Some one =>
      if one =? ancestor then true
      else match steps with
           | O => true
           | S steps => descends_walk steps a (parent (Arena_slot a one)) ancestor
           end
  end.

Definition Arena_descends_from (a : Arena) (candidate ancestor : SlotIx) : bool :=
  descends_walk (Z.to_nat NODES_MAX) a (Some candidate) ancestor.

(** ** Hanging, setting and removing *)
Definition hang_parent (a : Arena) (at_ : CreateNode) : res SceneRefusal (option SlotIx) :=
  if create_parent at_ =? NO_NODE then Ok None
  else let? ix := ok_or (Arena_find a (create_parent at_)) (NoSuchParent (create_parent at_)) in Ok (Some ix).

Definition hang_before (a : Arena) (at_ : CreateNode) (p : option SlotIx) : res SceneRefusal (option SlotIx) :=
  let named := create_before at_ in
  if named =? NO_NODE then Ok None
  else
    let? sibling := ok_or (Arena_find a named) (NotASibling named) in
    if bool_decide (parent (Arena_slot a sibling) = p) then Ok (Some sibling) else Err (NotASibling named).

Definition descends_opt (a : Arena) (p : option SlotIx) (ix : SlotIx) : bool :=
  match p with Some under => Arena_descends_from a under ix | None => false end.

Definition Arena_hang (created : Created) (at_ : CreateNode) (a : Arena) :
    option (res SceneRefusal Hung * Arena) :=
  let node := created_node created in
  if negb (node =? create_node at_) || negb (Kind_wire (created_kind created) =? create_kind at_)
  then Some (Err Mismatched, a)
  else if create_before at_ =? node then Some (Err (NotASibling (create_before at_)), a)
  else
    match hang_parent a at_ with
    | Err e => Some (Err e, a)
    | Ok p =>
        match hang_before a at_ p with
        | Err e => Some (Err e, a)
        | Ok before =>
            match Arena_find a node with
            | Some ix =>
                if negb (bool_decide (created_kind <$> held (Arena_slot a ix) = Some (created_kind created)))
                then Some (Err (KindChanged node), a)
                else if descends_opt a p ix then Some (Err (Cycle node), a)
                else
                  a ← Arena_unlink ix a;
                  a ← Arena_link ix p before a;
                  Some (Ok Hung_Moved, a)
            | None =>
                match Arena_take_free a with
                | (None, a) => Some (Err Capacity, a)
                | (Some ix, a) =>
                    let kind := created_kind created in
                    let a := Arena_slot_mut ix (set_held (Some created)) a in
                    let a := with_census (ByKind_set kind (saturating_add 16 (ByKind_at (census a) kind) 1) (census a)) a in
                    a ← Arena_link ix p before a;
                    Some (Ok Hung_Created, a)
                end
            end
        end
    end.

Definition Arena_set (node : Z) (f : Slot → Slot) (a : Arena) : res SceneRefusal unit * Arena :=
  match found a node with
  | Err e => (Err e, a)
  | Ok ix => (Ok tt, Arena_slot_mut ix f a)
  end.

Definition Arena_set_transform (r : SetTransform) : Arena → res SceneRefusal unit * Arena :=
  Arena_set (transform_node r)
    (λ s, mkSlot (held s) (parent s) (first_child s) (next s) (Some r) (path s) (paint s)).
Definition Arena_set_path (r : SetPath) : Arena → res SceneRefusal unit * Arena :=
  Arena_set (path_node r)
    (λ s, mkSlot (held s) (parent s) (first_child s) (next s) (transform s) (Some r) (paint s)).
Definition Arena_set_paint (r : SetPaint) : Arena → res SceneRefusal unit * Arena :=
  Arena_set (paint_node r)
    (λ s, mkSlot (held s) (parent s) (first_child s) (next s) (transform s) (path s) (Some r)).
(** A declaration is checked and not kept. *)
Definition Arena_set_effect (r : SetEffect) (a : Arena) : res SceneRefusal unit * Arena :=
  (let? _ := found a (effect_node r) in Ok tt, a).

(** The children of a slot, pushed one by one on the work list. *)
Fixpoint push_children (fuel : nat) (child pending : option SlotIx) (a : Arena) :
    option (option SlotIx * Arena) :=
  match child, fuel with
  | None, _ => Some (pending, a)
  | Some _, O => None
  | Some one, S fuel =>
      let after := next (Arena_slot a one) in
      push_children fuel after (Some one) (Arena_slot_mut one (set_next pending) a)
  end.

Fixpoint teardown (fuel : nat) (removal : Removal) (pending : option SlotIx) (gone : Z) (a : Arena) :
    option (Z * Arena) :=
  match pending, fuel with
  | None, _ => Some (gone, a)
  | Some _, O => None
  | Some at_, S fuel =>
      '(pending, a) ← push_children (Z.to_nat NODES_MAX) (first_child (Arena_slot a at_))
                        (next (Arena_slot a at_)) a;
      match Arena_release at_ removal a with
      | (Some _, a) => teardown fuel removal pending (gone + 1) a
      | (None, a) => teardown fuel removal pending gone a
      end
  end.

Definition Arena_remove (removal : Removal) (a : Arena) : option (res SceneRefusal Z * Arena) :=
  match found a (removal_root removal) with
  | Err e => Some (Err e, a)
  | Ok at_root =>
      a ← Arena_unlink at_root a;
      '(gone, a) ← teardown (Z.to_nat NODES_MAX) removal (Some at_root) 0 a;
      Some (Ok gone, a)
  end.

Definition answer {A : Type} (f : A → Applied) (r : res SceneRefusal A * Arena) :
    res SceneRefusal Applied * Arena :=
  (let? x := fst r in Ok (f x), snd r).

Definition Arena_apply (d : Delta) (a : Arena) : option (res SceneRefusal Applied * Arena) :=
  match Change_of d with
  | Err e => Some (Err (Wire e), a)
  | Ok change =>
      match d_body d with
      | Entry_CreateNode at_ =>
          match change with
          | Change_Created created => answer Applied_Hung <$> Arena_hang created at_ a
          | _ => Some (Err Mismatched, a)
          end
      | Entry_RemoveNode _ =>
          match change with
          | Change_Removed removal => answer Applied_Removed <$> Arena_remove removal a
          | _ => Some (Err Mismatched, a)
          end
      | Entry_SetTransform r => Some (answer (λ _, Applied_Set (transform_node r)) (Arena_set_transform r a))
      | Entry_SetPath r => Some (answer (λ _, Applied_Set (path_node r)) (Arena_set_path r a))
      | Entry_SetPaint r => Some (answer (λ _, Applied_Set (paint_node r)) (Arena_set_paint r a))
      | Entry_SetEffect r => Some (answer (λ _, Applied_Set (effect_node r)) (Arena_set_effect r a))
      | Entry_Commit commit => Some (Ok (Applied_Closes (frame_token commit)), a)
      end
  end.
