(* ===== verification/SceneForest.v ===== *)
(** * The slots as a forest

    What the words of an arena mean, for [SceneTheorems].  [linked] reads the
    sibling lists out of the [next] words, [shape] is everything an operation
    keeps while it works: [kids] are the children of each place in paint order,
    [spare] is the free list, and [loose] are the nodes that are in no sibling
    list because an operation holds them. *)

From S2P Require Import Prelude SceneWire SceneArena.

#[local] Open Scope Z_scope.

(** ** Following links *)
Fixpoint chain (f : Z → option Z) (o : option Z) (l : list Z) : Prop :=
  match l with
  | [] => o = None
  | x :: l => o = Some x ∧ chain f (f x) l
  end.

Lemma chain_det f o l1 l2 : chain f o l1 → chain f o l2 → l1 = l2.
Proof.
  revert o l2. induction l1 as [|x l1 IH]; intros o [|y l2]; cbn; [done|naive_solver..|].
  intros [-> H1] [[= ->] H2]. f_equal. eauto.
Qed.

Lemma chain_from f o l1 x l2 : chain f o (l1 ++ x :: l2) → chain f (Some x) (x :: l2).
Proof. revert o. induction l1 as [|y l1 IH]; intros o; cbn; [by intros [-> ?]|intros [-> H]; apply (IH _ H)]. Qed.

Lemma chain_nodup f o l : chain f o l → NoDup l.
Proof.
  revert o. induction l as [|x l IH]; intros o; [constructor|]. cbn. intros [-> H]. constructor; [|eauto].
  intros (l1 & l2 & ->)%list_elem_of_split.
  pose proof (chain_from f _ l1 x l2 H) as H2.
  pose proof (chain_det f (Some x) (x :: l1 ++ x :: l2) (x :: l2) (conj eq_refl H) H2) as E.
  apply (f_equal length) in E. cbn in E. rewrite length_app in E. cbn in E. lia.
Qed.

Lemma chain_same f g o l : (∀ x, x ∈ l → f x = g x) → chain f o l → chain g o l.
Proof.
  revert o. induction l as [|x l IH]; intros o He; [done|]. cbn. intros [-> H]. split; [done|].
  rewrite <- He by set_solver. apply IH; [set_solver|done].
Qed.

Lemma chain_head f o l : chain f o l → o = head l.
Proof. destruct l; cbn; naive_solver. Qed.

(** The segment up to [x], whose end is moved to [o']. *)
Lemma chain_graft f g o l1 y l2 l3 :
  chain f o (l1 ++ y :: l2) → (∀ x, x ∈ l1 → f x = g x) → chain g (g y) l3 →
  chain g o (l1 ++ y :: l3).
Proof.
  revert o. induction l1 as [|x l1 IH]; intros o; cbn; [naive_solver|].
  intros [-> H] He Hg. split; [done|]. rewrite <- He by set_solver. apply IH; [done|set_solver|done].
Qed.

(** ** Slots *)
Definition in_arena (ix : Z) : Prop := 0 ≤ ix < NODES_MAX.

#[export] Instance in_arena_dec ix : Decision (in_arena ix).
Proof. unfold in_arena. apply _. Defined.

Lemma at_in_arena ix : in_arena ix → SlotIx_at ix = Z.to_nat ix.
Proof.
  unfold in_arena, NODES_MAX, SlotIx_at, SLOT_MASK. intros H.
  change (NODES_MAX - 1) with (2 ^ 10 - 1). rewrite land_ones_mod by lia. by rewrite Z.mod_small by lia.
Qed.

Definition sized (a : Arena) : Prop := length (slots a) = Z.to_nat NODES_MAX.

Lemma slot_mut_sized i f a : sized a → sized (Arena_slot_mut i f a).
Proof. unfold sized. cbn. by rewrite length_alter. Qed.

Lemma slot_mut_slot i j f a :
  sized a → in_arena i → in_arena j →
  Arena_slot (Arena_slot_mut i f a) j = if decide (i = j) then f (Arena_slot a i) else Arena_slot a j.
Proof.
  unfold sized, Arena_slot, Arena_slot_mut. cbn [slots]. intros Hs Hi Hj. rewrite !at_in_arena by done.
  unfold in_arena in *. destruct (decide (i = j)) as [<-|Hne].
  - rewrite !list_lookup_total_alt, list_lookup_alter, decide_True by done.
    destruct (slots a !! Z.to_nat i) as [s|] eqn:E; [done|].
    apply lookup_ge_None in E. lia.
  - rewrite !list_lookup_total_alt, list_lookup_alter. rewrite decide_False by lia. done.
Qed.

Definition occupied (a : Arena) (x : Z) : Prop := is_Some (held (Arena_slot a x)).

Definition nxt (a : Arena) (x : Z) : option Z := next (Arena_slot a x).
Definition par (a : Arena) (x : Z) : option Z := parent (Arena_slot a x).

(** A place nodes hang from: the top, or a slot. *)
Definition place (p : option Z) : Prop := match p with Some x => in_arena x | None => True end.

(** The contents of a slot, its links aside. *)
Definition content (s : Slot) := (held s, transform s, path s, paint s).

Definition set_kids (kids : option Z → list Z) (p : option Z) (l : list Z) (q : option Z) : list Z :=
  if decide (q = p) then l else kids q.

(** [kids] are the sibling lists. *)
Record linked (a : Arena) (kids : option Z → list Z) : Prop := {
  lk_sized : sized a;
  lk_range : ∀ p x, x ∈ kids p → place p ∧ in_arena x;
  lk_apart : ∀ p q x, x ∈ kids p → x ∈ kids q → p = q;
  lk_lists : ∀ p, place p → chain (nxt a) (Arena_head a p) (kids p);
}.

(** What moving the node in [x] in or out of the list of [p] leaves alone. *)
Record moved (x : Z) (p : option Z) (l : list Z) (a a' : Arena) : Prop := {
  mv_content : ∀ j, in_arena j → content (Arena_slot a' j) = content (Arena_slot a j);
  mv_par : ∀ j, in_arena j → j ≠ x → par a' j = par a j;
  mv_nxt : ∀ j, in_arena j → j ≠ x → j ∉ l → nxt a' j = nxt a j;
  mv_child : ∀ j, in_arena j → Some j ≠ p → first_child (Arena_slot a' j) = first_child (Arena_slot a j);
  mv_roots : p ≠ None → roots a' = roots a;
  mv_rest : free a' = free a ∧ bumped a' = bumped a ∧ census a' = census a;
}.

Lemma in_arena_length l : NoDup l → (∀ x, x ∈ l → in_arena x) → (length l ≤ Z.to_nat NODES_MAX)%nat.
Proof.
  intros Hd Hr. pose proof (submseteq_length l (seqZ 0 NODES_MAX)) as H. rewrite length_seqZ in H.
  apply H, NoDup_submseteq; [done|]. intros x Hx. apply elem_of_seqZ. specialize (Hr x Hx). unfold in_arena in Hr. lia.
Qed.

Lemma unlink_walk_spec l1 y x l2 fuel after cursor a :
  (length l1 < fuel)%nat → chain (nxt a) cursor (l1 ++ y :: x :: l2) →
  unlink_walk fuel x after cursor a = Some (Arena_slot_mut y (set_next after) a).
Proof.
  revert cursor fuel. induction l1 as [|z l1 IH]; intros cursor fuel Hf Hc;
    pose proof (chain_nodup _ _ _ Hc) as Hd; cbn in Hc; destruct Hc as [-> Hc]; destruct fuel as [|fuel]; cbn in Hf; try lia.
  - destruct Hc as [E _]. cbn [unlink_walk]. unfold nxt in E. rewrite E. by rewrite bool_decide_true.
  - cbn [unlink_walk]. fold (nxt a z). rewrite bool_decide_false; [apply IH; [lia|done]|].
    rewrite (chain_head _ _ _ Hc). intros E. apply list.NoDup_cons in Hd as [_ Hd].
    destruct l1 as [|w l1]; cbn in E; injection E as ->; cbn in Hd; apply list.NoDup_cons in Hd as [Hd _]; set_solver.
Qed.

Lemma slot_with_roots r a j : Arena_slot (with_roots r a) j = Arena_slot a j.
Proof. done. Qed.

Create HintDb scene.
#[export] Hint Resolve slot_mut_sized : scene.

(** Read a slot through the writes before it. *)
Ltac slots :=
  repeat first
    [ rewrite slot_with_roots
    | rewrite slot_mut_slot by (eauto with scene; fail) ];
  repeat case_decide; simplify_eq; cbn [held parent first_child next transform path paint
    set_next set_parent set_first_child set_held roots free bumped census Arena_slot_mut with_roots].

Lemma head_mut i f a q :
  sized a → in_arena i → place q → (∀ s, first_child (f s) = first_child s) →
  Arena_head (Arena_slot_mut i f a) q = Arena_head a q.
Proof. intros Hs Hi Hq Hf. destruct q as [q|]; [|done]. unfold Arena_head. slots; [apply Hf|done]. Qed.

Lemma head_set_head p to a q :
  sized a → place p → place q →
  Arena_head (Arena_set_head p to a) q = if decide (q = p) then to else Arena_head a q.
Proof.
  intros Hs Hp Hq. unfold Arena_set_head. destruct p as [p|], q as [q|]; cbn [Arena_head]; slots; try done.
Qed.

Lemma slot_set_head p to a j :
  sized a → place p → in_arena j →
  Arena_slot (Arena_set_head p to a) j =
    if decide (p = Some j) then set_first_child to (Arena_slot a j) else Arena_slot a j.
Proof. intros Hs Hp Hj. unfold Arena_set_head. destruct p as [p|]; slots; try done. Qed.

Lemma set_head_sized p to a : sized a → sized (Arena_set_head p to a).
Proof. destruct p; [apply slot_mut_sized|done]. Qed.
#[export] Hint Resolve set_head_sized : scene.

Lemma set_head_rest p to a :
  free (Arena_set_head p to a) = free a ∧ bumped (Arena_set_head p to a) = bumped a ∧
  census (Arena_set_head p to a) = census a.
Proof. by destruct p. Qed.

Lemma moved_trans x p l a b c : moved x p l a b → moved x p l b c → moved x p l a c.
Proof.
  intros [A1 A2 A3 A4 A5 (A6 & A7 & A8)] [B1 B2 B3 B4 B5 (B6 & B7 & B8)].
  split.
  - intros j Hj. by rewrite B1, A1.
  - intros j Hj Hx. by rewrite B2, A2.
  - intros j Hj Hx Hl. by rewrite B3, A3.
  - intros j Hj Hx. by rewrite B4, A4.
  - intros Hp. by rewrite B5, A5.
  - by rewrite B6, B7, B8.
Qed.

(** Writing the links of one node touches nothing else. *)
Lemma moved_mut x p l a i f :
  sized a → in_arena i → (i = x ∨ i ∈ l) →
  (∀ s, content (f s) = content s ∧ first_child (f s) = first_child s) →
  (i ≠ x → ∀ s, parent (f s) = parent s) →
  moved x p l a (Arena_slot_mut i f a).
Proof.
  intros Hs Hi Hin Hf Hp. split; try done; intros j Hj.
  - slots; [apply Hf|done].
  - intros Hx. unfold par. slots; [|done]. by apply Hp.
  - intros Hx Hl. unfold nxt. slots; [|done]. by destruct Hin.
  - intros _. slots; [apply Hf|done].
Qed.

Lemma moved_set_head x p l a to : sized a → place p → moved x p l a (Arena_set_head p to a).
Proof.
  intros Hs Hp. split.
  - intros j Hj. rewrite slot_set_head by done. by case_decide.
  - intros j Hj _. unfold par. rewrite slot_set_head by done. by case_decide.
  - intros j Hj _ _. unfold nxt. rewrite slot_set_head by done. by case_decide.
  - intros j Hj Hp'. rewrite slot_set_head by done. by rewrite decide_False.
  - by destruct p.
  - apply set_head_rest.
Qed.

(** The list of [p] becomes [l]; every other list is read as before. *)
Lemma linked_set a a' kids p l :
  linked a kids → place p → sized a' →
  (∀ x, x ∈ l → in_arena x ∧ ∀ q, q ≠ p → x ∉ kids q) →
  chain (nxt a') (Arena_head a' p) l →
  (∀ q, place q → q ≠ p → Arena_head a' q = Arena_head a q) →
  (∀ q x, q ≠ p → x ∈ kids q → nxt a' x = nxt a x) →
  linked a' (set_kids kids p l).
Proof.
  intros [_ L2 L3 L4] Hp Hs Hl Hc Hh Hn. split; [done|..].
  - intros q x. unfold set_kids. case_decide; [subst|apply L2]. intros Hx. by destruct (Hl x Hx).
  - intros q r x. unfold set_kids. do 2 case_decide; intros Hq Hr; subst; try done.
    + by destruct (proj2 (Hl x Hq) r).
    + by destruct (proj2 (Hl x Hr) q).
    + by apply (L3 q r x).
  - intros q Hq. unfold set_kids. case_decide; subst; [done|]. rewrite Hh by done.
    apply (chain_same (nxt a)); [|by apply L4]. intros x Hx. symmetry. eauto.
Qed.

(** Taking the node in [x] out of the list of [p]: what is left, and the two
    places it may have been in. *)
Section unlinking.
Context (a : Arena) (kids : option Z → list Z) (x : Z) (p : option Z) (l2 : list Z).
Hypothesis HL : linked a kids.
Hypothesis Hp : place p.
Hypothesis Hpar : par a x = p.

Let unlinked (l1 : list Z) : Prop :=
  ∃ a', Arena_unlink x a = Some a' ∧ linked a' (set_kids kids p (l1 ++ l2)) ∧
        moved x p (kids p) a a' ∧ par a' x = None ∧ nxt a' x = None.

Lemma list_facts l1 :
  kids p = l1 ++ x :: l2 →
  chain (nxt a) (Arena_head a p) (l1 ++ x :: l2) ∧ NoDup (l1 ++ x :: l2) ∧
  (∀ z, z ∈ l1 ++ x :: l2 → in_arena z) ∧ chain (nxt a) (nxt a x) l2 ∧
  (∀ q z, q ≠ p → z ∈ kids q → z ∉ l1 ++ x :: l2).
Proof.
  intros Hk. pose proof (lk_lists _ _ HL p Hp) as Hc. rewrite Hk in Hc.
  split_and!; [done|by apply (chain_nodup _ _ _ Hc)|..].
  - intros z Hz. apply (lk_range _ _ HL p). by rewrite Hk.
  - by apply chain_from in Hc as [_ ?].
  - intros q z Hq Hz Hz'. rewrite <- Hk in Hz'. destruct Hq. by apply (lk_apart _ _ HL _ _ z).
Qed.

Lemma unlink_first : kids p = x :: l2 → unlinked [].
Proof.
  intros Hk. pose proof (lk_sized _ _ HL) as Hs.
  destruct (list_facts [] Hk) as (Hc & Hd & Hr & Hx2 & Hap). cbn [app] in *.
  assert (Hx : in_arena x) by (apply Hr; set_solver).
  unfold unlinked, Arena_unlink. fold (par a x). rewrite Hpar. fold (nxt a x).
  rewrite (chain_head _ _ _ Hc). cbn [head]. rewrite bool_decide_true by done. cbn [mbind option_bind].
  eexists. split; [reflexivity|]. set (a1 := Arena_set_head p (nxt a x) a).
  assert (Hs1 : sized a1) by eauto with scene.
  assert (Hn : ∀ j, in_arena j → nxt (Arena_slot_mut x (λ s, set_next None (set_parent None s)) a1) j
                                 = if decide (x = j) then None else nxt a j).
  { intros j Hj. unfold nxt at 1. slots; [done|]. unfold a1. rewrite slot_set_head by done. by case_decide. }
  split_and!.
  + apply (linked_set a); eauto with scene.
    * intros z Hz. split; [apply Hr; set_solver|]. intros q Hq Hz'. apply (Hap q z Hq Hz'). set_solver.
    * rewrite head_mut by done. unfold a1. rewrite head_set_head, decide_True by done.
      apply (chain_same (nxt a)); [|done]. intros z Hz. rewrite Hn by (apply Hr; set_solver).
      apply list.NoDup_cons in Hd as [Hd _]. rewrite decide_False; [done|]. by intros <-.
    * intros q Hq Hqp. rewrite head_mut by done. unfold a1. rewrite head_set_head by done. by rewrite decide_False.
    * intros q z Hq Hz. rewrite Hn by (by apply (lk_range _ _ HL q)). rewrite decide_False; [done|].
      intros <-. apply (Hap q x Hq Hz). set_solver.
  + eapply moved_trans; [by apply moved_set_head|]. by apply moved_mut; auto.
  + unfold par. by slots.
  + rewrite Hn by done. by rewrite decide_True.
Qed.

Lemma unlink_inside l0 y : kids p = l0 ++ y :: x :: l2 → unlinked (l0 ++ [y]).
Proof.
  intros Hk. pose proof (lk_sized _ _ HL) as Hs.
  destruct (list_facts (l0 ++ [y])) as (Hc & Hd & Hr & Hx2 & Hap); [by rewrite <- (assoc_L (++))|].
  rewrite <- (assoc_L (++)) in *. cbn [app] in *.
  assert (Hx : in_arena x) by (apply Hr; set_solver).
  unfold unlinked, Arena_unlink. rewrite <- (assoc_L (++)). cbn [app]. fold (par a x). rewrite Hpar. fold (nxt a x).
  assert (Hy : in_arena y) by (apply Hr; set_solver).
  apply list.NoDup_app in Hd as (Hd0 & Hd1 & Hd2). apply list.NoDup_cons in Hd2 as [Hd2 Hd3].
  apply list.NoDup_cons in Hd3 as [Hd3 Hd4].
  assert (Hyx : y ≠ x) by (intros ->; apply Hd2; set_solver).
  assert (Hl0 : (x ∉ l0) ∧ (y ∉ l0)) by (split; intros Hz; apply (Hd1 _ Hz); set_solver).
  rewrite bool_decide_false.
  2:{ rewrite (chain_head _ _ _ Hc). destruct l0 as [|z l0]; cbn [head app]; intros [= ->]; [done|]. set_solver. }
  rewrite (unlink_walk_spec l0 y x l2) by (done || (pose proof (in_arena_length _ (chain_nodup _ _ _ Hc) Hr) as Hlen;
    rewrite length_app in Hlen; cbn in Hlen; lia)).
  cbn [mbind option_bind]. eexists. split; [reflexivity|].
  set (a1 := Arena_slot_mut y (set_next (nxt a x)) a).
  assert (Hs1 : sized a1) by eauto with scene.
  assert (Hn : ∀ j, in_arena j → nxt (Arena_slot_mut x (λ s, set_next None (set_parent None s)) a1) j
                 = if decide (x = j) then None else if decide (y = j) then nxt a x else nxt a j).
  { intros j Hj. unfold nxt at 1. unfold a1. slots; done. }
  assert (Hh : ∀ q, place q → Arena_head (Arena_slot_mut x (λ s, set_next None (set_parent None s)) a1) q = Arena_head a q).
  { intros q Hq. rewrite head_mut by done. unfold a1. by apply head_mut. }
  split_and!.
  + apply (linked_set a); eauto with scene.
    * intros z Hz. split; [apply Hr; set_solver|]. intros q Hq Hz'. apply (Hap q z Hq Hz'). set_solver.
    * rewrite Hh by done. apply (chain_graft (nxt a) _ _ l0 y (x :: l2) l2 Hc).
      -- intros z Hz. rewrite Hn by (apply Hr; set_solver). by rewrite !decide_False by (intros <-; naive_solver).
      -- rewrite Hn, decide_False, decide_True by done. apply (chain_same (nxt a)); [|done].
         intros z Hz. rewrite Hn by (apply Hr; set_solver). rewrite !decide_False; [done|intros <-; set_solver..].
    * intros q z Hq Hz. rewrite Hn by (by apply (lk_range _ _ HL q)).
      rewrite !decide_False; [done|intros <-; apply (Hap q _ Hq Hz); set_solver..].
  + rewrite Hk. eapply moved_trans; apply moved_mut; auto; set_solver.
  + unfold par. by slots.
  + rewrite Hn by done. by rewrite decide_True.
Qed.
End unlinking.

Lemma unlink_linked a kids x p l1 l2 :
  linked a kids → place p → par a x = p → kids p = l1 ++ x :: l2 →
  ∃ a', Arena_unlink x a = Some a' ∧ linked a' (set_kids kids p (l1 ++ l2)) ∧
        moved x p (kids p) a a' ∧ par a' x = None ∧ nxt a' x = None.
Proof.
  intros HL Hp Hpar Hk. destruct l1 as [|y l0 _] using rev_ind.
  - by apply unlink_first.
  - apply unlink_inside; [done..|]. by rewrite Hk, <- (assoc_L (++)).
Qed.

Lemma heads_apart (l1 : list Z) y l2 : NoDup (l1 ++ y :: l2) → head (l1 ++ y :: l2) ≠ head l2.
Proof.
  intros Hd E. apply list.NoDup_app in Hd as (_ & Hd1 & Hd2). apply list.NoDup_cons in Hd2 as [Hd2 _].
  destruct l2 as [|b l2]; [by destruct l1|].
  destruct l1 as [|w l1]; cbn in E; injection E as ->; [set_solver|]. apply (Hd1 b); set_solver.
Qed.

Lemma link_walk_spec l0 y l2 x fuel cursor a :
  (length l0 < fuel)%nat → chain (nxt a) cursor (l0 ++ y :: l2) →
  link_walk fuel x (head l2) cursor a =
    Some (Arena_slot_mut y (set_next (Some x)) (Arena_slot_mut x (set_next (head l2)) a)).
Proof.
  revert cursor fuel. induction l0 as [|z l0 IH]; intros cursor fuel Hf Hc;
    pose proof (chain_nodup _ _ _ Hc) as Hd; destruct Hc as [-> Hc]; destruct fuel as [|fuel]; cbn in Hf; try lia;
    cbn [link_walk].
  - fold (nxt a y). rewrite (chain_head _ _ _ Hc). by rewrite bool_decide_true by (by left).
  - fold (nxt a z). rewrite bool_decide_false; [apply IH; [lia|done]|].
    rewrite (chain_head _ _ _ Hc). cbn in Hd. apply list.NoDup_cons in Hd as [_ Hd].
    intros [E|E]; [by apply (heads_apart l0 y l2)|by destruct l0].
Qed.

(** Hanging the node in [x] under [p], in front of the rest of its list. *)
Section linking.
Context (a : Arena) (kids : option Z → list Z) (x : Z) (p : option Z) (l2 : list Z).
Hypothesis HL : linked a kids.
Hypothesis Hp : place p.
Hypothesis Hx : in_arena x.
Hypothesis Hpx : p ≠ Some x.
Hypothesis Hnx : ∀ q, x ∉ kids q.

Let a1 : Arena := Arena_slot_mut x (λ s, set_next None (set_parent p s)) a.

Let linked_to (l1 : list Z) : Prop :=
  ∃ a', Arena_link x p (head l2) a = Some a' ∧ linked a' (set_kids kids p (l1 ++ x :: l2)) ∧
        moved x p (kids p) a a' ∧ par a' x = p.

Lemma link_list_facts l1 :
  kids p = l1 ++ l2 →
  chain (nxt a) (Arena_head a p) (l1 ++ l2) ∧ NoDup (l1 ++ l2) ∧
  (∀ z, z ∈ l1 ++ l2 → in_arena z) ∧ (x ∉ l1 ++ l2) ∧
  (∀ q z, q ≠ p → z ∈ kids q → z ∉ l1 ++ l2).
Proof.
  intros Hk. pose proof (lk_lists _ _ HL p Hp) as Hc. rewrite Hk in Hc.
  split_and!; [done|by apply (chain_nodup _ _ _ Hc)|..].
  - intros z Hz. apply (lk_range _ _ HL p). by rewrite Hk.
  - rewrite <- Hk. apply Hnx.
  - intros q z Hq Hz Hz'. rewrite <- Hk in Hz'. destruct Hq. by apply (lk_apart _ _ HL _ _ z).
Qed.

(** The first write puts [x] under [p], at the end of no list yet. *)
Lemma link_first_write :
  sized a1 ∧ (∀ q, place q → Arena_head a1 q = Arena_head a q) ∧
  (∀ j, in_arena j → j ≠ x → nxt a1 j = nxt a j) ∧
  moved x p (kids p) a a1 ∧ par a1 x = p.
Proof.
  pose proof (lk_sized _ _ HL) as Hs. unfold a1. split_and!.
  - by apply slot_mut_sized.
  - intros q Hq. by apply head_mut.
  - intros j Hj Hjx. unfold nxt at 1. by slots.
  - apply moved_mut; auto; done.
  - unfold par. by slots.
Qed.

Lemma link_first : kids p = l2 → linked_to [].
Proof.
  intros Hk. pose proof (lk_sized _ _ HL) as Hs.
  destruct (link_list_facts [] Hk) as (Hc & Hd & Hr & Hxl & Hap). cbn [app] in *.
  destruct link_first_write as (Hs1 & Hh1 & Hn1 & Hm1 & Hp1).
  unfold linked_to, Arena_link. fold a1. rewrite Hh1 by done.
  rewrite (chain_head _ _ _ Hc), bool_decide_true by (by right).
  eexists. split; [reflexivity|]. set (a2 := Arena_slot_mut x (set_next (head l2)) a1).
  assert (Hs2 : sized a2) by eauto with scene.
  assert (Hn : ∀ j, in_arena j → nxt (Arena_set_head p (Some x) a2) j = if decide (x = j) then head l2 else nxt a j).
  { intros j Hj. unfold nxt at 1. rewrite slot_set_head by done.
    transitivity (next (Arena_slot a2 j)); [by case_decide|]. unfold a2, a1. by slots. }
  assert (Hh : ∀ q, place q → Arena_head (Arena_set_head p (Some x) a2) q = if decide (q = p) then Some x else Arena_head a q).
  { intros q Hq. rewrite head_set_head by done. case_decide; [done|]. unfold a2. rewrite head_mut by done. by apply Hh1. }
  split_and!.
  + apply (linked_set a); eauto with scene.
    * intros z Hz. apply elem_of_cons in Hz as [->|Hz]; [split; [done|by intros q _]|].
      split; [by apply Hr|]. intros q Hq Hz'. by apply (Hap q z Hq Hz').
    * rewrite Hh, decide_True by done. split; [done|]. rewrite Hn, decide_True by done.
      rewrite <- (chain_head _ _ _ Hc). apply (chain_same (nxt a)); [|done]. intros z Hz.
      rewrite Hn by (by apply Hr). by rewrite decide_False by (by intros <-).
    * intros q Hq Hqp. by rewrite Hh, decide_False.
    * intros q z Hq Hz. rewrite Hn by (by apply (lk_range _ _ HL q)). rewrite decide_False; [done|].
      intros <-. by apply (Hnx q).
  + eapply moved_trans; [exact Hm1|]. eapply moved_trans; [|by apply moved_set_head].
    apply moved_mut; auto; done.
  + unfold par. rewrite slot_set_head by done. rewrite decide_False by done. unfold a2. slots; done.
Qed.

Lemma link_inside l0 y : kids p = l0 ++ y :: l2 → linked_to (l0 ++ [y]).
Proof.
  intros Hk. pose proof (lk_sized _ _ HL) as Hs.
  destruct (link_list_facts (l0 ++ [y])) as (Hc & Hd & Hr & Hxl & Hap); [by rewrite <- (assoc_L (++))|].
  destruct link_first_write as (Hs1 & Hh1 & Hn1 & Hm1 & Hp1).
  rewrite <- (assoc_L (++)) in *. cbn [app] in *.
  unfold linked_to, Arena_link. fold a1. rewrite <- (assoc_L (++)). cbn [app]. rewrite Hh1 by done.
  assert (Hy : in_arena y) by (apply Hr; set_solver).
  assert (Hc1 : chain (nxt a1) (Arena_head a p) (l0 ++ y :: l2)).
  { apply (chain_same (nxt a)); [|done]. intros z Hz. rewrite Hn1; [done|by apply Hr|by intros ->]. }
  pose proof (in_arena_length _ Hd Hr) as Hlen. rewrite length_app in Hlen. cbn in Hlen.
  pose proof Hd as Hd'. apply list.NoDup_app in Hd as (Hd0 & Hd1 & Hd2). apply list.NoDup_cons in Hd2 as [Hd2 Hd3].
  assert (Hyx : y ≠ x) by (intros ->; set_solver).
  rewrite bool_decide_false.
  2:{ rewrite (chain_head _ _ _ Hc). intros [E|E]; [by destruct l0|]. by apply (heads_apart l0 y l2). }
  rewrite (link_walk_spec l0 y l2) by (done || lia).
  eexists. split; [reflexivity|]. set (a2 := Arena_slot_mut x (set_next (head l2)) a1).
  assert (Hs2 : sized a2) by eauto with scene.
  assert (Hn : ∀ j, in_arena j → nxt (Arena_slot_mut y (set_next (Some x)) a2) j
                 = if decide (y = j) then Some x else if decide (x = j) then head l2 else nxt a j).
  { intros j Hj. unfold nxt at 1. unfold a2, a1. slots; done. }
  assert (Hh : ∀ q, place q → Arena_head (Arena_slot_mut y (set_next (Some x)) a2) q = Arena_head a q).
  { intros q Hq. rewrite head_mut by done. unfold a2. rewrite head_mut by done. by apply Hh1. }
  assert (Hl2 : chain (nxt a) (head l2) l2).
  { apply chain_from in Hc as [_ Hc]. by rewrite <- (chain_head _ _ _ Hc). }
  split_and!.
  + apply (linked_set a); eauto with scene.
    * intros z Hz. destruct (decide (z = x)) as [->|Hzx]; [split; [done|by intros q _]|].
      split; [apply Hr; set_solver|]. intros q Hq Hz'. apply (Hap q z Hq Hz'). set_solver.
    * rewrite Hh by done. apply (chain_graft (nxt a) _ _ l0 y l2 (x :: l2) Hc).
      -- intros z Hz. rewrite Hn by (apply Hr; set_solver). rewrite !decide_False; [done|intros <-; set_solver..].
      -- rewrite Hn, decide_True by done. split; [done|]. rewrite Hn, decide_False, decide_True by done.
         apply (chain_same (nxt a)); [|done].
         intros z Hz. rewrite Hn by (apply Hr; set_solver). rewrite !decide_False; [done|intros <-; set_solver..].
    * intros q z Hq Hz. rewrite Hn by (by apply (lk_range _ _ HL q)).
      rewrite !decide_False; [done|intros <-..]; [by apply (Hnx q)|apply (Hap q _ Hq Hz); set_solver].
  + eapply moved_trans; [exact Hm1|]. rewrite Hk. eapply moved_trans; apply moved_mut; auto; set_solver.
  + unfold par. unfold a2. slots; done.
Qed.
End linking.

Lemma link_linked a kids x p l1 l2 :
  linked a kids → place p → in_arena x → p ≠ Some x → (∀ q, x ∉ kids q) → kids p = l1 ++ l2 →
  ∃ a', Arena_link x p (head l2) a = Some a' ∧ linked a' (set_kids kids p (l1 ++ x :: l2)) ∧
        moved x p (kids p) a a' ∧ par a' x = p.
Proof.
  intros HL Hp Hx Hpx Hnx Hk. destruct l1 as [|y l0 _] using rev_ind.
  - by apply link_first.
  - apply link_inside; [done..|]. by rewrite Hk, <- (assoc_L (++)).
Qed.

(** ** What an operation keeps *)
Definition tally (P : Z → Prop) `{∀ x, Decision (P x)} : Z :=
  Z.of_nat (length (filter P (seqZ 0 NODES_MAX))).

Definition kind_at (a : Arena) (x : Z) : option Kind := created_kind <$> held (Arena_slot a x).

(** The slots that hold nothing, the identifiers of those that do, and the
    census of them. *)
Record stocked (a : Arena) (spare : list Z) : Prop := {
  st_bare : ∀ x, in_arena x → ¬ occupied a x → Arena_slot a x = set_next (nxt a x) Slot_EMPTY;
  st_spare : chain (nxt a) (free a) spare;
  st_spare_in : ∀ x, x ∈ spare ↔ 0 ≤ x < bumped a ∧ ¬ occupied a x;
  st_bumped : 0 ≤ bumped a ≤ NODES_MAX;
  st_fresh : ∀ x, bumped a ≤ x < NODES_MAX → Arena_slot a x = Slot_EMPTY;
  st_distinct : ∀ x y c d, in_arena x → in_arena y → held (Arena_slot a x) = Some c →
    held (Arena_slot a y) = Some d → created_node c = created_node d → x = y;
  st_named : ∀ x c, in_arena x → held (Arena_slot a x) = Some c → created_node c ≠ NO_NODE;
  st_census : length (census a) = Kind_COUNT;
  st_counts : ∀ k, Arena_count_of a k = tally (λ x, kind_at a x = Some k);
}.

(** [loose] are the nodes an operation holds, out of every list. *)
Record shape (a : Arena) (kids : option Z → list Z) (spare loose : list Z) : Prop := {
  sh_linked : linked a kids;
  sh_stocked : stocked a spare;
  sh_loose : NoDup loose;
  sh_apart : ∀ x, x ∈ loose → in_arena x ∧ ∀ p, x ∉ kids p;
  sh_occupied : ∀ x, in_arena x → occupied a x ↔ x ∈ loose ∨ x ∈ kids (par a x);
  sh_par : ∀ p x, x ∈ kids p → par a x = p;
  sh_host : ∀ p x, x ∈ kids (Some p) → occupied a p;
}.

Lemma moved_occupied x p l a a' j : moved x p l a a' → in_arena j → occupied a' j ↔ occupied a j.
Proof. intros M Hj. pose proof (mv_content _ _ _ _ _ M j Hj) as [= E]. unfold occupied. by rewrite E. Qed.

Lemma moved_slot x p l a a' j :
  moved x p l a a' → in_arena j → j ≠ x → j ∉ l → Some j ≠ p → Arena_slot a' j = Arena_slot a j.
Proof.
  intros [M1 M2 M3 M4 _ _] Hj Hx Hl Hp. pose proof (M1 j Hj) as [= E1 E2 E3 E4].
  specialize (M2 j Hj Hx). specialize (M3 j Hj Hx Hl). specialize (M4 j Hj Hp). unfold par, nxt in *.
  destruct (Arena_slot a' j), (Arena_slot a j). cbn in *. by subst.
Qed.

Lemma filter_same (P Q : Z → Prop) `{∀ x, Decision (P x), ∀ x, Decision (Q x)} (l : list Z) :
  (∀ x, x ∈ l → P x ↔ Q x) → filter P l = filter Q l.
Proof.
  induction l as [|x l IH]; intros E; [done|]. rewrite !filter_cons.
  rewrite IH by (intros; apply E; set_solver). pose proof (E x ltac:(set_solver)).
  destruct (decide (P x)), (decide (Q x)); naive_solver.
Qed.

Lemma elem_of_arena x : x ∈ seqZ 0 NODES_MAX ↔ in_arena x.
Proof. rewrite elem_of_seqZ. unfold in_arena. lia. Qed.

Lemma tally_ext (P Q : Z → Prop) `{∀ x, Decision (P x), ∀ x, Decision (Q x)} :
  (∀ x, in_arena x → P x ↔ Q x) → tally P = tally Q.
Proof. intros E. unfold tally. do 2 f_equal. apply filter_same. intros x Hx. by apply E, elem_of_arena. Qed.

Lemma tally_step (P Q : Z → Prop) `{∀ x, Decision (P x), ∀ x, Decision (Q x)} i :
  in_arena i → (∀ x, in_arena x → x ≠ i → P x ↔ Q x) → ¬ P i → Q i → tally Q = tally P + 1.
Proof.
  intros Hi E Hp Hq. unfold tally.
  destruct (elem_of_Permutation (seqZ 0 NODES_MAX) i) as [[l Hl] _]; [by apply elem_of_arena|].
  pose proof (NoDup_seqZ 0 NODES_MAX) as Hd. rewrite Hl in Hd. apply list.NoDup_cons in Hd as [Hd _].
  rewrite !Hl, !filter_cons. rewrite decide_True by done. rewrite (decide_False (P := P i)) by done. cbn [length].
  rewrite (filter_same Q P l); [lia|]. intros x Hx. symmetry. apply E; [|by intros ->].
  apply elem_of_arena. rewrite Hl. set_solver.
Qed.

Lemma empty_vacant a j : Arena_slot a j = Slot_EMPTY → ¬ occupied a j.
Proof. unfold occupied. intros ->. by intros [? [=]]. Qed.

Lemma stocked_moved a a' spare x p l :
  stocked a spare → moved x p l a a' → occupied a x → (∀ j, j ∈ l → occupied a j) →
  (∀ j, p = Some j → occupied a j) → stocked a' spare.
Proof.
  intros [S1 S2 S3 S4 S5 S6 S7 S8 S9] M Hx Hl Hp.
  destruct (mv_rest _ _ _ _ _ M) as (Ef & Eb & Ec).
  assert (Ho : ∀ j, in_arena j → occupied a' j ↔ occupied a j) by (intros; by eapply moved_occupied).
  assert (Hh : ∀ j, in_arena j → held (Arena_slot a' j) = held (Arena_slot a j))
    by (intros j Hj; by pose proof (mv_content _ _ _ _ _ M j Hj) as [= ? _ _ _]).
  assert (Hs : ∀ j, in_arena j → ¬ occupied a j → Arena_slot a' j = Arena_slot a j).
  { intros j Hj Hn. apply (moved_slot x p l); [done..|by intros ->|by intros ?%Hl|]. intros E. by apply Hn, Hp. }
  assert (Hb : ∀ j, 0 ≤ j < bumped a → in_arena j) by (unfold in_arena; lia).
  split; rewrite ?Ef, ?Eb, ?Ec; try done.
  - intros j Hj Hn. rewrite Ho in Hn by done. unfold nxt. rewrite Hs by done. by apply S1.
  - apply (chain_same (nxt a)); [|done]. intros j Hj. apply S3 in Hj as [Hj Hn]. unfold nxt. by rewrite Hs by auto.
  - intros j. rewrite S3. split; intros [Hj Hn]; (split; [done|]); by rewrite Ho in * by auto.
  - intros j Hj. rewrite Hs; [by apply S5|unfold in_arena; lia|by apply empty_vacant, S5].
  - intros y z c d Hy Hz. rewrite !Hh by done. by apply S6.
  - intros y c Hy. rewrite !Hh by done. by apply S7.
  - intros k. unfold Arena_count_of. rewrite Ec. fold (Arena_count_of a k). rewrite S9. apply tally_ext.
    intros j Hj. unfold kind_at. by rewrite Hh.
Qed.

Lemma shape_unlink a kids spare x p l1 l2 :
  shape a kids spare [] → kids p = l1 ++ x :: l2 →
  ∃ a', Arena_unlink x a = Some a' ∧ shape a' (set_kids kids p (l1 ++ l2)) spare [x] ∧
        moved x p (kids p) a a' ∧ par a' x = None ∧ nxt a' x = None.
Proof.
  intros [HL HS _ _ HO HP HH] Hk. assert (Hx : x ∈ kids p) by (rewrite Hk; set_solver).
  destruct (lk_range _ _ HL _ _ Hx) as [Hp Hax].
  assert (Hocc : ∀ q j, j ∈ kids q → occupied a j).
  { intros q j Hj. apply HO; [by apply (lk_range _ _ HL q)|]. right. by rewrite (HP _ _ Hj). }
  assert (Hpo : ∀ j, p = Some j → occupied a j) by (intros j ->; by apply (HH _ x)).
  destruct (unlink_linked a kids x p l1 l2 HL Hp (HP _ _ Hx) Hk) as (a' & E & HL' & M & Epar & Enxt).
  exists a'. split_and!; [done| |done..].
  pose proof (chain_nodup _ _ _ (lk_lists _ _ HL p Hp)) as Hd. rewrite Hk in Hd.
  apply list.NoDup_app in Hd as (_ & Hd1 & Hd2). apply list.NoDup_cons in Hd2 as [Hd2 _].
  assert (Hin : ∀ q z, z ∈ set_kids kids p (l1 ++ l2) q ↔ z ∈ kids q ∧ z ≠ x).
  { intros q z. unfold set_kids. case_decide as Eq; [subst q; rewrite Hk|].
    - split; [|set_solver]. intros Hz. split; [set_solver|]. intros ->. apply elem_of_app in Hz as [Hz|Hz]; [|done].
      apply (Hd1 x Hz). set_solver.
    - split; [|by intros [? _]]. intros Hz. split; [done|]. intros ->. apply Eq. by apply (lk_apart _ _ HL _ _ x). }
  assert (Hpar : ∀ j, in_arena j → j ≠ x → par a' j = par a j) by (intros; by eapply mv_par).
  split; [done|by eapply stocked_moved; eauto|by apply NoDup_singleton|..].
  - intros z Hz. apply list_elem_of_singleton in Hz as ->. split; [done|]. intros q Hq. by apply Hin in Hq as [_ ?].
  - intros z Hz. rewrite (moved_occupied _ _ _ _ _ z M Hz), HO, Hin by done. destruct (decide (z = x)) as [->|Hzx].
    + split; [set_solver|]. intros _. right. by rewrite (HP _ _ Hx).
    + rewrite Hpar by done. set_solver.
  - intros q z Hz. apply Hin in Hz as [Hz Hzx]. rewrite Hpar; [by apply HP|by apply (lk_range _ _ HL q)|done].
  - intros q z Hz. apply Hin in Hz as [Hz Hzx]. eapply moved_occupied; [done| |by apply (HH _ z)].
    by apply (lk_range _ _ HL _ z) in Hz as [Hz _].
Qed.

Lemma shape_link a kids spare x p l1 l2 :
  shape a kids spare [x] → place p → (∀ j, p = Some j → occupied a j) → p ≠ Some x → kids p = l1 ++ l2 →
  ∃ a', Arena_link x p (head l2) a = Some a' ∧ shape a' (set_kids kids p (l1 ++ x :: l2)) spare [] ∧
        moved x p (kids p) a a' ∧ par a' x = p.
Proof.
  intros [HL HS _ HA HO HP HH] Hp Hpo Hpx Hk. destruct (HA x) as [Hx Hnx]; [set_solver|].
  assert (Hocc : ∀ q j, j ∈ kids q → occupied a j).
  { intros q j Hj. apply HO; [by apply (lk_range _ _ HL q)|]. right. by rewrite (HP _ _ Hj). }
  assert (Hox : occupied a x) by (apply HO; [done|left; set_solver]).
  destruct (link_linked a kids x p l1 l2 HL Hp Hx Hpx Hnx Hk) as (a' & E & HL' & M & Epar).
  exists a'. split_and!; [done| |done..].
  assert (Hin : ∀ q z, z ∈ set_kids kids p (l1 ++ x :: l2) q ↔ z ∈ kids q ∨ q = p ∧ z = x).
  { intros q z. unfold set_kids. case_decide as Eq; [subst q; rewrite Hk; set_solver|]. naive_solver. }
  assert (Hpar : ∀ j, in_arena j → j ≠ x → par a' j = par a j) by (intros; by eapply mv_par).
  split; [done|by eapply stocked_moved; eauto|constructor|..].
  - intros z Hz. by apply elem_of_nil in Hz.
  - intros z Hz. rewrite (moved_occupied _ _ _ _ _ z M Hz), HO, Hin by done. destruct (decide (z = x)) as [->|Hzx].
    + split; [|set_solver]. intros _. right. right. by rewrite Epar.
    + rewrite Hpar by done. set_solver.
  - intros q z Hz. apply Hin in Hz as [Hz|[-> ->]]; [|done].
    rewrite Hpar; [by apply HP|by apply (lk_range _ _ HL q)|]. intros ->. by apply (Hnx q).
  - intros q z Hz. apply Hin in Hz as [Hz|[<- ->]].
    + eapply moved_occupied; [done| |by apply (HH _ z)]. by apply (lk_range _ _ HL _ z) in Hz as [Hz _].
    + eapply moved_occupied; [done|done|by apply Hpo].
Qed.

(** ** Filling a slot *)
Lemma ByKind_at_set t k v k' :
  length t = Kind_COUNT → ByKind_at (ByKind_set k v t) k' = if decide (k = k') then v else ByKind_at t k'.
Proof.
  unfold ByKind. intros Hl. unfold ByKind_at, ByKind_set, ByKind. rewrite !list_lookup_total_alt.
  assert (Hk : (Kind_index k < length t)%nat) by (rewrite Hl; destruct k; vm_compute; lia).
  case_decide as E; [subst; by rewrite list_lookup_insert_eq|].
  rewrite list_lookup_insert_ne; [done|]. by destruct k, k'.
Qed.

(** Slot [i] holds [c] and is linked to nothing; the others are as they were. *)
Record filled (a : Arena) (i : Z) (c : Created) (a2 : Arena) : Prop := {
  fi_sized : sized a2;
  fi_other : ∀ j, in_arena j → j ≠ i → Arena_slot a2 j = Arena_slot a j;
  fi_self : Arena_slot a2 i = set_held (Some c) Slot_EMPTY;
  fi_roots : roots a2 = roots a;
  fi_census : census a2 =
    ByKind_set (created_kind c) (saturating_add 16 (ByKind_at (census a) (created_kind c)) 1) (census a);
}.

Lemma filled_occupied a i c a2 j :
  filled a i c a2 → in_arena j → occupied a2 j ↔ j = i ∨ occupied a j.
Proof.
  intros F Hj. unfold occupied. destruct (decide (j = i)) as [->|Hne].
  - rewrite (fi_self _ _ _ _ F). cbn. split; [by left|eauto].
  - rewrite (fi_other _ _ _ _ F j) by done. naive_solver.
Qed.

Lemma tally_bound (P : Z → Prop) `{∀ x, Decision (P x)} : 0 ≤ tally P ≤ NODES_MAX.
Proof.
  unfold tally. pose proof (length_filter P (seqZ 0 NODES_MAX)) as Hl. rewrite length_seqZ in Hl.
  unfold NODES_MAX in *. lia.
Qed.

Lemma filled_counts a i c a2 spare k :
  stocked a spare → filled a i c a2 → in_arena i → ¬ occupied a i →
  Arena_count_of a2 k = tally (λ x, kind_at a2 x = Some k).
Proof.
  intros HS F Hi Hn. unfold Arena_count_of. rewrite (fi_census _ _ _ _ F), ByKind_at_set by apply HS.
  fold (Arena_count_of a (created_kind c)). fold (Arena_count_of a k). rewrite !(st_counts _ _ HS).
  assert (Hk : kind_at a2 i = Some (created_kind c)) by (unfold kind_at; by rewrite (fi_self _ _ _ _ F)).
  assert (Ho : ∀ x, in_arena x → x ≠ i → kind_at a2 x = kind_at a x)
    by (intros x Hx Hne; unfold kind_at; by rewrite (fi_other _ _ _ _ F)).
  case_decide as E.
  - subst k. rewrite (tally_step (λ x, kind_at a x = Some (created_kind c)) (λ x, kind_at a2 x = Some (created_kind c)) i); [|done| |..|done].
    + pose proof (tally_bound (λ x, kind_at a x = Some (created_kind c))). unfold saturating_add, NODES_MAX in *. lia.
    + intros x Hx Hne. by rewrite Ho.
    + unfold kind_at. intros Hs. apply Hn. unfold occupied. destruct (held (Arena_slot a i)); [done|discriminate Hs].
  - apply tally_ext. intros x Hx. destruct (decide (x = i)) as [->|Hne]; [|by rewrite Ho].
    rewrite Hk. split; [|by intros [= ?]]. unfold kind_at. intros Hs. destruct Hn.
    unfold occupied. destruct (held (Arena_slot a i)); [done|discriminate Hs].
Qed.

Lemma stocked_filled a i c a2 spare spare' :
  stocked a spare → filled a i c a2 → in_arena i → ¬ occupied a i → created_node c ≠ NO_NODE →
  (∀ x d, in_arena x → held (Arena_slot a x) = Some d → created_node d ≠ created_node c) →
  chain (nxt a2) (free a2) spare' →
  (∀ x, x ∈ spare' ↔ 0 ≤ x < bumped a2 ∧ ¬ occupied a2 x) →
  bumped a ≤ bumped a2 ≤ NODES_MAX → i < bumped a2 →
  stocked a2 spare'.
Proof.
  intros HS F Hi Hn Hname Hfresh Hc Hin Hb Hib. pose proof (st_bumped _ _ HS) as Hb0.
  assert (Hself : held (Arena_slot a2 i) = Some c) by (by rewrite (fi_self _ _ _ _ F)).
  split; [|done|done|lia|..].
  - intros j Hj Hno. rewrite filled_occupied in Hno by done. unfold nxt.
    rewrite (fi_other _ _ _ _ F) by naive_solver. apply (st_bare _ _ HS); naive_solver.
  - intros j Hj. rewrite (fi_other _ _ _ _ F) by (unfold in_arena; lia). apply (st_fresh _ _ HS). lia.
  - intros x y d e Hx Hy. destruct (decide (x = i)) as [->|Hxi], (decide (y = i)) as [->|Hyi]; [done| | |].
    + rewrite Hself, (fi_other _ _ _ _ F y) by done. intros [= <-] He E. by destruct (Hfresh y e Hy He).
    + rewrite Hself, (fi_other _ _ _ _ F x) by done. intros Hd [= <-] E. by destruct (Hfresh x d Hx Hd).
    + rewrite !(fi_other _ _ _ _ F) by done. by apply (st_distinct _ _ HS).
  - intros x d Hx. destruct (decide (x = i)) as [->|Hxi]; [rewrite Hself; by intros [= <-]|].
    rewrite (fi_other _ _ _ _ F) by done. by apply (st_named _ _ HS).
  - rewrite (fi_census _ _ _ _ F). unfold ByKind_set, ByKind. rewrite length_insert. apply HS.
  - intros k. by eapply filled_counts.
Qed.

Lemma shape_filled a i c a2 kids spare spare' :
  shape a kids spare [] → filled a i c a2 → in_arena i → ¬ occupied a i → stocked a2 spare' →
  shape a2 kids spare' [i].
Proof.
  intros [HL HS _ HA HO HP HH] F Hi Hn HS2.
  assert (Hocc : ∀ q j, j ∈ kids q → in_arena j ∧ j ≠ i).
  { intros q j Hj. destruct (lk_range _ _ HL _ _ Hj) as [_ Hr]. split; [done|]. intros ->.
    apply Hn, HO; [done|]. right. by rewrite (HP _ _ Hj). }
  assert (Hki : kids (Some i) = []).
  { destruct (kids (Some i)) as [|j l] eqn:E; [done|]. destruct Hn. apply (HH _ j). rewrite E. set_solver. }
  assert (Hf : ∀ j, in_arena j → j ≠ i → Arena_slot a2 j = Arena_slot a j) by apply F.
  destruct HL as [L1 L2 L3 L4]. split; [split|done|by apply NoDup_singleton|..].
  - apply F.
  - done.
  - done.
  - intros p Hp. destruct (decide (p = Some i)) as [->|Hpi].
    { rewrite Hki. cbn. by rewrite (fi_self _ _ _ _ F). }
    assert (Eh : Arena_head a2 p = Arena_head a p).
    { destruct p as [q|]; cbn; [|by rewrite (fi_roots _ _ _ _ F)]. by rewrite Hf by (done || intros ->; done). }
    rewrite Eh. apply (chain_same (nxt a)); [|by apply L4]. intros j Hj. destruct (Hocc _ _ Hj).
    unfold nxt. by rewrite Hf.
  - intros x Hx. apply list_elem_of_singleton in Hx as ->. split; [done|]. intros p Hp. by apply Hocc in Hp as [_ ?].
  - intros x Hx. rewrite (filled_occupied _ _ _ _ _ F Hx). unfold par. destruct (decide (x = i)) as [->|Hne]; [set_solver|].
    rewrite Hf by done. fold (par a x). rewrite HO by done. set_solver.
  - intros p x Hx. destruct (Hocc _ _ Hx). unfold par. rewrite Hf by done. by apply HP.
  - intros p x Hx. destruct (lk_range _ _ (Build_linked _ _ L1 L2 L3 L4) _ _ Hx) as [Hp _].
    apply (filled_occupied _ _ _ _ _ F Hp). right. by apply (HH _ x).
Qed.

(** What [hang] does to begin a node. *)
Definition begun (c : Created) (ix : Z) (a : Arena) : Arena :=
  let a := Arena_slot_mut ix (set_held (Some c)) a in
  with_census (ByKind_set (created_kind c) (saturating_add 16 (ByKind_at (census a) (created_kind c)) 1) (census a)) a.

Lemma take_full a kids spare :
  shape a kids spare [] → fst (Arena_take_free a) = None →
  Arena_take_free a = (None, a) ∧ ∀ x, in_arena x → occupied a x.
Proof.
  intros [_ HS _ _ _ _ _]. unfold Arena_take_free. destruct HS as [_ S2 S3 S4 _ _ _ _ _].
  destruct (free a) as [ix|] eqn:Ef; [done|]. destruct (Z.ltb_spec (bumped a) NODES_MAX); [done|]. intros _.
  split; [done|]. intros x Hx. destruct spare as [|s spare]; [|by destruct S2].
  unfold occupied. destruct (held (Arena_slot a x)) eqn:E; [done|]. unfold in_arena in Hx.
  assert (Hin : x ∈ @nil Z); [|by apply elem_of_nil in Hin].
  apply S3. split; [lia|]. unfold occupied. rewrite E. by intros [? ?].
Qed.

Lemma begun_filled a a1 c ix :
  sized a1 → in_arena ix → (∀ j, in_arena j → j ≠ ix → Arena_slot a1 j = Arena_slot a j) →
  Arena_slot a1 ix = Slot_EMPTY → roots a1 = roots a → census a1 = census a →
  filled a ix c (begun c ix a1).
Proof.
  intros Hs Hi Ho He Hr Hc. unfold begun. cbv zeta.
  assert (E : ∀ b j, Arena_slot (with_census b (Arena_slot_mut ix (set_held (Some c)) a1)) j
                   = Arena_slot (Arena_slot_mut ix (set_held (Some c)) a1) j) by done.
  split.
  - by apply slot_mut_sized.
  - intros j Hj Hne. rewrite E. slots. by apply Ho.
  - rewrite E. slots. by rewrite He.
  - done.
  - cbn. by rewrite Hc.
Qed.

Section taking.
Context (a : Arena) (kids : option Z → list Z) (spare : list Z) (c : Created).
Hypothesis HSh : shape a kids spare [].
Hypothesis Hname : created_node c ≠ NO_NODE.
Hypothesis Hfresh : ∀ x d, in_arena x → held (Arena_slot a x) = Some d → created_node d ≠ created_node c.

Let taken (ix : Z) (a1 : Arena) : Prop :=
  in_arena ix ∧ ¬ occupied a ix ∧ filled a ix c (begun c ix a1) ∧
  ∃ spare', shape (begun c ix a1) kids spare' [ix].

Lemma take_recycled ix :
  free a = Some ix → taken ix (Arena_slot_mut ix (λ _, Slot_EMPTY) (with_free (next (Arena_slot a ix)) a)).
Proof.
  intros Ef. pose proof HSh as [HL HS _ _ _ _ _]. pose proof (lk_sized _ _ HL) as Hs.
  pose proof HS as [_ S2 S3 S4 _ _ _ _ _]. pose proof (chain_nodup _ _ _ S2) as Hd.
  destruct spare as [|s rest]; [by rewrite Ef in S2|]. rewrite Ef in S2. destruct S2 as [[= <-] S2].
  destruct (proj1 (S3 ix)) as [Hr Hn]; [set_solver|]. apply list.NoDup_cons in Hd as [Hd _].
  assert (Hi : in_arena ix) by (unfold in_arena; lia).
  unfold taken. set (a1 := Arena_slot_mut ix _ _).
  assert (F : filled a ix c (begun c ix a1)).
  { apply begun_filled; try done; [by apply slot_mut_sized|..].
    - intros j Hj Hne. unfold a1. by slots.
    - unfold a1. by slots. }
  split_and!; [done..|]. exists rest. eapply shape_filled; [done..|].
  eapply stocked_filled; [done..| | |cbn; lia|cbn; lia].
  - change (free (begun _ _ _)) with (nxt a ix). apply (chain_same (nxt a)); [|done]. intros j Hj.
    unfold nxt at 2. rewrite (fi_other _ _ _ _ F); [done| |by intros ->].
    destruct (proj1 (S3 j)) as [Hj' _]; [set_solver|]. unfold in_arena. lia.
  - intros x. change (bumped (begun _ _ _)) with (bumped a). split.
    + intros Hx. destruct (proj1 (S3 x)) as [Hx' Hx2]; [set_solver|]. split; [done|].
      rewrite (filled_occupied _ _ _ _ x F) by (unfold in_arena; lia). intros [->|?]; done.
    + intros [Hx Hno]. rewrite (filled_occupied _ _ _ _ x F) in Hno by (unfold in_arena; lia).
      assert (Hx2 : x ∈ ix :: rest) by (apply S3; naive_solver). set_solver.
Qed.

Lemma take_fresh : free a = None → bumped a < NODES_MAX → taken (bumped a) (with_bumped (bumped a + 1) a).
Proof.
  intros Ef Hlt. pose proof HSh as [HL HS _ _ _ _ _]. pose proof (lk_sized _ _ HL) as Hs.
  pose proof HS as [_ S2 S3 S4 S5 _ _ _ _].
  assert (Hi : in_arena (bumped a)) by (unfold in_arena; lia).
  assert (He : Arena_slot a (bumped a) = Slot_EMPTY) by (apply S5; lia).
  unfold taken. set (a1 := with_bumped _ _).
  assert (F : filled a (bumped a) c (begun c (bumped a) a1)) by (by apply begun_filled).
  split_and!; [done|by apply empty_vacant|done|]. exists spare. eapply shape_filled; [done..|by apply empty_vacant|].
  eapply stocked_filled; [done..|by apply empty_vacant|done|done| | |cbn; lia|cbn; lia].
  - change (free (begun _ _ _)) with (free a). apply (chain_same (nxt a)); [|done]. intros j Hj.
    apply S3 in Hj as [Hj _]. unfold nxt at 2. rewrite (fi_other _ _ _ _ F); [done|unfold in_arena; lia|lia].
  - intros x. change (bumped (begun _ _ _)) with (bumped a + 1). rewrite S3. split.
    + intros [Hx Hno]. split; [lia|]. rewrite (filled_occupied _ _ _ _ x F) by (unfold in_arena; lia).
      intros [->|?]; [lia|done].
    + intros [Hx Hno]. rewrite (filled_occupied _ _ _ _ x F) in Hno by (unfold in_arena; lia).
      split; [|naive_solver]. destruct (decide (x = bumped a)); [naive_solver|lia].
Qed.

Lemma shape_take ix a1 : Arena_take_free a = (Some ix, a1) → taken ix a1.
Proof.
  unfold Arena_take_free. destruct (free a) as [i|] eqn:Ef.
  - intros [= <- <-]. by apply take_recycled.
  - destruct (Z.ltb_spec (bumped a) NODES_MAX) as [Hlt|]; [|done]. intros [= <- <-]. by apply take_fresh.
Qed.
End taking.

(** ** Tearing down *)

(** The links of the slots in [l] are rewritten, and nothing else. *)
Record respliced (l : list Z) (a a1 : Arena) : Prop := {
  rs_sized : sized a1;
  rs_slot : ∀ j, in_arena j → j ∉ l → Arena_slot a1 j = Arena_slot a j;
  rs_links : ∀ j, in_arena j → Arena_slot a1 j = set_next (nxt a1 j) (Arena_slot a j);
  rs_rest : roots a1 = roots a ∧ free a1 = free a ∧ bumped a1 = bumped a ∧ census a1 = census a;
}.

Lemma push_children_spec l fuel child pending W a :
  sized a → (length l ≤ fuel)%nat → chain (nxt a) child l → (∀ x, x ∈ l → in_arena x) →
  (∀ x, x ∈ W → in_arena x ∧ x ∉ l) → chain (nxt a) pending W →
  ∃ pending' a1, push_children fuel child pending a = Some (pending', a1) ∧
    respliced l a a1 ∧ chain (nxt a1) pending' (reverse l ++ W).
Proof.
  revert fuel child pending W a. induction l as [|x l IH]; intros fuel child pending W a Hs Hf Hc Hr Hd HW.
  { exists pending, a. cbn in Hc. subst child. split_and!; [by destruct fuel| |done].
    split; try done. intros j Hj. unfold nxt. by destruct (Arena_slot a j). }
  pose proof (chain_nodup _ _ _ Hc) as Hn. apply list.NoDup_cons in Hn as [Hn _].
  cbn in Hc. destruct Hc as [-> Hc]. destruct fuel as [|fuel]; [cbn in Hf; lia|]. cbn in Hf.
  assert (Hx : in_arena x) by (apply Hr; set_solver). cbn [push_children]. fold (nxt a x).
  set (a0 := Arena_slot_mut x (set_next pending) a).
  assert (Hs0 : sized a0) by (by apply slot_mut_sized).
  assert (Hn0 : ∀ j, in_arena j → j ≠ x → nxt a0 j = nxt a j) by (intros j Hj Hne; unfold nxt at 1, a0; by slots).
  destruct (IH fuel (nxt a x) (Some x) (x :: W) a0) as (p' & a1 & E & R & C); [done|lia|..].
  - apply (chain_same (nxt a)); [|done]. intros j Hj. symmetry. apply Hn0; [apply Hr; set_solver|by intros ->].
  - intros j Hj. apply Hr. set_solver.
  - intros j [->|Hj]%elem_of_cons; [done|]. destruct (Hd j Hj) as [Hr' Hd']. split; [done|]. set_solver.
  - split; [done|]. unfold nxt at 2, a0. slots. apply (chain_same (nxt a)); [|done]. intros j Hj.
    destruct (Hd j Hj) as [Hr' Hd']. symmetry. apply Hn0; [done|set_solver].
  - exists p', a1. split_and!; [done| |by rewrite reverse_cons, <- (assoc_L (++))].
    destruct R as [R1 R2 R3 R4]. split; [done|..|done].
    + intros j Hj Hl. rewrite R2 by (done || set_solver). unfold a0. slots; [set_solver|done].
    + intros j Hj. rewrite R3 by done. unfold a0. by slots.
Qed.

(** Slot [x] is released, its children [l] being on the work list. *)
Record emptied (x : Z) (k : Kind) (l : list Z) (a a2 : Arena) : Prop := {
  em_sized : sized a2;
  em_self : Arena_slot a2 x = set_next (free a) Slot_EMPTY;
  em_slot : ∀ j, in_arena j → j ≠ x → j ∉ l → Arena_slot a2 j = Arena_slot a j;
  em_links : ∀ j, in_arena j → j ≠ x → Arena_slot a2 j = set_next (nxt a2 j) (Arena_slot a j);
  em_free : free a2 = Some x;
  em_rest : roots a2 = roots a ∧ bumped a2 = bumped a;
  em_census : census a2 = ByKind_set k (saturating_sub (ByKind_at (census a) k) 1) (census a);
}.

Lemma release_emptied x removal l a a1 c :
  in_arena x → x ∉ l → respliced l a a1 → held (Arena_slot a x) = Some c →
  ∃ a2, Arena_release x removal a1 = (Some (created_kind c), a2) ∧ emptied x (created_kind c) l a a2 ∧
        ∀ j, in_arena j → j ≠ x → nxt a2 j = nxt a1 j.
Proof.
  intros Hx Hl [R1 R2 R3 (R4 & R5 & R6 & R7)] Hc.
  unfold Arena_release. rewrite (R2 x Hx Hl), Hc.
  set (a0 := with_free (Some x) (Arena_slot_mut x (λ _, set_next (free a1) Slot_EMPTY) a1)).
  assert (Hk : match Created_removed_by c removal with
               | Ok kind => kind | Err beneath => Created_removed_under beneath removal end = created_kind c).
  { unfold Created_removed_by. by destruct (_ =? _). }
  rewrite Hk. eexists. split; [reflexivity|].
  assert (Hs : ∀ j, in_arena j → Arena_slot (with_census (ByKind_set (created_kind c)
     (saturating_sub (ByKind_at (census a0) (created_kind c)) 1) (census a0)) a0) j
     = if decide (x = j) then set_next (free a1) Slot_EMPTY else Arena_slot a1 j).
  { intros j Hj. change (Arena_slot (with_census _ a0) j) with (Arena_slot (Arena_slot_mut x (λ _, set_next (free a1) Slot_EMPTY) a1) j).
    by slots. }
  split; [split|].
  - by apply slot_mut_sized.
  - rewrite Hs, decide_True, R5 by done. done.
  - intros j Hj Hne Hj2. rewrite Hs, decide_False by done. by apply R2.
  - intros j Hj Hne. unfold nxt. rewrite !Hs, !decide_False by done. by apply R3.
  - done.
  - done.
  - cbn. by rewrite R7.
  - intros j Hj Hne. unfold nxt at 1. by rewrite Hs, decide_False.
Qed.

Lemma emptied_occupied x k l a a2 j :
  emptied x k l a a2 → in_arena j → occupied a2 j ↔ j ≠ x ∧ occupied a j.
Proof.
  intros M Hj. unfold occupied. destruct (decide (j = x)) as [->|Hne].
  - rewrite (em_self _ _ _ _ _ M). split; [by intros [? [=]]|by intros []].
  - rewrite (em_links _ _ _ _ _ M j) by done. cbn. naive_solver.
Qed.

Lemma stocked_emptied x c l a a2 spare :
  stocked a spare → emptied x (created_kind c) l a a2 → in_arena x → held (Arena_slot a x) = Some c →
  (∀ j, j ∈ l → occupied a j) → stocked a2 (x :: spare).
Proof.
  intros HS M Hx Hc Hl. pose proof HS as [S1 S2 S3 S4 S5 S6 S7 S8 S9]. destruct (em_rest _ _ _ _ _ M) as [Er Eb].
  assert (Hox : occupied a x) by (unfold occupied; rewrite Hc; eauto).
  assert (Hlt : x < bumped a).
  { destruct (decide (x < bumped a)); [done|]. unfold in_arena in Hx. pose proof (S5 x ltac:(lia)) as E.
    by destruct (empty_vacant _ _ E). }
  assert (Hs : ∀ j, in_arena j → j ≠ x → ¬ occupied a j → Arena_slot a2 j = Arena_slot a j).
  { intros j Hj Hne Hno. apply (em_slot _ _ _ _ _ M); [done..|]. by intros ?%Hl. }
  assert (Hh : ∀ j, in_arena j → j ≠ x → held (Arena_slot a2 j) = held (Arena_slot a j)).
  { intros j Hj Hne. by rewrite (em_links _ _ _ _ _ M). }
  assert (Hself : held (Arena_slot a2 x) = None) by (by rewrite (em_self _ _ _ _ _ M)).
  split; rewrite ?Eb; try done.
  - intros j Hj Hno. rewrite (emptied_occupied _ _ _ _ _ _ M Hj) in Hno. unfold nxt.
    destruct (decide (j = x)) as [->|Hne]; [by rewrite (em_self _ _ _ _ _ M)|].
    rewrite Hs by naive_solver. apply S1; naive_solver.
  - rewrite (em_free _ _ _ _ _ M). split; [done|]. unfold nxt at 2. rewrite (em_self _ _ _ _ _ M). cbn [next set_next].
    apply (chain_same (nxt a)); [|done]. intros j Hj. apply S3 in Hj as [Hj Hno]. unfold nxt.
    rewrite Hs; [done|unfold in_arena; lia|by intros ->|done].
  - intros j. rewrite elem_of_cons, S3. split.
    + intros [->|[Hj Hno]].
      * split; [unfold in_arena in Hx; lia|]. by rewrite (emptied_occupied _ _ _ _ _ _ M Hx); intros [].
      * split; [done|]. rewrite (emptied_occupied _ _ _ _ _ _ M) by (unfold in_arena; lia). by intros [].
    + intros [Hj Hno]. rewrite (emptied_occupied _ _ _ _ _ _ M) in Hno by (unfold in_arena; lia).
      destruct (decide (j = x)); [by left|right]. naive_solver.
  - intros j Hj. rewrite Hs; [by apply S5|unfold in_arena; lia|lia|by apply empty_vacant, S5].
  - intros y z d e Hy Hz Hd He. destruct (decide (y = x)) as [->|]; [by rewrite Hself in Hd|].
    destruct (decide (z = x)) as [->|]; [by rewrite Hself in He|]. rewrite Hh in * by done. by apply S6.
  - intros y d Hy Hd. destruct (decide (y = x)) as [->|]; [by rewrite Hself in Hd|]. rewrite Hh in Hd by done. by apply (S7 y).
  - rewrite (em_census _ _ _ _ _ M). unfold ByKind_set, ByKind. by rewrite length_insert.
  - intros k. unfold Arena_count_of. rewrite (em_census _ _ _ _ _ M), ByKind_at_set by done.
    fold (Arena_count_of a (created_kind c)). fold (Arena_count_of a k). rewrite !S9.
    assert (Hk : kind_at a x = Some (created_kind c)) by (unfold kind_at; by rewrite Hc).
    assert (Hk2 : kind_at a2 x = None) by (unfold kind_at; by rewrite Hself).
    assert (Ho : ∀ j, in_arena j → j ≠ x → kind_at a2 j = kind_at a j) by (intros j Hj Hne; unfold kind_at; by rewrite Hh).
    case_decide as E.
    + subst k. rewrite (tally_step (λ j, kind_at a2 j = Some (created_kind c)) (λ j, kind_at a j = Some (created_kind c)) x);
        [|done|intros j Hj Hne; by rewrite Ho|by rewrite Hk2|done].
      pose proof (tally_bound (λ j, kind_at a2 j = Some (created_kind c))). unfold saturating_sub. lia.
    + apply tally_ext. intros j Hj. destruct (decide (j = x)) as [->|Hne]; [|by rewrite Ho].
      rewrite Hk, Hk2. split; [by intros [= ?]|done].
Qed.

Lemma shape_emptied a kids spare x W c a2 :
  shape a kids spare (x :: W) → held (Arena_slot a x) = Some c →
  emptied x (created_kind c) (kids (Some x)) a a2 →
  shape a2 (set_kids kids (Some x) []) (x :: spare) (reverse (kids (Some x)) ++ W).
Proof.
  intros [HL HS HN HA HO HP HH] Hc M. destruct (HA x) as [Hx Hnx]; [set_solver|].
  apply list.NoDup_cons in HN as [HxW HN].
  assert (Hkr : ∀ q z, z ∈ kids q → in_arena z) by (intros q z Hz; by apply (lk_range _ _ HL q)).
  assert (Hocc : ∀ q z, z ∈ kids q → occupied a z).
  { intros q z Hz. apply HO; [by eapply Hkr|]. right. by rewrite (HP _ _ Hz). }
  assert (Hin : ∀ q z, z ∈ set_kids kids (Some x) [] q ↔ z ∈ kids q ∧ q ≠ Some x).
  { intros q z. unfold set_kids. case_decide; subst; set_solver. }
  assert (Hs : ∀ q z, z ∈ kids q → q ≠ Some x → Arena_slot a2 z = Arena_slot a z).
  { intros q z Hz Hq. apply (em_slot _ _ _ _ _ M); [by eapply Hkr|by intros ->; apply (Hnx q)|].
    intros Hz'. apply Hq. by apply (lk_apart _ _ HL _ _ z). }
  assert (Hpar : ∀ z, in_arena z → z ≠ x → par a2 z = par a z)
    by (intros z Hz Hne; unfold par; by rewrite (em_links _ _ _ _ _ M)).
  split.
  - apply (linked_set a); [done|done|apply M|set_solver|..].
    + cbn. by rewrite (em_self _ _ _ _ _ M).
    + intros [q|] Hq Hne; cbn; [|by destruct (em_rest _ _ _ _ _ M) as [-> _]].
      by rewrite (em_links _ _ _ _ _ M) by (done || (intros ->; done)).
    + intros q z Hq Hz. unfold nxt. by rewrite (Hs q).
  - eapply stocked_emptied; [done..|]. intros z Hz. by eapply Hocc.
  - apply list.NoDup_app. split_and!; [|intros z Hz HzW|done].
    + rewrite reverse_Permutation. apply (chain_nodup (nxt a) (Arena_head a (Some x))). by apply (lk_lists _ _ HL).
    + rewrite elem_of_reverse in Hz. by apply (HA z ltac:(set_solver)) in Hz.
  - intros z Hz. rewrite elem_of_app, elem_of_reverse in Hz. destruct Hz as [Hz|Hz].
    + split; [by eapply Hkr|]. intros q Hq. apply Hin in Hq as [Hq Hne]. apply Hne. by apply (lk_apart _ _ HL _ _ z).
    + destruct (HA z) as [Hr Hn]; [set_solver|]. split; [done|]. intros q Hq. by apply Hin in Hq as [?%Hn _].
  - intros z Hz. rewrite (emptied_occupied _ _ _ _ _ _ M Hz), (HO z Hz), elem_of_app, elem_of_reverse, elem_of_cons.
    destruct (decide (z = x)) as [->|Hne].
    { split; [by intros []|]. intros [[H|H]|H]; [by apply Hnx in H|done|by apply Hin in H as [?%Hnx _]]. }
    rewrite (Hpar z Hz Hne), Hin. split.
    + intros [_ [[->|H]|H]]; [done|by left; right|]. destruct (decide (par a z = Some x)) as [E|]; [|by right].
      rewrite E in H. by left; left.
    + intros [[H|H]|[H _]]; (split; [done|]); [|by left; right|by right]. right. by rewrite (HP _ _ H).
  - intros q z Hz. apply Hin in Hz as [Hz Hq]. unfold par. rewrite (Hs q) by done. by apply HP.
  - intros q z Hz. apply Hin in Hz as [Hz Hq]. destruct (lk_range _ _ HL _ _ Hz) as [Hqr _].
    apply (emptied_occupied _ _ _ _ _ _ M Hqr). split; [by intros ->|by apply (HH _ z)].
Qed.

#[export] Instance occupied_dec a x : Decision (occupied a x).
Proof. unfold occupied. apply _. Defined.

Definition population (a : Arena) : Z := tally (occupied a).

(** The nodes on the work list, and everything under them. *)
Inductive below (kids : option Z → list Z) (W : list Z) : Z → Prop :=
| below_here x : x ∈ W → below kids W x
| below_kid q x : below kids W q → x ∈ kids (Some q) → below kids W x.

(** What a teardown of [W] has done: the nodes left are as they were, in the
    lists they were in, and those gone were all below [W]. *)
Record torn (a : Arena) (kids : option Z → list Z) (W : list Z) (a' : Arena) (kids' : option Z → list Z) : Prop := {
  to_left : ∀ j, in_arena j → occupied a' j →
    occupied a j ∧ content (Arena_slot a' j) = content (Arena_slot a j) ∧ par a' j = par a j;
  to_lists : ∀ p, (∀ q, p = Some q → occupied a' q) → kids' p = kids p;
  to_all : ∀ x, x ∈ W → ¬ occupied a' x;
  to_below : ∀ j, in_arena j → occupied a j → ¬ occupied a' j → below kids W j;
}.

Lemma teardown_step fuel removal pending gone a kids spare x W :
  shape a kids spare (x :: W) → chain (nxt a) pending (x :: W) →
  ∃ pending' a2 k,
    teardown (S fuel) removal pending gone a = teardown fuel removal pending' (gone + 1) a2 ∧
    shape a2 (set_kids kids (Some x) []) (x :: spare) (reverse (kids (Some x)) ++ W) ∧
    chain (nxt a2) pending' (reverse (kids (Some x)) ++ W) ∧ emptied x k (kids (Some x)) a a2.
Proof.
  intros HSh [-> HW]. pose proof HSh as [HL HS HN HA HO HP HH]. destruct (HA x) as [Hx Hnx]; [set_solver|].
  apply list.NoDup_cons in HN as [HxW HN].
  destruct (proj2 (HO x Hx)) as [c Hc]; [left; set_solver|].
  assert (Hkr : ∀ z, z ∈ kids (Some x) → in_arena z) by (intros z Hz; by apply (lk_range _ _ HL (Some x))).
  pose proof (lk_lists _ _ HL (Some x) Hx) as Hcx. cbn in Hcx.
  assert (Hfuel : (length (kids (Some x)) ≤ Z.to_nat NODES_MAX)%nat)
    by (apply in_arena_length; [exact (chain_nodup _ _ _ Hcx)|exact Hkr]).
  assert (HWr : ∀ z, z ∈ W → in_arena z ∧ z ∉ kids (Some x))
    by (intros z Hz; destruct (HA z) as [? Hn]; [set_solver|split; [done|apply Hn]]).
  destruct (push_children_spec (kids (Some x)) (Z.to_nat NODES_MAX) (first_child (Arena_slot a x)) (nxt a x) W a
    (lk_sized _ _ HL) Hfuel Hcx Hkr HWr HW) as (p' & a1 & E & R & C).
  destruct (release_emptied x removal (kids (Some x)) a a1 c Hx (Hnx _) R Hc) as (a2 & E2 & M & Hn2).
  exists p', a2, (created_kind c). split_and!; [| |..|done].
  - cbn [teardown]. fold (nxt a x). rewrite E. cbn [mbind option_bind]. by rewrite E2.
  - by eapply shape_emptied.
  - apply (chain_same (nxt a1)); [|done]. intros z Hz. symmetry. rewrite elem_of_app, elem_of_reverse in Hz.
    apply Hn2; [|by intros ->; destruct Hz as [?%Hnx|]].
    destruct Hz as [Hz|Hz]; [by apply Hkr|]. apply (HA z). apply elem_of_cons. by right.
Qed.

Lemma emptied_population x k l a a2 :
  emptied x k l a a2 → in_arena x → occupied a x → population a = population a2 + 1.
Proof.
  intros M Hx Ho. unfold population. apply (tally_step (occupied a2) (occupied a) x); [done|..|done].
  - intros j Hj Hne. rewrite (emptied_occupied _ _ _ _ _ _ M Hj). naive_solver.
  - rewrite (emptied_occupied _ _ _ _ _ _ M Hx). by intros [].
Qed.

Lemma below_pushed kids x W j :
  below (set_kids kids (Some x) []) (reverse (kids (Some x)) ++ W) j → below kids (x :: W) j.
Proof.
  induction 1 as [z Hz|q z _ IH Hz].
  - rewrite elem_of_app, elem_of_reverse in Hz. destruct Hz as [Hz|Hz]; [|apply below_here; set_solver].
    apply (below_kid _ _ x); [apply below_here; set_solver|done].
  - unfold set_kids in Hz. case_decide; [by apply elem_of_nil in Hz|]. by apply (below_kid _ _ q).
Qed.

Lemma teardown_spec fuel removal : ∀ pending gone a kids spare W,
  shape a kids spare W → chain (nxt a) pending W → population a ≤ Z.of_nat fuel →
  ∃ a' kids' spare', teardown fuel removal pending gone a = Some (gone + (population a - population a'), a') ∧
    shape a' kids' spare' [] ∧ torn a kids W a' kids'.
Proof.
  induction fuel as [|fuel IH]; intros pending gone a kids spare W HSh HW Hf; (destruct W as [|x W];
    [cbn in HW; subst pending; exists a, kids, spare; split_and!;
      [cbn; do 2 f_equal; lia|done|split; [done|done|by intros x Hx%elem_of_nil|by intros]]|]);
    pose proof HSh as [HL _ HN HA HO HP HH]; (destruct (HA x) as [Hx Hnx]; [set_solver|]);
    (assert (Hox : occupied a x) by (apply HO; [done|left; set_solver])).
  { assert (Hp : 0 < population a); [|lia]. unfold population, tally.
    assert (Hin : x ∈ filter (occupied a) (seqZ 0 NODES_MAX)) by (apply list_elem_of_filter; split; [done|by apply elem_of_arena]).
    destruct (filter (occupied a) (seqZ 0 NODES_MAX)); [by apply elem_of_nil in Hin|cbn; lia]. }
  destruct (teardown_step fuel removal pending gone a kids spare x W HSh HW) as (p2 & a2 & k & E & HSh2 & HW2 & M).
  pose proof (emptied_population _ _ _ _ _ M Hx Hox) as Hpop.
  destruct (IH p2 (gone + 1) a2 _ _ _ HSh2 HW2 ltac:(lia)) as (a' & kids' & spare' & E' & HSh' & [T1 T2 T3 T4]).
  exists a', kids', spare'. rewrite E, E'. split_and!; [do 2 f_equal; lia|done|].
  assert (Hx' : ¬ occupied a' x).
  { intros Ho. apply T1 in Ho as (Ho & _); [|done]. by apply (emptied_occupied _ _ _ _ _ _ M Hx) in Ho as [? _]. }
  split.
  - intros j Hj Ho. assert (Hne : j ≠ x) by (by intros ->). destruct (T1 j Hj Ho) as (Ho2 & Ec & Ep).
    apply (emptied_occupied _ _ _ _ _ _ M Hj) in Ho2 as [_ Ho2]. split; [done|].
    rewrite Ec, Ep. unfold par. by rewrite (em_links _ _ _ _ _ M).
  - intros p Hp. rewrite T2 by done. unfold set_kids. case_decide as Ep; [|done]. subst p. by destruct Hx'; apply Hp.
  - intros z [->|Hz]%elem_of_cons; [done|]. apply T3. rewrite elem_of_app. by right.
  - intros j Hj Ho Hno. destruct (decide (j = x)) as [->|Hne]; [apply below_here, elem_of_cons; by left|].
    apply below_pushed, T4; [done| |done]. by apply (emptied_occupied _ _ _ _ _ _ M Hj).
Qed.
