(* ===== verification/SceneTheorems.v ===== *)
(** * The scene a sequence of deltas draws

    The specification of [scene/src/arena.rs] is a map from node identifiers to
    what each node is, and for each node the identifiers under it in paint
    order; hanging, moving and removing are said on those.  [draws] relates an
    arena to it, and the theorems say every delta does to the slots what the
    specification does to the map, and what the map always is: a forest. *)

From S2P Require Import Prelude SceneWire SceneArena SceneForest.

#[local] Open Scope Z_scope.

(** ** The specification *)
Record SceneNode : Type := mkSceneNode {
  n_kind : Kind;
  n_parent : Z;
  n_transform : option SetTransform;
  n_path : option SetPath;
  n_paint : option SetPaint;
}.

(** The identifiers under each node, and under [NO_NODE] the roots. *)
Record Scene : Type := mkScene { s_nodes : gmap Z SceneNode; s_order : Z → list Z }.

Definition Scene_EMPTY : Scene := mkScene ∅ (λ _, []).

(** A node and what it is under, up to a root. *)
Fixpoint lineage (fuel : nat) (s : Scene) (n : Z) : list Z :=
  match fuel with
  | O => []
  | S fuel => match s_nodes s !! n with
              | None => []
              | Some nd => n :: lineage fuel s (n_parent nd)
              end
  end.

Definition scene_under (s : Scene) (n ancestor : Z) : bool :=
  bool_decide (ancestor ∈ lineage (Z.to_nat NODES_MAX) s n).

Fixpoint insert_before (before n : Z) (l : list Z) : list Z :=
  match l with
  | [] => [n]
  | x :: l => if x =? before then n :: x :: l else x :: insert_before before n l
  end.

Definition without (n : Z) (l : list Z) : list Z := filter (λ x, x ≠ n) l.

Definition with_parent (p : Z) (nd : SceneNode) : SceneNode :=
  mkSceneNode (n_kind nd) p (n_transform nd) (n_path nd) (n_paint nd).

Definition scene_place (n p before : Z) (nd : SceneNode) (s : Scene) : Scene :=
  mkScene (<[n := with_parent p nd]> (s_nodes s))
    (λ q, if q =? p then insert_before before n (without n (s_order s q)) else without n (s_order s q)).

Definition scene_hang (c : Created) (at_ : CreateNode) (s : Scene) : res SceneRefusal Hung * Scene :=
  let n := created_node c in
  let p := create_parent at_ in
  let b := create_before at_ in
  if negb (n =? create_node at_) || negb (Kind_wire (created_kind c) =? create_kind at_) then (Err Mismatched, s)
  else if b =? n then (Err (NotASibling b), s)
  else if negb (p =? NO_NODE) && bool_decide (s_nodes s !! p = None) then (Err (NoSuchParent p), s)
  else if negb (b =? NO_NODE) && bool_decide (b ∉ s_order s p) then (Err (NotASibling b), s)
  else
    match s_nodes s !! n with
    | Some nd =>
        if negb (bool_decide (n_kind nd = created_kind c)) then (Err (KindChanged n), s)
        else if scene_under s p n then (Err (Cycle n), s)
        else (Ok Hung_Moved, scene_place n p b nd s)
    | None =>
        if NODES_MAX <=? Z.of_nat (size (s_nodes s)) then (Err Capacity, s)
        else (Ok Hung_Created, scene_place n p b (mkSceneNode (created_kind c) p None None None) s)
    end.

Definition scene_remove (removal : Removal) (s : Scene) : res SceneRefusal Z * Scene :=
  let root := removal_root removal in
  match s_nodes s !! root with
  | None => (Err (NoSuchNode root), s)
  | Some _ =>
      let kept := filter (λ '(n, _), scene_under s n root = false) (s_nodes s) in
      (Ok (Z.of_nat (size (s_nodes s)) - Z.of_nat (size kept)),
       mkScene kept (λ q, if bool_decide (q = NO_NODE ∨ is_Some (kept !! q))
                          then without root (s_order s q) else []))
  end.

Definition scene_set (n : Z) (f : SceneNode → SceneNode) (s : Scene) : res SceneRefusal unit * Scene :=
  match s_nodes s !! n with
  | None => (Err (NoSuchNode n), s)
  | Some nd => (Ok tt, mkScene (<[n := f nd]> (s_nodes s)) (s_order s))
  end.

Definition scene_answer {A : Type} (f : A → Applied) (r : res SceneRefusal A * Scene) :
    res SceneRefusal Applied * Scene :=
  (let? x := fst r in Ok (f x), snd r).

Definition scene_apply (d : Delta) (s : Scene) : res SceneRefusal Applied * Scene :=
  match Change_of d with
  | Err e => (Err (Wire e), s)
  | Ok change =>
      match d_body d, change with
      | Entry_CreateNode at_, Change_Created c => scene_answer Applied_Hung (scene_hang c at_ s)
      | Entry_CreateNode _, _ => (Err Mismatched, s)
      | Entry_RemoveNode _, Change_Removed removal => scene_answer Applied_Removed (scene_remove removal s)
      | Entry_RemoveNode _, _ => (Err Mismatched, s)
      | Entry_SetTransform r, _ =>
          scene_answer (λ _, Applied_Set (transform_node r))
            (scene_set (transform_node r)
               (λ nd, mkSceneNode (n_kind nd) (n_parent nd) (Some r) (n_path nd) (n_paint nd)) s)
      | Entry_SetPath r, _ =>
          scene_answer (λ _, Applied_Set (path_node r))
            (scene_set (path_node r)
               (λ nd, mkSceneNode (n_kind nd) (n_parent nd) (n_transform nd) (Some r) (n_paint nd)) s)
      | Entry_SetPaint r, _ =>
          scene_answer (λ _, Applied_Set (paint_node r))
            (scene_set (paint_node r)
               (λ nd, mkSceneNode (n_kind nd) (n_parent nd) (n_transform nd) (n_path nd) (Some r)) s)
      | Entry_SetEffect r, _ =>
          match s_nodes s !! effect_node r with
          | None => (Err (NoSuchNode (effect_node r)), s)
          | Some _ => (Ok (Applied_Set (effect_node r)), s)
          end
      | Entry_Commit commit, _ => (Ok (Applied_Closes (frame_token commit)), s)
      end
  end.

(** ** What an arena draws *)
Definition name (a : Arena) (p : option Z) : Z :=
  match p with Some x => Arena_node_at a x | None => NO_NODE end.

Definition node_of (a : Arena) (x : Z) (c : Created) : SceneNode :=
  mkSceneNode (created_kind c) (name a (par a x))
    (transform (Arena_slot a x)) (path (Arena_slot a x)) (paint (Arena_slot a x)).

(** A place something may hang from. *)
Definition host (a : Arena) (p : option Z) : Prop := ∀ q, p = Some q → in_arena q ∧ occupied a q.

Record view (a : Arena) (kids : option Z → list Z) (s : Scene) : Prop := {
  vw_slot : ∀ x c, in_arena x → held (Arena_slot a x) = Some c →
    s_nodes s !! created_node c = Some (node_of a x c);
  vw_node : ∀ n nd, s_nodes s !! n = Some nd →
    ∃ x c, in_arena x ∧ held (Arena_slot a x) = Some c ∧ created_node c = n;
  vw_order : ∀ p, host a p → s_order s (name a p) = Arena_node_at a <$> kids p;
  vw_bare : ∀ n, n ≠ NO_NODE → s_nodes s !! n = None → s_order s n = [];
}.

Definition rooted (a : Arena) : Prop :=
  ∀ x, in_arena x → occupied a x → ∃ l, chain (par a) (Some x) l.

Definition draws (a : Arena) (s : Scene) : Prop :=
  ∃ kids spare, shape a kids spare [] ∧ rooted a ∧ view a kids s.

(** ** Slots and identifiers *)
Section identifiers.
Context (a : Arena) (kids : option Z → list Z) (spare loose : list Z).
Hypothesis HSh : shape a kids spare loose.

Lemma find_from_spec n x c steps raw :
  0 ≤ raw → raw + Z.of_nat steps = NODES_MAX → raw ≤ x → in_arena x →
  held (Arena_slot a x) = Some c → created_node c = n → find_from steps a raw n = Some x.
Proof.
  intros H0 Hs Hx Hxa Hc Hn. revert raw H0 Hs Hx. induction steps as [|steps IH]; intros raw H0 Hs Hx.
  { unfold in_arena in Hxa. lia. }
  assert (Hra : in_arena raw) by (unfold in_arena in *; lia).
  cbn [find_from]. destruct (decide (raw = x)) as [->|Hne].
  { rewrite Hc. by rewrite (proj2 (Z.eqb_eq _ _) Hn). }
  assert (Hr : find_from steps a (raw + 1) n = Some x) by (apply IH; lia).
  destruct (held (Arena_slot a raw)) as [d|] eqn:Hd; [|done].
  destruct (Z.eqb_spec (created_node d) n) as [E|_]; [|done].
  destruct Hne. apply (st_distinct _ _ (sh_stocked _ _ _ _ HSh) raw x d c); congruence.
Qed.

Lemma find_from_sound n x steps raw :
  0 ≤ raw → raw + Z.of_nat steps = NODES_MAX → find_from steps a raw n = Some x →
  in_arena x ∧ ∃ c, held (Arena_slot a x) = Some c ∧ created_node c = n.
Proof.
  revert raw. induction steps as [|steps IH]; intros raw H0 Hs; [done|]. cbn [find_from].
  assert (Hr : find_from steps a (raw + 1) n = Some x → in_arena x ∧ ∃ c, held (Arena_slot a x) = Some c ∧ created_node c = n)
    by (apply IH; lia).
  destruct (held (Arena_slot a raw)) as [d|] eqn:Hd; [|done].
  destruct (Z.eqb_spec (created_node d) n) as [E|_]; [|done].
  intros [= <-]. split; [unfold in_arena; lia|eauto].
Qed.

Lemma find_spec n x :
  Arena_find a n = Some x ↔ in_arena x ∧ ∃ c, held (Arena_slot a x) = Some c ∧ created_node c = n.
Proof.
  unfold Arena_find. split.
  - by apply find_from_sound.
  - intros (Hx & c & Hc & Hn). apply (find_from_spec n x c); [done..|unfold in_arena in Hx; lia|done|done|done].
Qed.

Lemma node_at_held x c : held (Arena_slot a x) = Some c → Arena_node_at a x = created_node c.
Proof. unfold Arena_node_at. by intros ->. Qed.

Lemma node_at_named x : in_arena x → occupied a x → Arena_node_at a x ≠ NO_NODE.
Proof.
  intros Hx [c Hc]. rewrite (node_at_held x c Hc). by apply (st_named _ _ (sh_stocked _ _ _ _ HSh) x).
Qed.

Lemma node_at_inj x y :
  in_arena x → occupied a x → in_arena y → occupied a y → Arena_node_at a x = Arena_node_at a y → x = y.
Proof.
  intros Hx [c Hc] Hy [d Hd]. rewrite (node_at_held x c Hc), (node_at_held y d Hd).
  by apply (st_distinct _ _ (sh_stocked _ _ _ _ HSh)).
Qed.

Lemma name_inj p q : host a p → host a q → name a p = name a q → p = q.
Proof.
  intros Hp Hq. destruct p as [x|], q as [y|]; cbn; [|..|done].
  - destruct (Hp x eq_refl), (Hq y eq_refl). intros E. f_equal. by apply node_at_inj.
  - destruct (Hp x eq_refl). intros E. by destruct (node_at_named x).
  - destruct (Hq y eq_refl). intros E. by destruct (node_at_named y).
Qed.

Lemma kids_in p x : x ∈ kids p → in_arena x ∧ occupied a x ∧ host a p.
Proof.
  intros Hx. destruct (lk_range _ _ (sh_linked _ _ _ _ HSh) _ _ Hx) as [Hp Ha]. split; [done|]. split.
  - apply (sh_occupied _ _ _ _ HSh); [done|]. right. by rewrite (sh_par _ _ _ _ HSh _ _ Hx).
  - intros q ->. split; [done|]. by apply (sh_host _ _ _ _ HSh _ x).
Qed.

Lemma node_at_kids p x :
  in_arena x → occupied a x → Arena_node_at a x ∈ (Arena_node_at a <$> kids p) ↔ x ∈ kids p.
Proof.
  intros Hx Ho. rewrite list_elem_of_fmap. split; [|eauto].
  intros (y & E & Hy). destruct (kids_in _ _ Hy) as (Hya & Hyo & _). by rewrite (node_at_inj x y).
Qed.

Lemma kids_nodup p : place p → NoDup (kids p).
Proof. intros Hp. eapply chain_nodup. by apply (lk_lists _ _ (sh_linked _ _ _ _ HSh)). Qed.
End identifiers.

(** ** Reading the map off the slots *)
Section reading.
Context (a : Arena) (kids : option Z → list Z) (spare : list Z) (s : Scene).
Hypothesis HSh : shape a kids spare [].
Hypothesis HV : view a kids s.

Lemma view_find n :
  match Arena_find a n with
  | Some x => in_arena x ∧ ∃ c, held (Arena_slot a x) = Some c ∧ created_node c = n ∧
                                s_nodes s !! n = Some (node_of a x c)
  | None => s_nodes s !! n = None
  end.
Proof.
  destruct (Arena_find a n) as [x|] eqn:E.
  - apply (find_spec a kids spare [] HSh) in E as (Hx & c & Hc & Hn). split; [done|]. exists c. split_and!; [done..|].
    rewrite <- Hn. by apply HV.
  - destruct (s_nodes s !! n) as [nd|] eqn:En; [|done]. destruct (vw_node _ _ _ HV n nd En) as (x & c & Hx & Hc & Hn).
    assert (Ef : Arena_find a n = Some x) by (apply (find_spec a kids spare [] HSh); eauto). congruence.
Qed.

Lemma view_held x c : in_arena x → held (Arena_slot a x) = Some c → Arena_find a (created_node c) = Some x.
Proof. intros Hx Hc. apply (find_spec a kids spare [] HSh). eauto. Qed.

Lemma parent_host x : in_arena x → occupied a x → host a (par a x) ∧ x ∈ kids (par a x).
Proof.
  intros Hx Ho. pose proof Ho as Hk. apply (sh_occupied _ _ _ _ HSh) in Hk as [Hk|Hk]; [by apply elem_of_nil in Hk| |done].
  split; [|done]. by apply (kids_in a kids spare [] HSh _ x).
Qed.

Lemma chain_occupied x l :
  in_arena x → occupied a x → chain (par a) (Some x) l → ∀ z, z ∈ l → in_arena z ∧ occupied a z.
Proof.
  revert x. induction l as [|y l IH]; intros x Hx Ho; [done|]. intros [[= <-] Hc] z [->|Hz]%elem_of_cons; [done|].
  destruct (par a x) as [p|] eqn:Ep; [|destruct l; [by apply elem_of_nil in Hz|by destruct Hc]].
  destruct (parent_host x Hx Ho) as [Hh _]. destruct (Hh p Ep) as [Hp Hop]. by apply (IH p).
Qed.

Lemma chain_length x l :
  in_arena x → occupied a x → chain (par a) (Some x) l → (length l ≤ Z.to_nat NODES_MAX)%nat.
Proof.
  intros Hx Ho Hc. apply in_arena_length; [by eapply chain_nodup|]. intros z Hz.
  by apply (chain_occupied x l Hx Ho Hc).
Qed.

Lemma lineage_chain fuel x l :
  in_arena x → occupied a x → chain (par a) (Some x) l → (length l ≤ fuel)%nat →
  lineage fuel s (Arena_node_at a x) = Arena_node_at a <$> l.
Proof.
  revert x l. induction fuel as [|fuel IH]; intros x l Hx Ho Hc Hl.
  { destruct l; [by destruct Hc|cbn in Hl; lia]. }
  destruct l as [|y l]; [done|]. destruct Hc as [[= <-] Hc]. cbn in Hl.
  pose proof Ho as [c Hx2]. cbn [lineage]. rewrite (node_at_held a x c Hx2), (vw_slot _ _ _ HV x c Hx Hx2).
  cbn [n_parent node_of]. rewrite fmap_cons, (node_at_held a x c Hx2). f_equal.
  destruct (par a x) as [p|] eqn:Ep; cbn [name].
  - destruct (parent_host x Hx Ho) as [Hh _]. destruct (Hh p Ep). apply IH; [done..|lia].
  - cbn in Hc. destruct l; [|by destruct Hc]. destruct fuel; [done|]. cbn [lineage].
    destruct (s_nodes s !! NO_NODE) as [nd|] eqn:En; [|done].
    destruct (vw_node _ _ _ HV _ _ En) as (z & d & Hz & Hd & E).
    by destruct (st_named _ _ (sh_stocked _ _ _ _ HSh) z d).
Qed.

Lemma descends_chain steps x l anc :
  chain (par a) (Some x) l → (length l ≤ steps)%nat →
  descends_walk steps a (Some x) anc = bool_decide (anc ∈ l).
Proof.
  clear HV HSh. revert x l. induction steps as [|steps IH]; intros x l Hc Hl.
  { destruct l; [discriminate Hc|cbn in Hl; lia]. }
  destruct l as [|y l]; [done|]. destruct Hc as [[= <-] Hc]. cbn in Hl. cbn [descends_walk].
  destruct (Z.eqb_spec x anc) as [->|Hne].
  { symmetry. apply bool_decide_true. set_solver. }
  fold (par a x). assert (E : bool_decide (anc ∈ x :: l) = bool_decide (anc ∈ l)).
  { apply bool_decide_ext. rewrite elem_of_cons. naive_solver. }
  rewrite E. destruct (par a x) as [p|] eqn:Ep; [apply IH; [done|lia]|]. cbn in Hc.
  destruct l; [|by destruct Hc]. destruct steps; symmetry; apply bool_decide_false; set_solver.
Qed.

(** [descends_from] is the ancestry of the map. *)
Lemma descends_under x anc :
  rooted a → in_arena x → occupied a x → in_arena anc → occupied a anc →
  Arena_descends_from a x anc = scene_under s (Arena_node_at a x) (Arena_node_at a anc).
Proof.
  intros HR Hx Ho Ha Hoa. destruct (HR x Hx Ho) as [l Hc]. pose proof (chain_length x l Hx Ho Hc) as Hl.
  unfold Arena_descends_from, scene_under. rewrite (descends_chain _ _ l), (lineage_chain _ _ l) by done.
  apply bool_decide_ext. rewrite list_elem_of_fmap. split; [eauto|]. intros (z & E & Hz).
  destruct (chain_occupied x l Hx Ho Hc z Hz). by rewrite (node_at_inj a kids spare [] HSh anc z).
Qed.

Lemma view_size : Z.of_nat (size (s_nodes s)) = population a.
Proof.
  unfold population, tally. f_equal. rewrite <- size_dom.
  assert (E : dom (s_nodes s) = list_to_set (C := gset Z) (Arena_node_at a <$> filter (occupied a) (seqZ 0 NODES_MAX))).
  { apply set_eq. intros n. rewrite elem_of_dom, elem_of_list_to_set, list_elem_of_fmap. split.
    - intros [nd En]. destruct (vw_node _ _ _ HV n nd En) as (x & c & Hx & Hc & Hn). exists x.
      split; [by rewrite (node_at_held a x c Hc)|]. apply list_elem_of_filter. split; [by exists c|by apply elem_of_arena].
    - intros (x & -> & Hx). apply list_elem_of_filter in Hx as [[c Hc] Hx%elem_of_arena].
      rewrite (node_at_held a x c Hc), (vw_slot _ _ _ HV x c Hx Hc). eauto. }
  rewrite E, size_list_to_set, length_fmap; [done|].
  apply NoDup_fmap_2_strong; [|apply list.NoDup_filter, NoDup_seqZ].
  intros x y [Hox Hx%elem_of_arena]%list_elem_of_filter [Hoy Hy%elem_of_arena]%list_elem_of_filter.
  by apply (node_at_inj a kids spare [] HSh).
Qed.

(** What a placement names. *)
Lemma view_parent at_ :
  match hang_parent a at_ with
  | Ok p => host a p ∧ name a p = create_parent at_ ∧
            negb (create_parent at_ =? NO_NODE) && bool_decide (s_nodes s !! create_parent at_ = None) = false
  | Err e => e = NoSuchParent (create_parent at_) ∧
             negb (create_parent at_ =? NO_NODE) && bool_decide (s_nodes s !! create_parent at_ = None) = true
  end.
Proof.
  unfold hang_parent. destruct (Z.eqb_spec (create_parent at_) NO_NODE) as [E|Hne]; [by rewrite E|].
  pose proof (view_find (create_parent at_)) as Hf. destruct (Arena_find a (create_parent at_)) as [x|]; cbn.
  - destruct Hf as (Hx & c & Hc & Hn & Hs). rewrite Hs. split_and!; [|by rewrite (node_at_held a x c Hc)|done].
    intros q [= <-]. split; [done|by exists c].
  - by rewrite Hf, bool_decide_true.
Qed.

Lemma view_before at_ p :
  host a p → name a p = create_parent at_ →
  match hang_before a at_ p with
  | Ok before =>
      negb (create_before at_ =? NO_NODE) && bool_decide (create_before at_ ∉ s_order s (create_parent at_)) = false ∧
      match before with
      | None => create_before at_ = NO_NODE
      | Some y => y ∈ kids p ∧ Arena_node_at a y = create_before at_
      end
  | Err e =>
      e = NotASibling (create_before at_) ∧
      negb (create_before at_ =? NO_NODE) && bool_decide (create_before at_ ∉ s_order s (create_parent at_)) = true
  end.
Proof.
  intros Hh Hn. unfold hang_before. destruct (Z.eqb_spec (create_before at_) NO_NODE) as [E|Hne]; [done|].
  rewrite <- Hn, (vw_order _ _ _ HV p Hh). cbn [negb andb].
  pose proof (view_find (create_before at_)) as Hf. destruct (Arena_find a (create_before at_)) as [y|]; cbn.
  - destruct Hf as (Hy & c & Hc & Hcn & Hs). assert (Hoy : occupied a y) by (by exists c).
    rewrite <- Hcn, <- (node_at_held a y c Hc). fold (par a y).
    pose proof (node_at_kids a kids spare [] HSh p y Hy Hoy) as Hk.
    match goal with |- context [if ?b then Ok _ else _] => destruct b eqn:Ep end; cbn;
      [apply bool_decide_eq_true in Ep|apply bool_decide_eq_false in Ep].
    + assert (Hin : y ∈ kids p) by (rewrite <- Ep; by apply parent_host).
      split; [|done]. apply bool_decide_false. intros Hno. by apply Hno, Hk.
    + split; [done|]. apply bool_decide_true. intros Hin. apply Hk in Hin. by apply Ep, (sh_par _ _ _ _ HSh).
  - split; [done|]. apply bool_decide_true. intros (y & Ey & Hy)%list_elem_of_fmap.
    destruct (kids_in a kids spare [] HSh _ _ Hy) as (Hya & [c Hc] & _).
    rewrite (node_at_held a y c Hc) in Ey. rewrite Ey, (vw_slot _ _ _ HV y c Hya Hc) in Hf. done.
Qed.
End reading.

(** ** Placing a node *)
Lemma insert_before_at b n l1 l2 :
  b ∉ l1 → (l2 = [] ∨ head l2 = Some b) → insert_before b n (l1 ++ l2) = l1 ++ n :: l2.
Proof.
  intros Hb Hl. induction l1 as [|x l1 IH]; cbn.
  - destruct Hl as [->|Hl]; [done|]. destruct l2 as [|y l2]; [done|]. injection Hl as ->. cbn. by rewrite Z.eqb_refl.
  - destruct (Z.eqb_spec x b) as [->|]; [set_solver|]. f_equal. apply IH. set_solver.
Qed.

Lemma without_fresh n l : n ∉ l → without n l = l.
Proof.
  intros Hn. unfold without. induction l as [|x l IH]; [done|]. rewrite filter_cons, decide_True by set_solver.
  f_equal. apply IH. set_solver.
Qed.

Lemma without_mid n l1 l2 : n ∉ l1 → n ∉ l2 → without n (l1 ++ n :: l2) = l1 ++ l2.
Proof.
  intros H1 H2. unfold without. rewrite list.filter_app, filter_cons, decide_False by (by intros []).
  change (without n l1 ++ without n l2 = l1 ++ l2). by rewrite !without_fresh.
Qed.

(** Where [before] cuts the list it is in. *)
Lemma split_before a kids spare loose p before b n :
  shape a kids spare loose → host a p →
  match before with None => b = NO_NODE | Some y => y ∈ kids p ∧ Arena_node_at a y = b end →
  ∃ l1 l2, kids p = l1 ++ l2 ∧ before = head l2 ∧
    insert_before b n (Arena_node_at a <$> kids p) = (Arena_node_at a <$> l1) ++ n :: (Arena_node_at a <$> l2).
Proof.
  intros HSh Hp Hb. assert (Hpl : place p) by (destruct p as [q|]; [by apply Hp|done]).
  assert (Hk : ∀ z, z ∈ kids p → in_arena z ∧ occupied a z)
    by (intros z Hz; by destruct (kids_in a kids spare loose HSh p z Hz) as (? & ? & _)).
  destruct before as [y|].
  - destruct Hb as [Hy <-]. destruct (list_elem_of_split _ _ Hy) as (l1 & l2 & E). exists l1, (y :: l2). split_and!; [done..|].
    pose proof (kids_nodup a kids spare loose HSh p Hpl) as Hd. rewrite E in Hd |- *.
    rewrite fmap_app. apply insert_before_at; [|by right]. intros (z & Ez & Hz)%list_elem_of_fmap.
    assert (z = y) as ->.
    { symmetry. destruct (Hk z) as [? ?]; [rewrite E; set_solver|]. destruct (Hk y Hy).
      by apply (node_at_inj a kids spare loose HSh). }
    apply list.NoDup_app in Hd as (_ & Hd & _). apply (Hd y Hz). set_solver.
  - exists (kids p), []. split_and!; [by rewrite app_nil_r|done|]. subst b.
    rewrite <- (app_nil_r (Arena_node_at a <$> kids p)) at 1. apply insert_before_at; [|by left].
    intros (z & Ez & Hz)%list_elem_of_fmap. destruct (Hk z Hz) as [Hza Hzo].
    by destruct (node_at_named a kids spare loose HSh z Hza Hzo).
Qed.

(** A scene but for the place of the node in [x]. *)
Record view_but (a : Arena) (kids : option Z → list Z) (x : Z) (c : Created) (s : Scene) : Prop := {
  vb_slot : ∀ z d, in_arena z → z ≠ x → held (Arena_slot a z) = Some d →
    s_nodes s !! created_node d = Some (node_of a z d);
  vb_node : ∀ n nd, s_nodes s !! n = Some nd → n = created_node c ∨
    ∃ z d, in_arena z ∧ held (Arena_slot a z) = Some d ∧ created_node d = n;
  vb_order : ∀ q, host a q → without (created_node c) (s_order s (name a q)) = Arena_node_at a <$> kids q;
  vb_bare : ∀ n, n ≠ NO_NODE → n ≠ created_node c → s_nodes s !! n = None → s_order s n = [];
}.

Lemma moved_name x p l a a' q : moved x p l a a' → host a q → name a' q = name a q.
Proof.
  intros M Hq. destruct q as [y|]; [|done]. destruct (Hq y eq_refl) as [Hy _]. cbn. unfold Arena_node_at.
  by pose proof (mv_content _ _ _ _ _ M y Hy) as [= -> _ _ _].
Qed.

Lemma moved_host x p l a a' q : moved x p l a a' → host a' q ↔ host a q.
Proof.
  intros M. split; intros H y ->; destruct (H y eq_refl) as [Hy Ho]; (split; [done|]);
    by apply (moved_occupied _ _ _ _ _ y M Hy).
Qed.

Lemma moved_node_of x p l a a' z d :
  moved x p l a a' → in_arena z → par a' z = par a z → host a (par a z) → node_of a' z d = node_of a z d.
Proof.
  intros M Hz Ep Hh. unfold node_of. rewrite Ep, (moved_name _ _ _ _ _ _ M Hh).
  by pose proof (mv_content _ _ _ _ _ M z Hz) as [= _ -> -> ->].
Qed.

Section placing.
Context (a : Arena) (kids : option Z → list Z) (spare : list Z) (x : Z) (c : Created) (s : Scene).
Context (p before : option Z) (b : Z) (nd : SceneNode).
Hypothesis HSh : shape a kids spare [x].
Hypothesis Hc : held (Arena_slot a x) = Some c.
Hypothesis HV : view_but a kids x c s.
Hypothesis Hp : host a p.
Hypothesis Hpx : p ≠ Some x.
Hypothesis Hb : match before with None => b = NO_NODE | Some y => y ∈ kids p ∧ Arena_node_at a y = b end.
Hypothesis Hnd : ∀ q, with_parent q nd =
  mkSceneNode (created_kind c) q (transform (Arena_slot a x)) (path (Arena_slot a x)) (paint (Arena_slot a x)).

Lemma loose_in : in_arena x ∧ ∀ q, x ∉ kids q.
Proof. apply (sh_apart _ _ _ _ HSh). set_solver. Qed.

Lemma placed_order a' l1 l2 q :
  kids p = l1 ++ l2 →
  insert_before b (created_node c) (Arena_node_at a <$> kids p)
    = (Arena_node_at a <$> l1) ++ created_node c :: (Arena_node_at a <$> l2) →
  moved x p (kids p) a a' → host a' q →
  s_order (scene_place (created_node c) (name a p) b nd s) (name a' q)
    = Arena_node_at a' <$> set_kids kids p (l1 ++ x :: l2) q.
Proof.
  intros Hk Hins M Hq. rewrite (moved_host _ _ _ _ _ _ M) in Hq. rewrite (moved_name _ _ _ _ _ _ M Hq).
  assert (Hmap : ∀ l : list Z, (∀ z, z ∈ l → in_arena z) → Arena_node_at a' <$> l = Arena_node_at a <$> l).
  { intros l Hl. apply list_fmap_ext. intros i z Hz. unfold Arena_node_at.
    by pose proof (mv_content _ _ _ _ _ M z (Hl z (list_elem_of_lookup_2 _ _ _ Hz))) as [= -> _ _ _]. }
  cbn [s_order scene_place]. unfold set_kids. destruct (decide (q = p)) as [->|Hqp].
  - rewrite Z.eqb_refl, (vb_order _ _ _ _ _ HV p Hp), Hins.
    rewrite Hmap, fmap_app, fmap_cons, (node_at_held a x c Hc); [done|].
    intros z Hz. destruct (decide (z = x)) as [->|]; [apply loose_in|].
    apply (kids_in a kids spare [x] HSh p). rewrite Hk. set_solver.
  - rewrite (proj2 (Z.eqb_neq _ _)) by (intros En; apply Hqp; by apply (name_inj a kids spare [x] HSh)).
    rewrite (vb_order _ _ _ _ _ HV q Hq), Hmap; [done|]. intros z Hz. by apply (kids_in a kids spare [x] HSh q).
Qed.

Lemma placed_slot a' z d :
  moved x p (kids p) a a' → par a' x = p → in_arena z → held (Arena_slot a' z) = Some d →
  s_nodes (scene_place (created_node c) (name a p) b nd s) !! created_node d = Some (node_of a' z d).
Proof.
  intros M Epar Hz Hd. pose proof (mv_content _ _ _ _ _ M z Hz) as [= Eh E1 E2 E3]. rewrite Eh in Hd.
  cbn [s_nodes scene_place]. destruct (decide (z = x)) as [->|Hzx].
  - rewrite Hc in Hd. injection Hd as <-. rewrite lookup_insert_eq, Hnd. f_equal. unfold node_of.
    by rewrite Epar, (moved_name _ _ _ _ _ _ M Hp), E1, E2, E3.
  - rewrite lookup_insert_ne.
    2:{ intros En. apply Hzx. apply (st_distinct _ _ (sh_stocked _ _ _ _ HSh) z x d c); [done|apply loose_in|done..]. }
    rewrite (vb_slot _ _ _ _ _ HV z d) by done. f_equal. symmetry. eapply moved_node_of; [done..|by eapply mv_par|].
    assert (Ho : occupied a z) by (by exists d). apply (sh_occupied _ _ _ _ HSh) in Ho as [Ho|Ho]; [set_solver| |done].
    by apply (kids_in a kids spare [x] HSh _ z).
Qed.

Lemma placed :
  ∃ a' kids', Arena_link x p before a = Some a' ∧ shape a' kids' spare [] ∧
    view a' kids' (scene_place (created_node c) (name a p) b nd s) ∧ moved x p (kids p) a a' ∧ par a' x = p.
Proof.
  destruct (split_before a kids spare [x] p before b (created_node c) HSh Hp Hb) as (l1 & l2 & Hk & Eb & Hins).
  assert (Hpl : place p) by (destruct p as [q|]; [by apply Hp|done]).
  destruct (shape_link a kids spare x p l1 l2 HSh Hpl) as (a' & E & HSh' & M & Epar); [|done..|].
  { intros j ->. by apply Hp. }
  exists a', (set_kids kids p (l1 ++ x :: l2)). rewrite Eb. split_and!; [done..| |done|done].
  assert (Hcon : ∀ z, in_arena z → held (Arena_slot a' z) = held (Arena_slot a z))
    by (intros z Hz; by pose proof (mv_content _ _ _ _ _ M z Hz) as [= ? _ _ _]).
  split.
  - intros z d. by apply placed_slot.
  - intros n m. cbn [s_nodes scene_place]. intros Hm. destruct loose_in as [Hx _].
    destruct (decide (n = created_node c)) as [->|Hne]; [exists x, c; by rewrite Hcon|].
    rewrite lookup_insert_ne in Hm by done.
    destruct (vb_node _ _ _ _ _ HV n m Hm) as [->|(z & d & Hz & Hd & En)]; [done|]. exists z, d. by rewrite Hcon.
  - intros q. by apply placed_order.
  - intros n Hn. cbn [s_nodes s_order scene_place]. destruct (decide (n = created_node c)) as [->|Hne].
    { by rewrite lookup_insert_eq. }
    rewrite lookup_insert_ne by done. intros Hnone. rewrite (vb_bare _ _ _ _ _ HV n) by done.
    rewrite (proj2 (Z.eqb_neq _ _)); [done|]. intros ->. destruct p as [q|] eqn:Ep; [|done].
    destruct (Hp q eq_refl) as [Hq [d Hd]]. cbn in Hnone. rewrite (node_at_held a q d Hd) in Hnone.
    rewrite (vb_slot _ _ _ _ _ HV q d) in Hnone; [done|done|by intros ->|done].
Qed.
End placing.

Lemma rooted_placed a kids spare s a2 x p :
  shape a kids spare [] → view a kids s → rooted a →
  (∀ j, in_arena j → j ≠ x → par a2 j = par a j) → par a2 x = p →
  (∀ j, in_arena j → occupied a2 j → j = x ∨ occupied a j) →
  (∀ q, p = Some q → in_arena q ∧ occupied a q ∧ ∀ l, chain (par a) (Some q) l → x ∉ l) →
  rooted a2.
Proof.
  intros HSh HV HR Hpar Hx Ho Hp.
  assert (Hsame : ∀ j l, in_arena j → occupied a j → chain (par a) (Some j) l → x ∉ l → chain (par a2) (Some j) l).
  { intros j l Hj Hoj Hc Hl. apply (chain_same (par a)); [|done]. intros z Hz. symmetry. apply Hpar; [|by intros ->].
    by apply (chain_occupied a kids spare HSh j l Hj Hoj Hc). }
  assert (Hlx : ∃ l, chain (par a2) p l).
  { destruct p as [q|]; [|by exists []]. destruct (Hp q eq_refl) as (Hq & Hoq & Hl). destruct (HR q Hq Hoq) as [l Hc].
    exists l. apply Hsame; eauto. }
  destruct Hlx as [lx Hlx]. intros j Hj Hoj. destruct (Ho j Hj Hoj) as [->|Hoj'].
  { exists (x :: lx). split; [done|]. by rewrite Hx. }
  destruct (HR j Hj Hoj') as [l Hc]. destruct (decide (x ∈ l)) as [Hxl|Hxl]; [|eauto].
  destruct (list_elem_of_split _ _ Hxl) as (l1 & l2 & ->). exists (l1 ++ x :: lx).
  apply (chain_graft (par a) (par a2) _ l1 x l2 lx Hc); [|by rewrite Hx].
  intros z Hz. symmetry. pose proof (chain_nodup _ _ _ Hc) as Hd. apply list.NoDup_app in Hd as (_ & Hd & _).
  apply Hpar; [apply (chain_occupied a kids spare HSh j _ Hj Hoj' Hc); set_solver|]. intros ->. apply (Hd x Hz). set_solver.
Qed.

(** The scene without the place of a node taken out of its list. *)
Lemma unlinked_view a kids spare s x c l1 l2 a1 :
  shape a kids spare [] → view a kids s → in_arena x → held (Arena_slot a x) = Some c →
  kids (par a x) = l1 ++ x :: l2 → moved x (par a x) (kids (par a x)) a a1 →
  view_but a1 (set_kids kids (par a x) (l1 ++ l2)) x c s.
Proof.
  intros HSh HV Hx Hc Hk M. assert (Hox : occupied a x) by (by exists c).
  assert (Hheld : ∀ z, in_arena z → held (Arena_slot a1 z) = held (Arena_slot a z))
    by (intros z Hz; by pose proof (mv_content _ _ _ _ _ M z Hz) as [= ? _ _ _]).
  split.
  - intros z d Hz Hzx Hd. rewrite Hheld in Hd by done. rewrite (vw_slot _ _ _ HV z d) by done. f_equal. symmetry.
    eapply moved_node_of; [done..|by eapply mv_par|]. apply (parent_host a kids spare HSh z Hz). by exists d.
  - intros n nd Hn. right. destruct (vw_node _ _ _ HV n nd Hn) as (z & d & Hz & Hd & En). exists z, d. by rewrite Hheld.
  - intros q Hq. rewrite (moved_host _ _ _ _ _ _ M) in Hq. rewrite (moved_name _ _ _ _ _ _ M Hq).
    rewrite (vw_order _ _ _ HV q Hq), <- (node_at_held a x c Hc).
    assert (Hnot : ∀ l, l ⊆ kids q → x ∉ l → Arena_node_at a x ∉ (Arena_node_at a <$> l)).
    { intros l Hl Hxl (z & Ez & Hz)%list_elem_of_fmap. destruct (kids_in a kids spare [] HSh q z (Hl z Hz)) as (Hza & Hzo & _).
      by rewrite (node_at_inj a kids spare [] HSh x z) in Hxl. }
    assert (Hmap : ∀ l : list Z, (l ⊆ kids q) → Arena_node_at a1 <$> l = Arena_node_at a <$> l).
    { intros l Hl. apply list_fmap_ext. intros i z Hz. unfold Arena_node_at. rewrite Hheld; [done|].
      apply (kids_in a kids spare [] HSh q). apply Hl. by eapply list_elem_of_lookup_2. }
    unfold set_kids. case_decide as Eq.
    + subst q. assert (Hpl : place (par a x)) by (destruct (par a x) as [y|]; [by apply Hq|done]).
      pose proof (kids_nodup a kids spare [] HSh _ Hpl) as Hd. rewrite Hk in Hd |- *.
      apply list.NoDup_app in Hd as (_ & Hd1 & Hd2). apply list.NoDup_cons in Hd2 as [Hd2 _].
      rewrite fmap_app, fmap_cons, without_mid, Hmap, fmap_app; [done|rewrite Hk; set_solver|..].
      * apply Hnot; [rewrite Hk; set_solver|]. intros Hl. apply (Hd1 x Hl). set_solver.
      * apply Hnot; [rewrite Hk; set_solver|done].
    + rewrite without_fresh, Hmap; [done|done|]. apply Hnot; [done|]. intros Hxq. apply Eq. symmetry.
      by apply (sh_par _ _ _ _ HSh).
  - intros n Hn _. by apply HV.
Qed.

Lemma move_refines c at_ a s kids spare x c0 p before :
  shape a kids spare [] → view a kids s → rooted a → in_arena x → held (Arena_slot a x) = Some c0 →
  created_node c0 = created_node c → created_kind c0 = created_kind c → create_before at_ ≠ created_node c →
  host a p → name a p = create_parent at_ →
  match before with None => create_before at_ = NO_NODE
                  | Some y => y ∈ kids p ∧ Arena_node_at a y = create_before at_ end →
  descends_opt a p x = false →
  ∃ a1 a2, Arena_unlink x a = Some a1 ∧ Arena_link x p before a1 = Some a2 ∧
    draws a2 (scene_place (created_node c) (create_parent at_) (create_before at_) (node_of a x c0) s).
Proof.
  intros HSh HV HR Hx Hc0 Hn Hkind Hbn Hp Hname Hb Hdesc. assert (Hox : occupied a x) by (by exists c0).
  destruct (parent_host a kids spare HSh x Hx Hox) as [_ Hin].
  destruct (list_elem_of_split _ _ Hin) as (l1 & l2 & Hk).
  destruct (shape_unlink a kids spare x (par a x) l1 l2 HSh Hk) as (a1 & E1 & HSh1 & M1 & _ & _).
  pose proof (unlinked_view a kids spare s x c0 l1 l2 a1 HSh HV Hx Hc0 Hk M1) as HB.
  pose proof (mv_content _ _ _ _ _ M1 x Hx) as [= Eh Et Epa Epn].
  assert (Hp1 : host a1 p) by (by apply (moved_host _ _ _ _ _ _ M1)).
  assert (Hnd : ∀ q, p = Some q → ∀ l, chain (par a) (Some q) l → x ∉ l).
  { intros q -> l Hl Hxl. cbn in Hdesc. destruct (Hp q eq_refl) as [Hq Hoq].
    unfold Arena_descends_from in Hdesc. rewrite (descends_chain a _ q l x Hl) in Hdesc
      by (by apply (chain_length a kids spare HSh q l)).
    by apply bool_decide_eq_false in Hdesc. }
  assert (Hpx : p ≠ Some x).
  { intros ->. destruct (HR x Hx Hox) as [l Hl]. apply (Hnd x eq_refl l Hl). destruct l as [|y l]; [done|].
    destruct Hl as [[= <-] _]. set_solver. }
  assert (Hb1 : match before with None => create_before at_ = NO_NODE
                | Some y => y ∈ set_kids kids (par a x) (l1 ++ l2) p ∧ Arena_node_at a1 y = create_before at_ end).
  { destruct before as [y|]; [|done]. destruct Hb as [Hy Ey]. destruct (kids_in a kids spare [] HSh p y Hy) as (Hya & _).
    assert (Hyx : y ≠ x) by (intros ->; by rewrite (node_at_held a x c0 Hc0), Hn in Ey).
    split.
    - unfold set_kids. case_decide as Eq; [|done]. subst p. rewrite Hk in Hy. set_solver.
    - unfold Arena_node_at in *. by pose proof (mv_content _ _ _ _ _ M1 y Hya) as [= -> _ _ _]. }
  destruct (placed a1 _ spare x c0 s p before (create_before at_) (node_of a x c0) HSh1) as (a2 & kids2 & E2 & HSh2 & HV2 & M2 & Ep2);
    [by rewrite Eh|done|done|done|done|intros q; unfold with_parent, node_of; by rewrite Et, Epa, Epn|].
  exists a1, a2. split_and!; [done..|]. exists kids2, spare. split_and!; [done| |].
  - eapply (rooted_placed a kids spare s a2 x p); [done..| |done| |].
    + intros j Hj Hjx. by rewrite (mv_par _ _ _ _ _ M2 j Hj Hjx), (mv_par _ _ _ _ _ M1 j Hj Hjx).
    + intros j Hj Hoj. right. apply (moved_occupied _ _ _ _ _ j M1 Hj). by apply (moved_occupied _ _ _ _ _ j M2 Hj).
    + intros q Eq. destruct (Hp q Eq). split_and!; [done..|by apply Hnd].
  - by rewrite (moved_name _ _ _ _ _ _ M1 Hp), Hname, Hn in HV2.
Qed.

(** The scene without the place of a node just begun. *)
Lemma begun_view a kids spare s ix c a2 :
  shape a kids spare [] → view a kids s → in_arena ix → ¬ occupied a ix → filled a ix c a2 →
  created_node c ≠ NO_NODE → s_nodes s !! created_node c = None → view_but a2 kids ix c s.
Proof.
  intros HSh HV Hix Hno F Hname Hnone.
  assert (Hnode : ∀ z, in_arena z → occupied a z → Arena_node_at a2 z = Arena_node_at a z).
  { intros z Hz Hoz. unfold Arena_node_at. rewrite (fi_other _ _ _ _ F z Hz); [done|by intros ->]. }
  assert (Hhost : ∀ q, host a q → name a2 q = name a q).
  { intros [q|] Hq; [|done]. destruct (Hq q eq_refl). by apply Hnode. }
  split.
  - intros z d Hz Hzx. rewrite (fi_other _ _ _ _ F z Hz Hzx). intros Hd. rewrite (vw_slot _ _ _ HV z d Hz Hd).
    unfold node_of, par. rewrite (fi_other _ _ _ _ F z Hz Hzx). fold (par a z).
    rewrite Hhost; [done|]. apply (parent_host a kids spare HSh z Hz). by exists d.
  - intros n nd Hn. right. destruct (vw_node _ _ _ HV n nd Hn) as (z & d & Hz & Hd & En). exists z, d.
    rewrite (fi_other _ _ _ _ F z Hz); [done|]. intros ->. apply Hno. by exists d.
  - intros q Hq. destruct (decide (q = Some ix)) as [->|Hqi].
    + assert (Hki : kids (Some ix) = []).
      { destruct (kids (Some ix)) as [|j l] eqn:E; [done|]. destruct Hno. apply (sh_host _ _ _ _ HSh ix j). rewrite E. set_solver. }
      rewrite Hki. cbn [name]. unfold Arena_node_at. rewrite (fi_self _ _ _ _ F). cbn [held set_held].
      by rewrite (vw_bare _ _ _ HV).
    + assert (Hq' : host a q).
      { intros y ->. destruct (Hq y eq_refl) as [Hy Hoy]. split; [done|].
        apply (filled_occupied _ _ _ _ _ F Hy) in Hoy as [->|]; done. }
      rewrite Hhost, (vw_order _ _ _ HV q Hq') by done.
      rewrite without_fresh.
      * apply list_fmap_ext. intros i z Hz. symmetry. apply Hnode; by apply (kids_in a kids spare [] HSh q), (list_elem_of_lookup_2 _ i).
      * intros (z & Ez & Hz)%list_elem_of_fmap. destruct (kids_in a kids spare [] HSh q z Hz) as (Hza & [d Hd] & _).
        rewrite (node_at_held a z d Hd) in Ez. rewrite Ez, (vw_slot _ _ _ HV z d Hza Hd) in Hnone. done.
  - intros n Hn _. by apply HV.
Qed.

Lemma create_refines c at_ a s kids spare ix a1 p before :
  shape a kids spare [] → view a kids s → rooted a → created_node c ≠ NO_NODE →
  s_nodes s !! created_node c = None → Arena_take_free a = (Some ix, a1) →
  host a p → name a p = create_parent at_ →
  match before with None => create_before at_ = NO_NODE
                  | Some y => y ∈ kids p ∧ Arena_node_at a y = create_before at_ end →
  ∃ a3, Arena_link ix p before (begun c ix a1) = Some a3 ∧
    draws a3 (scene_place (created_node c) (create_parent at_) (create_before at_)
                (mkSceneNode (created_kind c) (create_parent at_) None None None) s).
Proof.
  intros HSh HV HR Hn Hnone E Hp Hname Hb.
  destruct (shape_take a kids spare c HSh Hn) with (2 := E) as (Hix & Hno & F & spare' & HSh1).
  { intros x d Hx Hd En. pose proof (vw_slot _ _ _ HV x d Hx Hd) as Hs. congruence. }
  set (a2 := begun c ix a1) in *.
  pose proof (begun_view a kids spare s ix c a2 HSh HV Hix Hno F Hn Hnone) as HB.
  assert (Hc2 : held (Arena_slot a2 ix) = Some c) by (by rewrite (fi_self _ _ _ _ F)).
  assert (Hoth : ∀ z, in_arena z → occupied a z → Arena_slot a2 z = Arena_slot a z).
  { intros z Hz Hoz. apply F; [done|by intros ->]. }
  assert (Hp2 : host a2 p).
  { intros q ->. destruct (Hp q eq_refl) as [Hq Hoq]. split; [done|]. apply (filled_occupied _ _ _ _ _ F Hq). by right. }
  assert (Hpix : p ≠ Some ix) by (intros ->; by destruct (Hp ix eq_refl)).
  assert (Hname2 : name a2 p = create_parent at_).
  { rewrite <- Hname. destruct p as [q|]; [|done]. destruct (Hp q eq_refl). cbn. unfold Arena_node_at. by rewrite Hoth. }
  destruct (placed a2 kids spare' ix c s p before (create_before at_)
              (mkSceneNode (created_kind c) (create_parent at_) None None None) HSh1 Hc2 HB Hp2 Hpix)
    as (a3 & kids3 & E3 & HSh3 & HV3 & M3 & Ep3).
  - destruct before as [y|]; [|done]. destruct Hb as [Hy Ey]. split; [done|].
    destruct (kids_in a kids spare [] HSh p y Hy) as (Hya & Hyo & _). unfold Arena_node_at in *. by rewrite Hoth.
  - intros q. by rewrite (fi_self _ _ _ _ F).
  - exists a3. split; [done|]. exists kids3, spare'. split_and!; [done| |by rewrite Hname2 in HV3].
    eapply (rooted_placed a kids spare s a3 ix p); [done..| |done| |].
    + intros j Hj Hji. rewrite (mv_par _ _ _ _ _ M3 j Hj Hji). unfold par. by rewrite (fi_other _ _ _ _ F j Hj Hji).
    + intros j Hj Hoj. apply (filled_occupied _ _ _ _ _ F Hj). by apply (moved_occupied _ _ _ _ _ j M3 Hj).
    + intros q Eq. destruct (Hp q Eq) as [Hq Hoq]. split_and!; [done..|]. intros l Hl Hin. apply Hno.
      by apply (chain_occupied a kids spare HSh q l Hq Hoq Hl).
Qed.

(** Room is taken exactly when every slot holds a node. *)
Lemma take_capacity a kids spare s :
  shape a kids spare [] → view a kids s →
  match Arena_take_free a with
  | (None, a') => a' = a ∧ NODES_MAX ≤ Z.of_nat (size (s_nodes s))
  | (Some ix, _) => Z.of_nat (size (s_nodes s)) < NODES_MAX
  end.
Proof.
  intros HSh HV. rewrite (view_size a kids spare s HSh HV).
  destruct (Arena_take_free a) as [[ix|] a'] eqn:E.
  - unfold population, tally. assert (Hin : in_arena ix ∧ ¬ occupied a ix).
    { pose proof (sh_stocked _ _ _ _ HSh) as [_ S2 S3 S4 S5 _ _ _ _]. unfold Arena_take_free in E.
      destruct (free a) as [i|].
      - injection E as -> _. destruct spare as [|y spare]; [done|]. destruct S2 as [[= <-] _].
        destruct (proj1 (S3 ix)) as [Hr Hno]; [set_solver|]. split; [unfold in_arena; lia|done].
      - destruct (Z.ltb_spec (bumped a) NODES_MAX); [|done]. injection E as <- _.
        split; [unfold in_arena; lia|]. apply empty_vacant, S5. lia. }
    destruct Hin as [Hin Hno]. pose proof (length_filter_lt (occupied a) (seqZ 0 NODES_MAX) ix) as Hl.
    rewrite length_seqZ in Hl. unfold NODES_MAX in *. lapply Hl; [|by apply elem_of_arena]. intros Hl'. specialize (Hl' Hno). lia.
  - destruct (take_full a kids spare HSh) as [E' Hall]; [by rewrite E|]. rewrite E in E'. injection E' as ->. split; [done|].
    unfold population, tally. rewrite (filter_same (occupied a) (λ _, True)).
    + assert (Ef : filter (λ _ : Z, True) (seqZ 0 NODES_MAX) = seqZ 0 NODES_MAX).
      { generalize (seqZ 0 NODES_MAX). intros l. induction l as [|z l IH]; [done|]. rewrite filter_cons, decide_True by done. by rewrite IH. }
      rewrite Ef, length_seqZ. unfold NODES_MAX. lia.
    + intros z Hz%elem_of_arena. naive_solver.
Qed.

Lemma scene_under_top s n : s_nodes s !! NO_NODE = None → scene_under s NO_NODE n = false.
Proof.
  intros H. apply bool_decide_false. destruct (Z.to_nat NODES_MAX) as [|fuel]; cbn [lineage]; [|rewrite H]; set_solver.
Qed.

Lemma view_top a kids spare s : shape a kids spare [] → view a kids s → s_nodes s !! NO_NODE = None.
Proof.
  intros HSh HV. destruct (s_nodes s !! NO_NODE) as [nd|] eqn:En; [|done].
  destruct (vw_node _ _ _ HV _ _ En) as (z & d & Hz & Hd & E). by destruct (st_named _ _ (sh_stocked _ _ _ _ HSh) z d).
Qed.

Lemma hang_refines c at_ a s :
  draws a s → created_node c ≠ NO_NODE →
  ∃ r a', Arena_hang c at_ a = Some (r, a') ∧ fst (scene_hang c at_ s) = r ∧ draws a' (snd (scene_hang c at_ s)).
Proof.
  intros HD Hn. pose proof HD as (kids & spare & HSh & HR & HV). unfold Arena_hang, scene_hang.
  destruct (negb (created_node c =? create_node at_) || _); [by eauto|].
  destruct (Z.eqb_spec (create_before at_) (created_node c)) as [|Hbn]; [by eauto|].
  pose proof (view_parent a kids spare s HSh HV at_) as Hp. destruct (hang_parent a at_) as [p|e].
  2:{ destruct Hp as [-> ->]. by eauto. }
  destruct Hp as (Hp & Hname & ->).
  pose proof (view_before a kids spare s HSh HV at_ p Hp Hname) as Hb. destruct (hang_before a at_ p) as [before|e].
  2:{ destruct Hb as [-> ->]. by eauto. }
  destruct Hb as [-> Hb].
  pose proof (view_find a kids spare s HSh HV (created_node c)) as Hf. destruct (Arena_find a (created_node c)) as [x|].
  - destruct Hf as (Hx & c0 & Hc0 & Hn0 & Hnode). rewrite Hnode, Hc0. cbn [n_kind node_of fmap option_fmap option_map].
    assert (Ek : bool_decide (Some (created_kind c0) = Some (created_kind c)) = bool_decide (created_kind c0 = created_kind c))
      by (apply bool_decide_ext; split; [by intros [= ?]|by intros ->]).
    rewrite Ek. destruct (bool_decide_reflect (created_kind c0 = created_kind c)) as [Hk|]; [|by eauto]. cbn [negb].
    assert (Ed : descends_opt a p x = scene_under s (create_parent at_) (created_node c)).
    { rewrite <- Hname, <- Hn0, <- (node_at_held a x c0 Hc0). assert (Hox : occupied a x) by (by exists c0).
      destruct p as [q|]; cbn [descends_opt name].
      - destruct (Hp q eq_refl). by apply (descends_under a kids spare s HSh HV).
      - symmetry. apply scene_under_top. by apply (view_top a kids spare). }
    rewrite <- Ed. destruct (descends_opt a p x) eqn:Edd; [by eauto|].
    destruct (move_refines c at_ a s kids spare x c0 p before) as (a1 & a2 & E1 & E2 & HD2); [done..|].
    rewrite E1. cbn [mbind option_bind]. rewrite E2. cbn [mbind option_bind]. by eauto.
  - rewrite Hf. pose proof (take_capacity a kids spare s HSh HV) as Ht. destruct (Arena_take_free a) as [[ix|] a1] eqn:E.
    + destruct (Z.leb_spec NODES_MAX (Z.of_nat (size (s_nodes s)))); [lia|].
      destruct (create_refines c at_ a s kids spare ix a1 p before) as (a3 & E3 & HD3); [done..|].
      unfold begun in E3. cbv zeta in E3 |- *. rewrite E3. cbn [mbind option_bind]. by eauto.
    + destruct Ht as [-> Ht]. rewrite (proj2 (Z.leb_le _ _)) by done. by eauto.
Qed.

(** ** Properties of a node *)

(** A write to what a slot holds beside its node and its links. *)
Definition touches (f : Slot → Slot) : Prop :=
  ∀ s, held (f s) = held s ∧ parent (f s) = parent s ∧ first_child (f s) = first_child s ∧ next (f s) = next s.

Lemma shape_touch a kids spare x f :
  shape a kids spare [] → in_arena x → occupied a x → touches f → shape (Arena_slot_mut x f a) kids spare [].
Proof.
  intros [HL HS HN HA HO HP HH] Hx Hox Hf. pose proof (lk_sized _ _ HL) as Hs.
  set (a' := Arena_slot_mut x f a).
  assert (Hl : ∀ j, in_arena j → held (Arena_slot a' j) = held (Arena_slot a j) ∧ par a' j = par a j ∧
    first_child (Arena_slot a' j) = first_child (Arena_slot a j) ∧ nxt a' j = nxt a j).
  { intros j Hj. unfold par, nxt, a'. slots; [|done]. apply Hf. }
  assert (Ho : ∀ j, in_arena j → occupied a' j ↔ occupied a j)
    by (intros j Hj; unfold occupied; by rewrite (proj1 (Hl j Hj))).
  assert (Hsl : ∀ j, in_arena j → ¬ occupied a j → Arena_slot a' j = Arena_slot a j).
  { intros j Hj Hno. unfold a'. by slots. }
  assert (Hr : ∀ p z, z ∈ kids p → in_arena z) by (intros p z Hz; by apply (lk_range _ _ HL p)).
  split; try done.
  - destruct HL as [_ L2 L3 L4]. split; [by apply slot_mut_sized|done|done|]. intros p Hp.
    assert (Eh : Arena_head a' p = Arena_head a p) by (destruct p as [q|]; [by apply Hl|done]). rewrite Eh.
    apply (chain_same (nxt a)); [|by apply L4]. intros z Hz. symmetry. apply Hl. by eapply Hr.
  - destruct HS as [S1 S2 S3 S4 S5 S6 S7 S8 S9]. change (bumped a') with (bumped a).
    assert (Hb : ∀ j, 0 ≤ j < bumped a → in_arena j) by (unfold in_arena; lia).
    split; try done.
    + intros j Hj Hno. rewrite Ho in Hno by done. unfold nxt. rewrite Hsl by done. by apply S1.
    + apply (chain_same (nxt a)); [|done]. intros j [Hj _]%S3. symmetry. apply Hl. by apply Hb.
    + intros j. rewrite S3. split; intros [Hj Hno]; (split; [done|]); by rewrite Ho in * by auto.
    + intros j Hj. change (bumped a') with (bumped a) in Hj. rewrite Hsl; [by apply S5|unfold in_arena; lia|by apply empty_vacant, S5].
    + intros y z d e Hy Hz. rewrite (proj1 (Hl y Hy)), (proj1 (Hl z Hz)). by apply S6.
    + intros y d Hy. rewrite (proj1 (Hl y Hy)). by apply S7.
    + intros k. change (Arena_count_of a' k) with (Arena_count_of a k). rewrite S9. apply tally_ext.
      intros j Hj. unfold kind_at. by rewrite (proj1 (Hl j Hj)).
  - intros z Hz. rewrite Ho by done. destruct (Hl z Hz) as (_ & -> & _). by apply HO.
  - intros p z Hz. destruct (Hl z (Hr p z Hz)) as (_ & -> & _). by apply HP.
  - intros p z Hz. apply Ho; [by destruct (lk_range _ _ HL _ _ Hz)|]. by apply (HH _ z).
Qed.

Lemma set_refines n f g a s :
  draws a s → touches f →
  (∀ sl k p, mkSceneNode k p (transform (f sl)) (path (f sl)) (paint (f sl))
             = g (mkSceneNode k p (transform sl) (path sl) (paint sl))) →
  fst (Arena_set n f a) = fst (scene_set n g s) ∧ draws (snd (Arena_set n f a)) (snd (scene_set n g s)).
Proof.
  intros (kids & spare & HSh & HR & HV) Hf Hg. unfold Arena_set, scene_set, found.
  pose proof (view_find a kids spare s HSh HV n) as Hx. destruct (Arena_find a n) as [x|]; cbn [ok_or].
  2:{ rewrite Hx. split; [done|]. by exists kids, spare. }
  destruct Hx as (Hx & c & Hc & Hn & Hs). rewrite Hs. split; [done|]. cbn [snd].
  assert (Hox : occupied a x) by (by exists c).
  pose proof (lk_sized _ _ (sh_linked _ _ _ _ HSh)) as Hsz.
  assert (Hl : ∀ j, in_arena j → held (Arena_slot (Arena_slot_mut x f a) j) = held (Arena_slot a j) ∧
                                 par (Arena_slot_mut x f a) j = par a j).
  { intros j Hj. unfold par. slots; [|done]. split; apply Hf. }
  assert (Hnm : ∀ p, host a p → name (Arena_slot_mut x f a) p = name a p).
  { intros [q|] Hq; [|done]. destruct (Hq q eq_refl) as [Hqa _]. cbn. unfold Arena_node_at. by rewrite (proj1 (Hl q Hqa)). }
  assert (Hh : ∀ p, host (Arena_slot_mut x f a) p ↔ host a p).
  { intros p. split; intros H q ->; destruct (H q eq_refl) as [Hq Ho]; (split; [done|]);
      unfold occupied in *; by rewrite (proj1 (Hl q Hq)) in *. }
  exists kids, spare. split_and!; [by apply shape_touch| |split].
  - intros j Hj Ho. unfold occupied in Ho. rewrite (proj1 (Hl j Hj)) in Ho. destruct (HR j Hj Ho) as [l Hc2]. exists l.
    apply (chain_same (par a)); [|done]. intros z Hz. symmetry. apply Hl. by apply (chain_occupied a kids spare HSh j l Hj Ho Hc2).
  - intros z d Hz Hd. rewrite (proj1 (Hl z Hz)) in Hd. cbn [s_nodes]. destruct (decide (z = x)) as [->|Hne].
    + rewrite Hc in Hd. injection Hd as <-. rewrite Hn, lookup_insert_eq. f_equal. unfold node_of. rewrite <- Hg, (proj2 (Hl x Hx)).
      rewrite Hnm by (by apply (parent_host a kids spare HSh)). by slots.
    + rewrite lookup_insert_ne, (vw_slot _ _ _ HV z d Hz Hd).
      2:{ rewrite <- Hn. intros En. apply Hne. by apply (st_distinct _ _ (sh_stocked _ _ _ _ HSh) z x d c). }
      f_equal. unfold node_of. rewrite (proj2 (Hl z Hz)), Hnm by (apply (parent_host a kids spare HSh z Hz); by exists d).
      by slots.
  - intros m nd. cbn [s_nodes]. destruct (decide (m = n)) as [->|Hne]; intros Hm.
    + exists x, c. by rewrite (proj1 (Hl x Hx)).
    + rewrite lookup_insert_ne in Hm by done. destruct (vw_node _ _ _ HV m nd Hm) as (z & d & Hz & Hd & En).
      exists z, d. by rewrite (proj1 (Hl z Hz)).
  - intros p Hp. rewrite Hh in Hp. rewrite (Hnm p Hp). cbn [s_order]. rewrite (vw_order _ _ _ HV p Hp).
    apply list_fmap_ext. intros i z Hz. destruct (kids_in a kids spare [] HSh p z (list_elem_of_lookup_2 _ _ _ Hz)) as (Hza & _).
    unfold Arena_node_at. by rewrite (proj1 (Hl z Hza)).
  - intros m Hm. cbn [s_nodes s_order]. destruct (decide (m = n)) as [->|Hne]; [by rewrite lookup_insert_eq|].
    rewrite lookup_insert_ne by done. by apply HV.
Qed.

(** ** Removing a subtree *)
Section removing.
Context (a : Arena) (kids : option Z → list Z) (spare : list Z) (s : Scene).
Context (x : Z) (c : Created) (l1 l2 : list Z) (a1 a2 : Arena) (kids2 : option Z → list Z) (spare2 : list Z).
Hypothesis HSh : shape a kids spare [].
Hypothesis HR : rooted a.
Hypothesis HV : view a kids s.
Hypothesis Hx : in_arena x.
Hypothesis Hc : held (Arena_slot a x) = Some c.
Hypothesis Hk : kids (par a x) = l1 ++ x :: l2.
Hypothesis M : moved x (par a x) (kids (par a x)) a a1.
Hypothesis HSh2 : shape a2 kids2 spare2 [].
Hypothesis HT : torn a1 (set_kids kids (par a x) (l1 ++ l2)) [x] a2 kids2.

(** What is left is what it was. *)
Lemma left_slot j :
  in_arena j → occupied a2 j →
  j ≠ x ∧ occupied a j ∧ content (Arena_slot a2 j) = content (Arena_slot a j) ∧ par a2 j = par a j.
Proof.
  intros Hj Ho. assert (Hne : j ≠ x) by (intros ->; apply (to_all _ _ _ _ _ HT x); [set_solver|done]).
  destruct (to_left _ _ _ _ _ HT j Hj Ho) as (Ho1 & Ec & Ep). split_and!; [done|..].
  - by apply (moved_occupied _ _ _ _ _ j M Hj).
  - rewrite Ec. by apply M.
  - rewrite Ep. by apply (mv_par _ _ _ _ _ M).
Qed.

(** A node is left exactly when the root of the removal is not above it. *)
Lemma left_chain j l :
  in_arena j → occupied a j → chain (par a) (Some j) l →
  (occupied a2 j → (x ∉ l) ∧ chain (par a2) (Some j) l) ∧ (¬ occupied a2 j → x ∈ l).
Proof.
  intros Hj Ho Hl. split.
  - revert j Hj Ho Hl. induction l as [|y l IH]; intros j Hj Ho Hl Ho2; [done|].
    destruct Hl as [[= <-] Hl]. destruct (left_slot j Hj Ho2) as (Hne & _ & _ & Ep).
    assert (Hup : (x ∉ l) ∧ chain (par a2) (par a2 j) l).
    { rewrite Ep. destruct (par a j) as [q|] eqn:Eq.
      - destruct (parent_host a2 kids2 spare2 HSh2 j Hj Ho2) as [Hh _]. destruct (Hh q Ep) as [Hq Ho2q].
        by apply IH; [|by apply left_slot|..].
      - destruct l; [split; [set_solver|done]|by destruct Hl]. }
    destruct Hup. split; [set_solver|done].
  - intros Hno. assert (Hb : below (set_kids kids (par a x) (l1 ++ l2)) [x] j).
    { apply (to_below _ _ _ _ _ HT); [done| |done]. by apply (moved_occupied _ _ _ _ _ j M Hj). }
    clear Hno. revert l Hl Hj Ho. induction Hb as [y Hy|q y _ IH Hy]; intros l Hl Hj Ho.
    + apply list_elem_of_singleton in Hy as ->. destruct l as [|z l]; [done|]. destruct Hl as [[= <-] _]. set_solver.
    + assert (Hyk : y ∈ kids (Some q)).
      { unfold set_kids in Hy. case_decide as E; [|done]. rewrite E, Hk. set_solver. }
      destruct l as [|z l]; [done|]. destruct Hl as [[= <-] Hl]. rewrite (sh_par _ _ _ _ HSh _ _ Hyk) in Hl.
      destruct (kids_in a kids spare [] HSh _ _ Hyk) as (_ & _ & Hh). destruct (Hh q eq_refl) as [Hq Hoq].
      apply elem_of_cons. right. by apply IH.
Qed.

Lemma left_under j d :
  in_arena j → held (Arena_slot a j) = Some d →
  scene_under s (created_node d) (created_node c) = false ↔ occupied a2 j.
Proof.
  intros Hj Hd. assert (Ho : occupied a j) by (by exists d). assert (Hox : occupied a x) by (by exists c).
  destruct (HR j Hj Ho) as [l Hl]. pose proof (chain_length a kids spare HSh j l Hj Ho Hl) as Hlen.
  unfold scene_under. rewrite <- (node_at_held a j d Hd), <- (node_at_held a x c Hc).
  rewrite (lineage_chain a kids spare s HSh HV _ j l Hj Ho Hl Hlen), bool_decide_eq_false, list_elem_of_fmap.
  destruct (left_chain j l Hj Ho Hl) as [L1 L2]. split.
  - intros Hno. destruct (decide (occupied a2 j)) as [|Hn]; [done|]. destruct Hno. exists x. split; [done|by apply L2].
  - intros Ho2 (z & Ez & Hz). destruct (chain_occupied a kids spare HSh j l Hj Ho Hl z Hz).
    apply (L1 Ho2). by rewrite (node_at_inj a kids spare [] HSh x z).
Qed.

Let kept : gmap Z SceneNode :=
  filter (λ '(n, _), scene_under s n (created_node c) = false) (s_nodes s).

Lemma kept_slot z d :
  in_arena z → held (Arena_slot a z) = Some d → kept !! created_node d = if decide (occupied a2 z) then Some (node_of a z d) else None.
Proof.
  intros Hz Hd. unfold kept. pose proof (vw_slot _ _ _ HV z d Hz Hd) as Hs. destruct (decide (occupied a2 z)) as [Ho|Hno].
  - apply map_lookup_filter_Some. split; [done|]. by apply (left_under z d).
  - apply map_lookup_filter_None. right. intros m _ E. apply Hno. by apply (left_under z d).
Qed.

Lemma left_host p : host a2 p → host a p ∧ name a2 p = name a p.
Proof.
  intros H. destruct p as [q|]; [|done]. destruct (H q eq_refl) as [Hq Ho2].
  destruct (left_slot q Hq Ho2) as (_ & Ho & [= Eh _ _ _] & _). split.
  - intros y [= <-]. done.
  - cbn. unfold Arena_node_at. by rewrite Eh.
Qed.

Lemma left_view :
  view a2 kids2 (mkScene kept (λ q, if bool_decide (q = NO_NODE ∨ is_Some (kept !! q))
                                    then without (created_node c) (s_order s q) else [])).
Proof.
  split.
  - intros z d Hz Hd. assert (Ho2 : occupied a2 z) by (by exists d).
    destruct (left_slot z Hz Ho2) as (_ & _ & [= Eh E1 E2 E3] & Ep). pose proof Hd as Hd'. rewrite Eh in Hd'.
    cbn [s_nodes]. rewrite (kept_slot z d Hz Hd'), decide_True by done. f_equal. unfold node_of.
    destruct (parent_host a2 kids2 spare2 HSh2 z Hz Ho2) as [Hh _]. destruct (left_host _ Hh) as [_ En].
    by rewrite Ep in *; rewrite En, E1, E2, E3.
  - intros n nd Hn. cbn [s_nodes] in Hn. pose proof Hn as Hn'. unfold kept in Hn'.
    apply map_lookup_filter_Some in Hn' as [Hn' _]. destruct (vw_node _ _ _ HV n nd Hn') as (z & d & Hz & Hd & <-).
    rewrite (kept_slot z d Hz Hd) in Hn. case_decide as Ho; [|done].
    destruct (left_slot z Hz Ho) as (_ & _ & [= Eh _ _ _] & _). exists z, d. by rewrite Eh.
  - intros p Hp. destruct (left_host p Hp) as [Hpa En]. rewrite En. cbn [s_order].
    rewrite bool_decide_true.
    2:{ destruct p as [q|]; [right|by left]. destruct (Hp q eq_refl) as [Hq Ho2]. destruct (Hpa q eq_refl) as [_ [d Hd]].
        cbn. rewrite (node_at_held a q d Hd), (kept_slot q d Hq Hd), decide_True by done. eauto. }
    pose proof (unlinked_view a kids spare s x c l1 l2 a1 HSh HV Hx Hc Hk M) as HB.
    rewrite (to_lists _ _ _ _ _ HT p) by (intros q E; by apply Hp).
    assert (Hp1 : host a1 p) by (by apply (moved_host _ _ _ _ _ _ M)).
    rewrite <- (moved_name _ _ _ _ _ _ M Hpa), (vb_order _ _ _ _ _ HB p Hp1).
    apply list_fmap_ext. intros i z Hz. apply list_elem_of_lookup_2 in Hz.
    rewrite <- (to_lists _ _ _ _ _ HT p) in Hz by (intros q E; by apply Hp).
    destruct (kids_in a2 kids2 spare2 [] HSh2 p z Hz) as (Hza & Hzo & _).
    destruct (to_left _ _ _ _ _ HT z Hza Hzo) as (_ & [= Eh _ _ _] & _). unfold Arena_node_at. by rewrite Eh.
  - intros n Hn Hnone. cbn [s_nodes s_order] in *. rewrite Hnone, bool_decide_false; [done|].
    intros [?|[? [=]]]; done.
Qed.
End removing.

Lemma remove_run removal a x a1 gone a2 :
  Arena_find a (removal_root removal) = Some x → Arena_unlink x a = Some a1 →
  teardown (Z.to_nat NODES_MAX) removal (Some x) 0 a1 = Some (gone, a2) →
  Arena_remove removal a = Some (Ok gone, a2).
Proof.
  unfold Arena_remove, found. generalize (Z.to_nat NODES_MAX). intros fuel E0 E1 E2.
  rewrite E0. cbn [ok_or]. rewrite E1. cbn [mbind option_bind]. by rewrite E2.
Qed.

Lemma remove_refines removal a s :
  draws a s →
  ∃ r a', Arena_remove removal a = Some (r, a') ∧ fst (scene_remove removal s) = r ∧
          draws a' (snd (scene_remove removal s)).
Proof.
  intros HD. pose proof HD as (kids & spare & HSh & HR & HV). unfold scene_remove.
  pose proof (view_find a kids spare s HSh HV (removal_root removal)) as Hf.
  destruct (Arena_find a (removal_root removal)) as [x|] eqn:E0.
  2:{ rewrite Hf. exists (Err (NoSuchNode (removal_root removal))), a. unfold Arena_remove, found. by rewrite E0. }
  destruct Hf as (Hx & c & Hc & Hn & Hs). rewrite Hs. assert (Hox : occupied a x) by (by exists c).
  destruct (parent_host a kids spare HSh x Hx Hox) as [_ Hin]. destruct (list_elem_of_split _ _ Hin) as (l1 & l2 & Hk).
  destruct (shape_unlink a kids spare x (par a x) l1 l2 HSh Hk) as (a1 & E1 & HSh1 & M & _ & Hnx).
  assert (Hch : chain (nxt a1) (Some x) [x]) by done.
  assert (Hpop : population a1 ≤ Z.of_nat (Z.to_nat NODES_MAX)).
  { unfold population. pose proof (tally_bound (occupied a1)). unfold NODES_MAX in *. lia. }
  destruct (teardown_spec (Z.to_nat NODES_MAX) removal (Some x) 0 a1 _ spare [x] HSh1 Hch Hpop)
    as (a2 & kids2 & spare2 & E2 & HSh2 & HT).
  do 2 eexists. split; [exact (remove_run _ _ _ _ _ _ E0 E1 E2)|].
  pose proof (left_view a kids spare s x c l1 l2 a1 a2 kids2 spare2 HSh HR HV Hx Hc Hk M HSh2 HT) as HV2.
  rewrite <- Hn. cbn [fst snd]. split.
  - rewrite (view_size a kids spare s HSh HV). pose proof (view_size _ _ _ _ HSh2 HV2) as Hsz. cbn [s_nodes] in Hsz.
    rewrite Hsz. f_equal. rewrite Z.add_0_l. f_equal. unfold population. apply tally_ext.
    intros j Hj. symmetry. by apply (moved_occupied _ _ _ _ _ j M Hj).
  - exists kids2, spare2. split_and!; [done| |done]. intros j Hj Ho2.
    destruct (left_slot a kids spare s x c l1 l2 a1 a2 kids2 spare2 HSh HR HV Hx Hc Hk M HSh2 HT j Hj Ho2) as (_ & Ho & _).
    destruct (HR j Hj Ho) as [l Hl]. exists l.
    by apply (left_chain a kids spare s x c l1 l2 a1 a2 kids2 spare2 HSh HR HV Hx Hc Hk M HSh2 HT j l Hj Ho Hl).
Qed.

(** ** Deltas, one and many *)
Lemma change_named d c : Change_of d = Ok (Change_Created c) → created_node c ≠ NO_NODE.
Proof.
  unfold Change_of. destruct (Delta_check d) as [[]|]; [|done]. cbn [res_bind].
  destruct (d_body d) as [r|r|r|r|r|r|r]; try done.
  - destruct (Z.eqb_spec (create_node r) 0); [done|]. destruct (Kind_from_wire _); [|done]. by intros [= <-].
  - by destruct (remove_node r =? 0).
Qed.

Lemma answer_refines {A} (f : A → Applied) (m : option (res SceneRefusal A * Arena)) (q : res SceneRefusal A * Scene) :
  (∃ r a', m = Some (r, a') ∧ fst q = r ∧ draws a' (snd q)) →
  ∃ r a', (answer f <$> m) = Some (r, a') ∧ fst (scene_answer f q) = r ∧ draws a' (snd (scene_answer f q)).
Proof.
  intros (r & a' & -> & Hr & HD). exists (let? x := r in Ok (f x)), a'. cbn. unfold answer. cbn. by rewrite Hr.
Qed.

Lemma set_answer_refines {A} (f : A → Applied) (m : res SceneRefusal A * Arena) (q : res SceneRefusal A * Scene) :
  fst m = fst q ∧ draws (snd m) (snd q) →
  ∃ r a', Some (answer f m) = Some (r, a') ∧ fst (scene_answer f q) = r ∧ draws a' (snd (scene_answer f q)).
Proof. intros [E HD]. apply (answer_refines f (Some m) q). exists (fst m), (snd m). by destruct m. Qed.

Lemma apply_refines d a s :
  draws a s →
  ∃ r a', Arena_apply d a = Some (r, a') ∧ fst (scene_apply d s) = r ∧ draws a' (snd (scene_apply d s)).
Proof.
  intros HD. unfold Arena_apply, scene_apply. destruct (Change_of d) as [ch|e] eqn:Ec; [|by eauto].
  destruct (d_body d) as [at_|r|r|r|r|r|r].
  - destruct ch as [c|?|]; [|by eauto..]. apply answer_refines, hang_refines; [done|]. by apply (change_named d).
  - by apply set_answer_refines, set_refines.
  - by apply set_answer_refines, set_refines.
  - by apply set_answer_refines, set_refines.
  - destruct ch as [?|removal|]; [by eauto| |by eauto]. by apply answer_refines, remove_refines.
  - by eauto.
  - pose proof HD as (kids & spare & HSh & HR & HV). unfold Arena_set_effect, found.
    pose proof (view_find a kids spare s HSh HV (effect_node r)) as Hf.
    destruct (Arena_find a (effect_node r)) as [x|]; [destruct Hf as (_ & c & _ & _ & ->)|rewrite Hf]; cbn; eauto.
Qed.

Fixpoint Arena_run (ds : list Delta) (a : Arena) : option (list (res SceneRefusal Applied) * Arena) :=
  match ds with
  | [] => Some ([], a)
  | d :: ds => '(r, a) ← Arena_apply d a; '(rs, a) ← Arena_run ds a; Some (r :: rs, a)
  end.

Fixpoint scene_run (ds : list Delta) (s : Scene) : list (res SceneRefusal Applied) * Scene :=
  match ds with
  | [] => ([], s)
  | d :: ds => let '(r, s) := scene_apply d s in let '(rs, s) := scene_run ds s in (r :: rs, s)
  end.

Lemma run_refines ds a s :
  draws a s → ∃ a', Arena_run ds a = Some (fst (scene_run ds s), a') ∧ draws a' (snd (scene_run ds s)).
Proof.
  revert a s. induction ds as [|d ds IH]; intros a s HD; [by exists a|].
  destruct (apply_refines d a s HD) as (r & a1 & E & Er & HD1). cbn [Arena_run scene_run]. rewrite E. cbn [mbind option_bind].
  destruct (scene_apply d s) as [r' s1]. cbn in Er, HD1. subst r'. destruct (IH a1 s1 HD1) as (a2 & E2 & HD2).
  rewrite E2. cbn [mbind option_bind]. destruct (scene_run ds s1) as [rs s2]. by exists a2.
Qed.

Lemma empty_slot j : Arena_slot Arena_EMPTY j = Slot_EMPTY.
Proof.
  unfold Arena_slot, Arena_EMPTY. cbn [slots]. rewrite list_lookup_total_alt.
  destruct (replicate _ _ !! _) as [sl|] eqn:E; [|done]. by apply lookup_replicate in E as [-> _].
Qed.

Lemma empty_vacant_slot j : ¬ occupied Arena_EMPTY j.
Proof. apply empty_vacant, empty_slot. Qed.

Lemma empty_linked : linked Arena_EMPTY (λ _, []).
Proof.
  split.
  - apply length_replicate.
  - by intros p x ?%elem_of_nil.
  - by intros p q x ?%elem_of_nil.
  - intros [q|] Hq; cbn; [|reflexivity]. by rewrite empty_slot.
Qed.

Lemma empty_stocked : stocked Arena_EMPTY [].
Proof.
  split.
  - intros x _ _. unfold nxt. by rewrite empty_slot.
  - reflexivity.
  - intros x. split; [by intros ?%elem_of_nil|]. cbn. lia.
  - cbn. unfold NODES_MAX. lia.
  - intros x _. apply empty_slot.
  - intros x y c d _ _. by rewrite empty_slot.
  - intros x c _. by rewrite empty_slot.
  - reflexivity.
  - intros k. unfold tally. rewrite (filter_same _ (λ _, False)).
    + assert (Ef : ∀ l : list Z, filter (λ _, False) l = []) by (intros l; induction l as [|z l IH]; [done|rewrite filter_cons, decide_False by (by intros []); exact IH]).
      rewrite Ef. by destruct k.
    + intros x _. unfold kind_at. by rewrite empty_slot.
Qed.

Lemma draws_empty : draws Arena_EMPTY Scene_EMPTY.
Proof.
  exists (λ _, []), []. split_and!.
  - split; [apply empty_linked|apply empty_stocked|constructor|..].
    + by intros x ?%elem_of_nil.
    + intros x _. split; [by intros ?%empty_vacant_slot|]. by intros [?%elem_of_nil|?%elem_of_nil].
    + by intros p x ?%elem_of_nil.
    + by intros p x ?%elem_of_nil.
  - intros j _ Ho. by destruct (empty_vacant_slot j).
  - split.
    + intros x c _. by rewrite empty_slot.
    + intros n nd. cbn. by rewrite lookup_empty.
    + reflexivity.
    + reflexivity.
Qed.

(** ** Counting *)
Lemma filter_weight (P : Z → Prop) `{∀ x, Decision (P x)} x (l : list Z) :
  Z.of_nat (length (filter P (x :: l))) = (if bool_decide (P x) then 1 else 0) + Z.of_nat (length (filter P l)).
Proof. rewrite filter_cons. unfold bool_decide, decide. destruct (H x); cbn [length]; lia. Qed.

(** The census sums to the nodes held: each is of one kind. *)
Lemma live_population a spare : stocked a spare → Arena_live a = population a.
Proof.
  intros HS. assert (E : Arena_live a = foldr Z.add 0 (Arena_count_of a <$>
    [Kind_Transform; Kind_Clip; Kind_Layer; Kind_Draw; Kind_Effect; Kind_Semantic])).
  { unfold Arena_live, Arena_count_of, ByKind_at. pose proof (st_census _ _ HS) as Hl. unfold ByKind in *.
    destruct (census a) as [|c0 [|c1 [|c2 [|c3 [|c4 [|c5 [|c6 l]]]]]]]; try discriminate Hl. reflexivity. }
  rewrite E. cbn [fmap list_fmap foldr]. rewrite !(st_counts _ _ HS). unfold population, tally.
  induction (seqZ 0 NODES_MAX) as [|x l IH]; [reflexivity|]. rewrite !filter_weight.
  assert (Eo : bool_decide (occupied a x) = match kind_at a x with Some _ => true | None => false end).
  { unfold kind_at. destruct (bool_decide_reflect (occupied a x)) as [[c ->]|Hn]; [done|].
    unfold occupied in Hn. destruct (held (Arena_slot a x)); [destruct Hn; eauto|done]. }
  rewrite Eo. cbn beta. destruct (kind_at a x) as [[]|]; repeat case_bool_decide; try discriminate; try done; lia.
Qed.

Lemma count_size a kids spare s k :
  shape a kids spare [] → view a kids s →
  Arena_count_of a k = Z.of_nat (size (filter (λ '(_, nd), n_kind nd = k) (s_nodes s))).
Proof.
  intros HSh HV. rewrite (st_counts _ _ (sh_stocked _ _ _ _ HSh)). unfold tally. f_equal. rewrite <- size_dom.
  assert (E : dom (filter (λ '(_, nd), n_kind nd = k) (s_nodes s))
            = list_to_set (C := gset Z) (Arena_node_at a <$> filter (λ x, kind_at a x = Some k) (seqZ 0 NODES_MAX))).
  { apply set_eq. intros n. rewrite elem_of_dom, elem_of_list_to_set, list_elem_of_fmap. split.
    - intros [nd [En Ek]%map_lookup_filter_Some]. destruct (vw_node _ _ _ HV n nd En) as (x & c & Hx & Hc & Hn).
      exists x. split; [by rewrite (node_at_held a x c Hc)|]. apply list_elem_of_filter. split; [|by apply elem_of_arena].
      pose proof (vw_slot _ _ _ HV x c Hx Hc) as Hs. rewrite Hn, En in Hs. injection Hs as ->.
      unfold kind_at. rewrite Hc. cbn in Ek |- *. by rewrite Ek.
    - intros (x & -> & [Hk Hx%elem_of_arena]%list_elem_of_filter). unfold kind_at in Hk.
      destruct (held (Arena_slot a x)) as [c|] eqn:Hc; [|done]. injection Hk as <-.
      exists (node_of a x c). rewrite (node_at_held a x c Hc). apply map_lookup_filter_Some.
      split; [by apply (vw_slot _ _ _ HV)|done]. }
  rewrite E, size_list_to_set, length_fmap; [done|].
  apply NoDup_fmap_2_strong; [|apply list.NoDup_filter, NoDup_seqZ].
  assert (Ho : ∀ x, kind_at a x = Some k → occupied a x).
  { intros x. unfold kind_at, occupied. destruct (held (Arena_slot a x)); [eauto|done]. }
  intros x y [Hox%Ho Hx%elem_of_arena]%list_elem_of_filter [Hoy%Ho Hy%elem_of_arena]%list_elem_of_filter.
  by apply (node_at_inj a kids spare [] HSh).
Qed.

(** What an iterator over children still has to report. *)
Fixpoint collect (fuel : nat) (a : Arena) (at_ : option SlotIx) : list Z :=
  match fuel with
  | O => []
  | S fuel => match Children_next a at_ with
              | (Some n, at_) => n :: collect fuel a at_
              | (None, _) => []
              end
  end.

Lemma collect_chain fuel a at_ l :
  chain (nxt a) at_ l → (∀ x, x ∈ l → occupied a x) → (length l ≤ fuel)%nat →
  collect fuel a at_ = Arena_node_at a <$> l.
Proof.
  revert at_ l. induction fuel as [|fuel IH]; intros at_ l Hc Ho Hl; [by destruct l; [|cbn in Hl; lia]|].
  destruct l as [|x l]; cbn in Hc; [by subst|]. destruct Hc as [-> Hc]. cbn in Hl. cbn [collect Children_next].
  destruct (Ho x) as [c Hx]; [set_solver|]. rewrite Hx. cbn [fmap option_fmap option_map].
  change (list_fmap _ _ (Arena_node_at a) (x :: l)) with (Arena_node_at a x :: (Arena_node_at a <$> l)).
  rewrite (node_at_held a x c Hx). f_equal. apply IH; [done|set_solver|lia].
Qed.

(** ** The theorems *)

(** What a scene always is: every node in one sibling list, once, under
    [NO_NODE] or another node; nobody under themselves; no more than fit. *)
Record is_forest (s : Scene) : Prop := {
  if_listed : ∀ n nd, s_nodes s !! n = Some nd →
    n ≠ NO_NODE ∧ n ∈ s_order s (n_parent nd) ∧ (n_parent nd = NO_NODE ∨ is_Some (s_nodes s !! n_parent nd));
  if_only : ∀ p n, n ∈ s_order s p → ∃ nd, s_nodes s !! n = Some nd ∧ n_parent nd = p;
  if_once : ∀ p, NoDup (s_order s p);
  if_rooted : ∀ n, is_Some (s_nodes s !! n) →
    ∃ l r ndr, lineage (Z.to_nat NODES_MAX) s n = l ++ [r] ∧ NoDup (l ++ [r]) ∧
               s_nodes s !! r = Some ndr ∧ n_parent ndr = NO_NODE;
  if_bounded : Z.of_nat (size (s_nodes s)) ≤ NODES_MAX;
}.

Lemma chain_last f o l x : chain f o (l ++ [x]) → f x = None.
Proof. intros H. by apply chain_from in H as [_ ?]. Qed.

Lemma slot_parent_node a kids spare s x c :
  shape a kids spare [] → view a kids s → in_arena x → held (Arena_slot a x) = Some c →
  name a (par a x) = NO_NODE ∨ is_Some (s_nodes s !! name a (par a x)).
Proof.
  intros HSh HV Hx Hc. destruct (parent_host a kids spare HSh x Hx) as [Hh _]; [by exists c|].
  destruct (par a x) as [q|]; [right|by left]. destruct (Hh q eq_refl) as [Hq [d Hd]]. cbn.
  rewrite (node_at_held a q d Hd), (vw_slot _ _ _ HV q d Hq Hd). eauto.
Qed.

(** A list that is not empty belongs to a place in the arena. *)
Lemma order_host a kids s p :
  view a kids s → s_order s p ≠ [] → ∃ q, host a q ∧ name a q = p.
Proof.
  intros HV Hne. destruct (decide (p = NO_NODE)) as [->|Hp]; [by exists None|].
  destruct (s_nodes s !! p) as [nd|] eqn:En; [|by destruct Hne; apply HV].
  destruct (vw_node _ _ _ HV p nd En) as (x & c & Hx & Hc & Hn). exists (Some x). split.
  - intros q [= <-]. split; [done|by exists c].
  - cbn. by rewrite (node_at_held a x c Hc).
Qed.

Lemma kids_names_nodup a kids spare l :
  shape a kids spare [] → NoDup l → (∀ x, x ∈ l → in_arena x ∧ occupied a x) → NoDup (Arena_node_at a <$> l).
Proof.
  intros HSh Hd Hl. apply NoDup_fmap_2_strong; [|done].
  intros x y Hx Hy. destruct (Hl x Hx), (Hl y Hy). by apply (node_at_inj a kids spare [] HSh).
Qed.

Lemma draws_rooted a kids spare s x c :
  shape a kids spare [] → view a kids s → rooted a → in_arena x → held (Arena_slot a x) = Some c →
  ∃ l r ndr, lineage (Z.to_nat NODES_MAX) s (created_node c) = l ++ [r] ∧ NoDup (l ++ [r]) ∧
             s_nodes s !! r = Some ndr ∧ n_parent ndr = NO_NODE.
Proof.
  intros HSh HV HR Hx Hc. assert (Ho : occupied a x) by (by exists c).
  destruct (HR x Hx Ho) as [l Hl]. destruct l as [|z l _] using rev_ind; [done|].
  pose proof (chain_occupied a kids spare HSh x _ Hx Ho Hl) as Hall.
  destruct (Hall z) as [Hz [d Hd]]; [set_solver|].
  exists (Arena_node_at a <$> l), (created_node d), (node_of a z d).
  rewrite <- (node_at_held a x c Hc), (lineage_chain a kids spare s HSh HV _ x _ Hx Ho Hl (chain_length a kids spare HSh x _ Hx Ho Hl)).
  assert (E : (Arena_node_at a <$> l) ++ [created_node d] = Arena_node_at a <$> (l ++ [z]))
    by (rewrite fmap_app; cbn; by rewrite (node_at_held a z d Hd)).
  rewrite E. split_and!; [done| |by apply HV|cbn; by rewrite (chain_last _ _ _ _ Hl)].
  apply (kids_names_nodup a kids spare); [done|by eapply chain_nodup|done].
Qed.

Lemma draws_forest a s : draws a s → is_forest s.
Proof.
  intros (kids & spare & HSh & HR & HV).
  assert (Hk : ∀ q x, x ∈ kids q → in_arena x ∧ occupied a x)
    by (intros q x Hx; by destruct (kids_in a kids spare [] HSh q x Hx) as (? & ? & _)).
  split.
  - intros n nd Hn. destruct (vw_node _ _ _ HV n nd Hn) as (x & c & Hx & Hc & <-). assert (Ho : occupied a x) by (by exists c).
    rewrite (vw_slot _ _ _ HV x c Hx Hc) in Hn. injection Hn as <-. cbn [n_parent node_of].
    split_and!; [by apply (st_named _ _ (sh_stocked _ _ _ _ HSh) x)| |by eapply slot_parent_node].
    destruct (parent_host a kids spare HSh x Hx Ho) as [Hh Hin]. rewrite (vw_order _ _ _ HV _ Hh), <- (node_at_held a x c Hc).
    by apply (node_at_kids a kids spare [] HSh).
  - intros p n Hin. destruct (order_host a kids s p HV) as (q & Hq & <-); [by intros E; rewrite E in Hin; apply elem_of_nil in Hin|].
    rewrite (vw_order _ _ _ HV q Hq) in Hin. apply list_elem_of_fmap in Hin as (x & -> & Hx).
    destruct (Hk q x Hx) as (Hxa & [c Hc]). exists (node_of a x c).
    rewrite (node_at_held a x c Hc). split; [by apply HV|]. cbn. by rewrite (sh_par _ _ _ _ HSh q x Hx).
  - intros p. destruct (decide (s_order s p = [])) as [->|Hne]; [constructor|].
    destruct (order_host a kids s p HV Hne) as (q & Hq & <-). rewrite (vw_order _ _ _ HV q Hq).
    apply (kids_names_nodup a kids spare); [done| |by apply Hk].
    apply (kids_nodup a kids spare [] HSh). destruct q as [y|]; [by apply Hq|done].
  - intros n [nd Hn]. destruct (vw_node _ _ _ HV n nd Hn) as (x & c & Hx & Hc & <-).
    by eapply draws_rooted.
  - rewrite (view_size a kids spare s HSh HV). apply tally_bound.
Qed.

Lemma draws_live a s : draws a s → Arena_live a = Z.of_nat (size (s_nodes s)).
Proof.
  intros (kids & spare & HSh & _ & HV). rewrite (view_size a kids spare s HSh HV).
  by apply (live_population a spare), HSh.
Qed.

(** C25 The slots are the scene.  Whatever deltas a client sends, each one
    returns, its answer is the one the specification gives — a node hung or
    moved in front of the sibling it names, a subtree removed and how many nodes
    went with it, a property replaced, or the refusal the first broken rule
    earns — and the arena it leaves draws the scene the specification leaves:
    every node with its parent and properties, every list of children in paint
    order.  No walk along the links outlasts the slots. *)
Theorem scene_refines (ds : list Delta) :
  ∃ a, Arena_run ds Arena_EMPTY = Some (fst (scene_run ds Scene_EMPTY), a) ∧
       draws a (snd (scene_run ds Scene_EMPTY)).
Proof. apply run_refines, draws_empty. Qed.

(** C26 The graph is a forest, always.  After any deltas every node is in the
    sibling list of its parent and in no other, once; a parent is a node of the
    scene or none; going up from any node meets nobody twice and ends at a
    root; and there are never more nodes than slots, the census saying how
    many. *)
Theorem arena_is_a_forest (ds : list Delta) :
  ∃ rs a s, Arena_run ds Arena_EMPTY = Some (rs, a) ∧ draws a s ∧ is_forest s ∧
            Arena_live a = Z.of_nat (size (s_nodes s)).
Proof.
  destruct (run_refines ds _ _ draws_empty) as (a & E & HD). do 3 eexists.
  split_and!; [done..|by eapply draws_forest|by apply draws_live].
Qed.

Definition slot_answer {A : Type} (s : Scene) (n : Z) (f : SceneNode → A) : res SceneRefusal A :=
  match s_nodes s !! n with Some nd => Ok (f nd) | None => Err (NoSuchNode n) end.

(** C27 Every question is answered from the scene drawn: whether a node is held,
    its kind, its parent, its properties; its children and the roots, in paint
    order and to the end; how many nodes there are, of each kind and in all,
    and how many more will fit. *)
Theorem scene_answers (a : Arena) (s : Scene) :
  draws a s →
  (∀ n, Arena_holds a n = bool_decide (is_Some (s_nodes s !! n)) ∧
        Arena_kind_of a n = n_kind <$> s_nodes s !! n ∧
        Arena_parent_of a n = slot_answer s n n_parent ∧
        Arena_transform_of a n = slot_answer s n n_transform ∧
        Arena_path_of a n = slot_answer s n n_path ∧
        Arena_paint_of a n = slot_answer s n n_paint) ∧
  (∀ n, (let? at_ := Arena_children a n in Ok (collect (Z.to_nat NODES_MAX) a at_)) = slot_answer s n (λ _, s_order s n)) ∧
  collect (Z.to_nat NODES_MAX) a (roots a) = s_order s NO_NODE ∧
  (∀ k, Arena_count_of a k = Z.of_nat (size (filter (λ '(_, nd), n_kind nd = k) (s_nodes s)))) ∧
  Arena_live a = Z.of_nat (size (s_nodes s)) ∧
  Arena_remaining a = NODES_MAX - Z.of_nat (size (s_nodes s)).
Proof.
  intros HD. pose proof (draws_live a s HD) as Hlive. pose proof (if_bounded _ (draws_forest a s HD)) as Hb.
  destruct HD as (kids & spare & HSh & HR & HV).
  assert (Hcol : ∀ p, host a p → collect (Z.to_nat NODES_MAX) a (Arena_head a p) = s_order s (name a p)).
  { intros p Hp. rewrite (vw_order _ _ _ HV p Hp). assert (Hpl : place p) by (destruct p; [by apply Hp|done]).
    pose proof (lk_lists _ _ (sh_linked _ _ _ _ HSh) p Hpl) as Hc.
    apply collect_chain; [done| |apply in_arena_length; [by eapply chain_nodup|]];
      intros x Hx; by destruct (kids_in a kids spare [] HSh p x Hx) as (? & ? & _). }
  split_and!; [| |by apply (Hcol None)|by intros k; eapply count_size|done|].
  - intros n. unfold Arena_holds, Arena_kind_of, Arena_parent_of, Arena_transform_of, Arena_path_of, Arena_paint_of, found, slot_answer.
    pose proof (view_find a kids spare s HSh HV n) as Hf. destruct (Arena_find a n) as [x|].
    + destruct Hf as (Hx & c & Hc & Hn & ->). cbn. rewrite Hc. cbn. split_and!; reflexivity.
    + rewrite Hf. cbn. split_and!; reflexivity.
  - intros n. unfold Arena_children, found, slot_answer.
    pose proof (view_find a kids spare s HSh HV n) as Hf. destruct (Arena_find a n) as [x|]; [|by rewrite Hf].
    destruct Hf as (Hx & c & Hc & Hn & ->). cbn [ok_or res_bind]. f_equal.
    change (first_child (Arena_slot a x)) with (Arena_head a (Some x)).
    rewrite (Hcol (Some x)); [by rewrite <- Hn, <- (node_at_held a x c Hc)|]. intros q [= <-]. split; [done|by exists c].
  - unfold Arena_remaining, saturating_sub. rewrite Hlive. lia.
Qed.

Lemma take_none a a' : Arena_take_free a = (None, a') → a' = a.
Proof. unfold Arena_take_free. destruct (free a); [done|]. destruct (bumped a <? NODES_MAX); [done|]. by intros [= <-]. Qed.

Lemma hang_refused c at_ a e a' : Arena_hang c at_ a = Some (Err e, a') → a' = a.
Proof.
  unfold Arena_hang. destruct (_ || _); [by intros [= _ <-]|]. destruct (_ =? _); [by intros [= _ <-]|].
  destruct (hang_parent a at_) as [p|]; [|by intros [= _ <-]].
  destruct (hang_before a at_ p) as [before|]; [|by intros [= _ <-]].
  destruct (Arena_find a (created_node c)) as [x|].
  - destruct (negb _); [by intros [= _ <-]|]. destruct (descends_opt a p x); [by intros [= _ <-]|].
    destruct (Arena_unlink x a) as [a1|]; [|done]. cbn [mbind option_bind]. by destruct (Arena_link x p before a1).
  - destruct (Arena_take_free a) as [[ix|] a1] eqn:E; [|intros [= _ <-]; by apply take_none].
    cbv zeta. by destruct (Arena_link _ _ _ _).
Qed.

Lemma remove_refused removal a e a' : Arena_remove removal a = Some (Err e, a') → a' = a.
Proof.
  unfold Arena_remove. generalize (Z.to_nat NODES_MAX). intros fuel.
  destruct (found a (removal_root removal)) as [x|]; [|by intros [= _ <-]].
  destruct (Arena_unlink x a) as [a1|]; [|done]. cbn [mbind option_bind]. by destruct (teardown _ _ _ _ _) as [[]|].
Qed.

Lemma answer_refused {A} (f : A → Applied) (m : option (res SceneRefusal A * Arena)) e a a' :
  (∀ a1, m = Some (Err e, a1) → a1 = a) → answer f <$> m = Some (Err e, a') → a' = a.
Proof.
  intros H. destruct m as [[[x|e'] a1]|]; cbn; [by intros [=]| |by intros [=]]. intros [= -> <-]. by apply H.
Qed.

(** C28 Nothing half-applies: a delta that is refused, whatever the state of the
    arena and whatever the reason, leaves every slot, every link and the census
    as they were. *)
Theorem refused_delta_changes_nothing (d : Delta) (a a' : Arena) (e : SceneRefusal) :
  Arena_apply d a = Some (Err e, a') → a' = a.
Proof.
  unfold Arena_apply. destruct (Change_of d) as [ch|?]; [|by intros [= _ <-]].
  assert (Hset : ∀ n f (g : unit → Applied), Some (answer g (Arena_set n f a)) = Some (Err e, a') → a' = a).
  { intros n f g. unfold Arena_set. destruct (found a n); [by intros [=]|]. by intros [= _ <-]. }
  destruct (d_body d) as [at_|r|r|r|r|r|r].
  - destruct ch; [|by intros [= _ <-]..]. apply answer_refused. intros a1. apply hang_refused.
  - apply Hset.
  - apply Hset.
  - apply Hset.
  - destruct ch as [?|removal|]; [by intros [= _ <-]| |by intros [= _ <-]].
    apply answer_refused. intros a1. apply remove_refused.
  - by intros [=].
  - unfold Arena_set_effect, answer. cbn [fst snd]. intros H. apply (inj Some) in H.
    by apply (f_equal snd) in H.
Qed.

Lemma draws_absent a s n : draws a s → Arena_holds a n = false → s_nodes s !! n = None.
Proof.
  intros (kids & spare & HSh & _ & HV). unfold Arena_holds. pose proof (view_find a kids spare s HSh HV n) as Hf.
  revert Hf. generalize (Arena_find a n). intros [x|] Hf; [|done]. intros E%bool_decide_eq_false. destruct E. eauto.
Qed.

(** A new root, in the specification. *)
Lemma scene_hang_root node k s :
  node ≠ NO_NODE → s_nodes s !! node = None →
  scene_hang (mkCreated node k) (mkCreateNode node NO_NODE NO_NODE (Kind_wire k)) s =
    if NODES_MAX <=? Z.of_nat (size (s_nodes s)) then (Err Capacity, s)
    else (Ok Hung_Created, scene_place node NO_NODE NO_NODE (mkSceneNode k NO_NODE None None None) s).
Proof.
  intros Hn Hnone. unfold scene_hang. cbn [created_node created_kind create_node create_kind create_parent create_before].
  rewrite !Z.eqb_refl, (proj2 (Z.eqb_neq NO_NODE node)), Hnone by done. reflexivity.
Qed.

(** C29 The bound is the only limit, and no slot is ever lost.  In any arena a
    sequence of deltas reaches, a node that is not in the scene can be begun as
    a root exactly when fewer than [NODES_MAX] nodes are live: the slots of
    every subtree torn down serve again, and the one refusal there is room for
    is [Capacity]. *)
Theorem room_is_exact (ds : list Delta) (node : Z) (k : Kind) :
  node ≠ NO_NODE →
  ∃ rs a, Arena_run ds Arena_EMPTY = Some (rs, a) ∧
    (Arena_holds a node = false →
     ∃ a', Arena_hang (mkCreated node k) (mkCreateNode node NO_NODE NO_NODE (Kind_wire k)) a =
             Some (if Arena_live a <? NODES_MAX then Ok Hung_Created else Err Capacity, a') ∧
           Arena_live a' = Z.min (Arena_live a + 1) NODES_MAX).
Proof.
  intros Hn. destruct (run_refines ds _ _ draws_empty) as (a & E & HD). do 2 eexists. split; [exact E|]. intros Hno.
  revert HD. generalize (snd (scene_run ds Scene_EMPTY)). intros s HD.
  pose proof (draws_absent a s node HD Hno) as Hnone. pose proof (if_bounded _ (draws_forest a s HD)) as Hb.
  destruct (hang_refines (mkCreated node k) (mkCreateNode node NO_NODE NO_NODE (Kind_wire k)) a s HD Hn)
    as (r & a' & E' & Er & HD').
  exists a'. rewrite E', (draws_live _ _ HD), (draws_live _ _ HD'). revert Er. rewrite (scene_hang_root node k s Hn Hnone).
  destruct (Z.leb_spec NODES_MAX (Z.of_nat (size (s_nodes s)))), (Z.ltb_spec (Z.of_nat (size (s_nodes s))) NODES_MAX);
    try lia; cbn [fst snd]; intros <-; (split; [done|]).
  - lia.
  - cbn [scene_place s_nodes]. rewrite map_size_insert_None by done. lia.
Qed.

(** ** A scene drawn *)
Definition delta_of (body : Entry) : Delta := mkDelta 0 0 0 0 0 body.
Definition creating (node parent before : Z) (k : Kind) : Delta :=
  delta_of (Entry_CreateNode (mkCreateNode node parent before (Kind_wire k))).
Definition removing (node : Z) : Delta := delta_of (Entry_RemoveNode (mkRemoveNode node)).

(** A layer with a drawing and a clip in front of it, and a drawing in the clip,
    which is then moved out and the clip removed. *)
Definition drawing : list Delta :=
  [creating 1 0 0 Kind_Layer; creating 2 1 0 Kind_Draw; creating 3 1 2 Kind_Clip; creating 4 3 0 Kind_Draw;
   creating 5 3 4 Kind_Effect; creating 4 1 2 Kind_Draw; removing 3].

Definition drawn_arena : Arena :=
  match Arena_run drawing Arena_EMPTY with Some (_, a) => a | None => Arena_EMPTY end.

Example drawing_answers :
  fst <$> Arena_run drawing Arena_EMPTY =
    Some [Ok (Applied_Hung Hung_Created); Ok (Applied_Hung Hung_Created); Ok (Applied_Hung Hung_Created);
          Ok (Applied_Hung Hung_Created); Ok (Applied_Hung Hung_Created); Ok (Applied_Hung Hung_Moved);
          Ok (Applied_Removed 2)].
Proof. vm_compute. reflexivity. Qed.

Lemma drawn_draws : draws drawn_arena (snd (scene_run drawing Scene_EMPTY)).
Proof.
  destruct (run_refines drawing _ _ draws_empty) as (a & E & HD). unfold drawn_arena. by rewrite E.
Qed.

Lemma scene_answers_witness :
  draws drawn_arena (snd (scene_run drawing Scene_EMPTY)) ∧ Arena_live drawn_arena = 3 ∧
  Arena_parent_of drawn_arena 4 = Ok 1.
Proof.
  pose proof (scene_answers drawn_arena _ drawn_draws) as (H1 & _ & _ & _ & H2 & _).
  split; [exact drawn_draws|]. split.
  - rewrite H2. vm_compute. reflexivity.
  - destruct (H1 4) as (_ & _ & H & _). rewrite H. vm_compute. reflexivity.
Defined.

Lemma refused_delta_changes_nothing_witness :
  ∃ a', Arena_apply (creating 1 4 0 Kind_Layer) drawn_arena = Some (Err (Cycle 1), a') ∧ a' = drawn_arena.
Proof.
  exists drawn_arena. assert (E : Arena_apply (creating 1 4 0 Kind_Layer) drawn_arena = Some (Err (Cycle 1), drawn_arena))
    by (vm_compute; reflexivity).
  split; [exact E|]. exact (refused_delta_changes_nothing _ _ _ _ E).
Defined.

Lemma room_is_exact_witness :
  ∃ a', Arena_hang (mkCreated 3 Kind_Layer) (mkCreateNode 3 NO_NODE NO_NODE (Kind_wire Kind_Layer)) drawn_arena =
          Some (Ok Hung_Created, a') ∧ Arena_live a' = 4.
Proof.
  destruct (room_is_exact drawing 3 Kind_Layer) as (rs & a & E & H); [discriminate|].
  assert (Ea : drawn_arena = a) by (unfold drawn_arena; rewrite E; reflexivity).
  rewrite <- Ea in H. assert (El : Arena_live drawn_arena = 3) by (vm_compute; reflexivity).
  destruct H as (a' & E' & Hl); [vm_compute; reflexivity|]. rewrite El in E', Hl. exists a'. split; [exact E'|exact Hl].
Defined.
