(* ===== verification/Swap.v ===== *)
(** * Swapping an occupant in place: [abi/src/transfer.rs], [abi/src/swap.rs]

    What each build declares of the state it hands over, and the state machine
    of one swap: every step but the last can be abandoned with the outgoing
    occupant still serving, and the last stores the routing word.  The memory
    orders of that word are the hardware's; here it is a word. *)

From S2P Require Import Prelude.

#[local] Open Scope Z_scope.

Definition mode_RESTART_ONLY : Z := 1.
Definition mode_IN_PLACE : Z := 2.

Definition mode_known (value : Z) : bool := (value =? mode_RESTART_ONLY) || (value =? mode_IN_PLACE).

Record Declaration : Type := mkDeclaration {
  schema : Z;
  record_bytes : Z;
  records_max : Z;
  mode : Z;
  reserved : list Z;
}.

Definition Declaration_EMPTY : Declaration := mkDeclaration 0 0 0 0 [0; 0; 0].
Definition Declaration_RESTART_ONLY : Declaration := mkDeclaration 0 0 0 mode_RESTART_ONLY [0; 0; 0].

Definition Declaration_window_bytes (d : Declaration) : Z := record_bytes d * records_max d.
Definition Declaration_in_place (d : Declaration) : bool := mode d =? mode_IN_PLACE.

Definition Declaration_transfers_to (d incoming : Declaration) : bool :=
  Declaration_in_place d && Declaration_in_place incoming &&
  (schema d =? schema incoming) && (record_bytes d =? record_bytes incoming).

(** ** The routing word *)
Definition PAUSED : Z := 0.

Definition Routing : Type := Z.
Definition Routing_new (generation : Z) : Routing := generation.
Definition Routing_delivering (r : Routing) : Z := r.
Definition Routing_open (r : Routing) : bool := negb (Routing_delivering r =? PAUSED).
Definition Routing_pause (r : Routing) : Routing := PAUSED.
Definition Routing_commit (generation : Z) (r : Routing) : Routing := generation.

(** ** A swap *)
Inductive Abandoned : Type :=
| Incompatible | RingsNotEmpty | NotQuiescent | WindowTooSmall | Abandoned_Refused.

Inductive Phase : Type := Planned | Drained | Quiescent | Written | Acknowledged | Committed.

#[export] Instance Phase_eq_dec : EqDecision Phase.
Proof. solve_decision. Defined.

Record Swap : Type := mkSwap {
  outgoing : Declaration;
  incoming : Declaration;
  phase : Phase;
  records : Z;
}.

Definition in_phase (p : Phase) (s : Swap) : Swap := mkSwap (outgoing s) (incoming s) p (records s).

Definition Swap_plan (outgoing incoming : Declaration) : res Abandoned Swap :=
  if negb (Declaration_transfers_to outgoing incoming) then Err Incompatible
  else Ok (mkSwap outgoing incoming Planned 0).

Definition Swap_window_bytes (s : Swap) : Z := Declaration_window_bytes (incoming s).

Definition Swap_drained (empty : bool) : sm Swap Abandoned unit :=
  λ s,
    if negb (bool_decide (phase s = Planned)) then (Err Abandoned_Refused, s)
    else if negb empty then (Err RingsNotEmpty, s)
    else (Ok tt, in_phase Drained s).

Definition Swap_asserted (holds_nothing : bool) : sm Swap Abandoned unit :=
  λ s,
    if negb (bool_decide (phase s = Drained)) then (Err Abandoned_Refused, s)
    else if negb holds_nothing then (Err NotQuiescent, s)
    else (Ok tt, in_phase Quiescent s).

Definition Swap_wrote (n : Z) : sm Swap Abandoned unit :=
  λ s,
    if negb (bool_decide (phase s = Quiescent)) then (Err Abandoned_Refused, s)
    else if (records_max (incoming s) <? n) || (records_max (outgoing s) <? n) then (Err WindowTooSmall, s)
    else (Ok tt, mkSwap (outgoing s) (incoming s) Written n).

Definition Swap_acknowledged (accepted : bool) : sm Swap Abandoned unit :=
  λ s,
    if negb (bool_decide (phase s = Written)) || negb accepted then (Err Abandoned_Refused, s)
    else (Ok tt, in_phase Acknowledged s).

(** The routing word is shared: it is beside the swap in the state. *)
Definition Swap_commit (generation : Z) : sm (Swap * Routing) Abandoned unit :=
  λ '(s, r),
    if negb (bool_decide (phase s = Acknowledged)) then (Err Abandoned_Refused, (s, r))
    else (Ok tt, (in_phase Committed s, Routing_commit generation r)).

Record Tally : Type := mkTally { places_swapped : Z; places_restarted : Z; swaps_abandoned : Z }.

Definition Tally_places_refilled (t : Tally) : Z := saturating_add 32 (places_swapped t) (places_restarted t).

(** ** Any calls, in any order *)
Inductive swap_call : Type :=
| Call_drained (empty : bool)
| Call_asserted (holds_nothing : bool)
| Call_wrote (n : Z)
| Call_acknowledged (accepted : bool)
| Call_commit (generation : Z).

Definition on_swap (m : sm Swap Abandoned unit) : sm (Swap * Routing) Abandoned unit :=
  λ '(s, r), let '(a, s) := m s in (a, (s, r)).

Definition swap_step (c : swap_call) : sm (Swap * Routing) Abandoned unit :=
  match c with
  | Call_drained b => on_swap (Swap_drained b)
  | Call_asserted b => on_swap (Swap_asserted b)
  | Call_wrote n => on_swap (Swap_wrote n)
  | Call_acknowledged b => on_swap (Swap_acknowledged b)
  | Call_commit g => Swap_commit g
  end.

(** The calls that were accepted, in order, and the state they left. *)
Fixpoint swap_run (cs : list swap_call) (st : Swap * Routing) : list swap_call * (Swap * Routing) :=
  match cs with
  | [] => ([], st)
  | c :: cs =>
      let '(a, st) := swap_step c st in
      let '(l, st) := swap_run cs st in
      (match a with Ok _ => c :: l | Err _ => l end, st)
  end.

Definition phase_rank (p : Phase) : nat :=
  match p with
  | Planned => 0 | Drained => 1 | Quiescent => 2 | Written => 3 | Acknowledged => 4 | Committed => 5
  end.

(** The one way through: [n] records, generation [g]. *)
Definition whole_swap (n g : Z) : list swap_call :=
  [Call_drained true; Call_asserted true; Call_wrote n; Call_acknowledged true; Call_commit g].

(** What a swap planned from [o] to [i] over the word [r0] has come to once the
    calls of [l] have been accepted. *)
Definition come_to (o i : Declaration) (r0 : Routing) (l : list swap_call) (s : Swap) (r : Routing) : Prop :=
  outgoing s = o ∧ incoming s = i ∧
  ∃ n g, l = take (phase_rank (phase s)) (whole_swap n g) ∧
    ((3 ≤ phase_rank (phase s))%nat → records s = n ∧ n ≤ records_max i ∧ n ≤ records_max o) ∧
    r = if bool_decide (phase s = Committed) then g else r0.

Lemma come_to_step o i r0 l s r c :
  come_to o i r0 l s r →
  match swap_step c (s, r) with
  | (Ok _, (s', r')) => come_to o i r0 (l ++ [c]) s' r'
  | (Err _, st) => st = (s, r)
  end.
Proof.
  destruct s as [o' i' p m]. intros (<- & <- & n & g & -> & Hn & ->). cbn [phase outgoing incoming records] in *.
  destruct c as [b|b|n'|b|g'], p; cbn [swap_step on_swap]; try reflexivity.
  - destruct b; [|reflexivity]. split_and!; [done..|]. exists n, g. split_and!; [done|cbn; lia|done].
  - destruct b; [|reflexivity]. split_and!; [done..|]. exists n, g. split_and!; [done|cbn; lia|done].
  - unfold Swap_wrote. cbn [phase incoming outgoing]. rewrite bool_decide_true by done. cbn [negb].
    destruct (Z.ltb_spec (records_max i') n'); [reflexivity|]. destruct (Z.ltb_spec (records_max o') n'); [reflexivity|].
    split_and!; [done..|]. exists n', g. by split_and!.
  - destruct b; [|reflexivity]. split_and!; [done..|]. exists n, g. split_and!; [done|intros _; apply Hn; cbn; lia|done].
  - split_and!; [done..|]. exists n, g'. split_and!; [done|intros _; apply Hn; cbn; lia|done].
Qed.

Lemma come_to_run o i r0 cs l s r taken s' r' :
  come_to o i r0 l s r → swap_run cs (s, r) = (taken, (s', r')) → come_to o i r0 (l ++ taken) s' r'.
Proof.
  revert l s r taken. induction cs as [|c cs IH]; intros l s r taken HI; cbn [swap_run].
  - intros [= <- <- <-]. by rewrite app_nil_r.
  - pose proof (come_to_step o i r0 l s r c HI) as Hs. destruct (swap_step c (s, r)) as [[[]|e] [s1 r1]].
    + destruct (swap_run cs (s1, r1)) as [l1 st1] eqn:E. intros [= <- ->].
      apply (IH (l ++ [c])) in E; [|done]. by rewrite <- (assoc_L (++)) in E.
    + injection Hs as -> ->. destruct (swap_run cs (s, r)) as [l1 st1] eqn:E. intros [= <- ->]. by apply (IH l) in E.
Qed.

(** There is one way through a swap.  Whatever is called on a planned swap, in
    whatever order, the calls it accepts are the five of a whole swap from the
    start up to where it has come: rings empty, nothing held, records written
    that fit both bounds, accepted, committed.  The routing word is the one it
    was until the last of them, and then the generation committed; two
    declarations that do not transfer are never planned. *)
Theorem swap_takes_every_step (o i : Declaration) (s : Swap) (r : Routing) (cs : list swap_call)
    (taken : list swap_call) (s' : Swap) (r' : Routing) :
  Swap_plan o i = Ok s → swap_run cs (s, r) = (taken, (s', r')) →
  Declaration_transfers_to o i = true ∧
  ∃ n g, taken = take (phase_rank (phase s')) (whole_swap n g) ∧
    ((3 ≤ phase_rank (phase s'))%nat → records s' = n ∧ n ≤ records_max i ∧ n ≤ records_max o) ∧
    r' = if bool_decide (phase s' = Committed) then g else r.
Proof.
  unfold Swap_plan. destruct (Declaration_transfers_to o i); [|done]. intros [= <-] E. split; [done|].
  assert (H0 : come_to o i r [] (mkSwap o i Planned 0) r).
  { split_and!; [done..|]. exists 0, 0. split_and!; [done|cbn; lia|done]. }
  by apply (come_to_run _ _ _ _ _ _ _ _ _ _ H0) in E as (_ & _ & E).
Qed.

(** Declarations of one component: what the second writes, the first reads. *)
Definition blk : Declaration := mkDeclaration 1 32 16 mode_IN_PLACE [0; 0; 0].

Lemma swap_takes_every_step_witness :
  swap_run [Call_commit 9; Call_drained true; Call_drained true; Call_asserted true; Call_wrote 17; Call_wrote 3;
            Call_acknowledged true; Call_commit 2; Call_commit 3] (mkSwap blk blk Planned 0, 1) =
    (whole_swap 3 2, (mkSwap blk blk Committed 3, 2)) ∧
  Declaration_transfers_to blk blk = true.
Proof.
  split; [reflexivity|].
  eapply (swap_takes_every_step blk blk (mkSwap blk blk Planned 0) 1
    [Call_commit 9; Call_drained true; Call_drained true; Call_asserted true; Call_wrote 17; Call_wrote 3;
     Call_acknowledged true; Call_commit 2; Call_commit 3]); reflexivity.
Defined.

(** A window of the widest records is a 64-bit number of bytes. *)
Lemma window_fits d :
  is_uint 32 (record_bytes d) → is_uint 32 (records_max d) → is_uint 64 (Declaration_window_bytes d).
Proof. unfold is_uint, Declaration_window_bytes. nia. Qed.
